(* ===== verification/_CoqProject ===== *)
-Q . S2P
Prelude.v
KeyedList.v
Domain.v
Matching.v
MatchingSpec.v
MatchingInv.v
MatchingRun.v
MatchingSweep.v
MatchingRest.v
MatchingRefine.v
MatchingAudit.v
MatchingTheorems.v
Bytes.v
JournalCodec.v
JournalFrames.v
JournalTheorems.v
RunHeaderCodec.v
RunHeaderTheorems.v
RunCatalogCodec.v
Posix.v
JournalReader.v
JournalParse.v
JournalFile.v
JournalLoadTheorems.v
JournalWriter.v
JournalRecovery.v
JournalAppend.v
JournalCrashTheorems.v
Replay.v
Projection.v
ProjectionTheorems.v
Queues.v
Admission.v
AdmissionTheorems.v
AdmissionRecovery.v
Sequencer.v
SequencerCycle.v
SequencerTheorems.v
Bus.v
EngineWorker.v
FixParser.v
FixParserTheorems.v
FixTask.v
Paths.v
FileSystem.v
CatalogStorage.v
JournalStorage.v
CatalogRun.v
CatalogTheorems.v
RunIdReservation.v
NewRun.v
NewRunTheorems.v
ResultDispatcher.v
Controller.v
ControllerLifecycle.v
ControllerProcessing.v
WorkerFrames.v
ControllerInv.v
ControllerCycle.v
ControllerOperations.v
LifecycleTheorems.v
EventJson.v
JsonText.v
EventJsonFacts.v
EventGateway.v
EventDelivery.v
EventService.v
StaticAssets.v
HttpsSession.v
HttpsServer.v
HttpsSessionInv.v
HttpsServerInv.v
HttpsServerTheorems.v
Idle.v
ExchangeProcess.v
ExchangeProcessTheorems.v
ProcessingPath.v
ProcessingPathTheorems.v
ControllerPath.v
Restart.v
