(* ===== verification/Prelude.v ===== *)
(** * Verification library for the financial exchange

    A model of the exchange's C++ core and the theorems that make it correct.  This
    file is the root: it describes the whole library and then holds what every other
    file shares (fixed-width integers, exceptions and state, generic lemmas).

    ** The program

    A client's FIX message is normalized by the gateway and admitted at most once; the
    sequencer gives it the next command sequence, appends it to the run's journal and
    hands it to the matching engine; the engine's result completes the admission
    record and is projected into private results and public trades, which the
    application gateway serializes and routes to its connections; the application's
    assets come from an HTTPS server.  A run is recorded in a catalog; the run
    controller starts, recovers, pauses, stops and consults runs.

    ** Files and sources

    Each part has files for its model, for its lemmas and for its properties
    ([...Theorems.v], or beside the model).  Sources are under [src/].

    - Vocabulary: [Domain.v] ([core/domain], [core/instrument], [sequence_message.hpp],
      [command_result.hpp]); [KeyedList.v] for the ordered maps the engine uses.
    - Matching ([matching_engine/src/matching_engine.cpp], [matching_state.hpp]):
      [Matching.v] is the member functions of [MatchingState]; price levels are
      association lists in the order of the [std::map], list cells and iterators are
      addresses of a store, so a dangling iterator is an error value.
      [MatchingSpec.v] is the abstract price-time specification, the [Matching...] files
      the refinement.  [EngineWorker.v] is the worker [MatchingEngine].
    - Storage ([core/storage]): [Bytes.v] (little-endian fields, CRC-32C),
      [JournalCodec.v], [RunHeaderCodec.v], [RunCatalogCodec.v] (the three records),
      [Posix.v] and [FileSystem.v] (the calls the code makes, as classes with their
      documented behaviour), [JournalReader.v], [JournalWriter.v],
      [JournalRecovery.v], [JournalStorage.v], [CatalogStorage.v],
      [RunIdReservation.v], [NewRun.v].
    - Replay and projections ([matching_engine/src/run_journal_replay.cpp],
      [private_result_projection.cpp], [public_trade_projection.cpp]): [Replay.v],
      [Projection.v].
    - Queues, admission and the pipeline: [Queues.v] (the three bounded queues; the
      lock-free queue is a class), [Admission.v] and [AdmissionRecovery.v]
      ([core/admission]), [Sequencer.v] ([sequencer]), [Bus.v] ([core/bus]), [FixParser.v]
      and [FixTask.v] ([core/fix]), [Idle.v] ([core/task/include/adaptive_idle.hpp] and
      the endless loops of the four workers), [ExchangeProcess.v]
      ([core/exchange/src/main.cpp]: the process that composes them without a journal).
    - Run control ([core/recovery]): [ResultDispatcher.v] (the dispatcher, and its
      invariant), [Controller.v], [ControllerLifecycle.v], [ControllerProcessing.v].
      [ProcessingPath.v] puts the path's workers on the run's objects as a step
      relation, [ProcessingPathTheorems.v] has its invariant and properties, and
      [ControllerPath.v] shows that the controller's calls are executions of it, and
      [Restart.v] that a killed process resumes it.
    - Application ([core/application]): [EventJson.v], [EventGateway.v], [StaticAssets.v],
      [HttpsSession.v], [HttpsServer.v].

    ** State and operations

    A class is a record with the fields of its source, a member function a function of
    that record: pure, or in the monad [M S] below when it can throw (the state at the
    throw is kept), or in [io W] of [Posix.v] when it makes system calls on a world [W].
    A component that borrows another one holds it as a field; what two components
    share (queues, index, bus) is a field of each, and the properties let the other
    users change it by steps of their own.  A mutex-protected operation, and an
    operation on a lock-free queue, is one step.  The HTTPS session and server are
    handlers of completions; what they ask of Boost.Asio, Beast and the acceptor is a
    list of actions.  [std::shared_ptr] to immutable data is the data.

    A loss of power keeps what was synced: of a journal the prefix [stable] tells
    ([DurableFile] in [Posix.v], where anything may follow it), of the catalog and its
    directory the possible contents and entries of [FileSystem.v].

    ** What is proved

    - Matching: the engine refines the price-time specification on every valid
      command, every reachable book is consistent, quantity is conserved, the
      mutation-free plan is what execution does, a refused command changes nothing.
    - Storage: the codecs are bijections between the valid records and what the
      decoders accept, stay inside their buffers and detect a corrupted byte; loading
      is parsing the file's bytes however reads are cut; appends and recoveries end as
      one of their outcomes and lose no acknowledged command, wherever the process is
      killed or the power is lost; the catalog is replaced atomically, run identifiers
      are never reused, a run is active only after its journal is durable.
    - Pipeline: a decimal is accepted exactly and in bounds, a normalized command is
      processable, each key is admitted at most once, only journaled commands reach the
      engine and a restart repeats their results, draining terminates, the workers lose
      and reorder nothing, and the bus neither, whatever positions its readers register
      at (one that the ring has overwritten stops it); private results show a client
      its own sides.
    - The process: whatever its threads' timing, the composed workers give the admitted
      commands the results of the price-time specification, in order, no worker's
      operation throws, and every admitted command is answered in a bounded number of
      operations; a pass of each worker's loop is a sequence of these operations.
    - The durable path: in every interleaving of submissions, sequencer, engine,
      dispatcher and readers, the journal holds the accepted commands in order, the
      readers get exactly the private and public projections of the specification's
      results, each once and in order, a recovery recomputes them, no worker throws,
      and whatever is accepted is delivered in a bounded number of operations unless
      an append fails.  The controller's calls implement the path; a run recovered
      after the process was killed knows every command of the journal with its result
      and is again at the start of a path.
    - Control: the controller and the catalog agree in every reachable state and after
      any loss of power; accepted commands fit the run.
    - Application: the payloads are the documents of the results and can be read back
      ([JsonText.v] has the documents and a reader); the gateway keeps its limits, sends
      a client only public trades and its own results, and always has room for one
      handoff; targets decode exactly, every status has its reason and only files whose
      canonical path is under the root are sent, a session always waits under a
      deadline, the server starts completely or not at all, holds its acceptor open
      exactly while it is ready and never exceeds its connections.

    Ghost data of the specifications: the engine's abstract books, the journal as a
    list of commands and the prefix of it that was promised ([acknowledged]), the
    accepted commands and what the readers took, what each bus reader read, the [log] of
    admitted, sequenced and completed commands, the identifiers handed out, the
    operations a session has in flight.

    ** Bounds and fuel

    Unsigned integers are [Z] with [wrap] written where the source can wrap.  Retry and
    drain loops carry fuel ([nat]); each theorem about them asks for an explicit bound
    (interruptions left plus bytes to transfer, commands waiting plus one) and proves
    that the result is then reached, and [out_of_fuel] is a value apart from every
    result of the source.  Matching loops are bounded by the resting orders and their
    exhaustion is proved unreachable.

    ** Not modelled

    Allocation failure and the exceptions of [std::bad_alloc]; the memory order of
    atomics inside Boost's lock-free queue ([SharedQueue] states its documented
    behaviour); the QuickFIX engine ([FixMessages] is what the parser reads of a message)
    and its session store; console output; TLS, sockets and the HTTP grammar behind
    Boost.Beast (a request is what its parser reports); [engine/main.cpp], an empty
    program; the abstract class [core/task/include/task.hpp]; tests and benchmarks. *)
From stdpp Require Export base tactics option list gmap strings sorting.
From Stdlib Require Export Sorted.
From Stdlib Require Export ZArith Lia.

#[export] Set Default Goal Selector "!".

Declare Scope exchange_scope.
Delimit Scope exchange_scope with exchange.
#[global] Open Scope exchange_scope.
#[global] Open Scope Z_scope.

(** ** Fixed-width unsigned integers

    Unsigned C++ integers are kept as [Z]; arithmetic that can wrap is written
    with the [wrap] of its width. *)
Definition wrap (w z : Z) : Z := z mod 2 ^ w.
Definition wrap8 : Z → Z := wrap 8.
Definition wrap16 : Z → Z := wrap 16.
Definition wrap32 : Z → Z := wrap 32.
Definition wrap64 : Z → Z := wrap 64.

Definition UINT8_MAX : Z := 255.
Definition UINT32_MAX : Z := 4294967295.
Definition UINT64_MAX : Z := 18446744073709551615.
(** [std::size_t] is 64 bits wide on the supported targets. *)
Definition SIZE_MAX : Z := UINT64_MAX.

Definition is_u8 (z : Z) : Prop := 0 ≤ z ≤ UINT8_MAX.
Definition is_u32 (z : Z) : Prop := 0 ≤ z ≤ UINT32_MAX.
Definition is_u64 (z : Z) : Prop := 0 ≤ z ≤ UINT64_MAX.

(** ** Exceptions and effects

    A C++ function that can throw is a value of [outcome]; a member function
    that mutates an object and can throw is an [M S A], which keeps the
    state reached when the exception was raised. *)
Inductive exn : Type :=
  | logic_error (what : string)
  | invalid_argument (what : string)
  | overflow_error (what : string)
  | length_error (what : string)
  | runtime_error (what : string)
  (** [FIX::FieldNotFound], with the field's tag. *)
  | field_not_found (tag : Z)
  (** [FIX::IncorrectDataFormat] *)
  | incorrect_data_format
  (** The C++ expression has no defined behaviour (a dangling iterator, ...). *)
  | undefined_behaviour
  (** The model's loop bound was too small; shown unreachable. *)
  | out_of_fuel.

#[export] Instance exn_eq_dec : EqDecision exn.
Proof. solve_decision. Defined.

Inductive outcome (A : Type) : Type :=
  | Ret (a : A)
  | Throw (e : exn).
Arguments Ret {_} _.
Arguments Throw {_} _.

#[export] Instance outcome_eq_dec {A} `{EqDecision A} : EqDecision (outcome A).
Proof. solve_decision. Defined.

#[export] Instance outcome_ret : MRet outcome := λ A a, Ret a.
#[export] Instance outcome_bind : MBind outcome := λ A B f o,
  match o with Ret a => f a | Throw e => Throw e end.

Definition M (S A : Type) : Type := S → outcome A * S.

#[export] Instance M_ret {S} : MRet (M S) := λ A a s, (Ret a, s).
#[export] Instance M_bind {S} : MBind (M S) := λ A B f m s,
  match m s with
  | (Ret a, s') => f a s'
  | (Throw e, s') => (Throw e, s')
  end.

Definition throwM {S A} (e : exn) : M S A := λ s, (Throw e, s).
Definition getM {S} : M S S := λ s, (Ret s, s).
Definition getsM {S A} (f : S → A) : M S A := λ s, (Ret (f s), s).
Definition putM {S} (s' : S) : M S unit := λ _, (Ret tt, s').
Definition modifyM {S} (f : S → S) : M S unit := λ s, (Ret tt, f s).
(** A member function that cannot throw. *)
Definition stepM {S A} (f : S → A * S) : M S A := λ s, (Ret (f s).1, (f s).2).
(** A [const] member function run on the current state. *)
Definition liftM {S A} (f : S → outcome A) : M S A := λ s, (f s, s).
(** [if (bad) throw e;] *)
Definition throw_if (bad : bool) (e : exn) : outcome unit :=
  if bad then Throw e else Ret tt.
Definition throw_ifM {S} (bad : bool) (e : exn) : M S unit := λ s, (throw_if bad e, s).

Definition is_ret {A} (o : outcome A) : Prop := ∃ a, o = Ret a.

(** ** Lemmas that run the effects *)
Section effect_lemmas.
Context {S A B : Type}.

Lemma outcome_bind_ret (a : A) (f : A → outcome B) : (Ret a ≫= f) = f a.
Proof. reflexivity. Qed.

Lemma outcome_bind_throw e (f : A → outcome B) : (Throw e ≫= f) = Throw e.
Proof. reflexivity. Qed.

Lemma M_bind_run (m : M S A) (f : A → M S B) s a s' :
  m s = (Ret a, s') → (m ≫= f) s = f a s'.
Proof. intros H. unfold mbind, M_bind. by rewrite H. Qed.

Lemma M_bind_throw (m : M S A) (f : A → M S B) s e s' :
  m s = (Throw e, s') → (m ≫= f) s = (Throw e, s').
Proof. intros H. unfold mbind, M_bind. by rewrite H. Qed.

Lemma M_bind_assoc {C} (m : M S A) (f : A → M S B) (g : B → M S C) s :
  ((m ≫= f) ≫= g) s = (m ≫= λ a, f a ≫= g) s.
Proof. unfold mbind, M_bind. by destruct (m s) as [[]]. Qed.

Lemma M_bind_inv (m : M S A) (f : A → M S B) s b s' :
  (m ≫= f) s = (Ret b, s') → ∃ a s1, m s = (Ret a, s1) ∧ f a s1 = (Ret b, s').
Proof. unfold mbind, M_bind. destruct (m s) as [[a|e] s1]; intros; simplify_eq; eauto. Qed.

Lemma liftM_inv (g : S → outcome A) s a s' : liftM g s = (Ret a, s') → g s = Ret a ∧ s' = s.
Proof. unfold liftM. intros. by simplify_eq. Qed.

Lemma throw_ifM_inv b (e : exn) (f : unit → M S B) s r s' :
  (throw_ifM b e ≫= f) s = (Ret r, s') → b = false ∧ f tt s = (Ret r, s').
Proof. destruct b; [done|]. by intros. Qed.

Lemma throw_ifM_false (e : exn) (f : unit → M S B) s :
  (throw_ifM false e ≫= f) s = f tt s.
Proof. reflexivity. Qed.

Lemma liftM_run (g : S → outcome A) (f : A → M S B) s a :
  g s = Ret a → (liftM g ≫= f) s = f a s.
Proof. intros H. unfold mbind, M_bind, liftM. by rewrite H. Qed.
End effect_lemmas.

(** ** Lists *)
Section list_lemmas.
Context {A : Type}.
Implicit Types (x y : A) (pre post : list A).

Lemma elem_of_middle x pre post : x ∈ pre ++ x :: post.
Proof. apply elem_of_app. right. by left. Qed.

Lemma elem_of_around y x pre post : y ∈ pre ++ x :: post ↔ y = x ∨ y ∈ pre ++ post.
Proof. rewrite !elem_of_app, elem_of_cons. tauto. Qed.

Lemma filter_keep_all (P : A → Prop) `{!∀ x, Decision (P x)} (l : list A) : (∀ x, x ∈ l → P x) → filter P l = l.
Proof.
  intros HP. induction l as [|x l IH]; [done|].
  rewrite filter_cons_True by (apply HP; by left). f_equal. apply IH. intros y ?. apply HP. by right.
Qed.

Lemma forallb_elem (f : A → bool) (l : list A) : forallb f l = true ↔ ∀ x, x ∈ l → f x = true.
Proof.
  induction l as [|x l IH]; simpl.
  - split; [intros _ y []%elem_of_nil|done].
  - rewrite andb_true_iff, IH. setoid_rewrite elem_of_cons. split; [intros [? ?] y [->|?]; auto|auto].
Qed.
End list_lemmas.

#[export] Hint Resolve elem_of_middle : core.

(** ** Arithmetic at a fixed width *)
Lemma wrap_small w z : 0 ≤ z < 2 ^ w → wrap w z = z.
Proof. intros. unfold wrap. by rewrite Z.mod_small. Qed.

Lemma wrap64_small z : is_u64 z → wrap64 z = z.
Proof. unfold is_u64, UINT64_MAX, wrap64. intros. apply wrap_small. lia. Qed.

Lemma wrap32_small z : is_u32 z → wrap32 z = z.
Proof. unfold is_u32, UINT32_MAX, wrap32. intros. apply wrap_small. lia. Qed.

Lemma throw_if_false {A} e (f : unit → outcome A) b : b = false → (throw_if b e ≫= f) = f tt.
Proof. by intros ->. Qed.

