(* ===== verification/KeyedList.v ===== *)
(** * Ordered associative containers

    A [std::map] whose iteration order the code observes is the list of its
    entries in that order.  [before] is the container's comparator:
    [std::greater] for bids, [std::less] for asks.  [find], [operator[]] and
    [erase] act on the entry with the key; [begin()] is the head of the list. *)
From S2P Require Import Prelude.

(** A strict total order given as a boolean test. *)
Class KeyOrder (before : Z → Z → bool) : Prop := {
  before_irrefl k : before k k = false;
  before_trans a b c : before a b = true → before b c = true → before a c = true;
  before_total a b : a ≠ b → before a b = true ∨ before b a = true }.

Section definitions.
Context {V : Type} (before : Z → Z → bool).

(** [map.find(k)] *)
Fixpoint kl_find (k : Z) (m : list (Z * V)) : option V :=
  match m with
  | [] => None
  | (k', v) :: m' => if bool_decide (k = k') then Some v else kl_find k m'
  end.

(** [map[k] = v]: overwrite the entry or insert it at its ordered place. *)
Fixpoint kl_set (k : Z) (v : V) (m : list (Z * V)) : list (Z * V) :=
  match m with
  | [] => [(k, v)]
  | (k', v') :: m' =>
      if bool_decide (k = k') then (k, v) :: m'
      else if before k k' then (k, v) :: (k', v') :: m'
      else (k', v') :: kl_set k v m'
  end.

(** [map.erase(map.find(k))] *)
Fixpoint kl_erase (k : Z) (m : list (Z * V)) : list (Z * V) :=
  match m with
  | [] => []
  | (k', v) :: m' => if bool_decide (k = k') then m' else (k', v) :: kl_erase k m'
  end.

Definition kl_sorted (m : list (Z * V)) : Prop :=
  StronglySorted (λ a b, before a.1 b.1 = true) m.
End definitions.

Section facts.
Context {V : Type} (before : Z → Z → bool) `{!KeyOrder before}.
Implicit Types (k : Z) (v : V) (m : list (Z * V)).

Lemma kl_find_Some_split k v m :
  kl_find k m = Some v →
  ∃ m1 m2, m = m1 ++ (k, v) :: m2 ∧ k ∉ m1.*1.
Proof.
  induction m as [|[k' v'] m IH]; simpl; [done|].
  case_bool_decide; intros Hf; simplify_eq.
  - exists [], m. split; [done|]. apply not_elem_of_nil.
  - destruct (IH Hf) as (m1 & m2 & -> & Hk).
    exists ((k', v') :: m1), m2. split; [done|]. by apply not_elem_of_cons.
Qed.

Lemma kl_find_None k m : kl_find k m = None ↔ k ∉ m.*1.
Proof.
  induction m as [|[k' v'] m IH]; simpl.
  - split; [|done]. intros _. apply not_elem_of_nil.
  - rewrite not_elem_of_cons. case_bool_decide as Hk; [subst; split; [done|intros []; done]|]. rewrite IH. tauto.
Qed.

Lemma kl_find_middle k v m1 m2 : k ∉ m1.*1 → kl_find k (m1 ++ (k, v) :: m2) = Some v.
Proof.
  induction m1 as [|[k' v'] m1 IH]; simpl; intros Hk.
  - by rewrite bool_decide_eq_true_2.
  - apply not_elem_of_cons in Hk as [? ?]. rewrite bool_decide_eq_false_2 by done. auto.
Qed.

Lemma kl_erase_middle k v m1 m2 : k ∉ m1.*1 → kl_erase k (m1 ++ (k, v) :: m2) = m1 ++ m2.
Proof.
  induction m1 as [|[k' v'] m1 IH]; simpl; intros Hk.
  - by rewrite bool_decide_eq_true_2.
  - apply not_elem_of_cons in Hk as [? ?]. rewrite bool_decide_eq_false_2 by done.
    f_equal. auto.
Qed.

Lemma kl_sorted_app m1 m2 :
  kl_sorted before (m1 ++ m2) ↔
  kl_sorted before m1 ∧ kl_sorted before m2 ∧
  (∀ a b, a ∈ m1 → b ∈ m2 → before a.1 b.1 = true).
Proof.
  unfold kl_sorted. induction m1 as [|a m1 IH]; simpl.
  - split; [|by intros (_ & ? & _)]. intros ?. split_and!; [constructor|done|].
    intros a b []%not_elem_of_nil.
  - split.
    + intros [Hs Hf]%StronglySorted_inv. apply IH in Hs as (?&?&?).
      rewrite Forall_app in Hf. destruct Hf as [? Hf2]. split_and!; [by constructor|done|].
      intros x b [->|]%elem_of_cons ?; [|auto]. by rewrite Forall_forall in Hf2; apply Hf2.
    + intros ([Hs Hf]%StronglySorted_inv & ? & Hab). constructor.
      * apply IH. split_and!; [done..|]. intros x b ??. apply Hab; [by right|done].
      * rewrite Forall_app. split; [done|]. rewrite Forall_forall. intros b ?.
        apply Hab; [by left|done].
Qed.

Lemma kl_sorted_cons a m :
  kl_sorted before (a :: m) ↔
  kl_sorted before m ∧ (∀ b, b ∈ m → before a.1 b.1 = true).
Proof.
  unfold kl_sorted. split.
  - intros [? Hf]%StronglySorted_inv. by rewrite Forall_forall in Hf.
  - intros [??]. constructor; [done|]. by rewrite Forall_forall.
Qed.

Lemma kl_sorted_head_fresh k v m1 m2 :
  kl_sorted before (m1 ++ (k, v) :: m2) → (k ∉ m1.*1) ∧ (k ∉ m2.*1).
Proof.
  intros (H1 & H2 & H3)%kl_sorted_app. apply kl_sorted_cons in H2 as [_ H2].
  split; intros ([k' v'] & Hk & Hin)%list_elem_of_fmap_1; simpl in *; subst k'.
  - specialize (H3 (k, v') (k, v) Hin ltac:(by left)). simpl in H3.
    by rewrite before_irrefl in H3.
  - specialize (H2 _ Hin). simpl in H2. by rewrite before_irrefl in H2.
Qed.

Lemma kl_elem_find k v m : kl_sorted before m → ((k, v) ∈ m) → kl_find k m = Some v.
Proof.
  intros Hs (m1 & m2 & ->)%list_elem_of_split.
  apply kl_find_middle. by apply kl_sorted_head_fresh in Hs as [? _].
Qed.

Lemma kl_find_elem k v m : kl_find k m = Some v → (k, v) ∈ m.
Proof.
  intros (m1 & m2 & -> & _)%kl_find_Some_split. apply elem_of_app. right. by left.
Qed.

Lemma kl_set_middle k v v' m1 m2 :
  kl_sorted before (m1 ++ (k, v) :: m2) →
  kl_set before k v' (m1 ++ (k, v) :: m2) = m1 ++ (k, v') :: m2.
Proof.
  intros Hs. assert (Hk := proj1 (kl_sorted_head_fresh _ _ _ _ Hs)).
  induction m1 as [|[k1 v1] m1 IH]; simpl in *.
  - by rewrite bool_decide_eq_true_2.
  - apply not_elem_of_cons in Hk as [? ?]. apply kl_sorted_cons in Hs as [Hs Hb].
    rewrite bool_decide_eq_false_2 by done.
    assert (before k1 k = true) as Hk1.
    { apply (Hb (k, v)). apply elem_of_app. right. by left. }
    assert (before k k1 = false) as ->.
    { destruct (before k k1) eqn:E; [|done].
      pose proof (before_trans _ _ _ E Hk1) as Hc. by rewrite before_irrefl in Hc. }
    f_equal. by apply IH.
Qed.

(** Inserting an absent key puts it at the one place that keeps the order. *)
Lemma kl_set_fresh k v m :
  kl_sorted before m → kl_find k m = None →
  ∃ m1 m2, m = m1 ++ m2 ∧ kl_set before k v m = m1 ++ (k, v) :: m2 ∧
           kl_sorted before (m1 ++ (k, v) :: m2).
Proof.
  intros Hs Hk. induction m as [|[k' v'] m IH]; simpl.
  - exists [], []. split_and!; [done..|]. apply kl_sorted_cons. split; [constructor|].
    intros b []%not_elem_of_nil.
  - simpl in Hk. case_bool_decide as Hne; [done|].
    pose proof Hs as Hs0. apply kl_sorted_cons in Hs as [Hs Hb].
    destruct (before k k') eqn:E.
    + exists [], ((k', v') :: m). split_and!; [done..|]. apply kl_sorted_cons.
      split; [done|]. intros b [->|Hin]%elem_of_cons; [done|]. simpl.
      eapply before_trans; [exact E|]. by apply (Hb b).
    + destruct (IH Hs Hk) as (m1 & m2 & -> & -> & Hs').
      exists ((k', v') :: m1), m2. split_and!; [done..|]. simpl.
      apply kl_sorted_cons. split; [done|].
      intros b. rewrite elem_of_app, elem_of_cons. intros [?|[->|?]].
      * apply Hb. apply elem_of_app. by left.
      * simpl. destruct (before_total k k' Hne) as [|]; [congruence|done].
      * apply Hb. apply elem_of_app. by right.
Qed.

Lemma kl_sorted_remove m1 e m2 :
  kl_sorted before (m1 ++ e :: m2) → kl_sorted before (m1 ++ m2).
Proof.
  rewrite !kl_sorted_app, kl_sorted_cons. intros (?&[? ?]&Hab).
  split_and!; [done..|]. intros a b ??. apply Hab; [done|by right].
Qed.

(** Only keys matter for the order. *)
Lemma kl_sorted_replace m1 k v v' m2 :
  kl_sorted before (m1 ++ (k, v) :: m2) → kl_sorted before (m1 ++ (k, v') :: m2).
Proof.
  rewrite !kl_sorted_app, !kl_sorted_cons. intros (?&[? Hb]&Hab).
  split_and!; [done..|].
  intros a b ? [->|?]%elem_of_cons; [by apply (Hab a (k, v) ltac:(done)); left|].
  apply Hab; [done|by right].
Qed.
End facts.

(** Bids iterate from the highest price, asks from the lowest. *)
Definition bidBefore (a b : Z) : bool := bool_decide (b < a).
Definition askBefore (a b : Z) : bool := bool_decide (a < b).

#[export] Instance bidBefore_order : KeyOrder bidBefore.
Proof.
  unfold bidBefore. split; intros; repeat case_bool_decide; try done; try lia; auto.
Qed.

#[export] Instance askBefore_order : KeyOrder askBefore.
Proof.
  unfold askBefore. split; intros; repeat case_bool_decide; try done; try lia; auto.
Qed.
