(* ===== verification/Domain.v ===== *)
(** * Domain vocabulary: identifiers, commands, business events, instruments

    The value types of [src/core/domain/include], the sequencer's message of
    [src/sequencer/include/sequence_message.hpp], the instrument table and the
    result batch the engine publishes.  Strong unsigned identifiers, prices and
    quantities are [Z]; an enumeration keeps a [_raw] constructor for the values
    its underlying integer can hold that name no enumerator. *)
From S2P Require Import Prelude.

(** [StrongUnsigned<Tag, uint64_t>]: the wrapped representation. *)
Abbreviation CommandSequence := Z (only parsing).
Abbreviation ExchangeRunId := Z (only parsing).
Abbreviation OrderId := Z (only parsing).
Abbreviation TargetOrderId := Z (only parsing).
Abbreviation ClientId := Z (only parsing).
Abbreviation InstrumentId := Z (only parsing).
Abbreviation EventIndex := Z (only parsing).
Abbreviation Price := Z (only parsing).
Abbreviation Quantity := Z (only parsing).
(** [ClientCommandId]: the meaningful prefix of its zero-padded buffer. *)
Abbreviation ClientCommandId := string (only parsing).

(** ** Enumerations *)
Module Side.
Inductive Side := BUY | SELL | Side_raw (value : Z).
#[export] Instance Side_eq_dec : EqDecision Side.
Proof. solve_decision. Defined.
End Side.
Export (hints) Side.
Abbreviation Side := Side.Side.

Module OrderType.
Inductive orderType := BUY | SELL | CANCEL | CANCELREJ | orderType_raw (value : Z).
#[export] Instance orderType_eq_dec : EqDecision orderType.
Proof. solve_decision. Defined.
End OrderType.
Export (hints) OrderType.
Abbreviation orderType := OrderType.orderType.

Module TIF.
Inductive TimeInForce := DAY | GTC | IOC | FOK | GTX | ATC | GTD | TimeInForce_raw (value : Z).
#[export] Instance TimeInForce_eq_dec : EqDecision TimeInForce.
Proof. solve_decision. Defined.
End TIF.
Export (hints) TIF.
Abbreviation TimeInForce := TIF.TimeInForce.

Module CmdType.
Inductive CommandType := NEW_ORDER | CANCEL.
#[export] Instance CommandType_eq_dec : EqDecision CommandType.
Proof. solve_decision. Defined.
End CmdType.
Export (hints) CmdType.
Abbreviation CommandType := CmdType.CommandType.

Module Processing.
Inductive ProcessingResult := APPLIED | BOOK_CAPACITY_EXCEEDED.
#[export] Instance ProcessingResult_eq_dec : EqDecision ProcessingResult.
Proof. solve_decision. Defined.
End Processing.
Export (hints) Processing.
Abbreviation ProcessingResult := Processing.ProcessingResult.

Inductive AdmissionRejectionReason :=
  DUPLICATE_COMMAND_CONFLICT | EXCHANGE_RUN_UNAVAILABLE | GATEWAY_BUSY | RUN_CAPACITY_REACHED.
Inductive CommandRejectionReason := ORDER_NOT_ACTIVE | NOT_OWNER | BOOK_CAPACITY_EXCEEDED.
Inductive CancelReason := CLIENT_REQUESTED | IOC_REMAINDER.

#[export] Instance AdmissionRejectionReason_eq_dec : EqDecision AdmissionRejectionReason.
Proof. solve_decision. Defined.
#[export] Instance CommandRejectionReason_eq_dec : EqDecision CommandRejectionReason.
Proof. solve_decision. Defined.
#[export] Instance CancelReason_eq_dec : EqDecision CancelReason.
Proof. solve_decision. Defined.

(** ** Identifiers *)
Definition orderIdFrom (sequence : Z) : OrderId := sequence.

Definition CLIENT_COMMAND_ID_MAX_LENGTH : nat := 64.

Definition is_ascii_byte (c : Ascii.ascii) : bool := bool_decide (Ascii.nat_of_ascii c ≤ 127)%nat.

Fixpoint all_ascii (s : string) : bool :=
  match s with
  | EmptyString => true
  | String c s' => is_ascii_byte c && all_ascii s'
  end.

(** [ClientCommandId::ClientCommandId(std::string_view)]. *)
Definition makeClientCommandId (value : string) : outcome ClientCommandId :=
  throw_if (bool_decide (String.length value = 0%nat) ||
            bool_decide (CLIENT_COMMAND_ID_MAX_LENGTH < String.length value)%nat)
    (invalid_argument "ClientCommandId must contain between 1 and 64 ASCII bytes") ;;
  throw_if (negb (all_ascii value))
    (invalid_argument "ClientCommandId must contain only ASCII bytes") ;;
  Ret value.

(** The values the class can hold. *)
Definition valid_ClientCommandId (c : ClientCommandId) : Prop :=
  (1 ≤ String.length c ≤ CLIENT_COMMAND_ID_MAX_LENGTH)%nat ∧ all_ascii c = true.

(** ** Business events *)
Module EventId.
Record EventId := mkEventId {
  commandSequence : CommandSequence;
  eventIndex : EventIndex;
  exchangeRunId : ExchangeRunId }.
#[export] Instance EventId_eq_dec : EqDecision EventId.
Proof. solve_decision. Defined.
End EventId.
Export (hints) EventId.
Abbreviation EventId := EventId.EventId.

Module Rejected.
Record CommandRejected := mkCommandRejected {
  eventId : EventId;
  commandType : CommandType;
  clientId : ClientId;
  clientCommandId : ClientCommandId;
  relevantOrderId : option OrderId;
  reason : CommandRejectionReason }.
#[export] Instance CommandRejected_eq_dec : EqDecision CommandRejected.
Proof. solve_decision. Defined.
End Rejected.
Export (hints) Rejected.
Abbreviation CommandRejected := Rejected.CommandRejected.

Module Trade.
Record Trade := mkTrade {
  eventId : EventId;
  instrumentId : InstrumentId;
  makerOrderId : OrderId;
  makerClientId : ClientId;
  takerOrderId : OrderId;
  takerClientId : ClientId;
  takerSide : Side;
  executionPrice : Price;
  executionQuantity : Quantity;
  makerRemainingQuantity : Quantity;
  takerRemainingQuantity : Quantity }.
#[export] Instance Trade_eq_dec : EqDecision Trade.
Proof. solve_decision. Defined.
End Trade.
Export (hints) Trade.
Abbreviation Trade := Trade.Trade.

Module Rested.
Record OrderRested := mkOrderRested {
  eventId : EventId;
  orderId : OrderId;
  clientId : ClientId;
  instrumentId : InstrumentId;
  side : Side;
  price : Price;
  remainingQuantity : Quantity }.
#[export] Instance OrderRested_eq_dec : EqDecision OrderRested.
Proof. solve_decision. Defined.
End Rested.
Export (hints) Rested.
Abbreviation OrderRested := Rested.OrderRested.

Module Cancelled.
Record OrderCancelled := mkOrderCancelled {
  eventId : EventId;
  orderId : OrderId;
  clientId : ClientId;
  instrumentId : InstrumentId;
  cancelledQuantity : Quantity;
  reason : CancelReason }.
#[export] Instance OrderCancelled_eq_dec : EqDecision OrderCancelled.
Proof. solve_decision. Defined.
End Cancelled.
Export (hints) Cancelled.
Abbreviation OrderCancelled := Cancelled.OrderCancelled.

Inductive BusinessEvent :=
  | EvRejected (e : CommandRejected)
  | EvTrade (e : Trade)
  | EvRested (e : OrderRested)
  | EvCancelled (e : OrderCancelled).
#[export] Instance BusinessEvent_eq_dec : EqDecision BusinessEvent.
Proof. solve_decision. Defined.

(** [std::visit] reading the [eventId] every alternative carries. *)
Definition eventIdOf (event : BusinessEvent) : EventId :=
  match event with
  | EvRejected e => Rejected.eventId e
  | EvTrade e => Trade.eventId e
  | EvRested e => Rested.eventId e
  | EvCancelled e => Cancelled.eventId e
  end.

(** ** Commands *)
Module Msg.
Record sequenceMessage := mkSequenceMessage {
  orderId : OrderId;
  targetOrderId : option TargetOrderId;
  globalSequenceNumber : CommandSequence;
  clientId : ClientId;
  clientCommandId : option ClientCommandId;
  instrumentId : InstrumentId;
  configurationVersion : Z;
  price : Price;
  quantity : Quantity;
  symbol : string;
  type : orderType;
  expiry : Z;
  shard_id : Z;
  tif : TimeInForce }.
#[export] Instance sequenceMessage_eq_dec : EqDecision sequenceMessage.
Proof. solve_decision. Defined.
End Msg.
Export (hints) Msg.
Abbreviation sequenceMessage := Msg.sequenceMessage.

(** [sequenceMessage message{};] *)
Definition emptyMessage : sequenceMessage :=
  Msg.mkSequenceMessage 0 None 0 0 None 0 0 0 0 "" (OrderType.orderType_raw 0) 0 0 (TIF.TimeInForce_raw 0).

Definition withSequence (sequence : CommandSequence) (m : sequenceMessage) : sequenceMessage :=
  let '(Msg.mkSequenceMessage o t _ c cc i v p q s ty e sh tf) := m in
  Msg.mkSequenceMessage o t sequence c cc i v p q s ty e sh tf.

Definition withOrderId (orderId : OrderId) (m : sequenceMessage) : sequenceMessage :=
  let '(Msg.mkSequenceMessage _ t g c cc i v p q s ty e sh tf) := m in
  Msg.mkSequenceMessage orderId t g c cc i v p q s ty e sh tf.

(** ** Command results *)
Module Correlation.
Record CommandResultCorrelation := mkCorrelation {
  clientId : ClientId;
  clientCommandId : ClientCommandId;
  commandSequence : CommandSequence;
  exchangeRunId : ExchangeRunId }.
#[export] Instance Correlation_eq_dec : EqDecision CommandResultCorrelation.
Proof. solve_decision. Defined.
End Correlation.
Export (hints) Correlation.
Abbreviation CommandResultCorrelation := Correlation.CommandResultCorrelation.

Module Batch.
Record CommandResultBatch := mkBatch {
  correlation : CommandResultCorrelation;
  result : ProcessingResult;
  events : list BusinessEvent }.
#[export] Instance CommandResultBatch_eq_dec : EqDecision CommandResultBatch.
Proof. solve_decision. Defined.
End Batch.
Export (hints) Batch.
Abbreviation CommandResultBatch := Batch.CommandResultBatch.

Definition eventMatchesCorrelation (c : CommandResultCorrelation) (event : BusinessEvent) : bool :=
  bool_decide (EventId.commandSequence (eventIdOf event) = Correlation.commandSequence c) &&
  bool_decide (EventId.exchangeRunId (eventIdOf event) = Correlation.exchangeRunId c).

(** The throwing constructor of [CommandResultBatch]. *)
Definition makeCommandResultBatch (correlation : CommandResultCorrelation) (result : ProcessingResult)
    (events : list BusinessEvent) : outcome CommandResultBatch :=
  throw_if (negb (forallb (eventMatchesCorrelation correlation) events))
    (invalid_argument "command-result event identity does not match batch correlation") ;;
  Ret (Batch.mkBatch correlation result events).

(** ** Instrument configuration *)
Module Instrument.
Record InstrumentConfiguration := mkInstrument {
  symbol : string;
  instrumentId : InstrumentId;
  configurationVersion : Z;
  priceScale : Z;
  tickSizeMantissa : Z;
  lotSize : Quantity;
  maxPrice : Price;
  maxOrderQuantity : Quantity;
  maxPriceLevelAggregate : Quantity }.
End Instrument.
Abbreviation InstrumentConfiguration := Instrument.InstrumentConfiguration.

Definition SPY_V1 : InstrumentConfiguration :=
  Instrument.mkInstrument "SPY" 1 1 4 1 1 10000000000 100000000 1000000000.

Definition findBySymbol (symbol : string) : option InstrumentConfiguration :=
  if bool_decide (symbol = Instrument.symbol SPY_V1) then Some SPY_V1 else None.

Definition findByIdentity (instrumentId : InstrumentId) (configurationVersion : Z)
    : option InstrumentConfiguration :=
  if bool_decide (instrumentId = Instrument.instrumentId SPY_V1) &&
     bool_decide (configurationVersion = Instrument.configurationVersion SPY_V1)
  then Some SPY_V1 else None.

(** ** Facts *)
Lemma makeClientCommandId_valid s c :
  makeClientCommandId s = Ret c ↔ c = s ∧ valid_ClientCommandId s.
Proof.
  unfold makeClientCommandId, valid_ClientCommandId, CLIENT_COMMAND_ID_MAX_LENGTH, throw_if.
  repeat case_bool_decide; simpl; try (destruct (all_ascii s)); simpl;
    split; intros; destruct_and?; simplify_eq/=; auto; try lia; split_and!; auto; lia.
Qed.

Lemma findByIdentity_Some i v cfg :
  findByIdentity i v = Some cfg → cfg = SPY_V1 ∧ i = 1 ∧ v = 1.
Proof.
  unfold findByIdentity. repeat case_bool_decide; simpl; intros; simplify_eq/=; auto.
Qed.
