(* ===== verification/Matching.v ===== *)
(** * The matching engine's state and command processing

    [MatchingState] of [src/matching_engine/include/matching_state.hpp] and its
    member functions in [src/matching_engine/src/matching_engine.cpp].

    A [std::list<OrderNode>] is the list of its cells, each with the address an
    iterator holds: the active-order index keeps such an address
    ([orderLocation]), the price level keeps the cell, and both see the same
    node.  [nextLocation] is the allocator's next fresh address.  The books map
    and the index map are finite maps, iterated in key order where the code
    observes the order; the two price maps of a book are ordered entry lists,
    because their [begin()] is the best price.

    A member function is an [M MatchingState]: an exception leaves the mutations
    made so far.  The loop of [matchBuyOrder]/[matchSellOrder] takes fuel. *)
From S2P Require Import Prelude KeyedList Domain.

(** An address of a [std::list] cell. *)
Abbreviation location := Z (only parsing).

Module OrderNode.
Record OrderNode := mkOrderNode {
  orderId : OrderId;
  owner : ClientId;
  remainingQuantity : Quantity }.
#[export] Instance OrderNode_eq_dec : EqDecision OrderNode.
Proof. solve_decision. Defined.
End OrderNode.
Export (hints) OrderNode.
Abbreviation OrderNode := OrderNode.OrderNode.

Abbreviation OrderList := (list (location * OrderNode)) (only parsing).

Module Level.
Record PriceLevel := mkPriceLevel {
  totalQuantity : Quantity;
  orders : OrderList }.
#[export] Instance PriceLevel_eq_dec : EqDecision PriceLevel.
Proof. solve_decision. Defined.
End Level.
Export (hints) Level.
Abbreviation PriceLevel := Level.PriceLevel.

(** [std::map<Price, PriceLevel>] in its iteration order. *)
Abbreviation PriceMap := (list (Z * PriceLevel)) (only parsing).

Module Book.
Record InstrumentBook := mkInstrumentBook {
  bids : PriceMap;
  asks : PriceMap }.
#[export] Instance InstrumentBook_eq_dec : EqDecision InstrumentBook.
Proof. solve_decision. Defined.
End Book.
Export (hints) Book.
Abbreviation InstrumentBook := Book.InstrumentBook.

Module Active.
Record ActiveOrder := mkActiveOrder {
  owner : ClientId;
  instrumentId : InstrumentId;
  side : orderType;
  price : Price;
  remainingQuantity : Quantity;
  orderLocation : location }.
#[export] Instance ActiveOrder_eq_dec : EqDecision ActiveOrder.
Proof. solve_decision. Defined.
End Active.
Export (hints) Active.
Abbreviation ActiveOrder := Active.ActiveOrder.

Module State.
Record MatchingState := mkMatchingState {
  exchangeRunId : ExchangeRunId;
  orderBooks : gmap Z InstrumentBook;
  activeOrders : gmap Z ActiveOrder;
  nextLocation : location }.
End State.
Abbreviation MatchingState := State.MatchingState.

Module Plan.
Record MatchPlan := mkMatchPlan {
  remainder : Quantity;
  executionCount : Z }.
End Plan.
Abbreviation MatchPlan := Plan.MatchPlan.

Module Outcome.
Record ProcessingOutcome := mkProcessingOutcome {
  result : ProcessingResult;
  events : list BusinessEvent }.
End Outcome.
Abbreviation ProcessingOutcome := Outcome.ProcessingOutcome.

(** [MatchingState::MatchingState(exchangeRunId)] *)
Definition newMatchingState (exchangeRunId : ExchangeRunId) : MatchingState :=
  State.mkMatchingState exchangeRunId ∅ ∅ 0.

(** ** The two price maps of a book *)
Inductive BookSide := Bids | Asks.
#[export] Instance BookSide_eq_dec : EqDecision BookSide.
Proof. solve_decision. Defined.

Definition sideBefore (s : BookSide) : Z → Z → bool :=
  match s with Bids => bidBefore | Asks => askBefore end.

Definition levels (s : BookSide) (b : InstrumentBook) : PriceMap :=
  match s with Bids => Book.bids b | Asks => Book.asks b end.

Definition setLevels (s : BookSide) (m : PriceMap) (b : InstrumentBook) : InstrumentBook :=
  match s with
  | Bids => Book.mkInstrumentBook m (Book.asks b)
  | Asks => Book.mkInstrumentBook (Book.bids b) m
  end.

Definition emptyBook : InstrumentBook := Book.mkInstrumentBook [] [].
Definition emptyLevel : PriceLevel := Level.mkPriceLevel 0 [].

(** The price map a resting order's [side] selects. *)
Definition restingSide (t : orderType) : option BookSide :=
  match t with
  | OrderType.BUY => Some Bids
  | OrderType.SELL => Some Asks
  | _ => None
  end.

(** ** Updates of the state through references and iterators *)
Definition setBooks (books : gmap Z InstrumentBook) (st : MatchingState) : MatchingState :=
  State.mkMatchingState (State.exchangeRunId st) books (State.activeOrders st) (State.nextLocation st).

Definition setActive (active : gmap Z ActiveOrder) (st : MatchingState) : MatchingState :=
  State.mkMatchingState (State.exchangeRunId st) (State.orderBooks st) active (State.nextLocation st).

(** Writing a [PriceLevel&] of the instrument's map. *)
Definition storeLevel (i : InstrumentId) (s : BookSide) (p : Price) (level : PriceLevel)
    (st : MatchingState) : MatchingState :=
  setBooks (alter (λ b, setLevels s (kl_set (sideBefore s) p level (levels s b)) b) i
              (State.orderBooks st)) st.

(** [book.erase(priceLevel)] *)
Definition eraseLevel (i : InstrumentId) (s : BookSide) (p : Price) (st : MatchingState) : MatchingState :=
  setBooks (alter (λ b, setLevels s (kl_erase p (levels s b)) b) i (State.orderBooks st)) st.

(** [if (bids.empty() && asks.empty()) orderBooks.erase(instrument);] *)
Definition eraseEmptyBook (i : InstrumentId) (st : MatchingState) : MatchingState :=
  match State.orderBooks st !! i with
  | Some b =>
      if bool_decide (Book.bids b = []) && bool_decide (Book.asks b = [])
      then setBooks (delete i (State.orderBooks st)) st else st
  | None => st
  end.

(** The entries of a [std::map] in key order. *)
Definition keyLe {V} (a b : Z * V) : Prop := a.1 ≤ b.1.
#[export] Instance keyLe_dec {V} : RelDecision (@keyLe V).
Proof. intros a b. unfold keyLe. apply _. Defined.

Definition sortedEntries {V} (m : gmap Z V) : list (Z * V) :=
  merge_sort keyLe (map_to_list m).

Definition levelCells (m : PriceMap) : list (location * OrderNode) :=
  m ≫= λ e, Level.orders e.2.

Definition bookCells (b : InstrumentBook) : list (location * OrderNode) :=
  levelCells (Book.bids b) ++ levelCells (Book.asks b).

Definition allCells (st : MatchingState) : list (location * OrderNode) :=
  (map_to_list (State.orderBooks st)) ≫= λ e, bookCells e.2.

(** [*orderLocation]: the node in the cell an iterator points at. *)
Definition derefOrder (st : MatchingState) (l : location) : outcome OrderNode :=
  match list_find (λ c : location * OrderNode, c.1 = l) (allCells st) with
  | Some (_, c) => Ret c.2
  | None => Throw undefined_behaviour
  end.

(** [orders.erase(orderLocation)] *)
Fixpoint eraseCell (l : location) (orders : OrderList) : outcome OrderList :=
  match orders with
  | [] => Throw undefined_behaviour
  | c :: rest =>
      if bool_decide (c.1 = l) then Ret rest
      else rest' ← eraseCell l rest; Ret (c :: rest')
  end.

(** ** Helpers of the translation unit *)
Definition MAX_EVENTS_PER_COMMAND : Z := 4096.

Definition checkedAddEventCount (currentCount additionalCount : Z) : outcome Z :=
  throw_if (bool_decide (SIZE_MAX - currentCount < additionalCount))
    (logic_error "business-event count overflow during matching plan") ;;
  Ret (currentCount + additionalCount).

Definition makeEventId (exchangeRunId : ExchangeRunId) (commandSequence : CommandSequence) (eventIndex : Z)
    : outcome EventId :=
  throw_if (bool_decide (UINT32_MAX < eventIndex))
    (logic_error "EventIndex exhausted during one command") ;;
  Ret (EventId.mkEventId commandSequence (wrap32 eventIndex) exchangeRunId).

Definition toDomainSide (side : orderType) : outcome Side :=
  match side with
  | OrderType.BUY => Ret Side.BUY
  | OrderType.SELL => Ret Side.SELL
  | _ => Throw (logic_error "non-order side reached matching engine")
  end.

Definition resultCorrelationFrom (message : sequenceMessage) (exchangeRunId : ExchangeRunId)
    : outcome CommandResultCorrelation :=
  match Msg.clientCommandId message with
  | Some cc =>
      throw_if (bool_decide (Msg.clientId message = 0) || bool_decide (Msg.globalSequenceNumber message = 0))
        (logic_error "sequenced command is missing result correlation") ;;
      Ret (Correlation.mkCorrelation (Msg.clientId message) cc (Msg.globalSequenceNumber message) exchangeRunId)
  | None => Throw (logic_error "sequenced command is missing result correlation")
  end.

(** [events.size()] *)
Definition eventCount (events : list BusinessEvent) : Z := Z.of_nat (length events).

(** ** Planning *)
Fixpoint planLevel (orders : OrderList) (plan : MatchPlan) : outcome MatchPlan :=
  match orders with
  | [] => Ret plan
  | (_, order) :: rest =>
      if bool_decide (Plan.remainder plan = 0) then Ret plan
      else
        throw_if (bool_decide (OrderNode.remainingQuantity order = 0))
          (logic_error "zero-quantity order remained in order book") ;;
        let tradeQuantity := Z.min (Plan.remainder plan) (OrderNode.remainingQuantity order) in
        count ← checkedAddEventCount (Plan.executionCount plan) 1;
        planLevel rest (Plan.mkMatchPlan (Plan.remainder plan - tradeQuantity) count)
  end.

Fixpoint planBook (isEligible : Price → bool) (book : PriceMap) (plan : MatchPlan) : outcome MatchPlan :=
  match book with
  | [] => Ret plan
  | (price, level) :: rest =>
      if bool_decide (0 < Plan.remainder plan) then
        if isEligible price then
          plan' ← planLevel (Level.orders level) plan;
          planBook isEligible rest plan'
        else Ret plan
      else Ret plan
  end.

Definition planMatches (message : sequenceMessage) (st : MatchingState) : outcome MatchPlan :=
  let plan := Plan.mkMatchPlan (Msg.quantity message) 0 in
  match State.orderBooks st !! Msg.instrumentId message with
  | None => Ret plan
  | Some book =>
      match Msg.type message with
      | OrderType.BUY => planBook (λ p, bool_decide (p ≤ Msg.price message)) (Book.asks book) plan
      | OrderType.SELL => planBook (λ p, bool_decide (Msg.price message ≤ p)) (Book.bids book) plan
      | _ => Throw (logic_error "non-order message cannot plan matching")
      end
  end.

(** ** Resting an order *)
Definition levelAggregate (i : InstrumentId) (s : BookSide) (p : Price) (st : MatchingState) : Quantity :=
  match State.orderBooks st !! i with
  | Some book =>
      match kl_find p (levels s book) with
      | Some level => Level.totalQuantity level
      | None => 0
      end
  | None => 0
  end.

Definition canAddOrder (message : sequenceMessage) (quantity : Quantity) (st : MatchingState) : outcome bool :=
  if bool_decide (quantity = 0) then Ret true
  else
    match findByIdentity (Msg.instrumentId message) (Msg.configurationVersion message) with
    | None => Throw (logic_error "unknown instrument configuration reached matching engine")
    | Some configuration =>
        match restingSide (Msg.type message) with
        | None => Throw (logic_error "non-order message cannot rest in the order book")
        | Some s =>
            let currentAggregate := levelAggregate (Msg.instrumentId message) s (Msg.price message) st in
            let maximum := Instrument.maxPriceLevelAggregate configuration in
            Ret (bool_decide (currentAggregate ≤ maximum) &&
                 bool_decide (quantity ≤ maximum - currentAggregate))
        end
    end.

(** [orderBooks[i]]: creates an empty book when there is none. *)
Definition touchBook (i : InstrumentId) (st : MatchingState) : MatchingState :=
  match State.orderBooks st !! i with
  | Some _ => st
  | None => setBooks (<[i := emptyBook]> (State.orderBooks st)) st
  end.

(** The [push_back], the aggregate update and the index insertion of [addOrder]
    at the price level [map[price]]. *)
Definition restOrder (message : sequenceMessage) (s : BookSide) (remainingQuantity : Quantity)
    : M MatchingState ProcessingResult :=
  st ← getM;
  let i := Msg.instrumentId message in
  let p := Msg.price message in
  let orderLocation := State.nextLocation st in
  let level := match State.orderBooks st !! i with
               | Some book => default emptyLevel (kl_find p (levels s book))
               | None => emptyLevel
               end in
  let node := OrderNode.mkOrderNode (Msg.orderId message) (Msg.clientId message) remainingQuantity in
  modifyM (storeLevel i s p
    (Level.mkPriceLevel (wrap64 (Level.totalQuantity level + remainingQuantity))
       (Level.orders level ++ [(orderLocation, node)]))) ;;
  modifyM (λ st, State.mkMatchingState (State.exchangeRunId st) (State.orderBooks st)
                   (State.activeOrders st) (orderLocation + 1)) ;;
  match State.activeOrders st !! Msg.orderId message with
  | Some _ => throwM (logic_error "duplicate authoritative OrderId reached matching engine")
  | None =>
      modifyM (λ st, setActive (<[Msg.orderId message :=
        Active.mkActiveOrder (Msg.clientId message) i (Msg.type message) p remainingQuantity orderLocation]>
        (State.activeOrders st)) st) ;;
      mret Processing.APPLIED
  end.

Definition addOrder (message : sequenceMessage) (remainingQuantity : Quantity)
    : M MatchingState ProcessingResult :=
  st ← getM;
  throw_ifM (bool_decide (is_Some (State.activeOrders st !! Msg.orderId message)))
    (logic_error "duplicate authoritative OrderId reached matching engine") ;;
  if bool_decide (remainingQuantity = 0) then mret Processing.APPLIED
  else
    fits ← liftM (canAddOrder message remainingQuantity);
    if negb fits then mret Processing.BOOK_CAPACITY_EXCEEDED
    else
      modifyM (touchBook (Msg.instrumentId message)) ;;
      match restingSide (Msg.type message) with
      | None => throwM (logic_error "non-order message cannot rest in the order book")
      | Some s => restOrder message s remainingQuantity
      end.

(** ** Removing orders *)
Definition missingLevel (s : BookSide) : exn :=
  match s with
  | Bids => logic_error "active order references a missing bid level"
  | Asks => logic_error "active order references a missing ask level"
  end.

Definition staleAggregate (s : BookSide) : exn :=
  match s with
  | Bids => logic_error "empty bid level has non-zero aggregate"
  | Asks => logic_error "empty ask level has non-zero aggregate"
  end.

Definition removeFilledOrder (key : OrderId) : M MatchingState unit :=
  st ← getM;
  let notFilled := logic_error "only a fully filled active order can use filled-order removal" in
  match State.activeOrders st !! key with
  | None => throwM notFilled
  | Some activeOrder =>
      throw_ifM (bool_decide (Active.remainingQuantity activeOrder ≠ 0)) notFilled ;;
      node ← liftM (λ st, derefOrder st (Active.orderLocation activeOrder));
      throw_ifM (bool_decide (OrderNode.remainingQuantity node ≠ 0)) notFilled ;;
      let i := Active.instrumentId activeOrder in
      let p := Active.price activeOrder in
      match State.orderBooks st !! i with
      | None => throwM (logic_error "active order references a missing instrument book")
      | Some book =>
          match restingSide (Active.side activeOrder) with
          | None => throwM (logic_error "active order has a non-resting side")
          | Some s =>
              match kl_find p (levels s book) with
              | None => throwM (missingLevel s)
              | Some level =>
                  orders' ← liftM (λ _, eraseCell (Active.orderLocation activeOrder) (Level.orders level));
                  modifyM (storeLevel i s p (Level.mkPriceLevel (Level.totalQuantity level) orders')) ;;
                  modifyM (λ st, setActive (delete key (State.activeOrders st)) st) ;;
                  (if bool_decide (orders' = []) then
                     throw_ifM (bool_decide (Level.totalQuantity level ≠ 0)) (staleAggregate s) ;;
                     modifyM (eraseLevel i s p)
                   else mret tt) ;;
                  modifyM (eraseEmptyBook i)
              end
          end
      end
  end.

(** The lambda [removeFromBook] of [removeCancelledOrder]. *)
Definition removeFromBook (orderId : OrderId) (activeOrder : ActiveOrder) (s : BookSide)
    (book : InstrumentBook) : M MatchingState unit :=
  let i := Active.instrumentId activeOrder in
  let p := Active.price activeOrder in
  let remainingQuantity := Active.remainingQuantity activeOrder in
  let inconsistent := logic_error "active-order index is inconsistent with cancellation target" in
  match kl_find p (levels s book) with
  | None => throwM (missingLevel s)
  | Some level =>
      match list_find (λ c : location * OrderNode, c.1 = Active.orderLocation activeOrder)
              (Level.orders level) with
      | None => throwM inconsistent
      | Some (_, storedOrder) =>
          throw_ifM (bool_decide (OrderNode.orderId storedOrder.2 ≠ orderId) ||
                     bool_decide (OrderNode.owner storedOrder.2 ≠ Active.owner activeOrder) ||
                     bool_decide (OrderNode.remainingQuantity storedOrder.2 ≠ remainingQuantity) ||
                     bool_decide (Level.totalQuantity level < remainingQuantity)) inconsistent ;;
          let removeLevel := bool_decide (length (Level.orders level) = 1%nat) in
          throw_ifM ((removeLevel && bool_decide (Level.totalQuantity level ≠ remainingQuantity)) ||
                     (negb removeLevel && bool_decide (Level.totalQuantity level ≤ remainingQuantity)))
            (logic_error "price-level aggregate is inconsistent with cancellation target") ;;
          orders' ← liftM (λ _, eraseCell (Active.orderLocation activeOrder) (Level.orders level));
          modifyM (storeLevel i s p
            (Level.mkPriceLevel (wrap64 (Level.totalQuantity level - remainingQuantity)) orders')) ;;
          modifyM (λ st, setActive (delete orderId (State.activeOrders st)) st) ;;
          if removeLevel then modifyM (eraseLevel i s p) else mret tt
      end
  end.

Definition removeCancelledOrder (key : OrderId) : M MatchingState unit :=
  st ← getM;
  let notActive := logic_error "only an active positive-quantity order can be cancelled" in
  match State.activeOrders st !! key with
  | None => throwM notActive
  | Some activeOrder =>
      throw_ifM (bool_decide (Active.remainingQuantity activeOrder = 0)) notActive ;;
      match State.orderBooks st !! Active.instrumentId activeOrder with
      | None => throwM (logic_error "active order references a missing instrument book")
      | Some book =>
          match restingSide (Active.side activeOrder) with
          | None => throwM (logic_error "active order has a non-resting side")
          | Some s =>
              removeFromBook key activeOrder s book ;;
              modifyM (eraseEmptyBook (Active.instrumentId activeOrder))
          end
      end
  end.

(** ** Matching *)
Definition withRemaining (q : Quantity) (n : OrderNode) : OrderNode :=
  OrderNode.mkOrderNode (OrderNode.orderId n) (OrderNode.owner n) q.

Definition activeWithRemaining (q : Quantity) (a : ActiveOrder) : ActiveOrder :=
  Active.mkActiveOrder (Active.owner a) (Active.instrumentId a) (Active.side a) (Active.price a) q
    (Active.orderLocation a).

(** [priceLevel] is the value behind the reference, which is the level at
    [executionPrice] on side [s] of the message's instrument. *)
Definition executeTrade (message : sequenceMessage) (makerSide : orderType) (s : BookSide) (takerSide : Side)
    (executionPrice : Price) (priceLevel : PriceLevel) (remaining : Quantity) (events : list BusinessEvent)
    : M MatchingState (Quantity * list BusinessEvent) :=
  match Level.orders priceLevel with
  | [] => throwM undefined_behaviour
  | (orderLocation, order) :: behind =>
      st ← getM;
      let inconsistent := logic_error "active-order index is inconsistent with resting order node" in
      match State.activeOrders st !! OrderNode.orderId order with
      | None => throwM inconsistent
      | Some activeOrder =>
          throw_ifM (bool_decide (Active.instrumentId activeOrder ≠ Msg.instrumentId message) ||
                     bool_decide (Active.side activeOrder ≠ makerSide) ||
                     bool_decide (Active.price activeOrder ≠ executionPrice) ||
                     bool_decide (Active.orderLocation activeOrder ≠ orderLocation) ||
                     bool_decide (Active.remainingQuantity activeOrder ≠ OrderNode.remainingQuantity order) ||
                     bool_decide (Active.owner activeOrder ≠ OrderNode.owner order)) inconsistent ;;
          let tradeQuantity := Z.min remaining (OrderNode.remainingQuantity order) in
          throw_ifM (bool_decide (tradeQuantity = 0) ||
                     bool_decide (Level.totalQuantity priceLevel < tradeQuantity))
            (logic_error "invalid resting quantity or price-level aggregate during matching") ;;
          let makerRemaining := wrap64 (OrderNode.remainingQuantity order - tradeQuantity) in
          let takerRemaining := wrap64 (remaining - tradeQuantity) in
          eventId ← liftM (λ st, makeEventId (State.exchangeRunId st) (Msg.globalSequenceNumber message)
                                   (eventCount events));
          let trade := EvTrade (Trade.mkTrade eventId (Msg.instrumentId message)
                                  (OrderNode.orderId order) (OrderNode.owner order)
                                  (Msg.orderId message) (Msg.clientId message) takerSide executionPrice
                                  tradeQuantity makerRemaining takerRemaining) in
          modifyM (storeLevel (Msg.instrumentId message) s executionPrice
            (Level.mkPriceLevel (wrap64 (Level.totalQuantity priceLevel - tradeQuantity))
               ((orderLocation, withRemaining makerRemaining order) :: behind))) ;;
          modifyM (λ st, setActive (<[OrderNode.orderId order := activeWithRemaining makerRemaining activeOrder]>
                                      (State.activeOrders st)) st) ;;
          (if bool_decide (makerRemaining = 0) then removeFilledOrder (OrderNode.orderId order)
           else mret tt) ;;
          mret (takerRemaining, events ++ [trade])
      end
  end.

(** The [while (remaining.value() > 0)] loop of [matchBuyOrder] and
    [matchSellOrder]; [beyond p] is the test that ends it at a worse price. *)
Fixpoint matchLoop (fuel : nat) (message : sequenceMessage) (makerSide : orderType) (s : BookSide)
    (takerSide : Side) (beyond : Price → bool) (remaining : Quantity) (events : list BusinessEvent)
    : M MatchingState (Quantity * list BusinessEvent) :=
  if bool_decide (0 < remaining) then
    match fuel with
    | O => throwM out_of_fuel
    | Datatypes.S fuel' =>
        st ← getM;
        match State.orderBooks st !! Msg.instrumentId message with
        | None => mret (remaining, events)
        | Some book =>
            match levels s book with
            | [] => mret (remaining, events)
            | (price, priceLevel) :: _ =>
                if beyond price then mret (remaining, events)
                else
                  throw_ifM (bool_decide (Level.orders priceLevel = []))
                    (logic_error "empty price level remained in order book") ;;
                  '(remaining', events') ←
                    executeTrade message makerSide s takerSide price priceLevel remaining events;
                  matchLoop fuel' message makerSide s takerSide beyond remaining' events'
            end
        end
    end
  else mret (remaining, events).

(** Each iteration before the last empties a resting order. *)
Definition matchFuel (st : MatchingState) : nat := Datatypes.S (length (allCells st)).

Definition matchBuyOrder (message : sequenceMessage) (remaining : Quantity) (events : list BusinessEvent)
    : M MatchingState (Quantity * list BusinessEvent) :=
  st ← getM;
  matchLoop (matchFuel st) message OrderType.SELL Asks Side.BUY
    (λ p, bool_decide (Msg.price message < p)) remaining events.

Definition matchSellOrder (message : sequenceMessage) (remaining : Quantity) (events : list BusinessEvent)
    : M MatchingState (Quantity * list BusinessEvent) :=
  st ← getM;
  matchLoop (matchFuel st) message OrderType.BUY Bids Side.SELL
    (λ p, bool_decide (p < Msg.price message)) remaining events.

Definition matchOrder (message : sequenceMessage) (remaining : Quantity) (events : list BusinessEvent)
    : M MatchingState (Quantity * list BusinessEvent) :=
  match Msg.type message with
  | OrderType.BUY => matchBuyOrder message remaining events
  | OrderType.SELL => matchSellOrder message remaining events
  | _ => throwM (logic_error "non-order message cannot enter matching")
  end.

(** ** Commands *)
Definition rejectBookCapacity (message : sequenceMessage) (st : MatchingState) : outcome ProcessingOutcome :=
  match Msg.clientCommandId message with
  | None => Throw (logic_error "sequenced command is missing ClientCommandId")
  | Some cc =>
      Ret (Outcome.mkProcessingOutcome Processing.BOOK_CAPACITY_EXCEEDED
        [EvRejected (Rejected.mkCommandRejected
           (EventId.mkEventId (Msg.globalSequenceNumber message) 0 (State.exchangeRunId st))
           CmdType.NEW_ORDER (Msg.clientId message) cc (Some (Msg.orderId message)) BOOK_CAPACITY_EXCEEDED)])
  end.

Definition rejectCancel (message : sequenceMessage) (targetOrderId : OrderId)
    (reason : CommandRejectionReason) (st : MatchingState) : outcome ProcessingOutcome :=
  eventId ← makeEventId (State.exchangeRunId st) (Msg.globalSequenceNumber message) 0;
  match Msg.clientCommandId message with
  | None => Throw undefined_behaviour
  | Some cc =>
      Ret (Outcome.mkProcessingOutcome Processing.APPLIED
        [EvRejected (Rejected.mkCommandRejected eventId CmdType.CANCEL (Msg.clientId message) cc
                       (Some targetOrderId) reason)])
  end.

Definition processOrder (message : sequenceMessage) (restRemainder : bool) : M MatchingState ProcessingOutcome :=
  plan ← liftM (planMatches message);
  plannedEventCount ← liftM (λ _, checkedAddEventCount (Plan.executionCount plan)
                                    (if bool_decide (0 < Plan.remainder plan) then 1 else 0));
  if bool_decide (MAX_EVENTS_PER_COMMAND < plannedEventCount) then liftM (rejectBookCapacity message)
  else
    fits ← (if restRemainder then liftM (canAddOrder message (Plan.remainder plan)) else mret true);
    if negb fits then liftM (rejectBookCapacity message)
    else
      (if bool_decide (0 < plannedEventCount) then
         liftM (λ st, makeEventId (State.exchangeRunId st) (Msg.globalSequenceNumber message)
                        (plannedEventCount - 1)) ;; mret tt
       else mret tt) ;;
      '(remaining, events) ← matchOrder message (Msg.quantity message) [];
      throw_ifM (bool_decide (remaining ≠ Plan.remainder plan) ||
                 bool_decide (eventCount events ≠ Plan.executionCount plan))
        (logic_error "matching result diverged from mutation-free plan") ;;
      events' ←
        (if restRemainder && bool_decide (0 < remaining) then
           result ← addOrder message remaining;
           throw_ifM (bool_decide (result ≠ Processing.APPLIED))
             (logic_error "price-level capacity changed during single-writer processing") ;;
           eventId ← liftM (λ st, makeEventId (State.exchangeRunId st) (Msg.globalSequenceNumber message)
                                    (eventCount events));
           side ← liftM (λ _, toDomainSide (Msg.type message));
           mret (events ++ [EvRested (Rested.mkOrderRested eventId (Msg.orderId message) (Msg.clientId message)
                                        (Msg.instrumentId message) side (Msg.price message) remaining)])
         else if bool_decide (0 < remaining) then
           eventId ← liftM (λ st, makeEventId (State.exchangeRunId st) (Msg.globalSequenceNumber message)
                                    (eventCount events));
           mret (events ++ [EvCancelled (Cancelled.mkOrderCancelled eventId (Msg.orderId message)
                                           (Msg.clientId message) (Msg.instrumentId message) remaining
                                           IOC_REMAINDER)])
         else mret events);
      throw_ifM (bool_decide (eventCount events' ≠ plannedEventCount))
        (logic_error "terminal outcome diverged from mutation-free plan") ;;
      mret (Outcome.mkProcessingOutcome Processing.APPLIED events').

(** The checks [processBuyOrder] and [processSellOrder] share, line for line. *)
Definition processRestableOrder (message : sequenceMessage) : M MatchingState ProcessingOutcome :=
  throw_ifM (bool_decide (Msg.tif message ≠ TIF.GTC) && bool_decide (Msg.tif message ≠ TIF.IOC))
    (logic_error "unsupported TimeInForce reached matching engine") ;;
  st ← getM;
  throw_ifM (bool_decide (is_Some (State.activeOrders st !! Msg.orderId message)))
    (logic_error "duplicate authoritative OrderId reached matching engine") ;;
  processOrder message (bool_decide (Msg.tif message = TIF.GTC)).

Definition processBuyOrder : sequenceMessage → M MatchingState ProcessingOutcome := processRestableOrder.
Definition processSellOrder : sequenceMessage → M MatchingState ProcessingOutcome := processRestableOrder.

Definition cancelMissingFields (message : sequenceMessage) : bool :=
  bool_decide (Msg.type message ≠ OrderType.CANCEL) ||
  bool_decide (Msg.globalSequenceNumber message = 0) ||
  bool_decide (Msg.clientId message = 0) ||
  bool_decide (Msg.clientCommandId message = None) ||
  bool_decide (Msg.instrumentId message = 0) ||
  bool_decide (Msg.targetOrderId message = None).

Definition processCancel (message : sequenceMessage) : M MatchingState ProcessingOutcome :=
  throw_ifM (cancelMissingFields message)
    (logic_error "cancel command is missing required normalized fields") ;;
  throw_ifM (bool_decide (Msg.orderId message ≠ 0))
    (logic_error "cancel command carries an unexpected authoritative OrderId") ;;
  let targetOrderId := orderIdFrom (default 0 (Msg.targetOrderId message)) in
  st ← getM;
  match State.activeOrders st !! targetOrderId with
  | None => liftM (rejectCancel message targetOrderId ORDER_NOT_ACTIVE)
  | Some activeOrder =>
      if bool_decide (Active.owner activeOrder ≠ Msg.clientId message)
      then liftM (rejectCancel message targetOrderId NOT_OWNER)
      else
        throw_ifM (bool_decide (Active.instrumentId activeOrder ≠ Msg.instrumentId message))
          (logic_error "cancel command routed to the wrong instrument book") ;;
        eventId ← liftM (λ st, makeEventId (State.exchangeRunId st) (Msg.globalSequenceNumber message) 0);
        let events := [EvCancelled (Cancelled.mkOrderCancelled eventId targetOrderId
                         (Active.owner activeOrder) (Active.instrumentId activeOrder)
                         (Active.remainingQuantity activeOrder) CLIENT_REQUESTED)] in
        removeCancelledOrder targetOrderId ;;
        mret (Outcome.mkProcessingOutcome Processing.APPLIED events)
  end.

Definition processMessage (message : sequenceMessage) : M MatchingState ProcessingOutcome :=
  match Msg.type message with
  | OrderType.BUY => processBuyOrder message
  | OrderType.SELL => processSellOrder message
  | OrderType.CANCEL => processCancel message
  | OrderType.CANCELREJ => throwM (logic_error "CANCELREJ is not a valid matching-engine command")
  | OrderType.orderType_raw _ => throwM (logic_error "unsupported order type reached matching engine")
  end.

Definition processCommand (message : sequenceMessage) : M MatchingState CommandResultBatch :=
  correlation ← liftM (λ st, resultCorrelationFrom message (State.exchangeRunId st));
  outcome ← processMessage message;
  liftM (λ _, makeCommandResultBatch correlation (Outcome.result outcome) (Outcome.events outcome)).

(** ** Inspection *)
Module Snapshot.
Record RestingOrderSnapshot := mkRestingOrderSnapshot {
  restingOrderId : OrderId;
  restingOwner : ClientId;
  restingRemainingQuantity : Quantity }.
Record PriceLevelSnapshot := mkPriceLevelSnapshot {
  levelInstrumentId : InstrumentId;
  levelSide : Side;
  levelPrice : Price;
  totalQuantity : Quantity;
  orders : list RestingOrderSnapshot }.
Record ActiveOrderSnapshot := mkActiveOrderSnapshot {
  orderId : OrderId;
  owner : ClientId;
  instrumentId : InstrumentId;
  side : Side;
  price : Price;
  remainingQuantity : Quantity }.
Record MatchingStateSnapshot := mkMatchingStateSnapshot {
  exchangeRunId : ExchangeRunId;
  priceLevels : list PriceLevelSnapshot;
  activeOrders : list ActiveOrderSnapshot }.
End Snapshot.

Definition snapshotNode (n : OrderNode) : Snapshot.RestingOrderSnapshot :=
  Snapshot.mkRestingOrderSnapshot (OrderNode.orderId n) (OrderNode.owner n) (OrderNode.remainingQuantity n).

(** The lambda [appendLevels] of [snapshot]. *)
Definition snapshotLevels (i : InstrumentId) (side : Side) (book : PriceMap)
    : list Snapshot.PriceLevelSnapshot :=
  (λ e : Z * PriceLevel, Snapshot.mkPriceLevelSnapshot i side e.1 (Level.totalQuantity e.2)
            ((λ c : location * OrderNode, snapshotNode c.2) <$> Level.orders e.2)) <$> book.

Definition snapshotActive (e : Z * ActiveOrder) : outcome Snapshot.ActiveOrderSnapshot :=
  side ← toDomainSide (Active.side e.2);
  Ret (Snapshot.mkActiveOrderSnapshot e.1 (Active.owner e.2) (Active.instrumentId e.2) side
         (Active.price e.2) (Active.remainingQuantity e.2)).

Fixpoint mapOutcome {A B} (f : A → outcome B) (l : list A) : outcome (list B) :=
  match l with
  | [] => Ret []
  | a :: l' => b ← f a; bs ← mapOutcome f l'; Ret (b :: bs)
  end.

Definition snapshot (st : MatchingState) : outcome Snapshot.MatchingStateSnapshot :=
  active ← mapOutcome snapshotActive (sortedEntries (State.activeOrders st));
  Ret (Snapshot.mkMatchingStateSnapshot (State.exchangeRunId st)
         (sortedEntries (State.orderBooks st) ≫= λ e,
            snapshotLevels e.1 Side.BUY (Book.bids e.2) ++ snapshotLevels e.1 Side.SELL (Book.asks e.2))
         active).

(** The per-order test of [invariantsHold]'s [checkSide]. *)
Definition nodeConsistent (st : MatchingState) (i : InstrumentId) (side : orderType) (p : Price)
    (c : location * OrderNode) : bool :=
  bool_decide (OrderNode.remainingQuantity c.2 ≠ 0) &&
  match State.activeOrders st !! OrderNode.orderId c.2 with
  | None => false
  | Some a =>
      bool_decide (Active.owner a = OrderNode.owner c.2) &&
      bool_decide (Active.instrumentId a = i) && bool_decide (Active.side a = side) &&
      bool_decide (Active.price a = p) &&
      bool_decide (Active.remainingQuantity a = OrderNode.remainingQuantity c.2) &&
      bool_decide (Active.orderLocation a = c.1)
  end.

(** [totalQuantity += order->remainingQuantity.value()] over a level, modulo 2^64. *)
Definition sumRemaining (orders : OrderList) : Z :=
  foldl (λ acc (c : location * OrderNode), wrap64 (acc + OrderNode.remainingQuantity c.2)) 0 orders.

Definition checkSide (st : MatchingState) (i : InstrumentId) (side : orderType) (book : PriceMap) : bool :=
  forallb (λ e : Z * PriceLevel,
    bool_decide (Level.orders e.2 ≠ []) &&
    forallb (nodeConsistent st i side e.1) (Level.orders e.2) &&
    bool_decide (sumRemaining (Level.orders e.2) = Level.totalQuantity e.2)) book.

Definition invariantsHold (st : MatchingState) : bool :=
  forallb (λ e : Z * InstrumentBook,
    negb (bool_decide (Book.bids e.2 = []) && bool_decide (Book.asks e.2 = [])) &&
    checkSide st e.1 OrderType.BUY (Book.bids e.2) &&
    checkSide st e.1 OrderType.SELL (Book.asks e.2)) (sortedEntries (State.orderBooks st)) &&
  bool_decide (wrap64 (Z.of_nat (length (allCells st))) = Z.of_nat (size (State.activeOrders st))).
