(* ===== verification/MatchingSpec.v ===== *)
(** * What the matching engine promises

    The abstract book of one side of one instrument is its resting orders in
    price-time priority.  [specProcess] says what one command does to the
    abstract books and which events it reports, with no price levels, index,
    cell addresses or aggregates; [MatchingRefine.v] shows that the engine's
    [processCommand] refines it.  [wf] is the engine's representation invariant. *)
From S2P Require Import Prelude KeyedList Domain Matching.

(** ** Abstraction of the engine's state *)
Abbreviation Resting := (Z * OrderNode)%type (only parsing).

(** The cells of a price map with their prices, best price first, oldest first. *)
Definition flatLevels (m : PriceMap) : list (Z * (location * OrderNode)) :=
  m ≫= λ e, (λ c, (e.1, c)) <$> Level.orders e.2.

Definition restingCells (st : MatchingState) (i : InstrumentId) (s : BookSide)
    : list (Z * (location * OrderNode)) :=
  match State.orderBooks st !! i with
  | Some b => flatLevels (levels s b)
  | None => []
  end.

Definition dropLocation (x : Z * (location * OrderNode)) : Z * OrderNode := (x.1, x.2.2).

(** The abstract queue of side [s] of instrument [i]. *)
Definition queueOf (st : MatchingState) (i : InstrumentId) (s : BookSide) : list (Z * OrderNode) :=
  dropLocation <$> restingCells st i s.

(** ** The representation invariant *)
Definition sideType (s : BookSide) : orderType :=
  match s with Bids => OrderType.BUY | Asks => OrderType.SELL end.

Definition sumQuantity (orders : OrderList) : Z :=
  foldr (λ (c : location * OrderNode) acc, OrderNode.remainingQuantity c.2 + acc) 0 orders.

Definition MAX_LEVEL : Z := Instrument.maxPriceLevelAggregate SPY_V1.

Record level_ok (level : PriceLevel) : Prop := {
  level_nonempty : Level.orders level ≠ [];
  level_positive : Forall (λ c : location * OrderNode, 0 < OrderNode.remainingQuantity c.2) (Level.orders level);
  level_total : Level.totalQuantity level = sumQuantity (Level.orders level);
  level_bound : Level.totalQuantity level ≤ MAX_LEVEL }.

Record side_ok (s : BookSide) (m : PriceMap) : Prop := {
  side_sorted : kl_sorted (sideBefore s) m;
  side_levels : Forall (λ e : Z * PriceLevel, level_ok e.2) m;
  side_unique : NoDup ((λ x : Z * (location * OrderNode), OrderNode.orderId x.2.2) <$> flatLevels m) }.

Record book_ok (b : InstrumentBook) : Prop := {
  book_sides s : side_ok s (levels s b);
  book_nonempty : Book.bids b ≠ [] ∨ Book.asks b ≠ [];
  book_uncrossed p q : p ∈ (Book.bids b).*1 → q ∈ (Book.asks b).*1 → p < q }.

(** The index entry a resting cell must have. *)
Definition activeOf (i : InstrumentId) (s : BookSide) (x : Z * (location * OrderNode)) : ActiveOrder :=
  Active.mkActiveOrder (OrderNode.owner x.2.2) i (sideType s) x.1
    (OrderNode.remainingQuantity x.2.2) x.2.1.

Record wf (st : MatchingState) : Prop := {
  wf_books i b : State.orderBooks st !! i = Some b → book_ok b;
  wf_index o a : State.activeOrders st !! o = Some a ↔
    ∃ i s x, x ∈ restingCells st i s ∧ o = OrderNode.orderId x.2.2 ∧ a = activeOf i s x;
  wf_fresh o a : State.activeOrders st !! o = Some a → Active.orderLocation a < State.nextLocation st;
  wf_locations o o' a a' : State.activeOrders st !! o = Some a → State.activeOrders st !! o' = Some a' →
    Active.orderLocation a = Active.orderLocation a' → o = o' }.

(** ** Price-time priority matching *)
Definition opposite (s : BookSide) : BookSide := match s with Bids => Asks | Asks => Bids end.

Module Fill.
Record Fill := mkFill {
  price : Price;
  maker : OrderNode;
  quantity : Quantity }.
End Fill.
Abbreviation Fill := Fill.Fill.

(** Consume the queue from its head while the price is acceptable. *)
Fixpoint sweep (acceptable : Price → bool) (remaining : Quantity) (queue : list (Z * OrderNode))
    : list Fill * Quantity * list (Z * OrderNode) :=
  match queue with
  | [] => ([], remaining, [])
  | (p, n) :: behind =>
      if bool_decide (0 < remaining) && acceptable p then
        let q := Z.min remaining (OrderNode.remainingQuantity n) in
        let fill := Fill.mkFill p n q in
        if bool_decide (q < OrderNode.remainingQuantity n)
        then ([fill], remaining - q, (p, withRemaining (OrderNode.remainingQuantity n - q) n) :: behind)
        else let '(fills, rem, queue') := sweep acceptable (remaining - q) behind in
             (fill :: fills, rem, queue')
      else ([], remaining, queue)
  end.

(** A new order goes behind every order at its price or a better one. *)
Fixpoint enqueue (s : BookSide) (x : Z * OrderNode) (queue : list (Z * OrderNode)) : list (Z * OrderNode) :=
  match queue with
  | [] => [x]
  | y :: behind => if sideBefore s x.1 y.1 then x :: y :: behind else y :: enqueue s x behind
  end.

(** Resting quantity at one price. *)
Definition depthAt (p : Price) (queue : list (Z * OrderNode)) : Z :=
  foldr (λ x acc, (if bool_decide (x.1 = p) then OrderNode.remainingQuantity x.2 else 0) + acc) 0 queue.

Abbreviation Books := (Z → BookSide → list (Z * OrderNode)) (only parsing).

Definition setQueue (i : InstrumentId) (s : BookSide) (queue : list (Z * OrderNode)) (books : Books) : Books :=
  λ i' s', if bool_decide (i' = i ∧ s' = s) then queue else books i' s'.

(** The limit of an order against the opposite side's prices. *)
Definition acceptableFor (s : BookSide) (limit : Price) (p : Price) : bool :=
  match s with
  | Bids => bool_decide (p ≤ limit)
  | Asks => bool_decide (limit ≤ p)
  end.

Definition takerSideOf (s : BookSide) : Side := match s with Bids => Side.BUY | Asks => Side.SELL end.

Definition specEventId (run : ExchangeRunId) (message : sequenceMessage) (index : Z) : EventId :=
  EventId.mkEventId (Msg.globalSequenceNumber message) index run.

Fixpoint tradeEvents (run : ExchangeRunId) (message : sequenceMessage) (s : BookSide) (index : Z)
    (remaining : Quantity) (fills : list Fill) : list BusinessEvent :=
  match fills with
  | [] => []
  | f :: fills' =>
      let n := Fill.maker f in
      EvTrade (Trade.mkTrade (specEventId run message index) (Msg.instrumentId message)
        (OrderNode.orderId n) (OrderNode.owner n) (Msg.orderId message) (Msg.clientId message)
        (takerSideOf s) (Fill.price f) (Fill.quantity f)
        (OrderNode.remainingQuantity n - Fill.quantity f) (remaining - Fill.quantity f))
      :: tradeEvents run message s (index + 1) (remaining - Fill.quantity f) fills'
  end.

Definition specReject (run : ExchangeRunId) (message : sequenceMessage) (type : CommandType)
    (order : OrderId) (reason : CommandRejectionReason) : BusinessEvent :=
  EvRejected (Rejected.mkCommandRejected (specEventId run message 0) type (Msg.clientId message)
    (default ""%string (Msg.clientCommandId message)) (Some order) reason).

Definition takerNode (message : sequenceMessage) (remaining : Quantity) : OrderNode :=
  OrderNode.mkOrderNode (Msg.orderId message) (Msg.clientId message) remaining.

(** A new limit order on side [s]; [rest] says whether its remainder may rest. *)
Definition specOrder (run : ExchangeRunId) (message : sequenceMessage) (s : BookSide) (rest : bool)
    (books : Books) : ProcessingOutcome * Books :=
  let i := Msg.instrumentId message in
  let '(fills, remaining, opposite') :=
    sweep (acceptableFor s (Msg.price message)) (Msg.quantity message) (books i (opposite s)) in
  let count := Z.of_nat (length fills) in
  let rejected := Outcome.mkProcessingOutcome Processing.BOOK_CAPACITY_EXCEEDED
    [specReject run message CmdType.NEW_ORDER (Msg.orderId message) BOOK_CAPACITY_EXCEEDED] in
  let trades := tradeEvents run message s 0 (Msg.quantity message) fills in
  if bool_decide (MAX_EVENTS_PER_COMMAND < count + (if bool_decide (0 < remaining) then 1 else 0))
  then (rejected, books)
  else if rest && bool_decide (0 < remaining) &&
          bool_decide (MAX_LEVEL < depthAt (Msg.price message) (books i s) + remaining)
  then (rejected, books)
  else
    let books1 := setQueue i (opposite s) opposite' books in
    if bool_decide (0 < remaining) then
      if rest then
        (Outcome.mkProcessingOutcome Processing.APPLIED
           (trades ++ [EvRested (Rested.mkOrderRested (specEventId run message count)
              (Msg.orderId message) (Msg.clientId message) i (takerSideOf s) (Msg.price message) remaining)]),
         setQueue i s (enqueue s (Msg.price message, takerNode message remaining) (books i s)) books1)
      else
        (Outcome.mkProcessingOutcome Processing.APPLIED
           (trades ++ [EvCancelled (Cancelled.mkOrderCancelled (specEventId run message count)
              (Msg.orderId message) (Msg.clientId message) i remaining IOC_REMAINDER)]), books1)
    else (Outcome.mkProcessingOutcome Processing.APPLIED trades, books1).

(** The resting order with a given id on one of the two sides of instrument [i]. *)
Definition findResting (o : OrderId) (queue : list (Z * OrderNode)) : option (Z * OrderNode) :=
  snd <$> list_find (λ x : Z * OrderNode, OrderNode.orderId x.2 = o) queue.

Definition removeResting (o : OrderId) (queue : list (Z * OrderNode)) : list (Z * OrderNode) :=
  filter (λ x : Z * OrderNode, OrderNode.orderId x.2 ≠ o) queue.

(** Cancellation of [o] when it rests on instrument [i]; [None] when it does not rest there. *)
Definition specCancel (run : ExchangeRunId) (message : sequenceMessage) (o : OrderId) (books : Books)
    : ProcessingOutcome * Books :=
  let i := Msg.instrumentId message in
  match findResting o (books i Bids ++ books i Asks) with
  | None =>
      (Outcome.mkProcessingOutcome Processing.APPLIED
         [specReject run message CmdType.CANCEL o ORDER_NOT_ACTIVE], books)
  | Some (_, n) =>
      if bool_decide (OrderNode.owner n = Msg.clientId message) then
        (Outcome.mkProcessingOutcome Processing.APPLIED
           [EvCancelled (Cancelled.mkOrderCancelled (specEventId run message 0) o (Msg.clientId message) i
              (OrderNode.remainingQuantity n) CLIENT_REQUESTED)],
         setQueue i Bids (removeResting o (books i Bids))
           (setQueue i Asks (removeResting o (books i Asks)) books))
      else
        (Outcome.mkProcessingOutcome Processing.APPLIED
           [specReject run message CmdType.CANCEL o NOT_OWNER], books)
  end.

Definition specProcess (run : ExchangeRunId) (message : sequenceMessage) (books : Books)
    : ProcessingOutcome * Books :=
  match Msg.type message with
  | OrderType.BUY => specOrder run message Bids (bool_decide (Msg.tif message = TIF.GTC)) books
  | OrderType.SELL => specOrder run message Asks (bool_decide (Msg.tif message = TIF.GTC)) books
  | _ => specCancel run message (default 0 (Msg.targetOrderId message)) books
  end.

(** ** The commands the sequencer delivers *)

(** A normalized new order, as admission and the parser let it through. *)
Record valid_order (message : sequenceMessage) : Prop := {
  vo_side : restingSide (Msg.type message) ≠ None;
  vo_tif : Msg.tif message = TIF.GTC ∨ Msg.tif message = TIF.IOC;
  vo_instrument : findByIdentity (Msg.instrumentId message) (Msg.configurationVersion message) = Some SPY_V1;
  vo_quantity : is_u64 (Msg.quantity message);
  vo_order : Msg.orderId message = Msg.globalSequenceNumber message }.

Record valid_cancel (message : sequenceMessage) : Prop := {
  vc_type : Msg.type message = OrderType.CANCEL;
  vc_instrument : findByIdentity (Msg.instrumentId message) (Msg.configurationVersion message) = Some SPY_V1;
  vc_target : Msg.targetOrderId message ≠ None;
  vc_order : Msg.orderId message = 0 }.

Record valid_command (message : sequenceMessage) : Prop := {
  vm_client : Msg.clientId message ≠ 0;
  vm_command : Msg.clientCommandId message ≠ None;
  vm_sequence : 0 < Msg.globalSequenceNumber message ≤ UINT64_MAX;
  vm_kind : valid_order message ∨ valid_cancel message }.

(** Every order the engine knows was created by an earlier command. *)
Definition orders_before (n : CommandSequence) (st : MatchingState) : Prop :=
  ∀ o, is_Some (State.activeOrders st !! o) → 0 < o < n.

(** Only the configured instrument has a book. *)
Definition listed (st : MatchingState) : Prop :=
  ∀ i s, i ≠ Instrument.instrumentId SPY_V1 → queueOf st i s = [].

(** The engine is ready for the command with sequence [n]. *)
Record engine_ok (n : CommandSequence) (st : MatchingState) : Prop := {
  ok_wf : wf st;
  ok_orders : orders_before n st;
  ok_sequence : n ≤ UINT64_MAX + 1;
  ok_listed : listed st }.
