(* ===== verification/MatchingInv.v ===== *)
(** * Representation invariant of the matching engine: shared lemmas

    The four ways the engine changes a side of a book (partial fill, full fill,
    resting, cancellation) all replace one price map and adjust the index;
    [wf_replace] is the one preservation lemma they use. *)
From S2P Require Import Prelude KeyedList Domain Matching MatchingSpec.

(** ** Replacing one side of one book *)
Definition bookAt (st : MatchingState) (i : InstrumentId) : InstrumentBook :=
  default emptyBook (State.orderBooks st !! i).

Definition isEmptyBook (b : InstrumentBook) : bool :=
  bool_decide (Book.bids b = []) && bool_decide (Book.asks b = []).

Definition putBook (i : InstrumentId) (b : InstrumentBook) (books : gmap Z InstrumentBook)
    : gmap Z InstrumentBook :=
  if isEmptyBook b then delete i books else <[i := b]> books.

Definition replaceSide (i : InstrumentId) (s : BookSide) (m : PriceMap) (active : gmap Z ActiveOrder)
    (next : location) (st : MatchingState) : MatchingState :=
  State.mkMatchingState (State.exchangeRunId st)
    (putBook i (setLevels s m (bookAt st i)) (State.orderBooks st)) active next.

Definition restsOn (i : InstrumentId) (s : BookSide) (a : ActiveOrder) : Prop :=
  Active.instrumentId a = i ∧ Active.side a = sideType s.

(** A price of side [s] does not reach a price of the other side. *)
Definition apart (s : BookSide) (p q : Price) : Prop :=
  match s with Bids => p < q | Asks => q < p end.

(** ** Flattened price maps *)
Section flat.
Implicit Types (m : PriceMap) (p : Price).

Lemma flatLevels_cons p level m :
  flatLevels ((p, level) :: m) = ((λ c, (p, c)) <$> Level.orders level) ++ flatLevels m.
Proof. reflexivity. Qed.

Lemma flatLevels_app m1 m2 : flatLevels (m1 ++ m2) = flatLevels m1 ++ flatLevels m2.
Proof. unfold flatLevels. apply bind_app. Qed.

Lemma elem_of_flatLevels p c m :
  (p, c) ∈ flatLevels m ↔ ∃ level, (p, level) ∈ m ∧ c ∈ Level.orders level.
Proof.
  unfold flatLevels. rewrite list_elem_of_bind. split.
  - intros ([p' level] & Hc & Hin). apply list_elem_of_fmap in Hc as (c' & ? & ?).
    simplify_eq/=. eauto.
  - intros (level & ? & ?). exists (p, level). split; [|done].
    apply list_elem_of_fmap. eauto.
Qed.

Lemma flatLevels_price x m : x ∈ flatLevels m → x.1 ∈ m.*1.
Proof.
  destruct x as [p c]. rewrite elem_of_flatLevels. intros (level & ? & ?).
  apply list_elem_of_fmap. by exists (p, level).
Qed.

Lemma levelCells_flat m : levelCells m = (flatLevels m).*2.
Proof.
  induction m as [|[p level] m IH]; [done|].
  rewrite flatLevels_cons, fmap_app, <-IH, <-list_fmap_compose.
  change (levelCells ((p, level) :: m)) with (Level.orders level ++ levelCells m).
  f_equal. symmetry. apply list_fmap_id.
Qed.

Lemma side_ok_prices s m : side_ok s m → ∀ p, p ∈ m.*1 → ∃ c, (p, c) ∈ flatLevels m.
Proof.
  intros Hm p ([p' level] & -> & Hin)%list_elem_of_fmap_1.
  pose proof (side_levels _ _ Hm) as Hl. rewrite Forall_forall in Hl.
  destruct (Hl _ Hin) as [Hne _ _ _]. simpl in *.
  destruct (Level.orders level) as [|c cs] eqn:E; [done|].
  exists c. apply elem_of_flatLevels. exists level. split; [done|]. rewrite E. by left.
Qed.

Lemma side_ok_positive s m x :
  side_ok s m → x ∈ flatLevels m → 0 < OrderNode.remainingQuantity x.2.2.
Proof.
  intros Hm. destruct x as [p c]. rewrite elem_of_flatLevels. intros (level & Hin & Hc).
  pose proof (side_levels _ _ Hm) as Hl. rewrite Forall_forall in Hl.
  destruct (Hl _ Hin) as [_ Hp _ _]. rewrite Forall_forall in Hp. by apply Hp.
Qed.
End flat.

Lemma side_ok_nil s : side_ok s [].
Proof. split; [constructor|constructor|apply NoDup_nil_2]. Qed.

(** ** Reading a side back *)
Lemma levels_setLevels_eq s m b : levels s (setLevels s m b) = m.
Proof. by destruct s. Qed.

Lemma levels_setLevels_ne s s' m b : s' ≠ s → levels s' (setLevels s m b) = levels s' b.
Proof. by destruct s, s'. Qed.

Lemma isEmptyBook_levels b s : isEmptyBook b = true → levels s b = [].
Proof.
  unfold isEmptyBook. repeat case_bool_decide; try done. by destruct s.
Qed.

Lemma setLevels_id s b : setLevels s (levels s b) b = b.
Proof. by destruct s, b. Qed.

Lemma setLevels_setLevels s m m' b : setLevels s m' (setLevels s m b) = setLevels s m' b.
Proof. by destruct s. Qed.

Lemma lookup_putBook_eq i b books :
  putBook i b books !! i = if isEmptyBook b then None else Some b.
Proof. unfold putBook. destruct (isEmptyBook b); by simplify_map_eq. Qed.

Lemma lookup_putBook_ne i j b books : i ≠ j → putBook i b books !! j = books !! j.
Proof. intros. unfold putBook. destruct (isEmptyBook b); by simplify_map_eq. Qed.

Lemma restingCells_bookAt st i s : restingCells st i s = flatLevels (levels s (bookAt st i)).
Proof. unfold restingCells, bookAt. destruct (State.orderBooks st !! i); by destruct s. Qed.

Lemma restingCells_replace i s m active next st i' s' :
  restingCells (replaceSide i s m active next st) i' s' =
  if bool_decide (i' = i ∧ s' = s) then flatLevels m else restingCells st i' s'.
Proof.
  unfold restingCells at 1, replaceSide; simpl.
  destruct (decide (i' = i)) as [->|Hi].
  - rewrite lookup_putBook_eq.
    assert (flatLevels (levels s' (setLevels s m (bookAt st i))) =
            if bool_decide (i = i ∧ s' = s) then flatLevels m else restingCells st i s') as <-.
    { case_bool_decide as Hs.
      - destruct Hs as [_ ->]. by rewrite levels_setLevels_eq.
      - rewrite levels_setLevels_ne by naive_solver. by rewrite restingCells_bookAt. }
    destruct (isEmptyBook (setLevels s m (bookAt st i))) eqn:E; [|done].
    by rewrite (isEmptyBook_levels _ s' E).
  - rewrite lookup_putBook_ne by done. by rewrite bool_decide_eq_false_2 by (by intros [-> _]).
Qed.

Lemma sideType_inj s s' : sideType s = sideType s' → s = s'.
Proof. by destruct s, s'. Qed.

Lemma bookAt_ok st i s : wf st → side_ok s (levels s (bookAt st i)).
Proof.
  intros Hwf. unfold bookAt. destruct (State.orderBooks st !! i) as [b|] eqn:E; simpl.
  - by apply (book_sides b), (wf_books _ Hwf i).
  - destruct s; apply side_ok_nil.
Qed.

Lemma book_ok_replace i s m st :
  wf st → side_ok s m →
  (∀ p q, p ∈ m.*1 → q ∈ (levels (opposite s) (bookAt st i)).*1 → apart s p q) →
  isEmptyBook (setLevels s m (bookAt st i)) = false →
  book_ok (setLevels s m (bookAt st i)).
Proof.
  intros Hwf Hm Hapart Hne. split.
  - intros s'. destruct (decide (s' = s)) as [->|].
    + by rewrite levels_setLevels_eq.
    + rewrite levels_setLevels_ne by done. by apply bookAt_ok.
  - unfold isEmptyBook in Hne. repeat case_bool_decide; naive_solver.
  - intros p q Hp Hq. destruct s; simpl in *.
    + by apply (Hapart p q).
    + by apply (Hapart q p).
Qed.

Lemma wf_replace i s m active next st :
  wf st → side_ok s m →
  (∀ p q, p ∈ m.*1 → q ∈ (levels (opposite s) (bookAt st i)).*1 → apart s p q) →
  (∀ o a, active !! o = Some a ↔
     (∃ x, x ∈ flatLevels m ∧ o = OrderNode.orderId x.2.2 ∧ a = activeOf i s x) ∨
     (State.activeOrders st !! o = Some a ∧ ¬ restsOn i s a)) →
  (∀ o a, active !! o = Some a → Active.orderLocation a < next) →
  (∀ o o' a a', active !! o = Some a → active !! o' = Some a' →
     Active.orderLocation a = Active.orderLocation a' → o = o') →
  wf (replaceSide i s m active next st).
Proof.
  intros Hwf Hm Hapart Hindex Hnext Hinj. split; simpl; [| |done..].
  - intros j b. destruct (decide (j = i)) as [->|].
    + rewrite lookup_putBook_eq. destruct (isEmptyBook _) eqn:E; [done|].
      intros [= <-]. by apply book_ok_replace.
    + rewrite lookup_putBook_ne by done. apply (wf_books _ Hwf).
  - intros o a. rewrite Hindex. setoid_rewrite restingCells_replace. split.
    + intros [(x & ? & ? & ?)|[Ha Hon]].
      * exists i, s, x. by rewrite bool_decide_eq_true_2.
      * apply (wf_index _ Hwf) in Ha as (i' & s' & x & ? & ? & ->).
        exists i', s', x. rewrite bool_decide_eq_false_2; [done|].
        intros [-> ->]. by apply Hon.
    + intros (i' & s' & x & Hx & -> & ->). case_bool_decide as Hd.
      * destruct Hd as [-> ->]. left. by exists x.
      * right. split; [apply (wf_index _ Hwf); by eauto 10|].
        intros [? ?%sideType_inj]. by apply Hd.
Qed.

(** ** Consequences of the invariant *)
Section index_facts.
Context (st : MatchingState) (Hwf : wf st).

Lemma wf_lookup i s x :
  x ∈ restingCells st i s →
  State.activeOrders st !! OrderNode.orderId x.2.2 = Some (activeOf i s x).
Proof. intros. apply (wf_index _ Hwf). eauto 10. Qed.

Lemma wf_active_cell o a :
  State.activeOrders st !! o = Some a →
  ∃ i s x, x ∈ restingCells st i s ∧ o = OrderNode.orderId x.2.2 ∧ a = activeOf i s x.
Proof. apply (wf_index _ Hwf). Qed.

(** A resting order has one place. *)
Lemma wf_place i s x i' s' x' :
  x ∈ restingCells st i s → x' ∈ restingCells st i' s' →
  OrderNode.orderId x.2.2 = OrderNode.orderId x'.2.2 → i = i' ∧ s = s' ∧ x = x'.
Proof.
  intros Hx Hx' Hid. pose proof (wf_lookup _ _ _ Hx) as H1. pose proof (wf_lookup _ _ _ Hx') as H2.
  rewrite Hid, H2 in H1. unfold activeOf in H1. injection H1 as Ho -> Hs%sideType_inj Hp Hr Hl. subst s'.
  split_and!; [done..|].
  destruct x as [? [? [???]]], x' as [? [? [???]]]. simpl in *. by subst.
Qed.

Lemma wf_location_place i s x i' s' x' :
  x ∈ restingCells st i s → x' ∈ restingCells st i' s' → x.2.1 = x'.2.1 → x.2 = x'.2.
Proof.
  intros Hx Hx' Hl. pose proof (wf_lookup _ _ _ Hx) as H1. pose proof (wf_lookup _ _ _ Hx') as H2.
  assert (OrderNode.orderId x.2.2 = OrderNode.orderId x'.2.2) as Hid
    by (eapply (wf_locations _ Hwf); [exact H1|exact H2|done]).
  by destruct (wf_place _ _ _ _ _ _ Hx Hx' Hid) as (_ & _ & ->).
Qed.

Lemma elem_of_allCells c :
  c ∈ allCells st ↔ ∃ i s p, (p, c) ∈ restingCells st i s.
Proof.
  unfold allCells. rewrite list_elem_of_bind. split.
  - intros ([i b] & Hc & Hb%elem_of_map_to_list). simpl in Hc.
    unfold bookCells in Hc. rewrite elem_of_app, !levelCells_flat in Hc.
    destruct Hc as [([p c'] & -> & Hc)%list_elem_of_fmap|([p c'] & -> & Hc)%list_elem_of_fmap];
      [exists i, Bids, p|exists i, Asks, p]; unfold restingCells; by rewrite Hb.
  - intros (i & s & p & Hc). unfold restingCells in Hc.
    destruct (State.orderBooks st !! i) as [b|] eqn:Hb; [|by apply elem_of_nil in Hc].
    exists (i, b). split; [|by apply elem_of_map_to_list]. simpl. unfold bookCells.
    rewrite elem_of_app, !levelCells_flat.
    destruct s; [left|right]; apply list_elem_of_fmap; by exists (p, c).
Qed.

Lemma derefOrder_resting i s x :
  x ∈ restingCells st i s → derefOrder st x.2.1 = Ret x.2.2.
Proof.
  intros Hx. unfold derefOrder.
  destruct (list_find _ (allCells st)) as [[k c]|] eqn:E.
  - apply list_find_Some in E as (Hk & Hc & _).
    assert (c ∈ allCells st) as (i' & s' & p & Hp)%elem_of_allCells
      by (apply list_elem_of_lookup; eauto).
    assert (x.2 = c) as -> by (by apply (wf_location_place _ _ _ _ _ _ Hx Hp)). done.
  - apply list_find_None in E. rewrite Forall_forall in E.
    destruct (E x.2); [|done]. apply elem_of_allCells. exists i, s, x.1. by destruct x.
Qed.
End index_facts.

(** * The engine's mutations, one resting order at a time

    Every mutation of [MatchingState] is a [replaceSide]: the assignments through
    references and iterators are computed once here, and the three changes of the
    resting orders they produce (update, removal, insertion of one cell) are shown
    to keep [wf]. *)

(** ** Algebra of [replaceSide] *)
Section replace_side.
Implicit Types (st : MatchingState) (i : InstrumentId) (s : BookSide) (m : PriceMap).

Lemma bookAt_Some st i b : State.orderBooks st !! i = Some b → bookAt st i = b.
Proof. unfold bookAt. by intros ->. Qed.

Lemma bookAt_lookup st i s :
  levels s (bookAt st i) ≠ [] → State.orderBooks st !! i = Some (bookAt st i).
Proof. unfold bookAt. destruct (State.orderBooks st !! i); [done|]. by destruct s. Qed.

Lemma isEmptyBook_eq b : isEmptyBook b = true → b = emptyBook.
Proof.
  unfold isEmptyBook. destruct b as [x y]; simpl. repeat case_bool_decide; try done.
  by subst.
Qed.

Lemma isEmptyBook_cons s e m b : isEmptyBook (setLevels s (e :: m) b) = false.
Proof. unfold isEmptyBook. destruct s; simpl; [done|]. apply andb_false_r. Qed.

Lemma bookAt_replaceSide i s m active next st :
  bookAt (replaceSide i s m active next st) i = setLevels s m (bookAt st i).
Proof.
  unfold bookAt at 1, replaceSide; simpl. rewrite lookup_putBook_eq.
  destruct (isEmptyBook _) eqn:E; [|done]. by rewrite (isEmptyBook_eq _ E).
Qed.

Lemma putBook_putBook i b b' books : putBook i b' (putBook i b books) = putBook i b' books.
Proof.
  apply map_eq. intros j. destruct (decide (i = j)) as [->|].
  - by rewrite !lookup_putBook_eq.
  - by rewrite !lookup_putBook_ne.
Qed.

Lemma replaceSide_twice i s m m' a a' n n' st :
  replaceSide i s m' a' n' (replaceSide i s m a n st) = replaceSide i s m' a' n' st.
Proof.
  unfold replaceSide at 1. rewrite bookAt_replaceSide, setLevels_setLevels. simpl.
  by rewrite putBook_putBook.
Qed.

Lemma lookup_replaceSide i s e m a n st :
  State.orderBooks (replaceSide i s (e :: m) a n st) !! i =
  Some (setLevels s (e :: m) (bookAt st i)).
Proof. simpl. by rewrite lookup_putBook_eq, isEmptyBook_cons. Qed.

Lemma replaceSide_Some i s m a n st :
  m ≠ [] → is_Some (State.orderBooks (replaceSide i s m a n st) !! i).
Proof. destruct m as [|e m]; [done|]. rewrite lookup_replaceSide. eauto. Qed.

Lemma levels_replaceSide i s m a n st :
  levels s (bookAt (replaceSide i s m a n st) i) = m.
Proof. by rewrite bookAt_replaceSide, levels_setLevels_eq. Qed.

Lemma replaceSide_alter i s m f st :
  is_Some (State.orderBooks st !! i) → f (bookAt st i) = setLevels s m (bookAt st i) →
  isEmptyBook (setLevels s m (bookAt st i)) = false →
  setBooks (alter f i (State.orderBooks st)) st =
  replaceSide i s m (State.activeOrders st) (State.nextLocation st) st.
Proof.
  intros [b Hb] Hf Hne. unfold setBooks, replaceSide. f_equal.
  unfold putBook. rewrite Hne. apply map_eq. intros j. destruct (decide (i = j)) as [->|].
  - rewrite lookup_insert_eq, lookup_alter_eq, Hb. rewrite (bookAt_Some _ _ _ Hb) in *.
    simpl. by f_equal.
  - by rewrite lookup_insert_ne, lookup_alter_ne.
Qed.

Lemma kl_set_nonempty {V} before k (v : V) l : kl_set before k v l ≠ [].
Proof.
  destruct l as [|[k' v'] l]; simpl; [done|].
  case_bool_decide; [done|]. by destruct (before k k').
Qed.

Lemma storeLevel_replace i s p level st :
  is_Some (State.orderBooks st !! i) →
  storeLevel i s p level st =
  replaceSide i s (kl_set (sideBefore s) p level (levels s (bookAt st i)))
    (State.activeOrders st) (State.nextLocation st) st.
Proof.
  intros Hb. unfold storeLevel. apply replaceSide_alter; [done..|].
  destruct (kl_set _ _ _ _) as [|e m] eqn:E; [by apply kl_set_nonempty in E|].
  apply isEmptyBook_cons.
Qed.

Lemma eraseEmptyBook_setBooks i b st :
  eraseEmptyBook i (setBooks (<[i := b]> (State.orderBooks st)) st) =
  setBooks (putBook i b (State.orderBooks st)) st.
Proof.
  unfold eraseEmptyBook, setBooks; simpl. rewrite lookup_insert_eq.
  change (bool_decide (Book.bids b = []) && bool_decide (Book.asks b = [])) with (isEmptyBook b).
  unfold putBook. destruct (isEmptyBook b); [|done]. simpl. f_equal. apply delete_insert_eq.
Qed.

Lemma eraseLevel_replace i s p st :
  is_Some (State.orderBooks st !! i) →
  eraseEmptyBook i (eraseLevel i s p st) =
  replaceSide i s (kl_erase p (levels s (bookAt st i)))
    (State.activeOrders st) (State.nextLocation st) st.
Proof.
  intros [b Hb]. unfold eraseLevel.
  replace (alter (λ b, setLevels s (kl_erase p (levels s b)) b) i (State.orderBooks st))
    with (<[i := setLevels s (kl_erase p (levels s b)) b]> (State.orderBooks st)).
  - rewrite eraseEmptyBook_setBooks. unfold replaceSide. by rewrite (bookAt_Some _ _ _ Hb).
  - apply map_eq. intros j. destruct (decide (i = j)) as [->|].
    + by rewrite lookup_insert_eq, lookup_alter_eq, Hb.
    + by rewrite lookup_insert_ne, lookup_alter_ne.
Qed.

Lemma eraseEmptyBook_id i s e m a n st :
  eraseEmptyBook i (replaceSide i s (e :: m) a n st) = replaceSide i s (e :: m) a n st.
Proof.
  unfold eraseEmptyBook. rewrite lookup_replaceSide.
  change (bool_decide (Book.bids ?b = []) && bool_decide (Book.asks ?b = [])) with (isEmptyBook b).
  by rewrite isEmptyBook_cons.
Qed.

Lemma setActive_replaceSide a' i s m a n st :
  setActive a' (replaceSide i s m a n st) = replaceSide i s m a' n st.
Proof. reflexivity. Qed.
End replace_side.

(** ** One cell at a time *)
Abbreviation cell := (Z * (location * OrderNode))%type (only parsing).

Definition cellId (x : cell) : OrderId := OrderNode.orderId x.2.2.

Section one_cell.
Context (st : MatchingState) (Hwf : wf st) (i : InstrumentId) (s : BookSide).
Implicit Types (pre post : list (Z * (location * OrderNode))) (x y : Z * (location * OrderNode)).

Lemma resting_unique : NoDup (cellId <$> restingCells st i s).
Proof. rewrite restingCells_bookAt. apply (side_unique s), bookAt_ok, Hwf. Qed.

Lemma wf_apart p q :
  p ∈ (levels s (bookAt st i)).*1 → q ∈ (levels (opposite s) (bookAt st i)).*1 → apart s p q.
Proof.
  intros Hp Hq. destruct (levels s (bookAt st i)) as [|e m] eqn:E; [by apply elem_of_nil in Hp|].
  assert (State.orderBooks st !! i = Some (bookAt st i)) as Hb
    by (apply (bookAt_lookup st i s); by rewrite E).
  pose proof (book_uncrossed _ (wf_books _ Hwf _ _ Hb)) as Hu. rewrite <-E in Hp.
  destruct s; simpl in *; by apply Hu.
Qed.

Lemma split_ids pre x post y :
  restingCells st i s = pre ++ x :: post → y ∈ pre ++ post → cellId y ≠ cellId x.
Proof.
  intros Hc Hy Hid. pose proof resting_unique as Hu.
  rewrite Hc, fmap_app, fmap_cons in Hu. apply NoDup_app in Hu as (_ & Hd & Hu%NoDup_cons).
  apply elem_of_app in Hy as [Hy|Hy].
  - apply (Hd (cellId y)); [by apply list_elem_of_fmap_2|]. rewrite Hid. by left.
  - apply (proj1 Hu). rewrite <-Hid. by apply list_elem_of_fmap_2.
Qed.

Lemma other_index o a :
  State.activeOrders st !! o = Some a ↔
  (∃ x, x ∈ restingCells st i s ∧ o = cellId x ∧ a = activeOf i s x) ∨
  (State.activeOrders st !! o = Some a ∧ ¬ restsOn i s a).
Proof.
  split; [|intros [(x & ? & -> & ->)|[? _]]; [by apply wf_lookup|done]].
  intros Ha. destruct (proj1 (wf_index _ Hwf o a) Ha) as (i' & s' & x & Hx & -> & ->).
  destruct (decide (i' = i ∧ s' = s)) as [[-> ->]|Hne]; [left; eauto|right].
  split; [done|]. intros [? ?%sideType_inj]. naive_solver.
Qed.

Lemma subset_apart m p q :
  side_ok s m → (∀ y, y ∈ flatLevels m → ∃ y', y' ∈ restingCells st i s ∧ y'.1 = y.1) →
  p ∈ m.*1 → q ∈ (levels (opposite s) (bookAt st i)).*1 → apart s p q.
Proof.
  intros Hm Hsub Hp Hq. destruct (side_ok_prices _ _ Hm _ Hp) as [c Hc].
  destruct (Hsub _ Hc) as (y' & Hy' & Hp'). simpl in Hp'. subst p. apply wf_apart; [|done].
  rewrite restingCells_bookAt in Hy'. by apply flatLevels_price.
Qed.

(** A removed order leaves the index. *)
Lemma wf_remove_cell pre x post m :
  restingCells st i s = pre ++ x :: post → side_ok s m → flatLevels m = pre ++ post →
  wf (replaceSide i s m (delete (cellId x) (State.activeOrders st)) (State.nextLocation st) st).
Proof.
  intros Hc Hm Hflat.
  assert (Hx : State.activeOrders st !! cellId x = Some (activeOf i s x))
    by (apply wf_lookup; [done|]; by rewrite Hc).
  apply wf_replace; [done|done| | | |].
  - intros p q Hp Hq. eapply subset_apart; [done| |done|done].
    intros y Hy. exists y. split; [|done]. rewrite Hc, elem_of_around. right. by rewrite <-Hflat.
  - intros o a. pose proof (other_index o a) as Hi. rewrite Hc in Hi.
    setoid_rewrite elem_of_around in Hi. rewrite lookup_delete_Some, Hflat. split.
    + intros [Hne [(y & [->|Hy] & -> & ->)|[? ?]]%Hi]; [by destruct Hne|left; by exists y|by right].
    + intros [(y & Hy & -> & ->)|[Ha Hon]].
      * split; [by apply not_eq_sym; eapply split_ids|]. apply Hi. left. exists y. auto.
      * split; [|done]. intros <-. rewrite Hx in Ha. simplify_eq. by apply Hon.
  - intros o a [_ Ha]%lookup_delete_Some. by eapply (wf_fresh _ Hwf).
  - intros o o' a a' [_ Ha]%lookup_delete_Some [_ Ha']%lookup_delete_Some.
    by apply (wf_locations _ Hwf).
Qed.

(** A partially filled order keeps its place, its identity and its address. *)
Lemma wf_update_cell pre p l n r post m :
  restingCells st i s = pre ++ (p, (l, n)) :: post → side_ok s m →
  flatLevels m = pre ++ (p, (l, withRemaining r n)) :: post →
  wf (replaceSide i s m
        (<[OrderNode.orderId n := activeOf i s (p, (l, withRemaining r n))]> (State.activeOrders st))
        (State.nextLocation st) st).
Proof.
  set (x := (p, (l, n))). set (x' := (p, (l, withRemaining r n))).
  intros Hc Hm Hflat.
  assert (Hx : State.activeOrders st !! OrderNode.orderId n = Some (activeOf i s x))
    by (apply (wf_lookup _ Hwf _ _ x); by rewrite Hc).
  assert (Hloc : ∀ o a, <[OrderNode.orderId n := activeOf i s x']> (State.activeOrders st) !! o = Some a →
            ∃ a0, State.activeOrders st !! o = Some a0 ∧ Active.orderLocation a0 = Active.orderLocation a).
  { intros o a [[<- <-]|[? ?]]%lookup_insert_Some; [|by eauto]. by exists (activeOf i s x). }
  apply wf_replace; [done|done| | | |].
  - intros q q' Hq Hq'. eapply subset_apart; [done| |done|done].
    intros y. rewrite Hflat, elem_of_around. setoid_rewrite Hc. setoid_rewrite elem_of_around.
    intros [->|?]; [exists x|exists y]; auto.
  - intros o a. pose proof (other_index o a) as Hi. rewrite Hc in Hi.
    setoid_rewrite elem_of_around in Hi. rewrite lookup_insert_Some, Hflat.
    setoid_rewrite elem_of_around. split.
    + intros [[<- <-]|[Hne [(y & [->|Hy] & -> & ->)|[? ?]]%Hi]]; [left|by destruct Hne|left|by right].
      * exists x'. auto.
      * exists y. auto.
    + intros [(y & [->|Hy] & -> & ->)|[Ha Hon]]; [by left|right|right].
      * split; [by apply not_eq_sym; apply (split_ids pre x post)|]. apply Hi. left. exists y. auto.
      * split; [|done]. intros <-. rewrite Hx in Ha. simplify_eq. by apply Hon.
  - intros o a (a0 & ? & <-)%Hloc. by eapply (wf_fresh _ Hwf).
  - intros o o' a a' (a0 & Ha & <-)%Hloc (a0' & Ha' & <-)%Hloc. by apply (wf_locations _ Hwf).
Qed.

(** A new order enters the book at a fresh address. *)
Lemma wf_insert_cell pre x post m :
  restingCells st i s = pre ++ post → side_ok s m → flatLevels m = pre ++ x :: post →
  State.activeOrders st !! cellId x = None → x.2.1 = State.nextLocation st →
  (∀ q, q ∈ (levels (opposite s) (bookAt st i)).*1 → apart s x.1 q) →
  wf (replaceSide i s m (<[cellId x := activeOf i s x]> (State.activeOrders st))
        (State.nextLocation st + 1) st).
Proof.
  intros Hc Hm Hflat Hfresh Hl Hapart. apply wf_replace; [done|done| | | |].
  - intros p q Hp Hq. destruct (side_ok_prices _ _ Hm _ Hp) as [c Hy].
    rewrite Hflat, elem_of_around, <-Hc in Hy. destruct Hy as [<-|Hy]; [by apply (Hapart q)|].
    apply wf_apart; [|done]. rewrite restingCells_bookAt in Hy. by apply (flatLevels_price (p, c)).
  - intros o a. pose proof (other_index o a) as Hi. rewrite Hc in Hi.
    rewrite lookup_insert_Some, Hflat. setoid_rewrite elem_of_around. split.
    + intros [[<- <-]|[Hne [(y & Hy & -> & ->)|[? ?]]%Hi]]; [left|left|by right].
      * exists x. auto.
      * exists y. auto.
    + intros [(y & [->|Hy] & -> & ->)|[Ha Hon]]; [by left|right|right].
      * split; [|apply Hi; left; by exists y]. intros Heq. unfold cellId in Heq, Hfresh.
        rewrite Heq in Hfresh. rewrite (wf_lookup st Hwf i s y) in Hfresh; [done|by rewrite Hc].
      * split; [congruence|done].
  - intros o a [[<- <-]|[_ Ha]]%lookup_insert_Some; simpl; [lia|].
    pose proof (wf_fresh _ Hwf _ _ Ha). lia.
  - intros o o' a a' [[<- <-]|[? Ha]]%lookup_insert_Some [[<- <-]|[? Ha']]%lookup_insert_Some;
      simpl; intros; [done| | |by eapply (wf_locations _ Hwf)].
    + pose proof (wf_fresh _ Hwf _ _ Ha'). lia.
    + pose proof (wf_fresh _ Hwf _ _ Ha). lia.
Qed.
End one_cell.
