(* ===== verification/MatchingRun.v ===== *)
(** * Running the engine's member functions on a well-formed state

    Each lemma computes one member function on its successful branch: the state
    it leaves is a [replaceSide], and [wf] still holds there. *)
From S2P Require Import Prelude KeyedList Domain Matching MatchingSpec MatchingInv.
From S2P Require Import MatchingInv.

Lemma MAX_LEVEL_value : MAX_LEVEL = 1000000000.
Proof. reflexivity. Qed.

(** ** Identifiers of events *)
Lemma makeEventId_run run sequence index :
  0 ≤ index ≤ UINT32_MAX →
  makeEventId run sequence index = Ret (EventId.mkEventId sequence index run).
Proof.
  intros [??]. unfold makeEventId. rewrite throw_if_false by (apply bool_decide_eq_false; lia).
  by rewrite wrap32_small.
Qed.

(** ** Cells and addresses *)
Section cells.
Context (st : MatchingState) (Hwf : wf st) (i : InstrumentId) (s : BookSide).

(** Finding a cell by address finds the one cell the iterator points at, also
    while its node is being rewritten. *)
Lemma derefOrder_head p l n n' tail m active next :
  restingCells st i s = (p, (l, n)) :: tail → flatLevels m = (p, (l, n')) :: tail →
  derefOrder (replaceSide i s m active next st) l = Ret n'.
Proof.
  intros Hc Hm. set (st' := replaceSide i s m active next st).
  assert (Hx : (p, (l, n)) ∈ restingCells st i s) by (rewrite Hc; by left).
  assert (∀ c, c ∈ allCells st' → c.1 = l → c = (l, n')) as Hone.
  { intros c (i' & s' & q & Hq)%elem_of_allCells Hl.
    unfold st' in Hq. rewrite restingCells_replace in Hq. case_bool_decide as Hd.
    - destruct Hd as [-> ->]. rewrite Hm in Hq. apply elem_of_cons in Hq as [|Hq]; [by simplify_eq|].
      assert (Hy : (q, c) ∈ restingCells st i s) by (rewrite Hc; by right).
      assert (c = (l, n)) as -> by (symmetry; by apply (wf_location_place _ Hwf _ _ _ _ _ _ Hx Hy)).
      exfalso. apply (split_ids st Hwf i s [] (p, (l, n)) tail (q, (l, n))); [done|done|done].
    - assert ((l, n) = c) as <- by (by apply (wf_location_place _ Hwf _ _ _ _ _ _ Hx Hq)).
      destruct (wf_place _ Hwf _ _ _ _ _ _ Hx Hq) as (-> & -> & _); [done|]. by destruct Hd. }
  assert ((l, n') ∈ allCells st') as Hin.
  { apply elem_of_allCells. exists i, s, p. unfold st'. rewrite restingCells_replace.
    rewrite bool_decide_eq_true_2 by done. rewrite Hm. by left. }
  unfold derefOrder. destruct (list_find _ (allCells st')) as [[k c]|] eqn:E.
  - apply list_find_Some in E as (Hk & Hcl & _).
    rewrite (Hone c); [done| |done]. apply list_elem_of_lookup. eauto.
  - apply list_find_None in E. rewrite Forall_forall in E. by destruct (E _ Hin).
Qed.
End cells.

Lemma eraseCell_head l n behind : eraseCell l ((l, n) :: behind) = Ret behind.
Proof. simpl. by rewrite bool_decide_eq_true_2. Qed.

(** ** One execution *)
Definition levelAfter (q : Quantity) (l : location) (n : OrderNode) (behind : OrderList) (total : Quantity)
    : PriceLevel :=
  Level.mkPriceLevel (total - q) ((l, withRemaining (OrderNode.remainingQuantity n - q) n) :: behind).

(** What is left of a side after its first order lost [q]. *)
Definition fillHead (q : Quantity) (m : PriceMap) : PriceMap :=
  match m with
  | (p, level) :: m' =>
      match Level.orders level with
      | (l, n) :: behind =>
          if bool_decide (q < OrderNode.remainingQuantity n)
          then (p, levelAfter q l n behind (Level.totalQuantity level)) :: m'
          else match behind with
               | [] => m'
               | _ => (p, Level.mkPriceLevel (Level.totalQuantity level - q) behind) :: m'
               end
      | [] => m
      end
  | [] => []
  end.

Lemma sumQuantity_nonneg orders :
  Forall (λ c : location * OrderNode, 0 < OrderNode.remainingQuantity c.2) orders → 0 ≤ sumQuantity orders.
Proof. induction 1; simpl; lia. Qed.

#[export] Instance sideBefore_order s : KeyOrder (sideBefore s).
Proof. destruct s; apply _. Qed.

Section fill.
Context (s : BookSide) (p : Price) (level : PriceLevel) (m' : PriceMap)
        (l : location) (n : OrderNode) (behind : OrderList).
Context (Hm : side_ok s ((p, level) :: m')) (Ho : Level.orders level = (l, n) :: behind).

Lemma head_level_ok : level_ok level.
Proof. pose proof (side_levels _ _ Hm) as Hl. by apply Forall_cons_1 in Hl as [? _]. Qed.

Lemma head_cells :
  flatLevels ((p, level) :: m') = (p, (l, n)) :: (((λ c, (p, c)) <$> behind) ++ flatLevels m').
Proof. by rewrite flatLevels_cons, Ho. Qed.

Lemma head_quantity :
  0 < OrderNode.remainingQuantity n ∧
  Level.totalQuantity level = OrderNode.remainingQuantity n + sumQuantity behind ∧
  0 ≤ sumQuantity behind ∧ Level.totalQuantity level ≤ MAX_LEVEL ∧ (behind = [] → sumQuantity behind = 0).
Proof.
  destruct head_level_ok as [_ Hp Ht Hb]. rewrite Ho in *. simpl in *.
  apply Forall_cons_1 in Hp as [? Hp%sumQuantity_nonneg]. split_and!; try done. by intros ->.
Qed.

Lemma fillHead_cells q :
  q ≤ OrderNode.remainingQuantity n →
  flatLevels (fillHead q ((p, level) :: m')) =
  (if bool_decide (q < OrderNode.remainingQuantity n)
   then [(p, (l, withRemaining (OrderNode.remainingQuantity n - q) n))] else []) ++
  ((λ c, (p, c)) <$> behind) ++ flatLevels m'.
Proof.
  intros Hq. unfold fillHead. rewrite Ho. case_bool_decide.
  - by rewrite flatLevels_cons.
  - by destruct behind; [|rewrite flatLevels_cons].
Qed.

Lemma fillHead_ok q :
  0 < q ≤ OrderNode.remainingQuantity n → side_ok s (fillHead q ((p, level) :: m')).
Proof.
  intros Hq. pose proof head_quantity as (Hn & Ht & Hs & Hb & _).
  pose proof (fillHead_cells q ltac:(lia)) as Hcells.
  pose proof (side_levels _ _ Hm) as [[_ Hpos _ _] Hlevels]%Forall_cons_1. simpl in Hpos.
  pose proof (side_unique _ _ Hm) as Hu. rewrite head_cells in Hu.
  rewrite Ho in Hpos. apply Forall_cons_1 in Hpos as [? Hpos].
  assert (NoDup ((λ x : Z * (location * OrderNode), OrderNode.orderId x.2.2) <$>
                 flatLevels (fillHead q ((p, level) :: m')))) as Hu'.
  { rewrite Hcells. destruct (bool_decide _); [exact Hu|]. by apply NoDup_cons in Hu as [_ Hu]. }
  assert (∀ level', level_ok level' → kl_sorted (sideBefore s) ((p, level') :: m') ∧
            Forall (λ e : Z * PriceLevel, level_ok e.2) ((p, level') :: m')) as Hcons.
  { intros level' Hl. split; [|by constructor].
    apply (kl_sorted_replace _ [] p level). apply Hm. }
  assert (∀ m, fillHead q ((p, level) :: m') = m → kl_sorted (sideBefore s) m ∧
            Forall (λ e : Z * PriceLevel, level_ok e.2) m) as Hall.
  { intros m <-. unfold fillHead. rewrite Ho. case_bool_decide.
    - apply Hcons. split; simpl; [done|by constructor; simpl; [lia|]|lia|lia].
    - destruct behind as [|c behind'].
      + split; [|done]. eapply (kl_sorted_remove _ []), Hm.
      + apply Hcons. split; simpl in *; [done|done|lia|lia]. }
  destruct (Hall _ eq_refl). by split.
Qed.
End fill.

Lemma restingSide_sideType s : restingSide (sideType s) = Some s.
Proof. by destruct s. Qed.

(** Compute a member function up to its next undecided test. *)
Ltac mrun :=
  repeat (unfold mbind, M_bind, mret, M_ret, getM, liftM, modifyM, throw_ifM, throw_if, throwM;
          cbn beta iota zeta; cbn match).

Lemma kl_head_set {V} before k (v v' : V) m : kl_set before k v' ((k, v) :: m) = (k, v') :: m.
Proof. simpl. by rewrite bool_decide_eq_true_2. Qed.

Lemma kl_head_find {V} k (v : V) m : kl_find k ((k, v) :: m) = Some v.
Proof. simpl. by rewrite bool_decide_eq_true_2. Qed.

Lemma kl_head_erase {V} k (v : V) m : kl_erase k ((k, v) :: m) = m.
Proof. simpl. by rewrite bool_decide_eq_true_2. Qed.

(** The price map without the filled order at its head. *)
Definition dropHead (p : Price) (total : Quantity) (behind : OrderList) (m' : PriceMap) : PriceMap :=
  match behind with
  | [] => m'
  | _ => (p, Level.mkPriceLevel total behind) :: m'
  end.

Lemma removeFilledOrder_run st i s p total l n behind m' active next key a :
  let st1 := replaceSide i s ((p, Level.mkPriceLevel total ((l, n) :: behind)) :: m') active next st in
  active !! key = Some a →
  a = Active.mkActiveOrder (Active.owner a) i (sideType s) p 0 l →
  derefOrder st1 l = Ret n → OrderNode.remainingQuantity n = 0 → (behind = [] → total = 0) →
  removeFilledOrder key st1 =
  (Ret tt, replaceSide i s (dropHead p total behind m') (delete key active) next st).
Proof.
  intros st1 Ha Hshape Hd Hn Ht. unfold removeFilledOrder. mrun.
  change (State.activeOrders st1) with active. rewrite Ha.
  rewrite Hshape; cbn [Active.remainingQuantity Active.orderLocation Active.instrumentId Active.price Active.side].
  rewrite (bool_decide_eq_false_2 (0 ≠ 0)) by auto. cbn match.
  rewrite Hd, Hn. cbn match. rewrite (bool_decide_eq_false_2 (0 ≠ 0)) by auto. cbn match.
  unfold st1 at 1. rewrite lookup_replaceSide, restingSide_sideType, levels_setLevels_eq, kl_head_find.
  cbn [Level.orders Level.totalQuantity]. rewrite eraseCell_head. cbn match.
  rewrite storeLevel_replace by (unfold st1; rewrite lookup_replaceSide; eauto).
  unfold st1. rewrite levels_replaceSide, kl_head_set, replaceSide_twice, setActive_replaceSide.
  cbn [State.activeOrders replaceSide State.nextLocation].
  destruct behind as [|c behind]; cbn match.
  - rewrite Ht by done. rewrite (bool_decide_eq_false_2 (0 ≠ 0)) by auto. cbn match.
    case_bool_decide; [|done]. rewrite eraseLevel_replace by (rewrite lookup_replaceSide; eauto).
    by rewrite levels_replaceSide, kl_head_erase, replaceSide_twice.
  - case_bool_decide; [done|]. by rewrite eraseEmptyBook_id.
Qed.

(** The index after the order [n] at the head of a side lost [q]. *)
Definition fillIndex (i : InstrumentId) (s : BookSide) (q : Quantity) (p : Price) (l : location)
    (n : OrderNode) (active : gmap Z ActiveOrder) : gmap Z ActiveOrder :=
  if bool_decide (q < OrderNode.remainingQuantity n)
  then <[OrderNode.orderId n :=
           activeOf i s (p, (l, withRemaining (OrderNode.remainingQuantity n - q) n))]> active
  else delete (OrderNode.orderId n) active.

Section one_trade.
Context (st : MatchingState) (Hwf : wf st) (message : sequenceMessage) (s : BookSide).
Context (p : Price) (level : PriceLevel) (m' : PriceMap) (l : location) (n : OrderNode)
        (behind : OrderList) (remaining : Quantity) (events : list BusinessEvent).
Context (Hside : levels s (bookAt st (Msg.instrumentId message)) = (p, level) :: m')
        (Ho : Level.orders level = (l, n) :: behind)
        (Hr : 0 < remaining) (Hu : is_u64 remaining) (He : eventCount events ≤ UINT32_MAX).

Local Abbreviation i := (Msg.instrumentId message).
Local Abbreviation q := (Z.min remaining (OrderNode.remainingQuantity n)).

Definition afterTrade : MatchingState :=
  replaceSide i s (fillHead q ((p, level) :: m')) (fillIndex i s q p l n (State.activeOrders st))
    (State.nextLocation st) st.

Definition theTrade : BusinessEvent :=
  EvTrade (Trade.mkTrade (EventId.mkEventId (Msg.globalSequenceNumber message) (eventCount events)
      (State.exchangeRunId st)) i (OrderNode.orderId n) (OrderNode.owner n) (Msg.orderId message)
    (Msg.clientId message) (takerSideOf (opposite s)) p q (OrderNode.remainingQuantity n - q)
    (remaining - q)).

Lemma trade_side_ok : side_ok s ((p, level) :: m').
Proof. rewrite <-Hside. by apply bookAt_ok. Qed.

Lemma trade_cells :
  restingCells st i s = (p, (l, n)) :: (((λ c, (p, c)) <$> behind) ++ flatLevels m').
Proof. rewrite restingCells_bookAt, Hside. by apply head_cells. Qed.

Lemma trade_active : State.activeOrders st !! OrderNode.orderId n = Some (activeOf i s (p, (l, n))).
Proof. apply (wf_lookup _ Hwf i s (p, (l, n))). rewrite trade_cells. by left. Qed.

Lemma afterTrade_wf : wf afterTrade.
Proof.
  pose proof trade_side_ok as Hm. pose proof (head_quantity _ _ _ _ _ _ _ Hm Ho) as (Hn & _).
  assert (Hf : side_ok s (fillHead q ((p, level) :: m'))) by (eapply fillHead_ok; [done|done|lia]).
  pose proof (fillHead_cells p level m' l n behind Ho q ltac:(lia)) as Hcells.
  unfold afterTrade, fillIndex. revert Hcells. case_bool_decide; intros Hcells.
  - apply (wf_update_cell _ Hwf i s [] p l n _ (((λ c, (p, c)) <$> behind) ++ flatLevels m'));
      [by rewrite trade_cells|done|by rewrite Hcells].
  - apply (wf_remove_cell _ Hwf i s [] (p, (l, n)) (((λ c, (p, c)) <$> behind) ++ flatLevels m'));
      [by rewrite trade_cells|done|by rewrite Hcells].
Qed.

Lemma executeTrade_run :
  executeTrade message (sideType s) s (takerSideOf (opposite s)) p level remaining events st =
  (Ret (remaining - q, events ++ [theTrade]), afterTrade).
Proof.
  pose proof trade_side_ok as Hm. pose proof (head_quantity _ _ _ _ _ _ _ Hm Ho) as (Hn & Ht & Hs & Hb & Hnil).
  rewrite MAX_LEVEL_value in Hb. unfold is_u64, UINT64_MAX in Hu.
  unfold executeTrade. rewrite Ho. mrun. rewrite trade_active. cbn [activeOf
    Active.instrumentId Active.side Active.price Active.orderLocation Active.remainingQuantity Active.owner fst snd].
  rewrite !(bool_decide_eq_false_2 (?[x] ≠ ?x)) by auto. cbn [orb].
  rewrite (bool_decide_eq_false_2 (q = 0)) by lia.
  rewrite (bool_decide_eq_false_2 (Level.totalQuantity level < q)) by lia. cbn [orb].
  rewrite !wrap64_small by (unfold is_u64, UINT64_MAX; lia).
  rewrite makeEventId_run by (unfold eventCount in *; lia).
  assert (is_Some (State.orderBooks st !! i)) as Hbook
    by (rewrite (bookAt_lookup st i s); [eauto|by rewrite Hside]).
  rewrite storeLevel_replace, Hside, kl_head_set, setActive_replaceSide by done.
  cbn [State.activeOrders replaceSide].
  unfold afterTrade, fillIndex, fillHead. rewrite Ho.
  destruct (decide (q < OrderNode.remainingQuantity n)) as [Hlt|Hge].
  - rewrite (bool_decide_eq_false_2 (OrderNode.remainingQuantity n - q = 0)) by lia.
    by rewrite bool_decide_eq_true_2 by done.
  - rewrite (bool_decide_eq_true_2 (OrderNode.remainingQuantity n - q = 0)) by lia.
    rewrite (bool_decide_eq_false_2 (q < OrderNode.remainingQuantity n)) by done.
    erewrite removeFilledOrder_run; [| by apply lookup_insert_eq | | | | ].
    + rewrite delete_insert_eq. done.
    + unfold activeWithRemaining; simpl. f_equal. lia.
    + eapply derefOrder_head; [done|by apply trade_cells|by rewrite flatLevels_cons].
    + simpl. lia.
    + intros ?%Hnil. lia.
Qed.
End one_trade.
