(* ===== verification/MatchingSweep.v ===== *)
(** * Matching refines the price-time sweep

    [matchLoop] consumes the opposite side exactly as [sweep] does, and the
    mutation-free [planMatches] counts exactly what [sweep] consumes. *)
From S2P Require Import Prelude KeyedList Domain Matching MatchingSpec MatchingInv MatchingRun.

(** ** Queues of the side a step touches *)
Lemma queueOf_replace i s m a next st i' s' :
  queueOf (replaceSide i s m a next st) i' s' =
  setQueue i s (dropLocation <$> flatLevels m) (queueOf st) i' s'.
Proof.
  unfold queueOf, setQueue. rewrite restingCells_replace. by case_bool_decide.
Qed.

Lemma setQueue_twice i s q q' books i' s' :
  setQueue i s q (setQueue i s q' books) i' s' = setQueue i s q books i' s'.
Proof. unfold setQueue. by case_bool_decide. Qed.

Lemma setQueue_same i s q books : setQueue i s q books i s = q.
Proof. unfold setQueue. by rewrite bool_decide_eq_true_2. Qed.

Lemma setQueue_self i s books i' s' : setQueue i s (books i s) books i' s' = books i' s'.
Proof. unfold setQueue. case_bool_decide as Hd; [by destruct Hd as [-> ->]|done]. Qed.

(** What an engine step that rewrites one side guarantees. *)
Record evolves (st st' : MatchingState) (i : InstrumentId) (s : BookSide) (queue' : list (Z * OrderNode)) : Prop := {
  ev_wf : wf st';
  ev_run : State.exchangeRunId st' = State.exchangeRunId st;
  ev_queue i' s' : queueOf st' i' s' = setQueue i s queue' (queueOf st) i' s';
  ev_orders o : is_Some (State.activeOrders st' !! o) → is_Some (State.activeOrders st !! o) }.

Lemma evolves_refl st i s : wf st → evolves st st i s (queueOf st i s).
Proof. intros. split; [done|done| |done]. intros. by rewrite setQueue_self. Qed.

Lemma evolves_trans st st1 st2 i s q1 q2 :
  evolves st st1 i s q1 → evolves st1 st2 i s q2 → evolves st st2 i s q2.
Proof.
  intros [_ Hr1 Hq1 Ho1] [Hwf Hr2 Hq2 Ho2]. split; [done|congruence| |auto].
  intros i' s'. rewrite Hq2. unfold setQueue in *. case_bool_decide as Hd; [done|].
  rewrite Hq1. by rewrite bool_decide_eq_false_2.
Qed.

(** The queue a fill of the head leaves, when the head's order is [n] at [p]. *)
Definition afterFill (q : Quantity) (p : Price) (n : OrderNode) (behind : list (Z * OrderNode))
    : list (Z * OrderNode) :=
  (if bool_decide (q < OrderNode.remainingQuantity n)
   then [(p, withRemaining (OrderNode.remainingQuantity n - q) n)] else []) ++ behind.

(** ** Shape of a side *)
Lemma queueOf_bookAt st i s : queueOf st i s = dropLocation <$> flatLevels (levels s (bookAt st i)).
Proof. unfold queueOf. by rewrite restingCells_bookAt. Qed.

(** The head of a non-empty side. *)
Lemma wf_head st i s p level m' :
  wf st → levels s (bookAt st i) = (p, level) :: m' →
  ∃ l n behind, Level.orders level = (l, n) :: behind ∧
    queueOf st i s = (p, n) :: (dropLocation <$> ((λ c, (p, c)) <$> behind) ++ flatLevels m').
Proof.
  intros Hwf Hl. pose proof (bookAt_ok st i s Hwf) as Hm. rewrite Hl in Hm.
  pose proof (head_level_ok _ _ _ _ Hm) as [Hne _ _ _].
  destruct (Level.orders level) as [|[l n] behind] eqn:Ho; [done|].
  exists l, n, behind. split; [done|]. rewrite queueOf_bookAt, Hl.
  by rewrite (head_cells _ _ _ _ _ _ Ho).
Qed.

Section trade_queue.
Context (st : MatchingState) (Hwf : wf st) (message : sequenceMessage) (s : BookSide).
Context (p : Price) (level : PriceLevel) (m' : PriceMap) (l : location) (n : OrderNode)
        (behind : OrderList) (remaining : Quantity).
Context (Hside : levels s (bookAt st (Msg.instrumentId message)) = (p, level) :: m')
        (Ho : Level.orders level = (l, n) :: behind) (Hr : 0 < remaining).
Local Abbreviation q := (Z.min remaining (OrderNode.remainingQuantity n)).

Lemma afterTrade_evolves :
  evolves st (afterTrade st message s p level m' l n remaining) (Msg.instrumentId message) s
    (afterFill q p n (dropLocation <$> ((λ c, (p, c)) <$> behind) ++ flatLevels m')).
Proof.
  split; [by eapply afterTrade_wf|done| |].
  - intros i' s'. unfold afterTrade. rewrite queueOf_replace.
    rewrite (fillHead_cells _ _ _ _ _ _ Ho) by lia. rewrite fmap_app.
    unfold afterFill. by destruct (bool_decide _).
  - intros o. unfold afterTrade; simpl. unfold fillIndex. case_bool_decide.
    + intros [a [[<- _]|[_ ?]]%lookup_insert_Some]; [|by eauto].
      rewrite (trade_active st Hwf message s p level m' l n behind Hside Ho). eauto.
    + intros [a [_ ?]%lookup_delete_Some]. eauto.
Qed.
End trade_queue.

(** ** The matching loop *)
Lemma tradeEvents_length run message s index remaining fills :
  length (tradeEvents run message s index remaining fills) = length fills.
Proof. revert index remaining. induction fills; intros; simpl; auto. Qed.

Lemma eventCount_app l1 l2 : eventCount (l1 ++ l2) = eventCount l1 + eventCount l2.
Proof. unfold eventCount. rewrite length_app. lia. Qed.

(** ** Facts about [sweep] *)
Lemma sweep_done acceptable remaining queue :
  ¬ 0 < remaining → sweep acceptable remaining queue = ([], remaining, queue).
Proof.
  intros. destruct queue as [|[p n] behind]; simpl; [done|]. by rewrite bool_decide_eq_false_2.
Qed.

Lemma sweep_step acceptable remaining p n behind fills r' queue' :
  0 < remaining → acceptable p = true →
  sweep acceptable remaining ((p, n) :: behind) = (fills, r', queue') →
  let q := Z.min remaining (OrderNode.remainingQuantity n) in
  ∃ fills', fills = Fill.mkFill p n q :: fills' ∧
    sweep acceptable (remaining - q) (afterFill q p n behind) = (fills', r', queue') ∧
    (0 < remaining - q → afterFill q p n behind = behind).
Proof.
  intros Hr Hacc Hs q. unfold afterFill. simpl in Hs.
  rewrite bool_decide_eq_true_2, Hacc in Hs by done. simpl in Hs. fold q in Hs.
  revert Hs. case_bool_decide as Hlt; intros Hs.
  - simplify_eq. exists []. split_and!; [done| |lia]. apply sweep_done. lia.
  - destruct (sweep acceptable (remaining - q) behind) as [[fills' rem] queue1] eqn:E.
    simplify_eq. by exists fills'.
Qed.

Section loop.
Context (message : sequenceMessage) (s : BookSide) (beyond acceptable : Price → bool).
Context (Hbeyond : ∀ p, beyond p = negb (acceptable p)).
Local Abbreviation i := (Msg.instrumentId message).

(** The run of the loop from [st] ends in a state that [sweep] describes. *)
Definition loop_result (fuel : nat) (st : MatchingState) (remaining : Quantity)
    (events : list BusinessEvent) (fills : list Fill) (r' : Quantity) (queue' : list (Z * OrderNode)) : Prop :=
  ∃ st', matchLoop fuel message (sideType s) s (takerSideOf (opposite s)) beyond remaining events st =
    (Ret (r', events ++ tradeEvents (State.exchangeRunId st) message (opposite s) (eventCount events)
                          remaining fills), st') ∧
    evolves st st' i s queue'.

Lemma loop_result_stop fuel st remaining events :
  wf st → matchLoop fuel message (sideType s) s (takerSideOf (opposite s)) beyond remaining events st =
    (Ret (remaining, events), st) →
  loop_result fuel st remaining events [] remaining (queueOf st i s).
Proof. intros ? Hrun. exists st. rewrite app_nil_r. split; [done|by apply evolves_refl]. Qed.

Lemma matchLoop_refines fuel : ∀ st remaining events fills r' queue',
  wf st → is_u64 remaining →
  sweep acceptable remaining (queueOf st i s) = (fills, r', queue') →
  eventCount events + Z.of_nat (length fills) ≤ UINT32_MAX →
  (0 < remaining → (length (queueOf st i s) < fuel)%nat) →
  loop_result fuel st remaining events fills r' queue'.
Proof.
  induction fuel as [|fuel IH]; intros st remaining events fills r' queue' Hwf Hu Hsweep He Hfuel;
    (destruct (decide (0 < remaining)) as [Hr|Hr];
     [specialize (Hfuel Hr)
     |rewrite sweep_done in Hsweep by done; simplify_eq; apply loop_result_stop; [done|];
      simpl; by rewrite bool_decide_eq_false_2]); [lia|].
  destruct (levels s (bookAt st i)) as [|[p level] m'] eqn:Hl.
  { assert (queueOf st i s = []) as Hq by (by rewrite queueOf_bookAt, Hl).
    rewrite Hq in Hsweep. simpl in Hsweep. simplify_eq. rewrite <-Hq. apply loop_result_stop; [done|].
    simpl. rewrite bool_decide_eq_true_2 by done. mrun. unfold bookAt in Hl.
    destruct (State.orderBooks st !! i); simpl in Hl; [by rewrite Hl|done]. }
  destruct (wf_head _ _ _ _ _ _ Hwf Hl) as (l & n & behind & Ho & Hq).
  destruct (acceptable p) eqn:Hacc.
  2:{ rewrite Hq in Hsweep. simpl in Hsweep. rewrite Hacc, andb_false_r in Hsweep. simplify_eq.
      rewrite <-Hq. apply loop_result_stop; [done|]. simpl. rewrite bool_decide_eq_true_2 by done.
      mrun. by rewrite (bookAt_lookup st i s), Hl, Hbeyond, Hacc by (by rewrite Hl). }
  rewrite Hq in Hsweep, Hfuel.
  destruct (sweep_step _ _ _ _ _ _ _ _ Hr Hacc Hsweep) as (fills' & -> & Hsweep' & Hrest).
  pose proof (afterTrade_evolves st Hwf message s p level m' l n behind remaining Hl Ho Hr) as Hev.
  assert (Hn : 0 < OrderNode.remainingQuantity n).
  { pose proof (bookAt_ok st i s Hwf) as Hm. rewrite Hl in Hm. by eapply head_quantity. }
  set (q := Z.min remaining (OrderNode.remainingQuantity n)) in *.
  pose proof (ev_queue _ _ _ _ _ Hev i s) as Hq1. rewrite setQueue_same in Hq1.
  simpl in He. rewrite Nat2Z.inj_succ in He.
  destruct (IH (afterTrade st message s p level m' l n remaining) (remaining - q)
              (events ++ [theTrade st message s p n remaining events]) fills' r' queue')
    as (st' & Hrun & Hev').
  - apply Hev.
  - unfold is_u64 in *. lia.
  - by rewrite Hq1.
  - rewrite eventCount_app. unfold eventCount at 2. simpl. lia.
  - intros Hpos. rewrite Hq1. change (length (afterFill q p n (dropLocation <$> ((λ c, (p, c)) <$> behind) ++ flatLevels m')) < fuel)%nat.
    rewrite Hrest by done. simpl in Hfuel. lia.
  - exists st'. split; [|by eapply evolves_trans].
    simpl. rewrite bool_decide_eq_true_2 by done. mrun.
    rewrite (bookAt_lookup st i s), Hl, Hbeyond, Hacc by (by rewrite Hl). cbn.
    rewrite (bool_decide_eq_false_2 (Level.orders level = [])) by (by rewrite Ho). cbn.
    rewrite (executeTrade_run st Hwf message s p level m' l n behind remaining events Hl Ho Hr Hu) by lia.
    fold q. rewrite Hrun, eventCount_app, <-app_assoc. unfold eventCount at 2.
    by rewrite (ev_run _ _ _ _ _ Hev).
Qed.
End loop.

(** * The mutation-free plan

    [planMatches] walks the levels of the opposite side without changing them; its
    remainder and count are those of the price-time [sweep].  The price-level
    aggregate [canAddOrder] reads is the depth of the abstract queue. *)

(** ** The loop bound *)
Lemma levelCells_length m : length (levelCells m) = length (flatLevels m).
Proof. by rewrite levelCells_flat, length_fmap. Qed.

Lemma bookCells_length st i s : (length (restingCells st i s) ≤ length (allCells st))%nat.
Proof.
  unfold restingCells, allCells. destruct (State.orderBooks st !! i) as [b|] eqn:Hb; [|simpl; lia].
  apply elem_of_map_to_list in Hb. apply list_elem_of_split in Hb as (l1 & l2 & ->).
  rewrite bind_app, bind_cons, !length_app. simpl. unfold bookCells.
  rewrite length_app, !levelCells_length. destruct s; simpl; lia.
Qed.

Lemma matchFuel_enough st i s : (length (queueOf st i s) < matchFuel st)%nat.
Proof.
  unfold queueOf, matchFuel. rewrite length_fmap. pose proof (bookCells_length st i s). lia.
Qed.

(** ** Planning *)
Definition sweepCount (acceptable : Price → bool) (r : Quantity) (queue : list (Z * OrderNode)) : Z :=
  Z.of_nat (length (sweep acceptable r queue).1.1).

Definition sweepLeft (acceptable : Price → bool) (r : Quantity) (queue : list (Z * OrderNode)) : Quantity :=
  (sweep acceptable r queue).1.2.

Lemma sweep_zero acceptable queue : sweep acceptable 0 queue = ([], 0, queue).
Proof. by apply sweep_done. Qed.

Lemma checkedAddEventCount_run c d : c + d ≤ SIZE_MAX → checkedAddEventCount c d = Ret (c + d).
Proof.
  intros. unfold checkedAddEventCount. by rewrite throw_if_false by (apply bool_decide_eq_false; lia).
Qed.

Section plan.
Context (acceptable : Price → bool).

(** The plan [plan'] continues [plan] over the queue as far as [rest]. *)
Definition plan_advances (plan plan' : MatchPlan) (queue rest : list (Z * OrderNode)) : Prop :=
  0 ≤ Plan.remainder plan' ∧ Plan.executionCount plan' + Plan.remainder plan' ≤ SIZE_MAX ∧
  sweepCount acceptable (Plan.remainder plan) queue + Plan.executionCount plan =
    sweepCount acceptable (Plan.remainder plan') rest + Plan.executionCount plan' ∧
  sweepLeft acceptable (Plan.remainder plan) queue = sweepLeft acceptable (Plan.remainder plan') rest.

Lemma plan_advances_trans p1 p2 p3 q1 q2 q3 :
  plan_advances p1 p2 q1 q2 → plan_advances p2 p3 q2 q3 → plan_advances p1 p3 q1 q3.
Proof. unfold plan_advances. intuition congruence. Qed.

Lemma plan_advances_zero plan queue rest :
  Plan.remainder plan = 0 → Plan.executionCount plan ≤ SIZE_MAX → plan_advances plan plan queue rest.
Proof.
  intros Hz ?. unfold plan_advances, sweepCount, sweepLeft. rewrite Hz, !sweep_zero.
  simpl. lia.
Qed.

Lemma plan_advances_fill r c p n rest :
  acceptable p = true → 0 < r → 0 < OrderNode.remainingQuantity n → c + r ≤ SIZE_MAX →
  let q := Z.min r (OrderNode.remainingQuantity n) in
  plan_advances (Plan.mkMatchPlan r c) (Plan.mkMatchPlan (r - q) (c + 1)) ((p, n) :: rest) rest.
Proof.
  intros Hacc Hr Hn Hc q. unfold plan_advances, sweepCount, sweepLeft. simpl.
  rewrite bool_decide_eq_true_2, Hacc by done. simpl. fold q.
  split; [lia|]. split; [lia|]. case_bool_decide.
  - assert (r - q = 0) as -> by lia. rewrite sweep_zero. simpl. lia.
  - destruct (sweep acceptable (r - q) rest) as [[f r'] ?]. simpl. lia.
Qed.

Lemma planLevel_advances p orders rest : ∀ plan,
  acceptable p = true →
  Forall (λ c : location * OrderNode, 0 < OrderNode.remainingQuantity c.2) orders →
  0 ≤ Plan.remainder plan → Plan.executionCount plan + Plan.remainder plan ≤ SIZE_MAX →
  ∃ plan', planLevel orders plan = Ret plan' ∧
    plan_advances plan plan' ((dropLocation <$> ((λ c, (p, c)) <$> orders)) ++ rest) rest.
Proof.
  induction orders as [|[l n] orders IH]; intros [r c] Hacc Hpos Hr Hc; simpl in *.
  - exists (Plan.mkMatchPlan r c). split; [done|]. unfold plan_advances. auto.
  - apply Forall_cons_1 in Hpos as [Hn Hpos]. simpl in Hn.
    destruct (decide (r = 0)) as [->|Hnz].
    + rewrite bool_decide_eq_true_2 by done. eexists. split; [done|].
      apply plan_advances_zero; simpl; [done|lia].
    + rewrite bool_decide_eq_false_2 by done.
      rewrite throw_if_false by (apply bool_decide_eq_false; lia).
      rewrite checkedAddEventCount_run by lia.
      rewrite outcome_bind_ret.
      destruct (IH (Plan.mkMatchPlan (r - Z.min r (OrderNode.remainingQuantity n)) (c + 1)))
        as (plan' & Hrun & Hadv); simpl; [done|done|lia|lia|].
      exists plan'. split; [exact Hrun|].
      eapply plan_advances_trans; [|exact Hadv]. apply plan_advances_fill; [done|lia|done|lia].
Qed.

Lemma plan_advances_stop plan p n rest :
  ¬ (0 < Plan.remainder plan ∧ acceptable p = true) →
  sweep acceptable (Plan.remainder plan) ((p, n) :: rest) = ([], Plan.remainder plan, (p, n) :: rest).
Proof.
  intros Hstop. simpl. case_bool_decide; simpl; [|done].
  destruct (acceptable p) eqn:E; [|done]. by destruct Hstop.
Qed.

Lemma planBook_refines m : ∀ plan,
  Forall (λ e : Z * PriceLevel, level_ok e.2) m →
  0 ≤ Plan.remainder plan → Plan.executionCount plan + Plan.remainder plan ≤ SIZE_MAX →
  let queue := dropLocation <$> flatLevels m in
  planBook acceptable m plan =
  Ret (Plan.mkMatchPlan (sweepLeft acceptable (Plan.remainder plan) queue)
         (Plan.executionCount plan + sweepCount acceptable (Plan.remainder plan) queue)).
Proof.
  induction m as [|[p level] m IH]; intros [r c] Hlevels Hr Hc queue; simpl in Hr, Hc |- *.
  { unfold sweepLeft, sweepCount. simpl. do 2 f_equal. lia. }
  apply Forall_cons_1 in Hlevels as [Hl Hlevels]. simpl in Hl.
  assert (∃ x q, queue = (p, x) :: q) as (x & q & Hq).
  { unfold queue. destruct Hl as [Hne _ _ _]. rewrite flatLevels_cons.
    destruct (Level.orders level) as [|[l n] o]; [done|]. simpl. eauto. }
  destruct (decide (0 < r ∧ acceptable p = true)) as [[Hpos Hacc]|Hstop].
  - rewrite bool_decide_eq_true_2, Hacc by done.
    destruct (planLevel_advances p (Level.orders level) (dropLocation <$> flatLevels m)
      (Plan.mkMatchPlan r c)) as (plan' & Hrun & Hadv); [done|apply Hl|done|done|].
    rewrite Hrun, outcome_bind_ret. destruct Hadv as (Hr' & Hc' & Hcount & Hleft).
    rewrite IH by done. do 2 f_equal.
    + rewrite <-Hleft. unfold queue. by rewrite flatLevels_cons, fmap_app.
    + unfold queue. rewrite flatLevels_cons, fmap_app. simpl in Hcount |- *. lia.
  - pose proof (plan_advances_stop (Plan.mkMatchPlan r c) p x q Hstop) as Hs. rewrite <-Hq in Hs.
    simpl in Hs. unfold sweepLeft, sweepCount. rewrite Hs. simpl.
    transitivity (Ret (Plan.mkMatchPlan r c)); [|do 2 f_equal; lia].
    case_bool_decide; [|done]. destruct (acceptable p) eqn:E; [by destruct Hstop|done].
Qed.
End plan.

Lemma planMatches_refines st message s :
  wf st → is_u64 (Msg.quantity message) → restingSide (Msg.type message) = Some s →
  let queue := queueOf st (Msg.instrumentId message) (opposite s) in
  let acceptable := acceptableFor s (Msg.price message) in
  planMatches message st =
  Ret (Plan.mkMatchPlan (sweepLeft acceptable (Msg.quantity message) queue)
         (sweepCount acceptable (Msg.quantity message) queue)).
Proof.
  intros Hwf [Hq0 Hq1] Hs queue acceptable. unfold planMatches.
  destruct (State.orderBooks st !! Msg.instrumentId message) as [b|] eqn:Hb.
  - pose proof (wf_books _ Hwf _ _ Hb) as Hbook.
    assert (planMatches_book : planBook acceptable (levels (opposite s) b) (Plan.mkMatchPlan (Msg.quantity message) 0) =
      Ret (Plan.mkMatchPlan (sweepLeft acceptable (Msg.quantity message) queue)
         (sweepCount acceptable (Msg.quantity message) queue))).
    { rewrite planBook_refines; simpl; [|apply (book_sides _ Hbook)|done|unfold SIZE_MAX; lia].
      unfold queue, queueOf, restingCells. by rewrite Hb. }
    destruct (Msg.type message); simplify_eq/=; exact planMatches_book.
  - unfold queue, queueOf, restingCells, sweepLeft, sweepCount. rewrite Hb. done.
Qed.

(** ** The aggregate of a price level *)
Lemma depthAt_cons p x q :
  depthAt p (x :: q) = (if bool_decide (x.1 = p) then OrderNode.remainingQuantity x.2 else 0) + depthAt p q.
Proof. reflexivity. Qed.

Lemma depthAt_app p q1 q2 : depthAt p (q1 ++ q2) = depthAt p q1 + depthAt p q2.
Proof. induction q1 as [|x q1 IH]; simpl; [done|]. unfold depthAt in *. lia. Qed.

Lemma depthAt_level p p' orders :
  depthAt p (dropLocation <$> ((λ c, (p', c)) <$> orders)) =
  if bool_decide (p' = p) then sumQuantity orders else 0.
Proof.
  induction orders as [|c orders IH]; [by destruct (bool_decide _)|].
  rewrite !fmap_cons, depthAt_cons, IH. simpl. by case_bool_decide.
Qed.

Lemma depthAt_absent p m : (p ∉ m.*1) → depthAt p (dropLocation <$> flatLevels m) = 0.
Proof.
  induction m as [|[p' level] m IH]; [done|]. rewrite fmap_cons, not_elem_of_cons. intros [Hp Hm].
  rewrite flatLevels_cons, fmap_app, depthAt_app, depthAt_level, IH by done.
  by rewrite bool_decide_eq_false_2.
Qed.

Lemma depthAt_levels s p m :
  side_ok s m →
  depthAt p (dropLocation <$> flatLevels m) =
  match kl_find p m with Some level => Level.totalQuantity level | None => 0 end.
Proof.
  intros Hm. destruct (kl_find p m) as [level|] eqn:E; [|by apply depthAt_absent, kl_find_None].
  apply kl_find_Some_split in E as (m1 & m2 & -> & Hm1).
  pose proof (side_sorted _ _ Hm) as Hs. apply kl_sorted_head_fresh in Hs as [_ Hm2]; [|apply _].
  pose proof (side_levels _ _ Hm) as Hl. rewrite Forall_app, Forall_cons in Hl. destruct Hl as (_ & Hl & _).
  rewrite flatLevels_app, flatLevels_cons, !fmap_app, !depthAt_app, depthAt_level, !depthAt_absent by done.
  rewrite bool_decide_eq_true_2 by done. simpl in Hl. rewrite (level_total _ Hl). lia.
Qed.

Lemma levelAggregate_depth st i s p :
  wf st → levelAggregate i s p st = depthAt p (queueOf st i s).
Proof.
  intros Hwf. unfold levelAggregate. rewrite queueOf_bookAt, (depthAt_levels s) by (by apply bookAt_ok).
  unfold bookAt. destruct (State.orderBooks st !! i); [done|]. by destruct s.
Qed.

Lemma depthAt_bounds st i s p : wf st → 0 ≤ depthAt p (queueOf st i s) ≤ MAX_LEVEL.
Proof.
  intros Hwf. pose proof (bookAt_ok st i s Hwf) as Hm. rewrite queueOf_bookAt, (depthAt_levels s) by done.
  destruct (kl_find p _) as [level|] eqn:E; [|rewrite MAX_LEVEL_value; lia].
  apply kl_find_elem in E. pose proof (side_levels _ _ Hm) as Hl. rewrite Forall_forall in Hl.
  destruct (Hl _ E) as [_ Hp Ht Hb]. simpl in *. apply sumQuantity_nonneg in Hp. lia.
Qed.
