(* ===== verification/MatchingRest.v ===== *)
(** * Resting and cancelling orders

    [addOrder] puts the remainder of an order at its price-time place;
    [removeCancelledOrder] takes the order the index names out of its side. *)
From S2P Require Import Prelude KeyedList Domain Matching MatchingSpec MatchingInv MatchingRun MatchingSweep.

(** ** The place of a new order *)
Lemma enqueue_place s x q1 q2 :
  (∀ y, y ∈ q1 → sideBefore s x.1 y.1 = false) → (∀ y, y ∈ q2 → sideBefore s x.1 y.1 = true) →
  enqueue s x (q1 ++ q2) = q1 ++ x :: q2.
Proof.
  intros H1 H2. induction q1 as [|y q1 IH]; simpl.
  - destruct q2 as [|y q2]; simpl; [done|]. by rewrite (H2 y) by (by left).
  - rewrite (H1 y) by (by left). f_equal. apply IH. intros z ?. apply H1. by right.
Qed.

Section place.
Context (s : BookSide) (p : Price) (m : PriceMap) (Hm : side_ok s m).
Context (l : location) (n : OrderNode).
Context (Hn : 0 < OrderNode.remainingQuantity n).
Context (Hfresh : OrderNode.orderId n ∉ cellId <$> flatLevels m).

Definition levelFor : PriceLevel := default emptyLevel (kl_find p m).

Context (Hfit : Level.totalQuantity levelFor + OrderNode.remainingQuantity n ≤ MAX_LEVEL).

Definition restedLevel : PriceLevel :=
  Level.mkPriceLevel (Level.totalQuantity levelFor + OrderNode.remainingQuantity n)
    (Level.orders levelFor ++ [(l, n)]).

(** The price map with the new order, and where the order is in it. *)
Lemma restedLevel_split :
  ∃ m1 m2 old, kl_set (sideBefore s) p restedLevel m = m1 ++ (p, restedLevel) :: m2 ∧
    kl_sorted (sideBefore s) (m1 ++ (p, restedLevel) :: m2) ∧
    m = m1 ++ old ++ m2 ∧ flatLevels old = (λ c, (p, c)) <$> Level.orders levelFor.
Proof using Hm.
  unfold restedLevel, levelFor. pose proof (side_sorted _ _ Hm) as Hs.
  destruct (kl_find p m) as [level|] eqn:E; simpl.
  - apply kl_find_Some_split in E as (m1 & m2 & Hsplit & _). exists m1, m2, [(p, level)].
    rewrite Hsplit in Hs |- *. split_and!; [apply kl_set_middle; [apply _|done]|by eapply kl_sorted_replace|done|].
    by rewrite flatLevels_cons, app_nil_r.
  - destruct (kl_set_fresh (sideBefore s) p (Level.mkPriceLevel (0 + OrderNode.remainingQuantity n) [(l, n)])
                m Hs E) as (m1 & m2 & Hsplit & Hset & Hs').
    exists m1, m2, []. by split_and!.
Qed.

Lemma restedLevel_ok : level_ok restedLevel.
Proof using Hm Hn Hfit.
  unfold restedLevel, levelFor in *. split; simpl; [by destruct (Level.orders _)| | |done].
  - apply Forall_app. split; [|by repeat constructor].
    destruct (kl_find p m) as [level|] eqn:E; simpl; [|done]. apply kl_find_elem in E.
    pose proof (side_levels _ _ Hm) as Hl. rewrite Forall_forall in Hl. apply (Hl _ E).
  - assert (Level.totalQuantity (default emptyLevel (kl_find p m)) =
            sumQuantity (Level.orders (default emptyLevel (kl_find p m)))) as ->.
    { destruct (kl_find p m) as [level|] eqn:E; simpl; [|done]. apply kl_find_elem in E.
      pose proof (side_levels _ _ Hm) as Hl. rewrite Forall_forall in Hl. apply (Hl _ E). }
    induction (Level.orders _) as [|c o IH]; simpl; lia.
Qed.

Lemma rested_place :
  let m' := kl_set (sideBefore s) p restedLevel m in
  ∃ pre post, flatLevels m = pre ++ post ∧ flatLevels m' = pre ++ (p, (l, n)) :: post ∧
    side_ok s m' ∧
    enqueue s (p, n) (dropLocation <$> flatLevels m) = dropLocation <$> flatLevels m'.
Proof.
  intros m'. destruct restedLevel_split as (m1 & m2 & old & Hset & Hsorted & Hsplit & Hold).
  set (cells := (λ c, (p, c)) <$> Level.orders levelFor) in *.
  assert (flatLevels m = (flatLevels m1 ++ cells) ++ flatLevels m2) as Hflat.
  { by rewrite Hsplit, !flatLevels_app, Hold, app_assoc. }
  assert (flatLevels m' = (flatLevels m1 ++ cells) ++ (p, (l, n)) :: flatLevels m2) as Hflat'.
  { unfold m'. rewrite Hset, flatLevels_app, flatLevels_cons. simpl. rewrite fmap_app, <-!app_assoc. done. }
  exists (flatLevels m1 ++ cells), (flatLevels m2). split_and!; [done|done| |].
  - split.
    + unfold m'. by rewrite Hset.
    + unfold m'. rewrite Hset. pose proof (side_levels _ _ Hm) as Hl. rewrite Hsplit in Hl.
      rewrite !Forall_app in Hl. destruct Hl as (? & _ & ?).
      apply Forall_app. split; [done|]. constructor; [apply restedLevel_ok|done].
    + change (NoDup (cellId <$> flatLevels m')). rewrite Hflat', fmap_app, fmap_cons.
      rewrite <-Permutation_middle, <-fmap_app, <-Hflat. constructor; [done|]. apply (side_unique s), Hm.
  - rewrite Hflat, Hflat', !fmap_app, fmap_cons.
    apply kl_sorted_app in Hsorted as (_ & [_ H2]%kl_sorted_cons & H1).
    apply enqueue_place.
    + intros y. rewrite <-fmap_app. intros (z & -> & Hz)%list_elem_of_fmap. simpl.
      apply elem_of_app in Hz as [Hz|Hz].
      * apply flatLevels_price, list_elem_of_fmap in Hz as ([q lv] & -> & Hz). simpl.
        specialize (H1 _ (p, restedLevel) Hz ltac:(by left)). simpl in H1.
        destruct (sideBefore s p q) eqn:E; [|done].
        pose proof (before_trans _ _ _ E H1) as Hc. by rewrite before_irrefl in Hc.
      * unfold cells in Hz. apply list_elem_of_fmap in Hz as (c & -> & _). apply before_irrefl.
    + intros y (z & -> & Hz)%list_elem_of_fmap.
      apply flatLevels_price, list_elem_of_fmap in Hz as ([q lv] & Hq & Hz).
      simpl in *. rewrite Hq. by apply (H2 (q, lv)).
Qed.
End place.

(** ** [canAddOrder] and [addOrder] *)
Lemma canAddOrder_run st message s q :
  wf st → restingSide (Msg.type message) = Some s →
  findByIdentity (Msg.instrumentId message) (Msg.configurationVersion message) = Some SPY_V1 →
  canAddOrder message q st =
  Ret (bool_decide (q = 0) ||
       bool_decide (depthAt (Msg.price message) (queueOf st (Msg.instrumentId message) s) + q ≤ MAX_LEVEL)).
Proof.
  intros Hwf Hs Hcfg. unfold canAddOrder. rewrite Hcfg, Hs, levelAggregate_depth by done.
  case_bool_decide as Hq; [done|]. change (Instrument.maxPriceLevelAggregate SPY_V1) with MAX_LEVEL.
  rewrite orb_false_l. f_equal.
  pose proof (depthAt_bounds st (Msg.instrumentId message) s (Msg.price message) Hwf).
  rewrite (bool_decide_eq_true_2 (_ ≤ MAX_LEVEL)) by lia. apply bool_decide_ext. lia.
Qed.

Lemma restingSide_type t s : restingSide t = Some s → t = sideType s.
Proof. by destruct t; intros; simplify_eq/=. Qed.

Lemma bookAt_touchBook i st : bookAt (touchBook i st) i = bookAt st i.
Proof.
  unfold touchBook, bookAt. destruct (State.orderBooks st !! i) as [b|] eqn:E; [by rewrite E|].
  simpl. by rewrite lookup_insert_eq.
Qed.

Lemma touchBook_books i st b : putBook i b (State.orderBooks (touchBook i st)) = putBook i b (State.orderBooks st).
Proof.
  unfold touchBook. destruct (State.orderBooks st !! i) as [b'|] eqn:E; [done|]. simpl.
  apply map_eq. intros j. unfold putBook.
  destruct (isEmptyBook b), (decide (i = j)) as [->|]; by simplify_map_eq.
Qed.

Lemma touchBook_replaceSide i s m a n st :
  replaceSide i s m a n (touchBook i st) = replaceSide i s m a n st.
Proof.
  unfold replaceSide. rewrite bookAt_touchBook, touchBook_books.
  unfold touchBook. by destruct (State.orderBooks st !! i).
Qed.

Lemma touchBook_fields i st :
  is_Some (State.orderBooks (touchBook i st) !! i) ∧
  State.activeOrders (touchBook i st) = State.activeOrders st ∧
  State.nextLocation (touchBook i st) = State.nextLocation st.
Proof.
  unfold touchBook. destruct (State.orderBooks st !! i) as [b|] eqn:E; [rewrite E; eauto|].
  simpl. rewrite lookup_insert_eq. eauto.
Qed.

Section add.
Context (st : MatchingState) (Hwf : wf st) (message : sequenceMessage) (s : BookSide) (r : Quantity).
Context (Hs : restingSide (Msg.type message) = Some s)
  (Hcfg : findByIdentity (Msg.instrumentId message) (Msg.configurationVersion message) = Some SPY_V1)
  (Hfresh : State.activeOrders st !! Msg.orderId message = None)
  (Hr : 0 < r)
  (Hfit : depthAt (Msg.price message) (queueOf st (Msg.instrumentId message) s) + r ≤ MAX_LEVEL)
  (Hapart : ∀ q, q ∈ (levels (opposite s) (bookAt st (Msg.instrumentId message))).*1 →
                 apart s (Msg.price message) q).
Local Abbreviation i := (Msg.instrumentId message).
Local Abbreviation p := (Msg.price message).
Local Abbreviation m := (levels s (bookAt st i)).
Local Abbreviation node := (takerNode message r).

Definition afterRest : MatchingState :=
  replaceSide i s (kl_set (sideBefore s) p (restedLevel p m (State.nextLocation st) node) m)
    (<[Msg.orderId message := activeOf i s (p, (State.nextLocation st, node))]> (State.activeOrders st))
    (State.nextLocation st + 1) st.

Lemma levelFor_depth : Level.totalQuantity (levelFor p m) = depthAt p (queueOf st i s).
Proof.
  rewrite queueOf_bookAt, (depthAt_levels s) by (by apply bookAt_ok).
  unfold levelFor. by destruct (kl_find p m).
Qed.

Lemma addOrder_run : addOrder message r st = (Ret Processing.APPLIED, afterRest).
Proof.
  pose proof (depthAt_bounds st i s p Hwf) as Hb.
  unfold addOrder. mrun. rewrite Hfresh.
  rewrite bool_decide_eq_false_2 by (by intros [? ?]). cbn match.
  rewrite bool_decide_eq_false_2 by lia.
  rewrite (canAddOrder_run _ _ s) by done.
  rewrite (bool_decide_eq_true_2 (_ ≤ MAX_LEVEL)) by done. rewrite orb_true_r. cbn [negb]. cbn match.
  rewrite Hs. unfold restOrder. mrun.
  destruct (touchBook_fields i st) as (Hbook & Ha & Hn). rewrite Ha, Hn.
  rewrite storeLevel_replace by done. rewrite touchBook_replaceSide, bookAt_touchBook, Ha, Hn, Hfresh.
  cbn match. f_equal. unfold afterRest, setActive. simpl.
  assert (match State.orderBooks (touchBook i st) !! i with
          | Some book => default emptyLevel (kl_find p (levels s book))
          | None => emptyLevel
          end = levelFor p m) as Hlevel.
  { rewrite <-bookAt_touchBook. destruct Hbook as [b Hb']. unfold bookAt. by rewrite Hb'. }
  rewrite Hlevel. rewrite wrap64_small.
  2:{ rewrite levelFor_depth. rewrite MAX_LEVEL_value in *. unfold is_u64, UINT64_MAX. lia. }
  unfold restedLevel, replaceSide, activeOf, takerNode. simpl.
  by rewrite (restingSide_type _ _ Hs).
Qed.

Lemma afterRest_spec :
  wf afterRest ∧
  (∀ i' s', queueOf afterRest i' s' =
     setQueue i s (enqueue s (p, node) (queueOf st i s)) (queueOf st) i' s').
Proof.
  pose proof (bookAt_ok st i s Hwf) as Hm.
  destruct (rested_place s p m Hm (State.nextLocation st) node) as (pre & post & Hpre & Hpost & Hm' & Hq).
  - simpl. lia.
  - intros (x & Hid & Hx)%list_elem_of_fmap_1. rewrite <-restingCells_bookAt in Hx.
    apply (wf_lookup _ Hwf) in Hx. unfold cellId in Hid. simpl in Hid. congruence.
  - rewrite levelFor_depth. simpl. lia.
  - split.
    + apply (wf_insert_cell _ Hwf i s pre (p, (State.nextLocation st, node)) post); try done.
      by rewrite restingCells_bookAt.
    + intros i' s'. unfold afterRest. rewrite queueOf_replace. rewrite <-Hq.
      by rewrite <-queueOf_bookAt.
Qed.
End add.

(** * Cancelling a resting order

    [removeCancelledOrder] follows the index entry to the order's cell and takes
    the cell, its level when it was the last one, and the index entry out. *)

Lemma eraseCell_middle l n o1 o2 :
  (∀ c, c ∈ o1 → c.1 ≠ l) → eraseCell l (o1 ++ (l, n) :: o2) = Ret (o1 ++ o2).
Proof.
  intros H. induction o1 as [|c o1 IH]; [apply eraseCell_head|]. simpl.
  rewrite bool_decide_eq_false_2 by (apply H; by left).
  rewrite IH; [done|]. intros ??. apply H. by right.
Qed.

Lemma removeResting_split o q1 x q2 :
  OrderNode.orderId x.2 = o → (∀ y, y ∈ q1 ++ q2 → OrderNode.orderId y.2 ≠ o) →
  removeResting o (q1 ++ x :: q2) = q1 ++ q2.
Proof.
  intros Hx Hne. unfold removeResting. rewrite filter_app, filter_cons_False by (by intros []).
  rewrite <-filter_app. by apply filter_keep_all.
Qed.

Lemma removeResting_absent o q :
  (∀ y, y ∈ q → OrderNode.orderId y.2 ≠ o) → removeResting o q = q.
Proof. intros. by apply filter_keep_all. Qed.

Lemma sumQuantity_app o1 o2 : sumQuantity (o1 ++ o2) = sumQuantity o1 + sumQuantity o2.
Proof. induction o1; simpl; lia. Qed.

(** ** The level of the cancelled order *)
Definition withoutOrder (p : Price) (total : Quantity) (orders : OrderList) (m1 m2 : PriceMap) : PriceMap :=
  match orders with
  | [] => m1 ++ m2
  | _ => m1 ++ (p, Level.mkPriceLevel total orders) :: m2
  end.

Section cancel.
Context (st : MatchingState) (Hwf : wf st) (i : InstrumentId) (s : BookSide).
Context (p : Price) (l : location) (n : OrderNode) (level : PriceLevel) (m1 m2 : PriceMap)
        (o1 o2 : OrderList).
Context (Hsplit : levels s (bookAt st i) = m1 ++ (p, level) :: m2)
        (Ho : Level.orders level = o1 ++ (l, n) :: o2).

Local Abbreviation r := (OrderNode.remainingQuantity n).
Local Abbreviation pre := (flatLevels m1 ++ ((λ c, (p, c)) <$> o1)).
Local Abbreviation post := (((λ c, (p, c)) <$> o2) ++ flatLevels m2).
Local Abbreviation m' := (withoutOrder p (Level.totalQuantity level - r) (o1 ++ o2) m1 m2).

Lemma cancel_side_ok : side_ok s (m1 ++ (p, level) :: m2).
Proof. rewrite <-Hsplit. by apply bookAt_ok. Qed.

Lemma cancel_cells : restingCells st i s = pre ++ (p, (l, n)) :: post.
Proof.
  rewrite restingCells_bookAt, Hsplit, flatLevels_app, flatLevels_cons, Ho, fmap_app, fmap_cons.
  by rewrite <-!app_assoc.
Qed.

Lemma without_cells : flatLevels m' = pre ++ post.
Proof.
  unfold withoutOrder. destruct (o1 ++ o2) as [|c o] eqn:E.
  - apply app_eq_nil in E as [-> ->]. rewrite flatLevels_app. simpl. by rewrite app_nil_r.
  - rewrite <-E, flatLevels_app, flatLevels_cons. simpl. by rewrite fmap_app, <-!app_assoc.
Qed.

Lemma cancel_level_ok : level_ok level.
Proof.
  pose proof (side_levels _ _ cancel_side_ok) as Hl.
  rewrite Forall_app, Forall_cons in Hl. apply Hl.
Qed.

Lemma cancel_quantity :
  0 < r ∧ Level.totalQuantity level = r + sumQuantity (o1 ++ o2) ∧
  Level.totalQuantity level ≤ MAX_LEVEL ∧
  Forall (λ c : location * OrderNode, 0 < OrderNode.remainingQuantity c.2) (o1 ++ o2).
Proof.
  destruct cancel_level_ok as [_ Hp Ht Hb]. rewrite Ho in *.
  rewrite sumQuantity_app in *. rewrite Forall_app, Forall_cons in Hp.
  destruct Hp as (?&?&?). simpl in *. split_and!; [done|lia|done|by apply Forall_app].
Qed.

Lemma without_ok : side_ok s m'.
Proof.
  pose proof cancel_side_ok as Hm. destruct cancel_quantity as (Hr & Ht & Hb & Hpos).
  split.
  - unfold withoutOrder. destruct (o1 ++ o2).
    + eapply kl_sorted_remove, Hm.
    + eapply kl_sorted_replace, Hm.
  - pose proof (side_levels _ _ Hm) as Hl. rewrite Forall_app, Forall_cons in Hl.
    destruct Hl as (H1 & _ & H2). unfold withoutOrder. destruct (o1 ++ o2) eqn:E.
    + by apply Forall_app.
    + apply Forall_app. split; [done|]. constructor; [|done].
      split; cbn [Level.orders Level.totalQuantity snd]; [done|done|lia|].
      apply sumQuantity_nonneg in Hpos. lia.
  - change (NoDup (cellId <$> flatLevels m')). rewrite without_cells.
    pose proof (resting_unique st Hwf i s) as Hu. rewrite cancel_cells, fmap_app, fmap_cons in Hu.
    rewrite <-Permutation_middle, <-fmap_app in Hu. by apply NoDup_cons in Hu as [_ Hu].
Qed.

(** The address identifies the cell within its level. *)
Lemma cancel_location c : c ∈ o1 ++ (l, n) :: o2 → c.1 = l → c = (l, n).
Proof.
  intros Hc Hl. apply (wf_location_place _ Hwf i s (p, c) i s (p, (l, n))); [| |done].
  - rewrite restingCells_bookAt, Hsplit. apply elem_of_flatLevels. exists level. by rewrite Ho.
  - by rewrite cancel_cells.
Qed.

Lemma cancel_before c : c ∈ o1 → c.1 ≠ l.
Proof.
  intros Hc Hl. assert (c = (l, n)) as -> by (apply cancel_location; [set_solver|done]).
  apply (split_ids st Hwf i s pre (p, (l, n)) post (p, (l, n))); [by apply cancel_cells| |done].
  rewrite !elem_of_app. left. right. apply list_elem_of_fmap. eauto.
Qed.

Lemma cancel_find : ∃ k, list_find (λ c : location * OrderNode, c.1 = l) (Level.orders level) = Some (k, (l, n)).
Proof.
  destruct (list_find _ (Level.orders level)) as [[k c]|] eqn:E.
  - apply list_find_Some in E as (Hk & Hl & _). exists k. repeat f_equal.
    apply cancel_location; [|done]. rewrite <-Ho. apply list_elem_of_lookup. eauto.
  - apply list_find_None in E. rewrite Ho, Forall_forall in E. by destruct (E (l, n)).
Qed.

Definition afterCancel : MatchingState :=
  replaceSide i s m' (delete (OrderNode.orderId n) (State.activeOrders st)) (State.nextLocation st) st.

Lemma kl_find_level : kl_find p (levels s (bookAt st i)) = Some level.
Proof.
  rewrite Hsplit. apply kl_find_middle.
  by destruct (kl_sorted_head_fresh (sideBefore s) _ _ _ _ (side_sorted _ _ cancel_side_ok)).
Qed.

Lemma cancel_book : State.orderBooks st !! i = Some (bookAt st i).
Proof. apply (bookAt_lookup st i s). rewrite Hsplit. by destruct m1. Qed.

Lemma removeFromBook_run :
  (removeFromBook (OrderNode.orderId n) (activeOf i s (p, (l, n))) s (bookAt st i) ;;
   modifyM (eraseEmptyBook i)) st = (Ret tt, afterCancel).
Proof.
  destruct cancel_quantity as (Hr & Ht & Hb & Hpos). rewrite MAX_LEVEL_value in Hb.
  pose proof (sumQuantity_nonneg _ Hpos) as Hsum.
  unfold removeFromBook, activeOf.
  cbn [Active.instrumentId Active.price Active.remainingQuantity Active.owner Active.orderLocation fst snd].
  rewrite kl_find_level. destruct cancel_find as [k ->]. cbn [fst snd]. mrun.
  rewrite !(bool_decide_eq_false_2 (?[x] ≠ ?x)) by auto.
  rewrite (bool_decide_eq_false_2 (Level.totalQuantity level < r)) by lia. cbn [orb].
  rewrite Ho, eraseCell_middle by apply cancel_before.
  rewrite wrap64_small by (unfold is_u64, UINT64_MAX; lia).
  rewrite storeLevel_replace by (rewrite cancel_book; eauto).
  rewrite Hsplit, kl_set_middle by (try apply _; apply cancel_side_ok).
  rewrite setActive_replaceSide. unfold afterCancel, withoutOrder.
  pose proof (length_app o1 ((l, n) :: o2)) as Hlen. simpl in Hlen.
  destruct (o1 ++ o2) as [|c o] eqn:E.
  - apply app_eq_nil in E as [-> ->]. simpl in Ht.
    rewrite (bool_decide_eq_true_2 (length _ = 1%nat)) by done.
    rewrite (bool_decide_eq_false_2 (Level.totalQuantity level ≠ r)) by lia. cbn.
    rewrite eraseLevel_replace by (apply replaceSide_Some; by destruct m1).
    rewrite levels_replaceSide, replaceSide_twice, kl_erase_middle; [done|].
    by destruct (kl_sorted_head_fresh (sideBefore s) _ _ _ _ (side_sorted _ _ cancel_side_ok)).
  - assert (0 < sumQuantity (c :: o)) as Hmore.
    { apply Forall_cons_1 in Hpos as [? Hpos]. apply sumQuantity_nonneg in Hpos. simpl. lia. }
    pose proof (length_app o1 o2) as Hlen'. rewrite E in Hlen'. simpl in Hlen'.
    rewrite (bool_decide_eq_false_2 (length _ = 1%nat)) by lia.
    rewrite (bool_decide_eq_false_2 (Level.totalQuantity level ≤ r)) by lia.
    rewrite andb_false_r. cbn. destruct m1; simpl; by rewrite eraseEmptyBook_id.
Qed.

Lemma removeCancelledOrder_run : removeCancelledOrder (OrderNode.orderId n) st = (Ret tt, afterCancel).
Proof.
  destruct cancel_quantity as (Hr & _).
  unfold removeCancelledOrder. rewrite (M_bind_run _ _ st st st) by done.
  pose proof (wf_lookup st Hwf i s (p, (l, n)) ltac:(by rewrite cancel_cells)) as Ha. simpl in Ha.
  rewrite Ha. cbn [Active.remainingQuantity Active.instrumentId Active.side activeOf fst snd].
  rewrite (bool_decide_eq_false_2 (r = 0)) by lia. rewrite throw_ifM_false, cancel_book.
  rewrite restingSide_sideType. apply removeFromBook_run.
Qed.

Lemma afterCancel_spec :
  wf afterCancel ∧
  (∀ i' s', queueOf afterCancel i' s' =
     setQueue i s (removeResting (OrderNode.orderId n) (queueOf st i s)) (queueOf st) i' s').
Proof.
  split.
  - by apply (wf_remove_cell _ Hwf i s pre (p, (l, n)) post);
      [apply cancel_cells|apply without_ok|apply without_cells].
  - intros i' s'. unfold afterCancel. rewrite queueOf_replace, without_cells.
    unfold queueOf at 2. rewrite cancel_cells, !fmap_app, fmap_cons, !fmap_app.
    rewrite removeResting_split; [done|done|].
    intros y. rewrite <-!fmap_app. intros (z & -> & Hz)%list_elem_of_fmap.
    by apply (split_ids st Hwf i s pre (p, (l, n)) post); [apply cancel_cells|].
Qed.
End cancel.

(** Every indexed order has such a place. *)
Lemma cancel_place st o a :
  wf st → State.activeOrders st !! o = Some a →
  ∃ i s p l n level m1 m2 o1 o2,
    a = activeOf i s (p, (l, n)) ∧ o = OrderNode.orderId n ∧
    levels s (bookAt st i) = m1 ++ (p, level) :: m2 ∧ Level.orders level = o1 ++ (l, n) :: o2.
Proof.
  intros Hwf Ha. destruct (proj1 (wf_index _ Hwf o a) Ha) as (i & s & [p [l n]] & Hx & -> & ->).
  rewrite restingCells_bookAt in Hx.
  apply elem_of_flatLevels in Hx as (level & Hlevel & Hc).
  apply list_elem_of_split in Hlevel as (m1 & m2 & Hm).
  apply list_elem_of_split in Hc as (o1 & o2 & Ho).
  by exists i, s, p, l, n, level, m1, m2, o1, o2.
Qed.
