(* ===== verification/MatchingRefine.v ===== *)
(** * The engine refines its abstract specification

    [processMessage_refines] is the simulation: on every valid command the
    engine returns normally with the outcome [specProcess] computes, and its new
    books are the abstract ones. *)
From S2P Require Import Prelude KeyedList Domain Matching MatchingSpec MatchingInv.
From S2P Require Import MatchingInv MatchingRun MatchingSweep MatchingRest.
From S2P Require Import MatchingRest.

(** ** Facts about [sweep] on positive queues *)
Definition positive (x : Z * OrderNode) : Prop := 0 < OrderNode.remainingQuantity x.2.

Lemma queue_positive st i s : wf st → Forall positive (queueOf st i s).
Proof.
  intros Hwf. rewrite queueOf_bookAt, Forall_fmap, Forall_forall.
  intros x Hx. by apply (side_ok_positive s _ x (bookAt_ok st i s Hwf)).
Qed.

Lemma sweep_bounds acceptable queue : ∀ r fills r' queue',
  0 ≤ r → Forall positive queue → sweep acceptable r queue = (fills, r', queue') →
  0 ≤ r' ∧ r' + Z.of_nat (length fills) ≤ r.
Proof.
  induction queue as [|[p n] queue IH]; intros r fills r' queue' Hr Hpos Hs; simpl in Hs.
  { simplify_eq. simpl. lia. }
  apply Forall_cons_1 in Hpos as [Hn Hpos]. unfold positive in Hn. simpl in Hn.
  destruct (_ && _) eqn:E; [|simplify_eq; simpl; lia].
  apply andb_true_iff in E as [E _]. apply bool_decide_eq_true in E.
  case_bool_decide; [simplify_eq; simpl; lia|].
  destruct (sweep _ _ queue) as [[f x] y] eqn:Hs'. simplify_eq.
  apply IH in Hs'; [|lia|done]. simpl. lia.
Qed.

(** What stops the sweep of a taker that is not filled. *)
Lemma sweep_stops acceptable queue : ∀ r fills r' queue',
  sweep acceptable r queue = (fills, r', queue') → 0 < r' →
  match queue' with [] => True | x :: _ => acceptable x.1 = false end.
Proof.
  induction queue as [|[p n] queue IH]; intros r fills r' queue' Hs Hr; simpl in Hs.
  { by simplify_eq. }
  destruct (_ && _) eqn:E.
  - case_bool_decide; [simplify_eq; lia|].
    destruct (sweep _ _ queue) as [[f x] y] eqn:Hs'. simplify_eq. by eapply IH.
  - simplify_eq. simpl. by rewrite bool_decide_eq_true_2 in E.
Qed.

Lemma apart_acceptable s limit p : acceptableFor s limit p = false ↔ apart s limit p.
Proof. destruct s; simpl; rewrite bool_decide_eq_false; lia. Qed.

Lemma apart_beyond s limit h p :
  apart s limit h → h = p ∨ sideBefore (opposite s) h p = true → apart s limit p.
Proof.
  intros ? [->|Hb]; [done|]. destruct s; simpl in *; unfold askBefore, bidBefore in Hb;
    apply bool_decide_eq_true in Hb; lia.
Qed.

(** No price of the opposite side is acceptable when its best is not. *)
Lemma side_apart st i s limit :
  wf st →
  match queueOf st i (opposite s) with [] => True | x :: _ => acceptableFor s limit x.1 = false end →
  ∀ q, q ∈ (levels (opposite s) (bookAt st i)).*1 → apart s limit q.
Proof.
  intros Hwf Hhead q Hq. destruct (levels (opposite s) (bookAt st i)) as [|[h level] m'] eqn:E.
  { by apply elem_of_nil in Hq. }
  destruct (wf_head _ _ _ _ _ _ Hwf E) as (l & n & behind & _ & Hqueue).
  rewrite Hqueue in Hhead. simpl in Hhead. rewrite apart_acceptable in Hhead.
  apply (apart_beyond s limit h); [done|]. rewrite fmap_cons in Hq.
  apply elem_of_cons in Hq as [->|Hq]; [by left|right].
  apply list_elem_of_fmap in Hq as (e & -> & He).
  pose proof (side_sorted _ _ (bookAt_ok st i (opposite s) Hwf)) as Hs. rewrite E in Hs.
  apply kl_sorted_cons in Hs as [_ Hs]. by apply (Hs e).
Qed.

(** ** Matching one order *)
Lemma opposite_involutive s : opposite (opposite s) = s.
Proof. by destruct s. Qed.

Lemma matchOrder_refines st message s fills r' queue' :
  wf st → is_u64 (Msg.quantity message) → restingSide (Msg.type message) = Some s →
  sweep (acceptableFor s (Msg.price message)) (Msg.quantity message)
    (queueOf st (Msg.instrumentId message) (opposite s)) = (fills, r', queue') →
  Z.of_nat (length fills) ≤ MAX_EVENTS_PER_COMMAND →
  ∃ st', matchOrder message (Msg.quantity message) [] st =
    (Ret (r', tradeEvents (State.exchangeRunId st) message s 0 (Msg.quantity message) fills), st') ∧
    evolves st st' (Msg.instrumentId message) (opposite s) queue'.
Proof.
  intros Hwf Hu Hs Hsweep Hcount.
  assert (∀ beyond, (∀ p, beyond p = negb (acceptableFor s (Msg.price message) p)) →
    loop_result message (opposite s) beyond (matchFuel st) st (Msg.quantity message) [] fills r' queue') as Hloop.
  { intros beyond Hb. apply (matchLoop_refines message (opposite s) beyond _ Hb); try done.
    - unfold eventCount, MAX_EVENTS_PER_COMMAND, UINT32_MAX in *. simpl. lia.
    - intros _. apply matchFuel_enough. }
  unfold loop_result in Hloop. rewrite !opposite_involutive in Hloop.
  unfold matchOrder, matchBuyOrder, matchSellOrder.
  destruct s, (Msg.type message); simplify_eq/=; apply Hloop; intros p; simpl;
    rewrite <-bool_decide_not; apply bool_decide_ext; lia.
Qed.

(** ** New orders *)

(** The state [st'] the engine reaches from [st] implements [books']; only the
    order [o] is new. *)
Record simulates (st st' : MatchingState) (o : OrderId) (books' : Books) : Prop := {
  sim_wf : wf st';
  sim_run : State.exchangeRunId st' = State.exchangeRunId st;
  sim_queue i s : queueOf st' i s = books' i s;
  sim_orders o' : is_Some (State.activeOrders st' !! o') → o' = o ∨ is_Some (State.activeOrders st !! o') }.

Lemma simulates_refl st o : wf st → simulates st st o (queueOf st).
Proof. intros. split; auto. Qed.

Lemma simulates_evolves st st' i s queue' o :
  evolves st st' i s queue' → simulates st st' o (setQueue i s queue' (queueOf st)).
Proof. intros [????]. split; auto. Qed.

Lemma rejectBookCapacity_run message st cc :
  Msg.clientCommandId message = Some cc →
  rejectBookCapacity message st =
  Ret (Outcome.mkProcessingOutcome Processing.BOOK_CAPACITY_EXCEEDED
        [specReject (State.exchangeRunId st) message CmdType.NEW_ORDER (Msg.orderId message)
           BOOK_CAPACITY_EXCEEDED]).
Proof. intros Hcc. unfold rejectBookCapacity, specReject. by rewrite Hcc. Qed.

Lemma toDomainSide_run t s : restingSide t = Some s → toDomainSide t = Ret (takerSideOf s).
Proof. by destruct t; intros; simplify_eq/=. Qed.

Section order.
Context (st : MatchingState) (Hwf : wf st) (message : sequenceMessage) (s : BookSide) (cc : ClientCommandId).
Context (Hs : restingSide (Msg.type message) = Some s)
  (Hcfg : findByIdentity (Msg.instrumentId message) (Msg.configurationVersion message) = Some SPY_V1)
  (Hcc : Msg.clientCommandId message = Some cc)
  (Hu : is_u64 (Msg.quantity message))
  (Hfresh : State.activeOrders st !! Msg.orderId message = None).
Local Abbreviation i := (Msg.instrumentId message).
Local Abbreviation run := (State.exchangeRunId st).

Context (fills : list Fill) (left : Quantity) (opposite' : list (Z * OrderNode)).
Context (Hsweep : sweep (acceptableFor s (Msg.price message)) (Msg.quantity message)
                    (queueOf st i (opposite s)) = (fills, left, opposite')).

Local Abbreviation count := (Z.of_nat (length fills)).
Local Abbreviation trades := (tradeEvents run message s 0 (Msg.quantity message) fills).

Lemma order_bounds : 0 ≤ left ∧ left + count ≤ SIZE_MAX.
Proof.
  destruct (sweep_bounds _ _ _ _ _ _ (proj1 Hu) (queue_positive st i (opposite s) Hwf) Hsweep).
  unfold is_u64, SIZE_MAX in *. lia.
Qed.

Lemma trades_count : eventCount trades = count.
Proof. unfold eventCount. by rewrite tradeEvents_length. Qed.

Definition restedEvent : BusinessEvent :=
  EvRested (Rested.mkOrderRested (specEventId run message count) (Msg.orderId message)
    (Msg.clientId message) i (takerSideOf s) (Msg.price message) left).

(** The remainder of a partly matched order rests. *)
Lemma addOrder_after st1 :
  evolves st st1 i (opposite s) opposite' → 0 < left →
  depthAt (Msg.price message) (queueOf st i s) + left ≤ MAX_LEVEL →
  ∃ st2, addOrder message left st1 = (Ret Processing.APPLIED, st2) ∧
    simulates st st2 (Msg.orderId message)
      (setQueue i s (enqueue s (Msg.price message, takerNode message left) (queueOf st i s))
         (setQueue i (opposite s) opposite' (queueOf st))).
Proof.
  intros [Hwf1 Hrun1 Hq1 Ho1] Hleft Hfit.
  assert (Hown : queueOf st1 i s = queueOf st i s).
  { rewrite Hq1. unfold setQueue. rewrite bool_decide_eq_false_2; [done|]. by destruct s; intros []. }
  assert (Hfresh1 : State.activeOrders st1 !! Msg.orderId message = None).
  { apply eq_None_not_Some. intros [a Ha]%Ho1. by rewrite Hfresh in Ha. }
  assert (Hapart : ∀ q, q ∈ (levels (opposite s) (bookAt st1 i)).*1 → apart s (Msg.price message) q).
  { apply side_apart; [done|]. rewrite Hq1, setQueue_same. by eapply sweep_stops. }
  exists (afterRest st1 message s left). split; [apply addOrder_run; try done; by rewrite Hown|].
  destruct (afterRest_spec st1 Hwf1 message s left) as [Hwf2 Hq2]; try done; [by rewrite Hown|].
  split; [done|done| |].
  - intros i' s'. rewrite Hq2, Hown. unfold setQueue at 1 2. case_bool_decide; [done|apply Hq1].
  - intros o' [a Ha]. cbn [afterRest State.activeOrders replaceSide] in Ha.
    apply lookup_insert_Some in Ha as [[<- _]|[_ Ha]]; [by left|right]. eauto.
Qed.

Local Abbreviation planned := (count + (if bool_decide (0 < left) then 1 else 0)).

Lemma planned_bound : planned ≤ SIZE_MAX.
Proof. pose proof order_bounds. case_bool_decide; lia. Qed.

Lemma fits_run (rest : bool) :
  (if rest return M MatchingState bool then liftM (canAddOrder message left) else mret true) st =
  (Ret (negb (rest && bool_decide (0 < left) &&
              bool_decide (MAX_LEVEL < depthAt (Msg.price message) (queueOf st i s) + left))), st).
Proof.
  pose proof order_bounds. destruct rest; [|done]. unfold liftM. rewrite (canAddOrder_run _ _ s) by done.
  do 2 f_equal. rewrite andb_true_l, negb_andb, <-!bool_decide_not.
  f_equal; apply bool_decide_ext; lia.
Qed.

Lemma event_id_run k st0 :
  0 ≤ k ≤ MAX_EVENTS_PER_COMMAND → State.exchangeRunId st0 = run →
  makeEventId (State.exchangeRunId st0) (Msg.globalSequenceNumber message) k =
  Ret (specEventId run message k).
Proof.
  intros Hk ->. apply makeEventId_run. unfold MAX_EVENTS_PER_COMMAND, UINT32_MAX in *. lia.
Qed.

(** The last planned event has an identifier. *)
Lemma plan_check_run :
  planned ≤ MAX_EVENTS_PER_COMMAND →
  (if bool_decide (0 < planned) return M MatchingState unit then
     liftM (λ st, makeEventId (State.exchangeRunId st) (Msg.globalSequenceNumber message) (planned - 1)) ;;
     mret tt
   else mret tt) st = (Ret tt, st).
Proof.
  intros. destruct (decide (0 < planned)) as [Hp|Hp];
    [rewrite bool_decide_eq_true_2 by done|by rewrite bool_decide_eq_false_2].
  mrun. by rewrite event_id_run by (done || lia).
Qed.

(** The events and the state after a plan that fits. *)
Lemma processOrder_applied (rest : bool) :
  planned ≤ MAX_EVENTS_PER_COMMAND →
  (rest = true → 0 < left → depthAt (Msg.price message) (queueOf st i s) + left ≤ MAX_LEVEL) →
  ∃ st1 st', matchOrder message (Msg.quantity message) [] st = (Ret (left, trades), st1) ∧
    State.exchangeRunId st1 = run ∧
    (if rest && bool_decide (0 < left)
     then addOrder message left st1 = (Ret Processing.APPLIED, st') else st' = st1) ∧
    simulates st st' (Msg.orderId message)
      (if rest && bool_decide (0 < left)
       then setQueue i s (enqueue s (Msg.price message, takerNode message left) (queueOf st i s))
              (setQueue i (opposite s) opposite' (queueOf st))
       else setQueue i (opposite s) opposite' (queueOf st)).
Proof.
  intros Hmax Hfit. destruct (matchOrder_refines st message s fills left opposite' Hwf Hu Hs Hsweep)
    as (st1 & Hrun & Hev); [case_bool_decide; lia|].
  destruct (rest && bool_decide (0 < left)) eqn:E.
  - apply andb_true_iff in E as [-> E]. apply bool_decide_eq_true in E.
    destruct (addOrder_after st1 Hev E) as (st2 & Hadd & Hsim); [auto|].
    exists st1, st2. split_and!; try done. apply Hev.
  - exists st1, st1. split_and!; try done; [apply Hev|by apply simulates_evolves].
Qed.

Lemma processOrder_refines rest :
  ∃ st', processOrder message rest st = (Ret (specOrder run message s rest (queueOf st)).1, st') ∧
    simulates st st' (Msg.orderId message) (specOrder run message s rest (queueOf st)).2.
Proof.
  pose proof order_bounds as [Hleft _]. pose proof trades_count as Htrades.
  assert (Hplan : planMatches message st = Ret (Plan.mkMatchPlan left count)).
  { rewrite (planMatches_refines _ _ s) by done. unfold sweepLeft, sweepCount. by rewrite Hsweep. }
  unfold processOrder, specOrder. rewrite Hsweep.
  rewrite (liftM_run _ _ _ _ Hplan). cbn [Plan.executionCount Plan.remainder].
  erewrite liftM_run by (apply checkedAddEventCount_run, planned_bound).
  destruct (bool_decide (MAX_EVENTS_PER_COMMAND < planned)) eqn:Hmax.
  { exists st. unfold liftM. rewrite (rejectBookCapacity_run _ _ cc) by done.
    split; [done|by apply simulates_refl]. }
  apply bool_decide_eq_false in Hmax.
  rewrite (M_bind_run _ _ _ _ _ (fits_run rest)), negb_involutive.
  destruct (rest && bool_decide (0 < left) && _) eqn:Hfit.
  { exists st. unfold liftM. rewrite (rejectBookCapacity_run _ _ cc) by done.
    split; [done|by apply simulates_refl]. }
  destruct (processOrder_applied rest) as (st1 & st' & Hmatch & Hrun1 & Hadd & Hsim); [lia| |].
  { intros -> Hpos. rewrite (bool_decide_eq_true_2 (0 < left)) in Hfit by done. simpl in Hfit.
    apply bool_decide_eq_false in Hfit. lia. }
  assert (Hid := event_id_run).
  rewrite (M_bind_run _ _ _ _ _ (plan_check_run ltac:(lia))), (M_bind_run _ _ _ _ _ Hmatch). cbn [Plan.remainder Plan.executionCount].
  rewrite Htrades, !(bool_decide_eq_false_2 (?[x] ≠ ?x)) by auto. cbn [orb]. rewrite throw_ifM_false.
  exists st'. destruct (decide (0 < left)) as [Hpos|Hpos].
  - rewrite (bool_decide_eq_true_2 (0 < left)) in * by done. rewrite andb_true_r in *.
    destruct rest; (split; [|exact Hsim]).
    + mrun. rewrite Hadd. mrun. rewrite (bool_decide_eq_false_2 (_ ≠ _)) by auto. cbn match.
      rewrite Hid by (try apply Hsim; lia). cbn match. rewrite (toDomainSide_run _ s) by done. cbn match.
      rewrite eventCount_app, Htrades. change (eventCount [?x]) with 1.
      by rewrite bool_decide_eq_false_2 by auto.
    + subst st'. mrun. rewrite Hid by (done || lia). cbn match.
      rewrite eventCount_app, Htrades. change (eventCount [?x]) with 1.
      by rewrite bool_decide_eq_false_2 by auto.
  - rewrite (bool_decide_eq_false_2 (0 < left)) in * by done. rewrite andb_false_r in *.
    split; [|exact Hsim]. subst st'. mrun. rewrite Htrades.
    by rewrite bool_decide_eq_false_2 by lia.
Qed.
End order.

(** ** Cancellations *)
Lemma findResting_Some o queue x :
  x ∈ queue → OrderNode.orderId x.2 = o → (∀ y, y ∈ queue → OrderNode.orderId y.2 = o → y = x) →
  findResting o queue = Some x.
Proof.
  intros Hx Hid Hone. unfold findResting.
  destruct (list_find _ queue) as [[k y]|] eqn:E; simpl.
  - apply list_find_Some in E as (Hk & Hy & _). f_equal. apply Hone; [|done].
    apply list_elem_of_lookup. eauto.
  - apply list_find_None in E. rewrite Forall_forall in E. by destruct (E x).
Qed.

Lemma findResting_None o queue :
  (∀ y, y ∈ queue → OrderNode.orderId y.2 ≠ o) → findResting o queue = None.
Proof.
  intros Hne. unfold findResting. destruct (list_find _ queue) as [[k y]|] eqn:E; [|done].
  apply list_find_Some in E as (Hk & Hy & _). destruct (Hne y); [|done].
  apply list_elem_of_lookup. eauto.
Qed.

(** The index and the abstract queues name the same orders. *)
Lemma active_queue st o :
  wf st → is_Some (State.activeOrders st !! o) ↔
  ∃ i s x, x ∈ queueOf st i s ∧ OrderNode.orderId x.2 = o.
Proof.
  intros Hwf. split.
  - intros [a Ha]. apply (wf_index _ Hwf) in Ha as (i & s & x & Hx & -> & _).
    exists i, s, (dropLocation x). split; [|done]. by apply list_elem_of_fmap_2.
  - intros (i & s & x & (y & -> & Hy)%list_elem_of_fmap_1 & <-). simpl.
    rewrite (wf_lookup st Hwf i s y) by done. eauto.
Qed.

(** An order rests in one place of the abstract books. *)
Lemma queue_place st i s x i' s' x' :
  wf st → x ∈ queueOf st i s → x' ∈ queueOf st i' s' →
  OrderNode.orderId x.2 = OrderNode.orderId x'.2 → i = i' ∧ s = s' ∧ x = x'.
Proof.
  intros Hwf (y & -> & Hy)%list_elem_of_fmap_1 (y' & -> & Hy')%list_elem_of_fmap_1 Hid.
  by destruct (wf_place st Hwf _ _ _ _ _ _ Hy Hy' Hid) as (-> & -> & ->).
Qed.

Lemma elem_of_sides st i x :
  x ∈ queueOf st i Bids ++ queueOf st i Asks ↔ ∃ s, x ∈ queueOf st i s.
Proof. rewrite elem_of_app. split; [intros [?|?]; eauto|intros [[] ?]; auto]. Qed.

Lemma findResting_place st i s x :
  wf st → x ∈ queueOf st i s →
  findResting (OrderNode.orderId x.2) (queueOf st i Bids ++ queueOf st i Asks) = Some x.
Proof.
  intros Hwf Hx. apply findResting_Some; [apply elem_of_sides; eauto|done|].
  intros y [s' Hy]%elem_of_sides Hid. by destruct (queue_place st i s' y i s x Hwf Hy Hx Hid) as (_ & _ & ->).
Qed.

(** Removing an order from its side removes it from the book. *)
Lemma remove_both_sides st i s x i' s' :
  wf st → x ∈ queueOf st i s →
  setQueue i s (removeResting (OrderNode.orderId x.2) (queueOf st i s)) (queueOf st) i' s' =
  setQueue i Bids (removeResting (OrderNode.orderId x.2) (queueOf st i Bids))
    (setQueue i Asks (removeResting (OrderNode.orderId x.2) (queueOf st i Asks)) (queueOf st)) i' s'.
Proof.
  intros Hwf Hx. unfold setQueue.
  assert (∀ t, t ≠ s → removeResting (OrderNode.orderId x.2) (queueOf st i t) = queueOf st i t) as Hother.
  { intros t Ht. apply removeResting_absent. intros y Hy Hid.
    by destruct (queue_place st i t y i s x Hwf Hy Hx Hid) as (_ & -> & _). }
  destruct (decide (i' = i)) as [->|Hi].
  2:{ by rewrite !bool_decide_eq_false_2 by (by intros []). }
  destruct s, s'; repeat case_bool_decide; destruct_and?; try done; try (by rewrite Hother); tauto.
Qed.

Lemma rejectCancel_run st message target reason cc :
  Msg.clientCommandId message = Some cc →
  rejectCancel message target reason st =
  Ret (Outcome.mkProcessingOutcome Processing.APPLIED
        [specReject (State.exchangeRunId st) message CmdType.CANCEL target reason]).
Proof.
  intros Hcc. unfold rejectCancel, specReject. rewrite makeEventId_run by (unfold UINT32_MAX; lia).
  by rewrite Hcc.
Qed.

Lemma cancelMissingFields_false message :
  valid_command message → valid_cancel message → cancelMissingFields message = false.
Proof.
  intros [Hc Hcc Hn _] [Ht Hi Htarget _]. unfold cancelMissingFields.
  apply findByIdentity_Some in Hi as (_ & Hi & _).
  rewrite Ht, Hi, (bool_decide_eq_false_2 (Msg.globalSequenceNumber message = 0)) by lia.
  repeat (case_bool_decide; [congruence|]). done.
Qed.

Lemma processCancel_refines n st message :
  engine_ok n st → valid_command message → valid_cancel message →
  let spec := specCancel (State.exchangeRunId st) message (default 0 (Msg.targetOrderId message)) (queueOf st) in
  ∃ st', processCancel message st = (Ret spec.1, st') ∧
    simulates st st' (Msg.globalSequenceNumber message) spec.2.
Proof.
  intros [Hwf _ _ Hlisted] Hvalid Hcancel. pose proof (cancelMissingFields_false _ Hvalid Hcancel) as Hfields.
  destruct (Msg.clientCommandId message) as [cc|] eqn:Hcc; [|by destruct (vm_command _ Hvalid)].
  pose proof (vc_instrument _ Hcancel) as (_ & Hi & _)%findByIdentity_Some.
  unfold processCancel, specCancel, orderIdFrom. rewrite Hfields, throw_ifM_false.
  rewrite (bool_decide_eq_false_2 (_ ≠ 0)) by (rewrite (vc_order _ Hcancel); auto).
  rewrite throw_ifM_false. generalize (default 0 (Msg.targetOrderId message)). intros o. mrun.
  destruct (State.activeOrders st !! o) as [a|] eqn:Ha.
  2:{ rewrite findResting_None.
      - unfold liftM. rewrite (rejectCancel_run _ _ _ _ cc) by done.
        exists st. split; [done|by apply simulates_refl].
      - intros y [s Hy]%elem_of_sides Hid. apply eq_None_not_Some in Ha. apply Ha.
        apply active_queue; [done|]. by exists (Msg.instrumentId message), s, y. }
  destruct (cancel_place st o a Hwf Ha) as (i & s & p & l & nd & level & m1 & m2 & o1 & o2 & -> & -> & Hsplit & Hlevel).
  pose proof (cancel_cells st i s p l nd level m1 m2 o1 o2 Hsplit Hlevel) as Hcells.
  assert (Hx : (p, nd) ∈ queueOf st i s).
  { unfold queueOf. rewrite Hcells. apply list_elem_of_fmap. by exists (p, (l, nd)). }
  assert (i = Msg.instrumentId message) as ->.
  { rewrite Hi. destruct (decide (i = 1)) as [|Hne]; [done|]. rewrite (Hlisted i s Hne) in Hx.
    by apply elem_of_nil in Hx. }
  pose proof (findResting_place st _ s (p, nd) Hwf Hx) as Hfind. simpl in Hfind.
  rewrite Hfind. cbn [activeOf Active.owner Active.instrumentId Active.remainingQuantity fst snd].
  destruct (decide (OrderNode.owner nd = Msg.clientId message)) as [Howner|Howner].
  - rewrite (bool_decide_eq_false_2 (OrderNode.owner nd ≠ _)) by auto.
    rewrite (bool_decide_eq_true_2 (OrderNode.owner nd = _)) by done.
    rewrite (bool_decide_eq_false_2 (Msg.instrumentId message ≠ _)) by auto. cbn match.
    rewrite makeEventId_run by (unfold UINT32_MAX; lia). cbn match.
    rewrite (removeCancelledOrder_run st Hwf _ s p l nd level m1 m2 o1 o2 Hsplit Hlevel).
    destruct (afterCancel_spec st Hwf _ s p l nd level m1 m2 o1 o2 Hsplit Hlevel) as [Hwf' Hq'].
    eexists. split; [by rewrite Howner|]. split; [done|done| |].
    + intros i' s'. rewrite Hq'. by apply (remove_both_sides st _ s (p, nd)).
    + intros o'. simpl. intros [? [_ ?]%lookup_delete_Some]. eauto.
  - rewrite (bool_decide_eq_true_2 (OrderNode.owner nd ≠ _)) by done.
    rewrite (bool_decide_eq_false_2 (OrderNode.owner nd = _)) by done.
    rewrite (rejectCancel_run _ _ _ _ cc) by done. exists st. split; [done|by apply simulates_refl].
Qed.

(** ** Any command *)
Lemma specProcess_order run message s books :
  restingSide (Msg.type message) = Some s →
  specProcess run message books =
  specOrder run message s (bool_decide (Msg.tif message = TIF.GTC)) books.
Proof. unfold specProcess. by destruct (Msg.type message); intros; simplify_eq/=. Qed.

Lemma processMessage_order message s :
  restingSide (Msg.type message) = Some s → processMessage message = processRestableOrder message.
Proof. unfold processMessage. by destruct (Msg.type message). Qed.

Lemma valid_order_fresh n st message :
  engine_ok n st → n ≤ Msg.globalSequenceNumber message → valid_order message →
  State.activeOrders st !! Msg.orderId message = None.
Proof.
  intros [_ Ho _ _] Hn Hv. rewrite (vo_order _ Hv). apply eq_None_not_Some. intros Ha%Ho. lia.
Qed.

Lemma valid_command_id message : valid_command message → ∃ cc, Msg.clientCommandId message = Some cc.
Proof.
  intros Hv. destruct (Msg.clientCommandId message) eqn:E; [eauto|].
  by destruct (vm_command _ Hv).
Qed.

Lemma processMessage_refines n st message :
  engine_ok n st → n ≤ Msg.globalSequenceNumber message → valid_command message →
  let spec := specProcess (State.exchangeRunId st) message (queueOf st) in
  ∃ st', processMessage message st = (Ret spec.1, st') ∧
    simulates st st' (Msg.globalSequenceNumber message) spec.2.
Proof.
  intros Hok Hn Hv. destruct (valid_command_id _ Hv) as [cc Hcc].
  destruct (vm_kind _ Hv) as [Horder|Hcancel].
  - destruct (restingSide (Msg.type message)) as [s|] eqn:Hs; [|by destruct (vo_side _ Horder)].
    pose proof (valid_order_fresh _ _ _ Hok Hn Horder) as Hfresh.
    rewrite (specProcess_order _ _ s), (processMessage_order _ s) by done.
    destruct (sweep (acceptableFor s (Msg.price message)) (Msg.quantity message)
               (queueOf st (Msg.instrumentId message) (opposite s))) as [[fills left] opp] eqn:Hsweep.
    destruct (processOrder_refines st (ok_wf _ _ Hok) message s cc Hs (vo_instrument _ Horder) Hcc
                (vo_quantity _ Horder) Hfresh fills left opp Hsweep (bool_decide (Msg.tif message = TIF.GTC)))
      as (st' & Hrun & Hsim).
    rewrite (vo_order _ Horder) in Hsim. exists st'. split; [|done].
    unfold processRestableOrder. assert (bool_decide (Msg.tif message ≠ TIF.GTC) &&
      bool_decide (Msg.tif message ≠ TIF.IOC) = false) as ->.
    { apply andb_false_iff. rewrite !bool_decide_eq_false. destruct (vo_tif _ Horder); auto. }
    rewrite throw_ifM_false, (M_bind_run _ _ st st st) by done.
    rewrite Hfresh, (bool_decide_eq_false_2 (is_Some None)) by (by intros [? ?]).
    by rewrite throw_ifM_false.
  - unfold processMessage, specProcess. rewrite (vc_type _ Hcancel). by eapply processCancel_refines.
Qed.

(** ** Identities of the reported events *)
Lemma tradeEvents_ids run message s fills : ∀ index remaining,
  eventIdOf <$> tradeEvents run message s (Z.of_nat index) remaining fills =
  (λ k, specEventId run message (Z.of_nat k)) <$> seq index (length fills).
Proof.
  induction fills as [|f fills IH]; intros index remaining; [done|]. simpl. f_equal.
  replace (Z.of_nat index + 1) with (Z.of_nat (Datatypes.S index)) by lia. apply IH.
Qed.

Definition eventIds (run : ExchangeRunId) (message : sequenceMessage) (n : nat) : list EventId :=
  (λ k, specEventId run message (Z.of_nat k)) <$> seq 0 n.

Lemma specOrder_ids run message s rest books :
  let outcome := (specOrder run message s rest books).1 in
  eventIdOf <$> Outcome.events outcome = eventIds run message (length (Outcome.events outcome)) ∧
  Z.of_nat (length (Outcome.events outcome)) ≤ MAX_EVENTS_PER_COMMAND.
Proof.
  unfold specOrder. destruct (sweep _ _ _) as [[fills left] opp].
  assert (Hone : ∀ e, eventIdOf e = specEventId run message (Z.of_nat (length fills)) →
    let events := tradeEvents run message s 0 (Msg.quantity message) fills ++ [e] in
    eventIdOf <$> events = eventIds run message (length events)).
  { intros e He events. unfold events, eventIds. rewrite fmap_app, length_app, tradeEvents_length.
    rewrite (tradeEvents_ids run message s fills 0), seq_app, fmap_app. simpl. by rewrite He. }
  destruct (bool_decide (MAX_EVENTS_PER_COMMAND < _)) eqn:Hmax; [done|].
  destruct (rest && _ && _); [done|]. apply bool_decide_eq_false in Hmax.
  case_bool_decide; [destruct rest|]; simpl.
  1,2: split; [by apply Hone|]; rewrite length_app, tradeEvents_length; simpl; lia.
  rewrite tradeEvents_length. split; [apply (tradeEvents_ids run message s fills 0)|lia].
Qed.

Lemma specProcess_ids run message books :
  let outcome := (specProcess run message books).1 in
  eventIdOf <$> Outcome.events outcome = eventIds run message (length (Outcome.events outcome)) ∧
  Z.of_nat (length (Outcome.events outcome)) ≤ MAX_EVENTS_PER_COMMAND.
Proof.
  assert (Hcancel : ∀ o, let outcome := (specCancel run message o books).1 in
    eventIdOf <$> Outcome.events outcome = eventIds run message (length (Outcome.events outcome)) ∧
    Z.of_nat (length (Outcome.events outcome)) ≤ MAX_EVENTS_PER_COMMAND).
  { intros o. unfold specCancel. destruct (findResting _ _) as [[? ?]|]; [|done]. by case_bool_decide. }
  unfold specProcess. destruct (Msg.type message); (apply specOrder_ids || apply Hcancel).
Qed.

Lemma specProcess_matches run message cc books :
  forallb (eventMatchesCorrelation
             (Correlation.mkCorrelation (Msg.clientId message) cc (Msg.globalSequenceNumber message) run))
    (Outcome.events (specProcess run message books).1) = true.
Proof.
  destruct (specProcess_ids run message books) as [Hids _].
  apply forallb_elem. intros e He.
  assert (eventIdOf e ∈ eventIdOf <$> Outcome.events (specProcess run message books).1) as Hid
    by (by apply list_elem_of_fmap_2).
  rewrite Hids in Hid. apply list_elem_of_fmap in Hid as (k & Hk & _).
  unfold eventMatchesCorrelation. rewrite Hk. simpl. by rewrite !bool_decide_eq_true_2.
Qed.

(** ** Commands *)
Definition correlationOf (run : ExchangeRunId) (message : sequenceMessage) : CommandResultCorrelation :=
  Correlation.mkCorrelation (Msg.clientId message) (default ""%string (Msg.clientCommandId message))
    (Msg.globalSequenceNumber message) run.

Definition specBatch (run : ExchangeRunId) (message : sequenceMessage) (books : Books) : CommandResultBatch :=
  let outcome := (specProcess run message books).1 in
  Batch.mkBatch (correlationOf run message) (Outcome.result outcome) (Outcome.events outcome).

Lemma processCommand_refines n st message :
  engine_ok n st → n ≤ Msg.globalSequenceNumber message → valid_command message →
  ∃ st', processCommand message st = (Ret (specBatch (State.exchangeRunId st) message (queueOf st)), st') ∧
    simulates st st' (Msg.globalSequenceNumber message)
      (specProcess (State.exchangeRunId st) message (queueOf st)).2.
Proof.
  intros Hok Hn Hv. destruct (processMessage_refines _ _ _ Hok Hn Hv) as (st' & Hrun & Hsim).
  destruct (valid_command_id _ Hv) as [cc Hcc]. exists st'. split; [|done].
  unfold processCommand, resultCorrelationFrom, specBatch, correlationOf. rewrite Hcc.
  pose proof (vm_sequence _ Hv). mrun. rewrite (bool_decide_eq_false_2 (Msg.clientId message = 0)) by (apply Hv).
  rewrite (bool_decide_eq_false_2 (Msg.globalSequenceNumber message = 0)) by lia. cbn. rewrite Hrun.
  unfold makeCommandResultBatch. by rewrite specProcess_matches.
Qed.

(** ** The engine stays ready *)
Lemma specProcess_other run message books i s :
  i ≠ Msg.instrumentId message → (specProcess run message books).2 i s = books i s.
Proof.
  intros Hi. assert (Hset : ∀ t q b, setQueue (Msg.instrumentId message) t q b i s = b i s).
  { intros. unfold setQueue. by rewrite bool_decide_eq_false_2 by (by intros []). }
  assert (Hcancel : ∀ o, (specCancel run message o books).2 i s = books i s).
  { intros o. unfold specCancel. destruct (findResting _ _) as [[? ?]|]; [|done].
    case_bool_decide; [|done]. simpl. by rewrite !Hset. }
  assert (Horder : ∀ t r, (specOrder run message t r books).2 i s = books i s).
  { intros t r. unfold specOrder. destruct (sweep _ _ _) as [[? ?] ?].
    repeat case_match; simpl; by rewrite ?Hset. }
  unfold specProcess. destruct (Msg.type message); auto.
Qed.

Lemma valid_command_instrument message :
  valid_command message → Msg.instrumentId message = Instrument.instrumentId SPY_V1.
Proof.
  intros Hv. destruct (vm_kind _ Hv) as [Ho|Hc];
    [pose proof (vo_instrument _ Ho) as (_ & ? & _)%findByIdentity_Some
    |pose proof (vc_instrument _ Hc) as (_ & ? & _)%findByIdentity_Some]; done.
Qed.

Lemma engine_ok_next n st st' message :
  engine_ok n st → n ≤ Msg.globalSequenceNumber message → valid_command message →
  simulates st st' (Msg.globalSequenceNumber message)
    (specProcess (State.exchangeRunId st) message (queueOf st)).2 →
  engine_ok (Msg.globalSequenceNumber message + 1) st'.
Proof.
  intros [Hwf Ho _ Hl] Hn Hv [Hwf' _ Hq Hnew]. pose proof (vm_sequence _ Hv). split; [done| |lia|].
  - intros o [->|Ha%Ho]%Hnew; lia.
  - intros i s Hi. rewrite Hq, specProcess_other by (by rewrite (valid_command_instrument _ Hv)). auto.
Qed.

Lemma engine_ok_new run : engine_ok 0 (newMatchingState run).
Proof.
  split.
  - split; simpl.
    + intros i b. by rewrite lookup_empty.
    + intros o a. rewrite lookup_empty. split; [done|].
      intros (i & s & x & Hx & _). unfold restingCells in Hx. simpl in Hx.
      rewrite lookup_empty in Hx. by apply elem_of_nil in Hx.
    + intros o a. by rewrite lookup_empty.
    + intros o o' a a'. by rewrite lookup_empty.
  - intros o. simpl. rewrite lookup_empty. by intros [].
  - unfold UINT64_MAX. lia.
  - intros i s _. unfold queueOf, restingCells. simpl. by rewrite lookup_empty.
Qed.
