(* ===== verification/MatchingAudit.v ===== *)
(** * The engine's inspection functions

    [invariantsHold] recomputes the consistency of books and index at run time;
    [snapshot] copies them out.  On a well-formed state the first succeeds and
    the second lists every level and every active order. *)
From S2P Require Import Prelude KeyedList Domain Matching MatchingSpec MatchingInv.
From S2P Require Import MatchingInv MatchingRun MatchingSweep MatchingRest.
From S2P Require Import MatchingRest MatchingRefine.

Lemma elem_of_sortedEntries {V} (m : gmap Z V) e : e ∈ sortedEntries m ↔ m !! e.1 = Some e.2.
Proof.
  unfold sortedEntries. rewrite merge_sort_Permutation. destruct e. by rewrite elem_of_map_to_list.
Qed.

(** ** Counting the resting orders *)
Lemma cells_place st i s c : c ∈ levelCells (levels s (bookAt st i)) ↔ ∃ p, (p, c) ∈ restingCells st i s.
Proof.
  rewrite levelCells_flat, restingCells_bookAt. split.
  - intros ([p c'] & -> & ?)%list_elem_of_fmap. eauto.
  - intros [p ?]. apply list_elem_of_fmap. by exists (p, c).
Qed.

Section count.
Context (st : MatchingState) (Hwf : wf st).

Lemma bookCells_place i b c :
  State.orderBooks st !! i = Some b → c ∈ bookCells b → ∃ s p, (p, c) ∈ restingCells st i s.
Proof.
  intros Hb%bookAt_Some. subst b. unfold bookCells. rewrite elem_of_app.
  intros [(p & Hp)%(cells_place st i Bids)|(p & Hp)%(cells_place st i Asks)]; eauto.
Qed.

Lemma levelCells_NoDup i s : NoDup (levelCells (levels s (bookAt st i))).
Proof.
  rewrite levelCells_flat. pose proof (resting_unique st Hwf i s) as Hu.
  rewrite restingCells_bookAt in Hu.
  apply (NoDup_fmap_1 (λ c : location * OrderNode, OrderNode.orderId c.2)).
  by rewrite <-list_fmap_compose.
Qed.

Lemma allCells_NoDup : NoDup (allCells st).
Proof.
  unfold allCells. apply NoDup_bind.
  - intros [i b] [i' b'] c Hb Hb' Hc Hc'. apply elem_of_map_to_list in Hb, Hb'. simpl in *.
    destruct (bookCells_place i b c Hb Hc) as (s & p & Hp).
    destruct (bookCells_place i' b' c Hb' Hc') as (s' & p' & Hp').
    destruct (wf_place st Hwf _ _ _ _ _ _ Hp Hp') as (-> & _); [done|]. by simplify_eq.
  - intros [i b] Hb. apply elem_of_map_to_list, bookAt_Some in Hb. subst b.
    apply NoDup_app. split_and!; [apply (levelCells_NoDup i Bids)| |apply (levelCells_NoDup i Asks)].
    intros c (p & Hp)%(cells_place st i Bids) (p' & Hp')%(cells_place st i Asks).
    by destruct (wf_place st Hwf _ _ _ _ _ _ Hp Hp') as (_ & ? & _).
  - apply NoDup_map_to_list.
Qed.

Lemma allCells_ids : NoDup ((λ c : location * OrderNode, OrderNode.orderId c.2) <$> allCells st).
Proof.
  apply NoDup_fmap_2_strong; [|apply allCells_NoDup].
  intros c c' (i & s & p & Hp)%elem_of_allCells (i' & s' & p' & Hp')%elem_of_allCells Hid.
  destruct (wf_place st Hwf _ _ _ _ _ _ Hp Hp' Hid) as (_ & _ & ?). by simplify_eq.
Qed.

Lemma index_size : size (State.activeOrders st) = length (allCells st).
Proof.
  rewrite <-(size_dom (D:=gset Z)).
  rewrite <-(length_fmap (λ c : location * OrderNode, OrderNode.orderId c.2) (allCells st)).
  rewrite <-(size_list_to_set (C:=gset Z)) by apply allCells_ids. f_equal. apply set_eq. intros o.
  rewrite elem_of_dom, elem_of_list_to_set, list_elem_of_fmap. split.
  - intros [a (i & s & [p c] & Hx & -> & _)%(wf_index _ Hwf)].
    exists c. split; [done|]. apply elem_of_allCells. by exists i, s, p.
  - intros (c & -> & (i & s & p & Hp)%elem_of_allCells).
    apply (wf_lookup st Hwf) in Hp. simpl in Hp. rewrite Hp. eauto.
Qed.
End count.

(** Order identifiers are command sequences, so there are fewer than 2^64. *)
Lemma index_bound n st : engine_ok n st → Z.of_nat (size (State.activeOrders st)) ≤ UINT64_MAX.
Proof.
  intros [Hwf Ho Hn _]. destruct (decide (0 ≤ n)) as [Hpos|Hneg].
  - assert (dom (State.activeOrders st) ⊆ (list_to_set (seqZ 0 n) : gset Z)) as Hsub.
    { intros o Ha%elem_of_dom%Ho. rewrite elem_of_list_to_set, elem_of_seqZ. lia. }
    apply subseteq_size in Hsub. rewrite size_dom, size_list_to_set in Hsub by apply NoDup_seqZ.
    rewrite length_seqZ in Hsub. unfold UINT64_MAX in *.
    assert (State.activeOrders st !! 0 = None) as H0.
    { apply eq_None_not_Some. intros ?%Ho. lia. }
    assert (0 ∉ dom (State.activeOrders st)) as H0' by (by apply not_elem_of_dom).
    destruct (decide (n = 0)) as [->|]; [simpl in Hsub; lia|].
    assert (dom (State.activeOrders st) ⊆ (list_to_set (seqZ 1 (n - 1)) : gset Z)) as Hsub'.
    { intros o Ha%elem_of_dom%Ho. rewrite elem_of_list_to_set, elem_of_seqZ. lia. }
    apply subseteq_size in Hsub'. rewrite size_dom, size_list_to_set in Hsub' by apply NoDup_seqZ.
    rewrite length_seqZ in Hsub'. lia.
  - assert (State.activeOrders st = ∅) as ->.
    { apply map_empty. intros o. apply eq_None_not_Some. intros ?%Ho. lia. }
    rewrite map_size_empty. unfold UINT64_MAX. lia.
Qed.

(** ** [invariantsHold] *)
Lemma sumRemaining_small orders : ∀ acc,
  0 ≤ acc → Forall (λ c : location * OrderNode, 0 < OrderNode.remainingQuantity c.2) orders →
  acc + sumQuantity orders ≤ UINT64_MAX →
  foldl (λ acc (c : location * OrderNode), wrap64 (acc + OrderNode.remainingQuantity c.2)) acc orders =
  acc + sumQuantity orders.
Proof.
  induction orders as [|c orders IH]; intros acc Hacc Hpos Hb; simpl in *; [lia|].
  apply Forall_cons_1 in Hpos as [Hc Hpos]. pose proof (sumQuantity_nonneg _ Hpos).
  rewrite wrap64_small by (unfold is_u64; lia). rewrite IH by (done || lia). lia.
Qed.

Lemma checkSide_holds st i s :
  wf st → checkSide st i (sideType s) (levels s (bookAt st i)) = true.
Proof.
  intros Hwf. apply forallb_elem. intros [p level] Hin.
  pose proof (bookAt_ok st i s Hwf) as Hm. pose proof (side_levels _ _ Hm) as Hl.
  rewrite Forall_forall in Hl. destruct (Hl _ Hin) as [Hne Hpos Ht Hb]. simpl in *.
  rewrite bool_decide_eq_true_2 by done. apply andb_true_iff. split.
  - apply forallb_elem. intros [l n] Hc. unfold nodeConsistent. simpl.
    rewrite Forall_forall in Hpos. specialize (Hpos _ Hc). simpl in Hpos.
    rewrite (bool_decide_eq_true_2 (_ ≠ 0)) by lia.
    assert (Hx : (p, (l, n)) ∈ restingCells st i s).
    { rewrite restingCells_bookAt. apply elem_of_flatLevels. by exists level. }
    apply (wf_lookup _ Hwf) in Hx. simpl in Hx. rewrite Hx. simpl.
    by rewrite !bool_decide_eq_true_2.
  - rewrite MAX_LEVEL_value in Hb. apply bool_decide_eq_true. unfold sumRemaining.
    rewrite sumRemaining_small; [lia|lia|done|unfold UINT64_MAX; lia].
Qed.

Lemma invariantsHold_ok n st : engine_ok n st → invariantsHold st = true.
Proof.
  intros Hok. pose proof (ok_wf _ _ Hok) as Hwf. unfold invariantsHold. apply andb_true_iff. split.
  - apply forallb_elem. intros [i b] Hb%elem_of_sortedEntries. simpl in Hb |- *.
    assert (bool_decide (Book.bids b = []) && bool_decide (Book.asks b = []) = false) as ->.
    { apply andb_false_iff. rewrite !bool_decide_eq_false. apply (book_nonempty _ (wf_books _ Hwf _ _ Hb)). }
    apply bookAt_Some in Hb. subst b.
    pose proof (checkSide_holds st i Bids Hwf) as Hbids. pose proof (checkSide_holds st i Asks Hwf) as Hasks.
    simpl in *. by rewrite Hbids, Hasks.
  - apply bool_decide_eq_true. pose proof (index_bound _ _ Hok) as Hb. rewrite index_size in * by done.
    rewrite wrap64_small; [done|]. unfold is_u64. lia.
Qed.

(** ** [snapshot] *)
Lemma mapOutcome_run {A B} (f : A → outcome B) (g : A → B) l :
  (∀ a, a ∈ l → f a = Ret (g a)) → mapOutcome f l = Ret (g <$> l).
Proof.
  induction l as [|a l IH]; intros Hf; [done|]. simpl. rewrite (Hf a) by (by left).
  rewrite outcome_bind_ret, IH; [done|]. intros b ?. apply Hf. by right.
Qed.

(** The levels and the active orders a snapshot of a well-formed state lists. *)
Definition activeSnapshot (e : Z * ActiveOrder) : Snapshot.ActiveOrderSnapshot :=
  Snapshot.mkActiveOrderSnapshot e.1 (Active.owner e.2) (Active.instrumentId e.2)
    (match Active.side e.2 with OrderType.SELL => Side.SELL | _ => Side.BUY end)
    (Active.price e.2) (Active.remainingQuantity e.2).

Lemma snapshot_active st :
  wf st → mapOutcome snapshotActive (sortedEntries (State.activeOrders st)) =
          Ret (activeSnapshot <$> sortedEntries (State.activeOrders st)).
Proof.
  intros Hwf. apply mapOutcome_run. intros [o a] Ha%elem_of_sortedEntries. simpl in Ha.
  apply (wf_index _ Hwf) in Ha as (i & s & x & _ & _ & ->). by destruct s.
Qed.

Lemma flatLevels_snapshot i side m :
  (snapshotLevels i side m ≫= λ l, (λ r, (Snapshot.levelPrice l, r)) <$> Snapshot.orders l) =
  (λ x : Z * OrderNode, (x.1, snapshotNode x.2)) <$> (dropLocation <$> flatLevels m).
Proof.
  induction m as [|[p level] m IH]; [done|].
  rewrite flatLevels_cons. unfold snapshotLevels in *. rewrite fmap_cons, bind_cons, IH, !fmap_app.
  f_equal. simpl. by rewrite <-!list_fmap_compose.
Qed.
