(* ===== verification/MatchingTheorems.v ===== *)
(** * Properties of the matching engine

    The statements are about [processCommand] and the states it reaches from
    [newMatchingState]; each follows from the refinement of [MatchingRefine.v]. *)
From S2P Require Import Prelude KeyedList Domain Matching MatchingSpec MatchingInv.
From S2P Require Import MatchingInv MatchingRun MatchingSweep MatchingRest.
From S2P Require Import MatchingRest MatchingRefine MatchingAudit.

(** ** Reading a batch *)
Definition tradeOf (e : BusinessEvent) : option Trade :=
  match e with EvTrade t => Some t | _ => None end.

Definition tradesOf (events : list BusinessEvent) : list Trade := omap tradeOf events.

Definition tradedQuantity (events : list BusinessEvent) : Z :=
  foldr (λ t acc, Trade.executionQuantity t + acc) 0 (tradesOf events).

(** The quantity a terminal event of a new order leaves resting or cancels. *)
Definition terminalQuantity (e : BusinessEvent) : Z :=
  match e with
  | EvRested r => Rested.remainingQuantity r
  | EvCancelled c => Cancelled.cancelledQuantity c
  | _ => 0
  end.

Definition unmatchedQuantity (events : list BusinessEvent) : Z :=
  foldr (λ e acc, terminalQuantity e + acc) 0 events.

Definition queueQuantity (queue : list (Z * OrderNode)) : Z :=
  foldr (λ x acc, OrderNode.remainingQuantity x.2 + acc) 0 queue.

(** ** States the engine reaches *)
Inductive reachable (run : ExchangeRunId) : CommandSequence → MatchingState → Prop :=
  | reach_new : reachable run 0 (newMatchingState run)
  | reach_command n st message batch st' :
      reachable run n st → n ≤ Msg.globalSequenceNumber message → valid_command message →
      processCommand message st = (Ret batch, st') →
      reachable run (Msg.globalSequenceNumber message + 1) st'.

Lemma reachable_engine_ok run n st : reachable run n st → engine_ok n st ∧ State.exchangeRunId st = run.
Proof.
  induction 1 as [|n st message batch st' _ [Hok Hrun] Hn Hv Hcmd]; [by split; [apply engine_ok_new|]|].
  destruct (processCommand_refines n st message Hok Hn Hv) as (st2 & Hcmd2 & Hsim).
  rewrite Hcmd in Hcmd2. simplify_eq. split; [by eapply engine_ok_next|by rewrite (sim_run _ _ _ _ Hsim)].
Qed.

(** ** Facts about sweeps *)
Definition fillsQuantity (fills : list Fill) : Z := foldr (λ f acc, Fill.quantity f + acc) 0 fills.

Section sweep_facts.
Context (acceptable : Price → bool).

Lemma sweep_quantity queue : ∀ r fills r' queue',
  sweep acceptable r queue = (fills, r', queue') →
  fillsQuantity fills + r' = r ∧ queueQuantity queue' + fillsQuantity fills = queueQuantity queue.
Proof.
  induction queue as [|[p n] queue IH]; intros r fills r' queue' Hs; simpl in Hs.
  { simplify_eq. simpl. lia. }
  destruct (_ && _); [|simplify_eq; simpl; lia].
  case_bool_decide; [simplify_eq; simpl; lia|].
  destruct (sweep _ _ queue) as [[f x] y] eqn:E. simplify_eq. apply IH in E. simpl. lia.
Qed.

(** The makers are the head of the queue, in order, each at its own price. *)
Lemma sweep_makers queue : ∀ r fills r' queue',
  sweep acceptable r queue = (fills, r', queue') →
  (λ f, (Fill.price f, Fill.maker f)) <$> fills = take (length fills) queue ∧
  Forall (λ f, acceptable (Fill.price f) = true ∧ Fill.quantity f ≤ OrderNode.remainingQuantity (Fill.maker f)) fills.
Proof.
  induction queue as [|[p n] queue IH]; intros r fills r' queue' Hs; simpl in Hs; [by simplify_eq|].
  destruct (_ && _) eqn:E; [|by simplify_eq]. apply andb_true_iff in E as [_ Hacc].
  case_bool_decide as Hq; [simplify_eq; simpl|].
  - split; [done|]. constructor; [simpl; split; [done|lia]|done].
  - destruct (sweep _ _ queue) as [[f x] y] eqn:E. simplify_eq. apply IH in E as [Hm Hf].
    split; [rewrite fmap_cons, Hm; done|]. constructor; [simpl; split; [done|lia]|done].
Qed.

(** Only the last maker can keep a remainder. *)
Lemma sweep_full queue : ∀ r fills r' queue' k f,
  sweep acceptable r queue = (fills, r', queue') → fills !! k = Some f →
  (Datatypes.S k < length fills)%nat → Fill.quantity f = OrderNode.remainingQuantity (Fill.maker f).
Proof.
  induction queue as [|[p n] queue IH]; intros r fills r' queue' k f Hs Hk Hlen; simpl in Hs; [by simplify_eq|].
  destruct (_ && _); [|by simplify_eq].
  case_bool_decide as Hq; [simplify_eq; simpl in Hlen; lia|].
  destruct (sweep _ _ queue) as [[fs x] y] eqn:E. simplify_eq.
  destruct k as [|k]; simpl in *; [simplify_eq; simpl in *; lia|].
  eapply IH; [done|done|lia].
Qed.

(** What stays: the rest of the queue behind at most one reduced order. *)
Lemma sweep_rest queue : ∀ r fills r' queue',
  sweep acceptable r queue = (fills, r', queue') →
  queue' = drop (length fills) queue ∨
  ∃ f, last fills = Some f ∧ Fill.quantity f < OrderNode.remainingQuantity (Fill.maker f) ∧
    queue' = (Fill.price f, withRemaining (OrderNode.remainingQuantity (Fill.maker f) - Fill.quantity f)
                              (Fill.maker f)) :: drop (length fills) queue.
Proof.
  induction queue as [|[p n] queue IH]; intros r fills r' queue' Hs; simpl in Hs; [simplify_eq; by left|].
  destruct (_ && _); [|simplify_eq; by left].
  case_bool_decide as Hq; [simplify_eq; right; eexists; by split_and!|].
  destruct (sweep _ _ queue) as [[fs x] y] eqn:E. simplify_eq.
  apply IH in E as [->|(f & Hlast & Hf & ->)]; [by left|right].
  exists f. split_and!; [|done|done]. rewrite last_cons. by rewrite Hlast.
Qed.
End sweep_facts.

(** ** What the events of a new order say about its fills *)
Lemma tradesOf_app l1 l2 : tradesOf (l1 ++ l2) = tradesOf l1 ++ tradesOf l2.
Proof. apply omap_app. Qed.

Lemma tradedQuantity_app l1 l2 : tradedQuantity (l1 ++ l2) = tradedQuantity l1 + tradedQuantity l2.
Proof.
  unfold tradedQuantity. rewrite tradesOf_app. induction (tradesOf l1) as [|t l IH]; simpl; lia.
Qed.

Lemma unmatchedQuantity_app l1 l2 : unmatchedQuantity (l1 ++ l2) = unmatchedQuantity l1 + unmatchedQuantity l2.
Proof. unfold unmatchedQuantity. induction l1 as [|t l IH]; simpl; lia. Qed.

Section trade_events.
Context (run : ExchangeRunId) (message : sequenceMessage) (s : BookSide).

Lemma tradeEvents_quantity fills : ∀ index r,
  tradedQuantity (tradeEvents run message s index r fills) = fillsQuantity fills ∧
  unmatchedQuantity (tradeEvents run message s index r fills) = 0.
Proof.
  induction fills as [|f fills IH]; intros index r; [done|].
  destruct (IH (index + 1) (r - Fill.quantity f)) as [IH1 IH2].
  unfold tradedQuantity, unmatchedQuantity in *. simpl. lia.
Qed.

Lemma tradeEvents_lookup fills : ∀ index r k t,
  tradesOf (tradeEvents run message s index r fills) !! k = Some t →
  ∃ f, fills !! k = Some f ∧ Trade.executionPrice t = Fill.price f ∧
    Trade.makerOrderId t = OrderNode.orderId (Fill.maker f) ∧
    Trade.makerClientId t = OrderNode.owner (Fill.maker f) ∧
    Trade.executionQuantity t = Fill.quantity f ∧
    Trade.makerRemainingQuantity t = OrderNode.remainingQuantity (Fill.maker f) - Fill.quantity f.
Proof.
  induction fills as [|f fills IH]; intros index r [|k] t; simpl; intros Ht; [done|done| |].
  - simplify_eq. by exists f.
  - by apply IH in Ht.
Qed.

Lemma tradesOf_length fills index r :
  length (tradesOf (tradeEvents run message s index r fills)) = length fills.
Proof. revert index r. induction fills; intros; simpl; auto. Qed.
End trade_events.

(** An applied order: its fills, its trades and the opposite queue it leaves. *)
Record applied_order (run : ExchangeRunId) (message : sequenceMessage) (s : BookSide) (books : Books)
    (events : list BusinessEvent) (books' : Books) : Prop := mkApplied {
  ap_fills : ∃ fills left tail,
    sweep (acceptableFor s (Msg.price message)) (Msg.quantity message)
      (books (Msg.instrumentId message) (opposite s)) =
      (fills, left, books' (Msg.instrumentId message) (opposite s)) ∧
    events = tradeEvents run message s 0 (Msg.quantity message) fills ++ tail ∧
    tradesOf tail = [] ∧ unmatchedQuantity tail = left }.

Lemma specOrder_applied run message s rest books :
  let spec := specOrder run message s rest books in
  0 ≤ Msg.quantity message → (∀ i s, Forall positive (books i s)) →
  Outcome.result spec.1 = Processing.APPLIED →
  applied_order run message s books (Outcome.events spec.1) spec.2.
Proof.
  intros spec Hq Hpos Hres. unfold spec, specOrder in *. clear spec. constructor.
  destruct (sweep _ _ _) as [[fills left] opp] eqn:Hs. exists fills, left.
  destruct (sweep_bounds _ _ _ _ _ _ Hq (Hpos _ _) Hs) as [Hleft _].
  assert (Hne : ∀ q books0, setQueue (Msg.instrumentId message) s q books0 (Msg.instrumentId message) (opposite s) =
            books0 (Msg.instrumentId message) (opposite s)).
  { intros. unfold setQueue. rewrite bool_decide_eq_false_2; [done|]. destruct s; by intros []. }
  case_bool_decide; [done|]. destruct (rest && _ && _); [done|].
  case_bool_decide as Hpos'; [destruct rest|]; simpl; rewrite ?Hne, setQueue_same.
  - eexists [_]. split_and!; [done|done|done|]. unfold unmatchedQuantity. simpl. lia.
  - eexists [_]. split_and!; [done|done|done|]. unfold unmatchedQuantity. simpl. lia.
  - exists []. rewrite app_nil_r. split_and!; [done|done|done|]. unfold unmatchedQuantity. simpl. lia.
Qed.

(** The view of an applied order every property below starts from. *)
Lemma processCommand_applied n st message s batch st' :
  engine_ok n st → n ≤ Msg.globalSequenceNumber message → valid_command message →
  restingSide (Msg.type message) = Some s →
  processCommand message st = (Ret batch, st') → Batch.result batch = Processing.APPLIED →
  applied_order (State.exchangeRunId st) message s (queueOf st) (Batch.events batch) (queueOf st').
Proof.
  intros Hok Hn Hv Hs Hcmd Hres.
  destruct (processCommand_refines n st message Hok Hn Hv) as (st2 & Hcmd2 & Hsim).
  rewrite Hcmd in Hcmd2. simplify_eq. unfold specBatch in Hres |- *. simpl in *.
  rewrite (specProcess_order _ _ s) in * by done.
  assert (Hq : 0 ≤ Msg.quantity message).
  { destruct (vm_kind _ Hv) as [Ho|Hc]; [apply (vo_quantity _ Ho)|].
    rewrite (vc_type _ Hc) in Hs. done. }
  apply specOrder_applied in Hres as [(fills & left & tail & Hsweep & Hrest)];
    [|done|intros; by apply queue_positive, (ok_wf n)].
  constructor. exists fills, left, tail. by rewrite (sim_queue _ _ _ _ Hsim).
Qed.

(** ** A concrete engine for the witnesses *)
Definition demoMessage (type : orderType) (sequence client : Z) (command : string) (price quantity : Z)
    (tif : TimeInForce) : sequenceMessage :=
  Msg.mkSequenceMessage sequence None sequence client (Some command) 1 1 price quantity "SPY" type 0 0 tif.

Definition demoCancel (sequence client target : Z) (command : string) : sequenceMessage :=
  Msg.mkSequenceMessage 0 (Some target) sequence client (Some command) 1 1 0 0 "SPY" OrderType.CANCEL 0 0 TIF.GTC.

Definition demoSell : sequenceMessage := demoMessage OrderType.SELL 1 10 "s1" 100 5 TIF.GTC.
Definition demoBuy : sequenceMessage := demoMessage OrderType.BUY 2 20 "b1" 101 8 TIF.GTC.

Definition afterCommand (message : sequenceMessage) (st : MatchingState) : MatchingState :=
  (processCommand message st).2.

(** One resting sell order of five at 100. *)
Definition demoState : MatchingState := afterCommand demoSell (newMatchingState 7).

Lemma demoMessage_valid type sequence client command price quantity tif :
  restingSide type ≠ None → tif = TIF.GTC ∨ tif = TIF.IOC → is_u64 quantity → 0 < sequence ≤ UINT64_MAX → client ≠ 0 →
  valid_command (demoMessage type sequence client command price quantity tif).
Proof. intros. split; [done|done|done|left]. by split. Qed.

Lemma demoCancel_valid sequence client target command :
  0 < sequence ≤ UINT64_MAX → client ≠ 0 → valid_command (demoCancel sequence client target command).
Proof. intros. split; [done|done|done|right]. by split. Qed.

Ltac demo_auto := first [done | by left | by right | split; unfold UINT64_MAX; lia].

Lemma demoSell_valid : valid_command demoSell.
Proof. apply demoMessage_valid; demo_auto. Qed.

Lemma demoBuy_valid : valid_command demoBuy.
Proof. apply demoMessage_valid; demo_auto. Qed.

Lemma demo_reachable : reachable 7 2 demoState.
Proof.
  apply (reach_command 7 0 (newMatchingState 7) demoSell (specBatch 7 demoSell (queueOf (newMatchingState 7)))).
  - constructor.
  - simpl. lia.
  - apply demoSell_valid.
  - vm_compute. reflexivity.
Qed.

Lemma demo_ok : engine_ok 2 demoState.
Proof. by destruct (reachable_engine_ok _ _ _ demo_reachable). Qed.

(** ** The properties *)

(** C1: on every valid command the engine returns normally, reports exactly the
    batch the abstract price-time specification computes, leaves exactly the
    abstract books that specification computes, and is ready for the next
    command (its representation invariant still holds). *)
Theorem engine_refines_specification n st message :
  engine_ok n st → n ≤ Msg.globalSequenceNumber message → valid_command message →
  ∃ st', processCommand message st =
      (Ret (specBatch (State.exchangeRunId st) message (queueOf st)), st') ∧
    (∀ i s, queueOf st' i s = (specProcess (State.exchangeRunId st) message (queueOf st)).2 i s) ∧
    engine_ok (Msg.globalSequenceNumber message + 1) st'.
Proof.
  intros Hok Hn Hv. destruct (processCommand_refines n st message Hok Hn Hv) as (st' & Hrun & Hsim).
  exists st'. split_and!; [done|apply Hsim|by eapply engine_ok_next].
Qed.

Lemma engine_refines_specification_witness :
  ∃ st', processCommand demoBuy demoState = (Ret (specBatch 7 demoBuy (queueOf demoState)), st') ∧
    (∀ i s, queueOf st' i s = (specProcess 7 demoBuy (queueOf demoState)).2 i s) ∧ engine_ok 3 st'.
Proof. apply (engine_refines_specification 2 demoState demoBuy); [apply demo_ok|simpl; lia|apply demoBuy_valid]. Defined.

(** C14: every state the engine reaches, whatever valid commands it has processed,
    is consistent: no book is crossed (every bid price is below every ask price),
    and the engine's own check [invariantsHold] succeeds. *)
Theorem reachable_states_are_consistent run n st : reachable run n st →
  (∀ i b p q, State.orderBooks st !! i = Some b → p ∈ (Book.bids b).*1 → q ∈ (Book.asks b).*1 → p < q) ∧
  invariantsHold st = true.
Proof.
  intros [Hok _]%reachable_engine_ok. split; [|by eapply invariantsHold_ok].
  intros i b p q Hb. by apply (book_uncrossed _ (wf_books _ (ok_wf _ _ Hok) _ _ Hb)).
Qed.

Definition demoBid : sequenceMessage := demoMessage OrderType.BUY 2 20 "b1" 99 8 TIF.GTC.

Lemma demoBid_valid : valid_command demoBid.
Proof. apply demoMessage_valid; demo_auto. Qed.

Lemma reachable_states_are_consistent_witness :
  99 < 100 ∧ invariantsHold (afterCommand demoBid demoState) = true.
Proof.
  destruct (reachable_states_are_consistent 7 3 (afterCommand demoBid demoState)) as [Huncrossed Hholds].
  - apply (reach_command 7 2 demoState demoBid (specBatch 7 demoBid (queueOf demoState)));
      [apply demo_reachable|simpl; lia|apply demoBid_valid|vm_compute; reflexivity].
  - split; [|exact Hholds]. apply (Huncrossed 1 (bookAt (afterCommand demoBid demoState) 1) 99 100).
    + vm_compute. reflexivity.
    + apply (bool_decide_unpack _). vm_compute. exact I.
    + apply (bool_decide_unpack _). vm_compute. exact I.
Defined.

(** C15: price-time priority.  The trades of an applied order name, in order, the
    first resting orders of the opposite queue, each at its own price; every
    maker but the last is filled; what stays is the rest of the queue behind at
    most one reduced order; and an order left with a remainder leaves no
    acceptable price on the opposite side. *)
Theorem matching_respects_priority n st message s batch st' :
  engine_ok n st → n ≤ Msg.globalSequenceNumber message → valid_command message →
  restingSide (Msg.type message) = Some s →
  processCommand message st = (Ret batch, st') → Batch.result batch = Processing.APPLIED →
  let queue := queueOf st (Msg.instrumentId message) (opposite s) in
  let queue' := queueOf st' (Msg.instrumentId message) (opposite s) in
  let trades := tradesOf (Batch.events batch) in
  (∀ k t, trades !! k = Some t →
     ∃ x, queue !! k = Some x ∧ Trade.executionPrice t = x.1 ∧
       Trade.makerOrderId t = OrderNode.orderId x.2 ∧ Trade.makerClientId t = OrderNode.owner x.2 ∧
       acceptableFor s (Msg.price message) x.1 = true ∧
       Trade.executionQuantity t ≤ OrderNode.remainingQuantity x.2 ∧
       ((Datatypes.S k < length trades)%nat → Trade.executionQuantity t = OrderNode.remainingQuantity x.2)) ∧
  (queue' = drop (length trades) queue ∨
   ∃ p node r, 0 < r ∧ queue !! pred (length trades) = Some (p, node) ∧
     queue' = (p, withRemaining r node) :: drop (length trades) queue) ∧
  (0 < unmatchedQuantity (Batch.events batch) →
   ∀ x, head queue' = Some x → acceptableFor s (Msg.price message) x.1 = false).
Proof.
  intros Hok Hn Hv Hs Hcmd Hres queue queue' trades.
  destruct (processCommand_applied _ _ _ _ _ _ Hok Hn Hv Hs Hcmd Hres)
    as [(fills & left & tail & Hsweep & Hevents & Htail & Hun)].
  fold queue in Hsweep. fold queue' in Hsweep.
  assert (Ht : trades = tradesOf (tradeEvents (State.exchangeRunId st) message s 0 (Msg.quantity message) fills))
    by (unfold trades; by rewrite Hevents, tradesOf_app, Htail, app_nil_r).
  assert (Hlen : length trades = length fills) by (by rewrite Ht, tradesOf_length).
  destruct (sweep_makers _ _ _ _ _ _ Hsweep) as [Hmakers Hfills]. rewrite Forall_lookup in Hfills.
  assert (Hmaker : ∀ k f, fills !! k = Some f → queue !! k = Some (Fill.price f, Fill.maker f)).
  { intros k f Hf. pose proof (f_equal (.!! k) Hmakers) as Hk. simpl in Hk.
    rewrite list_lookup_fmap, Hf, lookup_take_lt in Hk by (by eapply lookup_lt_Some). done. }
  split; [|split].
  - intros k t Hk. rewrite Ht in Hk. apply tradeEvents_lookup in Hk as (f & Hf & Hp & Hid & Howner & Hq & _).
    exists (Fill.price f, Fill.maker f). destruct (Hfills _ _ Hf) as [Hacc Hle].
    split_and!; try done; [by apply Hmaker|by rewrite Hq|].
    rewrite Hlen, Hq. intros Hlast. by eapply sweep_full.
  - rewrite Hlen. destruct (sweep_rest _ _ _ _ _ _ Hsweep) as [->|(f & Hlast & Hr & ->)]; [by left|right].
    exists (Fill.price f), (Fill.maker f), (OrderNode.remainingQuantity (Fill.maker f) - Fill.quantity f).
    split_and!; [lia| |done]. apply Hmaker. by rewrite <-last_lookup.
  - intros Hpos x Hx. rewrite Hevents, unmatchedQuantity_app in Hpos.
    rewrite (proj2 (tradeEvents_quantity _ _ _ fills _ _)), Hun in Hpos.
    pose proof (sweep_stops _ _ _ _ _ _ Hsweep ltac:(lia)) as Hstop. by destruct queue'; simplify_eq/=.
Qed.

Lemma matching_respects_priority_witness :
  ∃ x, queueOf demoState 1 Asks !! 0%nat = Some x ∧ OrderNode.orderId x.2 = 1 ∧
    acceptableFor Bids 101 x.1 = true.
Proof.
  pose proof (matching_respects_priority 2 demoState demoBuy Bids (specBatch 7 demoBuy (queueOf demoState))
    (afterCommand demoBuy demoState) demo_ok ltac:(simpl; lia) demoBuy_valid ltac:(reflexivity)
    ltac:(vm_compute; reflexivity) ltac:(vm_compute; reflexivity)) as [Htrades _].
  destruct (Htrades 0%nat _ ltac:(vm_compute; reflexivity)) as (x & Hx & _ & Hid & _ & Hacc & _).
  exists x. split; [exact Hx|]. split; [symmetry; exact Hid|exact Hacc].
Defined.

(** C16: quantity is conserved.  The executed quantity of an applied order plus
    the quantity that rests or is cancelled is the quantity ordered, and the
    opposite side loses exactly the executed quantity. *)
Theorem matching_conserves_quantity n st message s batch st' :
  engine_ok n st → n ≤ Msg.globalSequenceNumber message → valid_command message →
  restingSide (Msg.type message) = Some s →
  processCommand message st = (Ret batch, st') → Batch.result batch = Processing.APPLIED →
  tradedQuantity (Batch.events batch) + unmatchedQuantity (Batch.events batch) = Msg.quantity message ∧
  queueQuantity (queueOf st' (Msg.instrumentId message) (opposite s)) + tradedQuantity (Batch.events batch) =
  queueQuantity (queueOf st (Msg.instrumentId message) (opposite s)).
Proof.
  intros Hok Hn Hv Hs Hcmd Hres.
  destruct (processCommand_applied _ _ _ _ _ _ Hok Hn Hv Hs Hcmd Hres)
    as [(fills & left & tail & Hsweep & -> & Htail & Hun)].
  rewrite tradedQuantity_app, unmatchedQuantity_app.
  destruct (tradeEvents_quantity (State.exchangeRunId st) message s fills 0 (Msg.quantity message)) as [-> ->].
  assert (tradedQuantity tail = 0) as -> by (unfold tradedQuantity; by rewrite Htail).
  destruct (sweep_quantity _ _ _ _ _ _ Hsweep). lia.
Qed.

Lemma matching_conserves_quantity_witness :
  let batch := specBatch 7 demoBuy (queueOf demoState) in
  tradedQuantity (Batch.events batch) + unmatchedQuantity (Batch.events batch) = 8.
Proof.
  pose proof (matching_conserves_quantity 2 demoState demoBuy Bids (specBatch 7 demoBuy (queueOf demoState))
    (afterCommand demoBuy demoState) demo_ok ltac:(simpl; lia) demoBuy_valid ltac:(reflexivity)
    ltac:(vm_compute; reflexivity) ltac:(vm_compute; reflexivity)) as [H _].
  exact H.
Defined.

(** ** Commands that change nothing *)
Lemma processOrder_rejected message (rest : bool) st outcome st' :
  processOrder message rest st = (Ret outcome, st') →
  Outcome.result outcome = Processing.BOOK_CAPACITY_EXCEEDED →
  st' = st ∧ rejectBookCapacity message st = Ret outcome.
Proof.
  intros Hrun Hres. unfold processOrder in Hrun.
  apply M_bind_inv in Hrun as (plan & s1 & [_ ->]%liftM_inv & Hrun).
  apply M_bind_inv in Hrun as (planned & s2 & [_ ->]%liftM_inv & Hrun).
  destruct (bool_decide (MAX_EVENTS_PER_COMMAND < planned)).
  { by apply liftM_inv in Hrun as [? ->]. }
  apply M_bind_inv in Hrun as (fits & s3 & Hfits & Hrun).
  assert (s3 = st) as -> by (destruct rest; [by apply liftM_inv in Hfits as [_ ->]|by injection Hfits]).
  destruct (negb fits); [by apply liftM_inv in Hrun as [? ->]|].
  apply M_bind_inv in Hrun as ([] & s4 & _ & Hrun).
  apply M_bind_inv in Hrun as ([remaining events] & s5 & _ & Hrun).
  apply throw_ifM_inv in Hrun as [_ Hrun].
  apply M_bind_inv in Hrun as (events' & s6 & _ & Hrun).
  apply throw_ifM_inv in Hrun as [_ Hrun]. by injection Hrun as <- <-.
Qed.

Lemma processCancel_applied message st outcome st' :
  processCancel message st = (Ret outcome, st') → Outcome.result outcome = Processing.APPLIED.
Proof.
  assert (Hreject : ∀ target reason st0, rejectCancel message target reason st0 = Ret outcome →
            Outcome.result outcome = Processing.APPLIED).
  { intros target reason st0. unfold rejectCancel. destruct (makeEventId _ _ _); simpl; [|done].
    destruct (Msg.clientCommandId message); intros Heq; simplify_eq/=; done. }
  unfold processCancel. intros [_ Hrun]%throw_ifM_inv. apply throw_ifM_inv in Hrun as [_ Hrun].
  apply M_bind_inv in Hrun as (st1 & s1 & _ & Hrun).
  destruct (State.activeOrders st1 !! _) as [a|]; [|apply liftM_inv in Hrun as [? _]; by eapply Hreject].
  destruct (bool_decide (Active.owner a ≠ _)); [apply liftM_inv in Hrun as [? _]; by eapply Hreject|].
  apply throw_ifM_inv in Hrun as [_ Hrun].
  apply M_bind_inv in Hrun as (id & s2 & _ & Hrun).
  apply M_bind_inv in Hrun as ([] & s3 & _ & Hrun). by injection Hrun as <- <-.
Qed.

(** A command rejected for book capacity. *)
Lemma capacity_rejected message st batch st' :
  processCommand message st = (Ret batch, st') →
  Batch.result batch = Processing.BOOK_CAPACITY_EXCEEDED →
  st' = st ∧
  Batch.events batch =
    [specReject (State.exchangeRunId st) message CmdType.NEW_ORDER (Msg.orderId message)
       BOOK_CAPACITY_EXCEEDED].
Proof.
  intros Hrun Hres. unfold processCommand in Hrun.
  apply M_bind_inv in Hrun as (correlation & s1 & [Hc ->]%liftM_inv & Hrun).
  apply M_bind_inv in Hrun as (outcome & s2 & Hmsg & [Hb ->]%liftM_inv).
  assert (Hbatch : Batch.result batch = Outcome.result outcome ∧ Batch.events batch = Outcome.events outcome).
  { unfold makeCommandResultBatch, throw_if in Hb. by destruct (negb _); simplify_eq/=. }
  destruct Hbatch as [Hr He]. rewrite Hr in Hres.
  destruct (Msg.clientCommandId message) as [cc|] eqn:Hcc;
    [|unfold resultCorrelationFrom in Hc; by rewrite Hcc in Hc].
  destruct (restingSide (Msg.type message)) as [s|] eqn:Hs.
  - rewrite (processMessage_order _ s Hs) in Hmsg. unfold processRestableOrder in Hmsg.
    apply throw_ifM_inv in Hmsg as [_ Hmsg].
    apply M_bind_inv in Hmsg as (st1 & s1' & Hget & Hmsg). unfold getM in Hget. simplify_eq.
    apply throw_ifM_inv in Hmsg as [_ Hmsg].
    apply processOrder_rejected in Hmsg as [-> Hreject]; [|done].
    rewrite (rejectBookCapacity_run _ _ cc Hcc) in Hreject. simplify_eq/=. by rewrite He.
  - unfold processMessage in Hmsg. destruct (Msg.type message); try done.
    apply processCancel_applied in Hmsg. congruence.
Qed.

(** A book whose level at 100 is full. *)
Definition fullSell (k : Z) : sequenceMessage :=
  demoMessage OrderType.SELL k 10 "big" 100 (if bool_decide (k = 1) then 1000000000 else 1) TIF.GTC.

(** The events of a command are numbered 0, 1, 2, ... within the command's
    sequence and run, and there are at most 4096 of them. *)
Theorem event_identities n st message batch st' :
  engine_ok n st → n ≤ Msg.globalSequenceNumber message → valid_command message →
  processCommand message st = (Ret batch, st') →
  (∀ k e, Batch.events batch !! k = Some e →
     eventIdOf e = EventId.mkEventId (Msg.globalSequenceNumber message) (Z.of_nat k) (State.exchangeRunId st)) ∧
  Z.of_nat (length (Batch.events batch)) ≤ MAX_EVENTS_PER_COMMAND.
Proof.
  intros Hok Hn Hv Hcmd. destruct (processCommand_refines n st message Hok Hn Hv) as (st2 & Hcmd2 & _).
  rewrite Hcmd in Hcmd2. simplify_eq. simpl.
  destruct (specProcess_ids (State.exchangeRunId st) message (queueOf st)) as [Hids Hmax].
  split; [|done]. intros k e He. apply (f_equal (.!! k)) in Hids. revert Hids. unfold eventIds.
  rewrite !list_lookup_fmap, He, lookup_seq_lt by (by eapply lookup_lt_Some).
  by intros [= ->].
Qed.

Lemma event_identities_witness :
  Z.of_nat (length (Batch.events (specBatch 7 demoBuy (queueOf demoState)))) ≤ 4096.
Proof.
  pose proof (event_identities 2 demoState demoBuy (specBatch 7 demoBuy (queueOf demoState))
    (afterCommand demoBuy demoState) demo_ok ltac:(simpl; lia) demoBuy_valid ltac:(vm_compute; reflexivity))
    as [_ H]. exact H.
Defined.

(** Cancellation on every branch.  A target that does not rest is rejected
    as not active, one that rests for another client as not owned, and neither
    changes a book; the owner's cancel reports the whole remaining quantity and
    removes exactly that order from both the books and the index. *)
Theorem cancel_behaviour n st message batch st' o :
  engine_ok n st → n ≤ Msg.globalSequenceNumber message → valid_command message → valid_cancel message →
  Msg.targetOrderId message = Some o → processCommand message st = (Ret batch, st') →
  let i := Msg.instrumentId message in
  let run := State.exchangeRunId st in
  ((∀ s x, x ∈ queueOf st i s → OrderNode.orderId x.2 ≠ o) →
     Batch.events batch = [specReject run message CmdType.CANCEL o ORDER_NOT_ACTIVE] ∧
     (∀ j s, queueOf st' j s = queueOf st j s)) ∧
  (∀ s x, x ∈ queueOf st i s → OrderNode.orderId x.2 = o → OrderNode.owner x.2 ≠ Msg.clientId message →
     Batch.events batch = [specReject run message CmdType.CANCEL o NOT_OWNER] ∧
     (∀ j s, queueOf st' j s = queueOf st j s)) ∧
  (∀ s x, x ∈ queueOf st i s → OrderNode.orderId x.2 = o → OrderNode.owner x.2 = Msg.clientId message →
     Batch.events batch =
       [EvCancelled (Cancelled.mkOrderCancelled (specEventId run message 0) o (Msg.clientId message) i
          (OrderNode.remainingQuantity x.2) CLIENT_REQUESTED)] ∧
     (∀ s', queueOf st' i s' = removeResting o (queueOf st i s')) ∧
     State.activeOrders st' !! o = None).
Proof.
  intros Hok Hn Hv Hc Ho Hcmd i run.
  destruct (processCommand_refines n st message Hok Hn Hv) as (st2 & Hcmd2 & [Hwf' _ Hq _]).
  rewrite Hcmd in Hcmd2. injection Hcmd2 as -> <-. simpl Batch.events.
  unfold specProcess in Hq |- *. rewrite (vc_type _ Hc), Ho in *. simpl default in *.
  unfold specCancel in Hq |- *. fold i run in Hq |- *.
  split; [|split].
  - intros Habsent. rewrite findResting_None in Hq |- * by (intros y [s Hy]%elem_of_sides; by eapply Habsent).
    by split.
  - intros s [p x] Hx Hid Hother. pose proof (findResting_place st i s _ (ok_wf _ _ Hok) Hx) as Hf.
    rewrite Hid in Hf. rewrite Hf in Hq |- *. simpl in Hother.
    rewrite (bool_decide_eq_false_2 (OrderNode.owner x = _)) in Hq |- * by done. by split.
  - intros s [p x] Hx Hid Howner. pose proof (findResting_place st i s _ (ok_wf _ _ Hok) Hx) as Hf.
    rewrite Hid in Hf. rewrite Hf in Hq |- *. simpl in Howner.
    rewrite (bool_decide_eq_true_2 (OrderNode.owner x = _)) in Hq |- * by done. simpl in Hq.
    assert (Hq' : ∀ s', queueOf st' i s' = removeResting o (queueOf st i s')).
    { intros s'. rewrite Hq. unfold setQueue. by destruct s'; repeat case_bool_decide; destruct_and?; naive_solver. }
    split_and!; [done|done|]. apply eq_None_not_Some. intros Ha.
    apply (active_queue st' o Hwf') in Ha as (j & s' & y & Hy & Hyo).
    rewrite Hq in Hy. simpl in Hy. unfold setQueue in Hy. fold i in Hy.
    assert (y ∉ removeResting o (queueOf st i s')) as Hgone
      by (unfold removeResting; rewrite list_elem_of_filter; naive_solver).
    destruct (decide (j = i)) as [->|Hj].
    + destruct s'; repeat case_bool_decide; destruct_and?; naive_solver.
    + rewrite !bool_decide_eq_false_2 in Hy by (by intros []).
      destruct (queue_place st j s' y i s (p, x) (ok_wf _ _ Hok) Hy Hx) as (-> & _); [by rewrite Hid|done].
Qed.

Lemma cancel_behaviour_witness :
  State.activeOrders (afterCommand (demoCancel 2 10 1 "c1") demoState) !! 1 = None.
Proof.
  pose proof (cancel_behaviour 2 demoState (demoCancel 2 10 1 "c1")
    (specBatch 7 (demoCancel 2 10 1 "c1") (queueOf demoState)) (afterCommand (demoCancel 2 10 1 "c1") demoState) 1
    demo_ok ltac:(simpl; lia) ltac:(apply demoCancel_valid; demo_auto) ltac:(by split) ltac:(reflexivity)
    ltac:(vm_compute; reflexivity)) as (_ & _ & H).
  destruct (H Asks (100, OrderNode.mkOrderNode 1 10 5)) as (_ & _ & Hgone); [|reflexivity|reflexivity|exact Hgone].
  apply (bool_decide_unpack _). vm_compute. exact I.
Defined.

(** C17: the mutation-free plan is what execution does.  When the planned events
    fit the bound, [matchOrder] ends with the planned remainder after the planned
    number of executions, so the divergence checks of [processOrder] never fire. *)
Theorem plan_equals_execution n st message plan :
  engine_ok n st → valid_order message →
  planMatches message st = Ret plan → Plan.executionCount plan ≤ MAX_EVENTS_PER_COMMAND →
  ∃ events st', matchOrder message (Msg.quantity message) [] st = (Ret (Plan.remainder plan, events), st') ∧
    eventCount events = Plan.executionCount plan ∧ wf st'.
Proof.
  intros Hok Hv Hplan Hmax. destruct (restingSide (Msg.type message)) as [s|] eqn:Hs; [|by destruct (vo_side _ Hv)].
  pose proof (ok_wf _ _ Hok) as Hwf.
  rewrite (planMatches_refines _ _ s Hwf (vo_quantity _ Hv) Hs) in Hplan. unfold sweepLeft, sweepCount in Hplan.
  destruct (sweep _ _ _) as [[fills left] opp] eqn:Hsweep. simplify_eq/=.
  destruct (matchOrder_refines st message s fills left opp Hwf (vo_quantity _ Hv) Hs Hsweep Hmax)
    as (st' & Hrun & Hev).
  eexists _, st'. split_and!; [exact Hrun| |apply Hev].
  unfold eventCount. by rewrite tradeEvents_length.
Qed.

Lemma plan_equals_execution_witness :
  ∃ events st', matchOrder demoBuy 8 [] demoState = (Ret (3, events), st') ∧ eventCount events = 1 ∧ wf st'.
Proof.
  apply (plan_equals_execution 2 demoState demoBuy (Plan.mkMatchPlan 3 1)).
  - apply demo_ok.
  - by split; [|left| |split; unfold UINT64_MAX; simpl; lia|].
  - vm_compute. reflexivity.
  - vm_compute. discriminate.
Defined.

(** No result correlation, a type that is no command, a cancel without its fields, a
    new order with an unsupported time in force. *)
Definition malformed (message : sequenceMessage) : Prop :=
  Msg.clientCommandId message = None ∨ Msg.clientId message = 0 ∨ Msg.globalSequenceNumber message = 0 ∨
  (∀ s, restingSide (Msg.type message) = Some s →
     Msg.tif message ≠ TIF.GTC ∧ Msg.tif message ≠ TIF.IOC) ∧
  (Msg.type message = OrderType.CANCEL →
     Msg.targetOrderId message = None ∨ Msg.instrumentId message = 0 ∨ Msg.orderId message ≠ 0).

Lemma malformed_refused message st : malformed message →
  ∃ what, processCommand message st = (Throw (logic_error what), st).
Proof.
  unfold malformed. intros Hbad. unfold processCommand.
  destruct (resultCorrelationFrom message (State.exchangeRunId st)) as [c|e] eqn:Hc.
  2:{ exists "sequenced command is missing result correlation"%string. unfold mbind, M_bind, liftM. rewrite Hc.
      unfold resultCorrelationFrom in Hc. destruct (Msg.clientCommandId message); [|by simplify_eq].
      unfold throw_if in Hc. by destruct (_ || _); simplify_eq/=. }
  erewrite liftM_run by exact Hc. unfold resultCorrelationFrom in Hc.
  destruct (Msg.clientCommandId message) as [cc|] eqn:Hcc; [|done].
  unfold throw_if in Hc. repeat case_bool_decide; simplify_eq/=.
  destruct Hbad as [?|[?|[?|[Htif Hcancel]]]]; try done.
  assert (Horder : ∀ s, restingSide (Msg.type message) = Some s →
    ∃ what, processMessage message st = (Throw (logic_error what), st)).
  { intros s Hs. destruct (Htif s Hs) as [Hgtc Hioc]. rewrite (processMessage_order _ s Hs).
    unfold processRestableOrder. rewrite (bool_decide_eq_true_2 (_ ≠ TIF.GTC)), (bool_decide_eq_true_2 (_ ≠ TIF.IOC)) by done.
    eexists; reflexivity. }
  assert (∃ what, processMessage message st = (Throw (logic_error what), st)) as (what & Hwhat).
  { unfold processMessage. destruct (Msg.type message) eqn:Ht.
    - destruct (Horder Bids) as [what Hw]; [done|]. unfold processMessage in Hw. rewrite Ht in Hw. eauto.
    - destruct (Horder Asks) as [what Hw]; [done|]. unfold processMessage in Hw. rewrite Ht in Hw. eauto.
    - unfold processCancel, cancelMissingFields. rewrite Ht, Hcc. destruct (Hcancel eq_refl) as [Hx|[Hx|Hx]].
      + rewrite Hx. rewrite !(bool_decide_eq_true_2 (None = None)), !orb_true_r by done. eexists; reflexivity.
      + rewrite Hx. rewrite (bool_decide_eq_true_2 (0 = 0)), !orb_true_r by done. eexists; reflexivity.
      + unfold throw_ifM, mbind, M_bind. destruct (_ || _); [eexists; reflexivity|]. simpl.
        rewrite bool_decide_eq_true_2 by done. eexists; reflexivity.
    - eexists; reflexivity.
    - eexists; reflexivity. }
  exists what. unfold mbind, M_bind. by rewrite Hwhat.
Qed.

(** C18: a command that is refused changes nothing: one rejected for book capacity
    leaves the very state it found (no book, index entry or allocation) and its only
    event is the rejection; a malformed one (no result correlation, a type that is
    no command, a cancel without its fields, a new order with an unsupported time
    in force) raises an exception and leaves the state it found. *)
Theorem refused_command_changes_nothing message st :
  (∀ batch st', processCommand message st = (Ret batch, st') →
     Batch.result batch = Processing.BOOK_CAPACITY_EXCEEDED →
     st' = st ∧
     Batch.events batch =
       [specReject (State.exchangeRunId st) message CmdType.NEW_ORDER (Msg.orderId message)
          BOOK_CAPACITY_EXCEEDED]) ∧
  (malformed message → ∃ what, processCommand message st = (Throw (logic_error what), st)).
Proof. split; [apply capacity_rejected|apply malformed_refused]. Qed.

Lemma refused_command_changes_nothing_witness :
  let st := afterCommand (fullSell 1) (newMatchingState 7) in
  afterCommand (fullSell 2) st = st ∧
  ∃ what, processCommand (demoMessage OrderType.BUY 2 20 "b1" 99 8 TIF.FOK) demoState =
          (Throw (logic_error what), demoState).
Proof.
  intros st. split.
  - apply (proj1 (refused_command_changes_nothing (fullSell 2) st)
      (specBatch 7 (fullSell 2) (queueOf st)) (afterCommand (fullSell 2) st)); vm_compute; reflexivity.
  - apply (proj2 (refused_command_changes_nothing (demoMessage OrderType.BUY 2 20 "b1" 99 8 TIF.FOK) demoState)).
    right. right. right. split; [by split|done].
Defined.
