(* ===== verification/Bytes.v ===== *)
(** * Byte buffers, little-endian fields and CRC-32C

    [src/core/storage/src/little_endian.hpp] and [crc32c.cpp].  A buffer is a
    [list byte]; an index past its end is undefined in C++, so a read or write
    is a [checked] computation that reports [OutOfBounds] there, and the codecs'
    theorems show that this never happens. *)
From S2P Require Import Prelude.
From Stdlib Require String Ascii.
From Stdlib Require Strings.Byte.

Abbreviation byte := Byte.byte (only parsing).
Abbreviation bytes := (list Byte.byte) (only parsing).

#[export] Instance byte_eq_decision : EqDecision Byte.byte := Byte.byte_eq_dec.

(** ** Computations that can fail or leave a buffer *)
Inductive checked (E A : Type) : Type :=
  | Ok (a : A)
  | Err (e : E)
  | OutOfBounds.
Arguments Ok {_ _} _.
Arguments Err {_ _} _.
Arguments OutOfBounds {_ _}.

#[export] Instance checked_ret {E} : MRet (checked E) := λ A a, Ok a.
#[export] Instance checked_bind {E} : MBind (checked E) := λ A B f m,
  match m with Ok a => f a | Err e => Err e | OutOfBounds => OutOfBounds end.

(** [if (bad) return e;] *)
Definition fail_if {E} (bad : bool) (e : E) : checked E unit := if bad then Err e else Ok tt.

Definition in_bounds {E A} (m : checked E A) : Prop := m ≠ OutOfBounds.

Lemma checked_bind_ok {E A B} (a : A) (f : A → checked E B) : (Ok a ≫= f) = f a.
Proof. reflexivity. Qed.

Lemma checked_bind_inv {E A B} (m : checked E A) (f : A → checked E B) b :
  (m ≫= f) = Ok b → ∃ a, m = Ok a ∧ f a = Ok b.
Proof. destruct m; intros; [eauto|done|done]. Qed.

Lemma fail_if_inv {E A} (bad : bool) (e : E) (f : unit → checked E A) a :
  (fail_if bad e ≫= f) = Ok a → bad = false ∧ f tt = Ok a.
Proof. by destruct bad. Qed.

Lemma fail_if_err {E A} (bad : bool) (e e' : E) (f : unit → checked E A) :
  (fail_if bad e ≫= f) = Err e' → (bad = true ∧ e' = e) ∨ (bad = false ∧ f tt = Err e').
Proof. destruct bad; [intros [= <-]; by left|by right]. Qed.

Lemma fail_if_false {E A} (e : E) (f : unit → checked E A) bad : bad = false → (fail_if bad e ≫= f) = f tt.
Proof. by intros ->. Qed.

(** ** Bytes and numbers *)

(** [std::to_integer<std::uint8_t>(byte)] *)
Definition byteValue (b : byte) : Z := Z.of_N (Byte.to_N b).

(** [std::byte{static_cast<std::uint8_t>(value)}] *)
Definition byteOf (z : Z) : byte := default Byte.x00 (Byte.of_N (Z.to_N (z mod 256))).

(** The bytes of a [w]-byte unsigned value, lowest first. *)
Definition leBytes (w : nat) (value : Z) : bytes :=
  (λ index : nat, byteOf (Z.shiftr value (Z.of_nat index * 8))) <$> seq 0 w.

#[global] Arguments leBytes : simpl never.

(** [value |= bytes[offset + index] << (index * 8)] over the field's bytes. *)
Fixpoint leReadLoop (index : nat) (value : Z) (field : bytes) : Z :=
  match field with
  | [] => value
  | b :: field' =>
      leReadLoop (Datatypes.S index) (Z.lor value (Z.shiftl (byteValue b) (Z.of_nat index * 8))) field'
  end.

(** [bytes.subspan(offset, count)] *)
Definition subspan {E} (input : bytes) (offset count : nat) : checked E bytes :=
  if bool_decide (offset + count ≤ length input)%nat then Ok (take count (drop offset input))
  else OutOfBounds.

(** [bytes.subspan(offset)] *)
Definition suffix {E} (input : bytes) (offset : nat) : checked E bytes :=
  if bool_decide (offset ≤ length input)%nat then Ok (drop offset input) else OutOfBounds.

(** [readUint16/32/64LittleEndian] at width [w] in bytes. *)
Definition readLE {E} (w : nat) (input : bytes) (offset : nat) : checked E Z :=
  field ← subspan input offset w; Ok (leReadLoop 0 0 field).

(** [std::to_integer<std::uint8_t>(input[offset])] *)
Definition readByte {E} (input : bytes) (offset : nat) : checked E Z := readLE 1 input offset.

(** Copying a field's bytes into a buffer at [offset]. *)
Definition putBytes {E} (frame : bytes) (offset : nat) (field : bytes) : checked E bytes :=
  if bool_decide (offset + length field ≤ length frame)%nat then Ok (list_inserts offset field frame)
  else OutOfBounds.

(** [writeUint16/32/64LittleEndian] at width [w] in bytes. *)
Definition writeLE {E} (w : nat) (frame : bytes) (offset : nat) (value : Z) : checked E bytes :=
  putBytes frame offset (leBytes w value).

(** ** CRC-32C *)
Definition REFLECTED_CASTAGNOLI_POLYNOMIAL : Z := 0x82F63B78.
Definition FINAL_XOR : Z := 0xFFFFFFFF.
Definition CRC_INITIAL_STATE : Z := 0xFFFFFFFF.

Definition crcBit (state : Z) : Z :=
  let lowBitMask := wrap32 (0 - Z.land state 1) in
  Z.lxor (Z.shiftr state 1) (Z.land REFLECTED_CASTAGNOLI_POLYNOMIAL lowBitMask).

Definition crcByte (state : Z) (b : byte) : Z := Nat.iter 8 crcBit (Z.lxor state (byteValue b)).

(** [Crc32cAccumulator::update] and [checksum] *)
Definition crcUpdate (state : Z) (input : bytes) : Z := foldl crcByte state input.
Definition crcChecksum (state : Z) : Z := Z.lxor state FINAL_XOR.

(** ** Facts about bytes *)
Lemma byteValue_bounds b : 0 ≤ byteValue b < 256.
Proof. unfold byteValue. pose proof (Byte.to_N_bounded b). lia. Qed.

Lemma byteOf_value b : byteOf (byteValue b) = b.
Proof.
  unfold byteOf, byteValue. pose proof (Byte.to_N_bounded b).
  rewrite Z.mod_small, N2Z.id by lia. by rewrite Byte.of_to_N.
Qed.

Lemma byteValue_of z : byteValue (byteOf z) = z mod 256.
Proof.
  unfold byteOf, byteValue. pose proof (Z.mod_pos_bound z 256 ltac:(lia)).
  destruct (Byte.of_N _) as [b|] eqn:E.
  - apply Byte.to_of_N in E. simpl. lia.
  - apply Byte.of_N_None_iff in E. lia.
Qed.

Lemma byteValue_inj b b' : byteValue b = byteValue b' → b = b'.
Proof. intros H. by rewrite <-(byteOf_value b), H, byteOf_value. Qed.

(** The number a little-endian field denotes. *)
Fixpoint leNumber (field : bytes) : Z :=
  match field with
  | [] => 0
  | b :: field' => byteValue b + 256 * leNumber field'
  end.

Lemma leNumber_bounds field : 0 ≤ leNumber field < 256 ^ Z.of_nat (length field).
Proof.
  induction field as [|b field IH]; [simpl; lia|]. cbn [leNumber length].
  pose proof (byteValue_bounds b). rewrite Nat2Z.inj_succ, Z.pow_succ_r by lia. lia.
Qed.

Lemma land_shiftl_small a b k : 0 ≤ k → 0 ≤ a < 2 ^ k → Z.land a (Z.shiftl b k) = 0.
Proof.
  intros Hk Ha. apply Z.bits_inj'. intros j Hj. rewrite Z.land_spec, Z.bits_0, Z.shiftl_spec by done.
  destruct (decide (k ≤ j)) as [Hle|Hlt].
  - rewrite <-(Z.mod_small a (2 ^ k)), Z.mod_pow2_bits_high by lia. done.
  - rewrite (Z.testbit_neg_r b) by lia. apply andb_false_r.
Qed.

Lemma leReadLoop_number field : ∀ index value,
  0 ≤ value < 2 ^ (Z.of_nat index * 8) →
  leReadLoop index value field = value + 2 ^ (Z.of_nat index * 8) * leNumber field.
Proof.
  induction field as [|b field IH]; intros index value Hv; cbn [leReadLoop leNumber]; [lia|].
  pose proof (byteValue_bounds b) as Hb.
  assert (Hlor : Z.lor value (Z.shiftl (byteValue b) (Z.of_nat index * 8)) =
                 value + 2 ^ (Z.of_nat index * 8) * byteValue b).
  { pose proof (Z.add_lor_land value (Z.shiftl (byteValue b) (Z.of_nat index * 8))) as Hl.
    rewrite land_shiftl_small, Z.add_0_r in Hl by lia. rewrite Hl, Z.shiftl_mul_pow2 by lia. lia. }
  assert (Hpow : 2 ^ (Z.of_nat (Datatypes.S index) * 8) = 2 ^ (Z.of_nat index * 8) * 256).
  { rewrite Nat2Z.inj_succ, Z.mul_succ_l, Z.pow_add_r by lia. done. }
  rewrite IH, Hlor, Hpow; [lia|]. rewrite Hpow. nia.
Qed.

Lemma leRead_number field : leReadLoop 0 0 field = leNumber field.
Proof. rewrite leReadLoop_number by (simpl; lia). simpl. lia. Qed.

Lemma leBytes_length w v : length (leBytes w v) = w.
Proof. unfold leBytes. by rewrite length_fmap, length_seq. Qed.

Lemma leBytes_succ w v : leBytes (Datatypes.S w) v = byteOf v :: leBytes w (Z.shiftr v 8).
Proof.
  unfold leBytes. simpl. rewrite <-fmap_S_seq, <-list_fmap_compose. f_equal.
  apply list_fmap_ext. intros _ k _. simpl. rewrite Z.shiftr_shiftr by lia. do 2 f_equal. lia.
Qed.

Lemma leNumber_leBytes w : ∀ v, leNumber (leBytes w v) = v mod 256 ^ Z.of_nat w.
Proof.
  induction w as [|w IH]; intros v; [simpl; by rewrite Z.mod_1_r|].
  rewrite leBytes_succ. cbn [leNumber]. rewrite IH, byteValue_of, Z.shiftr_div_pow2 by lia.
  rewrite Nat2Z.inj_succ, Z.pow_succ_r by lia. rewrite Z.rem_mul_r by lia. change (2 ^ 8) with 256. lia.
Qed.

(** A field in range survives a write and a read. *)
Lemma leNumber_leBytes_small w v : 0 ≤ v < 256 ^ Z.of_nat w → leNumber (leBytes w v) = v.
Proof. intros. rewrite leNumber_leBytes. by rewrite Z.mod_small. Qed.

(** A field's bytes are determined by its number. *)
Lemma leBytes_leNumber field : leBytes (length field) (leNumber field) = field.
Proof.
  induction field as [|b field IH]; [done|]. cbn [length]. rewrite leBytes_succ. cbn [leNumber].
  pose proof (byteValue_bounds b).
  assert (byteOf (byteValue b + 256 * leNumber field) = b) as ->.
  { apply byteValue_inj. rewrite byteValue_of. rewrite Z.mul_comm, Z_mod_plus_full. by apply Z.mod_small. }
  f_equal. rewrite Z.shiftr_div_pow2 by lia. change (2 ^ 8) with 256.
  rewrite (Z.mul_comm 256), Z.div_add, Z.div_small, Z.add_0_l by lia. apply IH.
Qed.

(** ** Reading and writing a buffer given by its fields *)
Section fields.
Context {E : Type}.
Implicit Types (seg rest input frame : bytes).

Lemma subspan_run (input : bytes) offset count :
  (offset + count ≤ length input)%nat → subspan (E:=E) input offset count = Ok (take count (drop offset input)).
Proof. intros. unfold subspan. by rewrite bool_decide_eq_true_2. Qed.

Lemma subspan_skip seg rest offset count :
  (length seg ≤ offset)%nat →
  subspan (E:=E) (seg ++ rest) offset count = subspan rest (offset - length seg) count.
Proof.
  intros Hl. unfold subspan. rewrite length_app, drop_app_ge by done.
  destruct (decide (offset + count ≤ length seg + length rest)%nat) as [H|H].
  - rewrite !bool_decide_eq_true_2 by lia. done.
  - rewrite !bool_decide_eq_false_2 by lia. done.
Qed.

Lemma subspan_here seg rest offset count :
  offset = 0%nat → length seg = count → subspan (E:=E) (seg ++ rest) offset count = Ok seg.
Proof.
  intros -> <-. rewrite subspan_run by (rewrite length_app; lia).
  rewrite drop_0. f_equal. by apply take_app_length.
Qed.

Lemma readLE_skip w seg rest offset :
  (length seg ≤ offset)%nat → readLE (E:=E) w (seg ++ rest) offset = readLE w rest (offset - length seg).
Proof. intros. unfold readLE. by rewrite subspan_skip. Qed.

Lemma readLE_here w seg rest offset :
  offset = 0%nat → length seg = w → readLE (E:=E) w (seg ++ rest) offset = Ok (leNumber seg).
Proof. intros. unfold readLE. rewrite subspan_here by done. simpl. by rewrite leRead_number. Qed.

Lemma readLE_run w (input : bytes) offset :
  (offset + w ≤ length input)%nat → readLE (E:=E) w input offset = Ok (leNumber (take w (drop offset input))).
Proof. intros. unfold readLE. rewrite subspan_run by done. simpl. by rewrite leRead_number. Qed.

Lemma putBytes_here seg rest offset (field : bytes) :
  offset = 0%nat → length seg = length field → putBytes (E:=E) (seg ++ rest) offset field = Ok (field ++ rest).
Proof.
  intros -> Hl. unfold putBytes. rewrite bool_decide_eq_true_2 by (rewrite length_app; lia).
  by rewrite list_inserts_0_r.
Qed.

Lemma putBytes_skip seg rest offset (field : bytes) :
  (length seg ≤ offset)%nat →
  putBytes (E:=E) (seg ++ rest) offset field =
  (rest' ← putBytes rest (offset - length seg) field; Ok (seg ++ rest')).
Proof.
  intros Hl. unfold putBytes. rewrite length_app.
  destruct (decide (offset + length field ≤ length seg + length rest)%nat) as [H|H].
  - rewrite !bool_decide_eq_true_2 by lia. simpl. f_equal.
    replace offset with (length seg + (offset - length seg))%nat at 1 by lia. apply list_inserts_app_r.
  - rewrite !bool_decide_eq_false_2 by lia. done.
Qed.

Lemma writeLE_here w seg rest offset v :
  offset = 0%nat → length seg = w → writeLE (E:=E) w (seg ++ rest) offset v = Ok (leBytes w v ++ rest).
Proof. intros. unfold writeLE. apply putBytes_here; [done|by rewrite leBytes_length]. Qed.

Lemma writeLE_skip w seg rest offset v :
  (length seg ≤ offset)%nat →
  writeLE (E:=E) w (seg ++ rest) offset v = (rest' ← writeLE w rest (offset - length seg) v; Ok (seg ++ rest')).
Proof. apply putBytes_skip. Qed.
End fields.

(** ** Computations that never leave a buffer *)
Lemma in_bounds_bind {E A B} (m : checked E A) (f : A → checked E B) :
  in_bounds m → (∀ a, m = Ok a → in_bounds (f a)) → in_bounds (m ≫= f).
Proof. destruct m; unfold in_bounds; simpl; intros; [auto|done|done]. Qed.

Lemma in_bounds_fail_if {E A} bad (e : E) (f : unit → checked E A) :
  (bad = false → in_bounds (f tt)) → in_bounds (fail_if bad e ≫= f).
Proof. destruct bad; unfold in_bounds; simpl; auto. Qed.

Lemma in_bounds_check {E} bad (e : E) : in_bounds (fail_if bad e).
Proof. by destruct bad. Qed.

Lemma in_bounds_read {E A} w input offset (f : Z → checked E A) :
  (offset + w ≤ length input)%nat → (∀ a, 0 ≤ a < 256 ^ Z.of_nat w → in_bounds (f a)) →
  in_bounds (readLE w input offset ≫= f).
Proof.
  intros Hl Hf. rewrite readLE_run, checked_bind_ok by done. apply Hf.
  assert (length (take w (drop offset input)) = w) as <- by (rewrite length_take, length_drop; lia).
  rewrite (length_take), length_drop. replace (min w (length input - offset)) with w by lia.
  pose proof (leNumber_bounds (take w (drop offset input))) as Hb.
  rewrite length_take, length_drop in Hb. by replace (min w (length input - offset)) with w in Hb by lia.
Qed.

Lemma in_bounds_subspan {E A} input offset count (f : bytes → checked E A) :
  (offset + count ≤ length input)%nat → (∀ a, length a = count → in_bounds (f a)) →
  in_bounds (subspan input offset count ≫= f).
Proof.
  intros Hl Hf. rewrite subspan_run, checked_bind_ok by done. apply Hf.
  rewrite length_take, length_drop. lia.
Qed.

(** A successful read was in bounds. *)
Lemma subspan_inv {E} (input : bytes) offset count r :
  subspan (E:=E) input offset count = Ok r → (offset + count ≤ length input)%nat ∧ r = take count (drop offset input).
Proof. unfold subspan. case_bool_decide; intros; simplify_eq; auto. Qed.

Lemma readLE_inv {E} w (input : bytes) offset v :
  readLE (E:=E) w input offset = Ok v → (offset + w ≤ length input)%nat ∧ 0 ≤ v < 256 ^ Z.of_nat w.
Proof.
  intros (field & [Hl ->]%subspan_inv & [= <-])%checked_bind_inv. split; [done|]. rewrite leRead_number.
  pose proof (leNumber_bounds (take w (drop offset input))) as Hb. rewrite length_take, length_drop in Hb.
  by replace (min w (length input - offset)) with w in Hb by lia.
Qed.

Lemma checked_error {E A} (m : checked E A) : in_bounds m → (∀ a, m ≠ Ok a) → ∃ e, m = Err e.
Proof. destruct m; intros Hin Hno; [by destruct (Hno a)|eauto|done]. Qed.

(** Cutting a buffer into fields. *)
Lemma cut_field (n : nat) (l : bytes) : (n ≤ length l)%nat → ∃ seg rest, l = seg ++ rest ∧ length seg = n.
Proof.
  intros. exists (take n l), (drop n l). rewrite take_drop, length_take. split; [done|lia].
Qed.

(** A field read back from its bytes. *)
Lemma field_bytes w seg : length seg = w → seg = leBytes w (leNumber seg).
Proof. intros <-. symmetry. apply leBytes_leNumber. Qed.

(** Lengths of fields, for the offsets of the next one. *)
Create Rewrite HintDb field_length.
#[export] Hint Rewrite leBytes_length @length_app @length_replicate : field_length.

(** Move a read or a write to the field it addresses. *)
Ltac field_len := autorewrite with field_length; simpl; lia.
Ltac read_field :=
  repeat (first [rewrite readLE_skip by field_len | rewrite subspan_skip by field_len]);
  first [rewrite readLE_here by field_len | rewrite subspan_here by field_len];
  rewrite ?checked_bind_ok.
Ltac read_field_in H :=
  repeat (first [rewrite readLE_skip in H by field_len | rewrite subspan_skip in H by field_len]);
  first [rewrite readLE_here in H by field_len | rewrite subspan_here in H by field_len];
  rewrite ?checked_bind_ok in H.
Ltac write_field :=
  repeat (first [rewrite writeLE_skip by field_len | rewrite putBytes_skip by field_len]);
  first [rewrite writeLE_here by field_len | rewrite putBytes_here by field_len];
  rewrite ?checked_bind_ok.

(** ** CRC-32C *)
Section crc.

Definition is_state (s : Z) : Prop := 0 ≤ s < 2 ^ 32.

Lemma lxor_small n a b : 0 ≤ n → 0 ≤ a < 2 ^ n → 0 ≤ b < 2 ^ n → 0 ≤ Z.lxor a b < 2 ^ n.
Proof.
  intros Hn Ha Hb. assert (0 ≤ Z.lxor a b) as Hp by (apply Z.lxor_nonneg; lia). split; [done|].
  assert (Z.lxor a b = Z.lxor a b mod 2 ^ n) as ->; [|apply Z.mod_pos_bound; lia].
  apply Z.bits_inj'. intros k Hk. destruct (decide (k < n)) as [Hlt|Hge].
  - by rewrite Z.mod_pow2_bits_low.
  - rewrite Z.mod_pow2_bits_high by lia. rewrite Z.lxor_spec.
    rewrite <-(Z.mod_small a (2 ^ n)), <-(Z.mod_small b (2 ^ n)), !Z.mod_pow2_bits_high by lia. done.
Qed.

Lemma lxor_cancel a b c : Z.lxor a c = Z.lxor b c → a = b.
Proof.
  intros H. rewrite <-(Z.lxor_0_r a), <-(Z.lxor_0_r b), <-(Z.lxor_nilpotent c), <-!Z.lxor_assoc.
  by rewrite H.
Qed.

(** The mask keeps the polynomial exactly when the low bit is set. *)
Lemma crcBit_odd s :
  crcBit s = Z.lxor (s / 2) (if Z.odd s then REFLECTED_CASTAGNOLI_POLYNOMIAL else 0).
Proof.
  unfold crcBit. f_equal; [by rewrite Z.shiftr_div_pow2|].
  change 1 with (Z.ones 1) at 1. rewrite Z.land_ones by lia. change (2 ^ 1) with 2. rewrite Zmod_odd.
  destruct (Z.odd s); vm_compute; reflexivity.
Qed.

Lemma crcBit_state s : is_state s → is_state (crcBit s).
Proof.
  intros Hs. unfold is_state in *. rewrite crcBit_odd. apply lxor_small; [lia| |].
  - split; [apply Z.div_pos; lia|]. apply Z.div_lt_upper_bound; lia.
  - destruct (Z.odd s); vm_compute; split; (discriminate || reflexivity).
Qed.

(** The top bit of a step tells the low bit it consumed. *)
Lemma crcBit_top s : is_state s → Z.testbit (crcBit s) 31 = Z.odd s.
Proof.
  intros Hs. unfold is_state in Hs. rewrite crcBit_odd, Z.lxor_spec.
  assert (Z.testbit (s / 2) 31 = false) as ->.
  { change 2 with (2 ^ 1). rewrite Z.div_pow2_bits by lia.
    rewrite <-(Z.mod_small s (2 ^ 32)) by lia. by apply Z.mod_pow2_bits_high. }
  destruct (Z.odd s); reflexivity.
Qed.

Lemma crcBit_inj s t : is_state s → is_state t → crcBit s = crcBit t → s = t.
Proof.
  intros Hs Ht Heq. assert (Hodd : Z.odd s = Z.odd t).
  { rewrite <-(crcBit_top s), <-(crcBit_top t) by done. by rewrite Heq. }
  rewrite !crcBit_odd, Hodd in Heq. apply lxor_cancel in Heq.
  rewrite (Z.div_mod s 2), (Z.div_mod t 2) by lia. rewrite !Zmod_odd, Hodd, Heq. done.
Qed.

Lemma crcBits_inj n s t : is_state s → is_state t → Nat.iter n crcBit s = Nat.iter n crcBit t → s = t.
Proof.
  assert (Hstate : ∀ k u, is_state u → is_state (Nat.iter k crcBit u)).
  { induction k as [|k IH]; intros u ?; simpl; [done|]. by apply crcBit_state, IH. }
  induction n as [|n IH]; intros Hs Ht Heq; simpl in Heq; [done|].
  apply IH; [done|done|]. by apply crcBit_inj; [apply Hstate..|].
Qed.

Lemma byte_state b : is_state (byteValue b).
Proof. pose proof (byteValue_bounds b). unfold is_state. lia. Qed.

Lemma xor_state s b : is_state s → is_state (Z.lxor s (byteValue b)).
Proof. intros. apply lxor_small; [lia|done|apply byte_state]. Qed.

Lemma crcByte_state s b : is_state s → is_state (crcByte s b).
Proof.
  intros Hs. unfold crcByte. generalize 8%nat. intros n.
  induction n as [|n IH]; simpl; [by apply xor_state|by apply crcBit_state].
Qed.

Lemma crcByte_inj_state s t b : is_state s → is_state t → crcByte s b = crcByte t b → s = t.
Proof.
  intros Hs Ht Heq. apply crcBits_inj in Heq; [|by apply xor_state..]. by eapply lxor_cancel.
Qed.

Lemma crcByte_inj_byte s b b' : is_state s → crcByte s b = crcByte s b' → b = b'.
Proof.
  intros Hs Heq. apply crcBits_inj in Heq; [|by apply xor_state..].
  rewrite !(Z.lxor_comm s) in Heq. by apply byteValue_inj, (lxor_cancel _ _ s).
Qed.

Lemma crcUpdate_app s input input' : crcUpdate s (input ++ input') = crcUpdate (crcUpdate s input) input'.
Proof. apply foldl_app. Qed.

Lemma crcUpdate_state input : ∀ s, is_state s → is_state (crcUpdate s input).
Proof.
  induction input as [|b input IH]; intros s Hs; simpl; [done|]. by apply IH, crcByte_state.
Qed.

Lemma crcUpdate_inj input : ∀ s t, is_state s → is_state t → crcUpdate s input = crcUpdate t input → s = t.
Proof.
  induction input as [|b input IH]; intros s t Hs Ht Heq; simpl in Heq; [done|].
  apply IH in Heq; [|by apply crcByte_state..]. by eapply crcByte_inj_state.
Qed.

(** Changing one byte of a message changes its checksum. *)
Lemma crc_detects_byte s pre b b' post :
  is_state s → crcChecksum (crcUpdate s (pre ++ b :: post)) = crcChecksum (crcUpdate s (pre ++ b' :: post)) →
  b = b'.
Proof.
  intros Hs Heq. apply lxor_cancel in Heq. rewrite !crcUpdate_app in Heq. simpl in Heq.
  pose proof (crcUpdate_state pre s Hs) as Hs'.
  apply crcUpdate_inj in Heq; [|by apply crcByte_state..]. by eapply crcByte_inj_byte.
Qed.

Lemma crcChecksum_bounds s : is_state s → 0 ≤ crcChecksum s < 256 ^ 4.
Proof. intros. apply (lxor_small 32); [lia|done|unfold FINAL_XOR; lia]. Qed.

Lemma crc_initial_state : is_state CRC_INITIAL_STATE.
Proof. unfold is_state, CRC_INITIAL_STATE. lia. Qed.
End crc.

(** The check value of the CRC-32C definition: "123456789". *)
Example crc32c_check_value :
  crcChecksum (crcUpdate CRC_INITIAL_STATE (String.list_byte_of_string "123456789")) = 0xE3069283.
Proof. vm_compute. reflexivity. Qed.
