(* ===== verification/JournalCodec.v ===== *)
(** * The journal's command frames

    [src/core/storage/src/journal_v1_envelope.hpp] and [journal_command_codec.cpp]:
    the 36-byte envelope with its CRC-32C, and the new-order and cancel payloads.
    Error [NONE] is an [Ok] result; an output parameter is written only then, so
    it is the result's value.  Allocation failure is not modelled. *)
From S2P Require Import Prelude Domain Bytes.

Module CodecError.
Inductive JournalCommandCodecError :=
  | TRUNCATED_INPUT | FRAME_TOO_LARGE | TRAILING_BYTES | INVALID_MAGIC | UNSUPPORTED_FORMAT_VERSION
  | UNSUPPORTED_RECORD_TYPE | INVALID_TOTAL_LENGTH | ZERO_EXCHANGE_RUN_ID | ZERO_COMMAND_SEQUENCE
  | INVALID_PAYLOAD_LENGTH | CHECKSUM_MISMATCH | UNSUPPORTED_BEHAVIORAL_RULES_VERSION
  | ZERO_CONFIGURATION_VERSION | ZERO_CLIENT_ID | ZERO_INSTRUMENT_ID | INVALID_CLIENT_COMMAND_ID
  | UNSUPPORTED_SIDE | UNSUPPORTED_TIME_IN_FORCE | ZERO_PRICE | ZERO_QUANTITY | ZERO_TARGET_ORDER_ID
  | ALLOCATION_FAILURE.
#[export] Instance JournalCommandCodecError_eq_dec : EqDecision JournalCommandCodecError.
Proof. solve_decision. Defined.
End CodecError.
Export (hints) CodecError.
Abbreviation JournalCommandCodecError := CodecError.JournalCommandCodecError.

Module NewOrder.
Record JournalNewOrderV1 := mkJournalNewOrderV1 {
  exchangeRunId : ExchangeRunId;
  commandSequence : CommandSequence;
  behavioralRulesVersion : Z;
  configurationVersion : Z;
  clientId : ClientId;
  instrumentId : InstrumentId;
  clientCommandId : ClientCommandId;
  side : Side;
  timeInForce : TimeInForce;
  price : Price;
  quantity : Quantity }.
#[export] Instance JournalNewOrderV1_eq_dec : EqDecision JournalNewOrderV1.
Proof. solve_decision. Defined.
End NewOrder.
Export (hints) NewOrder.
Abbreviation JournalNewOrderV1 := NewOrder.JournalNewOrderV1.

Module Cancel.
Record JournalCancelV1 := mkJournalCancelV1 {
  exchangeRunId : ExchangeRunId;
  commandSequence : CommandSequence;
  behavioralRulesVersion : Z;
  configurationVersion : Z;
  clientId : ClientId;
  instrumentId : InstrumentId;
  clientCommandId : ClientCommandId;
  targetOrderId : TargetOrderId }.
#[export] Instance JournalCancelV1_eq_dec : EqDecision JournalCancelV1.
Proof. solve_decision. Defined.
End Cancel.
Export (hints) Cancel.
Abbreviation JournalCancelV1 := Cancel.JournalCancelV1.

Module Envelope.
Record JournalV1CommandEnvelope := mkEnvelope {
  recordType : Z;
  totalLength : Z;
  exchangeRunId : Z;
  commandSequence : Z;
  payloadLength : Z }.
End Envelope.
Abbreviation JournalV1CommandEnvelope := Envelope.JournalV1CommandEnvelope.

(** ** The envelope *)
Definition JOURNAL_V1_MAGIC : bytes := [Byte.x46; Byte.x58; Byte.x4a; Byte.x52].
Definition JOURNAL_V1_FORMAT_VERSION : Z := 1.
Definition JOURNAL_V1_FORMAT_VERSION_OFFSET : nat := 4.
Definition JOURNAL_V1_RECORD_TYPE_OFFSET : nat := 6.
Definition JOURNAL_V1_TOTAL_LENGTH_OFFSET : nat := 8.
Definition JOURNAL_V1_EXCHANGE_RUN_ID_OFFSET : nat := 12.
Definition JOURNAL_V1_COMMAND_SEQUENCE_OFFSET : nat := 20.
Definition JOURNAL_V1_PAYLOAD_LENGTH_OFFSET : nat := 28.
Definition JOURNAL_V1_CHECKSUM_OFFSET : nat := 32.
Definition JOURNAL_V1_ENVELOPE_SIZE : nat := 36.
Definition JOURNAL_V1_PAYLOAD_OFFSET : nat := JOURNAL_V1_ENVELOPE_SIZE.
Definition JOURNAL_V1_NEW_ORDER_RECORD_TYPE : Z := 2.
Definition JOURNAL_V1_CANCEL_RECORD_TYPE : Z := 3.
Definition JOURNAL_V1_COMMAND_MAX_FRAME_SIZE : nat := 256.
Definition NEW_ORDER_PAYLOAD_SIZE_WITHOUT_CLIENT_COMMAND_ID : nat := 43.
Definition CANCEL_PAYLOAD_SIZE_WITHOUT_CLIENT_COMMAND_ID : nat := 33.
Definition CLIENT_COMMAND_ID_MIN_LENGTH : nat := 1.

Definition journalV1Checksum {E} (frame : bytes) : checked E Z :=
  envelope ← subspan frame 0 JOURNAL_V1_CHECKSUM_OFFSET;
  payload ← suffix frame JOURNAL_V1_PAYLOAD_OFFSET;
  Ok (crcChecksum (crcUpdate (crcUpdate CRC_INITIAL_STATE envelope) payload)).

Definition payloadSizeWithoutClientCommandId (recordType : Z) : nat :=
  if bool_decide (recordType = JOURNAL_V1_NEW_ORDER_RECORD_TYPE)
  then NEW_ORDER_PAYLOAD_SIZE_WITHOUT_CLIENT_COMMAND_ID
  else CANCEL_PAYLOAD_SIZE_WITHOUT_CLIENT_COMMAND_ID.

Import CodecError.

Definition validateJournalV1CommandEnvelope (input : bytes) (expectedRecordType : Z)
    (requireCompleteFrame : bool) : checked JournalCommandCodecError JournalV1CommandEnvelope :=
  fail_if (bool_decide (length input < JOURNAL_V1_ENVELOPE_SIZE)%nat) TRUNCATED_INPUT ;;
  fail_if (bool_decide (JOURNAL_V1_COMMAND_MAX_FRAME_SIZE < length input)%nat) FRAME_TOO_LARGE ;;
  magic ← subspan input 0 4;
  fail_if (bool_decide (magic ≠ JOURNAL_V1_MAGIC)) INVALID_MAGIC ;;
  formatVersion ← readLE 2 input JOURNAL_V1_FORMAT_VERSION_OFFSET;
  fail_if (bool_decide (formatVersion ≠ JOURNAL_V1_FORMAT_VERSION)) UNSUPPORTED_FORMAT_VERSION ;;
  recordType ← readLE 2 input JOURNAL_V1_RECORD_TYPE_OFFSET;
  let supportedRecordType := bool_decide (recordType = JOURNAL_V1_NEW_ORDER_RECORD_TYPE) ||
                             bool_decide (recordType = JOURNAL_V1_CANCEL_RECORD_TYPE) in
  fail_if (negb supportedRecordType ||
           (bool_decide (expectedRecordType ≠ 0) && bool_decide (recordType ≠ expectedRecordType)))
    UNSUPPORTED_RECORD_TYPE ;;
  totalLength ← readLE 4 input JOURNAL_V1_TOTAL_LENGTH_OFFSET;
  fail_if (bool_decide (totalLength < Z.of_nat JOURNAL_V1_ENVELOPE_SIZE)) INVALID_TOTAL_LENGTH ;;
  fail_if (bool_decide (Z.of_nat JOURNAL_V1_COMMAND_MAX_FRAME_SIZE < totalLength)) FRAME_TOO_LARGE ;;
  fail_if (requireCompleteFrame && bool_decide (Z.of_nat (length input) < totalLength)) TRUNCATED_INPUT ;;
  fail_if (requireCompleteFrame && bool_decide (totalLength < Z.of_nat (length input))) TRAILING_BYTES ;;
  exchangeRunId ← readLE 8 input JOURNAL_V1_EXCHANGE_RUN_ID_OFFSET;
  fail_if (bool_decide (exchangeRunId = 0)) ZERO_EXCHANGE_RUN_ID ;;
  commandSequence ← readLE 8 input JOURNAL_V1_COMMAND_SEQUENCE_OFFSET;
  fail_if (bool_decide (commandSequence = 0)) ZERO_COMMAND_SEQUENCE ;;
  payloadLength ← readLE 4 input JOURNAL_V1_PAYLOAD_LENGTH_OFFSET;
  fail_if (bool_decide (Z.of_nat JOURNAL_V1_ENVELOPE_SIZE + payloadLength ≠ totalLength))
    INVALID_PAYLOAD_LENGTH ;;
  (if requireCompleteFrame then
     stored ← readLE 4 input JOURNAL_V1_CHECKSUM_OFFSET;
     computed ← journalV1Checksum input;
     fail_if (bool_decide (stored ≠ computed)) CHECKSUM_MISMATCH
   else
     let size := payloadSizeWithoutClientCommandId recordType in
     fail_if (bool_decide (payloadLength < Z.of_nat (size + CLIENT_COMMAND_ID_MIN_LENGTH)) ||
              bool_decide (Z.of_nat (size + CLIENT_COMMAND_ID_MAX_LENGTH) < payloadLength))
       INVALID_PAYLOAD_LENGTH) ;;
  Ok (Envelope.mkEnvelope recordType totalLength exchangeRunId commandSequence payloadLength).

(** ** Fields the two commands share *)
Definition BEHAVIORAL_RULES_VERSION : Z := 1.
Definition RULES_VERSION_PAYLOAD_OFFSET : nat := 0.
Definition CONFIGURATION_VERSION_PAYLOAD_OFFSET : nat := 4.
Definition CLIENT_ID_PAYLOAD_OFFSET : nat := 8.
Definition INSTRUMENT_ID_PAYLOAD_OFFSET : nat := 16.
Definition CLIENT_COMMAND_ID_LENGTH_PAYLOAD_OFFSET : nat := 24.
Definition CLIENT_COMMAND_ID_PAYLOAD_OFFSET : nat := 25.
Definition BUY_WIRE_CODE : Z := 1.
Definition SELL_WIRE_CODE : Z := 2.
Definition GTC_WIRE_CODE : Z := 1.
Definition IOC_WIRE_CODE : Z := 2.

Definition validateCommonCommand (exchangeRunId : ExchangeRunId) (commandSequence : CommandSequence)
    (behavioralRulesVersion configurationVersion : Z) (clientId : ClientId) (instrumentId : InstrumentId)
    : checked JournalCommandCodecError unit :=
  fail_if (bool_decide (exchangeRunId = 0)) ZERO_EXCHANGE_RUN_ID ;;
  fail_if (bool_decide (commandSequence = 0)) ZERO_COMMAND_SEQUENCE ;;
  fail_if (bool_decide (behavioralRulesVersion ≠ BEHAVIORAL_RULES_VERSION))
    UNSUPPORTED_BEHAVIORAL_RULES_VERSION ;;
  fail_if (bool_decide (configurationVersion = 0)) ZERO_CONFIGURATION_VERSION ;;
  fail_if (bool_decide (clientId = 0)) ZERO_CLIENT_ID ;;
  fail_if (bool_decide (instrumentId = 0)) ZERO_INSTRUMENT_ID.

Definition writeEnvelope (frame : bytes) (recordType : Z) (exchangeRunId : ExchangeRunId)
    (commandSequence : CommandSequence) (payloadLength : nat) : checked JournalCommandCodecError bytes :=
  frame ← putBytes frame 0 JOURNAL_V1_MAGIC;
  frame ← writeLE 2 frame JOURNAL_V1_FORMAT_VERSION_OFFSET JOURNAL_V1_FORMAT_VERSION;
  frame ← writeLE 2 frame JOURNAL_V1_RECORD_TYPE_OFFSET recordType;
  frame ← writeLE 4 frame JOURNAL_V1_TOTAL_LENGTH_OFFSET
            (wrap32 (Z.of_nat (JOURNAL_V1_ENVELOPE_SIZE + payloadLength)));
  frame ← writeLE 8 frame JOURNAL_V1_EXCHANGE_RUN_ID_OFFSET exchangeRunId;
  frame ← writeLE 8 frame JOURNAL_V1_COMMAND_SEQUENCE_OFFSET commandSequence;
  writeLE 4 frame JOURNAL_V1_PAYLOAD_LENGTH_OFFSET (wrap32 (Z.of_nat payloadLength)).

(** The shared prefix of the two payloads, up to the client command id. *)
Definition writeCommonPayload (frame : bytes) (behavioralRulesVersion configurationVersion : Z)
    (clientId : ClientId) (instrumentId : InstrumentId) (clientCommandId : ClientCommandId)
    : checked JournalCommandCodecError bytes :=
  frame ← writeLE 4 frame (JOURNAL_V1_PAYLOAD_OFFSET + RULES_VERSION_PAYLOAD_OFFSET) behavioralRulesVersion;
  frame ← writeLE 4 frame (JOURNAL_V1_PAYLOAD_OFFSET + CONFIGURATION_VERSION_PAYLOAD_OFFSET) configurationVersion;
  frame ← writeLE 8 frame (JOURNAL_V1_PAYLOAD_OFFSET + CLIENT_ID_PAYLOAD_OFFSET) clientId;
  frame ← writeLE 8 frame (JOURNAL_V1_PAYLOAD_OFFSET + INSTRUMENT_ID_PAYLOAD_OFFSET) instrumentId;
  frame ← writeLE 1 frame (JOURNAL_V1_PAYLOAD_OFFSET + CLIENT_COMMAND_ID_LENGTH_PAYLOAD_OFFSET)
            (wrap8 (Z.of_nat (String.length clientCommandId)));
  putBytes frame (JOURNAL_V1_PAYLOAD_OFFSET + CLIENT_COMMAND_ID_PAYLOAD_OFFSET)
    (String.list_byte_of_string clientCommandId).

Definition writeChecksum (frame : bytes) : checked JournalCommandCodecError bytes :=
  checksum ← journalV1Checksum frame;
  writeLE 4 frame JOURNAL_V1_CHECKSUM_OFFSET checksum.

(** ** New orders *)
Definition sideCode (side : Side) : checked JournalCommandCodecError Z :=
  match side with
  | Side.BUY => Ok BUY_WIRE_CODE
  | Side.SELL => Ok SELL_WIRE_CODE
  | _ => Err UNSUPPORTED_SIDE
  end.

Definition timeInForceCode (timeInForce : TimeInForce) : checked JournalCommandCodecError Z :=
  match timeInForce with
  | TIF.GTC => Ok GTC_WIRE_CODE
  | TIF.IOC => Ok IOC_WIRE_CODE
  | _ => Err UNSUPPORTED_TIME_IN_FORCE
  end.

Definition sideOfCode (code : Z) : checked JournalCommandCodecError Side :=
  if bool_decide (code = BUY_WIRE_CODE) then Ok Side.BUY
  else if bool_decide (code = SELL_WIRE_CODE) then Ok Side.SELL
  else Err UNSUPPORTED_SIDE.

Definition timeInForceOfCode (code : Z) : checked JournalCommandCodecError TimeInForce :=
  if bool_decide (code = GTC_WIRE_CODE) then Ok TIF.GTC
  else if bool_decide (code = IOC_WIRE_CODE) then Ok TIF.IOC
  else Err UNSUPPORTED_TIME_IN_FORCE.

Definition encodeNewOrderV1 (command : JournalNewOrderV1) : checked JournalCommandCodecError bytes :=
  validateCommonCommand (NewOrder.exchangeRunId command) (NewOrder.commandSequence command)
    (NewOrder.behavioralRulesVersion command) (NewOrder.configurationVersion command)
    (NewOrder.clientId command) (NewOrder.instrumentId command) ;;
  side ← sideCode (NewOrder.side command);
  timeInForce ← timeInForceCode (NewOrder.timeInForce command);
  fail_if (bool_decide (NewOrder.price command = 0)) ZERO_PRICE ;;
  fail_if (bool_decide (NewOrder.quantity command = 0)) ZERO_QUANTITY ;;
  let size := String.length (NewOrder.clientCommandId command) in
  let payloadLength := (NEW_ORDER_PAYLOAD_SIZE_WITHOUT_CLIENT_COMMAND_ID + size)%nat in
  let encoded := replicate (JOURNAL_V1_ENVELOPE_SIZE + payloadLength) Byte.x00 in
  encoded ← writeEnvelope encoded JOURNAL_V1_NEW_ORDER_RECORD_TYPE (NewOrder.exchangeRunId command)
              (NewOrder.commandSequence command) payloadLength;
  encoded ← writeCommonPayload encoded (NewOrder.behavioralRulesVersion command)
              (NewOrder.configurationVersion command) (NewOrder.clientId command)
              (NewOrder.instrumentId command) (NewOrder.clientCommandId command);
  let variableFieldsOffset := (JOURNAL_V1_PAYLOAD_OFFSET + CLIENT_COMMAND_ID_PAYLOAD_OFFSET + size)%nat in
  encoded ← writeLE 1 encoded variableFieldsOffset side;
  encoded ← writeLE 1 encoded (variableFieldsOffset + 1) timeInForce;
  encoded ← writeLE 8 encoded (variableFieldsOffset + 2) (NewOrder.price command);
  encoded ← writeLE 8 encoded (variableFieldsOffset + 10) (NewOrder.quantity command);
  writeChecksum encoded.

(** The shared prefix of the two decoders: the client command id and the
    validated common fields. *)
Definition readCommonPayload (input : bytes) (envelope : JournalV1CommandEnvelope) (size : nat)
    : checked JournalCommandCodecError (Z * Z * ClientId * InstrumentId * string) :=
  fail_if (bool_decide (Envelope.payloadLength envelope < Z.of_nat size)) INVALID_PAYLOAD_LENGTH ;;
  clientCommandIdLength ←
    readByte input (JOURNAL_V1_PAYLOAD_OFFSET + CLIENT_COMMAND_ID_LENGTH_PAYLOAD_OFFSET);
  fail_if (bool_decide (Envelope.payloadLength envelope ≠ Z.of_nat size + clientCommandIdLength))
    INVALID_PAYLOAD_LENGTH ;;
  clientCommandBytes ← subspan input (JOURNAL_V1_PAYLOAD_OFFSET + CLIENT_COMMAND_ID_PAYLOAD_OFFSET)
                         (Z.to_nat clientCommandIdLength);
  behavioralRulesVersion ← readLE 4 input (JOURNAL_V1_PAYLOAD_OFFSET + RULES_VERSION_PAYLOAD_OFFSET);
  configurationVersion ← readLE 4 input (JOURNAL_V1_PAYLOAD_OFFSET + CONFIGURATION_VERSION_PAYLOAD_OFFSET);
  clientId ← readLE 8 input (JOURNAL_V1_PAYLOAD_OFFSET + CLIENT_ID_PAYLOAD_OFFSET);
  instrumentId ← readLE 8 input (JOURNAL_V1_PAYLOAD_OFFSET + INSTRUMENT_ID_PAYLOAD_OFFSET);
  validateCommonCommand (Envelope.exchangeRunId envelope) (Envelope.commandSequence envelope)
    behavioralRulesVersion configurationVersion clientId instrumentId ;;
  Ok (behavioralRulesVersion, configurationVersion, clientId, instrumentId,
      String.string_of_list_byte clientCommandBytes).

(** [domain::ClientCommandId{clientCommandId}] under the decoder's [catch]. *)
Definition decodeClientCommandId (value : string) : checked JournalCommandCodecError ClientCommandId :=
  match makeClientCommandId value with
  | Ret c => Ok c
  | Throw _ => Err INVALID_CLIENT_COMMAND_ID
  end.

Definition decodeNewOrderV1 (input : bytes) : checked JournalCommandCodecError JournalNewOrderV1 :=
  envelope ← validateJournalV1CommandEnvelope input JOURNAL_V1_NEW_ORDER_RECORD_TYPE true;
  '(rules, configuration, clientId, instrumentId, clientCommandId) ←
    readCommonPayload input envelope NEW_ORDER_PAYLOAD_SIZE_WITHOUT_CLIENT_COMMAND_ID;
  let variableFieldsOffset :=
    (JOURNAL_V1_PAYLOAD_OFFSET + CLIENT_COMMAND_ID_PAYLOAD_OFFSET + String.length clientCommandId)%nat in
  sideByte ← readByte input variableFieldsOffset;
  side ← sideOfCode sideByte;
  timeInForceByte ← readByte input (variableFieldsOffset + 1);
  timeInForce ← timeInForceOfCode timeInForceByte;
  price ← readLE 8 input (variableFieldsOffset + 2);
  fail_if (bool_decide (price = 0)) ZERO_PRICE ;;
  quantity ← readLE 8 input (variableFieldsOffset + 10);
  fail_if (bool_decide (quantity = 0)) ZERO_QUANTITY ;;
  clientCommandId ← decodeClientCommandId clientCommandId;
  Ok (NewOrder.mkJournalNewOrderV1 (Envelope.exchangeRunId envelope) (Envelope.commandSequence envelope)
        rules configuration clientId instrumentId clientCommandId side timeInForce price quantity).

(** ** Cancels *)
Definition encodeCancelV1 (command : JournalCancelV1) : checked JournalCommandCodecError bytes :=
  validateCommonCommand (Cancel.exchangeRunId command) (Cancel.commandSequence command)
    (Cancel.behavioralRulesVersion command) (Cancel.configurationVersion command)
    (Cancel.clientId command) (Cancel.instrumentId command) ;;
  fail_if (bool_decide (Cancel.targetOrderId command = 0)) ZERO_TARGET_ORDER_ID ;;
  let size := String.length (Cancel.clientCommandId command) in
  let payloadLength := (CANCEL_PAYLOAD_SIZE_WITHOUT_CLIENT_COMMAND_ID + size)%nat in
  let encoded := replicate (JOURNAL_V1_ENVELOPE_SIZE + payloadLength) Byte.x00 in
  encoded ← writeEnvelope encoded JOURNAL_V1_CANCEL_RECORD_TYPE (Cancel.exchangeRunId command)
              (Cancel.commandSequence command) payloadLength;
  encoded ← writeCommonPayload encoded (Cancel.behavioralRulesVersion command)
              (Cancel.configurationVersion command) (Cancel.clientId command)
              (Cancel.instrumentId command) (Cancel.clientCommandId command);
  encoded ← writeLE 8 encoded (JOURNAL_V1_PAYLOAD_OFFSET + CLIENT_COMMAND_ID_PAYLOAD_OFFSET + size)
              (Cancel.targetOrderId command);
  writeChecksum encoded.

Definition decodeCancelV1 (input : bytes) : checked JournalCommandCodecError JournalCancelV1 :=
  envelope ← validateJournalV1CommandEnvelope input JOURNAL_V1_CANCEL_RECORD_TYPE true;
  '(rules, configuration, clientId, instrumentId, clientCommandId) ←
    readCommonPayload input envelope CANCEL_PAYLOAD_SIZE_WITHOUT_CLIENT_COMMAND_ID;
  targetOrderId ← readLE 8 input
    (JOURNAL_V1_PAYLOAD_OFFSET + CLIENT_COMMAND_ID_PAYLOAD_OFFSET + String.length clientCommandId);
  fail_if (bool_decide (targetOrderId = 0)) ZERO_TARGET_ORDER_ID ;;
  clientCommandId ← decodeClientCommandId clientCommandId;
  Ok (Cancel.mkJournalCancelV1 (Envelope.exchangeRunId envelope) (Envelope.commandSequence envelope)
        rules configuration clientId instrumentId clientCommandId targetOrderId).
