(* ===== verification/JournalFrames.v ===== *)
(** * The language of journal command frames

    [frameOf] and the payload layouts describe the frames byte by byte; the
    encoders produce exactly these frames and the decoders accept exactly them. *)
From S2P Require Import Prelude Domain Bytes JournalCodec.
Import CodecError.

(** ** The envelope's language *)
Definition envelopeHead (recordType : Z) (payloadLength : nat) (run sequence : Z) : bytes :=
  JOURNAL_V1_MAGIC ++ leBytes 2 JOURNAL_V1_FORMAT_VERSION ++ leBytes 2 recordType ++
  leBytes 4 (Z.of_nat (JOURNAL_V1_ENVELOPE_SIZE + payloadLength)) ++ leBytes 8 run ++ leBytes 8 sequence ++
  leBytes 4 (Z.of_nat payloadLength).

Definition checksumOf (head payload : bytes) : Z :=
  crcChecksum (crcUpdate (crcUpdate CRC_INITIAL_STATE head) payload).

Definition frameOf (recordType run sequence : Z) (payload : bytes) : bytes :=
  let head := envelopeHead recordType (length payload) run sequence in
  head ++ leBytes 4 (checksumOf head payload) ++ payload.

Lemma envelopeHead_length t n run sequence : length (envelopeHead t n run sequence) = 32%nat.
Proof. unfold envelopeHead. autorewrite with field_length. done. Qed.
#[export] Hint Rewrite envelopeHead_length : field_length.

Lemma frameOf_length t run sequence payload :
  length (frameOf t run sequence payload) = (36 + length payload)%nat.
Proof. unfold frameOf. autorewrite with field_length. lia. Qed.

Lemma journalV1Checksum_run {E} (head c payload : bytes) :
  length head = 32%nat → length c = 4%nat →
  journalV1Checksum (E:=E) (head ++ c ++ payload) = Ok (checksumOf head payload).
Proof.
  intros Hh Hc. unfold journalV1Checksum, JOURNAL_V1_CHECKSUM_OFFSET. rewrite subspan_here by done.
  rewrite checked_bind_ok. unfold suffix, JOURNAL_V1_PAYLOAD_OFFSET, JOURNAL_V1_ENVELOPE_SIZE.
  rewrite bool_decide_eq_true_2 by (rewrite !length_app; lia).
  rewrite checked_bind_ok, app_assoc, drop_app_ge by (rewrite length_app; lia).
  replace (36 - length (head ++ c))%nat with 0%nat by (rewrite length_app; lia). done.
Qed.

Lemma in_bounds_checksum {E A} frame (f : Z → checked E A) :
  (36 ≤ length frame)%nat → (∀ a, in_bounds (f a)) → in_bounds (journalV1Checksum frame ≫= f).
Proof.
  intros Hl Hf. unfold journalV1Checksum, suffix, JOURNAL_V1_CHECKSUM_OFFSET, JOURNAL_V1_PAYLOAD_OFFSET,
    JOURNAL_V1_ENVELOPE_SIZE. rewrite subspan_run, checked_bind_ok by lia.
  rewrite bool_decide_eq_true_2 by done. apply Hf.
Qed.

Definition recordTypeOk (t : Z) : Prop := t = JOURNAL_V1_NEW_ORDER_RECORD_TYPE ∨ t = JOURNAL_V1_CANCEL_RECORD_TYPE.

Lemma leNumber_field w v : 0 ≤ v < 256 ^ Z.of_nat w → leNumber (leBytes w v) = v.
Proof. apply leNumber_leBytes_small. Qed.

Lemma u64_field v : is_u64 v → 0 ≤ v < 256 ^ Z.of_nat 8.
Proof. unfold is_u64, UINT64_MAX. simpl. lia. Qed.

Lemma leNumber_u64 v : is_u64 v → leNumber (leBytes 8 v) = v.
Proof. intros. by apply leNumber_field, u64_field. Qed.

Lemma leNumber_u32 v : is_u32 v → leNumber (leBytes 4 v) = v.
Proof. unfold is_u32, UINT32_MAX. intros. apply leNumber_field. simpl. lia. Qed.

Lemma field_u64 seg : length seg = 8%nat → is_u64 (leNumber seg).
Proof.
  intros Hl. pose proof (leNumber_bounds seg) as Hb. rewrite Hl in Hb. simpl in Hb. unfold is_u64, UINT64_MAX. lia.
Qed.

Lemma field_u32 seg : length seg = 4%nat → is_u32 (leNumber seg).
Proof.
  intros Hl. pose proof (leNumber_bounds seg) as Hb. rewrite Hl in Hb. simpl in Hb. unfold is_u32, UINT32_MAX. lia.
Qed.

(** A field whose number is known. *)
Lemma field_is w seg v : length seg = w → leNumber seg = v → seg = leBytes w v.
Proof. intros Hl <-. by apply field_bytes. Qed.

Lemma checksumOf_field head payload : 0 ≤ checksumOf head payload < 256 ^ Z.of_nat 4.
Proof. apply crcChecksum_bounds. apply crcUpdate_state, crcUpdate_state, crc_initial_state. Qed.

Ltac false_check := rewrite fail_if_false by (apply bool_decide_eq_false; autorewrite with field_length; simpl; lia).

(** The envelope check on the values of the envelope's fields. *)
Definition checkEnvelope (size : Z) (magic : bytes) (version t total run sequence payloadLength stored computed : Z)
    (expected : Z) : checked JournalCommandCodecError JournalV1CommandEnvelope :=
  fail_if (bool_decide (256 < size)) FRAME_TOO_LARGE ;;
  fail_if (bool_decide (magic ≠ JOURNAL_V1_MAGIC)) INVALID_MAGIC ;;
  fail_if (bool_decide (version ≠ JOURNAL_V1_FORMAT_VERSION)) UNSUPPORTED_FORMAT_VERSION ;;
  fail_if (negb (bool_decide (t = JOURNAL_V1_NEW_ORDER_RECORD_TYPE) ||
                 bool_decide (t = JOURNAL_V1_CANCEL_RECORD_TYPE)) ||
           (bool_decide (expected ≠ 0) && bool_decide (t ≠ expected))) UNSUPPORTED_RECORD_TYPE ;;
  fail_if (bool_decide (total < 36)) INVALID_TOTAL_LENGTH ;;
  fail_if (bool_decide (256 < total)) FRAME_TOO_LARGE ;;
  fail_if (bool_decide (size < total)) TRUNCATED_INPUT ;;
  fail_if (bool_decide (total < size)) TRAILING_BYTES ;;
  fail_if (bool_decide (run = 0)) ZERO_EXCHANGE_RUN_ID ;;
  fail_if (bool_decide (sequence = 0)) ZERO_COMMAND_SEQUENCE ;;
  fail_if (bool_decide (36 + payloadLength ≠ total)) INVALID_PAYLOAD_LENGTH ;;
  fail_if (bool_decide (stored ≠ computed)) CHECKSUM_MISMATCH ;;
  Ok (Envelope.mkEnvelope t total run sequence payloadLength).

Section envelope_fields.
Context (magic version t total run sequence payloadLength stored payload : bytes).
Context (Hmagic : length magic = 4%nat) (Hversion : length version = 2%nat) (Ht : length t = 2%nat)
  (Htotal : length total = 4%nat) (Hrun : length run = 8%nat) (Hsequence : length sequence = 8%nat)
  (HpayloadLength : length payloadLength = 4%nat) (Hstored : length stored = 4%nat).

Lemma validate_fields expected :
  validateJournalV1CommandEnvelope
    (magic ++ version ++ t ++ total ++ run ++ sequence ++ payloadLength ++ stored ++ payload) expected true =
  checkEnvelope (Z.of_nat (36 + length payload)) magic (leNumber version) (leNumber t) (leNumber total)
    (leNumber run) (leNumber sequence) (leNumber payloadLength) (leNumber stored)
    (checksumOf (magic ++ version ++ t ++ total ++ run ++ sequence ++ payloadLength) payload) expected.
Proof using All.
  unfold validateJournalV1CommandEnvelope, checkEnvelope, JOURNAL_V1_ENVELOPE_SIZE, JOURNAL_V1_COMMAND_MAX_FRAME_SIZE,
    JOURNAL_V1_FORMAT_VERSION_OFFSET, JOURNAL_V1_RECORD_TYPE_OFFSET, JOURNAL_V1_TOTAL_LENGTH_OFFSET,
    JOURNAL_V1_EXCHANGE_RUN_ID_OFFSET, JOURNAL_V1_COMMAND_SEQUENCE_OFFSET, JOURNAL_V1_PAYLOAD_LENGTH_OFFSET,
    JOURNAL_V1_CHECKSUM_OFFSET.
  rewrite !length_app, Hmagic, Hversion, Ht, Htotal, Hrun, Hsequence, HpayloadLength, Hstored. cbn [Nat.add].
  rewrite fail_if_false by (apply bool_decide_eq_false; lia).
  rewrite (bool_decide_ext (256 < _)%nat (256 < Z.of_nat (36 + length payload))) by lia.
  pose proof (journalV1Checksum_run (E:=JournalCommandCodecError)
    (magic ++ version ++ t ++ total ++ run ++ sequence ++ payloadLength) stored payload
    ltac:(rewrite !length_app; lia) Hstored) as Hsum.
  rewrite <-!app_assoc in Hsum. rewrite Hsum. repeat read_field. reflexivity.
Qed.
End envelope_fields.

Lemma frameOf_fields t run sequence payload :
  frameOf t run sequence payload =
  JOURNAL_V1_MAGIC ++ leBytes 2 JOURNAL_V1_FORMAT_VERSION ++ leBytes 2 t ++
  leBytes 4 (Z.of_nat (36 + length payload)) ++ leBytes 8 run ++ leBytes 8 sequence ++
  leBytes 4 (Z.of_nat (length payload)) ++
  leBytes 4 (checksumOf (envelopeHead t (length payload) run sequence) payload) ++ payload.
Proof. unfold frameOf, envelopeHead. by rewrite <-!app_assoc. Qed.

(** The decoder's envelope check accepts a frame of the language ... *)
Lemma validate_frameOf t run sequence payload :
  recordTypeOk t → is_u64 run → run ≠ 0 → is_u64 sequence → sequence ≠ 0 → (length payload ≤ 220)%nat →
  validateJournalV1CommandEnvelope (frameOf t run sequence payload) t true =
  Ok (Envelope.mkEnvelope t (Z.of_nat (36 + length payload)) run sequence (Z.of_nat (length payload))).
Proof.
  intros Ht Hrun Hrun0 Hseq Hseq0 Hlen. rewrite frameOf_fields, validate_fields by apply leBytes_length || done.
  rewrite !leNumber_field by (first [apply u64_field; done | apply checksumOf_field | simpl; lia |
    destruct Ht as [-> | ->]; vm_compute; split; discriminate || reflexivity | vm_compute; split; discriminate || reflexivity]).
  unfold checkEnvelope. fold (envelopeHead t (length payload) run sequence).
  rewrite !(bool_decide_eq_false_2 (?[x] ≠ ?x)) by auto.
  repeat rewrite fail_if_false by first
    [ apply bool_decide_eq_false; lia | done
    | rewrite andb_false_r, orb_false_r; destruct Ht as [-> | ->]; reflexivity ].
  done.
Qed.

(** Fields with the right numbers make a frame. *)
Lemma frameOf_intro magic version ty total run sequence plen stored payload t :
  length version = 2%nat → length ty = 2%nat → length total = 4%nat → length run = 8%nat →
  length sequence = 8%nat → length plen = 4%nat → length stored = 4%nat →
  magic = JOURNAL_V1_MAGIC → leNumber version = JOURNAL_V1_FORMAT_VERSION → leNumber ty = t →
  leNumber total = Z.of_nat (36 + length payload) → leNumber plen = Z.of_nat (length payload) →
  leNumber stored = checksumOf (magic ++ version ++ ty ++ total ++ run ++ sequence ++ plen) payload →
  magic ++ version ++ ty ++ total ++ run ++ sequence ++ plen ++ stored ++ payload =
  frameOf t (leNumber run) (leNumber sequence) payload.
Proof.
  intros H2 H3 H4 H5 H6 H7 H8 -> Hv Ht Htot Hpl Hst. unfold frameOf.
  replace (envelopeHead _ _ _ _) with (JOURNAL_V1_MAGIC ++ version ++ ty ++ total ++ run ++ sequence ++ plen).
  - rewrite (field_is _ _ _ H8 Hst). by rewrite <-!app_assoc.
  - unfold envelopeHead. rewrite (field_is _ _ _ H2 Hv), (field_is _ _ _ H3 Ht), (field_is _ _ _ H4 Htot),
      (field_is _ _ _ H7 Hpl) at 1. by rewrite <-(field_bytes _ _ H5), <-(field_bytes _ _ H6).
Qed.

(** ... and nothing else. *)
Lemma validate_inv input t envelope :
  recordTypeOk t → validateJournalV1CommandEnvelope input t true = Ok envelope →
  ∃ run sequence payload, input = frameOf t run sequence payload ∧
    is_u64 run ∧ run ≠ 0 ∧ is_u64 sequence ∧ sequence ≠ 0 ∧ (length payload ≤ 220)%nat ∧
    envelope = Envelope.mkEnvelope t (Z.of_nat (36 + length payload)) run sequence (Z.of_nat (length payload)).
Proof.
  intros Ht Hv. assert (Hsize : (36 ≤ length input)%nat).
  { unfold validateJournalV1CommandEnvelope, JOURNAL_V1_ENVELOPE_SIZE in Hv.
    apply fail_if_inv in Hv as [Hb%bool_decide_eq_false _]. lia. }
  destruct (cut_field 4 input) as (magic & r1 & -> & H1); [lia|]. rewrite length_app in Hsize.
  destruct (cut_field 2 r1) as (version & r2 & -> & H2); [lia|]. rewrite length_app in Hsize.
  destruct (cut_field 2 r2) as (ty & r3 & -> & H3); [lia|]. rewrite length_app in Hsize.
  destruct (cut_field 4 r3) as (total & r4 & -> & H4); [lia|]. rewrite length_app in Hsize.
  destruct (cut_field 8 r4) as (run & r5 & -> & H5); [lia|]. rewrite length_app in Hsize.
  destruct (cut_field 8 r5) as (sequence & r6 & -> & H6); [lia|]. rewrite length_app in Hsize.
  destruct (cut_field 4 r6) as (plen & r7 & -> & H7); [lia|]. rewrite length_app in Hsize.
  destruct (cut_field 4 r7) as (stored & payload & -> & H8); [lia|].
  rewrite validate_fields in Hv by done. unfold checkEnvelope in Hv.
  repeat match type of Hv with
         | (fail_if _ _ ≫= _) = Ok _ => let Hb := fresh "Hb" in apply fail_if_inv in Hv as [Hb Hv]
         end.
  injection Hv as <-.
  apply bool_decide_eq_false in Hb, Hb0, Hb1, Hb3, Hb4, Hb5, Hb6, Hb7, Hb8, Hb9, Hb10.
  assert (Hty : leNumber ty = t).
  { apply orb_false_iff in Hb2 as [_ Hb2]. rewrite bool_decide_eq_true_2 in Hb2 by (destruct Ht; subst; done).
    apply bool_decide_eq_false in Hb2. lia. }
  exists (leNumber run), (leNumber sequence), payload.
  assert (Hplen : leNumber plen = Z.of_nat (length payload)) by lia.
  assert (Htotal : leNumber total = Z.of_nat (36 + length payload)) by lia.
  assert (magic = JOURNAL_V1_MAGIC) as -> by (apply dec_stable; auto).
  split_and!; [|by apply field_u64|lia|by apply field_u64|lia|lia|by rewrite Hty, Htotal, Hplen].
  apply frameOf_intro; try done; lia.
Qed.

(** ** The payloads' language *)
Definition commandIdBytes (c : ClientCommandId) : bytes := String.list_byte_of_string c.

Definition commonPayload (rules configuration : Z) (client : ClientId) (instrument : InstrumentId)
    (c : ClientCommandId) : bytes :=
  leBytes 4 rules ++ leBytes 4 configuration ++ leBytes 8 client ++ leBytes 8 instrument ++
  leBytes 1 (Z.of_nat (String.length c)) ++ commandIdBytes c.

Lemma commandIdBytes_length c : length (commandIdBytes c) = String.length c.
Proof.
  unfold commandIdBytes, String.list_byte_of_string. rewrite List.length_map.
  induction c as [|a c IH]; simpl; [done|]. by rewrite IH.
Qed.
#[export] Hint Rewrite commandIdBytes_length : field_length.

Lemma commonPayload_length rules configuration client instrument c :
  length (commonPayload rules configuration client instrument c) = (25 + String.length c)%nat.
Proof. unfold commonPayload. autorewrite with field_length. lia. Qed.
#[export] Hint Rewrite commonPayload_length : field_length.

Lemma commandIdBytes_string l : commandIdBytes (String.string_of_list_byte l) = l.
Proof. apply String.list_byte_of_string_of_list_byte. Qed.

Lemma string_commandIdBytes c : String.string_of_list_byte (commandIdBytes c) = c.
Proof. apply String.string_of_list_byte_of_string. Qed.

(** What the common checks of encoder and decoder demand. *)
Record valid_common (run : ExchangeRunId) (sequence : CommandSequence) (rules configuration : Z)
    (client : ClientId) (instrument : InstrumentId) (c : ClientCommandId) : Prop := {
  vcm_run : is_u64 run ∧ run ≠ 0;
  vcm_sequence : is_u64 sequence ∧ sequence ≠ 0;
  vcm_rules : rules = BEHAVIORAL_RULES_VERSION;
  vcm_configuration : is_u32 configuration ∧ configuration ≠ 0;
  vcm_client : is_u64 client ∧ client ≠ 0;
  vcm_instrument : is_u64 instrument ∧ instrument ≠ 0;
  vcm_command : valid_ClientCommandId c }.

Lemma validateCommonCommand_run run sequence rules configuration client instrument c :
  valid_common run sequence rules configuration client instrument c →
  validateCommonCommand run sequence rules configuration client instrument = Ok tt.
Proof.
  intros [[_ ?] [_ ?] -> [_ ?] [_ ?] [_ ?] _]. unfold validateCommonCommand.
  rewrite !(bool_decide_eq_false_2 (_ = 0)) by done. by rewrite bool_decide_eq_false_2 by auto.
Qed.

Lemma validateCommonCommand_inv run sequence rules configuration client instrument :
  validateCommonCommand run sequence rules configuration client instrument = Ok tt →
  run ≠ 0 ∧ sequence ≠ 0 ∧ rules = BEHAVIORAL_RULES_VERSION ∧ configuration ≠ 0 ∧ client ≠ 0 ∧ instrument ≠ 0.
Proof.
  unfold validateCommonCommand. intros Hv.
  repeat match type of Hv with
         | (fail_if _ _ ≫= _) = Ok _ => let Hb := fresh "Hb" in apply fail_if_inv in Hv as [Hb%bool_decide_eq_false Hv]
         end.
  unfold fail_if in Hv. case_bool_decide; [done|]. split_and!; try done. by apply dec_stable.
Qed.

(** ** What the encoders write *)
Lemma zeros_app n m : replicate (n + m) Byte.x00 = replicate n Byte.x00 ++ replicate m Byte.x00.
Proof. apply replicate_add. Qed.

Lemma writeEnvelope_run t run sequence n :
  (n ≤ 220)%nat →
  writeEnvelope (replicate (36 + n) Byte.x00) t run sequence n =
  Ok (envelopeHead t n run sequence ++ replicate 4 Byte.x00 ++ replicate n Byte.x00).
Proof.
  intros Hn.
  change (36 + n)%nat with (4 + (2 + (2 + (4 + (8 + (8 + (4 + (4 + n))))))))%nat. rewrite !zeros_app.
  unfold writeEnvelope, JOURNAL_V1_FORMAT_VERSION_OFFSET, JOURNAL_V1_RECORD_TYPE_OFFSET,
    JOURNAL_V1_TOTAL_LENGTH_OFFSET, JOURNAL_V1_EXCHANGE_RUN_ID_OFFSET, JOURNAL_V1_COMMAND_SEQUENCE_OFFSET,
    JOURNAL_V1_PAYLOAD_LENGTH_OFFSET.
  rewrite !wrap32_small by (unfold is_u32, UINT32_MAX, JOURNAL_V1_ENVELOPE_SIZE; lia).
  repeat write_field. unfold envelopeHead. by rewrite <-!app_assoc.
Qed.

Lemma writeCommonPayload_run head rest rules configuration client instrument c :
  length head = 36%nat → (String.length c ≤ 64)%nat →
  writeCommonPayload (head ++ replicate (25 + String.length c) Byte.x00 ++ rest) rules configuration client
    instrument c = Ok (head ++ commonPayload rules configuration client instrument c ++ rest).
Proof.
  intros Hhead Hc.
  change (25 + String.length c)%nat with (4 + (4 + (8 + (8 + (1 + String.length c)))))%nat.
  rewrite !zeros_app, <-!app_assoc.
  unfold writeCommonPayload, JOURNAL_V1_PAYLOAD_OFFSET, JOURNAL_V1_ENVELOPE_SIZE, RULES_VERSION_PAYLOAD_OFFSET,
    CONFIGURATION_VERSION_PAYLOAD_OFFSET, CLIENT_ID_PAYLOAD_OFFSET, INSTRUMENT_ID_PAYLOAD_OFFSET,
    CLIENT_COMMAND_ID_LENGTH_PAYLOAD_OFFSET, CLIENT_COMMAND_ID_PAYLOAD_OFFSET.
  fold (commandIdBytes c). unfold wrap8. rewrite wrap_small by lia.
  repeat write_field. unfold commonPayload. by rewrite <-!app_assoc.
Qed.

Lemma writeChecksum_run t run sequence payload c :
  length c = 4%nat →
  writeChecksum (envelopeHead t (length payload) run sequence ++ c ++ payload) =
  Ok (frameOf t run sequence payload).
Proof.
  intros Hc. unfold writeChecksum. rewrite journalV1Checksum_run by (done || apply envelopeHead_length).
  rewrite checked_bind_ok. unfold JOURNAL_V1_CHECKSUM_OFFSET. by write_field.
Qed.

(** ** New orders *)
Definition sideByte (side : Side) : Z := match side with Side.SELL => SELL_WIRE_CODE | _ => BUY_WIRE_CODE end.
Definition tifByte (tif : TimeInForce) : Z := match tif with TIF.IOC => IOC_WIRE_CODE | _ => GTC_WIRE_CODE end.

Definition newOrderPayload (command : JournalNewOrderV1) : bytes :=
  commonPayload (NewOrder.behavioralRulesVersion command) (NewOrder.configurationVersion command)
    (NewOrder.clientId command) (NewOrder.instrumentId command) (NewOrder.clientCommandId command) ++
  leBytes 1 (sideByte (NewOrder.side command)) ++ leBytes 1 (tifByte (NewOrder.timeInForce command)) ++
  leBytes 8 (NewOrder.price command) ++ leBytes 8 (NewOrder.quantity command).

Definition newOrderFrame (command : JournalNewOrderV1) : bytes :=
  frameOf JOURNAL_V1_NEW_ORDER_RECORD_TYPE (NewOrder.exchangeRunId command) (NewOrder.commandSequence command)
    (newOrderPayload command).

Record valid_newOrder (command : JournalNewOrderV1) : Prop := {
  vn_common : valid_common (NewOrder.exchangeRunId command) (NewOrder.commandSequence command)
    (NewOrder.behavioralRulesVersion command) (NewOrder.configurationVersion command)
    (NewOrder.clientId command) (NewOrder.instrumentId command) (NewOrder.clientCommandId command);
  vn_side : NewOrder.side command = Side.BUY ∨ NewOrder.side command = Side.SELL;
  vn_tif : NewOrder.timeInForce command = TIF.GTC ∨ NewOrder.timeInForce command = TIF.IOC;
  vn_price : is_u64 (NewOrder.price command) ∧ NewOrder.price command ≠ 0;
  vn_quantity : is_u64 (NewOrder.quantity command) ∧ NewOrder.quantity command ≠ 0 }.

Lemma newOrderPayload_length command :
  length (newOrderPayload command) = (43 + String.length (NewOrder.clientCommandId command))%nat.
Proof. unfold newOrderPayload. autorewrite with field_length. lia. Qed.
#[export] Hint Rewrite newOrderPayload_length : field_length.

Lemma sideCode_run side : side = Side.BUY ∨ side = Side.SELL → sideCode side = Ok (sideByte side).
Proof. by intros [-> | ->]. Qed.

Lemma timeInForceCode_run tif : tif = TIF.GTC ∨ tif = TIF.IOC → timeInForceCode tif = Ok (tifByte tif).
Proof. by intros [-> | ->]. Qed.

Lemma sideOfCode_run side : side = Side.BUY ∨ side = Side.SELL → sideOfCode (leNumber (leBytes 1 (sideByte side))) = Ok side.
Proof. intros [-> | ->]; vm_compute; reflexivity. Qed.

Lemma timeInForceOfCode_run tif :
  tif = TIF.GTC ∨ tif = TIF.IOC → timeInForceOfCode (leNumber (leBytes 1 (tifByte tif))) = Ok tif.
Proof. intros [-> | ->]; vm_compute; reflexivity. Qed.

Lemma sideOfCode_inv code side :
  sideOfCode code = Ok side → (side = Side.BUY ∨ side = Side.SELL) ∧ code = sideByte side.
Proof. unfold sideOfCode. repeat case_bool_decide; intros; simplify_eq; auto. Qed.

Lemma timeInForceOfCode_inv code tif :
  timeInForceOfCode code = Ok tif → (tif = TIF.GTC ∨ tif = TIF.IOC) ∧ code = tifByte tif.
Proof. unfold timeInForceOfCode. repeat case_bool_decide; intros; simplify_eq; auto. Qed.

Lemma encodeNewOrderV1_run command :
  valid_newOrder command → encodeNewOrderV1 command = Ok (newOrderFrame command).
Proof.
  intros [Hcommon Hside Htif [_ Hprice] [_ Hquantity]].
  pose proof (vcm_command _ _ _ _ _ _ _ Hcommon) as [Hc _]. unfold CLIENT_COMMAND_ID_MAX_LENGTH in Hc.
  unfold encodeNewOrderV1. erewrite validateCommonCommand_run by exact Hcommon. rewrite checked_bind_ok.
  rewrite sideCode_run, checked_bind_ok, timeInForceCode_run, checked_bind_ok by done.
  rewrite !(bool_decide_eq_false_2 (_ = 0)) by done. cbn [fail_if]. rewrite !checked_bind_ok.
  unfold JOURNAL_V1_ENVELOPE_SIZE, NEW_ORDER_PAYLOAD_SIZE_WITHOUT_CLIENT_COMMAND_ID.
  rewrite writeEnvelope_run, checked_bind_ok by lia.
  replace (replicate (43 + String.length (NewOrder.clientCommandId command)) Byte.x00) with
    (replicate (25 + String.length (NewOrder.clientCommandId command)) Byte.x00 ++
     replicate 1 Byte.x00 ++ replicate 1 Byte.x00 ++ replicate 8 Byte.x00 ++ replicate 8 Byte.x00 ++ [])
    by (rewrite app_nil_r, <-!zeros_app; f_equal; lia).
  rewrite (app_assoc (envelopeHead _ _ _ _)).
  rewrite writeCommonPayload_run, checked_bind_ok by (field_len || lia). rewrite <-!app_assoc.
  unfold JOURNAL_V1_PAYLOAD_OFFSET, JOURNAL_V1_ENVELOPE_SIZE, CLIENT_COMMAND_ID_PAYLOAD_OFFSET.
  do 4 write_field. rewrite app_nil_r.
  unfold newOrderFrame. rewrite <-writeChecksum_run with (c := replicate 4 Byte.x00) by done.
  rewrite newOrderPayload_length. unfold newOrderPayload. done.
Qed.

(** ** What the decoders read *)
Section payload_fields.
Context (pre p1 p2 p3 p4 p5 cc rest : bytes) (envelope : JournalV1CommandEnvelope) (size : nat).
Context (Hpre : length pre = 36%nat) (H1 : length p1 = 4%nat) (H2 : length p2 = 4%nat) (H3 : length p3 = 8%nat)
  (H4 : length p4 = 8%nat) (H5 : length p5 = 1%nat) (Hcc : leNumber p5 = Z.of_nat (length cc)).

(** Reading the common prefix of a payload given by its fields. *)
Lemma readCommonPayload_fields :
  readCommonPayload (pre ++ p1 ++ p2 ++ p3 ++ p4 ++ p5 ++ cc ++ rest) envelope size =
  (fail_if (bool_decide (Envelope.payloadLength envelope < Z.of_nat size)) INVALID_PAYLOAD_LENGTH ;;
   fail_if (bool_decide (Envelope.payloadLength envelope ≠ Z.of_nat size + Z.of_nat (length cc)))
     INVALID_PAYLOAD_LENGTH ;;
   validateCommonCommand (Envelope.exchangeRunId envelope) (Envelope.commandSequence envelope)
     (leNumber p1) (leNumber p2) (leNumber p3) (leNumber p4) ;;
   Ok (leNumber p1, leNumber p2, leNumber p3, leNumber p4, String.string_of_list_byte cc)).
Proof using All.
  unfold readCommonPayload, readByte, JOURNAL_V1_PAYLOAD_OFFSET, JOURNAL_V1_ENVELOPE_SIZE,
    RULES_VERSION_PAYLOAD_OFFSET, CONFIGURATION_VERSION_PAYLOAD_OFFSET, CLIENT_ID_PAYLOAD_OFFSET,
    INSTRUMENT_ID_PAYLOAD_OFFSET, CLIENT_COMMAND_ID_LENGTH_PAYLOAD_OFFSET, CLIENT_COMMAND_ID_PAYLOAD_OFFSET.
  repeat read_field. by rewrite Hcc.
Qed.

(** The command id length of a payload that is long enough. *)
Lemma readCommonPayload_size result :
  readCommonPayload (pre ++ p1 ++ p2 ++ p3 ++ p4 ++ p5 ++ cc ++ rest) envelope size = Ok result →
  Envelope.payloadLength envelope = Z.of_nat size + leNumber p5.
Proof using Hpre H1 H2 H3 H4 H5.
  unfold readCommonPayload, readByte, JOURNAL_V1_PAYLOAD_OFFSET, JOURNAL_V1_ENVELOPE_SIZE,
    CLIENT_COMMAND_ID_LENGTH_PAYLOAD_OFFSET. intros [_ Hr]%fail_if_inv. revert Hr.
  unfold RULES_VERSION_PAYLOAD_OFFSET, CONFIGURATION_VERSION_PAYLOAD_OFFSET, CLIENT_ID_PAYLOAD_OFFSET,
    INSTRUMENT_ID_PAYLOAD_OFFSET. repeat read_field. intros [Hb%bool_decide_eq_false _]%fail_if_inv. lia.
Qed.
End payload_fields.

(** The fields of a payload the common prefix was read from. *)
Lemma readCommonPayload_inv pre payload envelope size extra result :
  length pre = 36%nat → Envelope.payloadLength envelope = Z.of_nat (length payload) →
  size = (25 + extra)%nat →
  readCommonPayload (pre ++ payload) envelope size = Ok result →
  ∃ rules configuration client instrument cc rest,
    payload = commonPayload rules configuration client instrument cc ++ rest ∧
    length rest = extra ∧ result = (rules, configuration, client, instrument, cc) ∧
    validateCommonCommand (Envelope.exchangeRunId envelope) (Envelope.commandSequence envelope)
      rules configuration client instrument = Ok tt ∧
    is_u32 configuration ∧ is_u64 client ∧ is_u64 instrument ∧ (String.length cc < 256)%nat.
Proof.
  intros Hpre Hplen -> Hr. assert (Hsize : (25 + extra ≤ length payload)%nat).
  { unfold readCommonPayload in Hr. apply fail_if_inv in Hr as [Hb%bool_decide_eq_false _]. lia. }
  destruct (cut_field 4 payload) as (p1 & r1 & -> & H1); [lia|]. rewrite length_app in Hsize.
  destruct (cut_field 4 r1) as (p2 & r2 & -> & H2); [lia|]. rewrite length_app in Hsize.
  destruct (cut_field 8 r2) as (p3 & r3 & -> & H3); [lia|]. rewrite length_app in Hsize.
  destruct (cut_field 8 r3) as (p4 & r4 & -> & H4); [lia|]. rewrite length_app in Hsize.
  destruct (cut_field 1 r4) as (p5 & r5 & -> & H5); [lia|]. rewrite length_app in Hsize.
  rewrite !length_app in Hplen.
  pose proof (readCommonPayload_size pre p1 p2 p3 p4 p5 [] r5 envelope (25 + extra) Hpre H1 H2 H3 H4 H5 result Hr) as Hn.
  pose proof (leNumber_bounds p5) as Hb5. rewrite H5 in Hb5. simpl in Hb5.
  destruct (cut_field (Z.to_nat (leNumber p5)) r5) as (cc & rest & -> & Hcc); [lia|].
  rewrite length_app in Hplen.
  rewrite (readCommonPayload_fields pre p1 p2 p3 p4 p5 cc rest) in Hr by (done || lia).
  apply fail_if_inv in Hr as [_ Hr]. apply fail_if_inv in Hr as [_ Hr].
  apply checked_bind_inv in Hr as ([] & Hvalid & Hr). injection Hr as <-.
  exists (leNumber p1), (leNumber p2), (leNumber p3), (leNumber p4), (String.string_of_list_byte cc), rest.
  pose proof (leNumber_bounds p2) as B2. pose proof (leNumber_bounds p3) as B3. pose proof (leNumber_bounds p4) as B4.
  rewrite H2 in B2. rewrite H3 in B3. rewrite H4 in B4. simpl in B2, B3, B4.
  assert (Hstr : String.length (String.string_of_list_byte cc) = length cc)
    by (by rewrite <-commandIdBytes_length, commandIdBytes_string).
  split_and!; try done; try (unfold is_u32, is_u64, UINT32_MAX, UINT64_MAX; lia).
  unfold commonPayload. rewrite commandIdBytes_string, Hstr, <-!app_assoc.
  rewrite <-(field_bytes _ _ H1), <-(field_bytes _ _ H2), <-(field_bytes _ _ H3), <-(field_bytes _ _ H4).
  do 4 f_equal. rewrite (field_bytes _ _ H5) at 1. do 2 f_equal. lia.
Qed.

(** Splitting a frame after its envelope. *)
Lemma frameOf_split t run sequence payload :
  ∃ pre, frameOf t run sequence payload = pre ++ payload ∧ length pre = 36%nat.
Proof.
  unfold frameOf. eexists (_ ++ leBytes 4 _). rewrite <-app_assoc. split; [done|].
  autorewrite with field_length. done.
Qed.

Lemma readCommonPayload_run t run sequence rules configuration client instrument c rest size :
  valid_common run sequence rules configuration client instrument c →
  let payload := commonPayload rules configuration client instrument c ++ rest in
  length rest = (size - 25)%nat → (25 ≤ size)%nat →
  readCommonPayload (frameOf t run sequence payload)
    (Envelope.mkEnvelope t (Z.of_nat (36 + length payload)) run sequence (Z.of_nat (length payload))) size =
  Ok (rules, configuration, client, instrument, c).
Proof.
  intros Hv payload Hrest Hsize. destruct (frameOf_split t run sequence payload) as (pre & -> & Hpre).
  pose proof (vcm_command _ _ _ _ _ _ _ Hv) as [Hc _]. unfold CLIENT_COMMAND_ID_MAX_LENGTH in Hc.
  assert (Hlen : length payload = (size + String.length c)%nat)
    by (unfold payload; autorewrite with field_length; lia).
  rewrite Hlen. unfold payload, commonPayload. rewrite <-!app_assoc.
  destruct Hv as [? ? -> [[? ?] ?] [? ?] [? ?] ?] eqn:Hv'.
  rewrite readCommonPayload_fields; try apply leBytes_length; [|done|].
  - cbn [Envelope.payloadLength Envelope.exchangeRunId Envelope.commandSequence].
    rewrite commandIdBytes_length. do 2 (rewrite fail_if_false by (apply bool_decide_eq_false; lia)).
    rewrite !leNumber_u32, !leNumber_u64 by (done || (unfold is_u32, UINT32_MAX, BEHAVIORAL_RULES_VERSION; lia)).
    rewrite string_commandIdBytes. by erewrite validateCommonCommand_run by (by rewrite Hv').
  - rewrite commandIdBytes_length, leNumber_field; [done|]. simpl. lia.
Qed.

(** ** Decoding new orders *)
Lemma decodeClientCommandId_run c : valid_ClientCommandId c → decodeClientCommandId c = Ok c.
Proof. intros H. unfold decodeClientCommandId. by rewrite (proj2 (makeClientCommandId_valid c c)). Qed.

Lemma decodeClientCommandId_inv s c : decodeClientCommandId s = Ok c → c = s ∧ valid_ClientCommandId s.
Proof.
  unfold decodeClientCommandId. destruct (makeClientCommandId s) eqn:E; [|done].
  intros [= <-]. by apply makeClientCommandId_valid.
Qed.

(** The fields of a frame after its common payload. *)
Lemma frame_tail t run sequence rules configuration client instrument c tail :
  ∃ pre, frameOf t run sequence (commonPayload rules configuration client instrument c ++ tail) = pre ++ tail ∧
    length pre = (61 + String.length c)%nat.
Proof.
  destruct (frameOf_split t run sequence (commonPayload rules configuration client instrument c ++ tail))
    as (pre & -> & Hpre).
  exists (pre ++ commonPayload rules configuration client instrument c).
  rewrite <-app_assoc. split; [done|]. autorewrite with field_length. lia.
Qed.

Lemma decodeNewOrderV1_run command :
  valid_newOrder command → decodeNewOrderV1 (newOrderFrame command) = Ok command.
Proof.
  intros [Hcommon Hside Htif [Hprice Hprice0] [Hquantity Hquantity0]].
  pose proof (vcm_command _ _ _ _ _ _ _ Hcommon) as Hid. pose proof Hid as [Hc _].
  unfold CLIENT_COMMAND_ID_MAX_LENGTH in Hc.
  unfold decodeNewOrderV1, newOrderFrame.
  rewrite validate_frameOf, checked_bind_ok by
    (first [by left | apply Hcommon | rewrite newOrderPayload_length; lia]).
  unfold newOrderPayload.
  rewrite (readCommonPayload_run _ _ _ _ _ _ _ _ _ _ Hcommon), checked_bind_ok by
    (unfold NEW_ORDER_PAYLOAD_SIZE_WITHOUT_CLIENT_COMMAND_ID; field_len).
  cbn match. edestruct frame_tail as (pre & Hframe & Hpre). rewrite Hframe. clear Hframe.
  rewrite <-(app_nil_r (leBytes 8 (NewOrder.quantity command))).
  unfold readByte, JOURNAL_V1_PAYLOAD_OFFSET, JOURNAL_V1_ENVELOPE_SIZE, CLIENT_COMMAND_ID_PAYLOAD_OFFSET.
  repeat read_field. rewrite ?checked_bind_ok. rewrite sideOfCode_run, checked_bind_ok by done. repeat read_field. rewrite ?checked_bind_ok.
  rewrite timeInForceOfCode_run, checked_bind_ok by done. repeat read_field. rewrite ?checked_bind_ok.
  rewrite !leNumber_u64, !(bool_decide_eq_false_2 (_ = 0)) by done. cbn [fail_if]. rewrite !checked_bind_ok.
  repeat read_field. rewrite ?checked_bind_ok.
  rewrite decodeClientCommandId_run, checked_bind_ok by done. by destruct command.
Qed.

Lemma decodeNewOrderV1_inv input command :
  decodeNewOrderV1 input = Ok command → valid_newOrder command ∧ input = newOrderFrame command.
Proof.
  intros Hd. unfold decodeNewOrderV1 in Hd.
  apply checked_bind_inv in Hd as (envelope & Hv & Hd).
  apply validate_inv in Hv as (run & sequence & payload & -> & Hrun & Hrun0 & Hseq & Hseq0 & Hlen & ->); [|by left].
  apply checked_bind_inv in Hd as (result & Hr & Hd). revert Hd.
  destruct (frameOf_split JOURNAL_V1_NEW_ORDER_RECORD_TYPE run sequence payload) as (pre & Hpre & Hprelen).
  rewrite Hpre in Hr. eapply (readCommonPayload_inv _ _ _ _ 18) in Hr; [|done|done|done].
  destruct Hr as (rules & configuration & client & instrument & cc & rest & -> & Hrest & -> & Hvalid & Hcfg & Hcl & Hin & _).
  clear Hpre pre Hprelen. edestruct frame_tail as (pre & Hframe & Hpre). rewrite Hframe. intros Hd.
  destruct (cut_field 1 rest) as (b1 & r1 & -> & H1); [lia|]. rewrite length_app in Hrest.
  destruct (cut_field 1 r1) as (b2 & r2 & -> & H2); [lia|]. rewrite length_app in Hrest.
  destruct (cut_field 8 r2) as (b3 & b4 & -> & H3); [lia|]. rewrite length_app in Hrest.
  assert (H4 : length b4 = 8%nat) by lia. rewrite <-(app_nil_r b4) in Hd.
  unfold readByte, JOURNAL_V1_PAYLOAD_OFFSET, JOURNAL_V1_ENVELOPE_SIZE, CLIENT_COMMAND_ID_PAYLOAD_OFFSET in Hd.
  repeat read_field_in Hd. rewrite ?checked_bind_ok in Hd. apply checked_bind_inv in Hd as (side & [Hside Hb1]%sideOfCode_inv & Hd).
  repeat read_field_in Hd. rewrite ?checked_bind_ok in Hd. apply checked_bind_inv in Hd as (tif & [Htif Hb2]%timeInForceOfCode_inv & Hd).
  repeat read_field_in Hd. rewrite ?checked_bind_ok in Hd. apply fail_if_inv in Hd as [Hprice%bool_decide_eq_false Hd].
  repeat read_field_in Hd. rewrite ?checked_bind_ok in Hd. apply fail_if_inv in Hd as [Hquantity%bool_decide_eq_false Hd].
  apply checked_bind_inv in Hd as (c & [-> Hcc]%decodeClientCommandId_inv & Hd). injection Hd as <-.
  apply validateCommonCommand_inv in Hvalid as (_ & _ & ? & ? & ? & ?).
  pose proof (leNumber_bounds b3) as B3. pose proof (leNumber_bounds b4) as B4.
  rewrite H3 in B3. rewrite H4 in B4. simpl in B3, B4.
  split.
  - split; simpl; try done; try (split; [unfold is_u64, UINT64_MAX; lia|done]).
  - rewrite <-Hframe. unfold newOrderFrame, newOrderPayload.
    cbn [NewOrder.exchangeRunId NewOrder.commandSequence NewOrder.behavioralRulesVersion
         NewOrder.configurationVersion NewOrder.clientId NewOrder.instrumentId NewOrder.clientCommandId
         NewOrder.side NewOrder.timeInForce NewOrder.price NewOrder.quantity].
    do 2 f_equal.
    rewrite <-Hb1, <-Hb2. by rewrite <-(field_bytes _ _ H1), <-(field_bytes _ _ H2), <-(field_bytes _ _ H3), <-(field_bytes _ _ H4).
Qed.

(** ** Cancels *)
Definition cancelPayload (command : JournalCancelV1) : bytes :=
  commonPayload (Cancel.behavioralRulesVersion command) (Cancel.configurationVersion command)
    (Cancel.clientId command) (Cancel.instrumentId command) (Cancel.clientCommandId command) ++
  leBytes 8 (Cancel.targetOrderId command).

Definition cancelFrame (command : JournalCancelV1) : bytes :=
  frameOf JOURNAL_V1_CANCEL_RECORD_TYPE (Cancel.exchangeRunId command) (Cancel.commandSequence command)
    (cancelPayload command).

Record valid_journalCancel (command : JournalCancelV1) : Prop := {
  vjc_common : valid_common (Cancel.exchangeRunId command) (Cancel.commandSequence command)
    (Cancel.behavioralRulesVersion command) (Cancel.configurationVersion command)
    (Cancel.clientId command) (Cancel.instrumentId command) (Cancel.clientCommandId command);
  vjc_target : is_u64 (Cancel.targetOrderId command) ∧ Cancel.targetOrderId command ≠ 0 }.

Lemma cancelPayload_length command :
  length (cancelPayload command) = (33 + String.length (Cancel.clientCommandId command))%nat.
Proof. unfold cancelPayload. autorewrite with field_length. lia. Qed.
#[export] Hint Rewrite cancelPayload_length : field_length.

Lemma encodeCancelV1_run command :
  valid_journalCancel command → encodeCancelV1 command = Ok (cancelFrame command).
Proof.
  intros [Hcommon [_ Htarget]].
  pose proof (vcm_command _ _ _ _ _ _ _ Hcommon) as [Hc _]. unfold CLIENT_COMMAND_ID_MAX_LENGTH in Hc.
  unfold encodeCancelV1. erewrite validateCommonCommand_run by exact Hcommon. rewrite checked_bind_ok.
  rewrite (bool_decide_eq_false_2 (_ = 0)) by done. cbn [fail_if]. rewrite checked_bind_ok.
  unfold JOURNAL_V1_ENVELOPE_SIZE, CANCEL_PAYLOAD_SIZE_WITHOUT_CLIENT_COMMAND_ID.
  rewrite writeEnvelope_run, checked_bind_ok by lia.
  replace (replicate (33 + String.length (Cancel.clientCommandId command)) Byte.x00) with
    (replicate (25 + String.length (Cancel.clientCommandId command)) Byte.x00 ++ replicate 8 Byte.x00 ++ [])
    by (rewrite app_nil_r, <-!zeros_app; f_equal; lia).
  rewrite (app_assoc (envelopeHead _ _ _ _)).
  rewrite writeCommonPayload_run, checked_bind_ok by (field_len || lia). rewrite <-!app_assoc.
  unfold JOURNAL_V1_PAYLOAD_OFFSET, JOURNAL_V1_ENVELOPE_SIZE, CLIENT_COMMAND_ID_PAYLOAD_OFFSET.
  write_field. rewrite app_nil_r.
  unfold cancelFrame. rewrite <-writeChecksum_run with (c := replicate 4 Byte.x00) by done.
  by rewrite cancelPayload_length.
Qed.

Lemma decodeCancelV1_run command :
  valid_journalCancel command → decodeCancelV1 (cancelFrame command) = Ok command.
Proof.
  intros [Hcommon [Htarget Htarget0]].
  pose proof (vcm_command _ _ _ _ _ _ _ Hcommon) as Hid. pose proof Hid as [Hc _].
  unfold CLIENT_COMMAND_ID_MAX_LENGTH in Hc.
  unfold decodeCancelV1, cancelFrame.
  rewrite validate_frameOf, checked_bind_ok by
    (first [by right | apply Hcommon | rewrite cancelPayload_length; lia]).
  unfold cancelPayload.
  rewrite (readCommonPayload_run _ _ _ _ _ _ _ _ _ _ Hcommon), checked_bind_ok by
    (unfold CANCEL_PAYLOAD_SIZE_WITHOUT_CLIENT_COMMAND_ID; field_len).
  cbn match. edestruct frame_tail as (pre & Hframe & Hpre). rewrite Hframe. clear Hframe.
  rewrite <-(app_nil_r (leBytes 8 (Cancel.targetOrderId command))).
  unfold JOURNAL_V1_PAYLOAD_OFFSET, JOURNAL_V1_ENVELOPE_SIZE, CLIENT_COMMAND_ID_PAYLOAD_OFFSET.
  repeat read_field. rewrite leNumber_u64, (bool_decide_eq_false_2 (_ = 0)) by done. cbn [fail_if].
  rewrite checked_bind_ok, decodeClientCommandId_run, checked_bind_ok by done. by destruct command.
Qed.

Lemma decodeCancelV1_inv input command :
  decodeCancelV1 input = Ok command → valid_journalCancel command ∧ input = cancelFrame command.
Proof.
  intros Hd. unfold decodeCancelV1 in Hd.
  apply checked_bind_inv in Hd as (envelope & Hv & Hd).
  apply validate_inv in Hv as (run & sequence & payload & -> & Hrun & Hrun0 & Hseq & Hseq0 & Hlen & ->); [|by right].
  apply checked_bind_inv in Hd as (result & Hr & Hd). revert Hd.
  destruct (frameOf_split JOURNAL_V1_CANCEL_RECORD_TYPE run sequence payload) as (pre & Hpre & Hprelen).
  rewrite Hpre in Hr. eapply (readCommonPayload_inv _ _ _ _ 8) in Hr; [|done|done|done].
  destruct Hr as (rules & configuration & client & instrument & cc & b & -> & Hb & -> & Hvalid & Hcfg & Hcl & Hin & _).
  clear Hpre pre Hprelen. edestruct frame_tail as (pre & Hframe & Hpre). rewrite Hframe. intros Hd.
  rewrite <-(app_nil_r b) in Hd.
  unfold JOURNAL_V1_PAYLOAD_OFFSET, JOURNAL_V1_ENVELOPE_SIZE, CLIENT_COMMAND_ID_PAYLOAD_OFFSET in Hd.
  repeat read_field_in Hd. apply fail_if_inv in Hd as [Htarget%bool_decide_eq_false Hd].
  apply checked_bind_inv in Hd as (c & [-> Hcc]%decodeClientCommandId_inv & Hd). injection Hd as <-.
  apply validateCommonCommand_inv in Hvalid as (_ & _ & ? & ? & ? & ?).
  pose proof (leNumber_bounds b) as B. rewrite Hb in B. simpl in B.
  split.
  - split; simpl; try done. split; [unfold is_u64, UINT64_MAX; lia|done].
  - rewrite <-Hframe. unfold cancelFrame, cancelPayload.
    cbn [Cancel.exchangeRunId Cancel.commandSequence Cancel.behavioralRulesVersion Cancel.configurationVersion
         Cancel.clientId Cancel.instrumentId Cancel.clientCommandId Cancel.targetOrderId].
    do 2 f_equal. by rewrite <-(field_bytes _ _ Hb).
Qed.

(** ** Corruption *)

(** Two frames' bytes with the same checksum field and the same length differ in
    no single byte. *)
Lemma checksum_field_differs n head head' sum sum' payload payload' pre b b' post :
  length head = n → length head' = n → length sum = 4%nat → length sum' = 4%nat →
  sum = leBytes 4 (checksumOf head payload) → sum' = leBytes 4 (checksumOf head' payload') →
  head ++ sum ++ payload = pre ++ b :: post → head' ++ sum' ++ payload' = pre ++ b' :: post → b = b'.
Proof.
  intros Hh Hh' Hs Hs' Es Es' H1 H2.
  assert (Hsum : sum = sum' → checksumOf head payload = checksumOf head' payload').
  { intros E. rewrite <-(leNumber_field 4 (checksumOf head payload)),
      <-(leNumber_field 4 (checksumOf head' payload')) by apply checksumOf_field.
    by rewrite <-Es, <-Es', E. }
  unfold checksumOf in Hsum, Es, Es'.
  destruct (decide (length pre < n)%nat) as [Hlt|Hge]; [|destruct (decide (length pre < n + 4)%nat) as [Hlt|Hge']].
  - destruct (cut_field (n - 1 - length pre) post) as (mid & post' & -> & Hmid).
    { apply (f_equal length) in H1. revert H1. rewrite !length_app. simpl. lia. }
    assert (Hcut : ∀ c, pre ++ c :: mid ++ post' = (pre ++ c :: mid) ++ post') by (intros; by rewrite <-app_assoc).
    rewrite Hcut in H1, H2.
    apply app_inj_1 in H1 as [-> H1]; [|rewrite Hh, length_app; simpl; lia].
    apply app_inj_1 in H2 as [-> H2]; [|rewrite Hh', length_app; simpl; lia].
    rewrite <-H1 in H2. apply app_inj_1 in H2 as [Es2 ->]; [|lia].
    specialize (Hsum (eq_sym Es2)). rewrite <-!crcUpdate_app, <-!app_assoc in Hsum. simpl in Hsum.
    by apply crc_detects_byte in Hsum; [|apply crc_initial_state].
  - assert (head = take n pre) as ->.
    { rewrite <-(take_app_le pre (b :: post)) by lia. rewrite <-H1. by rewrite take_app_length'. }
    assert (head' = take n pre) as ->.
    { rewrite <-(take_app_le pre (b' :: post)) by lia. rewrite <-H2. by rewrite take_app_length'. }
    assert (payload = payload') as ->.
    { trans (drop (n + 4) (pre ++ b :: post)); [rewrite <-H1|].
      - rewrite app_assoc, drop_app_length'; [done|]. rewrite length_app. lia.
      - change (pre ++ b :: post) with (pre ++ [b] ++ post). rewrite app_assoc, drop_app_ge by (rewrite length_app; simpl; lia).
        trans (drop (n + 4) (pre ++ b' :: post)); [|rewrite <-H2, app_assoc, drop_app_length'; [done|]; rewrite length_app; lia].
        change (pre ++ b' :: post) with (pre ++ [b'] ++ post). rewrite (app_assoc pre [b']), (drop_app_ge (pre ++ [b'])) by (rewrite length_app; simpl; lia).
        by rewrite !length_app. }
    rewrite <-Es' in Es. subst sum. rewrite H1 in H2. by apply app_inv_head in H2 as [= ->].
  - assert (head ++ sum = take (n + 4) pre) as E1.
    { rewrite <-(take_app_le pre (b :: post)) by lia. rewrite <-H1, app_assoc.
      rewrite take_app_length'; [done|]. rewrite length_app. lia. }
    assert (head' ++ sum' = take (n + 4) pre) as E2.
    { rewrite <-(take_app_le pre (b' :: post)) by lia. rewrite <-H2, app_assoc.
      rewrite take_app_length'; [done|]. rewrite length_app. lia. }
    rewrite <-E1 in E2. apply app_inj_1 in E2 as [-> ->]; [|lia]. specialize (Hsum eq_refl).
    rewrite <-(take_drop (n + 4) pre), <-E1, <-app_assoc, <-(app_assoc head) in H1.
    rewrite <-(take_drop (n + 4) pre), <-E1, <-app_assoc, <-(app_assoc head) in H2.
    apply app_inv_head, app_inv_head in H1. apply app_inv_head, app_inv_head in H2. subst payload payload'.
    rewrite <-!crcUpdate_app, !app_assoc in Hsum. by apply crc_detects_byte in Hsum; [|apply crc_initial_state].
Qed.

Lemma frameOf_corruption t t' run run' sequence sequence' payload payload' pre b b' post :
  frameOf t run sequence payload = pre ++ b :: post →
  frameOf t' run' sequence' payload' = pre ++ b' :: post → b = b'.
Proof.
  intros H1 H2. eapply (checksum_field_differs 32); [..|exact H1|exact H2];
    first [apply envelopeHead_length | apply leBytes_length | reflexivity].
Qed.

