(* ===== verification/JournalTheorems.v ===== *)
(** * The command codec reads within its input *)
From S2P Require Import Prelude Domain Bytes JournalCodec JournalFrames.
Import CodecError.

Lemma in_bounds_common run sequence rules configuration client instrument {A} (f : unit → checked _ A) :
  in_bounds (f tt) → in_bounds (validateCommonCommand run sequence rules configuration client instrument ≫= f).
Proof.
  intros Hf. apply in_bounds_bind; [|by intros []].
  unfold validateCommonCommand. do 5 (apply in_bounds_fail_if; intros _).
  apply in_bounds_check.
Qed.

(** One step of a decoder on an input of known minimal size. *)
Ltac in_bounds_step :=
  first
    [ apply in_bounds_fail_if; intros ?Hb
    | apply in_bounds_read; [lia|intros ? ?]
    | apply in_bounds_subspan; [lia|intros ? ?]
    | apply in_bounds_checksum; [lia|intros ?]
    | apply in_bounds_common ].

Lemma validate_in_bounds input expected complete :
  in_bounds (validateJournalV1CommandEnvelope input expected complete).
Proof.
  unfold validateJournalV1CommandEnvelope, JOURNAL_V1_ENVELOPE_SIZE, JOURNAL_V1_COMMAND_MAX_FRAME_SIZE,
    JOURNAL_V1_FORMAT_VERSION_OFFSET, JOURNAL_V1_RECORD_TYPE_OFFSET, JOURNAL_V1_TOTAL_LENGTH_OFFSET,
    JOURNAL_V1_EXCHANGE_RUN_ID_OFFSET, JOURNAL_V1_COMMAND_SEQUENCE_OFFSET, JOURNAL_V1_PAYLOAD_LENGTH_OFFSET,
    JOURNAL_V1_CHECKSUM_OFFSET.
  apply in_bounds_fail_if. intros Hsize%bool_decide_eq_false. repeat in_bounds_step.
  apply in_bounds_bind; [|done].
  destruct complete; repeat in_bounds_step; apply in_bounds_check.
Qed.

(** Reading the common payload of a frame whose envelope was checked. *)
Lemma readCommonPayload_in_bounds {A} t run sequence payload size
    (f : Z * Z * ClientId * InstrumentId * string → checked JournalCommandCodecError A) :
  (25 ≤ size)%nat →
  (∀ r, (size + String.length r.2 = length payload)%nat → in_bounds (f r)) →
  in_bounds (readCommonPayload (frameOf t run sequence payload)
    (Envelope.mkEnvelope t (Z.of_nat (36 + length payload)) run sequence (Z.of_nat (length payload))) size ≫= f).
Proof.
  intros Hsize Hf. assert (Hframe := frameOf_length t run sequence payload).
  apply in_bounds_bind.
  - unfold readCommonPayload, readByte, JOURNAL_V1_PAYLOAD_OFFSET, JOURNAL_V1_ENVELOPE_SIZE,
      RULES_VERSION_PAYLOAD_OFFSET, CONFIGURATION_VERSION_PAYLOAD_OFFSET, CLIENT_ID_PAYLOAD_OFFSET,
      INSTRUMENT_ID_PAYLOAD_OFFSET, CLIENT_COMMAND_ID_LENGTH_PAYLOAD_OFFSET, CLIENT_COMMAND_ID_PAYLOAD_OFFSET.
    cbn [Envelope.payloadLength]. apply in_bounds_fail_if. intros Hlong%bool_decide_eq_false.
    apply in_bounds_read; [lia|]. intros n Hn. apply in_bounds_fail_if. intros Hplen%bool_decide_eq_false.
    repeat in_bounds_step. done.
  - intros [[[[r1 r2] r3] r4] c] Hr. apply Hf. simpl.
    destruct (frameOf_split t run sequence payload) as (pre & Hpre & Hprelen). rewrite Hpre in Hr.
    eapply (readCommonPayload_inv _ _ _ _ (size - 25)) in Hr; [|done|done|lia].
    destruct Hr as (? & ? & ? & ? & ? & rest & -> & Hrest & [= -> -> -> -> ->] & _).
    autorewrite with field_length. lia.
Qed.

Lemma in_bounds_sideOfCode code {A} (f : Side → checked JournalCommandCodecError A) :
  (∀ side, in_bounds (f side)) → in_bounds (sideOfCode code ≫= f).
Proof. intros. unfold sideOfCode. repeat case_bool_decide; simpl; auto; done. Qed.

Lemma in_bounds_timeInForceOfCode code {A} (f : TimeInForce → checked JournalCommandCodecError A) :
  (∀ tif, in_bounds (f tif)) → in_bounds (timeInForceOfCode code ≫= f).
Proof. intros. unfold timeInForceOfCode. repeat case_bool_decide; simpl; auto; done. Qed.

Lemma in_bounds_clientCommandId s {A} (f : ClientCommandId → checked JournalCommandCodecError A) :
  (∀ c, in_bounds (f c)) → in_bounds (decodeClientCommandId s ≫= f).
Proof. intros. unfold decodeClientCommandId. destruct (makeClientCommandId s); simpl; auto; done. Qed.

(** A decoder past its envelope check, on the frame the check accepted. *)
Lemma in_bounds_after_envelope t input {A} (f : JournalV1CommandEnvelope → checked JournalCommandCodecError A) :
  recordTypeOk t →
  (∀ run sequence payload, input = frameOf t run sequence payload →
     in_bounds (f (Envelope.mkEnvelope t (Z.of_nat (36 + length payload)) run sequence (Z.of_nat (length payload))))) →
  in_bounds (validateJournalV1CommandEnvelope input t true ≫= f).
Proof.
  intros Ht Hf. apply in_bounds_bind; [apply validate_in_bounds|]. intros envelope Hv.
  apply validate_inv in Hv as (run & sequence & payload & -> & _ & _ & _ & _ & _ & ->); [|done]. by apply Hf.
Qed.

Lemma decodeNewOrderV1_in_bounds input : in_bounds (decodeNewOrderV1 input).
Proof.
  apply in_bounds_after_envelope; [by left|]. intros run sequence payload ->.
  assert (Hframe := frameOf_length JOURNAL_V1_NEW_ORDER_RECORD_TYPE run sequence payload).
  apply readCommonPayload_in_bounds; [unfold NEW_ORDER_PAYLOAD_SIZE_WITHOUT_CLIENT_COMMAND_ID; lia|].
  intros [[[[? ?] ?] ?] c]. unfold NEW_ORDER_PAYLOAD_SIZE_WITHOUT_CLIENT_COMMAND_ID, readByte,
    JOURNAL_V1_PAYLOAD_OFFSET, JOURNAL_V1_ENVELOPE_SIZE, CLIENT_COMMAND_ID_PAYLOAD_OFFSET. cbn [fst snd]. intros Hsize.
  repeat first [ in_bounds_step | apply in_bounds_sideOfCode; intros ? | apply in_bounds_timeInForceOfCode; intros ?
               | apply in_bounds_clientCommandId; intros ? ]. done.
Qed.

Lemma decodeCancelV1_in_bounds input : in_bounds (decodeCancelV1 input).
Proof.
  apply in_bounds_after_envelope; [by right|]. intros run sequence payload ->.
  assert (Hframe := frameOf_length JOURNAL_V1_CANCEL_RECORD_TYPE run sequence payload).
  apply readCommonPayload_in_bounds; [unfold CANCEL_PAYLOAD_SIZE_WITHOUT_CLIENT_COMMAND_ID; lia|].
  intros [[[[? ?] ?] ?] c]. unfold CANCEL_PAYLOAD_SIZE_WITHOUT_CLIENT_COMMAND_ID, readByte,
    JOURNAL_V1_PAYLOAD_OFFSET, JOURNAL_V1_ENVELOPE_SIZE, CLIENT_COMMAND_ID_PAYLOAD_OFFSET. cbn [fst snd]. intros Hsize.
  repeat first [ in_bounds_step | apply in_bounds_clientCommandId; intros ? ]. done.
Qed.

(** * Properties of the journal's command codec *)
Import CodecError.

(** An input one of the two decoders accepts. *)
Definition accepted (input : bytes) : Prop :=
  (∃ command, decodeNewOrderV1 input = Ok command) ∨ (∃ command, decodeCancelV1 input = Ok command).

Lemma accepted_frame input :
  accepted input → ∃ t run sequence payload, input = frameOf t run sequence payload.
Proof.
  intros [[command H]|[command H]];
    [apply decodeNewOrderV1_inv in H as [_ ->] | apply decodeCancelV1_inv in H as [_ ->]]; do 4 eexists; reflexivity.
Qed.

Lemma newOrder_codec_bijective input command :
  decodeNewOrderV1 input = Ok command ↔ valid_newOrder command ∧ encodeNewOrderV1 command = Ok input.
Proof.
  split.
  - intros [Hv ->]%decodeNewOrderV1_inv. split; [done|]. by apply encodeNewOrderV1_run.
  - intros [Hv He]. rewrite encodeNewOrderV1_run in He by done. injection He as <-. by apply decodeNewOrderV1_run.
Qed.

Lemma cancel_codec_bijective input command :
  decodeCancelV1 input = Ok command ↔ valid_journalCancel command ∧ encodeCancelV1 command = Ok input.
Proof.
  split.
  - intros [Hv ->]%decodeCancelV1_inv. split; [done|]. by apply encodeCancelV1_run.
  - intros [Hv He]. rewrite encodeCancelV1_run in He by done. injection He as <-. by apply decodeCancelV1_run.
Qed.

(** ** The properties *)

(** C19: the command codecs are bijections between the valid commands and the
    inputs the decoders accept: decoding gives a command exactly when that command
    is valid (identifiers, price, quantity and target in range and not zero, a
    known side and time in force, an ASCII client command id of 1 to 64 bytes) and
    encoding it gives back the same bytes; for new orders and for cancels. *)
Theorem journal_codec_bijective :
  (∀ input command, decodeNewOrderV1 input = Ok command ↔
     valid_newOrder command ∧ encodeNewOrderV1 command = Ok input) ∧
  (∀ input command, decodeCancelV1 input = Ok command ↔
     valid_journalCancel command ∧ encodeCancelV1 command = Ok input).
Proof. split; intros input command; [apply newOrder_codec_bijective|apply cancel_codec_bijective]. Qed.

(** C20: on any input, of any length and with any length fields, neither decoder
    reads outside the input: each of its reads and subspans is in bounds, and it
    returns a command or one of the codec's errors. *)
Theorem decoders_stay_in_bounds input :
  decodeNewOrderV1 input ≠ OutOfBounds ∧ decodeCancelV1 input ≠ OutOfBounds.
Proof. split; [apply decodeNewOrderV1_in_bounds|apply decodeCancelV1_in_bounds]. Qed.

(** C21: a frame that decodes as a new order or as a cancel, with exactly one of
    its bytes replaced by another value (in the magic, the envelope, the checksum
    or the payload), is reported as an error by both decoders. *)
Theorem corrupted_byte_is_rejected pre b b' post :
  accepted (pre ++ b :: post) → b ≠ b' →
  (∃ e, decodeNewOrderV1 (pre ++ b' :: post) = Err e) ∧ (∃ e, decodeCancelV1 (pre ++ b' :: post) = Err e).
Proof.
  intros (t & run & sequence & payload & H)%accepted_frame Hb.
  assert (¬ accepted (pre ++ b' :: post)) as Hno.
  { intros (t' & run' & sequence' & payload' & H')%accepted_frame. by eapply Hb, frameOf_corruption. }
  split; apply checked_error; first [apply decodeNewOrderV1_in_bounds | apply decodeCancelV1_in_bounds |
    intros command Hc; apply Hno; unfold accepted; eauto].
Qed.

Definition demoJournalCancel : JournalCancelV1 := Cancel.mkJournalCancelV1 7 2 1 1 9 1 "c-2" 1.

Definition demoCancelBytes : bytes :=
  match encodeCancelV1 demoJournalCancel with Ok frame => frame | _ => [] end.

Lemma demo_cancel_accepted : accepted demoCancelBytes.
Proof. right. exists demoJournalCancel. vm_compute. reflexivity. Qed.

Lemma corrupted_byte_is_rejected_witness :
  ∃ e, decodeCancelV1 (take 70 demoCancelBytes ++ Byte.x80 :: drop 71 demoCancelBytes) = Err e.
Proof.
  apply (corrupted_byte_is_rejected (take 70 demoCancelBytes) Byte.x00 Byte.x80 (drop 71 demoCancelBytes)).
  - replace (take 70 demoCancelBytes ++ Byte.x00 :: drop 71 demoCancelBytes) with demoCancelBytes
      by (vm_compute; reflexivity). apply demo_cancel_accepted.
  - discriminate.
Defined.
