(* ===== verification/RunHeaderCodec.v ===== *)
(** * The journal's run header

    [src/core/storage/src/journal_run_header_codec.cpp]: the first record of a run
    journal, with the run's limits and its instruments, in the envelope of the
    command frames with record type 1 and sequence 0. *)
From S2P Require Import Prelude Domain Bytes JournalCodec.

Module HeaderError.
Inductive RunHeaderCodecError :=
  | TRUNCATED_INPUT | FRAME_TOO_LARGE | TRAILING_BYTES | INVALID_MAGIC | UNSUPPORTED_FORMAT_VERSION
  | UNSUPPORTED_RECORD_TYPE | INVALID_TOTAL_LENGTH | ZERO_EXCHANGE_RUN_ID | NONZERO_COMMAND_SEQUENCE
  | INVALID_PAYLOAD_LENGTH | CHECKSUM_MISMATCH | UNSUPPORTED_BEHAVIORAL_RULES_VERSION
  | UNSUPPORTED_MAX_EVENTS_PER_COMMAND | ZERO_MAX_RUN_COMMANDS | MAX_RUN_JOURNAL_BYTES_TOO_SMALL
  | ZERO_INSTRUMENT_ID | ZERO_CONFIGURATION_VERSION | INSTRUMENTS_NOT_STRICTLY_INCREASING
  | UNSUPPORTED_GENERATOR_CONFIGURATION | ALLOCATION_FAILURE.
#[export] Instance RunHeaderCodecError_eq_dec : EqDecision RunHeaderCodecError.
Proof. solve_decision. Defined.
End HeaderError.
Export (hints) HeaderError.
Abbreviation RunHeaderCodecError := HeaderError.RunHeaderCodecError.

Module HeaderInstrument.
Record RunHeaderInstrumentV1 := mkRunHeaderInstrumentV1 {
  instrumentId : InstrumentId;
  configurationVersion : Z }.
#[export] Instance RunHeaderInstrumentV1_eq_dec : EqDecision RunHeaderInstrumentV1.
Proof. solve_decision. Defined.
End HeaderInstrument.
Export (hints) HeaderInstrument.
Abbreviation RunHeaderInstrumentV1 := HeaderInstrument.RunHeaderInstrumentV1.

Module Header.
Record RunHeaderV1 := mkRunHeaderV1 {
  exchangeRunId : ExchangeRunId;
  behavioralRulesVersion : Z;
  maxEventsPerCommand : Z;
  maxRunCommands : Z;
  maxRunJournalBytes : Z;
  instruments : list RunHeaderInstrumentV1 }.
#[export] Instance RunHeaderV1_eq_dec : EqDecision RunHeaderV1.
Proof. solve_decision. Defined.
End Header.
Export (hints) Header.
Abbreviation RunHeaderV1 := Header.RunHeaderV1.

Definition RUN_HEADER_RECORD_TYPE : Z := 1.
Definition RUN_HEADER_BEHAVIORAL_RULES_VERSION : Z := 1.
Definition RUN_HEADER_MAX_EVENTS_PER_COMMAND : Z := 4096.
Definition RUN_HEADER_FIXED_PAYLOAD_SIZE : nat := 32.
Definition INSTRUMENT_ENTRY_SIZE : nat := 12.
Definition RUN_HEADER_MAX_FRAME_SIZE : Z := 65536.
Definition MAX_EVENTS_OFFSET : nat := JOURNAL_V1_PAYLOAD_OFFSET + 4.
Definition MAX_RUN_COMMANDS_OFFSET : nat := JOURNAL_V1_PAYLOAD_OFFSET + 8.
Definition MAX_RUN_JOURNAL_BYTES_OFFSET : nat := JOURNAL_V1_PAYLOAD_OFFSET + 16.
Definition INSTRUMENT_COUNT_OFFSET : nat := JOURNAL_V1_PAYLOAD_OFFSET + 24.
Definition GENERATOR_CONFIG_LENGTH_OFFSET : nat := JOURNAL_V1_PAYLOAD_OFFSET + 28.
Definition INSTRUMENTS_OFFSET : nat := JOURNAL_V1_PAYLOAD_OFFSET + RUN_HEADER_FIXED_PAYLOAD_SIZE.
Definition FIXED_FRAME_SIZE : nat := JOURNAL_V1_ENVELOPE_SIZE + RUN_HEADER_FIXED_PAYLOAD_SIZE.
Definition MAX_INSTRUMENTS : Z :=
  (RUN_HEADER_MAX_FRAME_SIZE - Z.of_nat FIXED_FRAME_SIZE) / Z.of_nat INSTRUMENT_ENTRY_SIZE.

Import HeaderError.

(** The loop over [header.instruments]. *)
Fixpoint validateInstruments (previousInstrumentId : Z) (instruments : list RunHeaderInstrumentV1)
    : checked RunHeaderCodecError unit :=
  match instruments with
  | [] => Ok tt
  | instrument :: instruments' =>
      fail_if (bool_decide (HeaderInstrument.instrumentId instrument = 0)) ZERO_INSTRUMENT_ID ;;
      fail_if (bool_decide (HeaderInstrument.configurationVersion instrument = 0)) ZERO_CONFIGURATION_VERSION ;;
      fail_if (bool_decide (HeaderInstrument.instrumentId instrument ≤ previousInstrumentId))
        INSTRUMENTS_NOT_STRICTLY_INCREASING ;;
      validateInstruments (HeaderInstrument.instrumentId instrument) instruments'
  end.

(** The result is [frameSize]. *)
Definition validateHeader (header : RunHeaderV1) : checked RunHeaderCodecError nat :=
  fail_if (bool_decide (Header.exchangeRunId header = 0)) ZERO_EXCHANGE_RUN_ID ;;
  fail_if (bool_decide (Header.behavioralRulesVersion header ≠ RUN_HEADER_BEHAVIORAL_RULES_VERSION))
    UNSUPPORTED_BEHAVIORAL_RULES_VERSION ;;
  fail_if (bool_decide (Header.maxEventsPerCommand header ≠ RUN_HEADER_MAX_EVENTS_PER_COMMAND))
    UNSUPPORTED_MAX_EVENTS_PER_COMMAND ;;
  fail_if (bool_decide (Header.maxRunCommands header = 0)) ZERO_MAX_RUN_COMMANDS ;;
  validateInstruments 0 (Header.instruments header) ;;
  fail_if (bool_decide (MAX_INSTRUMENTS < Z.of_nat (length (Header.instruments header)))) FRAME_TOO_LARGE ;;
  let frameSize := (FIXED_FRAME_SIZE + length (Header.instruments header) * INSTRUMENT_ENTRY_SIZE)%nat in
  fail_if (bool_decide (Header.maxRunJournalBytes header < Z.of_nat frameSize)) MAX_RUN_JOURNAL_BYTES_TOO_SMALL ;;
  Ok frameSize.

Fixpoint writeInstruments (encoded : bytes) (offset : nat) (instruments : list RunHeaderInstrumentV1)
    : checked RunHeaderCodecError bytes :=
  match instruments with
  | [] => Ok encoded
  | instrument :: instruments' =>
      encoded ← writeLE 8 encoded offset (HeaderInstrument.instrumentId instrument);
      encoded ← writeLE 4 encoded (offset + 8) (HeaderInstrument.configurationVersion instrument);
      writeInstruments encoded (offset + INSTRUMENT_ENTRY_SIZE) instruments'
  end.

Definition encodeRunHeaderV1 (header : RunHeaderV1) : checked RunHeaderCodecError bytes :=
  frameSize ← validateHeader header;
  let encoded := replicate frameSize Byte.x00 in
  let payloadSize := (frameSize - JOURNAL_V1_ENVELOPE_SIZE)%nat in
  encoded ← putBytes encoded 0 JOURNAL_V1_MAGIC;
  encoded ← writeLE 2 encoded JOURNAL_V1_FORMAT_VERSION_OFFSET JOURNAL_V1_FORMAT_VERSION;
  encoded ← writeLE 2 encoded JOURNAL_V1_RECORD_TYPE_OFFSET RUN_HEADER_RECORD_TYPE;
  encoded ← writeLE 4 encoded JOURNAL_V1_TOTAL_LENGTH_OFFSET (wrap32 (Z.of_nat frameSize));
  encoded ← writeLE 8 encoded JOURNAL_V1_EXCHANGE_RUN_ID_OFFSET (Header.exchangeRunId header);
  encoded ← writeLE 8 encoded JOURNAL_V1_COMMAND_SEQUENCE_OFFSET 0;
  encoded ← writeLE 4 encoded JOURNAL_V1_PAYLOAD_LENGTH_OFFSET (wrap32 (Z.of_nat payloadSize));
  encoded ← writeLE 4 encoded JOURNAL_V1_PAYLOAD_OFFSET (Header.behavioralRulesVersion header);
  encoded ← writeLE 4 encoded MAX_EVENTS_OFFSET (Header.maxEventsPerCommand header);
  encoded ← writeLE 8 encoded MAX_RUN_COMMANDS_OFFSET (Header.maxRunCommands header);
  encoded ← writeLE 8 encoded MAX_RUN_JOURNAL_BYTES_OFFSET (Header.maxRunJournalBytes header);
  encoded ← writeLE 4 encoded INSTRUMENT_COUNT_OFFSET (wrap32 (Z.of_nat (length (Header.instruments header))));
  encoded ← writeLE 4 encoded GENERATOR_CONFIG_LENGTH_OFFSET 0;
  encoded ← writeInstruments encoded INSTRUMENTS_OFFSET (Header.instruments header);
  checksum ← journalV1Checksum encoded;
  writeLE 4 encoded JOURNAL_V1_CHECKSUM_OFFSET checksum.

Fixpoint readInstruments (input : bytes) (offset count : nat)
    : checked RunHeaderCodecError (list RunHeaderInstrumentV1) :=
  match count with
  | O => Ok []
  | Datatypes.S count' =>
      instrumentId ← readLE 8 input offset;
      configurationVersion ← readLE 4 input (offset + 8);
      instruments ← readInstruments input (offset + INSTRUMENT_ENTRY_SIZE) count';
      Ok (HeaderInstrument.mkRunHeaderInstrumentV1 instrumentId configurationVersion :: instruments)
  end.

Definition decodeRunHeaderV1 (input : bytes) : checked RunHeaderCodecError RunHeaderV1 :=
  fail_if (bool_decide (length input < JOURNAL_V1_ENVELOPE_SIZE)%nat) TRUNCATED_INPUT ;;
  fail_if (bool_decide (RUN_HEADER_MAX_FRAME_SIZE < Z.of_nat (length input))) FRAME_TOO_LARGE ;;
  magic ← subspan input 0 4;
  fail_if (bool_decide (magic ≠ JOURNAL_V1_MAGIC)) INVALID_MAGIC ;;
  formatVersion ← readLE 2 input JOURNAL_V1_FORMAT_VERSION_OFFSET;
  fail_if (bool_decide (formatVersion ≠ JOURNAL_V1_FORMAT_VERSION)) UNSUPPORTED_FORMAT_VERSION ;;
  recordType ← readLE 2 input JOURNAL_V1_RECORD_TYPE_OFFSET;
  fail_if (bool_decide (recordType ≠ RUN_HEADER_RECORD_TYPE)) UNSUPPORTED_RECORD_TYPE ;;
  totalLength ← readLE 4 input JOURNAL_V1_TOTAL_LENGTH_OFFSET;
  fail_if (bool_decide (totalLength < Z.of_nat JOURNAL_V1_ENVELOPE_SIZE)) INVALID_TOTAL_LENGTH ;;
  fail_if (bool_decide (RUN_HEADER_MAX_FRAME_SIZE < totalLength)) FRAME_TOO_LARGE ;;
  fail_if (bool_decide (Z.of_nat (length input) < totalLength)) TRUNCATED_INPUT ;;
  fail_if (bool_decide (totalLength < Z.of_nat (length input))) TRAILING_BYTES ;;
  commandSequence ← readLE 8 input JOURNAL_V1_COMMAND_SEQUENCE_OFFSET;
  fail_if (bool_decide (commandSequence ≠ 0)) NONZERO_COMMAND_SEQUENCE ;;
  payloadLength ← readLE 4 input JOURNAL_V1_PAYLOAD_LENGTH_OFFSET;
  fail_if (bool_decide (Z.of_nat JOURNAL_V1_ENVELOPE_SIZE + payloadLength ≠ totalLength) ||
           bool_decide (payloadLength < Z.of_nat RUN_HEADER_FIXED_PAYLOAD_SIZE)) INVALID_PAYLOAD_LENGTH ;;
  stored ← readLE 4 input JOURNAL_V1_CHECKSUM_OFFSET;
  computed ← journalV1Checksum input;
  fail_if (bool_decide (stored ≠ computed)) CHECKSUM_MISMATCH ;;
  instrumentCount ← readLE 4 input INSTRUMENT_COUNT_OFFSET;
  generatorConfigLength ← readLE 4 input GENERATOR_CONFIG_LENGTH_OFFSET;
  let instrumentBytes := instrumentCount * Z.of_nat INSTRUMENT_ENTRY_SIZE in
  fail_if (bool_decide (Z.of_nat RUN_HEADER_FIXED_PAYLOAD_SIZE + instrumentBytes + generatorConfigLength ≠
                        payloadLength)) INVALID_PAYLOAD_LENGTH ;;
  fail_if (bool_decide (generatorConfigLength ≠ 0)) UNSUPPORTED_GENERATOR_CONFIGURATION ;;
  exchangeRunId ← readLE 8 input JOURNAL_V1_EXCHANGE_RUN_ID_OFFSET;
  behavioralRulesVersion ← readLE 4 input JOURNAL_V1_PAYLOAD_OFFSET;
  maxEventsPerCommand ← readLE 4 input MAX_EVENTS_OFFSET;
  maxRunCommands ← readLE 8 input MAX_RUN_COMMANDS_OFFSET;
  maxRunJournalBytes ← readLE 8 input MAX_RUN_JOURNAL_BYTES_OFFSET;
  instruments ← readInstruments input INSTRUMENTS_OFFSET (Z.to_nat instrumentCount);
  let decoded := Header.mkRunHeaderV1 exchangeRunId behavioralRulesVersion maxEventsPerCommand maxRunCommands
                   maxRunJournalBytes instruments in
  validateHeader decoded ;;
  Ok decoded.
