(* ===== verification/RunHeaderTheorems.v ===== *)
(** * Properties of the run header's codec

    [headerFrame] is the header's layout byte by byte; the encoder produces exactly
    these frames and the decoder accepts exactly them. *)
From S2P Require Import Prelude Domain Bytes JournalCodec JournalFrames RunHeaderCodec.
Import HeaderError.

(** ** The layout *)
Definition entryBytes (i : RunHeaderInstrumentV1) : bytes :=
  leBytes 8 (HeaderInstrument.instrumentId i) ++ leBytes 4 (HeaderInstrument.configurationVersion i).

Definition entriesBytes (l : list RunHeaderInstrumentV1) : bytes := concat (entryBytes <$> l).

Definition headerPayload (header : RunHeaderV1) : bytes :=
  leBytes 4 (Header.behavioralRulesVersion header) ++ leBytes 4 (Header.maxEventsPerCommand header) ++
  leBytes 8 (Header.maxRunCommands header) ++ leBytes 8 (Header.maxRunJournalBytes header) ++
  leBytes 4 (Z.of_nat (length (Header.instruments header))) ++ leBytes 4 0 ++
  entriesBytes (Header.instruments header).

Definition headerFrame (header : RunHeaderV1) : bytes :=
  frameOf RUN_HEADER_RECORD_TYPE (Header.exchangeRunId header) 0 (headerPayload header).

Definition entry_ok (i : RunHeaderInstrumentV1) : Prop :=
  is_u64 (HeaderInstrument.instrumentId i) ∧ is_u32 (HeaderInstrument.configurationVersion i).

(** What a run header may hold: its fixed versions, limits that are not zero and
    leave room for the header itself, and instruments with strictly increasing
    identifiers and configured versions. *)
Record valid_runHeader (header : RunHeaderV1) : Prop := {
  vrh_run : is_u64 (Header.exchangeRunId header) ∧ Header.exchangeRunId header ≠ 0;
  vrh_rules : Header.behavioralRulesVersion header = 1;
  vrh_events : Header.maxEventsPerCommand header = 4096;
  vrh_commands : is_u64 (Header.maxRunCommands header) ∧ Header.maxRunCommands header ≠ 0;
  vrh_bytes : is_u64 (Header.maxRunJournalBytes header) ∧
    Z.of_nat (68 + length (Header.instruments header) * 12) ≤ Header.maxRunJournalBytes header;
  vrh_entries : Forall entry_ok (Header.instruments header);
  vrh_sorted : Sorted Z.lt (0 :: (HeaderInstrument.instrumentId <$> Header.instruments header));
  vrh_versions : Forall (λ i, HeaderInstrument.configurationVersion i ≠ 0) (Header.instruments header);
  vrh_count : Z.of_nat (length (Header.instruments header)) ≤ 5455 }.

Lemma entryBytes_length i : length (entryBytes i) = 12%nat.
Proof. unfold entryBytes. autorewrite with field_length. done. Qed.

Lemma entriesBytes_cons i l : entriesBytes (i :: l) = entryBytes i ++ entriesBytes l.
Proof. reflexivity. Qed.

Lemma entriesBytes_length l : length (entriesBytes l) = (length l * 12)%nat.
Proof.
  induction l as [|i l IH]; [done|]. rewrite entriesBytes_cons, length_app, entryBytes_length, IH. simpl. lia.
Qed.
#[export] Hint Rewrite entriesBytes_length : field_length.

Lemma headerPayload_length header :
  length (headerPayload header) = (32 + length (Header.instruments header) * 12)%nat.
Proof. unfold headerPayload. autorewrite with field_length. lia. Qed.

(** ** The instrument table *)
Lemma validateInstruments_ok l : ∀ previous,
  validateInstruments previous l = Ok tt ↔
  Forall (λ i, HeaderInstrument.instrumentId i ≠ 0 ∧ HeaderInstrument.configurationVersion i ≠ 0) l ∧
  Sorted Z.lt (previous :: (HeaderInstrument.instrumentId <$> l)).
Proof.
  induction l as [|i l IH]; intros previous; cbn [validateInstruments fmap list_fmap].
  - split; [|done]. intros _. split; [constructor|repeat constructor].
  - split.
    + intros Hv. do 3 (apply fail_if_inv in Hv as [?Hb%bool_decide_eq_false Hv]).
      apply IH in Hv as [Hl Hs]. split; [by constructor|]. constructor; [done|]. constructor. lia.
    + intros [[[Hid Hcfg] Hl]%Forall_cons [Hs Hhd%HdRel_inv]%Sorted_inv].
      do 3 (rewrite fail_if_false by (apply bool_decide_eq_false; done || lia)). by apply IH.
Qed.

Lemma sorted_ids_positive l previous :
  0 ≤ previous → Sorted Z.lt (previous :: (HeaderInstrument.instrumentId <$> l)) →
  Forall (λ i, HeaderInstrument.instrumentId i ≠ 0) l.
Proof.
  revert previous. induction l as [|i l IH]; intros previous Hp Hs; [constructor|].
  apply Sorted_inv in Hs as [Hs Hhd%HdRel_inv]. constructor; [lia|]. eapply (IH (HeaderInstrument.instrumentId i)); [lia|done].
Qed.

Lemma validateHeader_run header :
  valid_runHeader header → validateHeader header = Ok (68 + length (Header.instruments header) * 12)%nat.
Proof.
  intros [[_ Hrun] Hrules Hevents [_ Hcmds] [_ Hbytes] _ Hsorted Hversions Hcount]. unfold validateHeader.
  repeat rewrite fail_if_false by (apply bool_decide_eq_false; first [done | rewrite ?Hrules, ?Hevents; unfold RUN_HEADER_BEHAVIORAL_RULES_VERSION, RUN_HEADER_MAX_EVENTS_PER_COMMAND; lia]).
  rewrite (proj2 (validateInstruments_ok _ _)).
  2:{ split; [|done]. pose proof (sorted_ids_positive _ _ ltac:(done) Hsorted) as Hpos. by apply Forall_and. }
  rewrite checked_bind_ok. change MAX_INSTRUMENTS with 5455.
  unfold FIXED_FRAME_SIZE, JOURNAL_V1_ENVELOPE_SIZE, RUN_HEADER_FIXED_PAYLOAD_SIZE, INSTRUMENT_ENTRY_SIZE.
  do 2 (rewrite fail_if_false by (apply bool_decide_eq_false; lia)). done.
Qed.

Lemma validateHeader_inv header size :
  validateHeader header = Ok size → is_u64 (Header.exchangeRunId header) → is_u64 (Header.maxRunCommands header) →
  is_u64 (Header.maxRunJournalBytes header) → Forall entry_ok (Header.instruments header) →
  valid_runHeader header ∧ size = (68 + length (Header.instruments header) * 12)%nat.
Proof.
  intros Hv ? ? ? ?. unfold validateHeader in Hv.
  do 4 (apply fail_if_inv in Hv as [?Hb%bool_decide_eq_false Hv]).
  apply checked_bind_inv in Hv as ([] & [Hpos Hsorted]%validateInstruments_ok & Hv).
  apply fail_if_inv in Hv as [Hcount%bool_decide_eq_false Hv].
  apply fail_if_inv in Hv as [Hbytes%bool_decide_eq_false [= <-]].
  change MAX_INSTRUMENTS with 5455 in Hcount.
  unfold FIXED_FRAME_SIZE, JOURNAL_V1_ENVELOPE_SIZE, RUN_HEADER_FIXED_PAYLOAD_SIZE, INSTRUMENT_ENTRY_SIZE in *.
  split; [|done]. apply Forall_and in Hpos as [_ Hversions].
  split; try done; try (by split); try (apply dec_stable; done); [|lia]. split; [done|lia].
Qed.

(** ** Reading and writing the table *)
Lemma readInstruments_skip seg rest n : ∀ offset, (length seg ≤ offset)%nat →
  readInstruments (seg ++ rest) offset n = readInstruments rest (offset - length seg) n.
Proof.
  induction n as [|n IH]; intros offset Ho; cbn [readInstruments]; [done|].
  rewrite !readLE_skip, IH by (unfold INSTRUMENT_ENTRY_SIZE; lia).
  by replace (offset + 8 - length seg)%nat with (offset - length seg + 8)%nat by lia;
    replace (offset + INSTRUMENT_ENTRY_SIZE - length seg)%nat with (offset - length seg + INSTRUMENT_ENTRY_SIZE)%nat
    by (unfold INSTRUMENT_ENTRY_SIZE; lia).
Qed.

Lemma readInstruments_run l : Forall entry_ok l → readInstruments (entriesBytes l) 0 (length l) = Ok l.
Proof.
  induction l as [|[id cfg] l IH]; intros Hl; [done|]. apply Forall_cons in Hl as [[Hid Hcfg] Hl].
  cbn [length readInstruments]. rewrite entriesBytes_cons. unfold entryBytes. cbn [HeaderInstrument.instrumentId HeaderInstrument.configurationVersion] in *.
  rewrite <-!app_assoc. repeat read_field. rewrite leNumber_u64, leNumber_u32 by done.
  rewrite app_assoc, readInstruments_skip by (autorewrite with field_length; unfold INSTRUMENT_ENTRY_SIZE; lia).
  replace (0 + INSTRUMENT_ENTRY_SIZE - _)%nat with 0%nat by (autorewrite with field_length; done).
  by rewrite IH.
Qed.

Lemma readInstruments_inv n : ∀ entries, length entries = (n * 12)%nat →
  ∃ l, readInstruments entries 0 n = Ok l ∧ length l = n ∧ Forall entry_ok l ∧ entries = entriesBytes l.
Proof.
  induction n as [|n IH]; intros entries Hl; cbn [readInstruments].
  - exists []. destruct entries; [done|]. simpl in Hl. lia.
  - destruct (cut_field 8 entries) as (id & r & -> & H1); [lia|]. rewrite length_app in Hl.
    destruct (cut_field 4 r) as (cfg & rest & -> & H2); [lia|]. rewrite length_app in Hl.
    destruct (IH rest) as (l & Hr & <- & Hok & ->); [lia|].
    repeat read_field. rewrite app_assoc, readInstruments_skip by (rewrite length_app; unfold INSTRUMENT_ENTRY_SIZE; lia).
    replace (0 + INSTRUMENT_ENTRY_SIZE - _)%nat with 0%nat by (rewrite length_app, H1, H2; done).
    rewrite Hr, checked_bind_ok. eexists. split; [done|].
    pose proof (leNumber_bounds id) as B1. pose proof (leNumber_bounds cfg) as B2.
    rewrite H1 in B1. rewrite H2 in B2. simpl in B1, B2.
    split_and!; [done| |].
    + constructor; [|done]. split; simpl; unfold is_u64, is_u32, UINT64_MAX, UINT32_MAX; lia.
    + rewrite entriesBytes_cons. unfold entryBytes. cbn [HeaderInstrument.instrumentId HeaderInstrument.configurationVersion].
      by rewrite <-(field_bytes _ _ H1), <-(field_bytes _ _ H2), <-app_assoc.
Qed.

Lemma writeInstruments_run l : ∀ seg,
  writeInstruments (seg ++ replicate (length l * 12) Byte.x00) (length seg) l = Ok (seg ++ entriesBytes l).
Proof.
  induction l as [|i l IH]; intros seg; cbn [writeInstruments length]; [done|].
  replace (replicate (Datatypes.S (length l) * 12) Byte.x00) with
    (replicate 8 Byte.x00 ++ replicate 4 Byte.x00 ++ replicate (length l * 12) Byte.x00)
    by (rewrite <-!zeros_app; f_equal).
  repeat write_field. rewrite entriesBytes_cons.
  replace (length seg + INSTRUMENT_ENTRY_SIZE)%nat with (length (seg ++ entryBytes i))
    by (rewrite length_app, entryBytes_length; done).
  rewrite (app_assoc (leBytes 8 _)). fold (entryBytes i). rewrite (app_assoc seg), IH. by rewrite <-app_assoc.
Qed.

(** ** Encoding *)
Lemma writeInstruments_at seg offset n l :
  offset = length seg → n = length l →
  writeInstruments (seg ++ replicate (n * 12) Byte.x00) offset l = Ok (seg ++ entriesBytes l).
Proof. intros -> ->. apply writeInstruments_run. Qed.

Lemma frame_checksum_run {E} t run sequence payload c :
  length c = 4%nat →
  (checksum ← journalV1Checksum (E:=E) (envelopeHead t (length payload) run sequence ++ c ++ payload);
   writeLE 4 (envelopeHead t (length payload) run sequence ++ c ++ payload) 32 checksum) =
  Ok (frameOf t run sequence payload).
Proof.
  intros Hc. rewrite journalV1Checksum_run by (done || apply envelopeHead_length).
  rewrite checked_bind_ok. by write_field.
Qed.

Lemma header_zeros n :
  replicate (68 + n) Byte.x00 =
  replicate 4 Byte.x00 ++ replicate 2 Byte.x00 ++ replicate 2 Byte.x00 ++ replicate 4 Byte.x00 ++
  replicate 8 Byte.x00 ++ replicate 8 Byte.x00 ++ replicate 4 Byte.x00 ++ replicate 4 Byte.x00 ++
  replicate 4 Byte.x00 ++ replicate 4 Byte.x00 ++ replicate 8 Byte.x00 ++ replicate 8 Byte.x00 ++
  replicate 4 Byte.x00 ++ replicate 4 Byte.x00 ++ replicate n Byte.x00.
Proof. by rewrite <-!zeros_app. Qed.

Ltac header_offsets :=
  unfold MAX_EVENTS_OFFSET, MAX_RUN_COMMANDS_OFFSET, MAX_RUN_JOURNAL_BYTES_OFFSET, INSTRUMENT_COUNT_OFFSET,
    GENERATOR_CONFIG_LENGTH_OFFSET, INSTRUMENTS_OFFSET, RUN_HEADER_FIXED_PAYLOAD_SIZE,
    JOURNAL_V1_PAYLOAD_OFFSET, JOURNAL_V1_ENVELOPE_SIZE, JOURNAL_V1_FORMAT_VERSION_OFFSET,
    JOURNAL_V1_RECORD_TYPE_OFFSET, JOURNAL_V1_TOTAL_LENGTH_OFFSET, JOURNAL_V1_EXCHANGE_RUN_ID_OFFSET,
    JOURNAL_V1_COMMAND_SEQUENCE_OFFSET, JOURNAL_V1_PAYLOAD_LENGTH_OFFSET, JOURNAL_V1_CHECKSUM_OFFSET in *.

Lemma encodeRunHeaderV1_run header :
  valid_runHeader header → encodeRunHeaderV1 header = Ok (headerFrame header).
Proof.
  intros Hv. unfold encodeRunHeaderV1. rewrite validateHeader_run, checked_bind_ok by done.
  pose proof (vrh_count _ Hv) as Hcount. set (n := length (Header.instruments header)) in *.
  rewrite header_zeros. header_offsets. replace (68 + n * 12 - 36)%nat with (32 + n * 12)%nat by lia.
  rewrite !wrap32_small by (unfold is_u32, UINT32_MAX; lia).
  repeat write_field.
  rewrite !app_assoc, writeInstruments_at by (unfold JOURNAL_V1_MAGIC; field_len).
  rewrite checked_bind_ok. unfold headerFrame. rewrite <-frame_checksum_run with (c := replicate 4 Byte.x00) by done.
  unfold envelopeHead. rewrite headerPayload_length. fold n. unfold headerPayload. fold n.
  replace (Z.of_nat (JOURNAL_V1_ENVELOPE_SIZE + (32 + n * 12))) with (Z.of_nat (68 + n * 12))
    by (unfold JOURNAL_V1_ENVELOPE_SIZE; lia).
  rewrite <-!app_assoc. reflexivity.
Qed.

(** ** Decoding *)

(** The decoder's checks on the values of the frame's fields. *)
Definition checkHeader (size : Z) (magic : bytes) (version t total run sequence payloadLength stored computed : Z)
    (rules events commands journalBytes count generator : Z) (entries : bytes)
    : checked RunHeaderCodecError RunHeaderV1 :=
  fail_if (bool_decide (65536 < size)) FRAME_TOO_LARGE ;;
  fail_if (bool_decide (magic ≠ JOURNAL_V1_MAGIC)) INVALID_MAGIC ;;
  fail_if (bool_decide (version ≠ JOURNAL_V1_FORMAT_VERSION)) UNSUPPORTED_FORMAT_VERSION ;;
  fail_if (bool_decide (t ≠ RUN_HEADER_RECORD_TYPE)) UNSUPPORTED_RECORD_TYPE ;;
  fail_if (bool_decide (total < 36)) INVALID_TOTAL_LENGTH ;;
  fail_if (bool_decide (65536 < total)) FRAME_TOO_LARGE ;;
  fail_if (bool_decide (size < total)) TRUNCATED_INPUT ;;
  fail_if (bool_decide (total < size)) TRAILING_BYTES ;;
  fail_if (bool_decide (sequence ≠ 0)) NONZERO_COMMAND_SEQUENCE ;;
  fail_if (bool_decide (36 + payloadLength ≠ total) || bool_decide (payloadLength < 32)) INVALID_PAYLOAD_LENGTH ;;
  fail_if (bool_decide (stored ≠ computed)) CHECKSUM_MISMATCH ;;
  fail_if (bool_decide (32 + count * 12 + generator ≠ payloadLength)) INVALID_PAYLOAD_LENGTH ;;
  fail_if (bool_decide (generator ≠ 0)) UNSUPPORTED_GENERATOR_CONFIGURATION ;;
  instruments ← readInstruments entries 0 (Z.to_nat count);
  let decoded := Header.mkRunHeaderV1 run rules events commands journalBytes instruments in
  validateHeader decoded ;; Ok decoded.

Section header_fields.
Context (magic version t total run sequence payloadLength stored : bytes).
Context (rules events commands journalBytes count generator entries : bytes).
Context (Hmagic : length magic = 4%nat) (Hversion : length version = 2%nat) (Ht : length t = 2%nat)
  (Htotal : length total = 4%nat) (Hrun : length run = 8%nat) (Hsequence : length sequence = 8%nat)
  (HpayloadLength : length payloadLength = 4%nat) (Hstored : length stored = 4%nat)
  (Hrules : length rules = 4%nat) (Hevents : length events = 4%nat) (Hcommands : length commands = 8%nat)
  (Hbytes : length journalBytes = 8%nat) (Hcount : length count = 4%nat) (Hgenerator : length generator = 4%nat).

Lemma decodeHeader_fields :
  decodeRunHeaderV1
    (magic ++ version ++ t ++ total ++ run ++ sequence ++ payloadLength ++ stored ++
     rules ++ events ++ commands ++ journalBytes ++ count ++ generator ++ entries) =
  checkHeader (Z.of_nat (68 + length entries)) magic (leNumber version) (leNumber t) (leNumber total)
    (leNumber run) (leNumber sequence) (leNumber payloadLength) (leNumber stored)
    (checksumOf (magic ++ version ++ t ++ total ++ run ++ sequence ++ payloadLength)
       (rules ++ events ++ commands ++ journalBytes ++ count ++ generator ++ entries))
    (leNumber rules) (leNumber events) (leNumber commands) (leNumber journalBytes) (leNumber count)
    (leNumber generator) entries.
Proof using All.
  unfold decodeRunHeaderV1, checkHeader. header_offsets. unfold INSTRUMENT_ENTRY_SIZE, RUN_HEADER_MAX_FRAME_SIZE.
  rewrite !length_app, Hmagic, Hversion, Ht, Htotal, Hrun, Hsequence, HpayloadLength, Hstored, Hrules, Hevents,
    Hcommands, Hbytes, Hcount, Hgenerator. cbn [Nat.add].
  rewrite fail_if_false by (apply bool_decide_eq_false; lia).
  pose proof (journalV1Checksum_run (E:=RunHeaderCodecError)
    (magic ++ version ++ t ++ total ++ run ++ sequence ++ payloadLength) stored
    (rules ++ events ++ commands ++ journalBytes ++ count ++ generator ++ entries)
    ltac:(rewrite !length_app; lia) Hstored) as Hsum.
  rewrite <-!app_assoc in Hsum. rewrite Hsum. repeat read_field.
  repeat rewrite readInstruments_skip by field_len.
  rewrite Hmagic, Hversion, Ht, Htotal, Hrun, Hsequence, HpayloadLength, Hstored, Hrules, Hevents,
    Hcommands, Hbytes, Hcount, Hgenerator. reflexivity.
Qed.
End header_fields.

Lemma headerFrame_fields header :
  headerFrame header =
  JOURNAL_V1_MAGIC ++ leBytes 2 JOURNAL_V1_FORMAT_VERSION ++ leBytes 2 RUN_HEADER_RECORD_TYPE ++
  leBytes 4 (Z.of_nat (68 + length (Header.instruments header) * 12)) ++ leBytes 8 (Header.exchangeRunId header) ++
  leBytes 8 0 ++ leBytes 4 (Z.of_nat (32 + length (Header.instruments header) * 12)) ++
  leBytes 4 (checksumOf (envelopeHead RUN_HEADER_RECORD_TYPE (length (headerPayload header))
    (Header.exchangeRunId header) 0) (headerPayload header)) ++ headerPayload header.
Proof.
  unfold headerFrame. rewrite frameOf_fields, headerPayload_length. do 4 f_equal.
Qed.

Lemma decodeRunHeaderV1_run header :
  valid_runHeader header → decodeRunHeaderV1 (headerFrame header) = Ok header.
Proof.
  intros Hv. pose proof (validateHeader_run _ Hv) as Hok. destruct Hv as [[Hr ?] Hrules Hevents [? ?] [? ?] Hen _ _ Hcount].
  rewrite headerFrame_fields. unfold headerPayload at 3. rewrite decodeHeader_fields by (apply leBytes_length || done).
  set (n := length (Header.instruments header)) in *.
  rewrite entriesBytes_length. fold n. rewrite Hrules, Hevents.
  rewrite (leNumber_field 4 (checksumOf _ _)) by apply checksumOf_field.
  rewrite !leNumber_u64, !leNumber_u32 by (done || (unfold is_u64, is_u32, UINT64_MAX, UINT32_MAX; lia)).
  change (leNumber (leBytes 2 JOURNAL_V1_FORMAT_VERSION)) with JOURNAL_V1_FORMAT_VERSION.
  change (leNumber (leBytes 2 RUN_HEADER_RECORD_TYPE)) with RUN_HEADER_RECORD_TYPE.
  unfold checkHeader.
  rewrite (bool_decide_eq_false_2 (checksumOf _ _ ≠ _)).
  2:{ intros Hne. apply Hne. f_equal.
      - unfold envelopeHead. rewrite headerPayload_length. reflexivity.
      - unfold headerPayload. by rewrite Hrules, Hevents. }
  rewrite (bool_decide_eq_false_2 (36 + _ ≠ _)), (bool_decide_eq_false_2 (_ < 32)) by lia.
  repeat rewrite fail_if_false by (reflexivity || (apply bool_decide_eq_false; lia) || (apply bool_decide_eq_false; auto)).
  rewrite Nat2Z.id. unfold n. rewrite readInstruments_run, checked_bind_ok by done.
  destruct header. cbn in *. rewrite <-Hrules, <-Hevents. by rewrite Hok.
Qed.

(** Reaching the generator's length means the fixed payload is present. *)
Lemma decodeRunHeaderV1_size input header : decodeRunHeaderV1 input = Ok header → (68 ≤ length input)%nat.
Proof.
  unfold decodeRunHeaderV1. intros H.
  repeat match type of H with
         | (fail_if _ _ ≫= _) = Ok _ => apply fail_if_inv in H as [_ H]
         | (readLE _ _ GENERATOR_CONFIG_LENGTH_OFFSET ≫= _) = Ok _ => fail 1
         | (?m ≫= _) = Ok _ => apply checked_bind_inv in H as (? & _ & H)
         end.
  apply checked_bind_inv in H as (? & [Hl _]%readLE_inv & _). header_offsets. lia.
Qed.

Lemma decodeRunHeaderV1_inv input header :
  decodeRunHeaderV1 input = Ok header → valid_runHeader header ∧ input = headerFrame header.
Proof.
  intros Hd. pose proof (decodeRunHeaderV1_size _ _ Hd) as Hsize.
  destruct (cut_field 4 input) as (magic & r1 & -> & H1); [lia|]. rewrite length_app in Hsize.
  destruct (cut_field 2 r1) as (version & r2 & -> & H2); [lia|]. rewrite length_app in Hsize.
  destruct (cut_field 2 r2) as (ty & r3 & -> & H3); [lia|]. rewrite length_app in Hsize.
  destruct (cut_field 4 r3) as (total & r4 & -> & H4); [lia|]. rewrite length_app in Hsize.
  destruct (cut_field 8 r4) as (run & r5 & -> & H5); [lia|]. rewrite length_app in Hsize.
  destruct (cut_field 8 r5) as (sequence & r6 & -> & H6); [lia|]. rewrite length_app in Hsize.
  destruct (cut_field 4 r6) as (plen & r7 & -> & H7); [lia|]. rewrite length_app in Hsize.
  destruct (cut_field 4 r7) as (stored & r8 & -> & H8); [lia|]. rewrite length_app in Hsize.
  destruct (cut_field 4 r8) as (rules & r9 & -> & H9); [lia|]. rewrite length_app in Hsize.
  destruct (cut_field 4 r9) as (events & r10 & -> & H10); [lia|]. rewrite length_app in Hsize.
  destruct (cut_field 8 r10) as (commands & r11 & -> & H11); [lia|]. rewrite length_app in Hsize.
  destruct (cut_field 8 r11) as (jbytes & r12 & -> & H12); [lia|]. rewrite length_app in Hsize.
  destruct (cut_field 4 r12) as (count & r13 & -> & H13); [lia|]. rewrite length_app in Hsize.
  destruct (cut_field 4 r13) as (generator & entries & -> & H14); [lia|].
  rewrite decodeHeader_fields in Hd by done. unfold checkHeader in Hd.
  do 13 (let Hb := fresh "Hb" in apply fail_if_inv in Hd as [Hb Hd]).
  apply orb_false_iff in Hb8 as [Hb8 _].
  apply bool_decide_eq_false in Hb, Hb0, Hb1, Hb2, Hb3, Hb4, Hb5, Hb6, Hb7, Hb8, Hb9, Hb10, Hb11.
  assert (Hentries : length entries = (Z.to_nat (leNumber count) * 12)%nat)
    by (pose proof (leNumber_bounds count); lia).
  destruct (readInstruments_inv _ _ Hentries) as (l & Hl & Hcount & Hok & ->).
  rewrite Hl, checked_bind_ok in Hd. apply checked_bind_inv in Hd as (size & Hvalid & [= <-]).
  apply validateHeader_inv in Hvalid as [Hvalid _]; [|by apply field_u64..|done]. split; [done|].
  apply dec_stable in Hb0, Hb1, Hb2, Hb7, Hb8, Hb9, Hb10, Hb11.
  assert (Hn : leNumber count = Z.of_nat (length l)) by (pose proof (leNumber_bounds count); lia).
  assert (Hpayload : rules ++ events ++ commands ++ jbytes ++ count ++ generator ++ entriesBytes l =
    headerPayload (Header.mkRunHeaderV1 (leNumber run) (leNumber rules) (leNumber events) (leNumber commands)
                     (leNumber jbytes) l)).
  { unfold headerPayload. cbn [Header.instruments Header.behavioralRulesVersion Header.maxEventsPerCommand
       Header.maxRunCommands Header.maxRunJournalBytes]. rewrite <-Hn, <-Hb11.
    by rewrite <-(field_bytes _ _ H9), <-(field_bytes _ _ H10), <-(field_bytes _ _ H11), <-(field_bytes _ _ H12),
      <-(field_bytes _ _ H13), <-(field_bytes _ _ H14). }
  unfold headerFrame. cbn [Header.exchangeRunId]. rewrite <-Hb7 at 1. rewrite <-Hpayload.
  apply frameOf_intro; try done; rewrite !length_app, entriesBytes_length, H9, H10, H11, H12, H13, H14; lia.
Qed.

(** ** No read outside the input *)
Lemma readInstruments_in_bounds n : ∀ input offset,
  (offset + n * 12 ≤ length input)%nat → in_bounds (readInstruments input offset n).
Proof.
  induction n as [|n IH]; intros input offset Hl; cbn [readInstruments]; [done|].
  apply in_bounds_read; [lia|]. intros id _. apply in_bounds_read; [lia|]. intros cfg _.
  apply in_bounds_bind; [|done]. apply IH. unfold INSTRUMENT_ENTRY_SIZE. lia.
Qed.

Lemma validateInstruments_in_bounds l : ∀ previous, in_bounds (validateInstruments previous l).
Proof.
  induction l as [|i l IH]; intros previous; cbn [validateInstruments]; [done|].
  do 3 (apply in_bounds_fail_if; intros _). apply IH.
Qed.

Lemma validateHeader_in_bounds header : in_bounds (validateHeader header).
Proof.
  unfold validateHeader. do 4 (apply in_bounds_fail_if; intros _).
  apply in_bounds_bind; [apply validateInstruments_in_bounds|]. intros _ _.
  do 2 (apply in_bounds_fail_if; intros _). done.
Qed.

Ltac header_step :=
  first
    [ apply in_bounds_fail_if; intros [?Hb ?Hb]%orb_false_iff;
      repeat match goal with H : bool_decide _ = false |- _ => apply bool_decide_eq_false in H end
    | apply in_bounds_fail_if; intros ?Hb%bool_decide_eq_false
    | apply in_bounds_read; [lia|intros ? ?]
    | apply in_bounds_subspan; [lia|intros ? ?]
    | apply in_bounds_checksum; [lia|intros ?] ].

Lemma decodeRunHeaderV1_in_bounds input : in_bounds (decodeRunHeaderV1 input).
Proof.
  unfold decodeRunHeaderV1. header_offsets. unfold INSTRUMENT_ENTRY_SIZE.
  repeat header_step. apply in_bounds_bind; [apply readInstruments_in_bounds; lia|].
  intros l _. apply in_bounds_bind; [apply validateHeader_in_bounds|done].
Qed.

Lemma runHeader_codec_bijective input header :
  decodeRunHeaderV1 input = Ok header ↔ valid_runHeader header ∧ encodeRunHeaderV1 header = Ok input.
Proof.
  split.
  - intros [Hv ->]%decodeRunHeaderV1_inv. split; [done|]. by apply encodeRunHeaderV1_run.
  - intros [Hv He]. rewrite encodeRunHeaderV1_run in He by done. injection He as <-. by apply decodeRunHeaderV1_run.
Qed.

Lemma runHeader_decoder_robust :
  (∀ input, decodeRunHeaderV1 input ≠ OutOfBounds) ∧
  (∀ pre b b' post header, decodeRunHeaderV1 (pre ++ b :: post) = Ok header → b ≠ b' →
     ∃ e, decodeRunHeaderV1 (pre ++ b' :: post) = Err e).
Proof.
  split; [apply decodeRunHeaderV1_in_bounds|]. intros pre b b' post header [_ H]%decodeRunHeaderV1_inv Hb.
  apply checked_error; [apply decodeRunHeaderV1_in_bounds|]. intros header' [_ H']%decodeRunHeaderV1_inv.
  by eapply Hb, frameOf_corruption.
Qed.

(** ** The property *)

(** The run header's codec is a bijection between the valid headers and the
    inputs the decoder accepts: decoding gives a header exactly when it is valid
    (fixed versions, a run id and command limit that are not zero, a byte limit
    that leaves room for the header, instruments strictly increasing) and
    encoding it gives back the same bytes; on any input the decoder stays inside
    it, whatever instrument count the input claims; and a valid header's frame
    with exactly one byte replaced by another value is reported as an error. *)
Theorem runHeader_codec_correct :
  (∀ input header, decodeRunHeaderV1 input = Ok header ↔ valid_runHeader header ∧ encodeRunHeaderV1 header = Ok input) ∧
  (∀ input, decodeRunHeaderV1 input ≠ OutOfBounds) ∧
  (∀ pre b b' post header, decodeRunHeaderV1 (pre ++ b :: post) = Ok header → b ≠ b' →
     ∃ e, decodeRunHeaderV1 (pre ++ b' :: post) = Err e).
Proof. split; [apply runHeader_codec_bijective|apply runHeader_decoder_robust]. Qed.

Definition demoHeader : RunHeaderV1 :=
  Header.mkRunHeaderV1 7 1 4096 1000 65536 [HeaderInstrument.mkRunHeaderInstrumentV1 1 1].

Definition demoHeaderBytes : bytes :=
  match encodeRunHeaderV1 demoHeader with Ok frame => frame | _ => [] end.

Lemma runHeader_codec_correct_witness :
  ∃ e, decodeRunHeaderV1 (take 40 demoHeaderBytes ++ Byte.x01 :: drop 41 demoHeaderBytes) = Err e.
Proof.
  apply (proj2 (proj2 runHeader_codec_correct) (take 40 demoHeaderBytes) Byte.x00 Byte.x01 (drop 41 demoHeaderBytes) demoHeader).
  - vm_compute. reflexivity.
  - discriminate.
Defined.
