(* ===== verification/RunCatalogCodec.v ===== *)
(** * The run catalog's record

    [src/core/storage/src/run_catalog_codec.cpp]: the 56-byte record that names the
    last reserved run, the active run with its disposition and the retained
    stopped run. *)
From S2P Require Import Prelude Domain Bytes JournalCodec JournalFrames.

Module Disposition.
Inductive RunCatalogDisposition :=
  | NONE | OPEN | PAUSED | CAPACITY_REACHED | FAIL_STOPPED | RECOVERY_FAILED
  | RunCatalogDisposition_raw (value : Z).
#[export] Instance RunCatalogDisposition_eq_dec : EqDecision RunCatalogDisposition.
Proof. solve_decision. Defined.
End Disposition.
Export (hints) Disposition.
Abbreviation RunCatalogDisposition := Disposition.RunCatalogDisposition.

Module CatalogError.
Inductive RunCatalogCodecError :=
  | INVALID_SIZE | INVALID_MAGIC | UNSUPPORTED_VERSION | INVALID_TOTAL_LENGTH | NONZERO_RESERVED_BYTES
  | CHECKSUM_MISMATCH | ZERO_GENERATION | UNKNOWN_DISPOSITION | ZERO_PRESENT_RUN_ID
  | ACTIVE_DISPOSITION_MISMATCH | RUN_ID_EXCEEDS_LAST_RESERVED | DUPLICATE_ACTIVE_AND_RETAINED_RUN_ID.
#[export] Instance RunCatalogCodecError_eq_dec : EqDecision RunCatalogCodecError.
Proof. solve_decision. Defined.
End CatalogError.
Export (hints) CatalogError.
Abbreviation RunCatalogCodecError := CatalogError.RunCatalogCodecError.

Module Catalog.
Record RunCatalogSnapshotV1 := mkRunCatalogSnapshotV1 {
  generation : Z;
  lastReservedRunId : option ExchangeRunId;
  activeRunId : option ExchangeRunId;
  activeDisposition : RunCatalogDisposition;
  retainedStoppedRunId : option ExchangeRunId }.
#[export] Instance RunCatalogSnapshotV1_eq_dec : EqDecision RunCatalogSnapshotV1.
Proof. solve_decision. Defined.
End Catalog.
Export (hints) Catalog.
Abbreviation RunCatalogSnapshotV1 := Catalog.RunCatalogSnapshotV1.

Definition CATALOG_MAGIC : bytes := [Byte.x46; Byte.x58; Byte.x52; Byte.x43].
Definition CATALOG_VERSION : Z := 1.
Definition RUN_CATALOG_V1_SIZE : nat := 56.
Definition GENERATION_OFFSET : nat := 8.
Definition LAST_RESERVED_RUN_ID_OFFSET : nat := 16.
Definition ACTIVE_RUN_ID_OFFSET : nat := 24.
Definition ACTIVE_DISPOSITION_OFFSET : nat := 32.
Definition FIRST_RESERVED_OFFSET : nat := 33.
Definition FIRST_RESERVED_LENGTH : nat := 7.
Definition RETAINED_STOPPED_RUN_ID_OFFSET : nat := 40.
Definition CHECKSUM_OFFSET : nat := 48.
Definition FINAL_RESERVED_OFFSET : nat := 52.
Definition FINAL_RESERVED_LENGTH : nat := 4.

(** The enumeration's underlying value and the cast back. *)
Definition dispositionValue (d : RunCatalogDisposition) : Z :=
  match d with
  | Disposition.NONE => 0 | Disposition.OPEN => 1 | Disposition.PAUSED => 2
  | Disposition.CAPACITY_REACHED => 3 | Disposition.FAIL_STOPPED => 4 | Disposition.RECOVERY_FAILED => 5
  | Disposition.RunCatalogDisposition_raw value => value
  end.

Definition dispositionOf (value : Z) : RunCatalogDisposition :=
  match value with
  | 0 => Disposition.NONE | 1 => Disposition.OPEN | 2 => Disposition.PAUSED
  | 3 => Disposition.CAPACITY_REACHED | 4 => Disposition.FAIL_STOPPED | 5 => Disposition.RECOVERY_FAILED
  | _ => Disposition.RunCatalogDisposition_raw value
  end.

Definition encodedRunId (runId : option ExchangeRunId) : Z := default 0 runId.

Definition decodedRunId (value : Z) : option ExchangeRunId :=
  if bool_decide (value = 0) then None else Some value.

Definition containsNonzeroByte (input : bytes) : bool :=
  existsb (λ b, bool_decide (b ≠ Byte.x00)) input.

Definition catalogChecksum {E} (input : bytes) : checked E Z :=
  head ← subspan input 0 CHECKSUM_OFFSET;
  tail ← subspan input FINAL_RESERVED_OFFSET FINAL_RESERVED_LENGTH;
  Ok (crcChecksum (crcUpdate (crcUpdate CRC_INITIAL_STATE head) tail)).

Definition isKnownDispositionValue (value : Z) : bool :=
  bool_decide (value ≤ dispositionValue Disposition.RECOVERY_FAILED).

Definition isPresentZero (runId : option ExchangeRunId) : bool := bool_decide (runId = Some 0).

Import CatalogError.

(** [!last.has_value() || *id > *last] for a present [id]. *)
Definition exceedsLastReserved (runId lastReservedRunId : option ExchangeRunId) : bool :=
  match runId, lastReservedRunId with
  | Some _, None => true
  | Some id, Some last => bool_decide (last < id)
  | None, _ => false
  end.

Definition validateSnapshot (snapshot : RunCatalogSnapshotV1) : checked RunCatalogCodecError unit :=
  fail_if (bool_decide (Catalog.generation snapshot = 0)) ZERO_GENERATION ;;
  fail_if (negb (isKnownDispositionValue (dispositionValue (Catalog.activeDisposition snapshot))))
    UNKNOWN_DISPOSITION ;;
  fail_if (isPresentZero (Catalog.lastReservedRunId snapshot) || isPresentZero (Catalog.activeRunId snapshot) ||
           isPresentZero (Catalog.retainedStoppedRunId snapshot)) ZERO_PRESENT_RUN_ID ;;
  let hasActiveRun := bool_decide (is_Some (Catalog.activeRunId snapshot)) in
  let hasActiveDisposition := bool_decide (Catalog.activeDisposition snapshot ≠ Disposition.NONE) in
  fail_if (negb (Bool.eqb hasActiveRun hasActiveDisposition)) ACTIVE_DISPOSITION_MISMATCH ;;
  fail_if (bool_decide (is_Some (Catalog.activeRunId snapshot)) &&
           bool_decide (is_Some (Catalog.retainedStoppedRunId snapshot)) &&
           bool_decide (Catalog.activeRunId snapshot = Catalog.retainedStoppedRunId snapshot))
    DUPLICATE_ACTIVE_AND_RETAINED_RUN_ID ;;
  fail_if (exceedsLastReserved (Catalog.activeRunId snapshot) (Catalog.lastReservedRunId snapshot))
    RUN_ID_EXCEEDS_LAST_RESERVED ;;
  fail_if (exceedsLastReserved (Catalog.retainedStoppedRunId snapshot) (Catalog.lastReservedRunId snapshot))
    RUN_ID_EXCEEDS_LAST_RESERVED.

Definition encodeRunCatalogV1 (snapshot : RunCatalogSnapshotV1) : checked RunCatalogCodecError bytes :=
  validateSnapshot snapshot ;;
  let encoded := replicate RUN_CATALOG_V1_SIZE Byte.x00 in
  encoded ← putBytes encoded 0 CATALOG_MAGIC;
  encoded ← writeLE 2 encoded 4 CATALOG_VERSION;
  encoded ← writeLE 2 encoded 6 (Z.of_nat RUN_CATALOG_V1_SIZE);
  encoded ← writeLE 8 encoded GENERATION_OFFSET (Catalog.generation snapshot);
  encoded ← writeLE 8 encoded LAST_RESERVED_RUN_ID_OFFSET (encodedRunId (Catalog.lastReservedRunId snapshot));
  encoded ← writeLE 8 encoded ACTIVE_RUN_ID_OFFSET (encodedRunId (Catalog.activeRunId snapshot));
  encoded ← writeLE 1 encoded ACTIVE_DISPOSITION_OFFSET (dispositionValue (Catalog.activeDisposition snapshot));
  encoded ← writeLE 8 encoded RETAINED_STOPPED_RUN_ID_OFFSET
              (encodedRunId (Catalog.retainedStoppedRunId snapshot));
  checksum ← catalogChecksum encoded;
  writeLE 4 encoded CHECKSUM_OFFSET checksum.

Definition decodeRunCatalogV1 (input : bytes) : checked RunCatalogCodecError RunCatalogSnapshotV1 :=
  fail_if (bool_decide (length input ≠ RUN_CATALOG_V1_SIZE)) INVALID_SIZE ;;
  magic ← subspan input 0 4;
  fail_if (bool_decide (magic ≠ CATALOG_MAGIC)) INVALID_MAGIC ;;
  version ← readLE 2 input 4;
  fail_if (bool_decide (version ≠ CATALOG_VERSION)) UNSUPPORTED_VERSION ;;
  totalLength ← readLE 2 input 6;
  fail_if (bool_decide (totalLength ≠ Z.of_nat RUN_CATALOG_V1_SIZE)) INVALID_TOTAL_LENGTH ;;
  firstReserved ← subspan input FIRST_RESERVED_OFFSET FIRST_RESERVED_LENGTH;
  finalReserved ← subspan input FINAL_RESERVED_OFFSET FINAL_RESERVED_LENGTH;
  fail_if (containsNonzeroByte firstReserved || containsNonzeroByte finalReserved) NONZERO_RESERVED_BYTES ;;
  stored ← readLE 4 input CHECKSUM_OFFSET;
  computed ← catalogChecksum input;
  fail_if (bool_decide (stored ≠ computed)) CHECKSUM_MISMATCH ;;
  disposition ← readByte input ACTIVE_DISPOSITION_OFFSET;
  fail_if (negb (isKnownDispositionValue disposition)) UNKNOWN_DISPOSITION ;;
  generation ← readLE 8 input GENERATION_OFFSET;
  lastReservedRunId ← readLE 8 input LAST_RESERVED_RUN_ID_OFFSET;
  activeRunId ← readLE 8 input ACTIVE_RUN_ID_OFFSET;
  retainedStoppedRunId ← readLE 8 input RETAINED_STOPPED_RUN_ID_OFFSET;
  let decoded := Catalog.mkRunCatalogSnapshotV1 generation (decodedRunId lastReservedRunId)
                   (decodedRunId activeRunId) (dispositionOf disposition)
                   (decodedRunId retainedStoppedRunId) in
  validateSnapshot decoded ;;
  Ok decoded.

(** * Properties of the run catalog's codec *)
Import CatalogError.

(** ** The record's layout *)
Definition catalogHead (s : RunCatalogSnapshotV1) : bytes :=
  CATALOG_MAGIC ++ leBytes 2 CATALOG_VERSION ++ leBytes 2 (Z.of_nat RUN_CATALOG_V1_SIZE) ++
  leBytes 8 (Catalog.generation s) ++ leBytes 8 (encodedRunId (Catalog.lastReservedRunId s)) ++
  leBytes 8 (encodedRunId (Catalog.activeRunId s)) ++ leBytes 1 (dispositionValue (Catalog.activeDisposition s)) ++
  replicate 7 Byte.x00 ++ leBytes 8 (encodedRunId (Catalog.retainedStoppedRunId s)).

Definition catalogRecord (s : RunCatalogSnapshotV1) : bytes :=
  catalogHead s ++ leBytes 4 (checksumOf (catalogHead s) (replicate 4 Byte.x00)) ++ replicate 4 Byte.x00.

Definition runId_ok (runId : option ExchangeRunId) : Prop := ∀ id, runId = Some id → is_u64 id ∧ id ≠ 0.

(** The catalogs the exchange writes: an active run exactly when there is a
    disposition, distinct from the retained one, neither above the last
    reserved identifier. *)
Record valid_catalog (s : RunCatalogSnapshotV1) : Prop := {
  vc_generation : is_u64 (Catalog.generation s) ∧ Catalog.generation s ≠ 0;
  vc_last : runId_ok (Catalog.lastReservedRunId s);
  vc_active : runId_ok (Catalog.activeRunId s);
  vc_retained : runId_ok (Catalog.retainedStoppedRunId s);
  vc_known : ∀ v, Catalog.activeDisposition s ≠ Disposition.RunCatalogDisposition_raw v;
  vc_disposition : Catalog.activeRunId s = None ↔ Catalog.activeDisposition s = Disposition.NONE;
  vc_distinct : ∀ id, Catalog.activeRunId s = Some id → Catalog.retainedStoppedRunId s ≠ Some id;
  vc_reserved : ∀ id, Catalog.activeRunId s = Some id ∨ Catalog.retainedStoppedRunId s = Some id →
    ∃ last, Catalog.lastReservedRunId s = Some last ∧ id ≤ last }.

(** ** Optional identifiers and dispositions *)
Lemma decoded_encodedRunId runId : runId_ok runId → decodedRunId (encodedRunId runId) = runId.
Proof.
  destruct runId as [id|]; simpl; [|done]. intros H. destruct (H id eq_refl) as [_ ?].
  unfold decodedRunId. by rewrite bool_decide_eq_false_2.
Qed.

Lemma encoded_decodedRunId v : encodedRunId (decodedRunId v) = v.
Proof. unfold decodedRunId. by case_bool_decide. Qed.

Lemma decodedRunId_ok v : is_u64 v → runId_ok (decodedRunId v).
Proof. unfold decodedRunId. intros ? id. case_bool_decide; intros; simplify_eq. done. Qed.

Lemma encodedRunId_u64 runId : runId_ok runId → is_u64 (encodedRunId runId).
Proof. destruct runId as [id|]; intros H; [by apply (H id)|]. unfold is_u64, UINT64_MAX. simpl. lia. Qed.

Lemma isPresentZero_ok runId : runId_ok runId → isPresentZero runId = false.
Proof. intros H. apply bool_decide_eq_false. intros E. by destruct (H 0 E). Qed.

Lemma disposition_known d : (∀ v, d ≠ Disposition.RunCatalogDisposition_raw v) →
  0 ≤ dispositionValue d ≤ 5 ∧ dispositionOf (dispositionValue d) = d.
Proof. destruct d; intros H; simpl; try (split; [lia|done]). by destruct (H value). Qed.

Lemma dispositionOf_known v : 0 ≤ v ≤ 5 →
  dispositionValue (dispositionOf v) = v ∧ ∀ r, dispositionOf v ≠ Disposition.RunCatalogDisposition_raw r.
Proof.
  intros H. assert (v = 0 ∨ v = 1 ∨ v = 2 ∨ v = 3 ∨ v = 4 ∨ v = 5) as [|[|[|[|[|]]]]] by lia; subst; done.
Qed.

(** ** The snapshot's check *)
Lemma exceedsLastReserved_false runId last :
  exceedsLastReserved runId last = false ↔ ∀ id, runId = Some id → ∃ l, last = Some l ∧ id ≤ l.
Proof.
  destruct runId as [id|]; simpl; [|by split]. destruct last as [l|].
  - rewrite bool_decide_eq_false. split.
    + intros ? ? [= <-]. eexists. split; [done|lia].
    + intros H. destruct (H id eq_refl) as (? & [= <-] & ?). lia.
  - split; [done|]. intros H. by destruct (H id eq_refl) as (? & ? & _).
Qed.

Lemma validateSnapshot_run s : valid_catalog s → validateSnapshot s = Ok tt.
Proof.
  intros [[_ ?] Hl Ha Hr Hk Hd Hdist Hres]. unfold validateSnapshot, isKnownDispositionValue.
  rewrite fail_if_false by by apply bool_decide_eq_false.
  destruct (disposition_known _ Hk) as [Hv _].
  rewrite (bool_decide_eq_true_2 (dispositionValue _ ≤ _)) by (simpl; lia).
  rewrite !isPresentZero_ok by done. cbn [negb orb fail_if]. rewrite !checked_bind_ok.
  rewrite !(fail_if_false).
  - unfold fail_if. rewrite (proj2 (exceedsLastReserved_false _ _)); [done|]. intros id Hid. apply Hres. by right.
  - apply exceedsLastReserved_false. intros id Hid. apply Hres. by left.
  - destruct (Catalog.activeRunId s) as [id|] eqn:E; [|done].
    rewrite (bool_decide_eq_false_2 (Some id = _)); [by rewrite andb_false_r|]. intros Heq. by eapply Hdist.
  - apply negb_false_iff, eqb_true_iff. apply bool_decide_ext. rewrite <-Hd.
    destruct (Catalog.activeRunId s); split; [done|eauto|by intros []|done].
Qed.

Lemma validateSnapshot_inv s :
  validateSnapshot s = Ok tt → is_u64 (Catalog.generation s) → runId_ok (Catalog.lastReservedRunId s) →
  runId_ok (Catalog.activeRunId s) → runId_ok (Catalog.retainedStoppedRunId s) →
  (∀ v, Catalog.activeDisposition s ≠ Disposition.RunCatalogDisposition_raw v) → valid_catalog s.
Proof.
  intros Hv Hg Hl Ha Hr Hk. unfold validateSnapshot in Hv.
  do 6 (let Hb := fresh "Hb" in apply fail_if_inv in Hv as [Hb Hv]). unfold fail_if in Hv.
  destruct (exceedsLastReserved (Catalog.retainedStoppedRunId s) _) eqn:Hex; [done|].
  apply bool_decide_eq_false in Hb. pose proof (proj1 (exceedsLastReserved_false _ _) Hb4) as Hres.
  pose proof (proj1 (exceedsLastReserved_false _ _) Hex) as Hres'.
  split; try done.
  - apply negb_false_iff, eqb_prop, (f_equal negb) in Hb2.
    destruct (Catalog.activeRunId s) as [id|]; split; intros; try done.
    + exfalso. rewrite bool_decide_eq_true_2, bool_decide_eq_false_2 in Hb2 by (eauto || tauto). done.
    + apply dec_stable. intros Hne. rewrite bool_decide_eq_false_2, bool_decide_eq_true_2 in Hb2 by (done || by intros []).
      done.
  - intros id E1 E2. rewrite E1, E2, !bool_decide_eq_true_2 in Hb3 by eauto. done.
  - intros id [E|E]; [by apply Hres|by apply Hres'].
Qed.

(** ** Encoding *)
Ltac catalog_offsets :=
  unfold GENERATION_OFFSET, LAST_RESERVED_RUN_ID_OFFSET, ACTIVE_RUN_ID_OFFSET, ACTIVE_DISPOSITION_OFFSET,
    FIRST_RESERVED_OFFSET, FIRST_RESERVED_LENGTH, RETAINED_STOPPED_RUN_ID_OFFSET, CHECKSUM_OFFSET,
    FINAL_RESERVED_OFFSET, FINAL_RESERVED_LENGTH in *.

Lemma catalogHead_length s : length (catalogHead s) = 48%nat.
Proof. unfold catalogHead. autorewrite with field_length. done. Qed.

Lemma subspan_whole {E} (seg : bytes) offset count :
  offset = 0%nat → length seg = count → subspan (E:=E) seg offset count = Ok seg.
Proof. intros. rewrite <-(app_nil_r seg) at 1. by apply subspan_here. Qed.

Lemma catalogChecksum_run {E} (head stored tail : bytes) :
  length head = 48%nat → length stored = 4%nat → length tail = 4%nat →
  catalogChecksum (E:=E) (head ++ stored ++ tail) = Ok (checksumOf head tail).
Proof.
  intros Hh Hs Ht. unfold catalogChecksum. catalog_offsets. rewrite (subspan_here head _ 0 48), checked_bind_ok by done.
  do 2 rewrite subspan_skip by lia. by rewrite subspan_whole, checked_bind_ok by lia.
Qed.

Lemma encodeRunCatalogV1_run s : valid_catalog s → encodeRunCatalogV1 s = Ok (catalogRecord s).
Proof.
  intros Hv. unfold encodeRunCatalogV1. rewrite validateSnapshot_run, checked_bind_ok by done.
  replace (replicate RUN_CATALOG_V1_SIZE Byte.x00) with
    (replicate 4 Byte.x00 ++ replicate 2 Byte.x00 ++ replicate 2 Byte.x00 ++ replicate 8 Byte.x00 ++
     replicate 8 Byte.x00 ++ replicate 8 Byte.x00 ++ replicate 1 Byte.x00 ++ replicate 7 Byte.x00 ++
     replicate 8 Byte.x00 ++ replicate 4 Byte.x00 ++ replicate 4 Byte.x00) by reflexivity.
  catalog_offsets. repeat write_field.
  pose proof (catalogChecksum_run (E:=RunCatalogCodecError) (catalogHead s) (replicate 4 Byte.x00)
    (replicate 4 Byte.x00) (catalogHead_length s) eq_refl eq_refl) as Hsum.
  unfold catalogHead at 1 in Hsum. rewrite <-!app_assoc in Hsum. rewrite Hsum, checked_bind_ok.
  repeat write_field. unfold catalogRecord. unfold catalogHead at 2. by rewrite <-!app_assoc.
Qed.

(** ** Decoding *)
Section catalog_fields.
Context (magic version size generation last active disposition reserved retained stored final : bytes).
Context (H1 : length magic = 4%nat) (H2 : length version = 2%nat) (H3 : length size = 2%nat)
  (H4 : length generation = 8%nat) (H5 : length last = 8%nat) (H6 : length active = 8%nat)
  (H7 : length disposition = 1%nat) (H8 : length reserved = 7%nat) (H9 : length retained = 8%nat)
  (H10 : length stored = 4%nat) (H11 : length final = 4%nat).

Lemma decodeCatalog_fields :
  decodeRunCatalogV1 (magic ++ version ++ size ++ generation ++ last ++ active ++ disposition ++ reserved ++
    retained ++ stored ++ final) =
  (fail_if (bool_decide (magic ≠ CATALOG_MAGIC)) INVALID_MAGIC ;;
   fail_if (bool_decide (leNumber version ≠ CATALOG_VERSION)) UNSUPPORTED_VERSION ;;
   fail_if (bool_decide (leNumber size ≠ Z.of_nat RUN_CATALOG_V1_SIZE)) INVALID_TOTAL_LENGTH ;;
   fail_if (containsNonzeroByte reserved || containsNonzeroByte final) NONZERO_RESERVED_BYTES ;;
   fail_if (bool_decide (leNumber stored ≠ checksumOf (magic ++ version ++ size ++ generation ++ last ++ active ++
     disposition ++ reserved ++ retained) final)) CHECKSUM_MISMATCH ;;
   fail_if (negb (isKnownDispositionValue (leNumber disposition))) UNKNOWN_DISPOSITION ;;
   let decoded := Catalog.mkRunCatalogSnapshotV1 (leNumber generation) (decodedRunId (leNumber last))
     (decodedRunId (leNumber active)) (dispositionOf (leNumber disposition)) (decodedRunId (leNumber retained)) in
   validateSnapshot decoded ;; Ok decoded).
Proof using All.
  unfold decodeRunCatalogV1, readByte. catalog_offsets.
  rewrite fail_if_false by (apply bool_decide_eq_false; rewrite !length_app; unfold RUN_CATALOG_V1_SIZE; lia).
  pose proof (catalogChecksum_run (E:=RunCatalogCodecError)
    (magic ++ version ++ size ++ generation ++ last ++ active ++ disposition ++ reserved ++ retained) stored final
    ltac:(rewrite !length_app; lia) H10 H11) as Hsum.
  rewrite <-!app_assoc in Hsum. rewrite Hsum. repeat read_field.
  rewrite subspan_whole by lia. reflexivity.
Qed.
End catalog_fields.

Lemma containsNonzeroByte_false l : containsNonzeroByte l = false → l = replicate (length l) Byte.x00.
Proof.
  induction l as [|b l IH]; simpl; [done|]. intros [Hb Hl]%orb_false_iff.
  apply bool_decide_eq_false, dec_stable in Hb. by rewrite Hb, <-IH.
Qed.

Lemma decodeRunCatalogV1_run s : valid_catalog s → decodeRunCatalogV1 (catalogRecord s) = Ok s.
Proof.
  intros Hv. pose proof (validateSnapshot_run _ Hv) as Hok. destruct Hv as [[Hg ?] Hl Ha Hr Hk _ _ _].
  destruct (disposition_known _ Hk) as [Hdv Hdo].
  unfold catalogRecord. unfold catalogHead at 1. rewrite <-!app_assoc.
  rewrite decodeCatalog_fields by (apply leBytes_length || done).
  rewrite (leNumber_field 4 (checksumOf _ _)) by apply checksumOf_field.
  rewrite (leNumber_field 1) by (simpl; lia). rewrite !leNumber_u64 by (done || by apply encodedRunId_u64).
  rewrite Hdo, !decoded_encodedRunId by done. fold (catalogHead s).
  rewrite (bool_decide_eq_false_2 (checksumOf _ _ ≠ _)) by auto.
  unfold isKnownDispositionValue. rewrite (bool_decide_eq_true_2 (dispositionValue _ ≤ _)) by (simpl; lia).
  rewrite !fail_if_false by (vm_compute; reflexivity). destruct s; cbn in *. by rewrite Hok.
Qed.

Lemma decodeRunCatalogV1_inv input s :
  decodeRunCatalogV1 input = Ok s → valid_catalog s ∧ input = catalogRecord s.
Proof.
  intros Hd. assert (Hsize : length input = 56%nat).
  { unfold decodeRunCatalogV1 in Hd. apply fail_if_inv in Hd as [Hb%bool_decide_eq_false%dec_stable _]. done. }
  destruct (cut_field 4 input) as (magic & r1 & -> & H1); [lia|]. rewrite length_app in Hsize.
  destruct (cut_field 2 r1) as (version & r2 & -> & H2); [lia|]. rewrite length_app in Hsize.
  destruct (cut_field 2 r2) as (size & r3 & -> & H3); [lia|]. rewrite length_app in Hsize.
  destruct (cut_field 8 r3) as (generation & r4 & -> & H4); [lia|]. rewrite length_app in Hsize.
  destruct (cut_field 8 r4) as (last & r5 & -> & H5); [lia|]. rewrite length_app in Hsize.
  destruct (cut_field 8 r5) as (active & r6 & -> & H6); [lia|]. rewrite length_app in Hsize.
  destruct (cut_field 1 r6) as (disposition & r7 & -> & H7); [lia|]. rewrite length_app in Hsize.
  destruct (cut_field 7 r7) as (reserved & r8 & -> & H8); [lia|]. rewrite length_app in Hsize.
  destruct (cut_field 8 r8) as (retained & r9 & -> & H9); [lia|]. rewrite length_app in Hsize.
  destruct (cut_field 4 r9) as (stored & final & -> & H10); [lia|]. rewrite length_app in Hsize.
  rewrite decodeCatalog_fields in Hd by (done || lia).
  do 6 (let Hb := fresh "Hb" in apply fail_if_inv in Hd as [Hb Hd]).
  apply bool_decide_eq_false, dec_stable in Hb, Hb0, Hb1, Hb3.
  apply orb_false_iff in Hb2 as [Hres%containsNonzeroByte_false Hfin%containsNonzeroByte_false].
  apply negb_false_iff, bool_decide_eq_true in Hb4.
  assert (Hdisp : 0 ≤ leNumber disposition ≤ 5) by (pose proof (leNumber_bounds disposition); simpl in Hb4; lia).
  destruct (dispositionOf_known _ Hdisp) as [Hdv Hdk].
  apply checked_bind_inv in Hd as ([] & Hvalid & [= <-]).
  split; [apply validateSnapshot_inv; try done; first [by apply field_u64 | by apply decodedRunId_ok, field_u64]|].
  unfold catalogRecord, catalogHead.
  cbn [Catalog.generation Catalog.lastReservedRunId Catalog.activeRunId Catalog.activeDisposition Catalog.retainedStoppedRunId].
  rewrite !encoded_decodedRunId, Hdv.
  rewrite <-(field_bytes _ _ H4), <-(field_bytes _ _ H5), <-(field_bytes _ _ H6), <-(field_bytes _ _ H7), <-(field_bytes _ _ H9).
  rewrite <-(field_is _ _ _ H2 Hb0), <-(field_is _ _ _ H3 Hb1), <-Hb.
  replace (replicate 7 Byte.x00) with reserved by (rewrite Hres at 1; by rewrite H8).
  replace (replicate 4 Byte.x00) with final by (rewrite Hfin at 1; f_equal; lia).
  rewrite <-(field_is _ _ _ H10 Hb3). by rewrite <-!app_assoc.
Qed.

(** ** No read outside the input *)
Lemma validateSnapshot_in_bounds s : in_bounds (validateSnapshot s).
Proof. unfold validateSnapshot. do 6 (apply in_bounds_fail_if; intros _). apply in_bounds_check. Qed.

Lemma catalogChecksum_in_bounds {E A} input (f : Z → checked E A) :
  length input = 56%nat → (∀ a, in_bounds (f a)) → in_bounds (catalogChecksum input ≫= f).
Proof.
  intros Hl Hf. unfold catalogChecksum. catalog_offsets.
  rewrite !subspan_run, !checked_bind_ok by lia. apply Hf.
Qed.

Lemma decodeRunCatalogV1_in_bounds input : in_bounds (decodeRunCatalogV1 input).
Proof.
  unfold decodeRunCatalogV1, readByte. catalog_offsets.
  apply in_bounds_fail_if. intros Hl%bool_decide_eq_false%dec_stable. unfold RUN_CATALOG_V1_SIZE in Hl.
  repeat first [ apply in_bounds_fail_if; intros _ | apply in_bounds_read; [lia|intros ? _]
               | apply in_bounds_subspan; [lia|intros ? _] | apply catalogChecksum_in_bounds; [lia|intros ?] ].
  apply in_bounds_bind; [apply validateSnapshot_in_bounds|done].
Qed.

Lemma catalog_codec_bijective input snapshot :
  decodeRunCatalogV1 input = Ok snapshot ↔ valid_catalog snapshot ∧ encodeRunCatalogV1 snapshot = Ok input.
Proof.
  split.
  - intros [Hv ->]%decodeRunCatalogV1_inv. split; [done|]. by apply encodeRunCatalogV1_run.
  - intros [Hv He]. rewrite encodeRunCatalogV1_run in He by done. injection He as <-. by apply decodeRunCatalogV1_run.
Qed.

Lemma catalog_decoder_robust :
  (∀ input, decodeRunCatalogV1 input ≠ OutOfBounds) ∧
  (∀ pre b b' post snapshot, decodeRunCatalogV1 (pre ++ b :: post) = Ok snapshot → b ≠ b' →
     ∃ e, decodeRunCatalogV1 (pre ++ b' :: post) = Err e).
Proof.
  split; [apply decodeRunCatalogV1_in_bounds|]. intros pre b b' post s [_ H]%decodeRunCatalogV1_inv Hb.
  apply checked_error; [apply decodeRunCatalogV1_in_bounds|]. intros s' [_ H']%decodeRunCatalogV1_inv.
  eapply Hb, (checksum_field_differs 48); [..|exact (eq_sym H)|exact (eq_sym H')];
    first [apply catalogHead_length | apply leBytes_length | reflexivity].
Qed.

(** ** The property *)

(** The catalog's codec is a bijection between the valid catalogs (an active
    run exactly when there is a disposition, distinct from the retained stopped
    run, no identifier above the last reserved one) and the 56-byte records the
    decoder accepts; on any input the decoder stays inside it; and a valid record
    with exactly one byte replaced by another value is reported as an error. *)
Theorem catalog_codec_correct :
  (∀ input snapshot, decodeRunCatalogV1 input = Ok snapshot ↔
     valid_catalog snapshot ∧ encodeRunCatalogV1 snapshot = Ok input) ∧
  (∀ input, decodeRunCatalogV1 input ≠ OutOfBounds) ∧
  (∀ pre b b' post snapshot, decodeRunCatalogV1 (pre ++ b :: post) = Ok snapshot → b ≠ b' →
     ∃ e, decodeRunCatalogV1 (pre ++ b' :: post) = Err e).
Proof. split; [apply catalog_codec_bijective|apply catalog_decoder_robust]. Qed.

Definition demoCatalog : RunCatalogSnapshotV1 :=
  Catalog.mkRunCatalogSnapshotV1 3 (Some 9) (Some 9) Disposition.OPEN (Some 8).

Definition demoCatalogBytes : bytes :=
  match encodeRunCatalogV1 demoCatalog with Ok record => record | _ => [] end.

Lemma catalog_codec_correct_witness :
  ∃ e, decodeRunCatalogV1 (take 40 demoCatalogBytes ++ Byte.x07 :: drop 41 demoCatalogBytes) = Err e.
Proof.
  apply (proj2 (proj2 catalog_codec_correct) (take 40 demoCatalogBytes) Byte.x08 Byte.x07 (drop 41 demoCatalogBytes) demoCatalog).
  - vm_compute. reflexivity.
  - discriminate.
Defined.
