(* ===== verification/Posix.v ===== *)
(** * The file interface of the storage code

    The storage code reaches its files through hooks with the signatures of the
    POSIX calls.  [Posix] is that interface on a world [W] with one open file;
    [PosixFile] states the documented behaviour of the calls on a regular file
    with one owner: a transfer may be short or interrupted, an error changes
    nothing.  [ScheduledFile] is a concrete file whose calls follow a schedule of
    interruptions, short transfers and failures.  [DurableFile] adds stable storage,
    what a loss of power leaves of a file, and [CachedFile] is a concrete one. *)
From S2P Require Import Prelude Bytes.

(** A call's result: a value that is not negative, or -1 with [errno]. *)
Inductive sysResult := SysDone (value : Z) | SysError (errno : Z).
Inductive readResult := ReadBytes (data : bytes) | ReadError (errno : Z).

Definition EINTR : Z := 4.
Definition EIO : Z := 5.
Definition ENOENT : Z := 2.
Definition EOVERFLOW : Z := 75.
Definition OFF_T_MAX : Z := 2 ^ 63 - 1.

Class Posix (W : Type) := {
  sysOpen : bool → W → sysResult * W;
  sysRead : nat → W → readResult * W;
  sysWrite : bytes → W → sysResult * W;
  sysSeek : Z → W → sysResult * W;
  sysTruncate : Z → W → sysResult * W;
  sysSync : W → sysResult * W;
  sysClose : W → sysResult * W }.

(** ** Procedures: calls in sequence, bounded loops, undefined accesses *)
Inductive outOfFuel := OutOfFuel.

Definition io (W A : Type) : Type := W → checked outOfFuel A * W.
#[export] Instance io_ret {W} : MRet (io W) := λ A a w, (Ok a, w).
#[export] Instance io_bind {W} : MBind (io W) := λ A B f m w,
  match m w with
  | (Ok a, w') => f a w'
  | (Err e, w') => (Err e, w')
  | (OutOfBounds, w') => (OutOfBounds, w')
  end.
Definition call {W A} (f : W → A * W) : io W A := λ w, let '(a, w') := f w in (Ok a, w').
Definition out_of_fuel {W A} : io W A := λ w, (Err OutOfFuel, w).
Definition out_of_bounds {W A} : io W A := λ w, (OutOfBounds, w).
(** A result of a decoder that reports errors as values. *)
Definition decided {W E A} (m : checked E A) : io W (E + A) := λ w,
  match m with Ok a => (Ok (inr a), w) | Err e => (Ok (inl e), w) | OutOfBounds => (OutOfBounds, w) end.

Lemma io_bind_inv {W A B} (m : io W A) (f : A → io W B) w b w' :
  (m ≫= f) w = (Ok b, w') → ∃ a w1, m w = (Ok a, w1) ∧ f a w1 = (Ok b, w').
Proof. unfold mbind, io_bind. destruct (m w) as [[a|e|] w1]; [eauto|done..]. Qed.

Lemma call_inv {W A} (f : W → A * W) w a w' : call f w = (Ok a, w') → f w = (a, w').
Proof. unfold call. destruct (f w). by intros [= <- <-]. Qed.

Lemma io_bind_run {W A B} (m : io W A) (f : A → io W B) w a w' :
  m w = (Ok a, w') → (m ≫= f) w = f a w'.
Proof. intros H. unfold mbind, io_bind. by rewrite H. Qed.

Lemma call_run {W A B} (g : W → A * W) (f : A → io W B) w a w' :
  g w = (a, w') → (call g ≫= f) w = f a w'.
Proof. intros H. apply io_bind_run. unfold call. by rewrite H. Qed.

(** ** Procedures that respect a preorder *)
Section respects.
Context {V : Type} (rel : V → V → Prop) `{!PreOrder rel}.

Definition respects {A} (m : io V A) : Prop := ∀ v r v', m v = (r, v') → rel v v'.

Lemma respects_ret {A} (a : A) : respects (mret a).
Proof. by intros v r v' [= <- <-]. Qed.
Lemma respects_fuel {A} : respects (A:=A) out_of_fuel.
Proof. by intros v r v' [= <- <-]. Qed.
Lemma respects_bounds {A} : respects (A:=A) out_of_bounds.
Proof. by intros v r v' [= <- <-]. Qed.
Lemma respects_decided {E A} (m : checked E A) : respects (decided m).
Proof. intros v r v' H. unfold decided in H. by destruct m; injection H as <- <-. Qed.
Lemma respects_bind {A B} (m : io V A) (f : A → io V B) :
  respects m → (∀ a, respects (f a)) → respects (m ≫= f).
Proof.
  intros Hm Hf v r v' H. unfold mbind, io_bind in H. destruct (m v) as [[a|e|] v1] eqn:E; apply Hm in E.
  - etrans; [done|]. by eapply Hf.
  - by injection H as <- <-.
  - by injection H as <- <-.
Qed.
Lemma respects_call {A} (f : V → A * V) : (∀ v a v', f v = (a, v') → rel v v') → respects (call f).
Proof. intros Hf v r v' H. unfold call in H. destruct (f v) as [a v1] eqn:E. injection H as <- <-. by eapply Hf. Qed.
End respects.

Create HintDb respects.
#[export] Hint Resolve respects_ret respects_fuel respects_bounds respects_decided : respects.
#[export] Hint Extern 0 (PreOrder _) => typeclasses eauto : respects.

(** Walk through a procedure: its binds, its cases and the calls already known. *)
Ltac respect :=
  repeat first
    [ progress cbv zeta
    | solve [eauto with respects]
    | apply respects_bind; [typeclasses eauto| |intros ?]
    | match goal with
      | |- respects _ (match ?x with _ => _ end) => destruct x
      | |- respects _ (if ?x then _ else _) => destruct x
      end
    | intros ? ].

(** ** The behaviour of the calls on a file *)

(** [data] written over [file] at [offset]. *)
Definition write_at (file : bytes) (offset : nat) (data : bytes) : bytes :=
  take offset file ++ data ++ drop (offset + length data) file.

(** An error [EINTR] uses up one of the interruptions to come. *)
Definition interrupt_step (errno : Z) (before after : nat) : Prop :=
  if bool_decide (errno = EINTR) then (after < before)%nat else (after ≤ before)%nat.

Class PosixFile (W : Type) `{Posix W} := {
  contents : W → bytes;
  position : W → nat;
  (** interruptions still to come: signals do not arrive forever *)
  interrupts : W → nat;
  open_law writing w r w' : sysOpen writing w = (r, w') →
    contents w' = contents w ∧
    match r with
    | SysDone _ => position w' = 0%nat ∧ (interrupts w' ≤ interrupts w)%nat
    | SysError e => interrupt_step e (interrupts w) (interrupts w')
    end;
  read_law size w r w' : (0 < size)%nat → sysRead size w = (r, w') →
    contents w' = contents w ∧
    match r with
    | ReadBytes data => (length data ≤ size)%nat ∧ data = take (length data) (drop (position w) (contents w)) ∧
        (data = [] → (length (contents w) ≤ position w)%nat) ∧
        position w' = (position w + length data)%nat ∧ (interrupts w' ≤ interrupts w)%nat
    | ReadError e => e ≠ 0 ∧ position w' = position w ∧
        interrupt_step e (interrupts w) (interrupts w')
    end;
  write_law data w r w' : data ≠ [] → sysWrite data w = (r, w') →
    match r with
    | SysDone n => 0 ≤ n ≤ Z.of_nat (length data) ∧
        contents w' = write_at (contents w) (position w) (take (Z.to_nat n) data) ∧
        position w' = (position w + Z.to_nat n)%nat ∧ (interrupts w' ≤ interrupts w)%nat
    | SysError e => contents w' = contents w ∧ position w' = position w ∧
        interrupt_step e (interrupts w) (interrupts w')
    end;
  seek_law offset w r w' : 0 ≤ offset → sysSeek offset w = (r, w') →
    contents w' = contents w ∧
    match r with
    | SysDone _ => r = SysDone offset ∧ position w' = Z.to_nat offset ∧ (interrupts w' ≤ interrupts w)%nat
    | SysError e => interrupt_step e (interrupts w) (interrupts w')
    end;
  truncate_law length w r w' : 0 ≤ length → sysTruncate length w = (r, w') →
    (interrupts w' ≤ interrupts w)%nat ∧
    match r with
    | SysDone v => v = 0 ∧ contents w' = take (Z.to_nat length) (contents w)
    | SysError _ => contents w' = contents w
    end;
  sync_law w r w' : sysSync w = (r, w') →
    contents w' = contents w ∧ position w' = position w ∧
    match r with
    | SysDone _ => (interrupts w' ≤ interrupts w)%nat
    | SysError e => interrupt_step e (interrupts w) (interrupts w')
    end;
  close_law w r w' : sysClose w = (r, w') → contents w' = contents w }.

(** ** Stable storage *)

(** What a call transfers reaches the page cache; [stable] tells how much of the
    contents, from the start, stable storage holds as well.  The system may write
    back more at any time; only a sync that succeeds promises the whole file, and
    what lies before a write or a truncation stays where it is. *)
Class DurableFile (W : Type) `{PosixFile W} := {
  stable : W → nat;
  stable_bound w : (stable w ≤ length (contents w))%nat;
  stable_open writing w r w' : sysOpen writing w = (r, w') → (stable w ≤ stable w')%nat;
  stable_read size w r w' : sysRead size w = (r, w') → (stable w ≤ stable w')%nat;
  stable_seek offset w r w' : sysSeek offset w = (r, w') → (stable w ≤ stable w')%nat;
  stable_close w r w' : sysClose w = (r, w') → (stable w ≤ stable w')%nat;
  stable_write data w r w' : sysWrite data w = (r, w') → (min (stable w) (position w) ≤ stable w')%nat;
  stable_truncate length w r w' : sysTruncate length w = (r, w') →
    (min (stable w) (Z.to_nat length) ≤ stable w')%nat;
  stable_sync w r w' : sysSync w = (r, w') →
    (stable w ≤ stable w')%nat ∧ (r = SysDone 0 → stable w' = length (contents w')) }.

(** A killed process leaves the file as it is. *)
Definition killed {W} `{DurableFile W} (w w' : W) : Prop :=
  contents w' = contents w ∧ (stable w ≤ stable w')%nat.

(** A loss of power leaves what stable storage held, and anything after it: what was
    only in the page cache may be lost, kept, kept in part or torn. *)
Definition power_loss {W} `{DurableFile W} (w w' : W) : Prop :=
  take (stable w) (contents w') = take (stable w) (contents w) ∧ (stable w ≤ stable w')%nat.

(** The bytes a reader still has before it. *)
Definition unread {W} `{PosixFile W} (w : W) : bytes := drop (position w) (contents w).

(** ** A concrete file *)
Inductive action := Interrupted | Short (n : nat) | Failure (errno : Z).

Record ScheduledFile := mkScheduledFile {
  file_contents : bytes;
  file_position : nat;
  file_schedule : list action }.

Definition next_action (f : ScheduledFile) : option action * ScheduledFile :=
  match file_schedule f with
  | [] => (None, f)
  | a :: s => (Some a, mkScheduledFile (file_contents f) (file_position f) s)
  end.

(** A transfer of at most [limit] bytes under an action; a failure's errno is
    neither 0 nor [EINTR]. *)
Definition action_errno (a : action) : option Z :=
  match a with
  | Interrupted => Some EINTR
  | Short _ => None
  | Failure e => Some (if bool_decide (e = 0 ∨ e = EINTR) then EIO else e)
  end.

Definition action_size (a : option action) (limit : nat) : nat :=
  match a with Some (Short n) => min (Datatypes.S n) limit | _ => limit end.

(** A call that moves no data. *)
Definition scheduled_call (value : Z) (effect : ScheduledFile → ScheduledFile) (f : ScheduledFile)
    : sysResult * ScheduledFile :=
  let '(a, f') := next_action f in
  match a ≫= action_errno with
  | Some e => (SysError e, f')
  | None => (SysDone value, effect f')
  end.

Definition scheduled_read (size : nat) (f : ScheduledFile) : readResult * ScheduledFile :=
  let '(a, f') := next_action f in
  match a ≫= action_errno with
  | Some e => (ReadError e, f')
  | None =>
      let data := take (action_size a size) (drop (file_position f) (file_contents f)) in
      (ReadBytes data, mkScheduledFile (file_contents f) (file_position f + length data) (file_schedule f'))
  end.

Definition scheduled_write (data : bytes) (f : ScheduledFile) : sysResult * ScheduledFile :=
  let '(a, f') := next_action f in
  match a ≫= action_errno with
  | Some e => (SysError e, f')
  | None =>
      let n := action_size a (length data) in
      (SysDone (Z.of_nat n),
       mkScheduledFile (write_at (file_contents f) (file_position f) (take n data)) (file_position f + n)
         (file_schedule f'))
  end.

#[export] Instance scheduled_posix : Posix ScheduledFile := {|
  sysOpen writing := scheduled_call 3 (λ f, mkScheduledFile (file_contents f) 0 (file_schedule f));
  sysRead := scheduled_read;
  sysWrite := scheduled_write;
  sysSeek offset := scheduled_call offset (λ f, mkScheduledFile (file_contents f) (Z.to_nat offset) (file_schedule f));
  sysTruncate length := scheduled_call 0
    (λ f, mkScheduledFile (take (Z.to_nat length) (file_contents f)) (file_position f) (file_schedule f));
  sysSync := scheduled_call 0 id;
  sysClose := scheduled_call 0 id |}.

Definition is_interruption (a : action) : bool := match a with Interrupted => true | _ => false end.

Fixpoint interruptions (s : list action) : nat :=
  match s with
  | [] => 0
  | a :: s' => (if is_interruption a then 1 else 0) + interruptions s'
  end.

Lemma interrupt_step_le e i j : interrupt_step e i j → (j ≤ i)%nat.
Proof. unfold interrupt_step. case_bool_decide; lia. Qed.

Lemma next_action_run f a f' : next_action f = (a, f') →
  file_contents f' = file_contents f ∧ file_position f' = file_position f ∧
  match a ≫= action_errno with
  | Some e => e ≠ 0 ∧ interrupt_step e (interruptions (file_schedule f)) (interruptions (file_schedule f'))
  | None => (interruptions (file_schedule f') ≤ interruptions (file_schedule f))%nat
  end.
Proof.
  unfold next_action. destruct f as [c p [|b s]]; simpl; intros [= <- <-]; simpl; [auto|].
  split_and!; [done..|]. unfold interrupt_step.
  destruct b as [|n|e]; simpl; [split; [done|lia]|lia|].
  destruct (bool_decide_reflect (e = 0 ∨ e = EINTR)) as [|Hne]; simpl; [split; [done|lia]|].
  split; [tauto|]. rewrite bool_decide_eq_false_2 by tauto. lia.
Qed.

Lemma scheduled_call_run value effect f r f' :
  scheduled_call value effect f = (r, f') →
  (r = SysDone value ∧ ∃ g, f' = effect g ∧ file_contents g = file_contents f ∧ file_position g = file_position f ∧
     (interruptions (file_schedule g) ≤ interruptions (file_schedule f))%nat) ∨
  (∃ e, r = SysError e ∧ file_contents f' = file_contents f ∧ file_position f' = file_position f ∧ e ≠ 0 ∧
     interrupt_step e (interruptions (file_schedule f)) (interruptions (file_schedule f'))).
Proof.
  unfold scheduled_call. destruct (next_action f) as [a g] eqn:E. apply next_action_run in E as (Hc & Hp & Hi).
  destruct (a ≫= action_errno) as [e|]; intros [= <- <-].
  - right. exists e. tauto.
  - left. split; [done|]. exists g. tauto.
Qed.

Lemma scheduled_read_law size w r w' : (0 < size)%nat → scheduled_read size w = (r, w') →
  file_contents w' = file_contents w ∧
  match r with
  | ReadBytes data => (length data ≤ size)%nat ∧ data = take (length data) (drop (file_position w) (file_contents w)) ∧
      (data = [] → (length (file_contents w) ≤ file_position w)%nat) ∧
      file_position w' = (file_position w + length data)%nat ∧
      (interruptions (file_schedule w') ≤ interruptions (file_schedule w))%nat
  | ReadError e => e ≠ 0 ∧ file_position w' = file_position w ∧
      interrupt_step e (interruptions (file_schedule w)) (interruptions (file_schedule w'))
  end.
Proof.
  intros Hs. unfold scheduled_read. destruct (next_action w) as [a g] eqn:E.
  apply next_action_run in E as (Hc & Hp & Hi). destruct (a ≫= action_errno) as [e|]; intros [= <- <-]; [tauto|].
  cbn [file_contents file_position file_schedule]. set (rest := drop _ _).
  assert (Hn : (0 < action_size a size ≤ size)%nat) by (unfold action_size; destruct a as [[]|]; lia).
  split_and!; [done|rewrite length_take; lia| | |done|done].
  - rewrite length_take. destruct (decide (action_size a size ≤ length rest)%nat).
    + by rewrite Nat.min_l.
    + rewrite Nat.min_r by lia. by rewrite !take_ge by lia.
  - intros H%(f_equal length). rewrite length_take in H. simpl in H. unfold rest in H. rewrite length_drop in H. lia.
Qed.

Lemma scheduled_write_law data w r w' : data ≠ [] → scheduled_write data w = (r, w') →
  match r with
  | SysDone n => 0 ≤ n ≤ Z.of_nat (length data) ∧
      file_contents w' = write_at (file_contents w) (file_position w) (take (Z.to_nat n) data) ∧
      file_position w' = (file_position w + Z.to_nat n)%nat ∧
      (interruptions (file_schedule w') ≤ interruptions (file_schedule w))%nat
  | SysError e => file_contents w' = file_contents w ∧ file_position w' = file_position w ∧
      interrupt_step e (interruptions (file_schedule w)) (interruptions (file_schedule w'))
  end.
Proof.
  intros Hd. unfold scheduled_write. destruct (next_action w) as [a g] eqn:E.
  apply next_action_run in E as (Hc & Hp & Hi). destruct (a ≫= action_errno) as [e|]; intros [= <- <-]; [tauto|].
  cbn [file_contents file_position file_schedule]. rewrite Nat2Z.id.
  assert (action_size a (length data) ≤ length data)%nat by (unfold action_size; destruct a as [[]|]; lia).
  split_and!; [lia|lia|done|done|done].
Qed.

#[export] Instance scheduled_posix_file : PosixFile ScheduledFile.
Proof.
  refine {| contents := file_contents; position := file_position; interrupts f := interruptions (file_schedule f) |}.
  - intros writing w r w' H. cbn [sysOpen scheduled_posix] in H.
    apply scheduled_call_run in H as [(-> & g & -> & ? & ? & ?)|(e & -> & ? & ? & ? & ?)]; simpl; auto.
  - apply scheduled_read_law.
  - apply scheduled_write_law.
  - intros offset w r w' _ H. cbn [sysSeek scheduled_posix] in H.
    apply scheduled_call_run in H as [(-> & g & -> & ? & ? & ?)|(e & -> & ? & ? & ? & ?)]; simpl; auto.
  - intros len w r w' _ H. cbn [sysTruncate scheduled_posix] in H.
    apply scheduled_call_run in H as [(-> & g & -> & Hc & ? & ?)|(e & -> & ? & ? & ? & Hi)]; simpl.
    + by rewrite Hc.
    + split; [by eapply interrupt_step_le|done].
  - intros w r w' H. cbn [sysSync scheduled_posix] in H.
    apply scheduled_call_run in H as [(-> & g & -> & ? & ? & ?)|(e & -> & ? & ? & ? & ?)]; simpl; auto.
  - intros w r w' H. cbn [sysClose scheduled_posix] in H.
    apply scheduled_call_run in H as [(-> & g & -> & ? & ? & ?)|(e & -> & ? & ? & ? & ?)]; simpl; auto.
Defined.

(** ** A concrete file with a page cache *)

(** [cached_stable] bytes of the file were synced and not written over since. *)
Record CachedFile := mkCached { cached_file : ScheduledFile; cached_stable : nat }.

Definition on_cached {A} (f : ScheduledFile → A * ScheduledFile) (synced : A → CachedFile → ScheduledFile → nat)
    (c : CachedFile) : A * CachedFile :=
  let '(a, file) := f (cached_file c) in (a, mkCached file (synced a c file)).

#[export] Instance cached_posix : Posix CachedFile | 100 := {|
  sysOpen writing := on_cached (sysOpen writing) (λ _ c _, cached_stable c);
  sysRead size := on_cached (sysRead size) (λ _ c _, cached_stable c);
  sysWrite data := on_cached (sysWrite data) (λ _ c _, min (cached_stable c) (file_position (cached_file c)));
  sysSeek offset := on_cached (sysSeek offset) (λ _ c _, cached_stable c);
  sysTruncate length := on_cached (sysTruncate length) (λ _ c _, min (cached_stable c) (Z.to_nat length));
  sysSync := on_cached sysSync
    (λ r c file, match r with SysDone _ => length (file_contents file) | SysError _ => cached_stable c end);
  sysClose := on_cached sysClose (λ _ c _, cached_stable c) |}.

Lemma on_cached_run {A} (f : ScheduledFile → A * ScheduledFile) synced c a c' : on_cached f synced c = (a, c') →
  f (cached_file c) = (a, cached_file c') ∧ cached_stable c' = synced a c (cached_file c').
Proof. unfold on_cached. destruct (f (cached_file c)) as [b file] eqn:E. by intros [= <- <-]. Qed.

#[export] Instance cached_posix_file : PosixFile CachedFile | 100.
Proof.
  refine {| contents c := contents (cached_file c); position c := position (cached_file c);
            interrupts c := interrupts (cached_file c) |}.
  - intros writing w r w' [E _]%on_cached_run. by eapply open_law.
  - intros size w r w' ? [E _]%on_cached_run. by eapply read_law.
  - intros data w r w' ? [E _]%on_cached_run. by eapply write_law.
  - intros offset w r w' ? [E _]%on_cached_run. by eapply seek_law.
  - intros len w r w' ? [E _]%on_cached_run. by eapply truncate_law.
  - intros w r w' [E _]%on_cached_run. by eapply sync_law.
  - intros w r w' [E _]%on_cached_run. by eapply close_law.
Defined.

Lemma write_at_length file offset data : (length file ≤ length (write_at file offset data))%nat.
Proof. unfold write_at. rewrite !length_app, length_take, length_drop. lia. Qed.

(** How much of a cached file is stable: [cached_stable] bytes, unless it is shorter. *)
Definition cached_prefix (c : CachedFile) : nat := min (cached_stable c) (length (file_contents (cached_file c))).

Lemma cached_prefix_call value effect synced c r c' :
  on_cached (scheduled_call value effect) synced c = (r, c') →
  (∀ f, file_contents (effect f) = file_contents f) → (cached_stable c ≤ synced r c (cached_file c'))%nat →
  (cached_prefix c ≤ cached_prefix c')%nat ∧ cached_stable c' = synced r c (cached_file c').
Proof.
  intros [E Hs]%on_cached_run Heff Hle. split; [|done].
  assert (Hc : file_contents (cached_file c') = file_contents (cached_file c)).
  { apply scheduled_call_run in E as [(_ & g & -> & Hg & _)|(e & _ & Hg & _)]; [by rewrite Heff|done]. }
  unfold cached_prefix. rewrite Hc, Hs. lia.
Qed.

#[export] Instance cached_durable_file : DurableFile CachedFile | 100.
Proof.
  refine {| stable := cached_prefix |}.
  - intros c. apply Nat.le_min_r.
  - intros writing w r w' E. by eapply cached_prefix_call in E as [? _].
  - intros size w r w' [E Hs]%on_cached_run. cbn [sysRead scheduled_posix] in E. unfold scheduled_read in E.
    destruct (next_action _) as [a g] eqn:Ea. apply next_action_run in Ea as (Hc & _).
    unfold cached_prefix. rewrite Hs. destruct (a ≫= action_errno); injection E as <- <-; simpl; [by rewrite Hc|done].
  - intros offset w r w' E. by eapply cached_prefix_call in E as [? _].
  - intros w r w' E. by eapply cached_prefix_call in E as [? _].
  - intros data w r w' [E Hs]%on_cached_run. cbn [sysWrite scheduled_posix] in E. unfold scheduled_write in E.
    destruct (next_action _) as [a g] eqn:Ea. apply next_action_run in Ea as (Hc & _).
    unfold cached_prefix. rewrite Hs. cbn [position cached_posix_file scheduled_posix_file].
    destruct (a ≫= action_errno); injection E as <- <-; cbn [file_contents]; [rewrite Hc; lia|].
    pose proof (write_at_length (file_contents (cached_file w)) (file_position (cached_file w))
      (take (action_size a (length data)) data)). lia.
  - intros len w r w' [E Hs]%on_cached_run. cbn [sysTruncate scheduled_posix] in E.
    unfold cached_prefix. rewrite Hs.
    apply scheduled_call_run in E as [(_ & g & -> & Hg & _)|(e & _ & -> & _)]; [|lia].
    cbn [file_contents]. rewrite Hg, length_take. lia.
  - intros w r w' [E Hs]%on_cached_run. cbn [sysSync scheduled_posix] in E.
    unfold cached_prefix. rewrite Hs. cbn [contents cached_posix_file scheduled_posix_file].
    apply scheduled_call_run in E as [(-> & g & -> & Hg & _)|(e & -> & Hc & _)]; cbn [id].
    + rewrite Hg. split; [lia|]. intros _. lia.
    + rewrite Hc. done.
Defined.
