(* ===== verification/JournalReader.v ===== *)
(** * Loading a run journal

    [src/core/storage/src/run_journal_reader.cpp] over the file interface.  A loop
    that retries or accumulates carries fuel; an output parameter is written only
    for the outcomes [VALID] and [INCOMPLETE_TAIL]. *)
From S2P Require Import Prelude Domain Bytes JournalCodec RunHeaderCodec Posix.

Inductive JournalCommandV1 := JournalNew (c : JournalNewOrderV1) | JournalCancel (c : JournalCancelV1).
#[export] Instance JournalCommandV1_eq_dec : EqDecision JournalCommandV1.
Proof. solve_decision. Defined.

(** The fields both kinds of command have. *)
Definition commandRun (c : JournalCommandV1) : ExchangeRunId :=
  match c with JournalNew c => NewOrder.exchangeRunId c | JournalCancel c => Cancel.exchangeRunId c end.
Definition commandSequenceOf (c : JournalCommandV1) : CommandSequence :=
  match c with JournalNew c => NewOrder.commandSequence c | JournalCancel c => Cancel.commandSequence c end.
Definition commandInstrument (c : JournalCommandV1) : InstrumentId :=
  match c with JournalNew c => NewOrder.instrumentId c | JournalCancel c => Cancel.instrumentId c end.
Definition commandConfiguration (c : JournalCommandV1) : Z :=
  match c with JournalNew c => NewOrder.configurationVersion c | JournalCancel c => Cancel.configurationVersion c end.
Definition commandRulesVersion (c : JournalCommandV1) : Z :=
  match c with JournalNew c => NewOrder.behavioralRulesVersion c | JournalCancel c => Cancel.behavioralRulesVersion c end.

Module Loaded.
Record LoadedRunJournalV1 := mkLoaded {
  header : RunHeaderV1;
  commands : list JournalCommandV1;
  validCommittedByteCount : Z }.
#[export] Instance LoadedRunJournalV1_eq_dec : EqDecision LoadedRunJournalV1.
Proof. solve_decision. Defined.
End Loaded.
Export (hints) Loaded.
Abbreviation LoadedRunJournalV1 := Loaded.LoadedRunJournalV1.

Module LoadOutcome.
Inductive RunJournalLoadOutcome := VALID | MISSING | IO_FAILURE | CORRUPTION | INCOMPLETE_TAIL.
#[export] Instance RunJournalLoadOutcome_eq_dec : EqDecision RunJournalLoadOutcome.
Proof. solve_decision. Defined.
End LoadOutcome.
Export (hints) LoadOutcome.
Abbreviation RunJournalLoadOutcome := LoadOutcome.RunJournalLoadOutcome.

Module LoadError.
Inductive RunJournalLoadError :=
  | NONE | FILE_BYTE_CAPACITY_EXCEEDED | COMMAND_COUNT_CAPACITY_EXCEEDED | EXCHANGE_RUN_ID_MISMATCH
  | INSTRUMENT_CONFIGURATION_MISMATCH | COMMAND_SEQUENCE_MISMATCH.
#[export] Instance RunJournalLoadError_eq_dec : EqDecision RunJournalLoadError.
Proof. solve_decision. Defined.
End LoadError.
Export (hints) LoadError.
Abbreviation RunJournalLoadError := LoadError.RunJournalLoadError.

(** A codec error [NONE] is [None]. *)
Module LoadResult.
Record RunJournalLoadResult := mkLoadResult {
  outcome : RunJournalLoadOutcome;
  error : RunJournalLoadError;
  headerCodecError : option RunHeaderCodecError;
  commandCodecError : option JournalCommandCodecError;
  systemError : Z;
  tailOffset : Z;
  tailLength : Z }.
#[export] Instance RunJournalLoadResult_eq_dec : EqDecision RunJournalLoadResult.
Proof. solve_decision. Defined.
End LoadResult.
Export (hints) LoadResult.
Abbreviation RunJournalLoadResult := LoadResult.RunJournalLoadResult.

Definition loadResult (outcome : RunJournalLoadOutcome) (error : RunJournalLoadError) : RunJournalLoadResult :=
  LoadResult.mkLoadResult outcome error None None 0 0 0.
Definition ioFailure (systemError : Z) : RunJournalLoadResult :=
  LoadResult.mkLoadResult LoadOutcome.IO_FAILURE LoadError.NONE None None systemError 0 0.
Definition headerCorruption (codecError : RunHeaderCodecError) : RunJournalLoadResult :=
  LoadResult.mkLoadResult LoadOutcome.CORRUPTION LoadError.NONE (Some codecError) None 0 0 0.
Definition commandCorruption (codecError : JournalCommandCodecError) : RunJournalLoadResult :=
  LoadResult.mkLoadResult LoadOutcome.CORRUPTION LoadError.NONE None (Some codecError) 0 0 0.
Definition incompleteTail (tailOffset tailLength : Z) : RunJournalLoadResult :=
  LoadResult.mkLoadResult LoadOutcome.INCOMPLETE_TAIL LoadError.NONE None None 0 tailOffset tailLength.

(** [LoadedRunJournalV1 decoded;] *)
Definition emptyHeader : RunHeaderV1 := Header.mkRunHeaderV1 0 0 0 0 0 [].
Definition emptyLoaded : LoadedRunJournalV1 := Loaded.mkLoaded emptyHeader [] 0.

Definition exceedsCapacity (currentBytes additionalBytes maximumBytes : Z) : bool :=
  bool_decide (maximumBytes < currentBytes) || bool_decide (maximumBytes - currentBytes < additionalBytes).

(** [std::lower_bound] on a range partitioned by [entry.instrumentId < id]. *)
Fixpoint lowerBoundInstrument (instruments : list RunHeaderInstrumentV1) (id : InstrumentId)
    : option RunHeaderInstrumentV1 :=
  match instruments with
  | [] => None
  | entry :: instruments' =>
      if bool_decide (HeaderInstrument.instrumentId entry < id) then lowerBoundInstrument instruments' id
      else Some entry
  end.

Definition instrumentConfigured (header : RunHeaderV1) (instrumentId : InstrumentId) (configurationVersion : Z)
    : bool :=
  match lowerBoundInstrument (Header.instruments header) instrumentId with
  | None => false
  | Some instrument =>
      bool_decide (HeaderInstrument.instrumentId instrument = instrumentId) &&
      bool_decide (HeaderInstrument.configurationVersion instrument = configurationVersion)
  end.

Definition validateCommandConfiguration (header : RunHeaderV1) (instrumentId : InstrumentId)
    (configurationVersion : Z) : RunJournalLoadError :=
  if instrumentConfigured header instrumentId configurationVersion then LoadError.NONE
  else LoadError.INSTRUMENT_CONFIGURATION_MISMATCH.

(** The checks on a complete command envelope. *)
Definition checkCommandEnvelope (decoded : LoadedRunJournalV1) (expectedSequence : Z) (envelope : bytes)
    : checked RunJournalLoadResult JournalV1CommandEnvelope :=
  match validateJournalV1CommandEnvelope envelope 0 false with
  | OutOfBounds => OutOfBounds
  | Err envelopeError => Err (commandCorruption envelopeError)
  | Ok commandEnvelope =>
      fail_if (bool_decide (Envelope.exchangeRunId commandEnvelope ≠
                            Header.exchangeRunId (Loaded.header decoded)))
        (loadResult LoadOutcome.CORRUPTION LoadError.EXCHANGE_RUN_ID_MISMATCH) ;;
      fail_if (bool_decide (Envelope.commandSequence commandEnvelope ≠ expectedSequence))
        (loadResult LoadOutcome.CORRUPTION LoadError.COMMAND_SEQUENCE_MISMATCH) ;;
      fail_if (exceedsCapacity (Loaded.validCommittedByteCount decoded) (Envelope.totalLength commandEnvelope)
                 (Header.maxRunJournalBytes (Loaded.header decoded)))
        (loadResult LoadOutcome.CORRUPTION LoadError.FILE_BYTE_CAPACITY_EXCEEDED) ;;
      Ok commandEnvelope
  end.

Definition addCommand (decoded : LoadedRunJournalV1) (command : JournalCommandV1) : LoadedRunJournalV1 :=
  Loaded.mkLoaded (Loaded.header decoded) (Loaded.commands decoded ++ [command])
    (Loaded.validCommittedByteCount decoded).

(** [if (contextError == NONE) decoded.commands.emplace_back(command);] then the
    report of a context error. *)
Definition addConfiguredCommand (decoded : LoadedRunJournalV1) (instrumentId : InstrumentId)
    (configurationVersion : Z) (command : JournalCommandV1) : checked RunJournalLoadResult LoadedRunJournalV1 :=
  match validateCommandConfiguration (Loaded.header decoded) instrumentId configurationVersion with
  | LoadError.NONE => Ok (addCommand decoded command)
  | contextError => Err (loadResult LoadOutcome.CORRUPTION contextError)
  end.

(** Decoding a complete command frame. *)
Definition decodeCommandFrame (decoded : LoadedRunJournalV1) (recordType : Z) (frame : bytes)
    : checked RunJournalLoadResult LoadedRunJournalV1 :=
  if bool_decide (recordType = JOURNAL_V1_NEW_ORDER_RECORD_TYPE) then
    match decodeNewOrderV1 frame with
    | OutOfBounds => OutOfBounds
    | Err codecError => Err (commandCorruption codecError)
    | Ok command => addConfiguredCommand decoded (NewOrder.instrumentId command)
                      (NewOrder.configurationVersion command) (JournalNew command)
    end
  else
    match decodeCancelV1 frame with
    | OutOfBounds => OutOfBounds
    | Err codecError => Err (commandCorruption codecError)
    | Ok command => addConfiguredCommand decoded (Cancel.instrumentId command)
                      (Cancel.configurationVersion command) (JournalCancel command)
    end.

(** [decoded.validCommittedByteCount += commandEnvelope.totalLength] *)
Definition commitBytes (decoded : LoadedRunJournalV1) (totalLength : Z) : LoadedRunJournalV1 :=
  Loaded.mkLoaded (Loaded.header decoded) (Loaded.commands decoded)
    (wrap64 (Loaded.validCommittedByteCount decoded + totalLength)).

Section reader.
Context {W : Type} `{Posix W}.

(** The bytes read and the system error; [hooks.readFile] is [sysRead]. *)
Fixpoint readSome (fuel size : nat) : io W (bytes * Z) :=
  match fuel with
  | O => out_of_fuel
  | Datatypes.S fuel' =>
      result ← call (sysRead size);
      match result with
      | ReadBytes data =>
          if bool_decide (0 < length data)%nat && bool_decide (length data ≤ size)%nat then mret (data, 0)
          else if bool_decide (length data = 0%nat) then mret ([], 0)
          else mret ([], EIO)
      | ReadError errno => if bool_decide (errno = EINTR) then readSome fuel' size else mret ([], errno)
      end
  end.

(** [bytesRead] is the length of the accumulated bytes. *)
Fixpoint readExactLoop (fuel size : nat) (destination : bytes) : io W (bytes * Z) :=
  match fuel with
  | O => out_of_fuel
  | Datatypes.S fuel' =>
      if bool_decide (length destination < size)%nat then
        '(data, systemError) ← readSome fuel (size - length destination);
        if bool_decide (systemError ≠ 0) then mret (destination, systemError)
        else if bool_decide (length data = 0%nat) then mret (destination, 0)
        else readExactLoop fuel' size (destination ++ data)
      else mret (destination, 0)
  end.

Definition readExact (fuel size : nat) : io W (bytes * Z) := readExactLoop fuel size [].

(** The loop over the commands. *)
Fixpoint readCommands (loopFuel fuel : nat) (decoded : LoadedRunJournalV1) (expectedSequence : Z)
    : io W (RunJournalLoadResult * LoadedRunJournalV1) :=
  match loopFuel with
  | O => out_of_fuel
  | Datatypes.S loopFuel' =>
      '(first, systemError) ← readSome fuel JOURNAL_V1_ENVELOPE_SIZE;
      if bool_decide (systemError ≠ 0) then mret (ioFailure systemError, decoded)
      else if bool_decide (length first = 0%nat) then
        mret (loadResult LoadOutcome.VALID LoadError.NONE, decoded)
      else if bool_decide (Header.maxRunCommands (Loaded.header decoded) ≤
                           Z.of_nat (length (Loaded.commands decoded))) then
        mret (loadResult LoadOutcome.CORRUPTION LoadError.COMMAND_COUNT_CAPACITY_EXCEEDED, decoded)
      else
      '(remaining, systemError) ← readExact fuel (JOURNAL_V1_ENVELOPE_SIZE - length first);
      if bool_decide (systemError ≠ 0) then mret (ioFailure systemError, decoded) else
      let envelope := first ++ remaining in
      if bool_decide (length envelope < JOURNAL_V1_ENVELOPE_SIZE)%nat then
        if exceedsCapacity (Loaded.validCommittedByteCount decoded) (Z.of_nat (length envelope))
             (Header.maxRunJournalBytes (Loaded.header decoded)) then
          mret (loadResult LoadOutcome.CORRUPTION LoadError.FILE_BYTE_CAPACITY_EXCEEDED, decoded)
        else mret (incompleteTail (Loaded.validCommittedByteCount decoded) (Z.of_nat (length envelope)), decoded)
      else
      checkedEnvelope ← decided (checkCommandEnvelope decoded expectedSequence envelope);
      match checkedEnvelope with
      | inl failure => mret (failure, decoded)
      | inr commandEnvelope =>
          let payloadSize := (Z.to_nat (Envelope.totalLength commandEnvelope) - JOURNAL_V1_ENVELOPE_SIZE)%nat in
          '(payload, systemError) ← readExact fuel payloadSize;
          if bool_decide (systemError ≠ 0) then mret (ioFailure systemError, decoded)
          else if bool_decide (length payload ≠ payloadSize) then
            mret (incompleteTail (Loaded.validCommittedByteCount decoded)
                    (Z.of_nat (JOURNAL_V1_ENVELOPE_SIZE + length payload)), decoded)
          else
          command ← decided (decodeCommandFrame decoded (Envelope.recordType commandEnvelope)
                               (envelope ++ payload));
          match command with
          | inl failure => mret (failure, decoded)
          | inr decoded' =>
              readCommands loopFuel' fuel (commitBytes decoded' (Envelope.totalLength commandEnvelope))
                (wrap64 (expectedSequence + 1))
          end
      end
  end.

Definition readJournal (fuel : nat) : io W (RunJournalLoadResult * LoadedRunJournalV1) :=
  '(envelope, systemError) ← readExact fuel JOURNAL_V1_ENVELOPE_SIZE;
  if bool_decide (systemError ≠ 0) then mret (ioFailure systemError, emptyLoaded)
  else if bool_decide (length envelope ≠ JOURNAL_V1_ENVELOPE_SIZE) then
    mret (headerCorruption HeaderError.TRUNCATED_INPUT, emptyLoaded)
  else
  headerLengthField ← decided (readLE (E:=RunHeaderCodecError) 4 envelope JOURNAL_V1_TOTAL_LENGTH_OFFSET);
  match headerLengthField with
  | inl codecError => mret (headerCorruption codecError, emptyLoaded)
  | inr headerLength =>
      if bool_decide (headerLength < Z.of_nat JOURNAL_V1_ENVELOPE_SIZE) then
        mret (headerCorruption HeaderError.INVALID_TOTAL_LENGTH, emptyLoaded)
      else if bool_decide (RUN_HEADER_MAX_FRAME_SIZE < headerLength) then
        mret (headerCorruption HeaderError.FRAME_TOO_LARGE, emptyLoaded)
      else
      let payloadSize := (Z.to_nat headerLength - JOURNAL_V1_ENVELOPE_SIZE)%nat in
      '(payload, systemError) ← readExact fuel payloadSize;
      if bool_decide (systemError ≠ 0) then mret (ioFailure systemError, emptyLoaded)
      else if bool_decide (length payload ≠ payloadSize) then
        mret (headerCorruption HeaderError.TRUNCATED_INPUT, emptyLoaded)
      else
      header ← decided (decodeRunHeaderV1 (envelope ++ payload));
      match header with
      | inl headerError => mret (headerCorruption headerError, emptyLoaded)
      | inr header => readCommands fuel fuel (Loaded.mkLoaded header [] headerLength) 1
      end
  end.

Definition replacesOutput (result : RunJournalLoadResult) : bool :=
  bool_decide (LoadResult.outcome result = LoadOutcome.VALID) ||
  bool_decide (LoadResult.outcome result = LoadOutcome.INCOMPLETE_TAIL).

(** The result and the new value of [output]. *)
Definition loadRunJournalV1FromDescriptorWithHooks (fuel : nat) (output : LoadedRunJournalV1)
    : io W (RunJournalLoadResult * LoadedRunJournalV1) :=
  '(result, decoded) ← readJournal fuel;
  mret (result, if replacesOutput result then decoded else output).

Fixpoint openFile (fuel : nat) (writing : bool) : io W sysResult :=
  match fuel with
  | O => out_of_fuel
  | Datatypes.S fuel' =>
      descriptor ← call (sysOpen writing);
      match descriptor with
      | SysError errno => if bool_decide (errno = EINTR) then openFile fuel' writing else mret descriptor
      | SysDone _ => mret descriptor
      end
  end.

Definition openReadOnly (fuel : nat) : io W sysResult := openFile fuel false.

Definition loadRunJournalV1 (fuel : nat) (output : LoadedRunJournalV1)
    : io W (RunJournalLoadResult * LoadedRunJournalV1) :=
  descriptor ← openReadOnly fuel;
  match descriptor with
  | SysError systemError =>
      if bool_decide (systemError = ENOENT) then
        mret (LoadResult.mkLoadResult LoadOutcome.MISSING LoadError.NONE None None systemError 0 0, output)
      else mret (ioFailure systemError, output)
  | SysDone _ =>
      '(result, decoded) ← loadRunJournalV1FromDescriptorWithHooks fuel emptyLoaded;
      closeResult ← call sysClose;
      match closeResult with
      | SysError errno => if replacesOutput result then mret (ioFailure errno, output) else mret (result, output)
      | SysDone _ => mret (result, if replacesOutput result then decoded else output)
      end
  end.
End reader.
