(* ===== verification/JournalParse.v ===== *)
(** * Loading a journal is parsing its bytes

    [parseJournal] is the reader on the whole file at once.  Whatever the sizes of
    the transfers and however often they are interrupted, the reader returns what
    the parser returns, or an I/O failure. *)
From S2P Require Import Prelude Domain Bytes JournalCodec JournalFrames JournalTheorems RunHeaderCodec.
From S2P Require Import RunHeaderTheorems Posix JournalReader.

(** ** The parser *)
Fixpoint parseCommands (fuel : nat) (decoded : LoadedRunJournalV1) (expectedSequence : Z) (rest : bytes)
    : checked outOfFuel (RunJournalLoadResult * LoadedRunJournalV1) :=
  match fuel with
  | O => Err OutOfFuel
  | Datatypes.S fuel' =>
      if bool_decide (length rest = 0%nat) then Ok (loadResult LoadOutcome.VALID LoadError.NONE, decoded)
      else if bool_decide (Header.maxRunCommands (Loaded.header decoded) ≤
                           Z.of_nat (length (Loaded.commands decoded))) then
        Ok (loadResult LoadOutcome.CORRUPTION LoadError.COMMAND_COUNT_CAPACITY_EXCEEDED, decoded)
      else if bool_decide (length rest < JOURNAL_V1_ENVELOPE_SIZE)%nat then
        if exceedsCapacity (Loaded.validCommittedByteCount decoded) (Z.of_nat (length rest))
             (Header.maxRunJournalBytes (Loaded.header decoded)) then
          Ok (loadResult LoadOutcome.CORRUPTION LoadError.FILE_BYTE_CAPACITY_EXCEEDED, decoded)
        else Ok (incompleteTail (Loaded.validCommittedByteCount decoded) (Z.of_nat (length rest)), decoded)
      else
      match checkCommandEnvelope decoded expectedSequence (take JOURNAL_V1_ENVELOPE_SIZE rest) with
      | OutOfBounds => OutOfBounds
      | Err failure => Ok (failure, decoded)
      | Ok envelope =>
          let size := Z.to_nat (Envelope.totalLength envelope) in
          if bool_decide (length rest < size)%nat then
            Ok (incompleteTail (Loaded.validCommittedByteCount decoded) (Z.of_nat (length rest)), decoded)
          else
          match decodeCommandFrame decoded (Envelope.recordType envelope) (take size rest) with
          | OutOfBounds => OutOfBounds
          | Err failure => Ok (failure, decoded)
          | Ok decoded' =>
              parseCommands fuel' (commitBytes decoded' (Envelope.totalLength envelope))
                (wrap64 (expectedSequence + 1)) (drop size rest)
          end
      end
  end.

Definition parseJournal (file : bytes) : checked outOfFuel (RunJournalLoadResult * LoadedRunJournalV1) :=
  if bool_decide (length file < JOURNAL_V1_ENVELOPE_SIZE)%nat then
    Ok (headerCorruption HeaderError.TRUNCATED_INPUT, emptyLoaded)
  else
  match readLE (E:=RunHeaderCodecError) 4 (take JOURNAL_V1_ENVELOPE_SIZE file) JOURNAL_V1_TOTAL_LENGTH_OFFSET with
  | OutOfBounds => OutOfBounds
  | Err codecError => Ok (headerCorruption codecError, emptyLoaded)
  | Ok headerLength =>
      if bool_decide (headerLength < Z.of_nat JOURNAL_V1_ENVELOPE_SIZE) then
        Ok (headerCorruption HeaderError.INVALID_TOTAL_LENGTH, emptyLoaded)
      else if bool_decide (RUN_HEADER_MAX_FRAME_SIZE < headerLength) then
        Ok (headerCorruption HeaderError.FRAME_TOO_LARGE, emptyLoaded)
      else if bool_decide (length file < Z.to_nat headerLength)%nat then
        Ok (headerCorruption HeaderError.TRUNCATED_INPUT, emptyLoaded)
      else
      match decodeRunHeaderV1 (take (Z.to_nat headerLength) file) with
      | OutOfBounds => OutOfBounds
      | Err headerError => Ok (headerCorruption headerError, emptyLoaded)
      | Ok header =>
          parseCommands (Datatypes.S (length file)) (Loaded.mkLoaded header [] headerLength) 1
            (drop (Z.to_nat headerLength) file)
      end
  end.

(** More fuel than bytes is enough. *)
Lemma checkCommandEnvelope_total decoded expected input envelope :
  checkCommandEnvelope decoded expected input = Ok envelope →
  36 ≤ Envelope.totalLength envelope ≤ 256.
Proof.
  unfold checkCommandEnvelope. intros H. destruct (validateJournalV1CommandEnvelope _ _ _) as [env| |] eqn:Hv; try done.
  assert (36 ≤ Envelope.totalLength env ≤ 256).
  { unfold validateJournalV1CommandEnvelope in Hv.
    repeat match type of Hv with
           | (fail_if _ _ ≫= _) = Ok _ => let Hb := fresh "Hb" in apply fail_if_inv in Hv as [Hb Hv]
           | (_ ≫= _) = Ok _ => apply checked_bind_inv in Hv as (? & ? & Hv)
           end.
    injection Hv as <-. simpl. repeat match goal with H : bool_decide _ = false |- _ => apply bool_decide_eq_false in H end.
    unfold JOURNAL_V1_ENVELOPE_SIZE, JOURNAL_V1_COMMAND_MAX_FRAME_SIZE in *. lia. }
  do 3 (apply fail_if_inv in H as [_ H]). by injection H as <-.
Qed.

Lemma parseCommands_fuel n : ∀ m decoded expected rest, (length rest < n)%nat → (length rest < m)%nat →
  parseCommands n decoded expected rest = parseCommands m decoded expected rest.
Proof.
  induction n as [|n IH]; intros m decoded expected rest Hn Hm; [lia|]. destruct m as [|m]; [lia|].
  cbn [parseCommands]. do 3 (case_bool_decide; [done|]).
  destruct (checkCommandEnvelope _ _ _) as [envelope| |] eqn:Henv; try done.
  apply checkCommandEnvelope_total in Henv. case_bool_decide; [done|].
  destruct (decodeCommandFrame _ _ _); try done. apply IH; rewrite length_drop; lia.
Qed.

(** ** The reading loops *)
Section reading.
Context {W : Type} `{PosixFile W}.
Implicit Types w : W.

(** [w'] is [w] after reading [data]. *)
Record has_read (w : W) (data : bytes) (w' : W) : Prop := {
  hr_contents : contents w' = contents w;
  hr_unread : unread w = data ++ unread w';
  hr_interrupts : (interrupts w' ≤ interrupts w)%nat }.

(** [w'] is [w] after a failure. *)
Record has_failed (w w' : W) : Prop := {
  hf_contents : contents w' = contents w;
  hf_interrupts : (interrupts w' ≤ interrupts w)%nat }.

Lemma has_read_trans w data w' data' w'' :
  has_read w data w' → has_read w' data' w'' → has_read w (data ++ data') w''.
Proof.
  intros [Hc Hu Hi] [Hc' Hu' Hi']. split; [by rewrite Hc'|by rewrite Hu, Hu', app_assoc|lia].
Qed.

Lemma has_read_failed w data w' w'' : has_read w data w' → has_failed w' w'' → has_failed w w''.
Proof. intros [Hc _ ?] [Hc' ?]. split; [by rewrite Hc'|lia]. Qed.

Lemma has_read_nil w : has_read w [] w.
Proof. by split. Qed.

Lemma has_read_take w n w' : has_read w (take n (unread w)) w' → unread w' = drop n (unread w).
Proof. intros [_ Hu _]. rewrite <-(take_drop n (unread w)) in Hu at 1. by apply app_inv_head in Hu. Qed.

Lemma has_read_length w data w' : has_read w data w' → length (unread w) = (length data + length (unread w'))%nat.
Proof. intros [_ -> _]. apply length_app. Qed.

(** A call of [readSome] fails or reads some of the unread bytes, none of them
    only at the end of the file. *)
Lemma readSome_run size : (0 < size)%nat → ∀ fuel w, (interrupts w < fuel)%nat →
  ∃ data err w', readSome fuel size w = (Ok (data, err), w') ∧
    ((err ≠ 0 ∧ has_failed w w') ∨
     (err = 0 ∧ has_read w data w' ∧ (length data ≤ size)%nat ∧ (data = [] → unread w = []))).
Proof.
  intros Hsize. induction fuel as [|fuel IH]; intros w Hfuel; [lia|].
  cbn [readSome]. destruct (sysRead size w) as [r w1] eqn:Hr. erewrite call_run by exact Hr.
  apply read_law in Hr as [Hc Hr]; [|done]. destruct r as [data|errno].
  - destruct Hr as (Hl & Hd & Heof & Hp & Hi). rewrite (bool_decide_eq_true_2 (length data ≤ size)%nat) by done.
    exists data, 0, w1.
    assert (Hu : unread w = data ++ unread w1).
    { unfold unread. rewrite Hc, Hp, <-drop_drop, Hd at 1. by rewrite take_drop. }
    split; [by destruct data|].
    right. split_and!; [done|by split|done|]. intros ->. unfold unread. apply drop_ge. auto.
  - destruct Hr as (He & Hp & Hi). unfold interrupt_step in Hi. case_bool_decide as Hintr.
    + destruct (IH w1) as (data & err & w2 & Hrun & Hres); [lia|]. exists data, err, w2. split; [done|].
      assert (has_read w [] w1) as Hw by (split; [done|by unfold unread; rewrite Hc, Hp|lia]).
      destruct Hres as [[? ?]|(? & Hrd & ? & Heof)]; [left|right].
      * split; [done|]. by eapply has_read_failed.
      * split_and!; [done|by apply (has_read_trans _ _ _ _ _ Hw)|done|]. intros Hnil.
        rewrite (hr_unread _ _ _ Hw). simpl. auto.
    + exists [], errno, w1. split; [done|]. left. done.
Qed.

(** [readExact] fails or reads as many bytes as it can. *)
Lemma readExactLoop_run size : ∀ fuel destination w,
  (interrupts w + length (unread w) < fuel)%nat →
  ∃ data err w', readExactLoop fuel size destination w = (Ok (destination ++ data, err), w') ∧
    ((err ≠ 0 ∧ has_failed w w') ∨
     (err = 0 ∧ has_read w data w' ∧ data = take (size - length destination) (unread w))).
Proof.
  induction fuel as [|fuel IH]; intros destination w Hfuel; [lia|].
  cbn [readExactLoop]. case_bool_decide as Hlt.
  - destruct (readSome_run (size - length destination) ltac:(lia) (Datatypes.S fuel) w ltac:(lia))
      as (data & err & w1 & Hrun & Hres). erewrite io_bind_run by exact Hrun. cbn match.
    destruct Hres as [[Herr Hf]|(-> & Hr & Hl & Heof)].
    + rewrite bool_decide_eq_true_2 by done. exists [], err, w1. rewrite app_nil_r. split; [done|]. by left.
    + rewrite (bool_decide_eq_false_2 (0 ≠ 0)) by auto. case_bool_decide as Hnil.
      * apply nil_length_inv in Hnil as ->. exists [], 0, w1. rewrite app_nil_r. split; [done|]. right.
        split_and!; [done|done|]. by rewrite Heof, take_nil.
      * pose proof (has_read_length _ _ _ Hr). pose proof (hr_interrupts _ _ _ Hr).
        destruct (IH (destination ++ data) w1) as (data' & err & w2 & Hrun' & Hres); [lia|].
        exists (data ++ data'), err, w2. rewrite app_assoc. split; [done|].
        destruct Hres as [[? ?]|(-> & Hr' & Hd)]; [left|right].
        -- split; [done|]. by eapply has_read_failed.
        -- split_and!; [done|by eapply has_read_trans|]. rewrite (hr_unread _ _ _ Hr), Hd, length_app.
           rewrite take_app_ge by lia. do 2 f_equal. lia.
  - exists [], 0, w. rewrite app_nil_r. split; [done|]. right. split_and!; [done|apply has_read_nil|].
    replace (size - length destination)%nat with 0%nat by lia. done.
Qed.

Lemma readExact_run size fuel w : (interrupts w + length (unread w) < fuel)%nat →
  ∃ data err w', readExact fuel size w = (Ok (data, err), w') ∧
    ((err ≠ 0 ∧ has_failed w w') ∨ (err = 0 ∧ has_read w data w' ∧ data = take size (unread w))).
Proof.
  intros Hf. destruct (readExactLoop_run size fuel [] w Hf) as (data & err & w' & Hrun & Hres).
  exists data, err, w'. split; [done|]. by rewrite Nat.sub_0_r in Hres.
Qed.
End reading.

Lemma checkCommandEnvelope_in_bounds decoded expected input : in_bounds (checkCommandEnvelope decoded expected input).
Proof.
  unfold checkCommandEnvelope. pose proof (validate_in_bounds input 0 false).
  destruct (validateJournalV1CommandEnvelope input 0 false); [|done|done].
  do 3 (apply in_bounds_fail_if; intros _). done.
Qed.

Lemma addConfiguredCommand_in_bounds decoded instrument version command :
  in_bounds (addConfiguredCommand decoded instrument version command).
Proof. unfold addConfiguredCommand. by destruct (validateCommandConfiguration _ _ _). Qed.

Lemma decodeCommandFrame_in_bounds decoded recordType frame : in_bounds (decodeCommandFrame decoded recordType frame).
Proof.
  unfold decodeCommandFrame. pose proof (decodeNewOrderV1_in_bounds frame). pose proof (decodeCancelV1_in_bounds frame).
  case_bool_decide.
  - destruct (decodeNewOrderV1 frame); [apply addConfiguredCommand_in_bounds|done|done].
  - destruct (decodeCancelV1 frame); [apply addConfiguredCommand_in_bounds|done|done].
Qed.

Section loading.
Context {W : Type} `{PosixFile W}.
Implicit Types w : W.

Lemma decided_run {E A B} (m : checked E A) (f : E + A → io W B) w : in_bounds m →
  (decided m ≫= f) w = match m with Ok a => f (inr a) w | Err e => f (inl e) w | OutOfBounds => (OutOfBounds, w) end.
Proof. destruct m; intros Hin; [done|done|by destruct Hin]. Qed.

(** The outcome of a loading procedure: an I/O failure, or what [expected] says. *)
Definition loads (expected : checked outOfFuel (RunJournalLoadResult * LoadedRunJournalV1))
    (bound : nat) (w : W) (run : checked outOfFuel (RunJournalLoadResult * LoadedRunJournalV1) * W) : Prop :=
  ∃ r w', run = (Ok r, w') ∧ contents w' = contents w ∧ (interrupts w' ≤ bound)%nat ∧
    ((∃ errno, errno ≠ 0 ∧ r.1 = ioFailure errno) ∨ expected = Ok r).

Lemma loads_io expected bound w w' errno decoded :
  errno ≠ 0 → has_failed w w' → (interrupts w ≤ bound)%nat → loads expected bound w (mret (M:=io W) (ioFailure errno, decoded) w').
Proof. intros ? [Hc Hi] ?. eexists _, w'. split_and!; [done|done|lia|]. left. by exists errno. Qed.

Lemma loads_ret r bound w data w' : has_read w data w' → (interrupts w ≤ bound)%nat → loads (Ok r) bound w (mret (M:=io W) r w').
Proof. intros [Hc _ Hi] ?. exists r, w'. split_and!; [done|done|lia|by right]. Qed.

Lemma loads_before expected bound w data w' run :
  has_read w data w' → loads expected bound w run → loads expected bound w' run.
Proof. intros [Hc _ _] (r & w'' & -> & Hc' & Hr). exists r, w''. by rewrite Hc. Qed.

Lemma loads_after expected bound w data w' run :
  has_read w data w' → loads expected bound w' run → loads expected bound w run.
Proof. intros [Hc _ _] (r & w'' & -> & Hc' & Hr). exists r, w''. by rewrite Hc'. Qed.

(** A read of exactly [size] bytes, in a procedure that stops on a failure. *)
Lemma loads_readExact size fuel bound w expected k :
  (interrupts w + length (unread w) < fuel)%nat →
  (∀ w' errno, errno ≠ 0 → has_failed w w' → ∀ data, loads expected bound w (k (data, errno) w')) →
  (∀ w', has_read w (take size (unread w)) w' → loads expected bound w (k (take size (unread w), 0) w')) →
  loads expected bound w ((readExact fuel size ≫= k) w).
Proof.
  intros Hf Hfail Hok. destruct (readExact_run size fuel w Hf) as (data & err & w' & Hrun & Hres).
  erewrite io_bind_run by exact Hrun. destruct Hres as [[? ?]|(-> & Hr & ->)]; auto.
Qed.

Lemma readCommands_run fuel bound : ∀ loopFuel decoded expected w,
  (interrupts w ≤ bound)%nat →
  (interrupts w + length (unread w) < fuel)%nat → (length (unread w) < loopFuel)%nat →
  loads (parseCommands (Datatypes.S (length (unread w))) decoded expected (unread w)) bound w
    (readCommands loopFuel fuel decoded expected w).
Proof.
  induction loopFuel as [|loopFuel IH]; intros decoded expected w Hbound Hf Hl; [lia|].
  cbn [readCommands parseCommands].
  destruct (readSome_run JOURNAL_V1_ENVELOPE_SIZE ltac:(unfold JOURNAL_V1_ENVELOPE_SIZE; lia) fuel w ltac:(lia))
    as (first & err & w1 & Hrun & Hres). erewrite io_bind_run by exact Hrun. cbn match.
  destruct Hres as [[? ?]|(-> & Hr1 & Hlen & Heof)].
  { rewrite (bool_decide_eq_true_2 (err ≠ 0)) by done. apply loads_io; [done|done|lia]. }
  rewrite (bool_decide_eq_false_2 (0 ≠ 0)) by auto.
  pose proof (has_read_length _ _ _ Hr1) as Hsize1. pose proof (hr_interrupts _ _ _ Hr1).
  destruct first as [|b first'] eqn:Hfirst.
  { rewrite Heof by done. simpl. eapply loads_ret; [done|lia]. }
  rewrite <-Hfirst in *. assert (0 < length first)%nat by (rewrite Hfirst; simpl; lia).
  rewrite !(bool_decide_eq_false_2 (_ = 0%nat)) by lia.
  destruct (bool_decide (Header.maxRunCommands _ ≤ _)); [eapply loads_ret; [done|lia]|].
  eapply loads_after; [exact Hr1|]. apply loads_readExact; [lia| |].
  { intros w2 errno ? ? data. rewrite (bool_decide_eq_true_2 (errno ≠ 0)) by done. apply loads_io; [done|done|lia]. }
  intros w2 Hr2. cbn match. rewrite (bool_decide_eq_false_2 (0 ≠ 0)) by auto.
  assert (Henv : first ++ take (JOURNAL_V1_ENVELOPE_SIZE - length first) (unread w1) =
                 take JOURNAL_V1_ENVELOPE_SIZE (unread w)).
  { rewrite (hr_unread _ _ _ Hr1). by rewrite take_app_ge by done. }
  eapply loads_before; [exact Hr1|]. pose proof (has_read_trans _ _ _ _ _ Hr1 Hr2) as Hr. rewrite Henv in *.
  clear dependent first. clear dependent w1. rename w2 into w1.
  pose proof (has_read_length _ _ _ Hr) as Hsize. pose proof (hr_interrupts _ _ _ Hr). rewrite length_take in *.
  unfold JOURNAL_V1_ENVELOPE_SIZE in *.
  destruct (decide (length (unread w) < 36)%nat) as [Hshort|Hlong].
  { rewrite Nat.min_r in * by lia. rewrite !(bool_decide_eq_true_2 (length (unread w) < 36)%nat) by done.
    destruct (exceedsCapacity _ _ _); (eapply loads_after; [exact Hr|]); (eapply loads_ret; [apply has_read_nil|lia]). }
  rewrite Nat.min_l in * by lia. rewrite (bool_decide_eq_false_2 (36 < 36)%nat), (bool_decide_eq_false_2 (_ < 36)%nat) by lia.
  rewrite decided_run by apply checkCommandEnvelope_in_bounds.
  pose proof (checkCommandEnvelope_in_bounds decoded expected (take 36 (unread w))) as Hin.
  destruct (checkCommandEnvelope _ _ _) as [envelope|failure|] eqn:Hcheck; [clear Hin| |by destruct Hin].
  2: eapply loads_after; [exact Hr|]; eapply loads_ret; [apply has_read_nil|lia].
  apply checkCommandEnvelope_total in Hcheck. set (total := Z.to_nat (Envelope.totalLength envelope)).
  pose proof (has_read_take _ _ _ Hr) as Hu1.
  eapply loads_after; [exact Hr|]. apply loads_readExact; [lia| |].
  { intros w2 errno ? ? data. rewrite (bool_decide_eq_true_2 (errno ≠ 0)) by done. apply loads_io; [done|done|lia]. }
  intros w2 Hr2. cbn match. rewrite (bool_decide_eq_false_2 (0 ≠ 0)) by auto.
  eapply loads_before; [exact Hr|]. pose proof (has_read_trans _ _ _ _ _ Hr Hr2) as Hr'.
  rewrite Hu1 in *. rewrite length_take, length_drop.
  destruct (decide (length (unread w) < total)%nat) as [Htail|Hframe].
  { rewrite (bool_decide_eq_true_2 (_ ≠ _)), (bool_decide_eq_true_2 (_ < total)%nat) by lia.
    replace (36 + _)%nat with (length (unread w)) by lia. eapply loads_ret; [done|lia]. }
  rewrite (bool_decide_eq_false_2 (_ ≠ _)), (bool_decide_eq_false_2 (_ < total)%nat) by lia.
  replace (take 36 (unread w) ++ take (total - 36) (drop 36 (unread w))) with (take total (unread w)) in *
    by (rewrite take_take_drop; f_equal; lia).
  rewrite decided_run by apply decodeCommandFrame_in_bounds.
  pose proof (decodeCommandFrame_in_bounds decoded (Envelope.recordType envelope) (take total (unread w))) as Hin.
  destruct (decodeCommandFrame _ _ _) as [decoded'|failure|]; [clear Hin| |by destruct Hin].
  2: eapply loads_ret; [done|lia].
  pose proof (has_read_take _ _ _ Hr') as Hu2. pose proof (hr_interrupts _ _ _ Hr').
  eapply loads_after; [exact Hr'|].
  rewrite <-Hu2. rewrite (parseCommands_fuel _ (Datatypes.S (length (unread w2)))) by (rewrite Hu2, length_drop; lia).
  apply IH; rewrite ?Hu2, ?length_drop; lia.
Qed.

Lemma readJournal_run fuel w : (interrupts w + length (unread w) + 1 < fuel)%nat →
  loads (parseJournal (unread w)) (interrupts w) w (readJournal fuel w).
Proof.
  intros Hf. unfold readJournal, parseJournal. apply loads_readExact; [lia| |].
  { intros w1 errno ? ? data. rewrite (bool_decide_eq_true_2 (errno ≠ 0)) by done. apply loads_io; [done|done|lia]. }
  intros w1 Hr. cbn match. rewrite (bool_decide_eq_false_2 (0 ≠ 0)) by auto. rewrite length_take.
  pose proof (has_read_length _ _ _ Hr) as Hsize. pose proof (hr_interrupts _ _ _ Hr).
  pose proof (has_read_take _ _ _ Hr) as Hu1. rewrite length_take in Hsize.
  unfold JOURNAL_V1_ENVELOPE_SIZE in *.
  destruct (decide (length (unread w) < 36)%nat) as [Hshort|Hlong].
  { rewrite (bool_decide_eq_true_2 (_ ≠ _)), (bool_decide_eq_true_2 (_ < 36)%nat) by lia. eapply loads_ret; [done|lia]. }
  rewrite (bool_decide_eq_false_2 (_ ≠ _)), (bool_decide_eq_false_2 (_ < 36)%nat) by lia.
  rewrite readLE_run by (rewrite length_take; unfold JOURNAL_V1_TOTAL_LENGTH_OFFSET; lia).
  rewrite decided_run by done. set (headerLength := leNumber _).
  destruct (bool_decide (headerLength < Z.of_nat 36)) eqn:Hsmall; [eapply loads_ret; [done|lia]|].
  destruct (bool_decide (RUN_HEADER_MAX_FRAME_SIZE < headerLength)); [eapply loads_ret; [done|lia]|].
  apply bool_decide_eq_false in Hsmall. set (total := Z.to_nat headerLength).
  eapply loads_after; [exact Hr|]. apply loads_readExact; [lia| |].
  { intros w2 errno ? ? data. rewrite (bool_decide_eq_true_2 (errno ≠ 0)) by done. apply loads_io; [done|done|lia]. }
  intros w2 Hr2. cbn match. rewrite (bool_decide_eq_false_2 (0 ≠ 0)) by auto.
  eapply loads_before; [exact Hr|]. pose proof (has_read_trans _ _ _ _ _ Hr Hr2) as Hr'.
  rewrite Hu1 in *. rewrite length_take, length_drop.
  destruct (decide (length (unread w) < total)%nat) as [Htail|Hframe].
  { rewrite (bool_decide_eq_true_2 (_ ≠ _)), (bool_decide_eq_true_2 (_ < total)%nat) by lia. eapply loads_ret; [done|lia]. }
  rewrite (bool_decide_eq_false_2 (_ ≠ _)), (bool_decide_eq_false_2 (_ < total)%nat) by lia.
  replace (take 36 (unread w) ++ take (total - 36) (drop 36 (unread w))) with (take total (unread w)) in *
    by (rewrite take_take_drop; f_equal; lia).
  rewrite decided_run by apply decodeRunHeaderV1_in_bounds.
  pose proof (decodeRunHeaderV1_in_bounds (take total (unread w))) as Hin.
  destruct (decodeRunHeaderV1 _) as [header|failure|]; [clear Hin| |by destruct Hin].
  2: eapply loads_ret; [done|lia].
  pose proof (has_read_take _ _ _ Hr') as Hu2. pose proof (hr_interrupts _ _ _ Hr').
  eapply loads_after; [exact Hr'|].
  rewrite <-Hu2. rewrite (parseCommands_fuel _ (Datatypes.S (length (unread w2)))) by (rewrite Hu2, length_drop; lia).
  apply readCommands_run; rewrite ?Hu2, ?length_drop; lia.
Qed.
End loading.
