(* ===== verification/JournalFile.v ===== *)
(** * The language of run journals

    A run journal is a header's frame followed by the frames of commands with the
    header's run, consecutive sequences from 1, a configured instrument, and a
    total within the header's limits.  The parser accepts exactly these files, and
    reports a file cut inside its last frame as an incomplete tail. *)
From S2P Require Import Prelude Domain Bytes JournalCodec JournalFrames JournalTheorems RunHeaderCodec.
From S2P Require Import RunHeaderTheorems Posix JournalReader JournalParse.

(** ** Commands of either kind *)
Definition commandRecordType (c : JournalCommandV1) : Z :=
  match c with JournalNew _ => JOURNAL_V1_NEW_ORDER_RECORD_TYPE | JournalCancel _ => JOURNAL_V1_CANCEL_RECORD_TYPE end.
Definition commandPayload (c : JournalCommandV1) : bytes :=
  match c with JournalNew c => newOrderPayload c | JournalCancel c => cancelPayload c end.
Definition valid_journalCommand (c : JournalCommandV1) : Prop :=
  match c with JournalNew c => valid_newOrder c | JournalCancel c => valid_journalCancel c end.

Definition commandFrame (c : JournalCommandV1) : bytes :=
  frameOf (commandRecordType c) (commandRun c) (commandSequenceOf c) (commandPayload c).

(** A command in its place in a header's journal. *)
Record fits (header : RunHeaderV1) (sequence : Z) (c : JournalCommandV1) : Prop := {
  fits_valid : valid_journalCommand c;
  fits_run : commandRun c = Header.exchangeRunId header;
  fits_sequence : commandSequenceOf c = sequence;
  fits_instrument : instrumentConfigured header (commandInstrument c) (commandConfiguration c) = true }.

Definition commandsBytes (cs : list JournalCommandV1) : bytes := concat (commandFrame <$> cs).
Definition journalFile (header : RunHeaderV1) (cs : list JournalCommandV1) : bytes :=
  headerFrame header ++ commandsBytes cs.

Record valid_journal (header : RunHeaderV1) (cs : list JournalCommandV1) : Prop := {
  vj_header : valid_runHeader header;
  vj_commands : ∀ i c, cs !! i = Some c → fits header (Z.of_nat i + 1) c;
  vj_count : Z.of_nat (length cs) ≤ Header.maxRunCommands header;
  vj_bytes : Z.of_nat (length (journalFile header cs)) ≤ Header.maxRunJournalBytes header }.

Definition loadedJournal (header : RunHeaderV1) (cs : list JournalCommandV1) : LoadedRunJournalV1 :=
  Loaded.mkLoaded header cs (Z.of_nat (length (journalFile header cs))).

(** ** Frames of either kind *)
Lemma commandRecordType_ok c : recordTypeOk (commandRecordType c).
Proof. destruct c; [by left|by right]. Qed.

Lemma commandPayload_length c : valid_journalCommand c →
  let size := payloadSizeWithoutClientCommandId (commandRecordType c) in
  (size + 1 ≤ length (commandPayload c) ≤ size + 64)%nat ∧ (size ≤ 43)%nat.
Proof.
  destruct c as [c|c]; cbn [commandPayload commandRecordType valid_journalCommand].
  - intros [Hc _ _ _ _]. pose proof (vcm_command _ _ _ _ _ _ _ Hc) as [Hl _].
    unfold CLIENT_COMMAND_ID_MAX_LENGTH in Hl. rewrite newOrderPayload_length. split; [|done].
    change (payloadSizeWithoutClientCommandId JOURNAL_V1_NEW_ORDER_RECORD_TYPE) with 43%nat. lia.
  - intros [Hc _]. pose proof (vcm_command _ _ _ _ _ _ _ Hc) as [Hl _].
    unfold CLIENT_COMMAND_ID_MAX_LENGTH in Hl. rewrite cancelPayload_length.
    change (payloadSizeWithoutClientCommandId JOURNAL_V1_CANCEL_RECORD_TYPE) with 33%nat. lia.
Qed.

Lemma valid_journalCommand_ids c : valid_journalCommand c →
  is_u64 (commandRun c) ∧ commandRun c ≠ 0 ∧ is_u64 (commandSequenceOf c) ∧ commandSequenceOf c ≠ 0.
Proof.
  destruct c as [c|c]; [intros [Hc _ _ _ _]|intros [Hc _]]; destruct Hc; simpl; tauto.
Qed.

Lemma commandFrame_length c : length (commandFrame c) = (36 + length (commandPayload c))%nat.
Proof. apply frameOf_length. Qed.

Lemma commandFrame_bounds c : valid_journalCommand c → (36 < length (commandFrame c) ≤ 256)%nat.
Proof. intros Hv. rewrite commandFrame_length. destruct (commandPayload_length c Hv). lia. Qed.

(** The check of a bare envelope, as the reader makes it before the payload. *)
Lemma validate_head t run sequence payload :
  recordTypeOk t → is_u64 run → run ≠ 0 → is_u64 sequence → sequence ≠ 0 → (length payload ≤ 220)%nat →
  validateJournalV1CommandEnvelope (take 36 (frameOf t run sequence payload)) 0 false =
  (let size := payloadSizeWithoutClientCommandId t in
   fail_if (bool_decide (Z.of_nat (length payload) < Z.of_nat (size + CLIENT_COMMAND_ID_MIN_LENGTH)) ||
            bool_decide (Z.of_nat (size + CLIENT_COMMAND_ID_MAX_LENGTH) < Z.of_nat (length payload)))
     CodecError.INVALID_PAYLOAD_LENGTH ;;
   Ok (Envelope.mkEnvelope t (Z.of_nat (36 + length payload)) run sequence (Z.of_nat (length payload)))).
Proof.
  intros Ht Hrun Hrun0 Hseq Hseq0 Hlen. rewrite frameOf_fields.
  set (stored := leBytes 4 (checksumOf _ _)).
  assert (take 36 (JOURNAL_V1_MAGIC ++ leBytes 2 JOURNAL_V1_FORMAT_VERSION ++ leBytes 2 t ++
    leBytes 4 (Z.of_nat (36 + length payload)) ++ leBytes 8 run ++ leBytes 8 sequence ++
    leBytes 4 (Z.of_nat (length payload)) ++ stored ++ payload) =
    JOURNAL_V1_MAGIC ++ leBytes 2 JOURNAL_V1_FORMAT_VERSION ++ leBytes 2 t ++
    leBytes 4 (Z.of_nat (36 + length payload)) ++ leBytes 8 run ++ leBytes 8 sequence ++
    leBytes 4 (Z.of_nat (length payload)) ++ stored) as ->.
  { rewrite !app_assoc. apply take_app_length'. unfold stored, JOURNAL_V1_MAGIC. autorewrite with field_length. done. }
  unfold validateJournalV1CommandEnvelope, JOURNAL_V1_ENVELOPE_SIZE, JOURNAL_V1_COMMAND_MAX_FRAME_SIZE,
    JOURNAL_V1_FORMAT_VERSION_OFFSET, JOURNAL_V1_RECORD_TYPE_OFFSET, JOURNAL_V1_TOTAL_LENGTH_OFFSET,
    JOURNAL_V1_EXCHANGE_RUN_ID_OFFSET, JOURNAL_V1_COMMAND_SEQUENCE_OFFSET, JOURNAL_V1_PAYLOAD_LENGTH_OFFSET.
  do 2 (rewrite fail_if_false by (apply bool_decide_eq_false; unfold stored, JOURNAL_V1_MAGIC; field_len)).
  repeat read_field.
  rewrite (leNumber_field 2 t) by (destruct Ht as [-> | ->]; vm_compute; split; discriminate || reflexivity).
  rewrite !leNumber_u32, !leNumber_u64 by (done || (unfold is_u32, UINT32_MAX; lia)).
  change (leNumber (leBytes 2 JOURNAL_V1_FORMAT_VERSION)) with JOURNAL_V1_FORMAT_VERSION.
  repeat rewrite fail_if_false by first
    [ apply bool_decide_eq_false; lia | apply bool_decide_eq_false; by auto | done
    | rewrite andb_false_l, orb_false_r; destruct Ht as [-> | ->]; reflexivity
    | apply bool_decide_eq_false; vm_compute; by auto ].
  reflexivity.
Qed.

Definition commandEnvelopeOf (c : JournalCommandV1) : JournalV1CommandEnvelope :=
  Envelope.mkEnvelope (commandRecordType c) (Z.of_nat (length (commandFrame c))) (commandRun c)
    (commandSequenceOf c) (Z.of_nat (length (commandPayload c))).

Lemma checkCommandEnvelope_frame decoded expected c rest : valid_journalCommand c →
  checkCommandEnvelope decoded expected (take 36 (commandFrame c ++ rest)) =
  (fail_if (bool_decide (commandRun c ≠ Header.exchangeRunId (Loaded.header decoded)))
     (loadResult LoadOutcome.CORRUPTION LoadError.EXCHANGE_RUN_ID_MISMATCH) ;;
   fail_if (bool_decide (commandSequenceOf c ≠ expected))
     (loadResult LoadOutcome.CORRUPTION LoadError.COMMAND_SEQUENCE_MISMATCH) ;;
   fail_if (exceedsCapacity (Loaded.validCommittedByteCount decoded) (Z.of_nat (length (commandFrame c)))
              (Header.maxRunJournalBytes (Loaded.header decoded)))
     (loadResult LoadOutcome.CORRUPTION LoadError.FILE_BYTE_CAPACITY_EXCEEDED) ;;
   Ok (commandEnvelopeOf c)).
Proof.
  intros Hv. pose proof (commandFrame_bounds c Hv). destruct (valid_journalCommand_ids c Hv) as (? & ? & ? & ?).
  destruct (commandPayload_length c Hv) as [Hsize ?].
  rewrite take_app_le by lia. unfold checkCommandEnvelope, commandFrame at 1.
  rewrite validate_head by (done || apply commandRecordType_ok || lia).
  rewrite fail_if_false.
  2:{ unfold CLIENT_COMMAND_ID_MIN_LENGTH, CLIENT_COMMAND_ID_MAX_LENGTH.
      rewrite !bool_decide_eq_false_2 by lia. done. }
  cbn [Envelope.exchangeRunId Envelope.commandSequence Envelope.totalLength].
  rewrite <-commandFrame_length. reflexivity.
Qed.

Lemma addConfiguredCommand_run decoded instrument version c :
  instrumentConfigured (Loaded.header decoded) instrument version = true →
  addConfiguredCommand decoded instrument version c = Ok (addCommand decoded c).
Proof. intros H. unfold addConfiguredCommand, validateCommandConfiguration. by rewrite H. Qed.

Lemma addConfiguredCommand_inv decoded instrument version c decoded' :
  addConfiguredCommand decoded instrument version c = Ok decoded' →
  instrumentConfigured (Loaded.header decoded) instrument version = true ∧ decoded' = addCommand decoded c.
Proof.
  unfold addConfiguredCommand, validateCommandConfiguration. destruct (instrumentConfigured _ _ _); [|done].
  by intros [= <-].
Qed.

Lemma decodeCommandFrame_run decoded sequence c : fits (Loaded.header decoded) sequence c →
  decodeCommandFrame decoded (commandRecordType c) (commandFrame c) = Ok (addCommand decoded c).
Proof.
  intros [Hv _ _ Hi]. unfold decodeCommandFrame. destruct c as [c|c]; cbn [commandRecordType] in *.
  - rewrite bool_decide_eq_true_2 by done. change (commandFrame (JournalNew c)) with (newOrderFrame c).
    rewrite decodeNewOrderV1_run by done. by apply addConfiguredCommand_run.
  - rewrite bool_decide_eq_false_2 by done. change (commandFrame (JournalCancel c)) with (cancelFrame c).
    rewrite decodeCancelV1_run by done. by apply addConfiguredCommand_run.
Qed.

Lemma decodeCommandFrame_inv decoded recordType frame decoded' :
  decodeCommandFrame decoded recordType frame = Ok decoded' →
  ∃ c, frame = commandFrame c ∧ valid_journalCommand c ∧
    instrumentConfigured (Loaded.header decoded) (commandInstrument c) (commandConfiguration c) = true ∧
    decoded' = addCommand decoded c.
Proof.
  unfold decodeCommandFrame. case_bool_decide.
  - destruct (decodeNewOrderV1 frame) as [c| |] eqn:Hd; [|done|done]. intros [Hi ->]%addConfiguredCommand_inv.
    apply decodeNewOrderV1_inv in Hd as [Hv ->]. by exists (JournalNew c).
  - destruct (decodeCancelV1 frame) as [c| |] eqn:Hd; [|done|done]. intros [Hi ->]%addConfiguredCommand_inv.
    apply decodeCancelV1_inv in Hd as [Hv ->]. by exists (JournalCancel c).
Qed.

(** A failing check reports corruption. *)
Lemma checkCommandEnvelope_failure decoded expected input failure :
  checkCommandEnvelope decoded expected input = Err failure → replacesOutput failure = false.
Proof.
  unfold checkCommandEnvelope. destruct (validateJournalV1CommandEnvelope _ _ _); [|by intros [= <-]|done].
  intros H. do 3 (apply fail_if_err in H as [[_ ->]|[_ H]]; [done|]). done.
Qed.

Lemma decodeCommandFrame_failure decoded recordType frame failure :
  decodeCommandFrame decoded recordType frame = Err failure → replacesOutput failure = false.
Proof.
  unfold decodeCommandFrame, addConfiguredCommand, validateCommandConfiguration.
  case_bool_decide; [destruct (decodeNewOrderV1 frame)|destruct (decodeCancelV1 frame)];
    try (by intros [= <-]); try done; destruct (instrumentConfigured _ _ _); try done; by intros [= <-].
Qed.

(** ** Growing a journal *)
Lemma commandsBytes_cons c cs : commandsBytes (c :: cs) = commandFrame c ++ commandsBytes cs.
Proof. reflexivity. Qed.

Lemma commandsBytes_app cs cs' : commandsBytes (cs ++ cs') = commandsBytes cs ++ commandsBytes cs'.
Proof. unfold commandsBytes. by rewrite fmap_app, concat_app. Qed.

Lemma journalFile_app header cs cs' : journalFile header (cs ++ cs') = journalFile header cs ++ commandsBytes cs'.
Proof. unfold journalFile. by rewrite commandsBytes_app, app_assoc. Qed.

Lemma journalFile_snoc_length header cs c :
  length (journalFile header (cs ++ [c])) = (length (journalFile header cs) + length (commandFrame c))%nat.
Proof. rewrite journalFile_app, commandsBytes_cons, !length_app. simpl. lia. Qed.

Lemma journalFile_length header cs : (68 + length cs ≤ length (journalFile header cs))%nat.
Proof.
  unfold journalFile, headerFrame. rewrite length_app, frameOf_length, headerPayload_length.
  assert (length cs ≤ length (commandsBytes cs))%nat; [|lia].
  induction cs as [|c cs IH]; [done|]. rewrite commandsBytes_cons, length_app, commandFrame_length. simpl. lia.
Qed.

Lemma valid_journal_prefix header cs cs' : valid_journal header (cs ++ cs') → valid_journal header cs.
Proof.
  intros [Hh Hc Hn Hb]. rewrite length_app in Hn. rewrite journalFile_app, length_app in Hb.
  split; [done| |lia|lia]. intros i c Hi. apply Hc. by apply lookup_app_l_Some.
Qed.

Lemma valid_journal_snoc header cs c :
  valid_journal header (cs ++ [c]) ↔
  valid_journal header cs ∧ fits header (Z.of_nat (length cs) + 1) c ∧
  Z.of_nat (length cs) < Header.maxRunCommands header ∧
  Z.of_nat (length (journalFile header cs) + length (commandFrame c)) ≤ Header.maxRunJournalBytes header.
Proof.
  split.
  - intros Hv. split; [by eapply valid_journal_prefix|]. destruct Hv as [_ Hc Hn Hb].
    rewrite length_app in Hn. simpl in Hn. rewrite journalFile_snoc_length in Hb.
    split_and!; [|lia|done]. apply Hc. by rewrite lookup_app_r, Nat.sub_diag by done.
  - intros ([Hh Hc Hn Hb] & Hf & Hcount & Hbytes). split; [done| |rewrite length_app; simpl; lia|by rewrite journalFile_snoc_length].
    intros i c' [Hi|[Hl Hi]]%lookup_app_Some; [by apply Hc|].
    destruct (i - length cs)%nat as [|k] eqn:Hk; [|done]. injection Hi as <-.
    replace i with (length cs) by lia. done.
Qed.

(** The counters of the loop stay far from their width. *)
Lemma valid_journal_counters header cs : valid_journal header cs →
  wrap64 (Z.of_nat (length cs) + 1 + 1) = Z.of_nat (length cs) + 1 + 1 ∧
  is_u64 (Z.of_nat (length (journalFile header cs))).
Proof.
  intros [[_ _ _ _ [Hmax _] _ _ _ _] _ _ Hb]. pose proof (journalFile_length header cs). unfold is_u64 in *.
  split; [|lia]. apply wrap64_small. unfold is_u64. lia.
Qed.

Lemma commitBytes_loaded header cs c : valid_journal header (cs ++ [c]) →
  commitBytes (addCommand (loadedJournal header cs) c) (Z.of_nat (length (commandFrame c))) =
  loadedJournal header (cs ++ [c]).
Proof.
  intros Hv. destruct (valid_journal_counters _ _ Hv) as [_ Hb]. unfold commitBytes, addCommand, loadedJournal.
  cbn [Loaded.header Loaded.commands Loaded.validCommittedByteCount].
  rewrite journalFile_snoc_length in *. rewrite wrap64_small; [f_equal; lia|]. revert Hb. unfold is_u64. lia.
Qed.

Lemma exceedsCapacity_false current additional maximum :
  0 ≤ additional → (exceedsCapacity current additional maximum = false ↔ current + additional ≤ maximum).
Proof. intros. unfold exceedsCapacity. rewrite orb_false_iff, !bool_decide_eq_false. lia. Qed.

(** ** The parser on a journal's file *)
Lemma parse_step n header cs c rest : valid_journal header (cs ++ [c]) →
  parseCommands (Datatypes.S n) (loadedJournal header cs) (Z.of_nat (length cs) + 1) (commandFrame c ++ rest) =
  parseCommands n (loadedJournal header (cs ++ [c])) (Z.of_nat (length (cs ++ [c])) + 1) rest.
Proof.
  intros Hv. pose proof (proj1 (valid_journal_snoc _ _ _) Hv) as (Hcs & Hfits & Hcount & Hbytes).
  pose proof Hfits as [Hc Hrun Hseq Hins]. pose proof (commandFrame_bounds c Hc).
  cbn [parseCommands]. rewrite length_app.
  rewrite (bool_decide_eq_false_2 (_ = 0%nat)) by lia.
  rewrite (bool_decide_eq_false_2 (Header.maxRunCommands _ ≤ _)) by (simpl; lia).
  rewrite (bool_decide_eq_false_2 (_ < JOURNAL_V1_ENVELOPE_SIZE)%nat) by (unfold JOURNAL_V1_ENVELOPE_SIZE; lia).
  unfold JOURNAL_V1_ENVELOPE_SIZE. rewrite checkCommandEnvelope_frame by done. unfold loadedJournal at 1 2 3 4.
  cbn [Loaded.header Loaded.validCommittedByteCount].
  rewrite !fail_if_false by first [ apply bool_decide_eq_false; by auto | apply exceedsCapacity_false; lia ].
  cbn [commandEnvelopeOf Envelope.totalLength Envelope.recordType]. rewrite Nat2Z.id.
  rewrite (bool_decide_eq_false_2 (_ < _)%nat) by lia. rewrite take_app_length, drop_app_length.
  rewrite (decodeCommandFrame_run _ (Z.of_nat (length cs) + 1)) by done.
  rewrite commitBytes_loaded by done. f_equal. destruct (valid_journal_counters _ _ Hcs) as [-> _].
  rewrite length_app. simpl. lia.
Qed.

Lemma parse_commands header tail : ∀ cs' cs n, valid_journal header (cs ++ cs') →
  parseCommands (length cs' + n) (loadedJournal header cs) (Z.of_nat (length cs) + 1) (commandsBytes cs' ++ tail) =
  parseCommands n (loadedJournal header (cs ++ cs')) (Z.of_nat (length (cs ++ cs')) + 1) tail.
Proof.
  induction cs' as [|c cs' IH]; intros cs n Hv; [by rewrite app_nil_r|].
  rewrite commandsBytes_cons, <-app_assoc. cbn [length Nat.add]. rewrite (cons_middle c), app_assoc in Hv.
  rewrite parse_step by (by eapply valid_journal_prefix). rewrite IH by done. by rewrite <-app_assoc.
Qed.

(** What the loop reports: the commands it took, and what is left of the file. *)
Definition parsed (header : RunHeaderV1) (cs : list JournalCommandV1) (tail : bytes)
    (r : RunJournalLoadResult) : Prop :=
  (tail = [] ∧ r = loadResult LoadOutcome.VALID LoadError.NONE) ∨
  (tail ≠ [] ∧ r = incompleteTail (Z.of_nat (length (journalFile header cs))) (Z.of_nat (length tail))).

Lemma parseCommands_inv n : ∀ header cs rest r decoded, valid_journal header cs →
  parseCommands n (loadedJournal header cs) (Z.of_nat (length cs) + 1) rest = Ok (r, decoded) →
  replacesOutput r = true →
  ∃ cs' tail, valid_journal header (cs ++ cs') ∧ rest = commandsBytes cs' ++ tail ∧
    decoded = loadedJournal header (cs ++ cs') ∧ parsed header (cs ++ cs') tail r.
Proof.
  induction n as [|n IH]; intros header cs rest r decoded Hv Hp Hr; [done|]. cbn [parseCommands] in Hp.
  case_bool_decide as Hnil.
  { apply nil_length_inv in Hnil as ->. injection Hp as <- <-. exists [], []. rewrite app_nil_r.
    split_and!; [done..|]. by left. }
  assert (Hne : rest ≠ []) by (by intros ->).
  case_bool_decide as Hcount; [injection Hp as <- <-; done|].
  case_bool_decide as Hshort.
  { destruct (exceedsCapacity _ _ _); injection Hp as <- <-; [done|]. exists [], rest. rewrite app_nil_r.
    split_and!; [done..|]. by right. }
  destruct (checkCommandEnvelope _ _ _) as [envelope|failure|] eqn:Hcheck; [| |done].
  2:{ injection Hp as <- <-. apply checkCommandEnvelope_failure in Hcheck. congruence. }
  case_bool_decide as Htail.
  { injection Hp as <- <-. exists [], rest. rewrite app_nil_r. split_and!; [done..|]. by right. }
  destruct (decodeCommandFrame _ _ _) as [decoded'|failure|] eqn:Hframe; [| |done].
  2:{ injection Hp as <- <-. apply decodeCommandFrame_failure in Hframe. congruence. }
  apply decodeCommandFrame_inv in Hframe as (c & Hframe & Hc & Hins & ->).
  set (size := Z.to_nat (Envelope.totalLength envelope)) in *.
  assert (Hrest : rest = commandFrame c ++ drop size rest) by (by rewrite <-Hframe, take_drop).
  rewrite Hrest in Hcheck. unfold JOURNAL_V1_ENVELOPE_SIZE in Hcheck. rewrite checkCommandEnvelope_frame in Hcheck by done.
  apply fail_if_inv in Hcheck as [Hrun%bool_decide_eq_false%dec_stable Hcheck].
  apply fail_if_inv in Hcheck as [Hseq%bool_decide_eq_false%dec_stable Hcheck].
  apply fail_if_inv in Hcheck as [Hcap%exceedsCapacity_false [= <-]]; [|lia].
  cbn [loadedJournal Loaded.header Loaded.validCommittedByteCount Loaded.commands] in *.
  assert (Hv' : valid_journal header (cs ++ [c])).
  { apply valid_journal_snoc. split_and!; [done| |lia|lia]. by split. }
  cbn [commandEnvelopeOf Envelope.totalLength] in Hp. fold (loadedJournal header cs) in Hp.
  rewrite commitBytes_loaded in Hp by done.
  replace (wrap64 (Z.of_nat (length cs) + 1 + 1)) with (Z.of_nat (length (cs ++ [c])) + 1) in Hp
    by (rewrite (proj1 (valid_journal_counters _ _ Hv)), length_app; simpl; lia).
  apply IH in Hp as (cs' & tail & Hv'' & Hdrop & -> & Hres); [|done|done].
  exists (c :: cs'), tail. rewrite (cons_middle c), app_assoc. rewrite <-(app_assoc cs [c] cs') in *.
  split_and!; [done| |done|done]. rewrite Hrest at 1. rewrite Hdrop, commandsBytes_cons. by rewrite <-app_assoc.
Qed.

(** ** Whole files *)
Lemma valid_journal_nil header : valid_runHeader header → valid_journal header [].
Proof.
  intros Hv. split; [done|by intros|destruct Hv as [_ _ _ [? ?] _ _ _ _ _]; unfold is_u64 in *; simpl; lia|].
  unfold journalFile. rewrite app_nil_r. unfold headerFrame. rewrite frameOf_length, headerPayload_length.
  destruct Hv as [_ _ _ _ [_ Hb] _ _ _ _]. lia.
Qed.

Lemma headerFrame_length header :
  length (headerFrame header) = (68 + length (Header.instruments header) * 12)%nat.
Proof. unfold headerFrame. rewrite frameOf_length, headerPayload_length. lia. Qed.

Lemma readLE_take {E} w n (input : bytes) offset : (offset + w ≤ n)%nat → (n ≤ length input)%nat →
  readLE (E:=E) w (take n input) offset = readLE w input offset.
Proof.
  intros. rewrite !readLE_run by (rewrite ?length_take; lia). rewrite skipn_firstn_comm, take_take.
  by replace (min w (n - offset)) with w by lia.
Qed.

Lemma headerFrame_totalLength {E} header rest : valid_runHeader header →
  readLE (E:=E) 4 (take JOURNAL_V1_ENVELOPE_SIZE (headerFrame header ++ rest)) JOURNAL_V1_TOTAL_LENGTH_OFFSET =
  Ok (Z.of_nat (length (headerFrame header))).
Proof.
  intros Hv. pose proof (headerFrame_length header) as Hl. unfold JOURNAL_V1_ENVELOPE_SIZE, JOURNAL_V1_TOTAL_LENGTH_OFFSET.
  rewrite readLE_take by (rewrite ?length_app; lia). rewrite Hl, headerFrame_fields, <-!app_assoc.
  read_field. rewrite leNumber_u32; [done|]. pose proof (vrh_count _ Hv). unfold is_u32, UINT32_MAX. lia.
Qed.

Lemma parseJournal_run header rest : valid_runHeader header →
  parseJournal (headerFrame header ++ rest) =
  parseCommands (Datatypes.S (length (headerFrame header ++ rest))) (loadedJournal header []) 1 rest.
Proof.
  intros Hv. pose proof (headerFrame_length header) as Hl. pose proof (vrh_count _ Hv).
  unfold parseJournal. rewrite length_app.
  rewrite (bool_decide_eq_false_2 (_ < JOURNAL_V1_ENVELOPE_SIZE)%nat) by (unfold JOURNAL_V1_ENVELOPE_SIZE; lia).
  rewrite headerFrame_totalLength by done.
  rewrite (bool_decide_eq_false_2 (_ < Z.of_nat _)) by (unfold JOURNAL_V1_ENVELOPE_SIZE; lia).
  rewrite (bool_decide_eq_false_2 (RUN_HEADER_MAX_FRAME_SIZE < _)) by (unfold RUN_HEADER_MAX_FRAME_SIZE; lia).
  rewrite Nat2Z.id, (bool_decide_eq_false_2 (_ < _)%nat) by lia.
  rewrite take_app_length, drop_app_length, decodeRunHeaderV1_run by done.
  unfold loadedJournal, journalFile. by rewrite app_nil_r.
Qed.

Lemma parseJournal_inv file r decoded : parseJournal file = Ok (r, decoded) → replacesOutput r = true →
  ∃ header rest, valid_runHeader header ∧ file = headerFrame header ++ rest.
Proof.
  intros Hp Hr. unfold parseJournal in Hp. case_bool_decide; [by injection Hp as <- <-|].
  rewrite readLE_run in Hp by (rewrite length_take; unfold JOURNAL_V1_ENVELOPE_SIZE, JOURNAL_V1_TOTAL_LENGTH_OFFSET in *; lia).
  do 3 (case_bool_decide; [by injection Hp as <- <-|]).
  destruct (decodeRunHeaderV1 _) as [header| |] eqn:Hd; [|by injection Hp as <- <-|done].
  apply decodeRunHeaderV1_inv in Hd as [Hv Hd]. exists header. eexists. split; [done|].
  rewrite <-Hd. symmetry. apply take_drop.
Qed.

(** The file of a valid journal, followed by anything. *)
Lemma parseJournal_file header cs tail : valid_journal header cs →
  parseJournal (journalFile header cs ++ tail) =
  parseCommands (Datatypes.S (length tail)) (loadedJournal header cs) (Z.of_nat (length cs) + 1) tail.
Proof.
  intros Hv. unfold journalFile. rewrite <-app_assoc, parseJournal_run by apply Hv.
  set (n := Datatypes.S (length (commandsBytes cs ++ tail))).
  pose proof (parse_commands header tail cs [] n Hv) as Hp. rewrite app_nil_l in Hp.
  change (Z.of_nat (length []) + 1) with 1 in Hp.
  rewrite (parseCommands_fuel (Datatypes.S (length tail)) n), <-Hp by (unfold n; rewrite ?length_app; lia).
  apply parseCommands_fuel; unfold n; rewrite ?length_app; lia.
Qed.

#[global] Arguments commandFrame : simpl never.
#[global] Arguments journalFile : simpl never.
