(* ===== verification/JournalLoadTheorems.v ===== *)
(** * Properties of loading a run journal *)
From S2P Require Import Prelude Domain Bytes JournalCodec JournalFrames RunHeaderCodec RunHeaderTheorems.
From S2P Require Import Posix JournalReader JournalParse JournalFile.

(** A journal cut inside the frame of its last command. *)
Lemma parse_torn header cs c k : valid_journal header (cs ++ [c]) → (0 < k < length (commandFrame c))%nat →
  parseJournal (journalFile header cs ++ take k (commandFrame c)) =
  Ok (incompleteTail (Z.of_nat (length (journalFile header cs))) (Z.of_nat k), loadedJournal header cs).
Proof.
  intros Hv Hk. pose proof (proj1 (valid_journal_snoc _ _ _) Hv) as (Hcs & Hfits & Hcount & Hbytes).
  pose proof Hfits as [Hc Hrun Hseq Hins]. rewrite parseJournal_file by done.
  cbn [parseCommands]. rewrite length_take, Nat.min_l by lia.
  rewrite (bool_decide_eq_false_2 (_ = 0%nat)) by lia.
  rewrite (bool_decide_eq_false_2 (Header.maxRunCommands _ ≤ _)) by (simpl; lia).
  unfold loadedJournal, JOURNAL_V1_ENVELOPE_SIZE. cbn [Loaded.header Loaded.validCommittedByteCount].
  destruct (decide (k < 36)%nat) as [Hshort|Hlong].
  - rewrite (bool_decide_eq_true_2 (_ < _)%nat) by done. 
    assert (exceedsCapacity (Z.of_nat (length (journalFile header cs))) (Z.of_nat k)
      (Header.maxRunJournalBytes header) = false) as -> by (apply exceedsCapacity_false; lia). done.
  - rewrite (bool_decide_eq_false_2 (_ < _)%nat) by done. rewrite take_take, Nat.min_l by lia.
    rewrite <-(app_nil_r (commandFrame c)), checkCommandEnvelope_frame by done.
    cbn [Loaded.header Loaded.validCommittedByteCount].
    rewrite !fail_if_false by first [ apply bool_decide_eq_false; by auto | apply exceedsCapacity_false; lia ].
    cbn [commandEnvelopeOf Envelope.totalLength]. rewrite Nat2Z.id.
    by rewrite (bool_decide_eq_true_2 (k < _)%nat) by lia.
Qed.

(** The frames of a journal are what the encoders write. *)
Lemma commandFrame_encoded c : valid_journalCommand c →
  Ok (commandFrame c) = match c with JournalNew c => encodeNewOrderV1 c | JournalCancel c => encodeCancelV1 c end.
Proof. destruct c; intros Hv; symmetry; [by apply encodeNewOrderV1_run|by apply encodeCancelV1_run]. Qed.

Lemma parse_accepts file r decoded : parseJournal file = Ok (r, decoded) → replacesOutput r = true →
  ∃ header cs tail, valid_journal header cs ∧ file = journalFile header cs ++ tail ∧
    decoded = loadedJournal header cs ∧ parsed header cs tail r.
Proof.
  intros Hp Hr. destruct (parseJournal_inv _ _ _ Hp Hr) as (header & rest & Hv & ->).
  rewrite parseJournal_run in Hp by done. change 1 with (Z.of_nat (length (@nil JournalCommandV1)) + 1) in Hp.
  apply parseCommands_inv in Hp as (cs & tail & Hcs & -> & -> & Hres); [|by apply valid_journal_nil|done].
  rewrite app_nil_l in *. exists header, cs, tail. unfold journalFile. by rewrite <-app_assoc.
Qed.

Section opening.
Context {W : Type} `{PosixFile W}.
Implicit Types w : W.

Lemma openFile_run writing : ∀ fuel w, (interrupts w < fuel)%nat →
  ∃ r w', openFile fuel writing w = (Ok r, w') ∧ contents w' = contents w ∧ (interrupts w' ≤ interrupts w)%nat ∧
    match r with SysDone _ => position w' = 0%nat | SysError _ => True end.
Proof.
  induction fuel as [|fuel IH]; intros w Hf; [lia|]. cbn [openFile].
  destruct (sysOpen writing w) as [r w1] eqn:Ho. erewrite call_run by exact Ho.
  apply open_law in Ho as [Hc Hr]. destruct r as [d|e].
  - exists (SysDone d), w1. tauto.
  - unfold interrupt_step in Hr. case_bool_decide.
    + destruct (IH w1) as (r & w2 & Hrun & Hc2 & Hi & Hp); [lia|]. exists r, w2. rewrite Hc2. split_and!; [done|done|lia|done].
    + exists (SysError e), w1. split_and!; [done|done|lia|done].
Qed.

Lemma loadFromDescriptor_run fuel output w : (interrupts w + length (unread w) + 1 < fuel)%nat →
  ∃ r decoded w', loadRunJournalV1FromDescriptorWithHooks fuel output w =
      (Ok (r, if replacesOutput r then decoded else output), w') ∧ contents w' = contents w ∧
    (interrupts w' ≤ interrupts w)%nat ∧
    ((∃ errno, errno ≠ 0 ∧ r = ioFailure errno) ∨ parseJournal (unread w) = Ok (r, decoded)).
Proof.
  intros Hf. destruct (readJournal_run fuel w Hf) as ([r decoded] & w' & Hrun & Hc & Hi & Hres).
  exists r, decoded, w'. unfold loadRunJournalV1FromDescriptorWithHooks. erewrite io_bind_run by exact Hrun.
  split_and!; [done|done|done|]. destruct Hres as [(e & ? & ?)|?]; eauto.
Qed.

(** ** The properties *)

(** C22: for any file with the documented POSIX behaviour, whatever the sizes of
    its reads and however they are interrupted, [loadRunJournalV1] terminates,
    never reads outside a buffer and leaves the file as it was; and either it
    reports a missing file or an I/O failure and leaves its output unchanged, or
    its result and its output are those of parsing the file's bytes at once. *)
Theorem load_refines_parse fuel (output : LoadedRunJournalV1) w :
  (interrupts w + length (contents w) + 1 < fuel)%nat →
  ∃ result output' w', loadRunJournalV1 fuel output w = (Ok (result, output'), w') ∧ contents w' = contents w ∧
    ((LoadResult.outcome result ∈ [LoadOutcome.MISSING; LoadOutcome.IO_FAILURE] ∧ output' = output) ∨
     (∃ decoded, parseJournal (contents w) = Ok (result, decoded) ∧
        output' = if replacesOutput result then decoded else output)).
Proof.
  intros Hf. unfold loadRunJournalV1, openReadOnly.
  destruct (openFile_run false fuel w ltac:(lia)) as (r & w1 & Hrun & Hc1 & Hi1 & Hp). erewrite io_bind_run by exact Hrun.
  destruct r as [d|e].
  2:{ case_bool_decide; eexists _, output, w1; (split; [done|]); (split; [done|]); left; (split; [|done]); set_solver. }
  assert (Hu : unread w1 = contents w) by (unfold unread; by rewrite Hp, drop_0).
  destruct (loadFromDescriptor_run fuel emptyLoaded w1) as (result & decoded & w2 & Hload & Hc2 & _ & Hres).
  { rewrite Hu. lia. }
  erewrite io_bind_run by exact Hload. cbn match.
  destruct (sysClose w2) as [closed w3] eqn:Hclose. erewrite call_run by exact Hclose. apply close_law in Hclose.
  assert (Hc : contents w3 = contents w) by (by rewrite Hclose, Hc2). rewrite Hu in Hres.
  destruct Hres as [(errno & _ & ->)|Hparse]; destruct closed as [v|errno']; cbn [replacesOutput];
    try (eexists _, output, w3; (split; [done|]); (split; [done|]); left; (split; [|done]); set_solver).
  - eexists result, _, w3. split; [done|]. split; [done|]. right. exists decoded. split; [done|].
    by destruct (replacesOutput result).
  - destruct (replacesOutput result) eqn:Hr.
    + eexists _, output, w3. split; [done|]. split; [done|]. left. split; [|done]. set_solver.
    + eexists result, output, w3. split; [done|]. split; [done|]. right. exists decoded. by rewrite Hr.
Qed.
End opening.

(** The parser accepts exactly the journals. *)
Lemma parse_valid file decoded :
  parseJournal file = Ok (loadResult LoadOutcome.VALID LoadError.NONE, decoded) ↔
  ∃ header cs, valid_journal header cs ∧ file = journalFile header cs ∧ decoded = loadedJournal header cs.
Proof.
  split.
  - intros Hp. apply parse_accepts in Hp as (header & cs & tail & Hv & -> & -> & Hres); [|done].
    destruct Hres as [[-> _]|[_ ?]]; [|done]. exists header, cs. by rewrite app_nil_r.
  - intros (header & cs & Hv & -> & ->). rewrite <-(app_nil_r (journalFile header cs)), parseJournal_file by done. done.
Qed.

(** C23: the parser accepts exactly the journals: it reports [VALID] with a loaded
    journal if and only if the file is the encoded header followed by the encoded
    frames of commands that carry the header's run, the sequences 1, 2, 3, ..., a
    configured instrument, and fit the header's command and byte limits; the
    loaded journal is that header, these commands and the file's length.  A journal
    cut at any byte inside the frame of its last command (as a crash during an
    append leaves it) is reported as [INCOMPLETE_TAIL] at the offset where that
    frame begins, with the tail's length, and the commands before it are loaded;
    conversely, whenever the parser reports an incomplete tail the bytes before it
    are the journal of the commands loaded. *)
Theorem parser_recognizes_journals :
  (∀ file decoded,
     parseJournal file = Ok (loadResult LoadOutcome.VALID LoadError.NONE, decoded) ↔
     ∃ header cs, valid_journal header cs ∧ file = journalFile header cs ∧ decoded = loadedJournal header cs) ∧
  (∀ header cs c k, valid_journal header (cs ++ [c]) → (0 < k < length (commandFrame c))%nat →
     parseJournal (journalFile header cs ++ take k (commandFrame c)) =
     Ok (incompleteTail (Z.of_nat (length (journalFile header cs))) (Z.of_nat k), loadedJournal header cs)) ∧
  (∀ file r decoded, parseJournal file = Ok (r, decoded) → LoadResult.outcome r = LoadOutcome.INCOMPLETE_TAIL →
     ∃ header cs tail, valid_journal header cs ∧ file = journalFile header cs ++ tail ∧ tail ≠ [] ∧
       decoded = loadedJournal header cs ∧
       r = incompleteTail (Z.of_nat (length (journalFile header cs))) (Z.of_nat (length tail))).
Proof.
  split; [apply parse_valid|]. split; [apply parse_torn|]. intros file r decoded Hp Hr.
  apply parse_accepts in Hp as (header & cs & tail & Hv & -> & -> & Hres).
  - destruct Hres as [[_ ->]|[? ->]]; [done|]. by exists header, cs, tail.
  - unfold replacesOutput. rewrite Hr. done.
Qed.

(** ** Witnesses *)
Definition demoOrder1 : JournalNewOrderV1 :=
  NewOrder.mkJournalNewOrderV1 7 1 1 1 9 1 "c-1" Side.BUY TIF.GTC 100 5.
Definition demoCancel2 : JournalCancelV1 := Cancel.mkJournalCancelV1 7 2 1 1 9 1 "c-2" 1.

Definition demoJournal : list JournalCommandV1 := [JournalNew demoOrder1; JournalCancel demoCancel2].

Definition demoFile : ScheduledFile :=
  mkScheduledFile (journalFile demoHeader demoJournal) 0
    [Interrupted; Short 9; Interrupted; Interrupted; Short 0; Short 40; Interrupted].

Lemma load_refines_parse_witness :
  ∃ result output' w', loadRunJournalV1 1000 emptyLoaded demoFile = (Ok (result, output'), w') ∧
    contents w' = contents demoFile ∧
    ((LoadResult.outcome result ∈ [LoadOutcome.MISSING; LoadOutcome.IO_FAILURE] ∧ output' = emptyLoaded) ∨
     (∃ decoded, parseJournal (contents demoFile) = Ok (result, decoded) ∧
        output' = if replacesOutput result then decoded else emptyLoaded)).
Proof. apply load_refines_parse. vm_compute. lia. Defined.

(** The loader on that file, evaluated. *)
Example demo_load :
  (loadRunJournalV1 1000 emptyLoaded demoFile).1 =
  Ok (loadResult LoadOutcome.VALID LoadError.NONE, loadedJournal demoHeader demoJournal).
Proof. vm_compute. reflexivity. Qed.

Lemma demo_journal_valid : valid_journal demoHeader demoJournal.
Proof.
  destruct (parse_accepts (journalFile demoHeader demoJournal) (loadResult LoadOutcome.VALID LoadError.NONE)
    (loadedJournal demoHeader demoJournal)) as (header & cs & tail & Hv & _ & Heq & _).
  - vm_compute. reflexivity.
  - reflexivity.
  - injection Heq as <- <- _. done.
Qed.

Lemma parser_recognizes_journals_witness :
  parseJournal (journalFile demoHeader [JournalNew demoOrder1] ++ take 50 (commandFrame (JournalCancel demoCancel2))) =
  Ok (incompleteTail (Z.of_nat (length (journalFile demoHeader [JournalNew demoOrder1]))) 50,
      loadedJournal demoHeader [JournalNew demoOrder1]).
Proof.
  apply (proj1 (proj2 parser_recognizes_journals) demoHeader [JournalNew demoOrder1] (JournalCancel demoCancel2) 50%nat).
  - apply demo_journal_valid.
  - vm_compute. lia.
Defined.
