(* ===== verification/JournalWriter.v ===== *)
(** * Appending to a run journal

    [src/core/storage/src/run_journal_writer.cpp]: one writer owns the file and
    appends the commands in sequence.  The two overloads of [append] and of
    [prospectiveFrameSize] are one definition over the kind of command. *)
From S2P Require Import Prelude Domain Bytes JournalCodec RunHeaderCodec Posix JournalReader.

Module AppendOutcome.
Inductive RunJournalAppendOutcome := COMMITTED | INVALID_COMMAND | CAPACITY_REACHED | IO_FAILURE | RECOVERY_REQUIRED.
#[export] Instance RunJournalAppendOutcome_eq_dec : EqDecision RunJournalAppendOutcome.
Proof. solve_decision. Defined.
End AppendOutcome.
Export (hints) AppendOutcome.
Abbreviation RunJournalAppendOutcome := AppendOutcome.RunJournalAppendOutcome.

Module AppendError.
Inductive RunJournalAppendError :=
  | NONE | WRITER_UNUSABLE | UNEXPECTED_COMMAND_SEQUENCE | EXCHANGE_RUN_ID_MISMATCH
  | BEHAVIORAL_RULES_VERSION_MISMATCH | INSTRUMENT_CONFIGURATION_MISMATCH.
#[export] Instance RunJournalAppendError_eq_dec : EqDecision RunJournalAppendError.
Proof. solve_decision. Defined.
End AppendError.
Export (hints) AppendError.
Abbreviation RunJournalAppendError := AppendError.RunJournalAppendError.

Module AppendResult.
Record RunJournalAppendResult := mkAppendResult {
  outcome : RunJournalAppendOutcome;
  error : RunJournalAppendError;
  codecError : option JournalCommandCodecError;
  systemError : Z }.
End AppendResult.
Abbreviation RunJournalAppendResult := AppendResult.RunJournalAppendResult.

(** The writer without its descriptor and hooks, which are the world. *)
Module Writer.
Record RunJournalWriterV1 := mkWriter {
  header : RunHeaderV1;
  committedCommandCount : Z;
  committedByteCount : Z;
  nextCommandSequence : CommandSequence;
  usable : bool }.
End Writer.
Abbreviation RunJournalWriterV1 := Writer.RunJournalWriterV1.

Definition appendResult (outcome : RunJournalAppendOutcome) (error : RunJournalAppendError)
    (codecError : option JournalCommandCodecError) (systemError : Z) : RunJournalAppendResult :=
  AppendResult.mkAppendResult outcome error codecError systemError.

(** The writer of a file that holds only its header. *)
Definition newWriter (header : RunHeaderV1) (headerByteCount : Z) : RunJournalWriterV1 :=
  Writer.mkWriter header 0 headerByteCount 1 true.

Definition encodeCommand (c : JournalCommandV1) : checked JournalCommandCodecError bytes :=
  match c with JournalNew c => encodeNewOrderV1 c | JournalCancel c => encodeCancelV1 c end.

Definition validateCommandContext (writer : RunJournalWriterV1) (c : JournalCommandV1) : RunJournalAppendError :=
  if bool_decide (commandSequenceOf c ≠ Writer.nextCommandSequence writer) then
    AppendError.UNEXPECTED_COMMAND_SEQUENCE
  else if bool_decide (commandRun c ≠ Header.exchangeRunId (Writer.header writer)) then
    AppendError.EXCHANGE_RUN_ID_MISMATCH
  else if bool_decide (commandRulesVersion c ≠ Header.behavioralRulesVersion (Writer.header writer)) then
    AppendError.BEHAVIORAL_RULES_VERSION_MISMATCH
  else if negb (instrumentConfigured (Writer.header writer) (commandInstrument c) (commandConfiguration c)) then
    AppendError.INSTRUMENT_CONFIGURATION_MISMATCH
  else AppendError.NONE.

Definition setUnusable (writer : RunJournalWriterV1) : RunJournalWriterV1 :=
  Writer.mkWriter (Writer.header writer) (Writer.committedCommandCount writer) (Writer.committedByteCount writer)
    (Writer.nextCommandSequence writer) false.

(** The three updates after a successful sync. *)
Definition commitFrame (writer : RunJournalWriterV1) (size : nat) : RunJournalWriterV1 :=
  Writer.mkWriter (Writer.header writer) (wrap64 (Writer.committedCommandCount writer + 1))
    (wrap64 (Writer.committedByteCount writer + Z.of_nat size))
    (wrap64 (Writer.nextCommandSequence writer + 1)) (Writer.usable writer).

Definition prospectiveFrameSize (writer : RunJournalWriterV1) (c : JournalCommandV1)
    : checked outOfFuel (option nat) :=
  if negb (Writer.usable writer) || bool_decide (validateCommandContext writer c ≠ AppendError.NONE) then Ok None
  else match encodeCommand c with
       | Ok frame => Ok (Some (length frame))
       | Err _ => Ok None
       | OutOfBounds => OutOfBounds
       end.

Section writer.
Context {W : Type} `{Posix W}.

(** The bytes written, and the error that stopped the loop. *)
Fixpoint writeLoop (fuel : nat) (frame : bytes) (bytesWritten : nat) : io W (nat * option Z) :=
  match fuel with
  | O => out_of_fuel
  | Datatypes.S fuel' =>
      if bool_decide (bytesWritten < length frame)%nat then
        let remaining := (length frame - bytesWritten)%nat in
        result ← call (sysWrite (drop bytesWritten frame));
        match result with
        | SysDone n =>
            if bool_decide (0 < n) && bool_decide (n ≤ Z.of_nat remaining) then
              writeLoop fuel' frame (bytesWritten + Z.to_nat n)
            else mret (bytesWritten, Some EIO)
        | SysError errno =>
            if bool_decide (errno = EINTR) then writeLoop fuel' frame bytesWritten
            else mret (bytesWritten, Some errno)
        end
      else mret (bytesWritten, None)
  end.

(** [fdatasync] or [fsync], retried while interrupted. *)
Fixpoint syncLoop (fuel : nat) : io W (option Z) :=
  match fuel with
  | O => out_of_fuel
  | Datatypes.S fuel' =>
      result ← call sysSync;
      match result with
      | SysError errno => if bool_decide (errno = EINTR) then syncLoop fuel' else mret (Some errno)
      | SysDone v => mret (if bool_decide (v ≠ 0) then Some EIO else None)
      end
  end.

Definition appendEncoded (fuel : nat) (writer : RunJournalWriterV1) (frame : bytes)
    : io W (RunJournalAppendResult * RunJournalWriterV1) :=
  if bool_decide (Header.maxRunCommands (Writer.header writer) ≤ Writer.committedCommandCount writer) then
    mret (appendResult AppendOutcome.CAPACITY_REACHED AppendError.NONE None 0, writer)
  else if bool_decide (wrap64 (Header.maxRunJournalBytes (Writer.header writer) - Writer.committedByteCount writer) <
                       Z.of_nat (length frame)) then
    mret (appendResult AppendOutcome.CAPACITY_REACHED AppendError.NONE None 0, writer)
  else
  '(bytesWritten, failure) ← writeLoop fuel frame 0;
  match failure with
  | Some systemError =>
      let outcome := if bool_decide (bytesWritten = 0%nat) then AppendOutcome.IO_FAILURE
                     else AppendOutcome.RECOVERY_REQUIRED in
      mret (appendResult outcome AppendError.NONE None systemError, setUnusable writer)
  | None =>
      syncFailure ← syncLoop fuel;
      match syncFailure with
      | Some systemError =>
          mret (appendResult AppendOutcome.RECOVERY_REQUIRED AppendError.NONE None systemError, setUnusable writer)
      | None => mret (appendResult AppendOutcome.COMMITTED AppendError.NONE None 0, commitFrame writer (length frame))
      end
  end.

Definition append (fuel : nat) (writer : RunJournalWriterV1) (c : JournalCommandV1)
    : io W (RunJournalAppendResult * RunJournalWriterV1) :=
  if negb (Writer.usable writer) then
    mret (appendResult AppendOutcome.RECOVERY_REQUIRED AppendError.WRITER_UNUSABLE None 0, writer)
  else
  match validateCommandContext writer c with
  | AppendError.NONE =>
      frame ← decided (encodeCommand c);
      match frame with
      | inl codecError => mret (appendResult AppendOutcome.INVALID_COMMAND AppendError.NONE (Some codecError) 0, writer)
      | inr frame => appendEncoded fuel writer frame
      end
  | contextError => mret (appendResult AppendOutcome.INVALID_COMMAND contextError None 0, writer)
  end.
End writer.

(** ** What an append does to a relation on the file *)
Section writing.
Context {V : Type} `{Posix V} (rel : V → V → Prop) `{!PreOrder rel}.
Hypothesis rel_write : ∀ data, respects rel (call (sysWrite data)).
Hypothesis rel_sync : respects rel (call sysSync).
#[local] Hint Resolve rel_write rel_sync : respects.

Lemma respects_writeLoop fuel frame : ∀ n, respects rel (writeLoop fuel frame n).
Proof. induction fuel as [|fuel IH]; intros n; simpl; respect. Qed.
Lemma respects_syncLoop fuel : respects rel (syncLoop fuel).
Proof. induction fuel as [|fuel IH]; simpl; respect. Qed.
#[local] Hint Resolve respects_writeLoop respects_syncLoop : respects.

Lemma respects_append fuel writer command : respects rel (append fuel writer command).
Proof. unfold append, appendEncoded. respect. Qed.
End writing.
#[export] Hint Resolve respects_syncLoop respects_append : respects.
