(* ===== verification/JournalRecovery.v ===== *)
(** * Recovering a run journal

    [src/core/storage/src/run_journal_recovery.cpp]: load the journal, preserve and
    cut off an incomplete tail, and hand the file to a writer positioned after the
    last committed command. *)
From S2P Require Import Prelude Domain Bytes JournalCodec RunHeaderCodec Posix JournalReader JournalWriter.

Module RecoveryOutcome.
Inductive RunJournalRecoveryOutcome := PREPARED | MISSING | IO_FAILURE | CORRUPTION | RECOVERY_REQUIRED.
#[export] Instance RunJournalRecoveryOutcome_eq_dec : EqDecision RunJournalRecoveryOutcome.
Proof. solve_decision. Defined.
End RecoveryOutcome.
Export (hints) RecoveryOutcome.
Abbreviation RunJournalRecoveryOutcome := RecoveryOutcome.RunJournalRecoveryOutcome.

Module RecoveryError.
Inductive RunJournalRecoveryError :=
  | NONE | TAIL_PRESERVATION_FAILED | TRUNCATE_FAILED | SEEK_FAILED | SYNC_FAILED | CLOSE_FAILED.
End RecoveryError.
Abbreviation RunJournalRecoveryError := RecoveryError.RunJournalRecoveryError.

Module RecoveryResult.
Record RunJournalRecoveryResult := mkRecoveryResult {
  outcome : RunJournalRecoveryOutcome;
  error : RunJournalRecoveryError;
  validation : RunJournalLoadResult;
  systemError : Z;
  preservedTailBytes : bytes }.
End RecoveryResult.
Abbreviation RunJournalRecoveryResult := RecoveryResult.RunJournalRecoveryResult.

(** [PreparedRunJournalV1]; [writer] is null until a journal is prepared. *)
Record PreparedRunJournalV1 := mkPrepared {
  prepared_journal : LoadedRunJournalV1;
  prepared_writer : option RunJournalWriterV1 }.

Definition recoveryResult (outcome : RunJournalRecoveryOutcome) (error : RunJournalRecoveryError)
    (validation : RunJournalLoadResult) (systemError : Z) (preservedTailBytes : bytes) : RunJournalRecoveryResult :=
  RecoveryResult.mkRecoveryResult outcome error validation systemError preservedTailBytes.

Section recovery.
Context {W : Type} `{Posix W}.

(** [None] after a successful seek. *)
Fixpoint seekDescriptor (fuel : nat) (offset : Z) : io W (option Z) :=
  match fuel with
  | O => out_of_fuel
  | Datatypes.S fuel' =>
      result ← call (sysSeek offset);
      match result with
      | SysError errno => if bool_decide (errno = EINTR) then seekDescriptor fuel' offset else mret (Some errno)
      | SysDone v => mret (if bool_decide (v ≠ offset) then Some EIO else None)
      end
  end.

(** The recovery's own [readExact]: the whole destination, or an error. *)
Fixpoint readWhole (fuel size : nat) (destination : bytes) : io W (Z + bytes) :=
  match fuel with
  | O => out_of_fuel
  | Datatypes.S fuel' =>
      if bool_decide (length destination < size)%nat then
        let remaining := (size - length destination)%nat in
        result ← call (sysRead remaining);
        match result with
        | ReadBytes data =>
            if bool_decide (0 < length data)%nat && bool_decide (length data ≤ remaining)%nat then
              readWhole fuel' size (destination ++ data)
            else mret (inl EIO)
        | ReadError errno => if bool_decide (errno = EINTR) then readWhole fuel' size destination else mret (inl errno)
        end
      else mret (inr destination)
  end.

Definition syncDescriptor (fuel : nat) : io W (option Z) := syncLoop fuel.

Definition closeAfterFailure (truncationBegan : bool) (error : RunJournalRecoveryError)
    (validation : RunJournalLoadResult) (systemError : Z) (preservedTailBytes : bytes)
    : io W RunJournalRecoveryResult :=
  let outcome := if truncationBegan then RecoveryOutcome.RECOVERY_REQUIRED else RecoveryOutcome.IO_FAILURE in
  closeResult ← call sysClose;
  match closeResult with
  | SysError closeError =>
      mret (recoveryResult outcome RecoveryError.CLOSE_FAILED validation closeError preservedTailBytes)
  | SysDone _ => mret (recoveryResult outcome error validation systemError preservedTailBytes)
  end.

(** A failure leaves the output as it was. *)
Definition failWith (output : PreparedRunJournalV1) (m : io W RunJournalRecoveryResult)
    : io W (RunJournalRecoveryResult * PreparedRunJournalV1) :=
  result ← m; mret (result, output).

(** From the last seek on: position the descriptor and make the writer. *)
Definition prepareWriter (fuel : nat) (output : PreparedRunJournalV1) (loaded : LoadedRunJournalV1)
    (validation : RunJournalLoadResult) (truncationBegan : bool) (preservedTailBytes : bytes)
    : io W (RunJournalRecoveryResult * PreparedRunJournalV1) :=
  seekFailure ← seekDescriptor fuel (Loaded.validCommittedByteCount loaded);
  match seekFailure with
  | Some seekError =>
      failWith output (closeAfterFailure truncationBegan RecoveryError.SEEK_FAILED validation seekError
                         preservedTailBytes)
  | None =>
      let writer := Writer.mkWriter (Loaded.header loaded) (Z.of_nat (length (Loaded.commands loaded)))
                      (Loaded.validCommittedByteCount loaded)
                      (wrap64 (Z.of_nat (length (Loaded.commands loaded)) + 1)) true in
      mret (recoveryResult RecoveryOutcome.PREPARED RecoveryError.NONE validation 0 preservedTailBytes,
            mkPrepared loaded (Some writer))
  end.

(** Preserving the tail and cutting it off. *)
Definition repairTail (fuel : nat) (output : PreparedRunJournalV1) (loaded : LoadedRunJournalV1)
    (validation : RunJournalLoadResult) : io W (RunJournalRecoveryResult * PreparedRunJournalV1) :=
  let committedEnd := Loaded.validCommittedByteCount loaded in
  seekFailure ← seekDescriptor fuel committedEnd;
  match seekFailure with
  | Some systemError =>
      failWith output (closeAfterFailure false RecoveryError.TAIL_PRESERVATION_FAILED validation systemError [])
  | None =>
      tail ← readWhole fuel (Z.to_nat (LoadResult.tailLength validation)) [];
      match tail with
      | inl systemError =>
          failWith output (closeAfterFailure false RecoveryError.TAIL_PRESERVATION_FAILED validation systemError [])
      | inr preservedTailBytes =>
          truncated ← call (sysTruncate committedEnd);
          match truncated with
          | SysError truncateError =>
              failWith output (closeAfterFailure true RecoveryError.TRUNCATE_FAILED validation truncateError
                                 preservedTailBytes)
          | SysDone _ =>
              syncFailure ← syncDescriptor fuel;
              match syncFailure with
              | Some systemError =>
                  failWith output (closeAfterFailure true RecoveryError.SYNC_FAILED validation systemError
                                     preservedTailBytes)
              | None => prepareWriter fuel output loaded validation true preservedTailBytes
              end
          end
      end
  end.

(** The loaded journal of another run is corruption. *)
Definition checkExpectedRun (expectedRunId : option ExchangeRunId) (validation : RunJournalLoadResult)
    (loaded : LoadedRunJournalV1) : RunJournalLoadResult :=
  match expectedRunId with
  | Some expected =>
      if replacesOutput validation && bool_decide (Header.exchangeRunId (Loaded.header loaded) ≠ expected) then
        loadResult LoadOutcome.CORRUPTION LoadError.EXCHANGE_RUN_ID_MISMATCH
      else validation
  | None => validation
  end.

Definition prepareRunJournalV1 (fuel : nat) (output : PreparedRunJournalV1) (expectedRunId : option ExchangeRunId)
    : io W (RunJournalRecoveryResult * PreparedRunJournalV1) :=
  descriptor ← openFile fuel true;
  match descriptor with
  | SysError systemError =>
      if bool_decide (systemError = ENOENT) then
        mret (recoveryResult RecoveryOutcome.MISSING RecoveryError.NONE
                (LoadResult.mkLoadResult LoadOutcome.MISSING LoadError.NONE None None systemError 0 0) systemError [],
              output)
      else mret (recoveryResult RecoveryOutcome.IO_FAILURE RecoveryError.NONE
                   (loadResult LoadOutcome.IO_FAILURE LoadError.NONE) systemError [], output)
  | SysDone _ =>
      '(validation, loaded) ← loadRunJournalV1FromDescriptorWithHooks fuel emptyLoaded;
      let validation := checkExpectedRun expectedRunId validation loaded in
      if negb (replacesOutput validation) then
        let outcome := if bool_decide (LoadResult.outcome validation = LoadOutcome.CORRUPTION)
                       then RecoveryOutcome.CORRUPTION else RecoveryOutcome.IO_FAILURE in
        closeResult ← call sysClose;
        match closeResult with
        | SysError errno =>
            mret (recoveryResult RecoveryOutcome.IO_FAILURE RecoveryError.CLOSE_FAILED validation errno [], output)
        | SysDone _ =>
            mret (recoveryResult outcome RecoveryError.NONE validation (LoadResult.systemError validation) [], output)
        end
      else if bool_decide (OFF_T_MAX < Loaded.validCommittedByteCount loaded) then
        failWith output (closeAfterFailure false RecoveryError.SEEK_FAILED validation EOVERFLOW [])
      else if bool_decide (LoadResult.outcome validation = LoadOutcome.INCOMPLETE_TAIL) then
        repairTail fuel output loaded validation
      else prepareWriter fuel output loaded validation false []
  end.
End recovery.

(** ** What a recovery does to a relation on the file *)
Section recovering.
Context {V : Type} `{Posix V} (rel : V → V → Prop) `{!PreOrder rel}.
Hypothesis rel_read : ∀ size, respects rel (call (sysRead size)).
Hypothesis rel_seek : ∀ offset, respects rel (call (sysSeek offset)).
Hypothesis rel_sync : respects rel (call sysSync).
Hypothesis rel_close : respects rel (call sysClose).
Hypothesis rel_open : ∀ writing, respects rel (call (sysOpen writing)).
#[local] Hint Resolve rel_read rel_seek rel_sync rel_close rel_open : respects.

Lemma respects_readSome fuel size : respects rel (readSome fuel size).
Proof. induction fuel as [|fuel IH]; simpl; respect. Qed.
#[local] Hint Resolve respects_readSome : respects.
Lemma respects_readExact fuel size : respects rel (readExact fuel size).
Proof.
  unfold readExact. generalize ([] : bytes). induction fuel as [|fuel IH]; intros destination; cbn [readExactLoop]; respect.
Qed.
#[local] Hint Resolve respects_readExact : respects.
Lemma respects_readCommands loopFuel fuel : ∀ decoded sequence, respects rel (readCommands loopFuel fuel decoded sequence).
Proof. induction loopFuel as [|loopFuel IH]; intros decoded sequence; cbn [readCommands]; respect. Qed.
#[local] Hint Resolve respects_readCommands : respects.
Lemma respects_load fuel output : respects rel (loadRunJournalV1FromDescriptorWithHooks fuel output).
Proof. unfold loadRunJournalV1FromDescriptorWithHooks, readJournal. respect. Qed.
Lemma respects_openFile fuel writing : respects rel (openFile fuel writing).
Proof. induction fuel as [|fuel IH]; simpl; respect. Qed.
Lemma respects_seekDescriptor fuel offset : respects rel (seekDescriptor fuel offset).
Proof. induction fuel as [|fuel IH]; simpl; respect. Qed.
Lemma respects_readWhole fuel size : ∀ destination, respects rel (readWhole fuel size destination).
Proof. induction fuel as [|fuel IH]; intros destination; cbn [readWhole]; respect. Qed.
#[local] Hint Resolve respects_load respects_openFile respects_seekDescriptor respects_readWhole : respects.
Lemma respects_closeAfterFailure began error validation systemError preserved :
  respects rel (closeAfterFailure began error validation systemError preserved).
Proof. unfold closeAfterFailure. respect. Qed.
#[local] Hint Resolve respects_closeAfterFailure : respects.
Lemma respects_prepareWriter fuel output loaded validation began preserved :
  respects rel (prepareWriter fuel output loaded validation began preserved).
Proof. unfold prepareWriter, failWith. respect. Qed.
#[local] Hint Resolve respects_prepareWriter : respects.
Lemma respects_repairTail fuel output loaded validation :
  respects rel (call (sysTruncate (Loaded.validCommittedByteCount loaded))) →
  respects rel (repairTail fuel output loaded validation).
Proof. intros ?. unfold repairTail, failWith, syncDescriptor. respect. Qed.
#[local] Hint Resolve respects_repairTail : respects.
Lemma respects_prepareRunJournalV1 fuel output expected :
  (∀ len, respects rel (call (sysTruncate len))) → respects rel (prepareRunJournalV1 fuel output expected).
Proof. intros ?. unfold prepareRunJournalV1, failWith. respect. Qed.
End recovering.
