(* ===== verification/JournalAppend.v ===== *)
(** * What an append does to the file

    Every outcome of [append] on a journal's file: committed, refused without a
    write, or stopped with the file holding a prefix of the command's frame. *)
From S2P Require Import Prelude Domain Bytes JournalCodec JournalFrames JournalTheorems RunHeaderCodec RunHeaderTheorems.
From S2P Require Import Posix JournalReader JournalParse JournalFile JournalWriter.

(** ** Encoding any command *)

(** The values the C++ fields can hold: identifiers at their width and a client
    command id made by its constructor. *)
Record representable_fields (run : ExchangeRunId) (sequence : CommandSequence) (configuration : Z)
    (client : ClientId) (instrument : InstrumentId) (c : ClientCommandId) : Prop := {
  rf_run : is_u64 run;
  rf_sequence : is_u64 sequence;
  rf_configuration : is_u32 configuration;
  rf_client : is_u64 client;
  rf_instrument : is_u64 instrument;
  rf_command : valid_ClientCommandId c }.

Definition representable (c : JournalCommandV1) : Prop :=
  match c with
  | JournalNew c =>
      representable_fields (NewOrder.exchangeRunId c) (NewOrder.commandSequence c) (NewOrder.configurationVersion c)
        (NewOrder.clientId c) (NewOrder.instrumentId c) (NewOrder.clientCommandId c) ∧
      is_u64 (NewOrder.price c) ∧ is_u64 (NewOrder.quantity c)
  | JournalCancel c =>
      representable_fields (Cancel.exchangeRunId c) (Cancel.commandSequence c) (Cancel.configurationVersion c)
        (Cancel.clientId c) (Cancel.instrumentId c) (Cancel.clientCommandId c) ∧
      is_u64 (Cancel.targetOrderId c)
  end.

Lemma fail_if_cases {E A} (bad : bool) (e : E) (f : unit → checked E A) :
  (bad = true ∧ (fail_if bad e ≫= f) = Err e) ∨ (bad = false ∧ (fail_if bad e ≫= f) = f tt).
Proof. destruct bad; auto. Qed.

Lemma validateCommonCommand_cases run sequence rules configuration client instrument c :
  representable_fields run sequence configuration client instrument c →
  (validateCommonCommand run sequence rules configuration client instrument = Ok tt ∧
     valid_common run sequence rules configuration client instrument c) ∨
  (∃ e, validateCommonCommand run sequence rules configuration client instrument = Err e).
Proof.
  intros [? ? ? ? ? ?].
  destruct (validateCommonCommand run sequence rules configuration client instrument) as [[]|e|] eqn:Hv.
  - left. split; [done|]. apply validateCommonCommand_inv in Hv as (? & ? & -> & ? & ? & ?). by split.
  - right. eauto.
  - exfalso. pose proof (in_bounds_common run sequence rules configuration client instrument
      (λ _, Ok (E:=CodecError.JournalCommandCodecError) tt) ltac:(done)) as Hin. rewrite Hv in Hin. by apply Hin.
Qed.

Lemma encodeCommand_cases c : representable c →
  (valid_journalCommand c ∧ encodeCommand c = Ok (commandFrame c)) ∨
  (¬ valid_journalCommand c ∧ ∃ e, encodeCommand c = Err e).
Proof.
  intros Hr. assert (Hcases : valid_journalCommand c ∨ ∃ e, encodeCommand c = Err e).
  { destruct c as [c|c]; cbn [valid_journalCommand encodeCommand representable] in *.
    - destruct Hr as (Hf & Hp & Hq). unfold encodeNewOrderV1.
      destruct (validateCommonCommand_cases _ _ (NewOrder.behavioralRulesVersion c) _ _ _ _ Hf) as [[-> Hc]|[e ->]];
        [|right; by exists e]. rewrite checked_bind_ok.
      destruct (NewOrder.side c) eqn:Hs; cbn [sideCode]; [| |right; eexists; reflexivity];
        rewrite checked_bind_ok; destruct (NewOrder.timeInForce c) eqn:Ht; cbn [timeInForceCode];
        try (right; eexists; reflexivity); rewrite checked_bind_ok.
      all: destruct (decide (NewOrder.price c = 0)) as [E|?];
        [right; rewrite E; eexists; reflexivity|]; rewrite fail_if_false by (by apply bool_decide_eq_false).
      all: destruct (decide (NewOrder.quantity c = 0)) as [E|?]; [right; rewrite E; eexists; reflexivity|].
      all: left; split; auto.
    - destruct Hr as (Hf & Ht). unfold encodeCancelV1.
      destruct (validateCommonCommand_cases _ _ (Cancel.behavioralRulesVersion c) _ _ _ _ Hf) as [[-> Hc]|[e ->]];
        [|right; by exists e]. rewrite checked_bind_ok.
      destruct (decide (Cancel.targetOrderId c = 0)) as [E|?]; [right; rewrite E; eexists; reflexivity|].
      left; split; auto. }
  destruct Hcases as [Hv|[e He]].
  - left. split; [done|]. destruct c; [by apply encodeNewOrderV1_run|by apply encodeCancelV1_run].
  - right. split; [|eauto]. intros Hv. destruct c; simpl in *;
      [rewrite encodeNewOrderV1_run in He by done|rewrite encodeCancelV1_run in He by done]; done.
Qed.

(** ** The loops *)
Lemma write_at_end file data : write_at file (length file) data = file ++ data.
Proof. unfold write_at. rewrite firstn_all, drop_ge by lia. by rewrite app_nil_r. Qed.

Section loops.
Context {W : Type} `{PosixFile W}.
Implicit Types w : W.

(** Writing a frame leaves a prefix of it at the end of the file, all of it unless
    the loop reports a failure. *)
Lemma writeLoop_run base frame : ∀ fuel n w,
  (n ≤ length frame)%nat → contents w = base ++ take n frame → position w = length (contents w) →
  (interrupts w + (length frame - n) < fuel)%nat →
  ∃ m failure w', writeLoop fuel frame n w = (Ok (m, failure), w') ∧ (n ≤ m)%nat ∧
    contents w' = base ++ take m frame ∧ position w' = length (contents w') ∧ (interrupts w' ≤ interrupts w)%nat ∧
    match failure with None => m = length frame | Some _ => (m < length frame)%nat end.
Proof.
  induction fuel as [|fuel IH]; intros n w Hn Hc Hp Hf; [lia|]. cbn [writeLoop]. case_bool_decide as Hlt.
  - destruct (sysWrite (drop n frame) w) as [r w1] eqn:Hw. erewrite call_run by exact Hw.
    assert (Hd : drop n frame ≠ []) by (intros E%(f_equal length); rewrite length_drop in E; simpl in E; lia).
    apply write_law in Hw; [|done]. rewrite length_drop in Hw. destruct r as [k|e].
    + destruct Hw as (Hk & Hc1 & Hp1 & Hi). rewrite Hp, write_at_end, Hc, <-app_assoc in Hc1.
      assert (Htake : take n frame ++ take (Z.to_nat k) (drop n frame) = take (n + Z.to_nat k) frame)
        by apply take_take_drop. rewrite Htake in Hc1.
      destruct (decide (0 < k)) as [Hpos|Hzero].
      * rewrite (bool_decide_eq_true_2 (0 < k)), (bool_decide_eq_true_2 (k ≤ _)) by lia. cbn [andb].
        destruct (IH (n + Z.to_nat k)%nat w1) as (m & failure & w2 & Hrun & ? & ? & ? & ? & ?); [lia|done| |lia|].
        { rewrite Hp1, Hp, Hc1, Hc, !length_app, !length_take. lia. }
        exists m, failure, w2. split_and!; try done; lia.
      * rewrite (bool_decide_eq_false_2 (0 < k)) by done. replace k with 0 in * by lia. rewrite Nat.add_0_r in *.
        exists n, (Some EIO), w1. split_and!; [done|lia|done| |done|done]. rewrite Hp1, Hp, Hc1, Hc. lia.
    + destruct Hw as (Hc1 & Hp1 & Hi). unfold interrupt_step in Hi. case_bool_decide.
      * destruct (IH n w1) as (m & failure & w2 & Hrun & ? & ? & ? & ? & ?); [done|by rewrite Hc1|by rewrite Hp1, Hc1|lia|].
        exists m, failure, w2. split_and!; try done; lia.
      * exists n, (Some e), w1. split_and!; [done|lia|by rewrite Hc1|by rewrite Hp1, Hc1|lia|done].
  - exists n, None, w. split_and!; [done|lia|done|done|lia|lia].
Qed.

Lemma syncLoop_run : ∀ fuel w, (interrupts w < fuel)%nat →
  ∃ failure w', syncLoop fuel w = (Ok failure, w') ∧ contents w' = contents w ∧ position w' = position w ∧
    (interrupts w' ≤ interrupts w)%nat.
Proof.
  induction fuel as [|fuel IH]; intros w Hf; [lia|]. cbn [syncLoop].
  destruct (sysSync w) as [r w1] eqn:Hs. erewrite call_run by exact Hs.
  apply sync_law in Hs as (Hc & Hp & Hi). destruct r as [v|e].
  - eexists _, w1. done.
  - unfold interrupt_step in Hi. case_bool_decide.
    + destruct (IH w1) as (failure & w2 & Hrun & Hc2 & Hp2 & Hi2); [lia|]. exists failure, w2.
      rewrite Hc2, Hp2. split_and!; [done|done|done|lia].
    + eexists _, w1. split_and!; [done|done|done|lia].
Qed.
End loops.

(** ** One append *)
Section appending.
Context {W : Type} `{PosixFile W}.
Implicit Types w : W.

(** The writer owns the file of a journal and stands at its end. *)
Record writer_ok (header : RunHeaderV1) (cs : list JournalCommandV1) (writer : RunJournalWriterV1) (w : W) : Prop := {
  wo_header : Writer.header writer = header;
  wo_count : Writer.committedCommandCount writer = Z.of_nat (length cs);
  wo_bytes : Writer.committedByteCount writer = Z.of_nat (length (journalFile header cs));
  wo_next : Writer.nextCommandSequence writer = Z.of_nat (length cs) + 1;
  wo_usable : Writer.usable writer = true;
  wo_contents : contents w = journalFile header cs;
  wo_position : position w = length (contents w);
  wo_valid : valid_journal header cs }.

Lemma validateCommandContext_fits header cs writer w c : writer_ok header cs writer w →
  (valid_journalCommand c ∧ validateCommandContext writer c = AppendError.NONE ↔
   fits header (Z.of_nat (length cs) + 1) c).
Proof.
  intros [Hh _ _ Hn _ _ _ Hv]. unfold validateCommandContext. rewrite Hh, Hn. split.
  - intros [Hc Hctx]. repeat (case_bool_decide; [done|]).
    destruct (instrumentConfigured _ _ _) eqn:Hi; [|done].
    by split.
  - intros [Hc Hrun Hseq Hi]. split; [done|]. rewrite Hrun, Hseq, Hi.
    assert (Hrules : commandRulesVersion c = Header.behavioralRulesVersion header).
    { rewrite (vrh_rules _ (vj_header _ _ Hv)). destruct c as [c|c]; [destruct Hc as [Hc _ _ _ _]|destruct Hc as [Hc _]];
        exact (vcm_rules _ _ _ _ _ _ _ Hc). }
    rewrite Hrules. by rewrite !bool_decide_eq_false_2 by auto.
Qed.

Lemma appendEncoded_capacity header cs writer w c : writer_ok header cs writer w →
  fits header (Z.of_nat (length cs) + 1) c →
  (bool_decide (Header.maxRunCommands (Writer.header writer) ≤ Writer.committedCommandCount writer) = false ∧
   bool_decide (wrap64 (Header.maxRunJournalBytes (Writer.header writer) - Writer.committedByteCount writer) <
                Z.of_nat (length (commandFrame c))) = false) ↔ valid_journal header (cs ++ [c]).
Proof.
  intros [Hh Hcount Hbytes _ _ _ _ Hv] Hfits. rewrite Hh, Hcount, Hbytes, valid_journal_snoc, !bool_decide_eq_false.
  pose proof (vj_bytes _ _ Hv) as Hb. pose proof (vrh_bytes _ (vj_header _ _ Hv)) as [Hmax _].
  rewrite wrap64_small by (unfold is_u64 in *; lia). split.
  - intros [? ?]. split_and!; [done|done|lia|lia].
  - intros (_ & _ & ? & ?). lia.
Qed.

Lemma writer_ok_commit header cs writer w c w' : writer_ok header cs writer w → valid_journal header (cs ++ [c]) →
  contents w' = journalFile header cs ++ commandFrame c → position w' = length (contents w') →
  writer_ok header (cs ++ [c]) (commitFrame writer (length (commandFrame c))) w'.
Proof.
  intros [Hh Hcount Hbytes Hn Hu _ _ Hv] Hv' Hc Hp. destruct (valid_journal_counters _ _ Hv') as [_ Hb].
  destruct (valid_journal_counters _ _ Hv) as [Hw _]. rewrite journalFile_snoc_length in Hb.
  pose proof (journalFile_length header cs). unfold commitFrame.
  split; cbn [Writer.header Writer.committedCommandCount Writer.committedByteCount Writer.nextCommandSequence Writer.usable].
  - done.
  - rewrite Hcount, wrap64_small by (unfold is_u64 in *; lia). rewrite length_app. simpl. lia.
  - rewrite Hbytes, journalFile_snoc_length, wrap64_small by (unfold is_u64 in *; lia). lia.
  - rewrite Hn, Hw, length_app. simpl. lia.
  - done.
  - rewrite Hc, journalFile_app, commandsBytes_cons. unfold commandsBytes. simpl. by rewrite app_nil_r.
  - done.
  - done.
Qed.

(** What each outcome of an append of [c] to the journal of [cs] means. *)
Definition append_outcome (header : RunHeaderV1) (cs : list JournalCommandV1) (c : JournalCommandV1)
    (writer : RunJournalWriterV1) (w : W) (result : RunJournalAppendResult) (writer' : RunJournalWriterV1) (w' : W)
    : Prop :=
  match AppendResult.outcome result with
  | AppendOutcome.COMMITTED => valid_journal header (cs ++ [c]) ∧ writer_ok header (cs ++ [c]) writer' w'
  | AppendOutcome.INVALID_COMMAND => ¬ fits header (Z.of_nat (length cs) + 1) c ∧ writer' = writer ∧ w' = w
  | AppendOutcome.CAPACITY_REACHED =>
      fits header (Z.of_nat (length cs) + 1) c ∧ ¬ valid_journal header (cs ++ [c]) ∧ writer' = writer ∧ w' = w
  | AppendOutcome.IO_FAILURE =>
      valid_journal header (cs ++ [c]) ∧ Writer.usable writer' = false ∧ contents w' = journalFile header cs
  | AppendOutcome.RECOVERY_REQUIRED =>
      valid_journal header (cs ++ [c]) ∧ Writer.usable writer' = false ∧
      ∃ k, (0 < k ≤ length (commandFrame c))%nat ∧ contents w' = journalFile header cs ++ take k (commandFrame c)
  end.

Lemma appendEncoded_run header cs writer w c fuel : writer_ok header cs writer w →
  fits header (Z.of_nat (length cs) + 1) c → (interrupts w + 256 < fuel)%nat →
  ∃ result writer' w', appendEncoded fuel writer (commandFrame c) w = (Ok (result, writer'), w') ∧
    append_outcome header cs c writer w result writer' w' ∧ (interrupts w' ≤ interrupts w)%nat.
Proof.
  intros Hok Hfits Hf. pose proof (appendEncoded_capacity _ _ _ _ _ Hok Hfits) as Hcap.
  pose proof (commandFrame_bounds c (fits_valid _ _ _ Hfits)). unfold appendEncoded.
  destruct (bool_decide (Header.maxRunCommands _ ≤ _)).
  { eexists _, writer, w. split; [done|]. split; [|done]. unfold append_outcome. cbn [AppendResult.outcome appendResult]. split_and!; [done| |done|done].
    intros Hv. by apply Hcap in Hv as [? _]. }
  destruct (bool_decide (wrap64 _ < _)).
  { eexists _, writer, w. split; [done|]. split; [|done]. unfold append_outcome. cbn [AppendResult.outcome appendResult]. split_and!; [done| |done|done].
    intros Hv. by apply Hcap in Hv as [_ ?]. }
  assert (Hv : valid_journal header (cs ++ [c])) by (by apply Hcap).
  destruct (writeLoop_run (journalFile header cs) (commandFrame c) fuel 0 w) as (m & failure & w1 & Hrun & _ & Hc & Hp & Hi & Hm).
  { lia. } { by rewrite take_0, app_nil_r, (wo_contents _ _ _ _ Hok). } { apply Hok. } { lia. }
  erewrite io_bind_run by exact Hrun. cbn match. destruct failure as [e|].
  - eexists _, _, w1. split; [done|]. split; [|done]. unfold append_outcome. case_bool_decide as Hzero; cbn [AppendResult.outcome appendResult]; (split; [done|]; split; [done|]).
    + by rewrite Hc, Hzero, take_0, app_nil_r.
    + exists m. split; [lia|done].
  - rewrite Hm, firstn_all in Hc. destruct (syncLoop_run fuel w1 ltac:(lia)) as (failure & w2 & Hsync & Hc2 & Hp2 & Hi2).
    erewrite io_bind_run by exact Hsync. destruct failure as [e|].
    + eexists _, _, w2. split; [done|]. split; [|lia]. unfold append_outcome. cbn [AppendResult.outcome appendResult]. split; [done|]. split; [done|].
      exists (length (commandFrame c)). split; [lia|]. by rewrite firstn_all, Hc2.
    + eexists _, _, w2. split; [done|]. split; [|lia]. unfold append_outcome. cbn [AppendResult.outcome appendResult]. split; [done|].
      eapply writer_ok_commit; [done|done|by rewrite Hc2|by rewrite Hp2, Hc2].
Qed.

Lemma append_run header cs writer w c fuel : writer_ok header cs writer w → representable c →
  (interrupts w + 256 < fuel)%nat →
  ∃ result writer' w', append fuel writer c w = (Ok (result, writer'), w') ∧
    append_outcome header cs c writer w result writer' w' ∧ (interrupts w' ≤ interrupts w)%nat.
Proof.
  intros Hok Hr Hf. pose proof (validateCommandContext_fits _ _ _ _ c Hok) as Hctx. unfold append.
  rewrite (wo_usable _ _ _ _ Hok). cbn [negb].
  destruct (validateCommandContext writer c);
    try (eexists _, writer, w; split; [reflexivity|]; split; [|done]; unfold append_outcome; cbn [AppendResult.outcome appendResult]; split; [|done];
         intros Hfits; by apply Hctx in Hfits as [_ ?]).
  destruct (encodeCommand_cases c Hr) as [[Hv ->]|[Hv [e ->]]].
  - change (decided (Ok (commandFrame c)) ≫= ?k) with (k (inr (commandFrame c)) : io W _). cbn match.
    apply appendEncoded_run; [done| |done]. by apply Hctx.
  - eexists _, writer, w. split; [reflexivity|]. split; [|done]. unfold append_outcome. cbn [AppendResult.outcome appendResult]. split; [|done].
    intros Hfits. by destruct Hv, Hfits.
Qed.
End appending.
