(* ===== verification/JournalCrashTheorems.v ===== *)
(** * Appending, crashing and recovering

    What an append and a recovery do to the file, and what a session of appends,
    kills, losses of power and recoveries keeps: [session_step], [session_ok]. *)
From S2P Require Import Prelude Domain Bytes JournalCodec JournalFrames RunHeaderCodec RunHeaderTheorems.
From S2P Require Import Posix JournalReader JournalParse JournalFile JournalLoadTheorems.
From S2P Require Import JournalWriter JournalAppend JournalRecovery.

Section recovering.
Context {W : Type} `{PosixFile W}.
Implicit Types w : W.

Lemma seekDescriptor_run offset : 0 ≤ offset → ∀ fuel w, (interrupts w < fuel)%nat →
  ∃ failure w', seekDescriptor fuel offset w = (Ok failure, w') ∧ contents w' = contents w ∧
    (interrupts w' ≤ interrupts w)%nat ∧ (failure = None → position w' = Z.to_nat offset).
Proof.
  intros Hoff. induction fuel as [|fuel IH]; intros w Hf; [lia|]. cbn [seekDescriptor].
  destruct (sysSeek offset w) as [r w1] eqn:Hs. erewrite call_run by exact Hs.
  apply seek_law in Hs as [Hc Hr]; [|done]. destruct r as [v|e].
  - destruct Hr as ([= ->] & Hp & Hi). rewrite bool_decide_eq_false_2 by auto. by exists None, w1.
  - unfold interrupt_step in Hr. case_bool_decide.
    + destruct (IH w1) as (failure & w2 & Hrun & Hc2 & ? & ?); [lia|]. exists failure, w2. rewrite Hc2.
      split_and!; [done|done|lia|done].
    + exists (Some e), w1. split_and!; [done|done|lia|done].
Qed.

Lemma readWhole_run size : ∀ fuel destination w, (interrupts w + (size - length destination) < fuel)%nat →
  ∃ r w', readWhole fuel size destination w = (Ok r, w') ∧ contents w' = contents w ∧
    (interrupts w' ≤ interrupts w)%nat ∧
    match r with inl _ => True | inr data => data = destination ++ take (size - length destination) (unread w) end.
Proof.
  induction fuel as [|fuel IH]; intros destination w Hf; [lia|]. cbn [readWhole]. case_bool_decide as Hlt.
  - destruct (sysRead (size - length destination) w) as [r w1] eqn:Hr. erewrite call_run by exact Hr.
    apply read_law in Hr as [Hc Hr]; [|lia]. destruct r as [data|e].
    + destruct Hr as (Hl & Hd & _ & Hp & Hi). rewrite (bool_decide_eq_true_2 (length data ≤ _)%nat), andb_true_r by done.
      case_bool_decide as Hpos; [|by exists (inl EIO), w1].
      destruct (IH (destination ++ data) w1) as (r & w2 & Hrun & Hc2 & Hi2 & Hres); [rewrite length_app; lia|].
      exists r, w2. rewrite Hc2. split_and!; [done|done|lia|]. destruct r as [|data']; [done|].
      rewrite Hres, <-app_assoc. f_equal. rewrite length_app. unfold unread. rewrite Hc, Hp, <-drop_drop, Hd at 1.
      set (rest := drop (position w) (contents w)) in *. rewrite take_take_drop. f_equal. lia.
    + destruct Hr as (? & Hp & Hi). unfold interrupt_step in Hi. case_bool_decide.
      * destruct (IH destination w1) as (r & w2 & Hrun & Hc2 & ? & Hres); [lia|]. exists r, w2. rewrite Hc2.
        split_and!; [done|done|lia|]. unfold unread in *. by rewrite Hc, Hp in Hres.
      * exists (inl e), w1. split_and!; [done|done|lia|done].
  - exists (inr destination), w. split_and!; [done|done|lia|].
    replace (size - length destination)%nat with 0%nat by lia. by rewrite take_0, app_nil_r.
Qed.

(** The file is the journal of [cs], the commands the reader loads, and a tail. *)
Definition journal_prefix (w : W) (header : RunHeaderV1) (cs : list JournalCommandV1) (tail : bytes) : Prop :=
  valid_journal header cs ∧ contents w = journalFile header cs ++ tail ∧
  ∃ validation, replacesOutput validation = true ∧ parseJournal (contents w) = Ok (validation, loadedJournal header cs).

(** What a recovery from [w] to [w'] did: prepared the journal of a prefix of the
    file, or failed with the file as it was, or failed after cutting the tail. *)
Definition recovery_outcome (expectedRunId : option ExchangeRunId) (output : PreparedRunJournalV1) (w : W)
    (result : RunJournalRecoveryResult) (output' : PreparedRunJournalV1) (w' : W) : Prop :=
  (RecoveryResult.outcome result = RecoveryOutcome.PREPARED ∧
   ∃ header cs tail writer, journal_prefix w header cs tail ∧ RecoveryResult.preservedTailBytes result = tail ∧ writer_ok header cs writer w' ∧
     (∀ run, expectedRunId = Some run → Header.exchangeRunId header = run) ∧
     output' = mkPrepared (loadedJournal header cs) (Some writer)) ∨
  (RecoveryResult.outcome result ≠ RecoveryOutcome.PREPARED ∧ output' = output ∧ contents w' = contents w) ∨
  (RecoveryResult.outcome result = RecoveryOutcome.RECOVERY_REQUIRED ∧ output' = output ∧
   ∃ header cs tail, journal_prefix w header cs tail ∧ tail ≠ [] ∧
     RecoveryResult.preservedTailBytes result = tail ∧ contents w' = journalFile header cs).

Lemma recovery_outcome_same expectedRunId output w w0
    (run : checked outOfFuel (RunJournalRecoveryResult * PreparedRunJournalV1) * W) : contents w = contents w0 →
  (∃ result output' w', run = (Ok (result, output'), w') ∧ recovery_outcome expectedRunId output w result output' w') →
  ∃ result output' w', run = (Ok (result, output'), w') ∧ recovery_outcome expectedRunId output w0 result output' w'.
Proof.
  intros Hc (result & output' & w' & Hrun & Ho). exists result, output', w'. split; [done|].
  unfold recovery_outcome, journal_prefix in *. by rewrite <-Hc.
Qed.

Lemma closeAfterFailure_run began error validation systemError tail output w :
  ∃ result w', failWith output (closeAfterFailure began error validation systemError tail) w = (Ok (result, output), w') ∧
    contents w' = contents w ∧ RecoveryResult.preservedTailBytes result = tail ∧
    RecoveryResult.outcome result = if began then RecoveryOutcome.RECOVERY_REQUIRED else RecoveryOutcome.IO_FAILURE.
Proof.
  unfold failWith, closeAfterFailure. destruct (sysClose w) as [r w1] eqn:Hclose.
  unfold mbind at 1, io_bind at 1. erewrite call_run by exact Hclose. apply close_law in Hclose.
  destruct r; eexists _, w1; (split; [reflexivity|]); done.
Qed.

(** The last step, on a file that ends where the loaded journal ends. *)
Lemma prepareWriter_run fuel expectedRunId output w0 w header cs tail validation began :
  journal_prefix w0 header cs tail → contents w = journalFile header cs →
  (∀ run, expectedRunId = Some run → Header.exchangeRunId header = run) →
  (began = false → tail = []) → (began = true → tail ≠ []) → (interrupts w < fuel)%nat →
  ∃ result output' w', prepareWriter fuel output (loadedJournal header cs) validation began tail w =
      (Ok (result, output'), w') ∧ recovery_outcome expectedRunId output w0 result output' w'.
Proof.
  intros Hj Hc Hexp Hfalse Htrue Hf. pose proof Hj as (Hv & Hc0 & _). unfold prepareWriter.
  destruct (seekDescriptor_run (Loaded.validCommittedByteCount (loadedJournal header cs)) ltac:(simpl; lia) fuel w Hf)
    as (failure & w1 & Hrun & Hc1 & _ & Hp). erewrite io_bind_run by exact Hrun. destruct failure as [e|].
  - edestruct (closeAfterFailure_run began RecoveryError.SEEK_FAILED validation e tail output w1)
      as (result & w2 & -> & Hc2 & Htail & Hout). eexists result, output, w2. split; [done|].
    unfold recovery_outcome. rewrite Hout, Hc2, Hc1, Hc0, Hc. destruct began.
    + right; right. split; [done|]. split; [done|]. exists header, cs, tail. split_and!; auto.
    + right; left. rewrite (Hfalse eq_refl), app_nil_r. done.
  - eexists _, _, w1. split; [done|]. left. split; [done|]. eexists header, cs, tail, _. split_and!; try done.
    destruct (valid_journal_counters _ _ Hv) as [_ ?]. pose proof (journalFile_length header cs).
    split; cbn [Writer.header Writer.committedCommandCount Writer.committedByteCount Writer.nextCommandSequence
      Writer.usable loadedJournal Loaded.header Loaded.commands Loaded.validCommittedByteCount]; try done.
    + rewrite wrap64_small; [done|]. unfold is_u64 in *. lia.
    + by rewrite Hc1.
    + rewrite (Hp eq_refl), Hc1, Hc. cbn [loadedJournal Loaded.validCommittedByteCount]. lia.
Qed.

Lemma repairTail_run fuel expectedRunId output w header cs tail :
  journal_prefix w header cs tail → tail ≠ [] →
  (∀ run, expectedRunId = Some run → Header.exchangeRunId header = run) →
  (interrupts w + length (contents w) < fuel)%nat →
  let validation := incompleteTail (Z.of_nat (length (journalFile header cs))) (Z.of_nat (length tail)) in
  ∃ result output' w', repairTail fuel output (loadedJournal header cs) validation w = (Ok (result, output'), w') ∧
    recovery_outcome expectedRunId output w result output' w'.
Proof.
  intros Hj Hne Hexp Hf validation. pose proof Hj as (Hv & Hc & _). pose proof (f_equal length Hc) as Hlen. rewrite length_app in Hlen.
  unfold repairTail. cbn [loadedJournal Loaded.validCommittedByteCount validation incompleteTail LoadResult.tailLength].
  fold (incompleteTail (Z.of_nat (length (journalFile header cs))) (Z.of_nat (length tail))). fold validation.
  fold (loadedJournal header cs). rewrite Nat2Z.id. set (committedEnd := Z.of_nat (length (journalFile header cs))).
  assert (Hfail : ∀ w1 error e, contents w1 = contents w →
    ∃ result output' w', failWith output (closeAfterFailure false error validation e []) w1 = (Ok (result, output'), w') ∧
      recovery_outcome expectedRunId output w result output' w').
  { intros w1 error e Hc1. edestruct (closeAfterFailure_run false error validation e [] output w1)
      as (result & w2 & -> & Hc2 & _ & Hout). eexists result, output, w2. split; [done|]. right; left.
    rewrite Hout, Hc2, Hc1. done. }
  destruct (seekDescriptor_run committedEnd ltac:(lia) fuel w ltac:(lia)) as (failure & w1 & Hrun & Hc1 & Hi1 & Hp1).
  erewrite io_bind_run by exact Hrun. destruct failure as [e|]; [by apply Hfail|].
  destruct (readWhole_run (length tail) fuel [] w1) as (r & w2 & Hread & Hc2 & Hi2 & Hdata); [simpl; lia|].
  erewrite io_bind_run by exact Hread. destruct r as [e|data]; [apply Hfail; by rewrite Hc2|].
  assert (data = tail) as ->.
  { rewrite Hdata. unfold unread. rewrite (Hp1 eq_refl), Hc1, Hc. unfold committedEnd.
    rewrite Nat2Z.id, drop_app_length, Nat.sub_0_r. by rewrite firstn_all. }
  destruct (sysTruncate committedEnd w2) as [r w3] eqn:Htr. erewrite call_run by exact Htr.
  apply truncate_law in Htr as [Hi3 Htr]; [|lia].
  destruct r as [v|e].
  2:{ edestruct (closeAfterFailure_run true RecoveryError.TRUNCATE_FAILED validation e tail output w3)
        as (result & w4 & -> & Hc4 & _ & Hout). eexists result, output, w4. split; [done|]. right; left.
      rewrite Hout, Hc4, Htr, Hc2, Hc1. done. }
  destruct Htr as [_ Hc3]. rewrite Hc2, Hc1, Hc in Hc3. unfold committedEnd in Hc3. rewrite Nat2Z.id, take_app_length in Hc3.
  destruct (syncLoop_run fuel w3 ltac:(lia)) as (failure & w4 & Hsync & Hc4 & _ & Hi4). unfold syncDescriptor.
  erewrite io_bind_run by exact Hsync. destruct failure as [e|].
  - edestruct (closeAfterFailure_run true RecoveryError.SYNC_FAILED validation e tail output w4)
      as (result & w5 & -> & Hc5 & Htail & Hout). eexists result, output, w5. split; [done|]. right; right.
    rewrite Hout, Hc5, Hc4, Hc3. split; [done|]. split; [done|]. by exists header, cs, tail.
  - eapply prepareWriter_run; [done|by rewrite Hc4|done|done|done|lia].
Qed.
(** Reloading after an append. *)
Lemma reload_journal header cs : valid_journal header cs →
  ∃ validation, parseJournal (journalFile header cs) = Ok (validation, loadedJournal header cs) ∧
    replacesOutput validation = true.
Proof.
  intros Hv. exists (loadResult LoadOutcome.VALID LoadError.NONE).
  rewrite <-(app_nil_r (journalFile header cs)), parseJournal_file by done. done.
Qed.

Lemma append_reload header cs c writer w result writer' w' :
  writer_ok header cs writer w → append_outcome header cs c writer w result writer' w' →
  ∃ validation cs', parseJournal (contents w') = Ok (validation, loadedJournal header cs') ∧
    replacesOutput validation = true ∧ (cs' = cs ∨ cs' = cs ++ [c]).
Proof.
  intros Hok Ho. pose proof (wo_valid _ _ _ _ Hok) as Hv. unfold append_outcome in Ho.
  destruct (AppendResult.outcome result).
  - destruct Ho as [Hv' Hok']. rewrite (wo_contents _ _ _ _ Hok').
    destruct (reload_journal header _ Hv') as (validation & ? & ?). exists validation, (cs ++ [c]). auto.
  - destruct Ho as (_ & _ & ->). rewrite (wo_contents _ _ _ _ Hok).
    destruct (reload_journal header _ Hv) as (validation & ? & ?). exists validation, cs. auto.
  - destruct Ho as (_ & _ & _ & ->). rewrite (wo_contents _ _ _ _ Hok).
    destruct (reload_journal header _ Hv) as (validation & ? & ?). exists validation, cs. auto.
  - destruct Ho as (_ & _ & ->). destruct (reload_journal header _ Hv) as (validation & ? & ?). exists validation, cs. auto.
  - destruct Ho as (Hv' & _ & k & Hk & ->). destruct (decide (k = length (commandFrame c))) as [->|Hne].
    + rewrite firstn_all. destruct (reload_journal header _ Hv') as (validation & Hp & ?).
      exists validation, (cs ++ [c]). split; [|auto]. rewrite <-Hp, journalFile_app, commandsBytes_cons.
      unfold commandsBytes. simpl. by rewrite app_nil_r.
    + exists (incompleteTail (Z.of_nat (length (journalFile header cs))) (Z.of_nat k)), cs.
      split; [|auto]. apply parse_torn; [done|lia].
Qed.

Lemma prepare_run fuel output expectedRunId w :
  (interrupts w + length (contents w) + 1 < fuel)%nat →
  ∃ result output' w', prepareRunJournalV1 fuel output expectedRunId w = (Ok (result, output'), w') ∧
    recovery_outcome expectedRunId output w result output' w'.
Proof.
  intros Hf. unfold prepareRunJournalV1.
  destruct (openFile_run true fuel w ltac:(lia)) as (r & w1 & Hrun & Hc1 & Hi1 & Hp). erewrite io_bind_run by exact Hrun.
  destruct r as [d|e].
  2:{ case_bool_decide; eexists _, output, w1; (split; [done|]); right; left; done. }
  assert (Hu : unread w1 = contents w) by (unfold unread; by rewrite Hp, drop_0).
  destruct (loadFromDescriptor_run fuel emptyLoaded w1) as (validation & decoded & w2 & Hload & Hc2 & Hi2 & Hres).
  { rewrite Hu. lia. }
  erewrite io_bind_run by exact Hload. cbn match. rewrite Hu in Hres. rewrite Hc1 in Hc2.
  set (loaded := if replacesOutput validation then decoded else emptyLoaded) in *.
  set (checked := checkExpectedRun expectedRunId validation loaded).
  destruct (replacesOutput checked) eqn:Hrep; cbn [negb].
  2:{ destruct (sysClose w2) as [closed w3] eqn:Hclose. erewrite call_run by exact Hclose. apply close_law in Hclose.
      destruct closed; eexists _, output, w3; (split; [reflexivity|]); right; left;
        (split; [simpl; by repeat case_bool_decide|]); (split; [done|]); by rewrite Hclose, Hc2. }
  assert (Hsame : checked = validation ∧ ∀ run, expectedRunId = Some run → Header.exchangeRunId (Loaded.header loaded) = run).
  { unfold checked, checkExpectedRun in Hrep |- *. destruct expectedRunId as [run|]; [|done].
    destruct (replacesOutput validation) eqn:E; cbn [andb] in *; [|congruence].
    case_bool_decide; [done|]. split; [done|]. intros ? [= <-]. done. }
  destruct Hsame as [Hsame Hexp]. rewrite Hsame in *. clear Hsame checked. unfold loaded in *. clear loaded.
  rewrite Hrep in *.
  destruct Hres as [(e & _ & ->)|Hparse]; [done|].
  pose proof Hparse as Hloaded. apply parse_accepts in Hparse as (header & cs & tail & Hv & Hfile & -> & Hparsed); [|done].
  assert (Hj : journal_prefix w2 header cs tail).
  { unfold journal_prefix. rewrite Hc2. split; [done|]. split; [done|]. by exists validation. }
  case_bool_decide as Hlarge.
  { edestruct closeAfterFailure_run as (result & w3 & -> & Hc3 & _ & Hout). eexists result, output, w3.
    split; [done|]. right; left. rewrite Hout, Hc3, Hc2. done. }
  pose proof (f_equal length Hfile) as Hlen. rewrite length_app in Hlen.
  apply (recovery_outcome_same expectedRunId output w2 w); [done|].
  destruct Hparsed as [[-> ->]|[Hne ->]]; [rewrite bool_decide_eq_false_2 by done|rewrite bool_decide_eq_true_2 by done].
  - rewrite app_nil_r in Hfile. eapply prepareWriter_run; try done; [by rewrite Hc2|lia].
  - apply repairTail_run; try done. rewrite Hc2. lia.
Qed.

(** ** The properties *)

(** C11: appending a command to a journal, with any transfers, terminates with one
    of the writer's outcomes, and each means what it says.  [COMMITTED]: the file
    is the journal extended by the command and the writer's counters follow.
    [INVALID_COMMAND]: the command does not fit its place (sequence, run, rules,
    instrument, field values) and nothing was written.  [CAPACITY_REACHED]: it
    fits, but the extended journal would exceed the header's limits; nothing was
    written.  [IO_FAILURE] or [RECOVERY_REQUIRED]: the file holds the journal and
    a prefix of the frame, none of it for [IO_FAILURE], and the writer is disabled.
    In every case reloading the file yields the old commands or these and the
    new one. *)
Theorem append_outcomes fuel header cs writer c w :
  writer_ok header cs writer w → representable c → (interrupts w + 256 < fuel)%nat →
  ∃ result writer' w', append fuel writer c w = (Ok (result, writer'), w') ∧
    append_outcome header cs c writer w result writer' w' ∧
    ∃ validation cs', parseJournal (contents w') = Ok (validation, loadedJournal header cs') ∧
      replacesOutput validation = true ∧ (cs' = cs ∨ cs' = cs ++ [c]).
Proof.
  intros Hok Hr Hf. destruct (append_run header cs writer w c fuel Hok Hr Hf) as (result & writer' & w' & Hrun & Ho & _).
  exists result, writer', w'. split; [done|]. split; [done|]. by apply (append_reload _ _ _ _ _ _ _ _ Hok Ho).
Qed.

(** C12: recovering any file, of any contents and with any transfers, terminates
    with one of three outcomes.  [PREPARED]: the file was the journal of some
    commands followed by a tail; exactly the tail was cut off and handed back,
    the loaded journal is these commands, the writer stands at the file's end
    with the matching counters and next sequence, and the run is the expected
    one.  A failure that leaves output and file as they were.  Or
    [RECOVERY_REQUIRED] after the tail was cut: the tail's bytes are handed back
    and the file is the journal without it.  A complete command is never lost. *)
Theorem recovery_is_safe fuel output expectedRunId w :
  (interrupts w + length (contents w) + 1 < fuel)%nat →
  ∃ result output' w', prepareRunJournalV1 fuel output expectedRunId w = (Ok (result, output'), w') ∧
    recovery_outcome expectedRunId output w result output' w'.
Proof. apply prepare_run. Qed.

End recovering.

(** The commands loaded from a file extend a journal that the file starts with. *)
Lemma loaded_extends header cs rest file validation header' cs' : valid_journal header cs →
  file = journalFile header cs ++ rest → parseJournal file = Ok (validation, loadedJournal header' cs') →
  replacesOutput validation = true → header' = header ∧ cs `prefix_of` cs'.
Proof.
  intros Hv -> Hp Hr. rewrite parseJournal_file in Hp by done.
  apply parseCommands_inv in Hp as (more & tail & _ & _ & Heq & _); [|done|done].
  injection Heq as -> -> _. split; [done|]. by apply prefix_app_r.
Qed.

(** ** What stays on stable storage *)
Section durable.
Context {W : Type} `{DurableFile W}.
Implicit Types w : W.

(** The first [k] bytes stay stable. *)
Definition keeps (k : nat) (w w' : W) : Prop := (k ≤ stable w)%nat → (k ≤ stable w')%nat.
#[local] Instance keeps_preorder k : PreOrder (keeps k).
Proof. split; unfold keeps; intros ?; auto. Qed.

Lemma keeps_call {A} k (f : W → A * W) :
  (∀ w a w', f w = (a, w') → (stable w ≤ stable w')%nat) → respects (keeps k) (call f).
Proof. intros Hf. apply respects_call. intros w a w' E%Hf ?. lia. Qed.

Lemma keeps_truncate k len : (k ≤ Z.to_nat len)%nat → respects (keeps k) (call (sysTruncate len)).
Proof. intros ?. apply respects_call. intros w r w' E%stable_truncate ?. lia. Qed.

Lemma keeps_sync k : respects (keeps k) (call sysSync).
Proof. apply keeps_call. intros w r w' E%stable_sync. by destruct E. Qed.
Lemma keeps_seek k offset : respects (keeps k) (call (sysSeek offset)).
Proof. apply keeps_call, stable_seek. Qed.
Lemma keeps_read k size : respects (keeps k) (call (sysRead size)).
Proof. apply keeps_call, stable_read. Qed.
Lemma keeps_open k writing : respects (keeps k) (call (sysOpen writing)).
Proof. apply keeps_call, stable_open. Qed.
Lemma keeps_close k : respects (keeps k) (call sysClose).
Proof. apply keeps_call, stable_close. Qed.
#[local] Hint Resolve keeps_sync keeps_seek keeps_read keeps_open keeps_close : respects.

(** A sync that succeeds puts the whole file on stable storage. *)
Lemma syncLoop_synced fuel : ∀ w w', syncLoop fuel w = (Ok None, w') → stable w' = length (contents w').
Proof.
  induction fuel as [|fuel IH]; intros w w' E; [done|]. cbn [syncLoop] in E.
  apply io_bind_inv in E as (r & w1 & Hs%call_inv & E). destruct r as [v|e].
  - case_bool_decide as Hv; [done|]. injection E as <-. subst v. by apply stable_sync in Hs as [_ ->].
  - case_bool_decide; [by eapply IH|done].
Qed.

Lemma writeLoop_keeps k fuel frame : ∀ n w r w', writeLoop fuel frame n w = (r, w') →
  (k ≤ stable w)%nat → (k ≤ position w)%nat → (k ≤ stable w')%nat.
Proof.
  induction fuel as [|fuel IH]; intros n w r w' E Hk Hp; [by injection E as <- <-|]. cbn [writeLoop] in E.
  case_bool_decide as Hlt; [|by injection E as <- <-].
  destruct (sysWrite (drop n frame) w) as [o w1] eqn:Hw. erewrite call_run in E by exact Hw.
  pose proof (stable_write _ _ _ _ Hw). apply write_law in Hw; [|intros D%(f_equal length); rewrite length_drop in D; simpl in D; lia].
  assert ((k ≤ stable w1)%nat) by lia. assert ((k ≤ position w1)%nat) by (destruct o; lia).
  destruct o; (case_match; [by eapply IH|by injection E as <- <-]).
Qed.

(** Appending leaves what lies before the writer's position, and a command is
    committed only on stable storage. *)
Lemma append_stable k fuel writer c w result writer' w' : append fuel writer c w = (Ok (result, writer'), w') →
  (k ≤ stable w)%nat → (k ≤ position w)%nat →
  (k ≤ stable w')%nat ∧
  (AppendResult.outcome result = AppendOutcome.COMMITTED → stable w' = length (contents w')).
Proof.
  unfold append. intros E Hk Hp. destruct (negb _); [by injection E as <- <- <-|].
  destruct (validateCommandContext writer c); try by injection E as <- <- <-.
  apply io_bind_inv in E as (frame & w1 & Hd & E).
  assert (w1 = w) as -> by (unfold decided in Hd; by destruct (encodeCommand c); injection Hd).
  destruct frame as [e|frame]; [by injection E as <- <- <-|]. unfold appendEncoded in E.
  case_bool_decide; [by injection E as <- <- <-|]. case_bool_decide; [by injection E as <- <- <-|].
  apply io_bind_inv in E as ([n failure] & w1 & Hw & E). apply (writeLoop_keeps k) in Hw; [|done..].
  destruct failure as [e|]; [injection E as <- <- <-; split; [done|]; by simpl; case_bool_decide|].
  apply io_bind_inv in E as (failure & w2 & Hs & E).
  assert (keeps k w1 w2) as Hkeep by (eapply respects_syncLoop in Hs; eauto with respects). specialize (Hkeep Hw).
  destruct failure; injection E as <- <- <-; [done|]. split; [done|]. intros _. by eapply syncLoop_synced.
Qed.

(** A recovery that cut off a tail has synced the file. *)
Lemma seekDescriptor_synced fuel offset w failure w' : 0 ≤ offset → seekDescriptor fuel offset w = (Ok failure, w') →
  stable w = length (contents w) → stable w' = length (contents w').
Proof.
  intros Hoff E. revert w w' E. induction fuel as [|fuel IH]; intros w w' E Hw; [done|]. cbn [seekDescriptor] in E.
  apply io_bind_inv in E as (r & w1 & Hs%call_inv & E). pose proof (stable_seek _ _ _ _ Hs).
  apply seek_law in Hs as [Hc _]; [|done]. pose proof (stable_bound w1).
  assert (stable w1 = length (contents w1)) by (rewrite Hc in *; lia).
  destruct r as [v|e]; [by injection E as <- <-|]. case_bool_decide; [by eapply IH|by injection E as <- <-].
Qed.

Lemma closeAfterFailure_outcome output began error validation systemError tail w result output' w' :
  failWith output (closeAfterFailure began error validation systemError tail) w = (Ok (result, output'), w') →
  RecoveryResult.outcome result ≠ RecoveryOutcome.PREPARED.
Proof.
  unfold failWith, closeAfterFailure. intros (r & w1 & (o & w2 & _ & E)%io_bind_inv & E')%io_bind_inv.
  injection E' as <- <- <-. destruct o, began; by injection E as <- <-.
Qed.

Lemma prepareWriter_synced fuel output loaded validation began tail w result output' w' :
  0 ≤ Loaded.validCommittedByteCount loaded →
  prepareWriter fuel output loaded validation began tail w = (Ok (result, output'), w') →
  RecoveryResult.outcome result = RecoveryOutcome.PREPARED →
  RecoveryResult.preservedTailBytes result = tail ∧
  (stable w = length (contents w) → stable w' = length (contents w')).
Proof.
  unfold prepareWriter. intros ? (failure & w1 & Hs & E)%io_bind_inv Ho.
  destruct failure; [by apply closeAfterFailure_outcome in E|]. injection E as <- <- <-. split; [done|].
  by eapply seekDescriptor_synced.
Qed.

Lemma repairTail_synced fuel output loaded validation w result output' w' :
  0 ≤ Loaded.validCommittedByteCount loaded →
  repairTail fuel output loaded validation w = (Ok (result, output'), w') →
  RecoveryResult.outcome result = RecoveryOutcome.PREPARED → stable w' = length (contents w').
Proof.
  unfold repairTail, syncDescriptor. intros ? (failure & w1 & _ & E)%io_bind_inv Ho.
  destruct failure; [by apply closeAfterFailure_outcome in E|]. apply io_bind_inv in E as (tail & w2 & _ & E).
  destruct tail as [e|tail]; [by apply closeAfterFailure_outcome in E|]. apply io_bind_inv in E as (r & w3 & _ & E).
  destruct r; [|by apply closeAfterFailure_outcome in E]. apply io_bind_inv in E as (failure & w4 & Hs & E).
  destruct failure; [by apply closeAfterFailure_outcome in E|]. apply prepareWriter_synced in E as [_ E]; [|done..].
  apply E. by eapply syncLoop_synced.
Qed.
Lemma keeps_openFile k fuel writing : respects (keeps k) (openFile fuel writing).
Proof. apply respects_openFile; auto with respects typeclass_instances. Qed.
Lemma keeps_load k fuel output : respects (keeps k) (loadRunJournalV1FromDescriptorWithHooks fuel output).
Proof. apply respects_load; auto with respects typeclass_instances. Qed.
Lemma keeps_closeAfterFailure k output began error validation systemError tail :
  respects (keeps k) (failWith output (closeAfterFailure began error validation systemError tail)).
Proof. unfold failWith, closeAfterFailure. respect. Qed.
Lemma keeps_prepareWriter k fuel output loaded validation began tail :
  respects (keeps k) (prepareWriter fuel output loaded validation began tail).
Proof. apply respects_prepareWriter; auto with respects typeclass_instances. Qed.
Lemma keeps_repairTail k fuel output loaded validation : (k ≤ Z.to_nat (Loaded.validCommittedByteCount loaded))%nat →
  respects (keeps k) (repairTail fuel output loaded validation).
Proof. intros ?. apply respects_repairTail; auto using keeps_truncate with respects typeclass_instances. Qed.

(** Recovery cuts nothing off a journal that the file starts with. *)
Lemma prepare_stable header cs rest fuel output expected w result output' w' :
  valid_journal header cs → contents w = journalFile header cs ++ rest →
  (length (journalFile header cs) ≤ stable w)%nat → (interrupts w + length (contents w) + 1 < fuel)%nat →
  prepareRunJournalV1 fuel output expected w = (Ok (result, output'), w') →
  (length (journalFile header cs) ≤ stable w')%nat ∧
  (RecoveryResult.outcome result = RecoveryOutcome.PREPARED → RecoveryResult.preservedTailBytes result ≠ [] →
   stable w' = length (contents w')).
Proof.
  intros Hv Hc Hk Hf E. unfold prepareRunJournalV1 in E.
  destruct (openFile_run true fuel w ltac:(lia)) as (r & w1 & Hrun & Hc1 & Hi1 & Hp).
  pose proof (keeps_openFile _ _ _ _ _ _ Hrun Hk) as Hk1.
  erewrite io_bind_run in E by exact Hrun. destruct r as [d|e].
  2:{ case_bool_decide; injection E as <- <- <-; by split. }
  assert (Hu : unread w1 = contents w) by (unfold unread; by rewrite Hp, drop_0).
  destruct (loadFromDescriptor_run fuel emptyLoaded w1) as (validation & decoded & w2 & Hload & Hc2 & _ & Hres).
  { rewrite Hu. lia. }
  pose proof (keeps_load _ _ _ _ _ _ Hload Hk1) as Hk2.
  erewrite io_bind_run in E by exact Hload. cbn match in E. rewrite Hu in Hres.
  destruct (replacesOutput (checkExpectedRun _ _ _)) eqn:Hrep; cbn [negb] in E.
  2:{ apply io_bind_inv in E as (closed & w3 & Hclose%call_inv & E). apply stable_close in Hclose.
      destruct closed; injection E as <- <- <-; (split; [lia|]); simpl; [by case_bool_decide|done]. }
  assert (Hsame : replacesOutput validation = true).
  { unfold checkExpectedRun in Hrep. destruct expected; [|done].
    destruct (replacesOutput validation) eqn:Er; [done|]. simpl in Hrep. congruence. }
  rewrite Hsame in *. destruct Hres as [(e & _ & ->)|Hparse]; [done|].
  pose proof Hparse as Hloaded. apply parse_accepts in Hparse as (header' & cs' & tail & _ & _ & -> & _); [|done].
  destruct (loaded_extends _ _ _ _ _ _ _ Hv Hc Hloaded Hsame) as [-> [more ->]].
  assert (Hpos : 0 ≤ Loaded.validCommittedByteCount (loadedJournal header (cs ++ more))) by (simpl; lia).
  assert (Hlen : (length (journalFile header cs) ≤
    Z.to_nat (Loaded.validCommittedByteCount (loadedJournal header (cs ++ more))))%nat).
  { cbn [loadedJournal Loaded.validCommittedByteCount]. rewrite Nat2Z.id, journalFile_app, length_app. lia. }
  case_bool_decide.
  { split; [by eapply keeps_closeAfterFailure|]. intros Ho. by apply closeAfterFailure_outcome in E. }
  case_bool_decide.
  - split; [|intros ? _; by eapply repairTail_synced].
    by eapply keeps_repairTail.
  - split; [|intros Ho Ht; apply prepareWriter_synced in E as [Hempty _]; by rewrite ?Hempty in Ht].
    by eapply keeps_prepareWriter.
Qed.

(** ** Sessions *)

(** A run of the exchange as its journal sees it: the commands it has promised to
    keep, the commands its writer counts as committed, the writer while it has one,
    and the file. *)
Record session := mkSession {
  acknowledged : list JournalCommandV1;
  journaled : list JournalCommandV1;
  session_writer : option RunJournalWriterV1;
  session_world : W }.

(** A command is promised when its append reports [COMMITTED], and a recovery that
    repaired the file promises what it loaded: it has synced it.  A recovery that
    found nothing to repair syncs nothing, and promises no more than before. *)
Inductive session_step : session → session → Prop :=
  | step_append acked cs writer w fuel c result writer' w' :
      representable c → (interrupts w + 256 < fuel)%nat →
      append fuel writer c w = (Ok (result, writer'), w') →
      session_step (mkSession acked cs (Some writer) w)
        (if bool_decide (AppendResult.outcome result = AppendOutcome.COMMITTED)
         then mkSession (cs ++ [c]) (cs ++ [c]) (Some writer') w' else mkSession acked cs (Some writer') w')
  | step_killed acked cs writer w w' :
      killed w w' → session_step (mkSession acked cs writer w) (mkSession acked cs None w')
  | step_power_loss acked cs writer w w' :
      power_loss w w' → session_step (mkSession acked cs writer w) (mkSession acked cs None w')
  | step_recover acked cs w fuel expectedRunId result output journal writer w' :
      (interrupts w + length (contents w) + 1 < fuel)%nat →
      prepareRunJournalV1 fuel output expectedRunId w = (Ok (result, mkPrepared journal (Some writer)), w') →
      RecoveryResult.outcome result = RecoveryOutcome.PREPARED →
      session_step (mkSession acked cs None w)
        (mkSession (if bool_decide (RecoveryResult.preservedTailBytes result = []) then acked else Loaded.commands journal)
           (Loaded.commands journal) (Some writer) w')
  | step_recover_fails acked cs w fuel expectedRunId result output output' w' :
      (interrupts w + length (contents w) + 1 < fuel)%nat →
      prepareRunJournalV1 fuel output expectedRunId w = (Ok (result, output'), w') →
      RecoveryResult.outcome result ≠ RecoveryOutcome.PREPARED →
      session_step (mkSession acked cs None w) (mkSession acked cs None w').

(** The file starts with the journal of the promised commands, all of it on stable
    storage, and a usable writer stands behind the commands it counts. *)
Record session_ok (header : RunHeaderV1) (s : session) : Prop := {
  so_valid : valid_journal header (acknowledged s);
  so_file : ∃ rest, contents (session_world s) = journalFile header (acknowledged s) ++ rest;
  so_stable : (length (journalFile header (acknowledged s)) ≤ stable (session_world s))%nat;
  so_writer : ∀ writer, session_writer s = Some writer → Writer.usable writer = true →
    acknowledged s `prefix_of` journaled s ∧ writer_ok header (journaled s) writer (session_world s) }.

Lemma writer_ok_session header acked cs writer w : writer_ok header cs writer w → acked `prefix_of` cs →
  (length (journalFile header acked) ≤ stable w)%nat → session_ok header (mkSession acked cs (Some writer) w).
Proof.
  intros Hok [more ->] Hs. split; cbn [acknowledged journaled session_world session_writer]; [by eapply valid_journal_prefix, Hok| |done|].
  - exists (commandsBytes more). rewrite <-journalFile_app. by apply wo_contents in Hok.
  - intros ? [= <-] _. split; [by apply prefix_app_r|done].
Qed.

Lemma unusable_session header acked cs writer w rest : valid_journal header acked →
  contents w = journalFile header acked ++ rest → (length (journalFile header acked) ≤ stable w)%nat →
  (∀ wr, writer = Some wr → Writer.usable wr = false) → session_ok header (mkSession acked cs writer w).
Proof.
  intros ? Hc ? Hu. split; cbn [acknowledged journaled session_world session_writer]; [done|by exists rest|done|]. intros wr ? ?. by rewrite (Hu wr) in *.
Qed.

(** A loss of power keeps the promised commands. *)
Lemma power_loss_keeps header cs rest w w' : contents w = journalFile header cs ++ rest →
  (length (journalFile header cs) ≤ stable w)%nat → power_loss w w' →
  (∃ rest', contents w' = journalFile header cs ++ rest') ∧ (length (journalFile header cs) ≤ stable w')%nat.
Proof.
  intros Hc Hs [Ht Hle]. split; [|lia]. exists (drop (length (journalFile header cs)) (contents w')).
  rewrite <-(take_drop (length (journalFile header cs)) (contents w')) at 1. f_equal.
  apply (f_equal (take (length (journalFile header cs)))) in Ht. rewrite !take_take, Nat.min_l in Ht by done.
  by rewrite Ht, Hc, take_app_length.
Qed.

Lemma killed_power_loss w w' : killed w w' → power_loss w w'.
Proof. intros [Hc ?]. split; [by rewrite Hc|done]. Qed.

(** ** Steps *)
Lemma append_session header acked cs writer w fuel c result writer' w' :
  representable c → (interrupts w + 256 < fuel)%nat → append fuel writer c w = (Ok (result, writer'), w') →
  session_ok header (mkSession acked cs (Some writer) w) →
  let s' := if bool_decide (AppendResult.outcome result = AppendOutcome.COMMITTED)
            then mkSession (cs ++ [c]) (cs ++ [c]) (Some writer') w' else mkSession acked cs (Some writer') w' in
  session_ok header s' ∧ acked `prefix_of` acknowledged s'.
Proof.
  intros Hrep Hf Hrun [Hv [rest Hc] Hs Hw]. cbn [acknowledged journaled session_writer session_world] in *.
  destruct (Writer.usable writer) eqn:Hu.
  2:{ unfold append in Hrun. rewrite Hu in Hrun. injection Hrun as <- <- <-. rewrite bool_decide_eq_false_2 by done.
      split; [|done]. by apply (unusable_session header acked cs (Some writer) w rest); [..|intros ? [= <-]]. }
  destruct (Hw writer eq_refl Hu) as [Hpre Hok].
  destruct (append_run header cs writer w c fuel Hok Hrep Hf) as (r & wr & w1 & Hrun' & Ho & _).
  rewrite Hrun in Hrun'. injection Hrun' as <- <- <-.
  apply (append_stable (length (journalFile header acked))) in Hrun as [Hs' Hsync]; [|done|].
  2:{ rewrite (wo_position _ _ _ _ Hok), Hc, length_app. lia. }
  destruct Hpre as [more ->].
  assert (Hpast : ∀ k, journalFile header (acked ++ more) ++ k = journalFile header acked ++ commandsBytes more ++ k).
  { intros k. by rewrite journalFile_app, app_assoc. }
  unfold append_outcome in Ho. pose proof (wo_valid _ _ _ _ Hok) as Hvalid.
  destruct (AppendResult.outcome result); [rewrite bool_decide_eq_true_2 by done|rewrite bool_decide_eq_false_2 by done..].
  - destruct Ho as [_ Hok']. split; [|simpl; rewrite <-app_assoc; by apply prefix_app_r].
    apply writer_ok_session; [done|done|]. rewrite (Hsync eq_refl), (wo_contents _ _ _ _ Hok'). done.
  - destruct Ho as (_ & -> & ->). split; [|done]. apply writer_ok_session; [done|by apply prefix_app_r|done].
  - destruct Ho as (_ & _ & -> & ->). split; [|done]. apply writer_ok_session; [done|by apply prefix_app_r|done].
  - destruct Ho as (_ & Hu' & Hc'). split; [|done].
    apply (unusable_session _ _ _ _ _ (commandsBytes more)); [done|by rewrite Hc', journalFile_app|done|by intros ? [= <-]].
  - destruct Ho as (_ & Hu' & k & _ & Hc'). split; [|done].
    eapply unusable_session; [done|by rewrite Hc', Hpast|done|by intros ? [= <-]].
Qed.

Lemma recover_session header acked cs w fuel expected result output output' w' :
  (interrupts w + length (contents w) + 1 < fuel)%nat →
  prepareRunJournalV1 fuel output expected w = (Ok (result, output'), w') →
  session_ok header (mkSession acked cs None w) →
  (RecoveryResult.outcome result = RecoveryOutcome.PREPARED →
   let loaded := Loaded.commands (prepared_journal output') in
   session_ok header (mkSession (if bool_decide (RecoveryResult.preservedTailBytes result = []) then acked else loaded)
     loaded (prepared_writer output') w') ∧ acked `prefix_of` loaded) ∧
  (RecoveryResult.outcome result ≠ RecoveryOutcome.PREPARED → session_ok header (mkSession acked cs None w')).
Proof.
  intros Hf Hrun [Hv [rest Hc] Hs _]. cbn [acknowledged session_world] in *.
  destruct (prepare_stable header acked rest fuel output expected w result output' w' Hv Hc Hs Hf Hrun) as [Hs' Hsync].
  destruct (prepare_run fuel output expected w Hf) as (r & o & w1 & Hrun' & Ho). rewrite Hrun in Hrun'.
  injection Hrun' as <- <- <-. split; intros Hout.
  - destruct Ho as [(_ & header' & cs' & tail & wr & (_ & _ & validation & Hr & Hp) & _ & Hok & _ & ->)|[[? _]|[Hrec _]]];
      [|done|by rewrite Hrec in Hout].
    destruct (loaded_extends _ _ _ _ _ _ _ Hv Hc Hp Hr) as [-> Hpre]. simpl. split; [|done].
    case_bool_decide as Ht; [by apply writer_ok_session|]. apply writer_ok_session; [done|done|].
    rewrite (Hsync Hout Ht), (wo_contents _ _ _ _ Hok). done.
  - destruct Ho as [[? _]|[(_ & _ & Hc')|(_ & _ & header' & cs' & tail & (_ & _ & validation & Hr & Hp) & _ & _ & Hc')]].
    + done.
    + by apply (unusable_session _ _ _ _ _ rest); [|rewrite Hc'|..].
    + destruct (loaded_extends _ _ _ _ _ _ _ Hv Hc Hp Hr) as [-> [more ->]].
      apply (unusable_session _ _ _ _ _ (commandsBytes more)); [done|by rewrite Hc', journalFile_app|done|done].
Qed.

Lemma session_step_ok header s s' : session_step s s' → session_ok header s →
  session_ok header s' ∧ acknowledged s `prefix_of` acknowledged s'.
Proof.
  destruct 1 as [acked cs writer w fuel c result writer' w' Hrep Hf Hrun|acked cs writer w w' Hkill|acked cs writer w w' Hloss
    |acked cs w fuel expected result output journal writer w' Hf Hrun Hprep
    |acked cs w fuel expected result output output' w' Hf Hrun Hprep]; intros Hs; cbn [acknowledged].
  - by eapply append_session.
  - destruct Hs as [Hv [rest Hc] Hst _]. split; [|done].
    destruct (power_loss_keeps header acked rest w w' Hc Hst (killed_power_loss _ _ Hkill)) as [[rest' ?] ?].
    by apply (unusable_session _ _ _ _ _ rest').
  - destruct Hs as [Hv [rest Hc] Hst _]. split; [|done].
    destruct (power_loss_keeps header acked rest w w' Hc Hst Hloss) as [[rest' ?] ?].
    by apply (unusable_session _ _ _ _ _ rest').
  - destruct (recover_session _ _ _ _ _ _ _ _ _ _ Hf Hrun Hs) as [[Hok Hpre] _]; [done|]. split; [done|].
    simpl in *. by case_bool_decide.
  - destruct (recover_session _ _ _ _ _ _ _ _ _ _ Hf Hrun Hs) as [_ Hok]. split; [by apply Hok|done].
Qed.

(** C13: an acknowledged command survives the process and the machine.  Over any
    sequence of appends (of any commands, succeeding or failing anywhere), kills of
    the process, losses of power (which leave of the file what a sync has put on
    stable storage, and anything at all after it) and recoveries (succeeding or
    failing anywhere), the acknowledged commands only grow at their end; the file
    always starts with their journal, and all of it is on stable storage; and
    whatever commands a later load or recovery accepts start with them, under the
    same header.  Acknowledged are the commands whose append was [COMMITTED], with
    all that were journaled before them, and those a recovery loaded that had to
    repair the file. *)
Theorem acknowledged_commands_survive header s s' :
  rtc session_step s s' → session_ok header s →
  session_ok header s' ∧ acknowledged s `prefix_of` acknowledged s' ∧
  ∀ validation header' cs, parseJournal (contents (session_world s')) = Ok (validation, loadedJournal header' cs) →
    replacesOutput validation = true → header' = header ∧ acknowledged s' `prefix_of` cs.
Proof.
  intros Hsteps Hs. assert (session_ok header s' ∧ acknowledged s `prefix_of` acknowledged s') as [Hs' Hpre].
  { induction Hsteps as [s|s1 s2 s3 Hstep _ IH]; [done|]. destruct (session_step_ok header s1 s2 Hstep Hs) as [Hs2 Hp].
    destruct (IH Hs2) as [Hs3 Hp']. split; [done|]. by trans (acknowledged s2). }
  split; [done|]. split; [done|]. destruct Hs' as [Hv [rest Hc] _ _]. intros. by eapply loaded_extends.
Qed.
End durable.

(** ** Witnesses *)
Definition demoWriter : RunJournalWriterV1 := newWriter demoHeader (Z.of_nat (length (headerFrame demoHeader))).

(** A file with only the header, whose next calls are interrupted and short. *)
Definition demoEmptyFile : ScheduledFile :=
  mkScheduledFile (journalFile demoHeader []) (length (journalFile demoHeader [])) [Interrupted; Short 5; Interrupted].

Lemma demo_writer_ok : writer_ok demoHeader [] demoWriter demoEmptyFile.
Proof.
  split; try reflexivity. apply (valid_journal_prefix demoHeader [] demoJournal), demo_journal_valid.
Qed.

Lemma demo_representable : representable (JournalNew demoOrder1).
Proof. repeat split; vm_compute; discriminate || reflexivity || lia. Qed.

Lemma append_outcomes_witness :
  ∃ result writer' w', append 400 demoWriter (JournalNew demoOrder1) demoEmptyFile = (Ok (result, writer'), w') ∧
    append_outcome demoHeader [] (JournalNew demoOrder1) demoWriter demoEmptyFile result writer' w' ∧
    ∃ validation cs', parseJournal (contents w') = Ok (validation, loadedJournal demoHeader cs') ∧
      replacesOutput validation = true ∧ (cs' = [] ∨ cs' = [JournalNew demoOrder1]).
Proof.
  apply (append_outcomes 400 demoHeader [] demoWriter (JournalNew demoOrder1) demoEmptyFile).
  - apply demo_writer_ok.
  - apply demo_representable.
  - vm_compute. lia.
Defined.

(** The same append with a write that fails after six bytes. *)
Example demo_torn_append :
  (append 400 demoWriter (JournalNew demoOrder1)
     (mkScheduledFile (journalFile demoHeader []) (length (journalFile demoHeader [])) [Short 5; Failure 28])).1 =
  Ok (appendResult AppendOutcome.RECOVERY_REQUIRED AppendError.NONE None 28, setUnusable demoWriter).
Proof. vm_compute. reflexivity. Qed.

Definition demoTornFile : ScheduledFile :=
  mkScheduledFile (journalFile demoHeader demoJournal ++ [Byte.x46; Byte.x58]) 0 [Interrupted; Short 30].

Definition demoOutput : PreparedRunJournalV1 := mkPrepared emptyLoaded None.

Lemma recovery_is_safe_witness :
  ∃ result output' w', prepareRunJournalV1 1000 demoOutput (Some 7) demoTornFile = (Ok (result, output'), w') ∧
    recovery_outcome (Some 7) demoOutput demoTornFile result output' w'.
Proof. apply recovery_is_safe. vm_compute. lia. Defined.

(** A file with a page cache whose header is on stable storage: a command is
    appended, the power is lost with a torn write after it, and the run recovered. *)
Definition demoCachedFile : CachedFile := mkCached demoEmptyFile (length (journalFile demoHeader [])).
Definition demoSession : session := mkSession [] [] (Some demoWriter) demoCachedFile.
Definition demoAppended : checked outOfFuel (RunJournalAppendResult * RunJournalWriterV1) * CachedFile :=
  append 400 demoWriter (JournalNew demoOrder1) demoCachedFile.
Definition demoAfterPowerLoss : CachedFile :=
  mkCached (mkScheduledFile (journalFile demoHeader [JournalNew demoOrder1] ++ [Byte.x46]) 0 [Short 9; Interrupted])
    (length (journalFile demoHeader [JournalNew demoOrder1])).
Definition demoRecovered : checked outOfFuel (RunJournalRecoveryResult * PreparedRunJournalV1) * CachedFile :=
  prepareRunJournalV1 1000 demoOutput (Some 7) demoAfterPowerLoss.

Lemma demo_power_loss : power_loss demoAppended.2 demoAfterPowerLoss.
Proof. split; [vm_compute; reflexivity|apply Nat.leb_le; vm_compute; reflexivity]. Qed.

Lemma demo_appended : match demoAppended with
  | (Ok (result, _), _) => AppendResult.outcome result = AppendOutcome.COMMITTED
  | _ => False end.
Proof. vm_compute. reflexivity. Qed.

Lemma demo_recovered : match demoRecovered with
  | (Ok (result, mkPrepared journal (Some _)), _) =>
      RecoveryResult.outcome result = RecoveryOutcome.PREPARED ∧ RecoveryResult.preservedTailBytes result = [Byte.x46] ∧
      Loaded.commands journal = [JournalNew demoOrder1]
  | _ => False end.
Proof. vm_compute. repeat split. Qed.

Lemma demo_session_run : ∃ writer, rtc session_step demoSession
  (mkSession [JournalNew demoOrder1] [JournalNew demoOrder1] (Some writer) demoRecovered.2).
Proof.
  pose proof demo_power_loss as Hloss. pose proof demo_appended as Hout. pose proof demo_recovered as Hrec.
  destruct demoAppended as [[[appended writer]| |] w] eqn:Ea in Hloss, Hout; [|destruct Hout..].
  destruct demoRecovered as [[[recovered [journal [writer'|]]]| |] w'] eqn:Er in Hrec |- *; [|destruct Hrec..].
  destruct Hrec as (Hprep & Htail & Hcs). exists writer'. change ((_, ?w).2) with w in *.
  eapply rtc_l; [eapply (step_append [] [] demoWriter demoCachedFile 400 (JournalNew demoOrder1) appended writer w)|].
  { apply demo_representable. } { vm_compute. lia. } { exact Ea. }
  rewrite bool_decide_eq_true_2 by done. eapply rtc_l; [apply (step_power_loss _ _ _ _ demoAfterPowerLoss)|].
  { exact Hloss. }
  apply rtc_once. pose proof (step_recover [JournalNew demoOrder1] [JournalNew demoOrder1] demoAfterPowerLoss 1000 (Some 7)
    recovered demoOutput journal writer' w') as Hstep.
  rewrite Htail, Hcs in Hstep. apply Hstep; [apply Nat.ltb_lt; vm_compute; reflexivity|exact Er|done].
Qed.

Lemma demo_session_ok : session_ok demoHeader demoSession.
Proof. apply writer_ok_session with (cs := []); [|done|vm_compute; lia]. destruct demo_writer_ok. by split. Qed.

Lemma acknowledged_commands_survive_witness : ∃ writer,
  let s := mkSession [JournalNew demoOrder1] [JournalNew demoOrder1] (Some writer) demoRecovered.2 in
  session_ok demoHeader s ∧ [] `prefix_of` [JournalNew demoOrder1] ∧
  ∀ validation header cs, parseJournal (contents demoRecovered.2) = Ok (validation, loadedJournal header cs) →
    replacesOutput validation = true → header = demoHeader ∧ [JournalNew demoOrder1] `prefix_of` cs.
Proof.
  destruct demo_session_run as [writer Hrun]. exists writer.
  exact (acknowledged_commands_survive demoHeader demoSession _ Hrun demo_session_ok).
Defined.

Definition demoUnsyncedFile : CachedFile :=
  mkCached (mkScheduledFile (journalFile demoHeader [JournalNew demoOrder1]) 0 []) (length (journalFile demoHeader [])).

Lemma demo_unsynced_recovery :
  match prepareRunJournalV1 1000 demoOutput (Some 7) demoUnsyncedFile with
  | (Ok (result, prepared), w) =>
      RecoveryResult.outcome result = RecoveryOutcome.PREPARED ∧
      Loaded.commands (prepared_journal prepared) = [JournalNew demoOrder1] ∧
      stable w = length (journalFile demoHeader []) ∧
      take (length (journalFile demoHeader [])) (contents w) = journalFile demoHeader []
  | _ => False
  end.
Proof. vm_compute. repeat split. Qed.

(** A command that reached the file but was not synced (the process was killed
    between the two) is recovered as committed, without a sync: a loss of power can
    still take it back. *)
Lemma recovered_command_can_be_lost :
  match prepareRunJournalV1 1000 demoOutput (Some 7) demoUnsyncedFile with
  | (Ok (result, prepared), w) =>
      RecoveryResult.outcome result = RecoveryOutcome.PREPARED ∧
      Loaded.commands (prepared_journal prepared) = [JournalNew demoOrder1] ∧
      ∃ w', power_loss w w' ∧ contents w' = journalFile demoHeader []
  | _ => False
  end.
Proof.
  generalize demo_unsynced_recovery.
  destruct (prepareRunJournalV1 _ _ _ _) as [[[result prepared]| |] w]; [intros Hrun|intros []..]. destruct Hrun as (Ho & Hcs & Hs & Ht).
  split; [done|]. split; [done|].
  exists (mkCached (mkScheduledFile (journalFile demoHeader []) 0 []) (length (journalFile demoHeader []))).
  split; [|reflexivity]. split; rewrite Hs; [by rewrite Ht|done].
Qed.
