(* ===== verification/Replay.v ===== *)
(** * Replaying a run journal

    [src/matching_engine/src/run_journal_replay.cpp]: a loaded journal is turned back
    into matching messages and run through a fresh engine.  Exceptions of the engine
    become outcomes; [output] is replaced on success only. *)
From S2P Require Import Prelude Domain Matching MatchingSpec MatchingInv MatchingRefine MatchingAudit.
From S2P Require Import MatchingTheorems Bytes JournalCodec JournalFrames RunHeaderCodec RunHeaderTheorems.
From S2P Require Import Posix JournalReader JournalParse JournalFile JournalLoadTheorems.


Module ReplayOutcome.
Inductive RunJournalReplayOutcome := REPLAYED | INVALID_JOURNAL | INVARIANT_FAILURE | INTERNAL_FAILURE.
#[export] Instance RunJournalReplayOutcome_eq_dec : EqDecision RunJournalReplayOutcome.
Proof. solve_decision. Defined.
End ReplayOutcome.
Export (hints) ReplayOutcome.
Abbreviation RunJournalReplayOutcome := ReplayOutcome.RunJournalReplayOutcome.

Module ReplayError.
Inductive RunJournalReplayError :=
  | NONE | HEADER_CONTEXT_MISMATCH | COMMAND_COUNT_EXCEEDED | COMMAND_SEQUENCE_MISMATCH
  | EXCHANGE_RUN_ID_MISMATCH | BEHAVIORAL_RULES_VERSION_MISMATCH | INSTRUMENT_CONFIGURATION_MISMATCH
  | MATCHING_INVARIANT_FAILURE.
#[export] Instance RunJournalReplayError_eq_dec : EqDecision RunJournalReplayError.
Proof. solve_decision. Defined.
End ReplayError.
Export (hints) ReplayError.
Abbreviation RunJournalReplayError := ReplayError.RunJournalReplayError.

Record RunJournalReplayResult := replayResult {
  replayOutcome : RunJournalReplayOutcome;
  replayError : RunJournalReplayError }.

(** The unique pointer of a default-constructed value is null. *)
Module Replayed.
Record ReplayedRunJournalV1 := mkReplayed {
  commandResults : list CommandResultBatch;
  matchingState : option MatchingState }.
End Replayed.
Abbreviation ReplayedRunJournalV1 := Replayed.ReplayedRunJournalV1.

Definition validateReplayConfiguration (header : RunHeaderV1) (instrumentId : InstrumentId)
    (configurationVersion : Z) : RunJournalReplayError :=
  match lowerBoundInstrument (Header.instruments header) instrumentId with
  | None => ReplayError.INSTRUMENT_CONFIGURATION_MISMATCH
  | Some instrument =>
      if bool_decide (HeaderInstrument.instrumentId instrument ≠ instrumentId) ||
         bool_decide (HeaderInstrument.configurationVersion instrument ≠ configurationVersion)
      then ReplayError.INSTRUMENT_CONFIGURATION_MISMATCH
      else ReplayError.NONE
  end.

(** The two overloads of [matchingMessageFrom]. *)
Definition newOrderMessageFrom (command : JournalNewOrderV1) : sequenceMessage :=
  Msg.mkSequenceMessage (orderIdFrom (NewOrder.commandSequence command)) None
    (NewOrder.commandSequence command) (NewOrder.clientId command) (Some (NewOrder.clientCommandId command))
    (NewOrder.instrumentId command) (NewOrder.configurationVersion command) (NewOrder.price command)
    (NewOrder.quantity command) (Msg.symbol emptyMessage)
    (if bool_decide (NewOrder.side command = Side.BUY) then OrderType.BUY else OrderType.SELL)
    (Msg.expiry emptyMessage) (Msg.shard_id emptyMessage) (NewOrder.timeInForce command).

Definition cancelMessageFrom (command : JournalCancelV1) : sequenceMessage :=
  Msg.mkSequenceMessage (Msg.orderId emptyMessage) (Some (Cancel.targetOrderId command))
    (Cancel.commandSequence command) (Cancel.clientId command) (Some (Cancel.clientCommandId command))
    (Cancel.instrumentId command) (Cancel.configurationVersion command) (Msg.price emptyMessage)
    (Msg.quantity emptyMessage) (Msg.symbol emptyMessage) OrderType.CANCEL
    (Msg.expiry emptyMessage) (Msg.shard_id emptyMessage) (Msg.tif emptyMessage).

Definition matchingMessageFrom (command : JournalCommandV1) : sequenceMessage :=
  match command with
  | JournalNew command => newOrderMessageFrom command
  | JournalCancel command => cancelMessageFrom command
  end.

Definition validateReplayContext (header : RunHeaderV1) (command : JournalCommandV1)
    (expectedSequence : CommandSequence) : RunJournalReplayError :=
  if bool_decide (commandSequenceOf command ≠ expectedSequence) then ReplayError.COMMAND_SEQUENCE_MISMATCH
  else if bool_decide (commandRun command ≠ Header.exchangeRunId header) then
    ReplayError.EXCHANGE_RUN_ID_MISMATCH
  else if bool_decide (commandRulesVersion command ≠ Header.behavioralRulesVersion header) then
    ReplayError.BEHAVIORAL_RULES_VERSION_MISMATCH
  else validateReplayConfiguration header (commandInstrument command) (commandConfiguration command).

(** The loop over the commands; an early return is [inl]. *)
Fixpoint replayCommands (header : RunHeaderV1) (commands : list JournalCommandV1) (expectedSequence : Z)
    (commandResults : list CommandResultBatch)
    : M MatchingState (RunJournalReplayError + list CommandResultBatch) :=
  match commands with
  | [] => mret (inr commandResults)
  | persistedCommand :: commands' =>
      match validateReplayContext header persistedCommand expectedSequence with
      | ReplayError.NONE =>
          batch ← processCommand (matchingMessageFrom persistedCommand);
          replayCommands header commands' (wrap64 (expectedSequence + 1)) (commandResults ++ [batch])
      | contextError => mret (inl contextError)
      end
  end.

(** The body of the [try] block and its handlers. *)
Definition replayInto (journal : LoadedRunJournalV1) (output : ReplayedRunJournalV1)
    : outcome (RunJournalReplayResult * ReplayedRunJournalV1) :=
  let header := Loaded.header journal in
  match replayCommands header (Loaded.commands journal) 1 []
          (newMatchingState (Header.exchangeRunId header)) with
  | (Ret (inl contextError), _) => Ret (replayResult ReplayOutcome.INVALID_JOURNAL contextError, output)
  | (Ret (inr commandResults), matchingState) =>
      if negb (invariantsHold matchingState) then
        Ret (replayResult ReplayOutcome.INVARIANT_FAILURE ReplayError.MATCHING_INVARIANT_FAILURE, output)
      else
        Ret (replayResult ReplayOutcome.REPLAYED ReplayError.NONE,
             Replayed.mkReplayed commandResults (Some matchingState))
  | (Throw undefined_behaviour, _) => Throw undefined_behaviour
  | (Throw Prelude.out_of_fuel, _) => Throw Prelude.out_of_fuel
  | (Throw _, _) =>
      Ret (replayResult ReplayOutcome.INVARIANT_FAILURE ReplayError.MATCHING_INVARIANT_FAILURE, output)
  end.

(** The result and the new value of [output]; [journal] is [prepared.journal]. *)
Definition replayPreparedRunJournalV1 (journal : LoadedRunJournalV1) (output : ReplayedRunJournalV1)
    : outcome (RunJournalReplayResult * ReplayedRunJournalV1) :=
  match encodeRunHeaderV1 (Loaded.header journal) with
  | OutOfBounds => Throw undefined_behaviour
  | Err _ => Ret (replayResult ReplayOutcome.INVALID_JOURNAL ReplayError.HEADER_CONTEXT_MISMATCH, output)
  | Ok _ =>
      if bool_decide (Header.maxRunCommands (Loaded.header journal) <
                      Z.of_nat (length (Loaded.commands journal))) then
        Ret (replayResult ReplayOutcome.INVALID_JOURNAL ReplayError.COMMAND_COUNT_EXCEEDED, output)
      else replayInto journal output
  end.

(** * Properties of journal replay

    Replaying a valid journal of the configured instrument is processing its
    commands live, one after the other, on a new engine; it never fails. *)

(** The engine fed with [messages] by its thread. *)
Fixpoint processAll (messages : list sequenceMessage) : M MatchingState (list CommandResultBatch) :=
  match messages with
  | [] => mret []
  | message :: messages' =>
      batch ← processCommand message;
      batches ← processAll messages';
      mret (batch :: batches)
  end.

(** The same on the abstract books. *)
Fixpoint specRun (run : ExchangeRunId) (messages : list sequenceMessage) (books : Books)
    : list CommandResultBatch * Books :=
  match messages with
  | [] => ([], books)
  | message :: messages' =>
      let rest := specRun run messages' (specProcess run message books).2 in
      (specBatch run message books :: rest.1, rest.2)
  end.

(** A header that lists only instruments of the compiled-in registry. *)
Definition supported (header : RunHeaderV1) : Prop :=
  ∀ i, i ∈ Header.instruments header →
    findByIdentity (HeaderInstrument.instrumentId i) (HeaderInstrument.configurationVersion i) = Some SPY_V1.

(** ** Books up to pointwise equality *)
Definition books_eq : relation Books := pointwise_relation Z (pointwise_relation BookSide eq).

#[export] Instance books_eq_equivalence : Equivalence books_eq.
Proof. unfold books_eq. apply _. Qed.

#[export] Instance setQueue_proper i s queue : Proper (books_eq ==> books_eq) (setQueue i s queue).
Proof. intros b b' Hb i' s'. unfold setQueue. case_bool_decide; [done|apply Hb]. Qed.

#[export] Instance specOrder_proper run message s rest :
  Proper (books_eq ==> prod_relation eq books_eq) (specOrder run message s rest).
Proof.
  intros b b' Hb. unfold specOrder. rewrite !(Hb _ _). destruct (sweep _ _ _) as [[fills remaining] opp].
  repeat case_match; (split; [done|]); cbn [snd]; by rewrite ?Hb.
Qed.

#[export] Instance specProcess_proper run message :
  Proper (books_eq ==> prod_relation eq books_eq) (specProcess run message).
Proof.
  intros b b' Hb.
  assert (Hcancel : ∀ o, prod_relation eq books_eq (specCancel run message o b) (specCancel run message o b')).
  { intros o. unfold specCancel. rewrite !(Hb _ _). destruct (findResting _ _) as [[p n]|]; [|by split].
    case_bool_decide; (split; [done|]); cbn [snd]; by rewrite ?Hb. }
  unfold specProcess. destruct (Msg.type message); auto; by apply specOrder_proper.
Qed.

#[export] Instance specRun_proper run messages :
  Proper (books_eq ==> prod_relation eq books_eq) (specRun run messages).
Proof.
  induction messages as [|message messages IH]; intros b b' Hb; [by split|]. cbn [specRun].
  destruct (specProcess_proper run message b b' Hb) as [Ho Hb1]. destruct (IH _ _ Hb1) as [Hl Hb2].
  split; [|done]. cbn [fst]. unfold specBatch. by rewrite Ho, Hl.
Qed.

(** A run's results, command by command. *)
Lemma specRun_results run messages : ∀ books i b, (specRun run messages books).1 !! i = Some b →
  ∃ message books', messages !! i = Some message ∧ b = specBatch run message books'.
Proof.
  induction messages as [|m l IH]; intros books [|i] b; cbn [specRun fst lookup list_lookup]; intros Hb; try done.
  - injection Hb as <-. by exists m, books.
  - by apply IH in Hb.
Qed.

Lemma specRun_length run messages : ∀ books, length (specRun run messages books).1 = length messages.
Proof. induction messages as [|m l IH]; intros books; [done|]. simpl. by rewrite IH. Qed.

Lemma specRun_app run ms ms' : ∀ books, specRun run (ms ++ ms') books =
  let first := specRun run ms books in
  ((first.1 ++ (specRun run ms' first.2).1), (specRun run ms' first.2).2).
Proof.
  induction ms as [|m ms IH]; intros books; cbv zeta; cbn [app specRun fst snd].
  - by destruct (specRun run ms' books).
  - by rewrite IH.
Qed.

(** ** One command *)
Lemma lowerBoundInstrument_elem l id i : lowerBoundInstrument l id = Some i → i ∈ l.
Proof.
  induction l as [|i' l IH]; [done|]. cbn [lowerBoundInstrument]. case_bool_decide.
  - intros ?%IH. by right.
  - intros [= ->]. by left.
Qed.

Lemma instrumentConfigured_inv header id version : instrumentConfigured header id version = true →
  ∃ i, i ∈ Header.instruments header ∧ lowerBoundInstrument (Header.instruments header) id = Some i ∧
    HeaderInstrument.instrumentId i = id ∧ HeaderInstrument.configurationVersion i = version.
Proof.
  unfold instrumentConfigured. destruct (lowerBoundInstrument _ _) as [i|] eqn:Hl; [|done].
  intros [?%bool_decide_eq_true ?%bool_decide_eq_true]%andb_prop.
  exists i. split_and!; try done. by eapply lowerBoundInstrument_elem.
Qed.

Lemma validateReplayConfiguration_none header id version :
  validateReplayConfiguration header id version = ReplayError.NONE ↔ instrumentConfigured header id version = true.
Proof.
  unfold validateReplayConfiguration, instrumentConfigured. destruct (lowerBoundInstrument _ _); [|done].
  repeat case_bool_decide; simpl; naive_solver.
Qed.

Section replay.
Context (header : RunHeaderV1) (Hheader : valid_runHeader header) (Hsupported : supported header).

Lemma validateReplayContext_fits sequence c :
  fits header sequence c → validateReplayContext header c sequence = ReplayError.NONE.
Proof.
  intros [Hv Hrun Hseq Hins]. unfold validateReplayContext.
  rewrite bool_decide_eq_false_2 by auto. rewrite bool_decide_eq_false_2 by auto.
  rewrite bool_decide_eq_false_2; [by apply validateReplayConfiguration_none|].
  assert (commandRulesVersion c = BEHAVIORAL_RULES_VERSION) as ->.
  { destruct c as [c|c]; [destruct Hv as [Hc _ _ _ _]|destruct Hv as [Hc _]]; apply Hc. }
  rewrite (vrh_rules _ Hheader). by intros [].
Qed.

Lemma matchingMessageFrom_sequence c : Msg.globalSequenceNumber (matchingMessageFrom c) = commandSequenceOf c.
Proof. by destruct c. Qed.

Lemma matchingMessageFrom_valid sequence c :
  fits header sequence c → valid_command (matchingMessageFrom c).
Proof.
  intros [Hv _ _ (i & Hi & _ & Hid & Hversion)%instrumentConfigured_inv]. apply Hsupported in Hi.
  rewrite Hid, Hversion in Hi.
  assert (valid_common (commandRun c) (commandSequenceOf c) (commandRulesVersion c) (commandConfiguration c)
    (Msg.clientId (matchingMessageFrom c)) (commandInstrument c) (default "" (Msg.clientCommandId (matchingMessageFrom c))))
    as [_ [Hs Hs0] _ _ [_ Hc] _ _].
  { destruct c as [c|c]; [by destruct Hv|by destruct Hv]. }
  split.
  - done.
  - by destruct c.
  - rewrite matchingMessageFrom_sequence. unfold is_u64 in Hs. lia.
  - destruct c as [c|c]; cbn [matchingMessageFrom] in *.
    + left. destruct Hv as [_ _ Htif _ [Hq _]].
      split; [by unfold newOrderMessageFrom; simpl; case_bool_decide|done|done|done|done].
    + right. by split.
Qed.

(** ** The loop *)
Lemma wrap64_next z : wrap64 (wrap64 z + 1) = wrap64 (z + 1).
Proof. unfold wrap64, wrap. apply Zplus_mod_idemp_l. Qed.

Lemma replayCommands_run cs : ∀ n st rest results,
  engine_ok (Z.of_nat n + 1) st → Z.of_nat (n + length cs) ≤ UINT64_MAX →
  (∀ i c, cs !! i = Some c → fits header (Z.of_nat (n + i) + 1) c) →
  let messages := matchingMessageFrom <$> cs in
  let spec := specRun (State.exchangeRunId st) messages (queueOf st) in
  ∃ st', processAll messages st = (Ret spec.1, st') ∧
    replayCommands header (cs ++ rest) (wrap64 (Z.of_nat n + 1)) results st =
      replayCommands header rest (wrap64 (Z.of_nat (n + length cs) + 1)) (results ++ spec.1) st' ∧
    engine_ok (Z.of_nat (n + length cs) + 1) st' ∧ State.exchangeRunId st' = State.exchangeRunId st ∧
    ∀ i s, queueOf st' i s = spec.2 i s.
Proof.
  induction cs as [|c cs IH]; intros n st rest results Hok Hmax Hfits; cbn [fmap list_fmap].
  { exists st. simpl. by rewrite Nat.add_0_r, app_nil_r. }
  simpl in Hmax. pose proof (Hfits 0%nat c eq_refl) as Hc. rewrite Nat.add_0_r in Hc.
  pose proof (matchingMessageFrom_valid _ _ Hc) as Hv.
  assert (Hseq : Msg.globalSequenceNumber (matchingMessageFrom c) = Z.of_nat n + 1)
    by (rewrite matchingMessageFrom_sequence; apply Hc).
  destruct (processCommand_refines (Z.of_nat n + 1) st (matchingMessageFrom c) Hok ltac:(by rewrite Hseq) Hv)
    as (st1 & Hrun & Hsim).
  pose proof (engine_ok_next _ _ _ _ Hok ltac:(by rewrite Hseq) Hv Hsim) as Hok1. rewrite Hseq in Hok1.
  destruct (IH (Datatypes.S n) st1 rest (results ++ [specBatch (State.exchangeRunId st) (matchingMessageFrom c) (queueOf st)]))
    as (st' & Hall & Hreplay & Hok' & Hid & Hq).
  - by replace (Z.of_nat (Datatypes.S n) + 1) with (Z.of_nat n + 1 + 1) by lia.
  - simpl. lia.
  - intros i c' Hi. replace (Datatypes.S n + i)%nat with (n + Datatypes.S i)%nat by lia. by apply Hfits.
  - exists st'. destruct Hsim as [_ Hrun1 Hq1 _].
    destruct (specRun_proper (State.exchangeRunId st) (matchingMessageFrom <$> cs) _ _ Hq1) as [Hl Hb].
    rewrite Hrun1 in *. cbn [processAll specRun fst snd] in *. rewrite Hl in Hall, Hreplay.
    replace (n + length (c :: cs))%nat with (Datatypes.S n + length cs)%nat by (simpl; lia).
    split_and!.
    + erewrite M_bind_run by exact Hrun. by erewrite M_bind_run by exact Hall.
    + rewrite <-app_comm_cons. cbn [replayCommands].
      rewrite wrap64_small by (unfold is_u64; lia). rewrite (validateReplayContext_fits _ _ Hc).
      erewrite M_bind_run by exact Hrun.
      replace (Z.of_nat n + 1 + 1) with (Z.of_nat (Datatypes.S n) + 1) by lia.
      rewrite Hreplay. by rewrite <-app_assoc.
    + done.
    + done.
    + intros i s. rewrite Hq. apply Hb.
Qed.
End replay.

Section whole_journal.
Context (header : RunHeaderV1) (cs : list JournalCommandV1).
Context (Hvalid : valid_journal header cs) (Hsupported : supported header).

Let run := Header.exchangeRunId header.
Let messages := matchingMessageFrom <$> cs.
Let start := newMatchingState run.

Lemma engine_ok_start : engine_ok 1 start.
Proof.
  destruct (engine_ok_new run) as [Hwf _ _ Hl]. split; [done| |done|done].
  intros o. simpl. rewrite lookup_empty. by intros [].
Qed.

Lemma journal_length_bound : Z.of_nat (length cs) ≤ UINT64_MAX.
Proof.
  pose proof (vj_count _ _ Hvalid). destruct (vrh_commands _ (vj_header _ _ Hvalid)) as [[_ ?] _]. lia.
Qed.

Lemma replayPrefix_run rest :
  let spec := specRun run messages (queueOf start) in
  ∃ st, processAll messages start = (Ret spec.1, st) ∧
    replayCommands header (cs ++ rest) 1 [] start =
      replayCommands header rest (wrap64 (Z.of_nat (length cs) + 1)) spec.1 st ∧
    engine_ok (Z.of_nat (length cs) + 1) st ∧ ∀ i s, queueOf st i s = spec.2 i s.
Proof.
  destruct (replayCommands_run header (vj_header _ _ Hvalid) Hsupported cs 0 start rest [])
    as (st & Hall & Hreplay & Hok & _ & Hq).
  - apply engine_ok_start.
  - apply journal_length_bound.
  - intros i c Hi. by apply Hvalid.
  - exists st. split_and!; try done.
Qed.

Lemma replayPrepared_start commands bytes output :
  Z.of_nat (length commands) ≤ Header.maxRunCommands header →
  replayPreparedRunJournalV1 (Loaded.mkLoaded header commands bytes) output =
  replayInto (Loaded.mkLoaded header commands bytes) output.
Proof.
  intros Hcount. unfold replayPreparedRunJournalV1. cbn [Loaded.header Loaded.commands].
  rewrite (encodeRunHeaderV1_run _ (vj_header _ _ Hvalid)). by rewrite bool_decide_eq_false_2 by lia.
Qed.
End whole_journal.

(** ** The properties *)

(** A valid journal. *)
Lemma replay_valid header cs output :
  valid_journal header cs → supported header →
  let run := Header.exchangeRunId header in
  let spec := specRun run (matchingMessageFrom <$> cs) (queueOf (newMatchingState run)) in
  ∃ st, processAll (matchingMessageFrom <$> cs) (newMatchingState run) = (Ret spec.1, st) ∧
    replayPreparedRunJournalV1 (loadedJournal header cs) output =
      Ret (replayResult ReplayOutcome.REPLAYED ReplayError.NONE, Replayed.mkReplayed spec.1 (Some st)) ∧
    (∀ i s, queueOf st i s = spec.2 i s) ∧ engine_ok (Z.of_nat (length cs) + 1) st.
Proof.
  intros Hv Hs run spec. destruct (replayPrefix_run header cs Hv Hs []) as (st & Hall & Hreplay & Hok & Hq).
  exists st. split_and!; [done| |done|done]. unfold loadedJournal.
  rewrite (replayPrepared_start header cs Hv) by apply Hv. unfold replayInto. cbn [Loaded.header Loaded.commands].
  rewrite app_nil_r in Hreplay. rewrite Hreplay. cbn [replayCommands mret M_ret].
  by rewrite (invariantsHold_ok _ _ Hok).
Qed.

(** Recovery reproduces the run.  Replaying a valid journal of supported
    instruments succeeds; its results and its engine state are exactly those of
    processing the journal's commands live, one after the other, on a new engine;
    they are the results and books of the price-time-priority specification; and
    the engine is ready for the next sequence.  A journal whose commands are valid
    up to one that does not belong to its place is refused with that command's
    error (sequence, run, rules version, instrument configuration, in this order),
    whatever follows it; and whatever the journal, an outcome other than [REPLAYED]
    leaves [output] unchanged. *)
Theorem replay_is_live_processing :
  (∀ header cs output,
     valid_journal header cs → supported header →
     let run := Header.exchangeRunId header in
     let spec := specRun run (matchingMessageFrom <$> cs) (queueOf (newMatchingState run)) in
     ∃ st, processAll (matchingMessageFrom <$> cs) (newMatchingState run) = (Ret spec.1, st) ∧
       replayPreparedRunJournalV1 (loadedJournal header cs) output =
         Ret (replayResult ReplayOutcome.REPLAYED ReplayError.NONE, Replayed.mkReplayed spec.1 (Some st)) ∧
       (∀ i s, queueOf st i s = spec.2 i s) ∧ engine_ok (Z.of_nat (length cs) + 1) st) ∧
  (∀ header cs c rest bytes output,
     valid_journal header cs → supported header →
     Z.of_nat (length (cs ++ c :: rest)) ≤ Header.maxRunCommands header →
     let e := validateReplayContext header c (Z.of_nat (length cs) + 1) in
     e ≠ ReplayError.NONE →
     replayPreparedRunJournalV1 (Loaded.mkLoaded header (cs ++ c :: rest) bytes) output =
       Ret (replayResult ReplayOutcome.INVALID_JOURNAL e, output)) ∧
  (∀ journal output r output', replayPreparedRunJournalV1 journal output = Ret (r, output') →
     replayOutcome r ≠ ReplayOutcome.REPLAYED → output' = output).
Proof.
  split; [apply replay_valid|]. split.
  - intros header cs c rest bytes output Hv Hs Hcount e He.
    destruct (replayPrefix_run header cs Hv Hs (c :: rest)) as (st & _ & Hreplay & _ & _).
    rewrite (replayPrepared_start header cs Hv) by done. unfold replayInto. cbn [Loaded.header Loaded.commands].
    rewrite Hreplay. cbn [replayCommands]. rewrite wrap64_small.
    + fold e. by destruct e.
    + rewrite length_app in Hcount. simpl in Hcount.
      destruct (vrh_commands _ (vj_header _ _ Hv)) as [[_ ?] _]. unfold is_u64. lia.
  - intros journal output r output'. unfold replayPreparedRunJournalV1, replayInto.
    repeat case_match; intros; simplify_eq/=; try done.
Qed.

(** ** Witnesses *)
Lemma demoHeader_supported : supported demoHeader.
Proof. intros i Hi. apply list_elem_of_singleton in Hi as ->. done. Qed.

Lemma replay_is_live_processing_witness :
  let messages := matchingMessageFrom <$> demoJournal in
  let spec := specRun 7 messages (queueOf (newMatchingState 7)) in
  ∃ st, processAll messages (newMatchingState 7) = (Ret spec.1, st) ∧
    replayPreparedRunJournalV1 (loadedJournal demoHeader demoJournal) (Replayed.mkReplayed [] None) =
      Ret (replayResult ReplayOutcome.REPLAYED ReplayError.NONE, Replayed.mkReplayed spec.1 (Some st)) ∧
    (∀ i s, queueOf st i s = spec.2 i s) ∧ engine_ok 3 st.
Proof.
  exact (proj1 replay_is_live_processing demoHeader demoJournal (Replayed.mkReplayed [] None)
    demo_journal_valid demoHeader_supported).
Defined.
