(* ===== verification/Projection.v ===== *)
(** * Projections of a command's result

    [src/matching_engine/src/private_result_projection.cpp] and
    [public_trade_projection.cpp]: what the affected clients and the public are told
    of a result batch. *)
From S2P Require Import Prelude Domain.

Module Role.
Inductive TradeRole := MAKER | TAKER.
#[export] Instance TradeRole_eq_dec : EqDecision TradeRole.
Proof. solve_decision. Defined.
End Role.
Export (hints) Role.
Abbreviation TradeRole := Role.TradeRole.

Module PrivateTrade.
Record PrivateTrade := mkPrivateTrade {
  eventId : EventId;
  instrumentId : InstrumentId;
  orderId : OrderId;
  side : Side;
  role : TradeRole;
  executionPrice : Price;
  executionQuantity : Quantity;
  remainingQuantity : Quantity }.
#[export] Instance PrivateTrade_eq_dec : EqDecision PrivateTrade.
Proof. solve_decision. Defined.
End PrivateTrade.
Export (hints) PrivateTrade.
Abbreviation PrivateTrade := PrivateTrade.PrivateTrade.

Inductive PrivateEvent :=
  | PvTrade (e : PrivateTrade)
  | PvRested (e : OrderRested)
  | PvCancelled (e : OrderCancelled)
  | PvRejected (e : CommandRejected).
#[export] Instance PrivateEvent_eq_dec : EqDecision PrivateEvent.
Proof. solve_decision. Defined.

Abbreviation PrivateResult := (list PrivateEvent) (only parsing).

Module Recipient.
Record RecipientResult := mkRecipientResult {
  recipient : ClientId;
  correlation : option CommandResultCorrelation;
  privateResult : PrivateResult }.
#[export] Instance RecipientResult_eq_dec : EqDecision RecipientResult.
Proof. solve_decision. Defined.
End Recipient.
Export (hints) Recipient.
Abbreviation RecipientResult := Recipient.RecipientResult.

Module RecipientPlan.
Record RecipientPlan := mkRecipientPlan {
  clientId : ClientId;
  projectedEventCount : Z }.
End RecipientPlan.
Abbreviation RecipientPlan := RecipientPlan.RecipientPlan.

Definition makerSide (takerSide : Side) : outcome Side :=
  match takerSide with
  | Side.BUY => Ret Side.SELL
  | Side.SELL => Ret Side.BUY
  | Side.Side_raw _ => Throw (logic_error "authoritative trade has invalid taker side")
  end.

Definition b2z (b : bool) : Z := if b then 1 else 0.

Definition projectedEventIncrement (event : BusinessEvent) (recipient : ClientId) : Z :=
  match event with
  | EvTrade e => b2z (bool_decide (Trade.makerClientId e = recipient)) +
                 b2z (bool_decide (Trade.takerClientId e = recipient))
  | EvRested e => if bool_decide (Rested.clientId e = recipient) then 1 else 0
  | EvCancelled e => if bool_decide (Cancelled.clientId e = recipient) then 1 else 0
  | EvRejected e => if bool_decide (Rejected.clientId e = recipient) then 1 else 0
  end.

(** The first [size] entries of [clients]. *)
Definition affectedRecipients (event : BusinessEvent) : list ClientId :=
  match event with
  | EvTrade e =>
      if bool_decide (Trade.takerClientId e ≠ Trade.makerClientId e)
      then [Trade.makerClientId e; Trade.takerClientId e] else [Trade.makerClientId e]
  | EvRested e => [Rested.clientId e]
  | EvCancelled e => [Cancelled.clientId e]
  | EvRejected e => [Rejected.clientId e]
  end.

Definition makerTrade (e : Trade) (side : Side) : PrivateTrade :=
  PrivateTrade.mkPrivateTrade (Trade.eventId e) (Trade.instrumentId e) (Trade.makerOrderId e) side Role.MAKER
    (Trade.executionPrice e) (Trade.executionQuantity e) (Trade.makerRemainingQuantity e).
Definition takerTrade (e : Trade) : PrivateTrade :=
  PrivateTrade.mkPrivateTrade (Trade.eventId e) (Trade.instrumentId e) (Trade.takerOrderId e)
    (Trade.takerSide e) Role.TAKER
    (Trade.executionPrice e) (Trade.executionQuantity e) (Trade.takerRemainingQuantity e).

Definition appendProjectedEvent (output : PrivateResult) (event : BusinessEvent) (recipient : ClientId)
    : outcome PrivateResult :=
  match event with
  | EvTrade e =>
      output ← (if bool_decide (Trade.makerClientId e = recipient) then
                  side ← makerSide (Trade.takerSide e);
                  Ret (output ++ [PvTrade (makerTrade e side)])
                else Ret output);
      if bool_decide (Trade.takerClientId e = recipient) then Ret (output ++ [PvTrade (takerTrade e)])
      else Ret output
  | EvRested e => Ret (if bool_decide (Rested.clientId e = recipient) then output ++ [PvRested e] else output)
  | EvCancelled e =>
      Ret (if bool_decide (Cancelled.clientId e = recipient) then output ++ [PvCancelled e] else output)
  | EvRejected e =>
      Ret (if bool_decide (Rejected.clientId e = recipient) then output ++ [PvRejected e] else output)
  end.

(** The vector is only reserved. *)
Definition makeRecipientResult (authoritativeResult : CommandResultBatch) (recipient : ClientId)
    (projectedEventCount : Z) : RecipientResult :=
  Recipient.mkRecipientResult recipient
    (if bool_decide (recipient = Correlation.clientId (Batch.correlation authoritativeResult))
     then Some (Batch.correlation authoritativeResult) else None) [].

Fixpoint countProjectedEvents (events : list BusinessEvent) (recipient : ClientId) (projectedCount : Z)
    : outcome Z :=
  match events with
  | [] => Ret projectedCount
  | event :: events' =>
      let increment := projectedEventIncrement event recipient in
      throw_if (bool_decide (SIZE_MAX - projectedCount < increment))
        (length_error "private result event count overflow") ;;
      countProjectedEvents events' recipient (projectedCount + increment)
  end.

Fixpoint appendProjectedEvents (output : PrivateResult) (events : list BusinessEvent) (recipient : ClientId)
    : outcome PrivateResult :=
  match events with
  | [] => Ret output
  | event :: events' =>
      output ← appendProjectedEvent output event recipient;
      appendProjectedEvents output events' recipient
  end.

Definition setPrivateResult (r : RecipientResult) (privateResult : PrivateResult) : RecipientResult :=
  Recipient.mkRecipientResult (Recipient.recipient r) (Recipient.correlation r) privateResult.

Definition projectPrivateResult (authoritativeResult : CommandResultBatch) (recipient : ClientId)
    : outcome (option RecipientResult) :=
  projectedCount ← countProjectedEvents (Batch.events authoritativeResult) recipient 0;
  if bool_decide (projectedCount = 0) then Ret None
  else
    let projected := makeRecipientResult authoritativeResult recipient projectedCount in
    privateResult ← appendProjectedEvents (Recipient.privateResult projected)
                      (Batch.events authoritativeResult) recipient;
    Ret (Some (setPrivateResult projected privateResult)).

(** [find_if] over the plans, then the update or the [push_back]. *)
Fixpoint planRecipient (plans : list RecipientPlan) (recipient : ClientId) (eventCount : Z)
    : outcome (list RecipientPlan) :=
  match plans with
  | [] => Ret [RecipientPlan.mkRecipientPlan recipient eventCount]
  | existing :: plans' =>
      if bool_decide (RecipientPlan.clientId existing = recipient) then
        throw_if (bool_decide (SIZE_MAX - RecipientPlan.projectedEventCount existing < eventCount))
          (length_error "recipient private result event count overflow") ;;
        Ret (RecipientPlan.mkRecipientPlan (RecipientPlan.clientId existing)
               (RecipientPlan.projectedEventCount existing + eventCount) :: plans')
      else
        plans' ← planRecipient plans' recipient eventCount;
        Ret (existing :: plans')
  end.

(** A loop over a list whose body can throw. *)
Fixpoint foldOutcome {A B} (f : B → A → outcome B) (acc : B) (l : list A) : outcome B :=
  match l with
  | [] => Ret acc
  | x :: l' => acc ← f acc x; foldOutcome f acc l'
  end.

Definition planEvent (plans : list RecipientPlan) (event : BusinessEvent) : outcome (list RecipientPlan) :=
  foldOutcome (λ plans recipient, planRecipient plans recipient (projectedEventIncrement event recipient))
    plans (affectedRecipients event).

(** [find_if] over the results and the append to the one found. *)
Fixpoint appendToRecipient (projected : list RecipientResult) (event : BusinessEvent) (recipient : ClientId)
    : outcome (list RecipientResult) :=
  match projected with
  | [] => Throw (logic_error "recipient plan missing during private result projection")
  | output :: projected' =>
      if bool_decide (Recipient.recipient output = recipient) then
        privateResult ← appendProjectedEvent (Recipient.privateResult output) event recipient;
        Ret (setPrivateResult output privateResult :: projected')
      else
        projected' ← appendToRecipient projected' event recipient;
        Ret (output :: projected')
  end.

Definition projectEvent (projected : list RecipientResult) (event : BusinessEvent)
    : outcome (list RecipientResult) :=
  foldOutcome (λ projected recipient, appendToRecipient projected event recipient)
    projected (affectedRecipients event).

Definition projectPrivateResults (authoritativeResult : CommandResultBatch) : outcome (list RecipientResult) :=
  plans ← foldOutcome planEvent [] (Batch.events authoritativeResult);
  let projected := (λ plan, makeRecipientResult authoritativeResult (RecipientPlan.clientId plan)
                              (RecipientPlan.projectedEventCount plan)) <$> plans in
  foldOutcome projectEvent projected (Batch.events authoritativeResult).

(** ** Public trades *)
Module PublicTrade.
Record PublicTrade := mkPublicTrade {
  eventId : EventId;
  instrumentId : InstrumentId;
  executionPrice : Price;
  executionQuantity : Quantity;
  aggressorSide : Side }.
#[export] Instance PublicTrade_eq_dec : EqDecision PublicTrade.
Proof. solve_decision. Defined.
End PublicTrade.
Export (hints) PublicTrade.
Abbreviation PublicTrade := PublicTrade.PublicTrade.

Definition publicTrade (trade : Trade) : PublicTrade :=
  PublicTrade.mkPublicTrade (Trade.eventId trade) (Trade.instrumentId trade) (Trade.executionPrice trade)
    (Trade.executionQuantity trade) (Trade.takerSide trade).

Definition getTrade (event : BusinessEvent) : option Trade :=
  match event with EvTrade trade => Some trade | _ => None end.

(** The second loop; the first only computes the capacity to reserve. *)
Fixpoint projectTrades (projected : list PublicTrade) (events : list BusinessEvent) : list PublicTrade :=
  match events with
  | [] => projected
  | event :: events' =>
      projectTrades (match getTrade event with
                     | Some trade => projected ++ [publicTrade trade]
                     | None => projected
                     end) events'
  end.

Definition projectPublicTrades (authoritativeResult : CommandResultBatch) : list PublicTrade :=
  projectTrades [] (Batch.events authoritativeResult).
