(* ===== verification/ProjectionTheorems.v ===== *)
(** * Properties of the projections

    The batch routine agrees with the single-client projection for every client;
    a private result is exactly the client's own side of the batch's events. *)
From S2P Require Import Prelude Domain Projection Matching MatchingSpec MatchingInv.
From S2P Require Import MatchingRun MatchingSweep MatchingRest MatchingRefine MatchingTheorems.

Definition flipSide (s : Side) : Side := match s with Side.BUY => Side.SELL | _ => Side.BUY end.

(** What a client sees of an event. *)
Definition views (c : ClientId) (event : BusinessEvent) : list PrivateEvent :=
  match event with
  | EvTrade e =>
      (if bool_decide (Trade.makerClientId e = c) then [PvTrade (makerTrade e (flipSide (Trade.takerSide e)))] else []) ++
      (if bool_decide (Trade.takerClientId e = c) then [PvTrade (takerTrade e)] else [])
  | EvRested e => if bool_decide (Rested.clientId e = c) then [PvRested e] else []
  | EvCancelled e => if bool_decide (Cancelled.clientId e = c) then [PvCancelled e] else []
  | EvRejected e => if bool_decide (Rejected.clientId e = c) then [PvRejected e] else []
  end.

Definition allViews (events : list BusinessEvent) (c : ClientId) : list PrivateEvent := concat (views c <$> events).

(** The side of a trade is an enumerator. *)
Definition side_known (event : BusinessEvent) : Prop :=
  match event with EvTrade e => Trade.takerSide e = Side.BUY ∨ Trade.takerSide e = Side.SELL | _ => True end.

(** The clients of a list in the order of their first appearance. *)
Definition firstAppearance (seen : list ClientId) (cs : list ClientId) : list ClientId :=
  foldl (λ l c, if bool_decide (c ∈ l) then l else l ++ [c]) seen cs.

(** ** One event *)
Lemma makerSide_run s : s = Side.BUY ∨ s = Side.SELL → makerSide s = Ret (flipSide s).
Proof. by intros [-> | ->]. Qed.

Lemma appendProjectedEvent_run output event c :
  side_known event → appendProjectedEvent output event c = Ret (output ++ views c event).
Proof.
  destruct event as [e|e|e|e]; cbn [appendProjectedEvent views side_known]; intros Hs;
    try (case_bool_decide; by rewrite ?app_nil_r).
  rewrite makerSide_run by done. repeat case_bool_decide; cbn; by rewrite ?app_nil_r, <-?app_assoc.
Qed.

Lemma projectedEventIncrement_length event c : projectedEventIncrement event c = Z.of_nat (length (views c event)).
Proof. destruct event; simpl; repeat case_bool_decide; done. Qed.

Lemma views_affected event c : views c event ≠ [] ↔ c ∈ affectedRecipients event.
Proof.
  destruct event; simpl; repeat case_bool_decide; simpl; rewrite ?elem_of_cons, ?elem_of_nil;
    intuition congruence.
Qed.

Lemma views_unaffected event c : c ∉ affectedRecipients event → views c event = [].
Proof. intros H. destruct (decide (views c event = [])) as [|Hv]; [done|]. by apply views_affected in Hv. Qed.

Lemma views_short event c : (length (views c event) ≤ 2)%nat.
Proof. destruct event; simpl; repeat case_bool_decide; simpl; lia. Qed.

Lemma affectedRecipients_NoDup event : NoDup (affectedRecipients event).
Proof.
  destruct event; simpl; try case_bool_decide; repeat (apply NoDup_cons; split); try apply NoDup_nil;
    rewrite ?elem_of_cons, ?elem_of_nil; intuition congruence.
Qed.

Lemma affectedRecipients_short event : (length (affectedRecipients event) ≤ 2)%nat.
Proof. destruct event; simpl; try case_bool_decide; simpl; lia. Qed.

Lemma allViews_cons event events c : allViews (event :: events) c = views c event ++ allViews events c.
Proof. reflexivity. Qed.

Lemma allViews_app events events' c : allViews (events ++ events') c = allViews events c ++ allViews events' c.
Proof. unfold allViews. by rewrite fmap_app, concat_app. Qed.

Lemma allViews_length events c : (length (allViews events c) ≤ 2 * length events)%nat.
Proof.
  induction events as [|e l IH]; [simpl; lia|]. rewrite allViews_cons, length_app. pose proof (views_short e c).
  simpl. lia.
Qed.

Lemma elem_of_allViews events c x : x ∈ allViews events c ↔ ∃ e, e ∈ events ∧ x ∈ views c e.
Proof.
  induction events as [|e l IH]; [split; [by intros ?%elem_of_nil|by intros (? & ?%elem_of_nil & _)]|].
  rewrite allViews_cons, elem_of_app, IH. setoid_rewrite elem_of_cons. clear IH. naive_solver.
Qed.

Lemma allViews_nonempty events c : allViews events c ≠ [] ↔ c ∈ concat (affectedRecipients <$> events).
Proof.
  induction events as [|e l IH]; [split; [done|by intros ?%elem_of_nil]|]. rewrite allViews_cons.
  cbn [fmap list_fmap concat]. rewrite elem_of_app, <-IH, <-views_affected.
  clear IH. destruct (views c e); simpl; naive_solver.
Qed.

(** ** One client *)
Lemma countProjectedEvents_run events c : ∀ n,
  n + Z.of_nat (length (allViews events c)) ≤ SIZE_MAX →
  countProjectedEvents events c n = Ret (n + Z.of_nat (length (allViews events c))).
Proof.
  induction events as [|e l IH]; intros n; cbn [countProjectedEvents]; [simpl; intros; f_equal; lia|].
  rewrite allViews_cons, length_app, projectedEventIncrement_length. intros Hn.
  rewrite throw_if_false by (apply bool_decide_eq_false; lia). rewrite IH by lia. f_equal. lia.
Qed.

Lemma appendProjectedEvents_run events c : ∀ output, Forall side_known events →
  appendProjectedEvents output events c = Ret (output ++ allViews events c).
Proof.
  induction events as [|e l IH]; intros output Hs; cbn [appendProjectedEvents]; [by rewrite app_nil_r|].
  apply Forall_cons in Hs as [He Hs]. rewrite appendProjectedEvent_run by done. cbn [mbind outcome_bind]. rewrite IH by done.
  by rewrite allViews_cons, app_assoc.
Qed.

Definition recipientResult (b : CommandResultBatch) (events : list BusinessEvent) (c : ClientId) : RecipientResult :=
  setPrivateResult (makeRecipientResult b c 0) (allViews events c).

Section projection.
Context (b : CommandResultBatch).
Context (Hsides : Forall side_known (Batch.events b)) (Hsize : 4 * Z.of_nat (length (Batch.events b)) ≤ SIZE_MAX).

Lemma projectPrivateResult_run c :
  projectPrivateResult b c =
  Ret (if bool_decide (allViews (Batch.events b) c = []) then None else Some (recipientResult b (Batch.events b) c)).
Proof.
  unfold projectPrivateResult. pose proof (allViews_length (Batch.events b) c).
  rewrite countProjectedEvents_run by lia. cbn [mbind outcome_bind].
  destruct (allViews (Batch.events b) c) eqn:Hv; [done|]. rewrite <-Hv.
  rewrite (bool_decide_eq_false_2 (_ = 0)) by (rewrite Hv; simpl; lia).
  rewrite bool_decide_eq_false_2 by (by rewrite Hv).
  rewrite appendProjectedEvents_run by done. reflexivity.
Qed.

(** ** The plan *)
Lemma firstAppearance_app seen cs cs' :
  firstAppearance seen (cs ++ cs') = firstAppearance (firstAppearance seen cs) cs'.
Proof. apply foldl_app. Qed.

Lemma firstAppearance_elem cs : ∀ seen c, c ∈ firstAppearance seen cs ↔ c ∈ seen ∨ c ∈ cs.
Proof.
  induction cs as [|c' cs IH]; intros seen c; simpl; [rewrite elem_of_nil; tauto|].
  rewrite IH. case_bool_decide; rewrite ?elem_of_app, ?elem_of_cons, ?elem_of_nil; naive_solver.
Qed.

Lemma firstAppearance_NoDup cs : ∀ seen, NoDup seen → NoDup (firstAppearance seen cs).
Proof.
  induction cs as [|c' cs IH]; intros seen Hs; simpl; [done|]. apply IH. case_bool_decide; [done|].
  apply NoDup_app. split_and!; [done| |apply NoDup_singleton]. intros c ? ?%list_elem_of_singleton. by subst.
Qed.

Lemma planRecipient_run plans c k : ∀ N, 0 ≤ k → N + k ≤ SIZE_MAX → 0 ≤ N →
  Forall (λ p, 0 ≤ RecipientPlan.projectedEventCount p ≤ N) plans →
  ∃ plans', planRecipient plans c k = Ret plans' ∧
    RecipientPlan.clientId <$> plans' = firstAppearance (RecipientPlan.clientId <$> plans) [c] ∧
    Forall (λ p, 0 ≤ RecipientPlan.projectedEventCount p ≤ N + k) plans'.
Proof.
  intros N Hk HN HN0. induction plans as [|p plans IH]; intros Hp; cbn [planRecipient].
  { eexists. split; [done|]. split; [done|]. constructor; [simpl; lia|constructor]. }
  apply Forall_cons in Hp as [Hp Hps].
  assert (Hps' : Forall (λ p, 0 ≤ RecipientPlan.projectedEventCount p ≤ N + k) plans)
    by (eapply Forall_impl; [exact Hps|]; simpl; intros; lia).
  case_bool_decide as Hc.
  - rewrite throw_if_false by (apply bool_decide_eq_false; lia). eexists. split; [done|]. split.
    + simpl. rewrite bool_decide_eq_true_2; [done|]. rewrite <-Hc. by left.
    + constructor; [simpl; lia|done].
  - destruct (IH Hps) as (plans' & -> & Hl & Hb). eexists. split; [done|]. split.
    + cbn [fmap list_fmap]. rewrite Hl. simpl. repeat case_bool_decide; rewrite ?elem_of_cons in *; naive_solver.
    + constructor; [simpl; lia|done].
Qed.

Lemma planEvent_run event plans N : 0 ≤ N → N + 4 ≤ SIZE_MAX →
  Forall (λ p, 0 ≤ RecipientPlan.projectedEventCount p ≤ N) plans →
  ∃ plans', planEvent plans event = Ret plans' ∧
    RecipientPlan.clientId <$> plans' =
      firstAppearance (RecipientPlan.clientId <$> plans) (affectedRecipients event) ∧
    Forall (λ p, 0 ≤ RecipientPlan.projectedEventCount p ≤ N + 4) plans'.
Proof.
  unfold planEvent. intros HN0 HN Hp.
  assert (Hgen : ∀ cs plans N', 0 ≤ N' → N' + 2 * Z.of_nat (length cs) ≤ N + 4 →
    Forall (λ p, 0 ≤ RecipientPlan.projectedEventCount p ≤ N') plans →
    ∃ plans', foldOutcome (λ plans recipient, planRecipient plans recipient (projectedEventIncrement event recipient))
        plans cs = Ret plans' ∧
      RecipientPlan.clientId <$> plans' = firstAppearance (RecipientPlan.clientId <$> plans) cs ∧
      Forall (λ p, 0 ≤ RecipientPlan.projectedEventCount p ≤ N + 4) plans').
  { clear Hp plans. induction cs as [|c cs IH]; intros plans N' HN' Hle Hp; cbn [foldOutcome].
    - exists plans. split_and!; [done|done|]. eapply Forall_impl; [exact Hp|]. simpl in *. intros. lia.
    - simpl in Hle. pose proof (views_short event c). rewrite projectedEventIncrement_length.
      destruct (planRecipient_run plans c (Z.of_nat (length (views c event))) N') as (plans1 & -> & Hl & Hb);
        [lia|lia|lia|done|]. cbn [mbind outcome_bind].
      destruct (IH plans1 (N' + Z.of_nat (length (views c event)))) as (plans2 & -> & Hl2 & Hb2); [lia|lia|done|].
      exists plans2. split_and!; [done| |done]. rewrite Hl2, Hl. done. }
  pose proof (affectedRecipients_short event). apply (Hgen _ plans N); [lia|lia|done].
Qed.

Lemma planEvents_run events : ∀ plans N, 0 ≤ N → N + 4 * Z.of_nat (length events) ≤ SIZE_MAX →
  Forall (λ p, 0 ≤ RecipientPlan.projectedEventCount p ≤ N) plans →
  ∃ plans', foldOutcome planEvent plans events = Ret plans' ∧
    RecipientPlan.clientId <$> plans' =
      firstAppearance (RecipientPlan.clientId <$> plans) (concat (affectedRecipients <$> events)).
Proof.
  induction events as [|e l IH]; intros plans N HN0 HN Hp; cbn [foldOutcome fmap list_fmap concat].
  { by exists plans. }
  simpl in HN. destruct (planEvent_run e plans N) as (plans1 & -> & Hl & Hb); [lia|lia|done|]. cbn [mbind outcome_bind].
  destruct (IH plans1 (N + 4)) as (plans2 & -> & Hl2); [lia|lia|done|].
  exists plans2. split; [done|]. by rewrite Hl2, Hl, firstAppearance_app.
Qed.

(** ** Filling the results *)
Lemma appendToRecipient_run (f : ClientId → RecipientResult) event c cs :
  side_known event → (∀ c, Recipient.recipient (f c) = c) → NoDup cs → c ∈ cs →
  appendToRecipient (f <$> cs) event c =
  Ret ((λ c', if bool_decide (c' = c)
              then setPrivateResult (f c') (Recipient.privateResult (f c') ++ views c event) else f c') <$> cs).
Proof.
  intros Hs Hf. induction cs as [|c' cs IH]; intros Hnd Hc; [by apply elem_of_nil in Hc|].
  apply NoDup_cons in Hnd as [Hn Hnd].
  cbn [fmap list_fmap appendToRecipient]. rewrite Hf. case_bool_decide as Heq.
  - subst c'. rewrite appendProjectedEvent_run by done. cbn. do 2 f_equal. apply list_fmap_ext. intros i c' Hi.
    rewrite bool_decide_eq_false_2; [done|]. intros ->. apply Hn. by eapply list_elem_of_lookup_2.
  - apply elem_of_cons in Hc as [->|Hc]; [done|]. by rewrite IH.
Qed.

Lemma projectEvent_run processed event cs :
  side_known event → NoDup cs → (∀ c, c ∈ affectedRecipients event → c ∈ cs) →
  projectEvent (recipientResult b processed <$> cs) event = Ret (recipientResult b (processed ++ [event]) <$> cs).
Proof.
  intros Hs Hnd Hin. unfold projectEvent.
  assert (Hgen : ∀ rs (f : ClientId → RecipientResult), (∀ c, c ∈ rs → c ∈ cs) → NoDup rs →
    (∀ c, Recipient.recipient (f c) = c) →
    foldOutcome (λ projected recipient, appendToRecipient projected event recipient) (f <$> cs) rs =
    Ret ((λ c, if bool_decide (c ∈ rs) then setPrivateResult (f c) (Recipient.privateResult (f c) ++ views c event)
               else f c) <$> cs)).
  { clear Hin. induction rs as [|r rs IH]; intros f Hin Hnd' Hf; cbn [foldOutcome]; [done|].
    apply NoDup_cons in Hnd' as [Hr Hnd'].
    rewrite (appendToRecipient_run f) by (done || apply Hin; by left). cbn [mbind outcome_bind].
    rewrite IH; [|intros c ?; apply Hin; by right|done|intros c; case_bool_decide; [by simpl|done]].
    f_equal. apply list_fmap_ext. intros i c Hi.
    destruct (decide (c = r)) as [->|Hc].
    - rewrite (bool_decide_eq_false_2 (r ∈ rs)), !bool_decide_eq_true_2; [done|by left|done|done].
    - rewrite (bool_decide_eq_false_2 (c = r)) by done. apply (f_equal (λ b : bool, if b then _ else _)).
      apply bool_decide_ext. rewrite elem_of_cons. naive_solver. }
  rewrite Hgen; [|done|apply affectedRecipients_NoDup|done]. f_equal. apply list_fmap_ext. intros i c Hi.
  unfold recipientResult. rewrite allViews_app. cbn [allViews fmap list_fmap concat]. rewrite app_nil_r.
  case_bool_decide as Hc; [done|]. by rewrite (views_unaffected event c Hc), app_nil_r.
Qed.

Lemma projectEvents_run cs : NoDup cs → ∀ events processed, Forall side_known events →
  (∀ c, c ∈ concat (affectedRecipients <$> events) → c ∈ cs) →
  foldOutcome projectEvent (recipientResult b processed <$> cs) events =
  Ret (recipientResult b (processed ++ events) <$> cs).
Proof.
  intros Hnd. induction events as [|e l IH]; intros processed Hs Hin; cbn [foldOutcome]; [by rewrite app_nil_r|].
  apply Forall_cons in Hs as [He Hs]. cbn [fmap list_fmap concat] in Hin. setoid_rewrite elem_of_app in Hin.
  rewrite projectEvent_run by auto. cbn [mbind outcome_bind]. rewrite IH by auto. by rewrite <-app_assoc.
Qed.

Definition recipientsOf (events : list BusinessEvent) : list ClientId :=
  firstAppearance [] (concat (affectedRecipients <$> events)).

Lemma projectPrivateResults_run :
  projectPrivateResults b = Ret (recipientResult b (Batch.events b) <$> recipientsOf (Batch.events b)).
Proof.
  unfold projectPrivateResults.
  destruct (planEvents_run (Batch.events b) [] 0) as (plans & -> & Hl); [lia|lia|constructor|]. cbn [mbind outcome_bind].
  assert ((λ plan, makeRecipientResult b (RecipientPlan.clientId plan) (RecipientPlan.projectedEventCount plan)) <$> plans
    = recipientResult b [] <$> recipientsOf (Batch.events b)) as ->.
  { unfold recipientsOf. change (@nil Z) with (RecipientPlan.clientId <$> []). rewrite <-Hl.
    rewrite <-list_fmap_compose. done. }
  rewrite projectEvents_run; [done| |done|].
  - apply firstAppearance_NoDup, NoDup_nil_2.
  - intros c Hc. apply firstAppearance_elem. by right.
Qed.

Lemma elem_of_recipientsOf events c : c ∈ recipientsOf events ↔ allViews events c ≠ [].
Proof. unfold recipientsOf. rewrite firstAppearance_elem, allViews_nonempty, elem_of_nil. tauto. Qed.
End projection.

(** ** Batches of the engine *)
Section engine_batches.
Context (run : ExchangeRunId) (message : sequenceMessage).

(** The taker or the owner of every event is the command's client. *)
Definition own_event (event : BusinessEvent) : Prop :=
  side_known event ∧ Msg.clientId message ∈ affectedRecipients event.

Lemma tradeEvents_own s fills : ∀ index r, Forall own_event (tradeEvents run message s index r fills).
Proof.
  induction fills as [|f fills IH]; intros index r; simpl; constructor; [|apply IH].
  split; [destruct s; [by left|by right]|]. simpl. case_bool_decide as Hc.
  - right. left.
  - rewrite Hc. left.
Qed.

Lemma own_single e : side_known e → affectedRecipients e = [Msg.clientId message] → Forall own_event [e].
Proof. intros ? He. constructor; [|constructor]. split; [done|]. rewrite He. left. Qed.

Lemma specProcess_own books : valid_command message →
  Forall own_event (Outcome.events (specProcess run message books).1).
Proof.
  intros Hv.
  assert (Hcancel : ∀ o, Forall own_event (Outcome.events (specCancel run message o books).1)).
  { intros o. unfold specCancel. destruct (findResting _ _) as [[p n]|]; [case_bool_decide|]; by apply own_single. }
  assert (Horder : ∀ s rest, Forall own_event (Outcome.events (specOrder run message s rest books).1)).
  { intros s rest. unfold specOrder. destruct (sweep _ _ _) as [[fills r'] opp].
    repeat case_match; simpl; try (by apply own_single); rewrite ?Forall_app;
      try split; try apply tradeEvents_own; by apply own_single. }
  unfold specProcess. destruct (Msg.type message); auto.
Qed.

Lemma specProcess_nonempty books : Msg.quantity message ≠ 0 ∨ Msg.type message = OrderType.CANCEL →
  is_u64 (Msg.quantity message) → Outcome.events (specProcess run message books).1 ≠ [].
Proof.
  intros Hq Hu.
  assert (Hcancel : ∀ o, Outcome.events (specCancel run message o books).1 ≠ []).
  { intros o. unfold specCancel. destruct (findResting _ _) as [[p n]|]; [case_bool_decide|]; done. }
  assert (Horder : ∀ s rest, Msg.quantity message ≠ 0 → Outcome.events (specOrder run message s rest books).1 ≠ []).
  { intros s rest Hq0. unfold specOrder. destruct (sweep _ _ _) as [[fills r'] opp] eqn:Hs.
    apply sweep_quantity in Hs as [Hs _]. destruct (bool_decide (_ < _)); [done|].
    destruct (_ && _ && _); [done|]. unfold is_u64 in Hu.
    case_bool_decide; [destruct rest; simpl; intros []%app_eq_nil; done|].
    destruct fills; [simpl in Hs; lia|done]. }
  unfold specProcess. destruct (Msg.type message) eqn:Ht; destruct Hq; try done; auto.
Qed.

(** The private event shows [c] its own side of the business event. *)
Inductive own_side (c : ClientId) : BusinessEvent → PrivateEvent → Prop :=
  | own_maker e : Trade.makerClientId e = c →
      own_side c (EvTrade e) (PvTrade (makerTrade e (flipSide (Trade.takerSide e))))
  | own_taker e : Trade.takerClientId e = c → own_side c (EvTrade e) (PvTrade (takerTrade e))
  | own_rested e : Rested.clientId e = c → own_side c (EvRested e) (PvRested e)
  | own_cancelled e : Cancelled.clientId e = c → own_side c (EvCancelled e) (PvCancelled e)
  | own_rejected e : Rejected.clientId e = c → own_side c (EvRejected e) (PvRejected e).

Lemma elem_of_views c e x : x ∈ views c e ↔ own_side c e x.
Proof.
  split.
  - destruct e; simpl; repeat case_bool_decide; rewrite ?elem_of_app, ?elem_of_cons, ?elem_of_nil;
      intros Hx; destruct_or?; subst; try done; by constructor.
  - destruct 1 as [e He|e He|e He|e He|e He]; simpl; rewrite (bool_decide_eq_true_2 _ He), ?elem_of_app, ?list_elem_of_singleton; auto.
Qed.
End engine_batches.

(** The fills' trades as the public sees them. *)
Definition publicFill (run : ExchangeRunId) (message : sequenceMessage) (s : BookSide) (k : nat) (f : Fill) : PublicTrade :=
  PublicTrade.mkPublicTrade (specEventId run message (Z.of_nat k)) (Msg.instrumentId message) (Fill.price f)
    (Fill.quantity f) (takerSideOf s).

Lemma projectTrades_omap events : ∀ projected,
  projectTrades projected events = projected ++ (publicTrade <$> omap getTrade events).
Proof.
  induction events as [|e l IH]; intros projected; simpl; [by rewrite app_nil_r|]. rewrite IH.
  destruct e; simpl; by rewrite ?fmap_cons, <-?app_assoc.
Qed.

Lemma projectPublicTrades_omap b : projectPublicTrades b = publicTrade <$> omap getTrade (Batch.events b).
Proof. apply projectTrades_omap. Qed.

Lemma publicTrades_fills run message s fills : ∀ index r,
  publicTrade <$> omap getTrade (tradeEvents run message s (Z.of_nat index) r fills) =
  imap (λ k f, publicFill run message s (index + k) f) fills.
Proof.
  induction fills as [|f fills IH]; intros index r; [done|]. cbn [tradeEvents omap list_omap getTrade imap fmap list_fmap].
  rewrite Nat.add_0_r. f_equal. replace (Z.of_nat index + 1) with (Z.of_nat (Datatypes.S index)) by lia.
  rewrite IH. apply imap_ext. intros k f' _. cbn. f_equal. lia.
Qed.

Lemma publicFills_quantity run message s fills : ∀ index,
  foldr (λ t acc, PublicTrade.executionQuantity t + acc) 0
    (imap (λ k f, publicFill run message s (index + k) f) fills) = fillsQuantity fills.
Proof.
  induction fills as [|f fills IH]; intros index; [done|]. rewrite imap_cons. simpl. f_equal.
  rewrite <-(IH (Datatypes.S index)). f_equal. apply imap_ext. intros k f' _. simpl. f_equal. lia.
Qed.

(** ** The properties *)

(** Projecting a batch for all its clients at once gives one result per client
    an event affects, in the order of their first appearance, and for every client
    the same result as the projection for that client alone: there is one exactly
    when that projection returns one.  Neither throws on trades whose side is BUY
    or SELL. *)
Theorem batch_projection_agrees b :
  Forall side_known (Batch.events b) → 4 * Z.of_nat (length (Batch.events b)) ≤ SIZE_MAX →
  ∃ rs, projectPrivateResults b = Ret rs ∧
    Recipient.recipient <$> rs = recipientsOf (Batch.events b) ∧ NoDup (Recipient.recipient <$> rs) ∧
    ∀ c, projectPrivateResult b c = Ret (snd <$> list_find (λ r, Recipient.recipient r = c) rs).
Proof.
  intros Hs Hsize. eexists. split; [by apply projectPrivateResults_run|].
  assert (Hid : Recipient.recipient <$> (recipientResult b (Batch.events b) <$> recipientsOf (Batch.events b)) =
    recipientsOf (Batch.events b)) by (rewrite <-list_fmap_compose; apply list_fmap_id).
  assert (Hnd : NoDup (recipientsOf (Batch.events b))) by apply firstAppearance_NoDup, NoDup_nil_2.
  rewrite Hid. split_and!; [done|done|]. intros c. rewrite projectPrivateResult_run by done. f_equal.
  destruct (list_find _ _) as [[i r]|] eqn:Hf.
  - apply list_find_Some in Hf as (Hi & Hr & _). apply list_lookup_fmap_Some in Hi as (c' & -> & Hi).
    cbn in Hr. subst c'. apply list_elem_of_lookup_2, elem_of_recipientsOf in Hi.
    by rewrite bool_decide_eq_false_2.
  - rewrite bool_decide_eq_true_2; [done|]. apply list_find_None in Hf. apply dec_stable. intros Hv.
    apply elem_of_recipientsOf in Hv. rewrite Forall_fmap, Forall_forall in Hf. by apply (Hf c).
Qed.

(** C24: privacy and completeness.  For every valid command of the engine the
    private results exist; an event a client is shown is its own side of one of
    the batch's events (never another client's order); every client with a side
    in an event is shown it; and exactly the issuing client, who always has a
    result, gets the command's correlation. *)
Theorem private_results_are_private n st message batch st' :
  engine_ok n st → n ≤ Msg.globalSequenceNumber message → valid_command message →
  is_u64 (Msg.quantity message) → Msg.quantity message ≠ 0 ∨ Msg.type message = OrderType.CANCEL →
  processCommand message st = (Ret batch, st') →
  ∃ rs, projectPrivateResults batch = Ret rs ∧
    (∀ r x, r ∈ rs → x ∈ Recipient.privateResult r →
       ∃ e, e ∈ Batch.events batch ∧ own_side (Recipient.recipient r) e x) ∧
    (∀ c e x, e ∈ Batch.events batch → own_side c e x →
       ∃ r, r ∈ rs ∧ Recipient.recipient r = c ∧ x ∈ Recipient.privateResult r) ∧
    (∀ r, r ∈ rs → Recipient.correlation r =
       if bool_decide (Recipient.recipient r = Msg.clientId message) then Some (Batch.correlation batch) else None) ∧
    Msg.clientId message ∈ Recipient.recipient <$> rs.
Proof.
  intros Hok Hn Hv Hu Hq Hcmd. destruct (processCommand_refines n st message Hok Hn Hv) as (st2 & Hcmd2 & _).
  rewrite Hcmd in Hcmd2. simplify_eq. set (b := specBatch _ _ _).
  pose proof (specProcess_own (State.exchangeRunId st) message (queueOf st) Hv) as Hown.
  pose proof (specProcess_nonempty (State.exchangeRunId st) message (queueOf st) Hq Hu) as Hne.
  destruct (specProcess_ids (State.exchangeRunId st) message (queueOf st)) as [_ Hmax].
  change (Outcome.events _) with (Batch.events b) in *.
  assert (Hrs : projectPrivateResults b = Ret (recipientResult b (Batch.events b) <$> recipientsOf (Batch.events b))).
  { apply projectPrivateResults_run; [eapply Forall_impl; [exact Hown|by intros ? []]|].
    unfold MAX_EVENTS_PER_COMMAND, SIZE_MAX, UINT64_MAX in *. lia. }
  eexists. split; [exact Hrs|]. split_and!.
  - intros r x (c & -> & Hc)%list_elem_of_fmap (e & He & Hx%elem_of_views)%elem_of_allViews. eauto.
  - intros c e x He Hx. exists (recipientResult b (Batch.events b) c).
    assert (x ∈ allViews (Batch.events b) c) as Hall by (apply elem_of_allViews; exists e; by rewrite elem_of_views).
    split_and!; [|done|done]. apply list_elem_of_fmap_2, elem_of_recipientsOf. intros Hnil.
    rewrite Hnil in Hall. by apply elem_of_nil in Hall.
  - intros r (c & -> & _)%list_elem_of_fmap. done.
  - rewrite <-list_fmap_compose. apply list_elem_of_fmap. exists (Msg.clientId message). split; [done|].
    apply elem_of_recipientsOf, allViews_nonempty. destruct (Batch.events b) as [|e l]; [done|].
    apply Forall_cons in Hown as [[_ ?] _]. cbn. apply elem_of_app. by left.
Qed.

(** The public trades of a new order are its fills against the opposite queue,
    in price-time order, numbered from 0, with the order's side as the aggressor;
    their total is the quantity that did not stay unmatched; a refused order and a
    cancel publish nothing. *)
Theorem public_trades_are_fills n st message batch st' :
  engine_ok n st → n ≤ Msg.globalSequenceNumber message → valid_command message →
  processCommand message st = (Ret batch, st') →
  let i := Msg.instrumentId message in
  (∀ s fills left queue', restingSide (Msg.type message) = Some s → Batch.result batch = Processing.APPLIED →
     sweep (acceptableFor s (Msg.price message)) (Msg.quantity message) (queueOf st i (opposite s)) =
       (fills, left, queue') →
     projectPublicTrades batch = imap (publicFill (State.exchangeRunId st) message s) fills ∧
     foldr (λ t acc, PublicTrade.executionQuantity t + acc) 0 (projectPublicTrades batch) + left =
       Msg.quantity message) ∧
  (Msg.type message = OrderType.CANCEL ∨ Batch.result batch = Processing.BOOK_CAPACITY_EXCEEDED →
     projectPublicTrades batch = []).
Proof.
  intros Hok Hn Hv Hcmd i. destruct (processCommand_refines n st message Hok Hn Hv) as (st2 & Hcmd2 & _).
  rewrite Hcmd in Hcmd2. injection Hcmd2 as -> <-. rewrite !projectPublicTrades_omap.
  unfold specBatch. cbn [Batch.events Batch.result]. split.
  - intros s fills left queue' Hs Hr Hsweep. subst i.
    assert (Hpub : publicTrade <$> omap getTrade (Outcome.events (specProcess (State.exchangeRunId st) message (queueOf st)).1) =
      imap (publicFill (State.exchangeRunId st) message s) fills).
    { rewrite (specProcess_order _ _ s) in Hr |- * by done. unfold specOrder in Hr |- *. rewrite Hsweep in Hr |- *.
      pose proof (publicTrades_fills (State.exchangeRunId st) message s fills 0 (Msg.quantity message)) as Hf.
      repeat case_match; simpl in Hr |- *; try done; by rewrite ?omap_app, ?fmap_app, ?app_nil_r. }
    rewrite Hpub. split; [done|]. apply sweep_quantity in Hsweep as [<- _]. f_equal.
    apply (publicFills_quantity _ _ _ _ 0).
  - intros Hcase. destruct (restingSide (Msg.type message)) as [s|] eqn:Hs.
    + destruct Hcase as [Ht|Hr]; [by rewrite Ht in Hs|].
      rewrite (specProcess_order _ _ s) in Hr |- * by done. unfold specOrder in Hr |- *.
      destruct (sweep _ _ _) as [[fills r'] opp]. repeat case_match; simpl in Hr |- *; done.
    + unfold specProcess, specCancel. destruct (Msg.type message); try done;
        destruct (findResting _ _) as [[p nd]|]; try case_bool_decide; done.
Qed.

(** ** Witnesses *)
Definition demoBatch : CommandResultBatch := specBatch 7 demoBuy (queueOf demoState).

Lemma batch_projection_agrees_witness :
  ∃ rs, projectPrivateResults demoBatch = Ret rs ∧
    Recipient.recipient <$> rs = [10; 20] ∧ NoDup (Recipient.recipient <$> rs) ∧
    ∀ c, projectPrivateResult demoBatch c = Ret (snd <$> list_find (λ r, Recipient.recipient r = c) rs).
Proof.
  apply (batch_projection_agrees demoBatch).
  - apply Forall_forall. intros e He. vm_compute in He.
    apply elem_of_cons in He as [->|[->|He]%elem_of_cons]; [by left|done|by apply elem_of_nil in He].
  - vm_compute. discriminate.
Defined.

Lemma private_results_are_private_witness :
  ∃ rs, projectPrivateResults demoBatch = Ret rs ∧
    (∀ r x, r ∈ rs → x ∈ Recipient.privateResult r →
       ∃ e, e ∈ Batch.events demoBatch ∧ own_side (Recipient.recipient r) e x) ∧
    (∀ c e x, e ∈ Batch.events demoBatch → own_side c e x →
       ∃ r, r ∈ rs ∧ Recipient.recipient r = c ∧ x ∈ Recipient.privateResult r) ∧
    (∀ r, r ∈ rs → Recipient.correlation r =
       if bool_decide (Recipient.recipient r = 20) then Some (Batch.correlation demoBatch) else None) ∧
    20 ∈ Recipient.recipient <$> rs.
Proof.
  apply (private_results_are_private 2 demoState demoBuy demoBatch (afterCommand demoBuy demoState)).
  - apply demo_ok.
  - simpl. lia.
  - apply demoBuy_valid.
  - vm_compute. split; discriminate.
  - left. discriminate.
  - vm_compute. reflexivity.
Defined.

Lemma public_trades_are_fills_witness :
  projectPublicTrades demoBatch =
    [PublicTrade.mkPublicTrade (EventId.mkEventId 2 0 7) 1 100 5 Side.BUY] ∧
  foldr (λ t acc, PublicTrade.executionQuantity t + acc) 0 (projectPublicTrades demoBatch) + 3 = 8.
Proof.
  apply (proj1 (public_trades_are_fills 2 demoState demoBuy demoBatch (afterCommand demoBuy demoState)
    demo_ok ltac:(simpl; lia) demoBuy_valid ltac:(vm_compute; reflexivity)) Bids
    [Fill.mkFill 100 (OrderNode.mkOrderNode 1 10 5) 5] 3 []); vm_compute; reflexivity.
Defined.
