(* ===== verification/Queues.v ===== *)
(** * The bounded queues

    [command_result_queue.hpp], [private_result_queue.hpp] and [public_trade_queue.hpp]
    of [src/matching_engine/include], and the interface of the lock-free
    [boost::lockfree::queue] behind [src/core/shared_queue/include/shared_queue.hpp].
    Every operation of the first three holds the queue's mutex, so it is one step. *)
From S2P Require Import Prelude Domain Projection.

(** ** The lock-free queue

    Boost's documentation: [push] returns false only when no node can be allocated
    and then has no effect; [pop] returns false exactly when the queue is empty and
    otherwise yields the oldest element; [empty] reads the state. *)
Class SharedQueue (T Q : Type) := {
  sharedPush : T → Q → bool * Q;
  sharedPop : Q → option T * Q;
  sharedEmpty : Q → bool }.

Class SharedQueueLaws (T Q : Type) `{SharedQueue T Q} := {
  queued : Q → list T;
  push_law x q : queued (sharedPush x q).2 = if (sharedPush x q).1 then queued q ++ [x] else queued q;
  pop_law q : sharedPop q = (head (queued q), (sharedPop q).2) ∧ queued (sharedPop q).2 = tail (queued q);
  empty_law q : sharedEmpty q = bool_decide (queued q = []) }.

(** The class [SharedQueue] of the source forwards to the queue it holds. *)
Record SharedQueueObject (Q : Type) := mkSharedQueueObject { q_ : Q }.
Arguments mkSharedQueueObject {_} _.
Arguments q_ {_} _.

Section forwarding.
Context {T Q : Type} `{SharedQueue T Q}.
Implicit Types s : SharedQueueObject Q.

Definition pushShared (data : T) s : bool * SharedQueueObject Q :=
  ((sharedPush data (q_ s)).1, mkSharedQueueObject (sharedPush data (q_ s)).2).
Definition popShared s : option T * SharedQueueObject Q :=
  ((sharedPop (q_ s)).1, mkSharedQueueObject (sharedPop (q_ s)).2).
Definition emptyShared s : bool := sharedEmpty (q_ s).

(** It keeps the promises of the queue it holds, so what is proved of every queue
    with these laws holds of it. *)
Definition SharedQueueObject_ops : SharedQueue T (SharedQueueObject Q) := {|
  sharedPush := pushShared; sharedPop := popShared; sharedEmpty := emptyShared |}.

Definition SharedQueueObject_laws `{!SharedQueueLaws T Q} : @SharedQueueLaws T (SharedQueueObject Q) SharedQueueObject_ops.
Proof.
  refine (@Build_SharedQueueLaws T (SharedQueueObject Q) SharedQueueObject_ops (λ s, queued (q_ s)) _ _ _).
  - intros x s. apply (push_law x (q_ s)).
  - intros s. destruct (pop_law (q_ s)) as [Hpop Htail]. split; [|exact Htail]. cbn. unfold popShared at 1. by rewrite Hpop at 1.
  - intros s. apply (empty_law (q_ s)).
Defined.
End forwarding.

(** A queue with a fixed number of nodes. *)
Record FixedQueue (T : Type) := mkFixedQueue { nodes : nat; elements : list T }.
Arguments mkFixedQueue {_} _ _.
Arguments nodes {_} _.
Arguments elements {_} _.

#[export] Instance FixedQueue_ops T : SharedQueue T (FixedQueue T) := {
  sharedPush x q := if bool_decide (length (elements q) < nodes q)%nat
                    then (true, mkFixedQueue (nodes q) (elements q ++ [x])) else (false, q);
  sharedPop q := match elements q with
                 | [] => (None, q)
                 | x :: l => (Some x, mkFixedQueue (nodes q) l)
                 end;
  sharedEmpty q := match elements q with [] => true | _ => false end }.

#[export] Program Instance FixedQueue_laws T : SharedQueueLaws T (FixedQueue T) := {| queued := elements |}.
Next Obligation. intros T x q. simpl. by case_bool_decide. Qed.
Next Obligation. intros T [n [|x l]]; done. Qed.
Next Obligation. by intros T [n [|x l]]. Qed.

(** ** Results for the completion consumer *)
Module ResultQueue.
Record BoundedCommandResultQueue := mkResultQueue {
  capacity_ : Z;
  batches_ : list CommandResultBatch }.

Definition newResultQueue (capacity : Z) : outcome BoundedCommandResultQueue :=
  throw_if (bool_decide (capacity = 0))
    (invalid_argument "command-result queue capacity must be positive") ;;
  Ret (mkResultQueue capacity []).

(** The shared pointer is [None] when null. *)
Definition tryPushResult (batch : option CommandResultBatch) : M BoundedCommandResultQueue bool := λ q,
  match batch with
  | None => (Throw (invalid_argument "command-result queue cannot accept an empty batch pointer"), q)
  | Some batch =>
      if bool_decide (capacity_ q ≤ Z.of_nat (length (batches_ q))) then (Ret false, q)
      else (Ret true, mkResultQueue (capacity_ q) (batches_ q ++ [batch]))
  end.

(** [None] leaves the caller's pointer as it was. *)
Definition tryPopResult (q : BoundedCommandResultQueue) : option CommandResultBatch * BoundedCommandResultQueue :=
  match batches_ q with
  | [] => (None, q)
  | batch :: batches => (Some batch, mkResultQueue (capacity_ q) batches)
  end.
End ResultQueue.
Abbreviation BoundedCommandResultQueue := ResultQueue.BoundedCommandResultQueue.

(** ** Private results *)
Module PrivateQueue.
Record BoundedPrivateResultQueue := mkPrivateQueue {
  eventCapacity_ : Z;
  batches_ : list (list RecipientResult);
  queuedEventCount_ : Z }.

Definition newPrivateQueue (eventCapacity : Z) : outcome BoundedPrivateResultQueue :=
  throw_if (bool_decide (eventCapacity = 0))
    (invalid_argument "private-result queue event capacity must be positive") ;;
  Ret (mkPrivateQueue eventCapacity [] 0).

Definition resultSize (recipient : RecipientResult) : Z := Z.of_nat (length (Recipient.privateResult recipient)).

Fixpoint countBatchEvents (batch : list RecipientResult) (batchEventCount : Z) : outcome Z :=
  match batch with
  | [] => Ret batchEventCount
  | recipient :: batch' =>
      throw_if (bool_decide (SIZE_MAX - batchEventCount < resultSize recipient))
        (length_error "private-result batch event count overflow") ;;
      countBatchEvents batch' (batchEventCount + resultSize recipient)
  end.

Definition tryPushPrivate (batch : list RecipientResult) : M BoundedPrivateResultQueue bool :=
  throw_ifM (bool_decide (batch = [])) (invalid_argument "private-result queue cannot accept an empty batch") ;;
  batchEventCount ← liftM (λ _, countBatchEvents batch 0);
  throw_ifM (bool_decide (batchEventCount = 0))
    (invalid_argument "private-result queue cannot accept a batch without events") ;;
  q ← getM;
  if bool_decide (wrap64 (eventCapacity_ q - queuedEventCount_ q) < batchEventCount) then mret false
  else
    putM (mkPrivateQueue (eventCapacity_ q) (batches_ q ++ [batch])
            (wrap64 (queuedEventCount_ q + batchEventCount))) ;;
    mret true.

Definition tryPopPrivate (q : BoundedPrivateResultQueue) : option (list RecipientResult) * BoundedPrivateResultQueue :=
  match batches_ q with
  | [] => (None, q)
  | batch :: batches =>
      (Some batch, mkPrivateQueue (eventCapacity_ q) batches
         (foldl (λ count recipient, wrap64 (count - resultSize recipient)) (queuedEventCount_ q) batch))
  end.
End PrivateQueue.
Abbreviation BoundedPrivateResultQueue := PrivateQueue.BoundedPrivateResultQueue.

(** ** Public trades *)
Module TradeQueue.
Record BoundedPublicTradeQueue := mkTradeQueue {
  recordCapacity_ : Z;
  batches_ : list (list PublicTrade);
  queuedRecordCount_ : Z }.

Definition newTradesQueue (recordCapacity : Z) : outcome BoundedPublicTradeQueue :=
  throw_if (bool_decide (recordCapacity = 0))
    (invalid_argument "public-trade queue record capacity must be positive") ;;
  Ret (mkTradeQueue recordCapacity [] 0).

Definition tryPushTrades (batch : list PublicTrade) : M BoundedPublicTradeQueue bool :=
  throw_ifM (bool_decide (batch = [])) (invalid_argument "public-trade queue cannot accept an empty batch") ;;
  q ← getM;
  if bool_decide (wrap64 (recordCapacity_ q - queuedRecordCount_ q) < Z.of_nat (length batch)) then mret false
  else
    putM (mkTradeQueue (recordCapacity_ q) (batches_ q ++ [batch])
            (wrap64 (queuedRecordCount_ q + Z.of_nat (length batch)))) ;;
    mret true.

Definition tryPopTrades (q : BoundedPublicTradeQueue) : option (list PublicTrade) * BoundedPublicTradeQueue :=
  match batches_ q with
  | [] => (None, q)
  | batch :: batches =>
      (Some batch, mkTradeQueue (recordCapacity_ q) batches
         (wrap64 (queuedRecordCount_ q - Z.of_nat (length batch))))
  end.
End TradeQueue.
Abbreviation BoundedPublicTradeQueue := TradeQueue.BoundedPublicTradeQueue.
