(* ===== verification/Admission.v ===== *)
(** * Command admission

    [src/core/admission/src/command_admission.cpp], [command_admission_recovery.cpp]
    and [admission_completion_consumer.cpp]: the index that makes a command
    happen at most once.  Every public operation holds the index's mutex for the
    whole of its effect, so each is one step on the state; the keys are looked up
    and never enumerated, so the ordered map is a finite map. *)
From S2P Require Import Prelude Domain Bytes JournalCodec RunHeaderCodec Posix JournalReader Projection Queues.

Module AdmissionKey.
Record AdmissionKey := mkAdmissionKey {
  clientId : ClientId;
  clientCommandId : ClientCommandId }.
#[export] Instance AdmissionKey_eq_dec : EqDecision AdmissionKey.
Proof. solve_decision. Defined.
#[export] Program Instance AdmissionKey_countable : Countable AdmissionKey :=
  inj_countable' (λ k, (clientId k, clientCommandId k)) (λ p, mkAdmissionKey p.1 p.2) _.
Next Obligation. by intros []. Qed.
End AdmissionKey.
Export (hints) AdmissionKey.
Abbreviation AdmissionKey := AdmissionKey.AdmissionKey.

(** [AdmissionKeyLess]; a [string_view] compares its bytes as unsigned. *)
Definition AdmissionKeyLess (left right : AdmissionKey) : bool :=
  if bool_decide (AdmissionKey.clientId left ≠ AdmissionKey.clientId right)
  then bool_decide (AdmissionKey.clientId left < AdmissionKey.clientId right)
  else String.ltb (AdmissionKey.clientCommandId left) (AdmissionKey.clientCommandId right).

Module Normalized.
Record NormalizedNewOrder := mkNewOrder {
  instrumentId : InstrumentId;
  configurationVersion : Z;
  side : Side;
  price : Price;
  quantity : Quantity;
  timeInForce : TimeInForce }.
#[export] Instance NormalizedNewOrder_eq_dec : EqDecision NormalizedNewOrder.
Proof. solve_decision. Defined.
End Normalized.
Export (hints) Normalized.
Abbreviation NormalizedNewOrder := Normalized.NormalizedNewOrder.

Record NormalizedCancel := mkNormalizedCancel {
  cancelInstrumentId : InstrumentId;
  cancelTargetOrderId : TargetOrderId }.
#[export] Instance NormalizedCancel_eq_dec : EqDecision NormalizedCancel.
Proof. solve_decision. Defined.

Inductive NormalizedBusinessCommand :=
  | NormNewOrder (command : NormalizedNewOrder)
  | NormCancel (command : NormalizedCancel).
#[export] Instance NormalizedBusinessCommand_eq_dec : EqDecision NormalizedBusinessCommand.
Proof. solve_decision. Defined.

Module AdmissionStatus.
Inductive AdmissionStatus :=
  FIRST_SUBMISSION | IDENTICAL_IN_FLIGHT | IDENTICAL_COMPLETED | CONFLICTING_REUSE | ADMISSION_UNAVAILABLE.
#[export] Instance AdmissionStatus_eq_dec : EqDecision AdmissionStatus.
Proof. solve_decision. Defined.
End AdmissionStatus.
Export (hints) AdmissionStatus.
Abbreviation AdmissionStatus := AdmissionStatus.AdmissionStatus.

Record AdmissionDecision := mkDecision {
  status : AdmissionStatus;
  rejectionReason : option AdmissionRejectionReason;
  originalResult : option CommandResultBatch }.

Record AdmissionStatistics := mkStatistics {
  firstSubmissions : Z;
  identicalInFlight : Z;
  identicalCompleted : Z;
  conflictingReuse : Z;
  admissionUnavailable : Z }.

Module MarkSequenced.
Inductive MarkSequencedStatus :=
  | SEQUENCED | IDEMPOTENT | INVALID_SEQUENCE | UNKNOWN_RESERVATION | COMMAND_MISMATCH | WRONG_STATE
  | SEQUENCE_MISMATCH.
#[export] Instance MarkSequencedStatus_eq_dec : EqDecision MarkSequencedStatus.
Proof. solve_decision. Defined.
End MarkSequenced.
Export (hints) MarkSequenced.
Abbreviation MarkSequencedStatus := MarkSequenced.MarkSequencedStatus.

Module Completion.
Inductive CompletionStatus := COMPLETED | INVALID_BATCH | UNKNOWN_RESERVATION | WRONG_STATE | CORRELATION_MISMATCH.
#[export] Instance CompletionStatus_eq_dec : EqDecision CompletionStatus.
Proof. solve_decision. Defined.
End Completion.
Export (hints) Completion.
Abbreviation CompletionStatus := Completion.CompletionStatus.

Module RecordState.
Inductive RecordState := RESERVED | SEQUENCED | COMPLETED.
#[export] Instance RecordState_eq_dec : EqDecision RecordState.
Proof. solve_decision. Defined.
End RecordState.
Export (hints) RecordState.
Abbreviation RecordState := RecordState.RecordState.

(** [CommandAdmissionIndex::Record]. *)
Module Entry.
Record AdmissionRecord := mkRecord {
  command : NormalizedBusinessCommand;
  state : RecordState;
  commandSequence : CommandSequence;
  result : option CommandResultBatch }.
End Entry.
Abbreviation AdmissionRecord := Entry.AdmissionRecord.

Record CommandAdmissionIndex := mkIndex {
  capacity_ : Z;
  exchangeRunId_ : ExchangeRunId;
  admissionOpen_ : bool;
  records_ : gmap AdmissionKey AdmissionRecord;
  statistics_ : AdmissionStatistics }.

Definition noStatistics : AdmissionStatistics := mkStatistics 0 0 0 0 0.

(** The two constructors. *)
Definition newUnboundIndex (capacity : Z) : outcome CommandAdmissionIndex :=
  throw_if (bool_decide (capacity = 0)) (invalid_argument "command-admission capacity must be positive") ;;
  Ret (mkIndex capacity 0 true ∅ noStatistics).

Definition newRunBoundIndex (capacity : Z) (exchangeRunId : ExchangeRunId) : outcome CommandAdmissionIndex :=
  throw_if (bool_decide (capacity = 0)) (invalid_argument "command-admission capacity must be positive") ;;
  throw_if (bool_decide (exchangeRunId = 0))
    (invalid_argument "run-bound command admission requires a nonzero ExchangeRunId") ;;
  Ret (mkIndex capacity exchangeRunId false ∅ noStatistics).

Definition toAdmissionSide (side : orderType) : outcome Side :=
  match side with
  | OrderType.BUY => Ret Side.BUY
  | OrderType.SELL => Ret Side.SELL
  | _ => Throw (invalid_argument "admission NewOrder must have BUY or SELL side")
  end.

Definition keyFrom (command : sequenceMessage) : outcome AdmissionKey :=
  match Msg.clientCommandId command with
  | Some clientCommandId =>
      throw_if (bool_decide (Msg.clientId command = 0))
        (invalid_argument "admission command is missing exact client identity") ;;
      Ret (AdmissionKey.mkAdmissionKey (Msg.clientId command) clientCommandId)
  | None => Throw (invalid_argument "admission command is missing exact client identity")
  end.

Definition keyFromCorrelation (correlation : CommandResultCorrelation) : AdmissionKey :=
  AdmissionKey.mkAdmissionKey (Correlation.clientId correlation) (Correlation.clientCommandId correlation).

Definition businessCommandFrom (command : sequenceMessage) : outcome NormalizedBusinessCommand :=
  throw_if (bool_decide (Msg.instrumentId command = 0))
    (invalid_argument "admission command is missing InstrumentId") ;;
  if bool_decide (Msg.type command = OrderType.BUY) || bool_decide (Msg.type command = OrderType.SELL) then
    throw_if (bool_decide (Msg.configurationVersion command = 0) || bool_decide (Msg.price command = 0) ||
              bool_decide (Msg.quantity command = 0))
      (invalid_argument "admission NewOrder is missing normalized business fields") ;;
    side ← toAdmissionSide (Msg.type command);
    Ret (NormNewOrder (Normalized.mkNewOrder (Msg.instrumentId command) (Msg.configurationVersion command) side
           (Msg.price command) (Msg.quantity command) (Msg.tif command)))
  else if bool_decide (Msg.type command = OrderType.CANCEL) then
    match Msg.targetOrderId command with
    | Some target =>
        throw_if (bool_decide (target = 0)) (invalid_argument "admission Cancel is missing TargetOrderId") ;;
        Ret (NormCancel (mkNormalizedCancel (Msg.instrumentId command) target))
    | None => Throw (invalid_argument "admission Cancel is missing TargetOrderId")
    end
  else Throw (invalid_argument "unsupported command type reached admission").

(** ** Updates *)
Definition setRecords (records : gmap AdmissionKey AdmissionRecord) (index : CommandAdmissionIndex)
    : CommandAdmissionIndex :=
  mkIndex (capacity_ index) (exchangeRunId_ index) (admissionOpen_ index) records (statistics_ index).

(** [++statistics_.<counter>], a [std::size_t]. *)
Definition countDecision (decided : AdmissionStatus) (s : AdmissionStatistics) : AdmissionStatistics :=
  let '(mkStatistics first inFlight completed conflicting unavailable) := s in
  match decided with
  | AdmissionStatus.FIRST_SUBMISSION => mkStatistics (wrap64 (first + 1)) inFlight completed conflicting unavailable
  | AdmissionStatus.IDENTICAL_IN_FLIGHT => mkStatistics first (wrap64 (inFlight + 1)) completed conflicting unavailable
  | AdmissionStatus.IDENTICAL_COMPLETED => mkStatistics first inFlight (wrap64 (completed + 1)) conflicting unavailable
  | AdmissionStatus.CONFLICTING_REUSE => mkStatistics first inFlight completed (wrap64 (conflicting + 1)) unavailable
  | AdmissionStatus.ADMISSION_UNAVAILABLE =>
      mkStatistics first inFlight completed conflicting (wrap64 (unavailable + 1))
  end.

Definition countStatus (decided : AdmissionStatus) (index : CommandAdmissionIndex) : CommandAdmissionIndex :=
  mkIndex (capacity_ index) (exchangeRunId_ index) (admissionOpen_ index) (records_ index)
    (countDecision decided (statistics_ index)).

Definition setAdmissionOpen (open : bool) (index : CommandAdmissionIndex) : CommandAdmissionIndex :=
  mkIndex (capacity_ index) (exchangeRunId_ index) open (records_ index) (statistics_ index).

(** ** Reservation *)
Section reservation.
Context {Q : Type} `{SharedQueue sequenceMessage Q}.

(** Under the mutex; the staging queue is [None] for a null pointer. *)
Definition reserveLocked (key : AdmissionKey) (businessCommand : NormalizedBusinessCommand)
    (command : sequenceMessage) (capacityAvailable : bool)
    (state : CommandAdmissionIndex * option Q) : AdmissionDecision * (CommandAdmissionIndex * option Q) :=
  let '(index, stagingQueue) := state in
  let unavailable reason :=
    (mkDecision AdmissionStatus.ADMISSION_UNAVAILABLE reason None,
     (countStatus AdmissionStatus.ADMISSION_UNAVAILABLE index, stagingQueue)) in
  match records_ index !! key with
  | Some existing =>
      if bool_decide (Entry.command existing ≠ businessCommand) then
        (mkDecision AdmissionStatus.CONFLICTING_REUSE (Some DUPLICATE_COMMAND_CONFLICT) None,
         (countStatus AdmissionStatus.CONFLICTING_REUSE index, stagingQueue))
      else if bool_decide (Entry.state existing ≠ RecordState.COMPLETED) then
        (mkDecision AdmissionStatus.IDENTICAL_IN_FLIGHT None None,
         (countStatus AdmissionStatus.IDENTICAL_IN_FLIGHT index, stagingQueue))
      else
        (mkDecision AdmissionStatus.IDENTICAL_COMPLETED None (Entry.result existing),
         (countStatus AdmissionStatus.IDENTICAL_COMPLETED index, stagingQueue))
  | None =>
      if negb capacityAvailable then unavailable (Some RUN_CAPACITY_REACHED)
      else if negb (admissionOpen_ index) ||
              bool_decide (capacity_ index ≤ Z.of_nat (size (records_ index))) then
        unavailable (if admissionOpen_ index then None else Some EXCHANGE_RUN_UNAVAILABLE)
      else
        let reserved := setRecords (<[key := Entry.mkRecord businessCommand RecordState.RESERVED 0 None]>
                                      (records_ index)) index in
        let first index' stagingQueue' :=
          (mkDecision AdmissionStatus.FIRST_SUBMISSION None None,
           (countStatus AdmissionStatus.FIRST_SUBMISSION index', stagingQueue')) in
        match stagingQueue with
        | None => first reserved None
        | Some queue =>
            let '(pushed, queue') := sharedPush command queue in
            if pushed then first reserved (Some queue')
            else
              (mkDecision AdmissionStatus.ADMISSION_UNAVAILABLE (Some GATEWAY_BUSY) None,
               (countStatus AdmissionStatus.ADMISSION_UNAVAILABLE
                  (setRecords (delete key (records_ reserved)) reserved), Some queue'))
        end
  end.

Definition reserveImpl (command : sequenceMessage) (capacityAvailable : bool)
    : M (CommandAdmissionIndex * option Q) AdmissionDecision :=
  key ← liftM (λ _, keyFrom command);
  businessCommand ← liftM (λ _, businessCommandFrom command);
  stepM (reserveLocked key businessCommand command capacityAvailable).

Definition reserve (command : sequenceMessage) (index : CommandAdmissionIndex)
    : outcome AdmissionDecision * CommandAdmissionIndex :=
  let '(decision, (index', _)) := reserveImpl command true (index, None) in (decision, index').

Definition reserveAndStageForRunCapacity (command : sequenceMessage) (capacityAvailable : bool)
    : M (CommandAdmissionIndex * Q) AdmissionDecision := λ state,
  let '(decision, (index', queue')) := reserveImpl command capacityAvailable (state.1, Some state.2) in
  (decision, (index', default state.2 queue')).

Definition reserveAndStage (command : sequenceMessage) : M (CommandAdmissionIndex * Q) AdmissionDecision :=
  reserveAndStageForRunCapacity command true.
End reservation.

(** ** Sequencing and completion *)
Definition markSequencedLocked (key : AdmissionKey) (businessCommand : NormalizedBusinessCommand)
    (sequence : CommandSequence) (index : CommandAdmissionIndex) : MarkSequencedStatus * CommandAdmissionIndex :=
  match records_ index !! key with
  | None => (MarkSequenced.UNKNOWN_RESERVATION, index)
  | Some existing =>
      if bool_decide (Entry.command existing ≠ businessCommand) then (MarkSequenced.COMMAND_MISMATCH, index)
      else
        match Entry.state existing with
        | RecordState.RESERVED =>
            (MarkSequenced.SEQUENCED,
             setRecords (<[key := Entry.mkRecord (Entry.command existing) RecordState.SEQUENCED sequence
                                    (Entry.result existing)]> (records_ index)) index)
        | RecordState.SEQUENCED =>
            if bool_decide (Entry.commandSequence existing ≠ sequence) then (MarkSequenced.SEQUENCE_MISMATCH, index)
            else (MarkSequenced.IDEMPOTENT, index)
        | RecordState.COMPLETED => (MarkSequenced.WRONG_STATE, index)
        end
  end.

Definition markSequenced (command : sequenceMessage) : M CommandAdmissionIndex MarkSequencedStatus :=
  if bool_decide (Msg.globalSequenceNumber command = 0) then mret MarkSequenced.INVALID_SEQUENCE
  else
    key ← liftM (λ _, keyFrom command);
    businessCommand ← liftM (λ _, businessCommandFrom command);
    stepM (markSequencedLocked key businessCommand (Msg.globalSequenceNumber command)).

Definition complete (result : option CommandResultBatch) (index : CommandAdmissionIndex)
    : CompletionStatus * CommandAdmissionIndex :=
  match result with
  | None => (Completion.INVALID_BATCH, index)
  | Some batch =>
      let correlation := Batch.correlation batch in
      if bool_decide (Correlation.clientId correlation = 0) ||
         bool_decide (Correlation.commandSequence correlation = 0) ||
         bool_decide (Correlation.clientCommandId correlation = ""%string) then (Completion.INVALID_BATCH, index)
      else if bool_decide (Correlation.exchangeRunId correlation ≠ exchangeRunId_ index) then
        (Completion.CORRELATION_MISMATCH, index)
      else
        let key := keyFromCorrelation correlation in
        match records_ index !! key with
        | None => (Completion.UNKNOWN_RESERVATION, index)
        | Some existing =>
            if bool_decide (Entry.state existing ≠ RecordState.SEQUENCED) then (Completion.WRONG_STATE, index)
            else if bool_decide (Entry.commandSequence existing ≠ Correlation.commandSequence correlation) then
              (Completion.CORRELATION_MISMATCH, index)
            else
              (Completion.COMPLETED,
               setRecords (<[key := Entry.mkRecord (Entry.command existing) RecordState.COMPLETED
                                      (Entry.commandSequence existing) result]> (records_ index)) index)
        end
  end.

Definition completedResult (command : sequenceMessage) (index : CommandAdmissionIndex)
    : outcome (option CommandResultBatch) :=
  key ← keyFrom command;
  businessCommand ← businessCommandFrom command;
  match records_ index !! key with
  | None => Ret None
  | Some existing =>
      if bool_decide (Entry.state existing ≠ RecordState.COMPLETED) ||
         bool_decide (Entry.command existing ≠ businessCommand) then Ret None
      else Ret (Entry.result existing)
  end.

(** ** The completion consumer *)
Module Consumer.
Record AdmissionCompletionConsumer := mkConsumer {
  resultQueue_ : BoundedCommandResultQueue;
  admissionIndex_ : CommandAdmissionIndex;
  pendingBatch_ : option CommandResultBatch;
  failure_ : option CompletionStatus }.
End Consumer.
Abbreviation AdmissionCompletionConsumer := Consumer.AdmissionCompletionConsumer.

Definition completionStatusName (s : CompletionStatus) : string :=
  match s with
  | Completion.COMPLETED => "Completed"
  | Completion.INVALID_BATCH => "InvalidBatch"
  | Completion.UNKNOWN_RESERVATION => "UnknownReservation"
  | Completion.WRONG_STATE => "WrongState"
  | Completion.CORRELATION_MISMATCH => "CorrelationMismatch"
  end.

(** The pending batch is taken from the queue unless one is held. *)
Definition takePending (c : AdmissionCompletionConsumer) : bool * AdmissionCompletionConsumer :=
  match Consumer.pendingBatch_ c with
  | Some _ => (true, c)
  | None =>
      match ResultQueue.tryPopResult (Consumer.resultQueue_ c) with
      | (None, queue) =>
          (false, Consumer.mkConsumer queue (Consumer.admissionIndex_ c) None (Consumer.failure_ c))
      | (batch, queue) =>
          (true, Consumer.mkConsumer queue (Consumer.admissionIndex_ c) batch (Consumer.failure_ c))
      end
  end.

(** [Some batch] is [true] with [completedBatch] set; [None] is [false]. *)
Definition processNextCompletion : M AdmissionCompletionConsumer (option CommandResultBatch) := λ c,
  match Consumer.failure_ c with
  | Some failure =>
      (Throw (logic_error ("admission completion consumer is fail-stopped after " ++ completionStatusName failure)), c)
  | None =>
      let '(taken, c) := takePending c in
      if negb taken then (Ret None, c)
      else
        let '(s, index) := complete (Consumer.pendingBatch_ c) (Consumer.admissionIndex_ c) in
        if bool_decide (s ≠ Completion.COMPLETED) then
          (Throw (logic_error ("admission completion invariant failure: " ++ completionStatusName s)),
           Consumer.mkConsumer (Consumer.resultQueue_ c) index (Consumer.pendingBatch_ c) (Some s))
        else
          (Ret (Consumer.pendingBatch_ c),
           Consumer.mkConsumer (Consumer.resultQueue_ c) index None None)
  end.
