(* ===== verification/AdmissionTheorems.v ===== *)
(** * Properties of command admission

    A key is admitted at most once, what it was admitted with never changes, its
    record only moves from reserved over sequenced to completed, and the sequencer
    receives exactly the admitted commands, in their order. *)
From S2P Require Import Prelude Domain Bytes JournalCodec RunHeaderCodec Posix JournalReader Projection Queues.
From S2P Require Import Admission Matching MatchingSpec MatchingRefine MatchingTheorems.

(** The ordered map's keys are equivalent only when they are equal, so looking up
    in a finite map is looking up in the ordered one. *)
Lemma AdmissionKeyLess_total left right :
  AdmissionKeyLess left right = false → AdmissionKeyLess right left = false → left = right.
Proof.
  destruct left as [l cl], right as [r cr]. unfold AdmissionKeyLess. simpl.
  destruct (decide (l = r)) as [->|Hne].
  - rewrite !(bool_decide_eq_false_2 (r ≠ r)) by auto. unfold String.ltb.
    rewrite (String.compare_antisym cr cl).
    destruct (String.compare cl cr) eqn:Hc; simpl; try done. apply String.compare_eq_iff in Hc. by subst.
  - rewrite !(bool_decide_eq_true_2 (_ ≠ _)) by done. intros ?%bool_decide_eq_false ?%bool_decide_eq_false. lia.
Qed.

(** ** Well-formed records *)
Definition stateRank (s : RecordState) : nat :=
  match s with RecordState.RESERVED => 0 | RecordState.SEQUENCED => 1 | RecordState.COMPLETED => 2 end.

Definition entry_ok (run : ExchangeRunId) (key : AdmissionKey) (r : AdmissionRecord) : Prop :=
  match Entry.state r with
  | RecordState.RESERVED => Entry.commandSequence r = 0 ∧ Entry.result r = None
  | RecordState.SEQUENCED => Entry.commandSequence r ≠ 0 ∧ Entry.result r = None
  | RecordState.COMPLETED => Entry.commandSequence r ≠ 0 ∧
      ∃ b, Entry.result r = Some b ∧ Batch.correlation b =
        Correlation.mkCorrelation (AdmissionKey.clientId key) (AdmissionKey.clientCommandId key)
          (Entry.commandSequence r) run
  end.

Record index_ok (index : CommandAdmissionIndex) : Prop := {
  io_capacity : Z.of_nat (size (records_ index)) ≤ capacity_ index;
  io_records key r : records_ index !! key = Some r → entry_ok (exchangeRunId_ index) key r }.

(** How an operation may change a record. *)
Definition record_advances (r r' : AdmissionRecord) : Prop :=
  Entry.command r' = Entry.command r ∧ (stateRank (Entry.state r) ≤ stateRank (Entry.state r'))%nat ∧
  (Entry.commandSequence r ≠ 0 → Entry.commandSequence r' = Entry.commandSequence r) ∧
  (Entry.state r = RecordState.COMPLETED → r' = r).

#[export] Instance record_advances_preorder : PreOrder record_advances.
Proof.
  split; [by intros r|]. intros r1 r2 r3 (Hc & Hr & Hs & Hd) (Hc' & Hr' & Hs' & Hd').
  split_and!; [congruence|lia| |].
  - intros Hne. rewrite Hs'; [auto|]. by rewrite Hs.
  - intros Hdone. rewrite Hd in * by done. by apply Hd'.
Qed.

(** The effect of an operation on an index: nothing is forgotten or rewritten. *)
Record index_advances (index index' : CommandAdmissionIndex) : Prop := {
  ia_capacity : capacity_ index' = capacity_ index;
  ia_run : exchangeRunId_ index' = exchangeRunId_ index;
  ia_records key r : records_ index !! key = Some r →
    ∃ r', records_ index' !! key = Some r' ∧ record_advances r r' }.

#[export] Instance index_advances_preorder : PreOrder index_advances.
Proof.
  split; [intros i; split; [done|done|]; intros key r Hr; by exists r|].
  intros i1 i2 i3 [Hc Hr Hk] [Hc' Hr' Hk']. split; [congruence|congruence|].
  intros key r Hkey. destruct (Hk _ _ Hkey) as (r2 & Hr2 & H12). destruct (Hk' _ _ Hr2) as (r3 & Hr3 & H23).
  exists r3. split; [done|]. by etransitivity.
Qed.

Lemma index_advances_records index index' :
  capacity_ index' = capacity_ index → exchangeRunId_ index' = exchangeRunId_ index →
  records_ index' = records_ index → index_advances index index'.
Proof. intros Hc Hr Hk. split; [done|done|]. intros key r Hkey. exists r. by rewrite Hk. Qed.

Lemma index_ok_records index index' :
  capacity_ index' = capacity_ index → exchangeRunId_ index' = exchangeRunId_ index →
  records_ index' = records_ index → index_ok index → index_ok index'.
Proof. intros Hc Hr Hk [Hcap Hrec]. split; [by rewrite Hc, Hk|]. intros key r. rewrite Hr, Hk. auto. Qed.

Lemma update_record index key r r' :
  records_ index !! key = Some r → record_advances r r' → entry_ok (exchangeRunId_ index) key r' → index_ok index →
  let index' := setRecords (<[key := r']> (records_ index)) index in
  index_ok index' ∧ index_advances index index' ∧ dom (records_ index') = dom (records_ index).
Proof.
  intros Hkey Hadv Hok [Hcap Hrec] index'. split_and!.
  - split; simpl.
    + by rewrite map_size_insert_Some.
    + intros key' r''. rewrite lookup_insert_Some. intros [[<- <-]|[_ ?]]; auto.
  - split; [done|done|]. intros key' r'' Hr''. simpl. destruct (decide (key = key')) as [<-|Hne].
    + rewrite lookup_insert_eq. simplify_eq. eauto.
    + rewrite lookup_insert_ne by done. by exists r''.
  - simpl. apply dom_insert_lookup_L. eauto.
Qed.

(** ** Reservation *)
Definition key_of (command : sequenceMessage) : option AdmissionKey :=
  match keyFrom command with Ret key => Some key | Throw _ => None end.

Section reservation.
Context {Q : Type} `{SharedQueueLaws sequenceMessage Q}.

Lemma reserveAndStage_run command available index (queue : Q) key business :
  keyFrom command = Ret key → businessCommandFrom command = Ret business →
  reserveAndStageForRunCapacity command available (index, queue) =
  let '(decision, (index', queue')) := reserveLocked key business command available (index, Some queue) in
  (Ret decision, (index', default queue queue')).
Proof.
  intros Hk Hb. unfold reserveAndStageForRunCapacity, reserveImpl. cbn [fst snd].
  unfold mbind, M_bind, liftM, stepM. rewrite Hk, Hb. by destruct (reserveLocked _ _ _ _ _) as [d [i q]].
Qed.

Lemma reserveAndStage_inv command available state decision state' :
  reserveAndStageForRunCapacity command available state = (Ret decision, state') →
  ∃ key business index' queue', keyFrom command = Ret key ∧ businessCommandFrom command = Ret business ∧
    reserveLocked key business command available (state.1, Some state.2) = (decision, (index', queue')) ∧
    state' = (index', default state.2 queue').
Proof.
  unfold reserveAndStageForRunCapacity, reserveImpl. unfold mbind, M_bind, liftM, stepM.
  destruct (keyFrom command) as [key|]; [|done]. destruct (businessCommandFrom command) as [business|]; [|done].
  destruct (reserveLocked _ _ _ _ _) as [d [i q]] eqn:E. intros [= <- <-]. eauto 10.
Qed.

Lemma reserveAndStage_throw command available state e state' :
  reserveAndStageForRunCapacity command available state = (Throw e, state') → state' = state.
Proof.
  unfold reserveAndStageForRunCapacity, reserveImpl. unfold mbind, M_bind, liftM, stepM. destruct state as [i q].
  destruct (keyFrom command) as [key|]; [|by intros [= _ <-]].
  destruct (businessCommandFrom command) as [business|]; [|by intros [= _ <-]].
  by destruct (reserveLocked _ _ _ _ _) as [d [i' q']].
Qed.

(** A known key: nothing but the statistics changes. *)
Lemma reserveLocked_known key business command available index (queue : option Q) r :
  records_ index !! key = Some r →
  ∃ decision, reserveLocked key business command available (index, queue) =
    (decision, (countStatus (status decision) index, queue)) ∧
    decision = (if bool_decide (Entry.command r ≠ business)
                then mkDecision AdmissionStatus.CONFLICTING_REUSE (Some DUPLICATE_COMMAND_CONFLICT) None
                else if bool_decide (Entry.state r ≠ RecordState.COMPLETED)
                then mkDecision AdmissionStatus.IDENTICAL_IN_FLIGHT None None
                else mkDecision AdmissionStatus.IDENTICAL_COMPLETED None (Entry.result r)).
Proof. intros Hr. unfold reserveLocked. rewrite Hr. repeat case_bool_decide; (eexists; split; [|reflexivity]; reflexivity). Qed.

Definition reservedRecord (business : NormalizedBusinessCommand) : AdmissionRecord :=
  Entry.mkRecord business RecordState.RESERVED 0 None.

(** The conditions under which a new key is admitted, in the order they are tested,
    and the reason reported when one fails. *)
Definition admits (available : bool) (index : CommandAdmissionIndex) (command : sequenceMessage) (queue : Q) : bool :=
  available && admissionOpen_ index && bool_decide (Z.of_nat (size (records_ index)) < capacity_ index) &&
  (sharedPush command queue).1.

Definition refusal (available : bool) (index : CommandAdmissionIndex) : option AdmissionRejectionReason :=
  if negb available then Some RUN_CAPACITY_REACHED
  else if negb (admissionOpen_ index) then Some EXCHANGE_RUN_UNAVAILABLE
  else if bool_decide (capacity_ index ≤ Z.of_nat (size (records_ index))) then None
  else Some GATEWAY_BUSY.

(** A new key: it is reserved exactly when the queue takes the command. *)
Lemma reserveLocked_new key business command available index (queue : Q) :
  records_ index !! key = None →
  ∃ index' queue', reserveLocked key business command available (index, Some queue) =
      (if admits available index command queue then mkDecision AdmissionStatus.FIRST_SUBMISSION None None
       else mkDecision AdmissionStatus.ADMISSION_UNAVAILABLE (refusal available index) None,
       (index', Some queue')) ∧
    if admits available index command queue
    then Z.of_nat (size (records_ index)) < capacity_ index ∧ queued queue' = queued queue ++ [command] ∧
      index' = countStatus AdmissionStatus.FIRST_SUBMISSION
        (setRecords (<[key := reservedRecord business]> (records_ index)) index)
    else queued queue' = queued queue ∧ index' = countStatus AdmissionStatus.ADMISSION_UNAVAILABLE index.
Proof.
  intros Hnew. unfold reserveLocked, admits, refusal. rewrite Hnew. destruct available; [|by do 2 eexists].
  cbn [negb andb]. destruct (admissionOpen_ index) eqn:Hopen; [|by do 2 eexists]. cbn [negb andb orb].
  case_bool_decide as Hcap; [rewrite bool_decide_eq_false_2 by lia; by do 2 eexists|].
  rewrite bool_decide_eq_true_2 by lia. cbn [andb].
  pose proof (push_law command queue) as Hpush. destruct (sharedPush command queue) as [[] queue'] eqn:Hp; simpl in Hpush.
  - do 2 eexists. split; [done|]. split_and!; [lia|done|done].
  - do 2 eexists. split; [done|]. split; [done|].
    unfold setRecords, countStatus. simpl. rewrite delete_insert_id by done. by rewrite Hopen.
Qed.

Lemma reserveLocked_advances key business command available index (queue : Q) decision index' queue' :
  reserveLocked key business command available (index, Some queue) = (decision, (index', Some queue')) →
  index_ok index → index_ok index' ∧ index_advances index index'.
Proof.
  intros Hrun Hok. destruct (records_ index !! key) as [r|] eqn:Hr.
  - destruct (reserveLocked_known key business command available index (Some queue) r Hr) as (d & Hrun' & _).
    rewrite Hrun in Hrun'. simplify_eq. split; [by apply (index_ok_records index)|by apply index_advances_records].
  - destruct (reserveLocked_new key business command available index queue Hr) as (i & q & Hrun' & Hcase).
    rewrite Hrun in Hrun'. injection Hrun' as _ <- <-. destruct (admits _ _ _ _); destruct Hcase as [Hcap Hi].
    2:{ rewrite Hi. split; [by apply (index_ok_records index)|by apply index_advances_records]. }
    destruct Hi as [_ ->].
    destruct Hok as [Hcap0 Hrec]. split.
    + split; simpl.
      * rewrite map_size_insert_None by done. lia.
      * intros key' r. rewrite lookup_insert_Some. intros [[<- <-]|[_ ?]]; [done|auto].
    + split; [done|done|]. intros key' r Hr'. exists r. split; [|done]. simpl.
      rewrite lookup_insert_ne; [done|]. intros ->. by rewrite Hr in Hr'.
Qed.
End reservation.

(** ** Sequencing and completion *)
Lemma markSequencedLocked_advances key business sequence index s index' :
  sequence ≠ 0 → markSequencedLocked key business sequence index = (s, index') → index_ok index →
  index_ok index' ∧ index_advances index index' ∧ dom (records_ index') = dom (records_ index) ∧
  statistics_ index' = statistics_ index.
Proof.
  intros Hseq Hrun Hok. unfold markSequencedLocked in Hrun.
  assert (Hself : index_ok index ∧ index_advances index index ∧ dom (records_ index) = dom (records_ index) ∧
    statistics_ index = statistics_ index) by (split_and!; done).
  destruct (records_ index !! key) as [r|] eqn:Hr; [|by simplify_eq].
  case_bool_decide; [by simplify_eq|]. destruct (Entry.state r) eqn:Hs; [|case_bool_decide; by simplify_eq|by simplify_eq].
  simplify_eq. pose proof (io_records _ Hok _ _ Hr) as He. unfold entry_ok in He. rewrite Hs in He.
  destruct He as [Hseq0 Hres]. 
  destruct (update_record index key r
    (Entry.mkRecord (Entry.command r) RecordState.SEQUENCED sequence (Entry.result r)) Hr) as (? & ? & ?);
    [| |exact Hok|split_and!; done].
  - split_and!; [done|rewrite Hs; simpl; lia|by rewrite Hseq0|by rewrite Hs].
  - by rewrite Hres.
Qed.

Lemma complete_inv result index s index' : complete result index = (s, index') →
  (s ≠ Completion.COMPLETED ∧ index' = index) ∨
  (s = Completion.COMPLETED ∧ ∃ b r, result = Some b ∧
     let key := keyFromCorrelation (Batch.correlation b) in
     records_ index !! key = Some r ∧ Entry.state r = RecordState.SEQUENCED ∧
     Correlation.exchangeRunId (Batch.correlation b) = exchangeRunId_ index ∧
     Entry.commandSequence r = Correlation.commandSequence (Batch.correlation b) ∧
     Correlation.commandSequence (Batch.correlation b) ≠ 0 ∧
     index' = setRecords (<[key := Entry.mkRecord (Entry.command r) RecordState.COMPLETED
                                     (Entry.commandSequence r) result]> (records_ index)) index).
Proof.
  unfold complete. destruct result as [b|]; [|intros; simplify_eq; by left].
  destruct (_ || _ || _) eqn:Hbad; [intros; simplify_eq; by left|].
  apply orb_false_iff in Hbad as [[_ Hseq%bool_decide_eq_false]%orb_false_iff _].
  case_bool_decide as Hrun; [intros; simplify_eq; by left|].
  destruct (records_ index !! _) as [r|] eqn:Hr; [|intros; simplify_eq; by left].
  case_bool_decide as Hstate; [intros; simplify_eq; by left|].
  case_bool_decide as Hs; [intros; simplify_eq; by left|].
  intros; simplify_eq. right. split; [done|]. exists b, r. by split_and!.
Qed.

Lemma complete_advances result index s index' : complete result index = (s, index') → index_ok index →
  index_ok index' ∧ index_advances index index' ∧ dom (records_ index') = dom (records_ index) ∧
  statistics_ index' = statistics_ index.
Proof.
  intros [[_ ->]|(_ & b & r & -> & Hr & Hs & Hrun & Hseq & Hseq0 & ->)]%complete_inv Hok; [split_and!; done|].
  destruct (update_record index _ r
    (Entry.mkRecord (Entry.command r) RecordState.COMPLETED (Entry.commandSequence r) (Some b)) Hr) as (? & ? & ?);
    [| |exact Hok|split_and!; done].
  - split_and!; [done|rewrite Hs; simpl; lia|done|by rewrite Hs].
  - split; [by simpl; rewrite Hseq|]. exists b. split; [done|]. simpl. rewrite Hseq, <-Hrun.
    by destruct (Batch.correlation b).
Qed.

(** ** Executions

    The gateway, the sequencer, the completion consumer and the controller share
    the index; the sequencer alone pops the staging queue.  [staged] and [popped]
    are histories: the commands admitted, and those the sequencer took. *)
Section executions.
Context {Q : Type} `{SharedQueueLaws sequenceMessage Q}.

Inductive step : CommandAdmissionIndex * Q * list sequenceMessage * list sequenceMessage →
    CommandAdmissionIndex * Q * list sequenceMessage * list sequenceMessage → Prop :=
  | step_reserve index queue staged popped command available decision index' queue' :
      reserveAndStageForRunCapacity command available (index, queue) = (Ret decision, (index', queue')) →
      step (index, queue, staged, popped)
           (index', queue', if bool_decide (status decision = AdmissionStatus.FIRST_SUBMISSION)
                            then staged ++ [command] else staged, popped)
  | step_pop index queue staged popped command queue' :
      sharedPop queue = (Some command, queue') →
      step (index, queue, staged, popped) (index, queue', staged, popped ++ [command])
  | step_mark index queue staged popped command s index' :
      markSequenced command index = (Ret s, index') →
      step (index, queue, staged, popped) (index', queue, staged, popped)
  | step_complete index queue staged popped result s index' :
      complete result index = (s, index') →
      step (index, queue, staged, popped) (index', queue, staged, popped)
  | step_open index queue staged popped open :
      step (index, queue, staged, popped) (setAdmissionOpen open index, queue, staged, popped).

Lemma markSequenced_advances command index s index' :
  markSequenced command index = (Ret s, index') → index_ok index →
  index_ok index' ∧ index_advances index index' ∧ dom (records_ index') = dom (records_ index) ∧
  statistics_ index' = statistics_ index.
Proof.
  unfold markSequenced. case_bool_decide as Hseq; [unfold mret, M_ret; intros; simplify_eq; split_and!; done|].
  intros (key & i1 & [_ ->]%liftM_inv & (business & i2 & [_ ->]%liftM_inv & Hrun)%M_bind_inv)%M_bind_inv.
  unfold stepM in Hrun. destruct (markSequencedLocked _ _ _ _) as [s' i'] eqn:Hm. simplify_eq/=.
  by eapply markSequencedLocked_advances.
Qed.

Lemma step_advances s s' : step s s' → index_ok s.1.1.1 → index_ok s'.1.1.1 ∧ index_advances s.1.1.1 s'.1.1.1.
Proof.
  destruct 1 as [index queue staged popped command available decision index' queue' Hrun| |
    index queue staged popped command s index' Hrun|index queue staged popped result s index' Hrun|]; simpl; intros Hok.
  - apply reserveAndStage_inv in Hrun as (key & business & i & q & _ & _ & Hrun & Heq). cbn [fst snd] in Hrun, Heq.
    injection Heq as -> ->. destruct q as [q|]; [eapply reserveLocked_advances; [exact Hrun|exact Hok]|].
    exfalso. destruct (records_ index !! key) as [r|] eqn:Hr.
    + destruct (reserveLocked_known key business command available index (Some queue) r Hr) as (d & Hrun' & _).
      by rewrite Hrun in Hrun'.
    + destruct (reserveLocked_new key business command available index queue Hr) as (i' & q & Hrun' & _).
      by rewrite Hrun in Hrun'.
  - done.
  - by apply markSequenced_advances in Hrun as (? & ? & _ & _).
  - by apply complete_advances in Hrun as (? & ? & _ & _).
  - split; [by apply (index_ok_records index)|by apply index_advances_records].
Qed.

Lemma steps_advance s s' : rtc step s s' → index_ok s.1.1.1 → index_ok s'.1.1.1 ∧ index_advances s.1.1.1 s'.1.1.1.
Proof.
  induction 1 as [|s1 s2 s3 H12 _ IH]; [done|]. intros Hok.
  destruct (step_advances _ _ H12 Hok) as [Hok2 H2]. destruct (IH Hok2) as [Hok3 H3]. split; [done|]. by etransitivity.
Qed.

(** What the histories say about the index and the queue. *)
Record history_ok (s : CommandAdmissionIndex * Q * list sequenceMessage * list sequenceMessage) : Prop := {
  ho_index : index_ok s.1.1.1;
  ho_fifo : s.1.2 = s.2 ++ queued s.1.1.2;
  ho_unique : NoDup (key_of <$> s.1.2);
  ho_keys key : key ∈ dom (records_ s.1.1.1) ↔ Some key ∈ key_of <$> s.1.2;
  ho_first : firstSubmissions (statistics_ s.1.1.1) = wrap64 (Z.of_nat (length s.1.2)) }.
Lemma key_of_run command key : keyFrom command = Ret key → key_of command = Some key.
Proof. intros Hk. unfold key_of. by rewrite Hk. Qed.

Lemma history_same index index' queue staged popped :
  index_ok index' → dom (records_ index') = dom (records_ index) →
  firstSubmissions (statistics_ index') = firstSubmissions (statistics_ index) →
  history_ok (index, queue, staged, popped) → history_ok (index', queue, staged, popped).
Proof. intros Hok Hdom Hstat [_ Hf Hu Hk Hn]. split; simpl in *; [done|done|done|by rewrite Hdom|by rewrite Hstat]. Qed.

Lemma history_reserve index queue staged popped command available decision index' queue' :
  reserveAndStageForRunCapacity command available (index, queue) = (Ret decision, (index', queue')) →
  history_ok (index, queue, staged, popped) →
  history_ok (index', queue', if bool_decide (status decision = AdmissionStatus.FIRST_SUBMISSION)
                              then staged ++ [command] else staged, popped).
Proof.
  intros Hrun Hh. pose proof Hrun as Hstep. apply (step_reserve _ _ staged popped) in Hstep.
  apply step_advances in Hstep as [Hok' _]; [|by destruct Hh]. cbn [fst snd] in Hok'.
  apply reserveAndStage_inv in Hrun as (key & business & i & q & Hkey & _ & Hrun & Heq). cbn [fst snd] in Hrun, Heq.
  apply key_of_run in Hkey. destruct Hh as [Hok Hf Hu Hk Hn]. simpl in Hf, Hu, Hk, Hn.
  destruct (records_ index !! key) as [r|] eqn:Hr.
  - destruct (reserveLocked_known key business command available index (Some queue) r Hr) as (d & Hrun' & Hd).
    rewrite Hrun in Hrun'. injection Hrun' as <- -> ->. injection Heq as -> ->.
    rewrite bool_decide_eq_false_2 by (rewrite Hd; repeat case_bool_decide; done).
    split; simpl; try done. rewrite <-Hn, Hd. repeat case_bool_decide; simpl; by destruct (statistics_ index).
  - destruct (reserveLocked_new key business command available index queue Hr) as (i' & q' & Hrun' & Hcase).
    rewrite Hrun in Hrun'. injection Hrun' as -> -> ->. injection Heq as -> ->.
    destruct (admits _ _ _ _); [destruct Hcase as (_ & Hq & ->)|destruct Hcase as (Hq & ->)]; cbn [status].
    + rewrite bool_decide_eq_true_2 by done. split; cbn [fst snd].
      * done.
      * simpl. by rewrite Hq, Hf, app_assoc.
      * rewrite fmap_app. apply NoDup_app. split_and!; [done| |apply NoDup_singleton].
        intros k Hin ->%list_elem_of_singleton. rewrite Hkey in Hin. apply Hk, elem_of_dom in Hin as [? Hin].
        by rewrite Hr in Hin.
      * intros k. simpl. rewrite dom_insert_L, elem_of_union, elem_of_singleton, Hk, fmap_app, elem_of_app.
        simpl. rewrite list_elem_of_singleton, Hkey. naive_solver.
      * simpl. destruct (statistics_ index). simpl in *. rewrite Hn, length_app. simpl.
        unfold wrap64, wrap. rewrite Zplus_mod_idemp_l. f_equal. lia.
    + rewrite bool_decide_eq_false_2 by done. split; simpl; try done; [by rewrite Hq|].
      rewrite <-Hn. by destruct (statistics_ index).
Qed.

Lemma history_step s s' : step s s' → history_ok s → history_ok s'.
Proof.
  intros Hstep Hh.
  destruct Hstep as [index queue staged popped command available decision index' queue' Hrun|
    index queue staged popped command queue' Hpop|index queue staged popped command s index' Hrun|
    index queue staged popped result s index' Hrun|index queue staged popped open].
  - by eapply history_reserve.
  - destruct (pop_law queue) as [Hp Ht]. rewrite Hpop in Hp, Ht. simpl in Hp, Ht. destruct Hh as [Hok Hf Hu Hk Hn].
    split; simpl in *; try done. rewrite Ht, Hf. destruct (queued queue); simplify_eq/=. by rewrite <-app_assoc.
  - apply markSequenced_advances in Hrun as (Hok & _ & Hd & Hs); [|apply Hh].
    eapply history_same; [done|done|by rewrite Hs|done].
  - apply complete_advances in Hrun as (Hok & _ & Hd & Hs); [|apply Hh].
    eapply history_same; [done|done|by rewrite Hs|done].
  - apply (history_same index); [|done|done|done]. destruct Hh as [Hok _ _ _ _]. by apply (index_ok_records index).
Qed.

Lemma history_steps s s' : rtc step s s' → history_ok s → history_ok s'.
Proof. induction 1; eauto using history_step. Qed.

(** An index and a queue nothing was admitted to. *)
Lemma history_new index queue : index_ok index → records_ index = ∅ → statistics_ index = noStatistics →
  queued queue = [] → history_ok (index, queue, [], []).
Proof.
  intros Hok Hr Hs Hq. split; simpl; [done|by rewrite Hq|constructor| |by rewrite Hs].
  intros key. rewrite Hr, dom_empty_L. split; [set_solver|by intros ?%elem_of_nil].
Qed.

(** ** The properties *)

(** C25: the decision on a command with an identity.  A known key never changes the
    index's records or the queue: another command under it is a conflict, the same
    command is in flight until it completed and then gets the stored result.  A
    new key is reserved and staged, both or neither: as a first submission when
    run capacity, admission, index capacity and queue allow it, and otherwise the
    reason is the first of these that does not. *)
Theorem reservation_decisions command available index (queue : Q) key business :
  keyFrom command = Ret key → businessCommandFrom command = Ret business →
  ∃ decision index' queue',
    reserveAndStageForRunCapacity command available (index, queue) = (Ret decision, (index', queue')) ∧
    match records_ index !! key with
    | Some r =>
        records_ index' = records_ index ∧ queue' = queue ∧
        decision = (if bool_decide (Entry.command r ≠ business)
                    then mkDecision AdmissionStatus.CONFLICTING_REUSE (Some DUPLICATE_COMMAND_CONFLICT) None
                    else if bool_decide (Entry.state r ≠ RecordState.COMPLETED)
                    then mkDecision AdmissionStatus.IDENTICAL_IN_FLIGHT None None
                    else mkDecision AdmissionStatus.IDENTICAL_COMPLETED None (Entry.result r))
    | None =>
        if admits available index command queue
        then decision = mkDecision AdmissionStatus.FIRST_SUBMISSION None None ∧
          records_ index' = <[key := reservedRecord business]> (records_ index) ∧
          queued queue' = queued queue ++ [command]
        else decision = mkDecision AdmissionStatus.ADMISSION_UNAVAILABLE (refusal available index) None ∧
          records_ index' = records_ index ∧ queued queue' = queued queue
    end.
Proof.
  intros Hk Hb. rewrite (reserveAndStage_run _ _ _ _ key business) by done.
  destruct (records_ index !! key) as [r|] eqn:Hr.
  - destruct (reserveLocked_known key business command available index (Some queue) r Hr) as (d & -> & Hd).
    do 3 eexists. split; [done|]. by split_and!.
  - destruct (reserveLocked_new key business command available index queue Hr) as (i & q & -> & Hcase).
    do 3 eexists. split; [done|]. destruct (admits _ _ _ _); [destruct Hcase as (_ & Hq & ->)|destruct Hcase as [Hq ->]];
      by split_and!.
Qed.

(** C26: at most once, in order.  In every execution of the gateway, the sequencer,
    the completion consumer and the controller on a new index, no two admitted
    commands share a key; the sequencer has taken the admitted commands in their
    order of admission and the rest waits in the queue; the index knows exactly
    their keys, never more than its capacity; and the statistics count them. *)
Theorem admitted_at_most_once index (queue : Q) index' queue' staged popped :
  index_ok index → records_ index = ∅ → statistics_ index = noStatistics → queued queue = [] →
  rtc step (index, queue, [], []) (index', queue', staged, popped) →
  NoDup (key_of <$> staged) ∧ staged = popped ++ queued queue' ∧
  (∀ key, is_Some (records_ index' !! key) ↔ Some key ∈ key_of <$> staged) ∧
  Z.of_nat (size (records_ index')) ≤ capacity_ index ∧
  firstSubmissions (statistics_ index') = wrap64 (Z.of_nat (length staged)).
Proof.
  intros Hok Hr Hs Hq Hsteps. pose proof (steps_advance _ _ Hsteps Hok) as [Hok' [Hcap _ _]].
  destruct (history_steps _ _ Hsteps (history_new index queue Hok Hr Hs Hq)) as [_ Hf Hu Hk Hn].
  cbn [fst snd] in *. split_and!; [done|done| |by rewrite <-Hcap; apply Hok'|done].
  intros key. by rewrite <-elem_of_dom.
Qed.

(** A record never goes back.  Whatever operations follow, a key keeps its
    command, its state only advances from reserved over sequenced to completed, its
    sequence once given stays, and a completed record does not change; so from
    then on submitting the command again stages nothing and returns that result. *)
Theorem completed_results_are_final index (queue : Q) index' queue' staged popped staged' popped' key r :
  index_ok index → records_ index !! key = Some r →
  rtc step (index, queue, staged, popped) (index', queue', staged', popped') →
  (∃ r', records_ index' !! key = Some r' ∧ record_advances r r' ∧ entry_ok (exchangeRunId_ index) key r') ∧
  (Entry.state r = RecordState.COMPLETED →
   ∀ command available, keyFrom command = Ret key → businessCommandFrom command = Ret (Entry.command r) →
   ∃ index'', reserveAndStageForRunCapacity command available (index', queue') =
     (Ret (mkDecision AdmissionStatus.IDENTICAL_COMPLETED None (Entry.result r)), (index'', queue')) ∧
     records_ index'' = records_ index').
Proof.
  intros Hok Hr Hsteps. destruct (steps_advance _ _ Hsteps Hok) as [Hok' [_ Hrun Hadv]]. cbn [fst snd] in *.
  destruct (Hadv _ _ Hr) as (r' & Hr' & Hrr'). split.
  - exists r'. split_and!; [done|done|]. rewrite <-Hrun. by apply Hok'.
  - intros Hdone command available Hk Hb. destruct Hrr' as (_ & _ & _ & Hsame). rewrite Hsame in Hr' by done.
    rewrite (reserveAndStage_run _ _ _ _ _ _ Hk Hb).
    destruct (reserveLocked_known key (Entry.command r) command available index' (Some queue') r Hr') as (d & -> & Hd).
    rewrite bool_decide_eq_false_2, bool_decide_eq_false_2 in Hd by auto. subst d. by eexists.
Qed.
End executions.

(** The completion consumer.  It takes the batch it holds or the oldest queued
    one; when that completes a sequenced record, the record holds the batch and the
    batch is handed on; otherwise the index is unchanged, the batch stays with the
    consumer, and this and every later call throw without changing anything. *)
Theorem consumer_completes_or_stops c :
  Consumer.failure_ c = None →
  let queue := Consumer.resultQueue_ c in
  match (match Consumer.pendingBatch_ c with Some b => Some b | None => head (ResultQueue.batches_ queue) end) with
  | None => processNextCompletion c = (Ret None, c)
  | Some b =>
      let rest := ResultQueue.mkResultQueue (ResultQueue.capacity_ queue)
        (match Consumer.pendingBatch_ c with Some _ => ResultQueue.batches_ queue | None => tail (ResultQueue.batches_ queue) end) in
      let '(s, index') := complete (Some b) (Consumer.admissionIndex_ c) in
      if bool_decide (s = Completion.COMPLETED) then
        processNextCompletion c = (Ret (Some b), Consumer.mkConsumer rest index' None None) ∧
        ∃ r, records_ index' !! keyFromCorrelation (Batch.correlation b) = Some r ∧
          Entry.state r = RecordState.COMPLETED ∧ Entry.result r = Some b
      else
        ∃ what c', processNextCompletion c = (Throw (logic_error what), c') ∧
          c' = Consumer.mkConsumer rest (Consumer.admissionIndex_ c) (Some b) (Some s) ∧
          ∃ what', processNextCompletion c' = (Throw (logic_error what'), c')
  end.
Proof.
  intros Hf queue. destruct c as [[cap batches] index pending failure]. cbn in Hf, queue |- *. subst failure queue.
  assert (Htaken : ∀ b batches', (pending = Some b ∧ batches' = batches) ∨ (pending = None ∧ batches = b :: batches') →
    processNextCompletion (Consumer.mkConsumer (ResultQueue.mkResultQueue cap batches) index pending None) =
    let '(s, index') := complete (Some b) index in
    if bool_decide (s ≠ Completion.COMPLETED) then
      (Throw (logic_error ("admission completion invariant failure: " ++ completionStatusName s)),
       Consumer.mkConsumer (ResultQueue.mkResultQueue cap batches') index' (Some b) (Some s))
    else (Ret (Some b), Consumer.mkConsumer (ResultQueue.mkResultQueue cap batches') index' None None))
    by (by intros b batches' [[-> ->]|[-> ->]]).
  assert (Hcase : ∀ b batches', (pending = Some b ∧ batches' = batches) ∨ (pending = None ∧ batches = b :: batches') →
    let '(s, index') := complete (Some b) index in
    if bool_decide (s = Completion.COMPLETED) then
      processNextCompletion (Consumer.mkConsumer (ResultQueue.mkResultQueue cap batches) index pending None) =
        (Ret (Some b), Consumer.mkConsumer (ResultQueue.mkResultQueue cap batches') index' None None) ∧
      ∃ r, records_ index' !! keyFromCorrelation (Batch.correlation b) = Some r ∧
        Entry.state r = RecordState.COMPLETED ∧ Entry.result r = Some b
    else ∃ what c', processNextCompletion (Consumer.mkConsumer (ResultQueue.mkResultQueue cap batches) index pending None) =
          (Throw (logic_error what), c') ∧
        c' = Consumer.mkConsumer (ResultQueue.mkResultQueue cap batches') index (Some b) (Some s) ∧
        ∃ what', processNextCompletion c' = (Throw (logic_error what'), c')).
  { intros b batches' Hb. rewrite (Htaken b batches' Hb). destruct (complete (Some b) index) as [s index'] eqn:Hrun.
    apply complete_inv in Hrun as [[Hs ->]|(-> & b' & r & [= <-] & _ & _ & _ & _ & _ & ->)].
    - rewrite bool_decide_eq_false_2, bool_decide_eq_true_2 by done. do 2 eexists. split; [done|]. split; [done|]. by eexists.
    - simpl. split; [done|]. eexists. split; [apply lookup_insert_eq|done]. }
  destruct pending as [b|]; [by apply (Hcase b); left|].
  destruct batches as [|b batches]; [done|]. apply (Hcase b). by right.
Qed.

(** ** Witnesses *)
Definition demoKey : AdmissionKey := AdmissionKey.mkAdmissionKey 10 "s1".
Definition demoBusiness : NormalizedBusinessCommand :=
  NormNewOrder (Normalized.mkNewOrder 1 1 Side.SELL 100 5 TIF.GTC).
Definition demoIndex : CommandAdmissionIndex := mkIndex 2 7 true ∅ noStatistics.
Definition demoQueue : FixedQueue sequenceMessage := mkFixedQueue 1 [].

(** After admission, after sequencing, and after completion of [demoSell]. *)
Definition demoAdmitted := (reserveAndStageForRunCapacity demoSell true (demoIndex, demoQueue)).2.
Definition demoSequenced : CommandAdmissionIndex := (markSequenced demoSell demoAdmitted.1).2.
Definition demoResult : CommandResultBatch := specBatch 7 demoSell (queueOf (newMatchingState 7)).
Definition demoCompleted : CommandAdmissionIndex := (complete (Some demoResult) demoSequenced).2.
Definition demoRecord : AdmissionRecord := Entry.mkRecord demoBusiness RecordState.COMPLETED 1 (Some demoResult).

Lemma demoIndex_ok : index_ok demoIndex.
Proof. split; [vm_compute; discriminate|]. intros key r. unfold demoIndex. cbn [records_]. by rewrite lookup_empty. Qed.

Lemma reservation_decisions_witness :
  ∃ decision index' queue',
    reserveAndStageForRunCapacity demoSell true (demoIndex, demoQueue) = (Ret decision, (index', queue')) ∧
    decision = mkDecision AdmissionStatus.FIRST_SUBMISSION None None ∧
    records_ index' = <[demoKey := reservedRecord demoBusiness]> ∅ ∧ queued queue' = [demoSell].
Proof. exact (reservation_decisions demoSell true demoIndex demoQueue demoKey demoBusiness eq_refl eq_refl). Defined.

Lemma admitted_at_most_once_witness :
  NoDup (key_of <$> [demoSell]) ∧ [demoSell] = [demoSell] ++ queued (mkFixedQueue 1 []) ∧
  (∀ key, is_Some (records_ demoAdmitted.1 !! key) ↔ Some key ∈ key_of <$> [demoSell]) ∧
  Z.of_nat (size (records_ demoAdmitted.1)) ≤ 2 ∧ firstSubmissions (statistics_ demoAdmitted.1) = wrap64 1.
Proof.
  apply (admitted_at_most_once demoIndex demoQueue demoAdmitted.1 (mkFixedQueue 1 []) [demoSell] [demoSell]).
  - apply demoIndex_ok.
  - reflexivity.
  - reflexivity.
  - reflexivity.
  - eapply rtc_l; [apply (step_reserve demoIndex demoQueue [] [] demoSell true); vm_compute; reflexivity|].
    eapply rtc_l; [apply step_pop; vm_compute; reflexivity|]. apply rtc_refl.
Defined.

Lemma demoCompleted_ok : index_ok demoCompleted.
Proof.
  apply (steps_advance (Q:=FixedQueue sequenceMessage) (demoIndex, demoQueue, [], []) (demoCompleted, demoAdmitted.2, [demoSell], []));
    [|apply demoIndex_ok].
  eapply rtc_l; [apply (step_reserve demoIndex demoQueue [] [] demoSell true); vm_compute; reflexivity|].
  eapply rtc_l; [apply (step_mark _ _ _ _ demoSell MarkSequenced.SEQUENCED demoSequenced); vm_compute; reflexivity|].
  eapply rtc_l; [apply (step_complete _ _ _ _ (Some demoResult) Completion.COMPLETED demoCompleted); vm_compute; reflexivity|].
  apply rtc_refl.
Qed.

Lemma completed_results_are_final_witness :
  ∃ index'', reserveAndStageForRunCapacity demoSell false (setAdmissionOpen false demoCompleted, demoAdmitted.2) =
    (Ret (mkDecision AdmissionStatus.IDENTICAL_COMPLETED None (Some demoResult)), (index'', demoAdmitted.2)) ∧
    records_ index'' = records_ demoCompleted.
Proof.
  apply (proj2 (completed_results_are_final demoCompleted demoAdmitted.2 (setAdmissionOpen false demoCompleted)
    demoAdmitted.2 [demoSell] [] [demoSell] [] demoKey demoRecord demoCompleted_ok ltac:(vm_compute; reflexivity)
    (rtc_once _ _ (step_open _ _ _ _ false)))); reflexivity.
Defined.

Lemma consumer_completes_or_stops_witness :
  processNextCompletion (Consumer.mkConsumer (ResultQueue.mkResultQueue 4 [demoResult]) demoSequenced None None) =
    (Ret (Some demoResult), Consumer.mkConsumer (ResultQueue.mkResultQueue 4 []) demoCompleted None None) ∧
  ∃ r, records_ demoCompleted !! demoKey = Some r ∧ Entry.state r = RecordState.COMPLETED ∧
    Entry.result r = Some demoResult.
Proof.
  exact (consumer_completes_or_stops
    (Consumer.mkConsumer (ResultQueue.mkResultQueue 4 [demoResult]) demoSequenced None None) eq_refl).
Defined.
