(* ===== verification/AdmissionRecovery.v ===== *)
(** * Rebuilding the admission index

    [src/core/admission/src/command_admission_recovery.cpp]: every command of a loaded
    journal becomes a completed record with its replayed result. *)
From S2P Require Import Prelude Domain Matching MatchingSpec MatchingRefine Bytes JournalCodec JournalFrames.
From S2P Require Import RunHeaderCodec RunHeaderTheorems Posix JournalReader JournalParse JournalFile.
From S2P Require Import JournalLoadTheorems Replay Projection ProjectionTheorems Queues Admission.
From S2P Require Import AdmissionTheorems.

Module AdmissionOutcome.
Inductive CommandAdmissionRecoveryOutcome :=
  RECONSTRUCTED | INVALID_INPUT | CAPACITY_ERROR | INVARIANT_FAILURE | INTERNAL_FAILURE.
#[export] Instance CommandAdmissionRecoveryOutcome_eq_dec : EqDecision CommandAdmissionRecoveryOutcome.
Proof. solve_decision. Defined.
End AdmissionOutcome.
Export (hints) AdmissionOutcome.
Abbreviation CommandAdmissionRecoveryOutcome := AdmissionOutcome.CommandAdmissionRecoveryOutcome.

Module AdmissionError.
Inductive CommandAdmissionRecoveryError :=
  | NONE | INVALID_RUN_ID | COMMAND_RESULT_COUNT_MISMATCH | COMMAND_COUNT_CAPACITY_EXCEEDED
  | CAPACITY_UNREPRESENTABLE | COMMAND_SEQUENCE_MISMATCH | COMMAND_CONTEXT_MISMATCH
  | RESULT_CORRELATION_MISMATCH | RESULT_EVENT_IDENTITY_MISMATCH | INVALID_NORMALIZED_COMMAND
  | DUPLICATE_COMMAND_KEY | ALLOCATION_FAILURE.
#[export] Instance CommandAdmissionRecoveryError_eq_dec : EqDecision CommandAdmissionRecoveryError.
Proof. solve_decision. Defined.
End AdmissionError.
Export (hints) AdmissionError.
Abbreviation CommandAdmissionRecoveryError := AdmissionError.CommandAdmissionRecoveryError.

Record CommandAdmissionRecoveryResult := admissionRecoveryResult {
  admissionOutcome : CommandAdmissionRecoveryOutcome;
  admissionError : CommandAdmissionRecoveryError }.

Definition commandClient (c : JournalCommandV1) : ClientId :=
  match c with JournalNew c => NewOrder.clientId c | JournalCancel c => Cancel.clientId c end.
Definition commandClientCommandId (c : JournalCommandV1) : ClientCommandId :=
  match c with JournalNew c => NewOrder.clientCommandId c | JournalCancel c => Cancel.clientCommandId c end.

Definition admissionKeyFrom (command : JournalCommandV1) : outcome AdmissionKey :=
  throw_if (bool_decide (commandClient command = 0))
    (invalid_argument "recovered command has invalid client identity") ;;
  Ret (AdmissionKey.mkAdmissionKey (commandClient command) (commandClientCommandId command)).

(** The two overloads of [normalizedCommandFrom]. *)
Definition normalizedNewOrderFrom (command : JournalNewOrderV1) : outcome NormalizedBusinessCommand :=
  throw_if (bool_decide (NewOrder.side command ≠ Side.BUY) && bool_decide (NewOrder.side command ≠ Side.SELL))
    (invalid_argument "recovered NewOrder has invalid side") ;;
  throw_if (bool_decide (NewOrder.instrumentId command = 0) ||
            bool_decide (NewOrder.configurationVersion command = 0) ||
            bool_decide (NewOrder.price command = 0) || bool_decide (NewOrder.quantity command = 0))
    (invalid_argument "recovered NewOrder has invalid normalized fields") ;;
  Ret (NormNewOrder (Normalized.mkNewOrder (NewOrder.instrumentId command)
         (NewOrder.configurationVersion command) (NewOrder.side command) (NewOrder.price command)
         (NewOrder.quantity command) (NewOrder.timeInForce command))).

Definition normalizedCancelFrom (command : JournalCancelV1) : outcome NormalizedBusinessCommand :=
  throw_if (bool_decide (Cancel.instrumentId command = 0) || bool_decide (Cancel.targetOrderId command = 0))
    (invalid_argument "recovered Cancel has invalid normalized fields") ;;
  Ret (NormCancel (mkNormalizedCancel (Cancel.instrumentId command) (Cancel.targetOrderId command))).

Definition normalizedCommandFrom (command : JournalCommandV1) : outcome NormalizedBusinessCommand :=
  match command with
  | JournalNew command => normalizedNewOrderFrom command
  | JournalCancel command => normalizedCancelFrom command
  end.

Definition hasConfiguration (header : RunHeaderV1) (instrumentId : InstrumentId) (configurationVersion : Z) : bool :=
  match lowerBoundInstrument (Header.instruments header) instrumentId with
  | None => false
  | Some instrument =>
      bool_decide (HeaderInstrument.instrumentId instrument = instrumentId) &&
      bool_decide (HeaderInstrument.configurationVersion instrument = configurationVersion)
  end.

Definition validateAdmissionContext (header : RunHeaderV1) (command : JournalCommandV1)
    (expectedSequence : CommandSequence) : CommandAdmissionRecoveryError :=
  if bool_decide (commandSequenceOf command ≠ expectedSequence) then AdmissionError.COMMAND_SEQUENCE_MISMATCH
  else if bool_decide (commandRun command ≠ Header.exchangeRunId header) ||
          bool_decide (commandRulesVersion command ≠ Header.behavioralRulesVersion header) ||
          negb (hasConfiguration header (commandInstrument command) (commandConfiguration command))
  then AdmissionError.COMMAND_CONTEXT_MISMATCH
  else AdmissionError.NONE.

(** The loop over the result's events. *)
Fixpoint validateEventIdentities (events : list BusinessEvent) (eventIndex : Z) : CommandAdmissionRecoveryError :=
  match events with
  | [] => AdmissionError.NONE
  | event :: events' =>
      if bool_decide (UINT32_MAX < eventIndex) ||
         bool_decide (EventId.eventIndex (eventIdOf event) ≠ wrap32 eventIndex)
      then AdmissionError.RESULT_EVENT_IDENTITY_MISMATCH
      else validateEventIdentities events' (eventIndex + 1)
  end.

Definition validateResult (key : AdmissionKey) (result : option CommandResultBatch)
    (exchangeRunId : ExchangeRunId) (expectedSequence : CommandSequence) : CommandAdmissionRecoveryError :=
  match result with
  | None => AdmissionError.RESULT_CORRELATION_MISMATCH
  | Some batch =>
      let correlation := Batch.correlation batch in
      if bool_decide (Correlation.clientId correlation ≠ AdmissionKey.clientId key) ||
         bool_decide (Correlation.clientCommandId correlation ≠ AdmissionKey.clientCommandId key) ||
         bool_decide (Correlation.commandSequence correlation ≠ expectedSequence) ||
         bool_decide (Correlation.exchangeRunId correlation ≠ exchangeRunId)
      then AdmissionError.RESULT_CORRELATION_MISMATCH
      else if bool_decide (Batch.events batch = []) then AdmissionError.RESULT_EVENT_IDENTITY_MISMATCH
      else validateEventIdentities (Batch.events batch) 0
  end.

(** One turn of the loop: [inl] is an early return, an exception is thrown. *)
Definition recoverRecord (header : RunHeaderV1) (persistedCommand : JournalCommandV1)
    (commandResult : option CommandResultBatch) (expectedSequence : CommandSequence)
    (recovered : CommandAdmissionIndex) : outcome (CommandAdmissionRecoveryError + CommandAdmissionIndex) :=
  match validateAdmissionContext header persistedCommand expectedSequence with
  | AdmissionError.NONE =>
      key ← admissionKeyFrom persistedCommand;
      normalizedCommand ← normalizedCommandFrom persistedCommand;
      match validateResult key commandResult (Header.exchangeRunId header) expectedSequence with
      | AdmissionError.NONE =>
          match records_ recovered !! key with
          | Some _ => Ret (inl AdmissionError.DUPLICATE_COMMAND_KEY)
          | None =>
              Ret (inr (setRecords (<[key := Entry.mkRecord normalizedCommand RecordState.COMPLETED
                                               expectedSequence commandResult]> (records_ recovered)) recovered))
          end
      | resultError => Ret (inl resultError)
      end
  | contextError => Ret (inl contextError)
  end.

(** The two vectors have the same length. *)
Fixpoint recoverRecords (header : RunHeaderV1) (commands : list JournalCommandV1)
    (commandResults : list (option CommandResultBatch)) (expectedSequence : Z)
    (recovered : CommandAdmissionIndex) : outcome (CommandAdmissionRecoveryError + CommandAdmissionIndex) :=
  match commands, commandResults with
  | persistedCommand :: commands', commandResult :: commandResults' =>
      step ← recoverRecord header persistedCommand commandResult expectedSequence recovered;
      match step with
      | inl error => Ret (inl error)
      | inr recovered' =>
          recoverRecords header commands' commandResults' (wrap64 (expectedSequence + 1)) recovered'
      end
  | _, _ => Ret (inr recovered)
  end.

(** The result and the new value of [output]. *)
Definition reconstructCommandAdmissionIndex (journal : LoadedRunJournalV1)
    (commandResults : list (option CommandResultBatch)) (output : option CommandAdmissionIndex)
    : outcome (CommandAdmissionRecoveryResult * option CommandAdmissionIndex) :=
  let header := Loaded.header journal in
  let failed outcome error := Ret (admissionRecoveryResult outcome error, output) in
  if bool_decide (Header.exchangeRunId header = 0) then
    failed AdmissionOutcome.INVALID_INPUT AdmissionError.INVALID_RUN_ID
  else if bool_decide (length (Loaded.commands journal) ≠ length commandResults) then
    failed AdmissionOutcome.INVALID_INPUT AdmissionError.COMMAND_RESULT_COUNT_MISMATCH
  else if bool_decide (Header.maxRunCommands header < Z.of_nat (length (Loaded.commands journal))) then
    failed AdmissionOutcome.CAPACITY_ERROR AdmissionError.COMMAND_COUNT_CAPACITY_EXCEEDED
  else if bool_decide (Header.maxRunCommands header = 0) || bool_decide (SIZE_MAX < Header.maxRunCommands header) then
    failed AdmissionOutcome.CAPACITY_ERROR AdmissionError.CAPACITY_UNREPRESENTABLE
  else
    match recovered ← newRunBoundIndex (Header.maxRunCommands header) (Header.exchangeRunId header);
          recoverRecords header (Loaded.commands journal) commandResults 1 recovered with
    | Ret (inl error) => failed AdmissionOutcome.INVALID_INPUT error
    | Ret (inr recovered) =>
        Ret (admissionRecoveryResult AdmissionOutcome.RECONSTRUCTED AdmissionError.NONE, Some recovered)
    | Throw (invalid_argument _) =>
        failed AdmissionOutcome.INVALID_INPUT AdmissionError.INVALID_NORMALIZED_COMMAND
    | Throw undefined_behaviour => Throw undefined_behaviour
    | Throw Prelude.out_of_fuel => Throw Prelude.out_of_fuel
    | Throw _ => failed AdmissionOutcome.INVARIANT_FAILURE AdmissionError.NONE
    end.

(** * Properties of the rebuilt admission index

    After a restart, every command of the journal is known and completed with the
    result that replaying the journal gave it. *)

Definition commandKey (c : JournalCommandV1) : AdmissionKey :=
  AdmissionKey.mkAdmissionKey (commandClient c) (commandClientCommandId c).

(** ** Replayed results pass the checks *)
Lemma validateEventIdentities_run events : ∀ k,
  (∀ i e, events !! i = Some e → EventId.eventIndex (eventIdOf e) = k + Z.of_nat i) →
  0 ≤ k → k + Z.of_nat (length events) ≤ UINT32_MAX → validateEventIdentities events k = AdmissionError.NONE.
Proof.
  induction events as [|e l IH]; intros k He Hk Hmax; [done|]. simpl in Hmax. cbn [validateEventIdentities].
  rewrite (He 0%nat e eq_refl), wrap32_small by (unfold is_u32; lia).
  rewrite (bool_decide_eq_false_2 (UINT32_MAX < k)), bool_decide_eq_false_2 by (simpl; lia). cbn [orb].
  apply IH; [|lia|lia]. intros i e' Hi. rewrite (He (Datatypes.S i) e' Hi). lia.
Qed.

Lemma specBatch_correlation header sequence c run books : fits header sequence c →
  Batch.correlation (specBatch run (matchingMessageFrom c) books) =
    Correlation.mkCorrelation (commandClient c) (commandClientCommandId c) sequence run.
Proof. intros Hc. unfold specBatch, correlationOf. cbn [Batch.correlation]. rewrite <-(fits_sequence _ _ _ Hc). by destruct c. Qed.

Section results.
Context (header : RunHeaderV1) (Hheader : valid_runHeader header) (Hsupported : supported header).

Let run := Header.exchangeRunId header.

Lemma replayed_result_valid sequence c books : fits header sequence c →
  validateResult (commandKey c) (Some (specBatch run (matchingMessageFrom c) books)) run sequence = AdmissionError.NONE.
Proof.
  intros Hc. pose proof (matchingMessageFrom_valid header Hsupported sequence c Hc) as Hv.
  destruct (specProcess_ids run (matchingMessageFrom c) books) as [Hids Hmax].
  assert (Hne : Outcome.events (specProcess run (matchingMessageFrom c) books).1 ≠ []).
  { apply specProcess_nonempty.
    - destruct Hc as [Hc _ _ _]. destruct c as [c|c]; [left; apply Hc|by right].
    - destruct Hc as [Hc _ _ _]. destruct c as [c|c]; [apply Hc|by split]. }
  pose proof (specBatch_correlation header sequence c run books Hc) as Hcorr.
  unfold validateResult. rewrite Hcorr. cbn. rewrite !bool_decide_eq_false_2 by auto. cbn [orb].
  apply validateEventIdentities_run.
  - intros i e He. apply (f_equal (.!! i)) in Hids. revert Hids. unfold eventIds.
    rewrite !list_lookup_fmap, He, lookup_seq_lt by (by eapply lookup_lt_Some). by intros [= ->].
  - done.
  - unfold MAX_EVENTS_PER_COMMAND, UINT32_MAX in *. lia.
Qed.

(** The record of a command is the one its own admission would make. *)
Lemma normalized_run sequence c : fits header sequence c →
  ∃ business, normalizedCommandFrom c = Ret business ∧ businessCommandFrom (matchingMessageFrom c) = Ret business ∧
    admissionKeyFrom c = Ret (commandKey c) ∧ keyFrom (matchingMessageFrom c) = Ret (commandKey c).
Proof.
  intros [Hv _ _ _]. destruct c as [c|c]; cbn [valid_journalCommand] in Hv.
  - destruct Hv as [[_ _ _ [_ Hcfg] [_ Hclient] [_ Hins] _] Hside _ [_ Hp] [_ Hq]].
    exists (NormNewOrder (Normalized.mkNewOrder (NewOrder.instrumentId c) (NewOrder.configurationVersion c)
      (NewOrder.side c) (NewOrder.price c) (NewOrder.quantity c) (NewOrder.timeInForce c))).
    unfold normalizedCommandFrom, normalizedNewOrderFrom, businessCommandFrom, admissionKeyFrom, keyFrom, toAdmissionSide.
    cbn. rewrite (bool_decide_eq_false_2 (NewOrder.instrumentId c = 0)) by done.
    rewrite (bool_decide_eq_false_2 (NewOrder.configurationVersion c = 0)) by done.
    rewrite (bool_decide_eq_false_2 (NewOrder.price c = 0)), (bool_decide_eq_false_2 (NewOrder.quantity c = 0)) by done.
    rewrite (bool_decide_eq_false_2 (NewOrder.clientId c = 0)) by done.
    by destruct Hside as [-> | ->].
  - destruct Hv as [[_ _ _ _ [_ Hclient] [_ Hins] _] [_ Ht]]. eexists.
    unfold normalizedCommandFrom, normalizedCancelFrom, businessCommandFrom, admissionKeyFrom, keyFrom. cbn.
    rewrite (bool_decide_eq_false_2 (Cancel.instrumentId c = 0)), (bool_decide_eq_false_2 (Cancel.clientId c = 0)) by done.
    by rewrite (bool_decide_eq_false_2 (Cancel.targetOrderId c = 0)) by done.
Qed.

Lemma validateAdmissionContext_fits sequence c :
  fits header sequence c → validateAdmissionContext header c sequence = AdmissionError.NONE.
Proof.
  intros Hc. pose proof (validateReplayContext_fits header Hheader sequence c Hc) as Hr.
  destruct Hc as [_ Hrun Hseq Hins]. unfold validateReplayContext in Hr. unfold validateAdmissionContext.
  rewrite Hrun, Hseq in *. rewrite !bool_decide_eq_false_2 in Hr |- * by auto.
  case_bool_decide as Hrules; [done|]. cbn.
  change (hasConfiguration header (commandInstrument c) (commandConfiguration c)) with
    (instrumentConfigured header (commandInstrument c) (commandConfiguration c)). by rewrite Hins.
Qed.

Definition completedRecord (business : NormalizedBusinessCommand) (sequence : Z) (b : CommandResultBatch) : AdmissionRecord :=
  Entry.mkRecord business RecordState.COMPLETED sequence (Some b).

(** What the loop leaves behind for the commands [cs], the first with sequence [n + 1]. *)
Record recovered (n : nat) (cs : list JournalCommandV1) (results : list CommandResultBatch)
    (index index' : CommandAdmissionIndex) : Prop := {
  rec_capacity : capacity_ index' = capacity_ index;
  rec_run : exchangeRunId_ index' = exchangeRunId_ index;
  rec_open : admissionOpen_ index' = admissionOpen_ index;
  rec_size : size (records_ index') = (size (records_ index) + length cs)%nat;
  rec_other key : key ∉ commandKey <$> cs → records_ index' !! key = records_ index !! key;
  rec_command i c b : cs !! i = Some c → results !! i = Some b →
    ∃ business, businessCommandFrom (matchingMessageFrom c) = Ret business ∧
      records_ index' !! commandKey c = Some (completedRecord business (Z.of_nat (n + i) + 1) b) }.

Lemma recoverRecords_run cs : ∀ n results index,
  length results = length cs → Z.of_nat (n + length cs) ≤ UINT64_MAX →
  (∀ i c, cs !! i = Some c → fits header (Z.of_nat (n + i) + 1) c) →
  (∀ i b, results !! i = Some b → ∃ c books, cs !! i = Some c ∧ b = specBatch run (matchingMessageFrom c) books) →
  NoDup (commandKey <$> cs) → (∀ c, c ∈ cs → records_ index !! commandKey c = None) →
  ∃ index', recoverRecords header cs (Some <$> results) (wrap64 (Z.of_nat n + 1)) index = Ret (inr index') ∧
    recovered n cs results index index'.
Proof.
  induction cs as [|c cs IH]; intros n results index Hlen Hmax Hfits Hres Hnd Hfresh.
  { destruct results; [|done]. exists index. split; [done|]. split; simpl; done || lia. }
  destruct results as [|b results]; [done|]. simpl in Hlen, Hmax. apply NoDup_cons in Hnd as [Hnew Hnd].
  pose proof (Hfits 0%nat c eq_refl) as Hc. rewrite Nat.add_0_r in Hc.
  destruct (Hres 0%nat b eq_refl) as (c' & books & [= <-] & ->).
  destruct (normalized_run _ _ Hc) as (business & Hnorm & Hbusiness & Hkey & _).
  set (b := specBatch run (matchingMessageFrom c) books) in *.
  set (index1 := setRecords (<[commandKey c := completedRecord business (Z.of_nat n + 1) b]> (records_ index)) index).
  assert (Hstep : recoverRecord header c (Some b) (Z.of_nat n + 1) index = Ret (inr index1)).
  { unfold recoverRecord. rewrite (validateAdmissionContext_fits _ _ Hc), Hkey, Hnorm. cbn [mbind outcome_bind].
    pose proof (replayed_result_valid _ _ books Hc) as Hvalid. fold b in Hvalid. fold run. rewrite Hvalid. by rewrite (Hfresh c) by left. }
  destruct (IH (Datatypes.S n) results index1) as (index' & Hrun & [Hcap Hid Hopen Hsize Hother Hrec]).
  - lia.
  - lia.
  - intros i c' Hi. replace (Datatypes.S n + i)%nat with (n + Datatypes.S i)%nat by lia. by apply Hfits.
  - intros i b' Hi. by apply (Hres (Datatypes.S i)).
  - done.
  - intros c' Hc'. simpl. rewrite lookup_insert_ne; [apply Hfresh; by right|]. intros Heq. apply Hnew.
    rewrite Heq. by apply list_elem_of_fmap_2.
  - exists index'. split.
    + cbn [fmap list_fmap recoverRecords]. rewrite (wrap64_small (Z.of_nat n + 1)) by (unfold is_u64; lia). rewrite Hstep. cbn [mbind outcome_bind].
      by replace (Z.of_nat n + 1 + 1) with (Z.of_nat (Datatypes.S n) + 1) by lia.
    + split; [done|done|done| | |].
      * rewrite Hsize. unfold index1, setRecords. cbn [records_ length]. rewrite map_size_insert_None by (apply Hfresh; by left). lia.
      * intros key Hk. cbn [fmap list_fmap] in Hk. apply not_elem_of_cons in Hk as [Hk Hks].
        rewrite Hother by done. simpl. by rewrite lookup_insert_ne.
      * intros [|i] c' b' Hi Hb; simpl in Hi, Hb.
        -- simplify_eq. exists business. split; [done|]. rewrite Hother by done. simpl. rewrite lookup_insert_eq.
           by rewrite Nat.add_0_r.
        -- destruct (Hrec i c' b' Hi Hb) as (business' & ? & ?). exists business'.
           by replace (n + Datatypes.S i)%nat with (Datatypes.S n + i)%nat by lia.
Qed.
End results.

(** ** The rebuilt index *)
Lemma rebuilt_index header cs output :
  valid_journal header cs → supported header → NoDup (commandKey <$> cs) →
  let run := Header.exchangeRunId header in
  let results := (specRun run (matchingMessageFrom <$> cs) (queueOf (newMatchingState run))).1 in
  ∃ index,
    reconstructCommandAdmissionIndex (loadedJournal header cs) (Some <$> results) output =
      Ret (admissionRecoveryResult AdmissionOutcome.RECONSTRUCTED AdmissionError.NONE, Some index) ∧
    recovered 0 cs results (mkIndex (Header.maxRunCommands header) run false ∅ noStatistics) index.
Proof.
  intros Hv Hs Hnd run results. pose proof (vj_header _ _ Hv) as Hh.
  destruct (vrh_run _ Hh) as [_ Hrun0]. destruct (vrh_commands _ Hh) as [[_ Hmax] Hmax0].
  assert (Hlen : length results = length cs) by (unfold results, run; by rewrite specRun_length, length_fmap).
  pose proof (journal_length_bound header cs Hv) as Hbound.
  destruct (recoverRecords_run header Hh Hs cs 0 results (mkIndex (Header.maxRunCommands header) run false ∅ noStatistics))
    as (index & Hrec & Hrecovered).
  - done.
  - done.
  - intros i c Hi. by apply Hv.
  - intros i b (m & books & Hm & ->)%specRun_results. apply list_lookup_fmap_Some in Hm as (c & -> & Hc). eauto.
  - done.
  - intros c _. apply lookup_empty.
  - exists index. split; [|done]. unfold reconstructCommandAdmissionIndex, loadedJournal. cbn [Loaded.header Loaded.commands].
    rewrite bool_decide_eq_false_2 by done. rewrite length_fmap, bool_decide_eq_false_2 by auto.
    rewrite bool_decide_eq_false_2 by (pose proof (vj_count _ _ Hv); lia).
    rewrite bool_decide_eq_false_2 by done. rewrite bool_decide_eq_false_2 by (unfold SIZE_MAX; lia).
    unfold newRunBoundIndex. rewrite !throw_if_false by (by apply bool_decide_eq_false).
    cbn [mbind outcome_bind orb]. change (wrap64 (Z.of_nat 0 + 1)) with 1 in Hrec. fold run. by rewrite Hrec.
Qed.

(** The rebuilt index is well formed and has every command as completed at its place. *)
Definition index_recovered (cs : list JournalCommandV1) (index : CommandAdmissionIndex) : Prop :=
  ∀ i c, cs !! i = Some c → ∃ business b, records_ index !! commandKey c = Some (completedRecord business (Z.of_nat i + 1) b).

Lemma rebuilt_index_ok header cs index : valid_journal header cs →
  let run := Header.exchangeRunId header in
  let results := (specRun run (matchingMessageFrom <$> cs) (queueOf (newMatchingState run))).1 in
  recovered 0 cs results (mkIndex (Header.maxRunCommands header) run false ∅ noStatistics) index →
  index_ok index ∧ index_recovered cs index.
Proof.
  intros Hv run results [Hcap Hid _ Hsize Hother Hcmd].
  assert (Hresult : ∀ i c, cs !! i = Some c → ∃ b, results !! i = Some b).
  { intros i c Hi. apply lookup_lt_is_Some_2. unfold results. rewrite specRun_length, length_fmap. by eapply lookup_lt_Some. }
  split.
  - split; [rewrite Hsize, Hcap; cbn; rewrite map_size_empty; pose proof (vj_count _ _ Hv); lia|].
    intros key r Hr. destruct (decide (key ∈ commandKey <$> cs)) as [(c & -> & [i Hi]%list_elem_of_lookup)%list_elem_of_fmap|Hne].
    2:{ specialize (Hother key Hne). rewrite Hr in Hother. cbn [records_] in Hother. by rewrite lookup_empty in Hother. }
    destruct (Hresult i c Hi) as [b Hb]. destruct (Hcmd i c b Hi Hb) as (business & _ & Hrec). rewrite Hr in Hrec. injection Hrec as ->.
    split; [simpl; lia|]. exists b. split; [done|]. rewrite Hid. cbn.
    apply specRun_results in Hb as (m & books & Hm & ->). apply list_lookup_fmap_Some in Hm as (c' & -> & Hc'). rewrite Hi in Hc'. injection Hc' as <-.
    apply (specBatch_correlation header). by apply Hv.
  - intros i c Hi. destruct (Hresult i c Hi) as [b Hb]. destruct (Hcmd i c b Hi Hb) as (business & _ & Hrec). by exists business, b.
Qed.

(** ** The property *)

(** A restart keeps the at-most-once promise.  From a valid journal whose
    commands have distinct keys and its replayed results, the index is rebuilt:
    closed, bound to the run, with the run's command limit as its capacity; it
    holds exactly the journal's keys, each completed at its sequence with the
    replayed result, as the record of that very message; so submitting any
    journaled command again stages nothing and returns its replayed result. *)
Theorem rebuilt_index_answers header cs output :
  valid_journal header cs → supported header → NoDup (commandKey <$> cs) →
  let run := Header.exchangeRunId header in
  let results := (specRun run (matchingMessageFrom <$> cs) (queueOf (newMatchingState run))).1 in
  ∃ index,
    reconstructCommandAdmissionIndex (loadedJournal header cs) (Some <$> results) output =
      Ret (admissionRecoveryResult AdmissionOutcome.RECONSTRUCTED AdmissionError.NONE, Some index) ∧
    capacity_ index = Header.maxRunCommands header ∧ exchangeRunId_ index = run ∧ admissionOpen_ index = false ∧
    Z.of_nat (size (records_ index)) = Z.of_nat (length cs) ∧
    (∀ key, key ∉ commandKey <$> cs → records_ index !! key = None) ∧
    ∀ i c, cs !! i = Some c → ∃ b, results !! i = Some b ∧
      ∀ (queue : FixedQueue sequenceMessage) available, ∃ index',
        reserveAndStageForRunCapacity (matchingMessageFrom c) available (index, queue) =
          (Ret (mkDecision AdmissionStatus.IDENTICAL_COMPLETED None (Some b)), (index', queue)).
Proof.
  intros Hv Hs Hnd run results. destruct (rebuilt_index header cs output Hv Hs Hnd) as (index & Hrec & [Hcap Hid Hopen Hsize Hother Hcmd]).
  exists index. split_and!.
  - exact Hrec.
  - done.
  - done.
  - done.
  - rewrite Hsize. cbn [records_]. by rewrite map_size_empty.
  - intros key Hk. rewrite Hother by done. apply lookup_empty.
  - intros i c Hi. destruct (lookup_lt_is_Some_2 results i) as [b Hb].
    { unfold results. rewrite specRun_length, length_fmap. by eapply lookup_lt_Some. }
    exists b. split; [done|]. intros queue available.
    destruct (Hcmd i c b Hi Hb) as (business & Hbusiness & Hrecord).
    destruct (normalized_run header _ c (vj_commands _ _ Hv i c Hi)) as (_ & _ & _ & _ & Hkey).
    rewrite (reserveAndStage_run _ _ _ _ _ _ Hkey Hbusiness).
    destruct (reserveLocked_known (commandKey c) business (matchingMessageFrom c) available index (Some queue) _ Hrecord)
      as (d & -> & Hd).
    cbn [completedRecord Entry.command Entry.state Entry.result] in Hd.
    rewrite !bool_decide_eq_false_2 in Hd by auto. subst d. by eexists.
Qed.

Lemma rebuilt_index_answers_witness :
  ∃ index,
    reconstructCommandAdmissionIndex (loadedJournal demoHeader demoJournal)
      (Some <$> (specRun 7 (matchingMessageFrom <$> demoJournal) (queueOf (newMatchingState 7))).1) None =
      Ret (admissionRecoveryResult AdmissionOutcome.RECONSTRUCTED AdmissionError.NONE, Some index).
Proof.
  destruct (rebuilt_index_answers demoHeader demoJournal None demo_journal_valid demoHeader_supported) as (index & H & _).
  - apply (bool_decide_unpack _). vm_compute. exact I.
  - exists index. exact H.
Defined.
