(* ===== verification/Sequencer.v ===== *)
(** * The sequencer

    [src/sequencer/src/sequencer.cpp]: the sole consumer of the staging queue gives
    each command the next sequence, appends it to the journal, marks its admission
    record and hands it to the matching engine.  The queues, the admission index
    and the journal writer it borrows are fields of its state; the journal's file
    is the world. *)
From S2P Require Import Prelude Domain Bytes JournalCodec RunHeaderCodec Posix JournalReader JournalWriter.
From S2P Require Import Projection Queues Admission.

Record SequencerState (Q : Type) := mkSequencer {
  sequencingIngressQueue_ : Q;
  matchingEngineQueue_ : Q;
  sequencerAdmission_ : option CommandAdmissionIndex;
  journalWriter_ : option RunJournalWriterV1;
  lastAssignedSequence_ : CommandSequence;
  pendingCommand_ : option sequenceMessage;
  pendingReadyForMatching_ : bool;
  journalAppendFailure_ : option RunJournalAppendResult }.
Arguments mkSequencer {_} _ _ _ _ _ _ _ _.
Arguments sequencingIngressQueue_ {_} _.
Arguments matchingEngineQueue_ {_} _.
Arguments sequencerAdmission_ {_} _.
Arguments journalWriter_ {_} _.
Arguments lastAssignedSequence_ {_} _.
Arguments pendingCommand_ {_} _.
Arguments pendingReadyForMatching_ {_} _.
Arguments journalAppendFailure_ {_} _.

Definition markSequencedStatusName (s : MarkSequencedStatus) : string :=
  match s with
  | MarkSequenced.SEQUENCED => "Sequenced"
  | MarkSequenced.IDEMPOTENT => "Idempotent"
  | MarkSequenced.INVALID_SEQUENCE => "InvalidSequence"
  | MarkSequenced.UNKNOWN_RESERVATION => "UnknownReservation"
  | MarkSequenced.COMMAND_MISMATCH => "CommandMismatch"
  | MarkSequenced.WRONG_STATE => "WrongState"
  | MarkSequenced.SEQUENCE_MISMATCH => "SequenceMismatch"
  end.

(** The journal records [appendCommand] builds. *)
Definition newOrderRecord (header : RunHeaderV1) (sequence : CommandSequence) (c : ClientCommandId)
    (message : sequenceMessage) : JournalNewOrderV1 :=
  NewOrder.mkJournalNewOrderV1 (Header.exchangeRunId header) sequence (Header.behavioralRulesVersion header)
    (wrap32 (Msg.configurationVersion message)) (Msg.clientId message) (Msg.instrumentId message) c
    (if bool_decide (Msg.type message = OrderType.BUY) then Side.BUY else Side.SELL) (Msg.tif message)
    (Msg.price message) (Msg.quantity message).

Definition cancelRecord (header : RunHeaderV1) (sequence : CommandSequence) (c : ClientCommandId)
    (target : TargetOrderId) (message : sequenceMessage) : JournalCancelV1 :=
  Cancel.mkJournalCancelV1 (Header.exchangeRunId header) sequence (Header.behavioralRulesVersion header)
    (wrap32 (Msg.configurationVersion message)) (Msg.clientId message) (Msg.instrumentId message) c target.

Definition is_order (message : sequenceMessage) : bool :=
  bool_decide (Msg.type message = OrderType.BUY) || bool_decide (Msg.type message = OrderType.SELL).

Section sequencer.
Context {W : Type} `{Posix W} {Q : Type} `{SharedQueue sequenceMessage Q}.

Abbreviation Sequencer := (SequencerState Q) (only parsing).

(** The four constructors. *)
Definition newSequencer (ingress matching : Q) (admissionIndex : CommandAdmissionIndex)
    (lastAssignedSequence : CommandSequence) : Sequencer :=
  mkSequencer ingress matching (Some admissionIndex) None lastAssignedSequence None false None.

Definition newBypassSequencer (ingress matching : Q) (lastAssignedSequence : CommandSequence) : Sequencer :=
  mkSequencer ingress matching None None lastAssignedSequence None false None.

Definition newJournaledSequencer (ingress matching : Q) (admissionIndex : CommandAdmissionIndex)
    (journalWriter : RunJournalWriterV1) : outcome Sequencer :=
  throw_if (bool_decide (exchangeRunId_ admissionIndex ≠ Header.exchangeRunId (Writer.header journalWriter)))
    (invalid_argument "journal-backed sequencer requires admission bound to the writer's run") ;;
  Ret (mkSequencer ingress matching (Some admissionIndex) (Some journalWriter) 0 None false None).

(** ** Updates *)
Definition setQueues (ingress matching : Q) (s : Sequencer) : Sequencer :=
  mkSequencer ingress matching (sequencerAdmission_ s) (journalWriter_ s) (lastAssignedSequence_ s)
    (pendingCommand_ s) (pendingReadyForMatching_ s) (journalAppendFailure_ s).
Definition setAdmission (index : option CommandAdmissionIndex) (s : Sequencer) : Sequencer :=
  mkSequencer (sequencingIngressQueue_ s) (matchingEngineQueue_ s) index (journalWriter_ s) (lastAssignedSequence_ s)
    (pendingCommand_ s) (pendingReadyForMatching_ s) (journalAppendFailure_ s).
Definition setWriter (writer : option RunJournalWriterV1) (s : Sequencer) : Sequencer :=
  mkSequencer (sequencingIngressQueue_ s) (matchingEngineQueue_ s) (sequencerAdmission_ s) writer
    (lastAssignedSequence_ s) (pendingCommand_ s) (pendingReadyForMatching_ s) (journalAppendFailure_ s).
Definition setLastAssigned (sequence : CommandSequence) (s : Sequencer) : Sequencer :=
  mkSequencer (sequencingIngressQueue_ s) (matchingEngineQueue_ s) (sequencerAdmission_ s) (journalWriter_ s)
    sequence (pendingCommand_ s) (pendingReadyForMatching_ s) (journalAppendFailure_ s).
Definition setPending (pending : option sequenceMessage) (ready : bool) (s : Sequencer) : Sequencer :=
  mkSequencer (sequencingIngressQueue_ s) (matchingEngineQueue_ s) (sequencerAdmission_ s) (journalWriter_ s)
    (lastAssignedSequence_ s) pending ready (journalAppendFailure_ s).
Definition setAppendFailure (failure : RunJournalAppendResult) (s : Sequencer) : Sequencer :=
  mkSequencer (sequencingIngressQueue_ s) (matchingEngineQueue_ s) (sequencerAdmission_ s) (journalWriter_ s)
    (lastAssignedSequence_ s) (pendingCommand_ s) (pendingReadyForMatching_ s) (Some failure).

Definition hasPendingSequencedCommand (s : Sequencer) : bool :=
  bool_decide (pendingCommand_ s ≠ None) && pendingReadyForMatching_ s.

(** ** The cycle *)
Definition nextCommandSequence (s : Sequencer) : CommandSequence * Sequencer :=
  let sequence := wrap64 (lastAssignedSequence_ s + 1) in (sequence, setLastAssigned sequence s).

Definition invalidCommand (error : RunJournalAppendError) (codecError : option JournalCommandCodecError)
    : RunJournalAppendResult :=
  appendResult AppendOutcome.INVALID_COMMAND error codecError 0.

Definition appendCommand (fuel : nat) (journalWriter : RunJournalWriterV1) (message : sequenceMessage)
    : io W (RunJournalAppendResult * RunJournalWriterV1) :=
  let header := Writer.header journalWriter in
  match Msg.clientCommandId message with
  | None =>
      mret (invalidCommand AppendError.NONE (Some CodecError.INVALID_CLIENT_COMMAND_ID), journalWriter)
  | Some c =>
      if bool_decide (UINT32_MAX < Msg.configurationVersion message) then
        mret (invalidCommand AppendError.INSTRUMENT_CONFIGURATION_MISMATCH None, journalWriter)
      else if is_order message then
        append fuel journalWriter
          (JournalNew (newOrderRecord header (Msg.globalSequenceNumber message) c message))
      else if bool_decide (Msg.type message ≠ OrderType.CANCEL) then
        mret (invalidCommand AppendError.NONE (Some CodecError.UNSUPPORTED_RECORD_TYPE), journalWriter)
      else
        match Msg.targetOrderId message with
        | None => mret (invalidCommand AppendError.NONE (Some CodecError.ZERO_TARGET_ORDER_ID), journalWriter)
        | Some target =>
            append fuel journalWriter
              (JournalCancel (cancelRecord header (Msg.globalSequenceNumber message) c target message))
        end
  end.

Definition handoffPendingCommand (s : Sequencer) : bool * Sequencer :=
  match pendingCommand_ s with
  | None => (true, s)
  | Some pending =>
      let '(pushed, matching) := sharedPush pending (matchingEngineQueue_ s) in
      let s := setQueues (sequencingIngressQueue_ s) matching s in
      if pushed then (true, setPending None false s) else (false, s)
  end.

(** The command's order identifier, its admission record, and the hand-over. *)
Definition bindAndHandoff (pending : sequenceMessage) (s : Sequencer) : outcome bool * Sequencer :=
  let pending :=
    if is_order pending then withOrderId (orderIdFrom (Msg.globalSequenceNumber pending)) pending else pending in
  let s := setPending (Some pending) (pendingReadyForMatching_ s) s in
  let ready s := let '(handed, s) := handoffPendingCommand (setPending (pendingCommand_ s) true s) in (Ret handed, s) in
  match sequencerAdmission_ s with
  | None => ready s
  | Some index =>
      match markSequenced pending index with
      | (Throw e, index') => (Throw e, setAdmission (Some index') s)
      | (Ret status, index') =>
          let s := setAdmission (Some index') s in
          if bool_decide (status ≠ MarkSequenced.SEQUENCED) then
            (Throw (logic_error ("sequencer admission binding failed: " ++ markSequencedStatusName status)), s)
          else ready s
      end
  end.

Definition processNext (fuel : nat) (s : Sequencer) : io W (outcome bool * Sequencer) :=
  match pendingCommand_ s with
  | Some _ =>
      if pendingReadyForMatching_ s then
        let '(handed, s) := handoffPendingCommand s in mret (Ret handed, s)
      else mret (Ret false, s)
  | None =>
      if bool_decide (journalWriter_ s = None) && bool_decide (lastAssignedSequence_ s = UINT64_MAX) then
        if sharedEmpty (sequencingIngressQueue_ s) then mret (Ret false, s)
        else mret (Throw (overflow_error "CommandSequence exhausted"), s)
      else
        let '(popped, ingress) := sharedPop (sequencingIngressQueue_ s) in
        let s := setQueues ingress (matchingEngineQueue_ s) s in
        match popped with
        | None => mret (Ret false, s)
        | Some message =>
            match journalWriter_ s with
            | None =>
                let '(sequence, s) := nextCommandSequence s in
                mret (bindAndHandoff (withSequence sequence message) s)
            | Some writer =>
                let pending := withSequence (Writer.nextCommandSequence writer) message in
                let s := setPending (Some pending) false s in
                '(result, writer) ← appendCommand fuel writer pending;
                let s := setWriter (Some writer) s in
                if bool_decide (AppendResult.outcome result ≠ AppendOutcome.COMMITTED) then
                  mret (Ret false, setAppendFailure result s)
                else mret (bindAndHandoff pending s)
            end
        end
  end.

(** [while (processNext()) progressed = true;]; an exception leaves the loop. *)
Fixpoint drainAvailable (loopFuel fuel : nat) (progressed : bool) (s : Sequencer)
    : io W (outcome bool * Sequencer) :=
  match loopFuel with
  | O => out_of_fuel
  | Datatypes.S loopFuel' =>
      '(result, s) ← processNext fuel s;
      match result with
      | Ret true => drainAvailable loopFuel' fuel true s
      | Ret false => mret (Ret progressed, s)
      | Throw e => mret (Throw e, s)
      end
  end.

Definition advanceSequencer (loopFuel fuel : nat) (s : Sequencer) : io W (outcome bool * Sequencer) :=
  drainAvailable loopFuel fuel false s.
End sequencer.
