(* ===== verification/SequencerCycle.v ===== *)
(** * Messages the sequencer gives to the engine

    The journal record of a sequenced message, what the engine gets for it, and the
    fact that the engine cannot tell that message from the one replay rebuilds from
    the record: it reads none of the fields in which they differ. *)
From S2P Require Import Prelude Domain Matching MatchingSpec MatchingRefine Bytes JournalCodec JournalFrames.
From S2P Require Import JournalTheorems RunHeaderCodec RunHeaderTheorems Posix JournalReader JournalParse.
From S2P Require Import JournalFile JournalWriter JournalAppend Replay Projection Queues Admission.
From S2P Require Import AdmissionTheorems Sequencer.

(** ** Messages and their records *)

(** The values a normalized command's C++ fields can hold before it is sequenced. *)
Record typed_message (m : sequenceMessage) : Prop := {
  tm_client : is_u64 (Msg.clientId m);
  tm_instrument : is_u64 (Msg.instrumentId m);
  tm_configuration : is_u64 (Msg.configurationVersion m);
  tm_price : is_u64 (Msg.price m);
  tm_quantity : is_u64 (Msg.quantity m);
  tm_target t : Msg.targetOrderId m = Some t → is_u64 t;
  tm_command c : Msg.clientCommandId m = Some c → valid_ClientCommandId c;
  tm_order : Msg.orderId m = 0 }.

(** The record of a sequenced message, when it has one. *)
Definition commandRecord (header : RunHeaderV1) (m : sequenceMessage) : option JournalCommandV1 :=
  match Msg.clientCommandId m with
  | None => None
  | Some c =>
      if bool_decide (UINT32_MAX < Msg.configurationVersion m) then None
      else if is_order m then Some (JournalNew (newOrderRecord header (Msg.globalSequenceNumber m) c m))
      else if bool_decide (Msg.type m ≠ OrderType.CANCEL) then None
      else (λ target, JournalCancel (cancelRecord header (Msg.globalSequenceNumber m) c target m)) <$>
             Msg.targetOrderId m
  end.

(** The message the engine gets for a sequenced one. *)
Definition bound (m : sequenceMessage) : sequenceMessage :=
  if is_order m then withOrderId (orderIdFrom (Msg.globalSequenceNumber m)) m else m.

(** [m] is what the engine gets for the journaled command [c]. *)
Definition committed_as (header : RunHeaderV1) (c : JournalCommandV1) (m : sequenceMessage) : Prop :=
  ∃ m0, typed_message m0 ∧ m = bound (withSequence (commandSequenceOf c) m0) ∧
    commandRecord header (withSequence (commandSequenceOf c) m0) = Some c.

(** ** What the engine reads of a message *)
Record same_effect (m m' : sequenceMessage) : Prop := {
  se_order : Msg.orderId m = Msg.orderId m';
  se_sequence : Msg.globalSequenceNumber m = Msg.globalSequenceNumber m';
  se_client : Msg.clientId m = Msg.clientId m';
  se_command : Msg.clientCommandId m = Msg.clientCommandId m';
  se_instrument : Msg.instrumentId m = Msg.instrumentId m';
  se_configuration : Msg.configurationVersion m = Msg.configurationVersion m';
  se_type : Msg.type m = Msg.type m';
  se_fields : match Msg.type m with
    | OrderType.BUY | OrderType.SELL =>
        Msg.price m = Msg.price m' ∧ Msg.quantity m = Msg.quantity m' ∧ Msg.tif m = Msg.tif m'
    | OrderType.CANCEL => Msg.targetOrderId m = Msg.targetOrderId m'
    | _ => True
    end }.

(** An order's processing reads neither the target of a cancel nor the fields
    matching ignores; the loop needs an induction, the rest is conversion. *)
Section order_fields.
Context (o : OrderId) (g : CommandSequence) (c : ClientId) (cc : option ClientCommandId) (i : InstrumentId).
Context (v : Z) (p : Price) (q : Quantity) (ty : orderType) (tf : TimeInForce).
Context (t t' : option TargetOrderId) (sy sy' : string) (e e' sh sh' : Z).

Definition order1 : sequenceMessage := Msg.mkSequenceMessage o t g c cc i v p q sy ty e sh tf.
Definition order2 : sequenceMessage := Msg.mkSequenceMessage o t' g c cc i v p q sy' ty e' sh' tf.

Lemma M_bind_ext {S A B} (a b : M S A) (f f' : A → M S B) :
  (∀ st, a st = b st) → (∀ x st, f x st = f' x st) → ∀ st, mbind f a st = mbind f' b st.
Proof. intros Ha Hf st. unfold mbind, M_bind. rewrite Ha. destruct (b st) as [[x|ex] st']; auto. Qed.

Lemma matchLoop_fields fuel mk s ts beyond r evs st :
  matchLoop fuel order1 mk s ts beyond r evs st = matchLoop fuel order2 mk s ts beyond r evs st.
Proof.
  revert r evs st. induction fuel as [|fuel IH]; intros r evs st; cbn [matchLoop]; case_bool_decide; try done.
  apply M_bind_ext; [done|]. intros st1 st2. change (Msg.instrumentId order2) with (Msg.instrumentId order1).
  destruct (State.orderBooks st1 !! Msg.instrumentId order1) as [book|]; [|done].
  destruct (levels s book) as [|[price level] rest]; [done|]. destruct (beyond price); [done|].
  apply M_bind_ext; [done|]. intros _ st3. apply M_bind_ext; [done|]. intros [r' evs'] st4. apply IH.
Qed.

Lemma matchOrder_fields r evs st : matchOrder order1 r evs st = matchOrder order2 r evs st.
Proof.
  unfold matchOrder, matchBuyOrder, matchSellOrder.
  change (Msg.type order1) with ty. change (Msg.type order2) with ty. destruct ty; try done;
    (apply M_bind_ext; [done|]; intros st1 st2; apply matchLoop_fields).
Qed.

Lemma processOrder_fields rest st : processOrder order1 rest st = processOrder order2 rest st.
Proof.
  unfold processOrder. apply M_bind_ext; [done|]. intros plan st1. apply M_bind_ext; [done|]. intros n st2.
  case_bool_decide; [done|]. apply M_bind_ext; [done|]. intros fits st3. destruct (negb fits); [done|].
  apply M_bind_ext; [done|]. intros _ st4. apply M_bind_ext; [apply matchOrder_fields|]. by intros [r evs] st5.
Qed.

Lemma processMessage_fields st :
  ty = OrderType.BUY ∨ ty = OrderType.SELL → processMessage order1 st = processMessage order2 st.
Proof.
  intros Hty. assert (Hr : processRestableOrder order1 st = processRestableOrder order2 st).
  { unfold processRestableOrder. apply M_bind_ext; [done|]. intros _ st1. apply M_bind_ext; [done|]. intros st2 st3.
    apply M_bind_ext; [done|]. intros _ st4. apply processOrder_fields. }
  unfold processMessage, processBuyOrder, processSellOrder, order1, order2 in *. cbn. by destruct Hty as [-> | ->].
Qed.
End order_fields.

Lemma processCommand_same m m' st : same_effect m m' → processCommand m st = processCommand m' st.
Proof.
  destruct m as [o t g c cc i v p q sy ty e sh tf], m' as [o' t' g' c' cc' i' v' p' q' sy' ty' e' sh' tf'].
  intros [Ho Hg Hc Hcc Hi Hv Hty Hf]. cbn in *. subst.
  unfold processCommand. apply M_bind_ext; [done|]. intros corr st1.
  apply M_bind_ext; [|done]. intros st2.
  destruct ty'; [destruct Hf as (-> & -> & ->)|destruct Hf as (-> & -> & ->)|subst t'| |]; try done;
    apply processMessage_fields; auto.
Qed.

Lemma processAll_same ms ms' : Forall2 same_effect ms ms' → ∀ st, processAll ms st = processAll ms' st.
Proof.
  induction 1 as [|m m' ms ms' Hm _ IH]; intros st; [done|]. cbn [processAll]. unfold mbind, M_bind.
  rewrite (processCommand_same m m' st Hm). destruct (processCommand m' st) as [[b|e] st1]; [|done]. by rewrite IH.
Qed.

(** The engine does the same with the live message and the one replay rebuilds. *)
Lemma committed_same_effect header c m : committed_as header c m → same_effect m (matchingMessageFrom c).
Proof.
  intros (m0 & Ht & -> & Hc). set (m := withSequence (commandSequenceOf c) m0) in *.
  assert (Hseq : Msg.globalSequenceNumber m = commandSequenceOf c) by (unfold m; by destruct m0).
  assert (Ho : Msg.orderId m = 0) by (rewrite <-(tm_order _ Ht); unfold m; by destruct m0).
  assert (Hv : 0 ≤ Msg.configurationVersion m) by (replace (Msg.configurationVersion m) with (Msg.configurationVersion m0)
    by (unfold m; by destruct m0); apply Ht).
  clearbody m. clear Ht. unfold commandRecord in Hc. destruct (Msg.clientCommandId m) as [cc|] eqn:Hcc; [|done].
  case_bool_decide as Hcfg; [done|].
  assert (Hw : wrap32 (Msg.configurationVersion m) = Msg.configurationVersion m) by (apply wrap32_small; unfold is_u32; lia).
  unfold bound. destruct (is_order m) eqn:Horder.
  - injection Hc as <-. unfold is_order in Horder. destruct m as [o t g c0 ccm i v p q sy ty e sh tf]. cbn in *.
    unfold newOrderMessageFrom, newOrderRecord. cbn. rewrite Hw. split; cbn; try done; by destruct ty.
  - case_bool_decide as Hty; [done|]. destruct (Msg.targetOrderId m) as [target|] eqn:Htarget; [|done].
    injection Hc as <-. destruct m as [o t g c0 ccm i v p q sy ty e sh tf]. cbn in *. subst.
    unfold cancelMessageFrom, cancelRecord. cbn. rewrite Hw. by split.
Qed.

(** * One cycle of the journal-backed sequencer

    What [processNext] does to the journal, the admission index and the matching
    queue, from any state in which the file is the journal of the commands handed
    over. *)

(** ** Fields sequencing does not touch *)
Lemma keyFrom_withSequence n m : keyFrom (withSequence n m) = keyFrom m.
Proof. by destruct m. Qed.
Lemma keyFrom_bound m : keyFrom (bound m) = keyFrom m.
Proof. unfold bound. destruct (is_order m); by destruct m. Qed.
Lemma businessCommandFrom_withSequence n m : businessCommandFrom (withSequence n m) = businessCommandFrom m.
Proof. by destruct m. Qed.
Lemma businessCommandFrom_bound m : businessCommandFrom (bound m) = businessCommandFrom m.
Proof. unfold bound. destruct (is_order m); by destruct m. Qed.
Lemma sequence_withSequence n m : Msg.globalSequenceNumber (withSequence n m) = n.
Proof. by destruct m. Qed.
Lemma sequence_bound m : Msg.globalSequenceNumber (bound m) = Msg.globalSequenceNumber m.
Proof. unfold bound. destruct (is_order m); by destruct m. Qed.

(** ** The record of a typed message *)
Lemma commandRecord_sequence header m c :
  commandRecord header m = Some c → commandSequenceOf c = Msg.globalSequenceNumber m.
Proof.
  unfold commandRecord. destruct (Msg.clientCommandId m); [|done]. case_bool_decide; [done|].
  destruct (is_order m); [by intros [= <-]|]. case_bool_decide; [done|].
  by intros (t & _ & ->)%fmap_Some.
Qed.

Lemma commandRecord_representable header n m c :
  is_u64 (Header.exchangeRunId header) → is_u64 n → typed_message m →
  commandRecord header (withSequence n m) = Some c → representable c.
Proof.
  intros Hrun Hn [Hc Hi Hv Hp Hq Ht Hcc _]. unfold commandRecord. destruct m as [o t g cl cc i v p q sy ty e sh tf].
  cbn in *. destruct cc as [cc|]; [|done]. specialize (Hcc _ eq_refl). case_bool_decide as Hcfg; [done|].
  assert (Hw : wrap32 v = v) by (apply wrap32_small; unfold is_u32, is_u64 in *; lia).
  assert (Hf : representable_fields (Header.exchangeRunId header) n (wrap32 v) cl i cc).
  { split; try done. rewrite Hw. unfold is_u32, is_u64 in *. lia. }
  destruct (is_order _); [by intros [= <-]|]. case_bool_decide; [done|].
  intros (target & -> & ->)%fmap_Some. split; [done|]. by apply Ht.
Qed.

Section cycle.
Context {W : Type} `{PosixFile W} {Q : Type} `{SharedQueueLaws sequenceMessage Q}.
Implicit Types (w : W) (s : SequencerState Q).

Lemma appendCommand_record fuel writer m :
  match commandRecord (Writer.header writer) m with
  | Some c => appendCommand (W:=W) fuel writer m = append fuel writer c
  | None => ∃ r, appendCommand (W:=W) fuel writer m = mret (r, writer) ∧
      AppendResult.outcome r = AppendOutcome.INVALID_COMMAND
  end.
Proof.
  unfold commandRecord, appendCommand. destruct (Msg.clientCommandId m); [|by eexists].
  case_bool_decide; [by eexists|]. destruct (is_order m); [done|]. case_bool_decide; [by eexists|].
  destruct (Msg.targetOrderId m); [done|by eexists].
Qed.

(** ** Admission records of the commands that wait *)
Definition reserved_in (index : CommandAdmissionIndex) (m : sequenceMessage) : Prop :=
  ∃ key business, keyFrom m = Ret key ∧ businessCommandFrom m = Ret business ∧
    records_ index !! key = Some (reservedRecord business).

Record staged_ok (index : CommandAdmissionIndex) (ms : list sequenceMessage) : Prop := {
  so_typed : Forall typed_message ms;
  so_reserved : Forall (reserved_in index) ms;
  so_unique : NoDup (key_of <$> ms) }.

Lemma staged_ok_cons index m ms : staged_ok index (m :: ms) ↔
  typed_message m ∧ reserved_in index m ∧ (key_of m ∉ key_of <$> ms) ∧ staged_ok index ms.
Proof.
  split.
  - intros [Ht Hr Hu]. apply Forall_cons in Ht as [? ?]. apply Forall_cons in Hr as [? ?].
    rewrite fmap_cons in Hu. apply NoDup_cons in Hu as [? ?]. by split_and!.
  - intros (? & ? & ? & [? ? ?]). split; [by constructor|by constructor|]. rewrite fmap_cons. by constructor.
Qed.

(** Another key's record may change. *)
Lemma reserved_in_insert index key r m : key_of m ≠ Some key →
  reserved_in index m → reserved_in (setRecords (<[key := r]> (records_ index)) index) m.
Proof.
  intros Hne (key' & business & Hk & Hb & Hr). exists key', business. split_and!; [done|done|]. simpl.
  rewrite lookup_insert_ne; [done|]. intros ->. apply Hne. by apply key_of_run.
Qed.

Lemma staged_ok_insert index key r ms : Some key ∉ (key_of <$> ms) →
  staged_ok index ms → staged_ok (setRecords (<[key := r]> (records_ index)) index) ms.
Proof.
  intros Hkey [Ht Hr Hu]. split; [done| |done]. apply Forall_forall. intros m Hm.
  apply reserved_in_insert; [|by eapply Forall_forall in Hr]. intros Heq. apply Hkey. rewrite <-Heq.
  by apply list_elem_of_fmap_2.
Qed.

Definition sequencedRecord (business : NormalizedBusinessCommand) (n : CommandSequence) : AdmissionRecord :=
  Entry.mkRecord business RecordState.SEQUENCED n None.

Lemma markSequenced_reserved index m key business n : n ≠ 0 → Msg.globalSequenceNumber m = n →
  keyFrom m = Ret key → businessCommandFrom m = Ret business →
  records_ index !! key = Some (reservedRecord business) →
  markSequenced m index =
    (Ret MarkSequenced.SEQUENCED, setRecords (<[key := sequencedRecord business n]> (records_ index)) index).
Proof.
  intros Hn Hseq Hk Hb Hr. unfold markSequenced. rewrite Hseq, bool_decide_eq_false_2 by done.
  unfold mbind, M_bind, liftM, stepM. rewrite Hk, Hb. unfold markSequencedLocked. rewrite Hr.
  by rewrite bool_decide_eq_false_2 by (cbn; auto).
Qed.

(** ** The hand-over *)
Lemma bindAndHandoff_run s m n index key business : n ≠ 0 → sequencerAdmission_ s = Some index →
  keyFrom m = Ret key → businessCommandFrom m = Ret business →
  records_ index !! key = Some (reservedRecord business) →
  let pending := bound (withSequence n m) in
  let '(pushed, matching) := sharedPush pending (matchingEngineQueue_ s) in
  bindAndHandoff (withSequence n m) s =
    (Ret pushed, mkSequencer (sequencingIngressQueue_ s) matching
       (Some (setRecords (<[key := sequencedRecord business n]> (records_ index)) index)) (journalWriter_ s)
       (lastAssignedSequence_ s) (if pushed then None else Some pending) (negb pushed) (journalAppendFailure_ s)).
Proof.
  intros Hn Hadm Hk Hb Hr pending. destruct (sharedPush pending _) as [pushed matching] eqn:Hpush.
  unfold bindAndHandoff. fold (bound (withSequence n m)). fold pending.
  cbn [setPending sequencerAdmission_]. rewrite Hadm.
  rewrite (markSequenced_reserved index pending key business n); [|done| | | |done];
    [|by unfold pending; rewrite sequence_bound, sequence_withSequence
     |by unfold pending; rewrite keyFrom_bound, keyFrom_withSequence
     |by unfold pending; rewrite businessCommandFrom_bound, businessCommandFrom_withSequence].
  rewrite bool_decide_eq_false_2 by auto. unfold handoffPendingCommand.
  cbn [setAdmission setPending pendingCommand_ matchingEngineQueue_]. rewrite Hpush. by destruct pushed.
Qed.

(** ** The invariant

    [cs0] are the commands of the journal the writer was opened on, [cs] those
    appended since, [taken] the commands the engine took from its queue, [tail] what
    a failed append left behind them in the file. *)

(** A failed append stops the sequencer for good. *)
Definition halted s : bool := bool_decide (pendingCommand_ s ≠ None) && negb (pendingReadyForMatching_ s).

(** The command that waits for room in the matching queue. *)
Definition waiting s : list sequenceMessage :=
  if pendingReadyForMatching_ s then option_list (pendingCommand_ s) else [].

Lemma waiting_none s : pendingCommand_ s = None → waiting s = [].
Proof. unfold waiting. intros ->. by destruct (pendingReadyForMatching_ s). Qed.

Lemma halted_none s : pendingCommand_ s = None → halted s = false.
Proof. unfold halted. by intros ->. Qed.

Definition writing header (cs : list JournalCommandV1) s w : Prop :=
  ∃ writer, journalWriter_ s = Some writer ∧ writer_ok header cs writer w.

Record pipeline_ok (header : RunHeaderV1) (cs0 cs : list JournalCommandV1) (taken : list sequenceMessage)
    (tail : bytes) s w : Prop := {
  po_journal : valid_journal header (cs0 ++ cs);
  po_file : contents w = journalFile header (cs0 ++ cs) ++ tail;
  po_handed : Forall2 (committed_as header) cs (taken ++ queued (matchingEngineQueue_ s) ++ waiting s);
  po_writer : if halted s then journalWriter_ s ≠ None ∧ journalAppendFailure_ s ≠ None
              else tail = [] ∧ writing header (cs0 ++ cs) s w;
  po_admission : ∃ index, sequencerAdmission_ s = Some index ∧ index_ok index ∧
                   staged_ok index (queued (sequencingIngressQueue_ s)) }.

(** What is left to do before [processNext] returns [false]. *)
Definition backlog s : nat :=
  length (queued (sequencingIngressQueue_ s)) + (if bool_decide (pendingCommand_ s = None) then 0 else 1).

Lemma push_cases (m : sequenceMessage) (q : Q) :
  let '(pushed, q') := sharedPush m q in queued q' ++ (if pushed then [] else [m]) = queued q ++ [m].
Proof.
  pose proof (push_law m q) as Hp. destruct (sharedPush m q) as [[] q']; simpl in Hp; rewrite Hp; [|done].
  by rewrite app_nil_r.
Qed.

(** ** Appending *)
Lemma next_sequence_u64 header cs writer w : writer_ok header cs writer w → is_u64 (Z.of_nat (length cs) + 1).
Proof.
  intros Hw. destruct (valid_journal_counters _ _ (wo_valid _ _ _ _ Hw)) as [Hc _].
  unfold wrap64, wrap, is_u64, UINT64_MAX in *.
  pose proof (Z.mod_pos_bound (Z.of_nat (length cs) + 1 + 1) (2 ^ 64) ltac:(done)). lia.
Qed.

Lemma append_outcome_stopped header cs c writer w result writer' w' : writer_ok header cs writer w →
  append_outcome header cs c writer w result writer' w' → AppendResult.outcome result ≠ AppendOutcome.COMMITTED →
  ∃ tail, contents w' = journalFile header cs ++ tail.
Proof.
  intros Hw Ho Hne. pose proof (wo_contents _ _ _ _ Hw) as Hc. unfold append_outcome in Ho.
  destruct (AppendResult.outcome result).
  - done.
  - destruct Ho as (_ & _ & ->). exists []. by rewrite app_nil_r.
  - destruct Ho as (_ & _ & _ & ->). exists []. by rewrite app_nil_r.
  - destruct Ho as (_ & _ & ->). exists []. by rewrite app_nil_r.
  - destruct Ho as (_ & _ & k & _ & ->). by eexists.
Qed.

Lemma appendCommand_run header cs writer w m fuel :
  writer_ok header cs writer w → typed_message m → (interrupts w + 256 < fuel)%nat →
  let pending := withSequence (Z.of_nat (length cs) + 1) m in
  ∃ result writer' w', appendCommand fuel writer pending w = (Ok (result, writer'), w') ∧
    (interrupts w' ≤ interrupts w)%nat ∧
    if bool_decide (AppendResult.outcome result = AppendOutcome.COMMITTED)
    then ∃ c, committed_as header c (bound pending) ∧ valid_journal header (cs ++ [c]) ∧
      writer_ok header (cs ++ [c]) writer' w'
    else ∃ tail, contents w' = journalFile header cs ++ tail.
Proof.
  intros Hw Ht Hf pending. pose proof (appendCommand_record fuel writer pending) as Hrec.
  rewrite (wo_header _ _ _ _ Hw) in Hrec. destruct (commandRecord header pending) as [c|] eqn:Hc.
  - rewrite Hrec. pose proof (vrh_run _ (vj_header _ _ (wo_valid _ _ _ _ Hw))) as [Hrun _].
    assert (Hr : representable c).
    { eapply commandRecord_representable; [exact Hrun|by eapply next_sequence_u64|exact Ht|exact Hc]. }
    destruct (append_run header cs writer w c fuel Hw Hr Hf) as (result & writer' & w' & Hrun' & Ho & Hi).
    exists result, writer', w'. split_and!; [done|done|]. case_bool_decide as Hcom.
    + unfold append_outcome in Ho. rewrite Hcom in Ho. destruct Ho as [Hv Hok]. exists c. split_and!; [|done|done].
      exists m. assert (commandSequenceOf c = Z.of_nat (length cs) + 1) as ->.
      { rewrite (commandRecord_sequence _ _ _ Hc). apply sequence_withSequence. }
      by split_and!.
    + by eapply append_outcome_stopped.
  - destruct Hrec as (result & -> & Hout). exists result, writer, w. split_and!; [done|done|].
    rewrite Hout. cbn. exists []. by rewrite app_nil_r, (wo_contents _ _ _ _ Hw).
Qed.

(** ** The cycle *)
(** Why a cycle makes no progress: nothing waits, a failed append stopped the
    sequencer, or the matching queue refused the waiting command. *)
Definition settled s : Prop :=
  (pendingCommand_ s = None ∧ queued (sequencingIngressQueue_ s) = []) ∨
  (halted s = true ∧ journalAppendFailure_ s ≠ None) ∨
  (∃ pending matching, waiting s = [pending] ∧ sharedPush pending matching = (false, matchingEngineQueue_ s)).

Definition cycle_result header cs0 cs taken s fuel w : Prop :=
  ∃ progressed s' w' cs' tail', processNext fuel s w = (Ok (Ret progressed, s'), w') ∧
    pipeline_ok header cs0 (cs ++ cs') taken tail' s' w' ∧ (interrupts w' ≤ interrupts w)%nat ∧
    if progressed then backlog s = Datatypes.S (backlog s') else settled s'.

Lemma cycle_handoff header cs0 cs taken tail s w fuel pending :
  pipeline_ok header cs0 cs taken tail s w → pendingCommand_ s = Some pending → pendingReadyForMatching_ s = true →
  cycle_result header cs0 cs taken s fuel w.
Proof.
  intros [Hv Hfile Hh Hwr Hadm] Hp Hready. unfold cycle_result, processNext. rewrite Hp, Hready.
  unfold handoffPendingCommand. rewrite Hp. pose proof (push_cases pending (matchingEngineQueue_ s)) as Hpush.
  unfold halted, waiting in *. rewrite Hp, Hready in *. cbn in Hh, Hwr. destruct Hwr as [Htail Hwr].
  destruct (sharedPush pending _) as [[] q'] eqn:Hrun.
  - eexists true, _, w, [], tail. split; [done|]. rewrite app_nil_r. unfold backlog. rewrite Hp. cbn.
    rewrite app_nil_r in Hpush. split_and!; [|done|lia].
    split; cbn; try done. by rewrite app_nil_r, Hpush.
  - eexists false, _, w, [], tail. split; [done|]. rewrite app_nil_r. split_and!; [|done|].
    + split; unfold halted, waiting; cbn; rewrite ?Hp, ?Hready; cbn; try done. by rewrite Hpush.
    + right; right. exists pending, (matchingEngineQueue_ s). unfold waiting. cbn. by rewrite Hp, Hready.
Qed.

Lemma cycle_append header cs0 cs taken tail s w fuel m rest :
  pipeline_ok header cs0 cs taken tail s w → pendingCommand_ s = None →
  queued (sequencingIngressQueue_ s) = m :: rest → (interrupts w + 256 < fuel)%nat →
  cycle_result header cs0 cs taken s fuel w.
Proof.
  intros [Hv Hfile Hh Hwr Hadm] Hp Hq Hf. unfold cycle_result, processNext. rewrite Hp.
  rewrite (waiting_none _ Hp), app_nil_r in Hh. rewrite (halted_none _ Hp) in Hwr. destruct Hwr as [-> (writer & Hwr & Hok)].
  rewrite Hwr. cbn [andb bool_decide decide_rel]. 
  destruct (pop_law (sequencingIngressQueue_ s)) as [Hpop Htail]. rewrite Hpop, Hq. cbn [head].
  rewrite Hq in Htail. cbn [tail] in Htail. set (ingress := (sharedPop (sequencingIngressQueue_ s)).2) in *.
  destruct Hadm as (index & Hadm & Hidx & Hst). rewrite Hq in Hst.
  apply staged_ok_cons in Hst as (Hm & (key & business & Hk & Hb & Hr) & Hnew & Hst).
  destruct (appendCommand_run header (cs0 ++ cs) writer w m fuel Hok Hm Hf) as (result & writer' & w' & Hrun & Hi & Hcase).
  cbn [setQueues journalWriter_]. rewrite Hwr.
  rewrite (wo_next _ _ _ _ Hok), (bool_decide_eq_false_2 (Some writer = None)) by done. cbn [andb].
  set (pending := withSequence _ m) in *. case_bool_decide as Hcom.
  - destruct Hcase as (c & Hc & Hv' & Hok').
    pose proof (bindAndHandoff_run (setWriter (Some writer') (setPending (Some pending) false
      (setQueues ingress (matchingEngineQueue_ s) s))) m (Z.of_nat (length (cs0 ++ cs)) + 1) index key business
      ltac:(lia) Hadm Hk Hb Hr) as Hbind. fold pending in Hbind. cbn in Hbind.
    pose proof (push_cases (bound pending) (matchingEngineQueue_ s)) as Hpush.
    destruct (sharedPush (bound pending) (matchingEngineQueue_ s)) as [pushed matching] eqn:Hpushed.
    eexists pushed, _, w', [c], [].
    split; [erewrite io_bind_run by exact Hrun; cbn match; rewrite bool_decide_eq_false_2 by auto; by rewrite Hbind|].
    split_and!; [|done|].
    + split.
      * by rewrite app_assoc.
      * by rewrite app_assoc, app_nil_r, (wo_contents _ _ _ _ Hok').
      * unfold waiting. cbn.
        replace (taken ++ _) with ((taken ++ queued (matchingEngineQueue_ s)) ++ [bound pending]).
        { apply Forall2_app; [done|]. by constructor. }
        rewrite <-app_assoc, <-Hpush. by destruct pushed.
      * unfold halted. cbn. rewrite negb_involutive. replace (_ && _) with false by by destruct pushed.
        split; [done|]. rewrite app_assoc. by exists writer'.
      * eexists. split; [done|]. cbn. rewrite Htail. destruct (update_record index key (reservedRecord business)
          (sequencedRecord business (Z.of_nat (length (cs0 ++ cs)) + 1)) Hr) as (? & _ & _);
          [split_and!; [done|simpl; lia|done|done]|by split; [cbn; lia|]|done|].
        split; [done|]. apply staged_ok_insert; [|done]. by rewrite <-(key_of_run _ _ Hk).
    + destruct pushed; [unfold backlog; cbn; rewrite Htail, Hq, Hp; cbn; lia|].
      right; right. by exists (bound pending), (matchingEngineQueue_ s).
  - destruct Hcase as [tail' Hc].
    eexists false, _, w', [], tail'.
    split; [erewrite io_bind_run by exact Hrun; cbn match; by rewrite bool_decide_eq_true_2|].
    rewrite app_nil_r. split_and!; [|done|by right; left].
    split; unfold halted, waiting; cbn; rewrite ?app_nil_r; try done.
    exists index. by rewrite Htail.
Qed.

Lemma cycle_run header cs0 cs taken tail s w fuel :
  pipeline_ok header cs0 cs taken tail s w → (interrupts w + 256 < fuel)%nat →
  cycle_result header cs0 cs taken s fuel w.
Proof.
  intros Hok Hf. destruct (pendingCommand_ s) as [pending|] eqn:Hp.
  - destruct (pendingReadyForMatching_ s) eqn:Hready; [by eapply cycle_handoff|].
    unfold cycle_result, processNext. rewrite Hp, Hready.
    eexists false, s, w, [], tail. rewrite app_nil_r. split_and!; [done|done|done|]. right; left.
    pose proof (po_writer _ _ _ _ _ _ _ Hok) as Hwr. unfold halted in *. rewrite Hp, Hready in *. by destruct Hwr.
  - destruct (queued (sequencingIngressQueue_ s)) as [|m rest] eqn:Hq; [|by eapply cycle_append].
    destruct (pop_law (sequencingIngressQueue_ s)) as [Hpop Htail]. rewrite Hq in Hpop, Htail.
    pose proof Hok as [Hv Hfile Hh Hwr Hadm]. rewrite (waiting_none _ Hp) in Hh. rewrite (halted_none _ Hp) in Hwr.
    destruct Hwr as [-> (writer & Hwr & Hok')].
    unfold cycle_result, processNext. rewrite Hp, Hwr, Hpop. cbn.
    eexists false, _, w, [], []. split; [done|]. rewrite app_nil_r. split_and!; [|done|by left].
    split; rewrite ?waiting_none, ?halted_none by done; try done.
    + split; [done|]. by exists writer.
    + destruct Hadm as (index & ? & ? & Hst). exists index. cbn. rewrite Htail. rewrite Hq in Hst. by split_and!.
Qed.
End cycle.
