(* ===== verification/SequencerTheorems.v ===== *)
(** * Properties of the sequencer

    The gateway, the completion consumer, the controller, the engine's intake and
    the sequencer's own cycles, in every interleaving: the engine only gets
    journaled commands, what it makes of them is what a recovery recomputes, and a
    drain ends with nothing left undone. *)
From S2P Require Import Prelude Domain Bytes JournalCodec JournalFrames RunHeaderCodec RunHeaderTheorems.
From S2P Require Import Posix JournalReader JournalParse JournalFile JournalLoadTheorems JournalWriter JournalAppend.
From S2P Require Import JournalCrashTheorems Matching MatchingSpec MatchingRefine MatchingAudit Replay.
From S2P Require Import Projection Queues Admission AdmissionTheorems Sequencer SequencerCycle.

Section pipeline.
Context {W : Type} `{PosixFile W} {Q : Type} `{SharedQueueLaws sequenceMessage Q}.
Implicit Types (w : W) (s : SequencerState Q).

(** ** Executions

    The state is the sequencer's, the world and the commands the engine took.  A
    cycle of the sequencer is one step: it alone pops the ingress queue, pushes the
    matching queue and writes the file, and it holds the index's mutex for its one
    access. *)
Inductive pipeline_step : SequencerState Q * W * list sequenceMessage → SequencerState Q * W * list sequenceMessage → Prop :=
  | pipe_reserve s w taken command available index decision index' ingress' :
      typed_message command → sequencerAdmission_ s = Some index →
      reserveAndStageForRunCapacity command available (index, sequencingIngressQueue_ s) =
        (Ret decision, (index', ingress')) →
      pipeline_step (s, w, taken) (setQueues ingress' (matchingEngineQueue_ s) (setAdmission (Some index') s), w, taken)
  | pipe_complete s w taken index result st index' :
      sequencerAdmission_ s = Some index → complete result index = (st, index') →
      pipeline_step (s, w, taken) (setAdmission (Some index') s, w, taken)
  | pipe_open s w taken index open :
      sequencerAdmission_ s = Some index →
      pipeline_step (s, w, taken) (setAdmission (Some (setAdmissionOpen open index)) s, w, taken)
  | pipe_cycle s w taken fuel result s' w' :
      (interrupts w + 256 < fuel)%nat → processNext fuel s w = (Ok (result, s'), w') →
      pipeline_step (s, w, taken) (s', w', taken)
  | pipe_take s w taken command matching' :
      sharedPop (matchingEngineQueue_ s) = (Some command, matching') →
      pipeline_step (s, w, taken) (setQueues (sequencingIngressQueue_ s) matching' s, w, taken ++ [command]).

(** ** Each step keeps the invariant *)
Lemma reserve_staged command available index ingress decision index' ingress' :
  typed_message command →
  reserveAndStageForRunCapacity command available (index, ingress) = (Ret decision, (index', ingress')) →
  index_ok index → staged_ok index (queued (Q:=Q) ingress) → index_ok index' ∧ staged_ok index' (queued ingress').
Proof.
  intros Ht Hrun Hidx Hst. apply reserveAndStage_inv in Hrun as (key & business & i & q & Hk & Hb & Hrun & Heq).
  cbn [fst snd] in Hrun, Heq. injection Heq as -> ->. destruct (records_ index !! key) as [r|] eqn:Hr.
  - destruct (reserveLocked_known key business command available index (Some ingress) r Hr) as (d & Hrun' & _).
    rewrite Hrun in Hrun'. injection Hrun' as _ -> ->. split; [by apply (index_ok_records index)|].
    by destruct Hst.
  - destruct (reserveLocked_new key business command available index ingress Hr) as (i' & q' & Hrun' & Hcase).
    rewrite Hrun in Hrun'. injection Hrun' as _ -> ->. cbn [from_option id]. split.
    { eapply reserveLocked_advances; [exact Hrun|done]. }
    destruct (admits _ _ _ _); [|destruct Hcase as [-> ->]; by destruct Hst].
    destruct Hcase as (_ & -> & ->). destruct Hst as [Hty Hres Huniq].
    assert (Hnew : Some key ∉ key_of <$> queued ingress).
    { intros (m & Hm & Hin)%list_elem_of_fmap. eapply Forall_forall in Hres as (k & b & Hk' & _ & Hr'); [|exact Hin].
      rewrite (key_of_run _ _ Hk') in Hm. injection Hm as <-. by rewrite Hr in Hr'. }
    pose proof (staged_ok_insert index key (reservedRecord business) _ Hnew (Build_staged_ok _ _ Hty Hres Huniq)) as [Hty' Hres' Huniq'].
    split; [apply Forall_app; split; [done|by constructor]| |].
    + apply Forall_app. split; [done|]. constructor; [|done]. exists key, business. split_and!; [done|done|].
      apply lookup_insert_eq.
    + rewrite fmap_app. apply NoDup_app. split_and!; [done| |by apply NoDup_singleton].
      intros k Hin ->%list_elem_of_singleton. by rewrite (key_of_run _ _ Hk) in Hin.
Qed.

Lemma complete_staged result index st index' ms :
  complete result index = (st, index') → index_ok index → staged_ok index ms → index_ok index' ∧ staged_ok index' ms.
Proof.
  intros Hrun Hidx Hst. split; [by eapply complete_advances in Hrun as [? _]|].
  apply complete_inv in Hrun as [[_ ->]|(_ & b & r & -> & Hr & Hs & _ & _ & _ & ->)]; [done|].
  apply staged_ok_insert; [|done]. destruct Hst as [_ Hres _].
  intros (m & Hm & Hin)%list_elem_of_fmap. eapply Forall_forall in Hres as (k & business & Hk & _ & Hr'); [|exact Hin].
  rewrite (key_of_run _ _ Hk) in Hm. injection Hm as <-. rewrite Hr in Hr'. injection Hr' as ->. done.
Qed.

(** Steps of the other threads leave the sequencer's own state alone. *)
Lemma pipeline_ok_index header cs0 cs taken tail s w index' ingress' :
  index_ok index' → staged_ok index' (queued ingress') → pipeline_ok header cs0 cs taken tail s w →
  pipeline_ok header cs0 cs taken tail (setQueues ingress' (matchingEngineQueue_ s) (setAdmission (Some index') s)) w.
Proof. intros Hi Hst [? ? ? ? _]. split; try done. by exists index'. Qed.

Lemma setQueues_same index' s :
  setQueues (sequencingIngressQueue_ s) (matchingEngineQueue_ s) (setAdmission index' s) = setAdmission index' s.
Proof. done. Qed.

Definition pipeline_at header cs0 (p : SequencerState Q * W * list sequenceMessage) (cs : list JournalCommandV1) : Prop :=
  ∃ tail, pipeline_ok header cs0 cs p.2 tail p.1.1 p.1.2.

Lemma pipeline_step_ok header cs0 cs p p' :
  pipeline_step p p' → pipeline_at header cs0 p cs → ∃ cs', pipeline_at header cs0 p' (cs ++ cs').
Proof.
  intros Hstep [tail Hok]. pose proof (po_admission _ _ _ _ _ _ _ Hok) as (index0 & Hadm & Hidx & Hst).
  destruct Hstep as [s w taken command available index d index' ingress' Ht Ha Hrun|s w taken index result st index' Ha Hrun|
    s w taken index open Ha|s w taken fuel result s' w' Hf Hrun|s w taken command matching' Hpop];
    cbn [fst snd] in *; rewrite ?Hadm in *; simplify_eq.
  1-3: exists []; rewrite app_nil_r; exists tail; cbn [fst snd].
  - destruct (reserve_staged _ _ _ _ _ _ _ Ht Hrun Hidx Hst) as [? ?]. by apply pipeline_ok_index.
  - destruct (complete_staged _ _ _ _ _ Hrun Hidx Hst). rewrite <-setQueues_same. by apply pipeline_ok_index.
  - rewrite <-setQueues_same. apply pipeline_ok_index; [by apply (index_ok_records index)|by destruct Hst|done].
  - destruct (cycle_run _ _ _ _ _ _ _ _ Hok Hf) as (b & s2 & w2 & cs' & tail' & Hrun' & Hok' & _).
    rewrite Hrun in Hrun'. simplify_eq. by exists cs', tail'.
  - exists []. rewrite app_nil_r. exists tail. cbn [fst snd].
    destruct (pop_law (matchingEngineQueue_ s)) as [Hp Htl]. rewrite Hpop in Hp, Htl. cbn [snd] in Htl.
    injection Hp as Hhead. destruct (queued (matchingEngineQueue_ s)) as [|m rest] eqn:Hq; [done|].
    injection Hhead as <-. destruct Hok as [Hv Hfile Hh Hwr _]. split; try done.
    + unfold waiting in *. cbn. rewrite Htl. cbn [tl]. rewrite Hq in Hh. by rewrite <-app_assoc.
    + by exists index0.
Qed.

Lemma pipeline_steps_ok header cs0 cs p p' :
  rtc pipeline_step p p' → pipeline_at header cs0 p cs → ∃ cs', pipeline_at header cs0 p' (cs ++ cs').
Proof.
  intros Hsteps. revert cs. induction Hsteps as [p|p1 p2 p3 H12 _ IH]; intros cs Hok.
  - exists []. by rewrite app_nil_r.
  - destruct (pipeline_step_ok _ _ _ _ _ H12 Hok) as [cs1 Hok1]. destruct (IH _ Hok1) as [cs2 Hok2].
    exists (cs1 ++ cs2). by rewrite app_assoc.
Qed.

(** ** The start *)
Record pipeline_start (header : RunHeaderV1) (cs0 : list JournalCommandV1) (ingress matching : Q)
    (index : CommandAdmissionIndex) (writer : RunJournalWriterV1) s w : Prop := {
  ps_new : newJournaledSequencer ingress matching index writer = Ret s;
  ps_writer : writer_ok header cs0 writer w;
  ps_index : index_ok index;
  ps_ingress : queued ingress = [];
  ps_matching : queued matching = [] }.

Lemma pipeline_start_ok header cs0 ingress matching index writer s w :
  pipeline_start header cs0 ingress matching index writer s w → pipeline_at header cs0 (s, w, []) [].
Proof.
  intros [Hnew Hw Hi Hin Hm]. unfold newJournaledSequencer, throw_if in Hnew. case_bool_decide; [done|].
  injection Hnew as <-. exists []. cbn [fst snd]. rewrite <-(app_nil_r cs0) in Hw.
  split; [apply Hw|by rewrite app_nil_r, (wo_contents _ _ _ _ Hw)|cbn; by rewrite Hm| |].
  - split; [done|]. by exists writer.
  - exists index. cbn. rewrite Hin. split_and!; [done|done|]. split; [done|done|]. apply NoDup_nil_2.
Qed.

(** ** Draining *)
Lemma drain_run header cs0 taken fuel : ∀ loopFuel progressed cs tail s w,
  pipeline_ok header cs0 cs taken tail s w → (interrupts w + 256 < fuel)%nat → (backlog s < loopFuel)%nat →
  ∃ result s' w', drainAvailable loopFuel fuel progressed s w = (Ok (Ret result, s'), w') ∧ settled s' ∧
    rtc pipeline_step (s, w, taken) (s', w', taken).
Proof.
  induction loopFuel as [|loopFuel IH]; intros progressed cs tail s w Hok Hf Hl; [lia|]. cbn [drainAvailable].
  destruct (cycle_run _ _ _ _ _ _ _ _ Hok Hf) as (b & s1 & w1 & cs1 & tail1 & Hrun & Hok1 & Hi & Hb).
  erewrite io_bind_run by exact Hrun. cbn match.
  pose proof (pipe_cycle s w taken fuel (Ret b) s1 w1 Hf Hrun) as Hstep. destruct b.
  - destruct (IH true _ _ _ _ Hok1 ltac:(lia) ltac:(lia)) as (r & s2 & w2 & Hrun2 & Hset & Hsteps).
    exists r, s2, w2. split_and!; [done|done|]. by eapply rtc_l.
  - exists progressed, s1, w1. split_and!; [done|done|]. by apply rtc_once.
Qed.

(** ** The engine on what it took *)
Lemma committed_processAll header cs ms st :
  Forall2 (committed_as header) cs ms → processAll ms st = processAll (matchingMessageFrom <$> cs) st.
Proof.
  intros Hc. apply processAll_same. induction Hc as [|c m cs ms Hc _ IH]; [constructor|].
  constructor; [by apply (committed_same_effect header)|done].
Qed.

Lemma processAll_app ms ms' st : processAll (ms ++ ms') st =
  (batches ← processAll ms; batches' ← processAll ms'; mret (batches ++ batches')) st.
Proof.
  revert st. induction ms as [|m ms IH]; intros st; cbn [app processAll].
  - unfold mbind, M_bind, mret, M_ret. by destruct (processAll ms' st) as [[]].
  - unfold mbind, M_bind in *. destruct (processCommand m st) as [[b|e] st1]; [|done]. rewrite IH.
    destruct (processAll ms st1) as [[bs|e] st2]; [|done]. unfold mret, M_ret.
    by destruct (processAll ms' st2) as [[]].
Qed.

Lemma processAll_prefix ms ms' st batches st' : processAll (ms ++ ms') st = (Ret batches, st') →
  ∃ batches1 st1 batches2, processAll ms st = (Ret batches1, st1) ∧ processAll ms' st1 = (Ret batches2, st') ∧
    batches = batches1 ++ batches2.
Proof.
  rewrite processAll_app. intros (b1 & st1 & Hone & (b2 & st2 & Htwo & Hend)%M_bind_inv)%M_bind_inv.
  unfold mret, M_ret in Hend. simplify_eq. by exists b1, st1, b2.
Qed.

(** ** The properties *)

(** C8: write-ahead.  In every interleaving of the sequencer with the gateway, the
    completion consumer, the controller and the engine, from any journal: the file
    is always the journal of the commands it was opened with and of those
    committed since, followed by nothing unless an append failed; the commands the
    engine has taken, those in its queue and the one waiting for room in it are
    exactly the committed ones, in the journal's order, with the sequence and the
    order id of their record; and no cycle throws. *)
Theorem only_journaled_commands_reach_the_engine header cs0 (ingress matching : Q) index writer s w s' w' taken :
  pipeline_start header cs0 ingress matching index writer s w →
  rtc pipeline_step (s, w, []) (s', w', taken) →
  ∃ cs tail, valid_journal header (cs0 ++ cs) ∧ contents w' = journalFile header (cs0 ++ cs) ++ tail ∧
    (tail ≠ [] → halted s' = true ∧ journalAppendFailure_ s' ≠ None) ∧
    Forall2 (committed_as header) cs (taken ++ queued (matchingEngineQueue_ s') ++ waiting s') ∧
    ∀ fuel, (interrupts w' + 256 < fuel)%nat →
      ∃ progressed s'' w'', processNext fuel s' w' = (Ok (Ret progressed, s''), w'').
Proof.
  intros Hstart Hsteps. destruct (pipeline_steps_ok _ _ _ _ _ Hsteps (pipeline_start_ok _ _ _ _ _ _ _ _ Hstart)) as [cs [tail Hok]].
  cbn [app fst snd] in Hok. exists cs, tail. pose proof Hok as [Hv Hfile Hh Hwr _]. split_and!; try done.
  - intros Htail. destruct (halted s'); [by destruct Hwr|]. by destruct Hwr.
  - intros fuel Hf. destruct (cycle_run _ _ _ _ _ _ _ _ Hok Hf) as (b & s2 & w2 & _ & _ & Hrun & _). eauto.
Qed.

(** A crash loses no published result.  Let the engine start in the state the
    replay of the opened journal leaves.  At every point of every execution,
    processing the commands it took succeeds, and replaying the journal as it is
    on the disk at that point succeeds with the results of the opened journal,
    then exactly those the engine computed live, then those of the commands it had
    not taken yet. *)
Theorem recovery_repeats_live_results header cs0 (ingress matching : Q) index writer s w s' w' taken batches0 st0 output :
  pipeline_start header cs0 ingress matching index writer s w → supported header →
  processAll (matchingMessageFrom <$> cs0) (newMatchingState (Header.exchangeRunId header)) = (Ret batches0, st0) →
  rtc pipeline_step (s, w, []) (s', w', taken) →
  ∃ cs tail live st pending st',
    contents w' = journalFile header (cs0 ++ cs) ++ tail ∧
    processAll taken st0 = (Ret live, st) ∧
    processAll (queued (matchingEngineQueue_ s') ++ waiting s') st = (Ret pending, st') ∧
    replayPreparedRunJournalV1 (loadedJournal header (cs0 ++ cs)) output =
      Ret (replayResult ReplayOutcome.REPLAYED ReplayError.NONE,
           Replayed.mkReplayed (batches0 ++ live ++ pending) (Some st')).
Proof.
  intros Hstart Hsup Hall0 Hsteps.
  destruct (pipeline_steps_ok _ _ _ _ _ Hsteps (pipeline_start_ok _ _ _ _ _ _ _ _ Hstart)) as [cs [tail Hok]].
  cbn [app fst snd] in Hok. destruct Hok as [Hv Hfile Hh _ _].
  destruct (replayPrefix_run header (cs0 ++ cs) Hv Hsup []) as (st' & Hall & Hreplay & Hok & _).
  rewrite fmap_app in Hall. destruct (processAll_prefix _ _ _ _ _ Hall) as (b1 & st1 & b2 & Hfirst & Hrest & Hspec).
  rewrite Hall0 in Hfirst. injection Hfirst as <- <-. rewrite <-(committed_processAll header cs _ st0 Hh) in Hrest.
  destruct (processAll_prefix _ _ _ _ _ Hrest) as (live & st & pending & Hlive & Hpending & ->).
  exists cs, tail, live, st, pending, st'. split_and!; try done. unfold loadedJournal.
  rewrite (replayPrepared_start header (cs0 ++ cs) Hv) by apply Hv. unfold replayInto. cbn [Loaded.header Loaded.commands].
  rewrite app_nil_r in Hreplay. rewrite Hreplay. cbn [replayCommands mret M_ret]. unfold mret, M_ret.
  rewrite (invariantsHold_ok _ _ Hok). by rewrite fmap_app, Hspec.
Qed.

(** C27: draining terminates and leaves nothing undone.  At every point of every
    execution [drainAvailable] returns, after at most one cycle more than there
    are commands to sequence and to hand over, and then nothing waits, unless an
    append failed or the matching queue refused the command it stopped at. *)
Theorem drain_terminates header cs0 (ingress matching : Q) index writer s w s' w' taken loopFuel fuel progressed :
  pipeline_start header cs0 ingress matching index writer s w →
  rtc pipeline_step (s, w, []) (s', w', taken) →
  (interrupts w' + 256 < fuel)%nat → (backlog s' < loopFuel)%nat →
  ∃ result s'' w'', drainAvailable loopFuel fuel progressed s' w' = (Ok (Ret result, s''), w'') ∧ settled s'' ∧
    rtc pipeline_step (s, w, []) (s'', w'', taken).
Proof.
  intros Hstart Hsteps Hf Hl.
  destruct (pipeline_steps_ok _ _ _ _ _ Hsteps (pipeline_start_ok _ _ _ _ _ _ _ _ Hstart)) as [cs [tail Hok]].
  destruct (drain_run header cs0 taken fuel loopFuel progressed _ _ _ _ Hok Hf Hl) as (r & s2 & w2 & Hrun & Hset & Hsteps2).
  exists r, s2, w2. split_and!; [done|done|]. by etrans.
Qed.
End pipeline.

(** ** Witnesses *)
Definition demoOrder : sequenceMessage :=
  Msg.mkSequenceMessage 0 None 0 10 (Some "s1") 1 1 100 5 "SPY" OrderType.SELL 0 0 TIF.GTC.

Lemma demoOrder_typed : typed_message demoOrder.
Proof.
  split; unfold is_u64, UINT64_MAX; cbn; try lia; try done.
  intros c [= <-]. split; [vm_compute; lia|reflexivity].
Qed.

(** A sequencer on a journal with only its header; the order staged; the order
    committed and handed over in one cycle; and the engine taking it. *)
Definition demoSequencer : SequencerState (FixedQueue sequenceMessage) :=
  mkSequencer demoQueue demoQueue (Some demoIndex) (Some demoWriter) 0 None false None.
Definition demoReservation := reserveAndStageForRunCapacity demoOrder true (demoIndex, demoQueue).
Definition demoStaged : SequencerState (FixedQueue sequenceMessage) :=
  setQueues demoReservation.2.2 demoQueue (setAdmission (Some demoReservation.2.1) demoSequencer).
Definition demoCycle := processNext 400 demoStaged demoEmptyFile.
Definition demoHanded : SequencerState (FixedQueue sequenceMessage) :=
  match demoCycle.1 with Ok (_, s) => s | _ => demoStaged end.
Definition demoIntake : SequencerState (FixedQueue sequenceMessage) :=
  setQueues (sequencingIngressQueue_ demoHanded) (sharedPop (matchingEngineQueue_ demoHanded)).2 demoHanded.

Lemma demo_pipeline_start :
  pipeline_start demoHeader [] demoQueue demoQueue demoIndex demoWriter demoSequencer demoEmptyFile.
Proof. split; [reflexivity|exact demo_writer_ok|exact demoIndex_ok|reflexivity|reflexivity]. Qed.

Lemma demo_pipeline_steps : rtc pipeline_step (demoSequencer, demoEmptyFile, [])
  (demoIntake, demoCycle.2, [bound (withSequence 1 demoOrder)]).
Proof.
  eapply rtc_l; [eapply (pipe_reserve demoSequencer demoEmptyFile [] demoOrder true demoIndex
    (mkDecision AdmissionStatus.FIRST_SUBMISSION None None) demoReservation.2.1 demoReservation.2.2);
    [exact demoOrder_typed|reflexivity|vm_compute; reflexivity]|].
  eapply rtc_l; [apply (pipe_cycle demoStaged demoEmptyFile [] 400 (Ret true) demoHanded demoCycle.2)|].
  - vm_compute. lia.
  - vm_compute. reflexivity.
  - eapply rtc_l; [|apply rtc_refl].
    apply (pipe_take demoHanded demoCycle.2 [] (bound (withSequence 1 demoOrder))). vm_compute. reflexivity.
Qed.

Lemma only_journaled_commands_reach_the_engine_witness :
  ∃ cs tail, valid_journal demoHeader ([] ++ cs) ∧ contents demoCycle.2 = journalFile demoHeader ([] ++ cs) ++ tail ∧
    (tail ≠ [] → halted demoIntake = true ∧ journalAppendFailure_ demoIntake ≠ None) ∧
    Forall2 (committed_as demoHeader) cs ([bound (withSequence 1 demoOrder)] ++
      queued (matchingEngineQueue_ demoIntake) ++ waiting demoIntake) ∧
    ∀ fuel, (interrupts demoCycle.2 + 256 < fuel)%nat →
      ∃ progressed s'' w'', processNext fuel demoIntake demoCycle.2 = (Ok (Ret progressed, s''), w'').
Proof.
  exact (only_journaled_commands_reach_the_engine demoHeader [] demoQueue demoQueue demoIndex demoWriter
    demoSequencer demoEmptyFile demoIntake demoCycle.2 [bound (withSequence 1 demoOrder)]
    demo_pipeline_start demo_pipeline_steps).
Defined.

Lemma recovery_repeats_live_results_witness :
  ∃ cs tail live st pending st',
    contents demoCycle.2 = journalFile demoHeader ([] ++ cs) ++ tail ∧
    processAll [bound (withSequence 1 demoOrder)] (newMatchingState 7) = (Ret live, st) ∧
    processAll (queued (matchingEngineQueue_ demoIntake) ++ waiting demoIntake) st = (Ret pending, st') ∧
    replayPreparedRunJournalV1 (loadedJournal demoHeader ([] ++ cs)) (Replayed.mkReplayed [] None) =
      Ret (replayResult ReplayOutcome.REPLAYED ReplayError.NONE,
           Replayed.mkReplayed ([] ++ live ++ pending) (Some st')).
Proof.
  exact (recovery_repeats_live_results demoHeader [] demoQueue demoQueue demoIndex demoWriter demoSequencer
    demoEmptyFile demoIntake demoCycle.2 [bound (withSequence 1 demoOrder)] [] (newMatchingState 7)
    (Replayed.mkReplayed [] None) demo_pipeline_start demoHeader_supported eq_refl demo_pipeline_steps).
Defined.

Lemma drain_terminates_witness :
  ∃ result s'' w'', drainAvailable 2 400 false demoStaged demoEmptyFile = (Ok (Ret result, s''), w'') ∧ settled s'' ∧
    rtc pipeline_step (demoSequencer, demoEmptyFile, []) (s'', w'', []).
Proof.
  apply (drain_terminates demoHeader [] demoQueue demoQueue demoIndex demoWriter demoSequencer demoEmptyFile
    demoStaged demoEmptyFile []).
  - exact demo_pipeline_start.
  - apply rtc_once. eapply (pipe_reserve demoSequencer demoEmptyFile [] demoOrder true demoIndex
      (mkDecision AdmissionStatus.FIRST_SUBMISSION None None) demoReservation.2.1 demoReservation.2.2);
      [exact demoOrder_typed|reflexivity|vm_compute; reflexivity].
  - vm_compute. lia.
  - vm_compute. lia.
Defined.
