(* ===== verification/Bus.v ===== *)
(** * The multicast bus

    [src/core/bus/include/bus.hpp]: a ring of messages with one writer and readers
    that each own an atomic cursor.  The bus holds pointers to the cursors, so they
    are a store of their own: a finite map from addresses to values.  Each
    operation is one step; its loads and stores are the source's. *)
From S2P Require Import Prelude Domain.

(** The atomics the readers own, by address. *)
Abbreviation Cursors := (gmap nat Z) (only parsing).

Module Bus.
Record Bus := mkBus {
  size_ : Z;
  buffer_ : list (option sequenceMessage);
  reader_cursors_ : list nat;
  cached_min_cursor_ : Z;
  total_writes_ : Z }.
End Bus.
Abbreviation Bus := Bus.Bus.

Definition newBus (size : Z) : outcome Bus :=
  throw_if (bool_decide (size = 0)) (invalid_argument "Bus size must be greater than zero") ;;
  Ret (Bus.mkBus size (replicate (Z.to_nat size) None) [] 0 0).

(** The loop of [recomputeMinimumCursor]; a registered cursor is never null, and a
    destroyed one is not there. *)
Fixpoint minimumCursor (cursors : Cursors) (registered : list nat) (minimum_cursor : Z) : outcome Z :=
  match registered with
  | [] => Ret minimum_cursor
  | cursor :: registered' =>
      match cursors !! cursor with
      | None => Throw undefined_behaviour
      | Some value => minimumCursor cursors registered' (Z.min minimum_cursor value)
      end
  end.

Definition recomputeMinimumCursor (cursors : Cursors) (bus : Bus) : outcome Z :=
  minimumCursor cursors (Bus.reader_cursors_ bus) (Bus.total_writes_ bus).

Definition setCachedMinimum (minimum : Z) (bus : Bus) : Bus :=
  Bus.mkBus (Bus.size_ bus) (Bus.buffer_ bus) (Bus.reader_cursors_ bus) minimum (Bus.total_writes_ bus).

Definition modifyBus (f : Bus → Bus) : M (Bus * Cursors) unit := modifyM (λ s, (f s.1, s.2)).

Definition addCursor (cursor : nat) (bus : Bus) : Bus :=
  Bus.mkBus (Bus.size_ bus) (Bus.buffer_ bus) (Bus.reader_cursors_ bus ++ [cursor]) (Bus.cached_min_cursor_ bus)
    (Bus.total_writes_ bus).

Definition refreshMinimum : M (Bus * Cursors) Z :=
  minimum ← liftM (λ s : Bus * Cursors, recomputeMinimumCursor s.2 s.1);
  modifyBus (setCachedMinimum minimum) ;;
  mret minimum.

Definition registerCursor (cursor : nat) : M (Bus * Cursors) unit :=
  modifyBus (addCursor cursor) ;; refreshMinimum ;; mret tt.

(** Whether the ring has room for the next write, by the given minimum. *)
Definition wouldOverwrite (minimum : Z) (bus : Bus) : bool :=
  bool_decide (wrap64 (minimum + Bus.size_ bus) ≤ Bus.total_writes_ bus).

Definition slot (position : Z) (bus : Bus) : nat := Z.to_nat (position mod Bus.size_ bus).

Definition storeMessage (message : sequenceMessage) (bus : Bus) : Bus :=
  Bus.mkBus (Bus.size_ bus) (<[slot (Bus.total_writes_ bus) bus := Some message]> (Bus.buffer_ bus))
    (Bus.reader_cursors_ bus) (Bus.cached_min_cursor_ bus) (wrap64 (Bus.total_writes_ bus + 1)).

(** The check against the readers: [true] when the write must be refused. *)
Definition blockedByReaders : M (Bus * Cursors) bool := λ s,
  if bool_decide (Bus.reader_cursors_ s.1 ≠ []) && wouldOverwrite (Bus.cached_min_cursor_ s.1) s.1 then
    (minimum ← refreshMinimum; mret (wouldOverwrite minimum s.1)) s
  else (Ret false, s).

Definition writeImpl (message : sequenceMessage) : M (Bus * Cursors) bool :=
  blocked ← blockedByReaders;
  if blocked : bool then mret false else modifyBus (storeMessage message) ;; mret true.

(** [Some message] is [true] with the output set. *)
Definition read (cursor : nat) : M (Bus * Cursors) (option sequenceMessage) := λ s,
  let '(bus, cursors) := s in
  match cursors !! cursor with
  | None => (Throw undefined_behaviour, s)
  | Some current_cursor =>
      let next_write := Bus.total_writes_ bus in
      if bool_decide (next_write ≤ current_cursor) then (Ret None, s)
      else
        let oldest_available := if bool_decide (Bus.size_ bus < next_write) then next_write - Bus.size_ bus else 0 in
        if bool_decide (current_cursor < oldest_available) then (Ret None, s)
        else
          match Bus.buffer_ bus !! slot current_cursor bus with
          | None => (Throw undefined_behaviour, s)
          | Some None => (Ret None, s)
          | Some (Some message) =>
              (Ret (Some message), (bus, <[cursor := wrap64 (current_cursor + 1)]> cursors))
          end
  end.

(** * Properties of the multicast bus

    A reader registered at any position gets every message from there on, once and
    in order, unless the ring had already overwritten its position: then it reads
    nothing and no message is ever written again. *)

(** ** The minimum of the cursors *)
Lemma minimumCursor_run cursors l m :
  (∀ a, a ∈ l → is_Some (cursors !! a)) →
  ∃ r, minimumCursor cursors l m = Ret r ∧ r ≤ m ∧
    (∀ a v, a ∈ l → cursors !! a = Some v → r ≤ v) ∧ (r = m ∨ ∃ a, a ∈ l ∧ cursors !! a = Some r).
Proof.
  revert m. induction l as [|a l IH]; intros m Hl; cbn [minimumCursor].
  - exists m. split_and!; [done|lia|by intros a v ?%elem_of_nil|by left].
  - destruct (Hl a) as [v Hv]; [by left|]. rewrite Hv.
    destruct (IH (Z.min m v)) as (r & -> & Hr & Hall & Hwit); [intros a' ?; apply Hl; by right|].
    exists r. split_and!; [done|lia| |].
    + intros a' v' [->|Hin]%elem_of_cons Hv'; [simplify_eq; lia|by eapply Hall].
    + destruct Hwit as [->|(a' & Hin & Ha')]; [|right; exists a'; split; [by right|done]].
      destruct (Z.min_spec m v) as [[_ ->]|[_ ->]]; [by left|]. right. exists a. split; [by left|done].
Qed.

(** ** The state of the ring

    [history] is every message written; a log entry is the position a reader
    registered at, how many messages had been written by then, and what it has
    read since. *)
Record ReaderEntry := mkEntry { started : nat; written_before : nat; received : list sequenceMessage }.
Abbreviation ReaderLog := (gmap nat ReaderEntry) (only parsing).

(** The position a reader is at. *)
Definition reached (e : ReaderEntry) : nat := started e + length (received e).

(** The reader registered at a position the ring of [size] had overwritten. *)
Definition stale (size : Z) (e : ReaderEntry) : bool := bool_decide (Z.of_nat (started e) + size < Z.of_nat (written_before e)).

Definition note_read (result : option sequenceMessage) (e : ReaderEntry) : ReaderEntry :=
  mkEntry (started e) (written_before e) (received e ++ option_list result).

(** What holds of a registered reader. *)
Record reader_ok (bus : Bus) (history : list sequenceMessage) (value : Z) (e : ReaderEntry) : Prop := {
  ro_cursor : value = Z.of_nat (reached e);
  ro_seen : received e = take (length (received e)) (drop (started e) history);
  ro_minimum : Bus.cached_min_cursor_ bus ≤ Z.of_nat (reached e);
  ro_room : if stale (Bus.size_ bus) e then received e = [] ∧ length history = written_before e
            else Z.of_nat (length history) ≤ Z.of_nat (reached e) + Bus.size_ bus }.

Record bus_ok (bus : Bus) (cursors : Cursors) (history : list sequenceMessage) (log : ReaderLog) : Prop := {
  bo_size : 0 < Bus.size_ bus;
  bo_length : length (Bus.buffer_ bus) = Z.to_nat (Bus.size_ bus);
  bo_total : Bus.total_writes_ bus = Z.of_nat (length history);
  bo_width : Z.of_nat (length history) + Bus.size_ bus ≤ UINT64_MAX;
  bo_ring i m : history !! i = Some m → Z.of_nat (length history) ≤ Z.of_nat i + Bus.size_ bus →
    Bus.buffer_ bus !! slot (Z.of_nat i) bus = Some (Some m);
  bo_minimum : 0 ≤ Bus.cached_min_cursor_ bus ≤ Z.of_nat (length history);
  bo_readers a : a ∈ Bus.reader_cursors_ bus → ∃ value e,
    log !! a = Some e ∧ cursors !! a = Some value ∧ reader_ok bus history value e }.

(** One operation of one thread; [cursors] of unregistered readers are theirs.  A
    reader may register anywhere, also again: its entry is that of the first time. *)
Inductive bus_step : Bus * Cursors * list sequenceMessage * ReaderLog →
    Bus * Cursors * list sequenceMessage * ReaderLog → Prop :=
  | bus_own bus cursors history log a v :
      a ∉ Bus.reader_cursors_ bus →
      bus_step (bus, cursors, history, log) (bus, <[a := v]> cursors, history, log)
  | bus_register bus cursors history log a position s' :
      cursors !! a = Some (Z.of_nat position) → registerCursor a (bus, cursors) = (Ret tt, s') →
      bus_step (bus, cursors, history, log) (s'.1, s'.2, history,
        if bool_decide (a ∈ Bus.reader_cursors_ bus) then log else <[a := mkEntry position (length history) []]> log)
  | bus_write bus cursors history log m written s' :
      Z.of_nat (length history) + 1 + Bus.size_ bus ≤ UINT64_MAX →
      writeImpl m (bus, cursors) = (Ret written, s') →
      bus_step (bus, cursors, history, log) (s'.1, s'.2, if written then history ++ [m] else history, log)
  | bus_read bus cursors history log a result s' :
      a ∈ Bus.reader_cursors_ bus → read a (bus, cursors) = (Ret result, s') →
      bus_step (bus, cursors, history, log) (s'.1, s'.2, history, alter (note_read result) a log).

Lemma refreshMinimum_run bus cursors history log : bus_ok bus cursors history log →
  ∃ minimum, refreshMinimum (bus, cursors) = (Ret minimum, (setCachedMinimum minimum bus, cursors)) ∧
    bus_ok (setCachedMinimum minimum bus) cursors history log ∧
    (minimum = Z.of_nat (length history) ∨
     ∃ a, a ∈ Bus.reader_cursors_ bus ∧ cursors !! a = Some minimum).
Proof.
  intros Hok. pose proof Hok as [Hs Hl Ht Hw Hring Hm Hr].
  destruct (minimumCursor_run cursors (Bus.reader_cursors_ bus) (Bus.total_writes_ bus)) as (r & Hrun & Hle & Hall & Hwit).
  { intros a Ha. destruct (Hr a Ha) as (value & e & _ & -> & _). eauto. }
  rewrite Ht in Hle, Hwit. exists r. unfold refreshMinimum, mbind, M_bind, liftM, recomputeMinimumCursor. cbn [fst snd].
  rewrite Hrun. split_and!; [done| |by destruct Hwit; auto].
  assert (0 ≤ r).
  { destruct Hwit as [->|(a & Ha & Hv)]; [lia|]. destruct (Hr a Ha) as (value & e & _ & Hc & [-> _ _ _]).
    rewrite Hv in Hc. simplify_eq. lia. }
  split; cbn; try done.
  intros a Ha. destruct (Hr a Ha) as (value & e & Hlog & Hc & [-> ? ? ?]).
  eexists _, e. split; [done|]. split; [exact Hc|]. split; try done. by eapply Hall.
Qed.

Lemma slot_distinct i j bus : 0 < Bus.size_ bus → 0 ≤ i → i < j → j < i + Bus.size_ bus → slot i bus ≠ slot j bus.
Proof.
  intros Hs Hi Hij Hj Heq. unfold slot in Heq.
  pose proof (Z.mod_pos_bound i (Bus.size_ bus) Hs). pose proof (Z.mod_pos_bound j (Bus.size_ bus) Hs).
  apply Z2Nat.inj in Heq; [|lia..].
  pose proof (Zminus_mod j i (Bus.size_ bus)) as Hd.
  rewrite Heq, Z.sub_diag, Z.mod_0_l, Z.mod_small in Hd by lia. lia.
Qed.

Lemma slot_bound i bus : 0 < Bus.size_ bus → (slot i bus < Z.to_nat (Bus.size_ bus))%nat.
Proof. intros Hs. unfold slot. pose proof (Z.mod_pos_bound i (Bus.size_ bus) Hs). lia. Qed.

Lemma reader_ok_write bus history value e m bus' : reader_ok bus history value e →
  Z.of_nat (length history) < value + Bus.size_ bus → Bus.size_ bus' = Bus.size_ bus →
  Bus.cached_min_cursor_ bus' = Bus.cached_min_cursor_ bus → reader_ok bus' (history ++ [m]) value e.
Proof.
  intros [-> Hseen Hmin Hroom] Hlt Hsize Hcached. split; [done| |by rewrite Hcached|].
  - destruct (received e) as [|x l]; [done|]. pose proof (f_equal length Hseen) as Hlen.
    rewrite length_take, length_drop in Hlen. cbn [length] in Hlen. rewrite drop_app_le by lia.
    rewrite take_app_le; [done|]. rewrite length_drop. cbn [length]. lia.
  - rewrite Hsize. destruct (stale (Bus.size_ bus) e) eqn:Hst.
    + apply bool_decide_eq_true in Hst. destruct Hroom as [Hnil Hsince]. unfold reached in Hlt. rewrite Hnil in Hlt. cbn [length] in Hlt. lia.
    + rewrite length_app. simpl. lia.
Qed.

(** Storing a message when every reader has room. *)
Lemma storeMessage_ok bus cursors history log m : bus_ok bus cursors history log →
  Z.of_nat (length history) + 1 + Bus.size_ bus ≤ UINT64_MAX →
  (∀ a v, a ∈ Bus.reader_cursors_ bus → cursors !! a = Some v → Z.of_nat (length history) < v + Bus.size_ bus) →
  bus_ok (storeMessage m bus) cursors (history ++ [m]) log.
Proof.
  intros [Hs Hl Ht Hw Hring Hm Hr] Hmax Hroom. unfold storeMessage.
  split; cbn [Bus.size_ Bus.buffer_ Bus.reader_cursors_ Bus.cached_min_cursor_ Bus.total_writes_];
    rewrite ?length_insert, ?length_app; cbn [length]; try done; try lia.
  - rewrite Ht, wrap64_small by (unfold is_u64; lia). lia.
  - intros i m' Hi Hwin. rewrite Ht.
    match goal with |- _ !! slot _ ?b = _ => change (slot (Z.of_nat i) b) with (slot (Z.of_nat i) bus) end. destruct (decide (i = length history)) as [->|Hne].
    + rewrite lookup_app_r, Nat.sub_diag in Hi by lia. injection Hi as <-. apply list_lookup_insert_eq.
      rewrite Hl. by apply slot_bound.
    + pose proof (lookup_lt_Some _ _ _ Hi) as Hlt. rewrite length_app in Hlt. simpl in Hlt.
      rewrite lookup_app_l in Hi by lia.
      rewrite list_lookup_insert_ne; [apply Hring; [done|lia]|]. symmetry. apply slot_distinct; lia.
  - intros a Ha. destruct (Hr a Ha) as (value & e & Hlog & Hc & Hreader).
    pose proof (Hroom a _ Ha Hc). exists value, e. split; [done|]. split; [done|]. by apply (reader_ok_write bus).
Qed.

(** Some registered reader has not read what the next write would overwrite. *)
Definition reader_blocks (bus : Bus) (history : list sequenceMessage) (log : ReaderLog) : Prop :=
  ∃ a e, a ∈ Bus.reader_cursors_ bus ∧ log !! a = Some e ∧ Z.of_nat (reached e) + Bus.size_ bus ≤ Z.of_nat (length history).

Lemma reader_blocks_cursor bus cursors history log a v : bus_ok bus cursors history log →
  a ∈ Bus.reader_cursors_ bus → cursors !! a = Some v → v + Bus.size_ bus ≤ Z.of_nat (length history) →
  reader_blocks bus history log.
Proof.
  intros Hok Ha Hv Hle. destruct (bo_readers _ _ _ _ Hok a Ha) as (value & e & Hlog & Hc & [-> _ _ _]).
  rewrite Hv in Hc. injection Hc as ->. by exists a, e.
Qed.

Lemma wouldOverwrite_run bus cursors history log minimum : bus_ok bus cursors history log →
  0 ≤ minimum ≤ Z.of_nat (length history) →
  wouldOverwrite minimum bus = bool_decide (minimum + Bus.size_ bus ≤ Z.of_nat (length history)).
Proof.
  intros [Hs _ Ht Hw _ _ _] Hm. unfold wouldOverwrite. rewrite Ht, wrap64_small by (unfold is_u64; lia). done.
Qed.

(** A minimum of the cursors above the one to be overwritten leaves room. *)
Lemma readers_have_room bus cursors history log : bus_ok bus cursors history log →
  Z.of_nat (length history) < Bus.cached_min_cursor_ bus + Bus.size_ bus →
  (∀ a v, a ∈ Bus.reader_cursors_ bus → cursors !! a = Some v → Z.of_nat (length history) < v + Bus.size_ bus) ∧
  ¬ reader_blocks bus history log.
Proof.
  intros Hok Hlt. assert (Hall : ∀ a v, a ∈ Bus.reader_cursors_ bus → cursors !! a = Some v →
    Z.of_nat (length history) < v + Bus.size_ bus).
  { intros a v Ha Hv. destruct (bo_readers _ _ _ _ Hok a Ha) as (value & e & _ & Hc & [-> _ Hmin _]).
    rewrite Hv in Hc. injection Hc as ->. lia. }
  split; [done|]. intros (a & e & Ha & Hlog & Hle).
  destruct (bo_readers _ _ _ _ Hok a Ha) as (value & e' & Hlog' & Hc & [-> _ _ _]).
  pose proof (Hall a _ Ha Hc). rewrite Hlog in Hlog'. injection Hlog' as ->. lia.
Qed.

(** The decision of [writeImpl]. *)
Lemma writeImpl_run bus cursors history log m : bus_ok bus cursors history log →
  Z.of_nat (length history) + 1 + Bus.size_ bus ≤ UINT64_MAX →
  ∃ written bus', writeImpl m (bus, cursors) = (Ret written, (bus', cursors)) ∧ Bus.size_ bus' = Bus.size_ bus ∧
    if written then ¬ reader_blocks bus history log ∧ bus_ok bus' cursors (history ++ [m]) log
    else reader_blocks bus history log ∧ bus_ok bus' cursors history log.
Proof.
  intros Hok Hmax. pose proof Hok as [Hs Hl Ht Hw Hring Hm Hr].
  unfold writeImpl, blockedByReaders. unfold mbind at 1, M_bind at 1. cbn [fst snd].
  destruct (decide (Bus.reader_cursors_ bus = [])) as [Hnone|Hsome].
  { rewrite bool_decide_eq_false_2 by auto. cbn [andb]. eexists true, _. split; [reflexivity|]. split; [done|].
    unfold reader_blocks. rewrite Hnone. split; [by intros (? & ? & ?%elem_of_nil & _)|].
    apply storeMessage_ok; [done|done|]. intros a v Ha. cbn in Ha. rewrite Hnone in Ha. by apply elem_of_nil in Ha. }
  rewrite bool_decide_eq_true_2 by done. cbn [andb].
  rewrite (wouldOverwrite_run _ _ _ _ _ Hok) by lia. case_bool_decide as Hcached.
  - destruct (refreshMinimum_run _ _ _ _ Hok) as (minimum & Hrun & Hok' & Hwit).
    erewrite M_bind_run by exact Hrun. unfold mret, M_ret.
    pose proof (bo_minimum _ _ _ _ Hok') as Hmin. cbn in Hmin. rewrite (wouldOverwrite_run _ _ _ _ _ Hok) by done.
    case_bool_decide as Hfull.
    + eexists false, _. split; [reflexivity|]. split; [done|]. split; [|done].
      destruct Hwit as [->|(a & Ha & Hv)]; [lia|]. by eapply reader_blocks_cursor.
    + destruct (readers_have_room _ _ _ _ Hok') as [Hroom Hnot]; [cbn; lia|].
      eexists true, _. split; [reflexivity|]. split; [done|]. split; [exact Hnot|]. by apply storeMessage_ok.
  - destruct (readers_have_room _ _ _ _ Hok) as [Hroom Hnot]; [lia|].
    eexists true, _. split; [reflexivity|]. split; [done|]. split; [exact Hnot|]. by apply storeMessage_ok.
Qed.

(** What a reader's next read gives: the message at its position, if there is one
    and the ring did not lose it before the reader registered. *)
Definition next_message (bus : Bus) (history : list sequenceMessage) (e : ReaderEntry) : option sequenceMessage :=
  if stale (Bus.size_ bus) e then None else history !! reached e.

Lemma reader_ok_read bus history e m : reader_ok bus history (Z.of_nat (reached e)) e →
  stale (Bus.size_ bus) e = false → history !! reached e = Some m →
  reader_ok bus history (Z.of_nat (reached e) + 1) (note_read (Some m) e).
Proof.
  intros [_ Hseen Hmin Hroom] Hst Hnext. rewrite Hst in Hroom.
  assert (Hreached : reached (note_read (Some m) e) = Datatypes.S (reached e)).
  { unfold reached, note_read. cbn [started received option_list]. rewrite length_app. simpl. lia. }
  split; [lia| |lia|].
  - unfold note_read. cbn [started received option_list]. rewrite length_app. cbn [length].
    rewrite Nat.add_1_r, (take_S_r _ _ m) by (by rewrite lookup_drop). by rewrite <-Hseen.
  - change (stale (Bus.size_ bus) (note_read (Some m) e)) with (stale (Bus.size_ bus) e). rewrite Hst. lia.
Qed.

Lemma read_run bus cursors history log a : bus_ok bus cursors history log → a ∈ Bus.reader_cursors_ bus →
  ∃ e cursors', log !! a = Some e ∧
    read a (bus, cursors) = (Ret (next_message bus history e), (bus, cursors')) ∧
    bus_ok bus cursors' history (alter (note_read (next_message bus history e)) a log).
Proof.
  intros Hok Ha. pose proof Hok as [Hs Hl Ht Hw Hring Hm Hr].
  destruct (Hr a Ha) as (value & e & Hlog & Hc & Hreader). pose proof (ro_cursor _ _ _ _ Hreader) as ->.
  pose proof Hreader as [_ _ _ Hroom]. exists e.
  assert (Hsame : ∀ cursors', cursors' = cursors → bus_ok bus cursors' history (alter (note_read None) a log)).
  { intros ? ->. rewrite alter_id; [done|]. intros [p n l] _. unfold note_read. simpl. by rewrite app_nil_r. }
  unfold read, next_message. rewrite Hc, Ht. destruct (stale (Bus.size_ bus) e) eqn:Hst.
  { destruct Hroom as [Hnil Hsince]. pose proof Hst as Hlost%bool_decide_eq_true. unfold reached. rewrite Hnil. cbn [length].
    rewrite bool_decide_eq_false_2 by lia. rewrite (bool_decide_eq_true_2 (Bus.size_ bus < _)) by lia.
    rewrite bool_decide_eq_true_2 by lia. exists cursors. auto. }
  destruct (history !! reached e) as [m|] eqn:Hnext.
  - pose proof (lookup_lt_Some _ _ _ Hnext) as Hlt. rewrite bool_decide_eq_false_2 by lia.
    rewrite bool_decide_eq_false_2 by (case_bool_decide; lia).
    rewrite (Hring _ _ Hnext Hroom). eexists. split; [done|]. split; [reflexivity|].
    rewrite wrap64_small by (unfold is_u64; lia). split; try done.
    intros a' Ha'. destruct (decide (a' = a)) as [->|Hne].
    + eexists _, (note_read (Some m) e). rewrite lookup_alter_eq, Hlog, lookup_insert_eq. split; [done|]. split; [done|].
      by apply reader_ok_read.
    + destruct (Hr a' Ha') as (value & e' & ? & ? & ?). exists value, e'.
      by rewrite lookup_alter_ne, lookup_insert_ne by done.
  - apply lookup_ge_None in Hnext. rewrite bool_decide_eq_true_2 by lia. exists cursors. auto.
Qed.

(** Registering a reader, wherever its cursor stands. *)
Lemma registered_ok bus cursors history log a position : bus_ok bus cursors history log →
  cursors !! a = Some (Z.of_nat position) →
  bus_ok (setCachedMinimum 0 (addCursor a bus)) cursors history
    (if bool_decide (a ∈ Bus.reader_cursors_ bus) then log else <[a := mkEntry position (length history) []]> log).
Proof.
  intros [Hs Hl Ht Hw Hring Hm Hr] Hv. split; try done; [cbn; lia|].
  assert (Hold : ∀ a', a' ∈ Bus.reader_cursors_ bus → ∃ value e, log !! a' = Some e ∧ cursors !! a' = Some value ∧
    reader_ok (setCachedMinimum 0 (addCursor a bus)) history value e).
  { intros a' Ha'. destruct (Hr a' Ha') as (value & e & ? & ? & [-> ? ? ?]). eexists _, e. split; [done|]. split; [done|].
    split; try done. cbn. lia. }
  intros a' [Ha'|Ha'%list_elem_of_singleton]%elem_of_app; case_bool_decide as Hreg.
  - by apply Hold.
  - rewrite lookup_insert_ne by (by intros ->). by apply Hold.
  - subst a'. by apply Hold.
  - subst a'. eexists _, _. rewrite lookup_insert_eq. split; [done|]. split; [done|].
    split; cbn [started written_before received reached]; unfold reached; cbn; [f_equal; lia|done|lia|].
    unfold stale. cbn [started written_before]. case_bool_decide; [done|lia].
Qed.

Lemma bus_step_ok bus cursors history log bus' cursors' history' log' :
  bus_step (bus, cursors, history, log) (bus', cursors', history', log') →
  bus_ok bus cursors history log → bus_ok bus' cursors' history' log'.
Proof.
  intros Hstep Hok. inversion Hstep as [? ? ? ? a v Hfree|? ? ? ? a position s' Hv Hrun|
    ? ? ? ? m written s' Hmax Hrun|? ? ? ? a result s' Ha Hrun]; subst.
  - destruct Hok as [Hs Hl Ht Hw Hring Hm Hr]. split; try done. intros a' Ha'.
    destruct (Hr a' Ha') as (value & e & ? & ? & ?). exists value, e. rewrite lookup_insert_ne; [done|]. by intros ->.
  - pose proof (registered_ok _ _ _ _ _ _ Hok Hv) as Hok'.
    destruct (refreshMinimum_run _ _ _ _ Hok') as (minimum & Hrun' & Hok'' & _).
    unfold registerCursor in Hrun. erewrite (M_bind_run (modifyBus _)) in Hrun by reflexivity. cbn [fst snd] in Hrun.
    assert (Hsame : refreshMinimum (addCursor a bus, cursors) = (Ret minimum, (setCachedMinimum minimum (addCursor a bus), cursors))).
    { revert Hrun'. unfold refreshMinimum, mbind, M_bind, liftM, recomputeMinimumCursor. cbn [fst snd].
      change (Bus.reader_cursors_ (setCachedMinimum 0 (addCursor a bus))) with (Bus.reader_cursors_ (addCursor a bus)).
      change (Bus.total_writes_ (setCachedMinimum 0 (addCursor a bus))) with (Bus.total_writes_ (addCursor a bus)).
      destruct (minimumCursor _ _ _) as [r|e]; [|done]. by intros [= ->]. }
    erewrite M_bind_run in Hrun by exact Hsame. unfold mret, M_ret in Hrun. simplify_eq. exact Hok''.
  - destruct (writeImpl_run _ _ _ _ m Hok Hmax) as (written' & bus1 & Hrun' & _ & Hcase). rewrite Hrun in Hrun'.
    simplify_eq. cbn [fst snd]. by destruct written', Hcase.
  - destruct (read_run _ _ _ _ _ Hok Ha) as (e & cursors1 & Hlog & Hrun' & Hok'). rewrite Hrun in Hrun'. by simplify_eq.
Qed.

Lemma bus_steps_ok s s' : rtc bus_step s s' →
  bus_ok s.1.1.1 s.1.1.2 s.1.2 s.2 → bus_ok s'.1.1.1 s'.1.1.2 s'.1.2 s'.2.
Proof.
  induction 1 as [|[[[b c] h] l] [[[b' c'] h'] l'] s'' Hstep _ IH]; [done|]. intros Hok. apply IH.
  by eapply bus_step_ok in Hstep.
Qed.

(** ** The property *)

(** C28: delivery.  In every interleaving of registrations (at any position: behind,
    inside or ahead of the ring, and repeated), writes and reads on a new bus, each
    registered reader has read exactly the messages written from its starting
    position on, once and in order, and its next read gives the next one, or
    nothing when it is up to date or the position is still to be written.  The
    exception is a reader that registered at a position already overwritten: it has
    read nothing and its next read gives nothing, and no message has been written
    since it registered.  A write is refused exactly when a registered reader has
    not read the message it would overwrite, so after such a registration always. *)
Theorem bus_delivers_in_order size bus cursors bus' cursors' history log :
  is_u64 size → newBus size = Ret bus →
  rtc bus_step (bus, cursors, [], ∅) (bus', cursors', history, log) →
  (∀ a, a ∈ Bus.reader_cursors_ bus' → ∃ e s', log !! a = Some e ∧
     received e = take (length (received e)) (drop (started e) history) ∧
     read a (bus', cursors') =
       (Ret (if stale (Bus.size_ bus') e then None else history !! (started e + length (received e))%nat), s') ∧
     (stale (Bus.size_ bus') e = true → received e = [] ∧ length history = written_before e)) ∧
  (∀ m, Z.of_nat (length history) + 1 + Bus.size_ bus' ≤ UINT64_MAX → ∃ written s',
     writeImpl m (bus', cursors') = (Ret written, s') ∧
     (written = false ↔ ∃ a e, a ∈ Bus.reader_cursors_ bus' ∧ log !! a = Some e ∧
        Z.of_nat (started e + length (received e)) + Bus.size_ bus' ≤ Z.of_nat (length history))).
Proof.
  intros Hsize Hnew Hsteps. unfold newBus, throw_if in Hnew. case_bool_decide as Hzero; [done|]. injection Hnew as <-.
  assert (Hok : bus_ok bus' cursors' history log).
  { apply (bus_steps_ok _ _ Hsteps). unfold is_u64 in Hsize. split; cbn; try done; try lia.
    - by rewrite length_replicate.
    - by intros a ?%elem_of_nil. }
  split.
  - intros a Ha. destruct (read_run _ _ _ _ _ Hok Ha) as (e & cursors1 & Hlog & Hrun & _). exists e. eexists.
    destruct (bo_readers _ _ _ _ Hok a Ha) as (value & e' & Hlog' & _ & [_ Hseen _ Hroom]).
    rewrite Hlog in Hlog'. injection Hlog' as <-. split; [done|]. split; [done|]. split; [exact Hrun|].
    intros Hst. by rewrite Hst in Hroom.
  - intros m Hmax. destruct (writeImpl_run _ _ _ _ m Hok Hmax) as (written & bus1 & Hrun & _ & Hcase).
    exists written. eexists. split; [exact Hrun|]. by destruct written, Hcase.
Qed.

(** ** Witness *)
Definition demoBusMessage : sequenceMessage := withSequence 1 emptyMessage.
Definition demoBus : Bus := Bus.mkBus 1 [None] [] 0 0.
Definition demoFrozenBus : Bus := Bus.mkBus 1 [Some demoBusMessage] [0%nat; 1%nat] 0 2.
Definition demoCursors : Cursors := <[1%nat := 0]> {[ 0%nat := 2 ]}.
Definition demoLog : ReaderLog := <[1%nat := mkEntry 0 2 []]> {[ 0%nat := mkEntry 0 0 [demoBusMessage; demoBusMessage] ]}.

(** A reader on a bus of one slot reads two messages; a second one then registers at
    the first message, which is gone. *)
Lemma demo_bus_steps : rtc bus_step (demoBus, ∅, [], ∅) (demoFrozenBus, demoCursors, [demoBusMessage; demoBusMessage], demoLog).
Proof.
  eapply rtc_l; [apply (bus_own demoBus ∅ [] ∅ 0%nat 0); by apply not_elem_of_nil|].
  eapply rtc_l; [eapply (bus_register demoBus _ [] ∅ 0%nat 0%nat); reflexivity|].
  eapply rtc_l; [eapply (bus_write _ _ [] _ demoBusMessage true); [vm_compute; discriminate|vm_compute; reflexivity]|].
  eapply rtc_l; [eapply (bus_read _ _ _ _ 0%nat); [by left|vm_compute; reflexivity]|].
  eapply rtc_l; [eapply (bus_write _ _ [demoBusMessage] _ demoBusMessage true); [vm_compute; discriminate|vm_compute; reflexivity]|].
  eapply rtc_l; [eapply (bus_read _ _ _ _ 0%nat); [by left|vm_compute; reflexivity]|].
  eapply rtc_l; [apply (bus_own _ _ _ _ 1%nat 0); by intros ?%list_elem_of_singleton|].
  eapply rtc_l; [eapply (bus_register _ _ _ _ 1%nat 0%nat); [reflexivity|vm_compute; reflexivity]|].
  apply rtc_refl.
Qed.

(** A late reader freezes the bus: it reads nothing, and nothing can be written. *)
Lemma bus_delivers_in_order_witness :
  (∃ e s', demoLog !! 1%nat = Some e ∧ received e = [] ∧ read 1 (demoFrozenBus, demoCursors) = (Ret None, s')) ∧
  ∃ s', writeImpl demoBusMessage (demoFrozenBus, demoCursors) = (Ret false, s').
Proof.
  destruct (bus_delivers_in_order 1 demoBus ∅ demoFrozenBus demoCursors [demoBusMessage; demoBusMessage] demoLog)
    as [Hread Hwrite].
  - vm_compute. split; discriminate.
  - reflexivity.
  - exact demo_bus_steps.
  - split.
    + destruct (Hread 1%nat) as (e & s' & Hlog & _ & Hrun & Hstale); [by right; left|].
      injection Hlog as <-. exists (mkEntry 0 2 []), s'. split; [reflexivity|]. split; [reflexivity|]. exact Hrun.
    + destruct (Hwrite demoBusMessage) as (written & s' & Hrun & Hrefused); [vm_compute; discriminate|].
      assert (written = false) as ->; [|by exists s'].
      apply Hrefused. exists 1%nat, (mkEntry 0 2 []). split; [by right; left|]. split; [reflexivity|]. vm_compute. discriminate.
Defined.
