(* ===== verification/EngineWorker.v ===== *)
(** * The matching engine's worker

    [MatchingEngine] of [src/matching_engine/include/matching_engine.hpp] and
    [src/matching_engine/src/matching_engine.cpp]: the sole consumer of the
    matching queue runs each command on the matching state, retransmits it on the
    bus and hands its result on, keeping the result the result queue refuses.  The
    queues, the bus with its readers' cursors and the matching state it borrows are
    fields of its state. *)
From S2P Require Import Prelude Domain Matching MatchingTheorems Replay Projection Queues SequencerTheorems Bus.

Record MatchingEngine (Q : Type) := mkMatchingEngine {
  sequencerQueue : Q;
  multicastBus : Bus * gmap nat Z;
  commandResultQueue : BoundedCommandResultQueue;
  matchingState_ : MatchingState;
  pendingCommandResult : option CommandResultBatch;
  inProgressCommand_ : option sequenceMessage;
  multicastWriteFailures_ : Z }.
Arguments mkMatchingEngine {_} _ _ _ _ _ _ _.
Arguments sequencerQueue {_} _.
Arguments multicastBus {_} _.
Arguments commandResultQueue {_} _.
Arguments matchingState_ {_} _.
Arguments pendingCommandResult {_} _.
Arguments inProgressCommand_ {_} _.
Arguments multicastWriteFailures_ {_} _.

Section worker.
Context {Q : Type} `{SharedQueue sequenceMessage Q}.

Abbreviation Engine := (MatchingEngine Q) (only parsing).

(** The constructors; the second one makes the result queue it owns. *)
Definition newMatchingEngine (queue : Q) (bus : Bus * gmap nat Z) (results : BoundedCommandResultQueue)
    (state : MatchingState) : Engine :=
  mkMatchingEngine queue bus results state None None 0.

Definition newOwningMatchingEngine (queue : Q) (bus : Bus * gmap nat Z) (ownedResultQueueCapacity : Z)
    (state : MatchingState) : outcome Engine :=
  results ← ResultQueue.newResultQueue ownedResultQueueCapacity;
  Ret (newMatchingEngine queue bus results state).

(** ** Updates *)
Definition setSequencerQueue (queue : Q) (e : Engine) : Engine :=
  mkMatchingEngine queue (multicastBus e) (commandResultQueue e) (matchingState_ e) (pendingCommandResult e)
    (inProgressCommand_ e) (multicastWriteFailures_ e).
Definition setBus (bus : Bus * gmap nat Z) (failures : Z) (e : Engine) : Engine :=
  mkMatchingEngine (sequencerQueue e) bus (commandResultQueue e) (matchingState_ e) (pendingCommandResult e)
    (inProgressCommand_ e) failures.
Definition setResults (results : BoundedCommandResultQueue) (pending : option CommandResultBatch) (e : Engine) : Engine :=
  mkMatchingEngine (sequencerQueue e) (multicastBus e) results (matchingState_ e) pending (inProgressCommand_ e)
    (multicastWriteFailures_ e).
Definition setMatching (state : MatchingState) (inProgress : option sequenceMessage) (e : Engine) : Engine :=
  mkMatchingEngine (sequencerQueue e) (multicastBus e) (commandResultQueue e) state (pendingCommandResult e) inProgress
    (multicastWriteFailures_ e).

Definition hasPendingResult (e : Engine) : bool := bool_decide (pendingCommandResult e ≠ None).

(** ** The cycle *)

(** [send]: a refused retransmission is only counted. *)
Definition sendToBus (message : sequenceMessage) : M Engine unit := λ e,
  match writeImpl message (multicastBus e) with
  | (Throw ex, bus) => (Throw ex, setBus bus (multicastWriteFailures_ e) e)
  | (Ret written, bus) =>
      (Ret tt, setBus bus (if (written : bool) then multicastWriteFailures_ e
                           else wrap64 (multicastWriteFailures_ e + 1)) e)
  end.

(** [commandResultQueue.tryPush(batch)] *)
Definition pushResult (batch : CommandResultBatch) : M Engine bool := λ e,
  let '(pushed, results) := ResultQueue.tryPushResult (Some batch) (commandResultQueue e) in
  (pushed, setResults results (pendingCommandResult e) e).

Definition handoffPendingResult : M Engine bool :=
  e ← getM;
  match pendingCommandResult e with
  | None => mret true
  | Some batch =>
      pushed ← pushResult batch;
      if (pushed : bool) then modifyM (λ e, setResults (commandResultQueue e) None e) ;; mret true else mret false
  end.

(** One command of the loop: [processCommand], [send], and the hand-over. *)
Definition runCommand (message : sequenceMessage) : M Engine bool := λ e,
  let e := setMatching (matchingState_ e) (Some message) e in
  match processCommand message (matchingState_ e) with
  | (Throw ex, state) => (Throw ex, setMatching state (Some message) e)
  | (Ret batch, state) =>
      (sendToBus message ;;
       modifyM (λ e, setMatching (matchingState_ e) None e) ;;
       pushed ← pushResult batch;
       (if (pushed : bool) then mret tt else modifyM (λ e, setResults (commandResultQueue e) (Some batch) e)) ;;
       mret pushed) (setMatching state (Some message) e)
  end.

Fixpoint drainCommands (fuel : nat) (progressed : bool) : M Engine bool := λ e,
  match fuel with
  | O => (Throw out_of_fuel, e)
  | Datatypes.S fuel' =>
      match sharedPop (sequencerQueue e) with
      | (None, queue) => (Ret progressed, setSequencerQueue queue e)
      | (Some message, queue) =>
          (pushed ← runCommand message;
           if (pushed : bool) then drainCommands fuel' true else mret true) (setSequencerQueue queue e)
      end
  end.

Definition drainQueue (fuel : nat) : M Engine bool :=
  e ← getM;
  if hasPendingResult e then
    handed ← handoffPendingResult;
    if (handed : bool) then drainCommands fuel true else mret false
  else drainCommands fuel false.

(** [advance] *)
Definition advanceEngine (fuel : nat) : M Engine bool := drainQueue fuel.
End worker.

(** * Properties of the matching engine's worker

    Whatever the timing of the sequencer, the completion consumer and the bus
    readers, the results handed on are those of processing the commands in their
    order of arrival, none is lost when the result queue is full, and a failing
    command is kept and never retried. *)

Section worker.
Context {Q : Type} `{SharedQueueLaws sequenceMessage Q}.
Implicit Types e : MatchingEngine Q.

(** The results the engine has produced and the completion consumer has not taken. *)
Definition unpublished e : list CommandResultBatch :=
  ResultQueue.batches_ (commandResultQueue e) ++ option_list (pendingCommandResult e).

Definition room e : Prop :=
  Z.of_nat (length (ResultQueue.batches_ (commandResultQueue e))) ≤ ResultQueue.capacity_ (commandResultQueue e).

(** [consumed] are the commands taken from the queue, [history] those of them the
    bus accepted, [published] the results the completion consumer took. *)
Record worker_ok (st0 : MatchingState) (consumed history : list sequenceMessage) (log : ReaderLog)
    (published : list CommandResultBatch) e : Prop := {
  wk_results : processAll consumed st0 = (Ret (published ++ unpublished e), matchingState_ e);
  wk_room : room e;
  wk_idle : inProgressCommand_ e = None;
  wk_bus : bus_ok (multicastBus e).1 (multicastBus e).2 history log;
  wk_sent : history `sublist_of` consumed;
  wk_failures : multicastWriteFailures_ e = Z.of_nat (length consumed - length history) }.

(** There are fewer than 2^64 commands. *)
Definition countable_commands (arrived : list sequenceMessage) e : Prop :=
  Z.of_nat (length arrived) + Bus.size_ (multicastBus e).1 ≤ UINT64_MAX.

Lemma worker_history_length st0 consumed history log published e :
  worker_ok st0 consumed history log published e → (length history ≤ length consumed)%nat.
Proof. intros Hok. apply sublist_length, Hok. Qed.

(** ** Handing results on *)
Lemma pushResult_run batch e : room e →
  ∃ pushed results, pushResult batch e = (Ret pushed, setResults results (pendingCommandResult e) e) ∧
    ResultQueue.capacity_ results = ResultQueue.capacity_ (commandResultQueue e) ∧
    Z.of_nat (length (ResultQueue.batches_ results)) ≤ ResultQueue.capacity_ results ∧
    ResultQueue.batches_ results =
      ResultQueue.batches_ (commandResultQueue e) ++ (if (pushed : bool) then [batch] else []).
Proof.
  intros Hroom. unfold pushResult, ResultQueue.tryPushResult. unfold room in Hroom.
  case_bool_decide; do 2 eexists; (split; [reflexivity|]); cbn; rewrite ?app_nil_r; split_and!; try done.
  rewrite length_app. simpl. lia.
Qed.

Lemma handoff_run st0 consumed history log published e : worker_ok st0 consumed history log published e →
  ∃ handed e', handoffPendingResult e = (Ret handed, e') ∧ worker_ok st0 consumed history log published e' ∧
    sequencerQueue e' = sequencerQueue e ∧ multicastBus e' = multicastBus e ∧
    (handed = true ↔ pendingCommandResult e' = None).
Proof.
  intros Hok. pose proof Hok as [Hres Hroom Hidle Hbus Hsent Hfail]. unfold handoffPendingResult.
  unfold mbind at 1, M_bind at 1, getM at 1.
  destruct (pendingCommandResult e) as [batch|] eqn:Hp; [|by exists true, e].
  destruct (pushResult_run batch e Hroom) as (pushed & results & Hrun & Hcap & Hlen & Hb).
  erewrite M_bind_run by exact Hrun. unfold unpublished in Hres. rewrite Hp in Hres. cbn [option_list] in Hres.
  destruct pushed.
  - eexists true, _. split; [reflexivity|]. split_and!; try done. split; try done.
    unfold unpublished. cbn. by rewrite app_nil_r, Hb.
  - eexists false, _. split; [reflexivity|]. cbn. rewrite Hp. split_and!; try done. split; try done.
    unfold unpublished. cbn. rewrite ?Hp, Hb. cbn. by rewrite app_nil_r.
Qed.

(** ** One command *)
Lemma processAll_snoc ms m st batches st1 :
  processAll ms st = (Ret batches, st1) →
  processAll (ms ++ [m]) st = match processCommand m st1 with
    | (Ret batch, st2) => (Ret (batches ++ [batch]), st2)
    | (Throw ex, st2) => (Throw ex, st2)
    end.
Proof.
  intros Hall. rewrite processAll_app. erewrite M_bind_run by exact Hall. cbn [processAll].
  unfold mbind, M_bind, mret, M_ret. by destruct (processCommand m st1) as [[b|ex] st2].
Qed.

Lemma sendToBus_run message consumed history log e :
  bus_ok (multicastBus e).1 (multicastBus e).2 history log → history `sublist_of` consumed →
  multicastWriteFailures_ e = Z.of_nat (length consumed - length history) → countable_commands (consumed ++ [message]) e →
  ∃ bus history', sendToBus message e =
      (Ret tt, setBus bus (Z.of_nat (length (consumed ++ [message]) - length history')) e) ∧
    bus_ok bus.1 bus.2 history' log ∧ history' `sublist_of` (consumed ++ [message]) ∧
    Bus.size_ bus.1 = Bus.size_ (multicastBus e).1.
Proof.
  intros Hbus Hsent Hfail Hcount. pose proof (sublist_length _ _ Hsent) as Hlen. unfold countable_commands in Hcount. rewrite length_app in *. simpl in Hcount.
  pose proof (bo_size _ _ _ _ Hbus) as Hsize. unfold sendToBus.
  destruct (multicastBus e) as [bus cursors] eqn:He. cbn [fst snd] in *.
  destruct (writeImpl_run bus cursors history log message Hbus ltac:(lia)) as (written & bus' & Hrun & Hsz & Hcase).
  rewrite Hrun. rewrite Hfail. destruct written.
  - exists (bus', cursors), (history ++ [message]). rewrite length_app. split_and!.
    + do 3 f_equal. simpl. lia.
    + by destruct Hcase.
    + by apply sublist_app.
    + done.
  - exists (bus', cursors), history. split_and!.
    + do 3 f_equal. rewrite wrap64_small by (unfold is_u64; lia). simpl. lia.
    + by destruct Hcase.
    + by apply sublist_inserts_r.
    + done.
Qed.

Lemma runCommand_run message st0 consumed history log published e :
  worker_ok st0 consumed history log published e → pendingCommandResult e = None →
  countable_commands (consumed ++ [message]) e →
  (∃ pushed e' history', runCommand message e = (Ret pushed, e') ∧
     worker_ok st0 (consumed ++ [message]) history' log published e' ∧ sequencerQueue e' = sequencerQueue e ∧
     Bus.size_ (multicastBus e').1 = Bus.size_ (multicastBus e).1 ∧ (pushed = true ↔ pendingCommandResult e' = None)) ∨
  (∃ ex e', runCommand message e = (Throw ex, e') ∧ inProgressCommand_ e' = Some message ∧
     processAll (consumed ++ [message]) st0 = (Throw ex, matchingState_ e') ∧
     unpublished e' = unpublished e ∧ sequencerQueue e' = sequencerQueue e).
Proof.
  intros Hok Hp Hcount. pose proof Hok as [Hres Hroom Hidle Hbus Hsent Hfail].
  pose proof (processAll_snoc consumed message st0 _ _ Hres) as Hnext. unfold runCommand. cbn [matchingState_ setMatching].
  destruct (processCommand message (matchingState_ e)) as [[batch|ex] st2].
  - left. set (e1 := setMatching st2 (Some message) (setMatching (matchingState_ e) (Some message) e)).
    destruct (sendToBus_run message consumed history log e1 Hbus Hsent Hfail Hcount)
      as (bus & history' & Hsend & Hbus' & Hsent' & Hsize).
    erewrite M_bind_run by exact Hsend. erewrite (M_bind_run (modifyM _)) by reflexivity. cbn [matchingState_ setBus].
    set (e2 := setMatching _ None _).
    destruct (pushResult_run batch e2 Hroom) as (pushed & results & Hrun & Hcap & Hlen & Hb).
    erewrite M_bind_run by exact Hrun. unfold unpublished in Hnext. rewrite Hp in Hnext. cbn [option_list] in Hnext.
    rewrite app_nil_r in Hnext. destruct pushed; erewrite M_bind_run by reflexivity;
      (eexists _, _, history'; split; [reflexivity|]; cbn; rewrite ?Hp; split_and!; try done; split; try done; unfold unpublished; cbn).
    + by rewrite ?Hp, Hb, app_nil_r, app_assoc.
    + by rewrite Hb, app_nil_r, app_assoc.
  - right. eexists ex, _. split; [reflexivity|]. by split_and!.
Qed.

(** ** The loop *)
Definition worker_at (st0 : MatchingState) (arrived : list sequenceMessage) (published : list CommandResultBatch) e : Prop :=
  ∃ consumed history log, arrived = consumed ++ queued (sequencerQueue e) ∧
    worker_ok st0 consumed history log published e ∧ countable_commands arrived e.

(** What a cycle ends in: everything handed on as far as there is room, or a
    command whose processing failed, which the engine still holds. *)
Definition cycle_outcome (st0 : MatchingState) (arrived : list sequenceMessage) (published : list CommandResultBatch)
    (result : outcome bool) e' : Prop :=
  match result with
  | Ret _ => worker_at st0 arrived published e' ∧
      (pendingCommandResult e' = None → queued (sequencerQueue e') = [])
  | Throw ex => ∃ consumed message, arrived = (consumed ++ [message]) ++ queued (sequencerQueue e') ∧
      inProgressCommand_ e' = Some message ∧
      processAll (consumed ++ [message]) st0 = (Throw ex, matchingState_ e') ∧
      ∃ st, processAll consumed st0 = (Ret (published ++ unpublished e'), st)
  end.

Lemma drainCommands_run st0 arrived published : ∀ fuel progressed e,
  worker_at st0 arrived published e → pendingCommandResult e = None →
  (length (queued (sequencerQueue e)) < fuel)%nat →
  ∃ result e', drainCommands fuel progressed e = (result, e') ∧ cycle_outcome st0 arrived published result e'.
Proof.
  induction fuel as [|fuel IH]; intros progressed e (consumed & history & log & Harr & Hok & Hcount) Hp Hf; [lia|].
  cbn [drainCommands]. destruct (pop_law (sequencerQueue e)) as [Hpop Htail]. rewrite Hpop.
  destruct (queued (sequencerQueue e)) as [|message rest] eqn:Hq; cbn [head tl] in *.
  - eexists _, _. split; [reflexivity|]. split; [|done]. exists consumed, history, log.
    cbn. rewrite Htail. split_and!; [done| |done]. destruct Hok. by split.
  - set (e1 := setSequencerQueue _ e).
    assert (Hok1 : worker_ok st0 consumed history log published e1) by (destruct Hok; by split).
    assert (Hcount1 : countable_commands (consumed ++ [message]) e1).
    { unfold countable_commands in *. cbn. rewrite Harr, !length_app in *. simpl in *. lia. }
    destruct (runCommand_run message st0 consumed history log published e1 Hok1 Hp Hcount1)
      as [(pushed & e2 & history' & Hrun & Hok2 & Hqueue & Hsize & Hnone)|(ex & e2 & Hrun & Hin & Hfail & Hun & Hqueue)].
    + erewrite M_bind_run by exact Hrun.
      assert (Hat : worker_at st0 arrived published e2).
      { exists (consumed ++ [message]), history', log. rewrite Hqueue. cbn. rewrite Htail, <-app_assoc.
        split_and!; [done|done|]. unfold countable_commands in *. by rewrite Hsize. }
      destruct pushed.
      * apply IH; [done|by apply Hnone|]. rewrite Hqueue. cbn. rewrite Htail. simpl in Hf. lia.
      * eexists _, e2. split; [reflexivity|]. split; [done|]. by intros ?%Hnone.
    + rewrite (M_bind_throw _ _ _ _ _ Hrun). eexists _, e2. split; [reflexivity|]. exists consumed, message.
      rewrite Hqueue. cbn [setSequencerQueue sequencerQueue e1]. rewrite Htail, <-app_assoc. split_and!; [done|done|done|].
      eexists. rewrite Hun. apply Hok1.
Qed.

Lemma advanceEngine_run st0 arrived published fuel e : worker_at st0 arrived published e →
  (length (queued (sequencerQueue e)) < fuel)%nat →
  ∃ result e', advanceEngine fuel e = (result, e') ∧ cycle_outcome st0 arrived published result e'.
Proof.
  intros Hat Hf. unfold advanceEngine, drainQueue. unfold mbind at 1, M_bind at 1, getM at 1. unfold hasPendingResult.
  case_bool_decide as Hpend; [|apply drainCommands_run; [done|by destruct (pendingCommandResult e)|done]].
  destruct Hat as (consumed & history & log & Harr & Hok & Hcount).
  destruct (handoff_run _ _ _ _ _ _ Hok) as (handed & e1 & Hrun & Hok1 & Hqueue & Hbus & Hnone).
  erewrite M_bind_run by exact Hrun.
  assert (Hat1 : worker_at st0 arrived published e1).
  { exists consumed, history, log. unfold countable_commands. rewrite Hqueue, Hbus. by split_and!. }
  destruct handed.
  - apply drainCommands_run; [done|by apply Hnone|by rewrite Hqueue].
  - eexists _, e1. split; [reflexivity|]. split; [done|]. by intros ?%Hnone.
Qed.

(** ** Executions

    [arrived] is everything the sequencer pushed, [published] everything the
    completion consumer popped.  A cycle that throws ends the engine's thread. *)
Inductive engine_step : MatchingEngine Q * list sequenceMessage * list CommandResultBatch →
    MatchingEngine Q * list sequenceMessage * list CommandResultBatch → Prop :=
  | engine_arrive e arrived published message queue' :
      sharedPush message (sequencerQueue e) = (true, queue') → countable_commands (arrived ++ [message]) e →
      engine_step (e, arrived, published) (setSequencerQueue queue' e, arrived ++ [message], published)
  | engine_advance e arrived published fuel result e' :
      (length (queued (sequencerQueue e)) < fuel)%nat → advanceEngine fuel e = (Ret result, e') →
      engine_step (e, arrived, published) (e', arrived, published)
  | engine_publish e arrived published batch results' :
      ResultQueue.tryPopResult (commandResultQueue e) = (Some batch, results') →
      engine_step (e, arrived, published) (setResults results' (pendingCommandResult e) e, arrived, published ++ [batch])
  | engine_reader e arrived published cursor result bus' :
      cursor ∈ Bus.reader_cursors_ (multicastBus e).1 → read cursor (multicastBus e) = (Ret result, bus') →
      engine_step (e, arrived, published) (setBus bus' (multicastWriteFailures_ e) e, arrived, published).

Definition execution_ok (st0 : MatchingState) (s : MatchingEngine Q * list sequenceMessage * list CommandResultBatch) : Prop :=
  worker_at st0 s.1.2 s.2 s.1.1.

Lemma engine_step_ok st0 s s' : engine_step s s' → execution_ok st0 s → execution_ok st0 s'.
Proof.
  intros Hstep Hat. destruct Hstep as [e arrived published message queue' Hpush Hcount'|e arrived published fuel result e' Hf Hrun|
    e arrived published batch results' Hpop|e arrived published cursor result bus' Hreg Hread];
    unfold execution_ok in *; cbn [fst snd] in *.
  - destruct Hat as (consumed & history & log & Harr & Hok & Hcount). exists consumed, history, log.
    pose proof (push_law message (sequencerQueue e)) as Hq. rewrite Hpush in Hq. cbn in Hq. cbn [sequencerQueue setSequencerQueue].
    rewrite Hq, Harr, app_assoc. rewrite Harr in Hcount'. split_and!; [done| |done]. destruct Hok. by split.
  - destruct (advanceEngine_run st0 arrived published fuel e Hat Hf) as (r & e1 & Hrun' & Hcase). rewrite Hrun in Hrun'.
    injection Hrun' as <- <-. by destruct Hcase.
  - destruct Hat as (consumed & history & log & Harr & Hok & Hcount). exists consumed, history, log. split_and!; [done| |done].
    destruct Hok as [Hres Hroom Hidle Hbus Hsent Hfail]. unfold ResultQueue.tryPopResult in Hpop.
    unfold unpublished, room in *. destruct (ResultQueue.batches_ (commandResultQueue e)) as [|b bs] eqn:Hb; [done|].
    injection Hpop as <- <-. split; try done; unfold unpublished, room; cbn.
    + by rewrite <-app_assoc.
    + simpl in Hroom. lia.
  - destruct Hat as (consumed & history & log & Harr & Hok & Hcount).
    destruct Hok as [Hres Hroom Hidle Hbus Hsent Hfail].
    destruct (read_run _ _ _ _ _ Hbus Hreg) as (entry & cursors' & _ & Hrun & Hbus').
    destruct (multicastBus e) as [bus cursors] eqn:He. cbn [fst snd] in *. rewrite Hread in Hrun. injection Hrun as -> ->.
    exists consumed, history. eexists. split_and!; [done|by split|].
    unfold countable_commands in *. by rewrite He in Hcount.
Qed.

Lemma engine_steps_ok st0 s s' : rtc engine_step s s' → execution_ok st0 s → execution_ok st0 s'.
Proof. induction 1; eauto using engine_step_ok. Qed.
End worker.

(** ** The property *)

(** C29: no result is lost or reordered.  In every interleaving of the engine's
    cycles with the sequencer, the completion consumer and the bus readers, the
    results handed on, those queued and the one the engine holds are exactly
    those of processing the commands taken so far, in their order of arrival, and
    the engine's books are that run's; the queue never exceeds its capacity; the
    bus got a subsequence of the commands, the rest being counted.  A cycle always
    returns: with the commands all taken or the queue full, or with the exception
    of the one command that failed, which the engine keeps and has not repeated. *)
Theorem engine_hands_on_every_result {Q} `{SharedQueueLaws sequenceMessage Q} (queue : Q) bus results st0 log e arrived published :
  queued queue = [] → ResultQueue.batches_ results = [] → 0 ≤ ResultQueue.capacity_ results →
  bus_ok bus.1 bus.2 [] log →
  rtc engine_step (newMatchingEngine queue bus results st0, [], []) (e, arrived, published) →
  (∃ consumed history, arrived = consumed ++ queued (sequencerQueue e) ∧
     processAll consumed st0 = (Ret (published ++ unpublished e), matchingState_ e) ∧ room e ∧
     history `sublist_of` consumed ∧ multicastWriteFailures_ e = Z.of_nat (length consumed - length history)) ∧
  ∀ fuel, (length (queued (sequencerQueue e)) < fuel)%nat →
    ∃ result e', advanceEngine fuel e = (result, e') ∧ cycle_outcome st0 arrived published result e'.
Proof.
  intros Hqueue Hbatches Hcap Hbus Hsteps.
  assert (Hat : execution_ok st0 (e, arrived, published)).
  { apply (engine_steps_ok st0 _ _ Hsteps). exists [], [], log. cbn. split_and!; [done| |apply Hbus].
    split; try done; unfold unpublished, room; cbn; by rewrite Hbatches. }
  split; [|intros fuel; by apply advanceEngine_run].
  destruct Hat as (consumed & history & log' & Harr & [Hres Hroom Hidle _ Hsent Hfail] & _). by exists consumed, history.
Qed.

(** ** Witness *)
Definition demoEngine : MatchingEngine (FixedQueue sequenceMessage) :=
  newMatchingEngine (mkFixedQueue 4 []) (demoBus, ∅) (ResultQueue.mkResultQueue 1 []) (newMatchingState 7).
Definition demoLoaded : MatchingEngine (FixedQueue sequenceMessage) :=
  setSequencerQueue (mkFixedQueue 4 [demoSell; demoBuy]) demoEngine.

Lemma demoBus_ok : bus_ok demoBus ∅ [] ∅.
Proof.
  split; try done. by intros a ?%elem_of_nil.
Qed.

Lemma demo_engine_steps :
  rtc engine_step (demoEngine, [], []) (demoLoaded, [demoSell; demoBuy], []).
Proof.
  eapply rtc_l; [apply (engine_arrive demoEngine [] [] demoSell (mkFixedQueue 4 [demoSell]));
    [reflexivity|vm_compute; discriminate]|].
  apply rtc_once. apply (engine_arrive (setSequencerQueue (mkFixedQueue 4 [demoSell]) demoEngine) [demoSell] [] demoBuy
    (mkFixedQueue 4 [demoSell; demoBuy])); [reflexivity|vm_compute; discriminate].
Qed.

Lemma engine_hands_on_every_result_witness :
  ∃ result e', advanceEngine 3 demoLoaded = (result, e') ∧
    cycle_outcome (newMatchingState 7) [demoSell; demoBuy] [] result e'.
Proof.
  apply (engine_hands_on_every_result (Q:=FixedQueue sequenceMessage) (mkFixedQueue 4 []) (demoBus, ∅)
    (ResultQueue.mkResultQueue 1 []) (newMatchingState 7) ∅ demoLoaded [demoSell; demoBuy] []).
  - reflexivity.
  - reflexivity.
  - done.
  - exact demoBus_ok.
  - exact demo_engine_steps.
  - vm_compute. lia.
Defined.
