(* ===== verification/FixParser.v ===== *)
(** * Normalizing FIX messages

    [src/core/fix/src/fix_parser.cpp] and [client_identity.cpp]: an accepted FIX
    message becomes a command with exact prices and quantities.  The QuickFIX
    message is an interface: its fields are text by tag, and a character field has
    a value only when its text is one character. *)
From S2P Require Import Prelude Domain.

(** ** QuickFIX

    [getField] and [isSetField] of a message and of its header, and the value of a
    [CharField], which throws [IncorrectDataFormat] for any other text. *)
Class FixMessages (F : Type) := {
  headerField : Z → F → option string;
  bodyField : Z → F → option string;
  charFieldValue : string → option Ascii.ascii }.

Class FixMessagesLaws (F : Type) `{FixMessages F} := {
  charFieldValue_law text c : charFieldValue text = Some c ↔ text = String c EmptyString }.

(** The tags of [FIX::FIELD]. *)
Module FIELD.
Definition ClOrdID : Z := 11.
Definition MsgType : Z := 35.
Definition OrderID : Z := 37.
Definition OrderQty : Z := 38.
Definition OrdType : Z := 40.
Definition PriceField : Z := 44.
Definition SideField : Z := 54.
Definition Symbol : Z := 55.
Definition TimeInForceField : Z := 59.
Definition ExpireTime : Z := 126.
End FIELD.

(** [FixValidationError] *)
Definition FixValidationError (message : string) : exn := runtime_error message.

(** A [std::string_view] is the list of its characters. *)
Abbreviation text_view := (list Ascii.ascii) (only parsing).
Definition chars (text : string) : text_view := String.list_ascii_of_string text.

(** ** Decimal text *)
Definition is_digit (c : Ascii.ascii) : bool :=
  bool_decide (48 ≤ Z.of_nat (Ascii.nat_of_ascii c)) && bool_decide (Z.of_nat (Ascii.nat_of_ascii c) ≤ 57).
Definition digit_value (c : Ascii.ascii) : Z := Z.of_nat (Ascii.nat_of_ascii c) - 48.
Definition dot : Ascii.ascii := Ascii.Ascii false true true true false true false false.
Definition zero_digit : Ascii.ascii := Ascii.Ascii false false false false true true false false.

(** [text.find('.')] *)
Definition findDot (text : text_view) : option nat := fst <$> list_find (dot =.) text.

Fixpoint powerOfTenLoop (count : nat) (value : Z) : outcome Z :=
  match count with
  | O => Ret value
  | Datatypes.S count' =>
      throw_if (bool_decide (UINT64_MAX / 10 < value)) (logic_error "instrument price scale is too large") ;;
      powerOfTenLoop count' (wrap64 (value * 10))
  end.

Definition powerOfTen (exponent : Z) : outcome Z := powerOfTenLoop (Z.to_nat exponent) 1.

Fixpoint parseWholeLoop (text : text_view) (maximum : Z) (fieldName : string) (value : Z) : outcome Z :=
  match text with
  | [] => Ret value
  | character :: text' =>
      throw_if (negb (is_digit character)) (FixValidationError (fieldName ++ " must be an unsigned decimal")) ;;
      let digit := digit_value character in
      throw_if (bool_decide (maximum / 10 < value) ||
                (bool_decide (value = maximum / 10) && bool_decide (maximum mod 10 < digit)))
        (FixValidationError (fieldName ++ " exceeds the configured maximum")) ;;
      parseWholeLoop text' maximum fieldName (wrap64 (value * 10 + digit))
  end.

Definition parseUnsignedWhole (text : text_view) (maximum : Z) (fieldName : string) : outcome Z :=
  throw_if (bool_decide (text = [])) (FixValidationError (fieldName ++ " must not be empty")) ;;
  parseWholeLoop text maximum fieldName 0.

(** The text before and after the decimal point, with the checks both parsers make. *)
Definition splitDecimal (text : text_view) (manyPoints empty : string) : outcome (text_view * text_view) :=
  let decimalPoint := findDot text in
  let wholeText := match decimalPoint with Some p => take p text | None => text end in
  let fractionalText := match decimalPoint with Some p => drop (p + 1) text | None => [] end in
  throw_if (bool_decide (is_Some decimalPoint) && bool_decide (is_Some (findDot fractionalText)))
    (FixValidationError manyPoints) ;;
  throw_if (bool_decide (wholeText = []) ||
            (bool_decide (is_Some decimalPoint) && bool_decide (fractionalText = [])))
    (FixValidationError empty) ;;
  Ret (wholeText, fractionalText).

(** The three loops over the fraction: the digits the scale keeps, the zeros that
    fill it up, and the digits beyond it. *)
Fixpoint retainDigits (text : text_view) (fractional : Z) : outcome Z :=
  match text with
  | [] => Ret fractional
  | character :: text' =>
      throw_if (negb (is_digit character)) (FixValidationError "Price must be an unsigned decimal") ;;
      retainDigits text' (wrap64 (wrap64 (fractional * 10) + digit_value character))
  end.

Fixpoint padFraction (count : nat) (fractional : Z) : Z :=
  match count with
  | O => fractional
  | Datatypes.S count' => padFraction count' (wrap64 (fractional * 10))
  end.

Fixpoint checkExtraDigits (text : text_view) : outcome unit :=
  match text with
  | [] => Ret tt
  | character :: text' =>
      throw_if (negb (is_digit character)) (FixValidationError "Price must be an unsigned decimal") ;;
      throw_if (bool_decide (character ≠ zero_digit))
        (FixValidationError "Price violates the configured tick size") ;;
      checkExtraDigits text'
  end.

Definition parsePriceTicks (text : text_view) (configuration : InstrumentConfiguration) : outcome Price :=
  parts ← splitDecimal text "Price must contain at most one decimal point" "Price must be a positive decimal";
  let wholeText := parts.1 in
  let fractionalText := parts.2 in
  let tick := Instrument.tickSizeMantissa configuration in
  throw_if (bool_decide (tick = 0) || bool_decide (UINT64_MAX / tick < Instrument.maxPrice configuration))
    (logic_error "invalid instrument tick configuration") ;;
  let maxScaledPrice := wrap64 (Instrument.maxPrice configuration * tick) in
  scaleFactor ← powerOfTen (Instrument.priceScale configuration);
  whole ← parseUnsignedWhole wholeText (maxScaledPrice / scaleFactor) "Price";
  let retainedDigits := Nat.min (length fractionalText) (Z.to_nat (Instrument.priceScale configuration)) in
  retained ← retainDigits (take retainedDigits fractionalText) 0;
  let fractional := padFraction (Z.to_nat (Instrument.priceScale configuration) - retainedDigits) retained in
  checkExtraDigits (drop retainedDigits fractionalText) ;;
  let scaledWhole := wrap64 (whole * scaleFactor) in
  throw_if (bool_decide (wrap64 (maxScaledPrice - scaledWhole) < fractional))
    (FixValidationError "Price is outside the configured range") ;;
  let scaledPrice := wrap64 (scaledWhole + fractional) in
  throw_if (bool_decide (scaledPrice = 0)) (FixValidationError "Price is outside the configured range") ;;
  throw_if (bool_decide (scaledPrice mod tick ≠ 0)) (FixValidationError "Price violates the configured tick size") ;;
  Ret (scaledPrice / tick).

Fixpoint onlyZeros (text : text_view) : outcome unit :=
  match text with
  | [] => Ret tt
  | character :: text' =>
      throw_if (bool_decide (character ≠ zero_digit))
        (FixValidationError "OrderQty violates the configured lot size") ;;
      onlyZeros text'
  end.

Definition parseQuantityUnits (text : text_view) (configuration : InstrumentConfiguration) : outcome Quantity :=
  parts ← splitDecimal text "OrderQty must contain at most one decimal point"
            "OrderQty must be a positive whole number";
  onlyZeros parts.2 ;;
  quantity ← parseUnsignedWhole parts.1 (Instrument.maxOrderQuantity configuration) "OrderQty";
  throw_if (bool_decide (quantity = 0) || bool_decide (Instrument.lotSize configuration = 0) ||
            bool_decide (quantity mod Instrument.lotSize configuration ≠ 0))
    (FixValidationError "OrderQty violates the configured lot size") ;;
  Ret quantity.

(** ** Session identities *)
Section identities.
Context {SessionID : Type} `{Countable SessionID}.

Definition ClientIdentityResolver := gmap SessionID ClientId.

Definition addMapping (sessionId : SessionID) (clientId : ClientId) (mappings : ClientIdentityResolver)
    : outcome ClientIdentityResolver :=
  throw_if (bool_decide (clientId = 0)) (invalid_argument "configured FIX ClientId must be nonzero") ;;
  throw_if (bool_decide (is_Some (mappings !! sessionId)))
    (invalid_argument "duplicate configured FIX session identity") ;;
  Ret (<[sessionId := clientId]> mappings).

Fixpoint addMappings (configured : list (SessionID * ClientId)) (mappings : ClientIdentityResolver)
    : outcome ClientIdentityResolver :=
  match configured with
  | [] =>
      throw_if (bool_decide (mappings = ∅))
        (invalid_argument "FIX client identity configuration must not be empty") ;;
      Ret mappings
  | (sessionId, clientId) :: configured' =>
      mappings ← addMapping sessionId clientId mappings; addMappings configured' mappings
  end.

(** The constructor from a list of mappings. *)
Definition newResolver (configured : list (SessionID * ClientId)) : outcome ClientIdentityResolver :=
  addMappings configured ∅.

Fixpoint configuredIdLoop (text : text_view) (value : Z) : outcome Z :=
  match text with
  | [] => Ret value
  | character :: text' =>
      throw_if (negb (is_digit character))
        (invalid_argument "ExchangeClientId must be an unsigned decimal for FIX session") ;;
      let digit := digit_value character in
      throw_if (bool_decide (UINT64_MAX / 10 < value) ||
                (bool_decide (value = UINT64_MAX / 10) && bool_decide (UINT64_MAX mod 10 < digit)))
        (invalid_argument "ExchangeClientId overflows uint64 for FIX session") ;;
      configuredIdLoop text' (wrap64 (value * 10 + digit))
  end.

Definition parseConfiguredClientId (text : text_view) : outcome ClientId :=
  throw_if (bool_decide (text = [])) (invalid_argument "empty ExchangeClientId for FIX session") ;;
  value ← configuredIdLoop text 0;
  throw_if (bool_decide (value = 0)) (invalid_argument "ExchangeClientId must be nonzero for FIX session") ;;
  Ret value.

(** The constructor from settings: the sessions in their order, with the text of
    the setting where there is one. *)
Fixpoint addSettings (sessions : list (SessionID * option string)) (mappings : ClientIdentityResolver)
    : outcome ClientIdentityResolver :=
  match sessions with
  | [] =>
      throw_if (bool_decide (mappings = ∅))
        (invalid_argument "FIX client identity configuration must not be empty") ;;
      Ret mappings
  | (sessionId, None) :: _ => Throw (invalid_argument "missing ExchangeClientId for FIX session")
  | (sessionId, Some text) :: sessions' =>
      clientId ← parseConfiguredClientId (chars text);
      mappings ← addMapping sessionId clientId mappings;
      addSettings sessions' mappings
  end.

Definition resolverFromSettings (sessions : list (SessionID * option string)) : outcome ClientIdentityResolver :=
  addSettings sessions ∅.

Definition resolve (sessionId : SessionID) (mappings : ClientIdentityResolver) : option ClientId :=
  mappings !! sessionId.
End identities.
Arguments ClientIdentityResolver _ {_ _}.

(** ** Messages *)
Definition timeInForceOf (c : Ascii.ascii) : TimeInForce :=
  match Z.of_nat (Ascii.nat_of_ascii c) with
  | 48 => TIF.DAY
  | 49 => TIF.GTC
  | 51 => TIF.IOC
  | 52 => TIF.FOK
  | 53 => TIF.GTX
  | 54 => TIF.GTD
  | 55 => TIF.ATC
  | other => TIF.TimeInForce_raw other
  end.

Definition isProcessableMessageType (msgType : string) : bool :=
  bool_decide (msgType = "D") || bool_decide (msgType = "F").

Section messages.
Context {F : Type} `{FixMessages F} {SessionID : Type} `{Countable SessionID}.

Definition required (field : option string) (tag : Z) : outcome string :=
  match field with Some text => Ret text | None => Throw (field_not_found tag) end.

(** A field that must be set, and its value as a character. *)
Definition requiredChar (tag : Z) (fixMessage : F) : outcome Ascii.ascii :=
  text ← required (bodyField tag fixMessage) tag;
  match charFieldValue text with Some c => Ret c | None => Throw incorrect_data_format end.

Definition extractTimeInForce (fixMessage : F) : outcome TimeInForce :=
  c ← requiredChar FIELD.TimeInForceField fixMessage;
  let value := timeInForceOf c in
  throw_if (bool_decide (value ≠ TIF.GTC) && bool_decide (value ≠ TIF.IOC))
    (FixValidationError "unsupported TimeInForce") ;;
  Ret value.

Definition validateExpiry (fixMessage : F) : outcome Z :=
  throw_if (bool_decide (is_Some (bodyField FIELD.ExpireTime fixMessage)))
    (FixValidationError "ExpireTime is not supported for GTC or IOC orders") ;;
  Ret 0.

Definition validateNewOrderType (fixMessage : F) : outcome unit :=
  c ← requiredChar FIELD.OrdType fixMessage;
  throw_if (bool_decide (Ascii.nat_of_ascii c ≠ 50%nat))
    (FixValidationError "only limit NewOrderSingle messages are supported").

Definition extractSide (fixMessage : F) : outcome orderType :=
  c ← requiredChar FIELD.SideField fixMessage;
  if bool_decide (Ascii.nat_of_ascii c = 49%nat) then Ret OrderType.BUY
  else if bool_decide (Ascii.nat_of_ascii c = 50%nat) then Ret OrderType.SELL
  else Throw (FixValidationError "unsupported Side").

Definition extractOrderQty (fixMessage : F) (configuration : InstrumentConfiguration) : outcome Quantity :=
  text ← required (bodyField FIELD.OrderQty fixMessage) FIELD.OrderQty;
  parseQuantityUnits (chars text) configuration.

Definition extractLimitPrice (fixMessage : F) (configuration : InstrumentConfiguration) : outcome Price :=
  text ← required (bodyField FIELD.PriceField fixMessage) FIELD.PriceField;
  parsePriceTicks (chars text) configuration.

Definition extractTargetOrderId (fixMessage : F) : outcome TargetOrderId :=
  text ← required (bodyField FIELD.OrderID fixMessage) FIELD.OrderID;
  targetOrderId ← parseUnsignedWhole (chars text) UINT64_MAX "OrderID";
  throw_if (bool_decide (targetOrderId = 0)) (FixValidationError "OrderID must be positive") ;;
  Ret targetOrderId.

(** [strncpy] into the ten-character array and its terminator. *)
Fixpoint untilNul (text : text_view) : text_view :=
  match text with
  | [] => []
  | c :: text' => if bool_decide (Ascii.nat_of_ascii c = 0%nat) then [] else c :: untilNul text'
  end.

Definition copySymbol (symbol : string) : string :=
  String.string_of_list_ascii (take 9 (untilNul (chars symbol))).

(** The constructor of [ClientCommandId], its exception translated. *)
Definition extractClientCommandId (fixMessage : F) : outcome ClientCommandId :=
  text ← required (bodyField FIELD.ClOrdID fixMessage) FIELD.ClOrdID;
  match makeClientCommandId text with
  | Throw (invalid_argument what) => Throw (FixValidationError what)
  | result => result
  end.

Definition messageType (msgType : string) (fixMessage : F) : outcome orderType :=
  if bool_decide (msgType = "F") then Ret OrderType.CANCEL
  else if bool_decide (msgType = "D") then validateNewOrderType fixMessage ;; extractSide fixMessage
  else Ret (Msg.type emptyMessage).

Definition parseFixMessage (fixMessage : F) (sessionID : SessionID) (resolver : ClientIdentityResolver SessionID)
    : outcome sequenceMessage :=
  msgType ← required (headerField FIELD.MsgType fixMessage) FIELD.MsgType;
  match resolve sessionID resolver with
  | None => Throw (FixValidationError "unknown or unauthorized FIX session identity")
  | Some clientId =>
      type ← messageType msgType fixMessage;
      symbol ← required (bodyField FIELD.Symbol fixMessage) FIELD.Symbol;
      match findBySymbol symbol with
      | None => Throw (FixValidationError "unknown or inactive instrument")
      | Some configuration =>
          let cancel := bool_decide (type = OrderType.CANCEL) in
          quantity ← (if cancel then Ret 0 else extractOrderQty fixMessage configuration);
          price ← (if cancel then Ret 0 else extractLimitPrice fixMessage configuration);
          clientCommandId ← extractClientCommandId fixMessage;
          let message target tif expiry :=
            Msg.mkSequenceMessage 0 target 0 clientId (Some clientCommandId) (Instrument.instrumentId configuration)
              (Instrument.configurationVersion configuration) price quantity (copySymbol symbol) type expiry 0 tif in
          if cancel then
            target ← extractTargetOrderId fixMessage;
            Ret (message (Some target) (Msg.tif emptyMessage) (Msg.expiry emptyMessage))
          else
            tif ← extractTimeInForce fixMessage;
            expiry ← validateExpiry fixMessage;
            Ret (message None tif expiry)
      end
  end.
End messages.

(** * Decimal text

    What the loops of the FIX parser compute: the value of the digits, or an error,
    with no arithmetic that wraps. *)

(** The number a list of digits denotes, most significant first, after [v]. *)
Definition digits_from (v : Z) (l : text_view) : Z := foldl (λ acc c, acc * 10 + digit_value c) v l.
Definition digits_value (l : text_view) : Z := digits_from 0 l.
Definition all_digits (l : text_view) : Prop := Forall (λ c, is_digit c = true) l.

(** [text] is [whole] or [whole.frac], with digits on both sides of the point. *)
Definition decimal (text whole frac : text_view) : Prop :=
  whole ≠ [] ∧ all_digits whole ∧ all_digits frac ∧
  ((text = whole ∧ frac = []) ∨ (text = whole ++ dot :: frac ∧ frac ≠ [])).

(** An exception that reports the message, not the program. *)
Definition is_rejection (e : exn) : Prop := ∃ what, e = FixValidationError what.

(** [o] computes [P]'s value when there is one, and otherwise rejects. *)
Definition parses {A} (o : outcome A) (P : A → Prop) : Prop :=
  match o with Ret a => P a | Throw e => is_rejection e ∧ ∀ a, ¬ P a end.

Lemma is_digit_value c : is_digit c = true → 0 ≤ digit_value c ≤ 9.
Proof.
  unfold is_digit, digit_value. intros [?%bool_decide_eq_true ?%bool_decide_eq_true]%andb_prop. lia.
Qed.

Lemma digits_from_shift l : ∀ v, digits_from v l = v * 10 ^ Z.of_nat (length l) + digits_value l.
Proof.
  unfold digits_value. induction l as [|c l IH]; intros v; cbn [digits_from foldl length]; [rewrite Z.mul_1_r; lia|].
  fold (digits_from (v * 10 + digit_value c) l) (digits_from (0 * 10 + digit_value c) l).
  rewrite (IH (v * 10 + _)), (IH (0 * 10 + _)). rewrite Nat2Z.inj_succ, Z.pow_succ_r by lia. lia.
Qed.

Lemma digits_value_app l l' : digits_value (l ++ l') = digits_value l * 10 ^ Z.of_nat (length l') + digits_value l'.
Proof. unfold digits_value at 1, digits_from. rewrite foldl_app. fold (digits_value l). apply digits_from_shift. Qed.

Lemma digits_value_bounds l : all_digits l → 0 ≤ digits_value l < 10 ^ Z.of_nat (length l).
Proof.
  induction l as [|c l IH] using rev_ind; intros Hd; [done|].
  apply Forall_app in Hd as [Hl [Hc _]%Forall_cons]. apply is_digit_value in Hc. specialize (IH Hl).
  rewrite digits_value_app, length_app. change (digits_value [c]) with (0 * 10 + digit_value c).
  rewrite Nat2Z.inj_add, Z.pow_add_r by lia. change (10 ^ Z.of_nat (length [c])) with 10. lia.
Qed.

Lemma digits_from_mono v l : 0 ≤ v → all_digits l → v ≤ digits_from v l.
Proof.
  intros Hv Hl. rewrite digits_from_shift. pose proof (digits_value_bounds l Hl).
  assert (1 ≤ 10 ^ Z.of_nat (length l)) by (apply Z.pow_le_mono_r with (a := 10) (b := 0); lia). nia.
Qed.

Lemma all_digits_app l l' : all_digits (l ++ l') ↔ all_digits l ∧ all_digits l'.
Proof. apply Forall_app. Qed.

(** ** Whole numbers *)
Lemma parseWholeLoop_parses maximum field : 0 ≤ maximum ≤ UINT64_MAX → ∀ text value, 0 ≤ value ≤ maximum →
  parses (parseWholeLoop text maximum field value)
    (λ n, all_digits text ∧ n = digits_from value text ∧ n ≤ maximum).
Proof.
  intros Hmax. induction text as [|c text IH]; intros value Hv; cbn [parseWholeLoop].
  - split; [constructor|]. split; [done|]. apply Hv.
  - unfold throw_if. destruct (is_digit c) eqn:Hc; cbn [negb mbind outcome_bind].
    2:{ split; [by eexists|]. intros n ([Hd _]%Forall_cons & _). by rewrite Hc in Hd. }
    pose proof (is_digit_value c Hc) as Hdv.
    assert (Hstep : bool_decide (maximum / 10 < value) ||
      (bool_decide (value = maximum / 10) && bool_decide (maximum mod 10 < digit_value c)) =
      bool_decide (maximum < value * 10 + digit_value c)).
    { pose proof (Z.div_mod maximum 10 ltac:(lia)). pose proof (Z.mod_pos_bound maximum 10 ltac:(lia)).
      repeat case_bool_decide; simpl; try done; exfalso; lia. }
    rewrite Hstep. clear Hstep. case_bool_decide as Hover.
    + cbn [mbind outcome_bind]. split; [by eexists|]. intros n ([_ Hd]%Forall_cons & -> & Hle). cbn [digits_from foldl] in Hle.
      pose proof (digits_from_mono (value * 10 + digit_value c) text ltac:(lia) Hd) as Hm. unfold digits_from in Hm. lia.
    + cbn [mbind outcome_bind]. rewrite wrap64_small by (unfold is_u64; lia).
      specialize (IH (value * 10 + digit_value c) ltac:(lia)). unfold parses in *.
      destruct (parseWholeLoop _ _ _ _) as [n|e].
      * destruct IH as (Hd & -> & Hle). split_and!; [by constructor|done|done].
      * destruct IH as [Hr Hno]. split; [done|]. intros n ([_ Hd]%Forall_cons & Hn & Hle). by apply (Hno n).
Qed.

Lemma parseUnsignedWhole_parses text maximum field : 0 ≤ maximum ≤ UINT64_MAX →
  parses (parseUnsignedWhole text maximum field)
    (λ n, text ≠ [] ∧ all_digits text ∧ n = digits_value text ∧ n ≤ maximum).
Proof.
  intros Hmax. unfold parseUnsignedWhole, throw_if. case_bool_decide as Ht; cbn [mbind outcome_bind].
  { split; [by eexists|]. by intros n [? _]. }
  cbn [mbind outcome_bind]. pose proof (parseWholeLoop_parses maximum field Hmax text 0 ltac:(lia)) as Hp.
  unfold parses in *. destruct (parseWholeLoop _ _ _ _) as [n|e]; [naive_solver|].
  destruct Hp as [? Hno]. split; [done|]. intros n (_ & ? & ? & ?). by apply (Hno n).
Qed.

(** ** The decimal point *)
Lemma findDot_Some text p : findDot text = Some p →
  ∃ frac, text = take p text ++ dot :: frac ∧ drop (p + 1) text = frac ∧ dot ∉ take p text.
Proof.
  unfold findDot. intros ([i c] & Hf & ->)%fmap_Some. simpl. apply list_find_Some in Hf as (Hl & <- & Hbefore).
  exists (drop (i + 1) text). rewrite Nat.add_1_r. split_and!; [symmetry; by apply take_drop_middle|done|].
  intros Hin. apply list_elem_of_lookup in Hin as [j Hj]. apply lookup_take_Some in Hj as [Hj Hlt].
  by apply (Hbefore j dot).
Qed.

Lemma findDot_None text : findDot text = None ↔ dot ∉ text.
Proof.
  unfold findDot. rewrite fmap_None, list_find_None, Forall_forall. split.
  - intros Hf Hin. by apply (Hf dot).
  - intros Hn c Hc <-. done.
Qed.

Lemma dot_not_digit l : all_digits l → dot ∉ l.
Proof. intros Hl Hin. eapply Forall_forall in Hl; [|exact Hin]. done. Qed.

Lemma dot_split whole frac whole' frac' : dot ∉ whole → dot ∉ whole' →
  whole ++ dot :: frac = whole' ++ dot :: frac' → whole = whole' ∧ frac = frac'.
Proof.
  revert whole'. induction whole as [|c whole IH]; intros [|c' whole'] Hn Hn' Heq; simplify_eq/=; try done.
  - exfalso. apply Hn'. by left.
  - exfalso. apply Hn. by left.
  - destruct (IH whole') as [-> ->]; [|by intros ?; apply Hn'; right|done|done]. intros ?. apply Hn. by right.
Qed.

(** The split is the one a decimal has; a text without one is rejected, or one of
    its parts is not digits. *)
Lemma splitDecimal_cases text many empty :
  match splitDecimal text many empty with
  | Ret (whole, frac) => ∀ whole' frac', decimal text whole' frac' ↔
      (whole' = whole ∧ frac' = frac ∧ whole ≠ [] ∧ all_digits whole ∧ all_digits frac)
  | Throw e => is_rejection e ∧ ∀ whole' frac', ¬ decimal text whole' frac'
  end.
Proof.
  unfold splitDecimal, throw_if. destruct (findDot text) as [p|] eqn:Hdot.
  - apply findDot_Some in Hdot as (frac & Htext & Hfrac & Hnodot). rewrite Hfrac. set (whole := take p text) in *.
    assert (Huniq : ∀ whole' frac', decimal text whole' frac' → whole' = whole ∧ frac' = frac ∧ frac ≠ []).
    { intros whole' frac' (_ & Hw & Hf & [[<- ->]|[Ht Hne]]).
      - exfalso. apply (dot_not_digit text Hw). rewrite Htext. apply elem_of_app. right. by left.
      - rewrite Htext in Ht. apply dot_split in Ht as [-> ->]; [done|done|by apply dot_not_digit]. }
    rewrite (bool_decide_eq_true_2 (is_Some (Some p))) by done. cbn [andb].
    destruct (bool_decide_reflect (is_Some (findDot frac))) as [Hsecond|Hsecond]; cbn [mbind outcome_bind].
    { split; [by eexists|]. intros whole' frac' Hd. destruct (Huniq _ _ Hd) as (-> & -> & _).
      destruct Hd as (_ & _ & Hf & _). apply dot_not_digit, findDot_None in Hf. rewrite Hf in Hsecond. by destruct Hsecond. }
    cbn [mbind outcome_bind]. destruct (bool_decide_reflect (whole = [])) as [Hw|Hw]; cbn [orb mbind outcome_bind].
    { split; [by eexists|]. intros whole' frac' Hd. destruct (Huniq _ _ Hd) as (-> & _). by destruct Hd. }
    case_bool_decide as Hf; cbn [mbind outcome_bind].
    { split; [by eexists|]. intros whole' frac' Hd. by destruct (Huniq _ _ Hd) as (_ & _ & ?). }
    cbn [mbind outcome_bind]. intros whole' frac'. split.
    + intros Hd. destruct (Huniq _ _ Hd) as (-> & -> & _). destruct Hd as (? & ? & ? & _). by split_and!.
    + intros (-> & -> & ? & ? & ?). split_and!; try done. right. by split.
  - apply findDot_None in Hdot. rewrite (bool_decide_eq_false_2 (is_Some None)) by (by intros [? [=]]). cbn [andb mbind outcome_bind].
    rewrite orb_false_r. case_bool_decide as Hw; cbn [mbind outcome_bind].
    + split; [by eexists|]. subst. intros whole' frac' (Hne & _ & _ & [[<- _]|[Ht _]]); [done|by destruct whole'].
    + intros whole' frac'. split.
      * intros (? & ? & ? & [[-> ->]|[-> _]]); [by split_and!|]. exfalso. apply Hdot, elem_of_app. right. by left.
      * intros (-> & -> & ? & ? & ?). split_and!; try done. by left.
Qed.

(** ** Steps of a parser *)
Lemma parses_bind {A B} (o : outcome A) (f : A → outcome B) (P : A → Prop) (R : B → Prop) :
  parses o P → (∀ a, P a → parses (f a) R) → (∀ b, R b → ∃ a, P a) → parses (o ≫= f) R.
Proof.
  unfold parses. destruct o as [a|e]; intros Ho Hf Hr; [by apply Hf|]. destruct Ho as [He Hno]. split; [done|].
  intros b [a Ha]%Hr. by apply (Hno a).
Qed.

Lemma parses_check {B} (bad : bool) what (f : unit → outcome B) (R : B → Prop) :
  (bad = true → ∀ b, ¬ R b) → (bad = false → parses (f tt) R) →
  parses (throw_if bad (FixValidationError what) ≫= f) R.
Proof.
  intros Hbad Hf. destruct bad; cbn [throw_if mbind outcome_bind]; [|by apply Hf].
  split; [by eexists|]. by apply Hbad.
Qed.

Lemma parses_iff {A} (o : outcome A) (P R : A → Prop) : (∀ a, P a ↔ R a) → parses o P → parses o R.
Proof. unfold parses. intros Hiff. destruct o; [apply Hiff|]. intros [? Hno]. split; [done|]. intros a ?%Hiff. by apply (Hno a). Qed.

(** ** The fraction *)
Lemma retainDigits_parses text : ∀ v, 0 ≤ v → (v + 1) * 10 ^ Z.of_nat (length text) ≤ UINT64_MAX + 1 →
  parses (retainDigits text v) (λ n, all_digits text ∧ n = digits_from v text).
Proof.
  induction text as [|c text IH]; intros v Hv Hmax; cbn [retainDigits]; [split; [constructor|done]|].
  cbn [length] in Hmax. rewrite Nat2Z.inj_succ, Z.pow_succ_r in Hmax by lia.
  assert (1 ≤ 10 ^ Z.of_nat (length text)) by (apply Z.pow_le_mono_r with (a := 10) (b := 0); lia).
  apply parses_check.
  - intros Hc n ([Hd _]%Forall_cons & _). rewrite Hd in Hc. done.
  - intros Hc%negb_false_iff. pose proof (is_digit_value c Hc).
    rewrite (wrap64_small (v * 10)) by (unfold is_u64; nia).
    rewrite wrap64_small by (unfold is_u64; nia).
    refine (parses_iff _ _ _ _ (IH (v * 10 + digit_value c) ltac:(lia) ltac:(nia))).
    intros n. cbn [digits_from foldl]. split.
    + intros [? ->]. split; [by constructor|done].
    + by intros [[_ ?]%Forall_cons ->].
Qed.

Lemma padFraction_run count : ∀ v, 0 ≤ v → v * 10 ^ Z.of_nat count ≤ UINT64_MAX →
  padFraction count v = v * 10 ^ Z.of_nat count.
Proof.
  induction count as [|count IH]; intros v Hv Hmax; cbn [padFraction]; [rewrite Z.mul_1_r; lia|].
  rewrite Nat2Z.inj_succ, Z.pow_succ_r in * by lia.
  assert (1 ≤ 10 ^ Z.of_nat count) by (apply Z.pow_le_mono_r with (a := 10) (b := 0); lia).
  rewrite wrap64_small by (unfold is_u64; nia). rewrite IH by nia. lia.
Qed.

Lemma checkExtraDigits_parses text : parses (checkExtraDigits text) (λ _, Forall (eq zero_digit) text).
Proof.
  induction text as [|c text IH]; cbn [checkExtraDigits]; [constructor|].
  apply parses_check.
  - intros Hc _ [<- _]%Forall_cons. done.
  - intros _. apply parses_check.
    + intros Hc%bool_decide_eq_true _ [<- _]%Forall_cons. by apply Hc.
    + intros Hc%bool_decide_eq_false. apply (parses_iff _ (λ _, Forall (eq zero_digit) text)); [|exact IH]. intros _. rewrite Forall_cons.
      destruct (decide (c = zero_digit)); naive_solver.
Qed.

Lemma onlyZeros_parses text : parses (onlyZeros text) (λ _, Forall (eq zero_digit) text).
Proof.
  induction text as [|c text IH]; cbn [onlyZeros]; [constructor|]. apply parses_check.
  - intros Hc%bool_decide_eq_true _ [<- _]%Forall_cons. by apply Hc.
  - intros Hc%bool_decide_eq_false. apply (parses_iff _ (λ _, Forall (eq zero_digit) text)); [|exact IH]. intros _. rewrite Forall_cons.
    destruct (decide (c = zero_digit)); naive_solver.
Qed.

Lemma digits_value_zeros l : all_digits l → (digits_value l = 0 ↔ Forall (eq zero_digit) l).
Proof.
  induction l as [|c l IH] using rev_ind; intros Hd; [by split|].
  apply Forall_app in Hd as [Hl [Hc _]%Forall_cons]. pose proof (digits_value_bounds l Hl).
  rewrite digits_value_app, Forall_app, Forall_singleton, <-(IH Hl). change (digits_value [c]) with (0 * 10 + digit_value c).
  change (10 ^ Z.of_nat (length [c])) with 10. pose proof (is_digit_value c Hc). split.
  - intros Hz. split; [lia|]. assert (Hv : digit_value c = 0) by lia. unfold digit_value in Hv.
    rewrite <-(Ascii.ascii_nat_embedding c), <-(Ascii.ascii_nat_embedding zero_digit). f_equal.
    change (Ascii.nat_of_ascii zero_digit) with 48%nat. lia.
  - intros [-> <-]. done.
Qed.

Lemma zeros_digits l : Forall (eq zero_digit) l → all_digits l.
Proof. intros Hl. eapply Forall_impl; [exact Hl|]. by intros c <-. Qed.

Lemma powerOfTenLoop_run count : ∀ v, 1 ≤ v → v * 10 ^ Z.of_nat count ≤ UINT64_MAX →
  powerOfTenLoop count v = Ret (v * 10 ^ Z.of_nat count).
Proof.
  induction count as [|count IH]; intros v Hv Hmax; cbn [powerOfTenLoop]; [f_equal; lia|].
  rewrite Nat2Z.inj_succ, Z.pow_succ_r in * by lia.
  assert (1 ≤ 10 ^ Z.of_nat count) by (apply Z.pow_le_mono_r with (a := 10) (b := 0); lia).
  unfold throw_if. rewrite bool_decide_eq_false_2; cbn [mbind outcome_bind].
  - rewrite wrap64_small by (unfold is_u64; nia). rewrite IH by nia. f_equal. lia.
  - assert (v * 10 ≤ UINT64_MAX) by nia. pose proof (Z.div_le_lower_bound UINT64_MAX 10 v). lia.
Qed.

Lemma powerOfTen_run n : 0 ≤ n → 10 ^ n ≤ UINT64_MAX → powerOfTen n = Ret (10 ^ n).
Proof.
  intros Hn Hmax. unfold powerOfTen. rewrite powerOfTenLoop_run; rewrite ?Z2Nat.id by done; [f_equal; lia|lia|lia].
Qed.

(** The exact value of a decimal against a scale: the digits the scale keeps give
    the number, and the others are zeros. *)
Lemma scaled_value whole frac scale n : all_digits frac → 0 ≤ scale →
  let kept := Nat.min (length frac) (Z.to_nat scale) in
  digits_value (whole ++ frac) * 10 ^ scale = n * 10 ^ Z.of_nat (length frac) ↔
  Forall (eq zero_digit) (drop kept frac) ∧
  n = digits_value whole * 10 ^ scale + digits_value (take kept frac) * 10 ^ (scale - Z.of_nat kept).
Proof.
  intros Hd Hs kept. set (extra := drop kept frac).
  assert (Hfrac : frac = take kept frac ++ extra) by (symmetry; apply take_drop).
  assert (Hextra : all_digits extra) by (rewrite Hfrac in Hd; by apply Forall_app in Hd as [_ ?]).
  rewrite <-(digits_value_zeros extra Hextra). pose proof (digits_value_bounds extra Hextra) as Hb.
  rewrite digits_value_app. rewrite Hfrac at 2. rewrite (digits_value_app (take kept frac)).
  assert (Hlen : length extra = (length frac - kept)%nat) by apply length_drop. rewrite Hlen in *.
  set (W := digits_value whole). set (K := digits_value (take kept frac)). set (X := digits_value extra) in *.
  destruct (decide (length frac ≤ Z.to_nat scale)%nat) as [Hle|Hgt].
  - replace (length frac - kept)%nat with 0%nat in * by lia. change (10 ^ Z.of_nat 0) with 1 in *.
    assert (X = 0) as -> by lia. replace kept with (length frac) by lia.
    replace (10 ^ scale) with (10 ^ (scale - Z.of_nat (length frac)) * 10 ^ Z.of_nat (length frac))
      by (rewrite <-Z.pow_add_r by lia; f_equal; lia).
    set (A := 10 ^ (scale - Z.of_nat (length frac))). set (B := 10 ^ Z.of_nat (length frac)) in *.
    assert (0 < B) by (apply Z.pow_pos_nonneg; lia). split; [intros Heq; split; [done|]|intros [_ ->]; lia].
    apply (Z.mul_reg_r _ _ B); lia.
  - replace (scale - Z.of_nat kept) with 0 by lia. change (10 ^ 0) with 1.
    replace (10 ^ Z.of_nat (length frac)) with (10 ^ scale * 10 ^ Z.of_nat (length frac - kept))
      by (rewrite <-Z.pow_add_r by lia; f_equal; lia).
    set (A := 10 ^ scale). set (B := 10 ^ Z.of_nat (length frac - kept)) in *.
    assert (0 < A) by (apply Z.pow_pos_nonneg; lia). split.
    + intros Heq. assert (Heq' : W * A * B + K * B + X = n * B) by (apply (Z.mul_reg_r _ _ A); lia).
      assert (n = W * A + K) as -> by nia. split; lia.
    + intros [-> ->]. lia.
Qed.
