(* ===== verification/FixParserTheorems.v ===== *)
(** * Properties of FIX normalization

    Prices and quantities are parsed exactly or rejected; a normalized command is
    one the rest of the exchange accepts; and a bad message is a rejection, never
    an internal failure. *)
From S2P Require Import Prelude Domain FixParser Queues Admission.
From S2P Require Import Posix JournalAppend SequencerCycle.

(** A configuration whose numbers fit the machine. *)
Record config_ok (configuration : InstrumentConfiguration) : Prop := {
  co_tick : 0 < Instrument.tickSizeMantissa configuration;
  co_price : 0 ≤ Instrument.maxPrice configuration ∧
    Instrument.maxPrice configuration * Instrument.tickSizeMantissa configuration ≤ UINT64_MAX;
  co_scale : 0 ≤ Instrument.priceScale configuration ∧ 10 ^ Instrument.priceScale configuration ≤ UINT64_MAX;
  co_quantity : is_u64 (Instrument.maxOrderQuantity configuration);
  co_lot : 0 < Instrument.lotSize configuration }.

(** [text] is a decimal and its value is exactly [n / 10^scale]. *)
Definition exact_decimal (text : text_view) (n scale : Z) : Prop :=
  ∃ whole frac, decimal text whole frac ∧ digits_value (whole ++ frac) * 10 ^ scale = n * 10 ^ Z.of_nat (length frac).

Lemma parses_split {B} text many empty (f : text_view * text_view → outcome B) (R : B → Prop) :
  (∀ b, R b → ∃ whole frac, decimal text whole frac) →
  (∀ whole frac, (∀ whole' frac', decimal text whole' frac' ↔
      whole' = whole ∧ frac' = frac ∧ whole ≠ [] ∧ all_digits whole ∧ all_digits frac) → parses (f (whole, frac)) R) →
  parses (splitDecimal text many empty ≫= f) R.
Proof.
  intros Hr Hf. pose proof (splitDecimal_cases text many empty) as Hs.
  destruct (splitDecimal text many empty) as [[whole frac]|e]; [by apply Hf|].
  destruct Hs as [He Hno]. split; [done|]. intros b (whole & frac & Hd)%Hr. by apply (Hno whole frac).
Qed.

Section price.
Context (configuration : InstrumentConfiguration) (Hconfig : config_ok configuration).

Let tick := Instrument.tickSizeMantissa configuration.
Let scale := Instrument.priceScale configuration.
Let maximum := Instrument.maxPrice configuration * tick.

(** What the text must say for the price [p]. *)
Definition price_text (text : text_view) (p : Z) : Prop :=
  1 ≤ p ≤ Instrument.maxPrice configuration ∧ exact_decimal text (p * tick) scale.

(** The same by the parts of the text. *)
Definition price_parts (whole frac : text_view) (p : Z) : Prop :=
  let kept := Nat.min (length frac) (Z.to_nat scale) in
  1 ≤ p ≤ Instrument.maxPrice configuration ∧ whole ≠ [] ∧ all_digits whole ∧ all_digits (take kept frac) ∧
  Forall (eq zero_digit) (drop kept frac) ∧
  p * tick = digits_value whole * 10 ^ scale + digits_value (take kept frac) * 10 ^ (scale - Z.of_nat kept).

Lemma price_parts_text text whole frac p :
  (∀ whole' frac', decimal text whole' frac' ↔
      whole' = whole ∧ frac' = frac ∧ whole ≠ [] ∧ all_digits whole ∧ all_digits frac) →
  price_parts whole frac p ↔ price_text text p.
Proof.
  intros Hd. destruct (co_scale _ Hconfig) as [Hscale _]. unfold price_parts, price_text, exact_decimal.
  cbv zeta. set (kept := Nat.min (length frac) (Z.to_nat scale)). split.
  - intros (Hp & Hne & Hw & Hk & Hz & Hv). split; [done|].
    assert (Hf : all_digits frac).
    { rewrite <-(take_drop kept frac). apply all_digits_app. split; [done|by apply zeros_digits]. }
    exists whole, frac. split; [by apply Hd|]. apply scaled_value; auto.
  - intros (Hp & whole' & frac' & Hdec & Hv). apply Hd in Hdec as (-> & -> & Hne & Hw & Hf).
    apply scaled_value in Hv as [Hz Hv]; [|done|done].
    rewrite <-(take_drop kept frac) in Hf. apply all_digits_app in Hf as [? _]. split; [done|]. by split_and!.
Qed.

(** The checks on the assembled number. *)
Lemma price_range whole fractional : 0 ≤ whole ≤ maximum / 10 ^ scale → 0 ≤ fractional ≤ UINT64_MAX →
  parses (let scaledWhole := wrap64 (whole * 10 ^ scale) in
    throw_if (bool_decide (wrap64 (maximum - scaledWhole) < fractional)) (FixValidationError "Price is outside the configured range") ;;
    let scaledPrice := wrap64 (scaledWhole + fractional) in
    throw_if (bool_decide (scaledPrice = 0)) (FixValidationError "Price is outside the configured range") ;;
    throw_if (bool_decide (scaledPrice mod tick ≠ 0)) (FixValidationError "Price violates the configured tick size") ;;
    Ret (scaledPrice / tick))
  (λ p : Z, 1 ≤ p ≤ Instrument.maxPrice configuration ∧ p * tick = whole * 10 ^ scale + fractional).
Proof.
  intros Hw Hf. destruct (co_scale _ Hconfig) as [Hscale Hpow]. destruct (co_price _ Hconfig) as [Hmax Hmt].
  pose proof (co_tick _ Hconfig) as Ht. fold tick scale in Hscale, Hpow, Hmt, Ht. fold maximum in Hmt.
  assert (0 < 10 ^ scale) by (apply Z.pow_pos_nonneg; lia).
  assert (0 ≤ maximum) by (unfold maximum; nia).
  pose proof (Z.mul_div_le maximum (10 ^ scale) ltac:(done)).
  assert (0 ≤ whole * 10 ^ scale ≤ maximum) by nia.
  cbv zeta. rewrite (wrap64_small (whole * 10 ^ scale)) by (unfold is_u64; lia).
  rewrite (wrap64_small (maximum - _)) by (unfold is_u64; lia).
  apply parses_check.
  { intros Hover%bool_decide_eq_true q [Hq Heq]. unfold maximum in Hover. nia. }
  intros Hfit%bool_decide_eq_false. rewrite wrap64_small by (unfold is_u64; lia).
  set (n := whole * 10 ^ scale + fractional) in *. apply parses_check.
  { intros Hzero%bool_decide_eq_true q [Hq Heq]. nia. }
  intros Hnz%bool_decide_eq_false. pose proof (Z.div_mod n tick ltac:(lia)) as Hdm.
  apply parses_check.
  { intros Hr%bool_decide_eq_true q [Hq Heq]. apply Hr. rewrite <-Heq. apply Z.mod_mul. lia. }
  intros Hr%bool_decide_eq_false. assert (n mod tick = 0) as Hz by (destruct (decide (n mod tick = 0)); tauto).
  rewrite Hz in Hdm. cbn [parses]. assert (n ≤ maximum) by lia. unfold maximum in *. split; [|lia]. nia.
Qed.

Lemma parsePriceTicks_parses text : parses (parsePriceTicks text configuration) (price_text text).
Proof.
  destruct (co_scale _ Hconfig) as [Hscale Hpow]. destruct (co_price _ Hconfig) as [Hmax Hmt].
  pose proof (co_tick _ Hconfig) as Ht. fold tick scale in Hscale, Hpow, Hmt, Ht.
  assert (0 < 10 ^ scale) by (apply Z.pow_pos_nonneg; lia).
  unfold parsePriceTicks. apply parses_split.
  { intros p (_ & whole & frac & ? & _). eauto. }
  intros whole frac Hd. apply (parses_iff _ (price_parts whole frac)); [intros p; by apply price_parts_text|].
  cbn [fst snd]. fold tick scale. cbv zeta.
  assert (Instrument.maxPrice configuration ≤ UINT64_MAX / tick) by (apply Z.div_le_lower_bound; lia).
  rewrite (bool_decide_eq_false_2 (tick = 0)), (bool_decide_eq_false_2 (_ / _ < _)) by lia.
  cbn [orb throw_if]. rewrite outcome_bind_ret. fold maximum.
  rewrite (wrap64_small maximum) by (unfold is_u64, maximum; nia).
  rewrite (powerOfTen_run scale Hscale Hpow), outcome_bind_ret.
  set (kept := Nat.min (length frac) (Z.to_nat scale)) in *.
  assert (Hdiv : 0 ≤ maximum / 10 ^ scale ≤ UINT64_MAX).
  { split; [apply Z.div_pos; unfold maximum; nia|]. apply Z.div_le_upper_bound; [done|]. unfold maximum. nia. }
  eapply parses_bind; [by apply parseUnsignedWhole_parses| |].
  2:{ intros p (Hp & Hne & Hw & Hk & _ & Hv). exists (digits_value whole). split_and!; try done.
      pose proof (digits_value_bounds _ Hk) as Hb. apply Z.div_le_lower_bound; [done|]. unfold maximum.
      assert (0 ≤ 10 ^ (scale - Z.of_nat kept)) by (apply Z.pow_nonneg; done). cbv zeta in Hv. fold kept in Hv, Hb.
      assert (p * tick ≤ Instrument.maxPrice configuration * tick) by (apply Z.mul_le_mono_nonneg_r; lia).
      pose proof (Z.mul_nonneg_nonneg (digits_value (take kept frac)) (10 ^ (scale - Z.of_nat kept))). lia. }
  intros w (Hne & Hw & -> & Hle). cbv beta.
  eapply parses_bind; [apply retainDigits_parses; [done|]| |].
  { rewrite length_take. assert (10 ^ Z.of_nat (kept `min` length frac) ≤ 10 ^ scale) by (apply Z.pow_le_mono_r; lia). lia. }
  2:{ intros p (_ & _ & _ & Hk & _). by eexists. }
  intros r [Hk ->]. apply (parses_bind _ _ (λ _, Forall (eq zero_digit) (drop kept frac)));
    [apply checkExtraDigits_parses| |by intros p (_ & _ & _ & _ & Hz & _); exists tt].
  intros [] Hz. fold (digits_value (take kept frac)).
  pose proof (digits_value_bounds _ Hk) as Hb. rewrite length_take, Nat.min_l in Hb by lia.
  assert (Hpad : Z.of_nat (Z.to_nat scale - kept) = scale - Z.of_nat kept) by lia.
  assert (Hsum : 10 ^ scale = 10 ^ Z.of_nat kept * 10 ^ (scale - Z.of_nat kept))
    by (rewrite <-Z.pow_add_r by lia; f_equal; lia).
  assert (0 < 10 ^ (scale - Z.of_nat kept)) by (apply Z.pow_pos_nonneg; lia).
  rewrite padFraction_run, Hpad; [|lia|rewrite Hpad; nia].
  pose proof (digits_value_bounds _ Hw) as [? _].
  eapply parses_iff; [|apply price_range; [done|nia]]. intros p. unfold price_parts. cbv zeta. fold kept.
  split; [intros [? ?]; split; [done|]; by split_and!|intros (? & _ & _ & _ & _ & ?); by split].
Qed.
End price.

Lemma parseQuantityUnits_parses configuration text : config_ok configuration →
  parses (parseQuantityUnits text configuration)
    (λ q, 1 ≤ q ≤ Instrument.maxOrderQuantity configuration ∧ (Instrument.lotSize configuration | q) ∧
       exact_decimal text q 0).
Proof.
  intros Hconfig. pose proof (co_lot _ Hconfig) as Hlot. unfold parseQuantityUnits. apply parses_split.
  { intros q (_ & _ & whole & frac & ? & _). eauto. }
  intros whole frac Hd. cbn [fst snd].
  apply (parses_iff _ (λ q, (1 ≤ q ≤ Instrument.maxOrderQuantity configuration ∧ (Instrument.lotSize configuration | q)) ∧
    whole ≠ [] ∧ all_digits whole ∧ Forall (eq zero_digit) frac ∧ q = digits_value whole)).
  { intros q.
    assert (Hparts : (whole ≠ [] ∧ all_digits whole ∧ Forall (eq zero_digit) frac ∧ q = digits_value whole) ↔ exact_decimal text q 0);
      [|tauto].
    pose proof (scaled_value whole frac 0 q) as Hs. cbv zeta in Hs.
    rewrite Nat.min_0_r, drop_0, take_0 in Hs. change (digits_value []) with 0 in Hs.
    unfold exact_decimal. split.
    - intros (Hne & Hw & Hz & ->). pose proof (zeros_digits _ Hz). exists whole, frac. split; [by apply Hd|].
      apply Hs; [done|done|]. split; [done|lia].
    - intros (whole' & frac' & Hdec & Hv). apply Hd in Hdec as (-> & -> & ? & ? & ?).
      apply Hs in Hv as [? ->]; [|done|done]. split_and!; try done. lia. }
  apply (parses_bind _ _ (λ _, Forall (eq zero_digit) frac));
    [apply onlyZeros_parses| |by intros q (_ & _ & _ & Hz & _); exists tt].
  intros [] Hz. eapply parses_bind; [apply parseUnsignedWhole_parses, Hconfig| |].
  2:{ intros q ([? _] & ? & ? & _ & ->). exists (digits_value whole). split_and!; try done. lia. }
  intros q (Hne & Hw & -> & Hle). pose proof (digits_value_bounds _ Hw) as [? _].
  rewrite (bool_decide_eq_false_2 (Instrument.lotSize configuration = 0)) by lia. rewrite orb_false_r.
  apply parses_check.
  - intros Hbad q (([? _] & Hdiv) & _ & _ & _ & ->). apply orb_true_iff in Hbad as [Hbad%bool_decide_eq_true|Hbad%bool_decide_eq_true]; [lia|].
    apply Hbad, Z.mod_divide; [lia|done].
  - intros [Hz0%bool_decide_eq_false Hm%bool_decide_eq_false]%orb_false_iff. cbn [parses]. split_and!; try done; try lia.
    apply Z.mod_divide; [lia|]. destruct (decide (digits_value whole mod Instrument.lotSize configuration = 0)); tauto.
Qed.

(** ** A whole message *)

(** What a malformed message raises: a missing field, an invalid value, or a
    character field that is not one character. *)
Definition message_fault (e : exn) : Prop :=
  (∃ tag, e = field_not_found tag) ∨ is_rejection e ∨ e = incorrect_data_format.

Definition sound {A} (o : outcome A) (P : A → Prop) : Prop :=
  match o with Ret a => P a | Throw e => message_fault e end.

Lemma sound_bind {A B} (o : outcome A) (f : A → outcome B) (P : A → Prop) (R : B → Prop) :
  sound o P → (∀ a, P a → sound (f a) R) → sound (o ≫= f) R.
Proof. destruct o; cbn [mbind outcome_bind sound]; auto. Qed.

Lemma sound_weaken {A} (o : outcome A) (P R : A → Prop) : sound o P → (∀ a, P a → R a) → sound o R.
Proof. unfold sound. destruct o; auto. Qed.

Lemma parses_sound {A} (o : outcome A) (P : A → Prop) : parses o P → sound o P.
Proof. unfold parses, sound. destruct o; [done|]. intros [? _]. right. by left. Qed.

Lemma sound_check {B} (bad : bool) what (f : unit → outcome B) (R : B → Prop) :
  (bad = false → sound (f tt) R) → sound (throw_if bad (FixValidationError what) ≫= f) R.
Proof. destruct bad; cbn [throw_if mbind outcome_bind]; [|auto]. intros _. right. left. by eexists. Qed.

Lemma SPY_V1_ok : config_ok SPY_V1.
Proof. split; vm_compute; try (split; discriminate); done. Qed.

(** A resolver only knows nonzero identities. *)
Definition resolver_ok {SessionID} `{Countable SessionID} (resolver : ClientIdentityResolver SessionID) : Prop :=
  ∀ sessionId clientId, resolver !! sessionId = Some clientId → is_u64 clientId ∧ clientId ≠ 0.

Section message.
Context {F : Type} `{FixMessagesLaws F} {SessionID : Type} `{Countable SessionID}.
Implicit Types f : F.

Lemma required_sound (field : option string) tag : sound (required field tag) (λ text, field = Some text).
Proof. destruct field; [done|]. left. by eexists. Qed.

Lemma requiredChar_sound tag f : sound (requiredChar tag f) (λ c, bodyField tag f = Some (String c EmptyString)).
Proof.
  eapply sound_bind; [apply required_sound|]. intros text Ht. cbv beta.
  destruct (charFieldValue text) as [c|] eqn:Hc; [|right; by right]. apply charFieldValue_law in Hc. by subst.
Qed.

Lemma ascii_of_code c n : Ascii.nat_of_ascii c = n → c = Ascii.ascii_of_nat n.
Proof. intros <-. symmetry. apply Ascii.ascii_nat_embedding. Qed.

(** The fields of an order and of a cancel, as the message states them. *)
Definition order_content f (m : sequenceMessage) : Prop :=
  (Msg.type m = OrderType.BUY ∧ bodyField FIELD.SideField f = Some "1"%string ∨
   Msg.type m = OrderType.SELL ∧ bodyField FIELD.SideField f = Some "2"%string) ∧
  (Msg.tif m = TIF.GTC ∧ bodyField FIELD.TimeInForceField f = Some "1"%string ∨
   Msg.tif m = TIF.IOC ∧ bodyField FIELD.TimeInForceField f = Some "3"%string) ∧
  (∃ text, bodyField FIELD.PriceField f = Some text ∧ 1 ≤ Msg.price m ≤ Instrument.maxPrice SPY_V1 ∧
     exact_decimal (chars text) (Msg.price m) 4) ∧
  (∃ text, bodyField FIELD.OrderQty f = Some text ∧ 1 ≤ Msg.quantity m ≤ Instrument.maxOrderQuantity SPY_V1 ∧
     exact_decimal (chars text) (Msg.quantity m) 0) ∧
  Msg.targetOrderId m = None ∧ bodyField FIELD.ExpireTime f = None ∧ bodyField FIELD.OrdType f = Some "2"%string.

Definition cancel_content f (m : sequenceMessage) : Prop :=
  Msg.type m = OrderType.CANCEL ∧
  ∃ text, bodyField FIELD.OrderID f = Some text ∧ all_digits (chars text) ∧
    Msg.targetOrderId m = Some (digits_value (chars text)) ∧ 1 ≤ digits_value (chars text) ≤ UINT64_MAX.

Definition normalized f (clientId : ClientId) (m : sequenceMessage) : Prop :=
  Msg.clientId m = clientId ∧ bodyField FIELD.ClOrdID f = Msg.clientCommandId m ∧
  bodyField FIELD.Symbol f = Some (Msg.symbol m) ∧ Msg.instrumentId m = 1 ∧ Msg.configurationVersion m = 1 ∧
  Msg.globalSequenceNumber m = 0 ∧ typed_message m ∧
  ∃ key business, keyFrom m = Ret key ∧ businessCommandFrom m = Ret business.

Lemma extractSide_sound f : sound (extractSide f) (λ type,
  type = OrderType.BUY ∧ bodyField FIELD.SideField f = Some "1"%string ∨
  type = OrderType.SELL ∧ bodyField FIELD.SideField f = Some "2"%string).
Proof.
  eapply sound_bind; [apply requiredChar_sound|]. intros c Hc. cbv beta.
  case_bool_decide as Hb; [apply ascii_of_code in Hb as ->; left; by split|].
  case_bool_decide as Hs; [apply ascii_of_code in Hs as ->; right; by split|]. right. left. by eexists.
Qed.

Lemma validateNewOrderType_sound f :
  sound (validateNewOrderType f) (λ _, bodyField FIELD.OrdType f = Some "2"%string).
Proof.
  eapply sound_bind; [apply requiredChar_sound|]. intros c Hc. cbv beta. unfold throw_if.
  case_bool_decide as Hb; [right; left; by eexists|]. cbn [sound].
  destruct (decide (Ascii.nat_of_ascii c = 50%nat)) as [Hcode|]; [|tauto]. apply ascii_of_code in Hcode as ->. done.
Qed.

Lemma extractTimeInForce_sound f : sound (extractTimeInForce f) (λ tif,
  tif = TIF.GTC ∧ bodyField FIELD.TimeInForceField f = Some "1"%string ∨
  tif = TIF.IOC ∧ bodyField FIELD.TimeInForceField f = Some "3"%string).
Proof.
  eapply sound_bind; [apply requiredChar_sound|]. intros c Hc. cbv beta zeta. apply sound_check.
  intros Hb. cbn [sound]. destruct c as [[] [] [] [] [] [] [] []]; vm_compute in Hb; try discriminate Hb; auto.
Qed.

Lemma extractClientCommandId_sound f :
  sound (extractClientCommandId f) (λ c, bodyField FIELD.ClOrdID f = Some c ∧ valid_ClientCommandId c).
Proof.
  eapply sound_bind; [apply required_sound|]. intros text Ht. cbv beta.
  destruct (makeClientCommandId text) as [c|e] eqn:Hc.
  - apply makeClientCommandId_valid in Hc as [-> Hv]. by split.
  - unfold makeClientCommandId, throw_if in Hc. repeat case_match; simplify_eq/=; right; left; by eexists.
Qed.

Lemma extractTargetOrderId_sound f : sound (extractTargetOrderId f) (λ target,
  ∃ text, bodyField FIELD.OrderID f = Some text ∧ all_digits (chars text) ∧
    target = digits_value (chars text) ∧ 1 ≤ target ≤ UINT64_MAX).
Proof.
  eapply sound_bind; [apply required_sound|]. intros text Ht. cbv beta.
  eapply sound_bind; [apply parses_sound, parseUnsignedWhole_parses; unfold UINT64_MAX; lia|].
  intros n (_ & Hd & -> & Hle). apply sound_check. intros Hz%bool_decide_eq_false. cbn [sound].
  pose proof (digits_value_bounds _ Hd). exists text. split_and!; try done; lia.
Qed.

Lemma findBySymbol_Some symbol configuration : findBySymbol symbol = Some configuration →
  symbol = "SPY"%string ∧ configuration = SPY_V1.
Proof. unfold findBySymbol. case_bool_decide; [|done]. by intros [= <-]. Qed.

Lemma order_sound f clientId clientCommandId type : is_u64 clientId → clientId ≠ 0 →
  valid_ClientCommandId clientCommandId → bodyField FIELD.ClOrdID f = Some clientCommandId →
  bodyField FIELD.Symbol f = Some "SPY"%string → bodyField FIELD.OrdType f = Some "2"%string →
  (type = OrderType.BUY ∧ bodyField FIELD.SideField f = Some "1"%string ∨
   type = OrderType.SELL ∧ bodyField FIELD.SideField f = Some "2"%string) →
  ∀ quantity price,
  (∃ text, bodyField FIELD.OrderQty f = Some text ∧ 1 ≤ quantity ≤ Instrument.maxOrderQuantity SPY_V1 ∧
     exact_decimal (chars text) quantity 0) →
  (∃ text, bodyField FIELD.PriceField f = Some text ∧ 1 ≤ price ≤ Instrument.maxPrice SPY_V1 ∧
     exact_decimal (chars text) price 4) →
  sound (tif ← extractTimeInForce f; expiry ← validateExpiry f;
         Ret (Msg.mkSequenceMessage 0 None 0 clientId (Some clientCommandId) 1 1 price quantity "SPY" type expiry 0 tif))
    (λ m, normalized f clientId m ∧ order_content f m).
Proof.
  intros Hu Hnz Hcc Hcl Hsym Hot Hside quantity price Hq Hp.
  eapply sound_bind; [apply extractTimeInForce_sound|]. intros tif Htif. cbv beta. unfold validateExpiry.
  destruct (bodyField FIELD.ExpireTime f) as [expire|] eqn:Hexp.
  { rewrite bool_decide_eq_true_2 by done. right. left. by eexists. }
  rewrite (bool_decide_eq_false_2 (is_Some None)) by (by intros [? [=]]). cbn [throw_if mbind outcome_bind sound].
  pose proof Hq as (_ & _ & Hqr & _). pose proof Hp as (_ & _ & Hpr & _). cbn in Hqr, Hpr. split.
  - unfold normalized. cbn. split_and!; try done.
    + split; unfold is_u64, UINT64_MAX in *; cbn; try lia; [done|]. by intros c [= <-].
    + destruct Hside as [[-> _]|[-> _]]; (eexists _, _; split;
        [unfold keyFrom; cbn; rewrite bool_decide_eq_false_2 by done; reflexivity|];
        unfold businessCommandFrom; cbn;
        rewrite (bool_decide_eq_false_2 (price = 0)), (bool_decide_eq_false_2 (quantity = 0)) by lia; reflexivity).
  - unfold order_content. cbn. by split_and!.
Qed.

Lemma cancel_sound f clientId clientCommandId : is_u64 clientId → clientId ≠ 0 →
  valid_ClientCommandId clientCommandId → bodyField FIELD.ClOrdID f = Some clientCommandId →
  bodyField FIELD.Symbol f = Some "SPY"%string →
  sound (target ← extractTargetOrderId f;
         Ret (Msg.mkSequenceMessage 0 (Some target) 0 clientId (Some clientCommandId) 1 1 0 0 "SPY" OrderType.CANCEL
                (Msg.expiry emptyMessage) 0 (Msg.tif emptyMessage)))
    (λ m, normalized f clientId m ∧ cancel_content f m).
Proof.
  intros Hu Hnz Hcc Hcl Hsym. eapply sound_bind; [apply extractTargetOrderId_sound|].
  intros target (text & Htext & Hd & -> & Hrange). cbn [sound]. split.
  - unfold normalized. cbn. split_and!; try done.
    + split; unfold is_u64, UINT64_MAX in *; cbn; try lia; [intros t [= <-]; lia|by intros c [= <-]].
    + eexists _, _. split.
      * unfold keyFrom. cbn. rewrite bool_decide_eq_false_2 by done. reflexivity.
      * unfold businessCommandFrom. cbn. rewrite (bool_decide_eq_false_2 (digits_value _ = 0)) by lia. reflexivity.
  - split; [done|]. exists text. split_and!; try done; lia.
Qed.

Lemma parseFixMessage_sound f sessionID (resolver : ClientIdentityResolver SessionID) msgType : resolver_ok resolver →
  headerField FIELD.MsgType f = Some msgType → isProcessableMessageType msgType = true →
  sound (parseFixMessage f sessionID resolver) (λ m, ∃ clientId, resolver !! sessionID = Some clientId ∧
    normalized f clientId m ∧ if bool_decide (msgType = "F"%string) then cancel_content f m else order_content f m).
Proof.
  intros Hres Hheader Htype. unfold parseFixMessage. rewrite Hheader. cbn [required mbind outcome_bind].
  unfold resolve. destruct (resolver !! sessionID) as [clientId|] eqn:Hclient; [|right; left; by eexists].
  destruct (Hres _ _ Hclient) as [Hu Hnz].
  apply (sound_weaken _ (λ m, normalized f clientId m ∧
    if bool_decide (msgType = "F"%string) then cancel_content f m else order_content f m)); [|eauto].
  unfold messageType. destruct (bool_decide_reflect (msgType = "F"%string)) as [->|Hnf].
  - rewrite outcome_bind_ret. eapply sound_bind; [apply required_sound|]. intros symbol Hsym. cbv beta.
    destruct (findBySymbol symbol) as [configuration|] eqn:Hcfg; [|right; left; by eexists].
    apply findBySymbol_Some in Hcfg as [-> ->]. rewrite (bool_decide_eq_true_2 (OrderType.CANCEL = _)) by done.
    cbv zeta. rewrite !outcome_bind_ret. eapply sound_bind; [apply extractClientCommandId_sound|].
    intros cc [Hcl Hcc]. by apply (cancel_sound f clientId cc).
  - assert (msgType = "D"%string) as ->.
    { unfold isProcessableMessageType in Htype. apply orb_true_iff in Htype as [?%bool_decide_eq_true|?%bool_decide_eq_true]; done. }
    rewrite (bool_decide_eq_true_2 ("D"%string = _)) by done.
    eapply sound_bind; [eapply sound_bind; [apply validateNewOrderType_sound|]|].
    { intros [] Hot. eapply sound_weaken; [apply extractSide_sound|]. intros type Hside. exact (conj Hot Hside). }
    intros type [Hot Hside]. cbv beta.
    eapply sound_bind; [apply required_sound|]. intros symbol Hsym. cbv beta.
    destruct (findBySymbol symbol) as [configuration|] eqn:Hcfg; [|right; left; by eexists].
    apply findBySymbol_Some in Hcfg as [-> ->].
    rewrite (bool_decide_eq_false_2 (type = _)) by (by destruct Hside as [[-> _]|[-> _]]). cbv zeta.
    eapply sound_bind; [eapply sound_bind; [apply required_sound|]|].
    { intros text Ht. cbv beta. eapply sound_weaken; [apply parses_sound, parseQuantityUnits_parses, SPY_V1_ok|].
      intros q (Hq & _ & Hx). exact (ex_intro _ text (conj Ht (conj Hq Hx))). }
    intros quantity Hq. cbv beta.
    eapply sound_bind; [eapply sound_bind; [apply required_sound|]|].
    { intros text Ht. cbv beta. eapply sound_weaken; [apply parses_sound, parsePriceTicks_parses, SPY_V1_ok|].
      intros p (Hp & Hx). change (Instrument.tickSizeMantissa SPY_V1) with 1 in Hx. rewrite Z.mul_1_r in Hx.
      exact (ex_intro _ text (conj Ht (conj Hp Hx))). }
    intros price Hp. cbv beta. eapply sound_bind; [apply extractClientCommandId_sound|].
    intros cc [Hcl Hcc]. by apply (order_sound f clientId cc type).
Qed.
End message.

(** ** Exactness *)
Lemma decimal_unique text whole frac whole' frac' :
  decimal text whole frac → decimal text whole' frac' → whole' = whole ∧ frac' = frac.
Proof.
  intros Hd Hd'. pose proof (splitDecimal_cases text "" "") as Hs.
  destruct (splitDecimal text "" "") as [[w f]|e]; [|by destruct Hs as [_ Hno]; destruct (Hno _ _ Hd)].
  apply Hs in Hd as (-> & -> & _). by apply Hs in Hd' as (-> & -> & _).
Qed.

Lemma exact_decimal_unique text scale n n' : exact_decimal text n scale → exact_decimal text n' scale → n = n'.
Proof.
  intros (whole & frac & Hd & Hn) (whole' & frac' & Hd' & Hn').
  destruct (decimal_unique _ _ _ _ _ Hd Hd') as [-> ->]. rewrite Hn in Hn'.
  assert (0 < 10 ^ Z.of_nat (length frac)) by (apply Z.pow_pos_nonneg; lia).
  by apply Z.mul_reg_r in Hn'; [|lia].
Qed.

Lemma parses_iff_ret {A} (o : outcome A) (P : A → Prop) a :
  parses o P → (∀ b, P a → P b → a = b) → o = Ret a ↔ P a.
Proof.
  unfold parses. intros Ho Huniq. destruct o as [b|e].
  - split; [by intros [= ->]|]. intros Ha. by rewrite (Huniq b Ha Ho).
  - split; [done|]. intros Ha. destruct Ho as [_ Hno]. by destruct (Hno a Ha).
Qed.

(** ** The properties *)

(** C30: exact prices and quantities.  For a configuration whose numbers fit the
    machine, a price text is accepted as [p] ticks exactly when it is a decimal
    whose value is [p] ticks, with no rounding, and [p] is between one and the
    maximum; a quantity text as [q] exactly when it is a decimal of value [q], a
    multiple of the lot between one and the maximum; every other text is
    rejected as invalid, never as an internal error. *)
Theorem decimals_are_exact configuration text : config_ok configuration →
  (∀ p, parsePriceTicks text configuration = Ret p ↔
     1 ≤ p ≤ Instrument.maxPrice configuration ∧
     exact_decimal text (p * Instrument.tickSizeMantissa configuration) (Instrument.priceScale configuration)) ∧
  (∀ q, parseQuantityUnits text configuration = Ret q ↔
     1 ≤ q ≤ Instrument.maxOrderQuantity configuration ∧ (Instrument.lotSize configuration | q) ∧ exact_decimal text q 0) ∧
  (∀ e, parsePriceTicks text configuration = Throw e ∨ parseQuantityUnits text configuration = Throw e → is_rejection e).
Proof.
  intros Hconfig. pose proof (parsePriceTicks_parses configuration Hconfig text) as Hprice.
  pose proof (parseQuantityUnits_parses configuration text Hconfig) as Hquantity. split_and!.
  - intros p. refine (parses_iff_ret _ _ p Hprice _). intros p' [_ Hx] [_ Hx'].
    pose proof (exact_decimal_unique _ _ _ _ Hx Hx') as Heq. pose proof (co_tick _ Hconfig).
    by apply Z.mul_reg_r in Heq; [|lia].
  - intros q. refine (parses_iff_ret _ _ q Hquantity _). intros q' (_ & _ & Hx) (_ & _ & Hx').
    exact (exact_decimal_unique _ _ _ _ Hx Hx').
  - intros e [He|He]; [rewrite He in Hprice; apply Hprice|rewrite He in Hquantity; apply Hquantity].
Qed.

(** C31: a normalized message is a command the exchange can process.  For a
    message of a processed type, normalization gives a command of the session's
    client that states the message's own fields, exactly, with a price, quantity
    and time in force the engine accepts, that admission and the journal's encoder
    take without an exception; or it fails with a missing field, a rejected value
    or an ill-formed character field, and with nothing else. *)
Theorem normalized_commands_are_processable {F} `{FixMessagesLaws F} {SessionID} `{Countable SessionID}
    (f : F) (sessionID : SessionID) resolver msgType : resolver_ok resolver →
  headerField FIELD.MsgType f = Some msgType → isProcessableMessageType msgType = true →
  match parseFixMessage f sessionID resolver with
  | Ret m => ∃ clientId, resolver !! sessionID = Some clientId ∧ normalized f clientId m ∧
      if bool_decide (msgType = "F"%string) then cancel_content f m else order_content f m
  | Throw e => message_fault e
  end.
Proof. apply parseFixMessage_sound. Qed.

(** ** Witnesses *)

(** Messages as their fields by tag. *)
Record FieldMap := mkFieldMap { headerFields : gmap Z string; bodyFields : gmap Z string }.

#[export] Instance FieldMap_messages : FixMessages FieldMap := {
  headerField tag f := headerFields f !! tag;
  bodyField tag f := bodyFields f !! tag;
  charFieldValue text := match text with String c EmptyString => Some c | _ => None end }.

#[export] Instance FieldMap_laws : FixMessagesLaws FieldMap.
Proof. split. intros [|c [|c' text]] d; cbn; naive_solver. Qed.

Definition demoFixOrder : FieldMap := mkFieldMap {[ 35 := "D"%string ]}
  (list_to_map [(11, "order-1"); (38, "7.0"); (40, "2"); (44, "123.45"); (54, "1"); (55, "SPY"); (59, "1")]%string).

Definition demoResolver : ClientIdentityResolver nat := {[ 0%nat := 42 ]}.

Lemma demoResolver_ok : resolver_ok demoResolver.
Proof.
  intros s c Hs. change (({[0%nat := 42]} : gmap nat Z) !! s = Some c) in Hs. apply lookup_singleton_Some in Hs as [_ <-].
  split; [|done]. split; vm_compute; discriminate.
Qed.

Lemma decimals_are_exact_witness :
  (1 ≤ 1234500 ≤ Instrument.maxPrice SPY_V1 ∧ exact_decimal (chars "123.45") 1234500 4) ∧
  parsePriceTicks (chars "123.45001") SPY_V1 ≠ Ret 1234500.
Proof.
  split; [|by vm_compute].
  apply (proj1 (decimals_are_exact SPY_V1 (chars "123.45") SPY_V1_ok) 1234500). vm_compute. reflexivity.
Defined.

Lemma normalized_commands_are_processable_witness :
  match parseFixMessage demoFixOrder 0%nat demoResolver with
  | Ret m => ∃ clientId, demoResolver !! 0%nat = Some clientId ∧ normalized demoFixOrder clientId m ∧
      order_content demoFixOrder m
  | Throw e => message_fault e
  end.
Proof.
  apply (normalized_commands_are_processable demoFixOrder 0%nat demoResolver "D"%string).
  - exact demoResolver_ok.
  - reflexivity.
  - reflexivity.
Defined.
