(* ===== verification/FixTask.v ===== *)
(** * The FIX gateway

    [src/core/fix/include/fix_task.hpp] and [src/core/fix/src/fix_task.cpp]: QuickFIX
    session threads normalize and stage commands; the gateway's worker moves staged
    commands to the sequencing ingress and drains its bus cursor.  Console output
    and the empty session callbacks are left out. *)
From S2P Require Import Prelude Domain Projection Queues Admission AdmissionTheorems SequencerCycle Bus.
From S2P Require Import FixParser FixParserTheorems.

Record FixTask (Q : Type) := mkFixTask {
  ingressQueue_ : Q;
  stagingQueue_ : Q;
  pendingStagedCommand_ : option sequenceMessage;
  gatewayBus : Bus * gmap nat Z;
  commandAdmissionIndex : CommandAdmissionIndex;
  normalizationRejections_ : Z;
  internalFailures_ : Z;
  stagingQueueSaturations_ : Z;
  gatewayCursor : nat }.
Arguments mkFixTask {_} _ _ _ _ _ _ _ _ _.
Arguments ingressQueue_ {_} _.
Arguments stagingQueue_ {_} _.
Arguments pendingStagedCommand_ {_} _.
Arguments gatewayBus {_} _.
Arguments commandAdmissionIndex {_} _.
Arguments normalizationRejections_ {_} _.
Arguments internalFailures_ {_} _.
Arguments stagingQueueSaturations_ {_} _.
Arguments gatewayCursor {_} _.

(** A snapshot of the gateway's counters. *)
Record FixTaskStatistics := mkFixTaskStatistics {
  normalizationRejections : Z;
  internalFailures : Z;
  stagingQueueSaturations : Z }.
#[export] Instance FixTaskStatistics_eq_dec : EqDecision FixTaskStatistics.
Proof. solve_decision. Defined.

Definition EXT_BURST_MESSAGES : nat := 64.
Definition INT_BURST_MESSAGES : nat := 32.

Section gateway.
Context {F : Type} `{FixMessages F} {SessionID : Type} `{Countable SessionID}.
Context {Q : Type} `{SharedQueue sequenceMessage Q}.

Abbreviation Gateway := (FixTask Q) (only parsing).

(** The constructor registers the task's cursor, which it creates at zero. *)
Definition newFixTask (ingress staging : Q) (bus : Bus * gmap nat Z) (index : CommandAdmissionIndex) (cursor : nat)
    : outcome Gateway :=
  let '(result, bus') := registerCursor cursor (bus.1, <[cursor := 0]> bus.2) in
  _ ← result;
  Ret (mkFixTask ingress staging None bus' index 0 0 0 cursor).

(** ** Observers *)
Definition stagingQueueEmpty (t : Gateway) : bool := sharedEmpty (stagingQueue_ t).
Definition hasPendingStagedCommand (t : Gateway) : bool := bool_decide (pendingStagedCommand_ t ≠ None).
Definition pendingStagedCommand (t : Gateway) : option sequenceMessage := pendingStagedCommand_ t.
Definition gatewayStatistics (t : Gateway) : FixTaskStatistics :=
  mkFixTaskStatistics (normalizationRejections_ t) (internalFailures_ t) (stagingQueueSaturations_ t).

(** ** Updates *)
Definition countNormalizationRejection (t : Gateway) : Gateway :=
  mkFixTask (ingressQueue_ t) (stagingQueue_ t) (pendingStagedCommand_ t) (gatewayBus t) (commandAdmissionIndex t)
    (wrap64 (normalizationRejections_ t + 1)) (internalFailures_ t) (stagingQueueSaturations_ t) (gatewayCursor t).
Definition countInternalFailure (t : Gateway) : Gateway :=
  mkFixTask (ingressQueue_ t) (stagingQueue_ t) (pendingStagedCommand_ t) (gatewayBus t) (commandAdmissionIndex t)
    (normalizationRejections_ t) (wrap64 (internalFailures_ t + 1)) (stagingQueueSaturations_ t) (gatewayCursor t).
Definition countSaturation (t : Gateway) : Gateway :=
  mkFixTask (ingressQueue_ t) (stagingQueue_ t) (pendingStagedCommand_ t) (gatewayBus t) (commandAdmissionIndex t)
    (normalizationRejections_ t) (internalFailures_ t) (wrap64 (stagingQueueSaturations_ t + 1)) (gatewayCursor t).
Definition setStaging (index : CommandAdmissionIndex) (staging : Q) (t : Gateway) : Gateway :=
  mkFixTask (ingressQueue_ t) staging (pendingStagedCommand_ t) (gatewayBus t) index
    (normalizationRejections_ t) (internalFailures_ t) (stagingQueueSaturations_ t) (gatewayCursor t).
Definition setForward (ingress staging : Q) (pending : option sequenceMessage) (t : Gateway) : Gateway :=
  mkFixTask ingress staging pending (gatewayBus t) (commandAdmissionIndex t)
    (normalizationRejections_ t) (internalFailures_ t) (stagingQueueSaturations_ t) (gatewayCursor t).
Definition setGatewayBus (bus : Bus * gmap nat Z) (t : Gateway) : Gateway :=
  mkFixTask (ingressQueue_ t) (stagingQueue_ t) (pendingStagedCommand_ t) bus (commandAdmissionIndex t)
    (normalizationRejections_ t) (internalFailures_ t) (stagingQueueSaturations_ t) (gatewayCursor t).

(** ** Receiving *)

(** The first [try] of [fromApp]: [None] when the message type is not processed. *)
Definition normalize (message : F) (sessionID : SessionID) (resolver : ClientIdentityResolver SessionID)
    : outcome (option sequenceMessage) :=
  msgType ← required (headerField FIELD.MsgType message) FIELD.MsgType;
  if negb (isProcessableMessageType msgType) then Ret None
  else command ← parseFixMessage message sessionID resolver; Ret (Some command).

(** The [catch] clauses of the first [try]. *)
Definition countNormalizationError (e : exn) (t : Gateway) : Gateway :=
  match e with
  | field_not_found _ | runtime_error _ => countNormalizationRejection t
  | _ => countInternalFailure t
  end.

(** [fromApp] is [noexcept]: every exception ends as a count. *)
Definition fromApp (message : F) (sessionID : SessionID) (resolver : ClientIdentityResolver SessionID) (t : Gateway)
    : Gateway :=
  match normalize message sessionID resolver with
  | Throw e => countNormalizationError e t
  | Ret None => t
  | Ret (Some normalized) =>
      let '(result, (index, staging)) := reserveAndStage normalized (commandAdmissionIndex t, stagingQueue_ t) in
      let t := setStaging index staging t in
      match result with
      | Throw _ => countInternalFailure t
      | Ret decision =>
          if bool_decide (rejectionReason decision = Some GATEWAY_BUSY) then countSaturation t else t
      end
  end.

(** ** The worker *)
Definition processNextStagedCommand (t : Gateway) : bool * Gateway :=
  let '(ready, t) :=
    match pendingStagedCommand_ t with
    | Some _ => (true, t)
    | None =>
        match sharedPop (stagingQueue_ t) with
        | (None, staging) => (false, setForward (ingressQueue_ t) staging None t)
        | (Some command, staging) => (true, setForward (ingressQueue_ t) staging (Some command) t)
        end
    end in
  match pendingStagedCommand_ t with
  | Some command =>
      if (ready : bool) then
        let '(pushed, ingress) := sharedPush command (ingressQueue_ t) in
        (pushed, setForward ingress (stagingQueue_ t) (if (pushed : bool) then None else Some command) t)
      else (false, t)
  | None => (false, t)
  end.

(** The two bursts of one iteration of [run]. *)
Fixpoint forwardBurst (count : nat) (progressed : bool) (t : Gateway) : bool * Gateway :=
  match count with
  | O => (progressed, t)
  | Datatypes.S count' =>
      let '(forwarded, t) := processNextStagedCommand t in
      if (forwarded : bool) then forwardBurst count' true t else (progressed, t)
  end.

Fixpoint readBurst (count : nat) (progressed : bool) : M Gateway bool := λ t,
  match count with
  | O => (Ret progressed, t)
  | Datatypes.S count' =>
      let '(result, bus) := read (gatewayCursor t) (gatewayBus t) in
      let t := setGatewayBus bus t in
      match result with
      | Throw e => (Throw e, t)
      | Ret None => (Ret progressed, t)
      | Ret (Some _) => readBurst count' true t
      end
  end.

(** One iteration of [run], up to the idling. *)
Definition runIteration : M Gateway bool := λ t,
  let '(progressed, t) := forwardBurst EXT_BURST_MESSAGES false t in
  readBurst INT_BURST_MESSAGES progressed t.
End gateway.

(** * Properties of the FIX gateway

    What it admits reaches the sequencing ingress once and in order, whatever the
    timing, and everything it admits is a well-formed command. *)

Section gateway.
Context {F : Type} `{FixMessagesLaws F} {SessionID : Type} `{Countable SessionID}.
Context {Q : Type} `{SharedQueueLaws sequenceMessage Q}.
Context (resolver : ClientIdentityResolver SessionID) (Hresolver : resolver_ok resolver).
Implicit Types t : FixTask Q.

(** A command the sequencer and the journal can take. *)
Definition well_formed (m : sequenceMessage) : Prop :=
  typed_message m ∧ ∃ key business, keyFrom m = Ret key ∧ businessCommandFrom m = Ret business.

(** The command a message adds to the staging queue. *)
Definition admitted (message : F) (sessionID : SessionID) t : list sequenceMessage :=
  match normalize message sessionID resolver with
  | Ret (Some command) =>
      match (reserveAndStage command (commandAdmissionIndex t, stagingQueue_ t)).1 with
      | Ret decision => if bool_decide (status decision = AdmissionStatus.FIRST_SUBMISSION) then [command] else []
      | Throw _ => []
      end
  | _ => []
  end.

Lemma normalize_sound message sessionID :
  sound (normalize message sessionID resolver) (λ r, ∀ m, r = Some m → well_formed m).
Proof.
  eapply sound_bind; [apply required_sound|]. intros msgType Hheader. cbv beta.
  destruct (isProcessableMessageType msgType) eqn:Htype; cbn [negb]; [|by intros m].
  eapply sound_bind; [by apply (parseFixMessage_sound message sessionID resolver msgType)|].
  intros m (clientId & _ & (_ & _ & _ & _ & _ & _ & Ht & Hb) & _) m' [= <-]. by split.
Qed.

(** A well-formed command is decided without an exception. *)
Lemma reserve_decides m index (queue : Q) : well_formed m →
  ∃ decision index' queue', reserveAndStage m (index, queue) = (Ret decision, (index', queue')) ∧
    queued queue' = queued queue ++ (if bool_decide (status decision = AdmissionStatus.FIRST_SUBMISSION) then [m] else []).
Proof.
  intros (_ & key & business & Hk & Hb). unfold reserveAndStage.
  rewrite (reserveAndStage_run m true index queue key business Hk Hb).
  destruct (records_ index !! key) as [r|] eqn:Hr.
  - destruct (reserveLocked_known key business m true index (Some queue) r Hr) as (d & -> & Hd).
    do 3 eexists. split; [reflexivity|]. cbn [from_option id]. rewrite bool_decide_eq_false_2; [by rewrite app_nil_r|].
    rewrite Hd. by repeat case_bool_decide.
  - destruct (reserveLocked_new key business m true index queue Hr) as (i & q & -> & Hcase).
    do 3 eexists. split; [reflexivity|]. cbn [from_option id].
    destruct (admits _ _ _ _); [by destruct Hcase as (_ & -> & _)|destruct Hcase as [-> _]; by rewrite app_nil_r].
Qed.

(** ** Receiving a message *)
Lemma fromApp_cases message sessionID t :
  let t' := fromApp message sessionID resolver t in
  ingressQueue_ t' = ingressQueue_ t ∧ pendingStagedCommand_ t' = pendingStagedCommand_ t ∧
  queued (stagingQueue_ t') = queued (stagingQueue_ t) ++ admitted message sessionID t ∧
  Forall well_formed (admitted message sessionID t) ∧
  match normalize message sessionID resolver with
  | Ret None => t' = t
  | Ret (Some m) => normalizationRejections_ t' = normalizationRejections_ t ∧ internalFailures_ t' = internalFailures_ t
  | Throw e => t' = countNormalizationRejection t ∨ (e = incorrect_data_format ∧ t' = countInternalFailure t)
  end.
Proof.
  cbv zeta. unfold fromApp, admitted. pose proof (normalize_sound message sessionID) as Hn. unfold sound in Hn.
  destruct (normalize message sessionID resolver) as [[m|]|e].
  - specialize (Hn m eq_refl).
    destruct (reserve_decides m (commandAdmissionIndex t) (stagingQueue_ t) Hn) as (d & index' & queue' & -> & Hq).
    cbn [fst]. repeat case_bool_decide; cbn; split_and!; try done; by constructor.
  - rewrite app_nil_r. by split_and!.
  - rewrite app_nil_r. destruct Hn as [[tag ->]|[[what ->]| ->]]; cbn; split_and!; auto.
Qed.

(** ** Executions

    [staged] is what was admitted, [taken] what the sequencer popped.  The other
    users of the admission index change it between the gateway's operations. *)
Inductive gateway_step : FixTask Q * list sequenceMessage * list sequenceMessage →
    FixTask Q * list sequenceMessage * list sequenceMessage → Prop :=
  | gateway_receive t staged taken message sessionID :
      gateway_step (t, staged, taken)
        (fromApp message sessionID resolver t, staged ++ admitted message sessionID t, taken)
  | gateway_forward t staged taken :
      gateway_step (t, staged, taken) ((processNextStagedCommand t).2, staged, taken)
  | gateway_take t staged taken command ingress' :
      sharedPop (ingressQueue_ t) = (Some command, ingress') →
      gateway_step (t, staged, taken)
        (setForward ingress' (stagingQueue_ t) (pendingStagedCommand_ t) t, staged, taken ++ [command])
  | gateway_index t staged taken index' :
      gateway_step (t, staged, taken) (setStaging index' (stagingQueue_ t) t, staged, taken)
  | gateway_bus t staged taken bus' :
      gateway_step (t, staged, taken) (setGatewayBus bus' t, staged, taken).

(** Where an admitted command can be. *)
Definition in_flight t : list sequenceMessage :=
  queued (ingressQueue_ t) ++ option_list (pendingStagedCommand_ t) ++ queued (stagingQueue_ t).

Lemma processNextStagedCommand_flight t :
  let '(forwarded, t') := processNextStagedCommand t in
  in_flight t' = in_flight t ∧
  if forwarded : bool
  then length (option_list (pendingStagedCommand_ t) ++ queued (stagingQueue_ t)) =
       Datatypes.S (length (option_list (pendingStagedCommand_ t') ++ queued (stagingQueue_ t')))
  else pendingStagedCommand_ t' = None → queued (stagingQueue_ t') = [].
Proof.
  unfold processNextStagedCommand, in_flight. destruct (pop_law (stagingQueue_ t)) as [Hpop Htail].
  destruct (pendingStagedCommand_ t) as [command|] eqn:Hp.
  - rewrite Hp. pose proof (push_law command (ingressQueue_ t)) as Hpush.
    destruct (sharedPush command (ingressQueue_ t)) as [[] ingress]; cbn in Hpush |- *; rewrite Hpush; [|done].
    by rewrite <-app_assoc.
  - rewrite Hpop. destruct (queued (stagingQueue_ t)) as [|command rest] eqn:Hq; cbn in Htail |- *.
    { rewrite Htail. by split. }
    pose proof (push_law command (ingressQueue_ t)) as Hpush.
    destruct (sharedPush command (ingressQueue_ t)) as [[] ingress]; cbn in Hpush |- *; rewrite Hpush, Htail; [|done].
    by rewrite <-app_assoc.
Qed.

Definition gateway_ok (s : FixTask Q * list sequenceMessage * list sequenceMessage) : Prop :=
  s.1.2 = s.2 ++ in_flight s.1.1 ∧ Forall well_formed s.1.2.

Lemma gateway_step_ok s s' : gateway_step s s' → gateway_ok s → gateway_ok s'.
Proof.
  intros Hstep [Hflight Hwf]. unfold gateway_ok in *.
  destruct Hstep as [t staged taken message sessionID|t staged taken|t staged taken command ingress' Hpop| |];
    cbn [fst snd] in *; try done.
  - destruct (fromApp_cases message sessionID t) as (Hi & Hp & Hs & Hw & _).
    split; [|by apply Forall_app]. unfold in_flight in *. rewrite Hi, Hp, Hs, Hflight. by rewrite !app_assoc.
  - pose proof (processNextStagedCommand_flight t) as Hf. destruct (processNextStagedCommand t) as [b t'].
    destruct Hf as [Hf _]. cbn [snd]. by rewrite Hf.
  - split; [|done]. rewrite Hflight. destruct (pop_law (ingressQueue_ t)) as [Hhead Htail].
    rewrite Hpop in Hhead, Htail. cbn in Htail. injection Hhead as Hhead. unfold in_flight. cbn. rewrite Htail.
    destruct (queued (ingressQueue_ t)) as [|c rest]; [done|]. injection Hhead as <-. cbn. by rewrite <-app_assoc.
Qed.

Lemma gateway_steps_ok s s' : rtc gateway_step s s' → gateway_ok s → gateway_ok s'.
Proof. induction 1; eauto using gateway_step_ok. Qed.

(** ** The property *)

(** No admitted command is lost.  In every interleaving of the session
    threads, the gateway's worker, the sequencer's pops and the other users of the
    admission index and the bus, the admitted commands are, in the order of their
    admission, those the sequencer took, those in its ingress, the one the worker
    holds and those staged; all of them are well formed.  A message that is not
    admitted changes no queue, and an internal failure is only counted for an
    ill-formed character field. *)
Theorem gateway_loses_no_command t staged taken t0 :
  queued (ingressQueue_ t0) = [] → pendingStagedCommand_ t0 = None → queued (stagingQueue_ t0) = [] →
  rtc gateway_step (t0, [], []) (t, staged, taken) →
  staged = taken ++ in_flight t ∧ Forall well_formed staged ∧
  (∀ message sessionID, let t' := fromApp message sessionID resolver t in
     in_flight t' = in_flight t ++ admitted message sessionID t ∧
     (internalFailures_ t' ≠ internalFailures_ t → normalize message sessionID resolver = Throw incorrect_data_format)) ∧
  (let '(forwarded, t') := processNextStagedCommand t in
   forwarded = false → pendingStagedCommand_ t' = None → queued (stagingQueue_ t') = []).
Proof.
  intros Hi Hp Hs Hsteps.
  assert (Hok : gateway_ok (t, staged, taken)).
  { apply (gateway_steps_ok _ _ Hsteps). split; [|done]. cbn. unfold in_flight. by rewrite Hi, Hp, Hs. }
  destruct Hok as [Hflight Hwf]. cbn [fst snd] in *. split_and!; [done|done| |].
  - intros message sessionID. destruct (fromApp_cases message sessionID t) as (Hi' & Hp' & Hs' & _ & Hcount). cbv zeta. split.
    + unfold in_flight. rewrite Hi', Hp', Hs'. by rewrite !app_assoc.
    + intros Hne. destruct (normalize message sessionID resolver) as [[m|]|e].
      * by destruct Hcount.
      * by rewrite Hcount in Hne.
      * destruct Hcount as [Hc|[-> _]]; [by rewrite Hc in Hne|done].
  - pose proof (processNextStagedCommand_flight t) as Hf. destruct (processNextStagedCommand t) as [b t'].
    intros ->. by destruct Hf.
Qed.
End gateway.

(** ** Witness *)
Definition demoGateway : FixTask (FixedQueue sequenceMessage) :=
  mkFixTask (mkFixedQueue 4 []) (mkFixedQueue 4 []) None
    (Bus.mkBus 1 [None] [0%nat] 0 0, {[ 0%nat := 0 ]}) demoIndex 0 0 0 0%nat.
Definition demoReceived : FixTask (FixedQueue sequenceMessage) := fromApp demoFixOrder 0%nat demoResolver demoGateway.

Lemma gateway_loses_no_command_witness :
  admitted demoResolver demoFixOrder 0%nat demoGateway ≠ [] ∧
  admitted demoResolver demoFixOrder 0%nat demoGateway = [] ++ in_flight demoReceived ∧
  Forall well_formed (admitted demoResolver demoFixOrder 0%nat demoGateway).
Proof.
  destruct (gateway_loses_no_command (F:=FieldMap) (Q:=FixedQueue sequenceMessage) demoResolver demoResolver_ok
    demoReceived ([] ++ admitted demoResolver demoFixOrder 0%nat demoGateway) [] demoGateway) as (Hflight & Hwf & _).
  - reflexivity.
  - reflexivity.
  - reflexivity.
  - apply rtc_once. exact (gateway_receive demoResolver demoGateway [] [] demoFixOrder 0%nat).
  - split; [by vm_compute|]. split; [exact Hflight|exact Hwf].
Defined.
