(* ===== verification/Paths.v ===== *)
(** * File paths

    The operations of [std::filesystem::path] the storage and controller code
    uses, on POSIX path strings: [parent_path], [filename], [operator/], the
    element-wise [operator==] and [lexically_normal]. *)
From S2P Require Import Prelude.
From stdpp Require Import pretty.
From Stdlib Require Import Ascii.

Abbreviation path := string (only parsing).

Definition separator : Ascii.ascii := "/"%char.
Definition is_separator (c : Ascii.ascii) : bool := bool_decide (c = separator).

Definition chars (s : string) : list Ascii.ascii := String.list_ascii_of_string s.
Definition of_chars (l : list Ascii.ascii) : string := String.string_of_list_ascii l.

Fixpoint drop_while {A} (f : A → bool) (l : list A) : list A :=
  match l with
  | [] => []
  | x :: l' => if f x then drop_while f l' else l
  end.
Fixpoint take_while {A} (f : A → bool) (l : list A) : list A :=
  match l with
  | [] => []
  | x :: l' => if f x then x :: take_while f l' else []
  end.

(** The characters after the last separator. *)
Definition filename (p : path) : string :=
  of_chars (reverse (take_while (λ c, negb (is_separator c)) (reverse (chars p)))).

(** Without the filename and the separators in front of it; the separators are
    kept when nothing else is left, and a path of separators is its own parent. *)
Definition parent_path (p : path) : path :=
  let without_name := drop_while (λ c, negb (is_separator c)) (reverse (chars p)) in
  let stripped := drop_while is_separator without_name in
  of_chars (match stripped with
            | [] => match without_name with [] => [] | _ => [separator] end
            | _ => reverse stripped
            end).

Definition is_absolute (p : path) : bool :=
  match p with String c _ => is_separator c | EmptyString => false end.

(** [left / right] *)
Definition join_path (left right : path) : path :=
  if is_absolute right then right
  else match last (chars left) with
       | None => right
       | Some c => if is_separator c then (left ++ right)%string else (left ++ "/" ++ right)%string
       end.

(** The names between separators. *)
Fixpoint split_names (l current : list Ascii.ascii) : list (list Ascii.ascii) :=
  match l with
  | [] => [current]
  | c :: l' => if is_separator c then current :: split_names l' [] else split_names l' (current ++ [c])
  end.

(** The elements [operator==] compares: the root, the names, and an empty last
    name after a final separator. *)
Definition path_elements (p : path) : list string :=
  let names := split_names (chars p) [] in
  let inner := filter (λ n, n ≠ []) names in
  (if is_absolute p then ["/"%string] else []) ++ map of_chars inner ++
  (if bool_decide (inner ≠ []) && bool_decide (last names = Some []) then [""%string] else []).

Definition path_eqb (p q : path) : bool := bool_decide (path_elements p = path_elements q).

(** [lexically_normal]: dots dropped, a name cancelled by the dot-dot after it, the
    dot-dots after the root dropped. *)
Fixpoint normal_elements (elements kept : list string) : list string :=
  match elements with
  | [] => reverse kept
  | e :: elements' =>
      if bool_decide (e = "."%string) then
        (** a last dot leaves a final separator *)
        normal_elements elements'
          (match elements' with
           | [] => match kept with
                   | [] => kept
                   | k :: _ => if bool_decide (k = "/"%string) || bool_decide (k = ".."%string) then kept
                               else ""%string :: kept
                   end
           | _ => kept
           end)
      else if bool_decide (e = ".."%string) then
        match kept with
        | [] => normal_elements elements' [e]
        | k :: kept' =>
            if bool_decide (k = "/"%string) then normal_elements elements' kept
            else if bool_decide (k = ".."%string) then normal_elements elements' (e :: kept)
            else normal_elements elements'
                   (match elements' with
                    | [] => match kept' with
                            | [] => kept'
                            | j :: _ => if bool_decide (j = "/"%string) || bool_decide (j = ".."%string) then kept'
                                        else ""%string :: kept'
                            end
                    | _ => kept'
                    end)
        end
      else normal_elements elements' (e :: kept)
  end.

Definition join_elements (elements : list string) : path :=
  match elements with
  | [] => ""%string
  | e :: rest => if bool_decide (e = "/"%string) then ("/" ++ String.concat "/" rest)%string
                 else String.concat "/" elements
  end.

Definition lexically_normal (p : path) : path :=
  if bool_decide (p = ""%string) then p
  else match normal_elements (path_elements p) [] with
       | [] => "."%string
       | elements =>
           (** a final dot-dot has no separator after it *)
           let trimmed := match reverse elements with
                          | e :: k :: rest => if bool_decide (e = ""%string) && bool_decide (k = ".."%string)
                                              then reverse (k :: rest) else elements
                          | _ => elements
                          end in
           join_elements trimmed
       end.

Example parent_path_examples :
  map parent_path ["a/b"; "b"; "/b"; "a//b"; "a/b/"; "/"; ""; "/a/b.cat"]%string =
  ["a"; ""; "/"; "a"; "a/b"; "/"; ""; "/a"]%string.
Proof. reflexivity. Qed.

Example filename_examples : map filename ["a/b"; "b"; "/b"; "a/b/"; ""]%string = ["b"; "b"; "b"; ""; ""]%string.
Proof. reflexivity. Qed.

Example join_path_examples :
  [join_path "a" "b"; join_path "" "b"; join_path "/" "b"; join_path "a" "/b"]%string =
  ["a/b"; "b"; "/b"; "/b"]%string.
Proof. reflexivity. Qed.

Example lexically_normal_examples :
  map lexically_normal ["/a/./b"; "/a/../b"; "a/.."; "/.."; "a/./"; "a/b/.."; "../a"; "a//b"; "a/."; "../..";
                        "a/b/../"; "../"]%string =
  ["/a/b"; "/b"; "."; "/"; "a/"; "a/"; "../a"; "a/b"; "a/"; "../.."; "a/"; ".."]%string.
Proof. reflexivity. Qed.

Example path_eqb_examples : [path_eqb "a//b" "a/b"; path_eqb "a/b/" "a/b"; path_eqb "/a" "a"]%string = [true; false; false].
Proof. reflexivity. Qed.
