(* ===== verification/FileSystem.v ===== *)
(** * The file system behind the catalog and the journals

    [FileSystem] is the interface of the POSIX calls the storage code makes on
    paths and descriptors.  [Files] is what a file system with several files holds,
    with what a loss of power may leave of it, and [FileSystemLaws] states the
    documented behaviour of the calls on it.  [Disk] is a concrete file system whose
    calls follow a schedule of interruptions, short transfers and failures. *)
From S2P Require Import Prelude Bytes Posix Paths.
From Stdlib Require Import Ascii.

(** A call that returns 0, or -1 with [errno]. *)
Abbreviation status := (option Z) (only parsing).

Class FileSystem (W : Type) := {
  fsOpen : bool → path → W → sysResult * W;
  fsOpenDirectory : path → W → sysResult * W;
  (** [O_CREAT | O_EXCL | O_WRONLY] *)
  fsCreate : path → W → sysResult * W;
  (** [mkstemp]: the descriptor and the template filled in *)
  fsMakeTemporary : path → W → (sysResult * path) * W;
  fsRead : Z → nat → W → readResult * W;
  fsWrite : Z → bytes → W → sysResult * W;
  fsSeek : Z → Z → W → sysResult * W;
  fsTruncate : Z → Z → W → sysResult * W;
  fsSync : Z → W → status * W;
  fsClose : Z → W → status * W;
  fsRename : path → path → W → status * W;
  fsUnlink : path → W → status * W;
  (** [directory_iterator]: the error of its construction, or each entry's
      filename or the error of the step to it *)
  fsIterate : path → W → (Z + list (Z + string)) * W;
  (** [std::filesystem::absolute]; [None] when it throws *)
  fsAbsolute : path → W → option path * W }.

(** ** What the file system holds *)
Inductive descriptor := OpenFile (inode : Z) (offset : nat) (writable : bool) | OpenDirectory (directory : path).

(** [past p] (below) are the entries of [p] that a directory sync has not yet made
    obsolete: a loss of power may bring any of them back. [unsynced] files may
    come back with any contents. *)
Record Files := mkFiles {
  inodes : gmap Z bytes;
  unsynced : gset Z;
  entries : gmap path Z;
  earlier : gmap path (list (option Z));
  descriptors : gmap Z descriptor }.

Definition past (fs : Files) (p : path) : list (option Z) := default [] (earlier fs !! p).

Definition live (fs : Files) (p : path) : option bytes := i ← entries fs !! p; inodes fs !! i.

(** The entries of [p] that can be there after a loss of power. *)
Definition possible_entries (fs : Files) (p : path) : list (option Z) := entries fs !! p :: past fs p.

Definition entry_contents (fs : Files) (entry : option Z) (c : option bytes) : Prop :=
  match entry with
  | None => c = None
  | Some i => ∃ b, c = Some b ∧ (i ∉ unsynced fs → inodes fs !! i = Some b)
  end.

(** After a loss of power, [p] may hold [c]. *)
Definition survives (fs : Files) (p : path) (c : option bytes) : Prop :=
  ∃ entry, entry ∈ possible_entries fs p ∧ entry_contents fs entry c.

(** An inode number no entry has had. *)
Definition fresh_inode (fs : Files) (i : Z) : Prop :=
  inodes fs !! i = None ∧ (∀ p, Some i ∉ possible_entries fs p) ∧
  ∀ d offset writable, descriptors fs !! d ≠ Some (OpenFile i offset writable).

(** ** Changes *)
Definition set_descriptors (f : gmap Z descriptor → gmap Z descriptor) (fs : Files) : Files :=
  mkFiles (inodes fs) (unsynced fs) (entries fs) (earlier fs) (f (descriptors fs)).

Definition set_contents (i : Z) (b : bytes) (fs : Files) : Files :=
  mkFiles (<[i := b]> (inodes fs)) ({[i]} ∪ unsynced fs) (entries fs) (earlier fs) (descriptors fs).

Definition synced (i : Z) (fs : Files) : Files :=
  mkFiles (inodes fs) (unsynced fs ∖ {[i]}) (entries fs) (earlier fs) (descriptors fs).

Definition set_entry (p : path) (entry : option Z) (fs : Files) : Files :=
  mkFiles (inodes fs) (unsynced fs)
    (match entry with Some i => <[p := i]> (entries fs) | None => delete p (entries fs) end)
    (<[p := possible_entries fs p]> (earlier fs)) (descriptors fs).

(** A sync of [directory] makes the entries in it the ones to stay. The files of
    the working directory have no parent in their path. *)
Definition in_directory (directory p : path) : bool :=
  bool_decide (parent_path p = directory) ||
  bool_decide (parent_path p = ""%string) && bool_decide (directory = "."%string).

Definition directory_synced (directory : path) (fs : Files) : Files :=
  mkFiles (inodes fs) (unsynced fs) (entries fs)
    (filter (λ e, in_directory directory e.1 = false) (earlier fs)) (descriptors fs).

Definition open_descriptor (d : Z) (e : descriptor) : Files → Files := set_descriptors <[d := e]>.
Definition created (p : path) (i d : Z) (fs : Files) : Files :=
  open_descriptor d (OpenFile i 0 true) (set_entry p (Some i) (set_contents i [] fs)).
Definition renamed (source destination : path) (i : Z) (fs : Files) : Files :=
  set_entry source None (set_entry destination (Some i) fs).

(** A descriptor's offset moved; the file of a descriptor open for writing changed. *)
Definition repositioned (d : Z) (fs fs' : Files) : Prop :=
  ∃ i offset offset' writable, descriptors fs !! d = Some (OpenFile i offset writable) ∧
    fs' = open_descriptor d (OpenFile i offset' writable) fs.
Definition rewritten (d : Z) (fs fs' : Files) : Prop :=
  ∃ i offset b, descriptors fs !! d = Some (OpenFile i offset true) ∧ fs' = set_contents i b fs.

(** ** The laws *)
Class FileSystemLaws (W : Type) `{FileSystem W} := {
  files : W → Files;
  pendingSignals : W → nat;
  fsOpen_law writing p w r w' : fsOpen writing p w = (r, w') →
    match r with
    | SysDone d => ∃ i, entries (files w) !! p = Some i ∧ is_Some (inodes (files w) !! i) ∧
        descriptors (files w) !! d = None ∧
        files w' = open_descriptor d (OpenFile i 0 writing) (files w) ∧ (pendingSignals w' ≤ pendingSignals w)%nat
    | SysError e => files w' = files w ∧ (e = ENOENT → live (files w) p = None) ∧
        interrupt_step e (pendingSignals w) (pendingSignals w')
    end;
  fsOpenDirectory_law p w r w' : fsOpenDirectory p w = (r, w') →
    match r with
    | SysDone d => descriptors (files w) !! d = None ∧
        files w' = open_descriptor d (OpenDirectory p) (files w) ∧ (pendingSignals w' ≤ pendingSignals w)%nat
    | SysError e => files w' = files w ∧ interrupt_step e (pendingSignals w) (pendingSignals w')
    end;
  fsCreate_law p w r w' : fsCreate p w = (r, w') →
    match r with
    | SysDone d => ∃ i, entries (files w) !! p = None ∧ fresh_inode (files w) i ∧
        descriptors (files w) !! d = None ∧
        files w' = created p i d (files w) ∧ (pendingSignals w' ≤ pendingSignals w)%nat
    | SysError e => files w' = files w ∧ interrupt_step e (pendingSignals w) (pendingSignals w')
    end;
  (** the name is the template with its last six characters replaced *)
  fsMakeTemporary_law template w r t w' : fsMakeTemporary template w = ((r, t), w') →
    (∃ suffix, length suffix = 6%nat ∧ (separator ∉ suffix) ∧
       t = of_chars (take (String.length template - 6) (chars template) ++ suffix)) ∧
    match r with
    | SysDone d => ∃ i, entries (files w) !! t = None ∧ fresh_inode (files w) i ∧
        descriptors (files w) !! d = None ∧
        files w' = created t i d (files w) ∧ (pendingSignals w' ≤ pendingSignals w)%nat
    | SysError e => files w' = files w ∧ interrupt_step e (pendingSignals w) (pendingSignals w')
    end;
  fsRead_law d size w i offset writable b r w' : (0 < size)%nat →
    descriptors (files w) !! d = Some (OpenFile i offset writable) → inodes (files w) !! i = Some b →
    fsRead d size w = (r, w') →
    match r with
    | ReadBytes data => (length data ≤ size)%nat ∧ data = take (length data) (drop offset b) ∧
        (data = [] → (length b ≤ offset)%nat) ∧
        files w' = open_descriptor d (OpenFile i (offset + length data) writable) (files w) ∧
        (pendingSignals w' ≤ pendingSignals w)%nat
    | ReadError e => files w' = files w ∧ interrupt_step e (pendingSignals w) (pendingSignals w')
    end;
  fsWrite_law d data w i offset b r w' : data ≠ [] →
    descriptors (files w) !! d = Some (OpenFile i offset true) → inodes (files w) !! i = Some b →
    fsWrite d data w = (r, w') →
    match r with
    | SysDone n => 0 ≤ n ≤ Z.of_nat (length data) ∧
        files w' = open_descriptor d (OpenFile i (offset + Z.to_nat n) true)
                     (set_contents i (write_at b offset (take (Z.to_nat n) data)) (files w)) ∧
        (pendingSignals w' ≤ pendingSignals w)%nat
    | SysError e => files w' = files w ∧ interrupt_step e (pendingSignals w) (pendingSignals w')
    end;
  fsSync_law d w open r w' : descriptors (files w) !! d = Some open → fsSync d w = (r, w') →
    match r with
    | None => files w' = match open with
                         | OpenFile i _ _ => synced i (files w)
                         | OpenDirectory p => directory_synced p (files w)
                         end ∧ (pendingSignals w' ≤ pendingSignals w)%nat
    | Some e => files w' = files w ∧ interrupt_step e (pendingSignals w) (pendingSignals w')
    end;
  (** calls on a descriptor that is not open for them have no effect *)
  fsRead_effect d size w r w' : fsRead d size w = (r, w') → (pendingSignals w' ≤ pendingSignals w)%nat ∧
    (files w' = files w ∨ repositioned d (files w) (files w'));
  fsSeek_effect d offset w r w' : fsSeek d offset w = (r, w') → (pendingSignals w' ≤ pendingSignals w)%nat ∧
    (files w' = files w ∨ repositioned d (files w) (files w'));
  fsWrite_effect d data w r w' : fsWrite d data w = (r, w') → (pendingSignals w' ≤ pendingSignals w)%nat ∧
    (files w' = files w ∨ ∃ fs1, rewritten d (files w) fs1 ∧ repositioned d fs1 (files w'));
  fsTruncate_effect d len w r w' : fsTruncate d len w = (r, w') → (pendingSignals w' ≤ pendingSignals w)%nat ∧
    (files w' = files w ∨ rewritten d (files w) (files w'));
  fsSync_effect d w r w' : fsSync d w = (r, w') → (pendingSignals w' ≤ pendingSignals w)%nat ∧
    (files w' = files w ∨ ∃ open, descriptors (files w) !! d = Some open ∧
      files w' = match open with
                 | OpenFile i _ _ => synced i (files w)
                 | OpenDirectory p => directory_synced p (files w)
                 end);
  (** the descriptor of a failed [close] may be gone *)
  fsClose_law d w r w' : fsClose d w = (r, w') →
    (files w' = set_descriptors (delete d) (files w) ∨ is_Some r ∧ files w' = files w) ∧
    (pendingSignals w' ≤ pendingSignals w)%nat;
  (** an interrupted [rename] may have taken effect *)
  fsRename_law source destination w i r w' : source ≠ destination →
    entries (files w) !! source = Some i → fsRename source destination w = (r, w') →
    (pendingSignals w' ≤ pendingSignals w)%nat ∧
    (files w' = renamed source destination i (files w) ∧ (r = None ∨ r = Some EINTR) ∨
     files w' = files w ∧ is_Some r);
  fsUnlink_law p w r w' : fsUnlink p w = (r, w') →
    match r with
    | None => files w' = set_entry p None (files w) ∧ (pendingSignals w' ≤ pendingSignals w)%nat
    | Some e => files w' = files w ∧ interrupt_step e (pendingSignals w) (pendingSignals w')
    end;
  fsIterate_law p w r w' : fsIterate p w = (r, w') →
    files w' = files w ∧ (pendingSignals w' ≤ pendingSignals w)%nat ∧
    ∀ names, r = inr names → (∀ x, x ∈ names → ∃ n, x = inr n) →
      ∀ n, inr n ∈ names ↔ ∃ q, q ∈ dom (entries (files w)) ∧ in_directory p q = true ∧ filename q = n;
  fsAbsolute_law p w r w' : fsAbsolute p w = (r, w') →
    files w' = files w ∧ (pendingSignals w' ≤ pendingSignals w)%nat }.

(** ** A concrete file system *)
Record Disk := mkDisk {
  disk_files : Files;
  disk_schedule : list action;
  working_directory : path }.

(** What a call does under the next action of the schedule: an error, or a
    transfer's size at most [limit]. [ENOENT] is left to the calls. *)
Definition next_disk_action (limit : nat) (d : Disk) : (Z + nat) * Disk :=
  match disk_schedule d with
  | [] => (inr limit, d)
  | a :: s =>
      (match action_errno a with Some e => inl (if bool_decide (e = ENOENT) then EIO else e) | None => inr (action_size (Some a) limit) end,
       mkDisk (disk_files d) s (working_directory d))
  end.

Definition with_files (f : Files → Files) (d : Disk) : Disk :=
  mkDisk (f (disk_files d)) (disk_schedule d) (working_directory d).

(** A call that fails as the schedule says, and otherwise with [refused] or the
    effect of [outcome]. *)
Definition disk_call {A} (fail : Z → A) (outcome : Files → Z + (A * Files)) (d : Disk) : A * Disk :=
  match next_disk_action 0 d with
  | (inl e, d') => (fail e, d')
  | (inr _, d') =>
      match outcome (disk_files d') with
      | inl e => (fail e, d')
      | inr (a, fs) => (a, with_files (const fs) d')
      end
  end.

Definition EEXIST : Z := 17.
Definition EBADF : Z := 9.

Definition above (l : list Z) : Z := 1 + foldr Z.max 2 l.

Definition known_inodes (fs : Files) : list Z :=
  elements (dom (inodes fs)) ++ (map_to_list (entries fs)).*2 ++
  (e ← map_to_list (earlier fs); o ← e.2; match o with Some i => [i] | None => [] end) ++
  (e ← map_to_list (descriptors fs); match e.2 with OpenFile i _ _ => [i] | OpenDirectory _ => [] end).
Definition new_inode (fs : Files) : Z := above (known_inodes fs).
Definition new_descriptor (fs : Files) : Z := above (elements (dom (descriptors fs))).

Definition disk_open (writing : bool) (p : path) : Disk → sysResult * Disk := disk_call SysError (λ fs,
  match entries fs !! p with
  | Some i => if bool_decide (is_Some (inodes fs !! i)) then
                inr (SysDone (new_descriptor fs), open_descriptor (new_descriptor fs) (OpenFile i 0 writing) fs)
              else inl EIO
  | None => inl ENOENT
  end).
Definition disk_open_directory (p : path) : Disk → sysResult * Disk := disk_call SysError (λ fs,
  inr (SysDone (new_descriptor fs), open_descriptor (new_descriptor fs) (OpenDirectory p) fs)).
Definition disk_create (p : path) : Disk → sysResult * Disk := disk_call SysError (λ fs,
  match entries fs !! p with
  | Some _ => inl EEXIST
  | None => inr (SysDone (new_descriptor fs), created p (new_inode fs) (new_descriptor fs) fs)
  end).
Definition disk_make_temporary (template : path) (d : Disk) : (sysResult * path) * Disk :=
  let t := of_chars (take (String.length template - 6) (chars template) ++ replicate 6 "a"%char) in
  let '(r, d') := disk_create t d in ((r, t), d').
Definition disk_read (fd : Z) (size : nat) (d : Disk) : readResult * Disk :=
  match next_disk_action size d with
  | (inl e, d') => (ReadError e, d')
  | (inr n, d') =>
      match descriptors (disk_files d') !! fd with
      | Some (OpenFile i offset writable) =>
          let data := take n (drop offset (default [] (inodes (disk_files d') !! i))) in
          (ReadBytes data, with_files (open_descriptor fd (OpenFile i (offset + length data) writable)) d')
      | _ => (ReadError EBADF, d')
      end
  end.
Definition disk_write (fd : Z) (data : bytes) (d : Disk) : sysResult * Disk :=
  match next_disk_action (length data) d with
  | (inl e, d') => (SysError e, d')
  | (inr n, d') =>
      match descriptors (disk_files d') !! fd with
      | Some (OpenFile i offset true) =>
          let old := default [] (inodes (disk_files d') !! i) in
          (SysDone (Z.of_nat n),
           with_files (λ fs, open_descriptor fd (OpenFile i (offset + n) true)
                               (set_contents i (write_at old offset (take n data)) fs)) d')
      | _ => (SysError EBADF, d')
      end
  end.
Definition disk_seek (fd offset : Z) : Disk → sysResult * Disk := disk_call SysError (λ fs,
  match descriptors fs !! fd with
  | Some (OpenFile i _ writable) => inr (SysDone offset, open_descriptor fd (OpenFile i (Z.to_nat offset) writable) fs)
  | _ => inl EBADF
  end).
Definition disk_truncate (fd len : Z) : Disk → sysResult * Disk := disk_call SysError (λ fs,
  match descriptors fs !! fd with
  | Some (OpenFile i _ true) =>
      inr (SysDone 0, set_contents i (take (Z.to_nat len) (default [] (inodes fs !! i))) fs)
  | _ => inl EBADF
  end).
Definition disk_sync (fd : Z) : Disk → status * Disk := disk_call Some (λ fs,
  match descriptors fs !! fd with
  | Some (OpenFile i _ _) => inr (None, synced i fs)
  | Some (OpenDirectory p) => inr (None, directory_synced p fs)
  | None => inl EBADF
  end).
Definition disk_close (fd : Z) : Disk → status * Disk :=
  disk_call Some (λ fs, inr (None, set_descriptors (delete fd) fs)).
(** An interrupted rename has taken effect. *)
Definition disk_rename (source destination : path) (d : Disk) : status * Disk :=
  match entries (disk_files d) !! source with
  | None => (Some ENOENT, d)
  | Some i =>
      match next_disk_action 0 d with
      | (inl e, d') => (Some e, if bool_decide (e = EINTR) then with_files (renamed source destination i) d' else d')
      | (inr _, d') => (None, with_files (renamed source destination i) d')
      end
  end.
Definition disk_unlink (p : path) : Disk → status * Disk :=
  disk_call Some (λ fs, inr (None, set_entry p None fs)).
Definition disk_iterate (p : path) : Disk → (Z + list (Z + string)) * Disk := disk_call inl (λ fs,
  inr (inr (inr <$> (filename <$> filter (λ q, in_directory p q = true) (elements (dom (entries fs))))), fs)).
Definition disk_absolute (p : path) (d : Disk) : option path * Disk :=
  (Some (if is_absolute p then p else join_path (working_directory d) p), d).

#[export] Instance disk_file_system : FileSystem Disk := {|
  fsOpen := disk_open;
  fsOpenDirectory := disk_open_directory;
  fsCreate := disk_create;
  fsMakeTemporary := disk_make_temporary;
  fsRead := disk_read;
  fsWrite := disk_write;
  fsSeek := disk_seek;
  fsTruncate := disk_truncate;
  fsSync := disk_sync;
  fsClose := disk_close;
  fsRename := disk_rename;
  fsUnlink := disk_unlink;
  fsIterate := disk_iterate;
  fsAbsolute := disk_absolute |}.

Lemma above_spec l x : x ∈ l → x < above l.
Proof.
  unfold above. induction l as [|y l IH]; [by intros []%elem_of_nil|]. simpl.
  intros [->|Hx]%elem_of_cons; [lia|]. apply IH in Hx. lia.
Qed.

Lemma new_descriptor_closed fs : descriptors fs !! new_descriptor fs = None.
Proof.
  apply not_elem_of_dom. intros Hin%elem_of_elements%above_spec. unfold new_descriptor in Hin. lia.
Qed.

Lemma new_inode_fresh fs : fresh_inode fs (new_inode fs).
Proof.
  assert (Hk : new_inode fs ∉ known_inodes fs) by (intros H%above_spec; unfold new_inode in H; lia).
  unfold known_inodes in Hk. rewrite !not_elem_of_app in Hk. destruct Hk as (H1 & H2 & H3 & H4). split_and!.
  - apply not_elem_of_dom. by rewrite elem_of_elements in H1.
  - intros p. unfold possible_entries, past. rewrite elem_of_cons. intros [E|Hin].
    + apply H2. apply list_elem_of_fmap. exists (p, new_inode fs). split; [done|by apply elem_of_map_to_list].
    + destruct (earlier fs !! p) as [l|] eqn:E; simpl in Hin; [|by apply elem_of_nil in Hin].
      apply H3. apply list_elem_of_bind. exists (p, l). split; [|by apply elem_of_map_to_list].
      apply list_elem_of_bind. exists (Some (new_inode fs)). split; [by left|done].
  - intros d offset writable E. apply H4. apply list_elem_of_bind. exists (d, OpenFile (new_inode fs) offset writable).
    split; [by left|by apply elem_of_map_to_list].
Qed.

Definition signals (d : Disk) : nat := interruptions (disk_schedule d).

Lemma next_disk_action_run limit d r d' : next_disk_action limit d = (r, d') →
  disk_files d' = disk_files d ∧
  match r with
  | inl e => e ≠ ENOENT ∧ interrupt_step e (signals d) (signals d')
  | inr n => (n ≤ limit)%nat ∧ ((0 < limit)%nat → (0 < n)%nat) ∧ (signals d' ≤ signals d)%nat
  end.
Proof.
  unfold next_disk_action, signals. destruct d as [fs [|a s] cwd]; simpl; intros [= <- <-]; simpl.
  { split_and!; auto; lia. }
  split; [done|]. unfold interrupt_step. destruct a as [|n|e]; simpl.
  - split; [done|]. simpl. lia.
  - destruct limit; split_and!; lia.
  - repeat case_bool_decide; split; try done; unfold EINTR, EIO, ENOENT in *; lia.
Qed.

Lemma disk_call_run {A} (fail : Z → A) outcome d a d' : disk_call fail outcome d = (a, d') →
  (∃ e, a = fail e ∧ disk_files d' = disk_files d ∧ (e ≠ ENOENT ∨ outcome (disk_files d) = inl e) ∧
     (interrupt_step e (signals d) (signals d') ∨ outcome (disk_files d) = inl e ∧ (signals d' ≤ signals d)%nat)) ∨
  (∃ fs, outcome (disk_files d) = inr (a, fs) ∧ disk_files d' = fs ∧ (signals d' ≤ signals d)%nat).
Proof.
  unfold disk_call. destruct (next_disk_action 0 d) as [r d1] eqn:E. apply next_disk_action_run in E as [Hf Hr].
  destruct r as [e|n].
  - intros [= <- <-]. left. exists e. split_and!; try done; [left; tauto|left; tauto].
  - rewrite Hf. destruct (outcome (disk_files d)) as [e|[a0 fs]] eqn:Eo; intros [= <- <-].
    + left. exists e. split_and!; try done; [by right|right; tauto].
    + right. exists fs. split_and!; try done. unfold signals in *. simpl. tauto.
Qed.

Lemma next_disk_action_signals limit d r d' : next_disk_action limit d = (r, d') → (signals d' ≤ signals d)%nat.
Proof. intros [_ Hr]%next_disk_action_run. destruct r; [by eapply interrupt_step_le, Hr|apply Hr]. Qed.

Lemma disk_call_signals {A} (fail : Z → A) outcome d a d' : disk_call fail outcome d = (a, d') → (signals d' ≤ signals d)%nat.
Proof.
  unfold disk_call. destruct (next_disk_action 0 d) as [r d1] eqn:E. apply next_disk_action_signals in E.
  destruct r; [by intros [= <- <-]|]. by destruct (outcome (disk_files d1)) as [|[??]]; intros [= <- <-].
Qed.

Lemma interrupt_step_other e i j : e ≠ EINTR → (j ≤ i)%nat → interrupt_step e i j.
Proof. intros. unfold interrupt_step. by rewrite bool_decide_eq_false_2. Qed.

(** A call whose own refusals are not interruptions. *)
Lemma disk_call_plain {A} (fail : Z → A) outcome d a d' :
  (∀ e, outcome (disk_files d) = inl e → e ≠ EINTR) → disk_call fail outcome d = (a, d') →
  (∃ e, a = fail e ∧ disk_files d' = disk_files d ∧ (e ≠ ENOENT ∨ outcome (disk_files d) = inl e) ∧
     interrupt_step e (signals d) (signals d')) ∨
  (∃ fs, outcome (disk_files d) = inr (a, fs) ∧ disk_files d' = fs ∧ (signals d' ≤ signals d)%nat).
Proof.
  intros Ho [(e & -> & Hf & He & Hi)|H]%disk_call_run; [left|by right].
  exists e. split_and!; try done. destruct Hi as [|[Hi ?]]; [done|]. apply interrupt_step_other; eauto.
Qed.

#[export] Instance disk_laws : FileSystemLaws Disk.
Proof.
  refine {| files := disk_files; pendingSignals := signals |}.
  - intros writing p w r w' H. apply disk_call_plain in H as [(e & -> & ? & He & ?)|(fs & E & <- & ?)].
    + split_and!; [done| |done]. intros ->. destruct He as [|E]; [done|]. unfold live.
      destruct (entries (disk_files w) !! p); [|done]. simpl. by case_bool_decide.
    + destruct (entries (disk_files w) !! p) as [i|] eqn:Ei; [|done].
      destruct (bool_decide_reflect (is_Some (inodes (disk_files w) !! i))); [|done].
      injection E as [= <- <-]. exists i. split_and!; try done. apply new_descriptor_closed.
    + intros e. destruct (_ !! p); [case_bool_decide|]; by intros [= <-].
  - intros p w r w' H. apply disk_call_plain in H as [(e & -> & ? & He & ?)|(fs & E & <- & ?)]; [done| |done].
    injection E as [= <- <-]. split_and!; try done. apply new_descriptor_closed.
  - intros p w r w' H. apply disk_call_plain in H as [(e & -> & ? & He & ?)|(fs & E & <- & ?)]; [done| |].
    + destruct (entries (disk_files w) !! p) eqn:Ep; [done|]. injection E as [= <- <-].
      eexists. split_and!; try done; [apply new_inode_fresh|apply new_descriptor_closed].
    + intros e. destruct (_ !! p); by intros [= <-].
  - intros template w r t w' H. cbn [fsMakeTemporary disk_file_system] in H. unfold disk_make_temporary in H.
    destruct (disk_create _ w) as [r0 d'] eqn:E0. injection H as [= <- <- <-].
    split.
    { exists (replicate 6 "a"%char). split_and!; [done| |done]. by intros [? ?]%elem_of_replicate. }
    apply disk_call_plain in E0 as [(e & -> & ? & He & ?)|(fs & E & <- & ?)]; [done| |].
    + destruct (entries (disk_files w) !! _) eqn:Ep; [done|]. injection E as [= <- <-].
      eexists. split_and!; try done; [apply new_inode_fresh|apply new_descriptor_closed].
    + intros e. destruct (_ !! _); by intros [= <-].
  - intros d size w i offset writable b r w' Hs Hd Hb. cbn [fsRead disk_file_system]. unfold disk_read.
    destruct (next_disk_action size w) as [a w1] eqn:E. apply next_disk_action_run in E as [Hf Ha].
    destruct a as [e|n]; [intros [= <- <-]; tauto|]. rewrite Hf, Hd. intros [= <- <-].
    rewrite Hb. simpl. rewrite Hf. set (rest := drop offset b). destruct Ha as (? & ? & ?).
    split_and!; try done.
    + rewrite length_take. lia.
    + rewrite length_take. destruct (decide (n ≤ length rest)%nat).
      * by rewrite Nat.min_l.
      * rewrite Nat.min_r by lia. by rewrite !take_ge by lia.
    + intros Hn%(f_equal length). rewrite length_take in Hn. simpl in Hn. unfold rest in *.
      rewrite length_drop in Hn. lia.
  - intros d data w i offset b r w' Hne Hd Hb. cbn [fsWrite disk_file_system]. unfold disk_write.
    destruct (next_disk_action (length data) w) as [a w1] eqn:E. apply next_disk_action_run in E as [Hf Ha].
    destruct a as [e|n]; [intros [= <- <-]; tauto|]. rewrite Hf, Hd. intros [= <- <-].
    simpl. rewrite Hb, Nat2Z.id, Hf. destruct Ha as (? & ? & ?). split_and!; [lia|lia|done|done].
  - intros d w open r w' Hd H. apply disk_call_plain in H as [(e & -> & ? & He & ?)|(fs & E & <- & ?)]; [done| |].
    + rewrite Hd in E. destruct open; by injection E as [= <- <-].
    + rewrite Hd. intros e. by destruct open.
  - intros d size w r w' H. split.
    { cbn [fsRead disk_file_system] in H. unfold disk_read in H. destruct (next_disk_action size w) as [a w1] eqn:E.
      apply next_disk_action_signals in E. by destruct a; [|destruct (_ !! d) as [[]|]]; injection H as <- <-. }
    revert H. cbn [fsRead disk_file_system]. unfold disk_read.
    destruct (next_disk_action size w) as [a w1] eqn:E. apply next_disk_action_run in E as [Hf _].
    destruct a; [intros [= <- <-]; by left|]. rewrite Hf.
    destruct (descriptors (disk_files w) !! d) as [[i offset writable|]|] eqn:Hd; intros [= <- <-]; [|by left..].
    right. simpl. rewrite Hf. by eexists i, offset, _, writable.
  - intros d offset w r w' H. split; [by apply disk_call_signals in H|].
    apply disk_call_run in H as [(e & -> & ? & He & ?)|(fs & E & <- & ?)]; [by left|].
    destruct (descriptors (disk_files w) !! d) as [[i o writable|]|] eqn:Hd; [|done..]. injection E as [= <- <-].
    right. by eexists i, o, _, writable.
  - intros d data w r w' H. split.
    { cbn [fsWrite disk_file_system] in H. unfold disk_write in H. destruct (next_disk_action (length data) w) as [a w1] eqn:E.
      apply next_disk_action_signals in E. by destruct a; [|destruct (_ !! d) as [[? ? []|]|]]; injection H as <- <-. }
    revert H. cbn [fsWrite disk_file_system]. unfold disk_write.
    destruct (next_disk_action (length data) w) as [a w1] eqn:E. apply next_disk_action_run in E as [Hf _].
    destruct a; [intros [= <- <-]; by left|]. rewrite Hf.
    destruct (descriptors (disk_files w) !! d) as [[i offset []|]|] eqn:Hd; intros [= <- <-]; [|by left..].
    right. simpl. rewrite Hf. eexists (set_contents i _ (disk_files w)). split; [by eexists i, offset, _|].
    by eexists i, offset, _, true.
  - intros d len w r w' H. split; [by apply disk_call_signals in H|].
    apply disk_call_run in H as [(e & -> & ? & He & ?)|(fs & E & <- & ?)]; [by left|].
    destruct (descriptors (disk_files w) !! d) as [[i o []|]|] eqn:Hd; [|done..]. injection E as [= <- <-].
    right. by eexists i, o, _.
  - intros d w r w' H. split; [by apply disk_call_signals in H|].
    apply disk_call_run in H as [(e & -> & ? & He & ?)|(fs & E & <- & ?)]; [by left|].
    destruct (descriptors (disk_files w) !! d) as [open|] eqn:Hd; [|done]. right. exists open. split; [done|].
    destruct open; by injection E as [= <- <-].
  - intros d w r w' H. apply disk_call_plain in H as [(e & -> & ? & He & ?)|(fs & E & <- & ?)]; [|by injection E as [= <- <-]; auto|done].
    split; [by right; eauto|by eapply interrupt_step_le].
  - intros source destination w i r w' Hne Hi. cbn [fsRename disk_file_system]. unfold disk_rename. rewrite Hi.
    destruct (next_disk_action 0 w) as [a w1] eqn:E. apply next_disk_action_run in E as [Hf Ha].
    destruct a as [e|n]; intros [= <- <-].
    + case_bool_decide as He; simpl; rewrite ?Hf; (split; [destruct Ha as [_ Ha%interrupt_step_le]; by unfold signals in *|]).
      * subst. auto.
      * right. split; [done|by eexists].
    + split; [unfold signals in *; simpl; tauto|]. simpl. rewrite Hf. auto.
  - intros p w r w' H. apply disk_call_plain in H as [(e & -> & ? & He & ?)|(fs & E & <- & ?)]; [done| |done].
    by injection E as [= <- <-].
  - intros p w r w' H. apply disk_call_plain in H as [(e & -> & ? & He & ?)|(fs & E & <- & ?)]; [| |done].
    + split_and!; [done|by eapply interrupt_step_le|done].
    + injection E as [= <- <-]. split_and!; [done|done|]. intros names [= <-] _ n.
      rewrite list_elem_of_fmap. setoid_rewrite list_elem_of_fmap.
      setoid_rewrite list_elem_of_filter. setoid_rewrite elem_of_elements. split.
      * intros (? & [= <-] & q & -> & ? & ?). eauto.
      * intros (q & ? & ? & <-). eexists. split; [done|]. eauto.
  - intros p w r w' [= <- <-]. done.
Defined.
