(* ===== verification/CatalogStorage.v ===== *)
(** * Loading and replacing the run catalog

    [src/core/storage/src/run_catalog_storage.cpp]: the catalog is one file that is
    replaced by writing a temporary file beside it, renaming it over the old one
    and syncing the directory.  A loop carries fuel; the hooks are the calls of
    [FileSystem]. *)
From S2P Require Import Prelude Domain Bytes RunCatalogCodec Posix Paths FileSystem.
From Stdlib Require Import Ascii.

Module CatalogLoad.
Inductive RunCatalogLoadOutcome := LOADED | MISSING | INVALID | IO_FAILURE.
#[export] Instance RunCatalogLoadOutcome_eq_dec : EqDecision RunCatalogLoadOutcome.
Proof. solve_decision. Defined.
(** A codec error [NONE] is [None]. *)
Record RunCatalogLoadResult := mkLoadResult {
  outcome : RunCatalogLoadOutcome;
  codecError : option RunCatalogCodecError;
  systemError : Z }.
#[export] Instance RunCatalogLoadResult_eq_dec : EqDecision RunCatalogLoadResult.
Proof. solve_decision. Defined.
End CatalogLoad.
Export (hints) CatalogLoad.
Abbreviation RunCatalogLoadOutcome := CatalogLoad.RunCatalogLoadOutcome.
Abbreviation RunCatalogLoadResult := CatalogLoad.RunCatalogLoadResult.

Module CatalogReplace.
Inductive RunCatalogReplaceOutcome :=
  | COMMITTED | INVALID_SNAPSHOT | INVALID_EXISTING_CATALOG | GENERATION_CONFLICT | NOT_COMMITTED_IO_FAILURE
  | UNCERTAIN.
#[export] Instance RunCatalogReplaceOutcome_eq_dec : EqDecision RunCatalogReplaceOutcome.
Proof. solve_decision. Defined.
Record RunCatalogReplaceResult := mkReplaceResult {
  outcome : RunCatalogReplaceOutcome;
  codecError : option RunCatalogCodecError;
  systemError : Z;
  observedSnapshot : option RunCatalogSnapshotV1 }.
#[export] Instance RunCatalogReplaceResult_eq_dec : EqDecision RunCatalogReplaceResult.
Proof. solve_decision. Defined.
End CatalogReplace.
Export (hints) CatalogReplace.
Abbreviation RunCatalogReplaceOutcome := CatalogReplace.RunCatalogReplaceOutcome.
Abbreviation RunCatalogReplaceResult := CatalogReplace.RunCatalogReplaceResult.

Definition CATALOG_READ_BUFFER_SIZE : nat := RUN_CATALOG_V1_SIZE + 1.
Definition TEMPORARY_RANDOM_SUFFIX_LENGTH : nat := 6.

(** [RunCatalogSnapshotV1{}] *)
Definition emptyCatalog : RunCatalogSnapshotV1 := Catalog.mkRunCatalogSnapshotV1 0 None None Disposition.NONE None.

Definition catalogLoadResult (outcome : RunCatalogLoadOutcome) (codecError : option RunCatalogCodecError)
    (systemError : Z) : RunCatalogLoadResult := CatalogLoad.mkLoadResult outcome codecError systemError.

Definition ioLoadFailure (systemError : Z) : RunCatalogLoadResult :=
  catalogLoadResult CatalogLoad.IO_FAILURE None systemError.

Definition replaceResult (outcome : RunCatalogReplaceOutcome) (codecError : option RunCatalogCodecError)
    (systemError : Z) : RunCatalogReplaceResult :=
  CatalogReplace.mkReplaceResult outcome codecError systemError None.

Definition notCommitted (systemError : Z) : RunCatalogReplaceResult :=
  replaceResult CatalogReplace.NOT_COMMITTED_IO_FAILURE None systemError.

(** [temporaryPath[index] = 'X'] for the last six characters. *)
Definition resetSuffix (temporaryPath : path) : path :=
  of_chars (take (String.length temporaryPath - TEMPORARY_RANDOM_SUFFIX_LENGTH) (chars temporaryPath) ++
            replicate TEMPORARY_RANDOM_SUFFIX_LENGTH "X"%char).

(** The directory a file's entry is in. *)
Definition directory_of (p : path) : path :=
  if bool_decide (parent_path p = ""%string) then "."%string else parent_path p.

(** Whether the next snapshot may follow what is there; [None] when it may. *)
Definition checkCurrentCatalog (currentResult : RunCatalogLoadResult) (currentSnapshot nextSnapshot : RunCatalogSnapshotV1)
    : option RunCatalogReplaceResult :=
  let conflict := replaceResult CatalogReplace.GENERATION_CONFLICT None 0 in
  match CatalogLoad.outcome currentResult with
  | CatalogLoad.INVALID =>
      Some (replaceResult CatalogReplace.INVALID_EXISTING_CATALOG (CatalogLoad.codecError currentResult) 0)
  | CatalogLoad.IO_FAILURE => Some (notCommitted (CatalogLoad.systemError currentResult))
  | CatalogLoad.MISSING =>
      if bool_decide (Catalog.generation nextSnapshot ≠ 1) then Some conflict else None
  | CatalogLoad.LOADED =>
      if bool_decide (Catalog.generation currentSnapshot = UINT64_MAX) ||
         bool_decide (Catalog.generation nextSnapshot ≠ wrap64 (Catalog.generation currentSnapshot + 1))
      then Some conflict else None
  end.

Section storage.
Context {W : Type} `{FileSystem W}.

(** [do result = call(); while (result < 0 && errno == EINTR);] *)
Fixpoint retry (fuel : nat) (attempt : W → sysResult * W) : io W sysResult :=
  match fuel with
  | O => out_of_fuel
  | Datatypes.S fuel' =>
      result ← call attempt;
      match result with
      | SysError errno => if bool_decide (errno = EINTR) then retry fuel' attempt else mret result
      | SysDone _ => mret result
      end
  end.

Fixpoint retryStatus (fuel : nat) (attempt : W → status * W) : io W status :=
  match fuel with
  | O => out_of_fuel
  | Datatypes.S fuel' =>
      result ← call attempt;
      match result with
      | Some errno => if bool_decide (errno = EINTR) then retryStatus fuel' attempt else mret result
      | None => mret result
      end
  end.

Definition openCatalog (fuel : nat) (p : path) : io W sysResult := retry fuel (fsOpen false p).
Definition openDirectory (fuel : nat) (p : path) : io W sysResult := retry fuel (fsOpenDirectory p).
(** [None] when the sync succeeded, otherwise its [systemError]. *)
Definition syncFile (fuel : nat) (fd : Z) : io W status := retryStatus fuel (fsSync fd).
Definition removeTemporaryFile (fuel : nat) (p : path) : io W unit := retryStatus fuel (fsUnlink p) ;; mret tt.

(** ** Loading *)

(** The bytes read, or the error that ended the loop. *)
Fixpoint readCatalogLoop (fuel : nat) (fd : Z) (bytesRead : bytes) : io W (Z + bytes) :=
  match fuel with
  | O => out_of_fuel
  | Datatypes.S fuel' =>
      if bool_decide (length bytesRead < CATALOG_READ_BUFFER_SIZE)%nat then
        result ← call (fsRead fd (CATALOG_READ_BUFFER_SIZE - length bytesRead));
        match result with
        | ReadBytes data =>
            if bool_decide (data = []) then mret (inr bytesRead) else readCatalogLoop fuel' fd (bytesRead ++ data)
        | ReadError errno =>
            if bool_decide (errno = EINTR) then readCatalogLoop fuel' fd bytesRead else mret (inl errno)
        end
      else mret (inr bytesRead)
  end.

(** The result and the new value of [output]. *)
Definition loadRunCatalogV1 (fuel : nat) (canonicalPath : path) (output : RunCatalogSnapshotV1)
    : io W (RunCatalogLoadResult * RunCatalogSnapshotV1) :=
  descriptor ← openCatalog fuel canonicalPath;
  match descriptor with
  | SysError systemError =>
      if bool_decide (systemError = ENOENT) then
        mret (catalogLoadResult CatalogLoad.MISSING None systemError, output)
      else mret (ioLoadFailure systemError, output)
  | SysDone fd =>
      bytesRead ← readCatalogLoop fuel fd [];
      match bytesRead with
      | inl systemError => call (fsClose fd) ;; mret (ioLoadFailure systemError, output)
      | inr bytesRead =>
          closed ← call (fsClose fd);
          match closed with
          | Some errno => mret (ioLoadFailure errno, output)
          | None =>
              decoded ← decided (decodeRunCatalogV1 bytesRead);
              match decoded with
              | inl codecError => mret (catalogLoadResult CatalogLoad.INVALID (Some codecError) 0, output)
              | inr decoded => mret (catalogLoadResult CatalogLoad.LOADED None 0, decoded)
              end
          end
      end
  end.

(** ** Replacing *)
Definition uncertainResult (fuel : nat) (canonicalPath : path) (systemError : Z) : io W RunCatalogReplaceResult :=
  '(loadResult, observedSnapshot) ← loadRunCatalogV1 fuel canonicalPath emptyCatalog;
  mret (CatalogReplace.mkReplaceResult CatalogReplace.UNCERTAIN None systemError
          (if bool_decide (CatalogLoad.outcome loadResult = CatalogLoad.LOADED)
           then Some observedSnapshot else None)).

(** The descriptor of the temporary file and its name. *)
Fixpoint makeTemporary (fuel : nat) (temporaryPath : path) : io W (sysResult * path) :=
  match fuel with
  | O => out_of_fuel
  | Datatypes.S fuel' =>
      '(descriptor, temporaryPath) ← call (fsMakeTemporary (resetSuffix temporaryPath));
      match descriptor with
      | SysError errno =>
          if bool_decide (errno = EINTR) then makeTemporary fuel' temporaryPath
          else mret (descriptor, temporaryPath)
      | SysDone _ => mret (descriptor, temporaryPath)
      end
  end.

(** [None] once every byte is written. *)
Fixpoint writeCatalogLoop (fuel : nat) (fd : Z) (encoded : bytes) (bytesWritten : nat) : io W status :=
  match fuel with
  | O => out_of_fuel
  | Datatypes.S fuel' =>
      if bool_decide (bytesWritten < length encoded)%nat then
        result ← call (fsWrite fd (drop bytesWritten encoded));
        match result with
        | SysDone n =>
            if bool_decide (0 < n) then writeCatalogLoop fuel' fd encoded (bytesWritten + Z.to_nat n)
            else mret (Some EIO)
        | SysError errno =>
            if bool_decide (errno = EINTR) then writeCatalogLoop fuel' fd encoded bytesWritten
            else mret (Some errno)
        end
      else mret None
  end.

(** After the rename: the directory. *)
Definition commitDirectory (fuel : nat) (canonicalPath parentPath : path) : io W RunCatalogReplaceResult :=
  directory ← openDirectory fuel parentPath;
  match directory with
  | SysError errno => uncertainResult fuel canonicalPath errno
  | SysDone fd =>
      syncFailure ← syncFile fuel fd;
      match syncFailure with
      | Some systemError => call (fsClose fd) ;; uncertainResult fuel canonicalPath systemError
      | None =>
          closed ← call (fsClose fd);
          match closed with
          | Some errno => uncertainResult fuel canonicalPath errno
          | None => mret (replaceResult CatalogReplace.COMMITTED None 0)
          end
      end
  end.

(** The rename of the complete temporary file. *)
Definition publishTemporary (fuel : nat) (canonicalPath temporaryPath : path) : io W RunCatalogReplaceResult :=
  renamed ← call (fsRename temporaryPath canonicalPath);
  match renamed with
  | Some systemError =>
      if bool_decide (systemError = EINTR) then uncertainResult fuel canonicalPath systemError
      else removeTemporaryFile fuel temporaryPath ;; mret (notCommitted systemError)
  | None => commitDirectory fuel canonicalPath (directory_of canonicalPath)
  end.

(** The temporary file: its bytes, its sync and its close; [None] when it is complete. *)
Definition fillTemporary (fuel : nat) (temporaryPath : path) (fd : Z) (encoded : bytes)
    : io W (option RunCatalogReplaceResult) :=
  writeFailure ← writeCatalogLoop fuel fd encoded 0;
  match writeFailure with
  | Some systemError =>
      call (fsClose fd) ;; removeTemporaryFile fuel temporaryPath ;; mret (Some (notCommitted systemError))
  | None =>
      syncFailure ← syncFile fuel fd;
      match syncFailure with
      | Some systemError =>
          call (fsClose fd) ;; removeTemporaryFile fuel temporaryPath ;; mret (Some (notCommitted systemError))
      | None =>
          closed ← call (fsClose fd);
          match closed with
          | Some systemError =>
              removeTemporaryFile fuel temporaryPath ;; mret (Some (notCommitted systemError))
          | None => mret None
          end
      end
  end.

Definition replaceRunCatalogV1WithHooks (fuel : nat) (canonicalPath : path) (nextSnapshot : RunCatalogSnapshotV1)
    : io W RunCatalogReplaceResult :=
  encoded ← decided (encodeRunCatalogV1 nextSnapshot);
  match encoded with
  | inl encodeError => mret (replaceResult CatalogReplace.INVALID_SNAPSHOT (Some encodeError) 0)
  | inr encoded =>
      '(currentResult, currentSnapshot) ← loadRunCatalogV1 fuel canonicalPath emptyCatalog;
      match checkCurrentCatalog currentResult currentSnapshot nextSnapshot with
      | Some refusal => mret refusal
      | None =>
          '(temporary, temporaryPath) ← makeTemporary fuel (canonicalPath ++ ".tmp.XXXXXX")%string;
          match temporary with
          | SysError systemError => mret (notCommitted systemError)
          | SysDone fd =>
              failure ← fillTemporary fuel temporaryPath fd encoded;
              match failure with
              | Some failure => mret failure
              | None => publishTemporary fuel canonicalPath temporaryPath
              end
          end
      end
  end.
End storage.
