(* ===== verification/JournalStorage.v ===== *)
(** * Creating a run's journal

    [src/core/storage/src/run_journal_storage.cpp], the creating functions of
    [run_journal_writer.cpp], and the journal's descriptor: [FileView] is one file
    of a [FileSystem] as the [Posix] interface of the journal's code, so that the
    reader, the recovery and the writer run on a path of the file system. *)
From S2P Require Import Prelude Domain Bytes JournalCodec RunHeaderCodec Posix Paths FileSystem CatalogStorage.
From S2P Require Import JournalReader JournalWriter.

(** ** A file of the file system *)
Record JournalFile := mkJournalFile {
  journal_path : path;
  journal_descriptor : Z }.

Record FileView (W : Type) := mkView {
  view_world : W;
  view_file : JournalFile }.
Arguments mkView {_} _ _.
Arguments view_world {_} _.
Arguments view_file {_} _.

Definition status_result (s : status) : sysResult := match s with None => SysDone 0 | Some e => SysError e end.

Section view.
Context {W : Type} `{FileSystem W}.

Definition on_descriptor {A} (f : Z → W → A * W) (v : FileView W) : A * FileView W :=
  let '(a, w) := f (journal_descriptor (view_file v)) (view_world v) in (a, mkView w (view_file v)).

Definition view_open (writing : bool) (v : FileView W) : sysResult * FileView W :=
  let '(r, w) := fsOpen writing (journal_path (view_file v)) (view_world v) in
  (r, mkView w (match r with
                | SysDone fd => mkJournalFile (journal_path (view_file v)) fd
                | SysError _ => view_file v
                end)).

Definition view_status (f : Z → W → status * W) (v : FileView W) : sysResult * FileView W :=
  let '(s, v) := on_descriptor f v in (status_result s, v).

#[export] Instance view_posix : Posix (FileView W) := {|
  sysOpen := view_open;
  sysRead size := on_descriptor (λ fd, fsRead fd size);
  sysWrite data := on_descriptor (λ fd, fsWrite fd data);
  sysSeek offset := on_descriptor (λ fd, fsSeek fd offset);
  sysTruncate len := on_descriptor (λ fd, fsTruncate fd len);
  sysSync := view_status fsSync;
  sysClose := view_status fsClose |}.

(** Run a procedure of the journal's code on [file]. *)
Definition on_journal {A} (file : JournalFile) (m : io (FileView W) A) : io W (A * JournalFile) := λ w,
  let '(r, v) := m (mkView w file) in
  (match r with Ok a => Ok (a, view_file v) | Err e => Err e | OutOfBounds => OutOfBounds end, view_world v).

(** A journal not opened yet. *)
Definition unopened (p : path) : JournalFile := mkJournalFile p (-1).
End view.

(** ** Creation *)
Module JournalCreate.
Inductive RunJournalCreateOutcome := CREATED | INVALID_HEADER | PATH_ALREADY_EXISTS | IO_FAILURE | UNCERTAIN.
#[export] Instance RunJournalCreateOutcome_eq_dec : EqDecision RunJournalCreateOutcome.
Proof. solve_decision. Defined.
Record RunJournalCreateResult := mkCreateResult {
  outcome : RunJournalCreateOutcome;
  codecError : option RunHeaderCodecError;
  systemError : Z }.
End JournalCreate.
Export (hints) JournalCreate.
Abbreviation RunJournalCreateOutcome := JournalCreate.RunJournalCreateOutcome.
Abbreviation RunJournalCreateResult := JournalCreate.RunJournalCreateResult.

Definition createResult (outcome : RunJournalCreateOutcome) (codecError : option RunHeaderCodecError)
    (systemError : Z) : RunJournalCreateResult := JournalCreate.mkCreateResult outcome codecError systemError.

(** [RunJournalWriterV1] with the descriptor it owns. *)
Record OwnedWriter := mkOwnedWriter {
  owned_writer : RunJournalWriterV1;
  owned_file : JournalFile }.

Definition ENOMEM : Z := 12.

(** A header that cannot be encoded. *)
Definition unencodable (codecError : RunHeaderCodecError) : RunJournalCreateResult :=
  if bool_decide (codecError = HeaderError.ALLOCATION_FAILURE)
  then createResult JournalCreate.IO_FAILURE (Some codecError) ENOMEM
  else createResult JournalCreate.INVALID_HEADER (Some codecError) 0.

Section creation.
Context {W : Type} `{FileSystem W}.

(** [None] once every byte is written; a transfer larger than what was asked is an
    error. *)
Fixpoint writeHeaderLoop (fuel : nat) (fd : Z) (encodedHeader : bytes) (bytesWritten : nat) : io W status :=
  match fuel with
  | O => out_of_fuel
  | Datatypes.S fuel' =>
      if bool_decide (bytesWritten < length encodedHeader)%nat then
        let remaining := (length encodedHeader - bytesWritten)%nat in
        result ← call (fsWrite fd (drop bytesWritten encodedHeader));
        match result with
        | SysDone n =>
            if bool_decide (0 < n) && bool_decide (n ≤ Z.of_nat remaining) then
              writeHeaderLoop fuel' fd encodedHeader (bytesWritten + Z.to_nat n)
            else mret (Some EIO)
        | SysError errno =>
            if bool_decide (errno = EINTR) then writeHeaderLoop fuel' fd encodedHeader bytesWritten
            else mret (Some errno)
        end
      else mret None
  end.

(** [if (descriptorOutput != nullptr) hooks.closeFile(...)] *)
Definition closeRetained (retain : bool) (fd : Z) : io W unit :=
  if retain then call (fsClose fd) ;; mret tt else mret tt.

(** The directory of the new file; [retain] is whether the caller wants its descriptor. *)
Definition syncNewEntry (fuel : nat) (parentPath : path) (retain : bool) (fd : Z) : io W RunJournalCreateResult :=
  let uncertain systemError := createResult JournalCreate.UNCERTAIN None systemError in
  directory ← openDirectory fuel parentPath;
  match directory with
  | SysError directoryOpenError => closeRetained retain fd ;; mret (uncertain directoryOpenError)
  | SysDone directoryDescriptor =>
      syncFailure ← syncFile fuel directoryDescriptor;
      match syncFailure with
      | Some systemError =>
          call (fsClose directoryDescriptor) ;; closeRetained retain fd ;; mret (uncertain systemError)
      | None =>
          closed ← call (fsClose directoryDescriptor);
          match closed with
          | Some directoryCloseError => closeRetained retain fd ;; mret (uncertain directoryCloseError)
          | None => mret (createResult JournalCreate.CREATED None 0)
          end
      end
  end.

(** The result and, when it is [CREATED] and [retain], the descriptor. *)
Definition createEncodedRunJournalV1 (fuel : nat) (canonicalPath : path) (encodedHeader : bytes) (retain : bool)
    : io W (RunJournalCreateResult * option Z) :=
  created ← retry fuel (fsCreate canonicalPath);
  match created with
  | SysError systemError =>
      mret (createResult (if bool_decide (systemError = EEXIST) then JournalCreate.PATH_ALREADY_EXISTS
                          else JournalCreate.IO_FAILURE) None systemError, None)
  | SysDone fd =>
      writeFailure ← writeHeaderLoop fuel fd encodedHeader 0;
      match writeFailure with
      | Some systemError =>
          call (fsClose fd) ;; mret (createResult JournalCreate.IO_FAILURE None systemError, None)
      | None =>
          syncFailure ← syncFile fuel fd;
          match syncFailure with
          | Some systemError =>
              call (fsClose fd) ;; mret (createResult JournalCreate.UNCERTAIN None systemError, None)
          | None =>
              closed ← (if retain then mret None else call (fsClose fd));
              match closed with
              | Some errno => mret (createResult JournalCreate.UNCERTAIN None errno, None)
              | None =>
                  result ← syncNewEntry fuel (directory_of canonicalPath) retain fd;
                  mret (result, if bool_decide (JournalCreate.outcome result = JournalCreate.CREATED) && retain
                                then Some fd else None)
              end
          end
      end
  end.

Definition createRunJournalV1WithHooks (fuel : nat) (canonicalPath : path) (header : RunHeaderV1)
    : io W RunJournalCreateResult :=
  encoded ← decided (encodeRunHeaderV1 header);
  match encoded with
  | inl codecError => mret (unencodable codecError)
  | inr encoded => '(result, _) ← createEncodedRunJournalV1 fuel canonicalPath encoded false; mret result
  end.

(** The new value of [output] is [Some] only for [CREATED]. *)
Definition createRunJournalWriterV1 (fuel : nat) (canonicalPath : path) (header : RunHeaderV1)
    : io W (RunJournalCreateResult * option OwnedWriter) :=
  encoded ← decided (encodeRunHeaderV1 header);
  match encoded with
  | inl codecError => mret (unencodable codecError, None)
  | inr encodedHeader =>
      let writer := newWriter header (Z.of_nat (length encodedHeader)) in
      '(result, descriptor) ← createEncodedRunJournalV1 fuel canonicalPath encodedHeader true;
      match descriptor with
      | Some fd => mret (result, Some (mkOwnedWriter writer (mkJournalFile canonicalPath fd)))
      | None => mret (result, None)
      end
  end.

(** [~RunJournalWriterV1] *)
Definition destroyWriter (writer : option OwnedWriter) : io W unit :=
  match writer with
  | Some owned =>
      if bool_decide (0 ≤ journal_descriptor (owned_file owned))
      then call (fsClose (journal_descriptor (owned_file owned))) ;; mret tt else mret tt
  | None => mret tt
  end.
End creation.
