(* ===== verification/CatalogRun.v ===== *)
(** * Facts about the catalog's storage

    What each step of [loadRunCatalogV1] and [replaceRunCatalogV1WithHooks] does to
    the files, for any file system that keeps the laws. *)
From Stdlib Require Import Ascii.
From S2P Require Import Prelude Domain Bytes RunCatalogCodec Posix JournalReader JournalWriter JournalRecovery.
From S2P Require Import Paths FileSystem CatalogStorage JournalStorage.

(** ** The codec *)

(** The values the fields' types can hold. *)
Record typed_catalog (s : RunCatalogSnapshotV1) : Prop := {
  tc_generation : is_u64 (Catalog.generation s);
  tc_last : ∀ id, Catalog.lastReservedRunId s = Some id → is_u64 id;
  tc_active : ∀ id, Catalog.activeRunId s = Some id → is_u64 id;
  tc_retained : ∀ id, Catalog.retainedStoppedRunId s = Some id → is_u64 id;
  tc_disposition : ∀ v, Catalog.activeDisposition s = Disposition.RunCatalogDisposition_raw v → 5 < v ≤ UINT8_MAX }.

Lemma valid_catalog_typed s : valid_catalog s → typed_catalog s.
Proof.
  intros [? Hl Ha Hr Hk ???]. split; [tauto|apply Hl|apply Ha|apply Hr|].
  intros v E. by destruct (Hk v).
Qed.

Lemma isPresentZero_inv o : isPresentZero o = false → (∀ id, o = Some id → is_u64 id) → runId_ok o.
Proof.
  intros Hz%bool_decide_eq_false Hu id E. split; [by apply Hu|]. intros ->. by destruct Hz.
Qed.

Lemma encodeRunCatalogV1_cases s : typed_catalog s →
  (valid_catalog s ∧ encodeRunCatalogV1 s = Ok (catalogRecord s)) ∨ (∃ e, encodeRunCatalogV1 s = Err e).
Proof.
  intros [Hg Hl Ha Hr Hd]. destruct (validateSnapshot s) as [[]|e|] eqn:E.
  - left. assert (Hv : valid_catalog s).
    { pose proof E as E'. unfold validateSnapshot in E'.
      do 3 (let Hb := fresh "Hb" in apply fail_if_inv in E' as [Hb E']).
      apply orb_false_iff in Hb1 as [[Hb1 Hb2]%orb_false_iff Hb3].
      apply validateSnapshot_inv; try done; try by apply isPresentZero_inv.
      intros v Ev. apply negb_false_iff, bool_decide_eq_true in Hb0. rewrite Ev in Hb0. apply Hd in Ev. simpl in Hb0. lia. }
    split; [done|by apply encodeRunCatalogV1_run].
  - right. exists e. unfold encodeRunCatalogV1. by rewrite E.
  - by apply validateSnapshot_in_bounds in E.
Qed.

Lemma decodeRunCatalogV1_size b s : decodeRunCatalogV1 b = Ok s → length b = RUN_CATALOG_V1_SIZE.
Proof. intros H. unfold decodeRunCatalogV1 in H. by apply fail_if_inv in H as [Hb%bool_decide_eq_false%dec_stable _]. Qed.

(** The buffer of one byte more than a record loses nothing. *)
Lemma decode_read_buffer b : 
  match decodeRunCatalogV1 (take CATALOG_READ_BUFFER_SIZE b) with
  | Ok s => decodeRunCatalogV1 b = Ok s
  | Err _ => ∃ e, decodeRunCatalogV1 b = Err e
  | OutOfBounds => False
  end.
Proof.
  destruct (decide (length b ≤ CATALOG_READ_BUFFER_SIZE)%nat) as [Hl|Hl].
  - rewrite take_ge by done. destruct (decodeRunCatalogV1 b) eqn:E; [done|eauto|by apply decodeRunCatalogV1_in_bounds in E].
  - assert (Hd : ∀ c, length c ≠ RUN_CATALOG_V1_SIZE → ∃ e, decodeRunCatalogV1 c = Err e).
    { intros c Hc. unfold decodeRunCatalogV1. rewrite (bool_decide_eq_true_2 _ Hc). simpl. eauto. }
    unfold CATALOG_READ_BUFFER_SIZE, RUN_CATALOG_V1_SIZE in *.
    destruct (Hd (take (56 + 1) b)) as [e ->]; [rewrite length_take; lia|]. apply Hd. lia.
Qed.

(** ** What a step leaves alone *)

(** The entry [q] holds what it held, and no more may come of a loss of power. *)
Definition kept (fs fs' : Files) (q : path) : Prop :=
  live fs' q = live fs q ∧ ∀ c, survives fs' q c → survives fs q c.

Lemma kept_refl fs q : kept fs fs q.
Proof. by split. Qed.
Lemma kept_trans fs1 fs2 fs3 q : kept fs1 fs2 q → kept fs2 fs3 q → kept fs1 fs3 q.
Proof. intros [H1 H2] [H3 H4]. split; [by rewrite H3|]. eauto. Qed.

Lemma kept_descriptors f fs q : kept fs (set_descriptors f fs) q.
Proof. by split. Qed.

(** Entries, files and synced contents are those of [fs]; descriptors may differ. *)
Definition same_files (fs fs' : Files) : Prop :=
  inodes fs' = inodes fs ∧ unsynced fs' = unsynced fs ∧ entries fs' = entries fs ∧ earlier fs' = earlier fs.

Lemma same_files_refl fs : same_files fs fs.
Proof. by split. Qed.
Lemma same_files_eq fs fs' : fs' = fs → same_files fs fs'.
Proof. by intros ->. Qed.
Lemma same_files_trans fs1 fs2 fs3 : same_files fs1 fs2 → same_files fs2 fs3 → same_files fs1 fs3.
Proof. intros (?&?&?&?) (?&?&?&?). split_and!; congruence. Qed.
Lemma same_files_descriptors f fs : same_files fs (set_descriptors f fs).
Proof. by split. Qed.

Lemma same_files_kept fs fs' q : same_files fs fs' → kept fs fs' q.
Proof.
  intros (H1&H2&H3&H4). unfold kept, live, survives, possible_entries, past. rewrite H1, H3, H4. split; [done|].
  intros c (e & He & Hc). exists e. split; [done|]. unfold entry_contents in *. by rewrite H1, H2 in Hc.
Qed.

Lemma kept_intro fs fs' q : entries fs' !! q = entries fs !! q →
  (∀ e, e ∈ past fs' q → e ∈ past fs q) →
  (∀ i, Some i ∈ possible_entries fs q → inodes fs' !! i = inodes fs !! i ∧ (i ∈ unsynced fs' → i ∈ unsynced fs)) →
  kept fs fs' q.
Proof.
  intros He Hp Hi. split.
  - unfold live. rewrite He. destruct (entries fs !! q) as [i|] eqn:E; [|done]. simpl.
    apply Hi. unfold possible_entries. rewrite E. by left.
  - intros c (e & Hin & Hc). assert (Hin' : e ∈ possible_entries fs q).
    { unfold possible_entries in *. rewrite He in Hin. apply elem_of_cons in Hin as [->|?]; [by left|]. right. auto. }
    exists e. split; [done|]. destruct e as [i|]; [|done]. destruct Hc as (b & -> & Hb).
    destruct (Hi i Hin') as [E1 E2]. exists b. split; [done|]. rewrite <-E1. auto.
Qed.

(** ** Changes of the temporary file *)

(** Only [t] names the file [i]. *)
Definition private_file (fs : Files) (t : path) (i : Z) : Prop :=
  entries fs !! t = Some i ∧ ∀ q, q ≠ t → Some i ∉ possible_entries fs q.

Lemma set_entry_past_ne t e fs q : q ≠ t → past (set_entry t e fs) q = past fs q.
Proof. intros. unfold past, set_entry. simpl. by rewrite lookup_insert_ne. Qed.
Lemma set_entry_entries_ne t e fs q : q ≠ t → entries (set_entry t e fs) !! q = entries fs !! q.
Proof. intros. unfold set_entry. destruct e; simpl; [by rewrite lookup_insert_ne|by rewrite lookup_delete_ne]. Qed.
Lemma set_entry_possible_ne t e fs q : q ≠ t → possible_entries (set_entry t e fs) q = possible_entries fs q.
Proof. intros. unfold possible_entries. by rewrite set_entry_past_ne, set_entry_entries_ne. Qed.
Lemma set_entry_possible t e fs : possible_entries (set_entry t e fs) t = e :: possible_entries fs t.
Proof.
  unfold possible_entries at 1, past, set_entry. simpl. rewrite lookup_insert_eq. simpl. f_equal.
  destruct e; [by rewrite lookup_insert_eq|by rewrite lookup_delete_eq].
Qed.

Lemma kept_set_entry t e fs q : q ≠ t → kept fs (set_entry t e fs) q.
Proof.
  intros. apply kept_intro; [by apply set_entry_entries_ne|by rewrite set_entry_past_ne|done].
Qed.

Lemma kept_set_contents i b fs q : Some i ∉ possible_entries fs q → kept fs (set_contents i b fs) q.
Proof.
  intros Hi. apply kept_intro; [done|done|]. intros j Hj.
  assert (j ≠ i) by (intros ->; done). simpl. rewrite lookup_insert_ne by done. split; [done|]. set_solver.
Qed.

Lemma kept_synced i fs q : kept fs (synced i fs) q.
Proof. apply kept_intro; [done|done|]. intros j _. split; [done|]. simpl. set_solver. Qed.

Lemma past_directory_synced p fs q :
  past (directory_synced p fs) q = if in_directory p q then [] else past fs q.
Proof.
  unfold past, directory_synced. simpl. destruct (in_directory p q) eqn:E.
  - rewrite map_lookup_filter_None_2; [done|]. right. intros x _. simpl. by rewrite E.
  - destruct (earlier fs !! q) as [l|] eqn:El.
    + by rewrite (map_lookup_filter_Some_2 _ _ _ l).
    + rewrite map_lookup_filter_None_2; [done|by left].
Qed.

Lemma kept_directory_synced p fs q : kept fs (directory_synced p fs) q.
Proof.
  apply kept_intro; [done| |done]. rewrite past_directory_synced. intros e. destruct (in_directory p q); [|done].
  by intros ?%elem_of_nil.
Qed.

Lemma kept_created t i d fs q : fresh_inode fs i → q ≠ t → kept fs (created t i d fs) q.
Proof.
  intros (Hi & Hf & _) Hq. unfold created. eapply kept_trans; [apply kept_set_contents, Hf|].
  eapply kept_trans; [by apply kept_set_entry|apply kept_descriptors].
Qed.

Lemma created_private t i d fs : fresh_inode fs i → private_file (created t i d fs) t i.
Proof.
  intros (Hi & Hf & _). split; [unfold created; simpl; by rewrite lookup_insert_eq|].
  intros q Hq. change (possible_entries (created t i d fs) q) with (possible_entries (set_entry t (Some i) (set_contents i [] fs)) q).
  rewrite set_entry_possible_ne by done. apply Hf.
Qed.

(** Afterwards the entry may be what it was, or the renamed file. *)
Lemma renamed_possible t p i fs : t ≠ p → possible_entries (renamed t p i fs) p = Some i :: possible_entries fs p.
Proof. intros. unfold renamed. rewrite set_entry_possible_ne by done. apply set_entry_possible. Qed.

Lemma kept_renamed t p i fs q : q ≠ t → q ≠ p → kept fs (renamed t p i fs) q.
Proof. intros. unfold renamed. eapply kept_trans; by apply kept_set_entry. Qed.

Lemma in_directory_of p : in_directory (directory_of p) p = true.
Proof.
  unfold in_directory, directory_of. destruct (bool_decide_reflect (parent_path p = "")%string) as [E|E].
  - by rewrite orb_true_r.
  - by rewrite (bool_decide_eq_true_2 (parent_path p = parent_path p)).
Qed.

(** A complete file that is the only possibility is there after a loss of power. *)
Lemma survives_only fs p i b : possible_entries fs p = [Some i] → inodes fs !! i = Some b → i ∉ unsynced fs →
  ∀ c, survives fs p c → c = Some b.
Proof.
  intros Hp Hb Hs c (e & He & Hc). rewrite Hp in He. apply list_elem_of_singleton in He as ->.
  destruct Hc as (b' & -> & Hb'). apply Hb' in Hs. congruence.
Qed.

(** * The catalog's file is reached through the catalog's code only

    [guarded p]: no descriptor open for writing and no other name reaches a file of
    the catalog [p].  Then every call of the journal's code, and every call of the
    catalog's code but its rename, leaves what [p] holds and may hold as it was.
    [respects] lifts a preorder on the world through the procedures. *)

Definition guarded (p : path) (fs : Files) : Prop :=
  (∀ d i offset, descriptors fs !! d = Some (OpenFile i offset true) → Some i ∉ possible_entries fs p) ∧
  (∀ q i, q ≠ p → entries fs !! q = Some i → Some i ∉ possible_entries fs p).

(** The catalog is left alone. *)
Definition undisturbed (p : path) (fs fs' : Files) : Prop := guarded p fs → guarded p fs' ∧ kept fs fs' p.

#[export] Instance undisturbed_preorder p : PreOrder (undisturbed p).
Proof.
  split.
  - intros fs Hg. split; [done|apply kept_refl].
  - intros fs1 fs2 fs3 H1 H2 Hg. destruct (H1 Hg) as [Hg2 Hk1]. destruct (H2 Hg2) as [Hg3 Hk2].
    split; [done|by eapply kept_trans].
Qed.

(** ** The changes of the calls *)
Lemma guarded_intro p fs fs' :
  (∀ i, Some i ∈ possible_entries fs' p → Some i ∈ possible_entries fs p) →
  (∀ d i offset, descriptors fs' !! d = Some (OpenFile i offset true) → Some i ∉ possible_entries fs p) →
  (∀ q i, q ≠ p → entries fs' !! q = Some i → Some i ∉ possible_entries fs p) → guarded p fs'.
Proof.
  intros Hp Hd He. split.
  - intros d i offset H1 H2%Hp. by eapply Hd.
  - intros q i Hq H1 H2%Hp. by eapply He.
Qed.

Lemma undisturbed_eq p fs fs' : fs' = fs → undisturbed p fs fs'.
Proof. by intros ->. Qed.

Lemma undisturbed_close p d fs : undisturbed p fs (set_descriptors (delete d) fs).
Proof.
  intros [Hd He]. split; [|apply kept_descriptors]. split; [|done].
  intros d' i offset H. simpl in H. apply lookup_delete_Some in H as [_ H]. by eapply Hd.
Qed.

Lemma undisturbed_open p d e fs :
  (∀ i offset, e = OpenFile i offset true → Some i ∉ possible_entries fs p) → undisturbed p fs (open_descriptor d e fs).
Proof.
  intros Hi [Hd He]. split; [|apply kept_descriptors]. split; [|done].
  intros d' i offset H. simpl in H. apply lookup_insert_Some in H as [[_ ->]|[_ H]]; [by eapply Hi|by eapply Hd].
Qed.

Lemma undisturbed_repositioned p d fs fs' : repositioned d fs fs' → undisturbed p fs fs'.
Proof.
  intros (i & o & o' & w & Hd & ->) Hg. apply undisturbed_open; [|done].
  intros i' offset [= <- <- ->]. by eapply (proj1 Hg).
Qed.

Lemma undisturbed_rewritten p d fs fs' : rewritten d fs fs' → undisturbed p fs fs'.
Proof.
  intros (i & o & b & Hd & ->) Hg. split; [|apply kept_set_contents; by eapply (proj1 Hg)].
  destruct Hg. by split.
Qed.

Lemma undisturbed_synced p i fs : undisturbed p fs (synced i fs).
Proof. intros [Hd He]. split; [by split|apply kept_synced]. Qed.

Lemma undisturbed_directory_synced p directory fs : undisturbed p fs (directory_synced directory fs).
Proof.
  intros [Hd He]. split; [|apply kept_directory_synced]. apply (guarded_intro p fs); [|done|done].
  intros i. unfold possible_entries. rewrite past_directory_synced. simpl.
  destruct (in_directory directory p); rewrite !elem_of_cons; [|done]. intros [->|H%elem_of_nil]; [by left|done].
Qed.

Lemma undisturbed_unlink p q fs : q ≠ p → undisturbed p fs (set_entry q None fs).
Proof.
  intros Hq [Hd He]. split; [|by apply kept_set_entry].
  apply (guarded_intro p fs); [by rewrite set_entry_possible_ne|done|].
  intros q' i Hq' H. simpl in H. apply lookup_delete_Some in H as [_ H]. by eapply He.
Qed.

Lemma undisturbed_created p t i d fs : t ≠ p → fresh_inode fs i → undisturbed p fs (created t i d fs).
Proof.
  intros Ht Hf [Hd He]. split; [|by apply kept_created]. destruct Hf as (Hi & Hf & Hfd).
  apply (guarded_intro p fs).
  - intros j. change (possible_entries (created t i d fs) p) with (possible_entries (set_entry t (Some i) (set_contents i [] fs)) p).
    by rewrite set_entry_possible_ne.
  - intros d' j offset H. simpl in H. apply lookup_insert_Some in H as [[_ [= <- _]]|[_ H]]; [apply Hf|by eapply Hd].
  - intros q j Hq H. simpl in H. apply lookup_insert_Some in H as [[_ <-]|[_ H]]; [apply Hf|by eapply He].
Qed.

(** The rename of a complete temporary file no descriptor reaches. *)
Definition undescribed (fs : Files) (i : Z) : Prop :=
  ∀ d offset writable, descriptors fs !! d ≠ Some (OpenFile i offset writable).

Lemma guarded_renamed p t i fs : t ≠ p → private_file fs t i → undescribed fs i → guarded p fs →
  guarded p (renamed t p i fs).
Proof.
  intros Ht [Hti Hpriv] Hu [Hd He].
  assert (Hnew : ∀ j, Some j ∈ possible_entries (renamed t p i fs) p → j = i ∨ Some j ∈ possible_entries fs p).
  { intros j. rewrite renamed_possible by done. rewrite elem_of_cons. intros [[= ->]|?]; auto. }
  split.
  - intros d j offset H [->|Hj]%Hnew; [by eapply Hu|]. by eapply Hd.
  - intros q j Hq H Hj%Hnew. unfold renamed in H. simpl in H. apply lookup_delete_Some in H as [Hqt H].
    rewrite lookup_insert_ne in H by done. destruct Hj as [->|Hj]; [|by eapply He].
    apply (Hpriv q); [done|]. unfold possible_entries. rewrite H. by left.
Qed.

(** ** The catalog's procedures *)
Section catalog.
Context {W : Type} `{FileSystemLaws W} (p : path).

Definition spares (w w' : W) : Prop :=
  (pendingSignals w' ≤ pendingSignals w)%nat ∧ undisturbed p (files w) (files w').

#[export] Instance spares_preorder : PreOrder spares.
Proof.
  split; [intros w; split; [done|reflexivity]|].
  intros w1 w2 w3 [? ?] [? ?]. split; [lia|]. etrans; eassumption.
Qed.

Lemma spares_eq w w' : (pendingSignals w' ≤ pendingSignals w)%nat → files w' = files w → spares w w'.
Proof. intros Hs E. split; [done|by apply undisturbed_eq]. Qed.

Lemma spares_close d : respects spares (call (fsClose d)).
Proof.
  apply respects_call. intros w r w' [[E|[_ E]] Hs]%fsClose_law; [|by apply spares_eq].
  split; [done|]. rewrite E. apply undisturbed_close.
Qed.

Lemma spares_read d size : respects spares (call (fsRead d size)).
Proof.
  apply respects_call. intros w r w' [Hs [E|E]]%fsRead_effect; [by apply spares_eq|].
  split; [done|by eapply undisturbed_repositioned].
Qed.

Lemma spares_seek d offset : respects spares (call (fsSeek d offset)).
Proof.
  apply respects_call. intros w r w' [Hs [E|E]]%fsSeek_effect; [by apply spares_eq|].
  split; [done|by eapply undisturbed_repositioned].
Qed.

Lemma spares_write d data : respects spares (call (fsWrite d data)).
Proof.
  apply respects_call. intros w r w' [Hs [E|(fs1 & ? & ?)]]%fsWrite_effect; [by apply spares_eq|].
  split; [done|]. etrans; [by eapply undisturbed_rewritten|by eapply undisturbed_repositioned].
Qed.

Lemma spares_truncate d len : respects spares (call (fsTruncate d len)).
Proof.
  apply respects_call. intros w r w' [Hs [E|E]]%fsTruncate_effect; [by apply spares_eq|].
  split; [done|by eapply undisturbed_rewritten].
Qed.

Lemma spares_fsSync d w r w' : fsSync d w = (r, w') → spares w w'.
Proof.
  intros [Hs [E|(e & _ & E)]]%fsSync_effect; [by apply spares_eq|]. split; [done|]. rewrite E.
  destruct e; [apply undisturbed_synced|apply undisturbed_directory_synced].
Qed.

Lemma undisturbed_opened writing q d i fs : q ≠ p ∨ writing = false → entries fs !! q = Some i →
  undisturbed p fs (open_descriptor d (OpenFile i 0 writing) fs).
Proof.
  intros Hq He Hg. apply undisturbed_open; [|done]. intros i' o [= <- <- ->]. destruct Hq as [Hq|]; [|done].
  by eapply (proj2 Hg).
Qed.

Lemma spares_fsOpen writing q w r w' : q ≠ p ∨ writing = false → fsOpen writing q w = (r, w') → spares w w'.
Proof.
  intros Hq E%fsOpen_law. destruct r as [d|e].
  - destruct E as (i & Hi & _ & _ & E & Hs). split; [done|]. rewrite E. by eapply undisturbed_opened.
  - destruct E as (E & _ & Hs). apply spares_eq; [by eapply interrupt_step_le|done].
Qed.
Lemma spares_fsOpen_read q w r w' : fsOpen false q w = (r, w') → spares w w'.
Proof. apply spares_fsOpen. by right. Qed.

Lemma spares_fsOpenDirectory q w r w' : fsOpenDirectory q w = (r, w') → spares w w'.
Proof.
  intros E%fsOpenDirectory_law. destruct r as [d|e].
  - destruct E as (_ & E & Hs). split; [done|]. rewrite E. apply undisturbed_open. by intros i' o [=].
  - destruct E as (E & Hs). apply spares_eq; [by eapply interrupt_step_le|done].
Qed.

Lemma spares_fsUnlink q w r w' : q ≠ p → fsUnlink q w = (r, w') → spares w w'.
Proof.
  intros Hq E%fsUnlink_law. destruct r as [e|]; destruct E as (E & Hs).
  - apply spares_eq; [by eapply interrupt_step_le|done].
  - split; [done|]. rewrite E. by apply undisturbed_unlink.
Qed.

Lemma spares_fsCreate q w r w' : q ≠ p → fsCreate q w = (r, w') → spares w w'.
Proof.
  intros Hq E%fsCreate_law. destruct r as [d|e].
  - destruct E as (i & _ & Hf & _ & E & Hs). split; [done|]. rewrite E. by apply undisturbed_created.
  - destruct E as (E & Hs). apply spares_eq; [by eapply interrupt_step_le|done].
Qed.

Lemma spares_fsAbsolute q w r w' : fsAbsolute q w = (r, w') → spares w w'.
Proof. intros [E Hs]%fsAbsolute_law. by apply spares_eq. Qed.

Lemma spares_retry attempt fuel : (∀ w r w', attempt w = (r, w') → spares w w') → respects spares (retry fuel attempt).
Proof.
  intros Ha. induction fuel as [|fuel IH]; [apply respects_fuel, _|]. simpl.
  apply respects_bind; [apply _|by apply respects_call|]. intros [v|e]; [apply respects_ret, _|].
  case_bool_decide; [done|apply respects_ret, _].
Qed.

Lemma spares_retryStatus attempt fuel : (∀ w r w', attempt w = (r, w') → spares w w') →
  respects spares (retryStatus fuel attempt).
Proof.
  intros Ha. induction fuel as [|fuel IH]; [apply respects_fuel, _|]. simpl.
  apply respects_bind; [apply _|by apply respects_call|]. intros [e|]; [|apply respects_ret, _].
  case_bool_decide; [done|apply respects_ret, _].
Qed.

#[local] Hint Resolve spares_close spares_read spares_write : respects.

Lemma spares_openCatalog fuel q : respects spares (openCatalog fuel q).
Proof. apply spares_retry. apply spares_fsOpen_read. Qed.
Lemma spares_openDirectory fuel q : respects spares (openDirectory fuel q).
Proof. apply spares_retry. apply spares_fsOpenDirectory. Qed.
Lemma spares_syncFile fuel d : respects spares (syncFile fuel d).
Proof. apply spares_retryStatus. apply spares_fsSync. Qed.
Lemma spares_removeTemporaryFile fuel t : t ≠ p → respects spares (removeTemporaryFile fuel t).
Proof.
  intros Ht. unfold removeTemporaryFile. apply respects_bind; [apply _| |intros _; apply respects_ret, _].
  apply spares_retryStatus. intros w r w'. by apply spares_fsUnlink.
Qed.

#[local] Hint Resolve spares_openCatalog spares_openDirectory spares_syncFile spares_removeTemporaryFile : respects.

Lemma spares_readCatalogLoop fuel d : ∀ bytesRead, respects spares (readCatalogLoop fuel d bytesRead).
Proof. induction fuel as [|fuel IH]; intros b; simpl; respect. Qed.
#[local] Hint Resolve spares_readCatalogLoop : respects.

Lemma spares_loadRunCatalogV1 fuel q output : respects spares (loadRunCatalogV1 fuel q output).
Proof. unfold loadRunCatalogV1. respect. Qed.
#[local] Hint Resolve spares_loadRunCatalogV1 : respects.

Lemma spares_uncertainResult fuel q e : respects spares (uncertainResult fuel q e).
Proof. unfold uncertainResult. respect. Qed.
#[local] Hint Resolve spares_uncertainResult : respects.

Lemma spares_writeCatalogLoop fuel d encoded : ∀ n, respects spares (writeCatalogLoop fuel d encoded n).
Proof. induction fuel as [|fuel IH]; intros n; simpl; respect. Qed.
Lemma spares_writeHeaderLoop fuel d encoded : ∀ n, respects spares (writeHeaderLoop fuel d encoded n).
Proof. induction fuel as [|fuel IH]; intros n; simpl; respect. Qed.
#[local] Hint Resolve spares_writeCatalogLoop spares_writeHeaderLoop : respects.

Lemma spares_fillTemporary fuel t d encoded : t ≠ p → respects spares (fillTemporary fuel t d encoded).
Proof. intros Ht. unfold fillTemporary. respect. Qed.

Lemma spares_commitDirectory fuel q directory : respects spares (commitDirectory fuel q directory).
Proof. unfold commitDirectory. respect. Qed.

Lemma spares_destroyWriter writer : respects spares (destroyWriter writer).
Proof. unfold destroyWriter. respect. Qed.

Lemma spares_createEncodedRunJournalV1 fuel q encoded retain : q ≠ p →
  respects spares (createEncodedRunJournalV1 fuel q encoded retain).
Proof.
  intros Hq. unfold createEncodedRunJournalV1, syncNewEntry, closeRetained.
  apply respects_bind; [apply _| |].
  { apply spares_retry. intros w r w'. by apply spares_fsCreate. }
  intros r. respect.
Qed.
End catalog.

(** * Running the catalog's storage procedures

    Each loop ends within its fuel, and each procedure's effect on the files. *)

Section run.
Context {W : Type} `{FileSystemLaws W}.

(** ** Retried calls *)
Lemma retry_run attempt : ∀ fuel w,
  (∀ w0 r w', files w0 = files w → attempt w0 = (r, w') →
     match r with
     | SysDone _ => (pendingSignals w' ≤ pendingSignals w0)%nat
     | SysError e => files w' = files w0 ∧ interrupt_step e (pendingSignals w0) (pendingSignals w')
     end) →
  (pendingSignals w < fuel)%nat →
  ∃ w0 r w', retry fuel attempt w = (Ok r, w') ∧ attempt w0 = (r, w') ∧ files w0 = files w ∧
    r ≠ SysError EINTR ∧ (pendingSignals w' ≤ pendingSignals w)%nat.
Proof.
  induction fuel as [|fuel IH]; intros w Hlaw Hf; [lia|]. simpl.
  destruct (attempt w) as [r w1] eqn:E. rewrite (call_run attempt _ _ _ _ E).
  pose proof (Hlaw w r w1 eq_refl E) as Hr. destruct r as [v|e].
  - exists w, (SysDone v), w1. split_and!; done.
  - destruct Hr as [Hfiles Hi]. unfold interrupt_step in Hi. case_bool_decide as He.
    + destruct (IH w1) as (w0 & r & w' & Hrun & Ha & Hf0 & Hr & Hs); [by rewrite Hfiles|lia|].
      exists w0, r, w'. split_and!; [done|done|congruence|done|lia].
    + exists w, (SysError e), w1. split_and!; try done. by intros [= ->].
Qed.

Lemma retryStatus_run attempt : ∀ fuel w,
  (∀ w0 r w', files w0 = files w → attempt w0 = (r, w') →
     match r with
     | None => (pendingSignals w' ≤ pendingSignals w0)%nat
     | Some e => files w' = files w0 ∧ interrupt_step e (pendingSignals w0) (pendingSignals w')
     end) →
  (pendingSignals w < fuel)%nat →
  ∃ w0 r w', retryStatus fuel attempt w = (Ok r, w') ∧ attempt w0 = (r, w') ∧ files w0 = files w ∧
    (pendingSignals w' ≤ pendingSignals w)%nat.
Proof.
  induction fuel as [|fuel IH]; intros w Hlaw Hf; [lia|]. simpl.
  destruct (attempt w) as [r w1] eqn:E. rewrite (call_run attempt _ _ _ _ E).
  pose proof (Hlaw w r w1 eq_refl E) as Hr. destruct r as [e|].
  - destruct Hr as [Hfiles Hi]. unfold interrupt_step in Hi. case_bool_decide as He.
    + destruct (IH w1) as (w0 & r & w' & Hrun & Ha & Hf0 & Hs); [by rewrite Hfiles|lia|].
      exists w0, r, w'. split_and!; [done|done|congruence|lia].
    + exists w, (Some e), w1. split_and!; done.
  - exists w, None, w1. split_and!; done.
Qed.

Lemma openCatalog_run fuel p w : (pendingSignals w < fuel)%nat →
  ∃ r w', openCatalog fuel p w = (Ok r, w') ∧ (pendingSignals w' ≤ pendingSignals w)%nat ∧
    match r with
    | SysDone d => ∃ i b, entries (files w) !! p = Some i ∧ inodes (files w) !! i = Some b ∧
        files w' = open_descriptor d (OpenFile i 0 false) (files w)
    | SysError e => files w' = files w ∧ (e = ENOENT → live (files w) p = None)
    end.
Proof.
  intros Hf. destruct (retry_run (fsOpen false p) fuel w) as (w0 & r & w' & Hrun & Ha & Hf0 & Hr & Hs); [|done|].
  { intros w0 r w' _ E%fsOpen_law. destruct r; [|tauto]. by destruct E as (?&?&?&?&?&?). }
  exists r, w'. split_and!; [done|done|]. apply fsOpen_law in Ha. rewrite Hf0 in Ha. destruct r as [d|e]; [|tauto].
  destruct Ha as (i & Hi & [b Hb] & _ & ? & _). eauto 6.
Qed.

Lemma openDirectory_run fuel p w : (pendingSignals w < fuel)%nat →
  ∃ r w', openDirectory fuel p w = (Ok r, w') ∧ (pendingSignals w' ≤ pendingSignals w)%nat ∧
    match r with
    | SysDone d => files w' = open_descriptor d (OpenDirectory p) (files w)
    | SysError e => files w' = files w
    end.
Proof.
  intros Hf. destruct (retry_run (fsOpenDirectory p) fuel w) as (w0 & r & w' & Hrun & Ha & Hf0 & Hr & Hs); [|done|].
  { intros w0 r w' _ E%fsOpenDirectory_law. destruct r; tauto. }
  exists r, w'. split_and!; [done|done|]. apply fsOpenDirectory_law in Ha. rewrite Hf0 in Ha. destruct r; tauto.
Qed.

Lemma syncFile_run fuel d open w : (pendingSignals w < fuel)%nat → descriptors (files w) !! d = Some open →
  ∃ r w', syncFile fuel d w = (Ok r, w') ∧ (pendingSignals w' ≤ pendingSignals w)%nat ∧
    match r with
    | None => files w' = match open with
                         | OpenFile i _ _ => synced i (files w)
                         | OpenDirectory p => directory_synced p (files w)
                         end
    | Some e => files w' = files w
    end.
Proof.
  intros Hf Hd. destruct (retryStatus_run (fsSync d) fuel w) as (w0 & r & w' & Hrun & Ha & Hf0 & Hs); [|done|].
  { intros w0 r w' E0 E. eapply fsSync_law in E; [|by rewrite E0]. destruct r; tauto. }
  exists r, w'. split_and!; [done|done|]. eapply fsSync_law in Ha; [|by rewrite Hf0]. rewrite Hf0 in Ha.
  destruct r; tauto.
Qed.

Lemma removeTemporaryFile_run fuel t w : (pendingSignals w < fuel)%nat →
  ∃ w', removeTemporaryFile fuel t w = (Ok tt, w') ∧ (pendingSignals w' ≤ pendingSignals w)%nat ∧
    ∀ q, q ≠ t → kept (files w) (files w') q.
Proof.
  intros Hf. destruct (retryStatus_run (fsUnlink t) fuel w) as (w0 & r & w' & Hrun & Ha & Hf0 & Hs); [|done|].
  { intros w0 r w' _ E%fsUnlink_law. destruct r; tauto. }
  exists w'. unfold removeTemporaryFile. rewrite (io_bind_run _ _ _ _ _ Hrun). split_and!; [done|done|].
  intros q Hq. apply fsUnlink_law in Ha. rewrite Hf0 in Ha. destruct r as [e|].
  - destruct Ha as [-> _]. apply kept_refl.
  - destruct Ha as [-> _]. by apply kept_set_entry.
Qed.

Lemma close_run {A} d w (f : status → io W A) :
  ∃ r w', (call (fsClose d) ≫= f) w = f r w' ∧ same_files (files w) (files w') ∧
    (pendingSignals w' ≤ pendingSignals w)%nat ∧
    (r = None → files w' = set_descriptors (delete d) (files w)).
Proof.
  destruct (fsClose d w) as [r w'] eqn:E. exists r, w'. rewrite (call_run _ _ _ _ _ E).
  apply fsClose_law in E as [[->|[[? ->] ->]] Hs]; split_and!; try done; by split.
Qed.

End run.

(** Run the [close] in front of the goal. *)
Ltac closing w r w' Hsame Hs :=
  match goal with
  | |- context [(call (fsClose ?d) ≫= ?f) w] => destruct (close_run d w f) as (r & w' & -> & Hsame & Hs & ?)
  end.

Section loading.
Context {W : Type} `{FileSystemLaws W}.

(** ** Loading *)
Lemma readCatalogLoop_run d i b : ∀ fuel w bytesRead,
  inodes (files w) !! i = Some b → descriptors (files w) !! d = Some (OpenFile i (length bytesRead) false) →
  bytesRead = take (length bytesRead) b → (length bytesRead ≤ CATALOG_READ_BUFFER_SIZE)%nat →
  (pendingSignals w + (CATALOG_READ_BUFFER_SIZE - length bytesRead) < fuel)%nat →
  ∃ r w', readCatalogLoop fuel d bytesRead w = (Ok r, w') ∧ same_files (files w) (files w') ∧
    (pendingSignals w' ≤ pendingSignals w)%nat ∧
    match r with inr result => result = take CATALOG_READ_BUFFER_SIZE b | inl _ => True end.
Proof.
  induction fuel as [|fuel IH]; intros w bytesRead Hb Hd Hpre Hlen Hf; [lia|]. simpl.
  destruct (bool_decide_reflect (length bytesRead < CATALOG_READ_BUFFER_SIZE)%nat) as [Hlt|Hge].
  2: { exists (inr bytesRead), w. split_and!; [done|apply same_files_refl|done|].
       rewrite Hpre at 1. f_equal. lia. }
  destruct (fsRead d (CATALOG_READ_BUFFER_SIZE - length bytesRead) w) as [r w1] eqn:E. rewrite (call_run _ _ _ _ _ E).
  apply (fsRead_law d _ w i (length bytesRead) false b) in E; [|lia|done|done]. destruct r as [data|e].
  - destruct E as (Hsz & Hdata & Hend & Hf1 & Hs).
    assert (Hsame : same_files (files w) (files w1)) by (rewrite Hf1; apply same_files_descriptors).
    destruct (bool_decide_reflect (data = [])) as [->|Hne].
    + exists (inr bytesRead), w1. split_and!; [done|done|done|]. specialize (Hend eq_refl).
      rewrite Hpre. rewrite !take_ge by (rewrite ?length_take; lia). done.
    + destruct (IH w1 (bytesRead ++ data)) as (r & w' & Hrun & Hsame' & Hs' & Hr).
      * destruct Hsame as (-> & _). done.
      * rewrite Hf1. unfold open_descriptor. simpl. rewrite lookup_insert_eq. by rewrite length_app.
      * rewrite length_app, <-take_take_drop. rewrite <-Hpre. by rewrite <-Hdata.
      * rewrite length_app. lia.
      * rewrite length_app. destruct data; [done|]. simpl in *. lia.
      * exists r, w'. split_and!; [done|by eapply same_files_trans|lia|done].
  - destruct E as [Hf1 Hi]. unfold interrupt_step in Hi. case_bool_decide as He.
    + destruct (IH w1 bytesRead) as (r & w' & Hrun & Hsame' & Hs' & Hr); try done.
      * by rewrite Hf1.
      * by rewrite Hf1.
      * lia.
      * exists r, w'. split_and!; [done|by rewrite Hf1 in Hsame'|lia|done].
    + exists (inl e), w1. split_and!; [done|by apply same_files_eq|done|done].
Qed.

(** What a load reports of the file. *)
Definition load_reports (contents : option bytes) (output : RunCatalogSnapshotV1) (result : RunCatalogLoadResult)
    (output' : RunCatalogSnapshotV1) : Prop :=
  match CatalogLoad.outcome result with
  | CatalogLoad.LOADED => ∃ b, contents = Some b ∧ decodeRunCatalogV1 b = Ok output'
  | CatalogLoad.MISSING => contents = None ∧ output' = output
  | CatalogLoad.INVALID => (∃ b e, contents = Some b ∧ decodeRunCatalogV1 b = Err e) ∧ output' = output
  | CatalogLoad.IO_FAILURE => output' = output
  end.

Lemma loadRunCatalogV1_run fuel p output w : (pendingSignals w + CATALOG_READ_BUFFER_SIZE < fuel)%nat →
  ∃ result output' w', loadRunCatalogV1 fuel p output w = (Ok (result, output'), w') ∧
    same_files (files w) (files w') ∧ (pendingSignals w' ≤ pendingSignals w)%nat ∧
    load_reports (live (files w) p) output result output'.
Proof.
  intros Hf. unfold loadRunCatalogV1.
  destruct (openCatalog_run fuel p w) as (r & w1 & Hopen & Hs1 & Hr); [lia|].
  rewrite (io_bind_run _ _ _ _ _ Hopen). destruct r as [d|e].
  2: { destruct Hr as [Hf1 Hm]. apply same_files_eq in Hf1. case_bool_decide as He.
       - eexists _, _, _. split_and!; [reflexivity|done|done|]. split; auto.
       - eexists _, _, _. split_and!; [reflexivity|done|done|done]. }
  destruct Hr as (i & b & Hi & Hb & Hf1).
  assert (Hlive : live (files w) p = Some b) by (unfold live; by rewrite Hi).
  destruct (readCatalogLoop_run d i b fuel w1 []) as (r & w2 & Hread & Hsame2 & Hs2 & Hbytes).
  { by rewrite Hf1. } { rewrite Hf1. apply lookup_insert_eq. } { done. } { simpl. lia. } { change (length []) with 0%nat. lia. }
  assert (Hsame : same_files (files w) (files w2)).
  { eapply same_files_trans; [|done]. rewrite Hf1. apply same_files_descriptors. }
  rewrite (io_bind_run _ _ _ _ _ Hread). destruct r as [e|bytesRead].
  - closing w2 r w3 Hsame3 Hs3.
    eexists _, _, _. split_and!; [reflexivity|by eapply same_files_trans|lia|done].
  - subst bytesRead.
    closing w2 r w3 Hsame3 Hs3.
    assert (Hsame' : same_files (files w) (files w3)) by by eapply same_files_trans.
    destruct r as [e|]; [eexists _, _, _; split_and!; [reflexivity|done|lia|done]|].
    pose proof (decode_read_buffer b) as Hdec. unfold decided, mbind, io_bind, mret, io_ret.
    destruct (decodeRunCatalogV1 (take CATALOG_READ_BUFFER_SIZE b)) as [s|e|]; [| |done].
    + eexists _, _, _. split_and!; [reflexivity|done|lia|]. exists b. by split.
    + destruct Hdec as [e' He']. eexists _, _, _. split_and!; [reflexivity|done|lia|]. split; [|done]. by exists b, e'.
Qed.
End loading.
