(* ===== verification/CatalogTheorems.v ===== *)
(** * Properties of the catalog's storage *)
From S2P Require Import Prelude Domain Bytes RunCatalogCodec Posix Paths FileSystem CatalogStorage.
From S2P Require Import CatalogRun.
From Stdlib Require Import Ascii.

(** ** The temporary file's name *)
Definition temporary_name (p t : path) : Prop :=
  ∃ suffix, length suffix = 6%nat ∧ (separator ∉ suffix) ∧ t = of_chars (chars p ++ chars ".tmp." ++ suffix).

Lemma chars_of l : chars (of_chars l) = l.
Proof. apply String.list_ascii_of_string_of_list_ascii. Qed.
Lemma of_chars_chars s : of_chars (chars s) = s.
Proof. apply String.string_of_list_ascii_of_string. Qed.
Lemma chars_app s t : chars (s ++ t) = chars s ++ chars t.
Proof. unfold chars. induction s as [|c s IH]; [done|]. simpl. by f_equal. Qed.
Lemma chars_length s : length (chars s) = String.length s.
Proof. unfold chars. induction s as [|c s IH]; [done|]. simpl. by rewrite IH. Qed.

Lemma temporary_name_ne p t : temporary_name p t → t ≠ p.
Proof.
  intros (suffix & Hl & _ & ->) E%(f_equal chars). rewrite chars_of in E. apply (f_equal length) in E.
  rewrite !length_app, Hl in E. simpl in E. lia.
Qed.

Lemma template_prefix p suffix : length suffix = 6%nat →
  take (String.length (of_chars (chars p ++ chars ".tmp." ++ suffix)) - 6)
    (chars (of_chars (chars p ++ chars ".tmp." ++ suffix))) = chars p ++ chars ".tmp.".
Proof.
  intros Hl. rewrite <-chars_length, chars_of, app_assoc. rewrite length_app, Hl.
  replace (_ + 6 - 6)%nat with (length (chars p ++ chars ".tmp.")) by lia. apply take_app_length.
Qed.

Lemma resetSuffix_temporary p t : temporary_name p t → temporary_name p (resetSuffix t).
Proof.
  intros (suffix & Hl & _ & ->). unfold resetSuffix, TEMPORARY_RANDOM_SUFFIX_LENGTH. rewrite template_prefix by done.
  exists (replicate 6 "X"%char). split_and!; [done| |by rewrite <-app_assoc].
  by intros [? ?]%elem_of_replicate.
Qed.

Lemma template_temporary p : temporary_name p (p ++ ".tmp.XXXXXX")%string.
Proof.
  exists (replicate 6 "X"%char). split_and!; [done|by intros [? ?]%elem_of_replicate|].
  rewrite <-(of_chars_chars (p ++ _)%string). by rewrite chars_app.
Qed.

Section theorems.
Context {W : Type} `{FileSystemLaws W}.

Lemma makeTemporary_run p : ∀ fuel t0 w, temporary_name p t0 → (pendingSignals w < fuel)%nat →
  ∃ r t w', makeTemporary fuel t0 w = (Ok (r, t), w') ∧ temporary_name p t ∧
    (pendingSignals w' ≤ pendingSignals w)%nat ∧
    match r with
    | SysDone d => ∃ i, entries (files w) !! t = None ∧ fresh_inode (files w) i ∧ files w' = created t i d (files w)
    | SysError e => files w' = files w
    end.
Proof.
  induction fuel as [|fuel IH]; intros t0 w Ht Hf; [lia|]. simpl.
  destruct (fsMakeTemporary (resetSuffix t0) w) as [[r t] w1] eqn:E. rewrite (call_run _ _ _ _ _ E).
  apply fsMakeTemporary_law in E as [(suffix & Hl & Hsep & Et) E].
  assert (Htn : temporary_name p t).
  { apply resetSuffix_temporary in Ht as (old & Hold & _ & Ho). rewrite Ho, template_prefix in Et by done.
    exists suffix. by rewrite Et, <-app_assoc. }
  destruct r as [d|e].
  - destruct E as (i & ? & Hfresh & _ & Hf1 & Hs). exists (SysDone d), t, w1. eauto 9.
  - destruct E as [Hf1 Hi]. unfold interrupt_step in Hi. case_bool_decide as He.
    + destruct (IH t w1) as (r & t' & w' & Hrun & ? & ? & Hr); [done|lia|]. rewrite Hf1 in Hr.
      exists r, t', w'. split_and!; [done|done|lia|done].
    + exists (SysError e), t, w1. eauto.
Qed.

(** The temporary file while its first [n] bytes are written, through [d] only. *)
Definition filling (fs : Files) (t : path) (d i : Z) (n : nat) (b : bytes) : Prop :=
  private_file fs t i ∧ descriptors fs !! d = Some (OpenFile i n true) ∧ inodes fs !! i = Some b ∧
  ∀ d' o writable, descriptors fs !! d' = Some (OpenFile i o writable) → d' = d.

Lemma filling_created fs t d i : fresh_inode fs i → filling (created t i d fs) t d i 0 [].
Proof.
  intros Hf. split_and!; [by apply created_private|apply lookup_insert_eq|apply lookup_insert_eq|].
  intros d' o w Hd. simpl in Hd. apply lookup_insert_Some in Hd as [[<- _]|[_ Hd]]; [done|]. by apply Hf in Hd.
Qed.

Lemma write_at_prefix n k (e : bytes) : (n ≤ length e)%nat →
  write_at (take n e) n (take k (drop n e)) = take (n + k) e.
Proof.
  intros Hn. unfold write_at. rewrite take_take, Nat.min_id, app_assoc, take_take_drop.
  rewrite drop_ge by (rewrite length_take; lia). by rewrite app_nil_r.
Qed.

(** One write of the rest. *)
Lemma write_rest d i t (encoded : bytes) n w r w' :
  filling (files w) t d i n (take n encoded) → (n < length encoded)%nat → fsWrite d (drop n encoded) w = (r, w') →
  match r with
  | SysDone k => 0 ≤ k ≤ Z.of_nat (length encoded - n) ∧
      filling (files w') t d i (n + Z.to_nat k) (take (n + Z.to_nat k) encoded) ∧
      (∀ q, q ≠ t → kept (files w) (files w') q) ∧ (pendingSignals w' ≤ pendingSignals w)%nat
  | SysError e => files w' = files w ∧ interrupt_step e (pendingSignals w) (pendingSignals w')
  end.
Proof.
  intros (Hpriv & Hd & Hb & Honly) Hn E.
  eapply (fsWrite_law d _ w i n (take n encoded)) in E;
    [|by intros ?%(f_equal length); rewrite length_drop in *; simpl in *; lia|done|done].
  destruct r as [k|e]; [|done]. destruct E as (Hk & Hf1 & Hs). rewrite write_at_prefix in Hf1 by lia.
  rewrite length_drop in Hk. rewrite Hf1. split_and!; try lia; try done.
  - split_and!; [done|apply lookup_insert_eq|apply lookup_insert_eq|].
    intros d' o wr Hd'. simpl in Hd'. apply lookup_insert_Some in Hd' as [[<- _]|[_ Hd']]; [done|by eapply Honly].
  - intros q Hq. eapply kept_trans; [|apply kept_descriptors]. apply kept_set_contents. by apply Hpriv.
Qed.

Lemma writeCatalogLoop_run d i t encoded : ∀ fuel w n,
  filling (files w) t d i n (take n encoded) → (n ≤ length encoded)%nat →
  (pendingSignals w + (length encoded - n) < fuel)%nat →
  ∃ r w', writeCatalogLoop fuel d encoded n w = (Ok r, w') ∧ (pendingSignals w' ≤ pendingSignals w)%nat ∧
    (∀ q, q ≠ t → kept (files w) (files w') q) ∧ 
    (r = None → filling (files w') t d i (length encoded) encoded).
Proof.
  induction fuel as [|fuel IH]; intros w n Hfill Hn Hf; [lia|]. simpl.
  destruct (bool_decide_reflect (n < length encoded)%nat) as [Hlt|Hge].
  2: { exists None, w. split_and!; [done|done|intros; apply kept_refl|]. intros _.
       replace n with (length encoded) in * by lia. by rewrite take_ge in Hfill by lia. }
  destruct (fsWrite d (drop n encoded) w) as [r w1] eqn:E. rewrite (call_run _ _ _ _ _ E).
  pose proof (write_rest _ _ _ _ _ _ _ _ Hfill Hlt E) as Hr. destruct r as [k|e].
  - destruct Hr as (Hk & Hfill1 & Hkept & Hs). case_bool_decide as Hpos.
    + destruct (IH w1 (n + Z.to_nat k)%nat) as (r & w' & Hrun & Hs' & Hkept' & Hr); [done|lia|lia|].
      exists r, w'. split_and!; [done|lia| |done]. intros q Hq. eapply kept_trans; [by apply Hkept|by apply Hkept'].
    + exists (Some EIO), w1. by split_and!.
  - destruct Hr as [Hf1 Hi]. unfold interrupt_step in Hi. case_bool_decide as He.
    + destruct (IH w1 n) as (r & w' & Hrun & Hs' & Hkept' & Hr); [by rewrite Hf1|done|lia|].
      rewrite Hf1 in Hkept'. exists r, w'. split_and!; [done|lia|done|done].
    + exists (Some e), w1. rewrite Hf1. split_and!; [done|done|intros; apply kept_refl|done].
Qed.

(** A step that a failure follows: close, remove the temporary file. *)
Lemma removed_after t fuel w fs (r : option RunCatalogReplaceResult) :
  (pendingSignals w < fuel)%nat → (∀ q, q ≠ t → kept fs (files w) q) →
  ∃ w', (removeTemporaryFile fuel t ≫= λ _, mret r) w = (Ok r, w') ∧ 
    (pendingSignals w' ≤ pendingSignals w)%nat ∧ ∀ q, q ≠ t → kept fs (files w') q.
Proof.
  intros Hf Hk. destruct (removeTemporaryFile_run fuel t w Hf) as (w' & Hrun & Hs & Hkept).
  exists w'. rewrite (io_bind_run _ _ _ _ _ Hrun). split_and!; [done|done|].
  intros q Hq. eapply kept_trans; [by apply Hk|by apply Hkept].
Qed.

Lemma fillTemporary_run fuel t d i encoded w : filling (files w) t d i 0 [] →
  (pendingSignals w + length encoded < fuel)%nat →
  ∃ r w', fillTemporary fuel t d encoded w = (Ok r, w') ∧ (pendingSignals w' ≤ pendingSignals w)%nat ∧
    (∀ q, q ≠ t → kept (files w) (files w') q) ∧
    match r with
    | Some result => ∃ e, result = notCommitted e
    | None => private_file (files w') t i ∧ inodes (files w') !! i = Some encoded ∧ (i ∉ unsynced (files w')) ∧
        undescribed (files w') i
    end.
Proof.
  intros Hfill Hf. unfold fillTemporary.
  destruct (writeCatalogLoop_run d i t encoded fuel w 0) as (r & w1 & Hrun & Hs1 & Hk1 & Hr); [done|lia|lia|].
  rewrite (io_bind_run _ _ _ _ _ Hrun). destruct r as [e|].
  { closing w1 r w2 Hsame Hs2.
    destruct (removed_after t fuel w2 (files w) (Some (notCommitted e))) as (w3 & -> & Hs3 & Hk3); [lia| |].
    { intros q Hq. eapply kept_trans; [by apply Hk1|by apply same_files_kept]. }
    eexists _, w3. split_and!; [reflexivity|lia|done|by eexists]. }
  destruct (Hr eq_refl) as (Hpriv & Hd & Hb & Honly).
  destruct (syncFile_run fuel d _ w1 ltac:(lia) Hd) as (r & w2 & Hsync & Hs2 & Hf2).
  rewrite (io_bind_run _ _ _ _ _ Hsync). destruct r as [e|].
  { closing w2 r w3 Hsame Hs3.
    destruct (removed_after t fuel w3 (files w) (Some (notCommitted e))) as (w4 & -> & Hs4 & Hk4); [lia| |].
    { intros q Hq. eapply kept_trans; [by apply Hk1|]. apply same_files_kept. by rewrite Hf2 in Hsame. }
    eexists _, w4. split_and!; [reflexivity|lia|done|by eexists]. }
  closing w2 r w3 Hsame Hs3.
  assert (Hk3 : ∀ q, q ≠ t → kept (files w) (files w3) q).
  { intros q Hq. eapply kept_trans; [by apply Hk1|]. eapply kept_trans; [|by apply same_files_kept]. rewrite Hf2. apply kept_synced. }
  destruct r as [e|].
  { destruct (removed_after t fuel w3 (files w) (Some (notCommitted e))) as (w4 & -> & Hs4 & Hk4); [lia|done|].
    eexists _, w4. split_and!; [reflexivity|lia|done|by eexists]. }
  exists None, w3. split_and!; [done|lia|done|..].
  - destruct Hsame as (_ & _ & He & Hp). rewrite Hf2 in He, Hp. unfold private_file, possible_entries, past. by rewrite He, Hp.
  - destruct Hsame as (-> & _). by rewrite Hf2.
  - destruct Hsame as (_ & -> & _). rewrite Hf2. simpl. set_solver.
  - match goal with Hc : None = None → _ |- _ => rewrite (Hc eq_refl) end. rewrite Hf2. intros d' o wr Hd'. simpl in Hd'.
    apply lookup_delete_Some in Hd' as [Hne Hd']. by apply Hne, eq_sym, (Honly _ _ _ Hd').
Qed.

(** ** Publishing *)

(** After a rename whose fate is not known, or a directory that may not be synced. *)
Definition may_be_replaced (fs fs' : Files) (p : path) (b : bytes) : Prop :=
  (live fs' p = live fs p ∨ live fs' p = Some b) ∧ ∀ c, survives fs' p c → survives fs p c ∨ c = Some b.

Definition observes (fs : Files) (p : path) (result : RunCatalogReplaceResult) : Prop :=
  ∀ s, CatalogReplace.observedSnapshot result = Some s → ∃ b, live fs p = Some b ∧ decodeRunCatalogV1 b = Ok s.

Lemma may_be_replaced_kept fs fs1 fs2 p b : may_be_replaced fs fs1 p b → kept fs1 fs2 p → may_be_replaced fs fs2 p b.
Proof. intros [H1 H2] [H3 H4]. split; [by rewrite H3|]. eauto. Qed.

Lemma uncertainResult_run fuel p e w : (pendingSignals w + CATALOG_READ_BUFFER_SIZE < fuel)%nat →
  ∃ result w', uncertainResult fuel p e w = (Ok result, w') ∧ CatalogReplace.outcome result = CatalogReplace.UNCERTAIN ∧
    same_files (files w) (files w') ∧ (pendingSignals w' ≤ pendingSignals w)%nat ∧ observes (files w') p result.
Proof.
  intros Hf. unfold uncertainResult.
  destruct (loadRunCatalogV1_run fuel p emptyCatalog w Hf) as (res & out & w' & Hrun & Hsame & Hs & Hrep).
  rewrite (io_bind_run _ _ _ _ _ Hrun). eexists _, w'. split_and!; [reflexivity|done|done|done|].
  intros s. simpl. case_bool_decide as E; [|done]. intros [= <-]. unfold load_reports in Hrep. rewrite E in Hrep.
  destruct Hrep as (b & Hb & Hd). exists b. split; [|done]. destruct Hsame as (Hi & _ & He & _). unfold live in *.
  by rewrite Hi, He.
Qed.

(** What the rest of the replacement finds and leaves, once the rename is done. *)
Definition published (fs fs' : Files) (p : path) (b : bytes) (result : RunCatalogReplaceResult) : Prop :=
  match CatalogReplace.outcome result with
  | CatalogReplace.COMMITTED => live fs' p = Some b ∧ ∀ c, survives fs' p c → c = Some b
  | CatalogReplace.UNCERTAIN => may_be_replaced fs fs' p b ∧ observes fs' p result
  | CatalogReplace.NOT_COMMITTED_IO_FAILURE => kept fs fs' p
  | _ => False
  end.

Lemma commitDirectory_run fuel p fs b w : (pendingSignals w + CATALOG_READ_BUFFER_SIZE < fuel)%nat →
  may_be_replaced fs (files w) p b →
  (∃ i, entries (files w) !! p = Some i ∧ inodes (files w) !! i = Some b ∧ i ∉ unsynced (files w)) →
  ∃ result w', commitDirectory fuel p (directory_of p) w = (Ok result, w') ∧
    (pendingSignals w' ≤ pendingSignals w)%nat ∧ (∀ q, kept (files w) (files w') q) ∧ published fs (files w') p b result.
Proof.
  intros Hf Hmay (i & Hi & Hb & Hsync). unfold commitDirectory.
  assert (Huncertain : ∀ e w1, (∀ q, kept (files w) (files w1) q) → (pendingSignals w1 ≤ pendingSignals w)%nat →
    ∃ result w', uncertainResult fuel p e w1 = (Ok result, w') ∧
      (pendingSignals w' ≤ pendingSignals w)%nat ∧ (∀ q, kept (files w) (files w') q) ∧ published fs (files w') p b result).
  { intros e w1 Hk Hs. destruct (uncertainResult_run fuel p e w1) as (res & w' & Hrun & Hout & Hsame & Hs' & Hobs); [lia|].
    assert (Hk' : ∀ q, kept (files w) (files w') q) by (intros q; eapply kept_trans; [apply Hk|by apply same_files_kept]).
    exists res, w'. split_and!; [done|lia|done|]. unfold published. rewrite Hout. split; [|done].
    by eapply may_be_replaced_kept. }
  destruct (openDirectory_run fuel (directory_of p) w) as (r & w1 & Hopen & Hs1 & Hr); [lia|].
  rewrite (io_bind_run _ _ _ _ _ Hopen). destruct r as [d|e].
  2: { apply Huncertain; [|done]. intros q. rewrite Hr. apply kept_refl. }
  destruct (syncFile_run fuel d (OpenDirectory (directory_of p)) w1) as (r & w2 & Hsy & Hs2 & Hf2); [lia|by rewrite Hr; apply lookup_insert_eq|].
  rewrite (io_bind_run _ _ _ _ _ Hsy). destruct r as [e|].
  { closing w2 r w3 Hsame Hs3. apply Huncertain; [|lia]. intros q. eapply kept_trans; [|by apply same_files_kept].
    rewrite Hf2, Hr. apply kept_descriptors. }
  closing w2 r w3 Hsame Hs3.
  assert (Hk3 : ∀ q, kept (files w) (files w3) q).
  { intros q. eapply kept_trans; [|by apply same_files_kept]. rewrite Hf2.
    eapply kept_trans; [|apply kept_directory_synced]. rewrite Hr. apply kept_descriptors. }
  destruct r as [e|]; [apply Huncertain; [done|lia]|].
  eexists _, w3. split_and!; [reflexivity|lia|done|]. unfold published. simpl. destruct Hsame as (Ei & Eu & Ee & Ep).
  rewrite Hf2, Hr in Ei, Eu, Ee, Ep. simpl in Ei, Eu, Ee. split.
  - unfold live. rewrite Ee, Hi. simpl. by rewrite Ei.
  - apply (survives_only _ p i); [|by rewrite Ei|by rewrite Eu].
    unfold possible_entries, past. rewrite Ee, Hi, Ep.
    change (default [] (earlier (directory_synced (directory_of p) (open_descriptor d (OpenDirectory (directory_of p)) (files w))) !! p))
      with (past (directory_synced (directory_of p) (open_descriptor d (OpenDirectory (directory_of p)) (files w))) p).
    by rewrite past_directory_synced, in_directory_of.
Qed.

Lemma renamed_may_be_replaced fs t p i b : t ≠ p → inodes fs !! i = Some b → i ∉ unsynced fs →
  may_be_replaced fs (renamed t p i fs) p b.
Proof.
  intros Hne Hb Hs. split.
  - right. unfold live, renamed. rewrite set_entry_entries_ne by done. simpl. rewrite lookup_insert_eq. done.
  - intros c (e & He & Hc). rewrite renamed_possible in He by done. apply elem_of_cons in He as [->|He].
    + right. destruct Hc as (b' & -> & Hb'). apply Hb' in Hs. simpl in Hs. congruence.
    + left. by exists e.
Qed.

Lemma publishTemporary_run fuel p t i b w : (pendingSignals w + CATALOG_READ_BUFFER_SIZE < fuel)%nat → t ≠ p →
  private_file (files w) t i → inodes (files w) !! i = Some b → i ∉ unsynced (files w) → undescribed (files w) i →
  ∃ result w', publishTemporary fuel p t w = (Ok result, w') ∧
    (pendingSignals w' ≤ pendingSignals w)%nat ∧ (guarded p (files w) → guarded p (files w')) ∧ (∀ q, q ≠ p → q ≠ t → kept (files w) (files w') q) ∧
    published (files w) (files w') p b result.
Proof.
  intros Hf Hne Hpriv Hb Hsync Hu. unfold publishTemporary.
  destruct (fsRename t p w) as [r w1] eqn:E. rewrite (call_run _ _ _ _ _ E).
  apply (fsRename_law t p w i) in E as [Hs1 Hr]; [|done|apply Hpriv].
  assert (Hk1 : ∀ q, q ≠ p → q ≠ t → kept (files w) (files w1) q).
  { intros q ??. destruct Hr as [[-> _]|[-> _]]; [by apply kept_renamed|apply kept_refl]. }
  assert (Hg1 : guarded p (files w) → guarded p (files w1)).
  { intros Hg. destruct Hr as [[-> _]|[-> _]]; [by apply guarded_renamed|done]. }
  assert (Hmay : may_be_replaced (files w) (files w1) p b).
  { destruct Hr as [[-> _]|[-> _]]; [by apply renamed_may_be_replaced|]. split; auto. }
  destruct r as [e|].
  - destruct (bool_decide_reflect (e = EINTR)) as [->|He].
    + destruct (uncertainResult_run fuel p EINTR w1) as (res & w' & Hrun & Hout & Hsame & Hs' & Hobs); [lia|].
      exists res, w'. split_and!; [done|lia| | |].
      * intros Hg%Hg1. by eapply (spares_uncertainResult p) in Hrun as [_ [? _]].
      * intros q ??. eapply kept_trans; [by apply Hk1|by apply same_files_kept].
      * unfold published. rewrite Hout. split; [|done]. eapply may_be_replaced_kept; [done|by apply same_files_kept].
    + destruct Hr as [[_ [|]]|[Hf1 _]]; [done|congruence|].
      destruct (removeTemporaryFile_run fuel t w1) as (w' & Hrun & Hs' & Hk'); [lia|].
      rewrite (io_bind_run _ _ _ _ _ Hrun). rewrite Hf1 in Hk'.
      eexists _, w'. split_and!; [reflexivity|lia| |by intros; apply Hk'|by simpl; apply Hk'].
      intros Hg%Hg1. by eapply (spares_removeTemporaryFile p) in Hrun as [_ [? _]].
  - destruct Hr as [[Hf1 _]|[_ []]]; [|done].
    destruct (commitDirectory_run fuel p (files w) b w1) as (res & w' & Hrun & Hs' & Hk' & Hpub); [lia|done| |].
    + exists i. rewrite Hf1. split_and!; [|done|done]. unfold renamed. rewrite set_entry_entries_ne by done. apply lookup_insert_eq.
    + exists res, w'. split_and!; [done|lia| | |done].
      * intros Hg%Hg1. by eapply (spares_commitDirectory p) in Hrun as [_ [? _]].
      * intros q ??. eapply kept_trans; [by apply Hk1|done].
Qed.

(** ** The replacement *)

(** The next snapshot's generation follows the one in the file. *)
Definition follows (fs : Files) (p : path) (next : RunCatalogSnapshotV1) : Prop :=
  match live fs p with
  | None => Catalog.generation next = 1
  | Some b => ∃ current, decodeRunCatalogV1 b = Ok current ∧ Catalog.generation next = Catalog.generation current + 1
  end.

(** The contract of [replaceRunCatalogV1WithHooks], from the files before to those after. *)
Definition replacement (p : path) (next : RunCatalogSnapshotV1) (fs fs' : Files) (result : RunCatalogReplaceResult) : Prop :=
  (∀ q, q ≠ p → ¬ (temporary_name p q ∧ entries fs !! q = None) → kept fs fs' q) ∧
  match CatalogReplace.outcome result with
  | CatalogReplace.COMMITTED =>
      valid_catalog next ∧ follows fs p next ∧ live fs' p = Some (catalogRecord next) ∧
      ∀ c, survives fs' p c → c = Some (catalogRecord next)
  | CatalogReplace.UNCERTAIN =>
      valid_catalog next ∧ follows fs p next ∧ may_be_replaced fs fs' p (catalogRecord next) ∧ observes fs' p result
  | CatalogReplace.NOT_COMMITTED_IO_FAILURE => kept fs fs' p
  | CatalogReplace.INVALID_SNAPSHOT => ¬ valid_catalog next ∧ fs' = fs
  | CatalogReplace.INVALID_EXISTING_CATALOG =>
      (∃ b e, live fs p = Some b ∧ decodeRunCatalogV1 b = Err e) ∧ same_files fs fs'
  | CatalogReplace.GENERATION_CONFLICT => ¬ follows fs p next ∧ same_files fs fs'
  end.

Lemma checkCurrentCatalog_sound fs p result current next : typed_catalog next →
  load_reports (live fs p) emptyCatalog result current →
  match checkCurrentCatalog result current next with
  | None => follows fs p next
  | Some refusal =>
      match CatalogReplace.outcome refusal with
      | CatalogReplace.INVALID_EXISTING_CATALOG => ∃ b e, live fs p = Some b ∧ decodeRunCatalogV1 b = Err e
      | CatalogReplace.GENERATION_CONFLICT => ¬ follows fs p next
      | CatalogReplace.NOT_COMMITTED_IO_FAILURE => True
      | _ => False
      end
  end.
Proof.
  intros Hty Hrep. pose proof (tc_generation _ Hty) as Hg. unfold load_reports, checkCurrentCatalog, follows in *.
  destruct (CatalogLoad.outcome result).
  - destruct Hrep as (b & -> & Hd). pose proof Hd as [[[Hu _] _ _ _ _ _ _ _] _]%decodeRunCatalogV1_inv.
    unfold is_u64, UINT64_MAX in *.
    destruct (bool_decide_reflect (Catalog.generation current = 18446744073709551615)) as [E|E]; simpl.
    + intros (cur & Hc & ?). rewrite Hd in Hc. injection Hc as <-. lia.
    + rewrite wrap64_small by (unfold is_u64, UINT64_MAX; lia). case_bool_decide as E'; simpl.
      * intros (cur & Hc & ?). rewrite Hd in Hc. injection Hc as <-. lia.
      * exists current. split; [done|lia].
  - destruct Hrep as [-> _]. case_bool_decide; simpl; lia.
  - by destruct Hrep as [? _].
  - done.
Qed.

Lemma replace_refused p next fs fs' refusal current result : typed_catalog next →
  load_reports (live fs p) emptyCatalog result current → checkCurrentCatalog result current next = Some refusal →
  same_files fs fs' → replacement p next fs fs' refusal.
Proof.
  intros Hty Hrep Hcheck Hsame. apply (checkCurrentCatalog_sound _ _ _ _ next) in Hrep; [|done]. rewrite Hcheck in Hrep.
  split; [by intros; apply same_files_kept|].
  destruct (CatalogReplace.outcome refusal); try done. by apply same_files_kept.
Qed.

Lemma replace_run fuel p next w : typed_catalog next → (pendingSignals w + CATALOG_READ_BUFFER_SIZE < fuel)%nat →
  ∃ result w', replaceRunCatalogV1WithHooks fuel p next w = (Ok result, w') ∧
    (pendingSignals w' ≤ pendingSignals w)%nat ∧ replacement p next (files w) (files w') result ∧
    (guarded p (files w) → guarded p (files w')).
Proof.
  intros Hty Hf. unfold replaceRunCatalogV1WithHooks.
  destruct (encodeRunCatalogV1_cases next Hty) as [[Hvalid Henc]|[e Henc]].
  2: { unfold decided, mbind, io_bind. rewrite Henc. eexists _, w. split; [reflexivity|]. split; [done|]. split; [|done].
       split; [intros; apply kept_refl|]. split; [|done]. intros Hv%encodeRunCatalogV1_run. congruence. }
  rewrite (io_bind_run (decided _) _ w (inr (catalogRecord next)) w) by (unfold decided; by rewrite Henc). cbv iota.
  destruct (loadRunCatalogV1_run fuel p emptyCatalog w Hf) as (res & cur & w1 & Hload & Hsame1 & Hs1 & Hrep).
  assert (Hg1 : undisturbed p (files w) (files w1)) by (by apply (spares_loadRunCatalogV1 p) in Hload as [_ ?]).
  rewrite (io_bind_run _ _ _ _ _ Hload). cbv iota.
  pose proof (checkCurrentCatalog_sound (files w) p res cur next Hty Hrep) as Hcheck.
  destruct (checkCurrentCatalog res cur next) as [refusal|] eqn:Ec.
  { exists refusal, w1. split; [done|]. split; [done|]. split; [by eapply replace_refused|apply Hg1]. }
  destruct (makeTemporary_run p fuel (p ++ ".tmp.XXXXXX")%string w1 (template_temporary p)) as (r & t & w2 & Htmp & Ht & Hs2 & Hr); [lia|].
  rewrite (io_bind_run _ _ _ _ _ Htmp). cbv iota. destruct r as [d|e].
  2: { eexists _, w2. rewrite Hr. split; [reflexivity|]. split; [lia|].
       split; [|apply Hg1]. split; [intros|]; by apply same_files_kept. }
  destruct Hr as (i & Hnew & Hfresh & Hf2). pose proof (temporary_name_ne _ _ Ht) as Hne.
  replace (entries (files w1)) with (entries (files w)) in Hnew by (symmetry; apply Hsame1).
  assert (Hk2 : ∀ q, q ≠ t → kept (files w) (files w2) q).
  { intros q Hq. eapply kept_trans; [by apply same_files_kept|]. rewrite Hf2. by apply kept_created. }
  assert (Hg2 : undisturbed p (files w1) (files w2)) by (rewrite Hf2; by apply undisturbed_created).
  assert (Hfill : filling (files w2) t d i 0 []) by (rewrite Hf2; by apply filling_created).
  destruct (fillTemporary_run fuel t d i (catalogRecord next) w2 Hfill) as (r & w3 & Hfrun & Hs3 & Hk3 & Hr).
  { assert (length (catalogRecord next) = 56%nat) as -> by (unfold catalogRecord; by rewrite !length_app, catalogHead_length).
    unfold CATALOG_READ_BUFFER_SIZE, RUN_CATALOG_V1_SIZE in Hf. lia. }
  assert (Hk : ∀ q, q ≠ t → kept (files w) (files w3) q) by (intros q Hq; eapply kept_trans; [by apply Hk2|by apply Hk3]).
  assert (Hg3 : guarded p (files w) → guarded p (files w3)).
  { intros [Hg _]%Hg1. apply Hg2 in Hg as [Hg _]. by apply (spares_fillTemporary p) in Hfrun as [_ [? _]]. }
  rewrite (io_bind_run _ _ _ _ _ Hfrun). destruct r as [result|].
  { destruct Hr as [e ->]. eexists _, w3. split; [reflexivity|]. split; [lia|]. split; [|done]. split; [|simpl; apply Hk; congruence].
    intros q _ Hq. apply Hk. intros ->. by apply Hq. }
  destruct Hr as (Hpriv & Hb & Hsync & Hu).
  destruct (publishTemporary_run fuel p t i (catalogRecord next) w3) as (result & w4 & Hprun & Hs4 & Hg4 & Hk4 & Hpub); try done; [lia|].
  exists result, w4. split; [done|]. split; [lia|]. split; [|by auto]. split.
  { intros q Hq Hnt. assert (q ≠ t) by (intros ->; by apply Hnt). eapply kept_trans; [by apply Hk|by apply Hk4]. }
  assert (Hkp : kept (files w) (files w3) p) by (apply Hk; congruence).
  unfold published in Hpub. destruct (CatalogReplace.outcome result); try done.
  - by eapply kept_trans.
  - destruct Hpub as [[Hl Hsv] Hobs]. split_and!; try done. destruct Hkp as [El Esv]. split; [by rewrite <-El|].
    intros c [Hc|Hc]%Hsv; auto.
Qed.

(** C32: replacing the catalog is all or nothing, whatever calls are interrupted,
    cut short or fail, and so also when a failure of every further call stands
    for a loss of power.  With enough fuel it returns.  [COMMITTED] means that the
    path holds exactly the next snapshot's record, which alone can be there after
    a loss of power, and that the snapshot was valid and followed the generation
    that was there; [UNCERTAIN] leaves the old contents or the record, never a
    part of one, and reports only a snapshot that is there; every other outcome
    leaves the catalog as it was, for the reason it names.  No other file is
    touched but new temporary ones beside the catalog. *)
Theorem catalog_replacement_is_atomic fuel p next w :
  typed_catalog next → (pendingSignals w + 57 < fuel)%nat →
  ∃ result w', replaceRunCatalogV1WithHooks fuel p next w = (Ok result, w') ∧
    replacement p next (files w) (files w') result.
Proof. intros Hty Hf. destruct (replace_run fuel p next w Hty Hf) as (result & w' & ? & _ & ? & _). eauto. Qed.
End theorems.

Definition demoDirectory : Files :=
  mkFiles {[5 := catalogRecord demoCatalog]} ∅ {["data/catalog"%string := 5]} ∅ ∅.

Definition nextDemoCatalog : RunCatalogSnapshotV1 :=
  Catalog.mkRunCatalogSnapshotV1 4 (Some 9) (Some 9) Disposition.PAUSED (Some 8).

(** An interrupted open, a short write and an interrupted sync, and then the power
    fails before the directory is synced. *)
Definition demoDisk : Disk :=
  mkDisk demoDirectory [Interrupted; Short 100; Short 100; Short 100; Short 100; Short 100; Short 10; Short 100;
                        Interrupted; Short 1; Short 1; Short 1; Failure EIO] "data".

Lemma nextDemoCatalog_typed : typed_catalog nextDemoCatalog.
Proof. split; try (intros ? [= <-]); try done; unfold is_u64; simpl; lia. Qed.

Lemma catalog_replacement_is_atomic_witness :
  ∃ result w', replaceRunCatalogV1WithHooks 100 "data/catalog" nextDemoCatalog demoDisk = (Ok result, w') ∧
    CatalogReplace.outcome result = CatalogReplace.UNCERTAIN ∧
    replacement "data/catalog" nextDemoCatalog (files demoDisk) (files w') result.
Proof.
  destruct (catalog_replacement_is_atomic 100 "data/catalog" nextDemoCatalog demoDisk) as (result & w' & Hrun & Hrep).
  - apply nextDemoCatalog_typed.
  - apply Nat.ltb_lt. vm_compute. reflexivity.
  - exists result, w'. split; [exact Hrun|]. split; [|exact Hrep].
    assert (E : match fst (replaceRunCatalogV1WithHooks 100 "data/catalog" nextDemoCatalog demoDisk) with
                | Ok r => CatalogReplace.outcome r = CatalogReplace.UNCERTAIN | _ => False end)
      by (vm_compute; reflexivity).
    rewrite Hrun in E. exact E.
Defined.
