(* ===== verification/RunIdReservation.v ===== *)
(** * Reserving a run's identifier

    [src/core/storage/src/exchange_run_id_reservation.cpp] and the journal's path,
    [deriveCanonicalRunJournalPathV1] of [new_run_journal.cpp]. *)
From stdpp Require Import pretty.
From Stdlib Require Import Ascii.
From S2P Require Import Prelude Domain Bytes RunCatalogCodec Posix Paths FileSystem CatalogStorage CatalogRun.
From S2P Require Import CatalogTheorems.
#[local] Open Scope Z_scope.

Module Reservation.
Inductive ExchangeRunIdReservationOutcome :=
  | RESERVED | CATALOG_LOAD_FAILED | JOURNAL_PRESENT_WITHOUT_CATALOG | DATA_DIRECTORY_IO_FAILURE | EXHAUSTED
  | CATALOG_REPLACE_FAILED.
#[export] Instance ExchangeRunIdReservationOutcome_eq_dec : EqDecision ExchangeRunIdReservationOutcome.
Proof. solve_decision. Defined.
Record ExchangeRunIdReservationResult := mkReservationResult {
  outcome : ExchangeRunIdReservationOutcome;
  catalogLoad : RunCatalogLoadResult;
  catalogReplacement : option RunCatalogReplaceResult;
  systemError : Z }.
End Reservation.
Export (hints) Reservation.
Abbreviation ExchangeRunIdReservationOutcome := Reservation.ExchangeRunIdReservationOutcome.
Abbreviation ExchangeRunIdReservationResult := Reservation.ExchangeRunIdReservationResult.

(** [std::to_string] of an unsigned value *)
Definition to_string (value : Z) : string := pretty (Z.to_N value).

(** [parent_path() / ("run-" + std::to_string(id) + ".fxjr")]; it does not fail
    while memory lasts. *)
Definition deriveCanonicalRunJournalPathV1 (canonicalCatalogPath : path) (exchangeRunId : ExchangeRunId) : path :=
  join_path (parent_path canonicalCatalogPath) ("run-" ++ to_string exchangeRunId ++ ".fxjr")%string.

(** [filename.starts_with("run-") && filename.ends_with(".fxjr")] *)
Definition journal_like (name : string) : bool :=
  String.prefix "run-" name &&
  bool_decide (drop (String.length name - 5) (chars name) = chars ".fxjr").

(** The loop over the entries: whether one is found, or the error of a step. *)
Fixpoint find_journal (names : list (Z + string)) : Z + bool :=
  match names with
  | [] => inr false
  | inl error :: _ => inl error
  | inr name :: names' => if journal_like name then inr true else find_journal names'
  end.

(** The first identifier of a catalog that is not there yet. *)
Definition firstCatalog : RunCatalogSnapshotV1 := Catalog.mkRunCatalogSnapshotV1 1 (Some 1) None Disposition.NONE None.

(** The identifier after the last reserved one, and the catalog that reserves it;
    [None] when the generations or the identifiers are exhausted. *)
Definition nextReservation (current : RunCatalogSnapshotV1) : option (ExchangeRunId * RunCatalogSnapshotV1) :=
  if bool_decide (Catalog.generation current = UINT64_MAX) ||
     bool_decide (Catalog.lastReservedRunId current = Some UINT64_MAX) then None
  else
    let nextRunId := match Catalog.lastReservedRunId current with Some last => wrap64 (last + 1) | None => 1 end in
    Some (nextRunId,
          Catalog.mkRunCatalogSnapshotV1 (wrap64 (Catalog.generation current + 1)) (Some nextRunId)
            (Catalog.activeRunId current) (Catalog.activeDisposition current) (Catalog.retainedStoppedRunId current)).

Section reservation.
Context {W : Type} `{FileSystem W}.

Definition hasJournalLikeEntry (dataDirectory : path) : io W (Z + bool) :=
  entries ← call (fsIterate dataDirectory);
  mret (match entries with inl error => inl error | inr names => find_journal names end).

Definition reservationResult (outcome : ExchangeRunIdReservationOutcome) (load : RunCatalogLoadResult)
    (replacement : option RunCatalogReplaceResult) (systemError : Z) : ExchangeRunIdReservationResult :=
  Reservation.mkReservationResult outcome load replacement systemError.

(** The result and the new value of [output]. *)
Definition commitReservation (fuel : nat) (canonicalCatalogPath : path) (load : RunCatalogLoadResult)
    (proposedRunId : ExchangeRunId) (next : RunCatalogSnapshotV1) (output : ExchangeRunId)
    : io W (ExchangeRunIdReservationResult * ExchangeRunId) :=
  replacement ← replaceRunCatalogV1WithHooks fuel canonicalCatalogPath next;
  if bool_decide (CatalogReplace.outcome replacement ≠ CatalogReplace.COMMITTED) then
    mret (reservationResult Reservation.CATALOG_REPLACE_FAILED load (Some replacement) 0, output)
  else mret (reservationResult Reservation.RESERVED load (Some replacement) 0, proposedRunId).

Definition reserveNextExchangeRunId (fuel : nat) (canonicalCatalogPath : path) (output : ExchangeRunId)
    : io W (ExchangeRunIdReservationResult * ExchangeRunId) :=
  '(load, current) ← loadRunCatalogV1 fuel canonicalCatalogPath emptyCatalog;
  match CatalogLoad.outcome load with
  | CatalogLoad.INVALID | CatalogLoad.IO_FAILURE =>
      mret (reservationResult Reservation.CATALOG_LOAD_FAILED load None 0, output)
  | CatalogLoad.MISSING =>
      journalPresent ← hasJournalLikeEntry (directory_of canonicalCatalogPath);
      match journalPresent with
      | inl systemError =>
          mret (reservationResult Reservation.DATA_DIRECTORY_IO_FAILURE load None systemError, output)
      | inr true => mret (reservationResult Reservation.JOURNAL_PRESENT_WITHOUT_CATALOG load None 0, output)
      | inr false => commitReservation fuel canonicalCatalogPath load 1 firstCatalog output
      end
  | CatalogLoad.LOADED =>
      match nextReservation current with
      | None => mret (reservationResult Reservation.EXHAUSTED load None 0, output)
      | Some (proposedRunId, next) => commitReservation fuel canonicalCatalogPath load proposedRunId next output
      end
  end.
End reservation.

Example journal_like_examples : map journal_like ["run-12.fxjr"; "run-.fxjr"; "run-1.fxj"; "xrun-1.fxjr"; "run.fxjr"]%string
  = [true; true; false; false; false].
Proof. reflexivity. Qed.

Example journal_path_examples :
  [deriveCanonicalRunJournalPathV1 "/var/fx/catalog" 12; deriveCanonicalRunJournalPathV1 "catalog" 0]%string =
  ["/var/fx/run-12.fxjr"; "run-0.fxjr"]%string.
Proof. reflexivity. Qed.

(** * Run identifiers are never reused *)
#[local] Open Scope Z_scope.

Lemma find_journal_none names : find_journal names = inr false →
  ∀ x, x ∈ names → ∃ n, x = inr n ∧ journal_like n = false.
Proof.
  induction names as [|[e|n] names IH]; simpl; [by intros _ x ?%elem_of_nil|done|].
  destruct (journal_like n) eqn:E; [done|]. intros H x [->|Hx]%elem_of_cons; [by exists n|by apply IH].
Qed.

(** ** The next reservation *)
Lemma nextReservation_spec current id next : valid_catalog current → nextReservation current = Some (id, next) →
  id = default 0 (Catalog.lastReservedRunId current) + 1 ∧ is_u64 id ∧ typed_catalog next ∧
  Catalog.generation next = Catalog.generation current + 1 ∧ Catalog.lastReservedRunId next = Some id ∧
  Catalog.activeRunId next = Catalog.activeRunId current ∧
  Catalog.activeDisposition next = Catalog.activeDisposition current ∧
  Catalog.retainedStoppedRunId next = Catalog.retainedStoppedRunId current.
Proof.
  intros [[Hg _] Hl Ha Hr Hk Hd Hdist Hres]. unfold nextReservation.
  destruct (bool_decide_reflect (Catalog.generation current = UINT64_MAX)) as [|Hgm]; [done|]. simpl.
  destruct (bool_decide_reflect (Catalog.lastReservedRunId current = Some UINT64_MAX)) as [|Hlm]; [done|].
  intros [= <- <-]. unfold is_u64, UINT64_MAX in *. simpl.
  assert (Hid : match Catalog.lastReservedRunId current with Some last => wrap64 (last + 1) | None => 1 end =
                default 0 (Catalog.lastReservedRunId current) + 1 ∧
                0 ≤ default 0 (Catalog.lastReservedRunId current) + 1 ≤ 18446744073709551615).
  { destruct (Catalog.lastReservedRunId current) as [last|] eqn:E; simpl; [|lia].
    destruct (Hl last eq_refl) as [Hu _]. unfold is_u64, UINT64_MAX in Hu.
    assert (last ≠ 18446744073709551615) by congruence.
    rewrite wrap64_small by (unfold is_u64, UINT64_MAX; lia). lia. }
  destruct Hid as [Hid Hb]. rewrite Hid. split_and!; try done; try lia.
  - split; simpl.
    + rewrite wrap64_small; unfold is_u64, UINT64_MAX; lia.
    + intros x [= <-]. done.
    + intros x E. by destruct (Ha x E).
    + intros x E. by destruct (Hr x E).
    + intros v E. by destruct (Hk v).
  - rewrite wrap64_small; unfold is_u64, UINT64_MAX; lia.
Qed.

(** Every identifier a catalog mentions is below the next one. *)
Definition mentions (s : RunCatalogSnapshotV1) (id : ExchangeRunId) : Prop :=
  Catalog.lastReservedRunId s = Some id ∨ Catalog.activeRunId s = Some id ∨ Catalog.retainedStoppedRunId s = Some id.

Lemma nextReservation_above current id next other : valid_catalog current →
  nextReservation current = Some (id, next) → mentions current other → other < id.
Proof.
  intros Hv Hn Hm. pose proof (nextReservation_spec _ _ _ Hv Hn) as (-> & _).
  destruct Hm as [E|E]; [rewrite E; simpl; lia|].
  destruct (vc_reserved _ Hv other E) as (last & -> & ?). simpl. lia.
Qed.

Lemma firstCatalog_typed : typed_catalog firstCatalog.
Proof. split; simpl; try done; try (intros ? [= <-]); unfold is_u64, UINT64_MAX; lia. Qed.

(** What the catalog, and without one the directory, allow to be reserved. *)
Definition proposes (fs : Files) (p : path) (id : ExchangeRunId) (next : RunCatalogSnapshotV1) : Prop :=
  match live fs p with
  | None => id = 1 ∧ next = firstCatalog ∧
      ∀ q, q ∈ dom (entries fs) → in_directory (directory_of p) q = true → journal_like (filename q) = false
  | Some b => ∃ current, decodeRunCatalogV1 b = Ok current ∧ nextReservation current = Some (id, next)
  end.

Lemma proposes_typed fs p id next : proposes fs p id next → typed_catalog next ∧ Catalog.lastReservedRunId next = Some id.
Proof.
  unfold proposes. destruct (live fs p) as [b|].
  - intros (cur & [Hv _]%decodeRunCatalogV1_inv & Hn). apply nextReservation_spec in Hn as (_ & _ & ? & _ & ? & _); done.
  - intros (-> & -> & _). split; [apply firstCatalog_typed|done].
Qed.

Definition reservation (p : path) (output : ExchangeRunId) (fs fs' : Files) (result : ExchangeRunIdReservationResult)
    (id : ExchangeRunId) : Prop :=
  (∀ q, q ≠ p → ¬ (temporary_name p q ∧ entries fs !! q = None) → kept fs fs' q) ∧
  match Reservation.outcome result with
  | Reservation.RESERVED => ∃ next, proposes fs p id next ∧ valid_catalog next ∧
      live fs' p = Some (catalogRecord next) ∧ ∀ c, survives fs' p c → c = Some (catalogRecord next)
  | Reservation.CATALOG_REPLACE_FAILED => id = output ∧ ∃ id' next, proposes fs p id' next ∧
      (kept fs fs' p ∨ valid_catalog next ∧ may_be_replaced fs fs' p (catalogRecord next))
  | _ => id = output ∧ same_files fs fs'
  end.

Section reserving.
Context {W : Type} `{FileSystemLaws W}.

Lemma commitReservation_run fuel p load id next output fs w :
  (pendingSignals w + CATALOG_READ_BUFFER_SIZE < fuel)%nat → same_files fs (files w) → proposes fs p id next →
  ∃ result id' w', commitReservation fuel p load id next output w = (Ok (result, id'), w') ∧
    (pendingSignals w' ≤ pendingSignals w)%nat ∧ reservation p output fs (files w') result id' ∧
    (guarded p (files w) → guarded p (files w')).
Proof.
  intros Hf Hsame Hp. destruct (proposes_typed _ _ _ _ Hp) as [Hty _].
  destruct (replace_run fuel p next w Hty Hf) as (r & w' & Hrun & Hs & [Hframe Hrep] & Hg).
  assert (Hkept : ∀ q, kept fs (files w) q) by (intros q; by apply same_files_kept).
  assert (Hframe' : ∀ q, q ≠ p → ¬ (temporary_name p q ∧ entries fs !! q = None) → kept fs (files w') q).
  { intros q Hq Hn. eapply kept_trans; [apply Hkept|]. apply Hframe; [done|]. by rewrite (proj1 (proj2 (proj2 Hsame))). }
  unfold commitReservation. rewrite (io_bind_run _ _ _ _ _ Hrun).
  destruct (bool_decide_reflect (CatalogReplace.outcome r ≠ CatalogReplace.COMMITTED)) as [Hne|E].
  - eexists _, _, w'. split; [reflexivity|]. split; [done|]. split; [|done]. split; [done|]. simpl. split; [done|].
    exists id, next. split; [done|].
    assert (Hold : kept (files w) (files w') p → kept fs (files w') p) by (intros; by eapply kept_trans).
    destruct (CatalogReplace.outcome r).
    + by destruct Hne.
    + left. apply Hold. destruct Hrep as [_ ->]. apply kept_refl.
    + left. apply Hold, same_files_kept, Hrep.
    + left. apply Hold, same_files_kept, Hrep.
    + left. by apply Hold.
    + right. destruct Hrep as (? & _ & [Hl Hc] & _). split; [done|]. destruct (Hkept p) as [El Es].
      split; [by rewrite <-El|]. intros c [Hc'|]%Hc; auto.
  - apply dec_stable in E. rewrite E in Hrep. destruct Hrep as (? & _ & ? & ?).
    eexists _, _, w'. split; [reflexivity|]. split; [done|]. split; [|done]. split; [done|]. simpl. by exists next.
Qed.

Lemma reserve_run fuel p output w : (pendingSignals w + CATALOG_READ_BUFFER_SIZE < fuel)%nat →
  ∃ result id w', reserveNextExchangeRunId fuel p output w = (Ok (result, id), w') ∧
    (pendingSignals w' ≤ pendingSignals w)%nat ∧ reservation p output (files w) (files w') result id ∧
    (guarded p (files w) → guarded p (files w')).
Proof.
  intros Hf. unfold reserveNextExchangeRunId.
  destruct (loadRunCatalogV1_run fuel p emptyCatalog w Hf) as (load & current & w1 & Hload & Hsame & Hs1 & Hrep).
  rewrite (io_bind_run _ _ _ _ _ Hload). cbv iota.
  assert (Hg1 : guarded p (files w) → guarded p (files w1))
    by (apply (spares_loadRunCatalogV1 p) in Hload as [_ Hu]; by intros [? _]%Hu).
  assert (Hstay : ∀ res w', same_files (files w) (files w') →
    Reservation.outcome res ≠ Reservation.RESERVED → Reservation.outcome res ≠ Reservation.CATALOG_REPLACE_FAILED →
    reservation p output (files w) (files w') res output).
  { intros res w' Hsw H1 H2. split; [by intros; apply same_files_kept|]. by destruct (Reservation.outcome res). }
  unfold load_reports in Hrep. destruct (CatalogLoad.outcome load) eqn:Eo.
  - destruct Hrep as (b & Hb & Hd). destruct (nextReservation current) as [[id next]|] eqn:En.
    + destruct (commitReservation_run fuel p load id next output (files w) w1) as (res & id' & w' & Hc & Hs' & Hr & Hg'); [lia|done| |].
      { unfold proposes. rewrite Hb. by exists current. }
      exists res, id', w'. split; [done|]. split; [lia|]. split; [done|by auto].
    + eexists _, output, w1. split; [reflexivity|]. split; [done|]. split; [by apply Hstay|done].
  - destruct Hrep as [Hnone _]. unfold hasJournalLikeEntry.
    destruct (fsIterate (directory_of p) w1) as [es w2] eqn:Ei.
    pose proof (fsIterate_law _ _ _ _ Ei) as (Hf2 & Hs2 & Hnames).
    rewrite (io_bind_run _ _ w1 (match es with inl error => inl error | inr names => find_journal names end) w2)
      by (rewrite (call_run _ _ _ _ _ Ei); done).
    assert (Hsame2 : same_files (files w) (files w2)) by by rewrite Hf2.
    assert (Hg2 : guarded p (files w) → guarded p (files w2)) by by rewrite Hf2.
    destruct es as [e|names]; [|destruct (find_journal names) as [e|[]] eqn:Ef].
    1-3: eexists _, output, w2; (split; [reflexivity|]); (split; [lia|]); (split; [by apply Hstay|done]).
    destruct (commitReservation_run fuel p load 1 firstCatalog output (files w) w2) as (res & id' & w' & Hc & Hs' & Hr & Hg'); [lia|done| |].
    { unfold proposes. rewrite Hnone. split_and!; [done|done|]. intros q Hq Hin.
      pose proof (find_journal_none _ Ef) as Hnj. specialize (Hnames names eq_refl).
      assert (Hall : ∀ x, x ∈ names → ∃ n, x = inr n) by (intros x Hx; destruct (Hnj x Hx) as (n & ? & _); eauto).
      rewrite (proj1 (proj2 (proj2 Hsame))) in Hnames. specialize (Hnames Hall (filename q)).
      destruct (Hnj (inr (filename q))) as (n & [= <-] & ?); [apply Hnames; eauto|done]. }
    exists res, id', w'. split; [done|]. split; [lia|]. split; [done|]. rewrite Hf2 in Hg'. by auto.
  - eexists _, output, w1. split; [reflexivity|]. split; [done|]. split; [by apply Hstay|done].
  - eexists _, output, w1. split; [reflexivity|]. split; [done|]. split; [by apply Hstay|done].
Qed.
End reserving.

(** ** Journal paths *)
Lemma chars_inj s t : chars s = chars t → s = t.
Proof. intros E. rewrite <-(of_chars_chars s), <-(of_chars_chars t). by rewrite E. Qed.

Lemma append_inj_l s t u : (s ++ t)%string = (s ++ u)%string → t = u.
Proof. intros E%(f_equal chars). rewrite !chars_app in E. by apply app_inv_head, chars_inj in E. Qed.
Lemma append_inj_r s t u : (t ++ s)%string = (u ++ s)%string → t = u.
Proof. intros E%(f_equal chars). rewrite !chars_app in E. by apply app_inv_tail, chars_inj in E. Qed.

Lemma join_path_inj left n m : is_absolute n = false → is_absolute m = false →
  join_path left n = join_path left m → n = m.
Proof.
  unfold join_path. intros -> ->. destruct (last (chars left)) as [c|]; [|done].
  destruct (is_separator c); intros E; repeat apply append_inj_l in E; done.
Qed.

Lemma journal_path_inj p a b : is_u64 a → is_u64 b →
  deriveCanonicalRunJournalPathV1 p a = deriveCanonicalRunJournalPathV1 p b → a = b.
Proof.
  unfold is_u64. intros Ha Hb E. apply join_path_inj in E; [|done|done]. apply append_inj_l, append_inj_r in E.
  apply pretty.pretty_N_inj in E. lia.
Qed.

(** ** The life of a catalog *)
Section history.
Context {W : Type} `{FileSystemLaws W}.

(** What a loss of power may leave of [p]. *)
Definition power_loss (p : path) (fs fs' : Files) : Prop :=
  survives fs p (live fs' p) ∧ ∀ c, survives fs' p c → survives fs p c.

(** The identifiers handed out, the latest first, by any sequence of reservations,
    catalog changes of the kind the controller makes, other work and losses of power. *)
Inductive history (p : path) (w0 : W) : list ExchangeRunId → W → Prop :=
  | history_start : history p w0 [] w0
  | history_reserve ids w fuel output result id w' : history p w0 ids w →
      (pendingSignals w + 57 < fuel)%nat →
      reserveNextExchangeRunId fuel p output w = (Ok (result, id), w') →
      history p w0 (if bool_decide (Reservation.outcome result = Reservation.RESERVED) then id :: ids else ids) w'
  | history_transition ids w fuel b current next result w' : history p w0 ids w →
      (pendingSignals w + 57 < fuel)%nat →
      live (files w) p = Some b → decodeRunCatalogV1 b = Ok current →
      typed_catalog next → Catalog.lastReservedRunId next = Catalog.lastReservedRunId current →
      replaceRunCatalogV1WithHooks fuel p next w = (Ok result, w') → history p w0 ids w'
  | history_other ids w w' : history p w0 ids w → kept (files w) (files w') p → history p w0 ids w'
  | history_power_loss ids w w' : history p w0 ids w → power_loss p (files w) (files w') → history p w0 ids w'.

(** Every catalog that can be there has reserved at least [n]. *)
Definition reserved_up_to (p : path) (fs : Files) (n : ExchangeRunId) : Prop :=
  is_Some (live fs p) ∧
  ∀ c, survives fs p c → ∃ s last, c = Some (catalogRecord s) ∧ valid_catalog s ∧
    Catalog.lastReservedRunId s = Some last ∧ n ≤ last.

Lemma live_survives fs p b : live fs p = Some b → survives fs p (Some b).
Proof.
  unfold live. destruct (entries fs !! p) as [i|] eqn:E; [|done]. simpl. intros Hb. exists (Some i).
  split; [unfold possible_entries; rewrite E; by left|]. exists b. by split.
Qed.

Lemma reserved_live p fs n : reserved_up_to p fs n →
  ∃ s last, live fs p = Some (catalogRecord s) ∧ valid_catalog s ∧
    Catalog.lastReservedRunId s = Some last ∧ n ≤ last.
Proof.
  intros [[b Hb] Hs]. destruct (Hs _ (live_survives _ _ _ Hb)) as (s & last & [= ->] & ?). by exists s, last.
Qed.

Lemma reserved_kept p fs fs' n : reserved_up_to p fs n → kept fs fs' p → reserved_up_to p fs' n.
Proof. intros [Hl Hs] [El Es]. split; [by rewrite El|]. auto. Qed.

(** A change to [next] at most. *)
Lemma reserved_change p fs fs' n next last : reserved_up_to p fs n → valid_catalog next →
  Catalog.lastReservedRunId next = Some last → n ≤ last →
  (live fs' p = live fs p ∨ live fs' p = Some (catalogRecord next)) →
  (∀ c, survives fs' p c → survives fs p c ∨ c = Some (catalogRecord next)) → reserved_up_to p fs' n.
Proof.
  intros [Hl Hs] Hv Hlast Hn Hlive Hsv. split; [destruct Hlive as [->| ->]; [done|by eexists]|].
  intros c [Hc| ->]%Hsv; [by apply Hs|]. by exists next, last.
Qed.

Lemma reserved_committed p fs fs' n next last : reserved_up_to p fs n → valid_catalog next →
  Catalog.lastReservedRunId next = Some last → n ≤ last → live fs' p = Some (catalogRecord next) →
  (∀ c, survives fs' p c → c = Some (catalogRecord next)) → reserved_up_to p fs' n.
Proof. intros. eapply (reserved_change p fs fs' n next last); auto. Qed.

Lemma reserved_replacement p next fs fs' result n : replacement p next fs fs' result → reserved_up_to p fs n →
  (∀ s, live fs p = Some (catalogRecord s) → valid_catalog s →
     Catalog.lastReservedRunId next = Catalog.lastReservedRunId s) → reserved_up_to p fs' n.
Proof.
  intros [_ Hrep] Hres Hnext. destruct (reserved_live _ _ _ Hres) as (s & last & Hlive & Hv & Hl & Hn).
  specialize (Hnext s Hlive Hv). rewrite Hl in Hnext.
  destruct (CatalogReplace.outcome result).
  - destruct Hrep as (? & _ & Hl' & Hs'). by apply (reserved_committed p fs fs' n next last).
  - by destruct Hrep as [_ ->].
  - eapply reserved_kept, same_files_kept; [done|apply Hrep].
  - eapply reserved_kept, same_files_kept; [done|apply Hrep].
  - by eapply reserved_kept.
  - destruct Hrep as (? & _ & [Hl' Hs'] & _). by apply (reserved_change p fs fs' n next last).
Qed.

(** A failed reservation keeps what is reserved; a successful one is above it. *)
Lemma reserved_reservation p output fs fs' result id n : reservation p output fs fs' result id →
  reserved_up_to p fs n →
  reserved_up_to p fs' n ∧
  (Reservation.outcome result = Reservation.RESERVED → n < id ∧ is_u64 id).
Proof.
  intros [_ Hr] Hres. destruct (reserved_live _ _ _ Hres) as (s & last & Hlive & Hv & Hl & Hn).
  assert (Hp : ∀ id next, proposes fs p id next → id = last + 1 ∧ is_u64 id ∧ Catalog.lastReservedRunId next = Some id).
  { intros id' next. unfold proposes. rewrite Hlive. intros (cur & Hd & Hnext). rewrite decodeRunCatalogV1_run in Hd by done.
    injection Hd as <-. apply nextReservation_spec in Hnext as (-> & ? & _ & _ & ? & _); [|done]. by rewrite Hl in *. }
  assert (Hsame : same_files fs fs' → reserved_up_to p fs' n) by (intros; by eapply reserved_kept, same_files_kept).
  destruct (Reservation.outcome result).
  2-5: split; [apply Hsame, Hr|done].
  - destruct Hr as (next & (-> & Hu & Hnext)%Hp & Hvn & Hl' & Hs'). split; [|intros _; split; [lia|done]].
    apply (reserved_committed p fs fs' n next (last + 1)); [done..|lia|done|done].
  - split; [|done]. destruct Hr as [_ (id' & next & (-> & Hu & Hnext)%Hp & [Hk|[Hvn [Hl' Hs']]])]; [by eapply reserved_kept|].
    apply (reserved_change p fs fs' n next (last + 1)); [done..|lia|done|done].
Qed.

(** A fresh reservation fixes what is reserved. *)
Lemma reservation_reserves p output fs fs' result id : reservation p output fs fs' result id →
  Reservation.outcome result = Reservation.RESERVED → reserved_up_to p fs' id ∧ is_u64 id.
Proof.
  intros [_ Hr] E. rewrite E in Hr. destruct Hr as (next & Hp & Hv & Hl & Hs).
  destruct (proposes_typed _ _ _ _ Hp) as [_ Hlast]. split.
  - split; [by eexists|]. intros c ->%Hs. exists next, id. split_and!; done.
  - by apply (vc_last _ Hv id).
Qed.

(** C33: run identifiers are never reused.  In any life of a catalog, from any
    state of the files (reservations that succeed, fail or are left uncertain,
    catalog changes that keep the reservation, other work, losses of power at any
    point), the identifiers handed out strictly increase, so no two runs share an
    identifier or a journal's path. *)
Theorem run_identifiers_are_never_reused p w0 ids w : history p w0 ids w →
  StronglySorted (λ later before, before < later) ids ∧ NoDup (deriveCanonicalRunJournalPathV1 p <$> ids).
Proof.
  intros Hist.
  assert (Hinv : StronglySorted (λ later before, before < later) ids ∧
            ∀ id, id ∈ ids → is_u64 id ∧ reserved_up_to p (files w) id).
  { induction Hist as [|ids w fuel output result id w' _ [Hs Hr] Hf Hrun
      |ids w fuel b current next result w' _ [Hs Hr] Hf Hb Hd Hty Hlast Hrun|ids w w' _ [Hs Hr] Hk|ids w w' _ [Hs Hr] [Hl Hp]].
    - split; [constructor|by intros id ?%elem_of_nil].
    - destruct (reserve_run fuel p output w) as (result' & id' & w'' & Hrun' & _ & Hspec & _); [unfold CATALOG_READ_BUFFER_SIZE, RUN_CATALOG_V1_SIZE; lia|].
      rewrite Hrun in Hrun'. injection Hrun' as <- <- <-.
      assert (Hkeep : ∀ id', id' ∈ ids → is_u64 id' ∧ reserved_up_to p (files w') id').
      { intros id' Hin. destruct (Hr id' Hin) as [? Hres]. split; [done|]. by eapply reserved_reservation. }
      case_bool_decide as Eo; [|done]. pose proof (reservation_reserves _ _ _ _ _ _ Hspec Eo) as [Hnew Hu]. split.
      + constructor; [done|]. apply Forall_forall. intros id' Hin. destruct (Hr id' Hin) as [_ Hres].
        by apply (reserved_reservation _ _ _ _ _ _ _ Hspec) in Hres as [_ [? _]%(λ f, f Eo)].
      + intros id' [->|Hin]%elem_of_cons; [done|by apply Hkeep].
    - split; [done|]. intros id Hin. destruct (Hr id Hin) as [Hu Hres]. split; [done|].
      destruct (replace_run fuel p next w Hty) as (result' & w'' & Hrun' & _ & Hspec & _); [unfold CATALOG_READ_BUFFER_SIZE, RUN_CATALOG_V1_SIZE; lia|].
      rewrite Hrun in Hrun'. injection Hrun' as <- <-. eapply reserved_replacement; [done|done|].
      intros s Hs' Hv. rewrite Hb in Hs'. injection Hs' as ->. rewrite decodeRunCatalogV1_run in Hd by done. by injection Hd as <-.
    - split; [done|]. intros id Hin. destruct (Hr id Hin). split; [done|by eapply reserved_kept].
    - split; [done|]. intros id Hin. destruct (Hr id Hin) as [Hu [_ Hsv]]. split; [done|]. split; [|by auto].
      destruct (Hsv _ Hl) as (s & last & -> & _). by eexists. }
  destruct Hinv as [Hs Hu]. split; [done|]. clear Hist. induction Hs as [|id ids _ IH Hlt]; [constructor|].
  rewrite fmap_cons. constructor; [|apply IH; intros; apply Hu; by right].
  intros (id' & E & Hin)%list_elem_of_fmap. rewrite Forall_forall in Hlt. specialize (Hlt _ Hin).
  apply journal_path_inj in E; [lia| |]; apply Hu; [by left|by right].
Qed.
End history.

(** A directory without a catalog: the second reservation's directory sync fails
    after the rename, so its identifier is not handed out and is not used again. *)
Definition demoEmptyDisk : Disk := mkDisk (mkFiles ∅ ∅ ∅ ∅ ∅) [] "data".
Definition demoReserve (schedule : list action) (d : Disk) :
    checked outOfFuel (ExchangeRunIdReservationResult * ExchangeRunId) * Disk :=
  reserveNextExchangeRunId 100 "data/catalog" 0 (mkDisk (disk_files d) schedule "data").
Definition demoReserved1 : Disk := (demoReserve [] demoEmptyDisk).2.
Definition demoFailure : list action :=
  [Short 60; Short 60; Short 60; Short 60; Short 60; Short 60; Short 60; Short 60; Short 60; Short 60;
   Short 60; Short 60; Short 60; Failure EIO].
Definition demoReserved2 : Disk := (demoReserve demoFailure demoReserved1).2.
Definition demoReserved3 : Disk := (demoReserve [] demoReserved2).2.

Definition rescheduled (schedule : list action) (d : Disk) : Disk := mkDisk (disk_files d) schedule "data".

Lemma run_identifiers_are_never_reused_witness :
  StronglySorted (λ later before, before < later) [3; 1] ∧
  NoDup (deriveCanonicalRunJournalPathV1 "data/catalog" <$> [3; 1]).
Proof.
  apply (run_identifiers_are_never_reused "data/catalog" demoEmptyDisk [3; 1] demoReserved3).
  assert (Hreserve : ∀ ids w schedule result id, history "data/catalog" demoEmptyDisk ids w →
    (length schedule < 43)%nat → (demoReserve schedule w).1 = Ok (result, id) →
    history "data/catalog" demoEmptyDisk
      (if bool_decide (Reservation.outcome result = Reservation.RESERVED) then id :: ids else ids) (demoReserve schedule w).2).
  { intros ids w schedule result id Hw Hlen Hrun.
    apply (history_reserve "data/catalog" demoEmptyDisk ids (rescheduled schedule w) 100 0 result id).
    - apply (history_other _ _ _ w); [exact Hw|apply kept_refl].
    - assert (interruptions schedule ≤ length schedule)%nat.
      { clear. induction schedule as [|a s IH]; simpl; [lia|]. destruct (is_interruption a); lia. }
      change (pendingSignals (rescheduled schedule w)) with (interruptions schedule). lia.
    - change (reserveNextExchangeRunId 100 "data/catalog" 0 (rescheduled schedule w))
        with (demoReserve schedule w). destruct (demoReserve schedule w) as [r w']. simpl in *. by rewrite Hrun. }
  pose proof (Hreserve [] demoEmptyDisk [] _ 1 (history_start _ _) ltac:(simpl; lia) ltac:(vm_compute; reflexivity)) as H1.
  pose proof (Hreserve _ _ demoFailure _ 0 H1 ltac:(simpl; lia) ltac:(vm_compute; reflexivity)) as H2.
  exact (Hreserve _ _ [] _ 3 H2 ltac:(simpl; lia) ltac:(vm_compute; reflexivity)).
Defined.
