(* ===== verification/NewRun.v ===== *)
(** * A run's state, starting and recovering a run

    [src/core/recovery/include/run_state.hpp], [start_new_run.cpp] and
    [recovered_run.cpp] of [src/core/recovery/src], [new_run_journal.cpp] and
    [new_run_activation.cpp] of [src/core/storage/src]: reserve an identifier, create
    its journal, activate it in the catalog; or rebuild a run from its journal.  A
    unique pointer is an [option]; the destructor of a writer closes its journal. *)
From S2P Require Import Prelude Domain Bytes JournalCodec RunHeaderCodec RunCatalogCodec Posix Paths FileSystem.
From S2P Require Import CatalogStorage JournalReader JournalWriter JournalRecovery JournalStorage RunIdReservation.
From S2P Require Import Matching Replay Projection Queues Admission AdmissionRecovery.

(** ** The state of a run *)
Module RunState.
Record RunStateV1 := mkRunState {
  journalWriter : option OwnedWriter;
  matchingState : option MatchingState;
  admissionIndex : option CommandAdmissionIndex }.
End RunState.
Abbreviation RunStateV1 := RunState.RunStateV1.

Definition emptyRun : RunStateV1 := RunState.mkRunState None None None.

(** ** Preparing a new run's journal *)
Module NewRunConfig.
Record NewRunConfigurationV1 := mkNewRunConfiguration {
  behavioralRulesVersion : Z;
  maxEventsPerCommand : Z;
  maxRunCommands : Z;
  maxRunJournalBytes : Z;
  instruments : list RunHeaderInstrumentV1 }.
End NewRunConfig.
Abbreviation NewRunConfigurationV1 := NewRunConfig.NewRunConfigurationV1.

Module PreparedNew.
Record PreparedNewRunJournalV1 := mkPreparedNew {
  header : RunHeaderV1;
  canonicalJournalPath : path;
  writer : option OwnedWriter }.
End PreparedNew.
Abbreviation PreparedNewRunJournalV1 := PreparedNew.PreparedNewRunJournalV1.

(** [PreparedNewRunJournalV1{}] *)
Definition emptyPrepared : PreparedNewRunJournalV1 := PreparedNew.mkPreparedNew emptyHeader "" None.

Module Preparation.
Inductive NewRunJournalPreparationOutcome :=
  PREPARED | HEADER_VALIDATION_FAILED | RESERVATION_FAILED | JOURNAL_CREATION_FAILED.
#[export] Instance NewRunJournalPreparationOutcome_eq_dec : EqDecision NewRunJournalPreparationOutcome.
Proof. solve_decision. Defined.
Record NewRunJournalPreparationResult := mkPreparationResult {
  outcome : NewRunJournalPreparationOutcome;
  headerValidation : option RunHeaderCodecError;
  reservation : option ExchangeRunIdReservationResult;
  journalCreation : option RunJournalCreateResult }.
End Preparation.
Export (hints) Preparation.
Abbreviation NewRunJournalPreparationOutcome := Preparation.NewRunJournalPreparationOutcome.
Abbreviation NewRunJournalPreparationResult := Preparation.NewRunJournalPreparationResult.

Definition headerOf (exchangeRunId : ExchangeRunId) (configuration : NewRunConfigurationV1) : RunHeaderV1 :=
  Header.mkRunHeaderV1 exchangeRunId (NewRunConfig.behavioralRulesVersion configuration)
    (NewRunConfig.maxEventsPerCommand configuration) (NewRunConfig.maxRunCommands configuration)
    (NewRunConfig.maxRunJournalBytes configuration) (NewRunConfig.instruments configuration).

(** ** Activating it *)
Module Activation.
Inductive NewRunActivationOutcome :=
  | ACTIVATED | MISSING_WRITER | ZERO_EXCHANGE_RUN_ID | NONCANONICAL_JOURNAL_PATH | CATALOG_LOAD_FAILED
  | LAST_RESERVED_RUN_ID_MISMATCH | ACTIVE_RUN_EXISTS | GENERATION_EXHAUSTED | CATALOG_REPLACE_FAILED.
#[export] Instance NewRunActivationOutcome_eq_dec : EqDecision NewRunActivationOutcome.
Proof. solve_decision. Defined.
Record NewRunActivationResult := mkActivationResult {
  outcome : NewRunActivationOutcome;
  catalogLoad : option RunCatalogLoadResult;
  catalogReplacement : option RunCatalogReplaceResult }.
End Activation.
Export (hints) Activation.
Abbreviation NewRunActivationOutcome := Activation.NewRunActivationOutcome.
Abbreviation NewRunActivationResult := Activation.NewRunActivationResult.

Module StartRun.
Inductive StartNewRunOutcome :=
  | STARTED | PREPARATION_FAILED | CAPACITY_UNREPRESENTABLE | ALLOCATION_FAILURE | STATE_CONSTRUCTION_FAILED
  | ACTIVATION_FAILED.
#[export] Instance StartNewRunOutcome_eq_dec : EqDecision StartNewRunOutcome.
Proof. solve_decision. Defined.
Record StartNewRunResult := mkStartResult {
  outcome : StartNewRunOutcome;
  preparation : NewRunJournalPreparationResult;
  activation : option NewRunActivationResult }.
End StartRun.
Export (hints) StartRun.
Abbreviation StartNewRunOutcome := StartRun.StartNewRunOutcome.
Abbreviation StartNewRunResult := StartRun.StartNewRunResult.

(** A generation that has a next one, and the catalog after a change. *)
Definition nextGeneration (catalog : RunCatalogSnapshotV1) (activeRunId : option ExchangeRunId)
    (disposition : RunCatalogDisposition) (retainedStoppedRunId : option ExchangeRunId) : RunCatalogSnapshotV1 :=
  Catalog.mkRunCatalogSnapshotV1 (wrap64 (Catalog.generation catalog + 1)) (Catalog.lastReservedRunId catalog)
    activeRunId disposition retainedStoppedRunId.

(** The catalog with the run active, or why it may not be. *)
Definition activateIn (current : RunCatalogSnapshotV1) (exchangeRunId : ExchangeRunId)
    : NewRunActivationOutcome + RunCatalogSnapshotV1 :=
  if bool_decide (Catalog.lastReservedRunId current ≠ Some exchangeRunId) then
    inl Activation.LAST_RESERVED_RUN_ID_MISMATCH
  else if bool_decide (is_Some (Catalog.activeRunId current)) then inl Activation.ACTIVE_RUN_EXISTS
  else if bool_decide (Catalog.generation current = UINT64_MAX) then inl Activation.GENERATION_EXHAUSTED
  else inr (nextGeneration current (Some exchangeRunId) Disposition.OPEN (Catalog.retainedStoppedRunId current)).

(** The two values [constructEmptyRunStateV1] assigns, or why it assigns none. *)
Definition constructEmptyRunStateV1 (exchangeRunId : ExchangeRunId) (maxRunCommands : Z)
    : StartNewRunOutcome + (MatchingState * CommandAdmissionIndex) :=
  if bool_decide (SIZE_MAX < maxRunCommands) then inl StartRun.CAPACITY_UNREPRESENTABLE
  else match newRunBoundIndex maxRunCommands exchangeRunId with
       | Ret admissionIndex => inr (newMatchingState exchangeRunId, admissionIndex)
       | Throw _ => inl StartRun.STATE_CONSTRUCTION_FAILED
       end.

(** ** Recovered runs *)
Module Recovered.
Inductive RecoveredRunOutcome := RECOVERED | PREPARATION_FAILED | REPLAY_FAILED | ADMISSION_FAILED.
#[export] Instance RecoveredRunOutcome_eq_dec : EqDecision RecoveredRunOutcome.
Proof. solve_decision. Defined.
Record RecoveredRunResult := mkRecoveredResult {
  outcome : RecoveredRunOutcome;
  preparation : RunJournalRecoveryResult;
  replay : option RunJournalReplayResult;
  admission : option CommandAdmissionRecoveryResult }.
End Recovered.
Export (hints) Recovered.
Abbreviation RecoveredRunOutcome := Recovered.RecoveredRunOutcome.
Abbreviation RecoveredRunResult := Recovered.RecoveredRunResult.

Definition emptyReplayed : ReplayedRunJournalV1 := Replayed.mkReplayed [] None.

Section runs.
Context {W : Type} `{FileSystem W}.

(** A function declared [noexcept]: an exception that leaves it ends the program. *)
Definition noexceptly {A} (m : outcome A) : io W A :=
  match m with
  | Ret a => mret a
  | Throw Prelude.out_of_fuel => out_of_fuel
  | Throw _ => out_of_bounds
  end.

(** The result and the new value of [output]. *)
Definition prepareNewRunJournalV1 (fuel : nat) (canonicalCatalogPath : path) (configuration : NewRunConfigurationV1)
    (output : PreparedNewRunJournalV1) : io W (NewRunJournalPreparationResult * PreparedNewRunJournalV1) :=
  let failed outcome validation reservation creation :=
    (Preparation.mkPreparationResult outcome validation reservation creation, output) in
  validation ← decided (encodeRunHeaderV1 (headerOf 1 configuration));
  match validation with
  | inl error => mret (failed Preparation.HEADER_VALIDATION_FAILED (Some error) None None)
  | inr _ =>
      '(reservation, reservedRunId) ← reserveNextExchangeRunId fuel canonicalCatalogPath 0;
      if bool_decide (Reservation.outcome reservation ≠ Reservation.RESERVED) then
        mret (failed Preparation.RESERVATION_FAILED None (Some reservation) None)
      else
        let header := headerOf reservedRunId configuration in
        let canonicalJournalPath := deriveCanonicalRunJournalPathV1 canonicalCatalogPath reservedRunId in
        '(creation, writer) ← createRunJournalWriterV1 fuel canonicalJournalPath header;
        if bool_decide (JournalCreate.outcome creation ≠ JournalCreate.CREATED) then
          mret (failed Preparation.JOURNAL_CREATION_FAILED None (Some reservation) (Some creation))
        else
          mret (Preparation.mkPreparationResult Preparation.PREPARED None (Some reservation) (Some creation),
                PreparedNew.mkPreparedNew header canonicalJournalPath writer)
  end.

Definition activatePreparedNewRunV1 (fuel : nat) (canonicalCatalogPath : path) (prepared : PreparedNewRunJournalV1)
    : io W NewRunActivationResult :=
  let exchangeRunId := Header.exchangeRunId (PreparedNew.header prepared) in
  match PreparedNew.writer prepared with
  | None => mret (Activation.mkActivationResult Activation.MISSING_WRITER None None)
  | Some _ =>
      if bool_decide (exchangeRunId = 0) then
        mret (Activation.mkActivationResult Activation.ZERO_EXCHANGE_RUN_ID None None)
      else if negb (path_eqb (PreparedNew.canonicalJournalPath prepared)
                      (deriveCanonicalRunJournalPathV1 canonicalCatalogPath exchangeRunId)) then
        mret (Activation.mkActivationResult Activation.NONCANONICAL_JOURNAL_PATH None None)
      else
        '(load, current) ← loadRunCatalogV1 fuel canonicalCatalogPath emptyCatalog;
        if bool_decide (CatalogLoad.outcome load ≠ CatalogLoad.LOADED) then
          mret (Activation.mkActivationResult Activation.CATALOG_LOAD_FAILED (Some load) None)
        else
          match activateIn current exchangeRunId with
          | inl refusal => mret (Activation.mkActivationResult refusal (Some load) None)
          | inr next =>
              replacement ← replaceRunCatalogV1WithHooks fuel canonicalCatalogPath next;
              mret (Activation.mkActivationResult
                      (if bool_decide (CatalogReplace.outcome replacement ≠ CatalogReplace.COMMITTED)
                       then Activation.CATALOG_REPLACE_FAILED else Activation.ACTIVATED)
                      (Some load) (Some replacement))
          end
  end.

(** The result and the new value of [output]; a failure destroys the prepared writer. *)
Definition startNewRunV1 (fuel : nat) (canonicalCatalogPath : path) (configuration : NewRunConfigurationV1)
    (output : RunStateV1) : io W (StartNewRunResult * RunStateV1) :=
  '(preparation, prepared) ← prepareNewRunJournalV1 fuel canonicalCatalogPath configuration emptyPrepared;
  if bool_decide (Preparation.outcome preparation ≠ Preparation.PREPARED) then
    mret (StartRun.mkStartResult StartRun.PREPARATION_FAILED preparation None, output)
  else
    match constructEmptyRunStateV1 (Header.exchangeRunId (PreparedNew.header prepared))
            (Header.maxRunCommands (PreparedNew.header prepared)) with
    | inl failure =>
        destroyWriter (PreparedNew.writer prepared) ;;
        mret (StartRun.mkStartResult failure preparation None, output)
    | inr (matchingState, admissionIndex) =>
        activation ← activatePreparedNewRunV1 fuel canonicalCatalogPath prepared;
        if bool_decide (Activation.outcome activation ≠ Activation.ACTIVATED) then
          destroyWriter (PreparedNew.writer prepared) ;;
          mret (StartRun.mkStartResult StartRun.ACTIVATION_FAILED preparation (Some activation), output)
        else
          destroyWriter (RunState.journalWriter output) ;;
          mret (StartRun.mkStartResult StartRun.STARTED preparation (Some activation),
                RunState.mkRunState (PreparedNew.writer prepared) (Some matchingState) (Some admissionIndex))
    end.

(** [recoverRunV1]: the result and the new value of [output]. *)
Definition recoverRunV1 (fuel : nat) (canonicalJournalPath : path) (output : RunStateV1)
    (expectedRunId : option ExchangeRunId) : io W (RecoveredRunResult * RunStateV1) :=
  '(preparation, prepared, file) ← on_journal (unopened canonicalJournalPath)
     (prepareRunJournalV1 fuel (mkPrepared emptyLoaded None) expectedRunId);
  if bool_decide (RecoveryResult.outcome preparation ≠ RecoveryOutcome.PREPARED) then
    mret (Recovered.mkRecoveredResult Recovered.PREPARATION_FAILED preparation None None, output)
  else
    let owned := (λ writer, mkOwnedWriter writer file) <$> prepared_writer prepared in
    '(replay, replayed) ← noexceptly (replayPreparedRunJournalV1 (prepared_journal prepared) emptyReplayed);
    if bool_decide (replayOutcome replay ≠ ReplayOutcome.REPLAYED) then
      destroyWriter owned ;;
      mret (Recovered.mkRecoveredResult Recovered.REPLAY_FAILED preparation (Some replay) None, output)
    else
      '(admission, admissionIndex) ← noexceptly
         (reconstructCommandAdmissionIndex (prepared_journal prepared) (Some <$> Replayed.commandResults replayed) None);
      if bool_decide (admissionOutcome admission ≠ AdmissionOutcome.RECONSTRUCTED) then
        destroyWriter owned ;;
        mret (Recovered.mkRecoveredResult Recovered.ADMISSION_FAILED preparation (Some replay) (Some admission), output)
      else
        destroyWriter (RunState.journalWriter output) ;;
        mret (Recovered.mkRecoveredResult Recovered.RECOVERED preparation (Some replay) (Some admission),
              RunState.mkRunState owned (Replayed.matchingState replayed) admissionIndex).
End runs.
