(* ===== verification/NewRunTheorems.v ===== *)
(** * A new run is activated after its journal is there *)
From S2P Require Import Prelude Domain Bytes JournalCodec JournalFrames RunHeaderCodec RunHeaderTheorems.
From S2P Require Import RunCatalogCodec Posix Paths FileSystem CatalogStorage JournalReader JournalWriter.
From S2P Require Import CatalogRun CatalogTheorems JournalStorage RunIdReservation.
From S2P Require Import Matching Projection Queues Admission NewRun.

(** Alone in [fs] at [p], now and after a loss of power. *)
Definition settled_file (fs : Files) (p : path) (b : bytes) : Prop :=
  live fs p = Some b ∧ ∀ c, survives fs p c → c = Some b.

Lemma settled_kept fs fs' p b : settled_file fs p b → kept fs fs' p → settled_file fs' p b.
Proof. intros [Hl Hs] [El Es]. split; [by rewrite El|auto]. Qed.

Section creation.
Context {W : Type} `{FileSystemLaws W}.

Lemma writeHeaderLoop_run d i t encoded : ∀ fuel w n,
  filling (files w) t d i n (take n encoded) → (n ≤ length encoded)%nat →
  (pendingSignals w + (length encoded - n) < fuel)%nat →
  ∃ r w', writeHeaderLoop fuel d encoded n w = (Ok r, w') ∧ (pendingSignals w' ≤ pendingSignals w)%nat ∧
    (∀ q, q ≠ t → kept (files w) (files w') q) ∧ (r = None → filling (files w') t d i (length encoded) encoded).
Proof.
  induction fuel as [|fuel IH]; intros w n Hfill Hn Hf; [lia|]. simpl.
  destruct (bool_decide_reflect (n < length encoded)%nat) as [Hlt|Hge].
  2: { exists None, w. split_and!; [done|done|intros; apply kept_refl|]. intros _.
       replace n with (length encoded) in * by lia. by rewrite take_ge in Hfill by lia. }
  destruct (fsWrite d (drop n encoded) w) as [r w1] eqn:E. rewrite (call_run _ _ _ _ _ E).
  pose proof (write_rest _ _ _ _ _ _ _ _ Hfill Hlt E) as Hr. destruct r as [k|e].
  - destruct Hr as (Hk & Hfill1 & Hkept & Hs). rewrite (bool_decide_eq_true_2 (k ≤ _)) by lia. rewrite andb_true_r.
    case_bool_decide as Hpos.
    + destruct (IH w1 (n + Z.to_nat k)%nat) as (r & w' & Hrun & Hs' & Hkept' & Hr); [done|lia|lia|].
      exists r, w'. split_and!; [done|lia| |done]. intros q Hq. eapply kept_trans; [by apply Hkept|by apply Hkept'].
    + exists (Some EIO), w1. by split_and!.
  - destruct Hr as [Hf1 Hi]. unfold interrupt_step in Hi. case_bool_decide as He.
    + destruct (IH w1 n) as (r & w' & Hrun & Hs' & Hkept' & Hr); [by rewrite Hf1|done|lia|].
      rewrite Hf1 in Hkept'. exists r, w'. split_and!; [done|lia|done|done].
    + exists (Some e), w1. rewrite Hf1. split_and!; [done|done|intros; apply kept_refl|done].
Qed.

(** The retained descriptor is closed, or nothing happens. *)
Lemma closeRetained_run {A} retain fd w (a : A) :
  ∃ w', (closeRetained retain fd ≫= λ _, mret a) w = (Ok a, w') ∧ same_files (files w) (files w') ∧
    (pendingSignals w' ≤ pendingSignals w)%nat.
Proof.
  destruct retain; [|exists w; split_and!; [done|apply same_files_refl|done]].
  unfold closeRetained. destruct (fsClose fd w) as [r w'] eqn:E. exists w'. split.
  - unfold mbind, io_bind, call. by rewrite E.
  - apply fsClose_law in E as [[->|[_ ->]] Hs]; (split; [by split|done]).
Qed.

(** What a creation leaves: everything but a new [q] is kept, and [CREATED] means a
    complete file that stays. *)
Definition creation (q : path) (encoded : bytes) (fs fs' : Files) (result : RunJournalCreateResult) : Prop :=
  (∀ p, p ≠ q ∨ is_Some (entries fs !! q) → kept fs fs' p) ∧
  (JournalCreate.outcome result = JournalCreate.CREATED → entries fs !! q = None ∧ settled_file fs' q encoded).

Lemma syncNewEntry_run fuel q retain fd i encoded fs w : (pendingSignals w < fuel)%nat →
  entries (files w) !! q = Some i → inodes (files w) !! i = Some encoded → i ∉ unsynced (files w) →
  entries fs !! q = None → (∀ p, p ≠ q → kept fs (files w) p) →
  ∃ result w', syncNewEntry fuel (directory_of q) retain fd w = (Ok result, w') ∧
    (pendingSignals w' ≤ pendingSignals w)%nat ∧ creation q encoded fs (files w') result.
Proof.
  intros Hf Hi Hb Hsync Hnew Hk. unfold syncNewEntry.
  assert (Huncertain : ∀ e w1, (∀ p, p ≠ q → kept (files w) (files w1) p) → (pendingSignals w1 ≤ pendingSignals w)%nat →
    ∃ result w', (closeRetained retain fd ;; mret (createResult JournalCreate.UNCERTAIN None e)) w1 = (Ok result, w') ∧
      (pendingSignals w' ≤ pendingSignals w)%nat ∧ creation q encoded fs (files w') result).
  { intros e w1 Hk1 Hs1. destruct (closeRetained_run retain fd w1 (createResult JournalCreate.UNCERTAIN None e)) as (w' & Hrun & Hsame & Hs).
    eexists _, w'. split_and!; [done|lia|]. split; [|done]. intros p [Hp|[? Hx]]; [|congruence]. eapply kept_trans; [by apply Hk|].
    eapply kept_trans; [by apply Hk1|by apply same_files_kept]. }
  destruct (openDirectory_run fuel (directory_of q) w Hf) as (r & w1 & Hopen & Hs1 & Hr).
  rewrite (io_bind_run _ _ _ _ _ Hopen). destruct r as [d|e].
  2: { apply Huncertain; [|done]. intros p _. rewrite Hr. apply kept_refl. }
  destruct (syncFile_run fuel d (OpenDirectory (directory_of q)) w1) as (r & w2 & Hsy & Hs2 & Hf2); [lia|by rewrite Hr; apply lookup_insert_eq|].
  rewrite (io_bind_run _ _ _ _ _ Hsy). destruct r as [e|].
  { closing w2 r w3 Hsame Hs3. apply Huncertain; [|lia]. intros p _. eapply kept_trans; [|by apply same_files_kept].
    rewrite Hf2, Hr. apply kept_descriptors. }
  closing w2 r w3 Hsame Hs3.
  assert (Hk3 : ∀ p, kept (files w) (files w3) p).
  { intros p. eapply kept_trans; [|by apply same_files_kept]. rewrite Hf2.
    eapply kept_trans; [|apply kept_directory_synced]. rewrite Hr. apply kept_descriptors. }
  destruct r as [e|]; [apply Huncertain; [done|lia]|].
  eexists _, w3. split_and!; [reflexivity|lia|]. split.
  { intros p [Hp|[? Hx]]; [|congruence]. eapply kept_trans; [by apply Hk|done]. }
  intros _. split; [done|]. apply (settled_kept (directory_synced (directory_of q) (files w1))).
  2: { apply same_files_kept. by rewrite Hf2 in Hsame. }
  rewrite Hr. split.
  - unfold live. simpl. by rewrite Hi.
  - apply (survives_only _ q i); [|done|done]. unfold possible_entries. simpl.
    by rewrite past_directory_synced, in_directory_of, Hi.
Qed.

Lemma createEncodedRunJournalV1_run fuel q encoded w : (pendingSignals w + length encoded < fuel)%nat →
  ∃ result fd w', createEncodedRunJournalV1 fuel q encoded true w = (Ok (result, fd), w') ∧
    (pendingSignals w' ≤ pendingSignals w)%nat ∧ creation q encoded (files w) (files w') result ∧
    (is_Some fd ↔ JournalCreate.outcome result = JournalCreate.CREATED).
Proof.
  intros Hf. unfold createEncodedRunJournalV1.
  destruct (retry_run (fsCreate q) fuel w) as (w0 & r & w1 & Hrun & Ha & Hf0 & Hr & Hs1); [|lia|].
  { intros w0 r w' _ E%fsCreate_law. destruct r; [|tauto]. by destruct E as (?&?&?&?&?&?). }
  rewrite (io_bind_run _ _ _ _ _ Hrun). apply fsCreate_law in Ha. rewrite Hf0 in Ha.
  destruct r as [d|e].
  2: { destruct Ha as [Hf1 _]. eexists _, None, w1. split_and!; [reflexivity|done| |].
       - split; [intros; by apply same_files_kept, same_files_eq|]. simpl. by case_bool_decide.
       - split; [by intros []|]. simpl. by case_bool_decide. }
  destruct Ha as (i & Hnew & Hfresh & Hclosed & Hf1 & _).
  assert (Hfill : filling (files w1) q d i 0 []) by (rewrite Hf1; by apply filling_created).
  assert (Hk1 : ∀ p, p ≠ q → kept (files w) (files w1) p) by (intros p Hp; rewrite Hf1; by apply kept_created).
  assert (Hfail : ∀ o e w2, o ≠ JournalCreate.CREATED → (∀ p, p ≠ q → kept (files w1) (files w2) p) →
    (pendingSignals w2 ≤ pendingSignals w1)%nat →
    ∃ result fd w', (call (fsClose d) ;; mret (createResult o None e, None)) w2 = (Ok (result, fd), w') ∧
      (pendingSignals w' ≤ pendingSignals w)%nat ∧ creation q encoded (files w) (files w') result ∧
      (is_Some (fd : option Z) ↔ JournalCreate.outcome result = JournalCreate.CREATED)).
  { intros o e w2 Ho Hk2 Hs2. closing w2 r w3 Hsame Hs3. eexists _, None, w3. split_and!; [reflexivity|lia| |].
    - split; [|done]. intros p [Hp|[? Hx]]; [|congruence]. eapply kept_trans; [by apply Hk1|]. eapply kept_trans; [by apply Hk2|by apply same_files_kept].
    - split; [by intros []|done]. }
  destruct (writeHeaderLoop_run d i q encoded fuel w1 0) as (r & w2 & Hwrun & Hs2 & Hk2 & Hr2); [done|lia|lia|].
  rewrite (io_bind_run _ _ _ _ _ Hwrun). destruct r as [e|]; [by apply Hfail|].
  destruct (Hr2 eq_refl) as (Hpriv & Hd & Hb & _).
  destruct (syncFile_run fuel d _ w2 ltac:(lia) Hd) as (r & w3 & Hsync & Hs3 & Hf3).
  rewrite (io_bind_run _ _ _ _ _ Hsync).
  assert (Hk3 : ∀ p, p ≠ q → kept (files w1) (files w3) p).
  { intros p Hp. eapply kept_trans; [by apply Hk2|]. destruct r; rewrite Hf3; [apply kept_refl|apply kept_synced]. }
  destruct r as [e|]; [apply Hfail; [done|done|lia]|].
  rewrite (io_bind_run (mret None) _ w3 None w3) by done.
  destruct (syncNewEntry_run fuel q true d i encoded (files w) w3) as (res & w4 & Hdrun & Hs4 & Hc); try done.
  - lia.
  - rewrite Hf3. apply Hpriv.
  - by rewrite Hf3.
  - rewrite Hf3. simpl. set_solver.
  - intros p Hp. eapply kept_trans; [by apply Hk1|by apply Hk3].
  - rewrite (io_bind_run _ _ _ _ _ Hdrun). eexists res, _, w4. split_and!; [reflexivity|lia|done|].
    rewrite andb_true_r. case_bool_decide; split; try done; by intros [].
Qed.
End creation.

(** ** The new run *)
Record typed_configuration (c : NewRunConfigurationV1) : Prop := {
  tn_commands : is_u64 (NewRunConfig.maxRunCommands c);
  tn_bytes : is_u64 (NewRunConfig.maxRunJournalBytes c);
  tn_instruments : Forall entry_ok (NewRunConfig.instruments c) }.

Lemma headerOf_cases id c : typed_configuration c → is_u64 id →
  (valid_runHeader (headerOf id c) ∧ encodeRunHeaderV1 (headerOf id c) = Ok (headerFrame (headerOf id c))) ∨
  (∃ e, encodeRunHeaderV1 (headerOf id c) = Err e).
Proof.
  intros [Hc Hb Hi] Hid. destruct (validateHeader (headerOf id c)) as [size|e|] eqn:E.
  - left. destruct (validateHeader_inv _ _ E) as [Hv _]; try done. split; [done|by apply encodeRunHeaderV1_run].
  - right. exists e. unfold encodeRunHeaderV1. by rewrite E.
  - by apply validateHeader_in_bounds in E.
Qed.

Lemma headerOf_valid id id' c : valid_runHeader (headerOf id c) → is_u64 id' → id' ≠ 0 → valid_runHeader (headerOf id' c).
Proof. intros [_ ? ? ? ? ? ? ? ?] ? ?. by split. Qed.

Lemma headerFrame_size header : valid_runHeader header → Z.of_nat (length (headerFrame header)) ≤ 65528.
Proof.
  intros Hv. pose proof (vrh_count _ Hv). unfold headerFrame. rewrite frameOf_length, headerPayload_length. lia.
Qed.

(** The catalog at [p] may come to name a run active only if it did already or the
    run's journal is there to stay. *)
Definition was_active (fs : Files) (p : path) (id : ExchangeRunId) : Prop :=
  ∃ b s, live fs p = Some b ∧ decodeRunCatalogV1 b = Ok s ∧ Catalog.activeRunId s = Some id.

Definition new_journal (p : path) (c : NewRunConfigurationV1) (fs : Files) (id : ExchangeRunId) : Prop :=
  valid_runHeader (headerOf id c) ∧
  settled_file fs (deriveCanonicalRunJournalPathV1 p id) (headerFrame (headerOf id c)).

Definition accounted (p : path) (c : NewRunConfigurationV1) (fs fs' : Files) : Prop :=
  ∀ contents, survives fs' p contents → survives fs p contents ∨
    ∃ s, contents = Some (catalogRecord s) ∧ valid_catalog s ∧
      ∀ id, Catalog.activeRunId s = Some id → was_active fs p id ∨ new_journal p c fs' id.

Lemma accounted_kept p c fs fs' : kept fs fs' p → accounted p c fs fs'.
Proof. intros [_ Hs] contents Hc. left. auto. Qed.

Lemma proposes_active fs p id next other : proposes fs p id next → Catalog.activeRunId next = Some other →
  was_active fs p other.
Proof.
  unfold proposes. destruct (live fs p) as [b|] eqn:E; [|by intros (_ & -> & _)].
  intros (cur & Hd & Hn) Ha. exists b, cur. split_and!; [done|done|].
  pose proof Hd as [Hv _]%decodeRunCatalogV1_inv. by apply nextReservation_spec in Hn as (_ & _ & _ & _ & _ & <- & _).
Qed.

Lemma accounted_proposed p c fs fs' id next : proposes fs p id next → valid_catalog next →
  (∀ contents, survives fs' p contents → survives fs p contents ∨ contents = Some (catalogRecord next)) →
  accounted p c fs fs'.
Proof.
  intros Hp Hv Hs contents [Hc| ->]%Hs; [by left|]. right. exists next. split_and!; [done|done|].
  intros other Ha. left. by eapply proposes_active.
Qed.

(** Enough for every loop: a call retried at each signal still to come, and a
    transfer of one byte at a time of the largest header. *)
Definition enough_fuel (signals fuel : nat) : Prop := Z.of_nat signals + 65600 < Z.of_nat fuel.

Section start.
Context {W : Type} `{FileSystemLaws W}.

Lemma enough_load (w : W) fuel : enough_fuel (pendingSignals w) fuel → (pendingSignals w + CATALOG_READ_BUFFER_SIZE < fuel)%nat.
Proof. unfold enough_fuel, CATALOG_READ_BUFFER_SIZE, RUN_CATALOG_V1_SIZE. lia. Qed.

Lemma createRunJournalWriterV1_run fuel q header w : enough_fuel (pendingSignals w) fuel → valid_runHeader header →
  ∃ result writer w', createRunJournalWriterV1 fuel q header w = (Ok (result, writer), w') ∧
    (pendingSignals w' ≤ pendingSignals w)%nat ∧ creation q (headerFrame header) (files w) (files w') result ∧
    (JournalCreate.outcome result = JournalCreate.CREATED → ∃ fd, writer =
       Some (mkOwnedWriter (newWriter header (Z.of_nat (length (headerFrame header)))) (mkJournalFile q fd))).
Proof.
  intros Hf Hv. unfold createRunJournalWriterV1.
  rewrite (io_bind_run (decided _) _ w (inr (headerFrame header)) w)
    by (unfold decided; by rewrite encodeRunHeaderV1_run). cbv iota zeta.
  destruct (createEncodedRunJournalV1_run fuel q (headerFrame header) w) as (res & fd & w' & Hrun & Hs & Hc & Hfd).
  { pose proof (headerFrame_size _ Hv). unfold enough_fuel in Hf. lia. }
  rewrite (io_bind_run _ _ _ _ _ Hrun). cbv iota.
  destruct fd as [fd|]; eexists res, _, w'; (split_and!; [reflexivity|done|done|]).
  - intros _. by exists fd.
  - intros Hcr. apply Hfd in Hcr as [? [=]].
Qed.

(** No run's journal is the catalog. *)
Definition outside (p : path) : Prop := ∀ id, deriveCanonicalRunJournalPathV1 p id ≠ p.

Lemma spares_createRunJournalWriterV1 p fuel q header : q ≠ p →
  respects (spares p) (createRunJournalWriterV1 fuel q header).
Proof.
  intros Hq. unfold createRunJournalWriterV1. apply respects_bind; [apply _|apply respects_decided, _|].
  intros [e|b]; [apply respects_ret, _|]. apply respects_bind; [apply _|by apply spares_createEncodedRunJournalV1|].
  intros [result [fd|]]; apply respects_ret, _.
Qed.

(** The prepared run [id] of [next]. *)
Definition prepared_run (p : path) (c : NewRunConfigurationV1) (fs fs' : Files) (id : ExchangeRunId)
    (prepared : PreparedNewRunJournalV1) : Prop :=
  ∃ next fd, proposes fs p id next ∧ valid_catalog next ∧ settled_file fs' p (catalogRecord next) ∧
    new_journal p c fs' id ∧ deriveCanonicalRunJournalPathV1 p id ≠ p ∧ is_Some (entries fs' !! deriveCanonicalRunJournalPathV1 p id) ∧
    prepared = PreparedNew.mkPreparedNew (headerOf id c) (deriveCanonicalRunJournalPathV1 p id)
      (Some (mkOwnedWriter (newWriter (headerOf id c) (Z.of_nat (length (headerFrame (headerOf id c)))))
               (mkJournalFile (deriveCanonicalRunJournalPathV1 p id) fd))).

Lemma settled_entry (fs : Files) q b : settled_file fs q b → is_Some (entries fs !! q).
Proof. intros [Hl _]. unfold live in Hl. destruct (entries fs !! q); [by eexists|done]. Qed.

Lemma reserved_id_nonzero fs p id next : proposes fs p id next → valid_catalog next → is_u64 id ∧ id ≠ 0.
Proof. intros Hp Hv. apply (vc_last _ Hv). by apply proposes_typed in Hp as [_ ?]. Qed.

Lemma prepareNewRunJournalV1_run fuel p c output w : enough_fuel (pendingSignals w) fuel → typed_configuration c →
  ∃ result prepared w', prepareNewRunJournalV1 fuel p c output w = (Ok (result, prepared), w') ∧
    (pendingSignals w' ≤ pendingSignals w)%nat ∧ accounted p c (files w) (files w') ∧
    (Preparation.outcome result = Preparation.PREPARED → ∃ id, prepared_run p c (files w) (files w') id prepared) ∧
    (outside p → guarded p (files w) → guarded p (files w')).
Proof.
  intros Hf Hty. unfold prepareNewRunJournalV1.
  destruct (headerOf_cases 1 c Hty) as [[Hv1 Henc]|[e Henc]]; [by unfold is_u64, UINT64_MAX| |].
  2: { unfold decided, mbind, io_bind. rewrite Henc. eexists _, _, w. split; [reflexivity|]. split; [done|].
       split; [apply accounted_kept, kept_refl|done]. }
  rewrite (io_bind_run (decided _) _ w (inr (headerFrame (headerOf 1 c))) w) by (unfold decided; by rewrite Henc). cbv iota.
  destruct (reserve_run fuel p 0 w (enough_load _ _ Hf)) as (res & id & w1 & Hrun & Hs1 & [Hframe Hres] & Hg1).
  rewrite (io_bind_run _ _ _ _ _ Hrun). cbv iota.
  destruct (bool_decide_reflect (Reservation.outcome res ≠ Reservation.RESERVED)) as [Hne|E].
  { eexists _, _, w1. split; [reflexivity|]. split; [done|]. split; [|by split].
    destruct (Reservation.outcome res); try (by apply accounted_kept, same_files_kept, Hres); [done|].
    destruct Hres as (_ & id' & next & Hp & [Hk|[Hv [_ Hm]]]); [by apply accounted_kept|by eapply accounted_proposed]. }
  apply dec_stable in E. rewrite E in Hres. destruct Hres as (next & Hp & Hv & Hl1 & Hs1').
  assert (Hset1 : settled_file (files w1) p (catalogRecord next)) by done.
  destruct (reserved_id_nonzero _ _ _ _ Hp Hv) as [Hu Hnz].
  pose proof (headerOf_valid _ id _ Hv1 Hu Hnz) as Hvh. set (q := deriveCanonicalRunJournalPathV1 p id) in *.
  destruct (createRunJournalWriterV1_run fuel q (headerOf id c) w1) as (cr & writer & w2 & Hcrun & Hs2 & [Hck Hcc] & Hwr); [unfold enough_fuel in *; lia|done|].
  rewrite (io_bind_run _ _ _ _ _ Hcrun). cbv iota.
  assert (Hg2 : outside p → guarded p (files w) → guarded p (files w2)).
  { intros Hout Hg%Hg1. assert (Hsp : spares p w1 w2) by (eapply spares_createRunJournalWriterV1; [apply Hout|exact Hcrun]).
    by destruct (proj2 Hsp Hg). }
  assert (Hset2 : settled_file (files w2) p (catalogRecord next)).
  { eapply settled_kept; [done|]. apply Hck. destruct (decide (p = q)) as [<-|?]; [right; by eapply settled_entry|by left]. }
  assert (Hacc : accounted p c (files w) (files w2)).
  { eapply accounted_proposed; [done|done|]. intros contents Hc. right. by apply Hset2. }
  destruct (bool_decide_reflect (JournalCreate.outcome cr ≠ JournalCreate.CREATED)) as [Hne|Ec].
  { eexists _, _, w2. split; [reflexivity|]. split; [lia|]. split; [done|by split]. }
  apply dec_stable in Ec. destruct (Hwr Ec) as [fd ->]. destruct (Hcc Ec) as [Hnew Hset].
  eexists _, _, w2. split; [reflexivity|]. split; [lia|]. split; [done|]. split; [|done]. intros _. exists id, next, fd.
  split_and!; [done|done|done|done| |by eapply settled_entry|done].
  intros Hpq. fold q in Hpq. rewrite Hpq in Hnew. apply settled_entry in Hset1 as [? Hx]. congruence.
Qed.

(** The run [id] active and open. *)
Definition active_run (p : path) (c : NewRunConfigurationV1) (fs : Files) (id : ExchangeRunId) : Prop :=
  new_journal p c fs id ∧ ∃ s, valid_catalog s ∧ settled_file fs p (catalogRecord s) ∧
    Catalog.activeRunId s = Some id ∧ Catalog.activeDisposition s = Disposition.OPEN ∧
    Catalog.lastReservedRunId s = Some id.

Lemma accounted_trans p c fs fs1 fs2 next id : proposes fs p id next → settled_file fs1 p (catalogRecord next) →
  valid_catalog next → accounted p c fs1 fs2 → accounted p c fs fs2.
Proof.
  intros Hp [Hl Hs] Hv Hacc contents [Hc|(s & -> & Hvs & Ha)]%Hacc.
  - right. apply Hs in Hc as ->. exists next. split_and!; [done|done|]. intros other Hact. left. by eapply proposes_active.
  - right. exists s. split_and!; [done|done|]. intros other [(b & cur & Hb & Hd & Hact)|?]%Ha; [|by right].
    left. rewrite Hl in Hb. injection Hb as <-. rewrite decodeRunCatalogV1_run in Hd by done. injection Hd as <-.
    by eapply proposes_active.
Qed.

Lemma activateIn_next current id next : valid_catalog current → activateIn current id = inr next →
  typed_catalog next ∧ Catalog.lastReservedRunId next = Some id ∧ Catalog.activeRunId next = Some id ∧
  Catalog.activeDisposition next = Disposition.OPEN.
Proof.
  intros [[Hg _] Hl Ha Hr Hk Hd Hdist Hres]. unfold activateIn.
  destruct (bool_decide_reflect (Catalog.lastReservedRunId current ≠ Some id)) as [|El]; [done|]. apply dec_stable in El.
  destruct (bool_decide_reflect (is_Some (Catalog.activeRunId current))); [done|].
  destruct (bool_decide_reflect (Catalog.generation current = UINT64_MAX)) as [|Hgm]; [done|].
  intros [= <-]. simpl. split_and!; try done. split; simpl.
  - unfold is_u64, UINT64_MAX in *. rewrite wrap64_small; unfold is_u64, UINT64_MAX; lia.
  - intros x E. by destruct (Hl x E).
  - intros x [= <-]. by destruct (Hl id El).
  - intros x E. by destruct (Hr x E).
  - done.
Qed.

Lemma activatePreparedNewRunV1_run fuel p c fs id prepared w : enough_fuel (pendingSignals w) fuel →
  prepared_run p c fs (files w) id prepared →
  ∃ result w', activatePreparedNewRunV1 fuel p prepared w = (Ok result, w') ∧
    (pendingSignals w' ≤ pendingSignals w)%nat ∧ accounted p c fs (files w') ∧
    (Activation.outcome result = Activation.ACTIVATED → active_run p c (files w') id) ∧
    (guarded p (files w) → guarded p (files w')).
Proof.
  intros Hf (next & fd & Hp & Hv & Hset & Hj & Hne & Hent & ->). unfold activatePreparedNewRunV1.
  destruct (reserved_id_nonzero _ _ _ _ Hp Hv) as [Hu Hnz]. cbn [PreparedNew.writer PreparedNew.header PreparedNew.canonicalJournalPath].
  change (Header.exchangeRunId (headerOf id c)) with id. cbv zeta.
  rewrite (bool_decide_eq_false_2 (id = 0)) by done. unfold path_eqb. rewrite (bool_decide_eq_true_2 (path_elements _ = _)) by done.
  cbn [negb].
  assert (Hacc : accounted p c fs (files w)).
  { eapply accounted_proposed; [done|done|]. intros contents Hc. right. by apply Hset. }
  destruct (loadRunCatalogV1_run fuel p emptyCatalog w (enough_load _ _ Hf)) as (load & current & w1 & Hload & Hsame & Hs1 & Hrep).
  rewrite (io_bind_run _ _ _ _ _ Hload). cbv iota.
  assert (Hg1 : guarded p (files w) → guarded p (files w1))
    by (apply (spares_loadRunCatalogV1 p) in Hload as [_ Hsp]; by intros [? _]%Hsp).
  assert (Hacc1 : accounted p c fs (files w1)).
  { eapply accounted_trans; [done|done|done|]. apply accounted_kept. by apply same_files_kept. }
  destruct (bool_decide_reflect (CatalogLoad.outcome load ≠ CatalogLoad.LOADED)) as [Hno|Eo].
  { eexists _, w1. split; [reflexivity|]. split; [done|]. split; [done|by split]. }
  apply dec_stable in Eo. unfold load_reports in Hrep. rewrite Eo in Hrep. destruct Hrep as (b & Hb & Hd).
  rewrite (proj1 Hset) in Hb. injection Hb as <-. rewrite decodeRunCatalogV1_run in Hd by done. injection Hd as <-.
  destruct (activateIn next id) as [refusal|next'] eqn:Ea.
  { eexists _, w1. split; [reflexivity|]. split; [done|]. split; [done|]. split; [|done].
    simpl. intros ->. unfold activateIn in Ea. by repeat case_bool_decide. }
  destruct (activateIn_next _ _ _ Hv Ea) as (Hty' & Hlast & Hact & Hopen).
  assert (Hk1 : ∀ q, kept (files w) (files w1) q) by (intros q; by apply same_files_kept).
  destruct (replace_run fuel p next' w1 Hty') as (r & w2 & Hrun & Hs2 & [Hframe Hrepl] & Hg2); [apply enough_load; unfold enough_fuel in *; lia|].
  rewrite (io_bind_run _ _ _ _ _ Hrun).
  assert (Hj2 : new_journal p c (files w2) id).
  { destruct Hj as [Hvh Hj]. split; [done|]. eapply settled_kept; [done|]. eapply kept_trans; [apply Hk1|]. apply Hframe; [done|].
    intros [_ Hn]. rewrite (proj1 (proj2 (proj2 Hsame))) in Hn. destruct Hent as [? Hx]. congruence. }
  assert (Hset1 : settled_file (files w1) p (catalogRecord next)) by by eapply settled_kept.
  assert (Hnew : valid_catalog next' → (∀ contents, survives (files w2) p contents →
      survives (files w1) p contents ∨ contents = Some (catalogRecord next')) → accounted p c fs (files w2)).
  { intros Hv' Hc. eapply accounted_trans; [done|exact Hset1|done|]. intros contents [?| ->]%Hc; [by left|].
    right. exists next'. split_and!; [done|done|]. rewrite Hact. intros ? [= <-]. by right. }
  eexists _, w2. split; [reflexivity|]. split; [lia|]. split; [|split; [|by auto]].
  - assert (Hk : kept (files w1) (files w2) p → accounted p c fs (files w2))
      by (intros; eapply accounted_trans; [done|exact Hset1|done|by apply accounted_kept]).
    destruct (CatalogReplace.outcome r).
    + destruct Hrepl as (Hv' & _ & _ & Honly). apply Hnew; [done|]. intros contents ?%Honly. by right.
    + apply Hk. destruct Hrepl as [_ ->]. apply kept_refl.
    + apply Hk, same_files_kept, Hrepl.
    + apply Hk, same_files_kept, Hrepl.
    + by apply Hk.
    + destruct Hrepl as (Hv' & _ & [_ Hm] & _). by apply Hnew.
  - simpl. destruct (bool_decide_reflect (CatalogReplace.outcome r ≠ CatalogReplace.COMMITTED)) as [|E]; [done|].
    apply dec_stable in E. rewrite E in Hrepl. destruct Hrepl as (Hv' & _ & Hl2 & Hs2'). intros _. split; [done|].
    by exists next'.
Qed.

Lemma destroyWriter_run {A} writer (a : A) w :
  ∃ w', (destroyWriter writer ;; mret a) w = (Ok a, w') ∧ same_files (files w) (files w') ∧
    (pendingSignals w' ≤ pendingSignals w)%nat ∧ ∀ p, guarded p (files w) → guarded p (files w').
Proof.
  destruct writer as [owned|]; [|exists w; split_and!; [done|apply same_files_refl|done|done]]. unfold destroyWriter.
  case_bool_decide; [|exists w; split_and!; [done|apply same_files_refl|done|done]].
  destruct (fsClose (journal_descriptor (owned_file owned)) w) as [r w'] eqn:E. exists w'. split.
  - unfold mbind, io_bind, call. by rewrite E.
  - assert (Hg : ∀ p, guarded p (files w) → guarded p (files w')).
    { intros p Hg. apply fsClose_law in E as [[->|[_ ->]] _]; [by apply undisturbed_close|done]. }
    apply fsClose_law in E as [[Ef|[_ Ef]] Hs]; rewrite Ef in Hg |- *; (split; [by split|by split]).
Qed.

Lemma accounted_same p c fs fs1 fs2 : accounted p c fs fs1 → same_files fs1 fs2 → accounted p c fs fs2.
Proof.
  intros Hacc Hsame contents Hc. assert (Hk : ∀ q, kept fs1 fs2 q) by (intros; by apply same_files_kept).
  apply (proj2 (Hk p)) in Hc. destruct (Hacc _ Hc) as [?|(s & -> & Hv & Ha)]; [by left|]. right.
  exists s. split_and!; [done|done|]. intros id [?|[? ?]]%Ha; [by left|]. right. split; [done|by eapply settled_kept].
Qed.

Lemma active_same p c fs1 fs2 id : active_run p c fs1 id → same_files fs1 fs2 → active_run p c fs2 id.
Proof.
  intros [[? ?] (s & ? & ? & ?)] Hsame. split; [split; [done|by eapply settled_kept, same_files_kept]|].
  exists s. split_and!; try tauto. by eapply settled_kept, same_files_kept.
Qed.

(** Run the [destroyWriter] in front of the goal. *)
Ltac destroying w w' Hsame :=
  match goal with
  | |- context [(destroyWriter ?o ;; mret ?a) w] => destruct (destroyWriter_run o a w) as (w' & -> & Hsame & ? & ?)
  end.

(** What a start does. *)
Lemma startNewRunV1_run fuel p c output w :
  typed_configuration c → enough_fuel (pendingSignals w) fuel →
  ∃ result output' w', startNewRunV1 fuel p c output w = (Ok (result, output'), w') ∧
    (pendingSignals w' ≤ pendingSignals w)%nat ∧ (outside p → guarded p (files w) → guarded p (files w')) ∧
    accounted p c (files w) (files w') ∧
    if bool_decide (StartRun.outcome result = StartRun.STARTED) then
      ∃ id fd, active_run p c (files w') id ∧ (∀ b s other, live (files w) p = Some b → decodeRunCatalogV1 b = Ok s →
          mentions s other → other < id) ∧
        output' = RunState.mkRunState
          (Some (mkOwnedWriter (newWriter (headerOf id c) (Z.of_nat (length (headerFrame (headerOf id c)))))
                   (mkJournalFile (deriveCanonicalRunJournalPathV1 p id) fd)))
          (Some (newMatchingState id))
          (Some (mkIndex (NewRunConfig.maxRunCommands c) id false ∅ noStatistics))
    else output' = output.
Proof.
  intros Hty Hf. unfold startNewRunV1.
  destruct (prepareNewRunJournalV1_run fuel p c emptyPrepared w Hf Hty) as (prep & prepared & w1 & Hrun & Hs1 & Hacc & Hprep & Hg1).
  rewrite (io_bind_run _ _ _ _ _ Hrun). cbv iota.
  destruct (bool_decide_reflect (Preparation.outcome prep ≠ Preparation.PREPARED)) as [Hne|E].
  { eexists _, _, w1. split_and!; [reflexivity|done|done|done|done]. }
  apply dec_stable in E. destruct (Hprep E) as [id Hpr]. pose proof Hpr as (next & fd & Hp & Hv & Hset & [Hvh Hj] & Hpne & Hent & ->).
  cbn [PreparedNew.writer PreparedNew.header]. change (Header.exchangeRunId (headerOf id c)) with id.
  change (Header.maxRunCommands (headerOf id c)) with (NewRunConfig.maxRunCommands c).
  destruct (reserved_id_nonzero _ _ _ _ Hp Hv) as [Hu Hnz]. pose proof (tn_commands _ Hty) as Hcu.
  unfold constructEmptyRunStateV1, newRunBoundIndex. unfold is_u64, SIZE_MAX in *.
  rewrite (bool_decide_eq_false_2 (UINT64_MAX < _)) by lia.
  rewrite (bool_decide_eq_false_2 (NewRunConfig.maxRunCommands c = 0)) by apply (vrh_commands _ Hvh).
  rewrite (bool_decide_eq_false_2 (id = 0)) by done. cbn [throw_if mbind outcome_bind].
  assert (Hf1 : enough_fuel (pendingSignals w1) fuel) by (unfold enough_fuel in *; lia).
  destruct (activatePreparedNewRunV1_run fuel p c (files w) id _ w1 Hf1 Hpr) as (act & w2 & Harun & Hs2 & Hacc2 & Hact & Hg2).
  rewrite (io_bind_run _ _ _ _ _ Harun).
  destruct (bool_decide_reflect (Activation.outcome act ≠ Activation.ACTIVATED)) as [Hna|Ea].
  - destroying w2 w3 Hsame. eexists _, _, w3. split_and!; [reflexivity|lia|by auto| |done]. by eapply accounted_same.
  - apply dec_stable in Ea. destroying w2 w3 Hsame. eexists _, _, w3. split_and!; [reflexivity|lia|by auto|by eapply accounted_same|].
    simpl. exists id, fd. split_and!; [eapply active_same; [by apply Hact|done]| |done].
    intros b s other Hb Hd Hm. unfold proposes in Hp. rewrite Hb in Hp. destruct Hp as (cur & Hd' & Hn).
    rewrite Hd in Hd'. injection Hd' as <-. pose proof Hd as [Hvs _]%decodeRunCatalogV1_inv.
    by eapply nextReservation_above.
Qed.

(** C34: whatever fails, is interrupted or is cut off by a loss of power while a
    new run is started, every catalog that may be left names a run active only if
    it was active before or the run's journal, with exactly its encoded header, is
    there to stay.  With enough fuel the start returns; [STARTED] means that the
    catalog durably names the new run, open and last reserved, above every run the
    catalog mentioned, and hands over a writer after the header, an empty engine
    and a closed, empty admission index of that run; any other outcome leaves the
    caller's run as it was. *)
Theorem new_run_is_activated_after_its_journal fuel p c output w :
  typed_configuration c → enough_fuel (pendingSignals w) fuel →
  ∃ result output' w', startNewRunV1 fuel p c output w = (Ok (result, output'), w') ∧
    accounted p c (files w) (files w') ∧
    if bool_decide (StartRun.outcome result = StartRun.STARTED) then
      ∃ id fd, active_run p c (files w') id ∧ (∀ b s other, live (files w) p = Some b → decodeRunCatalogV1 b = Ok s →
          mentions s other → other < id) ∧
        output' = RunState.mkRunState
          (Some (mkOwnedWriter (newWriter (headerOf id c) (Z.of_nat (length (headerFrame (headerOf id c)))))
                   (mkJournalFile (deriveCanonicalRunJournalPathV1 p id) fd)))
          (Some (newMatchingState id))
          (Some (mkIndex (NewRunConfig.maxRunCommands c) id false ∅ noStatistics))
    else output' = output.
Proof.
  intros Hty Hf. destruct (startNewRunV1_run fuel p c output w Hty Hf) as (result & output' & w' & Hrun & _ & _ & Hacc & Hres).
  by exists result, output', w'.
Qed.
End start.

Definition demoConfiguration : NewRunConfigurationV1 :=
  NewRunConfig.mkNewRunConfiguration 1 4096 1000 65536 [HeaderInstrument.mkRunHeaderInstrumentV1 1 1].
Definition demoFuel : nat := Z.to_nat 66000.
Definition demoNewDisk : Disk := rescheduled [Interrupted; Short 60; Short 60; Interrupted] demoEmptyDisk.

Lemma new_run_is_activated_after_its_journal_witness :
  ∃ result output' w', startNewRunV1 demoFuel "data/catalog" demoConfiguration emptyRun demoNewDisk =
      (Ok (result, output'), w') ∧
    StartRun.outcome result = StartRun.STARTED ∧
    ∃ id, active_run "data/catalog" demoConfiguration (files w') id ∧ is_Some (RunState.journalWriter output').
Proof.
  destruct (new_run_is_activated_after_its_journal demoFuel "data/catalog" demoConfiguration emptyRun demoNewDisk)
    as (result & output' & w' & Hrun & _ & Hrest).
  - split; [unfold is_u64, UINT64_MAX; simpl; lia..|].
    repeat constructor; unfold is_u64, is_u32, UINT64_MAX, UINT32_MAX; simpl; lia.
  - unfold enough_fuel, demoFuel. rewrite Z2Nat.id by lia. vm_compute. reflexivity.
  - assert (E : match (startNewRunV1 demoFuel "data/catalog" demoConfiguration emptyRun demoNewDisk).1 with
                | Ok (r, _) => StartRun.outcome r = StartRun.STARTED | _ => False end) by (vm_compute; reflexivity).
    rewrite Hrun in E. simpl in E. rewrite (bool_decide_eq_true_2 _ E) in Hrest.
    destruct Hrest as (id & fd & Hact & _ & ->). exists result. eexists. exists w'.
    split; [exact Hrun|]. split; [exact E|]. exists id. split; [exact Hact|]. eexists. reflexivity.
Defined.
