(* ===== verification/ResultDispatcher.v ===== *)
(** * Handing results to their readers

    [CommandResultDispatcher] of [src/core/recovery/src/controller_command_processing.cpp]:
    takes one completed result at a time from the completion consumer, projects it
    for the clients and for the public, and hands both projections to their queues,
    keeping what a full queue refuses.  The consumer and the queues it borrows are
    fields of its state.  Then its invariant: what its readers took, what is queued
    and what waits are the projections of the completed results. *)
From S2P Require Import Prelude Domain Matching MatchingSpec MatchingRefine MatchingTheorems Projection.
From S2P Require Import ProjectionTheorems Queues Admission.

Module Dispatcher.
Record CommandResultDispatcher := mkDispatcher {
  completion_ : AdmissionCompletionConsumer;
  privateHandoff_ : BoundedPrivateResultQueue;
  publicHandoff_ : BoundedPublicTradeQueue;
  pendingResult_ : option CommandResultBatch;
  pendingPrivateResults_ : list RecipientResult;
  pendingPublicTrades_ : list PublicTrade;
  projectionsReady_ : bool }.
End Dispatcher.
Abbreviation CommandResultDispatcher := Dispatcher.CommandResultDispatcher.

Definition newDispatcher (completion : AdmissionCompletionConsumer) (privateHandoff : BoundedPrivateResultQueue)
    (publicHandoff : BoundedPublicTradeQueue) : CommandResultDispatcher :=
  Dispatcher.mkDispatcher completion privateHandoff publicHandoff None [] [] false.

(** ** Updates *)
Definition setConsumer (c : AdmissionCompletionConsumer) (pending : option CommandResultBatch)
    (d : CommandResultDispatcher) : CommandResultDispatcher :=
  Dispatcher.mkDispatcher c (Dispatcher.privateHandoff_ d) (Dispatcher.publicHandoff_ d) pending
    (Dispatcher.pendingPrivateResults_ d) (Dispatcher.pendingPublicTrades_ d) (Dispatcher.projectionsReady_ d).
Definition setProjections (privateResults : list RecipientResult) (publicTrades : list PublicTrade) (ready : bool)
    (d : CommandResultDispatcher) : CommandResultDispatcher :=
  Dispatcher.mkDispatcher (Dispatcher.completion_ d) (Dispatcher.privateHandoff_ d) (Dispatcher.publicHandoff_ d)
    (Dispatcher.pendingResult_ d) privateResults publicTrades ready.
Definition setPrivateHandoff (q : BoundedPrivateResultQueue) (pending : list RecipientResult)
    (d : CommandResultDispatcher) : CommandResultDispatcher :=
  Dispatcher.mkDispatcher (Dispatcher.completion_ d) q (Dispatcher.publicHandoff_ d) (Dispatcher.pendingResult_ d)
    pending (Dispatcher.pendingPublicTrades_ d) (Dispatcher.projectionsReady_ d).
Definition setPublicHandoff (q : BoundedPublicTradeQueue) (pending : list PublicTrade)
    (d : CommandResultDispatcher) : CommandResultDispatcher :=
  Dispatcher.mkDispatcher (Dispatcher.completion_ d) (Dispatcher.privateHandoff_ d) q (Dispatcher.pendingResult_ d)
    (Dispatcher.pendingPrivateResults_ d) pending (Dispatcher.projectionsReady_ d).

Definition clearPending (d : CommandResultDispatcher) : CommandResultDispatcher :=
  Dispatcher.mkDispatcher (Dispatcher.completion_ d) (Dispatcher.privateHandoff_ d) (Dispatcher.publicHandoff_ d)
    None [] [] false.

(** ** Observers *)
Definition hasPendingDispatch (d : CommandResultDispatcher) : bool := bool_decide (Dispatcher.pendingResult_ d ≠ None).
Definition projectionPending (d : CommandResultDispatcher) : bool :=
  bool_decide (Dispatcher.pendingResult_ d ≠ None) && negb (Dispatcher.projectionsReady_ d).
Definition privateHandoffPending (d : CommandResultDispatcher) : bool :=
  bool_decide (Dispatcher.pendingPrivateResults_ d ≠ []).
Definition publicHandoffPending (d : CommandResultDispatcher) : bool :=
  bool_decide (Dispatcher.pendingPublicTrades_ d ≠ []).
Definition pendingPrivateEventCount (d : CommandResultDispatcher) : Z :=
  foldl (λ count recipient, wrap64 (count + PrivateQueue.resultSize recipient)) 0 (Dispatcher.pendingPrivateResults_ d).
Definition pendingTradeCount (d : CommandResultDispatcher) : Z := Z.of_nat (length (Dispatcher.pendingPublicTrades_ d)).

(** ** The cycle *)

(** [completion_.processNext(pendingResult_)] *)
Definition takeCompleted : M CommandResultDispatcher bool := λ d,
  match processNextCompletion (Dispatcher.completion_ d) with
  | (Ret (Some batch), c) => (Ret true, setConsumer c (Some batch) d)
  | (Ret None, c) => (Ret false, setConsumer c (Dispatcher.pendingResult_ d) d)
  | (Throw e, c) => (Throw e, setConsumer c (Dispatcher.pendingResult_ d) d)
  end.

(** The two projections; [*pendingResult_] of a null pointer is undefined. *)
Definition project : M CommandResultDispatcher unit := λ d,
  match Dispatcher.pendingResult_ d with
  | None => (Throw undefined_behaviour, d)
  | Some batch =>
      match projectPrivateResults batch with
      | Ret privateResults => (Ret tt, setProjections privateResults (projectPublicTrades batch) true d)
      | Throw e => (Throw e, d)
      end
  end.

(** A vector the queue took is empty. *)
Definition pushPrivate : M CommandResultDispatcher bool := λ d,
  match PrivateQueue.tryPushPrivate (Dispatcher.pendingPrivateResults_ d) (Dispatcher.privateHandoff_ d) with
  | (Ret true, q) => (Ret true, setPrivateHandoff q [] d)
  | (r, q) => (r, setPrivateHandoff q (Dispatcher.pendingPrivateResults_ d) d)
  end.
Definition pushPublic : M CommandResultDispatcher bool := λ d,
  match TradeQueue.tryPushTrades (Dispatcher.pendingPublicTrades_ d) (Dispatcher.publicHandoff_ d) with
  | (Ret true, q) => (Ret true, setPublicHandoff q [] d)
  | (r, q) => (r, setPublicHandoff q (Dispatcher.pendingPublicTrades_ d) d)
  end.

(** From the projections on. *)
Definition dispatchPending (progressed : bool) : M CommandResultDispatcher bool :=
  d ← getM;
  progressed ← (if negb (Dispatcher.projectionsReady_ d) then project ;; mret true else mret progressed);
  d ← getM;
  progressed ← (if privateHandoffPending d then pushed ← pushPrivate; mret (pushed || progressed)
                else mret progressed);
  d ← getM;
  progressed ← (if publicHandoffPending d then pushed ← pushPublic; mret (pushed || progressed)
                else mret progressed);
  d ← getM;
  (if privateHandoffPending d || publicHandoffPending d then mret tt else modifyM clearPending) ;;
  mret progressed.

Definition advanceDispatcher : M CommandResultDispatcher bool :=
  d ← getM;
  if hasPendingDispatch d then dispatchPending false
  else
    taken ← takeCompleted;
    if (taken : bool) then dispatchPending true else mret false.

(** * What the dispatcher hands to the readers

    The two queues of results, the size of a batch's projections, and the
    dispatcher's invariant: what the readers took, what is queued and what waits are
    the projections of the completed results, each once and in order. *)

(** ** The size of a batch's projections *)
Definition eventsIn (rs : list RecipientResult) : Z := foldr (λ r count, PrivateQueue.resultSize r + count) 0 rs.
Definition totalEvents (batches : list (list RecipientResult)) : Z := foldr (λ rs count, eventsIn rs + count) 0 batches.
Definition totalTrades (batches : list (list PublicTrade)) : Z := foldr (λ ts count, Z.of_nat (length ts) + count) 0 batches.

Lemma resultSize_nonneg r : 0 ≤ PrivateQueue.resultSize r.
Proof. unfold PrivateQueue.resultSize. lia. Qed.
Lemma eventsIn_nonneg rs : 0 ≤ eventsIn rs.
Proof. induction rs as [|r rs IH]; simpl; [done|]. pose proof (resultSize_nonneg r). lia. Qed.
Lemma totalEvents_nonneg l : 0 ≤ totalEvents l.
Proof. induction l as [|rs l IH]; simpl; [done|]. pose proof (eventsIn_nonneg rs). lia. Qed.
Lemma totalTrades_nonneg l : 0 ≤ totalTrades l.
Proof. induction l as [|ts l IH]; simpl; [done|lia]. Qed.
Lemma totalEvents_snoc l rs : totalEvents (l ++ [rs]) = totalEvents l + eventsIn rs.
Proof. unfold totalEvents. rewrite foldr_app. simpl. induction l as [|x l IH]; simpl in *; lia. Qed.
Lemma totalTrades_snoc l ts : totalTrades (l ++ [ts]) = totalTrades l + Z.of_nat (length ts).
Proof. unfold totalTrades. rewrite foldr_app. simpl. induction l as [|x l IH]; simpl in *; lia. Qed.

(** A batch a command of the engine can have. *)
Definition projectable (b : CommandResultBatch) : Prop :=
  Forall side_known (Batch.events b) ∧ Z.of_nat (length (Batch.events b)) ≤ MAX_EVENTS_PER_COMMAND.

Definition privateProjection (b : CommandResultBatch) : list RecipientResult :=
  recipientResult b (Batch.events b) <$> recipientsOf (Batch.events b).

Lemma specBatch_projectable run message books : valid_command message → projectable (specBatch run message books).
Proof.
  intros Hv. split; [|by apply specProcess_ids]. eapply Forall_impl; [by apply (specProcess_own run message books)|].
  by intros e [].
Qed.

Lemma projectable_run b : projectable b → projectPrivateResults b = Ret (privateProjection b).
Proof.
  intros [Hs Hn]. apply projectPrivateResults_run; [done|]. unfold MAX_EVENTS_PER_COMMAND, SIZE_MAX, UINT64_MAX in *. lia.
Qed.

(** An event has at most two views among all clients. *)
Lemma views_once event cs : NoDup cs → (length (concat (flip views event <$> cs)) ≤ 2)%nat.
Proof.
  intros Hnd. assert (Hone : ∀ (who : ClientId) (x : PrivateEvent) l, NoDup l →
    (length (concat ((λ c, if bool_decide (who = c) then [x] else []) <$> l)) ≤ 1)%nat).
  { intros who x l. induction 1 as [|c l Hc _ IH]; [simpl; lia|]. cbn [fmap list_fmap concat]. rewrite length_app.
    case_bool_decide as Hw; [|cbn [length]; lia].
    subst c. assert (Hnil : concat ((λ c, if bool_decide (who = c) then [x] else []) <$> l) = []); [|rewrite Hnil; simpl; lia].
    clear IH. induction l as [|c l IH]; [done|]. cbn [fmap list_fmap concat]. apply not_elem_of_cons in Hc as [Hne Hc].
    rewrite bool_decide_eq_false_2 by done. by apply IH. }
  destruct event as [e|e|e|e]; unfold flip, views; try (etrans; [by apply Hone|lia]).
  assert (Hsplit : ∀ (f g : ClientId → list PrivateEvent) l,
    length (concat ((λ c, f c ++ g c) <$> l)) = (length (concat (f <$> l)) + length (concat (g <$> l)))%nat).
  { intros f g l. induction l as [|c l IH]; [done|]. cbn [fmap list_fmap concat]. rewrite !length_app, IH. lia. }
  rewrite Hsplit. pose proof (Hone (Trade.makerClientId e) (PvTrade (makerTrade e (flipSide (Trade.takerSide e)))) cs Hnd).
  pose proof (Hone (Trade.takerClientId e) (PvTrade (takerTrade e)) cs Hnd). lia.
Qed.

Lemma allViews_total events cs : NoDup cs → (length (concat (allViews events <$> cs)) ≤ 2 * length events)%nat.
Proof.
  intros Hnd. induction events as [|e events IH].
  - assert (Hnil : concat (allViews [] <$> cs) = []) by (clear Hnd; induction cs; done). rewrite Hnil. simpl. lia.
  - assert (Hsplit : length (concat (allViews (e :: events) <$> cs)) =
      (length (concat (flip views e <$> cs)) + length (concat (allViews events <$> cs)))%nat).
    { clear Hnd IH. induction cs as [|c cs IH]; [done|]. cbn [fmap list_fmap concat].
      rewrite !length_app, allViews_cons, length_app, IH. unfold flip. lia. }
    rewrite Hsplit. pose proof (views_once e cs Hnd). simpl. lia.
Qed.

Lemma eventsIn_projection b cs :
  eventsIn (recipientResult b (Batch.events b) <$> cs) = Z.of_nat (length (concat (allViews (Batch.events b) <$> cs))).
Proof.
  induction cs as [|c cs IH]; [done|]. cbn [fmap list_fmap eventsIn foldr concat]. fold (eventsIn (recipientResult b (Batch.events b) <$> cs)).
  rewrite IH, length_app. unfold PrivateQueue.resultSize. cbn [recipientResult setPrivateResult Recipient.privateResult]. lia.
Qed.

(** The projections are as large as the constructor of the path assumes. *)
Lemma privateProjection_size b : projectable b →
  eventsIn (privateProjection b) ≤ 2 * MAX_EVENTS_PER_COMMAND ∧ (privateProjection b ≠ [] → 0 < eventsIn (privateProjection b)).
Proof.
  intros [_ Hn]. unfold privateProjection. split.
  - rewrite eventsIn_projection. pose proof (allViews_total (Batch.events b) (recipientsOf (Batch.events b))) as Ht.
    specialize (Ht ltac:(apply firstAppearance_NoDup, NoDup_nil_2)). lia.
  - pose proof (λ c, proj1 (elem_of_recipientsOf (Batch.events b) c)) as Hviews.
    destruct (recipientsOf (Batch.events b)) as [|c cs]; [done|]. intros _. specialize (Hviews c ltac:(left)).
    change (0 < Z.of_nat (length (allViews (Batch.events b) c)) + eventsIn (recipientResult b (Batch.events b) <$> cs)).
    pose proof (eventsIn_nonneg (recipientResult b (Batch.events b) <$> cs)).
    destruct (allViews (Batch.events b) c); [done|]. cbn [length]. lia.
Qed.

Lemma publicProjection_size b : projectable b → Z.of_nat (length (projectPublicTrades b)) ≤ MAX_EVENTS_PER_COMMAND.
Proof.
  intros [_ Hn]. rewrite projectPublicTrades_omap, length_fmap.
  assert (Hle : ∀ events, (length (omap getTrade events) ≤ length events)%nat).
  { intros events. induction events as [|e events IH]; [done|]. cbn [omap list_omap length]. destruct (getTrade e); cbn [length]; lia. }
  specialize (Hle (Batch.events b)). lia.
Qed.

(** ** The queues

    Each counts what it holds, never more than its capacity, and has room for any one
    batch when it is empty. *)
Record private_ok (q : BoundedPrivateResultQueue) : Prop := {
  pq_count : PrivateQueue.queuedEventCount_ q = totalEvents (PrivateQueue.batches_ q);
  pq_bound : totalEvents (PrivateQueue.batches_ q) ≤ PrivateQueue.eventCapacity_ q ≤ UINT64_MAX;
  pq_worst : 2 * MAX_EVENTS_PER_COMMAND ≤ PrivateQueue.eventCapacity_ q }.

Record trades_ok (q : BoundedPublicTradeQueue) : Prop := {
  tq_count : TradeQueue.queuedRecordCount_ q = totalTrades (TradeQueue.batches_ q);
  tq_bound : totalTrades (TradeQueue.batches_ q) ≤ TradeQueue.recordCapacity_ q ≤ UINT64_MAX;
  tq_worst : MAX_EVENTS_PER_COMMAND ≤ TradeQueue.recordCapacity_ q }.

Lemma countBatchEvents_run rs : ∀ n, 0 ≤ n → n + eventsIn rs ≤ SIZE_MAX →
  PrivateQueue.countBatchEvents rs n = Ret (n + eventsIn rs).
Proof.
  induction rs as [|r rs IH]; intros n Hn Hmax; cbn [PrivateQueue.countBatchEvents eventsIn foldr] in *.
  - by rewrite Z.add_0_r.
  - fold (eventsIn rs) in *. pose proof (resultSize_nonneg r). pose proof (eventsIn_nonneg rs).
    rewrite throw_if_false by (apply bool_decide_eq_false_2; lia). rewrite IH by lia. f_equal. lia.
Qed.

(** What fits one empty queue. *)
Definition private_fits (rs : list RecipientResult) : Prop := rs ≠ [] → 0 < eventsIn rs ≤ 2 * MAX_EVENTS_PER_COMMAND.
Definition trades_fit (ts : list PublicTrade) : Prop := Z.of_nat (length ts) ≤ MAX_EVENTS_PER_COMMAND.

Lemma tryPushPrivate_run rs q : private_ok q → private_fits rs → rs ≠ [] →
  ∃ pushed q', PrivateQueue.tryPushPrivate rs q = (Ret pushed, q') ∧ private_ok q' ∧
    PrivateQueue.batches_ q' = PrivateQueue.batches_ q ++ (if (pushed : bool) then [rs] else []) ∧
    (pushed = false → PrivateQueue.batches_ q ≠ []).
Proof.
  intros [Hc Hb Hw] Hfits Hne. specialize (Hfits Hne). pose proof (totalEvents_nonneg (PrivateQueue.batches_ q)).
  unfold PrivateQueue.tryPushPrivate. rewrite bool_decide_eq_false_2 by done. rewrite throw_ifM_false.
  erewrite liftM_run by (apply countBatchEvents_run; unfold MAX_EVENTS_PER_COMMAND, SIZE_MAX, UINT64_MAX in *; lia).
  rewrite Z.add_0_l, (bool_decide_eq_false_2 (eventsIn rs = 0)) by lia. rewrite throw_ifM_false.
  unfold mbind, M_bind, getM. rewrite Hc, wrap64_small by (unfold is_u64; lia). case_bool_decide as Hroom.
  - eexists false, q. rewrite app_nil_r. split_and!; [done|done|done|]. intros _ Hnil. rewrite Hnil in Hroom. simpl in Hroom. lia.
  - eexists true, _. split; [reflexivity|]. split; [|done]. cbn.
    rewrite wrap64_small by (unfold is_u64; lia). split; cbn; rewrite ?totalEvents_snoc; lia.
Qed.

Lemma uncount_run rs : ∀ n, eventsIn rs ≤ n ≤ UINT64_MAX →
  foldl (λ count recipient, wrap64 (count - PrivateQueue.resultSize recipient)) n rs = n - eventsIn rs.
Proof.
  induction rs as [|r rs IH]; intros n Hn; cbn [foldl eventsIn foldr] in *; [lia|]. fold (eventsIn rs) in *.
  pose proof (resultSize_nonneg r). pose proof (eventsIn_nonneg rs).
  rewrite wrap64_small by (unfold is_u64; lia). rewrite IH by lia. lia.
Qed.

Lemma tryPopPrivate_run q batch q' : private_ok q → PrivateQueue.tryPopPrivate q = (Some batch, q') →
  private_ok q' ∧ PrivateQueue.batches_ q = batch :: PrivateQueue.batches_ q'.
Proof.
  intros [Hc Hb Hw]. unfold PrivateQueue.tryPopPrivate. destruct (PrivateQueue.batches_ q) as [|rs l] eqn:Hl; [done|].
  intros [= <- <-]. split; [|done]. cbn [totalEvents foldr] in Hc, Hb. fold (totalEvents l) in Hc, Hb.
  pose proof (totalEvents_nonneg l). pose proof (eventsIn_nonneg rs).
  split; cbn [PrivateQueue.queuedEventCount_ PrivateQueue.batches_ PrivateQueue.eventCapacity_]; [rewrite uncount_run by lia; lia|lia|done].
Qed.

Lemma tryPushTrades_run ts q : trades_ok q → trades_fit ts → ts ≠ [] →
  ∃ pushed q', TradeQueue.tryPushTrades ts q = (Ret pushed, q') ∧ trades_ok q' ∧
    TradeQueue.batches_ q' = TradeQueue.batches_ q ++ (if (pushed : bool) then [ts] else []) ∧
    (pushed = false → TradeQueue.batches_ q ≠ []).
Proof.
  intros [Hc Hb Hw] Hfits Hne. unfold trades_fit in Hfits. pose proof (totalTrades_nonneg (TradeQueue.batches_ q)).
  unfold TradeQueue.tryPushTrades. rewrite bool_decide_eq_false_2 by done. rewrite throw_ifM_false.
  unfold mbind, M_bind, getM. rewrite Hc, wrap64_small by (unfold is_u64; lia). case_bool_decide as Hroom.
  - eexists false, q. rewrite app_nil_r. split_and!; [done|done|done|]. intros _ Hnil. rewrite Hnil in Hroom. simpl in Hroom. lia.
  - eexists true, _. split; [reflexivity|]. split; [|done]. cbn.
    rewrite wrap64_small by (unfold is_u64; lia). split; cbn; rewrite ?totalTrades_snoc; lia.
Qed.

Lemma tryPopTrades_run q batch q' : trades_ok q → TradeQueue.tryPopTrades q = (Some batch, q') →
  trades_ok q' ∧ TradeQueue.batches_ q = batch :: TradeQueue.batches_ q'.
Proof.
  intros [Hc Hb Hw]. unfold TradeQueue.tryPopTrades. destruct (TradeQueue.batches_ q) as [|ts l] eqn:Hl; [done|].
  intros [= <- <-]. split; [|done]. cbn [totalTrades foldr] in Hc, Hb. fold (totalTrades l) in Hc, Hb.
  pose proof (totalTrades_nonneg l).
  split; cbn [TradeQueue.queuedRecordCount_ TradeQueue.batches_ TradeQueue.recordCapacity_];
    [rewrite wrap64_small by (unfold is_u64; lia); lia|lia|done].
Qed.

(** ** The dispatcher *)

(** A queue takes no empty batch. *)
Definition batched {A} (l : list A) : list (list A) := match l with [] => [] | _ => [l] end.

(** What the readers get of completed results. *)
Definition privateBatches (completed : list CommandResultBatch) : list (list RecipientResult) :=
  completed ≫= λ b, batched (privateProjection b).
Definition publicBatches (completed : list CommandResultBatch) : list (list PublicTrade) :=
  completed ≫= λ b, batched (projectPublicTrades b).

Lemma privateBatches_snoc l b : privateBatches (l ++ [b]) = privateBatches l ++ batched (privateProjection b).
Proof. unfold privateBatches. rewrite bind_app. cbn. by rewrite app_nil_r. Qed.
Lemma publicBatches_snoc l b : publicBatches (l ++ [b]) = publicBatches l ++ batched (projectPublicTrades b).
Proof. unfold publicBatches. rewrite bind_app. cbn. by rewrite app_nil_r. Qed.

(** A dispatcher that offers a projected result, or holds none; [completed] are the
    results the consumer completed, and the readers took [privateOut] and [publicOut]. *)
Record handing_over (completed : list CommandResultBatch) (privateOut : list (list RecipientResult))
    (publicOut : list (list PublicTrade)) (d : CommandResultDispatcher) : Prop := {
  ho_private : privateOut ++ PrivateQueue.batches_ (Dispatcher.privateHandoff_ d) ++ batched (Dispatcher.pendingPrivateResults_ d) =
    privateBatches completed;
  ho_public : publicOut ++ TradeQueue.batches_ (Dispatcher.publicHandoff_ d) ++ batched (Dispatcher.pendingPublicTrades_ d) =
    publicBatches completed;
  ho_privateQueue : private_ok (Dispatcher.privateHandoff_ d);
  ho_publicQueue : trades_ok (Dispatcher.publicHandoff_ d);
  ho_privateFits : private_fits (Dispatcher.pendingPrivateResults_ d);
  ho_publicFits : trades_fit (Dispatcher.pendingPublicTrades_ d) }.

(** Between two calls of [advance]. *)
Record dispatcher_ok (completed : list CommandResultBatch) (privateOut : list (list RecipientResult))
    (publicOut : list (list PublicTrade)) (d : CommandResultDispatcher) : Prop := {
  do_handing : handing_over completed privateOut publicOut d;
  do_pending : if bool_decide (Dispatcher.pendingResult_ d = None)
    then Dispatcher.projectionsReady_ d = false ∧ Dispatcher.pendingPrivateResults_ d = [] ∧ Dispatcher.pendingPublicTrades_ d = []
    else Dispatcher.projectionsReady_ d = true ∧
      (Dispatcher.pendingPrivateResults_ d ≠ [] ∨ Dispatcher.pendingPublicTrades_ d ≠ []) }.

(** What is left to do: a batch that waits is pushed, then popped. *)
Definition dispatch_left (d : CommandResultDispatcher) : nat :=
  2 * length (batched (Dispatcher.pendingPrivateResults_ d)) + 2 * length (batched (Dispatcher.pendingPublicTrades_ d)) +
  length (PrivateQueue.batches_ (Dispatcher.privateHandoff_ d)) + length (TradeQueue.batches_ (Dispatcher.publicHandoff_ d)).

(** What the pushes leave alone. *)
Definition offers_same (d d' : CommandResultDispatcher) : Prop :=
  Dispatcher.completion_ d' = Dispatcher.completion_ d ∧ Dispatcher.pendingResult_ d' = Dispatcher.pendingResult_ d ∧
  Dispatcher.projectionsReady_ d' = Dispatcher.projectionsReady_ d.

Definition offerPrivate (progressed : bool) : M CommandResultDispatcher bool :=
  d ← getM; if privateHandoffPending d then pushed ← pushPrivate; mret (pushed || progressed) else mret progressed.
Definition offerPublic (progressed : bool) : M CommandResultDispatcher bool :=
  d ← getM; if publicHandoffPending d then pushed ← pushPublic; mret (pushed || progressed) else mret progressed.

Lemma batched_short {A} (l : list A) : (length (batched l) ≤ 1)%nat.
Proof. destruct l; simpl; lia. Qed.
Lemma batched_some {A} (l : list A) : l ≠ [] → batched l = [l].
Proof. by destruct l. Qed.

Lemma offerPrivate_run completed privateOut publicOut progressed d : handing_over completed privateOut publicOut d →
  ∃ progressed' d', offerPrivate progressed d = (Ret progressed', d') ∧ handing_over completed privateOut publicOut d' ∧
    offers_same d d' ∧ Dispatcher.publicHandoff_ d' = Dispatcher.publicHandoff_ d ∧
    Dispatcher.pendingPublicTrades_ d' = Dispatcher.pendingPublicTrades_ d ∧
    (dispatch_left d' + (if progressed' then 1 else 0) ≤ dispatch_left d + (if progressed then 1 else 0))%nat ∧
    (progressed = true → progressed' = true) ∧
    (progressed' = false → Dispatcher.pendingPrivateResults_ d = [] ∨ PrivateQueue.batches_ (Dispatcher.privateHandoff_ d) ≠ []).
Proof.
  intros Hok. unfold offerPrivate, privateHandoffPending. unfold mbind at 1, M_bind at 1, getM.
  case_bool_decide as Hne.
  2:{ exists progressed, d. rewrite Hne. split_and!; try done. by left. }
  pose proof Hok as [Hpriv Hpub Hpq Htq Hpf Htf].
  destruct (tryPushPrivate_run _ _ Hpq Hpf Hne) as (pushed & q & Hrun & Hq & Hbatches & Hfull).
  unfold mbind, M_bind, pushPrivate. rewrite Hrun. destruct pushed.
  - eexists true, _. split; [reflexivity|]. split_and!; try done.
    + split; cbn; try done. by rewrite app_nil_r, Hbatches, <-Hpriv, batched_some.
    + unfold dispatch_left. cbn. rewrite (batched_some _ Hne), Hbatches, length_app. simpl. destruct progressed; lia.
  - rewrite app_nil_r in Hbatches. eexists progressed, _. split; [reflexivity|]. split_and!; try done; [| |by right; apply Hfull].
    + split; cbn; try done. by rewrite Hbatches.
    + unfold dispatch_left. cbn. rewrite Hbatches. lia.
Qed.

Lemma offerPublic_run completed privateOut publicOut progressed d : handing_over completed privateOut publicOut d →
  ∃ progressed' d', offerPublic progressed d = (Ret progressed', d') ∧ handing_over completed privateOut publicOut d' ∧
    offers_same d d' ∧ Dispatcher.privateHandoff_ d' = Dispatcher.privateHandoff_ d ∧
    Dispatcher.pendingPrivateResults_ d' = Dispatcher.pendingPrivateResults_ d ∧
    (dispatch_left d' + (if progressed' then 1 else 0) ≤ dispatch_left d + (if progressed then 1 else 0))%nat ∧
    (progressed = true → progressed' = true) ∧
    (progressed' = false → Dispatcher.pendingPublicTrades_ d = [] ∨ TradeQueue.batches_ (Dispatcher.publicHandoff_ d) ≠ []).
Proof.
  intros Hok. unfold offerPublic, publicHandoffPending. unfold mbind at 1, M_bind at 1, getM.
  case_bool_decide as Hne.
  2:{ exists progressed, d. rewrite Hne. split_and!; try done. by left. }
  pose proof Hok as [Hpriv Hpub Hpq Htq Hpf Htf].
  destruct (tryPushTrades_run _ _ Htq Htf Hne) as (pushed & q & Hrun & Hq & Hbatches & Hfull).
  unfold mbind, M_bind, pushPublic. rewrite Hrun. destruct pushed.
  - eexists true, _. split; [reflexivity|]. split_and!; try done.
    + split; cbn; try done. by rewrite app_nil_r, Hbatches, <-Hpub, batched_some.
    + unfold dispatch_left. cbn. rewrite (batched_some _ Hne), Hbatches, length_app. simpl. destruct progressed; lia.
  - rewrite app_nil_r in Hbatches. eexists progressed, _. split; [reflexivity|]. split_and!; try done; [| |by right; apply Hfull].
    + split; cbn; try done. by rewrite Hbatches.
    + unfold dispatch_left. cbn. rewrite Hbatches. lia.
Qed.

Lemma dispatchPending_ready progressed d : Dispatcher.projectionsReady_ d = true →
  dispatchPending progressed d =
  (progressed ← offerPrivate progressed; progressed ← offerPublic progressed; d ← getM;
   (if privateHandoffPending d || publicHandoffPending d then mret tt else modifyM clearPending) ;; mret progressed) d.
Proof. intros Hready. unfold dispatchPending. unfold mbind at 1, M_bind at 1, getM at 1. by rewrite Hready. Qed.

Lemma dispatchReady_run completed privateOut publicOut progressed d : handing_over completed privateOut publicOut d →
  Dispatcher.pendingResult_ d ≠ None → Dispatcher.projectionsReady_ d = true →
  ∃ progressed' d', dispatchPending progressed d = (Ret progressed', d') ∧ dispatcher_ok completed privateOut publicOut d' ∧
    Dispatcher.completion_ d' = Dispatcher.completion_ d ∧
    (dispatch_left d' + (if progressed' then 1 else 0) ≤ dispatch_left d + (if progressed then 1 else 0))%nat ∧
    (progressed = true → progressed' = true) ∧
    (progressed' = false →
       (Dispatcher.pendingPrivateResults_ d = [] ∨ PrivateQueue.batches_ (Dispatcher.privateHandoff_ d) ≠ []) ∧
       (Dispatcher.pendingPublicTrades_ d = [] ∨ TradeQueue.batches_ (Dispatcher.publicHandoff_ d) ≠ [])).
Proof.
  intros Hok Hpend Hready. rewrite dispatchPending_ready by done.
  destruct (offerPrivate_run _ _ _ progressed d Hok) as (p1 & d1 & Hrun1 & Hok1 & (Hc1 & Hr1 & Hp1) & Hq1 & Hw1 & Hl1 & Hm1 & Hb1).
  destruct (offerPublic_run _ _ _ p1 d1 Hok1) as (p2 & d2 & Hrun2 & Hok2 & (Hc2 & Hr2 & Hp2) & Hq2 & Hw2 & Hl2 & Hm2 & Hb2).
  erewrite M_bind_run by exact Hrun1. erewrite M_bind_run by exact Hrun2. unfold mbind, M_bind, getM, mret, M_ret, modifyM.
  assert (Hblocked : p2 = false →
       (Dispatcher.pendingPrivateResults_ d = [] ∨ PrivateQueue.batches_ (Dispatcher.privateHandoff_ d) ≠ []) ∧
       (Dispatcher.pendingPublicTrades_ d = [] ∨ TradeQueue.batches_ (Dispatcher.publicHandoff_ d) ≠ [])).
  { intros ->. split; [apply Hb1; by destruct p1; [by rewrite Hm2 in *|]|]. rewrite <-Hq1, <-Hw1. by apply Hb2. }
  unfold privateHandoffPending, publicHandoffPending.
  destruct (bool_decide_reflect (Dispatcher.pendingPrivateResults_ d2 ≠ [])) as [Hn|Hn%dec_stable];
    [|destruct (bool_decide_reflect (Dispatcher.pendingPublicTrades_ d2 ≠ [])) as [Hn'|Hn'%dec_stable]]; cbn [orb].
  1-2: exists p2, d2; split_and!; [done| |congruence|lia|auto|done]; split; [done|];
    rewrite bool_decide_eq_false_2 by congruence; split; [congruence|by auto].
  exists p2, (clearPending d2). destruct Hok2 as [Hpriv Hpub Hpq Htq Hpf Htf]. unfold dispatch_left in *.
  rewrite Hn, Hn' in *. split_and!; [done| |cbn; congruence|cbn in *; lia|auto|done]. split; [by split|done].
Qed.

(** One call: it completes the next result, when none is held, and hands over what fits. *)
Lemma advanceDispatcher_run completed privateOut publicOut d next c : dispatcher_ok completed privateOut publicOut d →
  processNextCompletion (Dispatcher.completion_ d) = (Ret next, c) → (∀ b, next = Some b → projectable b) →
  let held := bool_decide (Dispatcher.pendingResult_ d ≠ None) in
  let taken := if held then None else next in
  ∃ progressed d', advanceDispatcher d = (Ret progressed, d') ∧
    dispatcher_ok (completed ++ option_list taken) privateOut publicOut d' ∧
    Dispatcher.completion_ d' = (if held then Dispatcher.completion_ d else c) ∧
    (dispatch_left d' + (if progressed then 1 else 0) ≤ dispatch_left d + 5 * length (option_list taken))%nat ∧
    (progressed = false →
       (held = false ∧ next = None) ∨
       PrivateQueue.batches_ (Dispatcher.privateHandoff_ d) ≠ [] ∨ TradeQueue.batches_ (Dispatcher.publicHandoff_ d) ≠ []).
Proof.
  intros [Hok Hpend] Hnext Hproj. unfold advanceDispatcher, hasPendingDispatch. unfold mbind at 1, M_bind at 1, getM at 1.
  cbv zeta. destruct (bool_decide_reflect (Dispatcher.pendingResult_ d ≠ None)) as [Hheld|Hnone%dec_stable]; cbn [option_list].
  - rewrite bool_decide_eq_false_2 in Hpend by done. destruct Hpend as [Hready Hwaits].
    destruct (dispatchReady_run _ _ _ false d Hok Hheld Hready) as (p & d' & Hrun & Hok' & Hc & Hl & _ & Hb).
    exists p, d'. rewrite app_nil_r. split_and!; [done|done|done|simpl; lia|]. intros Hp. destruct (Hb Hp) as [H1 H2]. right.
    destruct Hwaits; [left; by destruct H1|right; by destruct H2].
  - rewrite bool_decide_eq_true_2 in Hpend by done. destruct Hpend as (Hready & Hp1 & Hp2).
    unfold mbind at 1, M_bind at 1, takeCompleted. rewrite Hnext. destruct Hok as [Hpriv Hpub Hpq Htq Hpf Htf]. destruct next as [b|].
    + specialize (Hproj b eq_refl). set (d1 := setProjections (privateProjection b) (projectPublicTrades b) true (setConsumer c (Some b) d)).
      assert (Hsame : dispatchPending true (setConsumer c (Some b) d) = dispatchPending true d1).
      { rewrite (dispatchPending_ready true d1) by done. unfold dispatchPending. unfold mbind at 1, M_bind at 1, getM at 1.
        cbn [Dispatcher.projectionsReady_ setConsumer]. rewrite Hready. cbn [negb].
        unfold mbind at 1, M_bind at 1. unfold mbind at 1, M_bind at 1, project. cbn [Dispatcher.pendingResult_ setConsumer].
        by rewrite projectable_run. }
      rewrite Hsame.
      assert (Hok1 : handing_over (completed ++ [b]) privateOut publicOut d1).
      { rewrite Hp1 in Hpriv. rewrite Hp2 in Hpub. cbn [batched] in Hpriv, Hpub. rewrite app_nil_r in Hpriv, Hpub.
        split; [| |done|done| |].
        - rewrite privateBatches_snoc, <-Hpriv. by rewrite <-!app_assoc.
        - rewrite publicBatches_snoc, <-Hpub. by rewrite <-!app_assoc.
        - intros ?. by split; apply privateProjection_size.
        - by apply publicProjection_size. }
      destruct (dispatchReady_run _ _ _ true d1 Hok1 ltac:(done) eq_refl) as (p & d' & Hrun & Hok' & Hc & Hl & Hm & _).
      exists p, d'. rewrite (Hm eq_refl) in *. split_and!; [done|done|done| |done].
      unfold dispatch_left in *. rewrite Hp1, Hp2. cbn in *.
      pose proof (batched_short (privateProjection b)). pose proof (batched_short (projectPublicTrades b)). lia.
    + eexists false, _. split; [reflexivity|]. cbn. rewrite app_nil_r, Hnone. split_and!; [|done| |by left].
      * split; [by split|]. cbn. by rewrite ?bool_decide_eq_true_2.
      * unfold dispatch_left. cbn. lia.
Qed.

(** ** The readers *)
Lemma reader_private completed privateOut publicOut d batch q : dispatcher_ok completed privateOut publicOut d →
  PrivateQueue.tryPopPrivate (Dispatcher.privateHandoff_ d) = (Some batch, q) →
  let d' := setPrivateHandoff q (Dispatcher.pendingPrivateResults_ d) d in
  dispatcher_ok completed (privateOut ++ [batch]) publicOut d' ∧ dispatch_left d = Datatypes.S (dispatch_left d').
Proof.
  intros [[Hpriv Hpub Hpq Htq Hpf Htf] Hpend] Hpop d'. destruct (tryPopPrivate_run _ _ _ Hpq Hpop) as [Hq Hb]. split.
  - split; [split; try done|done]. cbn. by rewrite <-Hpriv, Hb, <-app_assoc.
  - unfold dispatch_left. cbn. rewrite Hb. simpl. lia.
Qed.

Lemma reader_public completed privateOut publicOut d batch q : dispatcher_ok completed privateOut publicOut d →
  TradeQueue.tryPopTrades (Dispatcher.publicHandoff_ d) = (Some batch, q) →
  let d' := setPublicHandoff q (Dispatcher.pendingPublicTrades_ d) d in
  dispatcher_ok completed privateOut (publicOut ++ [batch]) d' ∧ dispatch_left d = Datatypes.S (dispatch_left d').
Proof.
  intros [[Hpriv Hpub Hpq Htq Hpf Htf] Hpend] Hpop d'. destruct (tryPopTrades_run _ _ _ Htq Hpop) as [Hq Hb]. split.
  - split; [split; try done|done]. cbn. by rewrite <-Hpub, Hb, <-app_assoc.
  - unfold dispatch_left. cbn. rewrite Hb. simpl. lia.
Qed.
