(* ===== verification/Controller.v ===== *)
(** * The controller's outcomes

    The enumerations and result structures of
    [src/core/recovery/include/exchange_run_controller.hpp].  An empty
    [std::exception_ptr] is [None]. *)
From S2P Require Import Prelude Domain Matching Bytes JournalCodec RunHeaderCodec RunCatalogCodec Posix.
From S2P Require Import JournalReader JournalWriter Projection Queues Admission Sequencer Bus EngineWorker.
From S2P Require Import Paths FileSystem CatalogStorage JournalStorage NewRun ResultDispatcher.

Module ExistingStartup.
Inductive ExistingRunStartupOutcome :=
  | PAUSED | CATALOG_LOAD_FAILED | CATALOG_PATH_FAILED | NO_ACTIVE_RUN | EXPLICIT_OPERATION_REQUIRED
  | GENERATION_EXHAUSTED | JOURNAL_PATH_FAILED | RECOVERY_FAILED | CATALOG_REPLACE_FAILED.
Record ExistingRunStartupResult := mkExistingStartup {
  outcome : ExistingRunStartupOutcome;
  catalogLoad : option RunCatalogLoadResult;
  recovery : option RecoveredRunResult;
  catalogReplacement : option RunCatalogReplaceResult }.
End ExistingStartup.
Abbreviation ExistingRunStartupOutcome := ExistingStartup.ExistingRunStartupOutcome.
Abbreviation ExistingRunStartupResult := ExistingStartup.ExistingRunStartupResult.

Module Lifecycle.
Inductive ExchangeRunStartupState :=
  UNAVAILABLE | READY | PAUSED | CAPACITY_REACHED | STOPPED | FAIL_STOPPED | RECOVERY_FAILED.
#[export] Instance ExchangeRunStartupState_eq_dec : EqDecision ExchangeRunStartupState.
Proof. solve_decision. Defined.
End Lifecycle.
Export (hints) Lifecycle.
Abbreviation ExchangeRunStartupState := Lifecycle.ExchangeRunStartupState.

Module NewStartup.
Inductive NewRunStartupOutcome := READY | RUN_ALREADY_OWNED | ACTIVE_RUN_EXISTS | START_FAILED | CATALOG_PATH_FAILED.
Record NewRunStartupResult := mkNewStartup {
  outcome : NewRunStartupOutcome;
  catalogLoad : option RunCatalogLoadResult;
  startup : option StartNewRunResult }.
End NewStartup.
Abbreviation NewRunStartupOutcome := NewStartup.NewRunStartupOutcome.
Abbreviation NewRunStartupResult := NewStartup.NewRunStartupResult.

Module Resume.
Inductive RunResumeOutcome :=
  | READY | NOT_PAUSED | CATALOG_LOAD_FAILED | ACTIVE_RUN_ID_MISMATCH | CATALOG_NOT_PAUSED | CAPACITY_REACHED
  | GENERATION_EXHAUSTED | CATALOG_REPLACE_FAILED.
Record RunResumeResult := mkResume {
  outcome : RunResumeOutcome;
  catalogLoad : option RunCatalogLoadResult;
  catalogReplacement : option RunCatalogReplaceResult }.
End Resume.
Abbreviation RunResumeOutcome := Resume.RunResumeOutcome.
Abbreviation RunResumeResult := Resume.RunResumeResult.

Module FailStopFailure.
Inductive FailStopCatalogPreconditionFailure := NONE | ACTIVE_RUN_ID_MISMATCH | CATALOG_NOT_OPEN | GENERATION_EXHAUSTED.
End FailStopFailure.
Abbreviation FailStopCatalogPreconditionFailure := FailStopFailure.FailStopCatalogPreconditionFailure.

Module Inspection.
Record CommandProcessingInspection := mkInspection {
  installed : bool;
  ingressEmpty : bool;
  matchingEmpty : bool;
  queuedResults : Z;
  pendingMatchingResult : bool;
  inProgressMatchingCommand : option sequenceMessage;
  pendingCompletion : bool;
  pendingResultProjection : bool;
  pendingPrivateEventRecords : Z;
  queuedPrivateEventRecords : Z;
  pendingPublicTradeRecords : Z;
  queuedPublicTradeRecords : Z;
  pendingCommand : option sequenceMessage;
  appendFailure : option RunJournalAppendResult;
  internalFailure : option exn;
  capacityTransitionPending : bool;
  capacityCatalogLoad : option RunCatalogLoadResult;
  capacityCatalogReplacement : option RunCatalogReplaceResult;
  failStopCatalogPreconditionFailure : FailStopCatalogPreconditionFailure;
  failStopCatalogLoad : option RunCatalogLoadResult;
  failStopCatalogReplacement : option RunCatalogReplaceResult }.
End Inspection.
Abbreviation CommandProcessingInspection := Inspection.CommandProcessingInspection.

Definition notInstalled : CommandProcessingInspection :=
  Inspection.mkInspection false true true 0 false None false false 0 0 0 0 None None None false None None
    FailStopFailure.NONE None None.

Module FailedRecovery.
Inductive FailedRunRecoveryOutcome :=
  | PAUSED | NOT_RECOVERABLE | CATALOG_PATH_FAILED | CATALOG_LOAD_FAILED | NO_ACTIVE_RUN | CATALOG_BINDING_MISMATCH
  | ACTIVE_RUN_ID_MISMATCH | CATALOG_NOT_FAILED | GENERATION_EXHAUSTED | JOURNAL_PATH_FAILED
  | RESULT_HANDOFF_BACKPRESSURE | RECOVERY_FAILED | CATALOG_REPLACE_FAILED.
Record FailedRunRecoveryResult := mkFailedRecovery {
  outcome : FailedRunRecoveryOutcome;
  originalProcessingInspection : option CommandProcessingInspection;
  catalogLoad : option RunCatalogLoadResult;
  recovery : option RecoveredRunResult;
  catalogReplacement : option RunCatalogReplaceResult }.
End FailedRecovery.
Abbreviation FailedRunRecoveryOutcome := FailedRecovery.FailedRunRecoveryOutcome.
Abbreviation FailedRunRecoveryResult := FailedRecovery.FailedRunRecoveryResult.

Module Pause.
Inductive RunPauseOutcome :=
  | PAUSED | NOT_READY | PATH_NOT_INSTALLED | PROCESSING_FAILED | DRAIN_STALLED | RESULT_HANDOFF_BACKPRESSURE
  | CATALOG_LOAD_FAILED | ACTIVE_RUN_ID_MISMATCH | CATALOG_NOT_OPEN | GENERATION_EXHAUSTED | CATALOG_REPLACE_FAILED.
#[export] Instance RunPauseOutcome_eq_dec : EqDecision RunPauseOutcome.
Proof. solve_decision. Defined.
Record RunPauseResult := mkPause {
  outcome : RunPauseOutcome;
  catalogLoad : option RunCatalogLoadResult;
  catalogReplacement : option RunCatalogReplaceResult }.
End Pause.
Export (hints) Pause.
Abbreviation RunPauseOutcome := Pause.RunPauseOutcome.
Abbreviation RunPauseResult := Pause.RunPauseResult.

Module Cleanup.
Inductive StoppedRunCleanupOutcome :=
  NOT_REQUIRED | COMMITTED | REMOVE_FAILED | DIRECTORY_OPEN_FAILED | DIRECTORY_SYNC_FAILED | DIRECTORY_CLOSE_FAILED.
#[export] Instance StoppedRunCleanupOutcome_eq_dec : EqDecision StoppedRunCleanupOutcome.
Proof. solve_decision. Defined.
Record StoppedRunCleanupResult := mkCleanup {
  outcome : StoppedRunCleanupOutcome;
  replacedRunId : option ExchangeRunId;
  systemError : Z }.
End Cleanup.
Export (hints) Cleanup.
Abbreviation StoppedRunCleanupOutcome := Cleanup.StoppedRunCleanupOutcome.
Abbreviation StoppedRunCleanupResult := Cleanup.StoppedRunCleanupResult.

Module Stop.
Inductive RunStopOutcome :=
  | STOPPED | STOPPED_CLEANUP_FAILED | NOT_STOPPABLE | PAUSE_FAILED | RESULT_HANDOFF_BACKPRESSURE
  | CATALOG_LOAD_FAILED | ACTIVE_RUN_ID_MISMATCH | CATALOG_DISPOSITION_MISMATCH | GENERATION_EXHAUSTED
  | RETAINED_RUN_CONFIRMATION_REQUIRED | RETAINED_RUN_CONFIRMATION_MISMATCH | JOURNAL_PATH_FAILED
  | CATALOG_REPLACE_FAILED.
#[export] Instance RunStopOutcome_eq_dec : EqDecision RunStopOutcome.
Proof. solve_decision. Defined.
Record RunStopResult := mkStop {
  outcome : RunStopOutcome;
  pause : option RunPauseResult;
  catalogLoad : option RunCatalogLoadResult;
  catalogReplacement : option RunCatalogReplaceResult;
  cleanup : StoppedRunCleanupResult }.
End Stop.
Export (hints) Stop.
Abbreviation RunStopOutcome := Stop.RunStopOutcome.
Abbreviation RunStopResult := Stop.RunStopResult.

Module Lookup.
Inductive CompletedResultLookupOutcome :=
  | FOUND | NOT_FOUND | CATALOG_PATH_FAILED | CATALOG_BINDING_MISMATCH | CATALOG_LOAD_FAILED | ACTIVE_RUN_NOT_OWNED
  | RUN_NOT_RETAINED | JOURNAL_PATH_FAILED | RECOVERY_FAILED | INVARIANT_FAILURE.
#[export] Instance CompletedResultLookupOutcome_eq_dec : EqDecision CompletedResultLookupOutcome.
Proof. solve_decision. Defined.
Record CompletedResultLookupResult := mkCompletedLookup {
  outcome : CompletedResultLookupOutcome;
  completedResult : option CommandResultBatch;
  catalogLoad : option RunCatalogLoadResult;
  recovery : option RecoveredRunResult }.
End Lookup.
Export (hints) Lookup.
Abbreviation CompletedResultLookupOutcome := Lookup.CompletedResultLookupOutcome.
Abbreviation CompletedResultLookupResult := Lookup.CompletedResultLookupResult.

Module PrivateLookup.
Record PrivateResultLookupResult := mkPrivateLookup {
  outcome : CompletedResultLookupOutcome;
  privateResult : option RecipientResult;
  catalogLoad : option RunCatalogLoadResult;
  recovery : option RecoveredRunResult }.
End PrivateLookup.
Abbreviation PrivateResultLookupResult := PrivateLookup.PrivateResultLookupResult.

(** * The exchange run controller: its state

    [ExchangeRunController] of [src/core/recovery/include/exchange_run_controller.hpp]
    and its [CommandProcessingPath] of [controller_command_processing.cpp].  The path
    owns the queues and four workers that borrow them and the run's owners: each
    shared object is kept once, with the members a worker has of its own beside it,
    and a worker is put together for a call and taken apart after it. *)

(** ** The command processing path *)

(** [SharedQueue(max_messages)]: an empty queue. *)
Class NewSharedQueue (T Q : Type) := newSharedQueue : Z → Q.
#[export] Instance FixedQueue_new T : NewSharedQueue T (FixedQueue T) := λ capacity, mkFixedQueue (Z.to_nat capacity) [].

Module Path.
(** The sequencer's, matcher's, consumer's and dispatcher's own members. *)
Record SequencerMembers := mkSequencerMembers {
  lastAssignedSequence_ : CommandSequence;
  pendingCommand_ : option sequenceMessage;
  pendingReadyForMatching_ : bool;
  journalAppendFailure_ : option RunJournalAppendResult }.
Record MatcherMembers := mkMatcherMembers {
  pendingCommandResult : option CommandResultBatch;
  inProgressCommand_ : option sequenceMessage;
  multicastWriteFailures_ : Z }.
Record ConsumerMembers := mkConsumerMembers {
  pendingBatch_ : option CommandResultBatch;
  failure_ : option CompletionStatus }.
Record DispatcherMembers := mkDispatcherMembers {
  pendingResult_ : option CommandResultBatch;
  pendingPrivateResults_ : list RecipientResult;
  pendingPublicTrades_ : list PublicTrade;
  projectionsReady_ : bool }.
(** The capacity accounts and what a transition met. *)
Record PathStatus := mkStatus {
  internalFailure : option exn;
  acceptedNotAppendedCommands : Z;
  acceptedNotAppendedBytes : Z;
  capacityTransitionPending : bool;
  capacityCatalogLoad : option RunCatalogLoadResult;
  capacityCatalogReplacement : option RunCatalogReplaceResult;
  failStopCatalogPreconditionFailure : FailStopCatalogPreconditionFailure;
  failStopCatalogLoad : option RunCatalogLoadResult;
  failStopCatalogReplacement : option RunCatalogReplaceResult }.

Record CommandProcessingPath (Q : Type) := mkPath {
  ingress : Q;
  matching : Q;
  results : BoundedCommandResultQueue;
  privateResults : BoundedPrivateResultQueue;
  publicTrades : BoundedPublicTradeQueue;
  bus : Bus * gmap nat Z;
  sequencer : SequencerMembers;
  matcher : MatcherMembers;
  completion : ConsumerMembers;
  resultDispatcher : DispatcherMembers;
  status : PathStatus }.
Arguments mkPath {_} _ _ _ _ _ _ _ _ _ _ _.
Arguments ingress {_} _.
Arguments matching {_} _.
Arguments results {_} _.
Arguments privateResults {_} _.
Arguments publicTrades {_} _.
Arguments bus {_} _.
Arguments sequencer {_} _.
Arguments matcher {_} _.
Arguments completion {_} _.
Arguments resultDispatcher {_} _.
Arguments status {_} _.
End Path.
Abbreviation CommandProcessingPath := Path.CommandProcessingPath.

Definition newStatus : Path.PathStatus :=
  Path.mkStatus None 0 0 false None None FailStopFailure.NONE None None.

(** ** The controller *)
Module Control.
Record RetainedStoppedRunView := mkRetainedView {
  viewCatalogPath : path;
  viewRunId : ExchangeRunId;
  viewMatchingState : option MatchingState;
  viewAdmissionIndex : option CommandAdmissionIndex }.

Record ExchangeRunController (Q : Type) := mkController {
  state_ : ExchangeRunStartupState;
  run_ : RunStateV1;
  canonicalCatalogPath_ : path;
  retainedStoppedRunView_ : option RetainedStoppedRunView;
  commandProcessing_ : option (CommandProcessingPath Q) }.
Arguments mkController {_} _ _ _ _ _.
Arguments state_ {_} _.
Arguments run_ {_} _.
Arguments canonicalCatalogPath_ {_} _.
Arguments retainedStoppedRunView_ {_} _.
Arguments commandProcessing_ {_} _.
End Control.
Abbreviation RetainedStoppedRunView := Control.RetainedStoppedRunView.
Abbreviation ExchangeRunController := Control.ExchangeRunController.

Definition newController {Q} : ExchangeRunController Q :=
  Control.mkController Lifecycle.UNAVAILABLE emptyRun "" None None.

(** ** Updates *)
Section updates.
Context {Q : Type}.
Implicit Types c : ExchangeRunController Q.

Definition setState (s : ExchangeRunStartupState) c : ExchangeRunController Q :=
  Control.mkController s (Control.run_ c) (Control.canonicalCatalogPath_ c) (Control.retainedStoppedRunView_ c)
    (Control.commandProcessing_ c).
Definition setRun (r : RunStateV1) c : ExchangeRunController Q :=
  Control.mkController (Control.state_ c) r (Control.canonicalCatalogPath_ c) (Control.retainedStoppedRunView_ c)
    (Control.commandProcessing_ c).
Definition setCatalogPath (p : path) c : ExchangeRunController Q :=
  Control.mkController (Control.state_ c) (Control.run_ c) p (Control.retainedStoppedRunView_ c)
    (Control.commandProcessing_ c).
Definition setRetainedView (v : option RetainedStoppedRunView) c : ExchangeRunController Q :=
  Control.mkController (Control.state_ c) (Control.run_ c) (Control.canonicalCatalogPath_ c) v
    (Control.commandProcessing_ c).
Definition setPath (p : option (CommandProcessingPath Q)) c : ExchangeRunController Q :=
  Control.mkController (Control.state_ c) (Control.run_ c) (Control.canonicalCatalogPath_ c)
    (Control.retainedStoppedRunView_ c) p.

Definition setRunIndex (index : CommandAdmissionIndex) (r : RunStateV1) : RunStateV1 :=
  RunState.mkRunState (RunState.journalWriter r) (RunState.matchingState r) (Some index).
Definition setRunMatching (st : MatchingState) (r : RunStateV1) : RunStateV1 :=
  RunState.mkRunState (RunState.journalWriter r) (Some st) (RunState.admissionIndex r).

Definition setStatus (s : Path.PathStatus) (p : CommandProcessingPath Q) : CommandProcessingPath Q :=
  Path.mkPath (Path.ingress p) (Path.matching p) (Path.results p) (Path.privateResults p) (Path.publicTrades p)
    (Path.bus p) (Path.sequencer p) (Path.matcher p) (Path.completion p) (Path.resultDispatcher p) s.
Definition setIngress (q : Q) (p : CommandProcessingPath Q) : CommandProcessingPath Q :=
  Path.mkPath q (Path.matching p) (Path.results p) (Path.privateResults p) (Path.publicTrades p)
    (Path.bus p) (Path.sequencer p) (Path.matcher p) (Path.completion p) (Path.resultDispatcher p) (Path.status p).
Definition setHandoffs (privateResults : BoundedPrivateResultQueue) (publicTrades : BoundedPublicTradeQueue)
    (p : CommandProcessingPath Q) : CommandProcessingPath Q :=
  Path.mkPath (Path.ingress p) (Path.matching p) (Path.results p) privateResults publicTrades
    (Path.bus p) (Path.sequencer p) (Path.matcher p) (Path.completion p) (Path.resultDispatcher p) (Path.status p).

Definition setAccounts (commands bytes : Z) (s : Path.PathStatus) : Path.PathStatus :=
  Path.mkStatus (Path.internalFailure s) commands bytes (Path.capacityTransitionPending s) (Path.capacityCatalogLoad s)
    (Path.capacityCatalogReplacement s) (Path.failStopCatalogPreconditionFailure s) (Path.failStopCatalogLoad s)
    (Path.failStopCatalogReplacement s).
Definition setInternalFailure (e : exn) (s : Path.PathStatus) : Path.PathStatus :=
  Path.mkStatus (Some e) (Path.acceptedNotAppendedCommands s) (Path.acceptedNotAppendedBytes s)
    (Path.capacityTransitionPending s) (Path.capacityCatalogLoad s) (Path.capacityCatalogReplacement s)
    (Path.failStopCatalogPreconditionFailure s) (Path.failStopCatalogLoad s) (Path.failStopCatalogReplacement s).
Definition setTransitionPending (s : Path.PathStatus) : Path.PathStatus :=
  Path.mkStatus (Path.internalFailure s) (Path.acceptedNotAppendedCommands s) (Path.acceptedNotAppendedBytes s) true
    (Path.capacityCatalogLoad s) (Path.capacityCatalogReplacement s) (Path.failStopCatalogPreconditionFailure s)
    (Path.failStopCatalogLoad s) (Path.failStopCatalogReplacement s).
Definition setCapacityCatalog (load : option RunCatalogLoadResult) (replacement : option RunCatalogReplaceResult)
    (s : Path.PathStatus) : Path.PathStatus :=
  Path.mkStatus (Path.internalFailure s) (Path.acceptedNotAppendedCommands s) (Path.acceptedNotAppendedBytes s)
    (Path.capacityTransitionPending s) load replacement (Path.failStopCatalogPreconditionFailure s)
    (Path.failStopCatalogLoad s) (Path.failStopCatalogReplacement s).
Definition setFailStopCatalog (precondition : FailStopCatalogPreconditionFailure) (load : option RunCatalogLoadResult)
    (replacement : option RunCatalogReplaceResult) (s : Path.PathStatus) : Path.PathStatus :=
  Path.mkStatus (Path.internalFailure s) (Path.acceptedNotAppendedCommands s) (Path.acceptedNotAppendedBytes s)
    (Path.capacityTransitionPending s) (Path.capacityCatalogLoad s) (Path.capacityCatalogReplacement s)
    precondition load replacement.
End updates.

(** ** Effects: calls on the world, the controller's state, and exceptions *)
Definition ctl (W Q A : Type) : Type := ExchangeRunController Q → io W (outcome A * ExchangeRunController Q).
#[export] Instance ctl_ret {W Q} : MRet (ctl W Q) := λ A a c w, (Ok (Ret a, c), w).
#[export] Instance ctl_bind {W Q} : MBind (ctl W Q) := λ A B f m c w,
  match m c w with
  | (Ok (Ret a, c'), w') => f a c' w'
  | (Ok (Throw e, c'), w') => (Ok (Throw e, c'), w')
  | (Err e, w') => (Err e, w')
  | (OutOfBounds, w') => (OutOfBounds, w')
  end.

Section effects.
Context {W Q : Type}.

Definition getC : ctl W Q (ExchangeRunController Q) := λ c, mret (Ret c, c).
Definition modifyC (f : ExchangeRunController Q → ExchangeRunController Q) : ctl W Q unit := λ c, mret (Ret tt, f c).
Definition throwC {A} (e : exn) : ctl W Q A := λ c, mret (Throw e, c).
Definition outcomeC {A} (o : outcome A) : ctl W Q A := λ c, mret (o, c).
(** A procedure that does not touch the controller. *)
Definition liftC {A} (m : io W A) : ctl W Q A := λ c, a ← m; mret (Ret a, c).

(** An exception that may be caught; the others are not exceptions of the code. *)
Definition catchable (e : exn) : bool :=
  match e with undefined_behaviour | Prelude.out_of_fuel => false | _ => true end.
(** [try { m } catch (...) { handler }] *)
Definition tryC {A} (m : ctl W Q A) (handler : exn → ctl W Q A) : ctl W Q A := λ c w,
  match m c w with
  | (Ok (Throw e, c'), w') => if catchable e then handler e c' w' else (Ok (Throw e, c'), w')
  | r => r
  end.

(** ** What the path's users borrow; a null pointer is not dereferenced. *)
Definition thePath : ctl W Q (CommandProcessingPath Q) :=
  c ← getC;
  match Control.commandProcessing_ c with Some p => mret p | None => throwC undefined_behaviour end.
Definition theWriter : ctl W Q OwnedWriter :=
  c ← getC;
  match RunState.journalWriter (Control.run_ c) with Some writer => mret writer | None => throwC undefined_behaviour end.
Definition theIndex : ctl W Q CommandAdmissionIndex :=
  c ← getC;
  match RunState.admissionIndex (Control.run_ c) with Some index => mret index | None => throwC undefined_behaviour end.

Definition updatePath (f : CommandProcessingPath Q → CommandProcessingPath Q) : ctl W Q unit :=
  modifyC (λ c, setPath (f <$> Control.commandProcessing_ c) c).
Definition updateStatus (f : Path.PathStatus → Path.PathStatus) : ctl W Q unit :=
  updatePath (λ p, setStatus (f (Path.status p)) p).
Definition updateIndex (f : CommandAdmissionIndex → CommandAdmissionIndex) : ctl W Q unit :=
  modifyC (λ c, match RunState.admissionIndex (Control.run_ c) with
                | Some index => setRun (setRunIndex (f index) (Control.run_ c)) c
                | None => c
                end).

(** [openAdmission]; [closeAdmission] tests the pointer. *)
Definition openAdmission : ctl W Q unit := theIndex ;; updateIndex (setAdmissionOpen true).
Definition closeAdmission : ctl W Q unit := updateIndex (setAdmissionOpen false).
End effects.

(** ** The workers *)
Section workers.
Context {W : Type} `{FileSystem W} {Q : Type} `{SharedQueue sequenceMessage Q}.

Definition sequencerOf (p : CommandProcessingPath Q) (index : CommandAdmissionIndex) (writer : RunJournalWriterV1)
    : SequencerState Q :=
  let own := Path.sequencer p in
  mkSequencer (Path.ingress p) (Path.matching p) (Some index) (Some writer) (Path.lastAssignedSequence_ own)
    (Path.pendingCommand_ own) (Path.pendingReadyForMatching_ own) (Path.journalAppendFailure_ own).

Definition putSequencer (s : SequencerState Q) (p : CommandProcessingPath Q) : CommandProcessingPath Q :=
  Path.mkPath (sequencingIngressQueue_ s) (matchingEngineQueue_ s) (Path.results p) (Path.privateResults p)
    (Path.publicTrades p) (Path.bus p)
    (Path.mkSequencerMembers (lastAssignedSequence_ s) (pendingCommand_ s) (pendingReadyForMatching_ s)
       (journalAppendFailure_ s))
    (Path.matcher p) (Path.completion p) (Path.resultDispatcher p) (Path.status p).

Definition putBorrowed (s : SequencerState Q) (file : JournalFile) (r : RunStateV1) : RunStateV1 :=
  RunState.mkRunState ((λ writer, mkOwnedWriter writer file) <$> journalWriter_ s) (RunState.matchingState r)
    (sequencerAdmission_ s).

(** [path.sequencer.advance()]: the journal's calls are on the writer's descriptor. *)
Definition sequencerAdvance (loopFuel fuel : nat) : ctl W Q bool :=
  p ← thePath;
  owned ← theWriter;
  index ← theIndex;
  '(result, s, file) ← liftC (on_journal (owned_file owned)
     (advanceSequencer loopFuel fuel (sequencerOf p index (owned_writer owned))));
  modifyC (λ c, setPath (Some (putSequencer s p)) (setRun (putBorrowed s file (Control.run_ c)) c)) ;;
  outcomeC result.

Definition matcherOf (p : CommandProcessingPath Q) (st : MatchingState) : MatchingEngine Q :=
  let own := Path.matcher p in
  mkMatchingEngine (Path.matching p) (Path.bus p) (Path.results p) st (Path.pendingCommandResult own)
    (Path.inProgressCommand_ own) (Path.multicastWriteFailures_ own).

Definition putMatcher (e : MatchingEngine Q) (p : CommandProcessingPath Q) : CommandProcessingPath Q :=
  Path.mkPath (Path.ingress p) (sequencerQueue e) (commandResultQueue e) (Path.privateResults p)
    (Path.publicTrades p) (multicastBus e) (Path.sequencer p)
    (Path.mkMatcherMembers (pendingCommandResult e) (inProgressCommand_ e) (multicastWriteFailures_ e))
    (Path.completion p) (Path.resultDispatcher p) (Path.status p).

(** [path.matcher.advance()] *)
Definition matcherAdvance (loopFuel : nat) : ctl W Q bool :=
  p ← thePath;
  c ← getC;
  match RunState.matchingState (Control.run_ c) with
  | None => throwC undefined_behaviour
  | Some st =>
      let '(result, e) := advanceEngine loopFuel (matcherOf p st) in
      modifyC (λ c, setPath (Some (putMatcher e p)) (setRun (setRunMatching (matchingState_ e) (Control.run_ c)) c)) ;;
      outcomeC result
  end.

Definition consumerOf (p : CommandProcessingPath Q) (index : CommandAdmissionIndex) : AdmissionCompletionConsumer :=
  Consumer.mkConsumer (Path.results p) index (Path.pendingBatch_ (Path.completion p)) (Path.failure_ (Path.completion p)).

Definition dispatcherOf (p : CommandProcessingPath Q) (index : CommandAdmissionIndex) : CommandResultDispatcher :=
  let own := Path.resultDispatcher p in
  Dispatcher.mkDispatcher (consumerOf p index) (Path.privateResults p) (Path.publicTrades p) (Path.pendingResult_ own)
    (Path.pendingPrivateResults_ own) (Path.pendingPublicTrades_ own) (Path.projectionsReady_ own).

Definition putDispatcher (d : CommandResultDispatcher) (p : CommandProcessingPath Q) : CommandProcessingPath Q :=
  let consumer := Dispatcher.completion_ d in
  Path.mkPath (Path.ingress p) (Path.matching p) (Consumer.resultQueue_ consumer) (Dispatcher.privateHandoff_ d)
    (Dispatcher.publicHandoff_ d) (Path.bus p) (Path.sequencer p) (Path.matcher p)
    (Path.mkConsumerMembers (Consumer.pendingBatch_ consumer) (Consumer.failure_ consumer))
    (Path.mkDispatcherMembers (Dispatcher.pendingResult_ d) (Dispatcher.pendingPrivateResults_ d)
       (Dispatcher.pendingPublicTrades_ d) (Dispatcher.projectionsReady_ d))
    (Path.status p).

(** [path.resultDispatcher.advance()] *)
Definition dispatcherAdvance : ctl W Q bool :=
  p ← thePath;
  index ← theIndex;
  let '(result, d) := advanceDispatcher (dispatcherOf p index) in
  modifyC (λ c, setPath (Some (putDispatcher d p))
                  (setRun (setRunIndex (Consumer.admissionIndex_ (Dispatcher.completion_ d)) (Control.run_ c)) c)) ;;
  outcomeC result.

(** ** Draining *)
Definition processingDrained (p : CommandProcessingPath Q) : bool :=
  sharedEmpty (Path.ingress p) && sharedEmpty (Path.matching p) &&
  bool_decide (ResultQueue.batches_ (Path.results p) = []) &&
  bool_decide (Path.pendingCommand_ (Path.sequencer p) = None) &&
  bool_decide (Path.pendingCommandResult (Path.matcher p) = None) &&
  bool_decide (Path.inProgressCommand_ (Path.matcher p) = None) &&
  bool_decide (Path.pendingBatch_ (Path.completion p) = None) &&
  bool_decide (Path.pendingResult_ (Path.resultDispatcher p) = None).

Definition privateQueueEmpty (p : CommandProcessingPath Q) : bool :=
  match PrivateQueue.batches_ (Path.privateResults p) with [] => true | _ => false end.
Definition publicQueueEmpty (p : CommandProcessingPath Q) : bool :=
  match TradeQueue.batches_ (Path.publicTrades p) with [] => true | _ => false end.
Definition privatePending (p : CommandProcessingPath Q) : bool :=
  match Path.pendingPrivateResults_ (Path.resultDispatcher p) with [] => false | _ => true end.
Definition publicPending (p : CommandProcessingPath Q) : bool :=
  match Path.pendingPublicTrades_ (Path.resultDispatcher p) with [] => false | _ => true end.

Definition resultHandoffsDrained (p : CommandProcessingPath Q) : bool :=
  privateQueueEmpty p && publicQueueEmpty p && negb (privatePending p) && negb (publicPending p).
End workers.
