(* ===== verification/ControllerLifecycle.v ===== *)
(** * Starting, resuming and consulting a run

    [src/core/recovery/src/exchange_run_controller.cpp].  A [RunStateV1] that goes out
    of scope closes its journal.  Deriving a path fails only for want of memory, which
    is not modelled, so the outcomes [JOURNAL_PATH_FAILED] do not occur. *)
From S2P Require Import Prelude Domain Bytes JournalCodec RunHeaderCodec RunCatalogCodec Posix Paths FileSystem.
From S2P Require Import CatalogStorage JournalReader JournalWriter JournalStorage RunIdReservation NewRun.
From S2P Require Import Matching Projection Queues Admission AdmissionRecovery Controller.

(** The next generation of a catalog whose run changes its disposition. *)
Definition withDisposition (disposition : RunCatalogDisposition) (catalog : RunCatalogSnapshotV1) : RunCatalogSnapshotV1 :=
  nextGeneration catalog (Catalog.activeRunId catalog) disposition (Catalog.retainedStoppedRunId catalog).

Section lifecycle.
Context {W : Type} `{FileSystem W} {Q : Type} `{SharedQueue sequenceMessage Q}.

(** [controller.run_ = std::move(run)] *)
Definition assignRun (run : RunStateV1) : ctl W Q unit :=
  c ← getC;
  liftC (destroyWriter (RunState.journalWriter (Control.run_ c))) ;;
  modifyC (setRun run).

Definition startupNewRunV1 (fuel : nat) (canonicalCatalogPath : path) (configuration : NewRunConfigurationV1)
    : ctl W Q NewRunStartupResult :=
  c ← getC;
  match RunState.journalWriter (Control.run_ c) with
  | Some _ => mret (NewStartup.mkNewStartup NewStartup.RUN_ALREADY_OWNED None None)
  | None =>
      binding ← liftC (call (fsAbsolute canonicalCatalogPath));
      match binding with
      | None => mret (NewStartup.mkNewStartup NewStartup.CATALOG_PATH_FAILED None None)
      | Some catalogBinding =>
          '(load, catalog) ← liftC (loadRunCatalogV1 fuel catalogBinding emptyCatalog);
          if bool_decide (CatalogLoad.outcome load = CatalogLoad.INVALID) ||
             bool_decide (CatalogLoad.outcome load = CatalogLoad.IO_FAILURE) then
            mret (NewStartup.mkNewStartup NewStartup.START_FAILED (Some load) None)
          else if bool_decide (CatalogLoad.outcome load = CatalogLoad.LOADED) &&
                  bool_decide (is_Some (Catalog.activeRunId catalog)) then
            mret (NewStartup.mkNewStartup NewStartup.ACTIVE_RUN_EXISTS (Some load) None)
          else
            '(startup, started) ← liftC (startNewRunV1 fuel catalogBinding configuration emptyRun);
            if bool_decide (StartRun.outcome startup ≠ StartRun.STARTED) then
              mret (NewStartup.mkNewStartup NewStartup.START_FAILED (Some load) (Some startup))
            else
              assignRun started ;;
              modifyC (setCatalogPath catalogBinding) ;;
              openAdmission ;;
              modifyC (setState Lifecycle.READY) ;;
              mret (NewStartup.mkNewStartup NewStartup.READY (Some load) (Some startup))
      end
  end.

Definition startupExistingRunV1 (fuel : nat) (canonicalCatalogPath : path) : ctl W Q ExistingRunStartupResult :=
  c ← getC;
  match RunState.journalWriter (Control.run_ c) with
  | Some _ => mret (ExistingStartup.mkExistingStartup ExistingStartup.EXPLICIT_OPERATION_REQUIRED None None None)
  | None =>
      modifyC (setState Lifecycle.UNAVAILABLE) ;;
      assignRun emptyRun ;;
      binding ← liftC (call (fsAbsolute canonicalCatalogPath));
      match binding with
      | None => mret (ExistingStartup.mkExistingStartup ExistingStartup.CATALOG_PATH_FAILED None None None)
      | Some catalogBinding =>
          '(load, catalog) ← liftC (loadRunCatalogV1 fuel catalogBinding emptyCatalog);
          let refused outcome := mret (ExistingStartup.mkExistingStartup outcome (Some load) None None) in
          if bool_decide (CatalogLoad.outcome load ≠ CatalogLoad.LOADED) then refused ExistingStartup.CATALOG_LOAD_FAILED
          else
            match Catalog.activeRunId catalog with
            | None => refused ExistingStartup.NO_ACTIVE_RUN
            | Some activeRunId =>
                if bool_decide (Catalog.activeDisposition catalog ≠ Disposition.OPEN) &&
                   bool_decide (Catalog.activeDisposition catalog ≠ Disposition.PAUSED) then
                  refused ExistingStartup.EXPLICIT_OPERATION_REQUIRED
                else if bool_decide (Catalog.generation catalog = UINT64_MAX) then
                  refused ExistingStartup.GENERATION_EXHAUSTED
                else
                  '(recovery, recovered) ← liftC (recoverRunV1 fuel
                     (deriveCanonicalRunJournalPathV1 catalogBinding activeRunId) emptyRun (Some activeRunId));
                  if bool_decide (Recovered.outcome recovery ≠ Recovered.RECOVERED) then
                    modifyC (setState Lifecycle.RECOVERY_FAILED) ;;
                    mret (ExistingStartup.mkExistingStartup ExistingStartup.RECOVERY_FAILED (Some load) (Some recovery) None)
                  else
                    replacement ← liftC (replaceRunCatalogV1WithHooks fuel catalogBinding
                                           (withDisposition Disposition.PAUSED catalog));
                    if bool_decide (CatalogReplace.outcome replacement ≠ CatalogReplace.COMMITTED) then
                      liftC (destroyWriter (RunState.journalWriter recovered)) ;;
                      mret (ExistingStartup.mkExistingStartup ExistingStartup.CATALOG_REPLACE_FAILED (Some load)
                              (Some recovery) (Some replacement))
                    else
                      assignRun recovered ;;
                      modifyC (setCatalogPath catalogBinding) ;;
                      modifyC (setState Lifecycle.PAUSED) ;;
                      mret (ExistingStartup.mkExistingStartup ExistingStartup.PAUSED (Some load) (Some recovery)
                              (Some replacement))
            end
      end
  end.

Definition resumeRunV1 (fuel : nat) : ctl W Q RunResumeResult :=
  c ← getC;
  if bool_decide (Control.state_ c ≠ Lifecycle.PAUSED) then mret (Resume.mkResume Resume.NOT_PAUSED None None)
  else
    '(load, catalog) ← liftC (loadRunCatalogV1 fuel (Control.canonicalCatalogPath_ c) emptyCatalog);
    let refused outcome := mret (Resume.mkResume outcome (Some load) None) in
    if bool_decide (CatalogLoad.outcome load ≠ CatalogLoad.LOADED) then refused Resume.CATALOG_LOAD_FAILED
    else
      owned ← theWriter;
      let writer := owned_writer owned in
      let header := Writer.header writer in
      if bool_decide (Catalog.activeRunId catalog ≠ Some (Header.exchangeRunId header)) then
        refused Resume.ACTIVE_RUN_ID_MISMATCH
      else if bool_decide (Catalog.activeDisposition catalog ≠ Disposition.PAUSED) then refused Resume.CATALOG_NOT_PAUSED
      else if bool_decide (Header.maxRunCommands header ≤ Writer.committedCommandCount writer) ||
              bool_decide (Header.maxRunJournalBytes header ≤ Writer.committedByteCount writer) then
        refused Resume.CAPACITY_REACHED
      else if bool_decide (Catalog.generation catalog = UINT64_MAX) then refused Resume.GENERATION_EXHAUSTED
      else
        replacement ← liftC (replaceRunCatalogV1WithHooks fuel (Control.canonicalCatalogPath_ c)
                               (withDisposition Disposition.OPEN catalog));
        if bool_decide (CatalogReplace.outcome replacement ≠ CatalogReplace.COMMITTED) then
          mret (Resume.mkResume Resume.CATALOG_REPLACE_FAILED (Some load) (Some replacement))
        else
          openAdmission ;;
          modifyC (setState Lifecycle.READY) ;;
          mret (Resume.mkResume Resume.READY (Some load) (Some replacement)).

(** ** Looking up results *)
Definition lookupIn (index : CommandAdmissionIndex) (command : sequenceMessage) (load : option RunCatalogLoadResult)
    (recovery : option RecoveredRunResult) : ctl W Q CompletedResultLookupResult :=
  completed ← outcomeC (completedResult command index);
  mret (Lookup.mkCompletedLookup (if bool_decide (completed = None) then Lookup.NOT_FOUND else Lookup.FOUND)
          completed load recovery).

(** The view's index; a null one is not dereferenced. *)
Definition viewIndex (view : RetainedStoppedRunView) : ctl W Q CommandAdmissionIndex :=
  match Control.viewAdmissionIndex view with Some index => mret index | None => throwC undefined_behaviour end.

(** The view of the run, if it is the one kept. *)
Definition retainedView (c : ExchangeRunController Q) (catalogBinding : path) (exchangeRunId : ExchangeRunId)
    : option RetainedStoppedRunView :=
  view ← Control.retainedStoppedRunView_ c;
  if path_eqb (Control.viewCatalogPath view) catalogBinding && bool_decide (Control.viewRunId view = exchangeRunId)
  then Some view else None.

(** Rebuild the retained run from its journal. *)
Definition reconstructView (fuel : nat) (catalogBinding : path) (exchangeRunId : ExchangeRunId)
    (command : sequenceMessage) (load : RunCatalogLoadResult) : ctl W Q CompletedResultLookupResult :=
  '(recovery, reconstructed) ← liftC (recoverRunV1 fuel
     (deriveCanonicalRunJournalPathV1 catalogBinding exchangeRunId) emptyRun (Some exchangeRunId));
  if bool_decide (Recovered.outcome recovery ≠ Recovered.RECOVERED) then
    mret (Lookup.mkCompletedLookup Lookup.RECOVERY_FAILED None (Some load) (Some recovery))
  else
    let view := Control.mkRetainedView catalogBinding exchangeRunId (RunState.matchingState reconstructed)
                  (RunState.admissionIndex reconstructed) in
    liftC (destroyWriter (RunState.journalWriter reconstructed)) ;;
    modifyC (setRetainedView (Some view)) ;;
    index ← viewIndex view;
    lookupIn index command (Some load) (Some recovery).

(** The selected runs of the catalog. *)
Definition lookupRetained (fuel : nat) (catalogBinding : path) (exchangeRunId : ExchangeRunId)
    (command : sequenceMessage) : ctl W Q CompletedResultLookupResult :=
  '(load, catalog) ← liftC (loadRunCatalogV1 fuel catalogBinding emptyCatalog);
  let refused outcome := mret (Lookup.mkCompletedLookup outcome None (Some load) None) in
  if bool_decide (CatalogLoad.outcome load ≠ CatalogLoad.LOADED) then refused Lookup.CATALOG_LOAD_FAILED
  else if bool_decide (Catalog.activeRunId catalog = Some exchangeRunId) then refused Lookup.ACTIVE_RUN_NOT_OWNED
  else if bool_decide (Catalog.retainedStoppedRunId catalog ≠ Some exchangeRunId) then refused Lookup.RUN_NOT_RETAINED
  else
    c ← getC;
    match retainedView c catalogBinding exchangeRunId with
    | Some view => index ← viewIndex view; lookupIn index command (Some load) None
    | None => reconstructView fuel catalogBinding exchangeRunId command load
    end.

(** The owned run's index, if the run is the one asked for. *)
Definition ownedIndex (c : ExchangeRunController Q) (exchangeRunId : ExchangeRunId) : option CommandAdmissionIndex :=
  index ← RunState.admissionIndex (Control.run_ c);
  if bool_decide (exchangeRunId_ index = exchangeRunId) then Some index else None.

Definition lookupCompletedResultV1 (fuel : nat) (canonicalCatalogPath : path) (exchangeRunId : ExchangeRunId)
    (command : sequenceMessage) : ctl W Q CompletedResultLookupResult :=
  absolute ← liftC (call (fsAbsolute canonicalCatalogPath));
  match absolute with
  | None => mret (Lookup.mkCompletedLookup Lookup.CATALOG_PATH_FAILED None None None)
  | Some absolutePath =>
      let catalogBinding := lexically_normal absolutePath in
      c ← getC;
      let boundCatalog := lexically_normal (Control.canonicalCatalogPath_ c) in
      if bool_decide (boundCatalog ≠ ""%string) && negb (path_eqb catalogBinding boundCatalog) then
        mret (Lookup.mkCompletedLookup Lookup.CATALOG_BINDING_MISMATCH None None None)
      else
        match ownedIndex c exchangeRunId with
        | Some index => lookupIn index command None None
        | None => lookupRetained fuel catalogBinding exchangeRunId command
        end
  end.

Definition lookupPrivateResultV1 (fuel : nat) (canonicalCatalogPath : path) (exchangeRunId : ExchangeRunId)
    (command : sequenceMessage) : ctl W Q PrivateResultLookupResult :=
  authoritative ← lookupCompletedResultV1 fuel canonicalCatalogPath exchangeRunId command;
  let result outcome privateResult :=
    PrivateLookup.mkPrivateLookup outcome privateResult (Lookup.catalogLoad authoritative)
      (Lookup.recovery authoritative) in
  if bool_decide (Lookup.outcome authoritative ≠ Lookup.FOUND) then mret (result (Lookup.outcome authoritative) None)
  else
    match Lookup.completedResult authoritative, Msg.clientCommandId command with
    | Some completed, Some clientCommandId =>
        let correlation := Batch.correlation completed in
        if bool_decide (Correlation.exchangeRunId correlation ≠ exchangeRunId) ||
           bool_decide (Correlation.clientId correlation ≠ Msg.clientId command) ||
           bool_decide (Correlation.clientCommandId correlation ≠ clientCommandId) then
          mret (result Lookup.INVARIANT_FAILURE None)
        else
          privateResult ← outcomeC (projectPrivateResult completed (Msg.clientId command));
          mret (result (if bool_decide (privateResult = None) then Lookup.INVARIANT_FAILURE else Lookup.FOUND) privateResult)
    | _, _ => mret (result Lookup.INVARIANT_FAILURE None)
    end.
End lifecycle.
