(* ===== verification/ControllerProcessing.v ===== *)
(** * Processing commands, pausing, stopping and recovering a run

    The operations of [src/core/recovery/src/controller_command_processing.cpp]. *)
From S2P Require Import Prelude Domain Bytes JournalCodec RunHeaderCodec RunCatalogCodec Posix Paths FileSystem.
From S2P Require Import CatalogStorage JournalReader JournalWriter JournalStorage RunIdReservation NewRun.
From S2P Require Import Matching Projection Queues Admission Sequencer Bus EngineWorker.
From S2P Require Import Controller ControllerLifecycle.

(** ** The size a command's frame will have *)
Definition prospectiveFrameSizeOf (command : sequenceMessage) (writer : RunJournalWriterV1)
    : checked outOfFuel (option nat) :=
  match Msg.clientCommandId command with
  | None => Ok None
  | Some c =>
      let header := Writer.header writer in
      if bool_decide (UINT32_MAX < Msg.configurationVersion command) then Ok None
      else if is_order command then
        prospectiveFrameSize writer (JournalNew (newOrderRecord header (Writer.nextCommandSequence writer) c command))
      else if bool_decide (Msg.type command ≠ OrderType.CANCEL) then Ok None
      else
        match Msg.targetOrderId command with
        | None => Ok None
        | Some target =>
            prospectiveFrameSize writer
              (JournalCancel (cancelRecord header (Writer.nextCommandSequence writer) c target command))
        end
  end.

(** ** Installing the path *)
Definition checkedCommandCapacity (capacity : Z) : outcome Z :=
  throw_if (bool_decide (capacity = 0) || bool_decide (65535 ≤ capacity))
    (invalid_argument "controller command queue capacity must be between 1 and 65534") ;;
  Ret capacity.

Definition checkedPublicTradeCapacity (capacity maximumBatch : Z) : outcome Z :=
  throw_if (bool_decide (SIZE_MAX < maximumBatch) || bool_decide (capacity < maximumBatch))
    (invalid_argument "controller public-trade record capacity must hold one maximum command result") ;;
  Ret capacity.

Definition checkedPrivateEventCapacity (capacity maximumEvents : Z) : outcome Z :=
  throw_if (bool_decide (capacity < wrap64 (2 * maximumEvents)))
    (invalid_argument "controller private-event capacity must hold one worst-case projection") ;;
  Ret capacity.

(** [CommandProcessingPath]'s constructor; null owners are not dereferenced. *)
Definition newProcessingPath {Q} `{NewSharedQueue sequenceMessage Q, SharedQueue sequenceMessage Q} (run : RunStateV1)
    (submissionCapacity matchingCapacity resultCapacity privateEventCapacity publicTradeRecordCapacity : Z)
    : outcome (CommandProcessingPath Q) :=
  match RunState.journalWriter run, RunState.matchingState run, RunState.admissionIndex run with
  | Some owned, Some st, Some index =>
      let maximumEvents := Header.maxEventsPerCommand (Writer.header (owned_writer owned)) in
      submissions ← checkedCommandCapacity submissionCapacity;
      let ingress : Q := newSharedQueue submissions in
      matchings ← checkedCommandCapacity matchingCapacity;
      let matching : Q := newSharedQueue matchings in
      results ← ResultQueue.newResultQueue resultCapacity;
      privateResults ← checkedPrivateEventCapacity privateEventCapacity maximumEvents ≫= PrivateQueue.newPrivateQueue;
      publicTrades ← checkedPublicTradeCapacity publicTradeRecordCapacity maximumEvents ≫= TradeQueue.newTradesQueue;
      bus ← newBus 1;
      sequencer ← newJournaledSequencer ingress matching index (owned_writer owned);
      let matcher := newMatchingEngine matching (bus, ∅) results st in
      Ret (Path.mkPath ingress matching results privateResults publicTrades (bus, ∅)
             (Path.mkSequencerMembers (lastAssignedSequence_ sequencer) (pendingCommand_ sequencer)
                (pendingReadyForMatching_ sequencer) (journalAppendFailure_ sequencer))
             (Path.mkMatcherMembers (pendingCommandResult matcher) (inProgressCommand_ matcher)
                (multicastWriteFailures_ matcher))
             (Path.mkConsumerMembers None None) (Path.mkDispatcherMembers None [] [] false) newStatus)
  | _, _, _ => Throw undefined_behaviour
  end.

(** ** Removing a stopped run's journal *)
Section cleanup.
Context {W : Type} `{FileSystem W}.

Definition removeStoppedJournal (fuel : nat) (journalPath journalDirectory : path) (replacedRunId : ExchangeRunId)
    : io W StoppedRunCleanupResult :=
  let result outcome systemError := Cleanup.mkCleanup outcome (Some replacedRunId) systemError in
  removed ← retryStatus fuel (fsUnlink journalPath);
  match removed with
  | Some errno => mret (result Cleanup.REMOVE_FAILED errno)
  | None =>
      directory ← retry fuel (fsOpenDirectory journalDirectory);
      match directory with
      | SysError errno => mret (result Cleanup.DIRECTORY_OPEN_FAILED errno)
      | SysDone directoryDescriptor =>
          syncFailure ← retryStatus fuel (fsSync directoryDescriptor);
          closed ← retryStatus fuel (fsClose directoryDescriptor);
          match syncFailure, closed with
          | Some systemError, _ => mret (result Cleanup.DIRECTORY_SYNC_FAILED systemError)
          | None, Some errno => mret (result Cleanup.DIRECTORY_CLOSE_FAILED errno)
          | None, None => mret (result Cleanup.COMMITTED 0)
          end
      end
  end.
End cleanup.

Section processing.
Context {W : Type} `{FileSystem W} {Q : Type} `{NewSharedQueue sequenceMessage Q, SharedQueue sequenceMessage Q}.

Definition installCommandProcessingV1 (submissionCapacity matchingCapacity resultCapacity privateEventCapacity
    publicTradeRecordCapacity : Z) : ctl W Q bool :=
  c ← getC;
  match Control.commandProcessing_ c, RunState.journalWriter (Control.run_ c) with
  | None, Some _ =>
      if bool_decide (Control.state_ c ≠ Lifecycle.READY) && bool_decide (Control.state_ c ≠ Lifecycle.PAUSED) then
        mret false
      else
        processing ← outcomeC (newProcessingPath (Control.run_ c) submissionCapacity matchingCapacity resultCapacity
                                 privateEventCapacity publicTradeRecordCapacity);
        modifyC (setPath (Some processing)) ;;
        mret true
  | _, _ => mret false
  end.

(** ** Submitting *)
(** [run_.admissionIndex->reserveAndStageForRunCapacity(command, path.ingress, capacityAvailable)] *)
Definition stage (command : sequenceMessage) (capacityAvailable : bool) : ctl W Q AdmissionDecision :=
  p ← thePath;
  index ← theIndex;
  let '(decision, (index, ingress)) :=
    reserveAndStageForRunCapacity command capacityAvailable (index, Path.ingress p) in
  updateIndex (const index) ;;
  updatePath (setIngress ingress) ;;
  outcomeC decision.

(** Whether a frame fits what is left of the run, and whether it uses it up. *)
Definition capacityLeft (writer : RunJournalWriterV1) (s : Path.PathStatus) (frameSize : option nat) : bool * bool :=
  match frameSize with
  | None => (true, false)
  | Some size =>
      let header := Writer.header writer in
      let committedCommands := Writer.committedCommandCount writer in
      let committedBytes := Writer.committedByteCount writer in
      let frameBytes := Z.of_nat size in
      let commands := Path.acceptedNotAppendedCommands s in
      let bytes := Path.acceptedNotAppendedBytes s in
      let remainingBytes := wrap64 (Header.maxRunJournalBytes header - committedBytes) in
      let capacityAvailable :=
        bool_decide (commands < wrap64 (Header.maxRunCommands header - committedCommands)) &&
        bool_decide (bytes ≤ remainingBytes) && bool_decide (frameBytes ≤ wrap64 (remainingBytes - bytes)) in
      (capacityAvailable,
       capacityAvailable &&
       (bool_decide (wrap64 (committedCommands + commands + 1) = Header.maxRunCommands header) ||
        bool_decide (wrap64 (committedBytes + bytes + frameBytes) = Header.maxRunJournalBytes header)))
  end.

Definition beginCapacityTransition : ctl W Q unit := updateStatus setTransitionPending ;; closeAdmission.

Definition submitCommandV1 (exchangeRunId : ExchangeRunId) (command : sequenceMessage) : ctl W Q AdmissionDecision :=
  let unavailable := mkDecision AdmissionStatus.ADMISSION_UNAVAILABLE (Some EXCHANGE_RUN_UNAVAILABLE) None in
  c ← getC;
  match Control.commandProcessing_ c with
  | None => mret unavailable
  | Some p =>
      owned ← theWriter;
      let writer := owned_writer owned in
      if bool_decide (exchangeRunId ≠ Header.exchangeRunId (Writer.header writer)) then mret unavailable
      else if bool_decide (Control.state_ c = Lifecycle.CAPACITY_REACHED) ||
              bool_decide (Control.state_ c = Lifecycle.READY) && Path.capacityTransitionPending (Path.status p) then
        stage command false
      else if bool_decide (Control.state_ c ≠ Lifecycle.READY) then stage command true
      else
        match prospectiveFrameSizeOf command writer with
        | Ok frameSize =>
            let '(capacityAvailable, exhaustsCapacity) := capacityLeft writer (Path.status p) frameSize in
            decision ← stage command capacityAvailable;
            (if bool_decide (status decision = AdmissionStatus.FIRST_SUBMISSION) then
               updateStatus (λ s, setAccounts (wrap64 (Path.acceptedNotAppendedCommands s + 1))
                 (match frameSize with
                  | Some size => wrap64 (Path.acceptedNotAppendedBytes s + Z.of_nat size)
                  | None => Path.acceptedNotAppendedBytes s
                  end) s) ;;
               (if (exhaustsCapacity : bool) then beginCapacityTransition else mret tt)
             else if bool_decide (rejectionReason decision = Some RUN_CAPACITY_REACHED) then beginCapacityTransition
             else mret tt) ;;
            mret decision
        | _ => throwC undefined_behaviour
        end
  end.

(** ** One cycle *)
Definition accountJournalProgress (beforeCommands beforeBytes : Z) : ctl W Q bool :=
  owned ← theWriter;
  p ← thePath;
  let appendedCommands := wrap64 (Writer.committedCommandCount (owned_writer owned) - beforeCommands) in
  let appendedBytes := wrap64 (Writer.committedByteCount (owned_writer owned) - beforeBytes) in
  let commands := Path.acceptedNotAppendedCommands (Path.status p) in
  let bytes := Path.acceptedNotAppendedBytes (Path.status p) in
  if bool_decide (commands < appendedCommands) || bool_decide (bytes < appendedBytes) then mret false
  else updateStatus (setAccounts (commands - appendedCommands) (bytes - appendedBytes)) ;; mret true.

(** Replace the catalog of the owned run, whose disposition must be [OPEN]; what is
    seen is recorded with [record] as it is seen. *)
Definition publishFailStopped (fuel : nat) : ctl W Q unit :=
  modifyC (setState Lifecycle.UNAVAILABLE) ;;
  c ← getC;
  owned ← theWriter;
  p ← thePath;
  let failure := Path.failStopCatalogPreconditionFailure (Path.status p) in
  let replaced := Path.failStopCatalogReplacement (Path.status p) in
  '(load, catalog) ← liftC (loadRunCatalogV1 fuel (Control.canonicalCatalogPath_ c) emptyCatalog);
  let failed precondition := updateStatus (setFailStopCatalog precondition (Some load) replaced) in
  if bool_decide (CatalogLoad.outcome load ≠ CatalogLoad.LOADED) then failed failure
  else if bool_decide (Catalog.activeRunId catalog ≠ Some (Header.exchangeRunId (Writer.header (owned_writer owned)))) then
    failed FailStopFailure.ACTIVE_RUN_ID_MISMATCH
  else if bool_decide (Catalog.activeDisposition catalog ≠ Disposition.OPEN) then failed FailStopFailure.CATALOG_NOT_OPEN
  else if bool_decide (Catalog.generation catalog = UINT64_MAX) then failed FailStopFailure.GENERATION_EXHAUSTED
  else
    replacement ← liftC (replaceRunCatalogV1WithHooks fuel (Control.canonicalCatalogPath_ c)
                           (withDisposition Disposition.FAIL_STOPPED catalog));
    updateStatus (setFailStopCatalog failure (Some load) (Some replacement)) ;;
    if bool_decide (CatalogReplace.outcome replacement ≠ CatalogReplace.COMMITTED) then mret tt
    else modifyC (setState Lifecycle.FAIL_STOPPED).

(** The drained run's capacity is used up. *)
Definition publishCapacityReached (fuel : nat) : ctl W Q bool :=
  c ← getC;
  owned ← theWriter;
  p ← thePath;
  let replaced := Path.capacityCatalogReplacement (Path.status p) in
  '(load, catalog) ← liftC (loadRunCatalogV1 fuel (Control.canonicalCatalogPath_ c) emptyCatalog);
  updateStatus (setCapacityCatalog (Some load) replaced) ;;
  let refused := modifyC (setState Lifecycle.UNAVAILABLE) ;; mret false in
  if bool_decide (CatalogLoad.outcome load ≠ CatalogLoad.LOADED) then refused
  else if bool_decide (Catalog.activeRunId catalog ≠ Some (Header.exchangeRunId (Writer.header (owned_writer owned)))) ||
          bool_decide (Catalog.activeDisposition catalog ≠ Disposition.OPEN) ||
          bool_decide (Catalog.generation catalog = UINT64_MAX) then refused
  else
    replacement ← liftC (replaceRunCatalogV1WithHooks fuel (Control.canonicalCatalogPath_ c)
                           (withDisposition Disposition.CAPACITY_REACHED catalog));
    updateStatus (setCapacityCatalog (Some load) (Some replacement)) ;;
    if bool_decide (CatalogReplace.outcome replacement ≠ CatalogReplace.COMMITTED) then refused
    else modifyC (setState Lifecycle.CAPACITY_REACHED) ;; mret true.

(** The body of the [try] block. *)
Definition advanceCycle (loopFuel fuel : nat) (beforeCommands beforeBytes : Z) : ctl W Q bool :=
  sequenced ← sequencerAdvance loopFuel fuel;
  accounted ← accountJournalProgress beforeCommands beforeBytes;
  if negb accounted then throwC (logic_error "controller capacity accounting diverged from journal progress")
  else
    p ← thePath;
    if bool_decide (is_Some (Path.journalAppendFailure_ (Path.sequencer p))) then
      closeAdmission ;;
      publishFailStopped fuel ;;
      mret false
    else
      matched ← matcherAdvance loopFuel;
      dispatched ← dispatcherAdvance;
      p ← thePath;
      if negb (Path.capacityTransitionPending (Path.status p)) || negb (processingDrained p) then
        mret (sequenced || matched || dispatched)
      else publishCapacityReached fuel.

Definition advanceCommandProcessingV1 (loopFuel fuel : nat) : ctl W Q bool :=
  c ← getC;
  match Control.commandProcessing_ c with
  | None => mret false
  | Some _ =>
      if bool_decide (Control.state_ c ≠ Lifecycle.READY) then mret false
      else
        owned ← theWriter;
        let beforeCommands := Writer.committedCommandCount (owned_writer owned) in
        let beforeBytes := Writer.committedByteCount (owned_writer owned) in
        tryC (advanceCycle loopFuel fuel beforeCommands beforeBytes) (λ e,
          accountJournalProgress beforeCommands beforeBytes ;;
          updateStatus (setInternalFailure e) ;;
          closeAdmission ;;
          publishFailStopped fuel ;;
          mret false)
  end.

(** ** Observing and taking results *)
Definition inspectCommandProcessingV1 (c : ExchangeRunController Q) : CommandProcessingInspection :=
  match Control.commandProcessing_ c with
  | None => notInstalled
  | Some p =>
      let dispatcher := Path.resultDispatcher p in
      let s := Path.status p in
      Inspection.mkInspection true (sharedEmpty (Path.ingress p)) (sharedEmpty (Path.matching p))
        (Z.of_nat (length (ResultQueue.batches_ (Path.results p))))
        (bool_decide (Path.pendingCommandResult (Path.matcher p) ≠ None))
        (Path.inProgressCommand_ (Path.matcher p))
        (bool_decide (Path.pendingBatch_ (Path.completion p) ≠ None))
        (bool_decide (Path.pendingResult_ dispatcher ≠ None) && negb (Path.projectionsReady_ dispatcher))
        (foldl (λ count recipient, wrap64 (count + PrivateQueue.resultSize recipient)) 0
           (Path.pendingPrivateResults_ dispatcher))
        (PrivateQueue.queuedEventCount_ (Path.privateResults p))
        (Z.of_nat (length (Path.pendingPublicTrades_ dispatcher)))
        (TradeQueue.queuedRecordCount_ (Path.publicTrades p))
        (Path.pendingCommand_ (Path.sequencer p)) (Path.journalAppendFailure_ (Path.sequencer p))
        (Path.internalFailure s) (Path.capacityTransitionPending s) (Path.capacityCatalogLoad s)
        (Path.capacityCatalogReplacement s) (Path.failStopCatalogPreconditionFailure s) (Path.failStopCatalogLoad s)
        (Path.failStopCatalogReplacement s)
  end.

(** The batch, when there is one. *)
Definition tryPopPrivateResultBatchV1 : ctl W Q (option (list RecipientResult)) :=
  c ← getC;
  match Control.commandProcessing_ c with
  | None => mret None
  | Some p =>
      let '(batch, queue) := PrivateQueue.tryPopPrivate (Path.privateResults p) in
      updatePath (setHandoffs queue (Path.publicTrades p)) ;; mret batch
  end.
Definition tryPopPublicTradeBatchV1 : ctl W Q (option (list PublicTrade)) :=
  c ← getC;
  match Control.commandProcessing_ c with
  | None => mret None
  | Some p =>
      let '(batch, queue) := TradeQueue.tryPopTrades (Path.publicTrades p) in
      updatePath (setHandoffs (Path.privateResults p) queue) ;; mret batch
  end.

(** ** Pausing *)
Definition pauseResult (outcome : RunPauseOutcome) : RunPauseResult := Pause.mkPause outcome None None.

(** The loop of the barrier: [None] once everything is drained. *)
Fixpoint drainLoop (rounds loopFuel fuel : nat) : ctl W Q (option RunPauseOutcome) :=
  match rounds with
  | O => throwC Prelude.out_of_fuel
  | Datatypes.S rounds' =>
      p ← thePath;
      if processingDrained p then
        mret (if resultHandoffsDrained p then None else Some Pause.RESULT_HANDOFF_BACKPRESSURE)
      else
        progressed ← advanceCommandProcessingV1 loopFuel fuel;
        if (progressed : bool) then drainLoop rounds' loopFuel fuel
        else
          p ← thePath;
          c ← getC;
          if bool_decide (is_Some (Path.journalAppendFailure_ (Path.sequencer p))) ||
             bool_decide (is_Some (Path.internalFailure (Path.status p))) ||
             bool_decide (Control.state_ c = Lifecycle.FAIL_STOPPED) then
            mret (Some Pause.PROCESSING_FAILED)
          else if privatePending p || publicPending p || negb (privateQueueEmpty p) || negb (publicQueueEmpty p) then
            mret (Some Pause.RESULT_HANDOFF_BACKPRESSURE)
          else modifyC (setState Lifecycle.UNAVAILABLE) ;; mret (Some Pause.DRAIN_STALLED)
  end.

Definition publishPaused (fuel : nat) : ctl W Q RunPauseResult :=
  c ← getC;
  '(load, catalog) ← liftC (loadRunCatalogV1 fuel (Control.canonicalCatalogPath_ c) emptyCatalog);
  let refused outcome := modifyC (setState Lifecycle.UNAVAILABLE) ;; mret (Pause.mkPause outcome (Some load) None) in
  if bool_decide (CatalogLoad.outcome load ≠ CatalogLoad.LOADED) then refused Pause.CATALOG_LOAD_FAILED
  else
    owned ← theWriter;
    if bool_decide (Catalog.activeRunId catalog ≠ Some (Header.exchangeRunId (Writer.header (owned_writer owned)))) then
      refused Pause.ACTIVE_RUN_ID_MISMATCH
    else if bool_decide (Catalog.activeDisposition catalog ≠ Disposition.OPEN) then refused Pause.CATALOG_NOT_OPEN
    else if bool_decide (Catalog.generation catalog = UINT64_MAX) then refused Pause.GENERATION_EXHAUSTED
    else
      replacement ← liftC (replaceRunCatalogV1WithHooks fuel (Control.canonicalCatalogPath_ c)
                             (withDisposition Disposition.PAUSED catalog));
      if bool_decide (CatalogReplace.outcome replacement ≠ CatalogReplace.COMMITTED) then
        modifyC (setState Lifecycle.UNAVAILABLE) ;;
        mret (Pause.mkPause Pause.CATALOG_REPLACE_FAILED (Some load) (Some replacement))
      else
        modifyC (setState Lifecycle.PAUSED) ;;
        mret (Pause.mkPause Pause.PAUSED (Some load) (Some replacement)).

Definition pauseRunV1 (rounds loopFuel fuel : nat) : ctl W Q RunPauseResult :=
  c ← getC;
  if bool_decide (Control.state_ c ≠ Lifecycle.READY) then mret (pauseResult Pause.NOT_READY)
  else
    match Control.commandProcessing_ c with
    | None => mret (pauseResult Pause.PATH_NOT_INSTALLED)
    | Some p =>
        if Path.capacityTransitionPending (Path.status p) then mret (pauseResult Pause.NOT_READY)
        else
          closeAdmission ;;
          stopped ← drainLoop rounds loopFuel fuel;
          match stopped with
          | Some outcome => mret (pauseResult outcome)
          | None => publishPaused fuel
          end
    end.

(** ** Stopping *)
Definition requiredDisposition (initialState : ExchangeRunStartupState) : RunCatalogDisposition :=
  if bool_decide (initialState = Lifecycle.READY) then Disposition.OPEN
  else if bool_decide (initialState = Lifecycle.PAUSED) then Disposition.PAUSED
  else Disposition.CAPACITY_REACHED.

Definition notRequired (replacedRunId : option ExchangeRunId) : StoppedRunCleanupResult :=
  Cleanup.mkCleanup Cleanup.NOT_REQUIRED replacedRunId 0.

(** Why the run may not be stopped, if anything; the retained run must be confirmed. *)
Definition stopRefusal (initialState : ExchangeRunStartupState) (activeRunId : ExchangeRunId)
    (replacedRunConfirmation : option ExchangeRunId) (catalog : RunCatalogSnapshotV1) : option RunStopOutcome :=
  if bool_decide (Catalog.activeRunId catalog ≠ Some activeRunId) then Some Stop.ACTIVE_RUN_ID_MISMATCH
  else if bool_decide (Catalog.activeDisposition catalog ≠ requiredDisposition initialState) then
    Some Stop.CATALOG_DISPOSITION_MISMATCH
  else if bool_decide (UINT64_MAX - Catalog.generation catalog <
                       if bool_decide (initialState = Lifecycle.READY) then 2 else 1) then
    Some Stop.GENERATION_EXHAUSTED
  else if bool_decide (Catalog.retainedStoppedRunId catalog = None) then None
  else if bool_decide (replacedRunConfirmation = None) then Some Stop.RETAINED_RUN_CONFIRMATION_REQUIRED
  else if bool_decide (replacedRunConfirmation ≠ Catalog.retainedStoppedRunId catalog) then
    Some Stop.RETAINED_RUN_CONFIRMATION_MISMATCH
  else None.

(** The processing ends: [inr] the catalog as it then is. *)
Definition quiesce (rounds loopFuel fuel : nat) (catalog : RunCatalogSnapshotV1)
    : ctl W Q (option RunPauseResult * (RunStopOutcome + RunCatalogSnapshotV1)) :=
  c ← getC;
  if bool_decide (Control.state_ c = Lifecycle.READY) then
    pause ← pauseRunV1 rounds loopFuel fuel;
    mret (Some pause,
          if bool_decide (Pause.outcome pause ≠ Pause.PAUSED) then
            inl (if bool_decide (Pause.outcome pause = Pause.RESULT_HANDOFF_BACKPRESSURE)
                 then Stop.RESULT_HANDOFF_BACKPRESSURE else Stop.PAUSE_FAILED)
          else inr (withDisposition Disposition.PAUSED catalog))
  else
    closeAdmission ;;
    mret (None,
          if match Control.commandProcessing_ c with Some p => negb (resultHandoffsDrained p) | None => false end
          then inl Stop.RESULT_HANDOFF_BACKPRESSURE else inr catalog).

Definition stopRunV1 (rounds loopFuel fuel : nat) (replacedRunConfirmation : option ExchangeRunId) : ctl W Q RunStopResult :=
  c ← getC;
  let initialState := Control.state_ c in
  if bool_decide (initialState ≠ Lifecycle.READY) && bool_decide (initialState ≠ Lifecycle.PAUSED) &&
     bool_decide (initialState ≠ Lifecycle.CAPACITY_REACHED) then
    mret (Stop.mkStop Stop.NOT_STOPPABLE None None None (notRequired None))
  else
    '(load, catalog) ← liftC (loadRunCatalogV1 fuel (Control.canonicalCatalogPath_ c) emptyCatalog);
    if bool_decide (CatalogLoad.outcome load ≠ CatalogLoad.LOADED) then
      mret (Stop.mkStop Stop.CATALOG_LOAD_FAILED None (Some load) None (notRequired None))
    else
      owned ← theWriter;
      let activeRunId := Header.exchangeRunId (Writer.header (owned_writer owned)) in
      match stopRefusal initialState activeRunId replacedRunConfirmation catalog with
      | Some refusal =>
          mret (Stop.mkStop refusal None (Some load) None
                  (notRequired (if bool_decide (refusal = Stop.RETAINED_RUN_CONFIRMATION_REQUIRED ∨
                                                refusal = Stop.RETAINED_RUN_CONFIRMATION_MISMATCH)
                                then Catalog.retainedStoppedRunId catalog else None)))
      | None =>
          let replacedRunId := Catalog.retainedStoppedRunId catalog in
          '(pause, quiesced) ← quiesce rounds loopFuel fuel catalog;
          match quiesced with
          | inl outcome => mret (Stop.mkStop outcome pause (Some load) None (notRequired replacedRunId))
          | inr catalog =>
              replacement ← liftC (replaceRunCatalogV1WithHooks fuel (Control.canonicalCatalogPath_ c)
                                     (nextGeneration catalog None Disposition.NONE (Some activeRunId)));
              if bool_decide (CatalogReplace.outcome replacement ≠ CatalogReplace.COMMITTED) then
                modifyC (setState Lifecycle.UNAVAILABLE) ;;
                mret (Stop.mkStop Stop.CATALOG_REPLACE_FAILED pause (Some load) (Some replacement) (notRequired replacedRunId))
              else
                modifyC (setState Lifecycle.STOPPED) ;;
                modifyC (setRetainedView None) ;;
                modifyC (setPath None) ;;
                assignRun emptyRun ;;
                match replacedRunId with
                | None => mret (Stop.mkStop Stop.STOPPED pause (Some load) (Some replacement) (notRequired None))
                | Some replaced =>
                    let journalPath := deriveCanonicalRunJournalPathV1 (Control.canonicalCatalogPath_ c) replaced in
                    cleanup ← liftC (removeStoppedJournal fuel journalPath (parent_path journalPath) replaced);
                    mret (Stop.mkStop
                            (if bool_decide (Cleanup.outcome cleanup = Cleanup.COMMITTED) then Stop.STOPPED
                             else Stop.STOPPED_CLEANUP_FAILED) pause (Some load) (Some replacement) cleanup)
                end
          end
      end.

(** ** Recovering a failed run *)
(** Why the catalog's run may not be recovered, if anything. *)
Definition recoveryRefusal (installedFailStopped : bool) (runId : ExchangeRunId) (ownedRunId : option ExchangeRunId)
    (catalog : RunCatalogSnapshotV1) : option FailedRunRecoveryOutcome :=
  if installedFailStopped && bool_decide (ownedRunId ≠ Some runId) then Some FailedRecovery.ACTIVE_RUN_ID_MISMATCH
  else if bool_decide (Catalog.activeDisposition catalog ≠ Disposition.FAIL_STOPPED) &&
          bool_decide (Catalog.activeDisposition catalog ≠ Disposition.RECOVERY_FAILED) then
    Some FailedRecovery.CATALOG_NOT_FAILED
  else if installedFailStopped && bool_decide (Catalog.activeDisposition catalog ≠ Disposition.FAIL_STOPPED) then
    Some FailedRecovery.CATALOG_NOT_FAILED
  else if bool_decide (Catalog.generation catalog = UINT64_MAX) then Some FailedRecovery.GENERATION_EXHAUSTED
  else None.

(** From the release of the failed path on. *)
Definition reconstructRun (fuel : nat) (catalogBinding : path) (runId : ExchangeRunId) (catalog : RunCatalogSnapshotV1)
    (original : option CommandProcessingInspection) (load : RunCatalogLoadResult) : ctl W Q FailedRunRecoveryResult :=
  let result outcome recovery replacement :=
    FailedRecovery.mkFailedRecovery outcome original (Some load) recovery replacement in
  modifyC (setState Lifecycle.UNAVAILABLE) ;;
  '(recovery, recovered) ← liftC (recoverRunV1 fuel (deriveCanonicalRunJournalPathV1 catalogBinding runId) emptyRun
                                    (Some runId));
  let recoveredSuccessfully := bool_decide (Recovered.outcome recovery = Recovered.RECOVERED) in
  if negb recoveredSuccessfully && bool_decide (Catalog.activeDisposition catalog = Disposition.RECOVERY_FAILED) then
    modifyC (setState Lifecycle.RECOVERY_FAILED) ;;
    mret (result FailedRecovery.RECOVERY_FAILED (Some recovery) None)
  else
    replacement ← liftC (replaceRunCatalogV1WithHooks fuel catalogBinding
      (withDisposition (if recoveredSuccessfully then Disposition.PAUSED else Disposition.RECOVERY_FAILED) catalog));
    if bool_decide (CatalogReplace.outcome replacement ≠ CatalogReplace.COMMITTED) then
      liftC (destroyWriter (RunState.journalWriter recovered)) ;;
      mret (result FailedRecovery.CATALOG_REPLACE_FAILED (Some recovery) (Some replacement))
    else if negb recoveredSuccessfully then
      modifyC (setState Lifecycle.RECOVERY_FAILED) ;;
      mret (result FailedRecovery.RECOVERY_FAILED (Some recovery) (Some replacement))
    else
      assignRun recovered ;;
      modifyC (setCatalogPath catalogBinding) ;;
      modifyC (setState Lifecycle.PAUSED) ;;
      mret (result FailedRecovery.PAUSED (Some recovery) (Some replacement)).

Definition recoverFailedRunV1 (fuel : nat) (canonicalCatalogPath : path) : ctl W Q FailedRunRecoveryResult :=
  c ← getC;
  let installedFailStopped := bool_decide (Control.state_ c = Lifecycle.FAIL_STOPPED) in
  let original := if installedFailStopped then Some (inspectCommandProcessingV1 c) else None in
  let refused outcome original load := mret (FailedRecovery.mkFailedRecovery outcome original load None None) in
  if negb installedFailStopped && bool_decide (Control.state_ c ≠ Lifecycle.UNAVAILABLE) &&
     bool_decide (Control.state_ c ≠ Lifecycle.RECOVERY_FAILED) then refused FailedRecovery.NOT_RECOVERABLE None None
  else if negb installedFailStopped && bool_decide (is_Some (Control.commandProcessing_ c)) then
    refused FailedRecovery.NOT_RECOVERABLE None None
  else
    absolute ← liftC (call (fsAbsolute canonicalCatalogPath));
    match absolute with
    | None => refused FailedRecovery.CATALOG_PATH_FAILED original None
    | Some absolutePath =>
        let catalogBinding := lexically_normal absolutePath in
        if installedFailStopped && negb (path_eqb catalogBinding (lexically_normal (Control.canonicalCatalogPath_ c))) then
          refused FailedRecovery.CATALOG_BINDING_MISMATCH original None
        else
          '(load, catalog) ← liftC (loadRunCatalogV1 fuel catalogBinding emptyCatalog);
          if bool_decide (CatalogLoad.outcome load ≠ CatalogLoad.LOADED) then
            refused FailedRecovery.CATALOG_LOAD_FAILED original (Some load)
          else
            match Catalog.activeRunId catalog with
            | None => refused FailedRecovery.NO_ACTIVE_RUN original (Some load)
            | Some runId =>
                ownedRunId ← (if installedFailStopped then
                                owned ← theWriter; mret (Some (Header.exchangeRunId (Writer.header (owned_writer owned))))
                              else mret None);
                match recoveryRefusal installedFailStopped runId ownedRunId catalog with
                | Some refusal => refused refusal original (Some load)
                | None =>
                    if installedFailStopped then
                      p ← thePath;
                      if negb (privateQueueEmpty p) || negb (publicQueueEmpty p) then
                        refused FailedRecovery.RESULT_HANDOFF_BACKPRESSURE original (Some load)
                      else
                        modifyC (setPath None) ;;
                        assignRun emptyRun ;;
                        reconstructRun fuel catalogBinding runId catalog original load
                    else reconstructRun fuel catalogBinding runId catalog original load
                end
            end
    end.
End processing.
