(* ===== verification/WorkerFrames.v ===== *)
(** * The journal's code leaves the catalog alone

    What the writing calls do to a relation, the procedures of the sequencer do:
    [respects] for each of them, over any file.  On the descriptors of a file
    system the relation is [spares]. *)
From S2P Require Import Prelude Domain Matching Bytes JournalCodec RunHeaderCodec RunHeaderTheorems Posix.
From S2P Require Import JournalReader JournalWriter JournalRecovery Replay Queues Admission AdmissionRecovery.
From S2P Require Import Sequencer Paths FileSystem CatalogStorage JournalStorage CatalogRun RunIdReservation.
From S2P Require Import NewRun.

Section procedures.
Context {V : Type} `{Posix V} (rel : V → V → Prop) `{!PreOrder rel}.
Hypothesis rel_write : ∀ data, respects rel (call (sysWrite data)).
Hypothesis rel_sync : respects rel (call sysSync).

#[local] Hint Resolve rel_write rel_sync : respects.

Lemma respects_appendCommand fuel writer message : respects rel (appendCommand fuel writer message).
Proof. unfold appendCommand. respect. Qed.
#[local] Hint Resolve respects_appendCommand : respects.

Section sequencer.
Context {Q : Type} `{SharedQueue sequenceMessage Q}.

Lemma respects_processNext fuel (s : SequencerState Q) : respects rel (processNext fuel s).
Proof. unfold processNext. respect. Qed.
#[local] Hint Resolve respects_processNext : respects.

Lemma respects_drainAvailable loopFuel fuel : ∀ progressed (s : SequencerState Q),
  respects rel (drainAvailable loopFuel fuel progressed s).
Proof. induction loopFuel as [|loopFuel IH]; intros progressed s; simpl; respect. Qed.
End sequencer.
End procedures.

(** ** On a file system *)
Section views.
Context {W : Type} `{FileSystemLaws W} (p : path).

Definition view_spares (v v' : FileView W) : Prop := spares p (view_world v) (view_world v').
(** A journal that is opened is not the catalog. *)
Definition view_spares_other (v v' : FileView W) : Prop :=
  journal_path (view_file v) ≠ p →
  view_spares v v' ∧ journal_path (view_file v') = journal_path (view_file v).

#[export] Instance view_spares_preorder : PreOrder view_spares.
Proof. unfold view_spares. split; [intros v; reflexivity|]. intros v1 v2 v3 ? ?. by etrans. Qed.

#[export] Instance view_spares_other_preorder : PreOrder view_spares_other.
Proof.
  split; [intros v _; by split|]. intros v1 v2 v3 Ha Hb Hp. destruct (Ha Hp) as [Hs E].
  destruct Hb as [Hs' E']; [by rewrite E|]. split; [by etrans|by rewrite E'].
Qed.

Lemma respects_on_descriptor {A} (f : Z → W → A * W) :
  (∀ d, respects (spares p) (call (f d))) → respects view_spares (call (on_descriptor f)).
Proof.
  intros Hf. apply respects_call. intros v a v' E. unfold on_descriptor in E.
  destruct (f (journal_descriptor (view_file v)) (view_world v)) as [b w'] eqn:Ef. injection E as <- <-.
  eapply (Hf _ (view_world v)). unfold call. by rewrite Ef.
Qed.

Lemma respects_view_status (f : Z → W → option Z * W) :
  (∀ d, respects (spares p) (call (f d))) → respects view_spares (call (view_status f)).
Proof.
  intros Hf. apply respects_call. intros v a v' E. unfold view_status in E.
  destruct (on_descriptor f v) as [s v1] eqn:Ef. injection E as <- <-.
  eapply (respects_on_descriptor f Hf v). unfold call. by rewrite Ef.
Qed.

Lemma respects_other_descriptor {A} (f : Z → W → A * W) :
  (∀ d, respects (spares p) (call (f d))) → respects view_spares_other (call (on_descriptor f)).
Proof.
  intros Hf v r v' E _. split; [by eapply respects_on_descriptor|].
  unfold call, on_descriptor in E. destruct (f _ _) as [a w']. by injection E as _ <-.
Qed.
Lemma respects_other_status (f : Z → W → option Z * W) :
  (∀ d, respects (spares p) (call (f d))) → respects view_spares_other (call (view_status f)).
Proof.
  intros Hf v r v' E _. split; [by eapply respects_view_status|].
  unfold call, view_status, on_descriptor in E. destruct (f _ _) as [a w']. by injection E as _ <-.
Qed.

Lemma spares_sync d : respects (spares p) (call (fsSync d)).
Proof. apply respects_call. apply spares_fsSync. Qed.

Lemma respects_view_open writing : respects view_spares_other (call (sysOpen writing)).
Proof.
  apply respects_call. intros v r v' E Hp. cbn [sysOpen view_posix] in E. unfold view_open in E.
  destruct (fsOpen writing (journal_path (view_file v)) (view_world v)) as [o w'] eqn:Eo. injection E as <- <-.
  split; [|by destruct o]. unfold view_spares. simpl. eapply spares_fsOpen; [by left|exact Eo].
Qed.

Lemma spares_on_journal {A} file (m : io (FileView W) A) : respects view_spares m → respects (spares p) (on_journal file m).
Proof.
  intros Hm w r w' E. unfold on_journal in E. destruct (m (mkView w file)) as [o v'] eqn:Em. injection E as _ <-.
  by apply Hm in Em.
Qed.

(** The recovery of a journal that is not the catalog. *)
Lemma spares_prepareRunJournalV1 fuel q output expected : q ≠ p →
  respects (spares p) (on_journal (unopened q) (prepareRunJournalV1 fuel output expected)).
Proof.
  intros Hq w r w' E. unfold on_journal in E.
  destruct (prepareRunJournalV1 fuel output expected (mkView w (unopened q))) as [o v'] eqn:Em. injection E as _ <-.
  apply (respects_prepareRunJournalV1 view_spares_other) in Em; [by apply Em|..].
  - intros size. apply (respects_other_descriptor (λ fd, fsRead fd size)). intros d. apply spares_read.
  - intros offset. apply (respects_other_descriptor (λ fd, fsSeek fd offset)). intros d. apply spares_seek.
  - apply (respects_other_status fsSync). apply spares_sync.
  - apply (respects_other_status fsClose). intros d. apply spares_close.
  - apply respects_view_open.
  - intros len. apply (respects_other_descriptor (λ fd, fsTruncate fd len)). intros d. apply spares_truncate.
Qed.

Lemma respects_noexceptly {A} (m : outcome A) : respects (spares p) (noexceptly m).
Proof. unfold noexceptly. respect. Qed.

Lemma spares_recoverRunV1 fuel q output expected : q ≠ p → respects (spares p) (recoverRunV1 fuel q output expected).
Proof.
  intros Hq. unfold recoverRunV1. apply respects_bind; [apply _|by apply spares_prepareRunJournalV1|].
  pose proof (spares_destroyWriter p). pose proof @respects_noexceptly. respect.
Qed.

(** The sequencer's cycle on the writer's descriptor. *)
Lemma spares_advanceSequencer {Q} `{SharedQueue sequenceMessage Q} file loopFuel fuel (s : SequencerState Q) :
  respects (spares p) (on_journal file (advanceSequencer loopFuel fuel s)).
Proof.
  apply spares_on_journal. unfold advanceSequencer. apply respects_drainAvailable; [apply _|..].
  - intros data. apply (respects_on_descriptor (λ fd, fsWrite fd data)). intros d. apply spares_write.
  - apply (respects_view_status fsSync). apply spares_sync.
Qed.
End views.

(** * What the journal's procedures hand back

    [delivers m P]: a result [m] returns satisfies [P].  The writer keeps its header
    and never commits past the run's limits, the sequencer keeps its writer and does
    not open the admission, and a recovered run is the one asked for, its admission
    closed. *)

(** ** Results *)
Definition delivers {V A} (m : io V A) (P : A → Prop) : Prop := ∀ v a v', m v = (Ok a, v') → P a.

Section delivers.
Context {V : Type}.

Lemma delivers_ret {A} (a : A) (P : A → Prop) : P a → delivers (V:=V) (mret a) P.
Proof. by intros HP v b v' [= <- _]. Qed.
Lemma delivers_any {A} (m : io V A) : delivers m (λ _, True).
Proof. by intros v a v' _. Qed.
Lemma delivers_weaken {A} (m : io V A) (P P' : A → Prop) : delivers m P → (∀ a, P a → P' a) → delivers m P'.
Proof. intros Hm HP v a v' E. by eapply HP, Hm. Qed.
Lemma delivers_bind {A B} (m : io V A) (f : A → io V B) (P : A → Prop) (P' : B → Prop) :
  delivers m P → (∀ a, P a → delivers (f a) P') → delivers (m ≫= f) P'.
Proof.
  intros Hm Hf v b v' E. unfold mbind, io_bind in E. destruct (m v) as [[a|e|] v1] eqn:Em; try done.
  by eapply Hf; [eapply Hm|].
Qed.
(** A call whose result is not used. *)
Lemma delivers_skip {A B} (m : io V A) (f : A → io V B) (P : B → Prop) :
  (∀ a, delivers (f a) P) → delivers (m ≫= f) P.
Proof. intros Hf. eapply delivers_bind; [apply delivers_any|]. intros a _. apply Hf. Qed.
Lemma delivers_fuel {A} (P : A → Prop) : delivers (V:=V) out_of_fuel P.
Proof. by intros v a v' E. Qed.
Lemma delivers_bounds {A} (P : A → Prop) : delivers (V:=V) out_of_bounds P.
Proof. by intros v a v' E. Qed.
Lemma delivers_decided {E A} (m : checked E A) : delivers (V:=V) (decided m) (λ r, ∀ a, r = inr a → m = Ok a).
Proof. intros v a v' Hr b ->. unfold decided in Hr. by destruct m; inversion Hr; subst. Qed.
End delivers.

(** Walk to the results: a known procedure's result is used, the others' is not. *)
Create HintDb delivers.
#[export] Hint Resolve delivers_fuel delivers_bounds : delivers.
#[export] Hint Extern 0 (delivers (decided _) _) => apply delivers_decided : delivers.
Ltac deliver :=
  repeat first
    [ progress cbv zeta
    | solve [eauto with delivers]
    | eapply delivers_bind; [solve [eauto with delivers]|intros ??]
    | apply delivers_skip; intros ?
    | apply delivers_ret
    | match goal with
      | |- delivers (match ?x with _ => _ end) _ => destruct x eqn:?
      | |- delivers (if ?x then _ else _) _ => destruct x eqn:?
      end ].

(** ** The writer *)
(** The limits of the run are kept. *)
Definition committed_fits (writer : RunJournalWriterV1) : Prop :=
  0 ≤ Writer.committedCommandCount writer ≤ Header.maxRunCommands (Writer.header writer) ∧
  0 ≤ Writer.committedByteCount writer ≤ Header.maxRunJournalBytes (Writer.header writer) ∧
  Header.maxRunCommands (Writer.header writer) ≤ UINT64_MAX ∧
  Header.maxRunJournalBytes (Writer.header writer) ≤ UINT64_MAX.

Definition writer_advances (writer writer' : RunJournalWriterV1) : Prop :=
  Writer.header writer' = Writer.header writer ∧ (committed_fits writer → committed_fits writer').

#[export] Instance writer_advances_preorder : PreOrder writer_advances.
Proof.
  split; [by intros writer|]. intros w1 w2 w3 [E1 F1] [E2 F2]. split; [by rewrite E2|by auto].
Qed.

Lemma commitFrame_advances writer size :
  ¬ Header.maxRunCommands (Writer.header writer) ≤ Writer.committedCommandCount writer →
  ¬ wrap64 (Header.maxRunJournalBytes (Writer.header writer) - Writer.committedByteCount writer) < Z.of_nat size →
  writer_advances writer (commitFrame writer size).
Proof.
  intros Hc Hb. split; [done|]. intros (? & ? & ? & ?). unfold committed_fits. simpl.
  rewrite wrap64_small in Hb by (unfold is_u64; lia). unfold UINT64_MAX in *.
  rewrite !wrap64_small by (unfold is_u64, UINT64_MAX; lia). lia.
Qed.

Section procedures.
Context {V : Type} `{Posix V}.

Definition advances_from (writer : RunJournalWriterV1) {A} (r : A * RunJournalWriterV1) : Prop :=
  writer_advances writer r.2.

Lemma advances_same writer {A} (a : A) : advances_from writer (a, writer).
Proof. by split. Qed.
#[local] Hint Resolve advances_same : delivers.

Lemma delivers_appendEncoded fuel writer frame : delivers (appendEncoded fuel writer frame) (advances_from writer).
Proof.
  unfold appendEncoded. case_bool_decide as Hc; [apply delivers_ret, advances_same|].
  case_bool_decide as Hb; [apply delivers_ret, advances_same|].
  deliver; try apply advances_same; [by split|by split|]. unfold advances_from. simpl. by apply commitFrame_advances.
Qed.

Lemma delivers_append fuel writer command : delivers (append fuel writer command) (advances_from writer).
Proof. unfold append. pose proof delivers_appendEncoded. deliver; apply advances_same. Qed.

Lemma delivers_appendCommand fuel writer message : delivers (appendCommand fuel writer message) (advances_from writer).
Proof. unfold appendCommand. pose proof delivers_append. deliver; apply advances_same. Qed.
End procedures.

(** ** The sequencer *)
Definition gate_is_open (index : option CommandAdmissionIndex) : bool :=
  match index with Some index => admissionOpen_ index | None => false end.

Lemma markSequenced_open command index r index' : markSequenced command index = (r, index') →
  admissionOpen_ index' = admissionOpen_ index.
Proof.
  unfold markSequenced. case_bool_decide; [by intros [= _ <-]|].
  unfold mbind, M_bind, liftM. destruct (keyFrom command) as [key|e]; [|by intros [= _ <-]].
  destruct (businessCommandFrom command) as [business|e]; [|by intros [= _ <-]].
  unfold stepM. intros [= _ <-]. unfold markSequencedLocked.
  destruct (records_ index !! key) as [existing|]; [|done]. case_bool_decide; [done|].
  destruct (Entry.state existing); simpl; [done| |done]. by case_bool_decide.
Qed.

Section sequencer.
Context {V : Type} `{Posix V} {Q : Type} `{SharedQueue sequenceMessage Q}.
Implicit Types s : SequencerState Q.

(** The writer advances, and the admission stays as it is. *)
Definition sequencer_advances s s' : Prop :=
  match journalWriter_ s, journalWriter_ s' with
  | Some writer, Some writer' => writer_advances writer writer'
  | None, None => True
  | _, _ => False
  end ∧ gate_is_open (sequencerAdmission_ s') = gate_is_open (sequencerAdmission_ s) ∧
  (is_Some (sequencerAdmission_ s) → is_Some (sequencerAdmission_ s')).

#[export] Instance sequencer_advances_preorder : PreOrder sequencer_advances.
Proof.
  split; [intros s; unfold sequencer_advances; by destruct (journalWriter_ s)|].
  intros s1 s2 s3 (Hw1 & Ha1 & Hs1) (Hw2 & Ha2 & Hs2). split; [|split; [by rewrite Ha2|by auto]].
  destruct (journalWriter_ s1), (journalWriter_ s2), (journalWriter_ s3); try done. by etrans.
Qed.

(** Only the queues and the pending command differ. *)
Lemma sequencer_advances_eq s s' :
  journalWriter_ s' = journalWriter_ s → sequencerAdmission_ s' = sequencerAdmission_ s → sequencer_advances s s'.
Proof. intros Hw Ha. unfold sequencer_advances. rewrite Hw, Ha. by destruct (journalWriter_ s). Qed.

Lemma handoff_advances s handed s' : handoffPendingCommand s = (handed, s') → sequencer_advances s s'.
Proof.
  unfold handoffPendingCommand. destruct (pendingCommand_ s); [|by intros [= _ <-]].
  destruct (sharedPush _ _) as [[] matching]; intros [= _ <-]; by apply sequencer_advances_eq.
Qed.

Lemma bindAndHandoff_advances pending s r s' : bindAndHandoff pending s = (r, s') → sequencer_advances s s'.
Proof.
  unfold bindAndHandoff. set (s1 := setPending _ _ s).
  assert (Hto1 : sequencer_advances s s1) by by apply sequencer_advances_eq.
  assert (Hready : ∀ s2, (let '(handed, s) := handoffPendingCommand (setPending (pendingCommand_ s2) true s2) in
      (Ret handed, s)) = (r, s') → sequencer_advances s2 s').
  { intros s2. destruct (handoffPendingCommand _) as [handed s3] eqn:E. intros [= _ <-].
    transitivity (setPending (pendingCommand_ s2) true s2); [by apply sequencer_advances_eq|by eapply handoff_advances]. }
  change (sequencerAdmission_ s1) with (sequencerAdmission_ s).
  destruct (sequencerAdmission_ s) as [index|] eqn:Ei; [|intros ?%Hready; by etrans].
  destruct (markSequenced _ index) as [o index'] eqn:Em. apply markSequenced_open in Em.
  assert (Hto2 : sequencer_advances s (setAdmission (Some index') s1)).
  { unfold sequencer_advances. simpl. rewrite Ei. split; [by destruct (journalWriter_ s)|].
    split; [exact Em|done]. }
  destruct o as [st|e]; [|by intros [= _ <-]]. case_bool_decide; [by intros [= _ <-]|]. intros ?%Hready. by etrans.
Qed.

Lemma delivers_processNext fuel s : delivers (processNext (W:=V) fuel s) (λ r, sequencer_advances s r.2).
Proof.
  unfold processNext. destruct (pendingCommand_ s).
  { case_match; [|by apply delivers_ret]. destruct (handoffPendingCommand s) eqn:E. apply delivers_ret. by eapply handoff_advances. }
  case_match; [case_match; by apply delivers_ret|]. destruct (sharedPop _) as [popped ingress].
  set (s1 := setQueues ingress _ s). assert (Hto1 : sequencer_advances s s1) by by apply sequencer_advances_eq.
  destruct popped as [message|]; [|by apply delivers_ret]. destruct (journalWriter_ s1) as [writer|] eqn:Ew.
  - eapply delivers_bind; [apply delivers_appendCommand|]. intros [result writer'] Ha. unfold advances_from in Ha. simpl in Ha.
    set (s2 := setWriter _ _).
    assert (Hto2 : sequencer_advances s s2).
    { unfold sequencer_advances. change (journalWriter_ s) with (journalWriter_ s1). by rewrite Ew. }
    case_match; [apply delivers_ret; etrans; [exact Hto2|by apply sequencer_advances_eq]|].
    apply delivers_ret. destruct (bindAndHandoff _ s2) as [r s3] eqn:E. etrans; [exact Hto2|]. by eapply bindAndHandoff_advances.
  - apply delivers_ret. destruct (bindAndHandoff _ _) as [r s2] eqn:E. simpl. apply bindAndHandoff_advances in E.
    etrans; [|exact E]. by apply sequencer_advances_eq.
Qed.

Lemma delivers_drainAvailable loopFuel fuel : ∀ progressed s,
  delivers (drainAvailable (W:=V) loopFuel fuel progressed s) (λ r, sequencer_advances s r.2).
Proof.
  induction loopFuel as [|loopFuel IH]; intros progressed s; cbn [drainAvailable]; [apply delivers_fuel|].
  eapply delivers_bind; [apply delivers_processNext|]. intros [r s1] Hs. simpl in Hs.
  destruct r as [[|]|e]; [|by apply delivers_ret..]. eapply delivers_weaken; [apply IH|]. intros r Hr. by etrans.
Qed.
End sequencer.

(** ** Recovery *)
(** A loaded journal whose header can be encoded, or none. *)
Definition loaded_typed (loaded : LoadedRunJournalV1) : Prop :=
  0 ≤ Loaded.validCommittedByteCount loaded ∧ Header.maxRunCommands (Loaded.header loaded) ≤ UINT64_MAX ∧
  Header.maxRunJournalBytes (Loaded.header loaded) ≤ UINT64_MAX.

Lemma emptyLoaded_typed : loaded_typed emptyLoaded.
Proof. done. Qed.

Lemma decoded_typed decoded recordType frame decoded' totalLength :
  decodeCommandFrame decoded recordType frame = Ok decoded' → loaded_typed decoded →
  loaded_typed (commitBytes decoded' totalLength).
Proof.
  intros Hd (Hb & Hc & Hm).
  assert (Ha : ∀ i v c, addConfiguredCommand decoded i v c = Ok decoded' → Loaded.header decoded' = Loaded.header decoded).
  { intros i v c. unfold addConfiguredCommand. by destruct (validateCommandConfiguration _ _ _); intros [= <-]. }
  assert (Hh : Loaded.header decoded' = Loaded.header decoded).
  { unfold decodeCommandFrame in Hd. case_bool_decide.
    - destruct (decodeNewOrderV1 frame); try done. by eapply Ha.
    - destruct (decodeCancelV1 frame); try done. by eapply Ha. }
  unfold loaded_typed, commitBytes. simpl. rewrite Hh. split; [|done]. unfold wrap64, wrap. by apply Z.mod_pos_bound.
Qed.

Section recovery.
Context {V : Type} `{Posix V}.

Lemma delivers_readCommands loopFuel fuel : ∀ decoded sequence, loaded_typed decoded →
  delivers (readCommands (W:=V) loopFuel fuel decoded sequence) (λ r, loaded_typed r.2).
Proof.
  induction loopFuel as [|loopFuel IH]; intros decoded sequence Hd; cbn [readCommands]; [apply delivers_fuel|].
  deliver; try done. apply IH. by eapply decoded_typed; eauto.
Qed.

Lemma delivers_readJournal fuel : delivers (readJournal (W:=V) fuel) (λ r, loaded_typed r.2).
Proof.
  pose proof emptyLoaded_typed. unfold readJournal. deliver; try done. subst.
  match goal with Hd : ∀ header, inr ?h = inr header → _ |- _ =>
    destruct (decodeRunHeaderV1_inv _ _ (Hd _ eq_refl)) as [Hv _] end.
  apply delivers_readCommands. unfold loaded_typed. simpl.
  destruct (vrh_commands _ Hv) as [[? ?] _], (vrh_bytes _ Hv) as [[? ?] _]. split; [|done].
  match goal with Hb : bool_decide (?n < Z.of_nat _) = false |- _ => apply bool_decide_eq_false in Hb end. lia.
Qed.

(** The writer of a prepared journal is the expected run's. *)
Definition writer_of (id : ExchangeRunId) (writer : RunJournalWriterV1) : Prop :=
  Header.exchangeRunId (Writer.header writer) = id ∧
  0 ≤ Writer.committedCommandCount writer ∧ 0 ≤ Writer.committedByteCount writer ∧
  Header.maxRunCommands (Writer.header writer) ≤ UINT64_MAX ∧
  Header.maxRunJournalBytes (Writer.header writer) ≤ UINT64_MAX.

Definition prepares (id : ExchangeRunId) (r : RunJournalRecoveryResult * PreparedRunJournalV1) : Prop :=
  RecoveryResult.outcome r.1 = RecoveryOutcome.PREPARED → ∃ writer, prepared_writer r.2 = Some writer ∧ writer_of id writer.

Lemma delivers_closeAfterFailure output began error validation systemError preserved id :
  delivers (failWith (W:=V) output (closeAfterFailure began error validation systemError preserved)) (prepares id).
Proof.
  unfold failWith. apply delivers_bind with (λ r, RecoveryResult.outcome r ≠ RecoveryOutcome.PREPARED).
  - unfold closeAfterFailure. deliver; destruct began; simpl; congruence.
  - intros r Hr. apply delivers_ret. intros ?. by destruct Hr.
Qed.

Lemma delivers_prepareWriter fuel output loaded validation began preserved id :
  loaded_typed loaded → Header.exchangeRunId (Loaded.header loaded) = id →
  delivers (prepareWriter (W:=V) fuel output loaded validation began preserved) (prepares id).
Proof.
  intros (? & ? & ?) Hid. unfold prepareWriter. pose proof delivers_closeAfterFailure. deliver.
  intros _. eexists. split; [done|]. repeat split; simpl; done || lia.
Qed.

Lemma delivers_repairTail fuel output loaded validation id :
  loaded_typed loaded → Header.exchangeRunId (Loaded.header loaded) = id →
  delivers (repairTail (W:=V) fuel output loaded validation) (prepares id).
Proof.
  intros ? ?. unfold repairTail. pose proof delivers_closeAfterFailure. pose proof delivers_prepareWriter. deliver.
Qed.

Lemma checkExpectedRun_replaces id validation loaded :
  replacesOutput (checkExpectedRun (Some id) validation loaded) = true → Header.exchangeRunId (Loaded.header loaded) = id.
Proof.
  unfold checkExpectedRun. destruct (replacesOutput validation) eqn:E; simpl; [|by rewrite E].
  by case_bool_decide.
Qed.

Lemma delivers_load fuel : delivers (loadRunJournalV1FromDescriptorWithHooks (W:=V) fuel emptyLoaded) (λ r, loaded_typed r.2).
Proof.
  unfold loadRunJournalV1FromDescriptorWithHooks. eapply delivers_bind; [apply delivers_readJournal|].
  intros [r loaded] Hl. apply delivers_ret. simpl. by case_match.
Qed.

Lemma delivers_prepareRunJournalV1 fuel output id :
  delivers (prepareRunJournalV1 (W:=V) fuel output (Some id)) (prepares id).
Proof.
  unfold prepareRunJournalV1. apply delivers_skip. intros [d|e]; [|by case_match; apply delivers_ret].
  eapply delivers_bind; [apply delivers_load|]. intros [validation loaded] Hl. simpl in Hl. cbv zeta.
  destruct (replacesOutput (checkExpectedRun _ _ _)) eqn:Er; cbn [negb].
  - apply checkExpectedRun_replaces in Er. case_match; [apply delivers_closeAfterFailure|].
    case_match; [by apply delivers_repairTail|by apply delivers_prepareWriter].
  - apply delivers_skip. intros [?|?]; apply delivers_ret; [|done]. unfold prepares. simpl. by case_match.
Qed.
End recovery.

(** The admission of a recovered run is closed. *)
Lemma recoverRecords_open header commands : ∀ results sequence index index',
  recoverRecords header commands results sequence index = Ret (inr index') →
  admissionOpen_ index' = admissionOpen_ index.
Proof.
  induction commands as [|command commands IH]; intros [|result results] sequence index index'; simpl; try by intros [= ->].
  unfold recoverRecord. destruct (validateAdmissionContext _ _ _); try done.
  destruct (admissionKeyFrom command); simpl; [|done]. destruct (normalizedCommandFrom command); simpl; [|done].
  destruct (validateResult _ _ _ _); try done. destruct (records_ index !! _); [done|]. simpl. by intros ->%IH.
Qed.

Lemma reconstruct_open journal results r output :
  reconstructCommandAdmissionIndex journal results None = Ret (r, output) → gate_is_open output = false.
Proof.
  unfold reconstructCommandAdmissionIndex. repeat (case_match; [by intros [= _ <-]|]).
  destruct (newRunBoundIndex _ _ ≫= _) as [[e|index]|e] eqn:E.
  - by intros [= _ <-].
  - intros [= _ <-]. unfold newRunBoundIndex, throw_if in E. do 2 (case_bool_decide; [done|]). simpl in E.
    by apply recoverRecords_open in E.
  - destruct e; try done; by intros [= _ <-].
Qed.

Section recovered.
Context {W : Type} `{FileSystem W}.

(** A recovered run is the expected one, its admission closed. *)
Definition recovers (id : ExchangeRunId) (r : RecoveredRunResult * RunStateV1) : Prop :=
  Recovered.outcome r.1 = Recovered.RECOVERED → gate_is_open (RunState.admissionIndex r.2) = false ∧
  ∃ owned, RunState.journalWriter r.2 = Some owned ∧ writer_of id (owned_writer owned).

Lemma delivers_recoverRunV1 fuel q output id : delivers (recoverRunV1 (W:=W) fuel q output (Some id)) (recovers id).
Proof.
  unfold recoverRunV1. eapply delivers_bind with (P := λ r, prepares id r.1).
  { intros w r w' E. unfold on_journal in E. destruct (prepareRunJournalV1 _ _ _ _) as [[a|e|] v] eqn:Ep; try done.
    injection E as <- _. simpl. exact (delivers_prepareRunJournalV1 _ _ _ _ _ _ Ep). }
  intros [[preparation prepared] file] Hp. simpl in Hp. case_bool_decide as Hprep; [by apply delivers_ret|].
  destruct (Hp Hprep) as (writer & Hw & Hid). simpl in Hw. apply delivers_skip. intros [replay replayed].
  case_bool_decide; [apply delivers_skip; intros ?; by apply delivers_ret|].
  apply delivers_bind with (λ r, gate_is_open r.2 = false).
  { unfold noexceptly. destruct (reconstructCommandAdmissionIndex _ _ _) as [[r index]|[]] eqn:Er;
      try apply delivers_bounds; try apply delivers_fuel. apply delivers_ret. by eapply reconstruct_open. }
  intros [admission index] Ha. simpl in Ha. case_bool_decide; [apply delivers_skip; intros ?; by apply delivers_ret|].
  apply delivers_skip. intros ?. apply delivers_ret. intros _. split; [done|]. simpl. rewrite Hw. simpl. by eexists.
Qed.
End recovered.
