(* ===== verification/ControllerInv.v ===== *)
(** * Reasoning about the controller's operations

    [returns m c w post]: what [m] returns or throws from the controller [c] and the
    world [w], with the controller and world it leaves, satisfies [post]; one rule
    per construct.  Then what the calls on the catalog establish, and what the
    sub-steps of a cycle keep of the controller: [cycles]. *)
From S2P Require Import Prelude Domain Matching Bytes JournalCodec RunHeaderCodec RunCatalogCodec Posix.
From S2P Require Import JournalReader JournalWriter Projection Queues Admission Sequencer Bus EngineWorker.
From S2P Require Import Paths FileSystem CatalogStorage JournalStorage CatalogRun CatalogTheorems.
From S2P Require Import RunIdReservation NewRun NewRunTheorems ResultDispatcher Controller ControllerLifecycle.
From S2P Require Import ControllerProcessing WorkerFrames.

(** ** The logic *)
Section logic.
Context {W Q : Type}.

Definition returns {A} (m : ctl W Q A) (c : ExchangeRunController Q) (w : W)
    (post : outcome A → ExchangeRunController Q → W → Prop) : Prop :=
  ∀ o c' w', m c w = (Ok (o, c'), w') → post o c' w'.

(** What follows a returned value; an exception ends the procedure. *)
Definition then_ {A B} (f : A → ctl W Q B) (post : outcome B → ExchangeRunController Q → W → Prop)
    (o : outcome A) (c : ExchangeRunController Q) (w : W) : Prop :=
  match o with Ret a => returns (f a) c w post | Throw e => post (Throw e) c w end.

Context {A : Type} (post : outcome A → ExchangeRunController Q → W → Prop).

Lemma returns_weaken (m : ctl W Q A) c w (pre : outcome A → ExchangeRunController Q → W → Prop) :
  returns m c w pre → (∀ o c' w', pre o c' w' → post o c' w') → returns m c w post.
Proof. intros Hm Hw o c' w' E. by apply Hw, Hm. Qed.
Lemma returns_ret a c w : post (Ret a) c w → returns (mret a) c w post.
Proof. by intros Hp o c' w' [= <- <- <-]. Qed.
Lemma returns_bind {B} (m : ctl W Q B) (f : B → ctl W Q A) c w :
  returns m c w (then_ f post) → returns (m ≫= f) c w post.
Proof.
  intros Hm o c' w' E. unfold mbind, ctl_bind in E. destruct (m c w) as [[[[b|e] c1]|e|] w1] eqn:Em; try done.
  - by apply Hm in Em; apply Em.
  - injection E as <- <- <-. by apply Hm in Em.
Qed.
Lemma returns_getC (f : ExchangeRunController Q → ctl W Q A) c w :
  returns (f c) c w post → returns (getC ≫= f) c w post.
Proof. intros Hf o c' w' E. by apply Hf. Qed.
Lemma returns_modifyC g (f : unit → ctl W Q A) c w : returns (f tt) (g c) w post → returns (modifyC g ≫= f) c w post.
Proof. intros Hf o c' w' E. by apply Hf. Qed.
Lemma returns_throwC e c w : post (Throw e) c w → returns (throwC e) c w post.
Proof. by intros Hp o c' w' [= <- <- <-]. Qed.
Lemma returns_outcomeC x c w : post x c w → returns (outcomeC x) c w post.
Proof. by intros Hp o c' w' [= <- <- <-]. Qed.
Lemma returns_liftC {B} (m : io W B) (f : B → ctl W Q A) c w :
  (∀ b w', m w = (Ok b, w') → returns (f b) c w' post) → returns (liftC m ≫= f) c w post.
Proof.
  intros Hf o c' w' E. unfold mbind at 1, ctl_bind, liftC, mbind, io_bind in E.
  destruct (m w) as [[b|e|] w1] eqn:Em; try done. by eapply Hf.
Qed.
Lemma returns_tryC (m : ctl W Q A) handler c w :
  returns m c w (λ o c' w', match o with
                            | Throw e => if catchable e then returns (handler e) c' w' post else post (Throw e) c' w'
                            | Ret a => post (Ret a) c' w'
                            end) → returns (tryC m handler) c w post.
Proof.
  intros Hm o c' w' E. unfold tryC in E. destruct (m c w) as [[[[b|e] c1]|e|] w1] eqn:Em; try done.
  - injection E as <- <- <-. by apply Hm in Em.
  - apply Hm in Em. destruct (catchable e); [by apply Em|by injection E as <- <- <-].
Qed.
End logic.

(** Returned, or an exception of the code. *)
Definition regular {A} (o : outcome A) : Prop := match o with Ret _ => True | Throw e => catchable e = true end.

Section borrowed.
Context {W Q A : Type} (post : outcome A → ExchangeRunController Q → W → Prop).
Implicit Types c : ExchangeRunController Q.

Lemma returns_theWriter (f : OwnedWriter → ctl W Q A) c w : post (Throw undefined_behaviour) c w →
  (∀ owned, RunState.journalWriter (Control.run_ c) = Some owned → returns (f owned) c w post) →
  returns (theWriter ≫= f) c w post.
Proof.
  intros Hu Hf. apply returns_bind. unfold theWriter. apply returns_getC.
  destruct (RunState.journalWriter (Control.run_ c)); [apply returns_ret, Hf; done|by apply returns_throwC].
Qed.
Lemma returns_thePath (f : CommandProcessingPath Q → ctl W Q A) c w : post (Throw undefined_behaviour) c w →
  (∀ path, Control.commandProcessing_ c = Some path → returns (f path) c w post) →
  returns (thePath ≫= f) c w post.
Proof.
  intros Hu Hf. apply returns_bind. unfold thePath. apply returns_getC.
  destruct (Control.commandProcessing_ c); [apply returns_ret, Hf; done|by apply returns_throwC].
Qed.
Lemma returns_theIndex (f : CommandAdmissionIndex → ctl W Q A) c w : post (Throw undefined_behaviour) c w →
  (∀ index, RunState.admissionIndex (Control.run_ c) = Some index → returns (f index) c w post) →
  returns (theIndex ≫= f) c w post.
Proof.
  intros Hu Hf. apply returns_bind. unfold theIndex. apply returns_getC.
  destruct (RunState.admissionIndex (Control.run_ c)); [apply returns_ret, Hf; done|by apply returns_throwC].
Qed.
Lemma returns_openAdmission (f : unit → ctl W Q A) c w index : RunState.admissionIndex (Control.run_ c) = Some index →
  returns (f tt) (setRun (setRunIndex (setAdmissionOpen true index) (Control.run_ c)) c) w post →
  returns (openAdmission ≫= f) c w post.
Proof.
  intros Hi Hf. apply returns_bind. unfold openAdmission, theIndex. apply returns_bind, returns_getC. rewrite Hi.
  apply returns_ret. simpl. unfold updateIndex, modifyC. intros o c' w' [= <- <- <-]. rewrite Hi. exact Hf.
Qed.
End borrowed.

(** Walk through an operation: its binds, its cases and what it borrows. *)
Ltac walk_step :=
  first
    [ progress cbv zeta
    | apply returns_getC | apply returns_modifyC | apply returns_ret | apply returns_throwC | apply returns_outcomeC
    | apply returns_theWriter; [first [by intros ?|reflexivity]|intros ??]
    | apply returns_thePath; [first [by intros ?|reflexivity]|intros ??]
    | apply returns_theIndex; [first [by intros ?|reflexivity]|intros ??] ].
Ltac walk := repeat walk_step.
(** The two ways of a test. *)
Ltac branch E := match goal with |- returns (if ?test then _ else _) _ _ _ => destruct test eqn:E end.

(** ** The catalog's calls *)
Definition names (id : ExchangeRunId) (dispositions : list RunCatalogDisposition) (contents : option bytes) : Prop :=
  ∃ s, contents = Some (catalogRecord s) ∧ valid_catalog s ∧ Catalog.activeRunId s = Some id ∧
    Catalog.activeDisposition s ∈ dispositions.

(** The catalog, now and after any loss of power, names [id] active with one of the
    dispositions. *)
Definition selects (fs : Files) (p : path) (id : ExchangeRunId) (dispositions : list RunCatalogDisposition) : Prop :=
  names id dispositions (live fs p) ∧ ∀ contents, survives fs p contents → names id dispositions contents.

Lemma selects_kept fs fs' p id ds : selects fs p id ds → kept fs fs' p → selects fs' p id ds.
Proof. intros [Hl Hs] [El Es]. split; [by rewrite El|auto]. Qed.

Lemma names_mono id ds ds' contents : (∀ d, d ∈ ds → d ∈ ds') → names id ds contents → names id ds' contents.
Proof. intros Hd (s & ? & ? & ? & ?). exists s. auto. Qed.

Lemma selects_mono fs p id ds ds' : (∀ d, d ∈ ds → d ∈ ds') → selects fs p id ds → selects fs p id ds'.
Proof. intros Hd [Hl Hs]. split; [by eapply names_mono|]. intros contents ?%Hs. by eapply names_mono. Qed.

Lemma settled_selects fs p s id d : settled_file fs p (catalogRecord s) → valid_catalog s →
  Catalog.activeRunId s = Some id → Catalog.activeDisposition s = d → selects fs p id [d].
Proof.
  intros [Hl Hs] Hv Ha Hd. assert (Hn : names id [d] (Some (catalogRecord s))) 
    by (exists s; rewrite Hd; split_and!; [done|done|done|by left]).
  split; [by rewrite Hl|]. by intros contents ->%Hs.
Qed.

(** A disposition of the enumeration. *)
Definition known_disposition (d : RunCatalogDisposition) : Prop :=
  ∀ v, d ≠ Disposition.RunCatalogDisposition_raw v.

Lemma nextGeneration_typed s active d retained : valid_catalog s → known_disposition d →
  (∀ id, active = Some id → is_u64 id) → (∀ id, retained = Some id → is_u64 id) →
  typed_catalog (nextGeneration s active d retained).
Proof.
  intros Hv Hd Ha Hr. split; simpl.
  - unfold is_u64, wrap64, wrap, UINT64_MAX. pose proof (Z.mod_pos_bound (Catalog.generation s + 1) (2 ^ 64)). lia.
  - intros id Hid. by destruct (vc_last _ Hv id Hid).
  - done.
  - done.
  - by intros v ?%Hd.
Qed.

Lemma withDisposition_typed d s : valid_catalog s → known_disposition d → typed_catalog (withDisposition d s).
Proof.
  intros Hv Hd. apply nextGeneration_typed; [done|done| |]; intros id Hid;
    [by destruct (vc_active _ Hv id Hid)|by destruct (vc_retained _ Hv id Hid)].
Qed.

Section catalog.
Context {W : Type} `{FileSystemLaws W} (p : path).

Lemma load_inv fuel w load s w' : enough_fuel (pendingSignals w) fuel →
  loadRunCatalogV1 fuel p emptyCatalog w = (Ok (load, s), w') →
  spares p w w' ∧ kept (files w) (files w') p ∧ load_reports (live (files w) p) emptyCatalog load s.
Proof.
  intros Hf E. destruct (loadRunCatalogV1_run fuel p emptyCatalog w (enough_load _ _ Hf)) as (? & ? & ? & Hrun & Hsame & Hs & Hrep).
  rewrite Hrun in E. injection E as -> -> ->. split; [by apply (spares_loadRunCatalogV1 p) in Hrun|].
  split; [by apply same_files_kept|done].
Qed.

(** A loaded catalog is the one in the file. *)
Lemma loaded_live fs load s : load_reports (live fs p) emptyCatalog load s → CatalogLoad.outcome load = CatalogLoad.LOADED →
  live fs p = Some (catalogRecord s) ∧ valid_catalog s.
Proof.
  intros Hrep E. unfold load_reports in Hrep. rewrite E in Hrep. destruct Hrep as (b & Hb & Hd).
  by apply decodeRunCatalogV1_inv in Hd as [? ->].
Qed.

(** What a replacement leaves, and what a committed one establishes. *)
Lemma replace_inv fuel next w result w' : enough_fuel (pendingSignals w) fuel → typed_catalog next →
  guarded p (files w) → replaceRunCatalogV1WithHooks fuel p next w = (Ok result, w') →
  (pendingSignals w' ≤ pendingSignals w)%nat ∧ guarded p (files w') ∧
  (kept (files w) (files w') p ∨ valid_catalog next ∧ may_be_replaced (files w) (files w') p (catalogRecord next)) ∧
  (CatalogReplace.outcome result = CatalogReplace.COMMITTED →
     valid_catalog next ∧ settled_file (files w') p (catalogRecord next)).
Proof.
  intros Hf Hty Hg E. destruct (replace_run fuel p next w Hty (enough_load _ _ Hf)) as (? & ? & Hrun & Hs & [_ Hrep] & Hg').
  rewrite Hrun in E. injection E as -> ->. split; [done|]. split; [by apply Hg'|].
  destruct (CatalogReplace.outcome result).
  - destruct Hrep as (Hv & _ & Hl & Honly). split; [|done]. right. split; [done|]. split; [by right|auto].
  - split; [left|done]. destruct Hrep as [_ ->]. apply kept_refl.
  - split; [left|done]. apply same_files_kept, Hrep.
  - split; [left|done]. apply same_files_kept, Hrep.
  - by split; [left|].
  - split; [right|done]. by destruct Hrep as (? & _ & ? & _).
Qed.
End catalog.

(** * The controller's invariant

    [in_agreement p c w]: the controller [c] agrees with the catalog [p] of the world [w],
    its admission is open only where commands may be accepted, and the bytes it has
    accepted fit the run.  [cycles] is what the workers keep of a controller. *)

(** ** What the invariant reads *)
Section views.
Context {Q : Type}.
Implicit Types c : ExchangeRunController Q.

Definition ownedWriter c : option RunJournalWriterV1 := owned_writer <$> RunState.journalWriter (Control.run_ c).
Definition admissionIsOpen c : bool := gate_is_open (RunState.admissionIndex (Control.run_ c)).
Definition pathStatus c : option Path.PathStatus := Path.status <$> Control.commandProcessing_ c.
Definition transitionPending c : bool :=
  match pathStatus c with Some s => Path.capacityTransitionPending s | None => false end.

Definition runOf (writer : RunJournalWriterV1) : ExchangeRunId := Header.exchangeRunId (Writer.header writer).
End views.

(** The dispositions the catalog of a run in a state has; [None] in the states that
    say nothing of it.  A resumption whose replacement is not known to be committed
    leaves the run paused. *)
Definition dispositionsOf (s : ExchangeRunStartupState) : option (list RunCatalogDisposition) :=
  match s with
  | Lifecycle.READY => Some [Disposition.OPEN]
  | Lifecycle.PAUSED => Some [Disposition.PAUSED; Disposition.OPEN]
  | Lifecycle.CAPACITY_REACHED => Some [Disposition.CAPACITY_REACHED]
  | Lifecycle.FAIL_STOPPED => Some [Disposition.FAIL_STOPPED]
  | Lifecycle.UNAVAILABLE | Lifecycle.STOPPED | Lifecycle.RECOVERY_FAILED => None
  end.

(** The numbers of a writer are those of its types. *)
Definition writer_typed (writer : RunJournalWriterV1) : Prop :=
  0 ≤ Writer.committedCommandCount writer ∧ 0 ≤ Writer.committedByteCount writer ∧
  Header.maxRunCommands (Writer.header writer) ≤ UINT64_MAX ∧
  Header.maxRunJournalBytes (Writer.header writer) ≤ UINT64_MAX.

(** The commands accepted and not yet appended have their bytes in the run. *)
Definition accounts_fit (writer : RunJournalWriterV1) (s : Path.PathStatus) : Prop :=
  0 ≤ Path.acceptedNotAppendedCommands s ≤ UINT64_MAX ∧ 0 ≤ Path.acceptedNotAppendedBytes s ∧
  Writer.committedByteCount writer + Path.acceptedNotAppendedBytes s ≤ Header.maxRunJournalBytes (Writer.header writer).

(** ** The dispatcher does not touch the gate *)
Definition steady {S A B} (view : S → B) (m : M S A) : Prop := ∀ s r s', m s = (r, s') → view s' = view s.

Section steady.
Context {S B : Type} (view : S → B).

Lemma steady_ret {A} (a : A) : steady view (mret a).
Proof. by intros s r s' [= _ <-]. Qed.
Lemma steady_get : steady view getM.
Proof. by intros s r s' [= _ <-]. Qed.
Lemma steady_modify f : (∀ s, view (f s) = view s) → steady view (modifyM f).
Proof. by intros Hf s r s' [= _ <-]. Qed.
Lemma steady_bind {A A'} (m : M S A) (f : A → M S A') :
  steady view m → (∀ a, steady view (f a)) → steady view (m ≫= f).
Proof.
  intros Hm Hf s r s' E. unfold mbind, M_bind in E. destruct (m s) as [[a|e] s1] eqn:Em; apply Hm in Em.
  - apply Hf in E. by rewrite E.
  - by injection E as _ <-.
Qed.
End steady.

Definition gateOf (d : CommandResultDispatcher) : bool :=
  admissionOpen_ (Consumer.admissionIndex_ (Dispatcher.completion_ d)).

Lemma complete_open result index r index' : complete result index = (r, index') →
  admissionOpen_ index' = admissionOpen_ index.
Proof.
  unfold complete. destruct result as [batch|]; [|by intros [= _ <-]]. repeat (case_match; try by intros [= _ <-]).
Qed.

Lemma processNextCompletion_open c r c' : processNextCompletion c = (r, c') →
  admissionOpen_ (Consumer.admissionIndex_ c') = admissionOpen_ (Consumer.admissionIndex_ c).
Proof.
  unfold processNextCompletion. destruct (Consumer.failure_ c); [by intros [= _ <-]|].
  destruct (takePending c) as [taken c1] eqn:Et.
  assert (Ha : Consumer.admissionIndex_ c1 = Consumer.admissionIndex_ c).
  { unfold takePending in Et. destruct (Consumer.pendingBatch_ c); [by injection Et as _ <-|].
    by destruct (ResultQueue.tryPopResult _) as [[] queue]; injection Et as _ <-. }
  destruct taken; simpl; [|intros [= _ <-]; by rewrite Ha].
  destruct (complete _ _) as [s index] eqn:E. apply complete_open in E.
  case_bool_decide; intros [= _ <-]; simpl; by rewrite E, Ha.
Qed.

Lemma advanceDispatcher_open d r d' : advanceDispatcher d = (r, d') → gateOf d' = gateOf d.
Proof.
  revert d r d'. change (steady gateOf advanceDispatcher).
  assert (Htake : steady gateOf takeCompleted).
  { intros d r d' E. unfold takeCompleted in E. destruct (processNextCompletion _) as [o c] eqn:Ec.
    apply processNextCompletion_open in Ec. by destruct o as [[batch|]|e]; injection E as _ <-. }
  assert (Hproject : steady gateOf project).
  { intros d r d' E. unfold project in E. destruct (Dispatcher.pendingResult_ d); [|by injection E as _ <-].
    by destruct (projectPrivateResults _); injection E as _ <-. }
  assert (Hprivate : steady gateOf pushPrivate).
  { intros d r d' E. unfold pushPrivate in E. by destruct (PrivateQueue.tryPushPrivate _ _) as [[[]|] q]; injection E as _ <-. }
  assert (Hpublic : steady gateOf pushPublic).
  { intros d r d' E. unfold pushPublic in E. by destruct (TradeQueue.tryPushTrades _ _) as [[[]|] q]; injection E as _ <-. }
  unfold advanceDispatcher, dispatchPending.
  repeat first
    [ done | apply steady_get | apply steady_ret | by apply steady_modify | apply steady_bind; [|intros ?] | case_match ].
Qed.

Section invariant.
Context {W : Type} `{FileSystemLaws W} {Q : Type} (p : path).
Implicit Types (c : ExchangeRunController Q) (w : W).

(** The owner and the gate. *)
Record consistent c w : Prop := {
  co_guarded : guarded p (files w);
  co_open : admissionIsOpen c = true → Control.state_ c = Lifecycle.READY ∧ transitionPending c = false;
  co_owner : ∀ dispositions, dispositionsOf (Control.state_ c) = Some dispositions →
    Control.canonicalCatalogPath_ c = p ∧
    ∃ writer, ownedWriter c = Some writer ∧ selects (files w) p (runOf writer) dispositions;
  co_path : is_Some (Control.commandProcessing_ c) → is_Some (ownedWriter c);
  co_paused : Control.state_ c = Lifecycle.PAUSED → transitionPending c = false }.

(** The capacity. *)
Definition fitting c : Prop :=
  ∀ writer, ownedWriter c = Some writer →
    match Control.state_ c with
    | Lifecycle.READY => committed_fits writer ∧ ∀ s, pathStatus c = Some s → accounts_fit writer s
    | Lifecycle.PAUSED => writer_typed writer ∧
        ∀ s, pathStatus c = Some s → Path.acceptedNotAppendedCommands s = 0 ∧ Path.acceptedNotAppendedBytes s = 0 ∨ accounts_fit writer s
    | _ => True
    end.

Definition in_agreement c w : Prop := consistent c w ∧ fitting c.

(** ** The world moves on *)
Lemma consistent_spares c w w' : consistent c w → spares p w w' → consistent c w'.
Proof.
  intros [Hg Ho Hw Hp Hq] [_ Hu]. destruct (Hu Hg) as [Hg' Hk]. split; [done|done| |done|done].
  intros ds Hds. destruct (Hw _ Hds) as (Hpath & writer & Hwr & Hsel). split; [done|]. exists writer. split; [done|].
  by eapply selects_kept.
Qed.

Lemma sound_spares c w w' : in_agreement c w → spares p w w' → in_agreement c w'.
Proof. intros [Hc Hf] Hs. split; [by eapply consistent_spares|done]. Qed.

(** A controller that is out of service agrees with any catalog. *)
Lemma sound_unavailable c w s : dispositionsOf s = None → guarded p (files w) → Control.state_ c = s →
  admissionIsOpen c = false → (is_Some (Control.commandProcessing_ c) → is_Some (ownedWriter c)) → in_agreement c w.
Proof.
  intros Hd Hg <- Ha Hp. split.
  - split; [done|by rewrite Ha|by rewrite Hd|done|]. by intros E; rewrite E in Hd.
  - intros writer _. by destruct (Control.state_ c).
Qed.

Lemma fitting_eq c c' : Control.state_ c' = Control.state_ c → ownedWriter c' = ownedWriter c → pathStatus c' = pathStatus c →
  fitting c → fitting c'.
Proof. intros E1 E2 E3 Hf writer. rewrite E1, E2, E3. apply Hf. Qed.

Lemma fitting_ready c writer : fitting c → Control.state_ c = Lifecycle.READY → ownedWriter c = Some writer →
  committed_fits writer ∧ ∀ s, pathStatus c = Some s → accounts_fit writer s.
Proof. intros Hf Hst Hw. specialize (Hf writer Hw). by rewrite Hst in Hf. Qed.

Lemma ready_fitting c writer : Control.state_ c = Lifecycle.READY → ownedWriter c = Some writer →
  committed_fits writer → (∀ s, pathStatus c = Some s → accounts_fit writer s) → fitting c.
Proof. intros Hst Hw Hc Ha writer' Hw'. rewrite Hst. rewrite Hw in Hw'. by injection Hw' as <-. Qed.

(** ** The workers *)
(** What a worker keeps: the state, the run's header and the path's status. *)
Record cycles c w c' w' : Prop := {
  cy_spares : spares p w w';
  cy_state : Control.state_ c' = Control.state_ c;
  cy_catalog : Control.canonicalCatalogPath_ c' = Control.canonicalCatalogPath_ c;
  cy_writer : match ownedWriter c, ownedWriter c' with
              | Some writer, Some writer' => writer_advances writer writer'
              | None, None => True
              | _, _ => False
              end;
  cy_open : admissionIsOpen c' = true → admissionIsOpen c = true;
  cy_status : pathStatus c' = pathStatus c }.

Lemma cycles_refl c w : cycles c w c w.
Proof. split; try done. by destruct (ownedWriter c). Qed.

Lemma cycles_trans c1 w1 c2 w2 c3 w3 : cycles c1 w1 c2 w2 → cycles c2 w2 c3 w3 → cycles c1 w1 c3 w3.
Proof.
  intros [Hs1 E1 P1 W1 O1 S1] [Hs2 E2 P2 W2 O2 S2]. split; [by etrans|congruence|congruence| |by auto|congruence].
  destruct (ownedWriter c1), (ownedWriter c2), (ownedWriter c3); try done. by etrans.
Qed.

Lemma path_status c : is_Some (Control.commandProcessing_ c) ↔ is_Some (pathStatus c).
Proof. unfold pathStatus. by rewrite fmap_is_Some. Qed.

Lemma consistent_cycles c w c' w' : consistent c w → cycles c w c' w' → consistent c' w'.
Proof.
  intros Hc [Hs E P Wr O S]. apply (consistent_spares _ _ _ Hc) in Hs as [Hg Ho Hw Hp Hq].
  assert (Ht : transitionPending c' = transitionPending c) by (unfold transitionPending; by rewrite S).
  split; [done|by rewrite E, Ht; auto| | |by rewrite E, Ht].
  - intros ds. rewrite E, P. intros Hds. destruct (Hw _ Hds) as (Hpath & writer & Hwr & Hsel). split; [done|].
    rewrite Hwr in Wr. destruct (ownedWriter c') as [writer'|]; [|done]. exists writer'. split; [done|].
    unfold runOf. by rewrite (proj1 Wr).
  - rewrite path_status, S, <-path_status. intros [writer Hwr]%Hp. rewrite Hwr in Wr.
    by destruct (ownedWriter c').
Qed.

Context `{SharedQueue sequenceMessage Q}.

Lemma cycles_sequencerAdvance loopFuel fuel c w :
  returns (sequencerAdvance loopFuel fuel) c w (λ _ c' w', cycles c w c' w').
Proof.
  unfold sequencerAdvance. apply returns_thePath; [apply cycles_refl|]. intros path Hpath.
  apply returns_theWriter; [apply cycles_refl|]. intros owned Hw.
  apply returns_theIndex; [apply cycles_refl|]. intros index Hi. apply returns_liftC.
  intros [[result s] file] w' E. pose proof (spares_advanceSequencer p _ _ _ _ _ _ _ E) as Hs.
  assert (Hadv : sequencer_advances (sequencerOf path index (owned_writer owned)) s).
  { unfold on_journal in E. destruct (advanceSequencer _ _ _ _) as [[[r s1]|e|] v] eqn:Ea; try done.
    injection E as <- <- <- _. by apply (delivers_drainAvailable _ _ _ _ _ _ _ Ea). }
  destruct Hadv as (Hwr & Ha & _). simpl in Hwr, Ha. walk. split; [done|done|done| | |].
  - unfold ownedWriter. simpl. rewrite Hw. simpl. by destruct (journalWriter_ s).
  - unfold admissionIsOpen. simpl. by rewrite Hi, Ha.
  - unfold pathStatus. simpl. by rewrite Hpath.
Qed.

Lemma cycles_matcherAdvance loopFuel c w : returns (matcherAdvance loopFuel) c w (λ _ c' w', cycles c w c' w' ∧ ownedWriter c' = ownedWriter c).
Proof.
  unfold matcherAdvance. apply returns_thePath; [by split; [apply cycles_refl|]|]. intros path Hpath. walk.
  destruct (RunState.matchingState (Control.run_ c)) as [st|]; [|by apply returns_throwC; split; [apply cycles_refl|]].
  destruct (advanceEngine _ _) as [result e]. walk. split; [|done]. split; try done.
  - unfold ownedWriter. simpl. by destruct (RunState.journalWriter (Control.run_ c)).
  - unfold pathStatus. simpl. by rewrite Hpath.
Qed.

Lemma cycles_dispatcherAdvance c w : returns dispatcherAdvance c w (λ _ c' w', cycles c w c' w' ∧ ownedWriter c' = ownedWriter c).
Proof.
  unfold dispatcherAdvance. apply returns_thePath; [by split; [apply cycles_refl|]|]. intros path Hpath.
  apply returns_theIndex; [by split; [apply cycles_refl|]|]. intros index Hi.
  destruct (advanceDispatcher _) as [result d] eqn:E. apply advanceDispatcher_open in E. unfold gateOf in E. simpl in E. walk. split; [|done]. split; try done.
  - unfold ownedWriter. simpl. by destruct (RunState.journalWriter (Control.run_ c)).
  - unfold admissionIsOpen. simpl. by rewrite Hi, E.
  - unfold pathStatus. simpl. by rewrite Hpath.
Qed.
End invariant.
