(* ===== verification/ControllerCycle.v ===== *)
(** * A cycle keeps the controller sound

    The cycle of [advanceCommandProcessingV1], the publication of a failed stop and of
    a reached capacity, and the barrier of a pause. *)
From S2P Require Import Prelude Domain Bytes JournalCodec RunHeaderCodec RunCatalogCodec Posix Paths FileSystem.
From S2P Require Import CatalogStorage CatalogRun CatalogTheorems WorkerFrames.
From S2P Require Import JournalReader JournalWriter JournalStorage RunIdReservation NewRun NewRunTheorems.
From S2P Require Import Matching Projection Queues Admission Sequencer Bus EngineWorker ResultDispatcher.
From S2P Require Import Controller ControllerLifecycle ControllerProcessing ControllerInv.

Lemma ownedWriter_of {Q} (c : ExchangeRunController Q) owned :
  RunState.journalWriter (Control.run_ c) = Some owned → ownedWriter c = Some (owned_writer owned).
Proof. unfold ownedWriter. by intros ->. Qed.

(** The writer borrowed is the one owned. *)
Ltac own :=
  match goal with
  | Hw : ownedWriter ?c = Some ?writer, Ho : RunState.journalWriter (Control.run_ ?c) = Some ?owned |- _ =>
      rewrite (ownedWriter_of c owned Ho) in Hw; injection Hw as <-
  end.

Section cycle.
Context {W : Type} `{FileSystemLaws W} {Q : Type} `{SharedQueue sequenceMessage Q} (p : path).
Implicit Types (c : ExchangeRunController Q) (w : W).

(** What an operation leaves, returned or thrown. *)
Definition keeps_sound {A} (w : W) (o : outcome A) c w' : Prop :=
  regular o → in_agreement p c w' ∧ (pendingSignals w' ≤ pendingSignals w)%nat.

(** The same with the gate closed, and nothing thrown. *)
Definition keeps_closed {A} (w : W) (o : outcome A) c w' : Prop :=
  match o with
  | Ret _ => (in_agreement p c w' ∧ (pendingSignals w' ≤ pendingSignals w)%nat) ∧ admissionIsOpen c = false
  | Throw e => catchable e = false
  end.

Lemma undefined_keeps {A} w c w' : keeps_sound (A:=A) w (Throw undefined_behaviour) c w'.
Proof. by intros ?. Qed.

(** The run and its catalog are the same to the invariant. *)
Record same_run c c' : Prop := {
  sr_state : Control.state_ c' = Control.state_ c;
  sr_catalog : Control.canonicalCatalogPath_ c' = Control.canonicalCatalogPath_ c;
  sr_writer : ownedWriter c' = ownedWriter c;
  sr_open : admissionIsOpen c' = true → admissionIsOpen c = true ∧ transitionPending c' = transitionPending c;
  sr_path : is_Some (Control.commandProcessing_ c') → is_Some (Control.commandProcessing_ c);
  sr_pending : Control.state_ c = Lifecycle.PAUSED → transitionPending c = false → transitionPending c' = false }.

Lemma consistent_same c c' w : consistent p c w → same_run c c' → consistent p c' w.
Proof.
  intros [Hg Ho Hw Hp Hq] [Es Ec Ew Eo Ep Eq]. split; [done| | | |].
  - intros [Ho' ->]%Eo. rewrite Es. by apply Ho.
  - rewrite Es, Ec, Ew. done.
  - rewrite Ew. auto.
  - rewrite Es. auto.
Qed.

(** Publishing a disposition of the run the catalog names. *)
Lemma publish_inv fuel d s w result w' : enough_fuel (pendingSignals w) fuel → valid_catalog s → known_disposition d →
  guarded p (files w) → replaceRunCatalogV1WithHooks fuel p (withDisposition d s) w = (Ok result, w') →
  (pendingSignals w' ≤ pendingSignals w)%nat ∧ guarded p (files w') ∧
  (CatalogReplace.outcome result = CatalogReplace.COMMITTED → ∀ id, Catalog.activeRunId s = Some id →
     selects (files w') p id [d]).
Proof.
  intros Hf Hv Hd Hg E. apply replace_inv in E as (Hs & Hg' & _ & Hc); [|done|by apply withDisposition_typed|done].
  split; [done|]. split; [done|]. intros [Hv' Hset]%Hc id Ha. by eapply settled_selects.
Qed.

Lemma enough_less fuel w w' : enough_fuel (pendingSignals w) fuel → (pendingSignals w' ≤ pendingSignals w)%nat →
  enough_fuel (pendingSignals w') fuel.
Proof. unfold enough_fuel. lia. Qed.

(** [in_agreement] in the states that say nothing of the catalog. *)
Lemma unavailable_sound c w : Control.state_ c = Lifecycle.UNAVAILABLE → guarded p (files w) → admissionIsOpen c = false →
  (is_Some (Control.commandProcessing_ c) → is_Some (ownedWriter c)) → in_agreement p c w.
Proof. intros E ???. by apply (sound_unavailable p c w Lifecycle.UNAVAILABLE). Qed.

(** ** A failed stop *)
Lemma publishFailStopped_sound fuel c w : consistent p c w → Control.state_ c = Lifecycle.READY →
  admissionIsOpen c = false → enough_fuel (pendingSignals w) fuel → returns (publishFailStopped fuel) c w (keeps_closed w).
Proof.
  intros [Hg Ho Hw Hp Hq] Hst Ha Hf. destruct (Hw [Disposition.OPEN]) as (Hpath & writer & Hwr & Hsel); [by rewrite Hst|].
  unfold publishFailStopped. walk. simpl in *. rewrite Hpath. apply returns_liftC. intros [load s] w1 E.
  apply load_inv in E as ([Hs1 Hu1] & Hk1 & Hrep); [|done]. destruct (Hu1 Hg) as [Hg1 _].
  assert (Hfin : ∀ f, returns (updateStatus f) (setState Lifecycle.UNAVAILABLE c) w1 (keeps_closed w)).
  { intros f o c' w' [= <- <- <-]. split; [split; [|done]|done]. apply unavailable_sound; [done|done|done|].
    simpl. rewrite fmap_is_Some. done. }
  case_bool_decide as Hl; [apply Hfin|].
  case_bool_decide as Hid; [apply Hfin|].
  case_bool_decide as Hd; [apply Hfin|]. case_bool_decide as Hgen; [apply Hfin|].
  destruct (loaded_live _ _ _ _ Hrep Hl) as [_ Hv]. apply returns_liftC. intros result w2 E.
  apply publish_inv in E as (Hs2 & Hg2 & Hsel2); [|by eapply enough_less|done|by intros v|done].
  apply returns_modifyC. case_bool_decide as Hc.
  - apply returns_ret. split; [split; [|lia]|done]. apply unavailable_sound; [done|done|done|]. simpl. rewrite fmap_is_Some. done.
  - intros o c' w' [= <- <- <-]. split; [split; [|lia]|done]. split; [split|].
    + done.
    + unfold admissionIsOpen in *. simpl. by rewrite Ha.
    + intros ds [= <-]. split; [done|]. exists writer. split; [done|]. apply Hsel2; [done|]. rewrite Hid.
      by own.
    + simpl. rewrite fmap_is_Some. done.
    + done.
    + by intros writer' _.
Qed.

(** ** Capacity reached *)
Lemma updateStatus_same f c : (∀ s, Path.capacityTransitionPending (f s) = Path.capacityTransitionPending s) →
  same_run c (setPath ((λ path, setStatus (f (Path.status path)) path) <$> Control.commandProcessing_ c) c).
Proof.
  intros Hf. assert (Ht : transitionPending (setPath ((λ path, setStatus (f (Path.status path)) path) <$> Control.commandProcessing_ c) c)
                          = transitionPending c).
  { unfold transitionPending, pathStatus. simpl. by destruct (Control.commandProcessing_ c); simpl. }
  split; try done; [simpl; by rewrite fmap_is_Some|].
  intros _ Hpend. by transitivity (transitionPending c).
Qed.

Lemma returns_updateStatus {A} (post : outcome A → ExchangeRunController Q → W → Prop) f (k : unit → ctl W Q A) c w :
  (∀ c', c' = setPath ((λ path, setStatus (f (Path.status path)) path) <$> Control.commandProcessing_ c) c →
     returns (k tt) c' w post) → returns (updateStatus f ≫= k) c w post.
Proof. intros Hk. apply returns_modifyC. by apply Hk. Qed.

Lemma publishCapacityReached_sound fuel c w : consistent p c w → Control.state_ c = Lifecycle.READY →
  admissionIsOpen c = false → enough_fuel (pendingSignals w) fuel →
  returns (publishCapacityReached fuel) c w (keeps_closed w).
Proof.
  intros Hcons Hst Ha Hf. pose proof Hcons as [Hg Ho Hw Hp Hq].
  destruct (Hw [Disposition.OPEN]) as (Hpath & writer & Hwr & Hsel); [by rewrite Hst|].
  unfold publishCapacityReached. walk. rewrite Hpath. apply returns_liftC. intros [load s] w1 E.
  apply load_inv in E as ([Hs1 Hu1] & Hk1 & Hrep); [|done]. destruct (Hu1 Hg) as [Hg1 _].
  apply returns_modifyC. set (c1 := setPath _ c).
  assert (Hp1 : is_Some (Control.commandProcessing_ c1) → is_Some (ownedWriter c1)) by (simpl; rewrite fmap_is_Some; exact Hp).
  assert (Hfin : ∀ c2 w2, ownedWriter c2 = ownedWriter c1 → admissionIsOpen c2 = false →
      (is_Some (Control.commandProcessing_ c2) → is_Some (Control.commandProcessing_ c1)) →
      guarded p (files w2) → (pendingSignals w2 ≤ pendingSignals w)%nat →
      returns (modifyC (setState Lifecycle.UNAVAILABLE) ;; mret false) c2 w2 (keeps_closed w)).
  { intros c2 w2 Ew Ha2 Hp2 Hg2 Hs2. walk. split; [split; [|done]|done]. apply unavailable_sound; [done|done|done|].
    simpl. intros Hpath2%Hp2%Hp1. by rewrite <-Ew in Hpath2. }
  case_bool_decide as Hl; [by apply Hfin|]. destruct (loaded_live _ _ _ _ Hrep Hl) as [_ Hv].
  case_bool_decide as Hid; [by apply Hfin|]. case_bool_decide as Hd; [by apply Hfin|].
  case_bool_decide as Hgen; [by apply Hfin|]. cbn [orb]. apply returns_liftC. intros result w2 E.
  apply publish_inv in E as (Hs2 & Hg2 & Hsel2); [|by eapply enough_less|done|by intros v|done].
  apply returns_modifyC. case_bool_decide as Hc.
  { apply Hfin; [done|done| |done|lia]. simpl. by rewrite fmap_is_Some. }
  walk. split; [split; [|lia]|done]. split; [split|].
  - done.
  - unfold admissionIsOpen in *. simpl. by rewrite Ha.
  - intros ds [= <-]. split; [done|]. exists writer. split; [done|]. apply Hsel2; [done|]. rewrite Hid. by own.
  - simpl. rewrite !fmap_is_Some. done.
  - done.
  - by intros writer' _.
Qed.

(** ** The accounts *)
(** Whatever is accounted, the run and its catalog are the same. *)
Lemma accountJournalProgress_same commands bytes c w : consistent p c w →
  returns (accountJournalProgress commands bytes) c w (λ o c' w', match o with Throw e => catchable e = false | Ret _ => True end ∧ (regular o →
    w' = w ∧ same_run c c' ∧ (admissionIsOpen c' = admissionIsOpen c) ∧ transitionPending c' = transitionPending c ∧
    RunState.journalWriter (Control.run_ c') = RunState.journalWriter (Control.run_ c) ∧
    (o = Ret true → ∀ writer s, ownedWriter c = Some writer → pathStatus c = Some s →
       ∃ appendedCommands appendedBytes,
         appendedCommands = wrap64 (Writer.committedCommandCount writer - commands) ∧
         appendedBytes = wrap64 (Writer.committedByteCount writer - bytes) ∧
         appendedCommands ≤ Path.acceptedNotAppendedCommands s ∧ appendedBytes ≤ Path.acceptedNotAppendedBytes s ∧
         pathStatus c' = Some (setAccounts (Path.acceptedNotAppendedCommands s - appendedCommands)
                                 (Path.acceptedNotAppendedBytes s - appendedBytes) s)))).
Proof.
  intros Hcons. unfold accountJournalProgress.
  apply returns_theWriter; [by split|]. intros owned Hown. apply returns_thePath; [by split|]. intros path Hpath.
  cbv zeta. case_match eqn:E.
  { walk. split; [done|]. intros _. split; [done|]. split; [|done]. by split. }
  apply orb_false_iff in E as [E1%bool_decide_eq_false E2%bool_decide_eq_false].
  apply returns_updateStatus. intros c' ->. walk. split; [done|]. intros _. split; [done|].
  split; [by apply updateStatus_same|].
  split; [done|]. split.
  { unfold transitionPending, pathStatus. simpl. by destruct (Control.commandProcessing_ c). }
  split; [done|]. intros _ writer s Hwr Hs. own.
  unfold pathStatus in *. simpl. rewrite Hpath in Hs |- *. simpl in *. injection Hs as <-.
  eexists _, _. split; [done|]. split; [done|]. split; [lia|]. split; [lia|]. done.
Qed.

(** What was appended leaves the accounts, so what is accepted still fits. *)
Lemma appended_fits writer writer' s commands bytes :
  committed_fits writer → committed_fits writer' → Writer.header writer' = Writer.header writer →
  accounts_fit writer s → commands = wrap64 (Writer.committedCommandCount writer' - Writer.committedCommandCount writer) →
  bytes = wrap64 (Writer.committedByteCount writer' - Writer.committedByteCount writer) →
  commands ≤ Path.acceptedNotAppendedCommands s → bytes ≤ Path.acceptedNotAppendedBytes s →
  accounts_fit writer' (setAccounts (Path.acceptedNotAppendedCommands s - commands) (Path.acceptedNotAppendedBytes s - bytes) s).
Proof.
  intros (? & ? & ? & ?) (Hc' & Hb' & ? & ?) Eh (? & ? & ?) -> -> Hc Hb. unfold accounts_fit. simpl. rewrite Eh in *.
  unfold wrap64, wrap, UINT64_MAX in *.
  pose proof (Z.mod_pos_bound (Writer.committedCommandCount writer' - Writer.committedCommandCount writer) (2 ^ 64)).
  pose proof (Z.mod_pos_bound (Writer.committedByteCount writer' - Writer.committedByteCount writer) (2 ^ 64)).
  split; [lia|]. split; [lia|].
  assert (Hle : Writer.committedByteCount writer' - Writer.committedByteCount writer ≤
      (Writer.committedByteCount writer' - Writer.committedByteCount writer) mod 2 ^ 64).
  { destruct (Z.le_gt_cases 0 (Writer.committedByteCount writer' - Writer.committedByteCount writer)).
    - rewrite Z.mod_small by lia. lia.
    - lia. }
  lia.
Qed.

(** ** The gate is closed *)
Definition closed c : ExchangeRunController Q :=
  match RunState.admissionIndex (Control.run_ c) with
  | Some index => setRun (setRunIndex (setAdmissionOpen false index) (Control.run_ c)) c
  | None => c
  end.

Lemma returns_closeAdmission {A} (post : outcome A → ExchangeRunController Q → W → Prop) (k : unit → ctl W Q A) c w :
  returns (k tt) (closed c) w post → returns (closeAdmission ≫= k) c w post.
Proof. intros Hk. by apply returns_modifyC. Qed.

Lemma closed_state c : Control.state_ (closed c) = Control.state_ c.
Proof. unfold closed. by destruct (RunState.admissionIndex _). Qed.
Lemma closed_catalog c : Control.canonicalCatalogPath_ (closed c) = Control.canonicalCatalogPath_ c.
Proof. unfold closed. by destruct (RunState.admissionIndex _). Qed.
Lemma closed_owner c : RunState.journalWriter (Control.run_ (closed c)) = RunState.journalWriter (Control.run_ c).
Proof. unfold closed. by destruct (RunState.admissionIndex _). Qed.
Lemma closed_writer c : ownedWriter (closed c) = ownedWriter c.
Proof. unfold ownedWriter. by rewrite closed_owner. Qed.
Lemma closed_path c : Control.commandProcessing_ (closed c) = Control.commandProcessing_ c.
Proof. unfold closed. by destruct (RunState.admissionIndex _). Qed.
Lemma closed_status c : pathStatus (closed c) = pathStatus c.
Proof. unfold pathStatus. by rewrite closed_path. Qed.
Lemma closed_pending c : transitionPending (closed c) = transitionPending c.
Proof. unfold transitionPending. by rewrite closed_status. Qed.
Lemma closed_gate c : admissionIsOpen (closed c) = false.
Proof. unfold closed, admissionIsOpen. destruct (RunState.admissionIndex (Control.run_ c)) eqn:E; [done|by rewrite E]. Qed.

Lemma closed_same c : same_run c (closed c).
Proof.
  split; [apply closed_state|apply closed_catalog|apply closed_writer|by rewrite closed_gate|by rewrite closed_path|].
  by rewrite closed_pending.
Qed.

Lemma closed_consistent c w : consistent p c w → consistent p (closed c) w.
Proof. intros Hc. by eapply consistent_same, closed_same. Qed.
Lemma closed_sound c w : in_agreement p c w → in_agreement p (closed c) w.
Proof.
  intros [Hc Hf]. split; [by apply closed_consistent|].
  eapply fitting_eq; [apply closed_state|apply closed_writer|apply closed_status|done].
Qed.

(** ** The cycle *)
(** The end of a cycle: what went on, or what was published. *)
Definition advanced c w (o : outcome bool) c' w' : Prop := regular o →
  (pendingSignals w' ≤ pendingSignals w)%nat ∧ (admissionIsOpen c' = true → admissionIsOpen c = true) ∧
  match o with
  | Ret progressed => in_agreement p c' w' ∧ (transitionPending c = false → progressed = true →
      Control.state_ c' = Lifecycle.READY ∧ transitionPending c' = false)
  | Throw _ => consistent p c' w' ∧ Control.state_ c' = Lifecycle.READY
  end.

(** Matching and handing over, and the capacity if it is used up. *)
Lemma finishCycle_advanced loopFuel fuel sequenced c w c0 w0 : in_agreement p c w → Control.state_ c = Lifecycle.READY →
  transitionPending c = transitionPending c0 → (admissionIsOpen c = true → admissionIsOpen c0 = true) →
  (pendingSignals w ≤ pendingSignals w0)%nat → enough_fuel (pendingSignals w) fuel →
  returns (matched ← matcherAdvance loopFuel;
           dispatched ← dispatcherAdvance;
           path ← thePath;
           if negb (Path.capacityTransitionPending (Path.status path)) || negb (processingDrained path) then
             mret (sequenced || matched || dispatched)
           else publishCapacityReached fuel) c w (advanced c0 w0).
Proof.
  intros [Hc Hfit] Hst Hpend Hopen Hs Hf.
  assert (Hkeep : ∀ c1 w1, cycles p c w c1 w1 ∧ ownedWriter c1 = ownedWriter c →
      in_agreement p c1 w1 ∧ Control.state_ c1 = Lifecycle.READY ∧ transitionPending c1 = transitionPending c0 ∧
      (admissionIsOpen c1 = true → admissionIsOpen c0 = true) ∧ (pendingSignals w1 ≤ pendingSignals w0)%nat).
  { intros c1 w1 [Hcy Hw1]. pose proof Hcy as [[Hs1 _] E1 _ _ O1 S1]. split_and!.
    - split; [by eapply consistent_cycles|by eapply fitting_eq].
    - by rewrite E1.
    - unfold transitionPending in *. by rewrite S1.
    - auto.
    - lia. }
  assert (Hthrow : ∀ e c1 w1, cycles p c w c1 w1 ∧ ownedWriter c1 = ownedWriter c → advanced c0 w0 (Throw e) c1 w1).
  { intros e c1 w1 Hcy _. destruct (Hkeep _ _ Hcy) as ([? _] & ? & _ & ? & ?). auto. }
  apply returns_bind. eapply returns_weaken; [apply cycles_matcherAdvance|]. intros [matched|e] c1 w1 Hcy1; [|by apply Hthrow].
  apply returns_bind. eapply returns_weaken; [apply cycles_dispatcherAdvance|]. intros o c2 w2 [Hcy2 Hw2].
  assert (Hcy : cycles p c w c2 w2 ∧ ownedWriter c2 = ownedWriter c).
  { destruct Hcy1 as [Hcy1 Hw1]. split; [by eapply cycles_trans|by rewrite Hw2]. }
  destruct o as [dispatched|e]; [|by apply Hthrow]. destruct (Hkeep _ _ Hcy) as (Hsound & Hst2 & Hpend2 & Hopen2 & Hs2).
  apply returns_thePath; [by intros ?|]. intros path Hpath. case_match eqn:E.
  - apply returns_ret. intros _. split; [done|]. split; [done|]. split; [done|]. intros Hpend0 _. split; [done|congruence].
  - apply orb_false_iff in E as [Ep%negb_false_iff _].
    assert (Hp2 : transitionPending c2 = true) by (unfold transitionPending, pathStatus; by rewrite Hpath).
    assert (Hgate : admissionIsOpen c2 = false).
    { destruct (admissionIsOpen c2) eqn:Eg; [|done]. apply (co_open _ _ _ (proj1 Hsound)) in Eg as [_ ?]. congruence. }
    eapply returns_weaken; [apply publishCapacityReached_sound; [apply Hsound|done|done|]|].
    { destruct Hcy as [[[? _] _ _ _ _ _] _]. by eapply enough_less. }
    intros [progressed|e] c3 w3 Hk Hr; simpl in Hk, Hr; [|congruence]. destruct Hk as [[Hsound3 Hs3] Hgate3].
    split; [lia|]. split; [by rewrite Hgate3|]. split; [done|]. congruence.
Qed.

Lemma advanceCycle_advanced loopFuel fuel c w writer s : in_agreement p c w → Control.state_ c = Lifecycle.READY →
  ownedWriter c = Some writer → pathStatus c = Some s → enough_fuel (pendingSignals w) fuel →
  returns (advanceCycle loopFuel fuel (Writer.committedCommandCount writer) (Writer.committedByteCount writer)) c w
    (advanced c w).
Proof.
  intros [Hc Hfit] Hst Hwr Hs Hf. destruct (fitting_ready _ _ Hfit Hst Hwr) as [Hw Hacc].
  unfold advanceCycle. apply returns_bind. eapply returns_weaken; [apply cycles_sequencerAdvance|].
  intros o1 c1 w1 Hcy1. pose proof Hcy1 as [[Hs1 _] E1 _ Wr1 O1 S1]. rewrite Hwr in Wr1.
  pose proof (consistent_cycles _ _ _ _ _ Hc Hcy1) as Hc1. rewrite Hst in E1.
  destruct o1 as [sequenced|e]; [|by intros _; simpl].
  destruct (ownedWriter c1) as [writer1|] eqn:Hwr1; [|done]. destruct Wr1 as [Eh Hadv].
  apply returns_bind. eapply returns_weaken; [by apply accountJournalProgress_same|]. intros o2 c2 w2 [Ho2 Hacc2].
  assert (Hafter : regular o2 → w2 = w1 ∧ consistent p c2 w1 ∧ Control.state_ c2 = Lifecycle.READY ∧
      (admissionIsOpen c2 = true → admissionIsOpen c = true) ∧ transitionPending c2 = transitionPending c).
  { intros Hr. destruct (Hacc2 Hr) as (-> & Hsame & Hgate & Hpend & _). split; [done|].
    split; [by eapply consistent_same|]. split; [by rewrite (sr_state _ _ Hsame)|]. split; [rewrite Hgate; auto|].
    rewrite Hpend. unfold transitionPending. by rewrite S1. }
  destruct o2 as [accounted|e]; [|intros Hr; simpl in *; congruence].
  destruct (Hafter I) as (-> & Hc2 & Hst2 & Hopen2 & Hpend2). destruct accounted; cbn [negb]; [|by apply returns_throwC].
  destruct (Hacc2 I) as (_ & Hsame & _ & _ & How & Hap).
  assert (Hsound2 : in_agreement p c2 w1).
  { split; [done|]. destruct (Hap eq_refl writer1 s) as (a & b & Ea & Eb & ? & ? & Hs2); [done|by rewrite S1|].
    eapply ready_fitting; [done|by unfold ownedWriter in *; rewrite How|by apply Hadv|].
    intros s2. rewrite Hs2. intros [= <-]. by eapply appended_fits; eauto. }
  apply returns_thePath; [by intros ?|]. intros path Hpath. case_bool_decide as Hfail.
  - apply returns_closeAdmission, returns_bind. eapply returns_weaken.
    { apply publishFailStopped_sound; [by apply closed_consistent|by rewrite closed_state|apply closed_gate|by eapply enough_less]. }
    intros [[]|e] c3 w3 Hk; simpl in Hk; [|intros Hr; simpl in Hr; congruence]. destruct Hk as [[Hsound3 Hs3] Hgate3].
    apply returns_ret. intros _. split; [lia|]. split; [by rewrite Hgate3|]. by split.
  - apply finishCycle_advanced; [done|done|done|done|done|by eapply enough_less].
Qed.

(** ** Advancing *)
(** What is returned agrees with the catalog; a pending transition is not started. *)
Definition advanced_sound c w (o : outcome bool) c' w' : Prop := regular o →
  in_agreement p c' w' ∧ (pendingSignals w' ≤ pendingSignals w)%nat ∧ (admissionIsOpen c' = true → admissionIsOpen c = true) ∧
  (o = Ret true → transitionPending c = false → Control.state_ c' = Lifecycle.READY ∧ transitionPending c' = false).

Lemma advanceCommandProcessingV1_sound loopFuel fuel c w : in_agreement p c w → enough_fuel (pendingSignals w) fuel →
  returns (advanceCommandProcessingV1 loopFuel fuel) c w (advanced_sound c w).
Proof.
  intros Hsound Hf. unfold advanceCommandProcessingV1. walk. destruct (Control.commandProcessing_ c) as [path|] eqn:Hpath.
  2: { walk. intros _. by split_and!. }
  case_bool_decide as Hst; [walk; intros _; by split_and!|]. walk.
  apply returns_tryC. eapply returns_weaken.
  { eapply advanceCycle_advanced; [done|done|by apply ownedWriter_of|unfold pathStatus; by rewrite Hpath|done]. }
  intros [progressed|e] c1 w1 Hadv.
  { intros _. destruct (Hadv I) as (? & ? & ? & Hp). split; [done|]. split; [done|]. split; [done|]. intros [= ->] ?. auto. }
  destruct (catchable e) eqn:Ee; [|intros Hr; simpl in Hr; congruence]. destruct (Hadv Ee) as (Hs1 & Hopen1 & Hc1 & Hst1).
  apply returns_bind. eapply returns_weaken; [by apply accountJournalProgress_same|].
  intros [b|e2] c2 w2 [He2 Hacc]; [|intros Hr; simpl in *; congruence]. destruct (Hacc I) as (-> & Hsame & Hgate & _).
  apply returns_updateStatus. intros c3 Ec3. apply returns_closeAdmission.
  assert (Hsame3 : same_run c2 c3) by (rewrite Ec3; by apply updateStatus_same).
  assert (Hst3 : Control.state_ c3 = Lifecycle.READY) by (by rewrite (sr_state _ _ Hsame3), (sr_state _ _ Hsame)).
  apply returns_bind. eapply returns_weaken.
  { apply publishFailStopped_sound; [|by rewrite closed_state|apply closed_gate|by eapply enough_less].
    apply closed_consistent. eapply consistent_same; [|done]. by eapply consistent_same. }
  intros [[]|e3] c4 w4 Hk; simpl in Hk; [|intros Hr; simpl in Hr; congruence]. destruct Hk as [[Hsound4 Hs4] Hgate4].
  apply returns_ret. intros _. split; [done|]. split; [lia|]. split; [by rewrite Hgate4|done].
Qed.

(** ** Pausing *)
Lemma drainLoop_sound loopFuel fuel rounds : ∀ c w, in_agreement p c w → Control.state_ c = Lifecycle.READY →
  transitionPending c = false → admissionIsOpen c = false → enough_fuel (pendingSignals w) fuel →
  returns (drainLoop rounds loopFuel fuel) c w (λ o c' w', regular o →
    in_agreement p c' w' ∧ (pendingSignals w' ≤ pendingSignals w)%nat ∧ o ≠ Ret (Some Pause.PAUSED) ∧
    (o = Ret None → Control.state_ c' = Lifecycle.READY ∧ transitionPending c' = false ∧ admissionIsOpen c' = false ∧
       ∃ path, Control.commandProcessing_ c' = Some path ∧ processingDrained path = true ∧ resultHandoffsDrained path = true)).
Proof.
  induction rounds as [|rounds IH]; intros c w Hsound Hst Hpend Hgate Hf; [by apply returns_throwC|]. cbn [drainLoop].
  apply returns_thePath; [by intros ?|]. intros path Hpath. destruct (processingDrained path) eqn:Ed.
  { apply returns_ret. intros _. split; [done|]. split; [done|]. destruct (resultHandoffsDrained path) eqn:Eh; [|done].
    split; [done|]. intros _. split_and!; [done|done|done|by exists path]. }
  apply returns_bind. eapply returns_weaken; [by apply advanceCommandProcessingV1_sound|].
  intros [progressed|e] c1 w1 Hadv; [|intros Hr; destruct (Hadv Hr) as (? & ? & _); by split_and!].
  destruct (Hadv I) as (Hsound1 & Hs1 & Hopen1 & Hp1).
  assert (Hgate1 : admissionIsOpen c1 = false) by (destruct (admissionIsOpen c1); [by rewrite Hopen1 in Hgate|done]).
  destruct progressed.
  - destruct Hp1 as [Hst1 Hpend1]; [done|done|]. eapply returns_weaken; [apply IH; try done; by eapply enough_less|].
    intros o c2 w2 Hr2 Hr. destruct (Hr2 Hr) as (? & ? & ?). split; [done|]. split; [lia|done].
  - apply returns_thePath; [by intros ?|]. intros path1 Hpath1. walk.
    repeat (case_match; [apply returns_ret; intros _; by split_and!|]). walk. intros _. split; [|by split].
    apply unavailable_sound; [done|apply Hsound1|done|apply Hsound1].
Qed.

(** A paused run: its catalog says so, and nothing is left in its path. *)
Definition paused_run c w : Prop :=
  Control.state_ c = Lifecycle.PAUSED ∧ (∀ writer, ownedWriter c = Some writer → selects (files w) p (runOf writer) [Disposition.PAUSED]) ∧
  ∃ path, Control.commandProcessing_ c = Some path ∧ processingDrained path = true ∧ resultHandoffsDrained path = true.

Lemma publishPaused_sound fuel c w path : in_agreement p c w → Control.state_ c = Lifecycle.READY →
  transitionPending c = false → admissionIsOpen c = false → enough_fuel (pendingSignals w) fuel →
  Control.commandProcessing_ c = Some path → processingDrained path = true → resultHandoffsDrained path = true →
  returns (publishPaused fuel) c w (λ o c' w', keeps_sound w o c' w' ∧
    ∀ result, o = Ret result → Pause.outcome result = Pause.PAUSED → paused_run c' w').
Proof.
  intros [Hc Hfit] Hst Hpend Hgate Hf Hpath Hd Hh. pose proof Hc as [Hg Ho Hw Hp Hq].
  destruct (Hw [Disposition.OPEN]) as (Hcat & writer & Hwr & Hsel); [by rewrite Hst|].
  destruct (fitting_ready _ _ Hfit Hst Hwr) as [Hcf Hacc].
  unfold publishPaused. walk. rewrite Hcat. apply returns_liftC. intros [load s] w1 E.
  apply load_inv in E as ([Hs1 Hu1] & Hk1 & Hrep); [|done]. destruct (Hu1 Hg) as [Hg1 _].
  assert (Hfin : ∀ out w2 repl, guarded p (files w2) → (pendingSignals w2 ≤ pendingSignals w)%nat → out ≠ Pause.PAUSED →
      returns (modifyC (setState Lifecycle.UNAVAILABLE) ;; mret (Pause.mkPause out (Some load) repl)) c w2
        (λ o c' w', keeps_sound w o c' w' ∧ ∀ result, o = Ret result → Pause.outcome result = Pause.PAUSED → paused_run c' w')).
  { intros out w2 repl Hg2 Hs2 Hout. walk. split; [|by intros result [= <-]]. intros _. split; [|done].
    by apply unavailable_sound. }
  case_bool_decide as Hl; [by apply Hfin|]. destruct (loaded_live _ _ _ _ Hrep Hl) as [_ Hv].
  apply returns_theWriter; [by split|]. intros owned Hown. own.
  case_bool_decide as Hid; [by apply Hfin|]. case_bool_decide; [by apply Hfin|]. case_bool_decide; [by apply Hfin|].
  apply returns_liftC. intros result w2 E.
  apply publish_inv in E as (Hs2 & Hg2 & Hsel2); [|by eapply enough_less|done|by intros v|done].
  case_bool_decide as Hcom; [apply Hfin; [done|lia|done]|]. walk. specialize (Hsel2 Hcom _ Hid). split.
  - intros _. split; [|lia]. split; [split|].
    + done.
    + unfold admissionIsOpen in *. simpl. by rewrite Hgate.
    + intros ds [= <-]. split; [done|]. exists (owned_writer owned). split; [by apply ownedWriter_of|].
      eapply selects_mono; [|exact Hsel2]. set_solver.
    + done.
    + done.
    + intros writer' Hwr'. unfold ownedWriter in Hwr'. simpl in Hwr'. rewrite Hown in Hwr'. injection Hwr' as <-. simpl.
      split; [|by right; apply Hacc]. destruct Hcf as (? & ? & ? & ?). unfold writer_typed. lia.
  - intros _ _ _. split; [done|]. split; [|by exists path]. intros writer' Hwr'. unfold ownedWriter in Hwr'. simpl in Hwr'.
    rewrite Hown in Hwr'. by injection Hwr' as <-.
Qed.

Lemma pauseRunV1_sound rounds loopFuel fuel c w : in_agreement p c w → enough_fuel (pendingSignals w) fuel →
  returns (pauseRunV1 rounds loopFuel fuel) c w (λ o c' w', keeps_sound w o c' w' ∧
    ∀ result, o = Ret result → Pause.outcome result = Pause.PAUSED → paused_run c' w').
Proof.
  intros Hsound Hf. unfold pauseRunV1. walk.
  assert (Hsame : ∀ out, out ≠ Pause.PAUSED → keeps_sound w (Ret (pauseResult out)) c w ∧
     ∀ result, Ret (pauseResult out) = Ret result → Pause.outcome result = Pause.PAUSED → paused_run c w).
  { intros out Hout. split; [intros _; by split|]. by intros result [= <-]. }
  case_bool_decide as Hst; [by walk; apply Hsame|].
  destruct (Control.commandProcessing_ c) as [path|] eqn:Hpath; [|by walk; apply Hsame].
  destruct (Path.capacityTransitionPending (Path.status path)) eqn:Hpend; [by walk; apply Hsame|].
  assert (Hpend' : transitionPending c = false) by (unfold transitionPending, pathStatus; by rewrite Hpath).
  apply returns_closeAdmission, returns_bind. eapply returns_weaken.
  { apply drainLoop_sound; [by apply closed_sound|by rewrite closed_state|by rewrite closed_pending|apply closed_gate|done]. }
  intros [[out|]|e] c1 w1 Hd; simpl.
  - destruct (Hd I) as (Hs1 & Hsig & Hne & _). apply returns_ret. split; [intros _; by split|].
    intros result [= <-] Hout. simpl in Hout. by subst.
  - destruct (Hd I) as (Hs1 & Hsig & _ & Hnone). destruct (Hnone eq_refl) as (Hst1 & Hpend1 & Hgate1 & path1 & Hpath1 & Hd1 & Hh1).
    eapply returns_weaken; [eapply publishPaused_sound; try done; by eapply enough_less|].
    intros o c2 w2 [Hk2 Hp2]. split; [|done]. intros Hr. destruct (Hk2 Hr). split; [done|lia].
  - split; [|done]. intros Hr. destruct (Hd Hr) as (? & ? & _). by split.
Qed.
End cycle.
