(* ===== verification/ControllerOperations.v ===== *)
(** * Every operation keeps the controller sound

    Starting, resuming, installing, submitting, stopping, recovering and looking up. *)
From S2P Require Import Prelude Domain Bytes JournalCodec RunHeaderCodec RunHeaderTheorems RunCatalogCodec.
From S2P Require Import Posix Paths FileSystem CatalogStorage CatalogRun CatalogTheorems WorkerFrames.
From S2P Require Import WorkerFrames JournalReader JournalFile JournalWriter JournalStorage RunIdReservation NewRun NewRunTheorems.
From S2P Require Import Matching Projection Queues Admission Sequencer Bus EngineWorker ResultDispatcher.
From S2P Require Import Controller ControllerLifecycle ControllerProcessing ControllerInv ControllerCycle.

Section operations.
Context {W : Type} `{FileSystemLaws W} {Q : Type} `{NewSharedQueue sequenceMessage Q, SharedQueue sequenceMessage Q} (p : path).
Implicit Types (c : ExchangeRunController Q) (w : W).
Hypothesis catalog_outside : outside p.

(** The requested path is the catalog's, however it is written. *)
Definition resolves (q : path) : Prop :=
  lexically_normal p = p ∧ ∀ w r w', fsAbsolute q w = (Some r, w') → r = p.

Lemma absolute_inv q w r w' : resolves q → call (fsAbsolute q) w = (Ok r, w') → spares p w w' ∧ (r = None ∨ r = Some p).
Proof.
  intros [_ Hq] E. unfold call in E. destruct (fsAbsolute q w) as [r' w1] eqn:Ea. injection E as -> ->.
  split; [by eapply spares_fsAbsolute|]. destruct r as [x|]; [right|by left]. by rewrite (Hq _ _ _ Ea).
Qed.

Lemma keeps_refl {A} (o : outcome A) c w : in_agreement p c w → keeps_sound p w o c w.
Proof. by intros Hs _. Qed.
Lemma keeps_spares {A} (o : outcome A) c w w' : in_agreement p c w → spares p w w' → keeps_sound p w o c w'.
Proof. intros Hs Hsp _. split; [by eapply sound_spares|apply Hsp]. Qed.

(** A run in service. *)
Lemma sound_ready c w writer : Control.state_ c = Lifecycle.READY → Control.canonicalCatalogPath_ c = p →
  ownedWriter c = Some writer → selects (files w) p (runOf writer) [Disposition.OPEN] → guarded p (files w) →
  transitionPending c = false → committed_fits writer → (∀ s, pathStatus c = Some s → accounts_fit writer s) → in_agreement p c w.
Proof.
  intros Hst Hcat Hwr Hsel Hg Hpend Hcf Hacc. split; [|by eapply ready_fitting].
  split; [done|done| |by rewrite Hwr|by rewrite Hst]. rewrite Hst. intros ds [= <-]. split; [done|]. by exists writer.
Qed.

(** ** Resuming *)
Lemma resumeRunV1_sound fuel c w : in_agreement p c w → enough_fuel (pendingSignals w) fuel →
  returns (resumeRunV1 fuel) c w (keeps_sound p w).
Proof.
  intros Hsound Hf. pose proof Hsound as [[Hg Ho Hw Hp Hq] Hfit]. unfold resumeRunV1. walk.
  case_bool_decide as Hst; [walk; by apply keeps_refl|].
  destruct (Hw [Disposition.PAUSED; Disposition.OPEN]) as (Hcat & writer & Hwr & Hsel); [by rewrite Hst|]. rewrite Hcat.
  apply returns_liftC. intros [load s] w1 E. apply load_inv in E as (Hsp1 & Hk1 & Hrep); [|done].
  assert (Hfin : ∀ x : RunResumeResult, returns (mret x) c w1 (keeps_sound p w)) by (intros x; walk; by apply keeps_spares).
  cbv zeta. case_bool_decide as Hl; [apply Hfin|]. destruct (loaded_live _ _ _ _ Hrep Hl) as [Hlive Hv].
  apply returns_theWriter; [by intros ?|]. intros owned Hown. own.
  case_bool_decide as Hid; [apply Hfin|]. case_bool_decide as Hd; [apply Hfin|].
  branch Ecap; [apply Hfin|]. apply orb_false_iff in Ecap as [Hcc%bool_decide_eq_false Hcb%bool_decide_eq_false].
  case_bool_decide as Hgen; [apply Hfin|]. apply returns_liftC. intros result w2 E.
  pose proof Hsp1 as [Hs1 Hu1]. destruct (Hu1 Hg) as [Hg1 _].
  assert (Hty : typed_catalog (withDisposition Disposition.OPEN s)) by (by apply withDisposition_typed; [|intros v]).
  apply replace_inv in E as (Hs2 & Hg2 & Hmay & Hcom); [|by eapply enough_less|done|done].
  pose proof (selects_kept _ _ _ _ _ Hsel Hk1) as Hsel1.
  case_bool_decide as Hc.
  - walk. intros _. split; [|lia]. split; [|done]. split; [done|done| |done|done]. rewrite Hst. intros ds [= <-]. split; [done|].
    exists (owned_writer owned). split; [by apply ownedWriter_of|]. destruct Hmay as [Hk|[Hv2 [Hm1 Hm2]]]; [by eapply selects_kept|].
    assert (Hn : names (runOf (owned_writer owned)) [Disposition.PAUSED; Disposition.OPEN] (Some (catalogRecord (withDisposition Disposition.OPEN s)))).
    { exists (withDisposition Disposition.OPEN s). split_and!; [done|done|exact Hid|simpl; set_solver]. }
    destruct Hsel1 as [Hl1 Hsv1]. split; [by destruct Hm1 as [->| ->]|]. intros contents [?| ->]%Hm2; auto.
  - destruct (Hcom Hc) as [Hv2 Hset2].
    assert (Hfits : committed_fits (owned_writer owned) ∧ ∀ st, pathStatus c = Some st → accounts_fit (owned_writer owned) st).
    { pose proof (Hfit _ (ownedWriter_of _ _ Hown)) as Hfo. rewrite Hst in Hfo. destruct Hfo as [(? & ? & ? & ?) Hacc].
      split; [unfold committed_fits; lia|]. intros st Hs. destruct (Hacc st Hs) as [[E1 E2]|?]; [|done].
      unfold accounts_fit. rewrite E1, E2. unfold UINT64_MAX. lia. }
    destruct (RunState.admissionIndex (Control.run_ c)) as [index|] eqn:Hi.
    2: { apply returns_bind. unfold openAdmission. apply returns_theIndex; [by intros ?|]. intros index Hi'. by rewrite Hi in Hi'. }
    eapply returns_openAdmission; [done|]. walk. intros _. split; [|lia].
    apply (sound_ready _ _ (owned_writer owned)); [done|done|by apply ownedWriter_of| |done| |apply Hfits|apply Hfits].
    + by eapply settled_selects.
    + by apply Hq.
Qed.

(** ** Installing *)
Lemma newProcessingPath_status run a b e f g path : newProcessingPath (Q:=Q) run a b e f g = Ret path →
  Path.status path = newStatus.
Proof.
  unfold newProcessingPath. destruct (RunState.journalWriter run), (RunState.matchingState run), (RunState.admissionIndex run); try done.
  intros E. repeat match type of E with (?m ≫= _) = Ret _ => destruct m; [simpl in E|done] end. by injection E as <-.
Qed.

Lemma installCommandProcessingV1_sound a b e f g c w : in_agreement p c w →
  returns (installCommandProcessingV1 a b e f g) c w (keeps_sound p w).
Proof.
  intros Hsound. unfold installCommandProcessingV1. walk.
  destruct (Control.commandProcessing_ c) eqn:Hpath; [walk; by apply keeps_refl|].
  destruct (RunState.journalWriter (Control.run_ c)) as [owned|] eqn:Hown; [|walk; by apply keeps_refl].
  branch Est; [walk; by apply keeps_refl|]. apply returns_bind, returns_outcomeC.
  destruct (newProcessingPath _ _ _ _ _ _) as [path|ex] eqn:En; [|by apply keeps_refl]. apply newProcessingPath_status in En.
  simpl. walk. intros _. split; [|done]. destruct Hsound as [[Hg Ho Hw Hp Hq] Hfit].
  assert (Hpend : transitionPending (setPath (Some path) c) = false) by (unfold transitionPending, pathStatus; simpl; by rewrite En).
  split; [split|].
  - done.
  - intros Hopen. split; [|done]. by apply Ho.
  - done.
  - intros _. unfold ownedWriter. simpl. by rewrite Hown.
  - done.
  - intros writer Hwr. pose proof (Hfit writer Hwr) as Hfw. simpl. unfold pathStatus. simpl. rewrite En.
    destruct (Control.state_ c); try done.
    + split; [apply Hfw|]. intros s [= <-]. destruct Hfw as [(? & ? & ? & ?) _]. unfold accounts_fit. simpl. unfold UINT64_MAX. lia.
    + split; [apply Hfw|]. intros s [= <-]. by left.
Qed.

(** ** Submitting *)
Lemma reserveImpl_open command available (state : CommandAdmissionIndex * option Q) r state' :
  reserveImpl command available state = (r, state') →
  admissionOpen_ state'.1 = admissionOpen_ state.1 ∧
  ∀ decision, r = Ret decision → status decision = AdmissionStatus.FIRST_SUBMISSION → admissionOpen_ state.1 = true ∧ available = true.
Proof.
  unfold reserveImpl, mbind, M_bind, liftM. destruct (keyFrom command) as [key|ex]; [|by intros [= <- <-]].
  destruct (businessCommandFrom command) as [business|ex]; [|by intros [= <- <-]].
  unfold stepM. destruct state as [index queue]. intros [= <- <-]. unfold reserveLocked. simpl.
  destruct (records_ index !! key) as [existing|].
  { repeat case_bool_decide; simpl; split; try done; intros ? [= <-]; done. }
  destruct available; simpl; [|split; [done|by intros ? [= <-]]]. destruct (admissionOpen_ index) eqn:Eo; simpl.
  2: { split; [done|by intros ? [= <-]]. }
  case_bool_decide; simpl; [split; [done|by intros ? [= <-]]|]. destruct queue as [queue|]; simpl; [|by split].
  destruct (sharedPush command queue) as [[] queue']; simpl; split; try done; by intros ? [= <-].
Qed.

(** Only the queue and the records differ; a first submission found the gate open. *)
Definition staged (available : bool) c c' (o : outcome AdmissionDecision) : Prop :=
  Control.state_ c' = Control.state_ c ∧ Control.canonicalCatalogPath_ c' = Control.canonicalCatalogPath_ c ∧
  RunState.journalWriter (Control.run_ c') = RunState.journalWriter (Control.run_ c) ∧ admissionIsOpen c' = admissionIsOpen c ∧
  pathStatus c' = pathStatus c ∧
  ∀ decision, o = Ret decision → status decision = AdmissionStatus.FIRST_SUBMISSION → admissionIsOpen c = true ∧ available = true.

Lemma stage_staged command available c w :
  returns (stage command available) c w (λ o c' w', regular o → w' = w ∧ staged available c c' o).
Proof.
  unfold stage. apply returns_thePath; [by intros ?|]. intros path Hpath. apply returns_theIndex; [by intros ?|]. intros index Hi.
  destruct (reserveAndStageForRunCapacity _ _ _) as [o [index' ingress']] eqn:E.
  unfold reserveAndStageForRunCapacity in E. destruct (reserveImpl _ _ _) as [o1 [index1 queue1]] eqn:Er.
  injection E as <- <- _. apply reserveImpl_open in Er as [Ho Hfirst]. simpl in Ho, Hfirst.
  apply returns_modifyC, returns_modifyC, returns_outcomeC. intros _. split; [done|].
  assert (Hgate : admissionIsOpen c = admissionOpen_ index) by (unfold admissionIsOpen; by rewrite Hi).
  rewrite Hi. unfold staged. rewrite Hgate. split; [done|]. split; [done|]. split; [done|]. split; [done|].
  split; [|done]. unfold pathStatus. simpl. by rewrite Hpath.
Qed.

Lemma staged_sound available c c' o w : staged available c c' o → in_agreement p c w → in_agreement p c' w.
Proof.
  intros (E1 & E2 & E3 & E4 & E5 & _) [Hc Hf].
  assert (Ew : ownedWriter c' = ownedWriter c) by (unfold ownedWriter; by rewrite E3).
  assert (Ep : transitionPending c' = transitionPending c) by (unfold transitionPending; by rewrite E5).
  split; [|by eapply fitting_eq]. eapply consistent_same; [done|].
  split; [done|done|done|by rewrite E4, Ep| |by rewrite Ep]. by rewrite path_status, E5, <-path_status.
Qed.

(** A first submission is of the run in service; a frame it will have is accounted
    within the limits, and the gate stays open while something is left. *)
Definition accepted_into (exchangeRunId : ExchangeRunId) (command : sequenceMessage) c w c' : Prop :=
  Control.state_ c = Lifecycle.READY ∧ ∃ writer s s', ownedWriter c = Some writer ∧ exchangeRunId = runOf writer ∧
    ownedWriter c' = Some writer ∧ selects (files w) p exchangeRunId [Disposition.OPEN] ∧
    pathStatus c = Some s ∧ pathStatus c' = Some s' ∧
    ∀ size, prospectiveFrameSizeOf command writer = Ok (Some size) →
      let commands := Writer.committedCommandCount writer + Path.acceptedNotAppendedCommands s' in
      let bytes := Writer.committedByteCount writer + Path.acceptedNotAppendedBytes s' in
      Path.acceptedNotAppendedCommands s' = Path.acceptedNotAppendedCommands s + 1 ∧
      Path.acceptedNotAppendedBytes s' = Path.acceptedNotAppendedBytes s + Z.of_nat size ∧
      commands ≤ Header.maxRunCommands (Writer.header writer) ∧ bytes ≤ Header.maxRunJournalBytes (Writer.header writer) ∧
      (admissionIsOpen c' = true ↔
         commands < Header.maxRunCommands (Writer.header writer) ∧ bytes < Header.maxRunJournalBytes (Writer.header writer)).

(** What is left of the run, exactly. *)
Lemma capacityLeft_spec writer s size : committed_fits writer → accounts_fit writer s →
  let commands := Writer.committedCommandCount writer + Path.acceptedNotAppendedCommands s + 1 in
  let bytes := Writer.committedByteCount writer + Path.acceptedNotAppendedBytes s + Z.of_nat size in
  (capacityLeft writer s (Some size)).1 = true →
    commands ≤ Header.maxRunCommands (Writer.header writer) ∧ bytes ≤ Header.maxRunJournalBytes (Writer.header writer) ∧
    ((capacityLeft writer s (Some size)).2 = true ↔
       commands = Header.maxRunCommands (Writer.header writer) ∨ bytes = Header.maxRunJournalBytes (Writer.header writer)).
Proof.
  intros (? & ? & ? & ?) (? & ? & ?) commands bytes. unfold capacityLeft. cbn [fst snd]. unfold UINT64_MAX in *.
  rewrite (wrap64_small (Header.maxRunCommands _ - _)) by (unfold is_u64, UINT64_MAX; lia).
  rewrite (wrap64_small (Header.maxRunJournalBytes _ - _)) by (unfold is_u64, UINT64_MAX; lia).
  rewrite (wrap64_small (_ - _ - _)) by (unfold is_u64, UINT64_MAX; lia).
  intros [[E1%bool_decide_eq_true E2%bool_decide_eq_true]%andb_true_iff E3%bool_decide_eq_true]%andb_true_iff.
  rewrite !bool_decide_eq_true_2 by done. cbn [andb].
  rewrite (wrap64_small (_ + _ + 1)) by (unfold is_u64, UINT64_MAX; lia).
  rewrite (wrap64_small (_ + _ + Z.of_nat _)) by (unfold is_u64, UINT64_MAX; lia).
  split; [lia|]. split; [lia|]. rewrite orb_true_iff, !bool_decide_eq_true. done.
Qed.

(** The transition begins. *)
Definition begun c : ExchangeRunController Q :=
  closed (setPath ((λ path, setStatus (setTransitionPending (Path.status path)) path) <$> Control.commandProcessing_ c) c).

Lemma returns_begin (post : outcome unit → ExchangeRunController Q → W → Prop) c w :
  post (Ret tt) (begun c) w → returns beginCapacityTransition c w post.
Proof. intros Hp. unfold beginCapacityTransition. apply returns_modifyC. by intros o c' w' [= <- <- <-]. Qed.

Lemma begun_status c : pathStatus (begun c) = setTransitionPending <$> pathStatus c.
Proof. unfold begun. rewrite closed_status. unfold pathStatus. simpl. by destruct (Control.commandProcessing_ c). Qed.
Lemma begun_writer c : ownedWriter (begun c) = ownedWriter c.
Proof. unfold begun. by rewrite closed_writer. Qed.

Lemma begun_sound c w : in_agreement p c w → Control.state_ c = Lifecycle.READY → in_agreement p (begun c) w.
Proof.
  intros [[Hg Ho Hw Hp Hq] Hfit] Hst.
  assert (Es : Control.state_ (begun c) = Control.state_ c) by (unfold begun; by rewrite closed_state).
  split; [split|].
  - done.
  - unfold begun. by rewrite closed_gate.
  - rewrite Es, begun_writer. unfold begun. by rewrite closed_catalog.
  - unfold begun. rewrite closed_path, closed_writer. simpl. rewrite fmap_is_Some. done.
  - by rewrite Es, Hst.
  - destruct (Hw [Disposition.OPEN]) as (_ & writer & Hwr & _); [by rewrite Hst|].
    destruct (fitting_ready _ _ Hfit Hst Hwr) as [Hcf Hacc]. apply (ready_fitting _ writer); [by rewrite Es|by rewrite begun_writer|done|].
    intros s. rewrite begun_status. destruct (pathStatus c) as [s0|] eqn:E0; [|done]. intros [= <-]. by apply (Hacc s0).
Qed.

(** The accounts of an accepted command. *)
Definition accountOf (frameSize : option nat) (s : Path.PathStatus) : Path.PathStatus :=
  setAccounts (wrap64 (Path.acceptedNotAppendedCommands s + 1))
    (match frameSize with
     | Some size => wrap64 (Path.acceptedNotAppendedBytes s + Z.of_nat size)
     | None => Path.acceptedNotAppendedBytes s
     end) s.
Definition accounted_for (frameSize : option nat) c : ExchangeRunController Q :=
  setPath ((λ path, setStatus (accountOf frameSize (Path.status path)) path) <$> Control.commandProcessing_ c) c.

Lemma accounted_for_sound frameSize c w writer s : in_agreement p c w → Control.state_ c = Lifecycle.READY →
  ownedWriter c = Some writer → pathStatus c = Some s →
  (capacityLeft writer s frameSize).1 = true → in_agreement p (accounted_for frameSize c) w.
Proof.
  intros [Hc Hfit] Hst Hwr Hs Hcap. destruct (fitting_ready _ _ Hfit Hst Hwr) as [Hcf Hacc]. specialize (Hacc s Hs).
  split.
  - eapply consistent_same; [done|]. by apply (updateStatus_same (accountOf frameSize)).
  - apply (ready_fitting _ writer); [done|done|done|]. intros s'. unfold pathStatus in *. simpl.
    destruct (Control.commandProcessing_ c) as [path|]; [|done]. simpl in *. injection Hs as ->. intros [= <-].
    destruct Hacc as (? & ? & ?). unfold accounts_fit. simpl.
    pose proof (Z.mod_pos_bound (Path.acceptedNotAppendedCommands s + 1) (2 ^ 64)).
    split; [unfold wrap64, wrap, UINT64_MAX; lia|]. destruct frameSize as [size|]; [|lia].
    destruct (capacityLeft_spec writer s size Hcf) as (_ & Hb & _); [by unfold accounts_fit|done|].
    destruct Hcf as (? & ? & ? & ?). rewrite wrap64_small by (unfold is_u64; lia). lia.
Qed.

(** The accounts and the gate after a first submission. *)
Lemma accepts_first exchangeRunId command frameSize exhausts c c1 w (path : CommandProcessingPath Q) owned :
  in_agreement p c w → Control.state_ c = Lifecycle.READY → RunState.journalWriter (Control.run_ c) = Some owned →
  exchangeRunId = Header.exchangeRunId (Writer.header (owned_writer owned)) →
  pathStatus c = Some (Path.status path) → prospectiveFrameSizeOf command (owned_writer owned) = Ok frameSize →
  capacityLeft (owned_writer owned) (Path.status path) frameSize = (true, exhausts) →
  ownedWriter c1 = Some (owned_writer owned) → pathStatus c1 = pathStatus c → admissionIsOpen c1 = true →
  accepted_into exchangeRunId command c w (if exhausts then begun (accounted_for frameSize c1) else accounted_for frameSize c1).
Proof.
  intros [Hc Hfit] Hst Hown Hid Hs Ef Ecap Hwr1 Ep1 Hopen. pose proof (ownedWriter_of _ _ Hown) as Hwr.
  destruct (co_owner _ _ _ Hc [Disposition.OPEN]) as (_ & writer & Hwr' & Hsel); [by rewrite Hst|].
  rewrite Hwr in Hwr'. injection Hwr' as <-. destruct (fitting_ready _ _ Hfit Hst Hwr) as [Hcf Hacc]. specialize (Hacc _ Hs).
  assert (Hs2 : pathStatus (accounted_for frameSize c1) = Some (accountOf frameSize (Path.status path))).
  { rewrite Hs in Ep1. unfold pathStatus in *. simpl. destruct (Control.commandProcessing_ c1); [|done]. simpl in *. by injection Ep1 as ->. }
  split; [done|]. exists (owned_writer owned), (Path.status path),
    (if exhausts then setTransitionPending (accountOf frameSize (Path.status path)) else accountOf frameSize (Path.status path)).
  split; [done|]. split; [done|]. split; [by destruct exhausts; rewrite ?begun_writer|]. split; [by rewrite Hid|]. split; [done|].
  split; [destruct exhausts; [by rewrite begun_status, Hs2|done]|]. intros size Esize. rewrite Ef in Esize. injection Esize as ->.
  destruct (capacityLeft_spec _ _ size Hcf Hacc) as (Hcb & Hbb & Hex); [by rewrite Ecap|]. rewrite Ecap in Hex. simpl in Hex.
  destruct Hcf as (? & ? & ? & ?), Hacc as (? & ? & ?).
  assert (Hcommands : Path.acceptedNotAppendedCommands (if exhausts then setTransitionPending (accountOf (Some size) (Path.status path))
            else accountOf (Some size) (Path.status path)) = Path.acceptedNotAppendedCommands (Path.status path) + 1).
  { destruct exhausts; simpl; rewrite wrap64_small by (unfold is_u64; lia); done. }
  assert (Hbytes : Path.acceptedNotAppendedBytes (if exhausts then setTransitionPending (accountOf (Some size) (Path.status path))
            else accountOf (Some size) (Path.status path)) = Path.acceptedNotAppendedBytes (Path.status path) + Z.of_nat size).
  { destruct exhausts; simpl; rewrite wrap64_small by (unfold is_u64; lia); done. }
  cbv zeta. rewrite Hcommands, Hbytes. split; [done|]. split; [done|]. split; [lia|]. split; [lia|].
  destruct exhausts.
  - assert (Hgate : admissionIsOpen (begun (accounted_for (Some size) c1)) = false) by apply closed_gate. rewrite Hgate.
    destruct Hex as [Hex _]. destruct (Hex eq_refl); split; [done|lia|done|lia].
  - split; [|done]. intros _. destruct Hex as [_ Hex]. split.
    + apply Z.le_neq. split; [lia|]. intros E. discriminate Hex. left. lia.
    + apply Z.le_neq. split; [lia|]. intros E. discriminate Hex. right. lia.
Qed.

Lemma submitCommandV1_sound exchangeRunId command c w : in_agreement p c w →
  returns (submitCommandV1 exchangeRunId command) c w (λ o c' w', keeps_sound p w o c' w' ∧
    ∀ decision, o = Ret decision → status decision = AdmissionStatus.FIRST_SUBMISSION → accepted_into exchangeRunId command c w c').
Proof.
  intros Hsound. unfold submitCommandV1. walk.
  assert (Hunavailable : ∀ decision, status decision ≠ AdmissionStatus.FIRST_SUBMISSION →
     keeps_sound p w (Ret decision) c w ∧ ∀ decision', Ret decision = Ret decision' →
       status decision' = AdmissionStatus.FIRST_SUBMISSION → accepted_into exchangeRunId command c w c).
  { intros decision Hd. split; [by apply keeps_refl|]. by intros ? [= <-]. }
  destruct (Control.commandProcessing_ c) as [path|] eqn:Hpath; [|by walk; apply Hunavailable].
  apply returns_theWriter; [by split|]. intros owned Hown. pose proof (ownedWriter_of _ _ Hown) as Hwr.
  assert (Hs : pathStatus c = Some (Path.status path)) by (unfold pathStatus; by rewrite Hpath).
  case_bool_decide as Hid; [by walk; apply Hunavailable|].
  assert (Hstage : ∀ available, Control.state_ c ≠ Lifecycle.READY ∨ available = false →
     returns (stage command available) c w (λ o c' w', keeps_sound p w o c' w' ∧
       ∀ decision, o = Ret decision → status decision = AdmissionStatus.FIRST_SUBMISSION → accepted_into exchangeRunId command c w c')).
  { intros available Hno. eapply returns_weaken; [apply stage_staged|]. intros o c' w' Hst. split.
    - intros Hr. destruct (Hst Hr) as [-> Hstaged]. split; [by eapply staged_sound|done].
    - intros decision -> Hfirst. destruct (Hst I) as [-> (_ & _ & _ & _ & _ & Hg)].
      destruct (Hg decision eq_refl Hfirst) as [Hopen Hav]. apply (co_open _ _ _ (proj1 Hsound)) in Hopen as [? _].
      destruct Hno; [done|congruence]. }
  branch Epend; [by apply Hstage; right|]. destruct (bool_decide_reflect (Control.state_ c ≠ Lifecycle.READY)) as [Hst|Hst]; [by apply Hstage; left|].
  apply dec_stable in Hst. apply orb_false_iff in Epend as [_ Epend]. rewrite bool_decide_eq_true_2 in Epend by done. simpl in Epend.
  cbv zeta. destruct (prospectiveFrameSizeOf command (owned_writer owned)) as [frameSize| |] eqn:Ef;
    [|by apply returns_throwC; split; [intros Hr|]..].
  destruct (capacityLeft _ _ _) as [available exhausts] eqn:Ecap. apply returns_bind.
  eapply returns_weaken; [apply stage_staged|]. intros [decision|e] c1 w1 Hstaged; simpl.
  2: { split; [|done]. intros Hr. destruct (Hstaged Hr) as [-> Hsg]. split; [by eapply staged_sound|done]. }
  destruct (Hstaged I) as [-> Hsg]. pose proof (staged_sound _ _ _ _ _ Hsg Hsound) as Hsound1.
  destruct Hsg as (Es1 & _ & Ew1 & Eg1 & Ep1 & Hfirst). rewrite Hst in Es1.
  assert (Hwr1 : ownedWriter c1 = Some (owned_writer owned)) by (unfold ownedWriter; by rewrite Ew1, Hown).
  apply returns_bind. case_bool_decide as Hf.
  - destruct (Hfirst decision eq_refl Hf) as [Hopen ->].
    pose proof (accounted_for_sound frameSize c1 w _ _ Hsound1 Es1 Hwr1 (eq_trans Ep1 Hs) ltac:(by rewrite Ecap)) as Hsound2.
    rewrite <-Eg1 in Hopen.
    pose proof (accepts_first exchangeRunId command frameSize exhausts c c1 w path owned) as Hacc.
    apply returns_modifyC. change (setPath _ c1) with (accounted_for frameSize c1).
    destruct exhausts; [apply returns_begin|apply returns_ret]; simpl; apply returns_ret.
    + split; [intros _; split; [by apply begun_sound|done]|]. intros ? _ _. by apply Hacc.
    + split; [intros _; by split|]. intros ? _ _. by apply Hacc.
  - case_bool_decide as Hrc; [apply returns_begin|apply returns_ret]; apply returns_ret.
    + split; [|by intros ? [= <-]]. intros _. split; [by apply begun_sound|done].
    + split; [|by intros ? [= <-]]. intros _. by split.
Qed.

(** ** Starting *)
Lemma returns_assignRun {A} (post : outcome A → ExchangeRunController Q → W → Prop) run (k : unit → ctl W Q A) c w :
  (∀ w', spares p w w' → returns (k tt) (setRun run c) w' post) → returns (assignRun run ≫= k) c w post.
Proof.
  intros Hk. apply returns_bind. unfold assignRun. walk. apply returns_liftC. intros [] w' E.
  apply (spares_destroyWriter p) in E. intros o c' w2 [= <- <- <-]. by apply Hk.
Qed.

(** Without a writer the controller is not in service. *)
Lemma unowned_out c w : in_agreement p c w → RunState.journalWriter (Control.run_ c) = None →
  dispositionsOf (Control.state_ c) = None ∧ Control.commandProcessing_ c = None.
Proof.
  intros [[_ _ Hw Hp _] _] Hn. assert (Hno : ownedWriter c = None) by (unfold ownedWriter; by rewrite Hn). split.
  - destruct (dispositionsOf _) as [ds|] eqn:E; [|done]. destruct (Hw _ eq_refl) as (_ & writer & Hwr & _). congruence.
  - destruct (Control.commandProcessing_ c); [|done]. destruct Hp as [writer Hwr]; [done|]. congruence.
Qed.

Lemma sound_unowned c w w' : in_agreement p c w → RunState.journalWriter (Control.run_ c) = None → guarded p (files w') →
  in_agreement p c w'.
Proof.
  intros Hsound Hn Hg. destruct (unowned_out _ _ Hsound Hn) as [Hd Hpath]. pose proof Hsound as [[_ Ho _ Hp Hq] Hfit].
  split; [|done]. split; [done|done|by rewrite Hd|done|done].
Qed.

Lemma committed_new header : valid_runHeader header →
  committed_fits (newWriter header (Z.of_nat (length (headerFrame header)))).
Proof.
  intros Hv. destruct (vrh_commands _ Hv) as [[? ?] _], (vrh_bytes _ Hv) as [[? ?] Hb].
  pose proof (headerFrame_length header). unfold committed_fits, newWriter.
  cbn [Writer.committedCommandCount Writer.committedByteCount Writer.header]. unfold UINT64_MAX in *. lia.
Qed.

Lemma startupNewRunV1_sound fuel q configuration c w : in_agreement p c w → resolves q → typed_configuration configuration →
  enough_fuel (pendingSignals w) fuel → returns (startupNewRunV1 fuel q configuration) c w (keeps_sound p w).
Proof.
  intros Hsound Hq Hty Hf. unfold startupNewRunV1. walk.
  destruct (RunState.journalWriter (Control.run_ c)) eqn:Hown; [walk; by apply keeps_refl|].
  apply returns_liftC. intros binding w1 E. apply absolute_inv in E as [Hsp1 Hb]; [|done].
  destruct Hb as [-> | ->]; [walk; by apply keeps_spares|].
  apply returns_liftC. intros [load s] w2 E. apply load_inv in E as (Hsp2 & _ & _); [|eapply enough_less; [done|apply Hsp1]].
  assert (Hsp : spares p w w2) by by etrans. branch Hbad; [walk; by apply keeps_spares|]. branch Hactive; [walk; by apply keeps_spares|].
  apply returns_liftC. intros [startup started] w3 E.
  destruct (startNewRunV1_run fuel p configuration emptyRun w2 Hty) as (result & output & w3' & Hrun & Hs3 & Hg3 & _ & Hres).
  { eapply enough_less; [done|apply Hsp]. }
  rewrite Hrun in E. injection E as -> -> ->. pose proof Hsp as [Hs Hu]. destruct (Hu (co_guarded _ _ _ (proj1 Hsound))) as [Hg2 _].
  specialize (Hg3 catalog_outside Hg2). destruct (bool_decide_reflect (StartRun.outcome startup ≠ StartRun.STARTED)) as [Hst|Hst].
  { walk. intros _. split; [by eapply sound_unowned|lia]. }
  rewrite bool_decide_eq_true_2 in Hres by (by apply dec_stable). destruct Hres as (id & fd & Hact & _ & ->).
  apply returns_assignRun. intros w4 Hsp4. apply returns_modifyC. eapply returns_openAdmission; [done|]. walk. intros _.
  pose proof Hsp4 as [Hs4 Hu4]. destruct (Hu4 Hg3) as [Hg4 Hk4]. split; [|lia].
  destruct Hact as ([Hvh _] & cat & Hvc & Hset & Ha & Hd & _). destruct (unowned_out _ _ Hsound Hown) as [_ Hpath].
  eapply sound_ready; [done|done|done| |done| |by apply committed_new|].
  - change (runOf _) with id. eapply settled_selects; [by eapply settled_kept|done|done|done].
  - unfold transitionPending, pathStatus. simpl. by rewrite Hpath.
  - unfold pathStatus. simpl. by rewrite Hpath.
Qed.

(** A run paused without a path. *)
Lemma sound_paused c w writer : Control.state_ c = Lifecycle.PAUSED → Control.canonicalCatalogPath_ c = p →
  ownedWriter c = Some writer → selects (files w) p (runOf writer) [Disposition.PAUSED] → guarded p (files w) →
  admissionIsOpen c = false → Control.commandProcessing_ c = None → writer_typed writer → in_agreement p c w.
Proof.
  intros Hst Hcat Hwr Hsel Hg Hgate Hpath Hty.
  assert (Hs : pathStatus c = None) by (unfold pathStatus; by rewrite Hpath).
  split; [split|].
  - done.
  - by rewrite Hgate.
  - rewrite Hst. intros ds [= <-]. split; [done|]. exists writer. split; [done|]. eapply selects_mono; [|done]. set_solver.
  - rewrite Hpath. by intros [].
  - intros _. unfold transitionPending. by rewrite Hs.
  - intros writer' Hwr'. rewrite Hst. rewrite Hwr in Hwr'. injection Hwr' as <-. split; [done|]. by rewrite Hs.
Qed.

(** The recovered run taken over and published as paused. *)
Lemma adopt_sound recovery recovered id w0 c w : recovers id (recovery, recovered) → Recovered.outcome recovery = Recovered.RECOVERED →
  selects (files w) p id [Disposition.PAUSED] → guarded p (files w) → (pendingSignals w ≤ pendingSignals w0)%nat →
  Control.commandProcessing_ c = None → ∀ {A} (x : A),
  returns (assignRun recovered ;; modifyC (setCatalogPath p) ;; modifyC (setState Lifecycle.PAUSED) ;; mret x) c w (keeps_sound p w0).
Proof.
  intros Hrec Ho Hsel Hg Hs Hpath A x. destruct (Hrec Ho) as (Hgate & owned & Hown & Hid & Hty). simpl in Hgate, Hown.
  apply returns_assignRun. intros w1 [Hs1 Hu]. destruct (Hu Hg) as [Hg1 Hk1]. walk. intros _. split; [|lia].
  apply (sound_paused _ _ (owned_writer owned)); try done.
  - unfold ownedWriter. simpl. by rewrite Hown.
  - unfold runOf. rewrite Hid. by eapply selects_kept.
Qed.

Lemma recover_inv fuel id w recovery recovered w' :
  recoverRunV1 fuel (deriveCanonicalRunJournalPathV1 p id) emptyRun (Some id) w = (Ok (recovery, recovered), w') →
  spares p w w' ∧ recovers id (recovery, recovered).
Proof.
  intros E. split; [by eapply spares_recoverRunV1|]. exact (delivers_recoverRunV1 _ _ _ _ _ _ _ E).
Qed.

(** Out of service, with nothing owned. *)
Lemma sound_empty c w : dispositionsOf (Control.state_ c) = None → Control.run_ c = emptyRun →
  Control.commandProcessing_ c = None → guarded p (files w) → in_agreement p c w.
Proof.
  intros Hd Hr Hpath Hg. eapply sound_unavailable; [done|done|done| |]; unfold admissionIsOpen; rewrite ?Hr, ?Hpath; [done|by intros []].
Qed.

Lemma keeps_empty {A} (o : outcome A) w0 c w : dispositionsOf (Control.state_ c) = None → Control.run_ c = emptyRun →
  Control.commandProcessing_ c = None → guarded p (files w) → (pendingSignals w ≤ pendingSignals w0)%nat →
  keeps_sound p w0 o c w.
Proof. intros Hd Hr Hpath Hg Hs _. split; [by apply sound_empty|done]. Qed.

Lemma startupExistingRunV1_sound fuel q c w : in_agreement p c w → resolves q → enough_fuel (pendingSignals w) fuel →
  returns (startupExistingRunV1 fuel q) c w (keeps_sound p w).
Proof.
  intros Hsound Hq Hf. unfold startupExistingRunV1. walk.
  destruct (RunState.journalWriter (Control.run_ c)) eqn:Hown; [walk; by apply keeps_refl|].
  destruct (unowned_out _ _ Hsound Hown) as [_ Hpath]. apply returns_modifyC, returns_assignRun. intros w1 Hsp1. set (c1 := setRun emptyRun _).
  apply returns_liftC. intros binding w2 E. apply absolute_inv in E as [Hsp2 Hb]; [|done].
  assert (Hg : ∀ w', spares p w w' → guarded p (files w')) by (intros w' [_ Hu]; by destruct (Hu (co_guarded _ _ _ (proj1 Hsound)))).
  assert (Hfin : ∀ w' x, spares p w w' → returns (mret x) c1 w' (keeps_sound (A:=ExistingRunStartupResult) p w)).
  { intros w' x Hsp. walk. apply keeps_empty; [done|done|done|by apply Hg|apply Hsp]. }
  assert (Hsp : spares p w w2) by by etrans. destruct Hb as [-> | ->]; [by apply Hfin|].
  apply returns_liftC. intros [load s] w3 E. apply load_inv in E as (Hsp3 & _ & Hrep); [|eapply enough_less; [done|apply Hsp]].
  assert (Hsp' : spares p w w3) by by etrans. cbv zeta. case_bool_decide as Hl; [by apply Hfin|].
  destruct (loaded_live _ _ _ _ Hrep Hl) as [_ Hv]. destruct (Catalog.activeRunId s) as [id|] eqn:Hid; [|by apply Hfin].
  branch Hdisp; [by apply Hfin|clear Hdisp]. branch Hgen; [by apply Hfin|clear Hgen].
  apply returns_liftC. intros [recovery recovered] w4 E. apply recover_inv in E as [Hsp4 Hrec].
  assert (Hspa : spares p w w4) by by etrans. case_bool_decide as Ho.
  { walk. apply keeps_empty; [done|done|done|by apply Hg|apply Hspa]. }
  apply returns_liftC. intros replacement w5 E.
  apply publish_inv in E as (Hs5 & Hg5 & Hsel5); [|eapply enough_less; [done|apply Hspa]|done|by intros v|by apply Hg].
  assert (Hs5' : (pendingSignals w5 ≤ pendingSignals w)%nat) by (destruct Hspa; lia). case_bool_decide as Hc.
  - apply returns_liftC. intros [] w6 E. apply (spares_destroyWriter p) in E as [Hs6 Hu6]. destruct (Hu6 Hg5) as [Hg6 _]. walk.
    apply keeps_empty; [done|done|done|done|lia].
  - eapply adopt_sound; try done. by apply Hsel5.
Qed.

(** ** Stopping *)
Lemma spares_removeStoppedJournal fuel q directory id : q ≠ p → respects (spares p) (removeStoppedJournal fuel q directory id).
Proof.
  intros Hq. unfold removeStoppedJournal. apply respects_bind; [apply _| |].
  { apply spares_retryStatus. intros w r w'. by apply spares_fsUnlink. }
  intros removed. pose proof (spares_openDirectory p). pose proof (spares_syncFile p).
  assert (Hclose : ∀ d, respects (spares p) (retryStatus fuel (fsClose d))).
  { intros d. apply spares_retryStatus. intros w r w' E. eapply (spares_close p d w (Ok r)). unfold call. by rewrite E. }
  assert (Hopen : respects (spares p) (retry fuel (fsOpenDirectory directory))) by (apply spares_retry; apply spares_fsOpenDirectory).
  assert (Hsync : ∀ d, respects (spares p) (retryStatus fuel (fsSync d))) by (intros d; apply spares_retryStatus; apply spares_fsSync).
  respect.
Qed.

(** A refusal leaves the processing; the rest of the processing ends as a pause does. *)
Lemma quiesce_sound rounds loopFuel fuel s c w : in_agreement p c w → enough_fuel (pendingSignals w) fuel →
  valid_catalog s →
  returns (quiesce rounds loopFuel fuel s) c w (λ o c' w', keeps_sound p w o c' w' ∧
    ∀ pause catalog, o = Ret (pause, inr catalog) →
      admissionIsOpen c' = false ∧ (catalog = s ∨ catalog = withDisposition Disposition.PAUSED s)).
Proof.
  intros Hsound Hf Hv. unfold quiesce. walk. case_bool_decide as Hst.
  - apply returns_bind. eapply returns_weaken; [by apply pauseRunV1_sound|]. intros [pause|e] c1 w1 [Hk Hp]; [|by split].
    apply returns_ret. split; [done|]. intros pause' catalog [= <- Eq]. case_bool_decide as Ho; [done|]. injection Eq as <-.
    split; [|by right]. destruct (Hp pause eq_refl Ho) as (Hst1 & _). destruct (admissionIsOpen c1) eqn:Eg; [|done].
    destruct (Hk I) as [[Hc _] _]. apply (co_open _ _ _ Hc) in Eg as [? _]. congruence.
  - apply returns_closeAdmission, returns_ret. split; [intros _; split; [by apply closed_sound|done]|].
    intros pause catalog [= _ Eq]. split; [apply closed_gate|]. left. by case_match; simplify_eq.
Qed.

Lemma stopRunV1_sound rounds loopFuel fuel confirmation c w : in_agreement p c w → enough_fuel (pendingSignals w) fuel →
  returns (stopRunV1 rounds loopFuel fuel confirmation) c w (keeps_sound p w).
Proof.
  intros Hsound Hf. pose proof Hsound as [[Hg Ho Hw Hp Hq] Hfit]. unfold stopRunV1. walk.
  branch Hst; [walk; by apply keeps_refl|].
  assert (Hcat : Control.canonicalCatalogPath_ c = p).
  { destruct (dispositionsOf (Control.state_ c)) as [ds|] eqn:Ed; [by destruct (Hw ds)|].
    exfalso. by destruct (Control.state_ c). }
  rewrite Hcat. clear Hst. apply returns_liftC. intros [load s] w1 E. apply load_inv in E as (Hsp1 & _ & Hrep); [|done].
  case_bool_decide as Hl; [walk; by apply keeps_spares|]. destruct (loaded_live _ _ _ _ Hrep Hl) as [_ Hv].
  apply returns_theWriter; [by intros ?|]. intros owned Hown. cbv zeta.
  destruct (stopRefusal _ _ _ _) as [refusal|] eqn:Er; [walk; by apply keeps_spares|].
  set (id := Header.exchangeRunId (Writer.header (owned_writer owned))) in *.
  assert (Hid : Catalog.activeRunId s = Some id).
  { unfold stopRefusal in Er. destruct (bool_decide_reflect (Catalog.activeRunId s ≠ Some id)) as [|Hid]; [done|]. by apply dec_stable in Hid. }
  clear Er. pose proof (sound_spares _ _ _ _ Hsound Hsp1) as Hsound1. destruct Hsp1 as [Hs1 _].
  apply returns_bind. eapply returns_weaken; [apply quiesce_sound; [done|by eapply enough_less|done]|].
  intros [[pause quiesced]|e] c2 w2 [Hk2 Hgate2]; simpl.
  2: { intros Hr. destruct (Hk2 Hr). split; [done|lia]. }
  destruct (Hk2 I) as [Hsound2 Hs2]. destruct quiesced as [out|catalog]; [walk; intros _; split; [done|lia]|].
  destruct (Hgate2 _ _ eq_refl) as [Hgate Hcatalog].
  assert (Hty : typed_catalog (nextGeneration catalog None Disposition.NONE (Some id))).
  { split; simpl.
    - unfold is_u64, wrap64, wrap, UINT64_MAX. pose proof (Z.mod_pos_bound (Catalog.generation catalog + 1) (2 ^ 64)). lia.
    - intros x Hx. destruct (vc_last _ Hv x); [|done]. by destruct Hcatalog as [->| ->].
    - done.
    - intros x [= <-]. by destruct (vc_active _ Hv id Hid).
    - done. }
  apply returns_liftC. intros replacement w3 E.
  apply replace_inv in E as (Hs3 & Hg3 & _ & _); [|eapply enough_less; [done|lia]|done|apply Hsound2].
  case_bool_decide as Hc.
  { walk. intros _. split; [|lia]. apply unavailable_sound; [done|done|done|apply Hsound2]. }
  apply returns_modifyC, returns_modifyC, returns_modifyC, returns_assignRun. intros w4 [Hs4 Hu4]. destruct (Hu4 Hg3) as [Hg4 _].
  destruct (Catalog.retainedStoppedRunId s) as [replaced|]; [|walk; apply keeps_empty; [done|done|done|done|lia]].
  apply returns_liftC. intros cleanup w5 E. apply spares_removeStoppedJournal in E as [Hs5 Hu5]; [|by apply catalog_outside].
  destruct (Hu5 Hg4) as [Hg5 _]. walk. apply keeps_empty; [done|done|done|done|lia].
Qed.

(** ** Recovering a failed run *)
Lemma reconstructRun_sound fuel id s original load w0 c w : Control.commandProcessing_ c = None → admissionIsOpen c = false →
  guarded p (files w) → (pendingSignals w ≤ pendingSignals w0)%nat → enough_fuel (pendingSignals w) fuel →
  valid_catalog s → Catalog.activeRunId s = Some id →
  returns (reconstructRun fuel p id s original load) c w (keeps_sound p w0).
Proof.
  intros Hpath Hgate Hg Hs Hf Hv Hid. unfold reconstructRun. cbv zeta.
  assert (Hout : ∀ st w' (x : FailedRunRecoveryResult), dispositionsOf st = None → guarded p (files w') →
      (pendingSignals w' ≤ pendingSignals w0)%nat → keeps_sound p w0 (Ret x) (setState st c) w').
  { intros st w' x Hst Hg' Hs' _. split; [|done]. eapply sound_unavailable; [done|done|done|done|]. simpl. rewrite Hpath. by intros []. }
  apply returns_modifyC, returns_liftC. intros [recovery recovered] w1 E. apply recover_inv in E as [[Hs1 Hu1] Hrec].
  destruct (Hu1 Hg) as [Hg1 _].
  branch Hagain; [walk; apply Hout; [done|done|lia]|clear Hagain]. apply returns_liftC. intros replacement w2 E.
  destruct (bool_decide_reflect (Recovered.outcome recovery = Recovered.RECOVERED)) as [Hr|Hr]; cbn [negb] in *.
  - apply publish_inv in E as (Hs2 & Hg2 & Hsel2); [|by eapply enough_less|done|by intros v|done]. case_bool_decide as Hc.
    + apply returns_liftC. intros [] w3 E. apply (spares_destroyWriter p) in E as [Hs3 Hu3]. destruct (Hu3 Hg2) as [Hg3 _].
      walk. apply Hout; [done|done|lia].
    + eapply adopt_sound; try done; [by apply Hsel2|lia].
  - apply publish_inv in E as (Hs2 & Hg2 & _); [|by eapply enough_less|done|by intros v|done]. case_bool_decide as Hc.
    + apply returns_liftC. intros [] w3 E. apply (spares_destroyWriter p) in E as [Hs3 Hu3]. destruct (Hu3 Hg2) as [Hg3 _].
      walk. apply Hout; [done|done|lia].
    + walk. apply Hout; [done|done|lia].
Qed.

Lemma recoverFailedRunV1_sound fuel q c w : in_agreement p c w → resolves q → enough_fuel (pendingSignals w) fuel →
  returns (recoverFailedRunV1 fuel q) c w (keeps_sound p w).
Proof.
  intros Hsound Hq Hf. unfold recoverFailedRunV1. walk. branch Hst; [walk; by apply keeps_refl|].
  branch Hinst; [walk; by apply keeps_refl|].
  apply returns_liftC. intros binding w1 E. apply absolute_inv in E as [Hsp1 Hb]; [|done].
  assert (Hfin : ∀ w' x, spares p w w' → returns (mret x) c w' (keeps_sound (A:=FailedRunRecoveryResult) p w)).
  { intros w' x Hsp. walk. by apply keeps_spares. }
  destruct Hb as [-> | ->]; [by apply Hfin|]. rewrite (proj1 Hq). branch Hbind; [by apply Hfin|clear Hbind].
  apply returns_liftC. intros [load s] w2 E. apply load_inv in E as (Hsp2 & _ & Hrep); [|eapply enough_less; [done|apply Hsp1]].
  assert (Hsp : spares p w w2) by by etrans. branch Hl; [by apply Hfin|]. apply bool_decide_eq_false, dec_stable in Hl.
  destruct (loaded_live _ _ _ _ Hrep Hl) as [_ Hv]. destruct (Catalog.activeRunId s) as [id|] eqn:Hid; [|by apply Hfin].
  pose proof Hsp as [Hs Hu]. destruct (Hu (co_guarded _ _ _ (proj1 Hsound))) as [Hg2 _].
  apply returns_bind. branch Hfs.
  - walk. simpl. match goal with |- returns (match ?refusal with _ => _ end) _ _ _ => destruct refusal; [by apply Hfin|] end.
    walk. branch Hbusy; [by apply Hfin|]. apply returns_modifyC, returns_assignRun. intros w3 [Hs3 Hu3]. destruct (Hu3 Hg2) as [Hg3 _].
    apply reconstructRun_sound; [done|done|done|lia|eapply enough_less; [done|lia]|done|done].
  - walk. simpl. match goal with |- returns (match ?refusal with _ => _ end) _ _ _ => destruct refusal; [by apply Hfin|] end.
    apply bool_decide_eq_false in Hfs. simpl in Hinst. apply bool_decide_eq_false in Hinst.
    assert (Hpath : Control.commandProcessing_ c = None) by (destruct (Control.commandProcessing_ c); [by destruct Hinst|done]).
    apply reconstructRun_sound; [done| |done|done|by eapply enough_less|done|done].
    destruct (admissionIsOpen c) eqn:Eg; [|done]. apply (co_open _ _ _ (proj1 Hsound)) in Eg as [Er _].
    by rewrite Er in Hst.
Qed.

(** ** Looking up, taking results and closing the gate *)
Lemma retained_sound view c w : in_agreement p c w → in_agreement p (setRetainedView view c) w.
Proof.
  intros [Hc Hf]. split; [|by eapply fitting_eq]. eapply consistent_same; [done|]. by split.
Qed.

Lemma lookupIn_sound index command load recovery w0 c w : in_agreement p c w → (pendingSignals w ≤ pendingSignals w0)%nat →
  returns (lookupIn index command load recovery) c w (keeps_sound p w0).
Proof.
  intros Hs Hle. unfold lookupIn. apply returns_bind, returns_outcomeC.
  destruct (completedResult command index); simpl; [walk|]; by intros _.
Qed.

Lemma lookupRetained_sound fuel id command w0 c w : in_agreement p c w → (pendingSignals w ≤ pendingSignals w0)%nat →
  enough_fuel (pendingSignals w) fuel → returns (lookupRetained fuel p id command) c w (keeps_sound p w0).
Proof.
  intros Hsound Hle Hf. unfold lookupRetained. apply returns_liftC. intros [load s] w1 E.
  apply load_inv in E as (Hsp1 & _ & _); [|done]. pose proof (sound_spares _ _ _ _ Hsound Hsp1) as Hsound1. destruct Hsp1 as [Hs1 _].
  assert (Hfin : ∀ x : CompletedResultLookupResult, returns (mret x) c w1 (keeps_sound p w0)) by (intros x; walk; intros _; split; [done|lia]).
  cbv zeta. repeat (case_bool_decide; [apply Hfin|]). walk.
  assert (Hview : ∀ view c' w' load recovery, in_agreement p c' w' → (pendingSignals w' ≤ pendingSignals w0)%nat →
      returns (index ← viewIndex view; lookupIn index command load recovery) c' w' (keeps_sound p w0)).
  { intros view c' w' load' recovery Hs' Hle'. apply returns_bind. unfold viewIndex.
    destruct (Control.viewAdmissionIndex view); [apply returns_ret; by apply lookupIn_sound|by apply returns_throwC; intros ?]. }
  destruct (retainedView c p id); [apply Hview; [done|lia]|]. unfold reconstructView.
  apply returns_liftC. intros [recovery recovered] w2 E. apply recover_inv in E as [Hsp2 _].
  pose proof (sound_spares _ _ _ _ Hsound1 Hsp2) as Hsound2. destruct Hsp2 as [Hs2 _].
  case_bool_decide; [walk; intros _; split; [done|lia]|]. cbv zeta. apply returns_liftC. intros [] w3 E.
  apply (spares_destroyWriter p) in E. pose proof (sound_spares _ _ _ _ Hsound2 E) as Hsound3. destruct E as [Hs3 _].
  walk. apply Hview; [by apply retained_sound|lia].
Qed.

Lemma lookupCompletedResultV1_sound fuel q id command c w : in_agreement p c w → resolves q → enough_fuel (pendingSignals w) fuel →
  returns (lookupCompletedResultV1 fuel q id command) c w (keeps_sound p w).
Proof.
  intros Hsound Hq Hf. unfold lookupCompletedResultV1. apply returns_liftC. intros binding w1 E.
  apply absolute_inv in E as [Hsp1 Hb]; [|done]. pose proof (sound_spares _ _ _ _ Hsound Hsp1) as Hsound1. destruct Hsp1 as [Hs1 _].
  destruct Hb as [-> | ->]; [walk; by intros _|]. rewrite (proj1 Hq). walk. branch Hbind; [walk; by intros _|].
  destruct (ownedIndex c id); [by apply lookupIn_sound|]. apply lookupRetained_sound; [done|done|by eapply enough_less].
Qed.

Lemma lookupPrivateResultV1_sound fuel q id command c w : in_agreement p c w → resolves q → enough_fuel (pendingSignals w) fuel →
  returns (lookupPrivateResultV1 fuel q id command) c w (keeps_sound p w).
Proof.
  intros Hsound Hq Hf. unfold lookupPrivateResultV1. apply returns_bind. eapply returns_weaken; [by apply lookupCompletedResultV1_sound|].
  intros [authoritative|e] c1 w1 Hk; [|done]. simpl. cbv zeta.
  assert (Hfin : ∀ o : outcome PrivateResultLookupResult, keeps_sound p w o c1 w1) by (intros o _; by apply Hk).
  case_bool_decide; [walk; apply Hfin|]. destruct (Lookup.completedResult authoritative), (Msg.clientCommandId command); try (walk; apply Hfin).
  branch Hcorr; [walk; apply Hfin|]. apply returns_bind, returns_outcomeC. destruct (projectPrivateResult _ _); simpl; [walk|]; apply Hfin.
Qed.

Lemma handoffs_sound privateResults publicTrades c w : in_agreement p c w →
  in_agreement p (setPath (setHandoffs privateResults publicTrades <$> Control.commandProcessing_ c) c) w.
Proof.
  intros [Hc Hf].
  assert (Hs : pathStatus (setPath (setHandoffs privateResults publicTrades <$> Control.commandProcessing_ c) c) = pathStatus c).
  { unfold pathStatus. simpl. by destruct (Control.commandProcessing_ c). }
  assert (Ht : transitionPending (setPath (setHandoffs privateResults publicTrades <$> Control.commandProcessing_ c) c) = transitionPending c)
    by (unfold transitionPending; by rewrite Hs).
  split; [|by apply (fitting_eq c)]. eapply consistent_same; [done|]. split; try done; [simpl; by rewrite fmap_is_Some|].
  intros _ Hpend. by transitivity (transitionPending c).
Qed.

Lemma tryPopPrivateResultBatchV1_sound c w : in_agreement p c w → returns tryPopPrivateResultBatchV1 c w (keeps_sound p w).
Proof.
  intros Hsound. unfold tryPopPrivateResultBatchV1. walk. destruct (Control.commandProcessing_ c) as [path|]; [|walk; by apply keeps_refl].
  destruct (PrivateQueue.tryPopPrivate _) as [batch queue]. apply returns_modifyC, returns_ret. intros _. split; [|done]. by apply handoffs_sound.
Qed.
Lemma tryPopPublicTradeBatchV1_sound c w : in_agreement p c w → returns tryPopPublicTradeBatchV1 c w (keeps_sound p w).
Proof.
  intros Hsound. unfold tryPopPublicTradeBatchV1. walk. destruct (Control.commandProcessing_ c) as [path|]; [|walk; by apply keeps_refl].
  destruct (TradeQueue.tryPopTrades _) as [batch queue]. apply returns_modifyC, returns_ret. intros _. split; [|done]. by apply handoffs_sound.
Qed.
Lemma closeAdmission_sound c w : in_agreement p c w → returns closeAdmission c w (keeps_sound p w).
Proof. intros Hs o c' w' [= <- <- <-] _. split; [by apply (closed_sound p c)|done]. Qed.
End operations.
