(* ===== verification/LifecycleTheorems.v ===== *)
(** * The controller's life

    Whatever operations are called on a new controller, in whatever order, and
    whatever the file system answers them, the controller's state agrees with the
    catalog and what it has accepted fits its run. *)
From S2P Require Import Prelude Domain Bytes JournalCodec RunHeaderCodec RunCatalogCodec Posix Paths FileSystem.
From S2P Require Import CatalogStorage CatalogRun WorkerFrames JournalReader JournalWriter JournalStorage RunIdReservation NewRun NewRunTheorems.
From S2P Require Import Matching MatchingTheorems Projection Queues Admission Sequencer Bus EngineWorker ResultDispatcher.
From S2P Require Import Controller ControllerLifecycle ControllerProcessing.
From S2P Require Import ControllerInv ControllerCycle ControllerOperations.

(** The public operations. *)
Inductive operation :=
  | StartNew (canonicalCatalogPath : path) (configuration : NewRunConfigurationV1)
  | StartExisting (canonicalCatalogPath : path)
  | ResumeRun
  | InstallProcessing (submissions matchings results privateEvents publicTrades : Z)
  | SubmitCommand (exchangeRunId : ExchangeRunId) (command : sequenceMessage)
  | AdvanceProcessing
  | PopPrivateResults
  | PopPublicTrades
  | PauseRun
  | StopRun (replacedRunConfirmation : option ExchangeRunId)
  | RecoverFailedRun (canonicalCatalogPath : path)
  | LookupCompleted (canonicalCatalogPath : path) (exchangeRunId : ExchangeRunId) (command : sequenceMessage)
  | LookupPrivate (canonicalCatalogPath : path) (exchangeRunId : ExchangeRunId) (command : sequenceMessage)
  | CloseAdmission.

Section lifecycle.
Context {W : Type} `{FileSystemLaws W} {Q : Type} `{NewSharedQueue sequenceMessage Q, SharedQueue sequenceMessage Q}.
Implicit Types (c : ExchangeRunController Q) (w : W).

Definition ignoring {A} (m : ctl W Q A) : ctl W Q unit := m ;; mret tt.

Definition perform (rounds loopFuel fuel : nat) (op : operation) : ctl W Q unit :=
  match op with
  | StartNew q configuration => ignoring (startupNewRunV1 fuel q configuration)
  | StartExisting q => ignoring (startupExistingRunV1 fuel q)
  | ResumeRun => ignoring (resumeRunV1 fuel)
  | InstallProcessing a b d e f => ignoring (installCommandProcessingV1 a b d e f)
  | SubmitCommand id command => ignoring (submitCommandV1 id command)
  | AdvanceProcessing => ignoring (advanceCommandProcessingV1 loopFuel fuel)
  | PopPrivateResults => ignoring tryPopPrivateResultBatchV1
  | PopPublicTrades => ignoring tryPopPublicTradeBatchV1
  | PauseRun => ignoring (pauseRunV1 rounds loopFuel fuel)
  | StopRun confirmation => ignoring (stopRunV1 rounds loopFuel fuel confirmation)
  | RecoverFailedRun q => ignoring (recoverFailedRunV1 fuel q)
  | LookupCompleted q id command => ignoring (lookupCompletedResultV1 fuel q id command)
  | LookupPrivate q id command => ignoring (lookupPrivateResultV1 fuel q id command)
  | CloseAdmission => ignoring closeAdmission
  end.

(** The paths given are the catalog's, and the numbers of a configuration are in
    the range of their types. *)
Definition admissible (p : path) (op : operation) : Prop :=
  match op with
  | StartNew q configuration => resolves (W:=W) p q ∧ typed_configuration configuration
  | StartExisting q | RecoverFailedRun q | LookupCompleted q _ _ | LookupPrivate q _ _ => resolves (W:=W) p q
  | _ => True
  end.

(** The controllers and worlds a program can reach: it makes a controller, and
    calls operations that return or throw; other code may change the world, the
    catalog apart. *)
Inductive attainable (p : path) : ExchangeRunController Q → W → Prop :=
  | attainable_new w : guarded p (files w) → attainable p newController w
  | attainable_operation c w op rounds loopFuel fuel o c' w' : attainable p c w → admissible p op →
      enough_fuel (pendingSignals w) fuel → perform rounds loopFuel fuel op c w = (Ok (o, c'), w') → regular o →
      attainable p c' w'
  | attainable_world c w w' : attainable p c w → undisturbed p (files w) (files w') → attainable p c w'.

Lemma new_sound p w : guarded p (files w) → in_agreement p (newController (Q:=Q)) w.
Proof. intros Hg. by apply sound_empty. Qed.

Lemma ignoring_sound {A} p (m : ctl W Q A) c w : returns m c w (keeps_sound p w) → returns (ignoring m) c w (keeps_sound p w).
Proof.
  intros Hm. apply returns_bind. eapply returns_weaken; [exact Hm|]. intros [a|e] c1 w1 Hk; [|done].
  apply returns_ret. intros _. by apply Hk.
Qed.

Lemma perform_sound p rounds loopFuel fuel op c w : outside p → in_agreement p c w → admissible p op →
  enough_fuel (pendingSignals w) fuel → returns (perform rounds loopFuel fuel op) c w (keeps_sound p w).
Proof.
  intros Hout Hs Ha Hf. destruct op; simpl in Ha |- *; apply ignoring_sound.
  - by apply startupNewRunV1_sound; try apply Ha.
  - by apply startupExistingRunV1_sound.
  - by apply resumeRunV1_sound.
  - by apply installCommandProcessingV1_sound.
  - eapply returns_weaken; [by apply (submitCommandV1_sound p)|]. by intros o c' w' [Hk _].
  - eapply returns_weaken; [by apply (advanceCommandProcessingV1_sound p)|]. intros o c' w' Hadv Hr.
    destruct (Hadv Hr) as (? & ? & _). by split.
  - by apply tryPopPrivateResultBatchV1_sound.
  - by apply tryPopPublicTradeBatchV1_sound.
  - eapply returns_weaken; [by apply (pauseRunV1_sound p)|]. by intros o c' w' [Hk _].
  - by apply stopRunV1_sound.
  - by apply recoverFailedRunV1_sound.
  - by apply lookupCompletedResultV1_sound.
  - by apply lookupPrivateResultV1_sound.
  - by apply closeAdmission_sound.
Qed.

Lemma attainable_sound p c w : outside p → attainable p c w → in_agreement p c w.
Proof.
  intros Hout. induction 1 as [w Hg|c w op rounds loopFuel fuel o c' w' _ IH Ha Hf E Hr|c w w' _ [IH Hfit] Hu]; [by apply new_sound| |].
  - by apply (perform_sound p _ _ _ _ _ _ Hout IH Ha Hf) in E as [? _].
  - split; [|done]. destruct IH as [Hg Ho Hw Hp Hq]. destruct (Hu Hg) as [Hg' Hk]. split; [done|done| |done|done].
    intros ds Hds. destruct (Hw _ Hds) as (Hpath & writer & Hwr & Hsel). split; [done|]. exists writer. split; [done|].
    by eapply selects_kept.
Qed.

(** C9: in every state a program can bring the controller to, the catalog found now
    or after any loss of power is a valid record that names the run the controller
    owns: open while the controller is ready, paused (or open again, if a resumption
    is not known to have failed) while it is paused, and with the matching disposition
    after the capacity is reached or the processing has failed.  The admission is open
    only when the controller is ready and no capacity transition is pending; a command
    is accepted for the first time only into the owned run while the catalog names it
    open; and a pause that reports [PAUSED] has drained the path and published it. *)
Theorem controller_agrees_with_the_catalog p c w : outside p → attainable p c w →
  (∀ dispositions, dispositionsOf (Control.state_ c) = Some dispositions → Control.canonicalCatalogPath_ c = p ∧
     ∃ writer, ownedWriter c = Some writer ∧ selects (files w) p (runOf writer) dispositions) ∧
  (admissionIsOpen c = true → Control.state_ c = Lifecycle.READY ∧ transitionPending c = false) ∧
  (∀ exchangeRunId command decision c' w',
     submitCommandV1 exchangeRunId command c w = (Ok (Ret decision, c'), w') →
     status decision = AdmissionStatus.FIRST_SUBMISSION →
     Control.state_ c = Lifecycle.READY ∧ selects (files w) p exchangeRunId [Disposition.OPEN]) ∧
  (∀ rounds loopFuel fuel result c' w', enough_fuel (pendingSignals w) fuel →
     pauseRunV1 rounds loopFuel fuel c w = (Ok (Ret result, c'), w') →
     Pause.outcome result = Pause.PAUSED → paused_run p c' w').
Proof.
  intros Hout Hr. pose proof (attainable_sound _ _ _ Hout Hr) as Hs. pose proof Hs as [[_ Ho Hw _ _] _]. split; [done|]. split; [done|].
  split.
  - intros id command decision c' w' E Hf. apply (submitCommandV1_sound p id command c w Hs) in E as [_ Hacc].
    destruct (Hacc _ eq_refl Hf) as [Hst (writer & s & s' & _ & _ & _ & Hsel & _)]. done.
  - intros rounds loopFuel fuel result c' w' Hf E Hp. apply (pauseRunV1_sound p) in E as [_ Hpaused]; [|done|done]. by eapply Hpaused.
Qed.

(** C10: a ready controller never promises more than its run can hold: the committed
    commands and bytes are within the header's limits, and the bytes committed and
    accepted together are too.  A command accepted for the first time whose frame can
    be encoded is accounted with exactly that frame's size, command and byte limits
    still hold with it, and the admission stays open exactly while a command and a
    byte are left. *)
Theorem accepted_commands_fit_the_run p c w : outside p → attainable p c w → Control.state_ c = Lifecycle.READY →
  (∃ writer, ownedWriter c = Some writer ∧ committed_fits writer ∧ ∀ s, pathStatus c = Some s → accounts_fit writer s) ∧
  ∀ exchangeRunId command decision c' w',
    submitCommandV1 exchangeRunId command c w = (Ok (Ret decision, c'), w') →
    status decision = AdmissionStatus.FIRST_SUBMISSION → accepted_into p exchangeRunId command c w c'.
Proof.
  intros Hout Hr Hst. pose proof (attainable_sound _ _ _ Hout Hr) as Hs. split.
  - destruct Hs as [Hc Hfit]. destruct (co_owner _ _ _ Hc [Disposition.OPEN]) as (_ & writer & Hwr & _); [by rewrite Hst|].
    exists writer. split; [done|]. by apply fitting_ready.
  - intros id command decision c' w' E Hf. apply (submitCommandV1_sound p id command c w Hs) in E as [_ Hacc]. by apply (Hacc decision).
Qed.
End lifecycle.

(** ** A life *)
Section life.
Context {W : Type} `{FileSystemLaws W} {Q : Type} `{NewSharedQueue sequenceMessage Q, SharedQueue sequenceMessage Q}.

(** The operations in turn, while they return and the fuel is enough. *)
Fixpoint live_through (rounds loopFuel fuel : nat) (ops : list operation) (c : ExchangeRunController Q) (w : W)
    : option (ExchangeRunController Q * W) :=
  match ops with
  | [] => Some (c, w)
  | op :: ops' =>
      if bool_decide (Z.of_nat (pendingSignals w) + 65600 < Z.of_nat fuel) then
        match perform rounds loopFuel fuel op c w with
        | (Ok (Ret _, c'), w') => live_through rounds loopFuel fuel ops' c' w'
        | _ => None
        end
      else None
  end.

Lemma live_through_reachable p rounds loopFuel fuel ops : ∀ c w c' w', attainable p c w → Forall (admissible (W:=W) p) ops →
  live_through rounds loopFuel fuel ops c w = Some (c', w') → attainable p c' w'.
Proof.
  induction ops as [|op ops IH]; intros c w c' w' Hr Ha E; simpl in E; [by injection E as <- <-|].
  apply Forall_cons in Ha as [Ha Has]. case_bool_decide as Hf; [|done].
  destruct (perform rounds loopFuel fuel op c w) as [[[[u|e] c1]|e|] w1] eqn:Ep; try done.
  eapply IH; [|done|done]. by eapply attainable_operation; [done|done|exact Hf|exact Ep|].
Qed.
End life.

Definition demoCatalogPath : path := "/data/catalog".

Lemma demo_outside : outside demoCatalogPath.
Proof.
  intros id. unfold deriveCanonicalRunJournalPathV1. generalize (to_string id ++ ".fxjr")%string. intros rest E.
  by vm_compute in E.
Qed.

Lemma demo_resolves : resolves (W:=Disk) demoCatalogPath demoCatalogPath.
Proof. split; [by vm_compute|]. intros w r w' [= <- _]. done. Qed.

Abbreviation DemoController := (ExchangeRunController (FixedQueue sequenceMessage)) (only parsing).

Definition demoStart : DemoController * Disk :=
  (newController, rescheduled [Interrupted; Short 60; Interrupted] demoEmptyDisk).

(** Where operations lead from the start. *)
Definition demoLife (ops : list operation) : DemoController * Disk :=
  default demoStart (live_through 100 100 demoFuel ops demoStart.1 demoStart.2).

Lemma demoLife_reachable ops : Forall (admissible (W:=Disk) demoCatalogPath) ops →
  is_Some (live_through 100 100 demoFuel ops demoStart.1 demoStart.2) → attainable demoCatalogPath (demoLife ops).1 (demoLife ops).2.
Proof.
  intros Ha [[c w] E]. unfold demoLife. rewrite E. simpl. eapply live_through_reachable; [|exact Ha|exact E].
  apply attainable_new. split; [by intros d i offset|by intros q i].
Qed.

Definition demoLifeBuy : sequenceMessage := demoMessage OrderType.BUY 0 20 "b1" 99 8 TIF.GTC.
Definition demoLifeSell : sequenceMessage := demoMessage OrderType.SELL 0 21 "s1" 99 3 TIF.GTC.

(** A new run of two commands in service, its first command accepted. *)
Definition demoTwoCommands : NewRunConfigurationV1 :=
  NewRunConfig.mkNewRunConfiguration 1 4096 2 65536 [HeaderInstrument.mkRunHeaderInstrumentV1 1 1].
Definition demoServing : list operation :=
  [StartNew demoCatalogPath demoTwoCommands; InstallProcessing 10 10 10 10000 10000; SubmitCommand 1 demoLifeBuy].
(** A run in service whose results are taken, ready to be paused. *)
Definition demoServed : list operation :=
  [StartNew demoCatalogPath demoConfiguration; InstallProcessing 10 10 10 10000 10000; SubmitCommand 1 demoLifeBuy;
   SubmitCommand 1 demoLifeSell; AdvanceProcessing; AdvanceProcessing; PopPrivateResults; PopPrivateResults; PopPublicTrades].

Lemma demo_admissible configuration ops : typed_configuration configuration →
  Forall (admissible (W:=Disk) demoCatalogPath) ops →
  Forall (admissible (W:=Disk) demoCatalogPath) (StartNew demoCatalogPath configuration :: ops).
Proof. intros Hc Hops. constructor; [|done]. split; [apply demo_resolves|done]. Qed.

Lemma demo_typed commands : is_u64 commands → typed_configuration
  (NewRunConfig.mkNewRunConfiguration 1 4096 commands 65536 [HeaderInstrument.mkRunHeaderInstrumentV1 1 1]).
Proof. intros Hc. split; [done|done|]. by repeat constructor. Qed.

Lemma controller_agrees_with_the_catalog_witness :
  Control.state_ (demoLife demoServed).1 = Lifecycle.READY ∧
  (∃ writer, ownedWriter (demoLife demoServed).1 = Some writer ∧
     selects (files (demoLife demoServed).2) demoCatalogPath (runOf writer) [Disposition.OPEN]) ∧
  ∃ result c' w', pauseRunV1 100 100 demoFuel (demoLife demoServed).1 (demoLife demoServed).2 = (Ok (Ret result, c'), w') ∧
    Pause.outcome result = Pause.PAUSED ∧ paused_run demoCatalogPath c' w'.
Proof.
  assert (Hr : attainable demoCatalogPath (demoLife demoServed).1 (demoLife demoServed).2).
  { apply demoLife_reachable; [apply demo_admissible; [by apply demo_typed|by repeat constructor]|vm_compute; by eexists]. }
  destruct (controller_agrees_with_the_catalog _ _ _ demo_outside Hr) as (Howner & _ & _ & Hpause).
  assert (Hst : Control.state_ (demoLife demoServed).1 = Lifecycle.READY) by (vm_compute; reflexivity).
  split; [exact Hst|]. split; [apply Howner; rewrite Hst; reflexivity|].
  assert (Hvm : match pauseRunV1 100 100 demoFuel (demoLife demoServed).1 (demoLife demoServed).2 with
                | (Ok (Ret result, _), _) => bool_decide (Pause.outcome result = Pause.PAUSED)
                | _ => false
                end = true) by (vm_compute; reflexivity).
  destruct (pauseRunV1 100 100 demoFuel _ _) as [[[[result|e] c']|e|] w'] eqn:E; try discriminate Hvm.
  apply bool_decide_eq_true in Hvm. exists result, c', w'. split; [reflexivity|]. split; [exact Hvm|].
  eapply Hpause; [|exact E|exact Hvm]. unfold enough_fuel. apply Z.ltb_lt. vm_compute. reflexivity.
Defined.

(** The second command uses up the run. *)
Lemma accepted_commands_fit_the_run_witness : ∃ decision c' w',
  submitCommandV1 1 demoLifeSell (demoLife demoServing).1 (demoLife demoServing).2 = (Ok (Ret decision, c'), w') ∧
  status decision = AdmissionStatus.FIRST_SUBMISSION ∧
  accepted_into demoCatalogPath 1 demoLifeSell (demoLife demoServing).1 (demoLife demoServing).2 c' ∧ admissionIsOpen c' = false.
Proof.
  assert (Hr : attainable demoCatalogPath (demoLife demoServing).1 (demoLife demoServing).2).
  { apply demoLife_reachable; [apply demo_admissible; [by apply demo_typed|by repeat constructor]|vm_compute; by eexists]. }
  destruct (accepted_commands_fit_the_run _ _ _ demo_outside Hr) as [_ Hsubmit]; [vm_compute; reflexivity|].
  assert (Hvm : match submitCommandV1 1 demoLifeSell (demoLife demoServing).1 (demoLife demoServing).2 with
                | (Ok (Ret decision, c'), _) =>
                    bool_decide (status decision = AdmissionStatus.FIRST_SUBMISSION) && negb (admissionIsOpen c')
                | _ => false
                end = true) by (vm_compute; reflexivity).
  destruct (submitCommandV1 1 demoLifeSell _ _) as [[[[decision|e] c']|e|] w'] eqn:E; try discriminate Hvm.
  apply andb_true_iff in Hvm as [Hfirst Hgate]. apply bool_decide_eq_true in Hfirst. apply negb_true_iff in Hgate.
  exists decision, c', w'. split; [reflexivity|]. split; [exact Hfirst|]. split; [|exact Hgate]. exact (Hsubmit _ _ _ _ _ E Hfirst).
Defined.
