(* ===== verification/EventJson.v ===== *)
(** * The JSON of application events

    [src/core/application/src/application_event_json.cpp]: the text the application
    sends for a batch of public trades and for one recipient's private result.  A
    [std::string] is the list of its bytes; a function that appends to one takes it
    and gives it back.  The enumerations the commands and events carry hold only
    their enumerators here, the sides excepted. *)
From S2P Require Import Prelude Domain Projection FixParser.

Abbreviation text := (list Ascii.ascii) (only parsing).

(** A literal of the source; the double quote is written as an apostrophe. *)
Definition quote_mark : Ascii.ascii := Ascii.Ascii false true false false false true false false.
Definition apostrophe : Ascii.ascii := Ascii.Ascii true true true false false true false false.
Definition lit (s : string) : text := (λ c, if bool_decide (c = apostrophe) then quote_mark else c) <$> chars s.

Module JsonError.
Inductive ApplicationEventJsonError :=
  | NONE | EMPTY_EVENTS | RUN_MISMATCH | COMMAND_SEQUENCE_MISMATCH | CORRELATION_MISMATCH | RECIPIENT_MISMATCH
  | INVALID_ENUM.
#[export] Instance ApplicationEventJsonError_eq_dec : EqDecision ApplicationEventJsonError.
Proof. solve_decision. Defined.
End JsonError.
Export (hints) JsonError.
Abbreviation ApplicationEventJsonError := JsonError.ApplicationEventJsonError.

(** ** Numbers *)
Definition digit_char (d : Z) : Ascii.ascii := Ascii.ascii_of_nat (Z.to_nat (48 + d)).

(** The decimal digits that fit the rest of the buffer, in front of [digits]. *)
Fixpoint decimalDigits (buffer : nat) (value : Z) (digits : text) : text :=
  match buffer with
  | O => digits
  | Datatypes.S buffer' =>
      let digits := digit_char (value mod 10) :: digits in
      if bool_decide (value < 10) then digits else decimalDigits buffer' (value / 10) digits
  end.

(** [std::to_chars] into the buffer of 20 characters. *)
Definition appendUnsigned (output : text) (value : Z) : text := output ++ decimalDigits 20 value [].

Definition appendQuotedUnsigned (output : text) (value : Z) : text :=
  let output := output ++ [quote_mark] in
  let output := appendUnsigned output value in
  output ++ [quote_mark].

(** ** Strings *)
Definition HEX : text := chars "0123456789abcdef".
Definition hexDigit (n : nat) : Ascii.ascii := nth n HEX Ascii.zero.
Definition backslash : Ascii.ascii := Ascii.ascii_of_nat 92.

(** The [switch] on one byte. *)
Definition appendJsonCharacter (output : text) (character : Ascii.ascii) : text :=
  let byte := Ascii.nat_of_ascii character in
  if (byte =? 34)%nat then output ++ [backslash; quote_mark]
  else if (byte =? 92)%nat then output ++ [backslash; backslash]
  else if (byte =? 8)%nat then output ++ backslash :: chars "b"
  else if (byte =? 12)%nat then output ++ backslash :: chars "f"
  else if (byte =? 10)%nat then output ++ backslash :: chars "n"
  else if (byte =? 13)%nat then output ++ backslash :: chars "r"
  else if (byte =? 9)%nat then output ++ backslash :: chars "t"
  else if (byte <? 32)%nat || (byte =? 127)%nat then
    ((output ++ backslash :: chars "u00") ++ [hexDigit (Nat.shiftr byte 4)]) ++ [hexDigit (Nat.land byte 15)]
  else output ++ [character].

Definition appendJsonString (output : text) (value : text) : text :=
  foldl appendJsonCharacter (output ++ [quote_mark]) value ++ [quote_mark].

(** ** Names of the enumerators *)
Definition sideName (value : Side) : option text :=
  match value with
  | Side.BUY => Some (chars "BUY")
  | Side.SELL => Some (chars "SELL")
  | Side.Side_raw _ => None
  end.
Definition roleName (value : TradeRole) : option text :=
  match value with
  | Role.MAKER => Some (chars "MAKER")
  | Role.TAKER => Some (chars "TAKER")
  end.
Definition commandTypeName (value : CommandType) : option text :=
  match value with
  | CmdType.NEW_ORDER => Some (chars "NEW_ORDER")
  | CmdType.CANCEL => Some (chars "CANCEL")
  end.
Definition cancelReasonName (value : CancelReason) : option text :=
  match value with
  | CLIENT_REQUESTED => Some (chars "CLIENT_REQUESTED")
  | IOC_REMAINDER => Some (chars "IOC_REMAINDER")
  end.
Definition rejectionReasonName (value : CommandRejectionReason) : option text :=
  match value with
  | ORDER_NOT_ACTIVE => Some (chars "ORDER_NOT_ACTIVE")
  | NOT_OWNER => Some (chars "NOT_OWNER")
  | BOOK_CAPACITY_EXCEEDED => Some (chars "BOOK_CAPACITY_EXCEEDED")
  end.

(** ** Events *)
Definition appendEventId (output : text) (eventId : EventId) : text :=
  let output := output ++ lit "{'exchangeRunId':" in
  let output := appendQuotedUnsigned output (EventId.exchangeRunId eventId) in
  let output := output ++ lit ",'commandSequence':" in
  let output := appendQuotedUnsigned output (EventId.commandSequence eventId) in
  let output := output ++ lit ",'eventIndex':" in
  let output := appendUnsigned output (EventId.eventIndex eventId) in
  output ++ lit "}".

Definition appendPublicTrade (output : text) (trade : PublicTrade) (aggressorSide : text) : text :=
  let output := output ++ lit "{'eventId':" in
  let output := appendEventId output (PublicTrade.eventId trade) in
  let output := output ++ lit ",'instrumentId':" in
  let output := appendQuotedUnsigned output (PublicTrade.instrumentId trade) in
  let output := output ++ lit ",'executionPrice':" in
  let output := appendQuotedUnsigned output (PublicTrade.executionPrice trade) in
  let output := output ++ lit ",'executionQuantity':" in
  let output := appendQuotedUnsigned output (PublicTrade.executionQuantity trade) in
  let output := output ++ lit ",'aggressorSide':" in
  let output := appendJsonString output aggressorSide in
  output ++ lit "}".

Definition appendPrivateTrade (output : text) (trade : PrivateTrade) (side role : text) : text :=
  let output := output ++ lit "{'type':'privateTrade','eventId':" in
  let output := appendEventId output (PrivateTrade.eventId trade) in
  let output := output ++ lit ",'instrumentId':" in
  let output := appendQuotedUnsigned output (PrivateTrade.instrumentId trade) in
  let output := output ++ lit ",'orderId':" in
  let output := appendQuotedUnsigned output (PrivateTrade.orderId trade) in
  let output := output ++ lit ",'side':" in
  let output := appendJsonString output side in
  let output := output ++ lit ",'role':" in
  let output := appendJsonString output role in
  let output := output ++ lit ",'executionPrice':" in
  let output := appendQuotedUnsigned output (PrivateTrade.executionPrice trade) in
  let output := output ++ lit ",'executionQuantity':" in
  let output := appendQuotedUnsigned output (PrivateTrade.executionQuantity trade) in
  let output := output ++ lit ",'remainingQuantity':" in
  let output := appendQuotedUnsigned output (PrivateTrade.remainingQuantity trade) in
  output ++ lit "}".

Definition appendOrderRested (output : text) (rested : OrderRested) (side : text) : text :=
  let output := output ++ lit "{'type':'orderRested','eventId':" in
  let output := appendEventId output (Rested.eventId rested) in
  let output := output ++ lit ",'orderId':" in
  let output := appendQuotedUnsigned output (Rested.orderId rested) in
  let output := output ++ lit ",'clientId':" in
  let output := appendQuotedUnsigned output (Rested.clientId rested) in
  let output := output ++ lit ",'instrumentId':" in
  let output := appendQuotedUnsigned output (Rested.instrumentId rested) in
  let output := output ++ lit ",'side':" in
  let output := appendJsonString output side in
  let output := output ++ lit ",'price':" in
  let output := appendQuotedUnsigned output (Rested.price rested) in
  let output := output ++ lit ",'remainingQuantity':" in
  let output := appendQuotedUnsigned output (Rested.remainingQuantity rested) in
  output ++ lit "}".

Definition appendOrderCancelled (output : text) (cancelled : OrderCancelled) (reason : text) : text :=
  let output := output ++ lit "{'type':'orderCancelled','eventId':" in
  let output := appendEventId output (Cancelled.eventId cancelled) in
  let output := output ++ lit ",'orderId':" in
  let output := appendQuotedUnsigned output (Cancelled.orderId cancelled) in
  let output := output ++ lit ",'clientId':" in
  let output := appendQuotedUnsigned output (Cancelled.clientId cancelled) in
  let output := output ++ lit ",'instrumentId':" in
  let output := appendQuotedUnsigned output (Cancelled.instrumentId cancelled) in
  let output := output ++ lit ",'cancelledQuantity':" in
  let output := appendQuotedUnsigned output (Cancelled.cancelledQuantity cancelled) in
  let output := output ++ lit ",'reason':" in
  let output := appendJsonString output reason in
  output ++ lit "}".

Definition appendCommandRejected (output : text) (rejected : CommandRejected) (commandType reason : text) : text :=
  let output := output ++ lit "{'type':'commandRejected','eventId':" in
  let output := appendEventId output (Rejected.eventId rejected) in
  let output := output ++ lit ",'commandType':" in
  let output := appendJsonString output commandType in
  let output := output ++ lit ",'clientId':" in
  let output := appendQuotedUnsigned output (Rejected.clientId rejected) in
  let output := output ++ lit ",'clientCommandId':" in
  let output := appendJsonString output (chars (Rejected.clientCommandId rejected)) in
  let output := match Rejected.relevantOrderId rejected with
                | Some relevantOrderId =>
                    let output := output ++ lit ",'relevantOrderId':" in
                    appendQuotedUnsigned output relevantOrderId
                | None => output
                end in
  let output := output ++ lit ",'reason':" in
  let output := appendJsonString output reason in
  output ++ lit "}".

(** [typedEvent.eventId] *)
Definition privateEventId (event : PrivateEvent) : EventId :=
  match event with
  | PvTrade e => PrivateTrade.eventId e
  | PvRested e => Rested.eventId e
  | PvCancelled e => Cancelled.eventId e
  | PvRejected e => Rejected.eventId e
  end.

(** The [if constexpr] chain on the event's type. *)
Definition appendTypedEvent (output : text) (event : PrivateEvent) (recipient : ClientId)
    : ApplicationEventJsonError * text :=
  match event with
  | PvTrade e =>
      match sideName (PrivateTrade.side e), roleName (PrivateTrade.role e) with
      | Some side, Some role => (JsonError.NONE, appendPrivateTrade output e side role)
      | _, _ => (JsonError.INVALID_ENUM, output)
      end
  | PvRested e =>
      if bool_decide (Rested.clientId e ≠ recipient) then (JsonError.RECIPIENT_MISMATCH, output)
      else match sideName (Rested.side e) with
           | Some side => (JsonError.NONE, appendOrderRested output e side)
           | None => (JsonError.INVALID_ENUM, output)
           end
  | PvCancelled e =>
      if bool_decide (Cancelled.clientId e ≠ recipient) then (JsonError.RECIPIENT_MISMATCH, output)
      else match cancelReasonName (Cancelled.reason e) with
           | Some reason => (JsonError.NONE, appendOrderCancelled output e reason)
           | None => (JsonError.INVALID_ENUM, output)
           end
  | PvRejected e =>
      if bool_decide (Rejected.clientId e ≠ recipient) then (JsonError.RECIPIENT_MISMATCH, output)
      else match commandTypeName (Rejected.commandType e), rejectionReasonName (Rejected.reason e) with
           | Some commandType, Some reason => (JsonError.NONE, appendCommandRejected output e commandType reason)
           | _, _ => (JsonError.INVALID_ENUM, output)
           end
  end.

(** The error, the text and the command sequence after the event. *)
Definition appendPrivateEvent (output : text) (event : PrivateEvent) (exchangeRunId : ExchangeRunId)
    (commandSequence : option CommandSequence) (recipient : ClientId)
    : ApplicationEventJsonError * text * option CommandSequence :=
  if bool_decide (EventId.exchangeRunId (privateEventId event) ≠ exchangeRunId)
  then (JsonError.RUN_MISMATCH, output, commandSequence)
  else match commandSequence with
       | None =>
           (appendTypedEvent output event recipient, Some (EventId.commandSequence (privateEventId event)))
       | Some sequence =>
           if bool_decide (EventId.commandSequence (privateEventId event) ≠ sequence)
           then (JsonError.COMMAND_SEQUENCE_MISMATCH, output, commandSequence)
           else (appendTypedEvent output event recipient, commandSequence)
       end.

(** ** Batches *)

(** The loop over the trades from [index] on. *)
Fixpoint appendTrades (serialized : text) (index : nat) (trades : list PublicTrade) (exchangeRunId : ExchangeRunId)
    (commandSequence : CommandSequence) : ApplicationEventJsonError * text :=
  match trades with
  | [] => (JsonError.NONE, serialized)
  | trade :: trades' =>
      if bool_decide (EventId.exchangeRunId (PublicTrade.eventId trade) ≠ exchangeRunId)
      then (JsonError.RUN_MISMATCH, serialized)
      else if bool_decide (EventId.commandSequence (PublicTrade.eventId trade) ≠ commandSequence)
      then (JsonError.COMMAND_SEQUENCE_MISMATCH, serialized)
      else match sideName (PublicTrade.aggressorSide trade) with
           | None => (JsonError.INVALID_ENUM, serialized)
           | Some aggressorSide =>
               let serialized := if (index =? 0)%nat then serialized else serialized ++ lit "," in
               appendTrades (appendPublicTrade serialized trade aggressorSide) (Datatypes.S index) trades'
                 exchangeRunId commandSequence
           end
  end.

(** The error and the value of [output] afterwards. *)
Definition serializePublicTradesV1 (exchangeRunId : ExchangeRunId) (trades : list PublicTrade) (output : text)
    : ApplicationEventJsonError * text :=
  match trades with
  | [] => (JsonError.EMPTY_EVENTS, output)
  | front :: _ =>
      let serialized := lit "{'schemaVersion':1,'type':'publicTrades','exchangeRunId':" in
      let serialized := appendQuotedUnsigned serialized exchangeRunId in
      let serialized := serialized ++ lit ",'trades':[" in
      let commandSequence := EventId.commandSequence (PublicTrade.eventId front) in
      match appendTrades serialized 0 trades exchangeRunId commandSequence with
      | (JsonError.NONE, serialized) => (JsonError.NONE, serialized ++ lit "]}")
      | (error, _) => (error, output)
      end
  end.

(** The loop over the events from [index] on. *)
Fixpoint appendPrivateEvents (serialized : text) (index : nat) (events : list PrivateEvent)
    (exchangeRunId : ExchangeRunId) (commandSequence : option CommandSequence) (recipient : ClientId)
    : ApplicationEventJsonError * text * option CommandSequence :=
  match events with
  | [] => (JsonError.NONE, serialized, commandSequence)
  | event :: events' =>
      let serialized := if (index =? 0)%nat then serialized else serialized ++ lit "," in
      match appendPrivateEvent serialized event exchangeRunId commandSequence recipient with
      | (JsonError.NONE, serialized, commandSequence) =>
          appendPrivateEvents serialized (Datatypes.S index) events' exchangeRunId commandSequence recipient
      | failed => failed
      end
  end.

Definition appendCorrelation (serialized : text) (correlation : CommandResultCorrelation) : text :=
  let serialized := serialized ++ lit ",'correlation':{'exchangeRunId':" in
  let serialized := appendQuotedUnsigned serialized (Correlation.exchangeRunId correlation) in
  let serialized := serialized ++ lit ",'clientId':" in
  let serialized := appendQuotedUnsigned serialized (Correlation.clientId correlation) in
  let serialized := serialized ++ lit ",'clientCommandId':" in
  let serialized := appendJsonString serialized (chars (Correlation.clientCommandId correlation)) in
  let serialized := serialized ++ lit ",'commandSequence':" in
  let serialized := appendQuotedUnsigned serialized (Correlation.commandSequence correlation) in
  serialized ++ lit "}".

(** The checks after the loop. *)
Definition checkCorrelation (correlation : option CommandResultCorrelation) (exchangeRunId : ExchangeRunId)
    (commandSequence : option CommandSequence) (recipient : ClientId) : ApplicationEventJsonError :=
  match correlation with
  | None => JsonError.NONE
  | Some correlation =>
      if bool_decide (Correlation.exchangeRunId correlation ≠ exchangeRunId) ||
         bool_decide (Some (Correlation.commandSequence correlation) ≠ commandSequence)
      then JsonError.CORRELATION_MISMATCH
      else if bool_decide (Correlation.clientId correlation ≠ recipient) then JsonError.RECIPIENT_MISMATCH
      else JsonError.NONE
  end.

Definition serializePrivateResultV1 (exchangeRunId : ExchangeRunId) (result : RecipientResult) (output : text)
    : ApplicationEventJsonError * text :=
  if bool_decide (Recipient.privateResult result = []) then (JsonError.EMPTY_EVENTS, output)
  else
    let serialized := lit "{'schemaVersion':1,'type':'privateResult','exchangeRunId':" in
    let serialized := appendQuotedUnsigned serialized exchangeRunId in
    let serialized := serialized ++ lit ",'recipientClientId':" in
    let serialized := appendQuotedUnsigned serialized (Recipient.recipient result) in
    let serialized := match Recipient.correlation result with
                      | Some correlation => appendCorrelation serialized correlation
                      | None => serialized
                      end in
    let serialized := serialized ++ lit ",'events':[" in
    match appendPrivateEvents serialized 0 (Recipient.privateResult result) exchangeRunId None
            (Recipient.recipient result) with
    | (JsonError.NONE, serialized, commandSequence) =>
        match checkCorrelation (Recipient.correlation result) exchangeRunId commandSequence
                (Recipient.recipient result) with
        | JsonError.NONE => (JsonError.NONE, serialized ++ lit "]}")
        | error => (error, output)
        end
    | (error, _, _) => (error, output)
    end.

Example serialize_one_trade :
  serializePublicTradesV1 7 [PublicTrade.mkPublicTrade (EventId.mkEventId 12 0 7) 1 1000500 25 Side.SELL] [] =
  (JsonError.NONE, lit ("{'schemaVersion':1,'type':'publicTrades','exchangeRunId':'7','trades':[" ++
     "{'eventId':{'exchangeRunId':'7','commandSequence':'12','eventIndex':0},'instrumentId':'1'," ++
     "'executionPrice':'1000500','executionQuantity':'25','aggressorSide':'SELL'}]}")).
Proof. vm_compute. reflexivity. Qed.
