(* ===== verification/JsonText.v ===== *)
(** * JSON documents and their text

    A reference for the text of [EventJson.v]: documents, the compact text of a
    document, and a reader for that text which shares nothing with the printer but the
    decimal value of digits.  The reader takes the escapes of RFC 8259 whose code point
    is below 128, and gives back what follows the value it read. *)
From S2P Require Import Prelude Domain FixParser EventJson.

(** ** Documents *)
#[local] Unset Elimination Schemes.
Inductive json :=
  | JNumber (n : N)
  | JString (s : text)
  | JArray (items : list json)
  | JObject (fields : list (text * json)).
#[local] Set Elimination Schemes.

Definition letter_u : Ascii.ascii := Ascii.ascii_of_nat 117.
Definition comma : Ascii.ascii := Ascii.ascii_of_nat 44.
Definition colon : Ascii.ascii := Ascii.ascii_of_nat 58.
Definition brace_open : Ascii.ascii := Ascii.ascii_of_nat 123.
Definition brace_close : Ascii.ascii := Ascii.ascii_of_nat 125.
Definition bracket_open : Ascii.ascii := Ascii.ascii_of_nat 91.
Definition bracket_close : Ascii.ascii := Ascii.ascii_of_nat 93.

Fixpoint separated (parts : list text) : text :=
  match parts with
  | [] => []
  | [part] => part
  | part :: parts' => part ++ comma :: separated parts'
  end.

(** All the digits of a number. *)
Definition decimal (n : N) : text := decimalDigits (Datatypes.S (N.to_nat (N.log2 n))) (Z.of_N n) [].
Definition escaped (s : text) : text := s ≫= appendJsonCharacter [].
Definition quoted (s : text) : text := quote_mark :: escaped s ++ [quote_mark].

Fixpoint render (j : json) : text :=
  match j with
  | JNumber n => decimal n
  | JString s => quoted s
  | JArray items => bracket_open :: separated (map render items) ++ [bracket_close]
  | JObject fields =>
      brace_open :: separated (map (λ '(name, value), quoted name ++ colon :: render value) fields) ++ [brace_close]
  end.
Definition renderField (field : text * json) : text := quoted field.1 ++ colon :: render field.2.

(** ** The reader *)
Definition hexValueOf (c : Ascii.ascii) : option nat :=
  let n := Ascii.nat_of_ascii c in
  if (48 <=? n)%nat && (n <=? 57)%nat then Some (n - 48)%nat
  else if (97 <=? n)%nat && (n <=? 102)%nat then Some (n - 87)%nat
  else if (65 <=? n)%nat && (n <=? 70)%nat then Some (n - 55)%nat
  else None.

(** The character a two-character escape stands for. *)
Definition shortEscape (c : Ascii.ascii) : option Ascii.ascii :=
  let n := Ascii.nat_of_ascii c in
  if (n =? 34)%nat || (n =? 92)%nat || (n =? 47)%nat then Some c
  else if (n =? 98)%nat then Some (Ascii.ascii_of_nat 8)
  else if (n =? 102)%nat then Some (Ascii.ascii_of_nat 12)
  else if (n =? 110)%nat then Some (Ascii.ascii_of_nat 10)
  else if (n =? 114)%nat then Some (Ascii.ascii_of_nat 13)
  else if (n =? 116)%nat then Some (Ascii.ascii_of_nat 9)
  else None.

Definition fourDigits (a b c d : Ascii.ascii) : option Ascii.ascii :=
  a ← hexValueOf a; b ← hexValueOf b; c ← hexValueOf c; d ← hexValueOf d;
  let n := (((a * 16 + b) * 16 + c) * 16 + d)%nat in
  if (n <? 128)%nat then Some (Ascii.ascii_of_nat n) else None.

(** The characters up to the closing quote, and what follows it. *)
Fixpoint readString (t : text) : option (text * text) :=
  match t with
  | [] => None
  | c :: t' =>
      if bool_decide (c = quote_mark) then Some ([], t')
      else if bool_decide (c = backslash) then
        match t' with
        | [] => None
        | e :: t'' =>
            if bool_decide (e = letter_u) then
              match t'' with
              | h1 :: h2 :: h3 :: h4 :: t''' =>
                  x ← fourDigits h1 h2 h3 h4; '(s, rest) ← readString t'''; Some (x :: s, rest)
              | _ => None
              end
            else x ← shortEscape e; '(s, rest) ← readString t''; Some (x :: s, rest)
        end
      else if (Ascii.nat_of_ascii c <? 32)%nat then None
      else '(s, rest) ← readString t'; Some (c :: s, rest)
  end.

Fixpoint readDigits (t : text) : text * text :=
  match t with
  | c :: t' => if is_digit c then let '(digits, rest) := readDigits t' in (c :: digits, rest) else ([], t)
  | [] => ([], [])
  end.

(** The value a text begins with; the fuel is the length of the text. *)
Fixpoint readValue (fuel : nat) (t : text) : option (json * text) :=
  match fuel with
  | O => None
  | Datatypes.S fuel =>
      match t with
      | [] => None
      | c :: t' =>
          if bool_decide (c = quote_mark) then '(s, rest) ← readString t'; Some (JString s, rest)
          else if bool_decide (c = bracket_open) then
            match t' with
            | d :: rest =>
                if bool_decide (d = bracket_close) then Some (JArray [], rest)
                else '(items, rest) ← readItems fuel t'; Some (JArray items, rest)
            | [] => None
            end
          else if bool_decide (c = brace_open) then
            match t' with
            | d :: rest =>
                if bool_decide (d = brace_close) then Some (JObject [], rest)
                else '(fields, rest) ← readFields fuel t'; Some (JObject fields, rest)
            | [] => None
            end
          else match readDigits t with
               | ([], _) => None
               | (digits, rest) => Some (JNumber (Z.to_N (digits_value digits)), rest)
               end
      end
  end
(** The items up to the closing bracket. *)
with readItems (fuel : nat) (t : text) : option (list json * text) :=
  match fuel with
  | O => None
  | Datatypes.S fuel =>
      '(item, rest) ← readValue fuel t;
      match rest with
      | c :: rest =>
          if bool_decide (c = comma) then '(items, rest) ← readItems fuel rest; Some (item :: items, rest)
          else if bool_decide (c = bracket_close) then Some ([item], rest) else None
      | [] => None
      end
  end
(** The fields up to the closing brace. *)
with readFields (fuel : nat) (t : text) : option (list (text * json) * text) :=
  match fuel with
  | O => None
  | Datatypes.S fuel =>
      match t with
      | c :: t =>
          if bool_decide (c = quote_mark) then
            '(name, rest) ← readString t;
            match rest with
            | c :: rest =>
                if bool_decide (c = colon) then
                  '(value, rest) ← readValue fuel rest;
                  match rest with
                  | c :: rest =>
                      if bool_decide (c = comma) then
                        '(fields, rest) ← readFields fuel rest; Some ((name, value) :: fields, rest)
                      else if bool_decide (c = brace_close) then Some ([(name, value)], rest) else None
                  | [] => None
                  end
                else None
            | [] => None
            end
          else None
      | [] => None
      end
  end.

(** The document a text is. *)
Definition readJson (t : text) : option json :=
  match readValue (length t) t with
  | Some (j, []) => Some j
  | _ => None
  end.

Example read_object : readJson (lit "{'a':'x\u000a','b':[1,20]}") =
  Some (JObject [(chars "a", JString (chars "x" ++ [Ascii.ascii_of_nat 10]));
                 (chars "b", JArray [JNumber 1; JNumber 20])]).
Proof. vm_compute. reflexivity. Qed.

(** ** Digits *)
Lemma digit_char_spec d : 0 ≤ d ≤ 9 → is_digit (digit_char d) = true ∧ digit_value (digit_char d) = d.
Proof.
  intros Hd. unfold digit_char, is_digit, digit_value.
  rewrite Ascii.nat_ascii_embedding by lia. split; [|lia].
  rewrite !bool_decide_eq_true_2 by lia. done.
Qed.

Lemma decimalDigits_acc buffer : ∀ value digits,
  decimalDigits buffer value digits = decimalDigits buffer value [] ++ digits.
Proof.
  induction buffer as [|buffer IH]; intros value digits; [done|]. cbn [decimalDigits].
  case_bool_decide; [done|]. rewrite IH, (IH _ [_]), <- app_assoc. done.
Qed.

(** With room for its digits a number is written whole. *)
Lemma decimalDigits_value buffer : ∀ value, 0 ≤ value < 10 ^ Z.of_nat buffer → buffer ≠ O →
  all_digits (decimalDigits buffer value []) ∧ digits_value (decimalDigits buffer value []) = value ∧
  decimalDigits buffer value [] ≠ [].
Proof.
  induction buffer as [|buffer IH]; intros value Hv Hb; [done|]. cbn [decimalDigits].
  pose proof (Z.mod_pos_bound value 10 ltac:(lia)).
  destruct (digit_char_spec (value mod 10) ltac:(lia)) as [Hd Hdv].
  case_bool_decide as Hlt.
  - split_and!; [by repeat constructor| |done]. unfold digits_value, digits_from. simpl. rewrite Hdv, Z.mod_small; lia.
  - rewrite decimalDigits_acc. rewrite Nat2Z.inj_succ, Z.pow_succ_r in Hv by lia.
    destruct (IH (value / 10)) as (Ha & Hq & _).
    { split; [apply Z.div_pos; lia|apply Z.div_lt_upper_bound; lia]. }
    { intros ->. simpl in Hv. lia. }
    split_and!.
    + apply all_digits_app. split; [done|by repeat constructor].
    + rewrite digits_value_app, Hq. unfold digits_value, digits_from. simpl. rewrite Hdv.
      pose proof (Z.div_mod value 10 ltac:(lia)). lia.
    + by intros []%app_nil.
Qed.

(** More room changes nothing. *)
Lemma decimalDigits_room b1 : ∀ b2 value, 0 ≤ value → value < 10 ^ Z.of_nat b1 → value < 10 ^ Z.of_nat b2 →
  b1 ≠ O → b2 ≠ O → decimalDigits b1 value [] = decimalDigits b2 value [].
Proof.
  induction b1 as [|b1 IH]; intros b2 value H0 Hv1 Hv2 Hb1 Hb2; [done|]. destruct b2 as [|b2]; [done|].
  cbn [decimalDigits]. case_bool_decide as Hlt; [done|].
  rewrite decimalDigits_acc, (decimalDigits_acc b2). f_equal.
  rewrite Nat2Z.inj_succ, Z.pow_succ_r in Hv1, Hv2 by lia.
  apply IH.
  - apply Z.div_pos; lia.
  - apply Z.div_lt_upper_bound; lia.
  - apply Z.div_lt_upper_bound; lia.
  - intros ->. simpl in Hv1. lia.
  - intros ->. simpl in Hv2. lia.
Qed.

Lemma decimalDigits_length buffer : ∀ value digits, (length (decimalDigits buffer value digits) ≤ buffer + length digits)%nat.
Proof.
  induction buffer as [|buffer IH]; intros value digits; cbn [decimalDigits]; [simpl; lia|].
  case_bool_decide; simpl; [lia|]. etrans; [apply IH|]. simpl. lia.
Qed.

Lemma decimal_room (n : N) : Z.of_N n < 10 ^ Z.of_nat (Datatypes.S (N.to_nat (N.log2 n))).
Proof.
  destruct (decide (n = 0%N)) as [->|Hn]; [reflexivity|].
  destruct (N.log2_spec n) as [_ Hlt]; [lia|].
  apply N2Z.inj_lt in Hlt. rewrite N2Z.inj_pow in Hlt.
  eapply Z.lt_le_trans; [exact Hlt|].
  replace (Z.of_N (N.succ (N.log2 n))) with (Z.of_nat (Datatypes.S (N.to_nat (N.log2 n)))) by lia.
  apply Z.pow_le_mono_l. lia.
Qed.

Lemma decimal_digits n : all_digits (decimal n) ∧ Z.to_N (digits_value (decimal n)) = n ∧ decimal n ≠ [].
Proof.
  unfold decimal. destruct (decimalDigits_value (Datatypes.S (N.to_nat (N.log2 n))) (Z.of_N n)) as (? & -> & ?).
  - split; [lia|apply decimal_room].
  - done.
  - split_and!; [done|lia|done].
Qed.

(** The buffer of the source holds every unsigned 64-bit number. *)
Lemma appendUnsigned_decimal output v : is_u64 v → appendUnsigned output v = output ++ decimal (Z.to_N v).
Proof.
  intros Hv. unfold is_u64, UINT64_MAX in Hv. unfold appendUnsigned, decimal. f_equal. rewrite Z2N.id by lia.
  apply decimalDigits_room; [lia| |rewrite <- (Z2N.id v) at 1 by lia; apply decimal_room|done|done].
  change (10 ^ Z.of_nat 20) with 100000000000000000000. lia.
Qed.

(** ** Strings *)
Lemma appendJsonCharacter_app output c : appendJsonCharacter output c = output ++ appendJsonCharacter [] c.
Proof.
  unfold appendJsonCharacter. repeat (case_match; [done|]).
  case_match; [|done]. by rewrite <- !app_assoc.
Qed.

Lemma appendJsonString_quoted output v : appendJsonString output v = output ++ quoted v.
Proof.
  unfold appendJsonString, quoted.
  assert (Hf : ∀ v acc, foldl appendJsonCharacter acc v = acc ++ escaped v).
  { clear. induction v as [|c v IH]; intros acc; simpl; [by rewrite app_nil_r|].
    rewrite IH, appendJsonCharacter_app, <- app_assoc. done. }
  rewrite Hf, <- !app_assoc. done.
Qed.

(** Reading an escaped character gives the character. *)
Lemma readString_escaped c t : readString (appendJsonCharacter [] c ++ t) =
  '(s, rest) ← readString t; Some (c :: s, rest).
Proof. destruct c as [[] [] [] [] [] [] [] []]; reflexivity. Qed.

Lemma readString_quoted s rest : readString (escaped s ++ quote_mark :: rest) = Some (s, rest).
Proof.
  induction s as [|c s IH]; [reflexivity|]. unfold escaped. cbn [mbind list_bind].
  rewrite <- app_assoc, readString_escaped. fold (escaped s). by rewrite IH.
Qed.

(** ** Values *)

(** What can follow a number. *)
Definition no_digit (rest : text) : Prop := match rest with c :: _ => is_digit c = false | [] => True end.

Lemma readDigits_app digits rest : all_digits digits → no_digit rest → readDigits (digits ++ rest) = (digits, rest).
Proof.
  intros Hd Hr. induction digits as [|c digits IH]; simpl.
  - destruct rest as [|c rest]; [done|]. simpl in *. by rewrite Hr.
  - apply Forall_cons in Hd as [Hc Hd]. rewrite Hc, IH by done. done.
Qed.

Lemma render_object fields : render (JObject fields) = brace_open :: separated (map renderField fields) ++ [brace_close].
Proof. simpl. do 3 f_equal. apply map_ext. by intros []. Qed.

(** No value starts with a closing mark. *)
Lemma render_start j : ∃ c t, render j = c :: t ∧ c ≠ bracket_close ∧ c ≠ brace_close.
Proof.
  destruct j; simpl; try (eexists _, _; split; [reflexivity|done]).
  destruct (decimal_digits n) as (Hd & _ & Hne). destruct (decimal n) as [|c t] eqn:E; [done|].
  apply Forall_cons in Hd as [Hc _]. eexists _, _. split; [reflexivity|].
  split; intros ->; vm_compute in Hc; discriminate.
Qed.

Lemma readValue_digits fuel digits rest : all_digits digits → digits ≠ [] → no_digit rest →
  readValue (Datatypes.S fuel) (digits ++ rest) = Some (JNumber (Z.to_N (digits_value digits)), rest).
Proof.
  intros Hd Hne Hr. cbn [readValue]. pose proof (readDigits_app _ _ Hd Hr) as Hread.
  destruct digits as [|c digits]; [done|]. cbn [app] in *.
  apply Forall_cons in Hd as [Hc _].
  rewrite !bool_decide_eq_false_2 by (intros ->; vm_compute in Hc; discriminate).
  rewrite Hread. done.
Qed.

Lemma separated_cons part parts : parts ≠ [] → separated (part :: parts) = part ++ comma :: separated parts.
Proof. by destruct parts. Qed.

Lemma renderField_app name value rest :
  renderField (name, value) ++ rest = quote_mark :: escaped name ++ quote_mark :: colon :: render value ++ rest.
Proof. unfold renderField, quoted. cbn [fst snd app]. by rewrite <- !app_assoc. Qed.

Lemma renderField_length name value : (length (render value) < length (renderField (name, value)))%nat.
Proof. unfold renderField. rewrite length_app. cbn [fst snd length]. lia. Qed.

(** Reading a field: its name, then its value and what follows. *)
Lemma readFields_step fuel name t :
  readFields (Datatypes.S fuel) (quote_mark :: escaped name ++ quote_mark :: colon :: t) =
  ('(value, rest) ← readValue fuel t;
   match rest with
   | c :: rest =>
       if bool_decide (c = comma) then '(fields, rest) ← readFields fuel rest; Some ((name, value) :: fields, rest)
       else if bool_decide (c = brace_close) then Some ([(name, value)], rest) else None
   | [] => None
   end).
Proof. cbn [readFields]. rewrite bool_decide_eq_true_2 by done. rewrite readString_quoted. reflexivity. Qed.

Lemma read_back fuel :
  (∀ j rest, no_digit rest → (length (render j) ≤ fuel)%nat → readValue fuel (render j ++ rest) = Some (j, rest)) ∧
  (∀ items rest, items ≠ [] → (length (separated (map render items)) < fuel)%nat →
     readItems fuel (separated (map render items) ++ bracket_close :: rest) = Some (items, rest)) ∧
  (∀ fields rest, fields ≠ [] → (length (separated (map renderField fields)) < fuel)%nat →
     readFields fuel (separated (map renderField fields) ++ brace_close :: rest) = Some (fields, rest)).
Proof.
  induction fuel as [|fuel (IHv & IHi & IHf)].
  { split_and!; [|lia|lia]. intros j rest _ Hl. destruct (render_start j) as (c & t & E & _). rewrite E in Hl. simpl in Hl. lia. }
  split_and!.
  - intros j rest Hr Hl. destruct j as [n|s|items|fields].
    + destruct (decimal_digits n) as (Hd & Hv & Hne). cbn [render]. rewrite readValue_digits by done. by rewrite Hv.
    + cbn [render]. unfold quoted. cbn [app readValue]. rewrite bool_decide_eq_true_2 by done.
      rewrite <- app_assoc. cbn [app]. by rewrite readString_quoted.
    + cbn [render app readValue] in *. rewrite bool_decide_eq_false_2, bool_decide_eq_true_2 by done.
      rewrite <- app_assoc. cbn [app]. destruct items as [|item items]; [done|].
      destruct (render_start item) as (c & t & E & Hc & _).
      assert (Es : ∃ t, separated (map render (item :: items)) = c :: t).
      { cbn [map]. destruct items; cbn [map separated]; rewrite E; by eexists. }
      destruct Es as [t' Es]. pose proof (IHi (item :: items) rest) as Hi. rewrite Es in *. cbn [app].
      rewrite bool_decide_eq_false_2 by done. cbn [app] in Hi. rewrite Hi; [done|done|].
      cbn [length app] in Hl |- *. rewrite length_app in Hl. simpl in Hl. lia.
    + rewrite render_object in *. cbn [app readValue] in *.
      rewrite !(bool_decide_eq_false_2 (brace_open = _)), bool_decide_eq_true_2 by done.
      rewrite <- app_assoc. cbn [app]. destruct fields as [|field fields]; [done|].
      assert (Es : ∃ t, separated (map renderField (field :: fields)) = quote_mark :: t).
      { cbn [map]. destruct fields; cbn [map separated]; unfold renderField, quoted; cbn [app]; by eexists. }
      destruct Es as [t' Es]. pose proof (IHf (field :: fields) rest) as Hf. rewrite Es in *. cbn [app].
      rewrite bool_decide_eq_false_2 by done. cbn [app] in Hf. rewrite Hf; [done|done|].
      cbn [length app] in Hl |- *. rewrite length_app in Hl. simpl in Hl. lia.
  - intros [|item items] rest Hne Hl; [done|]. cbn [readItems map]. destruct items as [|item' items].
    + cbn [map separated] in *. rewrite IHv by (done || lia). cbn [mbind option_bind].
      rewrite bool_decide_eq_false_2, bool_decide_eq_true_2 by done. done.
    + cbn [map] in Hl. rewrite separated_cons in * by done. rewrite length_app in Hl. cbn [length] in Hl.
      rewrite <- app_assoc. cbn [app]. rewrite IHv by (done || lia). cbn [mbind option_bind].
      rewrite bool_decide_eq_true_2 by done. change (render item' :: map render items) with (map render (item' :: items)).
      rewrite IHi; [done|done|cbn [map]; lia].
  - intros [|[name value] fields] rest Hne Hl; [done|]. cbn [map]. destruct fields as [|field fields].
    + cbn [map separated] in *. pose proof (renderField_length name value). rewrite renderField_app, readFields_step by done.
      rewrite IHv by (done || lia). cbn [mbind option_bind].
      rewrite bool_decide_eq_false_2, bool_decide_eq_true_2 by done. done.
    + cbn [map] in Hl. rewrite separated_cons in * by done. rewrite length_app in Hl. cbn [length] in Hl.
      pose proof (renderField_length name value). rewrite <- app_assoc. cbn [app].
      rewrite renderField_app, readFields_step by done. rewrite IHv by (done || lia). cbn [mbind option_bind].
      rewrite bool_decide_eq_true_2 by done.
      change (renderField field :: map renderField fields) with (map renderField (field :: fields)).
      rewrite IHf; [done|done|cbn [map]; lia].
Qed.

(** The text of a document is read back as the document. *)
Lemma readJson_render j : readJson (render j) = Some j.
Proof.
  unfold readJson. destruct (read_back (length (render j))) as (Hv & _).
  specialize (Hv j [] I ltac:(lia)). rewrite app_nil_r in Hv. by rewrite Hv.
Qed.

Lemma render_inj j1 j2 : render j1 = render j2 → j1 = j2.
Proof. intros E. apply (f_equal readJson) in E. rewrite !readJson_render in E. by injection E. Qed.
