(* ===== verification/EventJsonFacts.v ===== *)
(** * The documents of application events

    What each function of [EventJson.v] appends is the text of a document; a batch is
    serialized exactly when its events agree on the run, the command and, for a
    private result, the recipient. *)
From S2P Require Import Prelude Domain Projection FixParser EventJson JsonText.

(** ** Documents of the events *)
Definition object (fields : list (string * json)) : json := JObject (map (λ '(name, value), (chars name, value)) fields).
Definition numeral (v : Z) : json := JString (decimal (Z.to_N v)).

(** The names a reader of the documents knows; a raw side has none. *)
Definition sideText (side : Side) : text :=
  chars match side with Side.BUY => "BUY" | Side.SELL => "SELL" | Side.Side_raw _ => "" end.
Definition roleText (role : TradeRole) : text :=
  chars match role with Role.MAKER => "MAKER" | Role.TAKER => "TAKER" end.
Definition commandTypeText (type : CommandType) : text :=
  chars match type with CmdType.NEW_ORDER => "NEW_ORDER" | CmdType.CANCEL => "CANCEL" end.
Definition cancelReasonText (reason : CancelReason) : text :=
  chars match reason with CLIENT_REQUESTED => "CLIENT_REQUESTED" | IOC_REMAINDER => "IOC_REMAINDER" end.
Definition rejectionReasonText (reason : CommandRejectionReason) : text :=
  chars match reason with
        | ORDER_NOT_ACTIVE => "ORDER_NOT_ACTIVE"
        | NOT_OWNER => "NOT_OWNER"
        | BOOK_CAPACITY_EXCEEDED => "BOOK_CAPACITY_EXCEEDED"
        end.

#[global] Arguments sideText : simpl never.
#[global] Arguments roleText : simpl never.
#[global] Arguments commandTypeText : simpl never.
#[global] Arguments cancelReasonText : simpl never.
#[global] Arguments rejectionReasonText : simpl never.

Definition eventIdDoc (e : EventId) : json :=
  object [("exchangeRunId", numeral (EventId.exchangeRunId e)); ("commandSequence", numeral (EventId.commandSequence e));
          ("eventIndex", JNumber (Z.to_N (EventId.eventIndex e)))]%string.
Definition publicTradeDoc (t : PublicTrade) : json :=
  object [("eventId", eventIdDoc (PublicTrade.eventId t)); ("instrumentId", numeral (PublicTrade.instrumentId t));
          ("executionPrice", numeral (PublicTrade.executionPrice t));
          ("executionQuantity", numeral (PublicTrade.executionQuantity t));
          ("aggressorSide", JString (sideText (PublicTrade.aggressorSide t)))]%string.
Definition privateTradeDoc (t : PrivateTrade) : json :=
  object [("type", JString (chars "privateTrade")); ("eventId", eventIdDoc (PrivateTrade.eventId t));
          ("instrumentId", numeral (PrivateTrade.instrumentId t)); ("orderId", numeral (PrivateTrade.orderId t));
          ("side", JString (sideText (PrivateTrade.side t))); ("role", JString (roleText (PrivateTrade.role t)));
          ("executionPrice", numeral (PrivateTrade.executionPrice t));
          ("executionQuantity", numeral (PrivateTrade.executionQuantity t));
          ("remainingQuantity", numeral (PrivateTrade.remainingQuantity t))]%string.
Definition orderRestedDoc (e : OrderRested) : json :=
  object [("type", JString (chars "orderRested")); ("eventId", eventIdDoc (Rested.eventId e));
          ("orderId", numeral (Rested.orderId e)); ("clientId", numeral (Rested.clientId e));
          ("instrumentId", numeral (Rested.instrumentId e)); ("side", JString (sideText (Rested.side e)));
          ("price", numeral (Rested.price e)); ("remainingQuantity", numeral (Rested.remainingQuantity e))]%string.
Definition orderCancelledDoc (e : OrderCancelled) : json :=
  object [("type", JString (chars "orderCancelled")); ("eventId", eventIdDoc (Cancelled.eventId e));
          ("orderId", numeral (Cancelled.orderId e)); ("clientId", numeral (Cancelled.clientId e));
          ("instrumentId", numeral (Cancelled.instrumentId e));
          ("cancelledQuantity", numeral (Cancelled.cancelledQuantity e));
          ("reason", JString (cancelReasonText (Cancelled.reason e)))]%string.
Definition commandRejectedDoc (e : CommandRejected) : json :=
  object ([("type", JString (chars "commandRejected")); ("eventId", eventIdDoc (Rejected.eventId e));
           ("commandType", JString (commandTypeText (Rejected.commandType e)));
           ("clientId", numeral (Rejected.clientId e));
           ("clientCommandId", JString (chars (Rejected.clientCommandId e)))]%string ++
          match Rejected.relevantOrderId e with Some o => [("relevantOrderId"%string, numeral o)] | None => [] end ++
          [("reason"%string, JString (rejectionReasonText (Rejected.reason e)))]).
Definition privateEventDoc (e : PrivateEvent) : json :=
  match e with
  | PvTrade e => privateTradeDoc e
  | PvRested e => orderRestedDoc e
  | PvCancelled e => orderCancelledDoc e
  | PvRejected e => commandRejectedDoc e
  end.
Definition correlationDoc (c : CommandResultCorrelation) : json :=
  object [("exchangeRunId", numeral (Correlation.exchangeRunId c)); ("clientId", numeral (Correlation.clientId c));
          ("clientCommandId", JString (chars (Correlation.clientCommandId c)));
          ("commandSequence", numeral (Correlation.commandSequence c))]%string.

Definition publicTradesDoc (run : ExchangeRunId) (trades : list PublicTrade) : json :=
  object [("schemaVersion", JNumber 1); ("type", JString (chars "publicTrades")); ("exchangeRunId", numeral run);
          ("trades", JArray (map publicTradeDoc trades))]%string.
Definition privateResultDoc (run : ExchangeRunId) (r : RecipientResult) : json :=
  object ([("schemaVersion", JNumber 1); ("type", JString (chars "privateResult")); ("exchangeRunId", numeral run);
           ("recipientClientId", numeral (Recipient.recipient r))]%string ++
          match Recipient.correlation r with Some c => [("correlation"%string, correlationDoc c)] | None => [] end ++
          [("events"%string, JArray (map privateEventDoc (Recipient.privateResult r)))]).

(** ** The values of 64-bit fields *)
Definition eventId_u64 (e : EventId) : Prop :=
  is_u64 (EventId.exchangeRunId e) ∧ is_u64 (EventId.commandSequence e) ∧ is_u64 (EventId.eventIndex e).
Definition publicTrade_u64 (t : PublicTrade) : Prop :=
  eventId_u64 (PublicTrade.eventId t) ∧ is_u64 (PublicTrade.instrumentId t) ∧
  is_u64 (PublicTrade.executionPrice t) ∧ is_u64 (PublicTrade.executionQuantity t).
Definition privateEvent_u64 (e : PrivateEvent) : Prop :=
  eventId_u64 (privateEventId e) ∧
  match e with
  | PvTrade e => is_u64 (PrivateTrade.instrumentId e) ∧ is_u64 (PrivateTrade.orderId e) ∧
      is_u64 (PrivateTrade.executionPrice e) ∧ is_u64 (PrivateTrade.executionQuantity e) ∧
      is_u64 (PrivateTrade.remainingQuantity e)
  | PvRested e => is_u64 (Rested.orderId e) ∧ is_u64 (Rested.clientId e) ∧ is_u64 (Rested.instrumentId e) ∧
      is_u64 (Rested.price e) ∧ is_u64 (Rested.remainingQuantity e)
  | PvCancelled e => is_u64 (Cancelled.orderId e) ∧ is_u64 (Cancelled.clientId e) ∧ is_u64 (Cancelled.instrumentId e) ∧
      is_u64 (Cancelled.cancelledQuantity e)
  | PvRejected e => is_u64 (Rejected.clientId e) ∧ from_option is_u64 True (Rejected.relevantOrderId e)
  end.
Definition correlation_u64 (c : CommandResultCorrelation) : Prop :=
  is_u64 (Correlation.exchangeRunId c) ∧ is_u64 (Correlation.clientId c) ∧ is_u64 (Correlation.commandSequence c).
Definition recipientResult_u64 (r : RecipientResult) : Prop :=
  is_u64 (Recipient.recipient r) ∧ from_option correlation_u64 True (Recipient.correlation r) ∧
  Forall privateEvent_u64 (Recipient.privateResult r).

(** ** What is appended *)
Lemma decimal_plain n : escaped (decimal n) = decimal n.
Proof.
  destruct (decimal_digits n) as (Hd & _ & _). induction (decimal n) as [|c l IH]; [done|].
  apply Forall_cons in Hd as [Hc Hl]. unfold escaped in *. cbn [mbind list_bind]. rewrite IH by done.
  assert (E : appendJsonCharacter [] c = [c]).
  { revert Hc. clear. destruct c as [[] [] [] [] [] [] [] []]; intros Hc; try reflexivity; vm_compute in Hc; discriminate. }
  by rewrite E.
Qed.

Lemma appendQuotedUnsigned_doc output v : is_u64 v → appendQuotedUnsigned output v = output ++ render (numeral v).
Proof.
  intros Hv. unfold appendQuotedUnsigned. rewrite appendUnsigned_decimal by done.
  unfold numeral. cbn [render]. unfold quoted. rewrite decimal_plain, <- !app_assoc. done.
Qed.

Lemma appendJsonString_doc output s : appendJsonString output s = output ++ render (JString s).
Proof. apply appendJsonString_quoted. Qed.

Ltac appended :=
  rewrite ?appendJsonString_doc; repeat rewrite appendQuotedUnsigned_doc by done;
  repeat rewrite appendUnsigned_decimal by done;
  unfold object; rewrite ?render_object; cbn [map separated]; unfold renderField; cbn [fst snd];
  repeat progress (rewrite <- ?app_assoc; cbn [app]); reflexivity.

Lemma appendEventId_doc output e : eventId_u64 e → appendEventId output e = output ++ render (eventIdDoc e).
Proof. intros (? & ? & ?). unfold appendEventId, eventIdDoc. appended. Qed.

(** The enumerators are named as their reader expects. *)
Lemma side_name side name : sideName side = Some name → sideText side = name.
Proof. by destruct side; intros [= <-]. Qed.
Lemma role_name role name : roleName role = Some name → roleText role = name.
Proof. by destruct role; intros [= <-]. Qed.
Lemma commandType_name type name : commandTypeName type = Some name → commandTypeText type = name.
Proof. by destruct type; intros [= <-]. Qed.
Lemma cancelReason_name reason name : cancelReasonName reason = Some name → cancelReasonText reason = name.
Proof. by destruct reason; intros [= <-]. Qed.
Lemma rejectionReason_name reason name : rejectionReasonName reason = Some name → rejectionReasonText reason = name.
Proof. by destruct reason; intros [= <-]. Qed.

Lemma appendPublicTrade_doc output t side : publicTrade_u64 t → sideName (PublicTrade.aggressorSide t) = Some side →
  appendPublicTrade output t side = output ++ render (publicTradeDoc t).
Proof.
  intros (? & ? & ? & ?) E. unfold appendPublicTrade, publicTradeDoc. rewrite (side_name _ _ E), appendEventId_doc by done. appended.
Qed.

Lemma appendPrivateTrade_doc output t side role : privateEvent_u64 (PvTrade t) →
  sideName (PrivateTrade.side t) = Some side → roleName (PrivateTrade.role t) = Some role →
  appendPrivateTrade output t side role = output ++ render (privateTradeDoc t).
Proof.
  intros (? & ? & ? & ? & ? & ?) Es Er. unfold appendPrivateTrade, privateTradeDoc.
  rewrite (side_name _ _ Es), (role_name _ _ Er), appendEventId_doc by done. appended.
Qed.

Lemma appendOrderRested_doc output e side : privateEvent_u64 (PvRested e) → sideName (Rested.side e) = Some side →
  appendOrderRested output e side = output ++ render (orderRestedDoc e).
Proof.
  intros (? & ? & ? & ? & ? & ?) Es. unfold appendOrderRested, orderRestedDoc. rewrite (side_name _ _ Es), appendEventId_doc by done. appended.
Qed.

Lemma appendOrderCancelled_doc output e reason : privateEvent_u64 (PvCancelled e) →
  cancelReasonName (Cancelled.reason e) = Some reason →
  appendOrderCancelled output e reason = output ++ render (orderCancelledDoc e).
Proof.
  intros (? & ? & ? & ? & ?) Er. unfold appendOrderCancelled, orderCancelledDoc. rewrite (cancelReason_name _ _ Er), appendEventId_doc by done. appended.
Qed.

Lemma appendCommandRejected_doc output e commandType reason : privateEvent_u64 (PvRejected e) →
  commandTypeName (Rejected.commandType e) = Some commandType → rejectionReasonName (Rejected.reason e) = Some reason →
  appendCommandRejected output e commandType reason = output ++ render (commandRejectedDoc e).
Proof.
  intros (? & ? & Ho) Et Er. unfold appendCommandRejected, commandRejectedDoc.
  rewrite (commandType_name _ _ Et), (rejectionReason_name _ _ Er), appendEventId_doc by done.
  destruct (Rejected.relevantOrderId e); cbn [from_option app] in *; appended.
Qed.

(** ** Errors *)

(** The first of two errors. *)
Definition orElse (error next : ApplicationEventJsonError) : ApplicationEventJsonError :=
  match error with
  | JsonError.NONE => next
  | JsonError.EMPTY_EVENTS => JsonError.EMPTY_EVENTS
  | JsonError.RUN_MISMATCH => JsonError.RUN_MISMATCH
  | JsonError.COMMAND_SEQUENCE_MISMATCH => JsonError.COMMAND_SEQUENCE_MISMATCH
  | JsonError.CORRELATION_MISMATCH => JsonError.CORRELATION_MISMATCH
  | JsonError.RECIPIENT_MISMATCH => JsonError.RECIPIENT_MISMATCH
  | JsonError.INVALID_ENUM => JsonError.INVALID_ENUM
  end.
(** The error the first faulty event of a batch gives. *)
Definition firstError : list ApplicationEventJsonError → ApplicationEventJsonError := foldr orElse JsonError.NONE.

Definition identityError (run : ExchangeRunId) (sequence : CommandSequence) (e : EventId) : ApplicationEventJsonError :=
  if bool_decide (EventId.exchangeRunId e ≠ run) then JsonError.RUN_MISMATCH
  else if bool_decide (EventId.commandSequence e ≠ sequence) then JsonError.COMMAND_SEQUENCE_MISMATCH
  else JsonError.NONE.
Definition sideError (side : Side) : ApplicationEventJsonError :=
  match side with Side.Side_raw _ => JsonError.INVALID_ENUM | _ => JsonError.NONE end.
Definition ownerError (owner recipient : ClientId) : ApplicationEventJsonError :=
  if bool_decide (owner ≠ recipient) then JsonError.RECIPIENT_MISMATCH else JsonError.NONE.

Definition tradeError (run : ExchangeRunId) (sequence : CommandSequence) (t : PublicTrade) : ApplicationEventJsonError :=
  orElse (identityError run sequence (PublicTrade.eventId t)) (sideError (PublicTrade.aggressorSide t)).
Definition typedError (recipient : ClientId) (e : PrivateEvent) : ApplicationEventJsonError :=
  match e with
  | PvTrade e => sideError (PrivateTrade.side e)
  | PvRested e => orElse (ownerError (Rested.clientId e) recipient) (sideError (Rested.side e))
  | PvCancelled e => ownerError (Cancelled.clientId e) recipient
  | PvRejected e => ownerError (Rejected.clientId e) recipient
  end.
Definition eventError (run : ExchangeRunId) (sequence : CommandSequence) (recipient : ClientId) (e : PrivateEvent)
    : ApplicationEventJsonError :=
  orElse (identityError run sequence (privateEventId e)) (typedError recipient e).

(** A correlation names the run and the command of the events, and the recipient. *)
Definition correlationError (run : ExchangeRunId) (sequence : CommandSequence) (recipient : ClientId)
    (correlation : option CommandResultCorrelation) : ApplicationEventJsonError :=
  match correlation with
  | None => JsonError.NONE
  | Some c =>
      if bool_decide ((Correlation.exchangeRunId c, Correlation.commandSequence c) ≠ (run, sequence))
      then JsonError.CORRELATION_MISMATCH else ownerError (Correlation.clientId c) recipient
  end.

Definition publicError (run : ExchangeRunId) (trades : list PublicTrade) : ApplicationEventJsonError :=
  match trades with
  | [] => JsonError.EMPTY_EVENTS
  | front :: _ => firstError (map (tradeError run (EventId.commandSequence (PublicTrade.eventId front))) trades)
  end.
Definition privateError (run : ExchangeRunId) (r : RecipientResult) : ApplicationEventJsonError :=
  match Recipient.privateResult r with
  | [] => JsonError.EMPTY_EVENTS
  | front :: _ =>
      let sequence := EventId.commandSequence (privateEventId front) in
      orElse (firstError (map (eventError run sequence (Recipient.recipient r)) (Recipient.privateResult r)))
        (correlationError run sequence (Recipient.recipient r) (Recipient.correlation r))
  end.

Lemma orElse_NONE e1 e2 : orElse e1 e2 = JsonError.NONE ↔ e1 = JsonError.NONE ∧ e2 = JsonError.NONE.
Proof. destruct e1; naive_solver. Qed.

Lemma firstError_NONE es : firstError es = JsonError.NONE ↔ Forall (eq JsonError.NONE) es.
Proof.
  induction es as [|e es IH]; [by split|]. cbn [firstError foldr]. fold (firstError es).
  rewrite orElse_NONE, Forall_cons, IH. naive_solver.
Qed.

(** ** Batches *)

(** What the loop appends from the position [index] on. *)
Fixpoint joined (index : nat) (parts : list text) : text :=
  match parts with
  | [] => []
  | part :: parts' => (if (index =? 0)%nat then [] else [comma]) ++ part ++ joined (Datatypes.S index) parts'
  end.

Lemma joined_later parts : ∀ part index, joined (Datatypes.S index) parts = joined 1 parts ∧
  part ++ joined 1 parts = separated (part :: parts).
Proof.
  induction parts as [|next parts IH]; intros part index; [by rewrite app_nil_r|].
  destruct (IH next index) as [_ IH2], (IH next (Datatypes.S index)) as [IH1 _], (IH next 1%nat) as [IH3 _].
  cbn [joined Nat.eqb app]. rewrite IH1, IH3. split; [done|]. rewrite separated_cons by done. do 2 f_equal. done.
Qed.

Lemma joined_separated parts : joined 0 parts = separated parts.
Proof. destruct parts as [|part parts]; [done|]. cbn [joined Nat.eqb app]. apply (joined_later parts part 0). Qed.

(** A loop that either meets an error or appends all its parts. *)
Definition appends (result : ApplicationEventJsonError * text) (error : ApplicationEventJsonError) (t : text) : Prop :=
  result.1 = error ∧ (error = JsonError.NONE → result.2 = t).

Lemma sideError_name side : match sideName side with
  | Some _ => sideError side = JsonError.NONE
  | None => sideError side = JsonError.INVALID_ENUM
  end.
Proof. by destruct side. Qed.

Lemma appendTrades_spec run sequence trades : Forall publicTrade_u64 trades → ∀ serialized index,
  appends (appendTrades serialized index trades run sequence) (firstError (map (tradeError run sequence) trades))
    (serialized ++ joined index (map (λ t, render (publicTradeDoc t)) trades)).
Proof.
  induction 1 as [|t trades Ht Htrades IH]; intros serialized index; [by split; [|rewrite app_nil_r]|].
  cbn [appendTrades map joined firstError foldr]. fold (firstError (map (tradeError run sequence) trades)).
  unfold tradeError at 1, identityError.
  case_bool_decide; [by split|]. case_bool_decide; [by split|].
  pose proof (sideError_name (PublicTrade.aggressorSide t)) as Hs.
  destruct (sideName (PublicTrade.aggressorSide t)) as [side|] eqn:Eside; rewrite Hs; [|by split].
  cbn [orElse]. erewrite appendPublicTrade_doc by done. specialize (IH ((if (index =? 0)%nat then serialized
    else serialized ++ lit ",") ++ render (publicTradeDoc t)) (Datatypes.S index)). destruct IH as [IH1 IH2].
  split; [done|]. intros E. rewrite IH2 by done. destruct (index =? 0)%nat; by rewrite <- ?app_assoc.
Qed.

Lemma appendTypedEvent_spec recipient e serialized : privateEvent_u64 e →
  appends (appendTypedEvent serialized e recipient) (typedError recipient e) (serialized ++ render (privateEventDoc e)).
Proof.
  intros He. destruct e as [e|e|e|e]; cbn [appendTypedEvent typedError privateEventDoc]; unfold ownerError.
  - pose proof (sideError_name (PrivateTrade.side e)) as Hs. destruct (sideName (PrivateTrade.side e)) eqn:E; rewrite Hs; [|by split].
    destruct (roleName (PrivateTrade.role e)) eqn:Er; [|by destruct (PrivateTrade.role e)].
    split; [done|]. intros _. by erewrite <- appendPrivateTrade_doc.
  - case_bool_decide; [by split|].
    pose proof (sideError_name (Rested.side e)) as Hs. destruct (sideName (Rested.side e)) eqn:E; rewrite Hs; [|by split].
    split; [done|]. intros _. by erewrite <- appendOrderRested_doc.
  - case_bool_decide; [by split|]. destruct (cancelReasonName (Cancelled.reason e)) eqn:E; [|by destruct (Cancelled.reason e)].
    split; [done|]. intros _. by erewrite <- appendOrderCancelled_doc.
  - case_bool_decide; [by split|]. destruct (commandTypeName (Rejected.commandType e)) eqn:E; [|by destruct (Rejected.commandType e)].
    destruct (rejectionReasonName (Rejected.reason e)) eqn:Er; [|by destruct (Rejected.reason e)].
    split; [done|]. intros _. by erewrite <- appendCommandRejected_doc.
Qed.

(** The command sequence an event is compared with: the first event's. *)
Definition sequence_before (sequence : CommandSequence) (before : option CommandSequence) (e : PrivateEvent) : Prop :=
  before = Some sequence ∨ (before = None ∧ EventId.commandSequence (privateEventId e) = sequence).

Lemma appendPrivateEvent_spec run sequence recipient before e serialized : privateEvent_u64 e →
  sequence_before sequence before e →
  ∃ error t after, appendPrivateEvent serialized e run before recipient = (error, t, after) ∧
    appends (error, t) (eventError run sequence recipient e) (serialized ++ render (privateEventDoc e)) ∧
    (error = JsonError.NONE → after = Some sequence).
Proof.
  intros He Hb. unfold appendPrivateEvent, eventError, identityError.
  case_bool_decide; [eexists _, _, _; split; [reflexivity|by split]|].
  destruct (appendTypedEvent_spec recipient e serialized He) as [Herr Htext].
  destruct Hb as [->|[-> Hs]].
  - case_bool_decide; [eexists _, _, _; split; [reflexivity|by split]|].
    destruct (appendTypedEvent serialized e recipient) as [error t]. eexists _, _, _. split; [reflexivity|].
    by rewrite <- Herr in *.
  - rewrite (bool_decide_eq_false_2 (_ ≠ sequence)) by naive_solver. rewrite Hs.
    destruct (appendTypedEvent serialized e recipient) as [error t]. eexists _, _, _. split; [reflexivity|].
    by rewrite <- Herr in *.
Qed.

Lemma appendPrivateEvents_spec run sequence recipient events : Forall privateEvent_u64 events → ∀ serialized index before,
  (∀ e, head events = Some e → sequence_before sequence before e) →
  ∃ error t after, appendPrivateEvents serialized index events run before recipient = (error, t, after) ∧
    appends (error, t) (firstError (map (eventError run sequence recipient) events))
      (serialized ++ joined index (map (λ e, render (privateEventDoc e)) events)) ∧
    (error = JsonError.NONE → events ≠ [] → after = Some sequence).
Proof.
  induction 1 as [|e events He Hevents IH]; intros serialized index before Hb.
  { eexists _, _, _. split; [reflexivity|]. split; [split; [done|]|done]. intros _. by rewrite app_nil_r. }
  cbn [appendPrivateEvents map joined firstError foldr]. fold (firstError (map (eventError run sequence recipient) events)).
  set (before_text := if (index =? 0)%nat then serialized else _).
  destruct (appendPrivateEvent_spec run sequence recipient before e before_text He (Hb e eq_refl))
    as (error & t & after & -> & [<- Htext] & Hafter). cbn [fst snd] in *.
  destruct error; try (eexists _, _, _; split; [reflexivity|by split; [split|]]).
  destruct (IH t (Datatypes.S index) after) as (error & t' & after' & Ego & [Herr Htext'] & Hafter').
  { intros e' _. left. by apply Hafter. }
  rewrite Ego. eexists _, _, _. split; [reflexivity|]. split; [split; [done|]|].
  - intros E. rewrite Htext', Htext by done. unfold before_text. destruct (index =? 0)%nat; by rewrite <- ?app_assoc.
  - intros E _. destruct events; [|by apply Hafter']. injection Ego as _ _ <-. by apply Hafter.
Qed.

(** The text of the documents of batches. *)
Lemma render_publicTradesDoc run trades : is_u64 run →
  render (publicTradesDoc run trades) =
  (appendQuotedUnsigned (lit "{'schemaVersion':1,'type':'publicTrades','exchangeRunId':") run ++ lit ",'trades':[") ++
  separated (map (λ t, render (publicTradeDoc t)) trades) ++ lit "]}".
Proof.
  intros Hrun. rewrite appendQuotedUnsigned_doc, <- map_map by done. unfold publicTradesDoc, object.
  generalize (map publicTradeDoc trades). intros docs. rewrite render_object.
  cbn [map separated]. unfold renderField. cbn [fst snd]. repeat progress (rewrite <- ?app_assoc; cbn [app]).
  cbn [render]. repeat progress (rewrite <- ?app_assoc; cbn [app]). reflexivity.
Qed.

(** A batch of public trades: the text of its document, or the first error. *)
Lemma serializePublicTrades_spec run trades output : is_u64 run → Forall publicTrade_u64 trades →
  serializePublicTradesV1 run trades output =
  (publicError run trades,
   if bool_decide (publicError run trades = JsonError.NONE) then render (publicTradesDoc run trades) else output).
Proof.
  intros Hrun Ht. destruct trades as [|front trades]; [done|]. unfold serializePublicTradesV1, publicError.
  rewrite render_publicTradesDoc by done. set (sequence := EventId.commandSequence _).
  set (prefix := appendQuotedUnsigned _ _ ++ _). destruct (appendTrades_spec run sequence _ Ht prefix 0) as [<- Htext].
  destruct (appendTrades _ _ _ _ _) as [error t]. cbn [fst snd] in *.
  destruct error; [|by rewrite bool_decide_eq_false_2..]. rewrite bool_decide_eq_true_2, Htext by done. f_equal.
  by rewrite joined_separated, <- app_assoc.
Qed.

Lemma appendCorrelation_doc output c : correlation_u64 c →
  appendCorrelation output c = output ++ lit ",'correlation':" ++ render (correlationDoc c).
Proof. intros (? & ? & ?). unfold appendCorrelation, correlationDoc. appended. Qed.

Definition privatePrefix (run : ExchangeRunId) (r : RecipientResult) : text :=
  let serialized := appendQuotedUnsigned (lit "{'schemaVersion':1,'type':'privateResult','exchangeRunId':") run in
  let serialized := appendQuotedUnsigned (serialized ++ lit ",'recipientClientId':") (Recipient.recipient r) in
  match Recipient.correlation r with
  | Some correlation => appendCorrelation serialized correlation
  | None => serialized
  end ++ lit ",'events':[".

Lemma render_privateResultDoc run r : is_u64 run → recipientResult_u64 r →
  render (privateResultDoc run r) =
  privatePrefix run r ++ separated (map (λ e, render (privateEventDoc e)) (Recipient.privateResult r)) ++ lit "]}".
Proof.
  intros Hrun (Hr & Hc & _). unfold privatePrefix. rewrite <- map_map. unfold privateResultDoc, object.
  generalize (map privateEventDoc (Recipient.privateResult r)). intros docs.
  rewrite render_object. rewrite !appendQuotedUnsigned_doc by done.
  destruct (Recipient.correlation r) as [c|]; [rewrite appendCorrelation_doc by done|]; cbn [map separated app];
    unfold renderField; cbn [fst snd]; repeat progress (rewrite <- ?app_assoc; cbn [app]);
    cbn [render]; repeat progress (rewrite <- ?app_assoc; cbn [app]); reflexivity.
Qed.

Lemma checkCorrelation_error correlation run sequence recipient :
  checkCorrelation correlation run (Some sequence) recipient = correlationError run sequence recipient correlation.
Proof.
  destruct correlation as [c|]; [|done]. cbn [checkCorrelation correlationError]. unfold ownerError.
  destruct (bool_decide_reflect (Correlation.exchangeRunId c ≠ run)) as [Hr|Hr]; cbn [orb].
  { rewrite bool_decide_eq_true_2; [done|congruence]. }
  destruct (bool_decide_reflect (Some (Correlation.commandSequence c) ≠ Some sequence)) as [Hs|Hs].
  { rewrite bool_decide_eq_true_2; [done|congruence]. }
  apply dec_stable in Hr as ->. apply dec_stable in Hs as [= ->].
  by rewrite (bool_decide_eq_false_2 ((run, sequence) ≠ (run, sequence))) by (intros Hne; by apply Hne).
Qed.

(** One recipient's private result. *)
Lemma serializePrivateResult_spec run r output : is_u64 run → recipientResult_u64 r →
  serializePrivateResultV1 run r output =
  (privateError run r,
   if bool_decide (privateError run r = JsonError.NONE) then render (privateResultDoc run r) else output).
Proof.
  intros Hrun Hwide. rewrite render_privateResultDoc by done. destruct Hwide as (Hr & Hc & He).
  unfold serializePrivateResultV1, privateError. fold (privatePrefix run r).
  destruct (Recipient.privateResult r) as [|front events] eqn:Eevents; [done|].
  rewrite bool_decide_eq_false_2 by done. set (sequence := EventId.commandSequence _).
  destruct (appendPrivateEvents_spec run sequence (Recipient.recipient r) _ He (privatePrefix run r) 0 None)
    as (error & t & after & -> & [<- Htext] & Hafter).
  { intros e [= <-]. by right. }
  cbn [fst snd] in *. destruct error; try (by rewrite bool_decide_eq_false_2).
  rewrite Hafter by done. cbn [orElse].
  rewrite checkCorrelation_error. destruct (correlationError _ _ _ _); try (by rewrite bool_decide_eq_false_2).
  rewrite bool_decide_eq_true_2, Htext by done. f_equal. by rewrite joined_separated, <- app_assoc.
Qed.

(** * What the JSON of application events guarantees

    A payload is read back as the document of its events and nothing else, whatever
    bytes a client chose as its command identifier; two results with the same payload
    are the same result; an inconsistent result gives an error and no payload. *)

(** ** Documents determine their events *)
Section injective.
Lemma to_N_inj a b : is_u64 a → is_u64 b → Z.to_N a = Z.to_N b → a = b.
Proof. unfold is_u64. lia. Qed.

Lemma decimal_inj a b : is_u64 a → is_u64 b → decimal (Z.to_N a) = decimal (Z.to_N b) → a = b.
Proof.
  intros Ha Hb E. apply to_N_inj; [done..|]. apply (f_equal (λ l, Z.to_N (digits_value l))) in E.
  destruct (decimal_digits (Z.to_N a)) as (_ & Ea & _), (decimal_digits (Z.to_N b)) as (_ & Eb & _). congruence.
Qed.

Lemma text_of_chars_inj s1 s2 : chars s1 = chars s2 → s1 = s2.
Proof.
  intros E. rewrite <- (String.string_of_list_ascii_of_string s1), <- (String.string_of_list_ascii_of_string s2).
  by apply (f_equal String.string_of_list_ascii) in E.
Qed.

Lemma sideText_inj s1 s2 : sideError s1 = JsonError.NONE → sideError s2 = JsonError.NONE →
  sideText s1 = sideText s2 → s1 = s2.
Proof. by destruct s1, s2. Qed.
Lemma roleText_inj r1 r2 : roleText r1 = roleText r2 → r1 = r2.
Proof. by destruct r1, r2. Qed.
Lemma commandTypeText_inj t1 t2 : commandTypeText t1 = commandTypeText t2 → t1 = t2.
Proof. by destruct t1, t2. Qed.
Lemma cancelReasonText_inj r1 r2 : cancelReasonText r1 = cancelReasonText r2 → r1 = r2.
Proof. by destruct r1, r2. Qed.
Lemma rejectionReasonText_inj r1 r2 : rejectionReasonText r1 = rejectionReasonText r2 → r1 = r2.
Proof. by destruct r1, r2. Qed.

Lemma map_inj_on {A B} (P : A → Prop) (f : A → B) l k : (∀ x y, P x → P y → f x = f y → x = y) →
  Forall P l → Forall P k → map f l = map f k → l = k.
Proof.
  intros Hf Hl. revert k. induction Hl as [|x l Hx Hl IH]; intros [|y k] Hk E; try done.
  apply Forall_cons in Hk as [Hy Hk]. cbn in E. injection E as E1 E2. f_equal; [by apply Hf|by apply IH].
Qed.
End injective.

(** Equal fields of equal documents. *)
Ltac same_fields :=
  repeat match goal with
    | H : chars ?a = chars ?b |- _ => apply text_of_chars_inj in H
    | H : decimal (Z.to_N _) = decimal (Z.to_N _) |- _ => apply decimal_inj in H; [|done..]
    | H : Z.to_N _ = Z.to_N _ |- _ => apply to_N_inj in H; [|done..]
    | H : sideText _ = sideText _ |- _ => apply sideText_inj in H; [|done..]
    | H : roleText _ = _ |- _ => apply roleText_inj in H
    | H : commandTypeText _ = _ |- _ => apply commandTypeText_inj in H
    | H : cancelReasonText _ = _ |- _ => apply cancelReasonText_inj in H
    | H : rejectionReasonText _ = _ |- _ => apply rejectionReasonText_inj in H
    end.

Ltac same_document := let E := fresh in intros E; cbn in E; injection E; intros; same_fields.

Lemma EventId_ext e1 e2 : EventId.exchangeRunId e1 = EventId.exchangeRunId e2 →
  EventId.commandSequence e1 = EventId.commandSequence e2 → EventId.eventIndex e1 = EventId.eventIndex e2 → e1 = e2.
Proof. destruct e1, e2. cbn. congruence. Qed.

Lemma publicTradeDoc_inj t1 t2 :
  publicTrade_u64 t1 ∧ sideError (PublicTrade.aggressorSide t1) = JsonError.NONE →
  publicTrade_u64 t2 ∧ sideError (PublicTrade.aggressorSide t2) = JsonError.NONE →
  publicTradeDoc t1 = publicTradeDoc t2 → t1 = t2.
Proof.
  intros [((? & ? & ?) & ? & ? & ?) ?] [((? & ? & ?) & ? & ? & ?) ?]. same_document.
  assert (PublicTrade.eventId t1 = PublicTrade.eventId t2) by by apply EventId_ext.
  destruct t1, t2. cbn in *. congruence.
Qed.

Lemma privateEventDoc_inj recipient e1 e2 :
  privateEvent_u64 e1 ∧ typedError recipient e1 = JsonError.NONE →
  privateEvent_u64 e2 ∧ typedError recipient e2 = JsonError.NONE →
  privateEventDoc e1 = privateEventDoc e2 → e1 = e2.
Proof.
  destruct e1 as [e1|e1|e1|e1], e2 as [e2|e2|e2|e2];
    try (intros _ _ E; cbn in E; discriminate); cbn [privateEventDoc typedError]; unfold privateEvent_u64; cbn [privateEventId];
    intros [((? & ? & ?) & Hu1) Hn1] [((? & ? & ?) & Hu2) Hn2]; rewrite ?orElse_NONE in *; destruct_and?.
  - same_document. assert (PrivateTrade.eventId e1 = PrivateTrade.eventId e2) by by apply EventId_ext.
    destruct e1, e2. cbn in *. congruence.
  - same_document. assert (Rested.eventId e1 = Rested.eventId e2) by by apply EventId_ext.
    destruct e1, e2. cbn in *. congruence.
  - same_document. assert (Cancelled.eventId e1 = Cancelled.eventId e2) by by apply EventId_ext.
    destruct e1, e2. cbn in *. congruence.
  - unfold commandRejectedDoc.
    destruct (Rejected.relevantOrderId e1) eqn:E1, (Rejected.relevantOrderId e2) eqn:E2; cbn [from_option] in *;
      try (intros E; cbn in E; discriminate); same_document;
      assert (Rejected.eventId e1 = Rejected.eventId e2) by (by apply EventId_ext);
      destruct e1, e2; cbn in *; congruence.
Qed.

Lemma correlationDoc_inj c1 c2 : correlation_u64 c1 → correlation_u64 c2 → correlationDoc c1 = correlationDoc c2 → c1 = c2.
Proof. intros (? & ? & ?) (? & ? & ?). same_document. destruct c1, c2. cbn in *. congruence. Qed.

Lemma Forall_errors {A} (P : A → Prop) (error : A → ApplicationEventJsonError) (l : list A) :
  Forall P l → firstError (map error l) = JsonError.NONE → Forall (λ x, P x ∧ error x = JsonError.NONE) l.
Proof. rewrite firstError_NONE, Forall_map, !Forall_forall. naive_solver. Qed.

Lemma publicTradesDoc_inj run1 trades1 run2 trades2 : is_u64 run1 → is_u64 run2 →
  Forall publicTrade_u64 trades1 → Forall publicTrade_u64 trades2 →
  publicError run1 trades1 = JsonError.NONE → publicError run2 trades2 = JsonError.NONE →
  publicTradesDoc run1 trades1 = publicTradesDoc run2 trades2 → run1 = run2 ∧ trades1 = trades2.
Proof.
  intros Hr1 Hr2 Ht1 Ht2 He1 He2.
  assert (Hs : ∀ run trades, Forall publicTrade_u64 trades → publicError run trades = JsonError.NONE →
    Forall (λ t, publicTrade_u64 t ∧ sideError (PublicTrade.aggressorSide t) = JsonError.NONE) trades).
  { clear. intros run [|front trades] Ht He; [done|]. unfold publicError in He. eapply Forall_errors in He; [|done].
    eapply Forall_impl; [exact He|]. intros t [? [_ ?]%orElse_NONE]. done. }
  same_document. split; [done|]. eapply map_inj_on; [apply publicTradeDoc_inj| | |eassumption]; by eapply Hs.
Qed.

Lemma privateResultDoc_inj run1 r1 run2 r2 : is_u64 run1 → is_u64 run2 → recipientResult_u64 r1 → recipientResult_u64 r2 →
  privateError run1 r1 = JsonError.NONE → privateError run2 r2 = JsonError.NONE →
  privateResultDoc run1 r1 = privateResultDoc run2 r2 → run1 = run2 ∧ r1 = r2.
Proof.
  intros Hr1 Hr2 (Hu1 & Hc1 & Ht1) (Hu2 & Hc2 & Ht2) He1 He2.
  assert (Hs : ∀ run r, Forall privateEvent_u64 (Recipient.privateResult r) → privateError run r = JsonError.NONE →
    Forall (λ e, privateEvent_u64 e ∧ typedError (Recipient.recipient r) e = JsonError.NONE) (Recipient.privateResult r)).
  { clear. intros run r Ht He. unfold privateError in He. destruct (Recipient.privateResult r) as [|front events]; [done|].
    apply orElse_NONE in He as [He _]. eapply Forall_errors in He; [|done].
    eapply Forall_impl; [exact He|]. intros t [? [_ ?]%orElse_NONE]. done. }
  apply Hs in He1, He2; [|done..].
  assert (Hall : run1 = run2 → Recipient.recipient r1 = Recipient.recipient r2 →
    Recipient.correlation r1 = Recipient.correlation r2 →
    map privateEventDoc (Recipient.privateResult r1) = map privateEventDoc (Recipient.privateResult r2) →
    run1 = run2 ∧ r1 = r2).
  { intros E1 E2 E3 E4. split; [done|]. rewrite <- E2 in He2.
    pose proof (map_inj_on _ _ _ _ (privateEventDoc_inj (Recipient.recipient r1)) He1 He2 E4).
    destruct r1, r2. cbn in *. congruence. }
  unfold privateResultDoc. destruct (Recipient.correlation r1) as [c1|] eqn:E1, (Recipient.correlation r2) as [c2|] eqn:E2;
    cbn [from_option] in *; try (intros E; cbn in E; discriminate).
  - pose proof (correlationDoc_inj c1 c2 Hc1 Hc2) as Hcd. unfold object. cbn [map app]. intros E. injection E. intros.
    same_fields. apply Hall; [done..| |done]. f_equal. apply Hcd. unfold correlationDoc, object, numeral. cbn [map]. congruence.
  - same_document. by apply Hall.
Qed.

(** Equal payloads are the text of equal documents. *)
Lemma same_payload error1 error2 doc1 doc2 (out1 out2 payload : text) :
  (error1, if bool_decide (error1 = JsonError.NONE) then render doc1 else out1) = (JsonError.NONE, payload) →
  (error2, if bool_decide (error2 = JsonError.NONE) then render doc2 else out2) = (JsonError.NONE, payload) →
  error1 = JsonError.NONE ∧ error2 = JsonError.NONE ∧ doc1 = doc2.
Proof.
  intros [-> E1]%pair_equal_spec [-> E2]%pair_equal_spec. rewrite bool_decide_eq_true_2 in E1, E2 by done.
  split_and!; [done..|]. apply render_inj. by rewrite E1, E2.
Qed.

(** ** Properties *)

(** C35: the application's text of a result is exact.  For a batch of trades, or a
    recipient's private result, with 64-bit fields, the serializer reports the first
    inconsistency of the batch (an event of another run or another command, of another
    recipient, an unknown side, a correlation that disagrees) and then leaves the output
    as it was; when there is none, a JSON reader gets back from the output precisely
    the document of the events, whatever bytes the client's command identifier holds. *)
Theorem event_json_is_exact run output :
  is_u64 run →
  (∀ trades, Forall publicTrade_u64 trades →
     let '(error, payload) := serializePublicTradesV1 run trades output in
     error = publicError run trades ∧
     if bool_decide (error = JsonError.NONE) then readJson payload = Some (publicTradesDoc run trades)
     else payload = output) ∧
  (∀ result, recipientResult_u64 result →
     let '(error, payload) := serializePrivateResultV1 run result output in
     error = privateError run result ∧
     if bool_decide (error = JsonError.NONE) then readJson payload = Some (privateResultDoc run result)
     else payload = output).
Proof.
  intros Hrun. split.
  - intros trades Ht. rewrite serializePublicTrades_spec by done. split; [done|].
    case_bool_decide; [apply readJson_render|done].
  - intros result Hr. rewrite serializePrivateResult_spec by done. split; [done|].
    case_bool_decide; [apply readJson_render|done].
Qed.

(** No information is lost in the text.  Two batches of trades, or two private
    results, that serialize without error to the same payload are the same batch of the
    same run. *)
Theorem event_json_loses_nothing run1 run2 out1 out2 payload :
  is_u64 run1 → is_u64 run2 →
  (∀ trades1 trades2, Forall publicTrade_u64 trades1 → Forall publicTrade_u64 trades2 →
     serializePublicTradesV1 run1 trades1 out1 = (JsonError.NONE, payload) →
     serializePublicTradesV1 run2 trades2 out2 = (JsonError.NONE, payload) → run1 = run2 ∧ trades1 = trades2) ∧
  (∀ result1 result2, recipientResult_u64 result1 → recipientResult_u64 result2 →
     serializePrivateResultV1 run1 result1 out1 = (JsonError.NONE, payload) →
     serializePrivateResultV1 run2 result2 out2 = (JsonError.NONE, payload) → run1 = run2 ∧ result1 = result2).
Proof.
  intros Hr1 Hr2. split; intros x1 x2 Hx1 Hx2.
  - rewrite !serializePublicTrades_spec by done. intros E1 E2. destruct (same_payload _ _ _ _ _ _ _ E1 E2) as (? & ? & ?).
    by apply publicTradesDoc_inj.
  - rewrite !serializePrivateResult_spec by done. intros E1 E2. destruct (same_payload _ _ _ _ _ _ _ E1 E2) as (? & ? & ?).
    by apply privateResultDoc_inj.
Qed.

(** Two public trades of command 12 in run 7, and the sell side of its first trade with a
    client identifier full of JSON syntax. *)
Definition demoPublic : list PublicTrade :=
  [PublicTrade.mkPublicTrade (EventId.mkEventId 12 0 7) 1 1000500 25 Side.SELL;
   PublicTrade.mkPublicTrade (EventId.mkEventId 12 1 7) 1 1000400 5 Side.SELL].
Definition demoPrivate : RecipientResult :=
  Recipient.mkRecipientResult 3
    (Some (Correlation.mkCorrelation 3 (String.string_of_list_ascii (lit "','x':[{'")) 12 7))
    [PvTrade (PrivateTrade.mkPrivateTrade (EventId.mkEventId 12 0 7) 1 9 Side.SELL Role.TAKER 1000500 25 0);
     PvCancelled (Cancelled.mkOrderCancelled (EventId.mkEventId 12 1 7) 9 3 1 75 IOC_REMAINDER)].

Lemma demo_u64 : is_u64 7 ∧ Forall publicTrade_u64 demoPublic ∧ recipientResult_u64 demoPrivate.
Proof.
  assert (H : ∀ n, (0 <=? n) && (n <=? UINT64_MAX) = true → is_u64 n) by (unfold is_u64; lia).
  unfold demoPublic, demoPrivate, recipientResult_u64, publicTrade_u64, privateEvent_u64, correlation_u64, eventId_u64.
  cbn. repeat (constructor; cbn); apply H; reflexivity.
Qed.

Lemma event_json_is_exact_witness :
  readJson (serializePublicTradesV1 7 demoPublic []).2 = Some (publicTradesDoc 7 demoPublic) ∧
  readJson (serializePrivateResultV1 7 demoPrivate []).2 = Some (privateResultDoc 7 demoPrivate) ∧
  serializePublicTradesV1 8 demoPublic (chars "before") = (JsonError.RUN_MISMATCH, chars "before").
Proof.
  split_and!; [| |vm_compute; reflexivity].
  - destruct (event_json_is_exact 7 [] (proj1 demo_u64)) as [Hpublic _].
    specialize (Hpublic demoPublic (proj1 (proj2 demo_u64))).
    destruct (serializePublicTradesV1 7 demoPublic []) as [error payload]. destruct Hpublic as [-> H]. exact H.
  - destruct (event_json_is_exact 7 [] (proj1 demo_u64)) as [_ Hprivate].
    specialize (Hprivate demoPrivate (proj2 (proj2 demo_u64))).
    destruct (serializePrivateResultV1 7 demoPrivate []) as [error payload]. destruct Hprivate as [-> H]. exact H.
Defined.

Lemma event_json_loses_nothing_witness :
  serializePrivateResultV1 7 demoPrivate [] = (JsonError.NONE, render (privateResultDoc 7 demoPrivate)) ∧
  7 = 7 ∧ demoPrivate = demoPrivate.
Proof.
  assert (E : serializePrivateResultV1 7 demoPrivate [] = (JsonError.NONE, render (privateResultDoc 7 demoPrivate)))
    by (vm_compute; reflexivity).
  split; [exact E|]. destruct demo_u64 as (Hrun & _ & Hprivate).
  exact (proj2 (event_json_loses_nothing 7 7 [] [] _ Hrun Hrun) _ _ Hprivate Hprivate E E).
Defined.
