(* ===== verification/EventGateway.v ===== *)
(** * The application event gateway

    [src/core/application/src/application_event_gateway.cpp] and its header: the
    connections of the application's clients, the bounded queue of payloads of each,
    and the two cycles that take batches from the exchange run controller, serialize
    them and route them.  What the gateway asks of the controller is the class
    [EventSource]; the controller it borrows is a field of its state.  A payload is
    shared and immutable, so it is modelled by its bytes; it is never null. *)
From S2P Require Import Prelude Domain Projection FixParser EventJson.

(** ** The outbound capacity *)

(** A [throw] in a [consteval] function is a compilation error. *)
Definition checkedBytesAdd (left right : Z) : outcome Z :=
  throw_if (bool_decide (SIZE_MAX - left < right))
    (logic_error "Application gateway outbound capacity V1 overflow") ;;
  Ret (left + right).
Definition checkedBytesSum (values : list Z) : outcome Z := foldOutcome checkedBytesAdd 0 values.
Definition checkedBytesMultiply (left right : Z) : outcome Z :=
  throw_if (bool_decide (left ≠ 0) && bool_decide (SIZE_MAX / left < right))
    (logic_error "Application gateway outbound capacity V1 overflow") ;;
  Ret (left * right).
(** The value of a constant that compiles. *)
Definition constant (value : outcome Z) : Z := match value with Ret z => z | Throw _ => 0 end.

Definition literalBytes (literal : string) : Z := Z.of_nat (length (lit literal)).

Definition MAX_AUTHORITATIVE_EVENTS_PER_COMMAND : Z := 4096.
Definition MAX_PRIVATE_EVENTS_PER_COMMAND : Z :=
  constant (checkedBytesMultiply 2 MAX_AUTHORITATIVE_EVENTS_PER_COMMAND).
Definition QUOTED_UINT64_BYTES : Z := 22.
Definition CONTROLLER_EVENT_INDEX_BYTES : Z := 4.
Definition MAX_ESCAPED_CLIENT_COMMAND_ID_BYTES : Z :=
  constant (escaped ← checkedBytesMultiply 6 (Z.of_nat CLIENT_COMMAND_ID_MAX_LENGTH); checkedBytesSum [2; escaped]).
Definition EVENT_ID_BYTES : Z := constant (checkedBytesSum
  [literalBytes "{'exchangeRunId':"; QUOTED_UINT64_BYTES; literalBytes ",'commandSequence':"; QUOTED_UINT64_BYTES;
   literalBytes ",'eventIndex':"; CONTROLLER_EVENT_INDEX_BYTES; literalBytes "}"]).
Definition PRIVATE_TRADE_BYTES : Z := constant (checkedBytesSum
  [literalBytes "{'type':'privateTrade','eventId':"; EVENT_ID_BYTES; literalBytes ",'instrumentId':";
   QUOTED_UINT64_BYTES; literalBytes ",'orderId':"; QUOTED_UINT64_BYTES; literalBytes ",'side':";
   literalBytes "'SELL'"; literalBytes ",'role':"; literalBytes "'MAKER'"; literalBytes ",'executionPrice':";
   QUOTED_UINT64_BYTES; literalBytes ",'executionQuantity':"; QUOTED_UINT64_BYTES;
   literalBytes ",'remainingQuantity':"; QUOTED_UINT64_BYTES; literalBytes "}"]).
Definition ORDER_RESTED_BYTES : Z := constant (checkedBytesSum
  [literalBytes "{'type':'orderRested','eventId':"; EVENT_ID_BYTES; literalBytes ",'orderId':"; QUOTED_UINT64_BYTES;
   literalBytes ",'clientId':"; QUOTED_UINT64_BYTES; literalBytes ",'instrumentId':"; QUOTED_UINT64_BYTES;
   literalBytes ",'side':"; literalBytes "'SELL'"; literalBytes ",'price':"; QUOTED_UINT64_BYTES;
   literalBytes ",'remainingQuantity':"; QUOTED_UINT64_BYTES; literalBytes "}"]).
Definition ORDER_CANCELLED_BYTES : Z := constant (checkedBytesSum
  [literalBytes "{'type':'orderCancelled','eventId':"; EVENT_ID_BYTES; literalBytes ",'orderId':"; QUOTED_UINT64_BYTES;
   literalBytes ",'clientId':"; QUOTED_UINT64_BYTES; literalBytes ",'instrumentId':"; QUOTED_UINT64_BYTES;
   literalBytes ",'cancelledQuantity':"; QUOTED_UINT64_BYTES; literalBytes ",'reason':";
   literalBytes "'CLIENT_REQUESTED'"; literalBytes "}"]).
Definition COMMAND_REJECTED_BYTES : Z := constant (checkedBytesSum
  [literalBytes "{'type':'commandRejected','eventId':"; EVENT_ID_BYTES; literalBytes ",'commandType':";
   literalBytes "'NEW_ORDER'"; literalBytes ",'clientId':"; QUOTED_UINT64_BYTES; literalBytes ",'clientCommandId':";
   MAX_ESCAPED_CLIENT_COMMAND_ID_BYTES; literalBytes ",'relevantOrderId':"; QUOTED_UINT64_BYTES;
   literalBytes ",'reason':"; literalBytes "'BOOK_CAPACITY_EXCEEDED'"; literalBytes "}"]).
Definition TWO_PRIVATE_TRADES_BYTES : Z :=
  constant (trades ← checkedBytesMultiply 2 PRIVATE_TRADE_BYTES; checkedBytesSum [trades; 1]).
Definition PRIVATE_ENVELOPE_FIXED_BYTES : Z := constant (checkedBytesSum
  [literalBytes "{'schemaVersion':1,'type':'privateResult','exchangeRunId':"; QUOTED_UINT64_BYTES;
   literalBytes ",'recipientClientId':"; QUOTED_UINT64_BYTES; literalBytes ",'correlation':{'exchangeRunId':";
   QUOTED_UINT64_BYTES; literalBytes ",'clientId':"; QUOTED_UINT64_BYTES; literalBytes ",'clientCommandId':";
   MAX_ESCAPED_CLIENT_COMMAND_ID_BYTES; literalBytes ",'commandSequence':"; QUOTED_UINT64_BYTES; literalBytes "}";
   literalBytes ",'events':["; literalBytes "]}"]).
Definition MAX_PRIVATE_HANDOFF_MESSAGE_BYTES : Z := constant (
  trades ← checkedBytesMultiply MAX_PRIVATE_EVENTS_PER_COMMAND PRIVATE_TRADE_BYTES;
  checkedBytesSum [PRIVATE_ENVELOPE_FIXED_BYTES; trades; MAX_PRIVATE_EVENTS_PER_COMMAND - 1]).
Definition PUBLIC_TRADE_BYTES : Z := constant (checkedBytesSum
  [literalBytes "{'eventId':"; EVENT_ID_BYTES; literalBytes ",'instrumentId':"; QUOTED_UINT64_BYTES;
   literalBytes ",'executionPrice':"; QUOTED_UINT64_BYTES; literalBytes ",'executionQuantity':"; QUOTED_UINT64_BYTES;
   literalBytes ",'aggressorSide':"; literalBytes "'SELL'"; literalBytes "}"]).
Definition PUBLIC_ENVELOPE_FIXED_BYTES : Z := constant (checkedBytesSum
  [literalBytes "{'schemaVersion':1,'type':'publicTrades','exchangeRunId':"; QUOTED_UINT64_BYTES;
   literalBytes ",'trades':["; literalBytes "]}"]).
Definition MAX_PUBLIC_HANDOFF_MESSAGE_BYTES : Z := constant (
  trades ← checkedBytesMultiply MAX_AUTHORITATIVE_EVENTS_PER_COMMAND PUBLIC_TRADE_BYTES;
  checkedBytesSum [PUBLIC_ENVELOPE_FIXED_BYTES; trades; MAX_AUTHORITATIVE_EVENTS_PER_COMMAND - 1]).
Definition MIN_OUTBOUND_CAPACITY : Z :=
  if bool_decide (MAX_PUBLIC_HANDOFF_MESSAGE_BYTES < MAX_PRIVATE_HANDOFF_MESSAGE_BYTES)
  then MAX_PRIVATE_HANDOFF_MESSAGE_BYTES else MAX_PUBLIC_HANDOFF_MESSAGE_BYTES.

#[global] Arguments MIN_OUTBOUND_CAPACITY : simpl never.
#[global] Arguments MAX_PRIVATE_HANDOFF_MESSAGE_BYTES : simpl never.
#[global] Arguments MAX_PUBLIC_HANDOFF_MESSAGE_BYTES : simpl never.

Module EnqueueCapacity.
Inductive EnqueueCapacity := FITS | SLOW_CONSUMER | INVARIANT_FAILURE.
End EnqueueCapacity.
Abbreviation EnqueueCapacity := EnqueueCapacity.EnqueueCapacity.

Definition enqueueCapacity (queuedBytes messageBytes capacity : Z) : EnqueueCapacity :=
  if bool_decide (capacity < queuedBytes) then EnqueueCapacity.INVARIANT_FAILURE
  else if bool_decide (wrap64 (capacity - queuedBytes) < messageBytes) then EnqueueCapacity.SLOW_CONSUMER
  else EnqueueCapacity.FITS.

(** ** What the gateway takes from the controller *)
Class EventSource (C : Type) := {
  (** [admissionIndex()->exchangeRunId()], when there is an index. *)
  admissionRun : C → option ExchangeRunId;
  popPublicBatch : C → option (list PublicTrade) * C;
  popPrivateBatch : C → option (list RecipientResult) * C }.

(** ** State *)
Abbreviation ConnectionHandle := Z (only parsing).

Module Registration.
Inductive ConnectionRegistrationOutcome :=
  REGISTERED | REPLACED | CONNECTION_LIMIT_REACHED | INVALID_BINDING | HANDLE_ALREADY_REGISTERED.
Record ConnectionRegistrationResult := mkRegistration {
  outcome : ConnectionRegistrationOutcome;
  replacedConnection : option ConnectionHandle }.
End Registration.
Abbreviation ConnectionRegistrationResult := Registration.ConnectionRegistrationResult.

Module InputFailure.
Inductive ApplicationEventInputFailureReason :=
  SERIALIZATION_FAILED | RECIPIENT_INVARIANT | RUN_IDENTITY_INVARIANT | BYTE_ACCOUNTING_INVARIANT.
Record ApplicationEventInputFailure := mkInputFailure {
  reason : ApplicationEventInputFailureReason;
  serializationError : option ApplicationEventJsonError }.
End InputFailure.
Abbreviation ApplicationEventInputFailure := InputFailure.ApplicationEventInputFailure.

Module GatewayInspection.
Record ConnectionInspection := mkConnectionInspection {
  clientId : ClientId;
  exchangeRunId : ExchangeRunId;
  queuedMessageCount : Z;
  queuedBytes : Z }.
Record ApplicationEventInputInspection := mkInputInspection {
  failure : option ApplicationEventInputFailure;
  retainedValueCount : Z }.
Record ApplicationEventGatewayInspection := mkGatewayInspection {
  connectionCount : Z;
  publicInput : ApplicationEventInputInspection;
  privateInput : ApplicationEventInputInspection }.
End GatewayInspection.

Module Advance.
Inductive ApplicationEventAdvanceOutcome := IDLE | ROUTED | FAILED.
End Advance.
Abbreviation ApplicationEventAdvanceOutcome := Advance.ApplicationEventAdvanceOutcome.

Module Conn.
Record ConnectionState := mkConnection {
  handle : ConnectionHandle;
  clientId : ClientId;
  exchangeRunId : ExchangeRunId;
  outbound : list text;
  queuedBytes : Z }.
#[export] Instance ConnectionState_eq_dec : EqDecision ConnectionState.
Proof. solve_decision. Defined.
End Conn.
Export (hints) Conn.
Abbreviation ConnectionState := Conn.ConnectionState.

(** [{.handle = handle, .clientId = clientId, .exchangeRunId = exchangeRunId}] *)
Definition newConnection (handle : ConnectionHandle) (clientId : ClientId) (exchangeRunId : ExchangeRunId) : ConnectionState :=
  Conn.mkConnection handle clientId exchangeRunId [] 0.

Definition messageSize (message : text) : Z := Z.of_nat (length message).

(** [outbound.push_back(payload); queuedBytes += payload->size();] *)
Definition pushOutbound (payload : text) (c : ConnectionState) : ConnectionState :=
  Conn.mkConnection (Conn.handle c) (Conn.clientId c) (Conn.exchangeRunId c) (Conn.outbound c ++ [payload])
    (wrap64 (Conn.queuedBytes c + messageSize payload)).

Module Gateway.
Record ApplicationEventGateway (C : Type) := mkGateway {
  controller_ : C;
  maximumConnections_ : Z;
  perConnectionOutboundByteCapacity_ : Z;
  connections_ : list ConnectionState;
  pendingPublic_ : option (list PublicTrade);
  pendingPrivate_ : option (list RecipientResult);
  publicFailure_ : option ApplicationEventInputFailure;
  privateFailure_ : option ApplicationEventInputFailure }.
Arguments mkGateway {_} _ _ _ _ _ _ _ _.
Arguments controller_ {_} _.
Arguments maximumConnections_ {_} _.
Arguments perConnectionOutboundByteCapacity_ {_} _.
Arguments connections_ {_} _.
Arguments pendingPublic_ {_} _.
Arguments pendingPrivate_ {_} _.
Arguments publicFailure_ {_} _.
Arguments privateFailure_ {_} _.
End Gateway.
Abbreviation ApplicationEventGateway := Gateway.ApplicationEventGateway.

Section gateway.
Context {C : Type} `{EventSource C}.
Implicit Types (g : ApplicationEventGateway C) (connections : list ConnectionState).

Definition setConnections connections g : ApplicationEventGateway C :=
  Gateway.mkGateway (Gateway.controller_ g) (Gateway.maximumConnections_ g) (Gateway.perConnectionOutboundByteCapacity_ g)
    connections (Gateway.pendingPublic_ g) (Gateway.pendingPrivate_ g) (Gateway.publicFailure_ g) (Gateway.privateFailure_ g).
Definition setPublicInput (controller : C) (pending : option (list PublicTrade))
    (failure : option ApplicationEventInputFailure) g : ApplicationEventGateway C :=
  Gateway.mkGateway controller (Gateway.maximumConnections_ g) (Gateway.perConnectionOutboundByteCapacity_ g)
    (Gateway.connections_ g) pending (Gateway.pendingPrivate_ g) failure (Gateway.privateFailure_ g).
Definition setPrivateInput (controller : C) (pending : option (list RecipientResult))
    (failure : option ApplicationEventInputFailure) g : ApplicationEventGateway C :=
  Gateway.mkGateway controller (Gateway.maximumConnections_ g) (Gateway.perConnectionOutboundByteCapacity_ g)
    (Gateway.connections_ g) (Gateway.pendingPublic_ g) pending (Gateway.publicFailure_ g) failure.

(** The constructor. *)
Definition newGateway (controller : C) (maximumConnections perConnectionOutboundByteCapacity : Z)
    : outcome (ApplicationEventGateway C) :=
  throw_if (bool_decide (maximumConnections = 0))
    (invalid_argument "application event gateway maximum connections must be positive") ;;
  throw_if (bool_decide (perConnectionOutboundByteCapacity < MIN_OUTBOUND_CAPACITY))
    (invalid_argument "application event gateway outbound byte capacity cannot hold one maximum controller handoff") ;;
  Ret (Gateway.mkGateway controller maximumConnections perConnectionOutboundByteCapacity [] None None None None).

(** ** Connections *)
Definition findConnection (handle : ConnectionHandle) connections : option (nat * ConnectionState) :=
  list_find (λ connection, Conn.handle connection = handle) connections.
(** The [find_if] for a client of a run. *)
Definition findClient (clientId : ClientId) (exchangeRunId : ExchangeRunId) connections : option (nat * ConnectionState) :=
  list_find (λ connection, Conn.clientId connection = clientId ∧ Conn.exchangeRunId connection = exchangeRunId) connections.

Definition registered (outcome : Registration.ConnectionRegistrationOutcome) : ConnectionRegistrationResult :=
  Registration.mkRegistration outcome None.

Definition registerConnection (handle : ConnectionHandle) (clientId : ClientId) (exchangeRunId : ExchangeRunId) g
    : ConnectionRegistrationResult * ApplicationEventGateway C :=
  let connections := Gateway.connections_ g in
  if bool_decide (clientId = 0) || bool_decide (exchangeRunId = 0) ||
     bool_decide (admissionRun (Gateway.controller_ g) ≠ Some exchangeRunId)
  then (registered Registration.INVALID_BINDING, g)
  else if bool_decide (findConnection handle connections ≠ None)
  then (registered Registration.HANDLE_ALREADY_REGISTERED, g)
  else
    match findClient clientId exchangeRunId connections with
    | None =>
        if bool_decide (Gateway.maximumConnections_ g ≤ Z.of_nat (length connections))
        then (registered Registration.CONNECTION_LIMIT_REACHED, g)
        else (registered Registration.REGISTERED,
              setConnections (connections ++ [newConnection handle clientId exchangeRunId]) g)
    | Some (position, replaced) =>
        (Registration.mkRegistration Registration.REPLACED (Some (Conn.handle replaced)),
         setConnections (<[position := newConnection handle clientId exchangeRunId]> connections) g)
    end.

Definition disconnect (handle : ConnectionHandle) g : bool * ApplicationEventGateway C :=
  match findConnection handle (Gateway.connections_ g) with
  | None => (false, g)
  | Some (position, _) => (true, setConnections (delete position (Gateway.connections_ g)) g)
  end.

Definition inspectConnection (handle : ConnectionHandle) g : option GatewayInspection.ConnectionInspection :=
  '(_, connection) ← findConnection handle (Gateway.connections_ g);
  Some (GatewayInspection.mkConnectionInspection (Conn.clientId connection) (Conn.exchangeRunId connection)
          (Z.of_nat (length (Conn.outbound connection))) (Conn.queuedBytes connection)).

(** The message, when one was waiting. *)
Definition tryPopOutbound (handle : ConnectionHandle) : M (ApplicationEventGateway C) (option text) :=
  g ← getM;
  match findConnection handle (Gateway.connections_ g) with
  | None => mret None
  | Some (position, connection) =>
      match Conn.outbound connection with
      | [] => mret None
      | next :: outbound =>
          throw_ifM (bool_decide (Conn.queuedBytes connection < messageSize next))
            (logic_error "application event gateway outbound byte accounting invariant failed") ;;
          putM (setConnections
                  (<[position := Conn.mkConnection (Conn.handle connection) (Conn.clientId connection)
                                   (Conn.exchangeRunId connection) outbound
                                   (wrap64 (Conn.queuedBytes connection - messageSize next))]>
                     (Gateway.connections_ g)) g) ;;
          mret (Some next)
      end
  end.

(** ** Public batches *)
Definition failPublic (failure : InputFailure.ApplicationEventInputFailureReason)
    (serializationError : option ApplicationEventJsonError) g : ApplicationEventAdvanceOutcome * ApplicationEventGateway C :=
  (Advance.FAILED,
   setPublicInput (Gateway.controller_ g) (Gateway.pendingPublic_ g)
     (Some (InputFailure.mkInputFailure failure serializationError)) g).

(** The loop over the connections: whether it reached the end, and the connections. *)
Fixpoint routePublic (payload : text) (exchangeRunId : ExchangeRunId) (capacity : Z) connections
    : bool * list ConnectionState :=
  match connections with
  | [] => (true, [])
  | connection :: rest =>
      if bool_decide (Conn.exchangeRunId connection ≠ exchangeRunId) then
        let '(routed, rest) := routePublic payload exchangeRunId capacity rest in (routed, connection :: rest)
      else match enqueueCapacity (Conn.queuedBytes connection) (messageSize payload) capacity with
           | EnqueueCapacity.FITS =>
               let '(routed, rest) := routePublic payload exchangeRunId capacity rest in
               (routed, pushOutbound payload connection :: rest)
           | EnqueueCapacity.SLOW_CONSUMER => routePublic payload exchangeRunId capacity rest
           | EnqueueCapacity.INVARIANT_FAILURE => (false, connection :: rest)
           end
  end.

(** From the pending batch on. *)
Definition deliverPublic (pending : list PublicTrade) g : ApplicationEventAdvanceOutcome * ApplicationEventGateway C :=
  match pending with
  | [] => failPublic InputFailure.SERIALIZATION_FAILED (Some JsonError.EMPTY_EVENTS) g
  | front :: _ =>
      let exchangeRunId := EventId.exchangeRunId (PublicTrade.eventId front) in
      match serializePublicTradesV1 exchangeRunId pending [] with
      | (JsonError.NONE, payload) =>
          let '(routed, connections) :=
            routePublic payload exchangeRunId (Gateway.perConnectionOutboundByteCapacity_ g) (Gateway.connections_ g) in
          let g := setConnections connections g in
          if (routed : bool) then (Advance.ROUTED, setPublicInput (Gateway.controller_ g) None (Gateway.publicFailure_ g) g)
          else failPublic InputFailure.BYTE_ACCOUNTING_INVARIANT None g
      | (error, _) => failPublic InputFailure.SERIALIZATION_FAILED (Some error) g
      end
  end.

Definition advancePublic g : ApplicationEventAdvanceOutcome * ApplicationEventGateway C :=
  match Gateway.publicFailure_ g, Gateway.pendingPublic_ g with
  | Some _, _ => (Advance.FAILED, g)
  | None, Some pending => deliverPublic pending g
  | None, None =>
      match popPublicBatch (Gateway.controller_ g) with
      | (None, controller) => (Advance.IDLE, setPublicInput controller None None g)
      | (Some batch, controller) => deliverPublic batch (setPublicInput controller (Some batch) None g)
      end
  end.

(** ** Private batches *)
Definition failPrivate (failure : InputFailure.ApplicationEventInputFailureReason)
    (serializationError : option ApplicationEventJsonError) g : ApplicationEventAdvanceOutcome * ApplicationEventGateway C :=
  (Advance.FAILED,
   setPrivateInput (Gateway.controller_ g) (Gateway.pendingPrivate_ g)
     (Some (InputFailure.mkInputFailure failure serializationError)) g).

Record SerializedRecipient := mkSerialized {
  serializedRecipient : ClientId;
  serializedRunId : ExchangeRunId;
  serializedPayload : text }.

(** The loop that serializes the batch, with the recipients seen, the identity of
    the batch and what is serialized so far; [inl] is the failure. *)
Fixpoint serializeRecipients (pending : list RecipientResult) (recipients : list ClientId)
    (batchRunId : option ExchangeRunId) (batchCommandSequence : option CommandSequence)
    (serializedRecipients : list SerializedRecipient) : ApplicationEventInputFailure + list SerializedRecipient :=
  match pending with
  | [] => inr serializedRecipients
  | recipient :: pending' =>
      match Recipient.privateResult recipient with
      | [] => inl (InputFailure.mkInputFailure InputFailure.RECIPIENT_INVARIANT None)
      | front :: _ =>
          if bool_decide (Recipient.recipient recipient = 0) || bool_decide (Recipient.recipient recipient ∈ recipients)
          then inl (InputFailure.mkInputFailure InputFailure.RECIPIENT_INVARIANT None)
          else
            let recipients := Recipient.recipient recipient :: recipients in
            let identity := privateEventId front in
            if bool_decide (batchRunId ≠ None) &&
               (bool_decide (Some (EventId.exchangeRunId identity) ≠ batchRunId) ||
                bool_decide (Some (EventId.commandSequence identity) ≠ batchCommandSequence))
            then inl (InputFailure.mkInputFailure InputFailure.RUN_IDENTITY_INVARIANT None)
            else match serializePrivateResultV1 (EventId.exchangeRunId identity) recipient [] with
                 | (JsonError.NONE, payload) =>
                     serializeRecipients pending' recipients (Some (EventId.exchangeRunId identity))
                       (Some (EventId.commandSequence identity))
                       (serializedRecipients ++
                        [mkSerialized (Recipient.recipient recipient) (EventId.exchangeRunId identity) payload])
                 | (error, _) => inl (InputFailure.mkInputFailure InputFailure.SERIALIZATION_FAILED (Some error))
                 end
      end
  end.

(** The loop that routes what was serialized. *)
Fixpoint routePrivate (serializedRecipients : list SerializedRecipient) (capacity : Z) connections
    : bool * list ConnectionState :=
  match serializedRecipients with
  | [] => (true, connections)
  | serialized :: rest =>
      match findClient (serializedRecipient serialized) (serializedRunId serialized) connections with
      | None => routePrivate rest capacity connections
      | Some (position, connection) =>
          match enqueueCapacity (Conn.queuedBytes connection) (messageSize (serializedPayload serialized)) capacity with
          | EnqueueCapacity.FITS =>
              routePrivate rest capacity (<[position := pushOutbound (serializedPayload serialized) connection]> connections)
          | EnqueueCapacity.SLOW_CONSUMER => routePrivate rest capacity (delete position connections)
          | EnqueueCapacity.INVARIANT_FAILURE => (false, connections)
          end
      end
  end.

(** From the pending batch on. *)
Definition deliverPrivate (pending : list RecipientResult) g : ApplicationEventAdvanceOutcome * ApplicationEventGateway C :=
  if bool_decide (pending = []) then failPrivate InputFailure.RECIPIENT_INVARIANT None g
  else match serializeRecipients pending [] None None [] with
       | inl failure => failPrivate (InputFailure.reason failure) (InputFailure.serializationError failure) g
       | inr serializedRecipients =>
           let '(routed, connections) :=
             routePrivate serializedRecipients (Gateway.perConnectionOutboundByteCapacity_ g) (Gateway.connections_ g) in
           let g := setConnections connections g in
           if (routed : bool) then (Advance.ROUTED, setPrivateInput (Gateway.controller_ g) None (Gateway.privateFailure_ g) g)
           else failPrivate InputFailure.BYTE_ACCOUNTING_INVARIANT None g
       end.

Definition advancePrivate g : ApplicationEventAdvanceOutcome * ApplicationEventGateway C :=
  match Gateway.privateFailure_ g, Gateway.pendingPrivate_ g with
  | Some _, _ => (Advance.FAILED, g)
  | None, Some pending => deliverPrivate pending g
  | None, None =>
      match popPrivateBatch (Gateway.controller_ g) with
      | (None, controller) => (Advance.IDLE, setPrivateInput controller None None g)
      | (Some batch, controller) => deliverPrivate batch (setPrivateInput controller (Some batch) None g)
      end
  end.

(** ** Inspection *)
Definition inspectGateway g : GatewayInspection.ApplicationEventGatewayInspection :=
  GatewayInspection.mkGatewayInspection (Z.of_nat (length (Gateway.connections_ g)))
    (GatewayInspection.mkInputInspection (Gateway.publicFailure_ g)
       (match Gateway.pendingPublic_ g with Some pending => Z.of_nat (length pending) | None => 0 end))
    (GatewayInspection.mkInputInspection (Gateway.privateFailure_ g)
       (match Gateway.pendingPrivate_ g with Some pending => Z.of_nat (length pending) | None => 0 end)).
End gateway.

(** The constants compile, and the source's [static_assert]s hold. *)
Example minimum_capacity : MIN_OUTBOUND_CAPACITY = 2949790.
Proof. vm_compute. reflexivity. Qed.

Example static_asserts : ORDER_RESTED_BYTES ≤ TWO_PRIVATE_TRADES_BYTES ∧
  ORDER_CANCELLED_BYTES ≤ TWO_PRIVATE_TRADES_BYTES ∧ COMMAND_REJECTED_BYTES ≤ TWO_PRIVATE_TRADES_BYTES.
Proof. vm_compute. split_and!; discriminate. Qed.
