(* ===== verification/EventDelivery.v ===== *)
(** * From results to the connections of the gateway

    What the payloads and the routing of a batch come to: the size of a payload, what
    the controller hands to the gateway, how both routing loops treat every connection,
    and the effect of each operation of the gateway.

    ** The size of payloads

    The constants of the gateway bound what the serializer writes: an event, and the
    payload of a whole batch of at most 4096 authoritative events. *)
From S2P Require Import Prelude Domain Projection ProjectionTheorems FixParser EventJson JsonText.
From S2P Require Import EventJsonFacts EventGateway.

(** ** Pieces *)
Lemma messageSize_app a b : messageSize (a ++ b) = messageSize a + messageSize b.
Proof. unfold messageSize. rewrite length_app. lia. Qed.
Lemma messageSize_nonneg a : 0 ≤ messageSize a.
Proof. unfold messageSize. lia. Qed.

Lemma appendQuotedUnsigned_app output v : appendQuotedUnsigned output v = output ++ appendQuotedUnsigned [] v.
Proof. unfold appendQuotedUnsigned, appendUnsigned. by rewrite <- !app_assoc. Qed.

(** A number of at most [k] digits. *)
Lemma unsigned_size k v : 0 ≤ v < 10 ^ Z.of_nat k → v < 10 ^ 20 → k ≠ O → messageSize (appendUnsigned [] v) ≤ Z.of_nat k.
Proof.
  intros Hv H20 Hk. unfold appendUnsigned, messageSize. cbn [app].
  rewrite (decimalDigits_room 20 k) by (done || lia). pose proof (decimalDigits_length k v []) as Hl. cbn [length] in Hl. lia.
Qed.

Lemma quoted_size v : messageSize (appendQuotedUnsigned [] v) ≤ QUOTED_UINT64_BYTES.
Proof.
  unfold appendQuotedUnsigned, appendUnsigned, messageSize, QUOTED_UINT64_BYTES.
  pose proof (decimalDigits_length 20 v []) as Hl. rewrite !length_app. cbn [length] in *. lia.
Qed.

Lemma escaped_size s : messageSize (escaped s) ≤ 6 * messageSize s.
Proof.
  unfold escaped, messageSize. induction s as [|c s IH]; [simpl; lia|]. cbn [mbind list_bind]. rewrite length_app.
  assert (length (appendJsonCharacter [] c) ≤ 6)%nat by (apply Nat.leb_le; destruct c as [[] [] [] [] [] [] [] []]; reflexivity).
  cbn [length] in *. fold (escaped s) in *. unfold escaped in *. lia.
Qed.

Lemma string_size s : messageSize (appendJsonString [] s) ≤ 2 + 6 * messageSize s.
Proof.
  rewrite appendJsonString_quoted. unfold quoted. pose proof (escaped_size s).
  unfold messageSize in *. cbn [app length]. rewrite length_app. cbn [length]. lia.
Qed.

Lemma identifier_size id : valid_ClientCommandId id →
  messageSize (appendJsonString [] (chars id)) ≤ MAX_ESCAPED_CLIENT_COMMAND_ID_BYTES.
Proof.
  intros [[_ Hlen] _]. etrans; [apply string_size|].
  change MAX_ESCAPED_CLIENT_COMMAND_ID_BYTES with 386.
  assert (Hl : ∀ t, length (chars t) = String.length t).
  { clear. unfold chars. induction t as [|c t IH]; [done|]. cbn. f_equal. apply IH. }
  unfold messageSize, CLIENT_COMMAND_ID_MAX_LENGTH in *. rewrite Hl. lia.
Qed.

Lemma appendJsonString_app output s : appendJsonString output s = output ++ appendJsonString [] s.
Proof. by rewrite !appendJsonString_quoted. Qed.
Lemma appendUnsigned_app output v : appendUnsigned output v = output ++ appendUnsigned [] v.
Proof. done. Qed.
Lemma appendEventId_app output e : appendEventId output e = output ++ appendEventId [] e.
Proof. unfold appendEventId. rewrite !(appendQuotedUnsigned_app (_ ++ _)), !(appendUnsigned_app (_ ++ _)). by rewrite <- !app_assoc. Qed.

(** Sum the sizes of the pieces: literals by computation, numbers and strings by their bounds. *)
Ltac sizes :=
  rewrite ?messageSize_app;
  repeat match goal with
    | |- context [messageSize (lit ?s)] =>
        let n := eval vm_compute in (messageSize (lit s)) in change (messageSize (lit s)) with n
    end;
  change (messageSize []) with 0;
  repeat match goal with
    | |- context [messageSize (appendQuotedUnsigned [] ?v)] =>
        let H := fresh in pose proof (quoted_size v) as H; unfold QUOTED_UINT64_BYTES in H;
        revert H; generalize (messageSize (appendQuotedUnsigned [] v)); intros
    end.
Ltac pieces :=
  repeat match goal with
    | |- context [appendQuotedUnsigned ?o ?v] => lazymatch o with [] => fail | _ => rewrite (appendQuotedUnsigned_app o v) end
    | |- context [appendJsonString ?o ?v] => lazymatch o with [] => fail | _ => rewrite (appendJsonString_app o v) end
    | |- context [appendUnsigned ?o ?v] => lazymatch o with [] => fail | _ => rewrite (appendUnsigned_app o v) end
    | |- context [appendEventId ?o ?v] => lazymatch o with [] => fail | _ => rewrite (appendEventId_app o v) end
    end.

(** An event index the controller produces. *)
Definition small_index (e : EventId) : Prop := 0 ≤ EventId.eventIndex e < 10 ^ CONTROLLER_EVENT_INDEX_BYTES.

Lemma eventId_size e : small_index e → messageSize (appendEventId [] e) ≤ EVENT_ID_BYTES.
Proof.
  intros Hi. unfold appendEventId. pieces. change EVENT_ID_BYTES with 99. unfold small_index, CONTROLLER_EVENT_INDEX_BYTES in Hi.
  pose proof (unsigned_size 4 (EventId.eventIndex e) Hi ltac:(lia) ltac:(done)) as Hl.
  sizes. lia.
Qed.

(** ** Events *)
Lemma side_size s name : sideName s = Some name → messageSize (appendJsonString [] name) ≤ 6.
Proof. by destruct s; intros [= <-]. Qed.
Lemma role_size r name : roleName r = Some name → messageSize (appendJsonString [] name) ≤ 7.
Proof. by destruct r; intros [= <-]. Qed.
Lemma commandType_size t name : commandTypeName t = Some name → messageSize (appendJsonString [] name) ≤ 11.
Proof. by destruct t; intros [= <-]. Qed.
Lemma cancelReason_size r name : cancelReasonName r = Some name → messageSize (appendJsonString [] name) ≤ 18.
Proof. by destruct r; intros [= <-]. Qed.
Lemma rejectionReason_size r name : rejectionReasonName r = Some name → messageSize (appendJsonString [] name) ≤ 24.
Proof. by destruct r; intros [= <-]. Qed.

Lemma publicTrade_size t : publicTrade_u64 t → small_index (PublicTrade.eventId t) →
  sideError (PublicTrade.aggressorSide t) = JsonError.NONE → messageSize (render (publicTradeDoc t)) ≤ PUBLIC_TRADE_BYTES.
Proof.
  intros Hu Hi Hs. pose proof (sideError_name (PublicTrade.aggressorSide t)) as Hn.
  destruct (sideName (PublicTrade.aggressorSide t)) as [name|] eqn:E; [|congruence].
  change (render (publicTradeDoc t)) with ([] ++ render (publicTradeDoc t)). erewrite <- appendPublicTrade_doc by done.
  unfold appendPublicTrade. pieces. pose proof (eventId_size _ Hi) as He. pose proof (side_size _ _ E).
  change PUBLIC_TRADE_BYTES with 255. change EVENT_ID_BYTES with 99 in He. sizes. lia.
Qed.

(** The bytes one authoritative event can take: two trades and a comma. *)
Definition eventBytes (e : PrivateEvent) : Z := messageSize (render (privateEventDoc e)).

Definition identifier_ok (e : PrivateEvent) : Prop :=
  match e with PvRejected e => valid_ClientCommandId (Rejected.clientCommandId e) | _ => True end.

Lemma privateTrade_size t : privateEvent_u64 (PvTrade t) → small_index (PrivateTrade.eventId t) →
  sideError (PrivateTrade.side t) = JsonError.NONE → eventBytes (PvTrade t) ≤ PRIVATE_TRADE_BYTES.
Proof.
  intros Hu Hi Hs. pose proof (sideError_name (PrivateTrade.side t)) as Hn.
  destruct (sideName (PrivateTrade.side t)) as [name|] eqn:E; [|congruence].
  destruct (roleName (PrivateTrade.role t)) as [role|] eqn:Er; [|by destruct (PrivateTrade.role t)].
  unfold eventBytes. cbn [privateEventDoc].
  change (render (privateTradeDoc t)) with ([] ++ render (privateTradeDoc t)). erewrite <- appendPrivateTrade_doc by done.
  unfold appendPrivateTrade. pieces. pose proof (eventId_size _ Hi) as He. pose proof (side_size _ _ E). pose proof (role_size _ _ Er).
  change PRIVATE_TRADE_BYTES with 359. change EVENT_ID_BYTES with 99 in He. sizes. lia.
Qed.

Lemma privateEvent_size recipient e : privateEvent_u64 e → small_index (privateEventId e) → identifier_ok e →
  typedError recipient e = JsonError.NONE → eventBytes e ≤ TWO_PRIVATE_TRADES_BYTES.
Proof.
  change TWO_PRIVATE_TRADES_BYTES with 719. intros Hu Hi Hid Hs. destruct e as [e|e|e|e]; cbn [typedError privateEventId identifier_ok] in *.
  - pose proof (privateTrade_size e Hu Hi Hs) as H. change PRIVATE_TRADE_BYTES with 359 in H. lia.
  - apply orElse_NONE in Hs as [_ Hs]. pose proof (sideError_name (Rested.side e)) as Hn.
    destruct (sideName (Rested.side e)) as [name|] eqn:E; [|congruence].
    unfold eventBytes. cbn [privateEventDoc].
    change (render (orderRestedDoc e)) with ([] ++ render (orderRestedDoc e)). erewrite <- appendOrderRested_doc by done.
    unfold appendOrderRested. pieces. pose proof (eventId_size _ Hi) as He. pose proof (side_size _ _ E).
    change EVENT_ID_BYTES with 99 in He. sizes. lia.
  - destruct (cancelReasonName (Cancelled.reason e)) as [name|] eqn:E; [|by destruct (Cancelled.reason e)].
    unfold eventBytes. cbn [privateEventDoc].
    change (render (orderCancelledDoc e)) with ([] ++ render (orderCancelledDoc e)). erewrite <- appendOrderCancelled_doc by done.
    unfold appendOrderCancelled. pieces. pose proof (eventId_size _ Hi) as He. pose proof (cancelReason_size _ _ E).
    change EVENT_ID_BYTES with 99 in He. sizes. lia.
  - destruct (commandTypeName (Rejected.commandType e)) as [name|] eqn:E; [|by destruct (Rejected.commandType e)].
    destruct (rejectionReasonName (Rejected.reason e)) as [reason|] eqn:Er; [|by destruct (Rejected.reason e)].
    unfold eventBytes. cbn [privateEventDoc].
    change (render (commandRejectedDoc e)) with ([] ++ render (commandRejectedDoc e)). erewrite <- appendCommandRejected_doc by done.
    unfold appendCommandRejected. pose proof (eventId_size _ Hi) as He. pose proof (commandType_size _ _ E). pose proof (rejectionReason_size _ _ Er).
    pose proof (identifier_size _ Hid) as Hid'. change MAX_ESCAPED_CLIENT_COMMAND_ID_BYTES with 386 in Hid'.
    change EVENT_ID_BYTES with 99 in He.
    destruct (Rejected.relevantOrderId e); pieces; sizes; lia.
Qed.

(** ** Batches *)
Definition totalBytes (parts : list text) : Z := foldr (λ part total, messageSize part + 1 + total) 0 parts.

Lemma separated_size parts : parts ≠ [] → messageSize (separated parts) = totalBytes parts - 1.
Proof.
  induction parts as [|part parts IH]; [done|]. intros _. destruct parts as [|next parts]; [cbn [separated totalBytes foldr]; lia|].
  rewrite separated_cons, messageSize_app by done. specialize (IH ltac:(done)).
  change (comma :: separated (next :: parts)) with ([comma] ++ separated (next :: parts)). rewrite messageSize_app, IH.
  change (messageSize [comma]) with 1. cbn [totalBytes foldr]. lia.
Qed.

Lemma totalBytes_app parts parts' : totalBytes (parts ++ parts') = totalBytes parts + totalBytes parts'.
Proof. unfold totalBytes. induction parts as [|part parts IH]; [done|]. cbn [foldr app]. rewrite IH. lia. Qed.

Lemma totalBytes_bound k parts : Forall (λ part, messageSize part ≤ k) parts →
  totalBytes parts ≤ (k + 1) * Z.of_nat (length parts).
Proof. unfold totalBytes. induction 1; cbn [foldr length]; [lia|]. nia. Qed.

(** * What the controller hands to the gateway

    The batches a command's result is projected to serialize without error, within
    the gateway's constants: the public trades, and one private result per recipient,
    the recipients being distinct. *)

(** ** Results of commands *)

(** The types of the fields: what 64-bit members and a [ClientCommandId] can hold. *)
Definition event_typed (e : BusinessEvent) : Prop :=
  eventId_u64 (eventIdOf e) ∧
  match e with
  | EvTrade e => is_u64 (Trade.instrumentId e) ∧ is_u64 (Trade.makerOrderId e) ∧ is_u64 (Trade.takerOrderId e) ∧
      is_u64 (Trade.makerClientId e) ∧ is_u64 (Trade.takerClientId e) ∧ is_u64 (Trade.executionPrice e) ∧
      is_u64 (Trade.executionQuantity e) ∧ is_u64 (Trade.makerRemainingQuantity e) ∧ is_u64 (Trade.takerRemainingQuantity e)
  | EvRested e => privateEvent_u64 (PvRested e)
  | EvCancelled e => privateEvent_u64 (PvCancelled e)
  | EvRejected e => privateEvent_u64 (PvRejected e) ∧ valid_ClientCommandId (Rejected.clientCommandId e)
  end.

(** The enumerators and identities the engine gives. *)
Definition event_sides (e : BusinessEvent) : Prop :=
  match e with
  | EvTrade e => Trade.takerSide e = Side.BUY ∨ Trade.takerSide e = Side.SELL
  | EvRested e => Rested.side e = Side.BUY ∨ Rested.side e = Side.SELL
  | _ => True
  end.

Record deliverable (b : CommandResultBatch) : Prop := {
  dv_correlation : correlation_u64 (Batch.correlation b);
  dv_command_id : valid_ClientCommandId (Correlation.clientCommandId (Batch.correlation b));
  dv_typed : Forall event_typed (Batch.events b);
  dv_sides : Forall event_sides (Batch.events b);
  dv_identity : ∀ k e, Batch.events b !! k = Some e →
    eventIdOf e = EventId.mkEventId (Correlation.commandSequence (Batch.correlation b)) (Z.of_nat k)
                    (Correlation.exchangeRunId (Batch.correlation b));
  dv_recipients : Forall (λ e, Forall (λ c, c ≠ 0) (affectedRecipients e)) (Batch.events b);
  dv_count : (length (Batch.events b) ≤ Z.to_nat MAX_AUTHORITATIVE_EVENTS_PER_COMMAND)%nat }.

Section results.
Context (b : CommandResultBatch) (Hb : deliverable b).
Let run : ExchangeRunId := Correlation.exchangeRunId (Batch.correlation b).
Let sequence : CommandSequence := Correlation.commandSequence (Batch.correlation b).

Lemma event_identity e : e ∈ Batch.events b →
  EventId.exchangeRunId (eventIdOf e) = run ∧ EventId.commandSequence (eventIdOf e) = sequence ∧ small_index (eventIdOf e).
Proof.
  intros [k Hk]%list_elem_of_lookup. rewrite (dv_identity b Hb _ _ Hk). split_and!; [done..|].
  apply lookup_lt_Some in Hk. pose proof (dv_count b Hb). unfold small_index, MAX_AUTHORITATIVE_EVENTS_PER_COMMAND in *.
  cbn [EventId.eventIndex]. change (10 ^ CONTROLLER_EVENT_INDEX_BYTES) with 10000. lia.
Qed.

Lemma sides_known : Forall side_known (Batch.events b).
Proof. eapply Forall_impl; [apply (dv_sides b Hb)|]. by intros []. Qed.

Lemma run_u64 : is_u64 run.
Proof. apply (dv_correlation b Hb). Qed.

(** ** Public trades *)
Lemma public_trade t : t ∈ projectPublicTrades b →
  publicTrade_u64 t ∧ small_index (PublicTrade.eventId t) ∧ tradeError run sequence t = JsonError.NONE ∧
  EventId.exchangeRunId (PublicTrade.eventId t) = run ∧ EventId.commandSequence (PublicTrade.eventId t) = sequence.
Proof.
  rewrite projectPublicTrades_omap. intros (trade & -> & (e & He & Hget)%list_elem_of_omap)%list_elem_of_fmap.
  destruct e as [|e| |]; try done. injection Hget as ->.
  destruct (event_identity _ He) as (Hrun & Hseq & Hidx). cbn [eventIdOf] in *.
  pose proof (proj1 (Forall_forall _ _) (dv_typed b Hb) _ He) as (? & ? & _ & _ & _ & _ & ? & ? & _).
  pose proof (proj1 (Forall_forall _ _) (dv_sides b Hb) _ He) as Hside. cbn [event_sides] in Hside.
  split_and!; [by split_and!|done| |done..].
  unfold tradeError, identityError. cbn [publicTrade PublicTrade.eventId PublicTrade.aggressorSide].
  rewrite Hrun, Hseq, !bool_decide_eq_false_2 by auto. destruct Hside as [-> | ->]; done.
Qed.

Lemma public_handoff : projectPublicTrades b ≠ [] →
  serializePublicTradesV1 run (projectPublicTrades b) [] = (JsonError.NONE, render (publicTradesDoc run (projectPublicTrades b))) ∧
  messageSize (render (publicTradesDoc run (projectPublicTrades b))) ≤ MAX_PUBLIC_HANDOFF_MESSAGE_BYTES.
Proof.
  intros Hne. pose proof run_u64 as Hrun.
  assert (Hall : Forall publicTrade_u64 (projectPublicTrades b)).
  { apply Forall_forall. intros t Ht. by apply public_trade. }
  assert (Herr : publicError run (projectPublicTrades b) = JsonError.NONE).
  { unfold publicError. destruct (projectPublicTrades b) as [|front trades] eqn:E; [done|].
    rewrite <- E in *. destruct (public_trade front) as (_ & _ & _ & _ & ->); [rewrite E; by left|].
    apply firstError_NONE, Forall_map, Forall_forall. intros t Ht. symmetry. by apply public_trade. }
  split; [by rewrite serializePublicTrades_spec, Herr, bool_decide_eq_true_2|].
  rewrite render_publicTradesDoc, !messageSize_app, separated_size by (done || by destruct (projectPublicTrades b)).
  assert (Hparts : Forall (λ part, messageSize part ≤ PUBLIC_TRADE_BYTES)
    (map (λ t, render (publicTradeDoc t)) (projectPublicTrades b))).
  { apply Forall_map, Forall_forall. intros t Ht. destruct (public_trade t Ht) as (Hu & Hi & Herr' & _).
    apply publicTrade_size; [done..|]. by apply orElse_NONE in Herr' as [_ ?]. }
  apply totalBytes_bound in Hparts. rewrite length_map in Hparts.
  assert (Hlen : (length (projectPublicTrades b) ≤ length (Batch.events b))%nat).
  { rewrite projectPublicTrades_omap, length_fmap. clear. induction (Batch.events b) as [|e l IH]; [done|].
    cbn. destruct (getTrade e); cbn; lia. }
  pose proof (dv_count b Hb) as Hcount. unfold MAX_AUTHORITATIVE_EVENTS_PER_COMMAND in Hcount.
  change MAX_PUBLIC_HANDOFF_MESSAGE_BYTES with 1048667. change PUBLIC_TRADE_BYTES with 255 in Hparts.
  rewrite appendQuotedUnsigned_app, messageSize_app. sizes. lia.
Qed.

(** ** Private results *)
Lemma view_of_event c e x : e ∈ Batch.events b → x ∈ views c e →
  privateEvent_u64 x ∧ small_index (privateEventId x) ∧ identifier_ok x ∧ eventError run sequence c x = JsonError.NONE ∧
  EventId.exchangeRunId (privateEventId x) = run ∧ EventId.commandSequence (privateEventId x) = sequence.
Proof.
  intros He Hx%elem_of_views. destruct (event_identity _ He) as (Hrun & Hseq & Hidx).
  pose proof (proj1 (Forall_forall _ _) (dv_typed b Hb) _ He) as Htyped.
  pose proof (proj1 (Forall_forall _ _) (dv_sides b Hb) _ He) as Hside.
  assert (Hid : privateEventId x = eventIdOf e) by by destruct Hx.
  assert (Hte : typedError c x = JsonError.NONE).
  { destruct Hx as [e Hc|e Hc|e Hc|e Hc|e Hc]; cbn [typedError event_sides makerTrade takerTrade PrivateTrade.side] in *;
      unfold ownerError; rewrite ?(bool_decide_eq_false_2 (_ ≠ c)) by auto; try done; by destruct Hside as [-> | ->]. }
  unfold eventError, identityError. rewrite Hid, Hrun, Hseq, !bool_decide_eq_false_2 by auto.
  cbn [orElse]. split_and!; try done.
  - destruct Htyped as [Hev Htyped]. destruct Hx; cbn [privateEvent_u64] in *; try (by destruct_and?); split; try done; by destruct_and?.
  - destruct Htyped as [_ Htyped]. destruct Hx; try done. by destruct Htyped.
Qed.

Lemma views_size c e : e ∈ Batch.events b →
  totalBytes (map (λ x, render (privateEventDoc x)) (views c e)) ≤ TWO_PRIVATE_TRADES_BYTES + 1.
Proof.
  intros He. pose proof (λ x Hx, view_of_event c e x He Hx) as Hviews.
  assert (Hone : ∀ x, x ∈ views c e → eventBytes x ≤ TWO_PRIVATE_TRADES_BYTES).
  { intros x Hx. destruct (Hviews x Hx) as (Hu & Hi & Hid & [_ Hte]%orElse_NONE & _). by apply (privateEvent_size c). }
  assert (Htrade : ∀ t, PvTrade t ∈ views c e → eventBytes (PvTrade t) ≤ PRIVATE_TRADE_BYTES).
  { intros t Ht. destruct (Hviews _ Ht) as (Hu & Hi & _ & [_ Hte]%orElse_NONE & _). by apply privateTrade_size. }
  clear Hviews He. change TWO_PRIVATE_TRADES_BYTES with 719 in *. change PRIVATE_TRADE_BYTES with 359 in Htrade.
  unfold eventBytes, totalBytes in *. destruct e as [e|e|e|e]; cbn [views] in *; repeat case_bool_decide; cbn [app map foldr] in *;
    try lia; first [pose proof (Htrade _ ltac:(left)) | pose proof (Hone _ ltac:(left))];
    try (pose proof (Htrade _ ltac:(right; left))); lia.
Qed.

Lemma allViews_size c :
  totalBytes (map (λ x, render (privateEventDoc x)) (allViews (Batch.events b) c)) ≤
  (TWO_PRIVATE_TRADES_BYTES + 1) * Z.of_nat (length (Batch.events b)).
Proof.
  pose proof (views_size c) as Hsize. revert Hsize. induction (Batch.events b) as [|e l IH]; intros Hsize; [cbn; lia|].
  rewrite allViews_cons, map_app, totalBytes_app. cbn [length].
  pose proof (Hsize e ltac:(by left)). specialize (IH ltac:(intros e' He'; apply Hsize; by right)). lia.
Qed.

Definition handed_result (c : ClientId) : RecipientResult := recipientResult b (Batch.events b) c.

Lemma correlation_of c : Recipient.correlation (handed_result c) =
  if bool_decide (c = Correlation.clientId (Batch.correlation b)) then Some (Batch.correlation b) else None.
Proof. done. Qed.

Lemma envelope_size c : messageSize (privatePrefix run (handed_result c)) ≤ PRIVATE_ENVELOPE_FIXED_BYTES - 2.
Proof.
  unfold privatePrefix. rewrite correlation_of. change PRIVATE_ENVELOPE_FIXED_BYTES with 671.
  case_bool_decide.
  - unfold appendCorrelation. pose proof (identifier_size _ (dv_command_id b Hb)) as Hid.
    change MAX_ESCAPED_CLIENT_COMMAND_ID_BYTES with 386 in Hid. pieces. sizes. lia.
  - pieces. sizes. lia.
Qed.

Lemma private_event c x : x ∈ Recipient.privateResult (handed_result c) → ∃ e, e ∈ Batch.events b ∧ x ∈ views c e.
Proof. apply elem_of_allViews. Qed.

Lemma handed_u64 c : is_u64 c → recipientResult_u64 (handed_result c).
Proof.
  intros Hc. split_and!; [done| |].
  - rewrite correlation_of. case_bool_decide; [apply (dv_correlation b Hb)|done].
  - apply Forall_forall. intros x (e & He & Hx)%private_event. by apply (view_of_event c e x He Hx).
Qed.

Lemma handed_error c : allViews (Batch.events b) c ≠ [] → privateError run (handed_result c) = JsonError.NONE.
Proof.
  intros Hne. unfold privateError. destruct (Recipient.privateResult (handed_result c)) as [|front events] eqn:E; [done|].
  rewrite <- E. assert (Hf : EventId.commandSequence (privateEventId front) = sequence).
  { destruct (private_event c front) as (e & He & Hx); [rewrite E; by left|]. by apply (view_of_event c e front He Hx). }
  rewrite Hf. apply orElse_NONE. split.
  - apply firstError_NONE, Forall_map, Forall_forall. intros x (e & He & Hx)%private_event.
    symmetry. by apply (view_of_event c e x He Hx).
  - rewrite correlation_of. case_bool_decide as Hc; [|done]. cbn [correlationError]. unfold ownerError.
    by rewrite !bool_decide_eq_false_2 by (unfold run, sequence; cbn; auto).
Qed.

Lemma private_handoff c : is_u64 c → allViews (Batch.events b) c ≠ [] →
  serializePrivateResultV1 run (handed_result c) [] = (JsonError.NONE, render (privateResultDoc run (handed_result c))) ∧
  messageSize (render (privateResultDoc run (handed_result c))) ≤ MAX_PRIVATE_HANDOFF_MESSAGE_BYTES.
Proof.
  intros Hc Hne. pose proof run_u64 as Hrun. pose proof (handed_u64 c Hc) as Hwide.
  split; [by rewrite serializePrivateResult_spec, handed_error, bool_decide_eq_true_2|].
  rewrite render_privateResultDoc, !messageSize_app by done.
  change (Recipient.privateResult (handed_result c)) with (allViews (Batch.events b) c).
  rewrite separated_size by (by destruct (allViews (Batch.events b) c)).
  pose proof (allViews_size c) as Hviews. pose proof (envelope_size c) as Henv.
  pose proof (dv_count b Hb) as Hcount. unfold MAX_AUTHORITATIVE_EVENTS_PER_COMMAND in Hcount.
  change TWO_PRIVATE_TRADES_BYTES with 719 in Hviews. change PRIVATE_ENVELOPE_FIXED_BYTES with 671 in Henv.
  change MAX_PRIVATE_HANDOFF_MESSAGE_BYTES with 2949790. sizes. lia.
Qed.

(** ** The batch of private results *)
Lemma affected_u64 c e : e ∈ Batch.events b → c ∈ affectedRecipients e → is_u64 c ∧ c ≠ 0.
Proof.
  intros He Hc. split.
  - pose proof (proj1 (Forall_forall _ _) (dv_typed b Hb) _ He) as [_ Ht].
    destruct e as [e|e|e|e]; cbn [affectedRecipients] in Hc; [|case_bool_decide|..];
      rewrite ?elem_of_cons, ?elem_of_nil in Hc; unfold privateEvent_u64 in Ht; destruct_and?; naive_solver.
  - pose proof (proj1 (Forall_forall _ _) (dv_recipients b Hb) _ He) as Hr. by apply (proj1 (Forall_forall _ _) Hr).
Qed.

Lemma private_batch : projectPrivateResults b = Ret (handed_result <$> recipientsOf (Batch.events b)).
Proof.
  apply projectPrivateResults_run; [apply sides_known|]. pose proof (dv_count b Hb).
  unfold MAX_AUTHORITATIVE_EVENTS_PER_COMMAND, SIZE_MAX, UINT64_MAX in *. lia.
Qed.

Lemma recipient_spec c : c ∈ recipientsOf (Batch.events b) →
  is_u64 c ∧ c ≠ 0 ∧ allViews (Batch.events b) c ≠ [].
Proof.
  intros Hc%elem_of_recipientsOf.
  assert (Hx : ∃ x, x ∈ allViews (Batch.events b) c) by (destruct (allViews _ c); [done|eexists; by left]).
  destruct Hx as (x & (e & He & Hx)%elem_of_allViews). destruct (affected_u64 c e He) as [? ?]; [|done].
  apply views_affected. intros Hnil. rewrite Hnil in Hx. by apply elem_of_nil in Hx.
Qed.
End results.

(** * Routing payloads to connections

    With the bytes of every connection accounted for, both routing loops give every
    connection of the run what is addressed to it, or drop the connection when it has
    no room, and leave the others alone; no loop meets a broken account. *)

(** ** Accounts *)
Definition queuedSize (outbound : list text) : Z := foldr (λ m size, messageSize m + size) 0 outbound.

Lemma queuedSize_app l l' : queuedSize (l ++ l') = queuedSize l + queuedSize l'.
Proof. unfold queuedSize. induction l as [|m l IH]; [done|]. cbn [foldr app]. rewrite IH. lia. Qed.
Lemma queuedSize_nonneg l : 0 ≤ queuedSize l.
Proof. unfold queuedSize. induction l as [|m l IH]; [done|]. cbn [foldr]. pose proof (messageSize_nonneg m). lia. Qed.

Record connection_ok (capacity : Z) (c : ConnectionState) : Prop := {
  co_bytes : Conn.queuedBytes c = queuedSize (Conn.outbound c);
  co_fits : Conn.queuedBytes c ≤ capacity;
  co_client : Conn.clientId c ≠ 0;
  co_run : Conn.exchangeRunId c ≠ 0 }.

(** The connection with the payload, when it has room for it. *)
Definition deliver (capacity : Z) (payload : text) (c : ConnectionState) : option ConnectionState :=
  if bool_decide (Conn.queuedBytes c + messageSize payload ≤ capacity) then Some (pushOutbound payload c) else None.

(** Who a connection is. *)
Definition connectionKey (c : ConnectionState) : ClientId * ExchangeRunId := (Conn.clientId c, Conn.exchangeRunId c).
Definition same_connection (c c' : ConnectionState) : Prop :=
  Conn.handle c' = Conn.handle c ∧ connectionKey c' = connectionKey c.

Lemma enqueueCapacity_spec capacity c payload : capacity ≤ SIZE_MAX → connection_ok capacity c →
  enqueueCapacity (Conn.queuedBytes c) (messageSize payload) capacity =
  if bool_decide (Conn.queuedBytes c + messageSize payload ≤ capacity) then EnqueueCapacity.FITS else EnqueueCapacity.SLOW_CONSUMER.
Proof.
  intros Hcap Hc. pose proof (co_fits _ _ Hc) as Hfits. pose proof (queuedSize_nonneg (Conn.outbound c)) as Hpos.
  rewrite <- (co_bytes _ _ Hc) in Hpos. unfold enqueueCapacity.
  rewrite bool_decide_eq_false_2 by lia. unfold SIZE_MAX in Hcap. rewrite wrap64_small by (unfold is_u64; lia).
  repeat case_bool_decide; (done || lia).
Qed.

Lemma deliver_ok capacity payload c c' : capacity ≤ SIZE_MAX → connection_ok capacity c → deliver capacity payload c = Some c' →
  connection_ok capacity c' ∧ same_connection c c' ∧ Conn.outbound c' = Conn.outbound c ++ [payload].
Proof.
  unfold deliver, SIZE_MAX. intros Hcap Hc. case_bool_decide as Hfits; [|done]. intros [= <-].
  pose proof (queuedSize_nonneg (Conn.outbound c)) as Hpos. rewrite <- (co_bytes _ _ Hc) in Hpos.
  pose proof (messageSize_nonneg payload).
  assert (Hw : wrap64 (Conn.queuedBytes c + messageSize payload) = Conn.queuedBytes c + messageSize payload)
    by (apply wrap64_small; unfold is_u64; lia).
  split; [|done]. destruct Hc. split; cbn; rewrite ?Hw; try done.
  rewrite queuedSize_app. cbn [queuedSize foldr]. lia.
Qed.

(** A payload always fits a connection that waits for nothing. *)
Lemma deliver_idle capacity payload c : connection_ok capacity c → Conn.outbound c = [] → messageSize payload ≤ capacity →
  deliver capacity payload c = Some (pushOutbound payload c).
Proof.
  intros Hc Hidle Hsize. unfold deliver. rewrite (co_bytes _ _ Hc), Hidle. cbn [queuedSize foldr].
  by rewrite bool_decide_eq_true_2 by lia.
Qed.

(** ** Lists of connections *)
Section keys.
Context {A B : Type} (key : A → B) (f : A → option A) (Hkey : ∀ x y, f x = Some y → key y = key x).

Lemma omap_keys_sublist (l : list A) : sublist (key <$> omap f l) (key <$> l).
Proof.
  induction l as [|x l IH]; [constructor|]. cbn. destruct (f x) as [y|] eqn:E; cbn.
  - rewrite (Hkey _ _ E). by constructor.
  - by constructor.
Qed.

Lemma omap_keys_NoDup (l : list A) : NoDup (key <$> l) → NoDup (key <$> omap f l).
Proof. intros Hl. eapply sublist_NoDup; [exact Hl|apply omap_keys_sublist]. Qed.
End keys.

Lemma omap_id_on {A} (f : A → option A) (l : list A) : (∀ x, x ∈ l → f x = Some x) → omap f l = l.
Proof.
  induction l as [|x l IH]; intros Hf; [done|]. cbn. rewrite (Hf x) by (by left). f_equal. apply IH. intros y Hy. apply Hf. by right.
Qed.

Lemma omap_omap {A} (f g : A → option A) (l : list A) : omap g (omap f l) = omap (λ x, f x ≫= g) l.
Proof. induction l as [|x l IH]; [done|]. cbn. destruct (f x); cbn; by rewrite ?IH. Qed.

Lemma omap_ext_on {A} (f g : A → option A) (l : list A) : (∀ x, x ∈ l → f x = g x) → omap f l = omap g l.
Proof.
  induction l as [|x l IH]; intros Hf; [done|]. cbn. rewrite (Hf x) by (by left). rewrite IH by (intros y Hy; apply Hf; by right). done.
Qed.

Lemma Forall_omap_on {A} (P : A → Prop) (f : A → option A) (l : list A) : Forall P l → (∀ x y, P x → f x = Some y → P y) → Forall P (omap f l).
Proof.
  intros Hl Hf. apply Forall_forall. intros y (x & Hx & E)%list_elem_of_omap.
  eapply Hf; [by apply (proj1 (Forall_forall _ _) Hl)|done].
Qed.

Lemma length_omap_le {A} (f : A → option A) (l : list A) : (length (omap f l) ≤ length l)%nat.
Proof. induction l as [|x l IH]; [done|]. cbn. destruct (f x); cbn; lia. Qed.

(** ** Public payloads *)
Definition publicDelivery (capacity : Z) (run : ExchangeRunId) (payload : text) (c : ConnectionState) : option ConnectionState :=
  if bool_decide (Conn.exchangeRunId c = run) then deliver capacity payload c else Some c.

Lemma routePublic_spec capacity run payload connections : capacity ≤ SIZE_MAX → Forall (connection_ok capacity) connections →
  routePublic payload run capacity connections = (true, omap (publicDelivery capacity run payload) connections).
Proof.
  intros Hcap. induction 1 as [|c connections Hc _ IH]; [done|]. cbn [routePublic omap list_omap]. unfold publicDelivery at 1.
  rewrite IH. destruct (bool_decide_reflect (Conn.exchangeRunId c = run)) as [E|E].
  - rewrite bool_decide_eq_false_2 by auto. rewrite enqueueCapacity_spec by done. unfold deliver. by case_bool_decide.
  - by rewrite bool_decide_eq_true_2.
Qed.

(** ** Private payloads *)
Definition recipientDelivery (capacity : Z) (s : SerializedRecipient) (c : ConnectionState) : option ConnectionState :=
  if bool_decide (connectionKey c = (serializedRecipient s, serializedRunId s)) then deliver capacity (serializedPayload s) c
  else Some c.

Lemma deliver_key capacity payload c c' : deliver capacity payload c = Some c' → same_connection c c'.
Proof. unfold deliver. case_bool_decide; [|done]. by intros [= <-]. Qed.

Lemma recipientDelivery_key capacity s c c' : recipientDelivery capacity s c = Some c' → same_connection c c'.
Proof. unfold recipientDelivery. case_bool_decide; [apply deliver_key|by intros [= <-]]. Qed.

Lemma omap_at {A} (f : A → option A) (pre : list A) x post : (∀ y, y ∈ pre ++ post → f y = Some y) →
  omap f (pre ++ x :: post) = match f x with Some y => pre ++ y :: post | None => pre ++ post end.
Proof.
  intros Hf. rewrite omap_app. cbn [omap list_omap].
  rewrite (omap_id_on f pre), (omap_id_on f post) by (intros y Hy; apply Hf, elem_of_app; auto).
  by destruct (f x).
Qed.

(** One recipient's step of the loop. *)
Lemma route_one capacity s connections : NoDup (connectionKey <$> connections) →
  match findClient (serializedRecipient s) (serializedRunId s) connections with
  | None => omap (recipientDelivery capacity s) connections = connections
  | Some (position, c) =>
      c ∈ connections ∧
      omap (recipientDelivery capacity s) connections =
        match deliver capacity (serializedPayload s) c with
        | Some c' => <[position := c']> connections
        | None => delete position connections
        end
  end.
Proof.
  intros Hnd. unfold findClient. destruct (list_find _ connections) as [[position c]|] eqn:Hf.
  - apply list_find_Some in Hf as (Hi & [Hclient Hrun] & _). split; [by eapply list_elem_of_lookup_2|].
    apply list_elem_of_split_length in Hi as (pre & post & -> & ->).
    assert (Hothers : ∀ y, y ∈ pre ++ post → recipientDelivery capacity s y = Some y).
    { intros y Hy. unfold recipientDelivery. rewrite bool_decide_eq_false_2; [done|]. intros Hk.
      rewrite fmap_app, fmap_cons in Hnd. apply NoDup_app in Hnd as (_ & Hpre & [Hpost _]%NoDup_cons).
      assert (Hkc : connectionKey c = connectionKey y) by (rewrite Hk; unfold connectionKey; by rewrite Hclient, Hrun).
      apply elem_of_app in Hy as [Hy|Hy].
      - apply (Hpre (connectionKey c)); [rewrite Hkc; by apply list_elem_of_fmap_2|by left].
      - apply Hpost. rewrite Hkc. by apply list_elem_of_fmap_2. }
    rewrite omap_at by done. unfold recipientDelivery.
    rewrite bool_decide_eq_true_2 by (unfold connectionKey; by rewrite Hclient, Hrun).
    destruct (deliver _ _ _); [by rewrite insert_app_r_alt, Nat.sub_diag by lia|by rewrite delete_middle].
  - apply omap_id_on. intros c Hc. unfold recipientDelivery. rewrite bool_decide_eq_false_2; [done|].
    intros [= E1 E2]. eapply list_find_None, Forall_forall in Hf; [|exact Hc]. by apply Hf.
Qed.

(** What the loop gives a connection: the payload of the entry with its key. *)
Definition payloadFor (serialized : list SerializedRecipient) (c : ConnectionState) : option text :=
  '(_, s) ← list_find (λ s, (serializedRecipient s, serializedRunId s) = connectionKey c) serialized;
  Some (serializedPayload s).
Definition privateDelivery (capacity : Z) (serialized : list SerializedRecipient) (c : ConnectionState) : option ConnectionState :=
  match payloadFor serialized c with Some payload => deliver capacity payload c | None => Some c end.

Lemma payloadFor_cons s serialized c : payloadFor (s :: serialized) c =
  if bool_decide ((serializedRecipient s, serializedRunId s) = connectionKey c) then Some (serializedPayload s)
  else payloadFor serialized c.
Proof.
  unfold payloadFor. cbn [list_find]. case_decide; case_bool_decide; try done.
  destruct (list_find _ serialized) as [[]|]; done.
Qed.

Lemma payloadFor_None serialized c : (∀ s, s ∈ serialized → (serializedRecipient s, serializedRunId s) ≠ connectionKey c) →
  payloadFor serialized c = None.
Proof. intros Hs. unfold payloadFor. rewrite (proj2 (list_find_None _ _)); [done|]. by apply Forall_forall. Qed.

Lemma routePrivate_spec capacity serialized : capacity ≤ SIZE_MAX → NoDup (serializedRecipient <$> serialized) →
  ∀ connections, Forall (connection_ok capacity) connections → NoDup (connectionKey <$> connections) →
  routePrivate serialized capacity connections = (true, omap (privateDelivery capacity serialized) connections).
Proof.
  intros Hcap. induction serialized as [|s serialized IH]; intros Hnd connections Hok Hkeys.
  { cbn. by rewrite omap_id_on. }
  rewrite fmap_cons in Hnd. apply NoDup_cons in Hnd as [Hs Hnd].
  assert (Hok' : Forall (connection_ok capacity) (omap (recipientDelivery capacity s) connections)).
  { apply Forall_omap_on; [done|]. intros c c' Hc. unfold recipientDelivery. case_bool_decide; [|by intros [= <-]].
    intros E. by eapply deliver_ok. }
  assert (Hkeys' : NoDup (connectionKey <$> omap (recipientDelivery capacity s) connections)).
  { apply omap_keys_NoDup; [|done]. intros c c' E. by apply recipientDelivery_key in E as [_ ?]. }
  assert (Hcompose : omap (privateDelivery capacity (s :: serialized)) connections =
    omap (privateDelivery capacity serialized) (omap (recipientDelivery capacity s) connections)).
  { rewrite omap_omap. apply omap_ext_on. intros c _. unfold privateDelivery at 1. rewrite payloadFor_cons.
    unfold recipientDelivery. destruct (bool_decide_reflect (connectionKey c = (serializedRecipient s, serializedRunId s))) as [E|E].
    - rewrite bool_decide_eq_true_2 by done. destruct (deliver _ _ _) as [c'|] eqn:Ed; [|done]. cbn.
      unfold privateDelivery. rewrite payloadFor_None; [done|]. intros s' Hs' E'.
      apply deliver_key in Ed as [_ Hk]. rewrite Hk, E in E'. injection E' as E' _.
      apply Hs. rewrite <- E'. by apply list_elem_of_fmap_2.
    - by rewrite bool_decide_eq_false_2 by auto. }
  rewrite Hcompose. cbn [routePrivate]. pose proof (route_one capacity s connections Hkeys) as Hone.
  destruct (findClient _ _ _) as [[position c]|].
  - destruct Hone as [Hc Hone]. rewrite enqueueCapacity_spec by (done || by apply (proj1 (Forall_forall _ _) Hok)).
    unfold deliver in Hone. rewrite Hone in *. case_bool_decide; by apply IH.
  - rewrite Hone in *. by apply IH.
Qed.

(** * The gateway's operations

    What a private batch is serialized to; the invariant of the gateway and its
    preservation by every operation; and the two cycles on what a controller hands
    over: exactly the connections of the run are served, and none fails. *)

(** ** Serialized recipients *)

(** An entry is the text of its recipient's result. *)
Definition serialized_from (run : ExchangeRunId) (r : RecipientResult) (s : SerializedRecipient) : Prop :=
  serializedRecipient s = Recipient.recipient r ∧ serializedRunId s = run ∧
  serializePrivateResultV1 run r [] = (JsonError.NONE, serializedPayload s).

(** What the loop asks of an entry of the batch. *)
Definition recipient_ready (run : ExchangeRunId) (sequence : CommandSequence) (r : RecipientResult) : Prop :=
  Recipient.recipient r ≠ 0 ∧
  (∃ front events, Recipient.privateResult r = front :: events ∧ EventId.exchangeRunId (privateEventId front) = run ∧
     EventId.commandSequence (privateEventId front) = sequence) ∧
  (serializePrivateResultV1 run r []).1 = JsonError.NONE.

Lemma serializeRecipients_run run sequence pending : Forall (recipient_ready run sequence) pending →
  ∀ seen before_run before_sequence acc, NoDup (Recipient.recipient <$> pending) →
  (∀ r, r ∈ pending → Recipient.recipient r ∉ seen) →
  (before_run = None ∨ (before_run = Some run ∧ before_sequence = Some sequence)) →
  ∃ serialized, serializeRecipients pending seen before_run before_sequence acc = inr (acc ++ serialized) ∧
    Forall2 (serialized_from run) pending serialized.
Proof.
  induction 1 as [|r pending (Hr & (front & events & Hevents & Hrun & Hseq) & Herr) _ IH];
    intros seen before_run before_sequence acc Hnd Hseen Hbefore.
  { exists []. cbn. by rewrite app_nil_r. }
  rewrite fmap_cons in Hnd. apply NoDup_cons in Hnd as [Hnew Hnd].
  cbn [serializeRecipients]. rewrite Hevents, Hrun, Hseq.
  rewrite (bool_decide_eq_false_2 (Recipient.recipient r = 0)) by done.
  rewrite bool_decide_eq_false_2 by (apply Hseen; by left). cbn [orb].
  assert (Hid : bool_decide (before_run ≠ None) &&
    (bool_decide (Some run ≠ before_run) || bool_decide (Some sequence ≠ before_sequence)) = false).
  { destruct Hbefore as [-> | [-> ->]]; [done|]. by rewrite !(bool_decide_eq_false_2 (Some _ ≠ Some _)) by auto. }
  rewrite Hid. destruct (serializePrivateResultV1 run r []) as [error payload] eqn:Es. cbn in Herr. subst error.
  destruct (IH (Recipient.recipient r :: seen) (Some run) (Some sequence)
    (acc ++ [mkSerialized (Recipient.recipient r) run payload]) Hnd) as (serialized & -> & Hall); [|by right|].
  - intros r' Hr' [E|Hin]%elem_of_cons; [|by apply (Hseen r'); [right|]]. apply Hnew. rewrite <- E. by apply list_elem_of_fmap_2.
  - eexists (_ :: serialized). rewrite <- app_assoc. split; [done|]. by constructor.
Qed.

(** Whatever the batch, what comes out belongs to its recipients, each once. *)
Lemma serializeRecipients_sound pending : ∀ seen before_run before_sequence acc out,
  serializeRecipients pending seen before_run before_sequence acc = inr out →
  ∃ serialized, out = acc ++ serialized ∧
    Forall2 (λ r s, serialized_from (serializedRunId s) r s) pending serialized ∧
    NoDup (Recipient.recipient <$> pending) ∧ ∀ r, r ∈ pending → Recipient.recipient r ∉ seen.
Proof.
  induction pending as [|r pending IH]; intros seen before_run before_sequence acc out; cbn [serializeRecipients].
  { intros [= <-]. exists []. rewrite app_nil_r. split_and!; [done..|apply NoDup_nil_2|]. by intros r ?%elem_of_nil. }
  destruct (Recipient.privateResult r) as [|front events]; [done|].
  destruct (bool_decide_reflect (Recipient.recipient r = 0)) as [|_]; [done|]. cbn [orb].
  destruct (bool_decide_reflect (Recipient.recipient r ∈ seen)) as [|Hseen]; [done|].
  destruct (bool_decide (before_run ≠ None) && _); [done|].
  destruct (serializePrivateResultV1 _ r []) as [[] payload] eqn:Es; try done.
  intros (serialized & -> & Hall & Hnd & Hnew)%IH. eexists (_ :: serialized). rewrite <- app_assoc.
  split_and!; [done|by constructor| |].
  - rewrite fmap_cons. apply NoDup_cons. split; [|done]. intros (r' & E & Hr')%list_elem_of_fmap.
    apply (Hnew r' Hr'). rewrite E. by left.
  - intros r' [-> |Hr']%elem_of_cons; [done|]. intros Hin. apply (Hnew r' Hr'). by right.
Qed.

Lemma serialized_recipients (P : RecipientResult → SerializedRecipient → Prop) pending serialized :
  (∀ r s, P r s → serializedRecipient s = Recipient.recipient r) → Forall2 P pending serialized →
  serializedRecipient <$> serialized = Recipient.recipient <$> pending.
Proof. intros HP. induction 1 as [|r s pending serialized Hrs _ IH]; [done|]. rewrite !fmap_cons, (HP _ _ Hrs). by rewrite IH. Qed.

(** ** The invariant *)
#[local] Opaque MIN_OUTBOUND_CAPACITY.

Lemma NoDup_replace {A} (pre post : list A) x y : NoDup (pre ++ x :: post) → y ∉ pre ++ x :: post → NoDup (pre ++ y :: post).
Proof. rewrite <- !Permutation_middle, !NoDup_cons, elem_of_cons. intuition. Qed.

Lemma NoDup_drop {A} (pre post : list A) x : NoDup (pre ++ x :: post) → NoDup (pre ++ post).
Proof. rewrite <- Permutation_middle, NoDup_cons. by intros []. Qed.

Lemma insert_middle {A} (pre post : list A) x y : <[length pre := y]> (pre ++ x :: post) = pre ++ y :: post.
Proof. by rewrite insert_app_r_alt, Nat.sub_diag by lia. Qed.

Lemma NoDup_snoc {A} (l : list A) x : NoDup l → x ∉ l → NoDup (l ++ [x]).
Proof. intros Hl Hx. apply NoDup_app. split_and!; [done| |apply NoDup_singleton]. by intros y Hy ->%list_elem_of_singleton. Qed.

Section gateway.
Context {C : Type} `{!EventSource C}.
Implicit Types (g : ApplicationEventGateway C).

Record gateway_ok g : Prop := {
  gw_capacity : MIN_OUTBOUND_CAPACITY ≤ Gateway.perConnectionOutboundByteCapacity_ g ≤ SIZE_MAX;
  gw_limit : Z.of_nat (length (Gateway.connections_ g)) ≤ Gateway.maximumConnections_ g;
  gw_handles : NoDup (Conn.handle <$> Gateway.connections_ g);
  gw_clients : NoDup (connectionKey <$> Gateway.connections_ g);
  gw_accounts : Forall (connection_ok (Gateway.perConnectionOutboundByteCapacity_ g)) (Gateway.connections_ g) }.

(** An operation that keeps the connections and the limits keeps the invariant. *)
Lemma gateway_ok_same g g' : gateway_ok g → Gateway.connections_ g' = Gateway.connections_ g →
  Gateway.maximumConnections_ g' = Gateway.maximumConnections_ g →
  Gateway.perConnectionOutboundByteCapacity_ g' = Gateway.perConnectionOutboundByteCapacity_ g → gateway_ok g'.
Proof. intros [] E1 E2 E3. split; rewrite ?E1, ?E2, ?E3; done. Qed.

Lemma newGateway_ok controller maximum capacity g : 0 ≤ maximum → capacity ≤ SIZE_MAX →
  newGateway controller maximum capacity = Ret g → gateway_ok g.
Proof.
  unfold newGateway, throw_if. intros Hmax Hcap. destruct (bool_decide_reflect (maximum = 0)); [discriminate|].
  cbn [mbind outcome_bind]. destruct (bool_decide_reflect (capacity < MIN_OUTBOUND_CAPACITY)); [discriminate|].
  cbn [mbind outcome_bind]. intros [= <-]. split; cbn; [lia|lia|apply NoDup_nil_2..|constructor].
Qed.

(** Routing keeps the invariant: it only delivers or drops. *)
Lemma routed_ok g (f : ConnectionState → option ConnectionState) : gateway_ok g →
  (∀ c c', connection_ok (Gateway.perConnectionOutboundByteCapacity_ g) c → f c = Some c' →
     connection_ok (Gateway.perConnectionOutboundByteCapacity_ g) c' ∧ same_connection c c') →
  gateway_ok (setConnections (omap f (Gateway.connections_ g)) g).
Proof.
  intros [Hcap Hlimit Hhandles Hclients Haccounts] Hf.
  assert (Hkeys : ∀ {B} (key : ConnectionState → B), (∀ c c', same_connection c c' → key c' = key c) →
    NoDup (key <$> Gateway.connections_ g) → NoDup (key <$> omap f (Gateway.connections_ g))).
  { intros B key Hkey Hnd. clear Hlimit Hhandles Hclients. revert Haccounts Hnd.
    induction (Gateway.connections_ g) as [|c l IH]; intros Hall Hnd; [done|].
    apply Forall_cons in Hall as [Hc Hall]. rewrite fmap_cons in Hnd. apply NoDup_cons in Hnd as [Hin Hnd].
    cbn. destruct (f c) as [c'|] eqn:E; [|by apply IH]. rewrite fmap_cons. apply NoDup_cons. split; [|by apply IH].
    destruct (Hf _ _ Hc E) as [_ Hsame]. rewrite (Hkey _ _ Hsame).
    intros (d' & Ekey & (d & Hd & Ed)%list_elem_of_omap)%list_elem_of_fmap.
    destruct (Hf d d' (proj1 (Forall_forall _ _) Hall _ Hd) Ed) as [_ Hsame']. apply Hin. rewrite Ekey, (Hkey _ _ Hsame').
    by apply list_elem_of_fmap_2. }
  split; cbn; [done| | | |].
  - pose proof (length_omap_le f (Gateway.connections_ g)). lia.
  - apply Hkeys; [|done]. by intros ? ? [].
  - apply Hkeys; [|done]. by intros ? ? [].
  - apply Forall_omap_on; [done|]. intros c c' Hc E. by apply (Hf c c').
Qed.

Lemma publicDelivery_ok capacity run payload c c' : capacity ≤ SIZE_MAX → connection_ok capacity c →
  publicDelivery capacity run payload c = Some c' → connection_ok capacity c' ∧ same_connection c c'.
Proof.
  unfold publicDelivery. intros Hcap Hc. case_bool_decide; [|by intros [= <-]]. intros E.
  by destruct (deliver_ok _ _ _ _ Hcap Hc E) as (? & ? & _).
Qed.

Lemma privateDelivery_ok capacity serialized c c' : capacity ≤ SIZE_MAX → connection_ok capacity c →
  privateDelivery capacity serialized c = Some c' → connection_ok capacity c' ∧ same_connection c c'.
Proof.
  unfold privateDelivery. intros Hcap Hc. destruct (payloadFor serialized c); [|by intros [= <-]]. intros E.
  by destruct (deliver_ok _ _ _ _ Hcap Hc E) as (? & ? & _).
Qed.

(** ** Connections *)
Lemma registerConnection_ok handle clientId run g : gateway_ok g → gateway_ok (registerConnection handle clientId run g).2.
Proof.
  intros Hok. unfold registerConnection.
  destruct (bool_decide_reflect (clientId = 0)) as [|Hclient]; [done|].
  destruct (bool_decide_reflect (run = 0)) as [|Hrun]; [done|]. cbn [orb].
  destruct (bool_decide (admissionRun _ ≠ _)); [done|].
  destruct (bool_decide_reflect (findConnection handle (Gateway.connections_ g) ≠ None)) as [|Hnew]; [done|].
  assert (Hhandle : handle ∉ Conn.handle <$> Gateway.connections_ g).
  { intros (c & E & Hc)%list_elem_of_fmap. apply Hnew. unfold findConnection. intros Hf%list_find_None.
    by apply (proj1 (Forall_forall _ _) Hf c Hc). }
  assert (Hconn : connection_ok (Gateway.perConnectionOutboundByteCapacity_ g) (newConnection handle clientId run)).
  { split; try done. cbn. pose proof (gw_capacity g Hok) as Hcap. rewrite minimum_capacity in Hcap. lia. }
  destruct Hok as [Hcap Hlimit Hhandles Hclients Haccounts]. unfold findClient.
  destruct (list_find _ (Gateway.connections_ g)) as [[position old]|] eqn:Hf; cbn.
  - apply list_find_Some in Hf as (Hi & [Ec Er] & _).
    assert (Hkey : connectionKey old = (clientId, run)) by (unfold connectionKey; by rewrite Ec, Er).
    apply list_elem_of_split_length in Hi as (pre & post & E & ->).
    rewrite E in *. rewrite insert_middle.
    rewrite fmap_app, fmap_cons in Hhandles. rewrite fmap_app, fmap_cons in Hclients. rewrite fmap_app, fmap_cons in Hhandle.
    split; cbn [setConnections Gateway.connections_ Gateway.maximumConnections_ Gateway.perConnectionOutboundByteCapacity_].
    + done.
    + rewrite length_app in *. done.
    + rewrite fmap_app, fmap_cons. by eapply NoDup_replace.
    + rewrite fmap_app, fmap_cons.
      by change (connectionKey (newConnection handle clientId run)) with (clientId, run); rewrite <- Hkey.
    + apply Forall_app in Haccounts as [? [_ ?]%Forall_cons]. apply Forall_app. split; [done|by constructor].
  - destruct (bool_decide_reflect (Gateway.maximumConnections_ g ≤ Z.of_nat (length (Gateway.connections_ g)))) as [|Hroom]; [done|].
    cbn. split; cbn [setConnections Gateway.connections_ Gateway.maximumConnections_ Gateway.perConnectionOutboundByteCapacity_].
    + done.
    + rewrite length_app. cbn [length]. lia.
    + rewrite fmap_app. by apply NoDup_snoc.
    + rewrite fmap_app. apply NoDup_snoc; [done|]. intros (c & E & Hc)%list_elem_of_fmap.
      apply list_find_None in Hf. apply (proj1 (Forall_forall _ _) Hf c Hc). by injection E.
    + apply Forall_app. split; [done|]. by constructor.
Qed.

Lemma findConnection_split handle connections position c : findConnection handle connections = Some (position, c) →
  ∃ pre post, connections = pre ++ c :: post ∧ position = length pre ∧ Conn.handle c = handle.
Proof.
  unfold findConnection. intros (Hi & Hh & _)%list_find_Some.
  apply list_elem_of_split_length in Hi as (pre & post & -> & ->). by exists pre, post.
Qed.

Lemma disconnect_ok handle g : gateway_ok g → gateway_ok (disconnect handle g).2.
Proof.
  intros Hok. unfold disconnect. destruct (findConnection handle _) as [[position c]|] eqn:Hf; [|done]. cbn.
  apply findConnection_split in Hf as (pre & post & E & -> & _).
  destruct Hok as [Hcap Hlimit Hhandles Hclients Haccounts]. split; cbn; rewrite E in *; rewrite ?delete_middle.
  - done.
  - rewrite length_app in *. cbn [length] in *. lia.
  - rewrite fmap_app in *. by eapply NoDup_drop.
  - rewrite fmap_app in *. by eapply NoDup_drop.
  - apply Forall_app in Haccounts as [? [_ ?]%Forall_cons]. by apply Forall_app.
Qed.

(** A waiting message is handed over, the first one first; the accounts always allow it. *)
Lemma tryPopOutbound_run handle g : gateway_ok g →
  ∃ message g', tryPopOutbound handle g = (Ret message, g') ∧ gateway_ok g' ∧
  match findConnection handle (Gateway.connections_ g) with
  | None => message = None ∧ g' = g
  | Some (position, c) =>
      message = head (Conn.outbound c) ∧
      ∃ c', same_connection c c' ∧ Conn.outbound c' = tail (Conn.outbound c) ∧
        Gateway.connections_ g' = <[position := c']> (Gateway.connections_ g) ∧
        Gateway.controller_ g' = Gateway.controller_ g
  end.
Proof.
  intros Hok. unfold tryPopOutbound, mbind, M_bind, mret, M_ret, getM, putM, throw_ifM. cbn. destruct (findConnection handle _) as [[position c]|] eqn:Hf;
    [|eexists _, _; split; [reflexivity|done]].
  apply findConnection_split in Hf as (pre & post & E & -> & Hhandle).
  destruct (Conn.outbound c) as [|next outbound] eqn:Eout; cbn.
  { eexists _, _. split; [reflexivity|]. split_and!; [done..|]. exists c. rewrite Eout. split_and!; try done.
    by rewrite E, insert_middle. }
  destruct Hok as [Hcap Hlimit Hhandles Hclients Haccounts].
  pose proof Haccounts as Hall. rewrite E in Hall. apply Forall_app in Hall as [Hpre [Hc Hpost]%Forall_cons].
  pose proof (co_bytes _ _ Hc) as Hbytes. pose proof (co_fits _ _ Hc) as Hfits.
  rewrite Eout in Hbytes. unfold queuedSize in Hbytes. cbn [foldr] in Hbytes. fold (queuedSize outbound) in Hbytes.
  pose proof (queuedSize_nonneg outbound). pose proof (messageSize_nonneg next).
  assert (Hno : bool_decide (Conn.queuedBytes c < messageSize next) = false) by (apply bool_decide_eq_false_2; lia).
  rewrite Hno. cbn.
  eexists _, _. split; [reflexivity|]. unfold SIZE_MAX in Hcap.
  assert (Hw : wrap64 (Conn.queuedBytes c - messageSize next) = queuedSize outbound)
    by (rewrite wrap64_small; [lia|unfold is_u64; lia]).
  rewrite Hw. set (c' := Conn.mkConnection _ _ _ outbound _).
  assert (Hins : <[length pre := c']> (Gateway.connections_ g) = pre ++ c' :: post).
  { by rewrite E, insert_middle. }
  split.
  - split; cbn; rewrite ?Hins; rewrite E in *.
    + done.
    + rewrite length_app in *. done.
    + rewrite fmap_app, fmap_cons in *. done.
    + rewrite fmap_app, fmap_cons in *. done.
    + apply Forall_app. split; [done|]. constructor; [|done]. destruct Hc. split; cbn; (done || lia).
  - split; [done|]. exists c'. by split_and!.
Qed.

(** ** The cycles on what a controller hands over *)
Definition runOf (b : CommandResultBatch) : ExchangeRunId := Correlation.exchangeRunId (Batch.correlation b).
Definition publicText (b : CommandResultBatch) : text := render (publicTradesDoc (runOf b) (projectPublicTrades b)).
Definition privateText (b : CommandResultBatch) (c : ClientId) : text := render (privateResultDoc (runOf b) (handed_result b c)).

Lemma publicText_read b : readJson (publicText b) = Some (publicTradesDoc (runOf b) (projectPublicTrades b)).
Proof. apply readJson_render. Qed.
Lemma privateText_read b c : readJson (privateText b c) = Some (privateResultDoc (runOf b) (handed_result b c)).
Proof. apply readJson_render. Qed.

Lemma publicText_size b : deliverable b → projectPublicTrades b ≠ [] → messageSize (publicText b) ≤ MIN_OUTBOUND_CAPACITY.
Proof.
  intros Hb Hne. destruct (public_handoff b Hb Hne) as [_ Hsize]. rewrite minimum_capacity.
  change MAX_PUBLIC_HANDOFF_MESSAGE_BYTES with 1048667 in Hsize. unfold publicText, runOf. lia.
Qed.
Lemma privateText_size b c : deliverable b → c ∈ recipientsOf (Batch.events b) →
  messageSize (privateText b c) ≤ MIN_OUTBOUND_CAPACITY.
Proof.
  intros Hb Hc. destruct (recipient_spec b Hb c Hc) as (Hu & _ & Hne).
  destruct (private_handoff b Hb c Hu Hne) as [_ Hsize]. rewrite minimum_capacity.
  change MAX_PRIVATE_HANDOFF_MESSAGE_BYTES with 2949790 in Hsize. unfold privateText, runOf. lia.
Qed.

(** What the result does to a connection of its run: its client's private result. *)
Definition privateDeliveryOf (capacity : Z) (b : CommandResultBatch) (c : ConnectionState) : option ConnectionState :=
  if bool_decide (Conn.exchangeRunId c = runOf b) && bool_decide (Conn.clientId c ∈ recipientsOf (Batch.events b))
  then deliver capacity (privateText b (Conn.clientId c)) c else Some c.

Lemma deliverPublic_handed b g : gateway_ok g → deliverable b → projectPublicTrades b ≠ [] →
  deliverPublic (projectPublicTrades b) g =
  (Advance.ROUTED, setPublicInput (Gateway.controller_ g) None (Gateway.publicFailure_ g)
     (setConnections (omap (publicDelivery (Gateway.perConnectionOutboundByteCapacity_ g) (runOf b) (publicText b))
        (Gateway.connections_ g)) g)).
Proof.
  intros Hok Hb Hne. unfold deliverPublic. destruct (projectPublicTrades b) as [|front trades] eqn:E; [done|].
  destruct (public_trade b Hb front) as (_ & _ & _ & Hrun & _); [rewrite E; by left|].
  destruct (public_handoff b Hb) as [Hs _]; [by rewrite E|]. rewrite Hrun. fold (runOf b) in *. rewrite <- E, Hs.
  rewrite routePublic_spec by apply Hok. done.
Qed.

Lemma handed_ready b c : deliverable b → c ∈ recipientsOf (Batch.events b) →
  recipient_ready (runOf b) (Correlation.commandSequence (Batch.correlation b)) (handed_result b c).
Proof.
  intros Hb Hc. destruct (recipient_spec b Hb c Hc) as (Hu & Hz & Hne). split_and!; [done| |].
  - destruct (allViews (Batch.events b) c) as [|front events] eqn:E; [done|]. exists front, events. split; [exact E|].
    destruct (private_event b c front) as (e & He & Hx); [unfold handed_result; cbn; rewrite E; by left|].
    by destruct (view_of_event b Hb c e front He Hx) as (_ & _ & _ & _ & ? & ?).
  - destruct (private_handoff b Hb c Hu Hne) as [Hs _]. fold (runOf b) in Hs. by rewrite Hs.
Qed.

(** The text for a connection, among the serialized results of the batch. *)
Lemma payloadFor_handed b cs serialized c : deliverable b → (∀ r, r ∈ cs → r ∈ recipientsOf (Batch.events b)) →
  Forall2 (serialized_from (runOf b)) (handed_result b <$> cs) serialized →
  payloadFor serialized c = if bool_decide (Conn.exchangeRunId c = runOf b) && bool_decide (Conn.clientId c ∈ cs)
                            then Some (privateText b (Conn.clientId c)) else None.
Proof.
  intros Hb. revert serialized. induction cs as [|r cs IH]; intros serialized Hcs Hall.
  { apply Forall2_nil_inv_l in Hall as ->. rewrite (bool_decide_eq_false_2 (_ ∈ [])) by apply not_elem_of_nil.
    by rewrite andb_false_r. }
  rewrite fmap_cons in Hall. apply Forall2_cons_inv_l in Hall as (s & serialized' & (Hr & Hrun & Htext) & Hall & ->).
  rewrite payloadFor_cons, Hr, Hrun, (IH serialized') by (done || (intros r' Hr'; apply Hcs; by right)).
  change (Recipient.recipient (handed_result b r)) with r. unfold connectionKey.
  destruct (recipient_spec b Hb r) as (Hu & _ & Hne); [apply Hcs; by left|].
  destruct (private_handoff b Hb r Hu Hne) as [Hs _]. fold (runOf b) in Hs. rewrite Hs in Htext.
  apply pair_equal_spec in Htext as [_ Htext].
  destruct (bool_decide_reflect ((r, runOf b) = (Conn.clientId c, Conn.exchangeRunId c))) as [[= E1 E2]|Hk].
  - rewrite (bool_decide_eq_true_2 (_ = runOf b)) by done. rewrite bool_decide_eq_true_2 by (rewrite E1; by left). cbn [andb].
    unfold privateText. by rewrite <- E1, Htext.
  - destruct (bool_decide_reflect (Conn.exchangeRunId c = runOf b)) as [E2|]; [|done]. cbn [andb].
    erewrite bool_decide_ext; [reflexivity|]. rewrite elem_of_cons. split; [by right|]. intros [E1|]; [|done]. congruence.
Qed.

Lemma deliverPrivate_handed b rs g : gateway_ok g → deliverable b → projectPrivateResults b = Ret rs → rs ≠ [] →
  deliverPrivate rs g =
  (Advance.ROUTED, setPrivateInput (Gateway.controller_ g) None (Gateway.privateFailure_ g)
     (setConnections (omap (privateDeliveryOf (Gateway.perConnectionOutboundByteCapacity_ g) b) (Gateway.connections_ g)) g)).
Proof.
  intros Hok Hb Hrs Hne. rewrite (private_batch b Hb) in Hrs. injection Hrs as <-. unfold deliverPrivate.
  rewrite bool_decide_eq_false_2 by done.
  assert (Hid : Recipient.recipient <$> (handed_result b <$> recipientsOf (Batch.events b)) = recipientsOf (Batch.events b))
    by (rewrite <- list_fmap_compose; apply list_fmap_id).
  assert (Hnd : NoDup (recipientsOf (Batch.events b))) by apply firstAppearance_NoDup, NoDup_nil_2.
  destruct (serializeRecipients_run (runOf b) (Correlation.commandSequence (Batch.correlation b))
    (handed_result b <$> recipientsOf (Batch.events b))) with (seen := @nil ClientId) (before_run := @None ExchangeRunId)
    (before_sequence := @None CommandSequence) (acc := @nil SerializedRecipient) as (serialized & -> & Hall).
  - apply Forall_fmap, Forall_forall. intros c Hc. by apply handed_ready.
  - by rewrite Hid.
  - intros r _. apply not_elem_of_nil.
  - by left.
  - cbn [app]. pose proof Hok as [[_ Hcap] _ _ Hclients Haccounts].
    rewrite routePrivate_spec; [|done| |done|done].
    + cbn. do 3 f_equal. apply omap_ext_on. intros c _. unfold privateDelivery, privateDeliveryOf.
      rewrite (payloadFor_handed b (recipientsOf (Batch.events b)) serialized c Hb) by done.
      by destruct (bool_decide _ && bool_decide _).
    + erewrite (serialized_recipients (serialized_from (runOf b))); [|by intros ? ? []|done]. by rewrite Hid.
Qed.
End gateway.
