(* ===== verification/EventService.v ===== *)
(** * The gateway in service

    Any interleaving of the gateway's operations with the work of the controller it
    takes its batches from.  The controller is any source whose batches are the
    projections of results; the result dispatcher is one.  Then what the gateway
    guarantees its clients. *)
From stdpp Require Import relations.
From S2P Require Import Prelude Domain Matching MatchingSpec MatchingInv MatchingRefine MatchingTheorems Bytes.
From S2P Require Import Projection ProjectionTheorems Queues Admission FixParser NewRun ResultDispatcher.
From S2P Require Import Controller ControllerProcessing EventJson JsonText EventJsonFacts EventGateway.
From S2P Require Import EventDelivery.

(** ** Sources of results *)
Definition public_batch (trades : list PublicTrade) : Prop :=
  trades ≠ [] ∧ ∃ b, deliverable b ∧ trades = projectPublicTrades b.
Definition private_batch_of (results : list RecipientResult) : Prop :=
  results ≠ [] ∧ ∃ b, deliverable b ∧ projectPrivateResults b = Ret results.

(** What the gateway is promised: a source that works on its own, and hands over
    projections of results. *)
Class HandoffSource (C : Type) `{EventSource C} := {
  source_ok : C → Prop;
  source_moves : C → C → Prop;
  source_moves_ok c c' : source_ok c → source_moves c c' → source_ok c';
  source_public c : source_ok c → source_ok (popPublicBatch c).2 ∧ from_option public_batch True (popPublicBatch c).1;
  source_private c : source_ok c → source_ok (popPrivateBatch c).2 ∧ from_option private_batch_of True (popPrivateBatch c).1 }.

(** ** The dispatcher is a source *)
#[export] Instance dispatcher_source : EventSource CommandResultDispatcher := {
  admissionRun d := Some (exchangeRunId_ (Consumer.admissionIndex_ (Dispatcher.completion_ d)));
  popPublicBatch d :=
    let '(batch, queue) := TradeQueue.tryPopTrades (Dispatcher.publicHandoff_ d) in
    (batch, setPublicHandoff queue (Dispatcher.pendingPublicTrades_ d) d);
  popPrivateBatch d :=
    let '(batch, queue) := PrivateQueue.tryPopPrivate (Dispatcher.privateHandoff_ d) in
    (batch, setPrivateHandoff queue (Dispatcher.pendingPrivateResults_ d) d) }.

Record dispatcher_ok (d : CommandResultDispatcher) : Prop := {
  do_results : Forall deliverable (ResultQueue.batches_ (Consumer.resultQueue_ (Dispatcher.completion_ d)));
  do_completing : from_option deliverable True (Consumer.pendingBatch_ (Dispatcher.completion_ d));
  do_pending : from_option deliverable True (Dispatcher.pendingResult_ d);
  do_private : Forall private_batch_of (PrivateQueue.batches_ (Dispatcher.privateHandoff_ d));
  do_public : Forall public_batch (TradeQueue.batches_ (Dispatcher.publicHandoff_ d));
  do_private_pending : Dispatcher.pendingPrivateResults_ d ≠ [] → private_batch_of (Dispatcher.pendingPrivateResults_ d);
  do_public_pending : Dispatcher.pendingPublicTrades_ d ≠ [] → public_batch (Dispatcher.pendingPublicTrades_ d) }.

(** The dispatcher's cycle, and the matching engine handing on a result. *)
Inductive dispatcher_moves (d : CommandResultDispatcher) : CommandResultDispatcher → Prop :=
  | moves_cycle r d' : advanceDispatcher d = (r, d') → dispatcher_moves d d'
  | moves_result b r queue : deliverable b →
      ResultQueue.tryPushResult (Some b) (Consumer.resultQueue_ (Dispatcher.completion_ d)) = (r, queue) →
      dispatcher_moves d (setConsumer (Consumer.mkConsumer queue (Consumer.admissionIndex_ (Dispatcher.completion_ d))
        (Consumer.pendingBatch_ (Dispatcher.completion_ d)) (Consumer.failure_ (Dispatcher.completion_ d)))
        (Dispatcher.pendingResult_ d) d).

(** A procedure that keeps an invariant whatever it returns. *)
Definition maintains {S A} (I : S → Prop) (m : M S A) : Prop := ∀ s r s', I s → m s = (r, s') → I s'.

Section maintains.
Context {S : Type} (I : S → Prop).
Lemma maintains_bind {A B} (m : M S A) (f : A → M S B) : maintains I m → (∀ a, maintains I (f a)) → maintains I (m ≫= f).
Proof.
  intros Hm Hf s r s' Hs. unfold mbind, M_bind. destruct (m s) as [[a|e] s1] eqn:E.
  - intros Ef. by eapply Hf, Ef; eapply Hm.
  - intros [= _ <-]. by eapply Hm.
Qed.
Lemma maintains_ret {A} (a : A) : maintains I (mret a).
Proof. by intros s r s' Hs [= _ <-]. Qed.
Lemma maintains_get : maintains I getM.
Proof. by intros s r s' Hs [= _ <-]. Qed.
End maintains.

Section dispatcher.
Implicit Types (d : CommandResultDispatcher).

Lemma takeCompleted_ok : maintains dispatcher_ok takeCompleted.
Proof.
  intros d r d' Hd E. unfold takeCompleted in E.
  assert (Hc : ∀ o c, processNextCompletion (Dispatcher.completion_ d) = (o, c) →
    Forall deliverable (ResultQueue.batches_ (Consumer.resultQueue_ c)) ∧ from_option deliverable True (Consumer.pendingBatch_ c) ∧
    match o with Ret result => from_option deliverable True result | Throw _ => True end).
  { clear E. intros o c. unfold processNextCompletion. destruct Hd as [Hresults Hcompleting _ _ _ _ _].
    destruct (Consumer.failure_ _); [by intros [= <- <-]|].
    destruct (takePending (Dispatcher.completion_ d)) as [taken c1] eqn:Et.
    assert (Hc1 : Forall deliverable (ResultQueue.batches_ (Consumer.resultQueue_ c1)) ∧ from_option deliverable True (Consumer.pendingBatch_ c1)).
    { unfold takePending in Et. destruct (Consumer.pendingBatch_ (Dispatcher.completion_ d)) eqn:Ep.
      { injection Et as _ <-. by rewrite Ep. }
      unfold ResultQueue.tryPopResult in Et.
      destruct (ResultQueue.batches_ (Consumer.resultQueue_ (Dispatcher.completion_ d))) as [|b batches] eqn:Eb;
        injection Et as _ <-; cbn; rewrite ?Eb, ?Ep; [done|]. by apply Forall_cons in Hresults as []. }
    destruct Hc1 as [Hq Hp]. destruct taken; cbn [negb]; [|by intros [= <- <-]].
    destruct (complete _ _) as [s index]. case_bool_decide; intros [= <- <-]; by split_and!. }
  destruct (processNextCompletion _) as [o c]. specialize (Hc o c eq_refl) as (Hresults & Hcompleting & Hnew).
  destruct Hd as [_ _ Hpending Hprivate Hpublic Hpp Hpt].
  destruct o as [[b|]|e]; injection E as _ <-; split; cbn; done.
Qed.

Lemma project_ok : maintains dispatcher_ok project.
Proof.
  intros d r d' Hd E. unfold project in E. destruct (Dispatcher.pendingResult_ d) as [b|] eqn:Eb; [|by injection E as _ <-].
  pose proof (do_pending d Hd) as Hb. rewrite Eb in Hb. cbn in Hb.
  destruct (projectPrivateResults b) as [results|e] eqn:Er; injection E as _ <-; [|done].
  destruct Hd. split; cbn; try done; rewrite ?Eb; try done; intros ?; split; eauto.
Qed.

Lemma pushPrivate_ok : maintains dispatcher_ok pushPrivate.
Proof.
  intros d r d' Hd E. unfold pushPrivate in E.
  destruct (PrivateQueue.tryPushPrivate _ _) as [o q] eqn:Eq.
  assert (Hq : Forall private_batch_of (PrivateQueue.batches_ q)).
  { revert Eq. unfold PrivateQueue.tryPushPrivate, throw_ifM, liftM, throw_if, mbind, M_bind.
    destruct (bool_decide_reflect (Dispatcher.pendingPrivateResults_ d = [])) as [|Hne]; [intros [= _ <-]; apply Hd|].
    destruct (PrivateQueue.countBatchEvents _ 0) as [n|e]; [|intros [= _ <-]; apply Hd].
    case_bool_decide; [intros [= _ <-]; apply Hd|]. cbn. case_bool_decide; intros [= _ <-]; [apply Hd|].
    cbn. apply Forall_app. split; [apply Hd|]. constructor; [|constructor]. by apply (do_private_pending d Hd). }
  destruct Hd. destruct o as [[]|e]; injection E as _ <-; split; cbn; done.
Qed.

Lemma pushPublic_ok : maintains dispatcher_ok pushPublic.
Proof.
  intros d r d' Hd E. unfold pushPublic in E.
  destruct (TradeQueue.tryPushTrades _ _) as [o q] eqn:Eq.
  assert (Hq : Forall public_batch (TradeQueue.batches_ q)).
  { revert Eq. unfold TradeQueue.tryPushTrades, throw_ifM, throw_if, mbind, M_bind.
    destruct (bool_decide_reflect (Dispatcher.pendingPublicTrades_ d = [])) as [|Hne]; [intros [= _ <-]; apply Hd|].
    cbn. case_bool_decide; intros [= _ <-]; [apply Hd|].
    cbn. apply Forall_app. split; [apply Hd|]. constructor; [|constructor]. by apply (do_public_pending d Hd). }
  destruct Hd. destruct o as [[]|e]; injection E as _ <-; split; cbn; done.
Qed.

Lemma clearPending_ok d : dispatcher_ok d → dispatcher_ok (clearPending d).
Proof. intros []. by split. Qed.

Lemma advanceDispatcher_ok : maintains dispatcher_ok advanceDispatcher.
Proof.
  assert (Hdispatch : ∀ progressed, maintains dispatcher_ok (dispatchPending progressed)).
  { intros progressed. unfold dispatchPending.
    repeat first
      [ apply maintains_ret | apply maintains_get | apply project_ok | apply pushPrivate_ok | apply pushPublic_ok
      | apply maintains_bind; [|intros ?] | case_match ].
    intros d r d' Hd [= _ <-]. by apply clearPending_ok. }
  unfold advanceDispatcher. apply maintains_bind; [apply maintains_get|intros d]. case_match; [apply Hdispatch|].
  apply maintains_bind; [apply takeCompleted_ok|intros taken]. case_match; [apply Hdispatch|apply maintains_ret].
Qed.

Lemma dispatcher_moves_ok d d' : dispatcher_ok d → dispatcher_moves d d' → dispatcher_ok d'.
Proof.
  intros Hd. destruct 1 as [r d' E|b r queue Hb E]; [by eapply advanceDispatcher_ok|].
  destruct Hd as [Hresults]. split; cbn; try done.
  unfold ResultQueue.tryPushResult in E. case_bool_decide; injection E as _ <-; [done|].
  cbn. apply Forall_app. split; [done|by constructor].
Qed.

#[export] Program Instance dispatcher_handoffs : HandoffSource CommandResultDispatcher :=
  {| source_ok := dispatcher_ok; source_moves := dispatcher_moves; source_moves_ok := dispatcher_moves_ok |}.
Next Obligation.
  intros d Hd. cbn. unfold TradeQueue.tryPopTrades.
  destruct (TradeQueue.batches_ (Dispatcher.publicHandoff_ d)) as [|batch batches] eqn:E; cbn.
  - split; [|done]. destruct Hd. split; cbn; rewrite ?E; done.
  - pose proof (do_public d Hd) as Hall. rewrite E in Hall. apply Forall_cons in Hall as [Hbatch Hall].
    split; [|done]. destruct Hd. by split.
Qed.
Next Obligation.
  intros d Hd. cbn. unfold PrivateQueue.tryPopPrivate.
  destruct (PrivateQueue.batches_ (Dispatcher.privateHandoff_ d)) as [|batch batches] eqn:E; cbn.
  - split; [|done]. destruct Hd. split; cbn; rewrite ?E; done.
  - pose proof (do_private d Hd) as Hall. rewrite E in Hall. apply Forall_cons in Hall as [Hbatch Hall].
    split; [|done]. destruct Hd. by split.
Qed.
End dispatcher.

(** ** Interleavings *)
#[local] Opaque publicText privateText MIN_OUTBOUND_CAPACITY.
Section service.
Context {C : Type} `{HandoffSource C}.
Implicit Types (g : ApplicationEventGateway C) (c : ConnectionState).

Definition setController (controller : C) g : ApplicationEventGateway C :=
  setPublicInput controller (Gateway.pendingPublic_ g) (Gateway.publicFailure_ g) g.

Inductive gateway_step g : ApplicationEventGateway C → Prop :=
  | step_register handle clientId run : gateway_step g (registerConnection handle clientId run g).2
  | step_disconnect handle : gateway_step g (disconnect handle g).2
  | step_pop handle : gateway_step g (tryPopOutbound handle g).2
  | step_public : gateway_step g (advancePublic g).2
  | step_private : gateway_step g (advancePrivate g).2
  | step_controller controller : source_moves (Gateway.controller_ g) controller → gateway_step g (setController controller g).

(** The messages a connection can hold: public trades of its run, and its own
    client's private results of that run. *)
Definition addressed c (message : text) : Prop :=
  ∃ b, deliverable b ∧ runOf b = Conn.exchangeRunId c ∧
    ((projectPublicTrades b ≠ [] ∧ message = publicText b) ∨
     (Conn.clientId c ∈ recipientsOf (Batch.events b) ∧ message = privateText b (Conn.clientId c))).

Record in_service g : Prop := {
  is_gateway : gateway_ok g;
  is_source : source_ok (Gateway.controller_ g);
  is_public : Gateway.publicFailure_ g = None ∧ Gateway.pendingPublic_ g = None;
  is_private : Gateway.privateFailure_ g = None ∧ Gateway.pendingPrivate_ g = None;
  is_addressed : Forall (λ c, Forall (addressed c) (Conn.outbound c)) (Gateway.connections_ g) }.

Lemma addressed_same c c' message : connectionKey c' = connectionKey c → addressed c message → addressed c' message.
Proof. unfold addressed, connectionKey. by intros [= -> ->]. Qed.

Lemma deliver_addressed capacity payload c c' : deliver capacity payload c = Some c' → addressed c payload →
  Forall (addressed c) (Conn.outbound c) → Forall (addressed c') (Conn.outbound c').
Proof.
  unfold deliver. case_bool_decide; [|done]. intros [= <-] Hp Hall. cbn [pushOutbound Conn.outbound].
  apply Forall_app. split; [|constructor; [|constructor]].
  - eapply Forall_impl; [exact Hall|]. intros m. by apply addressed_same.
  - by eapply addressed_same.
Qed.

Lemma advancePublic_service g : in_service g →
  in_service (advancePublic g).2 ∧
  match popPublicBatch (Gateway.controller_ g) with
  | (None, controller) => (advancePublic g).1 = Advance.IDLE ∧ Gateway.connections_ (advancePublic g).2 = Gateway.connections_ g
  | (Some trades, controller) =>
      ∃ b, deliverable b ∧ trades = projectPublicTrades b ∧ (advancePublic g).1 = Advance.ROUTED ∧
        Gateway.connections_ (advancePublic g).2 =
          omap (publicDelivery (Gateway.perConnectionOutboundByteCapacity_ g) (runOf b) (publicText b)) (Gateway.connections_ g)
  end.
Proof.
  intros [Hok Hsource [Hf Hp] Hprivate Haddr]. unfold advancePublic. rewrite Hf, Hp.
  destruct (source_public _ Hsource) as [Hsource' Hbatch].
  destruct (popPublicBatch (Gateway.controller_ g)) as [[trades|] controller]; cbn [fst snd from_option] in *; cycle 1.
  { split; [|done]. split; [by eapply gateway_ok_same|done..]. }
  destruct Hbatch as (Hne & b & Hb & ->).
  set (g1 := setPublicInput controller _ None g).
  assert (Hok1 : gateway_ok g1) by by eapply gateway_ok_same.
  rewrite deliverPublic_handed by done. cbn [fst snd]. split; [|by exists b].
  pose proof (gw_capacity g Hok) as [_ Hcap]. split; [|exact Hsource'|done..|].
  - eapply gateway_ok_same; [eapply (routed_ok g _ Hok)|done..].
    intros c c' Hc. by apply publicDelivery_ok.
  - apply Forall_omap_on; [done|]. intros c c' Hc. unfold publicDelivery. case_bool_decide as Hrun; [|by intros [= <-]].
    intros E. eapply deliver_addressed; [exact E| |done]. exists b. split_and!; [done..|]. by left.
Qed.

Lemma advancePrivate_service g : in_service g →
  in_service (advancePrivate g).2 ∧
  match popPrivateBatch (Gateway.controller_ g) with
  | (None, controller) => (advancePrivate g).1 = Advance.IDLE ∧ Gateway.connections_ (advancePrivate g).2 = Gateway.connections_ g
  | (Some results, controller) =>
      ∃ b, deliverable b ∧ projectPrivateResults b = Ret results ∧ (advancePrivate g).1 = Advance.ROUTED ∧
        Gateway.connections_ (advancePrivate g).2 =
          omap (privateDeliveryOf (Gateway.perConnectionOutboundByteCapacity_ g) b) (Gateway.connections_ g)
  end.
Proof.
  intros [Hok Hsource Hpublic [Hf Hp] Haddr]. unfold advancePrivate. rewrite Hf, Hp.
  destruct (source_private _ Hsource) as [Hsource' Hbatch].
  destruct (popPrivateBatch (Gateway.controller_ g)) as [[results|] controller]; cbn [fst snd from_option] in *; cycle 1.
  { split; [|done]. split; [by eapply gateway_ok_same|done..]. }
  destruct Hbatch as (Hne & b & Hb & Hresults).
  set (g1 := setPrivateInput controller _ None g).
  assert (Hok1 : gateway_ok g1) by by eapply gateway_ok_same.
  rewrite (deliverPrivate_handed b) by done. cbn [fst snd]. split; [|by exists b].
  pose proof (gw_capacity g Hok) as [_ Hcap].
  assert (Hdelivery : ∀ c c', privateDeliveryOf (Gateway.perConnectionOutboundByteCapacity_ g) b c = Some c' →
    c' = c ∨ (Conn.exchangeRunId c = runOf b ∧ Conn.clientId c ∈ recipientsOf (Batch.events b) ∧
              deliver (Gateway.perConnectionOutboundByteCapacity_ g) (privateText b (Conn.clientId c)) c = Some c')).
  { intros c c'. unfold privateDeliveryOf. destruct (bool_decide_reflect (Conn.exchangeRunId c = runOf b)); [|intros [= <-]; by left].
    cbn [andb]. case_bool_decide; [|intros [= <-]; by left]. intros E. right. by split_and!. }
  split; [|exact Hsource'|done..|].
  - eapply gateway_ok_same; [eapply (routed_ok g _ Hok)|done..].
    intros c c' Hc [-> |(_ & _ & E)]%Hdelivery; [done|]. by destruct (deliver_ok _ _ _ _ Hcap Hc E) as (? & ? & _).
  - apply Forall_omap_on; [done|]. intros c c' Hc [-> |(Hrun & Hin & E)]%Hdelivery; [done|].
    eapply deliver_addressed; [exact E| |done]. exists b. split_and!; [done..|]. by right.
Qed.

Lemma registerConnection_service handle clientId run g : in_service g → in_service (registerConnection handle clientId run g).2.
Proof.
  intros [Hok Hsource Hpublic Hprivate Haddr]. pose proof (registerConnection_ok handle clientId run g Hok) as Hok'.
  split; [done|revert Hok'; unfold registerConnection; repeat case_match; done..|].
  clear Hok'. unfold registerConnection. repeat case_match; try done; cbn.
  - by apply Forall_insert.
  - apply Forall_app. split; [done|]. by constructor.
Qed.

Lemma disconnect_service handle g : in_service g → in_service (disconnect handle g).2.
Proof.
  intros [Hok Hsource Hpublic Hprivate Haddr]. pose proof (disconnect_ok handle g Hok) as Hok'. revert Hok'.
  unfold disconnect. case_match; [|done]. destruct p as [position c]. cbn. intros Hok'. split; [done..|]. by apply Forall_delete.
Qed.

Lemma tryPopOutbound_service handle g : in_service g → in_service (tryPopOutbound handle g).2.
Proof.
  intros [Hok Hsource Hpublic Hprivate Haddr].
  destruct (tryPopOutbound_run handle g Hok) as (message & g' & E & Hok' & Heffect).
  assert (Hkeep : Gateway.pendingPublic_ g' = Gateway.pendingPublic_ g ∧ Gateway.publicFailure_ g' = Gateway.publicFailure_ g ∧
    Gateway.pendingPrivate_ g' = Gateway.pendingPrivate_ g ∧ Gateway.privateFailure_ g' = Gateway.privateFailure_ g).
  { clear -E. revert E. unfold tryPopOutbound, mbind, M_bind, mret, M_ret, getM, putM, throw_ifM. cbn.
    repeat case_match; intros; simplify_eq/=; done. }
  destruct Hkeep as (K1 & K2 & K3 & K4). rewrite E. cbn [snd].
  destruct (findConnection handle (Gateway.connections_ g)) as [[position c]|] eqn:Hf; cycle 1.
  { destruct Heffect as [_ ->]. by split. }
  destruct Heffect as (_ & c' & [_ Hkey] & Hout & Hconns & Hctrl).
  split; [done|by rewrite Hctrl|by rewrite K1, K2|by rewrite K3, K4|]. rewrite Hconns.
  apply Forall_insert; [done|]. apply list_find_Some in Hf as (Hi & _).
  assert (Hc : Forall (addressed c) (Conn.outbound c)) by (by apply (Forall_lookup_1 _ _ _ _ Haddr Hi)).
  rewrite Hout. assert (Htail : Forall (addressed c) (tail (Conn.outbound c))) by (destruct Hc; [constructor|done]).
  eapply Forall_impl; [exact Htail|]. intros m. by apply addressed_same.
Qed.

Lemma gateway_step_service g g' : in_service g → gateway_step g g' → in_service g'.
Proof.
  intros Hg. destruct 1.
  - by apply registerConnection_service.
  - by apply disconnect_service.
  - by apply tryPopOutbound_service.
  - by apply advancePublic_service.
  - by apply advancePrivate_service.
  - destruct Hg as [Hok Hsource Hpublic Hprivate Haddr]. split; [by eapply gateway_ok_same|by eapply source_moves_ok|done..].
Qed.

Lemma reachable_service controller maximum capacity g0 g : source_ok controller → 0 ≤ maximum → capacity ≤ SIZE_MAX →
  newGateway controller maximum capacity = Ret g0 → rtc gateway_step g0 g → in_service g.
Proof.
  intros Hsource Hmax Hcap Hnew Hsteps.
  assert (Hg0 : in_service g0).
  { pose proof (newGateway_ok _ _ _ _ Hmax Hcap Hnew) as Hok. revert Hok. revert Hnew. unfold newGateway, throw_if.
    destruct (bool_decide (maximum = 0)); [discriminate|]. cbn [mbind outcome_bind].
    destruct (bool_decide (capacity < MIN_OUTBOUND_CAPACITY)); [discriminate|]. cbn [mbind outcome_bind].
    intros [= <-] Hok. by split. }
  clear Hnew. induction Hsteps as [|g1 g2 g3 Hstep _ IH]; [done|]. apply IH. by eapply gateway_step_service.
Qed.
End service.

(** * The controller as the gateway's source

    What the application event gateway uses of the [ExchangeRunController]: the run of
    its admission index and its two handoff queues. *)

#[export] Instance controller_source {Q} : EventSource (ExchangeRunController Q) := {
  admissionRun c := exchangeRunId_ <$> RunState.admissionIndex (Control.run_ c);
  popPublicBatch c :=
    match Control.commandProcessing_ c with
    | None => (None, c)
    | Some p =>
        let '(batch, queue) := TradeQueue.tryPopTrades (Path.publicTrades p) in
        (batch, setPath (Some (setHandoffs (Path.privateResults p) queue p)) c)
    end;
  popPrivateBatch c :=
    match Control.commandProcessing_ c with
    | None => (None, c)
    | Some p =>
        let '(batch, queue) := PrivateQueue.tryPopPrivate (Path.privateResults p) in
        (batch, setPath (Some (setHandoffs queue (Path.publicTrades p) p)) c)
    end }.

(** The controller's own operations do exactly this. *)
Section controller.
Context {W Q : Type}.
Implicit Types (c : ExchangeRunController Q) (w : W).

Lemma tryPopPublicTradeBatchV1_source c w :
  tryPopPublicTradeBatchV1 c w = (Bytes.Ok (Ret (popPublicBatch c).1, (popPublicBatch c).2), w).
Proof.
  unfold tryPopPublicTradeBatchV1, popPublicBatch, controller_source, mbind, ctl_bind, getC. cbn.
  destruct (Control.commandProcessing_ c) as [p|] eqn:E; [|done].
  destruct (TradeQueue.tryPopTrades _) as [batch queue]. unfold updatePath, modifyC. cbn. by rewrite E.
Qed.

Lemma tryPopPrivateResultBatchV1_source c w :
  tryPopPrivateResultBatchV1 c w = (Bytes.Ok (Ret (popPrivateBatch c).1, (popPrivateBatch c).2), w).
Proof.
  unfold tryPopPrivateResultBatchV1, popPrivateBatch, controller_source, mbind, ctl_bind, getC. cbn.
  destruct (Control.commandProcessing_ c) as [p|] eqn:E; [|done].
  destruct (PrivateQueue.tryPopPrivate _) as [batch queue]. unfold updatePath, modifyC. cbn. by rewrite E.
Qed.
End controller.

(** * What the application event gateway guarantees

    For every interleaving of its operations with the controller's work: the limits
    and accounts hold and no input ever fails; a client is only ever sent what is
    public or its own; and a batch reaches every connection of its run it is
    addressed to. *)

#[local] Opaque publicText privateText MIN_OUTBOUND_CAPACITY.

(** ** The engine's results can be handed over *)
Lemma specProcess_sides run message books : Forall event_sides (Outcome.events (specProcess run message books).1).
Proof.
  assert (Htrades : ∀ s fills index r, Forall event_sides (tradeEvents run message s index r fills)).
  { intros s fills. induction fills as [|f fills IH]; intros index r; cbn; constructor; [|apply IH]. destruct s; ((by left) || (by right)). }
  assert (Hcancel : ∀ o, Forall event_sides (Outcome.events (specCancel run message o books).1)).
  { intros o. unfold specCancel. destruct (findResting _ _) as [[p n]|]; [case_bool_decide|]; by repeat constructor. }
  assert (Horder : ∀ s rest, Forall event_sides (Outcome.events (specOrder run message s rest books).1)).
  { intros s rest. unfold specOrder. destruct (sweep _ _ _) as [[fills r'] opp].
    repeat case_match; cbn; try apply Forall_app_2; try apply Htrades; (constructor; [|constructor]); try done;
      destruct s; ((by left) || (by right)). }
  unfold specProcess. destruct (Msg.type message); auto.
Qed.

(** What the engine gives for a valid command is deliverable, as far as the types of
    the members go and as long as every order in the books has a client. *)
Lemma engine_result_deliverable n st message batch st' :
  engine_ok n st → n ≤ Msg.globalSequenceNumber message → valid_command message →
  processCommand message st = (Ret batch, st') →
  correlation_u64 (Batch.correlation batch) → valid_ClientCommandId (Correlation.clientCommandId (Batch.correlation batch)) →
  Forall event_typed (Batch.events batch) →
  Forall (λ e, Forall (λ c, c ≠ 0) (affectedRecipients e)) (Batch.events batch) → deliverable batch.
Proof.
  intros Hok Hn Hv Hcmd Hcorr Hid Htyped Hclients. destruct (processCommand_refines n st message Hok Hn Hv) as (st2 & Hcmd2 & _).
  rewrite Hcmd in Hcmd2. injection Hcmd2 as -> _.
  destruct (specProcess_ids (State.exchangeRunId st) message (queueOf st)) as [Hids Hmax].
  split; try done.
  - apply specProcess_sides.
  - intros k e He. apply (f_equal (.!! k)) in Hids. revert Hids. unfold eventIds.
    cbn in He. rewrite !list_lookup_fmap, He, lookup_seq_lt by (by eapply lookup_lt_Some). by intros [= ->].
  - cbn in *. unfold MAX_EVENTS_PER_COMMAND, MAX_AUTHORITATIVE_EVENTS_PER_COMMAND in *. lia.
Qed.

(** ** The properties *)

(** C36: the gateway keeps its limits and its accounts, and its inputs never fail.
    From its construction on, in every interleaving of registrations, disconnections,
    pops, public and private cycles with the work of the controller, the connections
    do not exceed their maximum, no handle and no client of a run has two of them, and
    the bytes each one is charged with are the bytes of its queue and at most the
    capacity; no batch is refused, nothing is retained, so no invariant failure is
    recorded, and popping a message never throws. *)
Theorem gateway_keeps_its_limits {C} `{HandoffSource C} controller maximum capacity g0 g :
  source_ok controller → 0 ≤ maximum → capacity ≤ SIZE_MAX →
  newGateway controller maximum capacity = Ret g0 → rtc gateway_step g0 g →
  Z.of_nat (length (Gateway.connections_ g)) ≤ Gateway.maximumConnections_ g ∧
  NoDup (Conn.handle <$> Gateway.connections_ g) ∧ NoDup (connectionKey <$> Gateway.connections_ g) ∧
  (∀ c, c ∈ Gateway.connections_ g →
     Conn.queuedBytes c = queuedSize (Conn.outbound c) ∧
     Conn.queuedBytes c ≤ Gateway.perConnectionOutboundByteCapacity_ g) ∧
  inspectGateway g = GatewayInspection.mkGatewayInspection (Z.of_nat (length (Gateway.connections_ g)))
    (GatewayInspection.mkInputInspection None 0) (GatewayInspection.mkInputInspection None 0) ∧
  ∀ handle, is_ret (tryPopOutbound handle g).1.
Proof.
  intros Hsource Hmax Hcap Hnew Hsteps.
  destruct (reachable_service _ _ _ _ _ Hsource Hmax Hcap Hnew Hsteps) as [Hok _ [Hf Hp] [Hf' Hp'] _].
  split_and!; try apply Hok.
  - intros c Hc. destruct (proj1 (Forall_forall _ _) (gw_accounts g Hok) c Hc). done.
  - unfold inspectGateway. by rewrite Hf, Hp, Hf', Hp'.
  - intros handle. destruct (tryPopOutbound_run handle g Hok) as (message & g' & -> & _). by eexists.
Qed.

(** C37: privacy of the application's stream.  Whatever the interleaving, every message
    that waits in a client's connection is, read back as JSON, either the public trades
    of a result of the connection's run, or the private result that the projection of
    such a result gives to that very client. *)
Theorem gateway_sends_clients_their_own {C} `{HandoffSource C} controller maximum capacity g0 g c message :
  source_ok controller → 0 ≤ maximum → capacity ≤ SIZE_MAX →
  newGateway controller maximum capacity = Ret g0 → rtc gateway_step g0 g →
  c ∈ Gateway.connections_ g → message ∈ Conn.outbound c →
  ∃ b, deliverable b ∧ Correlation.exchangeRunId (Batch.correlation b) = Conn.exchangeRunId c ∧
    (readJson message = Some (publicTradesDoc (Conn.exchangeRunId c) (projectPublicTrades b)) ∨
     ∃ r, projectPrivateResult b (Conn.clientId c) = Ret (Some r) ∧ Recipient.recipient r = Conn.clientId c ∧
       readJson message = Some (privateResultDoc (Conn.exchangeRunId c) r)).
Proof.
  intros Hsource Hmax Hcap Hnew Hsteps Hc Hm.
  destruct (reachable_service _ _ _ _ _ Hsource Hmax Hcap Hnew Hsteps) as [_ _ _ _ Haddr].
  pose proof (proj1 (Forall_forall _ _) Haddr c Hc) as Hall. cbn in Hall.
  destruct (proj1 (Forall_forall _ _) Hall message Hm) as (b & Hb & Hrun & [[_ ->] | [Hin ->]]); exists b; split_and!; try done.
  - left. rewrite <- Hrun. apply publicText_read.
  - right. exists (handed_result b (Conn.clientId c)). split_and!; [|done|rewrite <- Hrun; apply privateText_read].
    rewrite projectPrivateResult_run by (apply sides_known || (pose proof (dv_count b Hb);
      unfold MAX_AUTHORITATIVE_EVENTS_PER_COMMAND, SIZE_MAX, UINT64_MAX in *; lia); done).
    apply elem_of_recipientsOf in Hin. by rewrite bool_decide_eq_false_2.
Qed.

(** What a cycle does to the connections when [f] says what is addressed to each. *)
Definition delivers {C} (g : ApplicationEventGateway C) (f : ConnectionState → option text)
    (result : ApplicationEventAdvanceOutcome * ApplicationEventGateway C) : Prop :=
  result.1 = Advance.ROUTED ∧
  Gateway.connections_ result.2 =
    omap (λ c, match f c with
               | Some payload => deliver (Gateway.perConnectionOutboundByteCapacity_ g) payload c
               | None => Some c
               end) (Gateway.connections_ g) ∧
  ∀ c payload, c ∈ Gateway.connections_ g → f c = Some payload → Conn.outbound c = [] →
    ∃ c', c' ∈ Gateway.connections_ result.2 ∧ same_connection c c' ∧ Conn.outbound c' = [payload].

Lemma delivers_intro {C} `{EventSource C} (g : ApplicationEventGateway C) f delivery result : gateway_ok g → result.1 = Advance.ROUTED →
  Gateway.connections_ result.2 = omap delivery (Gateway.connections_ g) →
  (∀ c, c ∈ Gateway.connections_ g → delivery c =
     match f c with Some payload => deliver (Gateway.perConnectionOutboundByteCapacity_ g) payload c | None => Some c end) →
  (∀ c payload, f c = Some payload → messageSize payload ≤ MIN_OUTBOUND_CAPACITY) → delivers g f result.
Proof.
  intros Hok Hrouted Hconns Hdelivery Hsize.
  assert (Hcs : Gateway.connections_ result.2 = omap (λ c, match f c with
    | Some payload => deliver (Gateway.perConnectionOutboundByteCapacity_ g) payload c | None => Some c end) (Gateway.connections_ g)).
  { rewrite Hconns. by apply omap_ext_on. }
  split_and!; [done|done|]. intros c payload Hc Hf Hidle.
  pose proof (proj1 (Forall_forall _ _) (gw_accounts g Hok) c Hc) as Hcok.
  pose proof (gw_capacity g Hok) as [Hmin _]. specialize (Hsize c payload Hf).
  exists (pushOutbound payload c). split_and!; [|done|cbn; by rewrite Hidle].
  rewrite Hcs. apply list_elem_of_omap. exists c. split; [done|]. rewrite Hf. apply deliver_idle; [done..|lia].
Qed.

(** A batch reaches everyone it is addressed to, and nobody is cut off without
    cause.  In every reachable state a cycle that finds a batch at the controller routes
    it: the public trades of the result are appended to the queue of every connection of
    its run, a private result to the queue of its recipient's connection; the other
    connections stay as they are; and the only connections that are dropped are those
    whose unread messages leave no room for the payload, never one that has read
    everything. *)
Theorem gateway_delivers_batches {C} `{HandoffSource C} controller maximum capacity g0 g :
  source_ok controller → 0 ≤ maximum → capacity ≤ SIZE_MAX →
  newGateway controller maximum capacity = Ret g0 → rtc gateway_step g0 g →
  (∀ trades, (popPublicBatch (Gateway.controller_ g)).1 = Some trades →
     ∃ b, deliverable b ∧ trades = projectPublicTrades b ∧
       delivers g (λ c, if bool_decide (Conn.exchangeRunId c = runOf b) then Some (publicText b) else None)
         (advancePublic g)) ∧
  (∀ results, (popPrivateBatch (Gateway.controller_ g)).1 = Some results →
     ∃ b, deliverable b ∧ projectPrivateResults b = Ret results ∧
       delivers g (λ c, if bool_decide (Conn.exchangeRunId c = runOf b) &&
                           bool_decide (Conn.clientId c ∈ Recipient.recipient <$> results)
                        then Some (privateText b (Conn.clientId c)) else None) (advancePrivate g)).
Proof.
  intros Hsource Hmax Hcap Hnew Hsteps.
  pose proof (reachable_service _ _ _ _ _ Hsource Hmax Hcap Hnew Hsteps) as Hg. pose proof (is_gateway g Hg) as Hok. split.
  - intros trades Hpop. pose proof (source_public _ (is_source g Hg)) as [_ Hbatch].
    destruct (advancePublic_service g Hg) as [_ Heffect].
    destruct (popPublicBatch (Gateway.controller_ g)) as [batch controller']. cbn in Hpop. subst batch.
    destruct Hbatch as (Hne & _). destruct Heffect as (b & Hb & -> & Hrouted & Hconns). exists b. split_and!; [done..|].
    eapply delivers_intro; [done..| |].
    + intros c _. unfold publicDelivery. by case_bool_decide.
    + intros c payload. case_bool_decide; [|done]. intros [= <-]. by apply publicText_size.
  - intros results Hpop. destruct (advancePrivate_service g Hg) as [_ Heffect].
    destruct (popPrivateBatch (Gateway.controller_ g)) as [batch controller']. cbn in Hpop. subst batch.
    destruct Heffect as (b & Hb & Hresults & Hrouted & Hconns). exists b. split_and!; [done..|].
    assert (Hid : Recipient.recipient <$> results = recipientsOf (Batch.events b)).
    { rewrite (private_batch b Hb) in Hresults. injection Hresults as <-. rewrite <- list_fmap_compose. apply list_fmap_id. }
    rewrite Hid. eapply delivers_intro; [done..| |].
    + intros c _. unfold privateDeliveryOf. by destruct (bool_decide _ && bool_decide _).
    + intros c payload. destruct (bool_decide_reflect (Conn.exchangeRunId c = runOf b)); [|done]. cbn [andb].
      case_bool_decide; [|done]. intros [= <-]. by apply privateText_size.
Qed.

(** ** Witnesses *)
Lemma u64_by_computation n : (0 <=? n) && (n <=? UINT64_MAX) = true → is_u64 n.
Proof. unfold is_u64. lia. Qed.

Lemma demoBatch_deliverable : deliverable demoBatch.
Proof.
  assert (Hev : Batch.events demoBatch = [EvTrade (Trade.mkTrade (EventId.mkEventId 2 0 7) 1 1 10 2 20 Side.BUY 100 5 0 3);
    EvRested (Rested.mkOrderRested (EventId.mkEventId 2 1 7) 2 20 1 Side.BUY 101 3)]) by (vm_compute; reflexivity).
  split.
  - repeat split; apply u64_by_computation; reflexivity.
  - split; [split; apply Nat.leb_le; reflexivity|reflexivity].
  - rewrite Hev. repeat (constructor; cbn); apply u64_by_computation; reflexivity.
  - rewrite Hev. repeat constructor.
  - rewrite Hev. intros [|[|k]] e; cbn; intros; simplify_eq; reflexivity.
  - rewrite Hev. repeat (constructor; try done).
  - rewrite Hev. cbn [length]. unfold MAX_AUTHORITATIVE_EVENTS_PER_COMMAND. lia.
Qed.

(** A dispatcher of run 7 that holds the projections of [demoBatch], and a gateway with
    the taker's connection. *)
Definition demoHandoffs : CommandResultDispatcher :=
  Dispatcher.mkDispatcher
    (Consumer.mkConsumer (ResultQueue.mkResultQueue 4 []) (mkIndex 4 7 true ∅ noStatistics) None None)
    (PrivateQueue.mkPrivateQueue 16 [handed_result demoBatch <$> recipientsOf (Batch.events demoBatch)] 3)
    (TradeQueue.mkTradeQueue 16 [projectPublicTrades demoBatch] 1) None [] [] false.

Lemma demoHandoffs_ok : source_ok demoHandoffs.
Proof.
  change (dispatcher_ok demoHandoffs). pose proof demoBatch_deliverable as Hb. split; cbn; try done.
  - constructor; [|done]. split; [by vm_compute|]. exists demoBatch. split; [done|]. by apply private_batch.
  - constructor; [|done]. split; [by vm_compute|]. by exists demoBatch.
Qed.

Definition demoGateway : ApplicationEventGateway CommandResultDispatcher :=
  Gateway.mkGateway demoHandoffs 2 2949790 [] None None None None.
Definition demoRegistered : ApplicationEventGateway CommandResultDispatcher := (registerConnection 1 20 7 demoGateway).2.
Definition demoPublished : ApplicationEventGateway CommandResultDispatcher := (advancePublic demoRegistered).2.

Lemma demo_new : newGateway demoHandoffs 2 2949790 = Ret demoGateway.
Proof. vm_compute. reflexivity. Qed.

Lemma demo_registered_steps : rtc gateway_step demoGateway demoRegistered.
Proof. eapply rtc_l; [apply (step_register demoGateway 1 20 7)|]. apply rtc_refl. Qed.
Lemma demo_published_steps : rtc gateway_step demoGateway demoPublished.
Proof. eapply rtc_r; [apply demo_registered_steps|]. apply (step_public demoRegistered). Qed.

Lemma gateway_keeps_its_limits_witness :
  Z.of_nat (length (Gateway.connections_ demoPublished)) ≤ 2 ∧
  Conn.queuedBytes <$> Gateway.connections_ demoPublished = [messageSize (publicText demoBatch)] ∧
  ∀ handle, is_ret (tryPopOutbound handle demoPublished).1.
Proof.
  destruct (gateway_keeps_its_limits demoHandoffs 2 2949790 demoGateway demoPublished demoHandoffs_ok ltac:(lia)
    ltac:(vm_compute; discriminate) demo_new demo_published_steps) as (Hlimit & _ & _ & _ & _ & Hpops).
  split; [exact Hlimit|split; [vm_compute; reflexivity|exact Hpops]].
Defined.

Lemma gateway_sends_clients_their_own_witness :
  ∃ c message, c ∈ Gateway.connections_ demoPublished ∧ message ∈ Conn.outbound c ∧
  ∃ b, deliverable b ∧ Correlation.exchangeRunId (Batch.correlation b) = Conn.exchangeRunId c ∧
    (readJson message = Some (publicTradesDoc (Conn.exchangeRunId c) (projectPublicTrades b)) ∨
     ∃ r, projectPrivateResult b (Conn.clientId c) = Ret (Some r) ∧ Recipient.recipient r = Conn.clientId c ∧
       readJson message = Some (privateResultDoc (Conn.exchangeRunId c) r)).
Proof.
  set (c := Conn.mkConnection 1 20 7 [publicText demoBatch] (messageSize (publicText demoBatch))).
  assert (Hc : c ∈ Gateway.connections_ demoPublished).
  { assert (E : Gateway.connections_ demoPublished = [c]) by (vm_compute; reflexivity). rewrite E. by left. }
  exists c, (publicText demoBatch). split; [exact Hc|]. assert (Hm : publicText demoBatch ∈ Conn.outbound c) by by left.
  split; [exact Hm|].
  exact (gateway_sends_clients_their_own demoHandoffs 2 2949790 demoGateway demoPublished c _ demoHandoffs_ok ltac:(lia)
    ltac:(vm_compute; discriminate) demo_new demo_published_steps Hc Hm).
Defined.

Lemma gateway_delivers_batches_witness :
  (popPublicBatch (Gateway.controller_ demoRegistered)).1 = Some (projectPublicTrades demoBatch) ∧
  ∃ b, deliverable b ∧ projectPublicTrades demoBatch = projectPublicTrades b ∧
    delivers demoRegistered (λ c, if bool_decide (Conn.exchangeRunId c = runOf b) then Some (publicText b) else None)
      (advancePublic demoRegistered).
Proof.
  split; [vm_compute; reflexivity|].
  apply (proj1 (gateway_delivers_batches demoHandoffs 2 2949790 demoGateway demoRegistered demoHandoffs_ok ltac:(lia)
    ltac:(vm_compute; discriminate) demo_new demo_registered_steps)).
  vm_compute. reflexivity.
Defined.
