(* ===== verification/StaticAssets.v ===== *)
(** * Static assets

    [src/core/application/src/https_static_server.cpp], first part: the path a request
    target names, the asset it resolves to inside the configured root, and its media
    type.  The file system calls are the class [AssetStore]; an [std::error_code] is
    its value, 0 when there is no error. *)
From S2P Require Import Prelude Posix FixParser Paths EventJson JsonText.

Module Resolution.
Inductive AssetResolutionFailure := NONE | MALFORMED_TARGET | OUTSIDE_ROOT | NOT_REGULAR | FILESYSTEM_FAILURE.
#[export] Instance AssetResolutionFailure_eq_dec : EqDecision AssetResolutionFailure.
Proof. solve_decision. Defined.
Record AssetResolution := mkResolution {
  failure : AssetResolutionFailure;
  assetPath : path;
  size : Z }.
End Resolution.
Export (hints) Resolution.
Abbreviation AssetResolution := Resolution.AssetResolution.

(** [{.failure = failure}] *)
Definition unresolved (failure : Resolution.AssetResolutionFailure) : AssetResolution :=
  Resolution.mkResolution failure "" 0.

(** ** The path of a target *)
Definition byteOf (c : Ascii.ascii) : Z := Z.of_nat (Ascii.nat_of_ascii c).
Definition charOf (byte : Z) : Ascii.ascii := Ascii.ascii_of_nat (Z.to_nat byte).

Definition isHexDigit (value : Ascii.ascii) : bool :=
  let v := byteOf value in
  ((48 <=? v) && (v <=? 57)) || ((97 <=? v) && (v <=? 102)) || ((65 <=? v) && (v <=? 70)).

Definition hexValue (value : Ascii.ascii) : Z :=
  let v := byteOf value in
  if (48 <=? v) && (v <=? 57) then wrap8 (v - 48)
  else if (97 <=? v) && (v <=? 102) then wrap8 (v - 97 + 10)
  else wrap8 (v - 65 + 10).

Definition question_mark : Ascii.ascii := Ascii.ascii_of_nat 63.
Definition hash_mark : Ascii.ascii := Ascii.ascii_of_nat 35.
Definition percent : Ascii.ascii := Ascii.ascii_of_nat 37.

Definition refusedByte (byte : Z) : bool :=
  bool_decide (byte = 0) || bool_decide (byte = 92) || bool_decide (byte < 32) || bool_decide (byte = 127).

(** The decoding loop. *)
Fixpoint decodeBytes (rest decoded : text) : option text :=
  match rest with
  | [] => Some decoded
  | c :: rest' =>
      if bool_decide (c = percent) then
        match rest' with
        | h1 :: h2 :: rest'' =>
            if negb (isHexDigit h1) || negb (isHexDigit h2) then None
            else
              let byte := wrap8 (Z.lor (Z.shiftl (hexValue h1) 4) (hexValue h2)) in
              if refusedByte byte then None else decodeBytes rest'' (decoded ++ [charOf byte])
        | _ => None
        end
      else if refusedByte (byteOf c) then None else decodeBytes rest' (decoded ++ [c])
  end.

(** The loop over the segments, from the one that starts after the first byte. *)
Definition parentSegment : text := chars "..".
Definition hasParentSegment (decoded : text) : bool :=
  existsb (λ segment, bool_decide (segment = parentSegment)) (split_names (tail decoded) []).

Definition decodeTargetPath (target : text) : option text :=
  let requested := take_while (λ c, negb (bool_decide (c = question_mark))) target in
  match requested with
  | [] => None
  | front :: _ =>
      if bool_decide (front ≠ separator) || bool_decide (hash_mark ∈ requested) then None
      else
        decoded ← decodeBytes requested [];
        if hasParentSegment decoded then None else Some decoded
  end.

(** ** The asset *)

(** The loop over the elements of both paths. *)
Fixpoint withinElements (root candidate : list string) : bool :=
  match root, candidate with
  | [], _ => true
  | _ :: _, [] => false
  | rootPart :: root', candidatePart :: candidate' =>
      if bool_decide (rootPart ≠ candidatePart) then false else withinElements root' candidate'
  end.
Definition isWithinRoot (root candidate : path) : bool := withinElements (path_elements root) (path_elements candidate).

Class AssetStore (W : Type) := {
  (** [std::filesystem::canonical]: the error and the path *)
  fsCanonical : path → W → (Z * path) * W;
  fsIsRegularFile : path → W → (Z * bool) * W;
  fsFileSize : path → W → (Z * Z) * W;
  (** An [std::ifstream] on the path: [None] when it does not open, otherwise what
      [read] of that many bytes gives, if it gives them all. *)
  fsReadFile : path → Z → W → option (option text) * W }.

Definition resolveAsset {W} `{AssetStore W} (root : path) (target : text) : W → AssetResolution * W := λ w,
  match decodeTargetPath target with
  | None => (unresolved Resolution.MALFORMED_TARGET, w)
  | Some decoded =>
      let relative := of_chars (tail decoded) in
      let relative := if bool_decide (relative = ""%string) then "index.html"%string else relative in
      if is_absolute relative then (unresolved Resolution.MALFORMED_TARGET, w)
      else
        let '((error, candidate), w) := fsCanonical (join_path root relative) w in
        if bool_decide (error ≠ 0) then
          (unresolved (if bool_decide (error = ENOENT) then Resolution.NOT_REGULAR else Resolution.FILESYSTEM_FAILURE), w)
        else if negb (isWithinRoot root candidate) then (unresolved Resolution.OUTSIDE_ROOT, w)
        else
          let '((error, regular), w) := fsIsRegularFile candidate w in
          if negb regular then
            (unresolved (if bool_decide (error ≠ 0) then Resolution.FILESYSTEM_FAILURE else Resolution.NOT_REGULAR), w)
          else
            let '((error, size), w) := fsFileSize candidate w in
            if bool_decide (error ≠ 0) then (unresolved Resolution.FILESYSTEM_FAILURE, w)
            else (Resolution.mkResolution Resolution.NONE candidate size, w)
  end.

(** ** Media types *)
Definition full_stop : Ascii.ascii := Ascii.ascii_of_nat 46.

(** [path::extension]: from the last dot of the filename, unless the name is a dot, a
    dot-dot or has its only dot in front. *)
Definition extension (p : path) : text :=
  let name := chars (filename p) in
  if bool_decide (name = chars ".") || bool_decide (name = parentSegment) then []
  else
    let suffix := reverse (take_while (λ c, negb (bool_decide (c = full_stop))) (reverse name)) in
    if (length name <=? length suffix + 1)%nat then [] else full_stop :: suffix.

(** [std::tolower] in the C locale *)
Definition toLower (c : Ascii.ascii) : Ascii.ascii :=
  if (65 <=? byteOf c) && (byteOf c <=? 90) then charOf (byteOf c + 32) else c.

Definition mimeType (p : path) : string :=
  let ext := of_chars (toLower <$> extension p) in
  if bool_decide (ext = ".html"%string) || bool_decide (ext = ".htm"%string) then "text/html; charset=utf-8"
  else if bool_decide (ext = ".css"%string) then "text/css; charset=utf-8"
  else if bool_decide (ext = ".js"%string) || bool_decide (ext = ".mjs"%string) then "text/javascript; charset=utf-8"
  else if bool_decide (ext = ".json"%string) then "application/json"
  else if bool_decide (ext = ".svg"%string) then "image/svg+xml"
  else if bool_decide (ext = ".png"%string) then "image/png"
  else if bool_decide (ext = ".ico"%string) then "image/x-icon"
  else if bool_decide (ext = ".wasm"%string) then "application/wasm"
  else if bool_decide (ext = ".txt"%string) then "text/plain; charset=utf-8"
  else "application/octet-stream".

Example decode_examples :
  decodeTargetPath <$> (chars <$> ["/a%20b?q=%zz"; "/..%2fsecret"; "/%2e%2E/secret"; "/a/..b"; "/a%00"; "relative"; "/a#b"; "/%4"]%string) =
  [Some (chars "/a b"); None; None; Some (chars "/a/..b"); None; None; None; None].
Proof. vm_compute. reflexivity. Qed.

Example mimeType_examples :
  mimeType <$> ["/srv/index.HTML"; "/srv/.html"; "/srv/app.min.js"; "/srv/a.b/c"; "/srv/x."]%string =
  ["text/html; charset=utf-8"; "application/octet-stream"; "text/javascript; charset=utf-8"; "application/octet-stream";
   "application/octet-stream"]%string.
Proof. vm_compute. reflexivity. Qed.

(** * What request targets name

    A target is decoded to a path exactly when it spells one: percent escapes and plain
    bytes up to the query, no control byte, backslash or fragment, and no parent
    segment however it is spelled. *)

(** ** Spelling *)
Inductive spells : text → text → Prop :=
  | spells_nil : spells [] []
  | spells_plain c target path : c ≠ percent → refusedByte (byteOf c) = false → spells target path →
      spells (c :: target) (c :: path)
  | spells_escape h1 h2 a b target path : hexValueOf h1 = Some a → hexValueOf h2 = Some b →
      refusedByte (Z.of_nat (16 * a + b)) = false → spells target path →
      spells (percent :: h1 :: h2 :: target) (Ascii.ascii_of_nat (16 * a + b) :: path).

(** A segment of the path is the parent. *)
Definition segment_end (rest : text) : Prop := rest = [] ∨ head rest = Some separator.
Definition names_parent (path : text) : Prop :=
  ∃ pre post, path = pre ++ separator :: parentSegment ++ post ∧ segment_end post.

(** ** Escapes *)
Lemma isHexDigit_value c : isHexDigit c = true ↔ is_Some (hexValueOf c).
Proof.
  assert (Hall : ∀ d, isHexDigit d = match hexValueOf d with Some _ => true | None => false end)
    by (intros [[] [] [] [] [] [] [] []]; reflexivity).
  rewrite Hall. destruct (hexValueOf c); split; [by eexists|done|done|by intros []].
Qed.

Lemma hexValue_value c a : hexValueOf c = Some a → hexValue c = Z.of_nat a ∧ (a < 16)%nat.
Proof.
  assert (Hall : ∀ d, match hexValueOf d with
                      | Some v => ((hexValue d =? Z.of_nat v) && (v <? 16)%nat)%bool
                      | None => true
                      end = true) by (intros [[] [] [] [] [] [] [] []]; reflexivity).
  specialize (Hall c). intros E. rewrite E in Hall. apply andb_prop in Hall as [H1%Z.eqb_eq H2%Nat.ltb_lt]. by split.
Qed.

Lemma escaped_byte a b : (a < 16)%nat → (b < 16)%nat →
  wrap8 (Z.lor (Z.shiftl (Z.of_nat a) 4) (Z.of_nat b)) = Z.of_nat (16 * a + b).
Proof.
  intros Ha Hb.
  assert (Hall : forallb (λ a, forallb (λ b, wrap8 (Z.lor (Z.shiftl (Z.of_nat a) 4) (Z.of_nat b)) =? Z.of_nat (16 * a + b))
    (seq 0 16)) (seq 0 16) = true) by reflexivity.
  rewrite forallb_elem in Hall. specialize (Hall a ltac:(apply elem_of_seq; lia)). cbn beta in Hall.
  rewrite forallb_elem in Hall. specialize (Hall b ltac:(apply elem_of_seq; lia)). by apply Z.eqb_eq.
Qed.

(** ** Decoding *)
Lemma decodeBytes_spells rest : ∀ decoded d, decodeBytes rest decoded = Some d ↔ ∃ path, d = decoded ++ path ∧ spells rest path.
Proof.
  induction rest as [rest IH] using (induction_ltof1 _ (@length _)). unfold ltof in IH. intros decoded d.
  destruct rest as [|c rest]; cbn [decodeBytes].
  { split; [intros [= <-]; exists []; rewrite app_nil_r; by split; [|constructor]|].
    intros (path & -> & Hs). inversion Hs. by rewrite app_nil_r. }
  destruct (bool_decide_reflect (c = percent)) as [-> |Hc].
  - destruct rest as [|h1 [|h2 rest]]; [by split; [|intros (? & _ & Hs); inversion Hs]..|].
    destruct (isHexDigit h1) eqn:E1; cycle 1.
    { split; [done|]. intros (path & _ & Hs). inversion Hs; subst; [done|].
      assert (isHexDigit h1 = true) by (apply isHexDigit_value; by eexists). congruence. }
    destruct (isHexDigit h2) eqn:E2; cycle 1.
    { split; [done|]. intros (path & _ & Hs). inversion Hs; subst; [done|].
      assert (isHexDigit h2 = true) by (apply isHexDigit_value; by eexists). congruence. }
    apply isHexDigit_value in E1 as [a Ea], E2 as [b Eb]. cbn [negb orb].
    destruct (hexValue_value _ _ Ea) as [-> Ha], (hexValue_value _ _ Eb) as [-> Hb]. rewrite escaped_byte by done.
    destruct (refusedByte (Z.of_nat (16 * a + b))) eqn:Er.
    { split; [done|]. intros (path & _ & Hs). inversion Hs; subst; [done|]. congruence. }
    unfold charOf. rewrite Nat2Z.id. rewrite IH by (cbn; lia). split.
    + intros (path & -> & Hs). exists (Ascii.ascii_of_nat (16 * a + b) :: path). rewrite <- app_assoc. split; [done|].
      by constructor.
    + intros (path & -> & Hs). inversion Hs as [|? ? ? Hne|? ? a' b' ? path' Ea' Eb' Hr' Hs']; subst; [done|].
      rewrite Ea in Ea'. rewrite Eb in Eb'. injection Ea' as <-. injection Eb' as <-. exists path'. by rewrite <- app_assoc.
  - destruct (refusedByte (byteOf c)) eqn:Er.
    { split; [done|]. intros (path & _ & Hs). inversion Hs; subst; [congruence|done]. }
    rewrite IH by (cbn; lia). split.
    + intros (path & -> & Hs). exists (c :: path). rewrite <- app_assoc. split; [done|]. by constructor.
    + intros (path & -> & Hs). inversion Hs as [|? ? path' Hne Hr' Hs'|]; subst; [|done]. exists path'. by rewrite <- app_assoc.
Qed.

(** ** Segments *)
Lemma split_names_elem l : ∀ current x, separator ∉ current → separator ∉ x →
  x ∈ split_names l current ↔
  (∃ post, current ++ l = x ++ post ∧ segment_end post) ∨ (∃ pre post, l = pre ++ separator :: x ++ post ∧ segment_end post).
Proof.
  induction l as [|c l IH]; intros current x Hcur Hx; cbn [split_names].
  - rewrite list_elem_of_singleton, app_nil_r. split.
    + intros ->. left. exists []. rewrite app_nil_r. split; [done|by left].
    + intros [(post & -> & [-> |Hpost])|(pre & post & E & _)]; [by rewrite app_nil_r| |by destruct pre].
      destruct post as [|c post]; [done|]. injection Hpost as ->. exfalso. apply Hcur, elem_of_app. right. by left.
  - unfold is_separator. destruct (bool_decide_reflect (c = separator)) as [-> |Hc].
    + rewrite elem_of_cons, IH by (done || apply not_elem_of_nil). cbn [app]. split.
      * intros [-> |[(post & -> & Hpost)|(pre & post & -> & Hpost)]].
        -- left. exists (separator :: l). split; [done|by right].
        -- right. by exists [], post.
        -- right. by exists (separator :: pre), post.
      * intros [(post & E & Hpost)|(pre & post & E & Hpost)].
        -- left. destruct post as [|p post].
           { rewrite app_nil_r in E. exfalso. apply Hx. rewrite <- E. apply elem_of_middle. }
           destruct Hpost as [|[= ->]]; [done|].
           assert (∀ (u v : text), separator ∉ u → separator ∉ v → u ++ separator :: l = v ++ separator :: post → u = v) as Hinj.
           { clear. induction u as [|c u IH]; intros [|d v] Hu Hv E; try done.
             - injection E as <- _. exfalso. apply Hv. by left.
             - injection E as -> _. exfalso. apply Hu. by left.
             - apply not_elem_of_cons in Hu as [_ Hu], Hv as [_ Hv]. injection E as -> E. f_equal. by apply IH. }
           symmetry. by apply Hinj.
        -- right. destruct pre as [|p pre]; [injection E as E; left; by exists post|injection E as E1 E2; right]. by exists pre, post.
    + rewrite IH by (rewrite ?elem_of_app, ?list_elem_of_singleton; naive_solver). rewrite <- app_assoc. cbn [app]. split.
      * intros [Hl|(pre & post & -> & Hpost)]; [by left|]. right. by exists (c :: pre), post.
      * intros [Hl|(pre & post & E & Hpost)]; [by left|]. right. destruct pre as [|p pre]; injection E as E1 E2; [done|]. by exists pre, post.
Qed.

Lemma hasParentSegment_spec t : hasParentSegment (separator :: t) = true ↔ names_parent (separator :: t).
Proof.
  assert (Hparent : separator ∉ parentSegment).
  { intros Hin%list_elem_of_In. destruct Hin as [Hin|[Hin|[]]]; discriminate Hin. }
  assert (Helem : hasParentSegment (separator :: t) = true ↔ parentSegment ∈ split_names t []).
  { unfold hasParentSegment. cbn [tail]. rewrite existsb_exists, list_elem_of_In. split.
    - intros (x & Hx & E%bool_decide_eq_true). by subst x.
    - intros Hx. exists parentSegment. split; [done|by apply bool_decide_eq_true]. }
  rewrite Helem, split_names_elem by (done || apply not_elem_of_nil). unfold names_parent. cbn [app]. split.
  - intros [(post & -> & Hpost)|(pre & post & -> & Hpost)]; [by exists [], post|by exists (separator :: pre), post].
  - intros (pre & post & E & Hpost). destruct pre as [|p pre]; [injection E as E; left; by exists post|].
    injection E as E1 E2. right. by exists pre, post.
Qed.

(** ** The property *)

(** The request target up to its query. *)
Definition target_parts (target requested : text) : Prop :=
  ∃ query, target = requested ++ query ∧ (query = [] ∨ head query = Some question_mark) ∧ question_mark ∉ requested.

Lemma take_while_query target : target_parts target (take_while (λ c, negb (bool_decide (c = question_mark))) target).
Proof.
  unfold target_parts. induction target as [|c target (query & E & Hq & Hn)]; [exists []; split; [done|split; [by left|apply not_elem_of_nil]]|].
  cbn. destruct (bool_decide_reflect (c = question_mark)) as [-> |Hc]; cbn.
  - exists (question_mark :: target). split; [done|split; [by right|apply not_elem_of_nil]].
  - exists query. split_and!; [by rewrite E at 1|done|]. apply not_elem_of_cons. by split.
Qed.

Lemma target_parts_unique target r1 r2 : target_parts target r1 → target_parts target r2 → r1 = r2.
Proof.
  intros (q1 & -> & H1 & N1) (q2 & E & H2 & N2). revert r2 E N2. induction r1 as [|c r1 IH]; intros [|d r2] E N2; try done.
  - destruct H1 as [-> |H1]; [done|]. destruct q1 as [|q q1]; [done|]. injection H1 as ->. injection E as <- _.
    exfalso. apply N2. by left.
  - destruct H2 as [-> |H2]; [done|]. destruct q2 as [|q q2]; [done|]. injection H2 as ->. injection E as -> _.
    exfalso. apply N1. by left.
  - injection E as <- E. apply not_elem_of_cons in N1 as [_ N1], N2 as [_ N2]. f_equal. by eapply IH.
Qed.

Lemma spells_front target path : spells (separator :: target) path → ∃ t, path = separator :: t.
Proof. intros Hs. inversion Hs; subst; by eexists. Qed.

(** A request target is decoded exactly.  The decoder gives a path precisely when
    the part of the target in front of its query starts with a slash, holds no
    fragment, spells that path with plain bytes and two-digit percent escapes, none of
    them (plain or escaped) a control byte, DEL or a backslash, and no segment of the
    path is the parent, however it was spelled; every other target is refused. *)
Theorem targets_are_decoded_exactly target path :
  decodeTargetPath target = Some path ↔
  ∃ requested, target_parts target requested ∧ head requested = Some separator ∧ (hash_mark ∉ requested) ∧
    spells requested path ∧ (¬ names_parent path).
Proof.
  pose proof (take_while_query target) as Hparts. unfold decodeTargetPath.
  set (requested := take_while _ target) in *. split.
  - intros E. exists requested. destruct requested as [|front rest]; [done|].
    destruct (bool_decide_reflect (front ≠ separator)) as [|Hfront]; [done|]. apply dec_stable in Hfront as ->.
    cbn [orb] in E. destruct (bool_decide_reflect (hash_mark ∈ separator :: rest)); [done|].
    destruct (decodeBytes (separator :: rest) []) as [d|] eqn:Ed; [|done]. cbn in E.
    apply decodeBytes_spells in Ed as (d' & -> & Hs). cbn [app] in E.
    destruct (spells_front _ _ Hs) as [t ->]. destruct (hasParentSegment (separator :: t)) eqn:Ep; [done|]. injection E as <-.
    split_and!; try done. intros Hp%hasParentSegment_spec. congruence.
  - intros (requested' & Hparts' & Hfront & Hhash & Hs & Hp).
    assert (E : requested' = requested) by by eapply target_parts_unique. rewrite E in *.
    destruct requested as [|front rest]; [done|]. injection Hfront as ->.
    rewrite !bool_decide_eq_false_2 by auto. cbn [orb].
    destruct (decodeBytes (separator :: rest) []) as [d|] eqn:Ed.
    + cbn. apply decodeBytes_spells in Ed as (d' & -> & Hs').
      assert (Hone : ∀ t p1 p2, spells t p1 → spells t p2 → p1 = p2).
      { clear. intros t p1 p2 Hs1 Hs2. assert (H1 : decodeBytes t [] = Some p1) by (apply decodeBytes_spells; by exists p1).
        assert (H2 : decodeBytes t [] = Some p2) by (apply decodeBytes_spells; by exists p2). congruence. }
      cbn [app]. rewrite (Hone _ _ _ Hs' Hs). destruct (spells_front _ _ Hs) as [t ->].
      destruct (hasParentSegment (separator :: t)) eqn:Ep; [|done]. by apply hasParentSegment_spec in Ep.
    + assert (decodeBytes (separator :: rest) [] = Some path) by (apply decodeBytes_spells; by exists path). congruence.
Qed.
