(* ===== verification/HttpsSession.v ===== *)
(** * One HTTPS session

    [HttpsSession] of [src/core/application/src/https_static_server.cpp]: what a session
    does when the operation it waits for completes.  The handlers of Boost.Asio and
    Beast are events; what the session asks of its stream, its timer and its owner is
    written down as actions, in order.  A request is what the Beast parser reports of
    it; exceptions of the libraries are not modelled. *)
From S2P Require Import Prelude FixParser Paths Posix EventJson StaticAssets.

(** ** Requests and responses *)
Inductive verb := GET | HEAD | OtherVerb.
#[export] Instance verb_eq_dec : EqDecision verb.
Proof. solve_decision. Defined.

Module Request.
Record HttpRequest := mkRequest {
  method : verb;
  target : text;
  version : Z;
  keepAlive : bool;
  (** [websocket::is_upgrade] *)
  upgrade : bool }.
End Request.
Abbreviation HttpRequest := Request.HttpRequest.

Module Status.
Inductive HttpStatus :=
  | OK | BAD_REQUEST | FORBIDDEN | NOT_FOUND | METHOD_NOT_ALLOWED | PAYLOAD_TOO_LARGE | HEADER_FIELDS_TOO_LARGE
  | INTERNAL_SERVER_ERROR.
#[export] Instance HttpStatus_eq_dec : EqDecision HttpStatus.
Proof. solve_decision. Defined.
End Status.
Export (hints) Status.
Abbreviation HttpStatus := Status.HttpStatus.

Module Response.
Record HttpResponse := mkResponse {
  status : HttpStatus;
  version : Z;
  server : string;
  contentType : string;
  allow : option string;
  keepAlive : bool;
  body : text;
  contentLength : Z }.
End Response.
Abbreviation HttpResponse := Response.HttpResponse.

(** ** What a session asks for *)
Inductive SessionAction :=
  | CancelTimer
  | ArmTimer (duration : Z)
  | AsyncHandshake
  | AsyncRead (headerLimit bodyLimit : Z)
  | AsyncWrite (response : HttpResponse)
  | AsyncShutdown
  | CloseSocket
  | NotifyOwner.

(** ** What completes *)
Inductive ReadResult := EndOfStream | HeaderLimit | BodyLimit | ReadFailure | Received (request : HttpRequest).
Inductive SessionEvent :=
  | HandshakeCompleted (error : bool)
  | ReadCompleted (result : ReadResult)
  | WriteCompleted (error : bool)
  | ShutdownCompleted
  | TimerCompleted (error : bool).

(** ** State *)
Module Session.
Record HttpsSession := mkSession {
  maximumHttpHeaderBytes_ : Z;
  maximumHttpBodyBytes_ : Z;
  maximumStaticAssetBytes_ : Z;
  tlsHandshakeTimeout_ : Z;
  idleTimeout_ : Z;
  staticRoot_ : path;
  (** the callback is there *)
  closed_ : bool;
  parser_ : bool;
  response_ : option HttpResponse;
  closeAfterWrite_ : bool;
  stopped_ : bool }.
End Session.
Abbreviation HttpsSession := Session.HttpsSession.

(** The session, what it asked for so far, and the file system. *)
Record Running (W : Type) := mkRunning {
  session : HttpsSession;
  actions : list SessionAction;
  store : W }.
Arguments mkRunning {_} _ _ _.
Arguments session {_} _.
Arguments actions {_} _.
Arguments store {_} _.

Section session.
Context {W : Type} `{AssetStore W}.
Abbreviation run := (Running W → Running W) (only parsing).
Implicit Types (s : Running W).

Definition ask (action : SessionAction) : run := λ s, mkRunning (session s) (actions s ++ [action]) (store s).
Definition update (f : HttpsSession → HttpsSession) : run := λ s, mkRunning (f (session s)) (actions s) (store s).

Definition setParser (parser : bool) (x : HttpsSession) : HttpsSession :=
  Session.mkSession (Session.maximumHttpHeaderBytes_ x) (Session.maximumHttpBodyBytes_ x) (Session.maximumStaticAssetBytes_ x)
    (Session.tlsHandshakeTimeout_ x) (Session.idleTimeout_ x) (Session.staticRoot_ x) (Session.closed_ x) parser
    (Session.response_ x) (Session.closeAfterWrite_ x) (Session.stopped_ x).
Definition setResponse (response : option HttpResponse) (x : HttpsSession) : HttpsSession :=
  Session.mkSession (Session.maximumHttpHeaderBytes_ x) (Session.maximumHttpBodyBytes_ x) (Session.maximumStaticAssetBytes_ x)
    (Session.tlsHandshakeTimeout_ x) (Session.idleTimeout_ x) (Session.staticRoot_ x) (Session.closed_ x) (Session.parser_ x)
    response (Session.closeAfterWrite_ x) (Session.stopped_ x).
Definition setCloseAfterWrite (close : bool) (x : HttpsSession) : HttpsSession :=
  Session.mkSession (Session.maximumHttpHeaderBytes_ x) (Session.maximumHttpBodyBytes_ x) (Session.maximumStaticAssetBytes_ x)
    (Session.tlsHandshakeTimeout_ x) (Session.idleTimeout_ x) (Session.staticRoot_ x) (Session.closed_ x) (Session.parser_ x)
    (Session.response_ x) close (Session.stopped_ x).
Definition setStopped (stopped closed : bool) (x : HttpsSession) : HttpsSession :=
  Session.mkSession (Session.maximumHttpHeaderBytes_ x) (Session.maximumHttpBodyBytes_ x) (Session.maximumStaticAssetBytes_ x)
    (Session.tlsHandshakeTimeout_ x) (Session.idleTimeout_ x) (Session.staticRoot_ x) closed (Session.parser_ x)
    (Session.response_ x) (Session.closeAfterWrite_ x) stopped.

(** ** Timer, stop and shutdown *)
Definition cancelTimer : run := ask CancelTimer.
Definition armTimer (duration : Z) : run := λ s, ask (ArmTimer duration) (cancelTimer s).

Definition stopSession (notifyOwner : bool) : run := λ s,
  if Session.stopped_ (session s) then s
  else
    let closed := Session.closed_ (session s) in
    let s := update (setStopped true closed) s in
    let s := cancelTimer s in
    let s := ask CloseSocket s in
    let s := update (setParser false) s in
    let s := update (setResponse None) s in
    let s := update (setStopped true false) s in
    if notifyOwner && closed then ask NotifyOwner s else s.

Definition shutdownTls : run := λ s,
  if Session.stopped_ (session s) then s
  else ask AsyncShutdown (armTimer (Session.idleTimeout_ (session s)) s).

(** ** Reading *)
Definition readRequest : run := λ s,
  if Session.stopped_ (session s) then s
  else
    let s := update (setParser true) s in
    let s := armTimer (Session.idleTimeout_ (session s)) s in
    ask (AsyncRead (wrap32 (Session.maximumHttpHeaderBytes_ (session s))) (Session.maximumHttpBodyBytes_ (session s))) s.

Definition onHandshake (error : bool) : run := λ s,
  if Session.stopped_ (session s) then s
  else
    let s := cancelTimer s in
    if error then stopSession true s else readRequest s.

(** ** Writing *)

(** The response is there. *)
Definition writeResponse (response : HttpResponse) : run := λ s,
  let s := update (setResponse (Some response)) s in
  let s := update (setCloseAfterWrite (negb (Response.keepAlive response))) s in
  let s := armTimer (Session.idleTimeout_ (session s)) s in
  ask (AsyncWrite response) s.

Definition errorResponse (status : HttpStatus) (body : text) (version : Z) (keepAlive headOnly includeAllow : bool) : HttpResponse :=
  Response.mkResponse status version "Financial-Exchange" "text/plain; charset=utf-8"
    (if includeAllow then Some "GET, HEAD"%string else None) keepAlive
    (if headOnly then [] else body) (Z.of_nat (length body)).
Definition sendError (status : HttpStatus) (body : string) (version : Z) (keepAlive headOnly includeAllow : bool) : run :=
  writeResponse (errorResponse status (chars body ++ [Ascii.ascii_of_nat 10]) version keepAlive headOnly includeAllow).

Definition onWrite (error : bool) : run := λ s,
  if Session.stopped_ (session s) then s
  else
    let s := cancelTimer s in
    let s := update (setResponse None) s in
    if error then stopSession true s
    else if Session.closeAfterWrite_ (session s) then shutdownTls s
    else readRequest s.

(** ** Requests *)

(** From the resolved asset on. *)
Definition serveAsset (request : HttpRequest) (asset : AssetResolution) : run := λ s,
  let headOnly := bool_decide (Request.method request = HEAD) in
  let size := Resolution.size asset in
  if bool_decide (Session.maximumStaticAssetBytes_ (session s) < size) || bool_decide (SIZE_MAX < size) then
    sendError Status.PAYLOAD_TOO_LARGE "Asset exceeds the configured limit" (Request.version request)
      (Request.keepAlive request) headOnly false s
  else
    let '(body, w) :=
      if headOnly then (Some [], store s)
      else match fsReadFile (Resolution.assetPath asset) size (store s) with
           | (None, w) => (None, w)
           | (Some data, w) => (if bool_decide (size = 0) then Some [] else data, w)
           end in
    let s := mkRunning (session s) (actions s) w in
    match body with
    | None => sendError Status.INTERNAL_SERVER_ERROR "Asset read failed" (Request.version request) false false false s
    | Some body =>
        writeResponse (Response.mkResponse Status.OK (Request.version request) "Financial-Exchange"
          (mimeType (Resolution.assetPath asset)) None (Request.keepAlive request) body size) s
    end.

Definition handleRequest (request : HttpRequest) : run := λ s,
  let headOnly := bool_decide (Request.method request = HEAD) in
  let version := Request.version request in
  let keepAlive := Request.keepAlive request in
  if Request.upgrade request then
    sendError Status.FORBIDDEN "WebSocket authentication is unavailable" version false headOnly false s
  else if bool_decide (Request.method request ≠ GET) && bool_decide (Request.method request ≠ HEAD) then
    sendError Status.METHOD_NOT_ALLOWED "Only GET and HEAD are supported" version keepAlive headOnly true s
  else
    let '(asset, w) := resolveAsset (Session.staticRoot_ (session s)) (Request.target request) (store s) in
    let s := mkRunning (session s) (actions s) w in
    match Resolution.failure asset with
    | Resolution.MALFORMED_TARGET => sendError Status.BAD_REQUEST "Invalid request target" version keepAlive headOnly false s
    | Resolution.OUTSIDE_ROOT => sendError Status.FORBIDDEN "Asset is outside the configured root" version keepAlive headOnly false s
    | Resolution.NOT_REGULAR => sendError Status.NOT_FOUND "Asset not found" version keepAlive headOnly false s
    | Resolution.FILESYSTEM_FAILURE => sendError Status.INTERNAL_SERVER_ERROR "Asset lookup failed" version false headOnly false s
    | Resolution.NONE => serveAsset request asset s
    end.

(** The defaults of [sendError] are HTTP/1.1, closing, with a body. *)
Definition onRead (result : ReadResult) : run := λ s,
  if Session.stopped_ (session s) then s
  else
    let s := cancelTimer s in
    let s := update (setParser false) s in
    match result with
    | EndOfStream => shutdownTls s
    | HeaderLimit => sendError Status.HEADER_FIELDS_TOO_LARGE "Request headers are too large" 11 false false false s
    | BodyLimit => sendError Status.PAYLOAD_TOO_LARGE "Request body is too large" 11 false false false s
    | ReadFailure => sendError Status.BAD_REQUEST "Malformed HTTP request" 11 false false false s
    | Received request => handleRequest request s
    end.

(** ** Life of a session *)
Definition startSession : run := λ s,
  ask AsyncHandshake (armTimer (Session.tlsHandshakeTimeout_ (session s)) s).

(** The handler of each completion. *)
Definition handleEvent (event : SessionEvent) : run := λ s,
  match event with
  | HandshakeCompleted error => onHandshake error s
  | ReadCompleted result => onRead result s
  | WriteCompleted error => onWrite error s
  | ShutdownCompleted => stopSession true s
  | TimerCompleted error => if error then s else stopSession true s
  end.
End session.
