(* ===== verification/HttpsServer.v ===== *)
(** * The HTTPS server

    [HttpsStaticServer] of [src/core/application/src/https_static_server.cpp]: its
    start, its acceptor and the sessions it owns.  A session is the number it was
    accepted under; what the server asks of its acceptor and of its sessions is
    written down as actions.  The calls into Boost.Asio, OpenSSL and the file system
    that [start] makes are the class [ServerPlatform]: each reports an error value, 0
    when there is none, or raises an exception. *)
From S2P Require Import Prelude Paths StaticAssets.

Module ServerConfig.
Record HttpsStaticServerConfiguration := mkServerConfiguration {
  listenAddress : string;
  listenPort : Z;
  staticAssetRoot : path;
  certificateChainPath : path;
  privateKeyPath : path;
  maximumConnections : Z;
  maximumHttpHeaderBytes : Z;
  maximumHttpBodyBytes : Z;
  maximumStaticAssetBytes : Z;
  tlsHandshakeTimeout : Z;
  idleTimeout : Z }.
End ServerConfig.
Abbreviation HttpsStaticServerConfiguration := ServerConfig.HttpsStaticServerConfiguration.

Module StartFailure.
Inductive HttpsStaticServerStartFailure :=
  | NONE | ALREADY_STARTED | INVALID_CONFIGURATION | STATIC_ASSET_ROOT_INVALID | CERTIFICATE_CHAIN_LOAD_FAILED
  | PRIVATE_KEY_LOAD_FAILED | PRIVATE_KEY_WITHIN_STATIC_ROOT | TLS_CONFIGURATION_FAILED | ACCEPTOR_OPEN_FAILED
  | ACCEPTOR_BIND_FAILED | ACCEPTOR_LISTEN_FAILED | INTERNAL_FAILURE.
#[export] Instance HttpsStaticServerStartFailure_eq_dec : EqDecision HttpsStaticServerStartFailure.
Proof. solve_decision. Defined.
Record HttpsStaticServerStartResult := mkStartResult {
  failure : HttpsStaticServerStartFailure;
  systemError : Z }.
End StartFailure.
Export (hints) StartFailure.
Abbreviation HttpsStaticServerStartResult := StartFailure.HttpsStaticServerStartResult.

Definition startResult (failure : StartFailure.HttpsStaticServerStartFailure) (systemError : Z) : HttpsStaticServerStartResult :=
  StartFailure.mkStartResult failure systemError.

Record LocalHttpsEndpoint := mkEndpoint { endpointAddress : string; endpointPort : Z }.

(** ** What the server asks for *)
Abbreviation SessionId := nat (only parsing).
Inductive ServerAction :=
  (** [acceptor_.open], whatever it then reports *)
  | OpenAcceptor
  | CloseAcceptor
  | AsyncAccept
  | StartSession (id : SessionId)
  (** [session->stop(false)] *)
  | StopSession (id : SessionId).

(** ** What [start] calls *)
Class ServerPlatform (W : Type) := {
  makeAddress : string → W → outcome (Z * string) * W;
  canonicalPath : path → W → outcome (Z * path) * W;
  isDirectory : path → W → outcome (Z * bool) * W;
  (** 1 is success for the two OpenSSL calls *)
  setMinProtoVersion : W → outcome Z * W;
  setNoCompression : W → outcome unit * W;
  useCertificateChainFile : path → W → outcome Z * W;
  usePrivateKeyFile : path → W → outcome Z * W;
  checkPrivateKey : W → outcome Z * W;
  acceptorOpen : string → W → outcome Z * W;
  acceptorReuseAddress : W → outcome Z * W;
  acceptorBind : string → Z → W → outcome Z * W;
  acceptorListen : Z → W → outcome Z * W;
  acceptorLocalEndpoint : W → outcome (Z * (string * Z)) * W;
  max_listen_connections : Z }.

(** ** State *)
Module Server.
Record HttpsServer (W : Type) := mkServer {
  configuration_ : HttpsStaticServerConfiguration;
  staticRoot_ : path;
  localEndpoint_ : option LocalHttpsEndpoint;
  sessions_ : list SessionId;
  startedOnce_ : bool;
  ready_ : bool;
  acceptPending_ : bool;
  (** the number of the next session *)
  nextSession : SessionId;
  actions : list ServerAction;
  platform : W }.
Arguments mkServer {_} _ _ _ _ _ _ _ _ _ _.
Arguments configuration_ {_} _.
Arguments staticRoot_ {_} _.
Arguments localEndpoint_ {_} _.
Arguments sessions_ {_} _.
Arguments startedOnce_ {_} _.
Arguments ready_ {_} _.
Arguments acceptPending_ {_} _.
Arguments nextSession {_} _.
Arguments actions {_} _.
Arguments platform {_} _.
End Server.
Abbreviation HttpsServer := Server.HttpsServer.

Definition newServer {W} (configuration : HttpsStaticServerConfiguration) (w : W) : HttpsServer W :=
  Server.mkServer configuration "" None [] false false false 0 [] w.

Section server.
Context {W : Type} `{ServerPlatform W}.
Implicit Types (s : HttpsServer W).

Definition setStaticRoot (root : path) s : HttpsServer W :=
  Server.mkServer (Server.configuration_ s) root (Server.localEndpoint_ s) (Server.sessions_ s) (Server.startedOnce_ s)
    (Server.ready_ s) (Server.acceptPending_ s) (Server.nextSession s) (Server.actions s) (Server.platform s).
(** [ready_] and [localEndpoint_] *)
Definition setServing (ready : bool) (endpoint : option LocalHttpsEndpoint) s : HttpsServer W :=
  Server.mkServer (Server.configuration_ s) (Server.staticRoot_ s) endpoint (Server.sessions_ s) (Server.startedOnce_ s)
    ready (Server.acceptPending_ s) (Server.nextSession s) (Server.actions s) (Server.platform s).
Definition setSessions (sessions : list SessionId) s : HttpsServer W :=
  Server.mkServer (Server.configuration_ s) (Server.staticRoot_ s) (Server.localEndpoint_ s) sessions (Server.startedOnce_ s)
    (Server.ready_ s) (Server.acceptPending_ s) (Server.nextSession s) (Server.actions s) (Server.platform s).
Definition setStartedOnce s : HttpsServer W :=
  Server.mkServer (Server.configuration_ s) (Server.staticRoot_ s) (Server.localEndpoint_ s) (Server.sessions_ s) true
    (Server.ready_ s) (Server.acceptPending_ s) (Server.nextSession s) (Server.actions s) (Server.platform s).
Definition setAcceptPending (pending : bool) s : HttpsServer W :=
  Server.mkServer (Server.configuration_ s) (Server.staticRoot_ s) (Server.localEndpoint_ s) (Server.sessions_ s)
    (Server.startedOnce_ s) (Server.ready_ s) pending (Server.nextSession s) (Server.actions s) (Server.platform s).
Definition askServer (action : ServerAction) s : HttpsServer W :=
  Server.mkServer (Server.configuration_ s) (Server.staticRoot_ s) (Server.localEndpoint_ s) (Server.sessions_ s)
    (Server.startedOnce_ s) (Server.ready_ s) (Server.acceptPending_ s) (Server.nextSession s)
    (Server.actions s ++ [action]) (Server.platform s).
(** [sessions_.push_back(session)] of a new session *)
Definition pushSession s : HttpsServer W :=
  Server.mkServer (Server.configuration_ s) (Server.staticRoot_ s) (Server.localEndpoint_ s)
    (Server.sessions_ s ++ [Server.nextSession s]) (Server.startedOnce_ s) (Server.ready_ s) (Server.acceptPending_ s)
    (Datatypes.S (Server.nextSession s)) (Server.actions s) (Server.platform s).
(** A call of the platform. *)
Definition platformCall {A} (f : W → outcome A * W) : M (HttpsServer W) A := λ s,
  let '(r, w) := f (Server.platform s) in
  (r, Server.mkServer (Server.configuration_ s) (Server.staticRoot_ s) (Server.localEndpoint_ s) (Server.sessions_ s)
        (Server.startedOnce_ s) (Server.ready_ s) (Server.acceptPending_ s) (Server.nextSession s) (Server.actions s) w).

(** ** Stopping *)
Definition closeAcceptor s : HttpsServer W := askServer CloseAcceptor s.

Definition stopServer s : HttpsServer W :=
  let s := setServing false None s in
  let s := closeAcceptor s in
  let sessions := Server.sessions_ s in
  let s := setSessions [] s in
  foldl (λ s id, askServer (StopSession id) s) s sessions.

(** ** Accepting *)
Definition acceptNext s : HttpsServer W :=
  if negb (Server.ready_ s) ||
     bool_decide (ServerConfig.maximumConnections (Server.configuration_ s) ≤ Z.of_nat (length (Server.sessions_ s))) ||
     Server.acceptPending_ s
  then s
  else askServer AsyncAccept (setAcceptPending true s).

Definition onAccept (error : bool) s : HttpsServer W :=
  if negb (Server.ready_ s) then s
  else if error then closeAcceptor (setServing false None s)
  else acceptNext (askServer (StartSession (Server.nextSession s)) (pushSession s)).
(** The handler of [async_accept]. *)
Definition acceptCompleted (error : bool) s : HttpsServer W := onAccept error (setAcceptPending false s).

Definition sessionClosed (closedSession : SessionId) s : HttpsServer W :=
  acceptNext (setSessions (filter (λ id, id ≠ closedSession) (Server.sessions_ s)) s).

(** ** Starting *)

(** [return {.failure = failure, .systemError = error}] when [bad] *)
Definition failStart (bad : bool) (failure : StartFailure.HttpsStaticServerStartFailure) (error : Z)
    (rest : M (HttpsServer W) HttpsStaticServerStartResult) : M (HttpsServer W) HttpsStaticServerStartResult :=
  if bad then mret (startResult failure error) else rest.
(** [return acceptorFailure(failure, error)] when there is an error *)
Definition acceptorFailure (failure : StartFailure.HttpsStaticServerStartFailure) (error : Z)
    (rest : M (HttpsServer W) HttpsStaticServerStartResult) : M (HttpsServer W) HttpsStaticServerStartResult :=
  if bool_decide (error ≠ 0) then modifyM closeAcceptor ;; mret (startResult failure error) else rest.

Definition INT64_MAX : Z := 9223372036854775807.
Definition invalidConfiguration (c : HttpsStaticServerConfiguration) (addressError : Z) : bool :=
  bool_decide (addressError ≠ 0) || bool_decide (ServerConfig.listenAddress c = ""%string) ||
  bool_decide (ServerConfig.staticAssetRoot c = ""%string) || bool_decide (ServerConfig.certificateChainPath c = ""%string) ||
  bool_decide (ServerConfig.privateKeyPath c = ""%string) || bool_decide (ServerConfig.maximumConnections c = 0) ||
  bool_decide (ServerConfig.maximumHttpHeaderBytes c = 0) || bool_decide (UINT32_MAX < ServerConfig.maximumHttpHeaderBytes c) ||
  bool_decide (ServerConfig.maximumHttpBodyBytes c = 0) || bool_decide (ServerConfig.maximumStaticAssetBytes c = 0) ||
  bool_decide (INT64_MAX < ServerConfig.maximumStaticAssetBytes c) ||
  bool_decide (ServerConfig.tlsHandshakeTimeout c ≤ 0) || bool_decide (ServerConfig.idleTimeout c ≤ 0).

(** The acceptor, the last part of [start]. *)
Definition startAcceptor (address : string) : M (HttpsServer W) HttpsStaticServerStartResult :=
  s ← getM;
  let c := Server.configuration_ s in
  modifyM (askServer OpenAcceptor) ;;
  error ← platformCall (acceptorOpen address);
  acceptorFailure StartFailure.ACCEPTOR_OPEN_FAILED error (
  error ← platformCall acceptorReuseAddress;
  acceptorFailure StartFailure.ACCEPTOR_OPEN_FAILED error (
  error ← platformCall (acceptorBind address (ServerConfig.listenPort c));
  acceptorFailure StartFailure.ACCEPTOR_BIND_FAILED error (
  let boundedBacklog := Z.min (ServerConfig.maximumConnections c) max_listen_connections in
  error ← platformCall (acceptorListen boundedBacklog);
  acceptorFailure StartFailure.ACCEPTOR_LISTEN_FAILED error (
  '(error, local) ← platformCall acceptorLocalEndpoint;
  acceptorFailure StartFailure.ACCEPTOR_LISTEN_FAILED error (
  modifyM (setServing true (Some (mkEndpoint local.1 local.2))) ;;
  modifyM acceptNext ;;
  mret (startResult StartFailure.NONE 0)))))).

(** The certificates, the middle part. *)
Definition startTls (address : string) (keyPath : path) : M (HttpsServer W) HttpsStaticServerStartResult :=
  s ← getM;
  let c := Server.configuration_ s in
  version ← platformCall setMinProtoVersion;
  failStart (bool_decide (version ≠ 1)) StartFailure.TLS_CONFIGURATION_FAILED 0 (
  platformCall setNoCompression ;;
  error ← platformCall (useCertificateChainFile (ServerConfig.certificateChainPath c));
  failStart (bool_decide (error ≠ 0)) StartFailure.CERTIFICATE_CHAIN_LOAD_FAILED error (
  error ← platformCall (usePrivateKeyFile keyPath);
  failStart (bool_decide (error ≠ 0)) StartFailure.PRIVATE_KEY_LOAD_FAILED error (
  checked ← platformCall checkPrivateKey;
  failStart (bool_decide (checked ≠ 1)) StartFailure.PRIVATE_KEY_LOAD_FAILED 0 (
  startAcceptor address)))).

(** The [try] block. *)
Definition startBody : M (HttpsServer W) HttpsStaticServerStartResult :=
  s ← getM;
  let c := Server.configuration_ s in
  '(error, address) ← platformCall (makeAddress (ServerConfig.listenAddress c));
  failStart (invalidConfiguration c error) StartFailure.INVALID_CONFIGURATION error (
  '(error, root) ← platformCall (canonicalPath (ServerConfig.staticAssetRoot c));
  modifyM (setStaticRoot root) ;;
  failStart (bool_decide (error ≠ 0)) StartFailure.STATIC_ASSET_ROOT_INVALID error (
  '(error, directory) ← platformCall (isDirectory root);
  failStart (negb directory || bool_decide (error ≠ 0)) StartFailure.STATIC_ASSET_ROOT_INVALID error (
  '(error, keyPath) ← platformCall (canonicalPath (ServerConfig.privateKeyPath c));
  failStart (bool_decide (error ≠ 0)) StartFailure.PRIVATE_KEY_LOAD_FAILED error (
  failStart (isWithinRoot root keyPath) StartFailure.PRIVATE_KEY_WITHIN_STATIC_ROOT 0 (
  startTls address keyPath))))).

(** [start], whose [catch (...)] stops the server. *)
Definition startServer s : HttpsStaticServerStartResult * HttpsServer W :=
  if Server.startedOnce_ s then (startResult StartFailure.ALREADY_STARTED 0, s)
  else
    match startBody (setStartedOnce s) with
    | (Ret result, s) => (result, s)
    | (Throw _, s) => (startResult StartFailure.INTERNAL_FAILURE 0, stopServer s)
    end.
End server.
