(* ===== verification/HttpsSessionInv.v ===== *)
(** * What the session's handlers do

    Every request is answered by one response, whose status has its [reason] in the
    request and in what the file system says; every other completion either launches
    the next operation under a fresh timer or stops the session. *)
From S2P Require Import Prelude Posix FixParser Paths EventJson StaticAssets HttpsSession.

(** ** Responses *)

(** A GET or HEAD that does not ask for another protocol. *)
Definition asks_for_asset (request : HttpRequest) : Prop :=
  Request.upgrade request = false ∧ (Request.method request = GET ∨ Request.method request = HEAD).

(** The path below the root that a target names: what it decodes to after the slash,
    or the index, unless that is an absolute path. *)
Definition names (target : text) (relative : path) : Prop :=
  ∃ decoded, decodeTargetPath target = Some decoded ∧
    relative = (if bool_decide (tail decoded = []) then "index.html"%string else of_chars (tail decoded)) ∧
    is_absolute relative = false.

(** What the calls on the file system give for a target, each on the world the one
    before left: the canonical form of the path it names, with every link resolved; the
    canonical path when it extends the root's element by element; that path when it is
    a regular file; and the file's size. *)
Section lookup.
Context {W : Type} `{AssetStore W} (root : path) (target : text) (w : W).

Definition canonical_of (result : Z * path) (w1 : W) : Prop :=
  ∃ relative, names target relative ∧ fsCanonical (join_path root relative) w = (result, w1).
Definition located (asset : path) (w1 : W) : Prop :=
  canonical_of (0, asset) w1 ∧ path_elements root `prefix_of` path_elements asset.
Definition regular_file (asset : path) (w2 : W) : Prop :=
  ∃ w1 e, located asset w1 ∧ fsIsRegularFile asset w1 = ((e, true), w2).
Definition measured (asset : path) (size : Z) (w3 : W) : Prop :=
  ∃ w2, regular_file asset w2 ∧ fsFileSize asset w2 = ((0, size), w3).

(** There is no such file. *)
Definition absent : Prop :=
  (∃ p w1, canonical_of (ENOENT, p) w1) ∨ (∃ asset w1 w2, located asset w1 ∧ fsIsRegularFile asset w1 = ((0, false), w2)).
(** The path leads out of the root. *)
Definition outside : Prop :=
  ∃ asset w1, canonical_of (0, asset) w1 ∧ (¬ path_elements root `prefix_of` path_elements asset).
(** One of the calls failed. *)
Definition lookup_failed : Prop := ∃ e, e ≠ 0 ∧
  ((e ≠ ENOENT ∧ ∃ p w1, canonical_of (e, p) w1) ∨
   (∃ asset w1 w2, located asset w1 ∧ fsIsRegularFile asset w1 = ((e, false), w2)) ∨
   (∃ asset size w2 w3, regular_file asset w2 ∧ fsFileSize asset w2 = ((e, size), w3))).
End lookup.

(** The asset's size exceeds the configured limit, or what a buffer can have. *)
Definition too_large (x : HttpsSession) (size : Z) : Prop := Session.maximumStaticAssetBytes_ x < size ∨ SIZE_MAX < size.

(** A file that is served: the canonical path of what the target names, under the root,
    a regular file within the limits, with the bytes that were read from it. *)
Definition served {W} `{AssetStore W} (x : HttpsSession) (request : HttpRequest) (w : W) (response : HttpResponse) : Prop :=
  asks_for_asset request ∧
  ∃ asset size w3, measured (Session.staticRoot_ x) (Request.target request) w asset size w3 ∧ (¬ too_large x size) ∧
    Response.contentLength response = size ∧ Response.contentType response = mimeType asset ∧
    Response.keepAlive response = Request.keepAlive request ∧
    (Request.method request = GET → ∃ data w4, fsReadFile asset size w3 = (Some data, w4) ∧
      if bool_decide (size = 0) then Response.body response = [] else data = Some (Response.body response)).

(** The GET of an asset whose bytes cannot be read. *)
Definition unreadable {W} `{AssetStore W} (x : HttpsSession) (request : HttpRequest) (w : W) : Prop :=
  Request.method request = GET ∧
  ∃ asset size w3 w4, measured (Session.staticRoot_ x) (Request.target request) w asset size w3 ∧ (¬ too_large x size) ∧
    (fsReadFile asset size w3 = (None, w4) ∨ size ≠ 0 ∧ fsReadFile asset size w3 = (Some None, w4)).

(** A refusal says why, and nothing else. *)
Definition says (request : HttpRequest) (response : HttpResponse) (message : string) : Prop :=
  Response.contentType response = "text/plain; charset=utf-8"%string ∧
  Response.contentLength response = Z.of_nat (length (chars message)) + 1 ∧
  Response.body response =
    (if bool_decide (Request.method request = HEAD) then [] else chars message ++ [Ascii.ascii_of_nat 10]).

(** Why a request gets its status. *)
Definition reason {W} `{AssetStore W} (x : HttpsSession) (request : HttpRequest) (w : W) (response : HttpResponse) : Prop :=
  let root := Session.staticRoot_ x in
  let target := Request.target request in
  match Response.status response with
  | Status.OK => served x request w response
  | Status.BAD_REQUEST => asks_for_asset request ∧ (¬ ∃ relative, names target relative) ∧
      says request response "Invalid request target"
  | Status.FORBIDDEN =>
      (Request.upgrade request = true ∧ Response.keepAlive response = false ∧
       says request response "WebSocket authentication is unavailable") ∨
      (asks_for_asset request ∧ outside root target w ∧ says request response "Asset is outside the configured root")
  | Status.NOT_FOUND => asks_for_asset request ∧ absent root target w ∧ says request response "Asset not found"
  | Status.METHOD_NOT_ALLOWED => Request.upgrade request = false ∧ Request.method request = OtherVerb ∧
      Response.allow response = Some "GET, HEAD"%string ∧ says request response "Only GET and HEAD are supported"
  | Status.PAYLOAD_TOO_LARGE => asks_for_asset request ∧ says request response "Asset exceeds the configured limit" ∧
      ∃ asset size w3, measured root target w asset size w3 ∧ too_large x size
  | Status.HEADER_FIELDS_TOO_LARGE => False
  | Status.INTERNAL_SERVER_ERROR => asks_for_asset request ∧ Response.keepAlive response = false ∧
      ((lookup_failed root target w ∧ says request response "Asset lookup failed") ∨
       (unreadable x request w ∧ says request response "Asset read failed"))
  end.

(** What a response is to its request, received with the file system in [w]. *)
Definition answer_of {W} `{AssetStore W} (x : HttpsSession) (request : HttpRequest) (w : W) (response : HttpResponse) : Prop :=
  Response.version response = Request.version request ∧
  (Request.method request = HEAD → Response.body response = []) ∧
  (Response.keepAlive response = true → Request.keepAlive request = true) ∧
  reason x request w response.

Lemma withinElements_prefix root candidate : withinElements root candidate = true ↔ root `prefix_of` candidate.
Proof.
  revert candidate. induction root as [|r root IH]; intros [|c candidate]; cbn [withinElements].
  - split; [intros _; apply prefix_nil|done].
  - split; [intros _; apply prefix_nil|done].
  - split; [done|intros Hp; by apply prefix_nil_not in Hp].
  - destruct (bool_decide_reflect (r ≠ c)) as [Hne|He].
    + split; [done|]. intros Hp. by apply prefix_cons_inv_1 in Hp.
    + apply dec_stable in He as ->. rewrite IH. split; [apply prefix_cons|apply prefix_cons_inv_2].
Qed.

Section facts.
Context {W : Type} `{AssetStore W}.
Implicit Types (s : Running W).

Definition with_store (w : W) s : Running W := mkRunning (session s) (actions s) w.

(** What the resolution of a target says. *)
Lemma resolveAsset_explained root target w asset w' : resolveAsset root target w = (asset, w') →
  match Resolution.failure asset with
  | Resolution.NONE => measured root target w (Resolution.assetPath asset) (Resolution.size asset) w'
  | Resolution.MALFORMED_TARGET => ¬ ∃ relative, names target relative
  | Resolution.OUTSIDE_ROOT => outside root target w
  | Resolution.NOT_REGULAR => absent root target w
  | Resolution.FILESYSTEM_FAILURE => lookup_failed root target w
  end.
Proof.
  unfold resolveAsset. destruct (decodeTargetPath target) as [decoded|] eqn:Ed.
  2:{ intros [= <- _]. intros (relative & decoded & E & _). congruence. }
  cbv zeta. set (relative := if bool_decide (of_chars (tail decoded) = ""%string) then _ else _).
  assert (Hrel : relative = if bool_decide (tail decoded = []) then "index.html"%string else of_chars (tail decoded)).
  { unfold relative. destruct (tail decoded) as [|ch rest]; [done|]. by rewrite !bool_decide_eq_false_2. }
  destruct (is_absolute relative) eqn:Eabs.
  { intros [= <- _]. intros (other & decoded' & E & -> & Hother). rewrite Ed in E. injection E as <-. congruence. }
  assert (Hnames : names target relative) by (by exists decoded).
  destruct (fsCanonical _ w) as [[e candidate] w1] eqn:Ec.
  assert (Hcanonical : canonical_of root target w (e, candidate) w1) by (by exists relative).
  destruct (bool_decide_reflect (e ≠ 0)) as [He|He].
  { intros [= <- _]. cbn. destruct (bool_decide_reflect (e = ENOENT)) as [Hent|Hent]; [left; subst e; by eexists _, _|].
    exists e. split; [done|]. left. split; [done|]. by eexists _, _. }
  apply dec_stable in He as ->. destruct (isWithinRoot root candidate) eqn:Ein; cbn [negb].
  2:{ intros [= <- _]. exists candidate, w1. split; [done|]. rewrite <-withinElements_prefix. unfold isWithinRoot in Ein. by rewrite Ein. }
  assert (Hlocated : located root target w candidate w1) by (split; [done|by apply withinElements_prefix]).
  destruct (fsIsRegularFile _ w1) as [[e1 regular] w2] eqn:Er. destruct regular; cbn [negb].
  2:{ intros [= <- _]. cbn. destruct (bool_decide_reflect (e1 ≠ 0)) as [He1|He1].
      - exists e1. split; [done|]. right. left. by eexists _, _, _.
      - apply dec_stable in He1 as ->. right. by eexists _, _, _. }
  assert (Hregular : regular_file root target w candidate w2) by (by exists w1, e1).
  destruct (fsFileSize _ w2) as [[e2 size] w3] eqn:Es. destruct (bool_decide_reflect (e2 ≠ 0)) as [He2|He2]; intros [= <- <-]; cbn.
  - exists e2. split; [done|]. right. right. by eexists _, _, _, _.
  - apply dec_stable in He2 as ->. by exists w2.
Qed.

(** Error responses *)
Lemma error_answers x request w status message keepAlive includeAllow :
  (keepAlive = true → Request.keepAlive request = true) →
  reason x request w (errorResponse status (chars message ++ [Ascii.ascii_of_nat 10]) (Request.version request) keepAlive
    (bool_decide (Request.method request = HEAD)) includeAllow) →
  answer_of x request w (errorResponse status (chars message ++ [Ascii.ascii_of_nat 10]) (Request.version request) keepAlive
    (bool_decide (Request.method request = HEAD)) includeAllow).
Proof. intros Hkeep Hreason. split_and!; [done| |done|done]. intros Hhead. cbn. by rewrite bool_decide_eq_true_2. Qed.

Lemma error_says request status message version keepAlive includeAllow :
  says request (errorResponse status (chars message ++ [Ascii.ascii_of_nat 10]) version keepAlive
    (bool_decide (Request.method request = HEAD)) includeAllow) message.
Proof. unfold says. cbn. split_and!; [done|rewrite length_app; cbn; lia|done]. Qed.

Lemma sendError_answers x request w status message keepAlive includeAllow s :
  (keepAlive = true → Request.keepAlive request = true) →
  reason x request w (errorResponse status (chars message ++ [Ascii.ascii_of_nat 10]) (Request.version request) keepAlive
    (bool_decide (Request.method request = HEAD)) includeAllow) →
  ∃ response, sendError status message (Request.version request) keepAlive (bool_decide (Request.method request = HEAD))
    includeAllow s = writeResponse response s ∧ answer_of x request w response.
Proof. intros. eexists. split; [reflexivity|]. by apply error_answers. Qed.

(** The bytes cannot be read. *)
Lemma unreadable_answers request w s w4 :
  asks_for_asset request → Request.method request ≠ HEAD → unreadable (session s) request w →
  ∃ response w', sendError Status.INTERNAL_SERVER_ERROR "Asset read failed" (Request.version request) false false false
    (with_store w4 s) = writeResponse response (with_store w' s) ∧ answer_of (session s) request w response.
Proof.
  intros Hasks Hhead Hu. eexists _, w4. split; [reflexivity|].
  pose proof (error_answers (session s) request w Status.INTERNAL_SERVER_ERROR "Asset read failed" false false ltac:(done)) as Ha.
  pose proof (error_says request Status.INTERNAL_SERVER_ERROR "Asset read failed" (Request.version request) false false) as Hsays.
  rewrite bool_decide_eq_false_2 in Ha by done. rewrite bool_decide_eq_false_2 in Hsays by done. apply Ha. split; [done|]. split; [done|]. by right.
Qed.

Lemma serveAsset_answers request asset w s : asks_for_asset request →
  measured (Session.staticRoot_ (session s)) (Request.target request) w (Resolution.assetPath asset) (Resolution.size asset) (store s) →
  ∃ response w', serveAsset request asset s = writeResponse response (with_store w' s) ∧ answer_of (session s) request w response.
Proof.
  intros Hasks Hm. unfold serveAsset.
  destruct (bool_decide (Session.maximumStaticAssetBytes_ (session s) < Resolution.size asset) ||
            bool_decide (SIZE_MAX < Resolution.size asset)) eqn:Elarge.
  { destruct (sendError_answers (session s) request w Status.PAYLOAD_TOO_LARGE "Asset exceeds the configured limit"
      (Request.keepAlive request) false s) as (response & -> & Ha); [done| |].
    - split; [done|]. split; [apply error_says|]. eexists _, _, _. split; [exact Hm|].
      apply orb_true_iff in Elarge as [?%bool_decide_eq_true|?%bool_decide_eq_true]; [by left|by right].
    - exists response, (store s). split; [by destruct s|done]. }
  assert (Hsmall : ¬ too_large (session s) (Resolution.size asset)).
  { apply orb_false_iff in Elarge as [?%bool_decide_eq_false ?%bool_decide_eq_false]. by intros [?|?]. }
  assert (Hread : ∀ response w', Response.version response = Request.version request →
    Response.status response = Status.OK → Response.contentLength response = Resolution.size asset →
    Response.contentType response = mimeType (Resolution.assetPath asset) →
    Response.keepAlive response = Request.keepAlive request → (Request.method request = HEAD → Response.body response = []) →
    (Request.method request = GET → ∃ data w4, fsReadFile (Resolution.assetPath asset) (Resolution.size asset) (store s) = (Some data, w4) ∧
      if bool_decide (Resolution.size asset = 0) then Response.body response = [] else data = Some (Response.body response)) →
    ∃ r w'', writeResponse response (with_store w' s) = writeResponse r (with_store w'' s) ∧ answer_of (session s) request w r).
  { intros response w' Hv Hok Hlen Htype Hkeep Hhead Hget. exists response, w'. split; [done|].
    unfold answer_of, reason. rewrite Hok, Hkeep. do 3 (split; [done|]). split; [done|]. by eexists _, _, _. }
  destruct (bool_decide_reflect (Request.method request = HEAD)) as [Hhead|Hhead].
  { apply Hread; (done || congruence). }
  destruct (fsReadFile _ _ _) as [[data|] w4] eqn:Eread.
  - destruct (bool_decide_reflect (Resolution.size asset = 0)) as [Hzero|Hzero]; [|destruct data as [data|]].
    + apply Hread; try done. intros _. eexists _, _. split; [reflexivity|]. done.
    + apply Hread; try done. intros _. eexists _, _. split; [reflexivity|]. done.
    + apply (unreadable_answers _ _ s w4); [done..|]. split; [by destruct Hasks as [_ []]|]. eexists _, _, _, w4. split; [exact Hm|]. split; [done|]. by right.
  - apply (unreadable_answers _ _ s w4); [done..|]. split; [by destruct Hasks as [_ []]|]. eexists _, _, _, w4. split; [exact Hm|]. split; [done|]. by left.
Qed.

Lemma handleRequest_answers request s :
  ∃ response w, handleRequest request s = writeResponse response (with_store w s) ∧
    answer_of (session s) request (store s) response.
Proof.
  unfold handleRequest. assert (Hs : s = with_store (store s) s) by (by destruct s).
  assert (Hsend : ∀ status message keepAlive includeAllow w, (keepAlive = true → Request.keepAlive request = true) →
    reason (session s) request (store s) (errorResponse status (chars message ++ [Ascii.ascii_of_nat 10])
      (Request.version request) keepAlive (bool_decide (Request.method request = HEAD)) includeAllow) →
    ∃ response w', sendError status message (Request.version request) keepAlive (bool_decide (Request.method request = HEAD))
      includeAllow (with_store w s) = writeResponse response (with_store w' s) ∧
      answer_of (session s) request (store s) response).
  { intros status message keepAlive includeAllow w Hkeep Hreason. eexists _, w. split; [reflexivity|]. by apply error_answers. }
  pose proof (λ status message keepAlive includeAllow, Hsend status message keepAlive includeAllow (store s)) as Hhere.
  rewrite <-Hs in Hhere. destruct (Request.upgrade request) eqn:Hup.
  { apply Hhere; [done|]. left. split_and!; [done|done|apply error_says]. }
  destruct (decide (Request.method request = OtherVerb)) as [Hother|Hverb].
  { rewrite !(bool_decide_eq_true_2 (Request.method request ≠ _)) by (by rewrite Hother). cbn [andb].
    apply Hhere; [done|]. split_and!; [done|done|done|apply error_says]. }
  assert (Hasks : asks_for_asset request) by (split; [done|]; destruct (Request.method request); [by left|by right|done]).
  assert (Hnot : bool_decide (Request.method request ≠ GET) && bool_decide (Request.method request ≠ HEAD) = false).
  { destruct Hasks as [_ [-> | ->]]; reflexivity. }
  rewrite Hnot. destruct (resolveAsset _ _ _) as [asset w] eqn:Er. apply resolveAsset_explained in Er.
  change (mkRunning (session s) (actions s) w) with (with_store w s).
  destruct (Resolution.failure asset); [by apply (serveAsset_answers request asset (store s) (with_store w s))|..];
    (apply Hsend; [done|]); unfold reason; cbn [Response.status errorResponse].
  - split_and!; [done|done|apply error_says].
  - right. split_and!; [done|done|apply error_says].
  - split_and!; [done|done|apply error_says].
  - split_and!; [done|done|left; split; [done|apply error_says]].
Qed.
End facts.

(** * The life of a session

    A session together with the operations its stream has not completed yet.  While it
    runs it waits for exactly one operation under an armed timer; once it is stopped
    nothing it hears changes it. *)

(** ** Operations in flight *)
Inductive Operation := Handshaking | Reading | Writing | ShuttingDown.
#[export] Instance Operation_eq_dec : EqDecision Operation.
Proof. solve_decision. Defined.

Definition launched_by (action : SessionAction) : option Operation :=
  match action with
  | AsyncHandshake => Some Handshaking
  | AsyncRead _ _ => Some Reading
  | AsyncWrite _ => Some Writing
  | AsyncShutdown => Some ShuttingDown
  | _ => None
  end.
Definition launched (log : list SessionAction) : list Operation := omap launched_by log.

(** The timer after these actions. *)
Definition armed (log : list SessionAction) : bool :=
  foldl (λ b action, match action with CancelTimer => false | ArmTimer _ => true | _ => b end) false log.

Definition completes (event : SessionEvent) : option Operation :=
  match event with
  | HandshakeCompleted _ => Some Handshaking
  | ReadCompleted _ => Some Reading
  | WriteCompleted _ => Some Writing
  | ShutdownCompleted => Some ShuttingDown
  | TimerCompleted _ => None
  end.

Record Link (W : Type) := mkLink { running : Running W; inflight : list Operation }.
Arguments mkLink {_} _ _.
Arguments running {_} _.
Arguments inflight {_} _.

Section life.
Context {W : Type} `{AssetStore W}.
Implicit Types (s : Running W) (l : Link W).

Definition advanceLink (f : Running W → Running W) (ops : list Operation) l : Link W :=
  mkLink (f (running l)) (ops ++ launched (drop (length (actions (running l))) (actions (f (running l))))).

(** An operation in flight completes, a timer wait does (whenever it was armed), or the
    owner stops the session. *)
Inductive link_step : Link W → Link W → Prop :=
  | operation_completes event op l before after :
      completes event = Some op → inflight l = before ++ op :: after →
      link_step l (advanceLink (handleEvent event) (before ++ after) l)
  | timer_completes error l : link_step l (advanceLink (handleEvent (TimerCompleted error)) (inflight l) l)
  | owner_stops l : link_step l (advanceLink (stopSession false) (inflight l) l).

(** A session that was just constructed. *)
Definition constructed s : Prop :=
  actions s = [] ∧ Session.stopped_ (session s) = false ∧ Session.closed_ (session s) = true ∧
  Session.parser_ (session s) = false ∧ Session.response_ (session s) = None.
Definition reachable_session l : Prop :=
  ∃ s, constructed s ∧ rtc link_step (advanceLink startSession [] (mkLink s [])) l.

(** ** The invariant *)

(** What a running session holds while it waits. *)
Definition holds (op : Operation) (x : HttpsSession) : Prop :=
  Session.stopped_ x = false ∧ Session.closed_ x = true ∧ Session.parser_ x = bool_decide (op = Reading) ∧
  (is_Some (Session.response_ x) ↔ op = Writing).
Definition released (x : HttpsSession) : Prop :=
  Session.stopped_ x = true ∧ Session.closed_ x = false ∧ Session.parser_ x = false ∧ Session.response_ x = None.

Definition count_of (action : SessionAction → bool) (log : list SessionAction) : nat := length (List.filter action log).
Definition is_close (action : SessionAction) : bool := match action with CloseSocket => true | _ => false end.
Definition is_notify (action : SessionAction) : bool := match action with NotifyOwner => true | _ => false end.

Definition waiting l : Prop :=
  ∃ op, inflight l = [op] ∧ holds op (session (running l)) ∧ armed (actions (running l)) = true ∧
    count_of is_close (actions (running l)) = 0%nat ∧ count_of is_notify (actions (running l)) = 0%nat.
Definition over l : Prop :=
  (length (inflight l) ≤ 1)%nat ∧ released (session (running l)) ∧ armed (actions (running l)) = false ∧
  count_of is_close (actions (running l)) = 1%nat ∧ (count_of is_notify (actions (running l)) ≤ 1)%nat.
Definition link_ok l : Prop := waiting l ∨ over l.

(** ** How the handlers move *)

(** The next operation, under a fresh timer. *)
Definition continues (op : Operation) s s' : Prop :=
  ∃ log, actions s' = actions s ++ log ∧ launched log = [op] ∧ armed (actions s') = true ∧
    count_of is_close log = 0%nat ∧ count_of is_notify log = 0%nat ∧ holds op (session s').
(** The end. *)
Definition finishes s s' : Prop :=
  ∃ log, actions s' = actions s ++ log ∧ launched log = [] ∧ armed (actions s') = false ∧
    count_of is_close log = 1%nat ∧ (count_of is_notify log ≤ 1)%nat ∧ released (session s').

Lemma armed_app log1 log2 : armed (log1 ++ log2) = foldl (λ b action, match action with CancelTimer => false | ArmTimer _ => true | _ => b end) (armed log1) log2.
Proof. unfold armed. apply foldl_app. Qed.

Lemma count_of_app f log1 log2 : count_of f (log1 ++ log2) = (count_of f log1 + count_of f log2)%nat.
Proof. unfold count_of. by rewrite List.filter_app, length_app. Qed.

(** Closes the goals on a concrete log. *)
Ltac concrete log := exists log; unfold launched, holds, released; cbn;
  rewrite <- ?app_assoc, ?armed_app; cbn; split_and!; (done || lia || split; (done || congruence || intros []; congruence)).

Lemma stopSession_finishes notify s : Session.stopped_ (session s) = false → finishes s (stopSession notify s).
Proof.
  intros Hs. unfold stopSession. rewrite Hs. destruct (notify && Session.closed_ (session s)).
  - concrete [CancelTimer; CloseSocket; NotifyOwner].
  - concrete [CancelTimer; CloseSocket].
Qed.

Lemma readRequest_continues s : Session.stopped_ (session s) = false → Session.closed_ (session s) = true →
  Session.response_ (session s) = None → continues Reading s (readRequest s).
Proof.
  intros Hs Hc Hr. unfold readRequest. rewrite Hs.
  concrete [CancelTimer; ArmTimer (Session.idleTimeout_ (session s));
    AsyncRead (wrap32 (Session.maximumHttpHeaderBytes_ (session s))) (Session.maximumHttpBodyBytes_ (session s))].
Qed.

Lemma shutdownTls_continues s : Session.stopped_ (session s) = false → Session.closed_ (session s) = true →
  Session.response_ (session s) = None → Session.parser_ (session s) = false → continues ShuttingDown s (shutdownTls s).
Proof.
  intros Hs Hc Hr Hp. unfold shutdownTls. rewrite Hs.
  concrete [CancelTimer; ArmTimer (Session.idleTimeout_ (session s)); AsyncShutdown].
Qed.

Lemma writeResponse_continues response s : Session.stopped_ (session s) = false → Session.closed_ (session s) = true →
  Session.parser_ (session s) = false → continues Writing s (writeResponse response s).
Proof.
  intros Hs Hc Hp. unfold writeResponse. concrete [CancelTimer; ArmTimer (Session.idleTimeout_ (session s)); AsyncWrite response].
Qed.

Lemma startSession_continues s : constructed s → continues Handshaking s (startSession s).
Proof.
  intros (Ha & Hs & Hc & Hp & Hr). unfold startSession.
  concrete [CancelTimer; ArmTimer (Session.tlsHandshakeTimeout_ (session s)); AsyncHandshake].
Qed.

(** The timer may be cancelled and the session updated before. *)
Lemma continues_after op s s1 s' : actions s1 = actions s ++ [CancelTimer] → continues op s1 s' → continues op s s'.
Proof.
  intros E (log & El & Hl & Ha & Hc & Hn & Hh). exists (CancelTimer :: log).
  rewrite El, E, <- app_assoc in *. by split_and!.
Qed.
Lemma finishes_after s s1 s' : actions s1 = actions s ++ [CancelTimer] → finishes s1 s' → finishes s s'.
Proof.
  intros E (log & El & Hl & Ha & Hc & Hn & Hh). exists (CancelTimer :: log).
  rewrite El, E, <- app_assoc in *. by split_and!.
Qed.

Lemma handler_moves event op s : holds op (session s) → completes event = Some op →
  (∃ op', continues op' s (handleEvent event s)) ∨ finishes s (handleEvent event s).
Proof.
  intros (Hs & Hc & Hp & Hr) E. destruct event as [error|result|error| |error]; try discriminate E; injection E as <-; cbn [handleEvent].
  - unfold onHandshake. rewrite Hs. assert (Hnone : Session.response_ (session s) = None).
    { destruct (Session.response_ (session s)); [|done]. by destruct Hr as [Hr _]; discriminate Hr. }
    destruct error.
    + right. by eapply finishes_after, stopSession_finishes.
    + left. exists Reading. by eapply continues_after, readRequest_continues.
  - unfold onRead. rewrite Hs. assert (Hnone : Session.response_ (session s) = None).
    { destruct (Session.response_ (session s)); [|done]. by destruct Hr as [Hr _]; discriminate Hr. }
    left. destruct result as [| | | |request].
    + exists ShuttingDown. by eapply continues_after, shutdownTls_continues.
    + exists Writing. by eapply continues_after, writeResponse_continues.
    + exists Writing. by eapply continues_after, writeResponse_continues.
    + exists Writing. by eapply continues_after, writeResponse_continues.
    + destruct (handleRequest_answers request (update (setParser false) (cancelTimer s))) as (response & w & -> & _).
      exists Writing. by eapply continues_after, writeResponse_continues.
  - unfold onWrite. rewrite Hs. destruct error.
    + right. by eapply finishes_after, stopSession_finishes.
    + left. destruct (Session.closeAfterWrite_ _).
      * exists ShuttingDown. by eapply continues_after, shutdownTls_continues.
      * exists Reading. by eapply continues_after, readRequest_continues.
  - right. by apply stopSession_finishes.
Qed.

(** A stopped session hears nothing. *)
Lemma stopped_deaf event s : Session.stopped_ (session s) = true → handleEvent event s = s.
Proof.
  intros Hs. destruct event as [| | | |[]]; cbn; unfold onHandshake, onRead, onWrite, stopSession; rewrite ?Hs; done.
Qed.
Lemma stopped_stop notify s : Session.stopped_ (session s) = true → stopSession notify s = s.
Proof. unfold stopSession. by intros ->. Qed.

(** ** Reachable sessions *)
Lemma advanceLink_log f ops l log : actions (f (running l)) = actions (running l) ++ log →
  inflight (advanceLink f ops l) = ops ++ launched log.
Proof. unfold advanceLink. cbn. intros ->. by rewrite drop_app_length. Qed.

Lemma waiting_continues f l op : waiting l → continues op (running l) (f (running l)) → waiting (advanceLink f [] l).
Proof.
  intros (op0 & _ & _ & _ & Hc & Hn) (log & El & Hl & Ha & Hc' & Hn' & Hh). exists op.
  rewrite (advanceLink_log _ _ _ log) by done. cbn [running advanceLink]. rewrite El, !count_of_app, <- El. split_and!; (done || lia).
Qed.
Lemma waiting_finishes f l ops : waiting l → (length ops ≤ 1)%nat → finishes (running l) (f (running l)) → over (advanceLink f ops l).
Proof.
  intros (op0 & _ & _ & _ & Hc & Hn) Hops (log & El & Hl & Ha & Hc' & Hn' & Hh). unfold over.
  rewrite (advanceLink_log _ _ _ log), Hl, app_nil_r by done. cbn [running advanceLink]. rewrite El, !count_of_app, <- El.
  split_and!; (done || lia).
Qed.
Lemma advance_unchanged f ops l : f (running l) = running l → advanceLink f ops l = mkLink (running l) ops.
Proof. unfold advanceLink. intros ->. by rewrite drop_all, app_nil_r. Qed.

Lemma over_unchanged f ops l : over l → f (running l) = running l → (length ops ≤ length (inflight l))%nat →
  over (advanceLink f ops l).
Proof.
  intros (Hops & Hrest) E Hle. rewrite advance_unchanged by done. unfold over in *. cbn. split; [lia|done].
Qed.

Lemma link_step_ok l l' : link_ok l → link_step l l' → link_ok l'.
Proof.
  intros [Hw|Ho] Hstep; destruct Hstep as [event op l before after He Hin|error l|l].
  - destruct Hw as (op0 & E & Hh & Hrest). assert (Hw : waiting l) by by exists op0. rewrite E in Hin.
    destruct before as [|o [|]]; [|done..]. injection Hin as <- <-. cbn [app].
    destruct (handler_moves _ _ _ Hh He) as [[op' Hmove]|Hmove]; [left; by eapply waiting_continues|right].
    by apply waiting_finishes; [|cbn; lia|].
  - destruct error; cbn [handleEvent].
    + left. rewrite advance_unchanged by done. by destruct l.
    + right. assert (Hw' := Hw). destruct Hw as (op0 & E & (Hs & _) & _). apply waiting_finishes; [done|rewrite E; cbn; lia|].
      by apply stopSession_finishes.
  - right. assert (Hw' := Hw). destruct Hw as (op0 & E & (Hs & _) & _). apply waiting_finishes; [done|rewrite E; cbn; lia|].
    by apply stopSession_finishes.
  - right. assert (Ho' := Ho). destruct Ho as (_ & (Hs & _) & _). apply over_unchanged; [done|by apply stopped_deaf|].
    rewrite Hin, !length_app. cbn. lia.
  - right. assert (Ho' := Ho). destruct Ho as (_ & (Hs & _) & _). by apply over_unchanged; [|apply stopped_deaf|].
  - right. assert (Ho' := Ho). destruct Ho as (_ & (Hs & _) & _). by apply over_unchanged; [|apply stopped_stop|].
Qed.

Lemma reachable_session_ok l : reachable_session l → link_ok l.
Proof.
  intros (s & Hs & Hsteps). assert (Hstart : link_ok (advanceLink startSession [] (mkLink s []))).
  { left. destruct (startSession_continues _ Hs) as (log & El & Hl & Ha & Hc & Hn & Hh). destruct Hs as (Hnil & _).
    exists Handshaking. rewrite (advanceLink_log _ _ _ log) by done. cbn [running advanceLink].
    rewrite Hnil in El. cbn [app] in El. rewrite El, <- El. split_and!; try done; by rewrite El. }
  induction Hsteps as [|l1 l2 l3 Hstep _ IH]; [done|]. by apply IH, (link_step_ok l1).
Qed.
End life.
