(* ===== verification/HttpsServerInv.v ===== *)
(** * The start of the server

    [start] either opens the server completely or leaves it closed: the rules for its
    early returns, its calls and its exceptions, put together along its three parts.
    Then the invariants of its sessions, its pending accept and its acceptor. *)
From S2P Require Import Prelude Paths StaticAssets HttpsServer.

Section facts.
Context {W : Type} `{ServerPlatform W}.
Implicit Types (s : HttpsServer W).

(** A server that was asked to start and does not serve. *)
Definition idle (c : HttpsStaticServerConfiguration) s : Prop :=
  Server.configuration_ s = c ∧ Server.localEndpoint_ s = None ∧ Server.sessions_ s = [] ∧ Server.startedOnce_ s = true ∧
  Server.ready_ s = false ∧ Server.acceptPending_ s = false ∧ Server.nextSession s = 0%nat ∧
  Forall (λ action, action = OpenAcceptor ∨ action = CloseAcceptor) (Server.actions s).
Definition fresh c log s : Prop := idle c s ∧ Server.actions s = log.
Definition rooted c log root s : Prop := fresh c log s ∧ Server.staticRoot_ s = root.

Definition withPlatform (w : W) s : HttpsServer W :=
  Server.mkServer (Server.configuration_ s) (Server.staticRoot_ s) (Server.localEndpoint_ s) (Server.sessions_ s)
    (Server.startedOnce_ s) (Server.ready_ s) (Server.acceptPending_ s) (Server.nextSession s) (Server.actions s) w.

(** Properties the platform does not touch. *)
Class Untouched (P : HttpsServer W → Prop) := untouched_call : ∀ w s, P s → P (withPlatform w s).
#[local] Instance fresh_untouched c log : Untouched (fresh c log).
Proof. by intros w s Hs. Qed.
#[local] Instance rooted_untouched c log root : Untouched (rooted c log root).
Proof. by intros w s Hs. Qed.

(** Properties that fix what was asked. *)
Class Logged (P : HttpsServer W → Prop) (log : list ServerAction) := logged_log : ∀ s, P s → Server.actions s = log.
#[local] Instance fresh_logged c log : Logged (fresh c log) log.
Proof. by intros s [_ E]. Qed.
#[local] Instance rooted_logged c log root : Logged (rooted c log root) log.
Proof. by intros s [[_ E] _]. Qed.

(** What a start that fails asks for after [log]: nothing before it opens the acceptor,
    and to close it again after that. *)
Definition failed_log (log : list ServerAction) (failure : StartFailure.HttpsStaticServerStartFailure)
    (log' : list ServerAction) : Prop :=
  match failure with
  | StartFailure.NONE | StartFailure.ALREADY_STARTED => False
  | StartFailure.INVALID_CONFIGURATION | StartFailure.STATIC_ASSET_ROOT_INVALID
  | StartFailure.CERTIFICATE_CHAIN_LOAD_FAILED | StartFailure.PRIVATE_KEY_LOAD_FAILED
  | StartFailure.PRIVATE_KEY_WITHIN_STATIC_ROOT | StartFailure.TLS_CONFIGURATION_FAILED => log' = log
  | StartFailure.ACCEPTOR_OPEN_FAILED | StartFailure.ACCEPTOR_BIND_FAILED | StartFailure.ACCEPTOR_LISTEN_FAILED =>
      log' = log ++ [OpenAcceptor; CloseAcceptor]
  | StartFailure.INTERNAL_FAILURE => log' = log ++ [CloseAcceptor] ∨ log' = log ++ [OpenAcceptor; CloseAcceptor]
  end.
(** What it asked for when an exception leaves it. *)
Definition thrown_log (log log' : list ServerAction) : Prop := log' = log ∨ log' = log ++ [OpenAcceptor].

(** After [log], from [P], the part returns NONE with [Q], or another result or an
    exception with the server idle. *)
Definition attempt (log : list ServerAction) (P Q : HttpsServer W → Prop)
    (m : M (HttpsServer W) HttpsStaticServerStartResult) : Prop :=
  ∀ s c, P s → idle c s →
    match m s with
    | (Ret r, s') =>
        (StartFailure.failure r = StartFailure.NONE → Q s') ∧
        (StartFailure.failure r ≠ StartFailure.NONE → idle c s' ∧ failed_log log (StartFailure.failure r) (Server.actions s'))
    | (Throw _, s') => idle c s' ∧ thrown_log log (Server.actions s')
    end.

Lemma attempt_state log P Q (k : HttpsServer W → M (HttpsServer W) HttpsStaticServerStartResult) :
  (∀ s, P s → attempt log (λ s', s' = s ∧ P s') Q (k s)) → attempt log P Q (s ← getM; k s).
Proof. intros Hk s c Hs. unfold mbind, M_bind. cbn. by apply Hk. Qed.

Lemma attempt_weaken log (P P' : HttpsServer W → Prop) Q m : (∀ s, P s → P' s) → attempt log P' Q m → attempt log P Q m.
Proof. intros HP Hm s c Hs. apply Hm. by apply HP. Qed.

Lemma attempt_call {A} log log' P Q (f : W → outcome A * W) k `{!Untouched P, !Logged P log'} : thrown_log log log' →
  (∀ a w w', f w = (Ret a, w') → attempt log P Q (k a)) → attempt log P Q (a ← platformCall f; k a).
Proof.
  intros Hlog Hk s c Hs Hi. unfold mbind, M_bind, platformCall.
  destruct (f (Server.platform s)) as [[a|e] w] eqn:E; [|split; [exact Hi|]; cbn; by rewrite (logged_log (P:=P) s Hs)].
  apply (Hk a _ _ E (withPlatform w s) c); [by apply untouched_call|exact Hi].
Qed.

(** A call before the acceptor is opened, and one after. *)
Lemma early_call {A} log P Q (f : W → outcome A * W) k `{!Untouched P, !Logged P log} :
  (∀ a w w', f w = (Ret a, w') → attempt log P Q (k a)) → attempt log P Q (a ← platformCall f; k a).
Proof. intros Hk. by eapply attempt_call; [..|left|]. Qed.
Lemma late_call {A} log P Q (f : W → outcome A * W) k `{!Untouched P, !Logged P (log ++ [OpenAcceptor])} :
  (∀ a w w', f w = (Ret a, w') → attempt log P Q (k a)) → attempt log P Q (a ← platformCall f; k a).
Proof. intros Hk. by eapply attempt_call; [..|right|]. Qed.

Lemma attempt_modify log P P' Q f m : (∀ s c, P s → idle c s → P' (f s) ∧ idle c (f s)) → attempt log P' Q m →
  attempt log P Q (modifyM f ;; m).
Proof. intros Hf Hm s c Hs Hi. unfold mbind, M_bind. cbn. destruct (Hf s c Hs Hi). by apply Hm. Qed.

Lemma attempt_fail log P Q bad failure error rest `{!Logged P log} : failure ≠ StartFailure.NONE →
  failed_log log failure log → (bad = false → attempt log P Q rest) → attempt log P Q (failStart bad failure error rest).
Proof.
  intros Hf Hlog Hr s c Hs Hi. unfold failStart. destruct bad; [|by apply Hr]. cbn. split; [done|]. intros _. split; [done|].
  by rewrite (logged_log s Hs).
Qed.

Lemma askServer_idle c a s : a = OpenAcceptor ∨ a = CloseAcceptor → idle c s → idle c (askServer a s).
Proof.
  intros Ha (Hc & He & Hs & Ho & Hr & Hp & Hn & Hlog). unfold idle. cbn. split_and!; try done.
  apply Forall_app. by split; [|apply Forall_singleton].
Qed.

Lemma attempt_acceptor log P Q failure error rest `{!Logged P (log ++ [OpenAcceptor])} : failure ≠ StartFailure.NONE →
  failed_log log failure (log ++ [OpenAcceptor; CloseAcceptor]) →
  (error = 0 → attempt log P Q rest) → attempt log P Q (acceptorFailure failure error rest).
Proof.
  intros Hf Hlog Hr s c Hs Hi. unfold acceptorFailure. destruct (bool_decide_reflect (error ≠ 0)) as [He|He].
  - cbn. split; [done|]. intros _. split; [by apply askServer_idle; [right|]|].
    change (failed_log log failure (Server.actions s ++ [CloseAcceptor])). by rewrite (logged_log (P:=P) s Hs), <-app_assoc.
  - apply dec_stable in He. by apply Hr.
Qed.

(** ** What an opened server went through *)
Definition opened c log s : Prop :=
  ∃ root key w w' endpoint s0,
    rooted c (log ++ [OpenAcceptor]) root s0 ∧ invalidConfiguration c 0 = false ∧
    canonicalPath (ServerConfig.privateKeyPath c) w = (Ret (0, key), w') ∧ isWithinRoot root key = false ∧
    s = acceptNext (setServing true (Some endpoint) s0).

Lemma startAcceptor_attempt c log root key w w' address :
  invalidConfiguration c 0 = false → canonicalPath (ServerConfig.privateKeyPath c) w = (Ret (0, key), w') →
  isWithinRoot root key = false → attempt log (rooted c log root) (opened c log) (startAcceptor address).
Proof.
  intros Hv Hk Hw. unfold startAcceptor. apply attempt_state. intros s Hs.
  apply (attempt_weaken _ _ (rooted c log root)); [by intros s' [_ Hs']|].
  apply (attempt_modify _ _ (rooted c (log ++ [OpenAcceptor]) root)).
  { intros s1 c1 [[Hi1 Hlog] Hroot] Hi. split; [|by apply askServer_idle; [left|]].
    split; [|done]. split; [by apply askServer_idle; [left|]|]. cbn. by rewrite Hlog. }
  apply late_call; [apply _..|intros open w1 w1' _]. apply attempt_acceptor; [apply _|done..|intros ->].
  apply late_call; [apply _..|intros reuse w2 w2' _]. apply attempt_acceptor; [apply _|done..|intros ->].
  apply late_call; [apply _..|intros bind w3 w3' _]. apply attempt_acceptor; [apply _|done..|intros ->].
  apply late_call; [apply _..|intros listen w4 w4' _]. apply attempt_acceptor; [apply _|done..|intros ->].
  apply late_call; [apply _..|intros [error local] w5 w5' _]. apply attempt_acceptor; [apply _|done..|intros ->].
  intros s1 c1 Hs1 _. cbn. split; [intros _|done]. by exists root, key, w, w', (mkEndpoint local.1 local.2), s1.
Qed.

Lemma startTls_attempt c log root key w w' address :
  invalidConfiguration c 0 = false → canonicalPath (ServerConfig.privateKeyPath c) w = (Ret (0, key), w') →
  isWithinRoot root key = false → attempt log (rooted c log root) (opened c log) (startTls address key).
Proof.
  intros Hv Hk Hw. unfold startTls. apply attempt_state. intros s Hs.
  apply (attempt_weaken _ _ (rooted c log root)); [by intros s' [_ Hs']|].
  apply early_call; [apply _..|intros version w1 w1' _]. apply attempt_fail; [apply _|done..|intros _].
  apply early_call; [apply _..|intros [] w2 w2' _].
  apply early_call; [apply _..|intros chain w3 w3' _]. apply attempt_fail; [apply _|done..|intros _].
  apply early_call; [apply _..|intros loaded w4 w4' _]. apply attempt_fail; [apply _|done..|intros _].
  apply early_call; [apply _..|intros checked w5 w5' _]. apply attempt_fail; [apply _|done..|intros _].
  by eapply startAcceptor_attempt.
Qed.

Lemma invalidConfiguration_address c error : invalidConfiguration c error = false → error = 0.
Proof.
  unfold invalidConfiguration. intros E. destruct (bool_decide_reflect (error ≠ 0)) as [|He]; [done|]. by apply dec_stable in He.
Qed.

Lemma startBody_attempt c log : attempt log (fresh c log) (opened c log) startBody.
Proof.
  unfold startBody. apply attempt_state. intros s Hs.
  apply (attempt_weaken _ _ (fresh c log)); [by intros s' [_ Hs']|]. destruct Hs as ((Hc & _) & _). rewrite Hc.
  apply early_call; [apply _..|intros [error address] w1 w1' _]. apply attempt_fail; [apply _|done..|intros Hv].
  rewrite (invalidConfiguration_address _ _ Hv) in Hv.
  apply early_call; [apply _..|intros [error1 root] w2 w2' _].
  apply (attempt_modify _ _ (rooted c log root)); [by intros s1 c1 Hs1 Hi1|]. apply attempt_fail; [apply _|done..|intros _].
  apply early_call; [apply _..|intros [error2 directory] w3 w3' _]. apply attempt_fail; [apply _|done..|intros _].
  apply early_call; [apply _..|intros [error3 key] w4 w4' Hkey]. apply attempt_fail; [apply _|done..|intros Herror%bool_decide_eq_false].
  apply attempt_fail; [apply _|done..|intros Hkey_outside]. apply dec_stable in Herror as ->.
  by eapply startTls_attempt.
Qed.

Lemma stopServer_idle c s : idle c s → idle c (stopServer s).
Proof.
  intros Hi. unfold stopServer. destruct Hi as (Hc & He & Hs & Ho & Hr & Hp & Hn & Ha). cbn. rewrite Hs. cbn.
  unfold idle. cbn. split_and!; try done. apply Forall_app. split; [done|]. apply Forall_singleton. by right.
Qed.

(** The two ways a first start ends. *)
Lemma startServer_ends s c log : fresh c log (setStartedOnce s) → Server.startedOnce_ s = false →
  let '(r, s') := startServer s in
  (StartFailure.failure r = StartFailure.NONE ∧ opened c log s') ∨
  (StartFailure.failure r ≠ StartFailure.NONE ∧ idle c s' ∧ failed_log log (StartFailure.failure r) (Server.actions s')).
Proof.
  intros Hf Ho. unfold startServer. rewrite Ho. assert (Hb := startBody_attempt c log (setStartedOnce s) c Hf (proj1 Hf)).
  destruct (startBody (setStartedOnce s)) as [[r|e] s'].
  - destruct Hb as [Hb1 Hb2]. destruct (decide (StartFailure.failure r = StartFailure.NONE)); [left|right]; auto.
  - right. destruct Hb as [Hi Hlog]. split; [done|]. split; [by apply stopServer_idle|].
    unfold stopServer. destruct Hi as (_ & _ & Hs & _). cbn. rewrite Hs. cbn.
    destruct Hlog as [-> | ->]; [by left|right]. by rewrite <-app_assoc.
Qed.

(** An opened server waits for its first connection. *)
Lemma opened_serves c log s : opened c log s → 0 ≤ ServerConfig.maximumConnections c →
  Server.configuration_ s = c ∧ Server.ready_ s = true ∧ is_Some (Server.localEndpoint_ s) ∧ Server.startedOnce_ s = true ∧
  Server.sessions_ s = [] ∧ Server.acceptPending_ s = true ∧ Server.nextSession s = 0%nat ∧ 
  Server.actions s = log ++ [OpenAcceptor; AsyncAccept] ∧ 0 < ServerConfig.maximumConnections c.
Proof.
  intros (root & key & w & w' & endpoint & s0 & [[(Hc & He & Hs & Ho & Hr & Hp & Hn & _) Ha] Hroot] & Hv & _ & _ & ->) Hmax.
  assert (Hpos : 0 < ServerConfig.maximumConnections c).
  { unfold invalidConfiguration in Hv. destruct (bool_decide_reflect (ServerConfig.maximumConnections c = 0)); [|lia].
    rewrite !orb_true_r in Hv. by cbn in Hv. }
  unfold acceptNext. cbn. rewrite Hs, Hp, Hc. cbn.
  rewrite bool_decide_eq_false_2 by lia. cbn. rewrite Ha, <-app_assoc. by split_and!.
Qed.
End facts.

(** * The life of the HTTPS server

    What happens to a server after it was constructed, and the invariant of its sessions
    and of its pending accept. *)

(** ** What happens to a server *)
Section life.
Context {W : Type} `{ServerPlatform W}.
Implicit Types (s : HttpsServer W).

(** Its owner starts or stops it, the accept it asked for completes, or a session
    reports that it closed. *)
Inductive server_step : HttpsServer W → HttpsServer W → Prop :=
  | owner_starts s : server_step s (startServer s).2
  | owner_stops_server s : server_step s (stopServer s)
  | accept_completes error s : Server.acceptPending_ s = true → server_step s (acceptCompleted error s)
  | session_reports id s : server_step s (sessionClosed id s).

Definition reachable_server c s : Prop := ∃ w, rtc server_step (newServer c w) s.

(** ** The invariant *)

(** The sessions there are and the one that may be accepted next. *)
Definition expected s : Z := Z.of_nat (length (Server.sessions_ s)) + Z.b2z (Server.acceptPending_ s).
Definition full s : Prop := Z.of_nat (length (Server.sessions_ s)) = ServerConfig.maximumConnections (Server.configuration_ s).

Definition sessions_ok s : Prop :=
  NoDup (Server.sessions_ s) ∧
  (∀ id, StartSession id ∈ Server.actions s ↔ (id < Server.nextSession s)%nat) ∧
  (∀ id, id ∈ Server.sessions_ s → StartSession id ∈ Server.actions s) ∧
  (∀ id, StopSession id ∈ Server.actions s → (id ∉ Server.sessions_ s) ∧ (id < Server.nextSession s)%nat).
Definition serving_ok s : Prop :=
  (Server.ready_ s = true ↔ is_Some (Server.localEndpoint_ s)) ∧
  (Server.ready_ s = true → Server.startedOnce_ s = true ∧ (Server.acceptPending_ s = true ∨ full s)) ∧
  (Server.startedOnce_ s = false → idle (Server.configuration_ s) (setStartedOnce s)).
Definition server_ok c s : Prop :=
  Server.configuration_ s = c ∧ expected s ≤ ServerConfig.maximumConnections c ∧ sessions_ok s ∧ serving_ok s.

(** What stays the same while a server does not accept. *)
Definition same_log (log log' : list ServerAction) : Prop :=
  (∀ id, StartSession id ∈ log' ↔ StartSession id ∈ log) ∧ (∀ id, StopSession id ∈ log' ↔ StopSession id ∈ log).

Lemma same_log_app log a : (∀ id, a ≠ StartSession id ∧ a ≠ StopSession id) → same_log log (log ++ [a]).
Proof.
  intros Ha. split; intros id; rewrite elem_of_app, list_elem_of_singleton; split; [|by left| |by left];
    intros [Hin|E]; try done; exfalso; [apply (proj1 (Ha id))|apply (proj2 (Ha id))]; congruence.
Qed.

Lemma sessions_ok_log s s' : Server.sessions_ s' = Server.sessions_ s → Server.nextSession s' = Server.nextSession s →
  same_log (Server.actions s) (Server.actions s') → sessions_ok s → sessions_ok s'.
Proof.
  unfold sessions_ok. intros -> -> [Hstart Hstop] (Hd & Hs & Hin & Ho). split_and!; [done|..].
  - intros id. by rewrite Hstart.
  - intros id Hid. by apply Hstart, Hin.
  - intros id Hid. by apply Ho, Hstop.
Qed.

(** *** Accepting *)

(** Only the accept may be missing. *)
Definition almost_ok c s : Prop :=
  Server.configuration_ s = c ∧ expected s ≤ ServerConfig.maximumConnections c ∧ sessions_ok s ∧
  (Server.ready_ s = true ↔ is_Some (Server.localEndpoint_ s)) ∧
  (Server.ready_ s = true → Server.startedOnce_ s = true) ∧
  (Server.startedOnce_ s = false → idle (Server.configuration_ s) (setStartedOnce s)).

Lemma acceptNext_ok c s : almost_ok c s → server_ok c (acceptNext s).
Proof.
  intros (Hc & He & Hs & Hr & Ho & Hi). unfold acceptNext.
  destruct (Server.ready_ s) eqn:Er; cbn [negb orb]; cycle 1.
  { split_and!; try done. split_and!; [by rewrite Er|by rewrite Er|done]. }
  destruct (bool_decide_reflect (ServerConfig.maximumConnections (Server.configuration_ s) ≤ Z.of_nat (length (Server.sessions_ s))))
    as [Hfull|Hroom]; cbn [orb].
  { split_and!; try done. split_and!; [by rewrite Er| |done]. intros _. split; [by apply Ho|right].
    unfold full. rewrite Hc in *. unfold expected in He. destruct (Server.acceptPending_ s); cbn in He; lia. }
  destruct (Server.acceptPending_ s) eqn:Ep.
  { split_and!; try done. split_and!; [by rewrite Er| |done]. intros _. split; [by apply Ho|by left]. }
  split_and!; [done|unfold expected; cbn; rewrite <- Hc; lia| |].
  - eapply sessions_ok_log, Hs; [done|done|]. by apply same_log_app.
  - split_and!; cbn; [by rewrite Er|auto|]. intros E. rewrite Ho in E by done. done.
Qed.

Lemma acceptCompleted_ok c error s : Server.acceptPending_ s = true → server_ok c s → server_ok c (acceptCompleted error s).
Proof.
  intros Hp (Hc & He & Hs & Hr & Hready & Hi). unfold acceptCompleted, onAccept. cbn [Server.ready_ setAcceptPending].
  unfold expected in He. rewrite Hp in He. cbn in He.
  destruct (Server.ready_ s) eqn:Er; cbn [negb]; cycle 1.
  { split_and!; [done|unfold expected; cbn; lia|by eapply sessions_ok_log, Hs|]. split_and!; cbn; [by rewrite Er|by rewrite Er|].
    intros E. destruct (Hi E) as (_ & _ & _ & _ & _ & E' & _). cbn in E'. congruence. }
  destruct (Hready eq_refl) as [Ho _]. destruct error.
  { split_and!; [done|unfold expected; cbn; lia| |].
    - eapply sessions_ok_log, Hs; [done|done|]. by apply same_log_app.
    - split_and!; cbn; [by split; [|intros []]|done|]. intros E. congruence. }
  apply acceptNext_ok. split_and!; cbn; try done.
  - unfold expected. cbn. rewrite length_app. cbn. lia.
  - destruct Hs as (Hd & Hstart & Hin & Hstop). unfold sessions_ok. cbn.
    assert (Hnew : Server.nextSession s ∉ Server.sessions_ s) by (intros Hx%Hin%Hstart; lia).
    split_and!.
    + apply NoDup_app. split_and!; [done| |apply NoDup_singleton]. intros id Hid ->%list_elem_of_singleton. done.
    + intros id. rewrite elem_of_app, list_elem_of_singleton, Hstart. split; [intros [?|[= ->]]; lia|].
      intros Hlt. destruct (decide (id = Server.nextSession s)) as [-> |]; [by right|left; lia].
    + intros id. rewrite !elem_of_app, !list_elem_of_singleton. intros [Hid| ->]; [left; by apply Hin|by right].
    + intros id. rewrite !elem_of_app, !list_elem_of_singleton. intros [Hid|]; [|done]. destruct (Hstop id Hid) as [H1 H2].
      split; [|lia]. intros [|]; [done|lia].
  - by rewrite Er.
  - intros E. congruence.
Qed.

Lemma sessionClosed_ok c id s : server_ok c s → server_ok c (sessionClosed id s).
Proof.
  intros (Hc & He & (Hd & Hstart & Hin & Hstop) & Hr & Hready & Hi). unfold sessionClosed. apply acceptNext_ok.
  split_and!; cbn; try done.
  - unfold expected in *. cbn. pose proof (length_filter (λ x, x ≠ id) (Server.sessions_ s)). lia.
  - unfold sessions_ok. cbn. split_and!; [by apply NoDup_filter|done| |].
    + intros x Hx. apply list_elem_of_filter in Hx as [_ Hx]. by apply Hin.
    + intros x Hx. destruct (Hstop x Hx) as [H1 H2]. split; [|done]. intros Hx'. by apply list_elem_of_filter in Hx' as [_ Hx'].
  - intros E. by apply Hready.
  - intros E. destruct (Hi E) as (H1 & H2 & H3 & H4). cbn in H3. split_and!; cbn; try apply H4; try done. by rewrite H3.
Qed.

(** *** Stopping and starting *)
Lemma stop_all_log ids s :
  foldl (λ s id, askServer (StopSession id) s) s ids =
  Server.mkServer (Server.configuration_ s) (Server.staticRoot_ s) (Server.localEndpoint_ s) (Server.sessions_ s)
    (Server.startedOnce_ s) (Server.ready_ s) (Server.acceptPending_ s) (Server.nextSession s)
    (Server.actions s ++ (StopSession <$> ids)) (Server.platform s).
Proof.
  revert s. induction ids as [|id ids IH]; intros s; cbn; [by rewrite app_nil_r; destruct s|].
  rewrite IH. cbn. by rewrite <- app_assoc.
Qed.

Lemma stopServer_state s :
  stopServer s =
  Server.mkServer (Server.configuration_ s) (Server.staticRoot_ s) None [] (Server.startedOnce_ s) false (Server.acceptPending_ s)
    (Server.nextSession s) (Server.actions s ++ CloseAcceptor :: (StopSession <$> Server.sessions_ s)) (Server.platform s).
Proof. unfold stopServer. rewrite stop_all_log. cbn. by rewrite <- app_assoc. Qed.

Lemma stopServer_ok c s : server_ok c s → server_ok c (stopServer s).
Proof.
  intros (Hc & He & (Hd & Hstart & Hin & Hstop) & Hr & Hready & Hi). split_and!.
  - by rewrite stopServer_state.
  - rewrite stopServer_state. unfold expected in *. cbn. lia.
  - rewrite stopServer_state. unfold sessions_ok. cbn. split_and!; [apply NoDup_nil_2| |intros id Hid; by apply elem_of_nil in Hid|].
    + intros id. rewrite elem_of_app, elem_of_cons, Hstart. split; [|by left]. intros [|[|Hx]]; [done|done|].
      apply list_elem_of_fmap in Hx as (y & E & _). done.
    + intros id Hid. split; [apply not_elem_of_nil|]. apply elem_of_app in Hid as [Hid|Hid]; [by apply Hstop|].
      apply elem_of_cons in Hid as [|Hid]; [done|]. apply list_elem_of_fmap in Hid as (y & [= ->] & Hy). by apply Hstart, Hin.
  - split_and!; [rewrite stopServer_state; by split; [|intros []]|by rewrite stopServer_state|].
    intros E. rewrite stopServer_state in E. cbn in E. specialize (Hi E). apply stopServer_idle in Hi.
    rewrite stopServer_state in Hi |- *. exact Hi.
Qed.

Lemma idle_ok c s : idle c s → 0 ≤ ServerConfig.maximumConnections c → server_ok c s.
Proof.
  intros (Hc & He & Hs & Ho & Hr & Hp & Hn & Ha) Hmax. rewrite Forall_forall in Ha. split_and!.
  - done.
  - unfold expected. rewrite Hs, Hp. cbn. lia.
  - unfold sessions_ok. rewrite Hs, Hn. split_and!; [apply NoDup_nil_2| | |].
    + intros id. split; [intros Hid; by destruct (Ha _ Hid)|lia].
    + intros id Hid. by apply elem_of_nil in Hid.
    + intros id Hid. by destruct (Ha _ Hid).
  - split_and!; [rewrite Hr, He; by split; [|intros []]|by rewrite Hr|by rewrite Ho].
Qed.

Lemma opened_ok c log s : opened c log s → Forall (λ action, action = OpenAcceptor ∨ action = CloseAcceptor) log →
  0 ≤ ServerConfig.maximumConnections c → server_ok c s.
Proof.
  intros Ho Hlog Hmax. rewrite Forall_forall in Hlog.
  destruct (opened_serves _ _ _ Ho Hmax) as (Hc & Hr & He & Hst & Hs & Hp & Hn & Ha & Hpos). split_and!.
  - done.
  - unfold expected. rewrite Hs, Hp. cbn. lia.
  - unfold sessions_ok. rewrite Hs, Hn, Ha.
    assert (Hother : ∀ a, a ∈ log ++ [OpenAcceptor; AsyncAccept] → a = OpenAcceptor ∨ a = CloseAcceptor ∨ a = AsyncAccept).
    { intros a [Hx|[-> |[-> |[]%elem_of_nil]%elem_of_cons]%elem_of_cons]%elem_of_app; [|auto..].
      destruct (Hlog a Hx); auto. }
    split_and!; [apply NoDup_nil_2| | |].
    + intros id. split; [intros Hid; by destruct (Hother _ Hid) as [|[]]|lia].
    + intros id Hid. by apply elem_of_nil in Hid.
    + intros id Hid. by destruct (Hother _ Hid) as [|[]].
  - split_and!; [by rewrite Hr|intros _; by split; [|left]|by rewrite Hst].
Qed.

Lemma idle_fresh c s : Server.configuration_ s = c → idle (Server.configuration_ s) (setStartedOnce s) →
  fresh c (Server.actions s) (setStartedOnce s).
Proof. by intros <- Hi. Qed.

Lemma startServer_ok c s : 0 ≤ ServerConfig.maximumConnections c → server_ok c s → server_ok c (startServer s).2.
Proof.
  intros Hmax Hok. destruct (Server.startedOnce_ s) eqn:Eo; [unfold startServer; by rewrite Eo|].
  destruct Hok as (Hc & _ & _ & _ & _ & Hi). specialize (Hi Eo).
  pose proof (startServer_ends s c _ (idle_fresh c s Hc Hi) Eo) as Hends. destruct (startServer s) as [r s'].
  destruct Hends as [[_ Hopen]|(_ & Hidle & _)]; cbn [snd].
  - eapply opened_ok; [done| |done]. apply Hi.
  - by apply idle_ok.
Qed.

Lemma newServer_ok c w : 0 ≤ ServerConfig.maximumConnections c → server_ok c (newServer c w).
Proof.
  intros Hmax. split_and!; [done|unfold expected; cbn; lia| |].
  - unfold sessions_ok. cbn. split_and!; [apply NoDup_nil_2| | |]; intros id; [|by intros Hid%elem_of_nil|by intros Hid%elem_of_nil].
    split; [by intros Hid%elem_of_nil|lia].
  - split_and!; [by split; [|intros []]|done|]. intros _. by split_and!.
Qed.

Lemma server_step_ok c s s' : 0 ≤ ServerConfig.maximumConnections c → server_ok c s → server_step s s' → server_ok c s'.
Proof.
  intros Hmax Hok Hstep. destruct Hstep as [s0|s0|error s0 Hp|id s0].
  - by apply startServer_ok.
  - by apply stopServer_ok.
  - by apply acceptCompleted_ok.
  - by apply sessionClosed_ok.
Qed.

Lemma reachable_server_ok c s : 0 ≤ ServerConfig.maximumConnections c → reachable_server c s → server_ok c s.
Proof.
  intros Hmax (w & Hsteps). assert (Hok := newServer_ok c w Hmax).
  induction Hsteps as [|s1 s2 s3 Hstep _ IH]; [done|]. by eapply IH, server_step_ok.
Qed.

(** *** The acceptor *)

(** Whether these actions leave the acceptor open. *)
Definition acceptor_open (log : list ServerAction) : bool :=
  foldl (λ b action, match action with OpenAcceptor => true | CloseAcceptor => false | _ => b end) false log.

Lemma acceptor_open_app log log' : acceptor_open (log ++ log') =
  foldl (λ b action, match action with OpenAcceptor => true | CloseAcceptor => false | _ => b end) (acceptor_open log) log'.
Proof. unfold acceptor_open. apply foldl_app. Qed.

Lemma acceptor_open_stops log ids : acceptor_open (log ++ CloseAcceptor :: (StopSession <$> ids)) = false.
Proof. rewrite acceptor_open_app. cbn. by induction ids. Qed.

(** A start that fails leaves it closed. *)
Lemma failed_log_closed log failure log' : acceptor_open log = false → failed_log log failure log' → acceptor_open log' = false.
Proof.
  intros Hlog. destruct failure; cbn; try done; (intros -> || intros [-> | ->]); try done; by rewrite acceptor_open_app.
Qed.

(** It is open exactly while the server is ready. *)
Definition acceptor_follows s : Prop := acceptor_open (Server.actions s) = Server.ready_ s.

Lemma acceptNext_follows s : acceptor_follows s → acceptor_follows (acceptNext s).
Proof.
  intros Hs. unfold acceptNext. destruct (negb _ || _ || _); [done|]. unfold acceptor_follows. cbn. by rewrite acceptor_open_app.
Qed.

Lemma server_step_follows c s s' : 0 ≤ ServerConfig.maximumConnections c → server_ok c s → acceptor_follows s →
  server_step s s' → acceptor_follows s'.
Proof.
  intros Hmax (Hc & _ & _ & _ & _ & Hi) Hs Hstep. destruct Hstep as [s|s|error s Hp|id s].
  - destruct (Server.startedOnce_ s) eqn:Eo; [unfold startServer; by rewrite Eo|]. specialize (Hi eq_refl).
    pose proof (startServer_ends s c _ (idle_fresh c s Hc Hi) Eo) as Hends. destruct (startServer s) as [r s']. cbn [snd].
    destruct Hi as (_ & _ & _ & _ & Hr & _). unfold acceptor_follows in *. cbn in Hr. rewrite Hr in Hs.
    destruct Hends as [[_ Hopen]|(_ & (_ & _ & _ & _ & Hr' & _) & Hlog)].
    + destruct (opened_serves _ _ _ Hopen Hmax) as (_ & -> & _ & _ & _ & _ & _ & -> & _). by rewrite acceptor_open_app.
    + rewrite Hr'. by eapply failed_log_closed.
  - unfold acceptor_follows. rewrite stopServer_state. apply acceptor_open_stops.
  - unfold acceptCompleted, onAccept. destruct (negb _) eqn:Er; [done|]. destruct error.
    + unfold acceptor_follows. cbn. by rewrite acceptor_open_app.
    + apply acceptNext_follows. unfold acceptor_follows in *. cbn. by rewrite acceptor_open_app.
  - by apply acceptNext_follows.
Qed.

Lemma reachable_server_follows c s : 0 ≤ ServerConfig.maximumConnections c → reachable_server c s → acceptor_follows s.
Proof.
  intros Hmax (w & Hsteps). assert (Hok := newServer_ok c w Hmax).
  assert (Hs : acceptor_follows (newServer c w)) by done. revert Hok Hs.
  induction Hsteps as [|s1 s2 s3 Hstep _ IH]; [done|]. intros Hok Hs. apply IH; [by eapply server_step_ok|by eapply server_step_follows].
Qed.

(** *** After the end *)

(** A server that was started and does not serve any more. *)
Definition retired s : Prop := Server.startedOnce_ s = true ∧ Server.ready_ s = false.

Lemma retired_step s s' : retired s → server_step s s' →
  retired s' ∧ Server.nextSession s' = Server.nextSession s ∧ (AsyncAccept ∈ Server.actions s' → AsyncAccept ∈ Server.actions s).
Proof.
  intros [Ho Hr] Hstep. destruct Hstep as [s0|s0|error s0 Hp|id s0].
  - unfold startServer. rewrite Ho. by split_and!.
  - rewrite stopServer_state. split_and!; [done|done|]. cbn. rewrite elem_of_app, elem_of_cons. intros [|[|Hx]]; [done|done|].
    apply list_elem_of_fmap in Hx as (y & E & _). done.
  - unfold acceptCompleted, onAccept. cbn. rewrite Hr. by split_and!.
  - unfold sessionClosed, acceptNext. cbn. rewrite Hr. by split_and!.
Qed.

Lemma retired_forever s s' : retired s → rtc server_step s s' →
  retired s' ∧ Server.nextSession s' = Server.nextSession s ∧ (AsyncAccept ∈ Server.actions s' → AsyncAccept ∈ Server.actions s).
Proof.
  intros Hr Hsteps. induction Hsteps as [|s1 s2 s3 Hstep _ IH]; [by split_and!|].
  destruct (retired_step _ _ Hr Hstep) as (Hr2 & E & Ha). destruct (IH Hr2) as (Hr3 & E3 & Ha3).
  split_and!; [done|congruence|auto].
Qed.
End life.
