(* ===== verification/HttpsServerTheorems.v ===== *)
(** * What a client of the HTTPS server can rely on

    The two properties of a session (what it answers and why, and that it cannot hang),
    and those of the server for its owner. *)
From S2P Require Import Prelude Posix FixParser Paths EventJson StaticAssets HttpsSession HttpsServer.
From S2P Require Import HttpsSessionInv HttpsServerInv.

(** A file system with one page under the root and a link that leads out of it. *)
Definition demoRoot : path := "/srv/www".
Definition demoPage : path := "/srv/www/index.html".
#[local] Instance demo_store : AssetStore unit := {|
  fsCanonical := λ p w,
    if bool_decide (p = demoPage) then ((0, demoPage), w)
    else if bool_decide (p = "/srv/www/keys"%string) then ((0, "/etc/keys"%string), w)
    else ((ENOENT, ""%string), w);
  fsIsRegularFile := λ p w, ((0, true), w);
  fsFileSize := λ p w, ((0, 2), w);
  fsReadFile := λ p n w, (Some (Some (chars "hi")), w) |}.
Definition demoSession : Running unit :=
  mkRunning (Session.mkSession 8192 4096 1048576 5000 30000 demoRoot true false None false false) [] ().
Definition getRequest (target : string) : HttpRequest := Request.mkRequest GET (chars target) 11 true false.
Definition statusOf (s : Running unit) : option HttpStatus := Response.status <$> Session.response_ (session s).

Example demo_statuses :
  (λ target, statusOf (handleRequest (getRequest target) demoSession)) <$> ["/"; "/keys"; "/absent"; "/%2e%2e/keys"]%string =
  [Some Status.OK; Some Status.FORBIDDEN; Some Status.NOT_FOUND; Some Status.BAD_REQUEST].
Proof. vm_compute. reflexivity. Qed.

(** C38: a request is answered once, only for its reason and only with what lies under
    the root.  The handler sends exactly one response under a fresh timer and leaves
    the session running; the response has the request's version, has no body for
    HEAD, keeps the connection only when the request asked for that, and the session
    closes after it otherwise.  Each status has its reason in the request and in what
    the file system says, each call on the state the one before left: 200 only for a
    GET or HEAD without an upgrade whose target decodes to a relative path, when
    [canonical] of that path under the root succeeds, the canonical path extends the
    root's element by element and is a regular file within the limits, and then with
    the media type, the size and, for GET, the bytes of that canonical path; 403 for
    an upgrade or a canonical path outside the root; 404 when there is no such regular
    file; 413 when it is too large; 500 when a call or the read failed; 400 for a target
    that names no relative path; 405 for another method.  Every answer but a 200 holds
    a fixed text, and nothing from the file system. *)
Theorem requests_are_answered_within_the_root {W} `{AssetStore W} (request : HttpRequest) (s : Running W) :
  ∃ response,
    actions (handleRequest request s) =
      actions s ++ [CancelTimer; ArmTimer (Session.idleTimeout_ (session s)); AsyncWrite response] ∧
    Session.response_ (session (handleRequest request s)) = Some response ∧
    Session.closeAfterWrite_ (session (handleRequest request s)) = negb (Response.keepAlive response) ∧
    Session.stopped_ (session (handleRequest request s)) = Session.stopped_ (session s) ∧
    answer_of (session s) request (store s) response.
Proof.
  destruct (handleRequest_answers request s) as (response & w & -> & Ha). exists response.
  cbn. by rewrite <- !app_assoc.
Qed.

(** The page is served, and the link is refused because its canonical path leads out. *)
Lemma requests_are_answered_within_the_root_witness :
  (∃ response, Session.response_ (session (handleRequest (getRequest "/") demoSession)) = Some response ∧
     Response.body response = chars "hi" ∧ served (session demoSession) (getRequest "/") () response) ∧
  (∃ response, Session.response_ (session (handleRequest (getRequest "/keys") demoSession)) = Some response ∧
     outside demoRoot (chars "/keys") ()).
Proof.
  split.
  - destruct (requests_are_answered_within_the_root (getRequest "/") demoSession) as (response & _ & E & _ & _ & _ & _ & _ & Hreason).
    assert (Hs : statusOf (handleRequest (getRequest "/") demoSession) = Some Status.OK) by (vm_compute; reflexivity).
    assert (Hb : Response.body <$> Session.response_ (session (handleRequest (getRequest "/") demoSession)) = Some (chars "hi"))
      by (vm_compute; reflexivity).
    unfold statusOf in Hs. rewrite E in Hs, Hb. cbn in Hs, Hb. injection Hs as Hs. injection Hb as Hb.
    unfold reason in Hreason. rewrite Hs in Hreason. exists response. exact (conj E (conj Hb Hreason)).
  - destruct (requests_are_answered_within_the_root (getRequest "/keys") demoSession) as (response & _ & E & _ & _ & _ & _ & _ & Hreason).
    assert (Hs : statusOf (handleRequest (getRequest "/keys") demoSession) = Some Status.FORBIDDEN) by (vm_compute; reflexivity).
    unfold statusOf in Hs. rewrite E in Hs. cbn in Hs. injection Hs as Hs.
    unfold reason in Hreason. rewrite Hs in Hreason. exists response. split; [exact E|].
    destruct Hreason as [(Hup & _)|(_ & Hout & _)]; [discriminate Hup|exact Hout].
Defined.

(** C39: a session never waits without a deadline and never acts after its end.  In every
    state a session reaches, whatever its stream, its timer and its owner do: while it
    is not stopped exactly one operation is in flight, the timer is armed, the
    response is there precisely while it is being written, and the timer's expiry
    stops it; once it is stopped its socket was closed once, its owner was told at
    most once, no timer is armed, at most the operation it was waiting for is still to
    complete, and no completion changes anything or starts anything. *)
Theorem session_always_waits_with_a_deadline {W} `{AssetStore W} (l : Link W) (Hl : reachable_session l) :
  let s := running l in
  (Session.stopped_ (session s) = false →
    (∃ op, inflight l = [op] ∧ (is_Some (Session.response_ (session s)) ↔ op = Writing)) ∧
    armed (actions s) = true ∧ count_of is_close (actions s) = 0%nat ∧
    Session.stopped_ (session (handleEvent (TimerCompleted false) s)) = true) ∧
  (Session.stopped_ (session s) = true →
    (length (inflight l) ≤ 1)%nat ∧ armed (actions s) = false ∧ count_of is_close (actions s) = 1%nat ∧
    (count_of is_notify (actions s) ≤ 1)%nat ∧ ∀ event, handleEvent event s = s).
Proof.
  cbn zeta. destruct (reachable_session_ok l Hl) as [(op & E & Hh & Ha & Hc & _)|(E & (Hs & _) & Ha & Hc & Hn)].
  - assert (Hs := Hh). destruct Hs as [Hs _]. split; [intros _|congruence].
    destruct (stopSession_finishes true _ Hs) as (_ & _ & _ & _ & _ & _ & Hstop & _).
    split_and!; [exists op; split; [done|apply Hh]|done|done|exact Hstop].
  - split; [congruence|intros _]. split_and!; try done. intros event. by apply stopped_deaf.
Qed.

(** The handshake succeeds and a page is asked for. *)
Definition demoStarted : Link unit := advanceLink startSession [] (mkLink demoSession []).
Definition demoReading : Link unit := advanceLink (handleEvent (HandshakeCompleted false)) [] demoStarted.
Definition demoWriting : Link unit := advanceLink (handleEvent (ReadCompleted (Received (getRequest "/")))) [] demoReading.

Lemma session_always_waits_with_a_deadline_witness :
  inflight demoWriting = [Writing] ∧ armed (actions (running demoWriting)) = true ∧
  Session.stopped_ (session (handleEvent (TimerCompleted false) (running demoWriting))) = true.
Proof.
  assert (Hr : reachable_session demoWriting).
  { exists demoSession. split; [by split_and!|].
    eapply rtc_l; [apply (operation_completes (HandshakeCompleted false) Handshaking demoStarted [] []); reflexivity|].
    eapply rtc_l; [|apply rtc_refl].
    apply (operation_completes (ReadCompleted (Received (getRequest "/"))) Reading demoReading [] []); reflexivity. }
  destruct (session_always_waits_with_a_deadline demoWriting Hr) as [Hrun _].
  destruct (Hrun eq_refl) as ((op & E & _) & Ha & _ & Hstop). split; [reflexivity|]. split; [exact Ha|exact Hstop].
Defined.

(** * What the owner of the HTTPS server can rely on

    The start opens the server completely or not at all, and the sessions it owns stay
    within the configured number. *)

(** A platform on which everything succeeds and that counts the calls; the second path
    made canonical is the key's. *)
Definition keyPath : path := "/etc/keys/key.pem".
#[local] Instance demo_platform : ServerPlatform nat := {|
  makeAddress := λ a w, (Ret (0, a), Datatypes.S w);
  canonicalPath := λ p w, (Ret (0, p), Datatypes.S w);
  isDirectory := λ p w, (Ret (0, true), Datatypes.S w);
  setMinProtoVersion := λ w, (Ret 1, Datatypes.S w);
  setNoCompression := λ w, (Ret tt, Datatypes.S w);
  useCertificateChainFile := λ p w, (Ret 0, Datatypes.S w);
  usePrivateKeyFile := λ p w, (Ret 0, Datatypes.S w);
  checkPrivateKey := λ w, (Ret 1, Datatypes.S w);
  acceptorOpen := λ a w, (Ret 0, Datatypes.S w);
  acceptorReuseAddress := λ w, (Ret 0, Datatypes.S w);
  acceptorBind := λ a p w, (Ret 0, Datatypes.S w);
  acceptorListen := λ n w, (Ret 0, Datatypes.S w);
  acceptorLocalEndpoint := λ w, (Ret (0, ("127.0.0.1"%string, 8443)), Datatypes.S w);
  max_listen_connections := 4096 |}.
Definition demoConfiguration (maximum : Z) (key : path) : HttpsStaticServerConfiguration :=
  ServerConfig.mkServerConfiguration "127.0.0.1" 8443 "/srv/www" "/etc/keys/chain.pem" key maximum 8192 4096 1048576 5000 30000.

Example demo_starts :
  (λ c, StartFailure.failure (startServer (newServer c 0%nat)).1) <$>
    [demoConfiguration 2 keyPath; demoConfiguration 0 keyPath; demoConfiguration 2 "/srv/www/key.pem"] =
  [StartFailure.NONE; StartFailure.INVALID_CONFIGURATION; StartFailure.PRIVATE_KEY_WITHIN_STATIC_ROOT].
Proof. vm_compute. reflexivity. Qed.

(** C40: a start is all or nothing, and the acceptor is never left open.  However the
    platform behaves, with errors and with exceptions, the first start reports NONE
    exactly when the server is ready, and it is ready exactly when it has an endpoint;
    then it opened the acceptor and waits for its first connection, the configuration
    is valid and the private key's canonical path is not under the static root.  After
    any other result the server owns no session and no accept was asked for; the
    acceptor was never touched when the configuration, the paths or the certificates
    were at fault, it was opened and closed again when it failed itself, and it was
    closed when an exception ended the start.  A second start is refused and changes
    nothing.  And in every state that starts, stops, accepted connections and closed
    sessions lead to, the acceptor is open exactly while the server is ready. *)
Theorem server_start_is_all_or_nothing {W} `{ServerPlatform W} (c : HttpsStaticServerConfiguration) (w : W)
    (Hmax : 0 ≤ ServerConfig.maximumConnections c) :
  let r := (startServer (newServer c w)).1 in
  let s := (startServer (newServer c w)).2 in
  (StartFailure.failure r = StartFailure.NONE ↔ Server.ready_ s = true) ∧
  (Server.ready_ s = true ↔ is_Some (Server.localEndpoint_ s)) ∧
  (Server.ready_ s = true →
    Server.actions s = [OpenAcceptor; AsyncAccept] ∧ Server.sessions_ s = [] ∧ invalidConfiguration c 0 = false ∧
    ∃ key w1 w2, canonicalPath (ServerConfig.privateKeyPath c) w1 = (Ret (0, key), w2) ∧
      isWithinRoot (Server.staticRoot_ s) key = false) ∧
  (Server.ready_ s = false →
    failed_log [] (StartFailure.failure r) (Server.actions s) ∧ Server.sessions_ s = [] ∧ Server.acceptPending_ s = false) ∧
  startServer s = (startResult StartFailure.ALREADY_STARTED 0, s) ∧
  ∀ s', rtc server_step (newServer c w) s' → acceptor_open (Server.actions s') = Server.ready_ s'.
Proof.
  cbn zeta. assert (Hfresh : fresh c [] (setStartedOnce (newServer c w))) by (by split; [split_and!|]).
  assert (Hlife : ∀ s', rtc server_step (newServer c w) s' → acceptor_open (Server.actions s') = Server.ready_ s').
  { intros s' Hsteps. eapply (reachable_server_follows c); [done|by exists w]. }
  pose proof (startServer_ends (newServer c w) c [] Hfresh eq_refl) as Hends.
  destruct (startServer (newServer c w)) as [r s]. cbn [fst snd]. destruct Hends as [[Hf Ho]|(Hf & Hi & Hlog)].
  - destruct (opened_serves _ _ _ Ho Hmax) as (Hc & Hr & He & Hst & Hs & Hp & Hn & Ha & Hpos).
    destruct Ho as (root & key & w1 & w2 & endpoint & s0 & [_ Hroot] & Hv & Hk & Hw & ->).
    rewrite Hr, Ha, Hs, Hp. split_and!; try done.
    + intros _. split_and!; try done. exists key, w1, w2. split; [done|]. rewrite <- Hw, <- Hroot. f_equal.
      unfold acceptNext. by destruct (_ || _).
    + unfold startServer. by rewrite Hst.
  - destruct Hi as (Hc & He & Hs & Hst & Hr & Hp & Hn & Ha). rewrite Hr, He, Hs, Hp.
    split; [by split|]. split; [by split; [|intros []]|]. split_and!; try done. unfold startServer. by rewrite Hst.
Qed.

Lemma server_start_is_all_or_nothing_witness :
  Server.actions (startServer (newServer (demoConfiguration 2 keyPath) 0%nat)).2 = [OpenAcceptor; AsyncAccept] ∧
  startServer (startServer (newServer (demoConfiguration 2 "/srv/www/key.pem") 0%nat)).2 =
    (startResult StartFailure.ALREADY_STARTED 0, (startServer (newServer (demoConfiguration 2 "/srv/www/key.pem") 0%nat)).2).
Proof.
  split.
  - destruct (server_start_is_all_or_nothing (demoConfiguration 2 keyPath) 0%nat ltac:(cbn; lia)) as (_ & _ & Hready & _).
    destruct Hready as [Ha _]; [vm_compute; reflexivity|exact Ha].
  - destruct (server_start_is_all_or_nothing (demoConfiguration 2 "/srv/www/key.pem") 0%nat ltac:(cbn; lia)) as (_ & _ & _ & _ & E & _).
    exact E.
Defined.

(** The server owns no more sessions than it was configured for and never stalls.  In
    every state it reaches, through any starts, stops, accepted connections and closed
    sessions: its sessions and the one it may be accepting are at most
    [maximumConnections]; they are distinct, each was started once under its own
    number, and none was stopped; while it is ready it is accepting or full.  A stop
    leaves it without sessions, each told to stop; and once it was started and is not
    ready any more it never starts a session or asks for a connection again. *)
Theorem server_bounds_its_sessions {W} `{ServerPlatform W} (c : HttpsStaticServerConfiguration) (s : HttpsServer W)
    (Hmax : 0 ≤ ServerConfig.maximumConnections c) (Hs : reachable_server c s) :
  expected s ≤ ServerConfig.maximumConnections c ∧
  sessions_ok s ∧
  (Server.ready_ s = true → Server.acceptPending_ s = true ∨ full s) ∧
  (Server.sessions_ (stopServer s) = [] ∧ Server.ready_ (stopServer s) = false ∧
    ∀ id, id ∈ Server.sessions_ s → StopSession id ∈ Server.actions (stopServer s)) ∧
  (Server.startedOnce_ s = true → Server.ready_ s = false → ∀ s', rtc server_step s s' →
    Server.ready_ s' = false ∧ Server.nextSession s' = Server.nextSession s ∧
    (AsyncAccept ∈ Server.actions s' → AsyncAccept ∈ Server.actions s)).
Proof.
  destruct (reachable_server_ok c s Hmax Hs) as (Hc & He & Hsess & Hr & Hready & _). split_and!; try done.
  - intros E. by apply Hready.
  - by rewrite stopServer_state.
  - by rewrite stopServer_state.
  - intros id Hid. rewrite stopServer_state. cbn. apply elem_of_app. right. right. apply list_elem_of_fmap. by exists id.
  - intros Ho E s' Hsteps. destruct (retired_forever s s' (conj Ho E) Hsteps) as ([_ Hr'] & Hn & Ha). by split_and!.
Qed.

(** A server for one connection that has accepted it. *)
Definition demoOpened : HttpsServer nat := (startServer (newServer (demoConfiguration 1 keyPath) 0%nat)).2.
Definition demoServing : HttpsServer nat := acceptCompleted false demoOpened.

Lemma server_bounds_its_sessions_witness :
  Server.sessions_ demoServing = [0%nat] ∧ Server.acceptPending_ demoServing = false ∧ full demoServing ∧
  StopSession 0%nat ∈ Server.actions (stopServer demoServing).
Proof.
  assert (Hr : reachable_server (demoConfiguration 1 keyPath) demoServing).
  { assert (Hp : Server.acceptPending_ demoOpened = true) by (vm_compute; reflexivity).
    exists 0%nat. apply (rtc_l _ _ demoOpened); [exact (owner_starts (newServer (demoConfiguration 1 keyPath) 0%nat))|].
    apply rtc_once. exact (accept_completes false demoOpened Hp). }
  destruct (server_bounds_its_sessions (demoConfiguration 1 keyPath) demoServing ltac:(cbn; lia) Hr) as (_ & _ & Hfull & (_ & _ & Hstop) & _).
  assert (Es : Server.sessions_ demoServing = [0%nat]) by (vm_compute; reflexivity).
  assert (Ep : Server.acceptPending_ demoServing = false) by (vm_compute; reflexivity).
  assert (Er : Server.ready_ demoServing = true) by (vm_compute; reflexivity).
  split; [exact Es|]. split; [exact Ep|]. split.
  - destruct (Hfull Er) as [E|E]; [congruence|exact E].
  - apply Hstop. rewrite Es. apply list_elem_of_singleton. reflexivity.
Defined.
