(* ===== verification/Idle.v ===== *)
(** * Idling between cycles

    [src/core/task/include/adaptive_idle.hpp], and the endless [run] loops of the four
    workers: each pass advances the worker and then resets its backoff or waits.  What
    a thread does while it waits is the action [nextAction] gives. *)
From S2P Require Import Prelude Domain Bytes JournalCodec RunHeaderCodec Posix JournalReader JournalWriter.
From S2P Require Import Matching Projection Queues Bus FixParser Admission Sequencer EngineWorker FixTask.

Inductive ActionKind := YIELD | SLEEP.
#[export] Instance ActionKind_eq_dec : EqDecision ActionKind.
Proof. solve_decision. Defined.

(** Durations in microseconds. *)
Record Action := mkAction { kind : ActionKind; sleepDuration : Z }.

Definition YIELD_ATTEMPTS : Z := 64.
Definition INITIAL_SLEEP : Z := 1.
Definition MAX_SLEEP : Z := 1000.

Record AdaptiveIdle := mkIdle { idleAttempts_ : Z; sleepDuration_ : Z }.
Definition newIdle : AdaptiveIdle := mkIdle 0 0.

Definition nextAction (idle : AdaptiveIdle) : Action * AdaptiveIdle :=
  let attempts := wrap64 (idleAttempts_ idle + 1) in
  if bool_decide (attempts ≤ YIELD_ATTEMPTS) then (mkAction YIELD 0, mkIdle attempts (sleepDuration_ idle))
  else
    let duration :=
      if bool_decide (sleepDuration_ idle = 0) then INITIAL_SLEEP else Z.min (sleepDuration_ idle * 2) MAX_SLEEP in
    (mkAction SLEEP duration, mkIdle attempts duration).

Definition resetIdle (idle : AdaptiveIdle) : AdaptiveIdle := mkIdle 0 0.

(** ** The passes of a loop *)

(** [idle.reset()] after progress, [idle.wait()] otherwise. *)
Definition afterPass (progressed : bool) (idle : AdaptiveIdle) : option Action * AdaptiveIdle :=
  if progressed then (None, resetIdle idle)
  else let '(action, idle) := nextAction idle in (Some action, idle).

(** The worker's pass ends with the exception that leaves its loop, or with what the
    thread does before the next one. *)
Definition idleAfter {S} (result : outcome bool * S) (idle : AdaptiveIdle) : outcome (option Action) * (S * AdaptiveIdle) :=
  match result with
  | (Throw e, s) => (Throw e, (s, idle))
  | (Ret progressed, s) => let '(action, idle) := afterPass progressed idle in (Ret action, (s, idle))
  end.

Section loops.
Context {W : Type} `{Posix W} {Q : Type} `{SharedQueue sequenceMessage Q}.

Definition runSequencer (loopFuel fuel : nat) (s : SequencerState Q) (idle : AdaptiveIdle)
    : io W (outcome (option Action) * (SequencerState Q * AdaptiveIdle)) :=
  result ← advanceSequencer loopFuel fuel s;
  mret (idleAfter result idle).

Definition runEngine (fuel : nat) (s : MatchingEngine Q * AdaptiveIdle) : outcome (option Action) * (MatchingEngine Q * AdaptiveIdle) :=
  idleAfter (advanceEngine fuel s.1) s.2.

Definition runGateway (s : FixTask Q * AdaptiveIdle) : outcome (option Action) * (FixTask Q * AdaptiveIdle) :=
  idleAfter (runIteration s.1) s.2.
End loops.

Definition runConsumer (s : AdmissionCompletionConsumer * AdaptiveIdle)
    : outcome (option Action) * (AdmissionCompletionConsumer * AdaptiveIdle) :=
  let '(result, c) := processNextCompletion s.1 in
  idleAfter (match result with Ret completed => Ret (bool_decide (completed ≠ None)) | Throw e => Throw e end, c) s.2.

(** ** Backoff *)

(** A loop's actions for passes with and without progress. *)
Fixpoint idleTrace (passes : list bool) (idle : AdaptiveIdle) : list (option Action) * AdaptiveIdle :=
  match passes with
  | [] => ([], idle)
  | progressed :: passes' =>
      let '(action, idle) := afterPass progressed idle in
      let '(actions, idle) := idleTrace passes' idle in (action :: actions, idle)
  end.

(** The [n]th wait in a row. *)
Definition backoff (n : Z) : Action :=
  if bool_decide (n ≤ YIELD_ATTEMPTS) then mkAction YIELD 0 else mkAction SLEEP (Z.min (2 ^ (n - 65)) MAX_SLEEP).
Definition sleptAfter (n : Z) : Z := if bool_decide (n ≤ YIELD_ATTEMPTS) then 0 else Z.min (2 ^ (n - 65)) MAX_SLEEP.
Definition idle_ok (idle : AdaptiveIdle) : Prop := 0 ≤ sleepDuration_ idle ≤ MAX_SLEEP.

Lemma idleTrace_app passes1 passes2 idle :
  idleTrace (passes1 ++ passes2) idle =
  ((idleTrace passes1 idle).1 ++ (idleTrace passes2 (idleTrace passes1 idle).2).1, (idleTrace passes2 (idleTrace passes1 idle).2).2).
Proof.
  revert idle. induction passes1 as [|progressed passes1 IH]; intros idle; cbn [app idleTrace]; [by destruct (idleTrace _ _)|].
  destruct (afterPass progressed idle) as [action idle1]. rewrite IH. by destruct (idleTrace passes1 idle1).
Qed.

Lemma nextAction_step n : 0 ≤ n → n + 1 < 2 ^ 64 →
  nextAction (mkIdle n (sleptAfter n)) = (backoff (n + 1), mkIdle (n + 1) (sleptAfter (n + 1))).
Proof.
  intros Hn Hlt. unfold nextAction. cbn [idleAttempts_ sleepDuration_].
  rewrite wrap64_small by (unfold is_u64, UINT64_MAX; lia). unfold backoff, sleptAfter, YIELD_ATTEMPTS.
  destruct (bool_decide_reflect (n + 1 ≤ 64)).
  { by rewrite (bool_decide_eq_true_2 (n ≤ 64)) by lia. }
  destruct (decide (n = 64)) as [-> |Hne]; [done|].
  rewrite (bool_decide_eq_false_2 (n ≤ 64)) by lia.
  assert (Hpow : 0 < 2 ^ (n - 65)) by (apply Z.pow_pos_nonneg; lia).
  rewrite bool_decide_eq_false_2 by (unfold MAX_SLEEP; lia).
  replace (n + 1 - 65) with (Z.succ (n - 65)) by lia. rewrite Z.pow_succ_r by lia.
  assert (E : Z.min (Z.min (2 ^ (n - 65)) MAX_SLEEP * 2) MAX_SLEEP = Z.min (2 * 2 ^ (n - 65)) MAX_SLEEP) by (unfold MAX_SLEEP; lia).
  by rewrite E.
Qed.

Lemma idleTrace_waits m : ∀ n, 0 ≤ n → n + Z.of_nat m < 2 ^ 64 →
  idleTrace (replicate m false) (mkIdle n (sleptAfter n)) =
  ((λ i, Some (backoff (n + Z.of_nat i))) <$> seq 1 m, mkIdle (n + Z.of_nat m) (sleptAfter (n + Z.of_nat m))).
Proof.
  induction m as [|m IH]; intros n Hn Hlt.
  - cbn. by rewrite Z.add_0_r.
  - cbn [replicate idleTrace afterPass]. rewrite nextAction_step, IH by lia. cbn [seq fmap list_fmap].
    assert (E : n + 1 + Z.of_nat m = n + Z.of_nat (Datatypes.S m)) by lia. rewrite E. f_equal. f_equal.
    rewrite <- (seq_shift m 1). change (List.map Datatypes.S (seq 1 m)) with (Datatypes.S <$> seq 1 m).
    rewrite <- list_fmap_compose. apply list_fmap_ext. intros i x _. cbn. do 2 f_equal. lia.
Qed.

Lemma nextAction_bounded idle : idle_ok idle →
  (kind (nextAction idle).1 = YIELD ↔ sleepDuration (nextAction idle).1 = 0) ∧
  0 ≤ sleepDuration (nextAction idle).1 ≤ MAX_SLEEP ∧ idle_ok (nextAction idle).2.
Proof.
  unfold idle_ok, nextAction, MAX_SLEEP, INITIAL_SLEEP. intros Hi. destruct (bool_decide _); cbn; [split; [by split|lia]|].
  destruct (bool_decide_reflect (sleepDuration_ idle = 0)); cbn; (split; [split; [done|lia]|lia]).
Qed.

Lemma idleTrace_bounded passes : ∀ idle, idle_ok idle →
  ∀ action, Some action ∈ (idleTrace passes idle).1 →
  (kind action = YIELD ↔ sleepDuration action = 0) ∧ 0 ≤ sleepDuration action ≤ MAX_SLEEP.
Proof.
  induction passes as [|progressed passes IH]; intros idle Hi action; cbn [idleTrace].
  - by intros Hin%elem_of_nil.
  - destruct progressed; cbn [afterPass].
    + specialize (IH (resetIdle idle)). destruct (idleTrace passes _) as [actions idle2]. cbn in *.
      intros [|Hin]%elem_of_cons; [done|]. apply IH; [unfold idle_ok, MAX_SLEEP; cbn; lia|done].
    + destruct (nextAction_bounded idle Hi) as (Hk & Hd & Hnext). destruct (nextAction idle) as [a idle1]. cbn [fst snd] in *.
      specialize (IH idle1 Hnext). destruct (idleTrace passes idle1) as [actions idle2]. cbn in *.
      intros [[= ->]|Hin]%elem_of_cons; [done|by apply IH].
Qed.

(** A worker that finds nothing to do backs off, within a millisecond of new work.
    After any history that ends with progress, the [n]th wait in a row yields up to
    the sixty-fourth and then sleeps 1, 2, 4 ... microseconds, never more than
    [MAX_SLEEP]; and in every history each wait either yields or sleeps for at most
    that long, whatever the counters do. *)
Theorem idle_backoff_is_bounded (before : list bool) (n : nat) (Hn : Z.of_nat n < 2 ^ 64) :
  (idleTrace (before ++ true :: replicate n false) newIdle).1 =
    (idleTrace (before ++ [true]) newIdle).1 ++ ((λ i, Some (backoff (Z.of_nat i))) <$> seq 1 n) ∧
  (∀ action, Some action ∈ (idleTrace before newIdle).1 →
    (kind action = YIELD ↔ sleepDuration action = 0) ∧ 0 ≤ sleepDuration action ≤ MAX_SLEEP).
Proof.
  split; [|apply idleTrace_bounded; unfold idle_ok, MAX_SLEEP; cbn; lia].
  replace (before ++ true :: replicate n false) with ((before ++ [true]) ++ replicate n false) by by rewrite <- app_assoc.
  rewrite idleTrace_app. cbn [fst]. f_equal.
  assert (E : (idleTrace (before ++ [true]) newIdle).2 = mkIdle 0 (sleptAfter 0)) by (rewrite idleTrace_app; reflexivity).
  rewrite E, (idleTrace_waits n 0) by lia. reflexivity.
Qed.

Lemma idle_backoff_is_bounded_witness :
  last (idleTrace (true :: replicate 76 false) newIdle).1 = Some (Some (mkAction SLEEP 1000)) ∧
  (idleTrace (true :: replicate 67 false) newIdle).1 =
    None :: ((λ i, Some (backoff (Z.of_nat i))) <$> seq 1 67).
Proof. split; [vm_compute; reflexivity|]. exact (proj1 (idle_backoff_is_bounded [] 67 ltac:(lia))). Defined.
