(* ===== verification/ExchangeProcess.v ===== *)
(** * The exchange process

    [src/core/exchange/src/main.cpp]: the legacy process without a journal.  Its main
    thread makes the queues, the bus, the admission index and the four workers that
    borrow them, starts a thread for each worker, and then lets QuickFIX's sessions call
    the gateway.  Each shared object is kept once, with a worker's own members beside
    it; a worker is put together for an operation and taken apart after it. *)
From S2P Require Import Prelude Domain Bytes JournalCodec RunHeaderCodec Posix JournalReader JournalWriter Matching.
From S2P Require Import Projection Queues Admission Sequencer Bus EngineWorker FixParser FixTask Controller.

Definition BUS_SIZE : Z := 16384.
Definition COMMAND_ADMISSION_CAPACITY : Z := 100000.
Definition SEQUENCING_INGRESS_QUEUE_SIZE : Z := 1000.
Definition MATCHING_ENGINE_QUEUE_SIZE : Z := 1000.
Definition COMMAND_RESULT_QUEUE_SIZE : Z := 1000.
(** The default argument of [FixTask]'s constructor. *)
Definition STAGING_QUEUE_SIZE : Z := 1000.
(** The address of [FixTask]'s cursor. *)
Definition GATEWAY_CURSOR : nat := 0.

Module Process.
Record GatewayMembers (Q : Type) := mkGatewayMembers {
  stagingQueue_ : Q;
  pendingStagedCommand_ : option sequenceMessage;
  normalizationRejections_ : Z;
  internalFailures_ : Z;
  stagingQueueSaturations_ : Z }.
Arguments mkGatewayMembers {_} _ _ _ _ _.
Arguments stagingQueue_ {_} _.
Arguments pendingStagedCommand_ {_} _.
Arguments normalizationRejections_ {_} _.
Arguments internalFailures_ {_} _.
Arguments stagingQueueSaturations_ {_} _.

(** The local variables of [main]. *)
Record ExchangeProcess (Q : Type) := mkProcess {
  sequencingIngressQueue : Q;
  matchingEngineQueue : Q;
  multicastBus : Bus * gmap nat Z;
  commandAdmissionIndex : CommandAdmissionIndex;
  commandResultQueue : BoundedCommandResultQueue;
  admissionCompletionConsumer : Path.ConsumerMembers;
  application : GatewayMembers Q;
  sequencer : Path.SequencerMembers;
  matchingState : MatchingState;
  matching_engine : Path.MatcherMembers }.
Arguments mkProcess {_} _ _ _ _ _ _ _ _ _ _.
Arguments sequencingIngressQueue {_} _.
Arguments matchingEngineQueue {_} _.
Arguments multicastBus {_} _.
Arguments commandAdmissionIndex {_} _.
Arguments commandResultQueue {_} _.
Arguments admissionCompletionConsumer {_} _.
Arguments application {_} _.
Arguments sequencer {_} _.
Arguments matchingState {_} _.
Arguments matching_engine {_} _.
End Process.
Abbreviation ExchangeProcess := Process.ExchangeProcess.

(** ** The workers *)
Section workers.
Context {Q : Type}.
Implicit Types p : ExchangeProcess Q.

Definition gatewayIn p : FixTask Q :=
  let own := Process.application p in
  mkFixTask (Process.sequencingIngressQueue p) (Process.stagingQueue_ own) (Process.pendingStagedCommand_ own)
    (Process.multicastBus p) (Process.commandAdmissionIndex p) (Process.normalizationRejections_ own)
    (Process.internalFailures_ own) (Process.stagingQueueSaturations_ own) GATEWAY_CURSOR.

Definition withGateway (t : FixTask Q) p : ExchangeProcess Q :=
  Process.mkProcess (ingressQueue_ t) (Process.matchingEngineQueue p) (gatewayBus t) (commandAdmissionIndex t)
    (Process.commandResultQueue p) (Process.admissionCompletionConsumer p)
    (Process.mkGatewayMembers (stagingQueue_ t) (pendingStagedCommand_ t) (normalizationRejections_ t)
       (internalFailures_ t) (stagingQueueSaturations_ t))
    (Process.sequencer p) (Process.matchingState p) (Process.matching_engine p).

Definition sequencerIn p : SequencerState Q :=
  let own := Process.sequencer p in
  mkSequencer (Process.sequencingIngressQueue p) (Process.matchingEngineQueue p) (Some (Process.commandAdmissionIndex p))
    None (Path.lastAssignedSequence_ own) (Path.pendingCommand_ own) (Path.pendingReadyForMatching_ own)
    (Path.journalAppendFailure_ own).

Definition withSequencer (s : SequencerState Q) p : ExchangeProcess Q :=
  Process.mkProcess (sequencingIngressQueue_ s) (matchingEngineQueue_ s) (Process.multicastBus p)
    (default (Process.commandAdmissionIndex p) (sequencerAdmission_ s)) (Process.commandResultQueue p)
    (Process.admissionCompletionConsumer p) (Process.application p)
    (Path.mkSequencerMembers (lastAssignedSequence_ s) (pendingCommand_ s) (pendingReadyForMatching_ s)
       (journalAppendFailure_ s))
    (Process.matchingState p) (Process.matching_engine p).

Definition engineIn p : MatchingEngine Q :=
  let own := Process.matching_engine p in
  mkMatchingEngine (Process.matchingEngineQueue p) (Process.multicastBus p) (Process.commandResultQueue p)
    (Process.matchingState p) (Path.pendingCommandResult own) (Path.inProgressCommand_ own)
    (Path.multicastWriteFailures_ own).

Definition withEngine (e : MatchingEngine Q) p : ExchangeProcess Q :=
  Process.mkProcess (Process.sequencingIngressQueue p) (sequencerQueue e) (multicastBus e)
    (Process.commandAdmissionIndex p) (commandResultQueue e) (Process.admissionCompletionConsumer p)
    (Process.application p) (Process.sequencer p) (matchingState_ e)
    (Path.mkMatcherMembers (pendingCommandResult e) (inProgressCommand_ e) (multicastWriteFailures_ e)).

Definition consumerIn p : AdmissionCompletionConsumer :=
  let own := Process.admissionCompletionConsumer p in
  Consumer.mkConsumer (Process.commandResultQueue p) (Process.commandAdmissionIndex p) (Path.pendingBatch_ own)
    (Path.failure_ own).

Definition withConsumer (c : AdmissionCompletionConsumer) p : ExchangeProcess Q :=
  Process.mkProcess (Process.sequencingIngressQueue p) (Process.matchingEngineQueue p) (Process.multicastBus p)
    (Consumer.admissionIndex_ c) (Consumer.resultQueue_ c)
    (Path.mkConsumerMembers (Consumer.pendingBatch_ c) (Consumer.failure_ c)) (Process.application p)
    (Process.sequencer p) (Process.matchingState p) (Process.matching_engine p).
End workers.

(** ** Starting *)

(** Boost's documentation of the constructor: the queue is empty and has nodes for
    the given number of elements, so it takes an element while it is empty. *)
Class NewSharedQueueLaws (T Q : Type) `{SharedQueueLaws T Q, NewSharedQueue T Q} := {
  nodesOf : Q → Z;
  new_law capacity : 0 ≤ capacity → queued (newSharedQueue capacity) = [] ∧ nodesOf (newSharedQueue capacity) = capacity;
  push_nodes x q : nodesOf (sharedPush x q).2 = nodesOf q;
  pop_nodes q : nodesOf (sharedPop q).2 = nodesOf q;
  push_empty x q : queued q = [] → 0 < nodesOf q → (sharedPush x q).1 = true }.

#[export] Program Instance FixedQueue_new_laws T : NewSharedQueueLaws T (FixedQueue T) :=
  {| nodesOf q := Z.of_nat (nodes q) |}.
Next Obligation. intros T capacity Hc. split; [done|]. simpl. lia. Qed.
Next Obligation. intros T x q. simpl. by case_bool_decide. Qed.
Next Obligation. by intros T [n [|x l]]. Qed.
Next Obligation. intros T x [n l] Hl Hn. simpl in *. subst l. by rewrite bool_decide_eq_true_2 by (simpl; lia). Qed.

Section start.
Context {Q : Type} `{SharedQueue sequenceMessage Q, NewSharedQueue sequenceMessage Q}.

(** The constructors, in their order. *)
Definition newExchangeProcess : outcome (ExchangeProcess Q) :=
  let ingress : Q := newSharedQueue SEQUENCING_INGRESS_QUEUE_SIZE in
  let matching : Q := newSharedQueue MATCHING_ENGINE_QUEUE_SIZE in
  bus ← newBus BUS_SIZE;
  index ← newUnboundIndex COMMAND_ADMISSION_CAPACITY;
  results ← ResultQueue.newResultQueue COMMAND_RESULT_QUEUE_SIZE;
  application ← newFixTask ingress (newSharedQueue STAGING_QUEUE_SIZE) (bus, ∅) index GATEWAY_CURSOR;
  let sequencer := newSequencer ingress matching index 0 in
  let state := newMatchingState 0 in
  let engine := newMatchingEngine matching (gatewayBus application) results state in
  Ret (Process.mkProcess ingress matching (gatewayBus application) index results
         (Path.mkConsumerMembers None None)
         (Process.mkGatewayMembers (stagingQueue_ application) (pendingStagedCommand_ application)
            (normalizationRejections_ application) (internalFailures_ application)
            (stagingQueueSaturations_ application))
         (Path.mkSequencerMembers (lastAssignedSequence_ sequencer) (pendingCommand_ sequencer)
            (pendingReadyForMatching_ sequencer) (journalAppendFailure_ sequencer))
         state
         (Path.mkMatcherMembers (pendingCommandResult engine) (inProgressCommand_ engine)
            (multicastWriteFailures_ engine))).

(** How [main] ends, if it does: it returns a code, it is terminated because an
    exception destroys the handles of running threads, or it serves forever. *)
Inductive ProcessEnd (SessionID : Type) `{Countable SessionID} :=
  | Exited (code : Z)
  | Terminated
  | Serving (resolver : ClientIdentityResolver SessionID) (p : ExchangeProcess Q).
Arguments Exited {_ _ _} _.
Arguments Terminated {_ _ _}.
Arguments Serving {_ _ _} _ _.

(** [main]; QuickFIX's part are the settings it reads, the sessions they list, and
    whether its stores, its acceptor and [acceptor.start()] throw. *)
Definition startExchange {SessionID : Type} `{Countable SessionID}
    (settings : outcome (list (SessionID * option string))) (acceptor : outcome unit) : ProcessEnd SessionID :=
  match (sessions ← settings; resolver ← resolverFromSettings sessions;
         p ← newExchangeProcess; Ret (resolver, p)) with
  | Throw _ => Exited 1
  | Ret (resolver, p) =>
      match acceptor with
      | Throw _ => Terminated
      | Ret _ => Serving resolver p
      end
  end.
End start.
Arguments ProcessEnd _ _ {_ _}.
Arguments Exited {_ _ _ _} _.
Arguments Terminated {_ _ _ _}.
Arguments Serving {_ _ _ _} _ _.

(** ** The threads

    What a thread does to the shared objects in one go: a message of a QuickFIX
    session, one command forwarded, one message read from the bus, one call of
    [processNext], one command of the engine's loop or one attempt to hand its result
    on, and one completion.  The workers' [run] loops repeat these. *)

(** One round of [drainQueue]'s loop, or its hand-over before the loop. *)
Definition engineOperation {Q} `{SharedQueue sequenceMessage Q} : M (MatchingEngine Q) bool := λ e,
  if hasPendingResult e then handoffPendingResult e
  else
    match sharedPop (sequencerQueue e) with
    | (None, queue) => (Ret false, setSequencerQueue queue e)
    | (Some message, queue) => (runCommand message ;; mret true) (setSequencerQueue queue e)
    end.

Section threads.
Context {W : Type} `{Posix W} {Q : Type} `{SharedQueue sequenceMessage Q}.
Context {F : Type} `{FixMessages F} {SessionID : Type} `{Countable SessionID}.
Context (resolver : ClientIdentityResolver SessionID).
Implicit Types p : ExchangeProcess Q.

Definition receive (message : F) (sessionID : SessionID) p : ExchangeProcess Q :=
  withGateway (fromApp message sessionID resolver (gatewayIn p)) p.

Definition forwardNext p : bool * ExchangeProcess Q :=
  let '(forwarded, t) := processNextStagedCommand (gatewayIn p) in (forwarded, withGateway t p).

Definition readNext p : outcome (option sequenceMessage) * ExchangeProcess Q :=
  let '(message, bus) := read GATEWAY_CURSOR (Process.multicastBus p) in
  (message, withGateway (setGatewayBus bus (gatewayIn p)) p).

(** Without a journal no call reaches the world, and none needs fuel. *)
Definition sequenceNext p : io W (outcome bool * ExchangeProcess Q) :=
  '(result, s) ← processNext 0 (sequencerIn p);
  mret (result, withSequencer s p).

Definition matchNext p : outcome bool * ExchangeProcess Q :=
  let '(result, e) := engineOperation (engineIn p) in (result, withEngine e p).

Definition completeNext p : outcome (option CommandResultBatch) * ExchangeProcess Q :=
  let '(result, c) := processNextCompletion (consumerIn p) in (result, withConsumer c p).

(** An operation of a worker that did something, was refused or found nothing to do;
    an exception would leave the thread and end the process. *)
Inductive worker_step p : bool * option CommandResultBatch * ExchangeProcess Q → Prop :=
  | worker_forward : worker_step p ((forwardNext p).1, None, (forwardNext p).2)
  | worker_read message p' : readNext p = (Ret message, p') → worker_step p (false, None, p')
  | worker_sequence w progressed p' w' :
      sequenceNext p w = (Ok (Ret progressed, p'), w') → worker_step p (progressed, None, p')
  | worker_match progressed p' : matchNext p = (Ret progressed, p') → worker_step p (progressed, None, p')
  | worker_complete completed p' :
      completeNext p = (Ret completed, p') → worker_step p (bool_decide (is_Some completed), completed, p').

(** [commands] are the commands admitted, [results] those completed, in their order. *)
Inductive process_step : ExchangeProcess Q * list sequenceMessage * list CommandResultBatch →
    ExchangeProcess Q * list sequenceMessage * list CommandResultBatch → Prop :=
  | step_receive p commands results message sessionID :
      process_step (p, commands, results)
        (receive message sessionID p, commands ++ admitted resolver message sessionID (gatewayIn p), results)
  | step_worker p commands results progressed completed p' :
      worker_step p (progressed, completed, p') →
      process_step (p, commands, results) (p', commands, results ++ option_list completed).
End threads.
(** ** The workers' loops

    A pass of each [run] loop is a sequence of the operations of [worker_step]; the
    consumer's pass is one. *)
Section loops.
Context {W : Type} `{Posix W} {Q : Type} `{SharedQueue sequenceMessage Q}.
Implicit Types (p : ExchangeProcess Q) (e : MatchingEngine Q).

Definition runs p p' : Prop := rtc (λ p1 p2, ∃ progressed, worker_step (W:=W) p1 (progressed, None, p2)) p p'.

Lemma runs_then p p1 p2 progressed : worker_step (W:=W) p (progressed, None, p1) → runs p1 p2 → runs p p2.
Proof. intros Hstep Hruns. eapply rtc_l; [by eexists|done]. Qed.

Lemma gatewayIn_with (t : FixTask Q) p : gatewayCursor t = GATEWAY_CURSOR → gatewayIn (withGateway t p) = t.
Proof. destruct t. cbn. by intros ->. Qed.
Lemma engineIn_with e p : engineIn (withEngine e p) = e.
Proof. by destruct e. Qed.
Lemma sequencerIn_with (s : SequencerState Q) p : journalWriter_ s = None → is_Some (sequencerAdmission_ s) →
  sequencerIn (withSequencer s p) = s.
Proof. destruct s. cbn. by intros -> [index ->]. Qed.
Lemma withSequencer_twice (s s1 : SequencerState Q) p : is_Some (sequencerAdmission_ s) →
  withSequencer s (withSequencer s1 p) = withSequencer s p.
Proof. destruct s. cbn. by intros [index ->]. Qed.
Lemma with_same p : withGateway (gatewayIn p) p = p ∧ withSequencer (sequencerIn p) p = p ∧ withEngine (engineIn p) p = p.
Proof. by destruct p as [? ? ? ? ? ? [] [] ? []]. Qed.

(** *** The gateway *)
Lemma forward_cursor (t : FixTask Q) : gatewayCursor (processNextStagedCommand t).2 = gatewayCursor t.
Proof.
  unfold processNextStagedCommand. destruct (pendingStagedCommand_ t) as [c|] eqn:Hp.
  - rewrite Hp. by destruct (sharedPush c (ingressQueue_ t)) as [[] ?].
  - destruct (sharedPop (stagingQueue_ t)) as [[c|] staging]; [|done]. cbn.
    by destruct (sharedPush c (ingressQueue_ t)) as [[] ?].
Qed.

Lemma forwardBurst_runs count : ∀ progressed p,
  gatewayCursor (forwardBurst count progressed (gatewayIn p)).2 = GATEWAY_CURSOR ∧
  runs p (withGateway (forwardBurst count progressed (gatewayIn p)).2 p).
Proof.
  induction count as [|count IH]; intros progressed p; cbn [forwardBurst].
  { split; [done|]. cbn [snd]. rewrite (proj1 (with_same p)). apply rtc_refl. }
  pose proof (forward_cursor (gatewayIn p)) as Hc. pose proof (worker_forward (W:=W) p) as Hstep. unfold forwardNext in Hstep.
  destruct (processNextStagedCommand (gatewayIn p)) as [[] t1]; cbn [fst snd] in *.
  - destruct (IH true (withGateway t1 p)) as [Hc' Hruns]. rewrite gatewayIn_with in Hc', Hruns by done. split; [done|].
    by eapply runs_then.
  - split; [done|]. eapply runs_then; [exact Hstep|apply rtc_refl].
Qed.

Lemma readBurst_runs count : ∀ progressed p b t, readBurst count progressed (gatewayIn p) = (Ret b, t) → runs p (withGateway t p).
Proof.
  induction count as [|count IH]; intros progressed p b t; cbn [readBurst].
  { intros [= _ <-]. rewrite (proj1 (with_same p)). apply rtc_refl. }
  change (read (gatewayCursor (gatewayIn p)) (gatewayBus (gatewayIn p))) with (read GATEWAY_CURSOR (Process.multicastBus p)).
  destruct (read GATEWAY_CURSOR (Process.multicastBus p)) as [[[m|]|ex] bus] eqn:Hread; [| |done].
  - intros Hrun. eapply runs_then; [eapply (worker_read p (Some m)); unfold readNext; by rewrite Hread|].
    apply (IH true (withGateway (setGatewayBus bus (gatewayIn p)) p) b t). rewrite gatewayIn_with by done. exact Hrun.
  - intros [= _ <-]. eapply runs_then; [eapply (worker_read p None); unfold readNext; by rewrite Hread|apply rtc_refl].
Qed.

Lemma gateway_pass p b t : runIteration (gatewayIn p) = (Ret b, t) → runs p (withGateway t p).
Proof.
  unfold runIteration. destruct (forwardBurst_runs EXT_BURST_MESSAGES false p) as [Hc Hruns].
  destruct (forwardBurst EXT_BURST_MESSAGES false (gatewayIn p)) as [progressed t1]. cbn [snd] in *. intros Hrun.
  unfold runs in *. etransitivity; [exact Hruns|]. fold (runs (withGateway t1 p) (withGateway t p)). apply (readBurst_runs INT_BURST_MESSAGES progressed (withGateway t1 p) b t).
  by rewrite gatewayIn_with.
Qed.

(** *** The sequencer *)
Lemma processNext_unjournaled fuel (s : SequencerState Q) (w : W) b s' w' : journalWriter_ s = None →
  is_Some (sequencerAdmission_ s) → processNext fuel s w = (Ok (Ret b, s'), w') →
  processNext 0 s w = (Ok (Ret b, s'), w') ∧ journalWriter_ s' = None ∧ is_Some (sequencerAdmission_ s').
Proof.
  intros Hw Ha Hrun.
  assert (Hsame : processNext fuel s w = processNext 0 s w).
  { unfold processNext. destruct (pendingCommand_ s); [done|]. destruct (_ && _); [done|].
    destruct (sharedPop _) as [[m|] q]; [|done]. cbn [setQueues journalWriter_]. by rewrite Hw. }
  rewrite Hsame in Hrun. split; [done|]. clear Hsame. revert Hrun. unfold processNext, handoffPendingCommand.
  destruct (pendingCommand_ s) as [pending|] eqn:Hp; rewrite ?Hp.
  { destruct (pendingReadyForMatching_ s); unfold mret, io_ret; [|by intros; simplify_eq].
    destruct (sharedPush pending _) as [[] q]; intros; by simplify_eq. }
  destruct (_ && _).
  { unfold mret, io_ret. destruct (sharedEmpty _); intros; by simplify_eq. }
  destruct (sharedPop _) as [[m|] q]; cbn [setQueues journalWriter_]; rewrite ?Hw;
    unfold mret, io_ret; [|intros; by simplify_eq].
  cbn [nextCommandSequence]. unfold bindAndHandoff. cbn. destruct Ha as [index Ha]. rewrite Ha.
  destruct (markSequenced _ index) as [[st|ex] index1]; [|done].
  destruct (bool_decide (st ≠ _)); [done|]. unfold handoffPendingCommand. cbn.
  destruct (sharedPush _ _) as [[] q1]; intros; simplify_eq; by eauto.
Qed.

Lemma sequencer_pass loopFuel fuel : ∀ progressed p (w : W) b s w',
  drainAvailable loopFuel fuel progressed (sequencerIn p) w = (Ok (Ret b, s), w') →
  is_Some (sequencerAdmission_ s) ∧ runs p (withSequencer s p).
Proof.
  induction loopFuel as [|loopFuel IH]; intros progressed p w b s w'; cbn [drainAvailable]; [done|].
  unfold mbind at 1, io_bind at 1. destruct (processNext fuel (sequencerIn p) w) as [[[[c|ex] s1]| |] w1] eqn:Hrun; try done.
  apply processNext_unjournaled in Hrun as (Hrun & Hw1 & Ha1); [|done|by eexists].
  assert (Hstep : worker_step (W:=W) p (c, None, withSequencer s1 p)).
  { eapply (worker_sequence p w). unfold sequenceNext. by erewrite io_bind_run by exact Hrun. }
  destruct c.
  - intros Hrest. destruct (IH true (withSequencer s1 p) w1 b s w') as [Ha Hruns]; [by rewrite sequencerIn_with|].
    split; [done|]. rewrite withSequencer_twice in Hruns by done. by eapply runs_then.
  - unfold mret, io_ret. intros. simplify_eq. split; [done|]. eapply runs_then; [exact Hstep|apply rtc_refl].
Qed.

(** *** The engine *)
Lemma runCommand_pending m e e' : pendingCommandResult e = None → runCommand m e = (Ret true, e') →
  pendingCommandResult e' = None.
Proof.
  intros Hp. unfold runCommand, sendToBus, pushResult. destruct (processCommand _ _) as [[batch|ex] st]; [|done].
  unfold mbind, M_bind, modifyM, mret, M_ret. cbn. destruct (writeImpl _ _) as [[written|ex] bus]; [|done].
  unfold ResultQueue.tryPushResult. cbn. destruct (bool_decide _); intros; by simplify_eq.
Qed.

(** The engine's pass, as a sequence of its operations. *)
Definition engine_operations : relation (MatchingEngine Q) :=
  rtc (λ e1 e2, ∃ progressed, engineOperation e1 = (Ret progressed, e2)).

Lemma drainCommands_operations fuel : ∀ progressed e b e', pendingCommandResult e = None →
  drainCommands fuel progressed e = (Ret b, e') → engine_operations e e'.
Proof.
  induction fuel as [|fuel IH]; intros progressed e b e' Hp; cbn [drainCommands]; [done|].
  assert (Hop : engineOperation e = match sharedPop (sequencerQueue e) with
      | (None, queue) => (Ret false, setSequencerQueue queue e)
      | (Some message, queue) => (runCommand message ;; mret true) (setSequencerQueue queue e)
      end) by (unfold engineOperation, hasPendingResult; by rewrite bool_decide_eq_false_2 by (by intros [])).
  destruct (sharedPop (sequencerQueue e)) as [[m|] queue].
  2:{ intros [= _ <-]. apply rtc_once. by eexists. }
  unfold mbind, M_bind in *. destruct (runCommand m _) as [[pushed|ex] e1] eqn:Hrun; [|done]. cbn [mret M_ret] in Hop.
  intros Hrest. eapply rtc_l; [by eexists|]. destruct pushed.
  - apply (IH true e1 b e'); [|done]. by apply (runCommand_pending m (setSequencerQueue queue e)).
  - unfold mret, M_ret in Hrest. injection Hrest as _ <-. apply rtc_refl.
Qed.

Lemma advanceEngine_operations fuel e b e' : advanceEngine fuel e = (Ret b, e') → engine_operations e e'.
Proof.
  unfold advanceEngine, drainQueue. unfold mbind at 1, M_bind at 1, getM at 1. destruct (hasPendingResult e) eqn:Hpend.
  - assert (Hop : engineOperation e = handoffPendingResult e) by (unfold engineOperation; by rewrite Hpend).
    unfold mbind, M_bind in *. destruct (handoffPendingResult e) as [[handed|ex] e1] eqn:Hrun; [|done].
    intros Hrest. eapply rtc_l; [by eexists|]. destruct handed.
    + apply (drainCommands_operations fuel true e1 b e'); [|done].
      revert Hrun. unfold handoffPendingResult, mbind, M_bind, getM, mret, M_ret, modifyM.
      destruct (pendingCommandResult e) as [batch|] eqn:Hp.
      * destruct (pushResult batch _) as [[[]|] e2]; intros; by simplify_eq.
      * intros [= <-]. exact Hp.
    + unfold mret, M_ret in Hrest. injection Hrest as _ <-. apply rtc_refl.
  - apply drainCommands_operations. unfold hasPendingResult in Hpend.
    destruct (pendingCommandResult e); [|done]. by rewrite bool_decide_eq_true_2 in Hpend.
Qed.

Lemma engine_pass fuel p b e : advanceEngine fuel (engineIn p) = (Ret b, e) → runs p (withEngine e p).
Proof.
  intros Hops%advanceEngine_operations. remember (engineIn p) as e0 eqn:He. revert p He.
  induction Hops as [e0|e1 e2 e3 [progressed Hop] _ IH]; intros p ->.
  - destruct (with_same p) as (_ & _ & ->). apply rtc_refl.
  - eapply runs_then; [eapply (worker_match p progressed (withEngine e2 p)); unfold matchNext; by rewrite Hop|].
    apply (IH (withEngine e2 p)). by rewrite engineIn_with.
Qed.
End loops.
