(* ===== verification/ExchangeProcessTheorems.v ===== *)
(** * Properties of the exchange process

    Whatever the threads' timing, the sessions' messages are answered with the results
    the price-time specification gives for the admitted commands in their order of
    admission, every admission record is where its command is, no thread ever throws,
    and the workers finish every admitted command in a bounded number of operations. *)
From S2P Require Import Prelude KeyedList Domain Bytes JournalCodec RunHeaderCodec Posix JournalReader JournalWriter.
From S2P Require Import JournalLoadTheorems.
From S2P Require Import Matching MatchingSpec MatchingRefine Replay Projection Queues Admission AdmissionTheorems.
From S2P Require Import Sequencer SequencerCycle SequencerTheorems Bus EngineWorker FixParser FixParserTheorems FixTask.
From S2P Require Import Controller ExchangeProcess.

(** ** The sessions' clients *)
Section identities.
Context {SessionID : Type} `{Countable SessionID}.

Lemma configuredIdLoop_u64 text : ∀ value v, is_u64 value → configuredIdLoop text value = Ret v → is_u64 v.
Proof.
  induction text as [|c text IH]; intros value v Hu; cbn [configuredIdLoop]; [by intros [= <-]|].
  destruct (negb _); [done|]. cbn [throw_if mbind outcome_bind]. destruct (_ || _); [done|].
  cbn [throw_if mbind outcome_bind]. apply IH. unfold is_u64, wrap64, wrap, UINT64_MAX.
  pose proof (Z.mod_pos_bound (value * 10 + digit_value c) (2 ^ 64) ltac:(done)). lia.
Qed.

Lemma addSettings_ok sessions : ∀ mappings resolver, resolver_ok (SessionID:=SessionID) mappings →
  addSettings sessions mappings = Ret resolver → resolver_ok resolver.
Proof.
  induction sessions as [|[session [text|]] sessions IH]; intros mappings resolver Hok; cbn [addSettings]; [| |done].
  { unfold throw_if. destruct (bool_decide _); [done|]. by intros [= <-]. }
  unfold parseConfiguredClientId. destruct (throw_if (bool_decide (chars text = [])) _) as [|]; [|done].
  cbn [mbind outcome_bind]. destruct (configuredIdLoop (chars text) 0) as [v|] eqn:Hv; [|done].
  apply configuredIdLoop_u64 in Hv; [|done]. cbn [mbind outcome_bind].
  destruct (bool_decide_reflect (v = 0)) as [|Hz]; [done|]. unfold addMapping. cbn [throw_if mbind outcome_bind].
  rewrite (bool_decide_eq_false_2 (v = 0)) by done. cbn [throw_if mbind outcome_bind].
  destruct (bool_decide (is_Some (mappings !! session))); [done|]. cbn [throw_if mbind outcome_bind]. apply IH.
  intros s c Hs. change ((<[session := v]> (mappings : gmap SessionID ClientId)) !! s = Some c) in Hs.
  apply lookup_insert_Some in Hs as [[<- <-]|[_ Hs]]; [by split|by apply Hok in Hs].
Qed.

Lemma resolverFromSettings_ok sessions resolver :
  resolverFromSettings (SessionID:=SessionID) sessions = Ret resolver → resolver_ok resolver.
Proof. apply addSettings_ok. intros s c. change ((∅ : gmap SessionID ClientId) !! s = Some c → is_u64 c ∧ c ≠ 0). by rewrite lookup_empty. Qed.
End identities.

(** ** Admitted commands *)

(** What normalization guarantees of a command. *)
Record processable (m : sequenceMessage) : Prop := {
  pc_typed : typed_message m;
  pc_instrument : Msg.instrumentId m = 1;
  pc_configuration : Msg.configurationVersion m = 1;
  pc_key : ∃ key, keyFrom m = Ret key;
  pc_business : ∃ business, businessCommandFrom m = Ret business;
  pc_kind : (is_order m = true ∧ (Msg.tif m = TIF.GTC ∨ Msg.tif m = TIF.IOC)) ∨
            (Msg.type m = OrderType.CANCEL ∧ Msg.targetOrderId m ≠ None) }.

(** The message the engine gets for the [i]th admitted command. *)
Definition sequencedAs (i : nat) (m : sequenceMessage) : sequenceMessage := bound (withSequence (Z.of_nat i + 1) m).
Definition sequenced (commands : list sequenceMessage) : list sequenceMessage := imap sequencedAs commands.

Lemma sequenced_lookup commands i : sequenced commands !! i = sequencedAs i <$> commands !! i.
Proof. apply list_lookup_imap. Qed.
Lemma sequenced_length commands : length (sequenced commands) = length commands.
Proof. apply length_imap. Qed.
Lemma sequenced_snoc commands m : sequenced (commands ++ [m]) = sequenced commands ++ [sequencedAs (length commands) m].
Proof. unfold sequenced. rewrite imap_app. cbn. by rewrite Nat.add_0_r. Qed.
Lemma sequencedAs_sequence i m : Msg.globalSequenceNumber (sequencedAs i m) = Z.of_nat i + 1.
Proof. unfold sequencedAs. by rewrite sequence_bound, sequence_withSequence. Qed.

Lemma normalize_processable {F} `{FixMessagesLaws F} {SessionID} `{Countable SessionID}
    (resolver : ClientIdentityResolver SessionID) (message : F) sessionID m :
  resolver_ok resolver → normalize message sessionID resolver = Ret (Some m) → processable m.
Proof.
  intros Hresolver. unfold normalize.
  destruct (headerField FIELD.MsgType message) as [msgType|] eqn:Hheader; [|done]. cbn [required mbind outcome_bind].
  destruct (isProcessableMessageType msgType) eqn:Htype; cbn [negb]; [|done].
  pose proof (parseFixMessage_sound message sessionID resolver msgType Hresolver Hheader Htype) as Hs.
  destruct (parseFixMessage message sessionID resolver) as [m'|]; [|done]. cbn [mbind outcome_bind sound] in *.
  intros [= ->]. destruct Hs as (clientId & _ & (_ & _ & _ & Hi & Hv & _ & Ht & key & business & Hk & Hb) & Hkind).
  split; try done; [by eexists|by eexists|]. case_bool_decide.
  - right. destruct Hkind as (Hty & text & _ & _ & Htarget & _). split; [done|]. by rewrite Htarget.
  - left. destruct Hkind as (Hside & Htif & _). split; [|by destruct Htif as [[? _]|[? _]]; auto].
    unfold is_order. by destruct Hside as [[-> _]|[-> _]].
Qed.

Lemma sequencedAs_valid i m : processable m → Z.of_nat i + 1 ≤ UINT64_MAX → valid_command (sequencedAs i m).
Proof.
  intros [[_ _ _ _ Hq _ _ Ho] Hi Hv [key Hk] _ Hkind] Hmax. unfold sequencedAs, bound.
  assert (Hpos : 0 < Z.of_nat i + 1) by lia. revert Hpos Hmax. generalize (Z.of_nat i + 1). intros n Hpos Hmax.
  destruct m as [o t g cl cc ins v p q sy ty e sh tf]. cbn in *. subst o ins v. unfold keyFrom in Hk. cbn in Hk.
  destruct cc as [cc|]; [|done]. unfold throw_if in Hk. case_bool_decide as Hc; [done|].
  destruct Hkind as [[Horder Htif]|[-> Ht]].
  - assert (Hs : is_Some (restingSide ty)) by (destruct ty; eauto; done).
    unfold is_order in *. cbn in *. rewrite Horder. split; cbn; [done|done|lia|]. left. split; cbn; try done.
    by destruct Hs as [s ->].
  - unfold is_order. cbn [Msg.type]. rewrite !bool_decide_eq_false_2 by done. split; cbn; [done|done|lia|]. right. by split.
Qed.

Lemma sequencedAs_key i m : keyFrom (sequencedAs i m) = keyFrom m.
Proof. unfold sequencedAs. by rewrite keyFrom_bound, keyFrom_withSequence. Qed.
Lemma sequencedAs_business i m : businessCommandFrom (sequencedAs i m) = businessCommandFrom m.
Proof. unfold sequencedAs. by rewrite businessCommandFrom_bound, businessCommandFrom_withSequence. Qed.

(** ** The results of the admitted commands *)
Definition noBooks : Books := λ _ _, [].

Lemma processAll_run ms : ∀ n st, engine_ok (Z.of_nat n + 1) st →
  (∀ i m, ms !! i = Some m → valid_command m ∧ Msg.globalSequenceNumber m = Z.of_nat (n + i) + 1) →
  let spec := specRun (State.exchangeRunId st) ms (queueOf st) in
  ∃ st', processAll ms st = (Ret spec.1, st') ∧ ∀ i s, queueOf st' i s = spec.2 i s.
Proof.
  induction ms as [|m ms IH]; intros n st Hok Hms; [by exists st|]. cbn [processAll specRun].
  destruct (Hms 0%nat m eq_refl) as [Hv Hseq]. rewrite Nat.add_0_r in Hseq.
  destruct (processCommand_refines (Z.of_nat n + 1) st m Hok ltac:(lia) Hv) as (st1 & Hrun & Hsim).
  pose proof (engine_ok_next (Z.of_nat n + 1) st st1 m Hok ltac:(lia) Hv Hsim) as Hok1. rewrite Hseq in Hok1.
  replace (Z.of_nat n + 1 + 1) with (Z.of_nat (Datatypes.S n) + 1) in Hok1 by lia.
  destruct (IH (Datatypes.S n) st1 Hok1) as (st2 & Hall & Hbooks).
  { intros i m' Hi. destruct (Hms (Datatypes.S i) m' Hi) as [? ?]. split; [done|lia]. }
  destruct Hsim as [_ Hsame Hq _]. rewrite Hsame in Hall, Hbooks.
  destruct (specRun_proper (State.exchangeRunId st) ms (queueOf st1)
    (specProcess (State.exchangeRunId st) m (queueOf st)).2 Hq) as [Hl Hb].
  exists st2. erewrite M_bind_run by exact Hrun. erewrite M_bind_run by exact Hall. cbn [fst snd]. split.
  - unfold mret, M_ret. by rewrite Hl.
  - intros i s. rewrite Hbooks. apply Hb.
Qed.

Lemma sequenced_run commands k : Forall processable commands → Z.of_nat (length commands) ≤ UINT64_MAX →
  let spec := specRun 0 (take k (sequenced commands)) noBooks in
  ∃ st, processAll (take k (sequenced commands)) (newMatchingState 0) = (Ret spec.1, st) ∧
    ∀ i s, queueOf st i s = spec.2 i s.
Proof.
  intros Hp Hmax. 
  destruct (processAll_run (take k (sequenced commands)) 0 (newMatchingState 0)) as (st & Hall & Hbooks).
  - destruct (engine_ok_new 0) as [Hwf _ _ Hl]. split; [done| |done|done].
    intros o. simpl. rewrite lookup_empty. by intros [].
  - intros i m Hi. apply lookup_take_Some in Hi as [Hi _]. rewrite sequenced_lookup in Hi.
    apply fmap_Some in Hi as (m0 & Hm0 & ->). split; [|apply sequencedAs_sequence].
    apply sequencedAs_valid; [by eapply Forall_lookup_1|]. pose proof (lookup_lt_Some _ _ _ Hm0). lia.
  - exists st. assert (Hq : books_eq (queueOf (newMatchingState 0)) noBooks).
    { intros i s. unfold queueOf. simpl. by destruct s. }
    destruct (specRun_proper 0 (take k (sequenced commands)) _ _ Hq) as [Hl Hb].
    change (State.exchangeRunId (newMatchingState 0)) with 0 in *. rewrite Hl in Hall. split; [done|].
    intros i s. rewrite Hbooks. apply Hb.
Qed.

(** ** The admission records

    The record of the [i]th admitted command: completed with its result when there is
    one, else sequenced when it is among the first [k], else reserved. *)
Definition recordOf (k : nat) (results : list CommandResultBatch) (i : nat) (business : NormalizedBusinessCommand)
    : AdmissionRecord :=
  match results !! i with
  | Some result => Entry.mkRecord business RecordState.COMPLETED (Z.of_nat i + 1) (Some result)
  | None => if bool_decide (i < k)%nat then sequencedRecord business (Z.of_nat i + 1) else reservedRecord business
  end.

Record index_holds (commands : list sequenceMessage) (k : nat) (results : list CommandResultBatch)
    (index : CommandAdmissionIndex) : Prop := {
  ih_ok : index_ok index;
  ih_capacity : capacity_ index = COMMAND_ADMISSION_CAPACITY;
  ih_run : exchangeRunId_ index = 0;
  ih_unique : NoDup (key_of <$> commands);
  ih_order : (length results ≤ k ≤ length commands)%nat;
  ih_records i m : commands !! i = Some m → ∃ key business, keyFrom m = Ret key ∧ businessCommandFrom m = Ret business ∧
    records_ index !! key = Some (recordOf k results i business) }.

Lemma admitted_bound commands k results index : index_holds commands k results index →
  Z.of_nat (length commands) ≤ COMMAND_ADMISSION_CAPACITY.
Proof.
  intros [[Hcap _] Hc _ Hu _ Hr]. rewrite Hc in Hcap.
  assert (Hsub : key_of <$> commands ⊆+ Some <$> base.elements (dom (records_ index))).
  { apply NoDup_submseteq; [done|]. intros key (m & -> & (i & Hi)%list_elem_of_lookup_1)%list_elem_of_fmap.
    destruct (Hr i m Hi) as (key & business & Hk & _ & Hrec). rewrite (key_of_run _ _ Hk).
    apply list_elem_of_fmap_2, elem_of_elements, elem_of_dom. by eexists. }
  apply submseteq_length in Hsub. rewrite !length_fmap in Hsub.
  assert (Hsize : length (base.elements (dom (records_ index))) = size (records_ index)) by apply size_dom. lia.
Qed.

(** The key of a command is its only one. *)
Lemma index_key_inj commands k results index i j m m' key : index_holds commands k results index →
  commands !! i = Some m → commands !! j = Some m' → keyFrom m = Ret key → keyFrom m' = Ret key → i = j.
Proof.
  intros Hih Hi Hj Hk Hk'. eapply (NoDup_lookup (key_of <$> commands)); [apply Hih| |].
  - rewrite list_lookup_fmap, Hi. cbn. by rewrite (key_of_run _ _ Hk).
  - rewrite list_lookup_fmap, Hj. cbn. by rewrite (key_of_run _ _ Hk').
Qed.

Lemma index_same commands k results index index' : index_ok index' → capacity_ index' = capacity_ index →
  exchangeRunId_ index' = exchangeRunId_ index → records_ index' = records_ index →
  index_holds commands k results index → index_holds commands k results index'.
Proof. intros Hok Hc Hr Hrec [_ ? ? ? ? ?]. split; try done; by rewrite ?Hc, ?Hr, ?Hrec. Qed.

(** Replacing the record of the [i]th command where its description changes. *)
Lemma index_update commands k results k' results' index i m key business :
  index_holds commands k results index → commands !! i = Some m → keyFrom m = Ret key →
  businessCommandFrom m = Ret business → (length results' ≤ k' ≤ length commands)%nat →
  (∀ j b, j ≠ i → recordOf k' results' j b = recordOf k results j b) →
  let index' := setRecords (<[key := recordOf k' results' i business]> (records_ index)) index in
  index_ok index' → index_holds commands k' results' index'.
Proof.
  intros Hih Hi Hk Hb Horder Hother index' Hok. pose proof Hih as [_ Hc Hrun Hu _ Hr]. split; try done.
  intros j m' Hj. destruct (Hr j m' Hj) as (key' & business' & Hk' & Hb' & Hrec). exists key', business'.
  split_and!; [done|done|]. cbn. destruct (decide (j = i)) as [->|Hne].
  - rewrite Hi in Hj. injection Hj as <-. assert (key' = key ∧ business' = business) as [-> ->] by (split; congruence).
    apply lookup_insert_eq.
  - rewrite lookup_insert_ne; [by rewrite Hother|]. intros ->. by eapply Hne, index_key_inj.
Qed.

(** The sequencer marks the next command. *)
Lemma index_mark commands k results index m key business : index_holds commands k results index →
  commands !! k = Some m → keyFrom m = Ret key → businessCommandFrom m = Ret business →
  records_ index !! key = Some (reservedRecord business) ∧
  index_holds commands (Datatypes.S k) results
    (setRecords (<[key := sequencedRecord business (Z.of_nat k + 1)]> (records_ index)) index).
Proof.
  intros Hih Hm Hk Hb. pose proof (ih_order _ _ _ _ Hih) as Horder. pose proof (lookup_lt_Some _ _ _ Hm) as Hlt.
  assert (Hnone : results !! k = None) by (apply lookup_ge_None; lia).
  assert (Hrec : records_ index !! key = Some (reservedRecord business)).
  { destruct (ih_records _ _ _ _ Hih k m Hm) as (key' & business' & Hk' & Hb' & Hrec).
    assert (key' = key ∧ business' = business) as [-> ->] by (split; congruence). rewrite Hrec.
    unfold recordOf. rewrite Hnone. by rewrite bool_decide_eq_false_2 by lia. }
  split; [done|].
  assert (Heq : sequencedRecord business (Z.of_nat k + 1) = recordOf (Datatypes.S k) results k business).
  { unfold recordOf. rewrite Hnone. by rewrite bool_decide_eq_true_2 by lia. }
  rewrite Heq. apply (index_update commands k results (Datatypes.S k) results index k m key business);
    [done|done|done|done|lia| |].
  - intros j b Hne. unfold recordOf. destruct (results !! j); [done|].
    destruct (decide (j < k)%nat); [by rewrite !bool_decide_eq_true_2 by lia|by rewrite !bool_decide_eq_false_2 by lia].
  - rewrite <-Heq. destruct (update_record index key (reservedRecord business) (sequencedRecord business (Z.of_nat k + 1)) Hrec)
      as (? & _ & _); [split_and!; [done|simpl; lia|done|done]|by split; [cbn; lia|]|apply Hih|done].
Qed.

Lemma sequencedAs_correlation i m key : keyFrom m = Ret key →
  correlationOf 0 (sequencedAs i m) =
    Correlation.mkCorrelation (AdmissionKey.clientId key) (AdmissionKey.clientCommandId key) (Z.of_nat i + 1) 0.
Proof.
  unfold correlationOf. rewrite sequencedAs_sequence. unfold sequencedAs, bound, keyFrom.
  destruct m as [o t g cl cc ins v p q sy ty e sh tf]. cbn [Msg.clientId Msg.clientCommandId withSequence].
  destruct cc as [cc|]; [|done]. unfold throw_if. destruct (bool_decide (cl = 0)); [done|]. intros [= <-].
  by destruct (is_order _).
Qed.

(** The consumer completes the oldest command that has no result yet. *)
Lemma index_complete commands k results index m b : index_holds commands k results index →
  (length results < k)%nat → commands !! length results = Some m → processable m →
  Batch.correlation b = correlationOf 0 (sequencedAs (length results) m) →
  ∃ index', complete (Some b) index = (Completion.COMPLETED, index') ∧ index_holds commands k (results ++ [b]) index'.
Proof.
  intros Hih Hlt Hm [Ht _ _ _ _ _] Hcorr. pose proof (ih_order _ _ _ _ Hih) as Horder.
  destruct (ih_records _ _ _ _ Hih _ _ Hm) as (key & business & Hk & Hb & Hrec).
  assert (Hold : recordOf k results (length results) business = sequencedRecord business (Z.of_nat (length results) + 1)).
  { unfold recordOf. rewrite (proj2 (lookup_ge_None _ _)) by lia. by rewrite bool_decide_eq_true_2. }
  assert (Hnew : recordOf k (results ++ [b]) (length results) business =
    Entry.mkRecord business RecordState.COMPLETED (Z.of_nat (length results) + 1) (Some b)).
  { unfold recordOf. by rewrite lookup_app_r, Nat.sub_diag by lia. }
  rewrite Hold in Hrec. rewrite (sequencedAs_correlation _ _ _ Hk) in Hcorr.
  assert (Hkey : AdmissionKey.clientId key ≠ 0 ∧ AdmissionKey.clientCommandId key ≠ ""%string).
  { unfold keyFrom in Hk. destruct (Msg.clientCommandId m) as [c|] eqn:Hc; [|done]. unfold throw_if in Hk.
    case_bool_decide; [done|]. injection Hk as <-. split; [done|]. pose proof (tm_command _ Ht _ Hc) as [[Hlen _] _].
    intros Hempty. cbn in Hempty. rewrite Hempty in Hlen. simpl in Hlen. lia. }
  destruct Hkey as [Hclient Hid]. eexists. split.
  - unfold complete. rewrite Hcorr.
    cbn [Correlation.clientId Correlation.commandSequence Correlation.clientCommandId Correlation.exchangeRunId].
    rewrite (bool_decide_eq_false_2 (AdmissionKey.clientId key = 0)), (bool_decide_eq_false_2 (_ + 1 = 0)),
      (bool_decide_eq_false_2 (AdmissionKey.clientCommandId key = _)) by (done || lia). cbn [orb].
    rewrite (ih_run _ _ _ _ Hih), bool_decide_eq_false_2 by auto. unfold keyFromCorrelation. cbn.
    replace (AdmissionKey.mkAdmissionKey _ _) with key by (by destruct key). rewrite Hrec. cbn.
    rewrite !bool_decide_eq_false_2 by auto. by rewrite <-Hnew.
  - apply (index_update commands k results k (results ++ [b]) index (length results) m key business);
      [done|done|done|done|rewrite length_app; simpl; lia| |].
    + intros j b' Hne. unfold recordOf. destruct (decide (j < length results)%nat).
      * by rewrite lookup_app_l by lia.
      * rewrite lookup_app_r by lia. rewrite (proj2 (lookup_ge_None results j)) by lia.
        by rewrite (proj2 (lookup_ge_None [b] _)) by (simpl; lia).
    + destruct (update_record index key _ (recordOf k (results ++ [b]) (length results) business) Hrec) as (? & _ & _);
        [| |apply Hih|done]; rewrite Hnew.
      * split_and!; [done|simpl; lia|done|done].
      * split; [cbn; lia|]. exists b. split; [done|]. by rewrite Hcorr, (ih_run _ _ _ _ Hih).
Qed.

Section exchange.
Context {W : Type} `{Posix W} {Q : Type} `{NewSharedQueueLaws sequenceMessage Q}.
Context {F : Type} `{FixMessagesLaws F} {SessionID : Type} `{Countable SessionID}.
Context (resolver : ClientIdentityResolver SessionID) (Hresolver : resolver_ok resolver).
Implicit Types (p : ExchangeProcess Q) (e : MatchingEngine Q).

(** A submission is decided; a first one adds its command. *)
Lemma index_reserve commands k results index (queue : Q) m : index_holds commands k results index → processable m →
  ∃ decision index' queue', reserveAndStage m (index, queue) = (Ret decision, (index', queue')) ∧
    index_holds (commands ++ (if bool_decide (status decision = AdmissionStatus.FIRST_SUBMISSION) then [m] else []))
      k results index'.
Proof.
  intros Hih [_ _ _ [key Hk] [business Hb] _]. pose proof (ih_order _ _ _ _ Hih) as Horder.
  unfold reserveAndStage. rewrite (reserveAndStage_run m true index queue key business Hk Hb).
  destruct (records_ index !! key) as [r|] eqn:Hr.
  - destruct (reserveLocked_known key business m true index (Some queue) r Hr) as (d & -> & Hd).
    do 3 eexists. split; [reflexivity|].
    rewrite bool_decide_eq_false_2, app_nil_r by (rewrite Hd; by repeat case_bool_decide).
    apply (index_same _ _ _ index); [by apply (index_ok_records index), Hih|done..].
  - destruct (reserveLocked_new key business m true index queue Hr) as (i & q & Hrun & Hcase). rewrite Hrun.
    do 3 eexists. split; [reflexivity|]. pose proof Hrun as [Hok _]%reserveLocked_advances; [|apply Hih].
    destruct (admits _ _ _ _); [destruct Hcase as (_ & _ & ->)|destruct Hcase as [_ ->]].
    2:{ rewrite app_nil_r. by apply (index_same _ _ _ index). }
    rewrite bool_decide_eq_true_2 by done. destruct Hih as [_ Hc Hrid Hu _ Hrec]. split; try done.
    + rewrite fmap_app. apply NoDup_app. split_and!; [done| |by apply NoDup_singleton].
      intros x Hx ->%list_elem_of_singleton. rewrite (key_of_run _ _ Hk) in Hx.
      apply list_elem_of_fmap in Hx as (m' & Hm' & (j & Hj)%list_elem_of_lookup_1).
      destruct (Hrec j m' Hj) as (key' & b' & Hk' & _ & Hr'). rewrite (key_of_run _ _ Hk') in Hm'. injection Hm' as <-.
      by rewrite Hr in Hr'.
    + rewrite length_app. simpl. lia.
    + intros j m' Hj. apply lookup_app_Some in Hj as [Hj|[Hge Hj]].
      * destruct (Hrec j m' Hj) as (key' & b' & Hk' & Hb' & Hr'). exists key', b'. split_and!; [done|done|]. cbn.
        rewrite lookup_insert_ne; [done|]. intros ->. by rewrite Hr in Hr'.
      * apply list_lookup_singleton_Some in Hj as [Hj0 <-]. exists key, business. split_and!; [done|done|]. cbn.
        rewrite lookup_insert_eq. unfold recordOf. rewrite (proj2 (lookup_ge_None results j)) by lia.
        by rewrite bool_decide_eq_false_2 by lia.
Qed.

(** ** One operation of the engine *)

(** What the engine's operations leave alone. *)
Definition engine_fixed (e e' : MatchingEngine Q) : Prop :=
  Bus.reader_cursors_ (multicastBus e').1 = Bus.reader_cursors_ (multicastBus e).1 ∧
  Bus.size_ (multicastBus e').1 = Bus.size_ (multicastBus e).1 ∧
  ResultQueue.capacity_ (commandResultQueue e') = ResultQueue.capacity_ (commandResultQueue e) ∧
  nodesOf (sequencerQueue e') = nodesOf (sequencerQueue e).

Lemma engine_fixed_trans e e1 e2 : engine_fixed e e1 → engine_fixed e1 e2 → engine_fixed e e2.
Proof. unfold engine_fixed. intros (? & ? & ? & ?) (? & ? & ? & ?). split_and!; congruence. Qed.

Lemma writeImpl_fixed m s r s' : writeImpl m s = (r, s') →
  Bus.reader_cursors_ s'.1 = Bus.reader_cursors_ s.1 ∧ Bus.size_ s'.1 = Bus.size_ s.1.
Proof.
  unfold writeImpl, blockedByReaders, refreshMinimum, modifyBus, mbind, M_bind, liftM, modifyM, mret, M_ret.
  intros Hrun. repeat case_match; by simplify_eq/=.
Qed.

Lemma sendToBus_fixed m e r e' : sendToBus m e = (r, e') → engine_fixed e e'.
Proof.
  unfold sendToBus. destruct (writeImpl m (multicastBus e)) as [r' bus] eqn:Hrun.
  apply writeImpl_fixed in Hrun as [Hr Hs]. destruct r'; intros; simplify_eq; by split_and!.
Qed.

Lemma pushResult_fixed batch e r e' : pushResult batch e = (r, e') → engine_fixed e e'.
Proof.
  unfold pushResult, ResultQueue.tryPushResult. case_bool_decide; intros; simplify_eq; by split_and!.
Qed.

Lemma runCommand_fixed m e b e' : runCommand m e = (Ret b, e') → engine_fixed e e'.
Proof.
  unfold runCommand. destruct (processCommand _ _) as [[batch|ex] st]; [|done].
  intros (u & e1 & Hsend & (u2 & e2 & Hm & (pushed & e3 & Hpush & (u3 & e4 & Hset & Hend)%M_bind_inv)%M_bind_inv)%M_bind_inv)%M_bind_inv.
  apply sendToBus_fixed in Hsend. apply pushResult_fixed in Hpush. unfold modifyM, mret, M_ret in *.
  destruct pushed; simplify_eq/=; (eapply engine_fixed_trans; [|exact Hpush]); exact Hsend.
Qed.

Lemma handoffPendingResult_fixed e b e' : handoffPendingResult e = (Ret b, e') → engine_fixed e e'.
Proof.
  unfold handoffPendingResult, mbind at 1, M_bind at 1, getM at 1.
  destruct (pendingCommandResult e); [|unfold mret, M_ret; intros; simplify_eq; by split_and!].
  intros (pushed & e1 & Hpush%pushResult_fixed & Hend)%M_bind_inv. unfold mbind, M_bind, modifyM, mret, M_ret in Hend.
  destruct pushed; simplify_eq/=; exact Hpush.
Qed.

Lemma engineOperation_fixed e b e' : engineOperation e = (Ret b, e') → engine_fixed e e'.
Proof.
  unfold engineOperation. destruct (hasPendingResult e); [apply handoffPendingResult_fixed|].
  pose proof (pop_nodes (sequencerQueue e)) as Hn.
  destruct (sharedPop (sequencerQueue e)) as [[m|] queue]; [|intros; simplify_eq; by split_and!].
  intros (b' & e1 & Hrun%runCommand_fixed & Hend)%M_bind_inv. unfold mret, M_ret in Hend. simplify_eq.
  eapply engine_fixed_trans; [|exact Hrun]. by split_and!.
Qed.

(** What the engine has left, weighted by the operations it still takes. *)
Definition engine_left (e : MatchingEngine Q) : nat :=
  3 * length (queued (sequencerQueue e)) + length (unpublished e) + length (option_list (pendingCommandResult e)).

Lemma processAll_length ms : ∀ st batches st', processAll ms st = (Ret batches, st') → length batches = length ms.
Proof.
  induction ms as [|m ms IH]; intros st batches st'; cbn [processAll].
  - unfold mret, M_ret. by intros [= <- _].
  - intros (b & st1 & _ & (bs & st2 & Hall%IH & Hend)%M_bind_inv)%M_bind_inv. unfold mret, M_ret in Hend.
    simplify_eq/=. by rewrite Hall.
Qed.

Lemma worker_unpublished st0 consumed history log published e : worker_ok st0 consumed history log published e →
  (length published + length (unpublished e) = length consumed)%nat.
Proof. intros Hok. rewrite <-(processAll_length _ _ _ _ (wk_results _ _ _ _ _ _ Hok)). by rewrite length_app. Qed.

Lemma handoff_refused e e' : handoffPendingResult e = (Ret false, e') →
  ResultQueue.capacity_ (commandResultQueue e) ≤ Z.of_nat (length (ResultQueue.batches_ (commandResultQueue e))).
Proof.
  unfold handoffPendingResult, mbind at 1, M_bind at 1, getM at 1.
  destruct (pendingCommandResult e); [|by unfold mret, M_ret]. unfold pushResult, ResultQueue.tryPushResult, mbind, M_bind.
  case_bool_decide; [done|]. unfold modifyM, mret, M_ret. by intros [=].
Qed.

Lemma engineOperation_run st0 consumed history log published e :
  worker_ok st0 consumed history log published e → countable_commands (consumed ++ queued (sequencerQueue e)) e →
  (∀ m rest, queued (sequencerQueue e) = m :: rest → ∃ bs st, processAll (consumed ++ [m]) st0 = (Ret bs, st)) →
  ∃ progressed e' consumed' history', engineOperation e = (Ret progressed, e') ∧
    worker_ok st0 consumed' history' log published e' ∧
    consumed' ++ queued (sequencerQueue e') = consumed ++ queued (sequencerQueue e) ∧
    (engine_left e' + (if progressed then 1 else 0) ≤ engine_left e)%nat ∧
    (progressed = false →
       ResultQueue.capacity_ (commandResultQueue e) ≤ Z.of_nat (length (ResultQueue.batches_ (commandResultQueue e))) ∨
       (pendingCommandResult e = None ∧ queued (sequencerQueue e) = [])).
Proof.
  intros Hok Hcount Hnext. pose proof (worker_unpublished _ _ _ _ _ _ Hok) as Hun.
  unfold engineOperation, hasPendingResult. case_bool_decide as Hp.
  - destruct (handoff_run _ _ _ _ _ _ Hok) as (handed & e' & Hrun & Hok' & Hq & Hb & Hnone).
    exists handed, e', consumed, history. pose proof (worker_unpublished _ _ _ _ _ _ Hok') as Hun'. rewrite Hq.
    split_and!; [done|done|done| |intros ->; left; by eapply handoff_refused].
    unfold engine_left. rewrite Hq. destruct (pendingCommandResult e); [|done]. destruct handed.
    + rewrite (proj1 Hnone eq_refl). simpl. lia.
    + destruct (pendingCommandResult e'); simpl; lia.
  - assert (Hpn : pendingCommandResult e = None) by (by destruct (pendingCommandResult e); [destruct Hp|]).
    destruct (pop_law (sequencerQueue e)) as [Hpop Htail]. rewrite Hpop.
    destruct (queued (sequencerQueue e)) as [|m rest] eqn:Hq; cbn [head tl] in *.
    { eexists false, _, consumed, history. split; [reflexivity|]. cbn. rewrite Htail. split_and!; [|done| |by right].
      - destruct Hok. by split.
      - unfold engine_left, unpublished. cbn. lia. }
    set (e1 := setSequencerQueue _ e). assert (Hq1 : queued (sequencerQueue e1) = rest) by exact Htail.
    assert (Hok1 : worker_ok st0 consumed history log published e1) by (destruct Hok; by split).
    assert (Hcount1 : countable_commands (consumed ++ [m]) e1).
    { unfold countable_commands in *. cbn. rewrite !length_app in *. simpl in *. lia. }
    destruct (runCommand_run m st0 consumed history log published e1 Hok1 Hpn Hcount1)
      as [(pushed & e2 & history' & Hrun & Hok2 & Hqueue & _ & _)|(ex & e2 & _ & _ & Hfail & _)].
    + exists true, e2, (consumed ++ [m]), history'. erewrite M_bind_run by exact Hrun. rewrite Hqueue, Hq1.
      split_and!; [done|done|by rewrite <-app_assoc| |done].
      pose proof (worker_unpublished _ _ _ _ _ _ Hok2) as Hun2. rewrite length_app in Hun2. simpl in Hun2.
      unfold engine_left. rewrite Hqueue, Hq1, Hq. destruct (pendingCommandResult e2); simpl; lia.
    + destruct (Hnext m rest eq_refl) as (bs & st & Hbs). by rewrite Hfail in Hbs.
Qed.

(** ** One operation of the sequencer *)
Definition sequencer_left (s : SequencerState Q) : nat :=
  5 * length (queued (sequencingIngressQueue_ s)) + 4 * length (option_list (pendingCommand_ s)) +
  3 * length (queued (matchingEngineQueue_ s)).

(** A sequencer without a journal, that gave [k] commands their sequence. *)
Record sequencer_ok (commands : list sequenceMessage) (k : nat) (results : list CommandResultBatch)
    (s : SequencerState Q) : Prop := {
  sq_writer : journalWriter_ s = None;
  sq_index : ∃ index, sequencerAdmission_ s = Some index ∧ index_holds commands k results index;
  sq_last : lastAssignedSequence_ s = Z.of_nat k;
  sq_ready : pendingReadyForMatching_ s = bool_decide (pendingCommand_ s ≠ None) }.

Lemma sequencer_waiting commands k results s : sequencer_ok commands k results s →
  waiting s = option_list (pendingCommand_ s).
Proof. intros [_ _ _ Hr]. unfold waiting. rewrite Hr. by destruct (pendingCommand_ s). Qed.

(** [s'] after [s] took the commands [taken] from its ingress. *)
Record sequencer_advanced (k : nat) (taken : list sequenceMessage) (s s' : SequencerState Q) : Prop := {
  sa_ingress : queued (sequencingIngressQueue_ s) = taken ++ queued (sequencingIngressQueue_ s');
  sa_handed : queued (matchingEngineQueue_ s') ++ option_list (pendingCommand_ s') =
    queued (matchingEngineQueue_ s) ++ option_list (pendingCommand_ s) ++ imap (λ i, sequencedAs (k + i)) taken;
  sa_nodes : nodesOf (sequencingIngressQueue_ s') = nodesOf (sequencingIngressQueue_ s) ∧
    nodesOf (matchingEngineQueue_ s') = nodesOf (matchingEngineQueue_ s) }.

(** Why an operation of the sequencer makes no progress. *)
Definition sequencer_blocked (s : SequencerState Q) : Prop :=
  (pendingCommand_ s = None ∧ queued (sequencingIngressQueue_ s) = []) ∨
  queued (matchingEngineQueue_ s) ≠ [] ∨ nodesOf (matchingEngineQueue_ s) ≤ 0.

Lemma refused_blocks m (q : Q) q' : sharedPush m q = (false, q') → queued q ≠ [] ∨ nodesOf q ≤ 0.
Proof.
  intros Hpush. destruct (decide (queued q = [])) as [He|]; [right|by left].
  destruct (decide (nodesOf q ≤ 0)) as [|Hn]; [done|]. assert (Hpos : 0 < nodesOf q) by lia.
  pose proof (push_empty m q He Hpos) as Ht. by rewrite Hpush in Ht.
Qed.

Lemma sequencer_run commands k results s (w : W) : sequencer_ok commands k results s →
  (∀ m, head (queued (sequencingIngressQueue_ s)) = Some m → commands !! k = Some m) →
  ∃ progressed s' taken, processNext 0 s w = (Ok (Ret progressed, s'), w) ∧
    sequencer_ok commands (k + length taken) results s' ∧ sequencer_advanced k taken s s' ∧
    (sequencer_left s' + (if progressed then 1 else 0) ≤ sequencer_left s)%nat ∧
    (progressed = false → sequencer_blocked s).
Proof.
  intros Hok Hnext. pose proof Hok as [Hw (index & Hadm & Hih) Hlast Hready]. unfold processNext.
  destruct (pendingCommand_ s) as [pending|] eqn:Hp.
  - rewrite Hready, bool_decide_eq_true_2 by done. unfold handoffPendingCommand. rewrite Hp.
    pose proof (push_cases pending (matchingEngineQueue_ s)) as Hpush.
    pose proof (push_nodes pending (matchingEngineQueue_ s)) as Hn.
    pose proof (refused_blocks pending (matchingEngineQueue_ s)) as Href.
    destruct (sharedPush pending (matchingEngineQueue_ s)) as [pushed matching].
    pose proof (f_equal length Hpush) as Hlen. rewrite !length_app in Hlen.
    destruct pushed; (eexists _, _, []; split; [reflexivity|]; rewrite Nat.add_0_r; split_and!).
    + split; cbn; eauto.
    + split; cbn; rewrite ?Hp, ?app_nil_r in *; done.
    + unfold sequencer_left. cbn in *. rewrite Hp. cbn. lia.
    + done.
    + split; cbn; rewrite ?Hp; eauto.
    + split; cbn; rewrite ?Hp; cbn; rewrite ?Hpush; done.
    + unfold sequencer_left. cbn in *. rewrite Hp. cbn. lia.
    + intros _. right. by eapply Href.
  - pose proof (admitted_bound _ _ _ _ Hih) as Hbound. pose proof (ih_order _ _ _ _ Hih) as Horder.
    unfold COMMAND_ADMISSION_CAPACITY in Hbound.
    rewrite Hw, (bool_decide_eq_true_2 (None = None)), bool_decide_eq_false_2 by (done || (rewrite Hlast; unfold UINT64_MAX; lia)).
    cbn [andb]. destruct (pop_law (sequencingIngressQueue_ s)) as [Hpop Htail]. pose proof (pop_nodes (sequencingIngressQueue_ s)) as Hn.
    rewrite Hpop. set (ingress := (sharedPop (sequencingIngressQueue_ s)).2) in *.
    destruct (queued (sequencingIngressQueue_ s)) as [|m rest] eqn:Hq; cbn [head tl] in *.
    + eexists false, _, []. rewrite Nat.add_0_r. split; [reflexivity|]. split_and!; [| | |by left].
      * split; cbn; rewrite ?Hp; eauto.
      * split; cbn; rewrite ?Hp, ?Hq, ?Htail, ?app_nil_r; done.
      * unfold sequencer_left. cbn. rewrite Hp, Htail. simpl. lia.
    + specialize (Hnext m eq_refl). destruct (ih_records _ _ _ _ Hih _ _ Hnext) as (key & business & Hk & Hb & _).
      destruct (index_mark _ _ _ _ _ _ _ Hih Hnext Hk Hb) as [Hrec Hih'].
      set (s1 := setLastAssigned (Z.of_nat k + 1) (setQueues ingress (matchingEngineQueue_ s) s)).
      pose proof (bindAndHandoff_run s1 m (Z.of_nat k + 1) index key business ltac:(lia) Hadm Hk Hb Hrec) as Hbind.
      cbv zeta in Hbind. fold (sequencedAs k m) in Hbind.
      pose proof (push_cases (sequencedAs k m) (matchingEngineQueue_ s)) as Hpush.
      pose proof (push_nodes (sequencedAs k m) (matchingEngineQueue_ s)) as Hn'.
      pose proof (refused_blocks (sequencedAs k m) (matchingEngineQueue_ s)) as Href.
      change (matchingEngineQueue_ s1) with (matchingEngineQueue_ s) in Hbind.
      destruct (sharedPush (sequencedAs k m) (matchingEngineQueue_ s)) as [pushed matching].
      exists pushed. eexists _, [m]. rewrite Nat.add_1_r. pose proof (f_equal length Hpush) as Hlen. rewrite !length_app in Hlen.
      split.
      { cbn [setQueues journalWriter_]. rewrite Hw. unfold nextCommandSequence. cbn [setQueues lastAssignedSequence_]. rewrite Hlast.
        rewrite wrap64_small by (unfold is_u64, UINT64_MAX; lia). fold s1. unfold mret, io_ret. by rewrite Hbind. }
      split_and!.
      * split; cbn; [done|by eexists|lia|by destruct pushed].
      * split; cbn; [by rewrite Hq, Htail| |done]. rewrite Hp, Nat.add_0_r. cbn. rewrite <-Hpush. by destruct pushed.
      * unfold sequencer_left. cbn. rewrite Hp, Hq, Htail. destruct pushed; simpl in *; lia.
      * intros ->. right. by eapply Href.
Qed.

(** ** The gateway's operations *)
Definition gateway_left (t : FixTask Q) : nat :=
  7 * length (queued (stagingQueue_ t)) + 6 * length (option_list (pendingStagedCommand_ t)) +
  5 * length (queued (ingressQueue_ t)).

Definition gateway_blocked (t : FixTask Q) : Prop :=
  (pendingStagedCommand_ t = None ∧ queued (stagingQueue_ t) = []) ∨
  queued (ingressQueue_ t) ≠ [] ∨ nodesOf (ingressQueue_ t) ≤ 0.

Lemma forward_run (t : FixTask Q) :
  let '(forwarded, t') := processNextStagedCommand t in
  in_flight t' = in_flight t ∧ gatewayBus t' = gatewayBus t ∧ commandAdmissionIndex t' = commandAdmissionIndex t ∧
  nodesOf (ingressQueue_ t') = nodesOf (ingressQueue_ t) ∧
  (gateway_left t' + (if forwarded : bool then 1 else 0) ≤ gateway_left t)%nat ∧
  (forwarded = false → gateway_blocked t).
Proof.
  pose proof (processNextStagedCommand_flight t) as Hf. unfold processNextStagedCommand, gateway_left, gateway_blocked in *.
  destruct (pop_law (stagingQueue_ t)) as [Hpop Htail]. 
  destruct (pendingStagedCommand_ t) as [command|] eqn:Hp.
  - rewrite Hp in *. pose proof (push_cases command (ingressQueue_ t)) as Hpush.
    pose proof (push_nodes command (ingressQueue_ t)) as Hn. pose proof (refused_blocks command (ingressQueue_ t)) as Href.
    destruct (sharedPush command (ingressQueue_ t)) as [[] ingress];
      apply (f_equal length) in Hpush; rewrite !length_app in Hpush; cbn in *;
      destruct Hf as [Hf _]; split_and!; try done; try lia. intros _. right. by eapply Href.
  - rewrite Hpop in *. destruct (queued (stagingQueue_ t)) as [|command rest] eqn:Hq; cbn [head tl] in *.
    { destruct Hf as [Hf _]. cbn in *. rewrite Htail. split_and!; try done; [simpl; lia|by left]. }
    cbn in *. pose proof (push_cases command (ingressQueue_ t)) as Hpush.
    pose proof (push_nodes command (ingressQueue_ t)) as Hn. pose proof (refused_blocks command (ingressQueue_ t)) as Href.
    destruct (sharedPush command (ingressQueue_ t)) as [[] ingress];
      apply (f_equal length) in Hpush; rewrite !length_app in Hpush; cbn in *;
      destruct Hf as [Hf _]; rewrite Htail; split_and!; try done; try lia. intros _. right. by eapply Href.
Qed.

Lemma receive_run message sessionID (t : FixTask Q) commands k results :
  index_holds commands k results (commandAdmissionIndex t) →
  let t' := fromApp message sessionID resolver t in
  let new := admitted resolver message sessionID t in
  index_holds (commands ++ new) k results (commandAdmissionIndex t') ∧ Forall processable new ∧ gatewayBus t' = gatewayBus t.
Proof.
  intros Hih. cbv zeta. unfold fromApp, admitted.
  destruct (normalize message sessionID resolver) as [[m|]|ex] eqn:Hn; [|by rewrite app_nil_r|].
  - apply normalize_processable in Hn; [|done].
    destruct (index_reserve commands k results (commandAdmissionIndex t) (stagingQueue_ t) m Hih Hn)
      as (d & index' & queue' & -> & Hih'). cbn [fst].
    split_and!.
    + by case_bool_decide; case_bool_decide.
    + destruct (bool_decide (status d = AdmissionStatus.FIRST_SUBMISSION)); [by apply Forall_singleton|by apply Forall_nil].
    + by destruct (bool_decide (rejectionReason d = _)).
  - rewrite app_nil_r. by destruct ex.
Qed.

(** ** The whole process *)

(** [k] commands have their sequence, [consumed] were taken by the engine, the bus
    got [history], and [log] is what its readers read. *)
Record process_at (commands : list sequenceMessage) (results : list CommandResultBatch) (k : nat)
    (consumed history : list sequenceMessage) (log : ReaderLog) p : Prop := {
  xp_processable : Forall processable commands;
  xp_flight : in_flight (gatewayIn p) = drop k commands;
  xp_sequencer : sequencer_ok commands k results (sequencerIn p);
  xp_handed : consumed ++ queued (Process.matchingEngineQueue p) ++ option_list (Path.pendingCommand_ (Process.sequencer p)) =
    take k (sequenced commands);
  xp_worker : worker_ok (newMatchingState 0) consumed history log results (engineIn p);
  xp_consumer : Process.admissionCompletionConsumer p = Path.mkConsumerMembers None None;
  xp_bus : GATEWAY_CURSOR ∈ Bus.reader_cursors_ (Process.multicastBus p).1 ∧
    Bus.size_ (Process.multicastBus p).1 = BUS_SIZE;
  xp_nodes : 0 < nodesOf (Process.sequencingIngressQueue p) ∧ 0 < nodesOf (Process.matchingEngineQueue p) ∧
    0 < ResultQueue.capacity_ (Process.commandResultQueue p) }.

Definition process_ok (commands : list sequenceMessage) (results : list CommandResultBatch) p : Prop :=
  ∃ k consumed history log, process_at commands results k consumed history log p.

(** What is left to do, weighted by the operations it still takes. *)
Definition remaining p : nat :=
  gateway_left (gatewayIn p) + 4 * length (option_list (Path.pendingCommand_ (Process.sequencer p))) +
  engine_left (engineIn p).

Lemma process_index commands results k consumed history log p : process_at commands results k consumed history log p →
  index_holds commands k results (Process.commandAdmissionIndex p).
Proof. intros Hat. destruct (sq_index _ _ _ _ (xp_sequencer _ _ _ _ _ _ _ Hat)) as (index & [= <-] & Hih). done. Qed.

Lemma sequencer_ok_index commands k results commands' k' results' (s s' : SequencerState Q) index :
  sequencer_ok commands k results s → journalWriter_ s' = journalWriter_ s → lastAssignedSequence_ s' = lastAssignedSequence_ s →
  pendingCommand_ s' = pendingCommand_ s → pendingReadyForMatching_ s' = pendingReadyForMatching_ s →
  k' = k → sequencerAdmission_ s' = Some index → index_holds commands' k results' index → sequencer_ok commands' k' results' s'.
Proof. intros [Hw _ Hl Hr] Hw' Hl' Hp' Hr' -> Hi Hih. split; [congruence|by eexists|congruence|by rewrite Hr', Hp']. Qed.

(** ** Each operation keeps the invariant *)
Lemma take_sequenced commands k new : (k ≤ length commands)%nat →
  take k (sequenced (commands ++ new)) = take k (sequenced commands).
Proof. intros Hk. unfold sequenced. rewrite imap_app. by rewrite take_app_le by (by rewrite length_imap). Qed.

Lemma take_sequenced_next commands k taken rest : (k ≤ length commands)%nat → drop k commands = taken ++ rest →
  take (k + length taken) (sequenced commands) = take k (sequenced commands) ++ imap (λ i, sequencedAs (k + i)) taken.
Proof.
  intros Hk Hd. rewrite <-(take_drop k commands), Hd. unfold sequenced. rewrite !imap_app.
  assert (Hl : length (take k commands) = k) by (rewrite length_take; lia). rewrite Hl.
  rewrite (take_app_length' _ _ k) by (by rewrite length_imap). rewrite app_assoc.
  by rewrite take_app_length' by (by rewrite length_app, !length_imap, Hl).
Qed.

Lemma receive_ok commands results k consumed history log p message sessionID :
  process_at commands results k consumed history log p →
  process_at (commands ++ admitted resolver message sessionID (gatewayIn p)) results k consumed history log
    (receive resolver message sessionID p).
Proof.
  intros Hat. pose proof (process_index _ _ _ _ _ _ _ Hat) as Hih. pose proof (ih_order _ _ _ _ Hih) as Horder.
  destruct Hat as [Hp Hf Hs Hh Hw Hc Hb Hn].
  destruct (receive_run message sessionID (gatewayIn p) commands k results Hih) as (Hih' & Hnew & Hbus).
  destruct (fromApp_cases resolver Hresolver message sessionID (gatewayIn p)) as (Hi & Hpend & Hst & _ & _).
  unfold receive. set (t' := fromApp message sessionID resolver (gatewayIn p)) in *.
  split; [by apply Forall_app| | | | |done| | ].
  - rewrite drop_app_le by lia. rewrite <-Hf.
    change (in_flight (gatewayIn (withGateway t' p))) with (in_flight t'). unfold in_flight. rewrite Hi, Hpend, Hst. by rewrite !app_assoc.
  - by eapply sequencer_ok_index.
  - cbn. by rewrite take_sequenced by lia.
  - unfold engineIn, withGateway. cbn. rewrite Hbus. exact Hw.
  - cbn. by rewrite Hbus.
  - cbn. by rewrite Hi.
Qed.

Lemma forward_ok commands results k consumed history log p : process_at commands results k consumed history log p →
  let '(forwarded, p') := forwardNext p in
  process_at commands results k consumed history log p' ∧
  (remaining p' + (if forwarded : bool then 1 else 0) ≤ remaining p)%nat ∧
  (forwarded = false → gateway_blocked (gatewayIn p)).
Proof.
  intros Hat. pose proof (process_index _ _ _ _ _ _ _ Hat) as Hih. destruct Hat as [Hp Hf Hs Hh Hw Hc Hb Hn].
  unfold forwardNext. pose proof (forward_run (gatewayIn p)) as Hrun.
  destruct (processNextStagedCommand (gatewayIn p)) as [forwarded t'] eqn:Ht.
  destruct Hrun as (Hf' & Hbus & Hidx & Hnodes & Hleft & Hblocked). split_and!; [|unfold remaining|done].
  - split; [done| | |done| |done| |].
    + rewrite <-Hf. exact Hf'.
    + eapply sequencer_ok_index; try done. cbn. by rewrite Hidx.
    + unfold engineIn, withGateway. cbn. rewrite Hbus. exact Hw.
    + cbn. by rewrite Hbus.
    + cbn. by rewrite Hnodes.
  - change (gateway_left (gatewayIn (withGateway t' p))) with (gateway_left t').
    assert (He : engineIn (withGateway t' p) = engineIn p) by (unfold engineIn, withGateway; cbn; by rewrite Hbus).
    rewrite He. change (Process.sequencer (withGateway t' p)) with (Process.sequencer p). lia.
Qed.

Lemma read_ok commands results k consumed history log p : process_at commands results k consumed history log p →
  ∃ message p' log', readNext p = (Ret message, p') ∧ process_at commands results k consumed history log' p' ∧
    remaining p' = remaining p.
Proof.
  intros Hat. pose proof (process_index _ _ _ _ _ _ _ Hat) as Hih. destruct Hat as [Hp Hf Hs Hh Hw Hc [Hcur Hsize] Hn].
  destruct Hw as [Hres Hroom Hidle Hbus Hsent Hfail].
  destruct (read_run _ _ _ _ _ Hbus Hcur) as (entry & cursors' & _ & Hrun & Hbus'). unfold readNext.
  change (multicastBus (engineIn p)) with (Process.multicastBus p) in *.
  destruct (Process.multicastBus p) as [bus cursors] eqn:Hpb. cbn [fst snd] in *. rewrite Hrun.
  eexists _, _, _. split; [reflexivity|]. split; [|done]. split; try done.
Qed.

Lemma sequence_ok commands results k consumed history log p (w : W) :
  process_at commands results k consumed history log p →
  ∃ progressed p' k', sequenceNext p w = (Ok (Ret progressed, p'), w) ∧
    process_at commands results k' consumed history log p' ∧
    (remaining p' + (if progressed : bool then 1 else 0) ≤ remaining p)%nat ∧
    (progressed = false → sequencer_blocked (sequencerIn p)).
Proof.
  intros Hat. pose proof (process_index _ _ _ _ _ _ _ Hat) as Hih. pose proof (ih_order _ _ _ _ Hih) as Horder.
  destruct Hat as [Hp Hf Hs Hh Hw Hc Hb Hn].
  destruct (sequencer_run commands k results (sequencerIn p) w Hs) as (progressed & s' & taken & Hrun & Hs' & Hadv & Hleft & Hblocked).
  { intros m Hm. change (sequencingIngressQueue_ (sequencerIn p)) with (ingressQueue_ (gatewayIn p)) in Hm.
    unfold in_flight in Hf. destruct (queued (ingressQueue_ (gatewayIn p))) as [|m' rest]; [done|]. injection Hm as ->.
    rewrite <-(Nat.add_0_r k), <-lookup_drop. by rewrite <-Hf. }
  unfold sequenceNext. erewrite io_bind_run by exact Hrun. eexists progressed, _, (k + length taken)%nat. split; [reflexivity|].
  destruct Hadv as [Hingress Hhanded [Hn1 Hn2]].
  change (sequencingIngressQueue_ (sequencerIn p)) with (Process.sequencingIngressQueue p) in *.
  change (matchingEngineQueue_ (sequencerIn p)) with (Process.matchingEngineQueue p) in *.
  change (pendingCommand_ (sequencerIn p)) with (Path.pendingCommand_ (Process.sequencer p)) in *.
  assert (Hsplit : drop k commands = taken ++ in_flight (gatewayIn (withSequencer s' p))).
  { rewrite <-Hf. unfold in_flight. cbn. rewrite Hingress. by rewrite !app_assoc. }
  destruct Hs' as [Hw' (index' & Hadm & Hih') Hlast' Hready']. split_and!; [|unfold remaining, gateway_left, engine_left|done].
  - split; try done.
    + rewrite <-drop_drop, Hsplit. by rewrite drop_app_length.
    + split; try done. exists index'. split; [|done]. cbn. by rewrite Hadm.
    + cbn. rewrite Hhanded, (take_sequenced_next _ _ _ _ (proj2 Horder) Hsplit), <-Hh. by rewrite !app_assoc.
    + by destruct Hw.
    + cbn. by rewrite Hn1, Hn2.
  - unfold sequencer_left, unpublished in *. cbn in *. lia.
Qed.

Lemma consumed_prefix commands results k consumed history log p : process_at commands results k consumed history log p →
  consumed = take (length consumed) (sequenced commands) ∧ (length consumed ≤ k)%nat ∧
  ∀ m rest, queued (Process.matchingEngineQueue p) = m :: rest →
    consumed ++ [m] = take (Datatypes.S (length consumed)) (sequenced commands).
Proof.
  intros Hat. pose proof (ih_order _ _ _ _ (process_index _ _ _ _ _ _ _ Hat)) as Horder. destruct Hat as [_ _ _ Hh _ _ _ _].
  pose proof (f_equal length Hh) as Hl. rewrite !length_app, length_take, sequenced_length in Hl.
  assert (Hpre : ∀ l rest, l ++ rest = take k (sequenced commands) → l = take (length l) (sequenced commands)).
  { intros l rest Heq. pose proof (f_equal length Heq) as Hl'. rewrite length_app, length_take, sequenced_length in Hl'.
    apply (f_equal (take (length l))) in Heq. rewrite take_app_length, take_take in Heq.
    by rewrite Nat.min_l in Heq by lia. }
  split_and!; [by eapply Hpre|lia|]. intros m rest Hq. rewrite Hq in Hh.
  rewrite <-(Nat.add_1_r (length consumed)). change 1%nat with (length [m]). rewrite <-length_app.
  eapply Hpre. rewrite <-app_assoc. exact Hh.
Qed.

Lemma process_bound commands results k consumed history log p : process_at commands results k consumed history log p →
  Z.of_nat (length commands) ≤ COMMAND_ADMISSION_CAPACITY.
Proof. intros Hat. by eapply admitted_bound, process_index. Qed.

Lemma match_ok commands results k consumed history log p : process_at commands results k consumed history log p →
  ∃ progressed p' consumed' history', matchNext p = (Ret progressed, p') ∧
    process_at commands results k consumed' history' log p' ∧
    (remaining p' + (if progressed : bool then 1 else 0) ≤ remaining p)%nat ∧
    (progressed = false →
       ResultQueue.batches_ (Process.commandResultQueue p) ≠ [] ∨
       (Path.pendingCommandResult (Process.matching_engine p) = None ∧ queued (Process.matchingEngineQueue p) = [])).
Proof.
  intros Hat. destruct (consumed_prefix _ _ _ _ _ _ _ Hat) as (Hcon & Hlen & Hnextm). pose proof (process_bound _ _ _ _ _ _ _ Hat) as Hbound.
  pose proof (process_index _ _ _ _ _ _ _ Hat) as Hih. pose proof (ih_order _ _ _ _ Hih) as Horder.
  destruct Hat as [Hp Hf Hs Hh Hw Hc [Hcur Hsize] Hn].
  destruct (engineOperation_run (newMatchingState 0) consumed history log results (engineIn p) Hw)
    as (progressed & e' & consumed' & history' & Hrun & Hw' & Hsame & Hleft & Hblocked).
  { unfold countable_commands. cbn. rewrite Hsize. pose proof (f_equal length Hh) as Hl.
    rewrite !length_app, length_take, sequenced_length in *. unfold COMMAND_ADMISSION_CAPACITY, BUS_SIZE, UINT64_MAX in *. lia. }
  { intros m rest Hq. rewrite (Hnextm m rest Hq).
    destruct (sequenced_run commands (Datatypes.S (length consumed)) Hp) as (st & Hall & _); [|by eauto].
    unfold COMMAND_ADMISSION_CAPACITY, UINT64_MAX in *. lia. }
  destruct (engineOperation_fixed _ _ _ Hrun) as (Hr1 & Hr2 & Hr3 & Hr4).
  unfold matchNext. rewrite Hrun. exists progressed. eexists _, consumed', history'. split; [reflexivity|].
  split_and!; [|unfold remaining|].
  - split; try done.
    + by eapply sequencer_ok_index.
    + cbn. rewrite <-Hh. cbn in Hsame. by rewrite !app_assoc, Hsame.
    + by destruct Hw'.
    + cbn. rewrite Hr1, Hr2. by split.
    + cbn. rewrite Hr3, Hr4. done.
  - change (engine_left (engineIn (withEngine e' p))) with (engine_left e'). change (gateway_left (gatewayIn (withEngine e' p))) with (gateway_left (gatewayIn p)).
    change (Process.sequencer (withEngine e' p)) with (Process.sequencer p). lia.
  - intros Hfalse. destruct (Hblocked Hfalse) as [Hfull|Hidle]; [left|by right]. destruct Hn as (_ & _ & Hcap).
    cbn in Hfull. intros Hempty. rewrite Hempty in Hfull. simpl in Hfull. lia.
Qed.

(** The engine's results so far are the specification's. *)
Lemma results_run commands results k consumed history log p : process_at commands results k consumed history log p →
  let spec := specRun 0 (take (length consumed) (sequenced commands)) noBooks in
  results ++ unpublished (engineIn p) = spec.1 ∧ ∀ i s, queueOf (Process.matchingState p) i s = spec.2 i s.
Proof.
  intros Hat. destruct (consumed_prefix _ _ _ _ _ _ _ Hat) as (Hcon & _ & _). pose proof (process_bound _ _ _ _ _ _ _ Hat) as Hbound.
  destruct Hat as [Hp _ _ _ Hw _ _ _].
  destruct (sequenced_run commands (length consumed) Hp) as (st & Hall & Hbooks).
  { unfold COMMAND_ADMISSION_CAPACITY, UINT64_MAX in *. lia. }
  pose proof (wk_results _ _ _ _ _ _ Hw) as Hres. rewrite Hcon in Hres at 1. rewrite Hall in Hres. injection Hres as Hres Hst.
  split; [done|]. intros i s. rewrite <-Hbooks, Hst. done.
Qed.

Lemma complete_ok commands results k consumed history log p : process_at commands results k consumed history log p →
  ∃ completed p', completeNext p = (Ret completed, p') ∧
    process_at commands (results ++ option_list completed) k consumed history log p' ∧
    (remaining p' + (if bool_decide (is_Some completed) then 1 else 0) ≤ remaining p)%nat ∧
    (completed = None → ResultQueue.batches_ (Process.commandResultQueue p) = []).
Proof.
  intros Hat. destruct (consumed_prefix _ _ _ _ _ _ _ Hat) as (Hcon & Hlen & _).
  destruct (results_run _ _ _ _ _ _ _ Hat) as [Hspec _].
  pose proof (process_index _ _ _ _ _ _ _ Hat) as Hih. pose proof (ih_order _ _ _ _ Hih) as Horder.
  destruct Hat as [Hp Hf Hs Hh Hw Hc Hb Hn]. pose proof (worker_unpublished _ _ _ _ _ _ Hw) as Hun.
  unfold completeNext, processNextCompletion, consumerIn. rewrite Hc. cbn [Consumer.failure_ Path.failure_ Path.pendingBatch_].
  unfold takePending, ResultQueue.tryPopResult. cbn [Consumer.pendingBatch_ Consumer.resultQueue_].
  unfold unpublished in *. cbn [engineIn commandResultQueue pendingCommandResult] in Hspec, Hun.
  destruct (ResultQueue.batches_ (Process.commandResultQueue p)) as [|b batches] eqn:Hbatches.
  - eexists None, _. split; [reflexivity|]. rewrite bool_decide_eq_false_2 by (by intros []). cbn. rewrite app_nil_r.
    split_and!; [by split| |done].
    unfold remaining, gateway_left, engine_left, unpublished. cbn. lia.
  - assert (Hcorr : ∃ m, commands !! length results = Some m ∧
      Batch.correlation b = correlationOf 0 (sequencedAs (length results) m)).
    { destruct (specRun_results 0 (take (length consumed) (sequenced commands)) noBooks (length results) b) as (m & books & Hm & ->).
      { rewrite <-Hspec. by rewrite lookup_app_r, Nat.sub_diag by lia. }
      apply lookup_take_Some in Hm as [Hm _]. rewrite sequenced_lookup in Hm. apply fmap_Some in Hm as (m0 & Hm0 & ->).
      by exists m0. }
    destruct Hcorr as (m & Hm & Hcorr). simpl in Hun.
    destruct (index_complete commands k results (Process.commandAdmissionIndex p) m b Hih ltac:(lia) Hm) as (index' & Hrun & Hih');
      [by eapply Forall_lookup_1|done|].
    cbn [negb Consumer.pendingBatch_ Consumer.admissionIndex_ Consumer.resultQueue_ Consumer.failure_]. rewrite Hrun.
    rewrite bool_decide_eq_false_2 by auto. eexists (Some b), _. split; [reflexivity|]. cbn [option_list].
    rewrite bool_decide_eq_true_2 by done. split_and!; [| |done].
    + split; try done.
      * by eapply sequencer_ok_index.
      * destruct Hw as [Hres Hroom Hidle Hbus Hsent Hfail].
        unfold unpublished, room in *. cbn in Hres, Hroom. rewrite Hbatches in Hres, Hroom. split; try done; unfold unpublished, room; cbn.
        -- by rewrite <-app_assoc.
        -- simpl in Hroom. lia.
    + unfold remaining, gateway_left, engine_left, unpublished. cbn. rewrite Hbatches. simpl. lia.
Qed.

(** ** Executions *)
Lemma empty_bus size : 0 < size ≤ UINT64_MAX → bus_ok (Bus.mkBus size (replicate (Z.to_nat size) None) [] 0 0) ∅ [] ∅.
Proof.
  intros [Hpos Hmax]. split; cbn; try done.
  - by rewrite length_replicate.
  - by intros a ?%elem_of_nil.
Qed.

Lemma register_first bus cursors a v : Bus.reader_cursors_ bus = [] → cursors !! a = Some v →
  registerCursor a (bus, cursors) =
    (Ret tt, (setCachedMinimum (Z.min (Bus.total_writes_ bus) v) (addCursor a bus), cursors)).
Proof.
  intros Hnone Hv. unfold registerCursor, refreshMinimum, modifyBus, recomputeMinimumCursor, mbind, M_bind, modifyM, liftM.
  cbn. rewrite Hnone. cbn. by rewrite Hv.
Qed.

Lemma new_process p0 : newExchangeProcess = Ret p0 → process_ok [] [] p0.
Proof.
  pose proof (empty_bus BUS_SIZE ltac:(done)) as Hbus. unfold newExchangeProcess, newBus.
  revert Hbus. generalize (replicate (Z.to_nat BUS_SIZE) (@None sequenceMessage)). intros buffer Hbus.
  unfold newUnboundIndex, ResultQueue.newResultQueue, throw_if.
  rewrite !(bool_decide_eq_false_2 (_ = 0)) by done. cbn [mbind outcome_bind].
  set (bus := Bus.mkBus BUS_SIZE buffer [] 0 0) in *. unfold newFixTask. cbn [fst snd].
  pose proof (register_first bus {[GATEWAY_CURSOR := 0]} GATEWAY_CURSOR 0 eq_refl (lookup_singleton_eq _ _)) as Hreg.
  assert (Hown : bus_ok bus {[GATEWAY_CURSOR := 0]} [] ∅).
  { eapply bus_step_ok; [|exact Hbus]. constructor. by intros ?%elem_of_nil. }
  assert (Hbus' := bus_step_ok _ _ _ _ _ _ _ _ (bus_register bus _ [] ∅ GATEWAY_CURSOR 0 _
    (lookup_singleton_eq _ _) Hreg) Hown).
  change (<[GATEWAY_CURSOR := 0]> ∅ : gmap nat Z) with ({[GATEWAY_CURSOR := 0]} : gmap nat Z). rewrite Hreg.
  cbn [mbind outcome_bind]. intros [= <-].
  destruct (new_law (Q:=Q) SEQUENCING_INGRESS_QUEUE_SIZE ltac:(done)) as [Hi Hin].
  destruct (new_law (Q:=Q) MATCHING_ENGINE_QUEUE_SIZE ltac:(done)) as [Hm Hmn].
  destruct (new_law (Q:=Q) STAGING_QUEUE_SIZE ltac:(done)) as [Hst _].
  exists 0%nat, [], [], {[GATEWAY_CURSOR := mkEntry 0 0 []]}. split; try done.
  - unfold in_flight. cbn. by rewrite Hi, Hst.
  - split; try done. eexists. split; [reflexivity|]. split; try done.
    by apply NoDup_nil_2.
  - cbn. by rewrite Hm.
  - split; [by left|done].
  - change (0 < nodesOf (newSharedQueue (Q:=Q) SEQUENCING_INGRESS_QUEUE_SIZE) ∧
      0 < nodesOf (newSharedQueue (Q:=Q) MATCHING_ENGINE_QUEUE_SIZE) ∧ 0 < COMMAND_RESULT_QUEUE_SIZE).
    rewrite Hin, Hmn. done.
Qed.

Lemma worker_step_ok commands results p progressed completed p' :
  worker_step (W:=W) p (progressed, completed, p') → process_ok commands results p →
  process_ok commands (results ++ option_list completed) p' ∧
  (remaining p' + (if progressed then 1 else 0) ≤ remaining p)%nat.
Proof.
  intros Hstep (k & consumed & history & log & Hat).
  inversion Hstep as [|message p1 Hrun|w b p1 w' Hrun|b p1 Hrun|c p1 Hrun]; subst; cbn [option_list]; rewrite ?app_nil_r.
  - pose proof (forward_ok _ _ _ _ _ _ _ Hat) as Hok. destruct (forwardNext p) as [b p']. cbn [fst snd].
    destruct Hok as (Hat' & Hleft & _). split; [by exists k, consumed, history, log|done].
  - destruct (read_ok _ _ _ _ _ _ _ Hat) as (m & p1 & log' & Hrun' & Hat' & Hleft). rewrite Hrun in Hrun'. injection Hrun' as _ <-.
    split; [by exists k, consumed, history, log'|lia].
  - destruct (sequence_ok _ _ _ _ _ _ _ w Hat) as (b & p1 & k' & Hrun' & Hat' & Hleft & _). rewrite Hrun in Hrun'. simplify_eq.
    split; [by exists k', consumed, history, log|done].
  - destruct (match_ok _ _ _ _ _ _ _ Hat) as (b & p1 & consumed' & history' & Hrun' & Hat' & Hleft & _). rewrite Hrun in Hrun'. simplify_eq.
    split; [by exists k, consumed', history', log|done].
  - destruct (complete_ok _ _ _ _ _ _ _ Hat) as (c & p1 & Hrun' & Hat' & Hleft & _). rewrite Hrun in Hrun'. simplify_eq.
    split; [by exists k, consumed, history, log|done].
Qed.

Lemma process_steps_ok s s' : rtc (process_step (W:=W) resolver) s s' →
  process_ok s.1.2 s.2 s.1.1 → process_ok s'.1.2 s'.2 s'.1.1.
Proof.
  induction 1 as [|s1 s2 s3 H12 _ IH]; [done|]. intros Hok. apply IH.
  destruct H12 as [p commands results message sessionID|p commands results progressed completed p' Hstep]; cbn [fst snd] in *.
  - destruct Hok as (k & consumed & history & log & Hat). exists k, consumed, history, log. by apply receive_ok.
  - by destruct (worker_step_ok _ _ _ _ _ _ Hstep Hok).
Qed.

(** While a command has no result, some worker can go on. *)
Lemma process_live commands results p (w : W) : process_ok commands results p →
  length results = length commands ∨ ∃ completed p', worker_step (W:=W) p (true, completed, p').
Proof.
  intros (k & consumed & history & log & Hat).
  destruct (complete_ok _ _ _ _ _ _ _ Hat) as ([b|] & p1 & Hrun1 & _ & _ & Hempty); [right; eexists _, _; by eapply worker_complete in Hrun1|].
  destruct (match_ok _ _ _ _ _ _ _ Hat) as ([] & p2 & c2 & h2 & Hrun2 & _ & _ & Hmatch); [right; eexists _, _; by eapply worker_match|].
  destruct (sequence_ok _ _ _ _ _ _ _ w Hat) as ([] & p3 & k3 & Hrun3 & _ & _ & Hseq); [right; eexists _, _; by eapply worker_sequence|].
  pose proof (forward_ok _ _ _ _ _ _ _ Hat) as Hfwd. pose proof (worker_forward (W:=W) p) as Hstep4.
  destruct (forwardNext p) as [[] p4]; [right; eexists _, _; exact Hstep4|]. destruct Hfwd as (_ & _ & Hfwd).
  left. pose proof (ih_order _ _ _ _ (process_index _ _ _ _ _ _ _ Hat)) as Horder. destruct Hat as [_ Hf _ Hh Hw _ _ (Hn1 & Hn2 & _)].
  destruct (Hmatch eq_refl) as [Hne|[Hpend Hqueue]]; [by rewrite Hempty in Hne|].
  destruct (Hseq eq_refl) as [[Hp3 Hq3]|[Hne|Hle]]; cbn in *; [|done|lia].
  destruct (Hfwd eq_refl) as [[Hp4 Hq4]|[Hne|Hle]]; cbn in *; [|done|lia].
  pose proof (worker_unpublished _ _ _ _ _ _ Hw) as Hun. unfold unpublished in Hun. cbn in Hun.
  rewrite Hempty, Hpend in Hun by done. cbn in Hun.
  apply (f_equal length) in Hf, Hh. unfold in_flight in Hf. cbn in Hf. rewrite Hq3, Hp4, Hq4, length_drop in Hf. cbn in Hf.
  rewrite Hqueue, Hp3, !length_app, length_take, sequenced_length in Hh. cbn in Hh. lia.
Qed.

Lemma process_remaining commands results p : process_ok commands results p →
  (remaining p ≤ 7 * (length commands - length results))%nat.
Proof.
  intros (k & consumed & history & log & Hat). pose proof (ih_order _ _ _ _ (process_index _ _ _ _ _ _ _ Hat)) as Horder.
  destruct Hat as [_ Hf _ Hh Hw _ _ _]. pose proof (worker_unpublished _ _ _ _ _ _ Hw) as Hun.
  apply (f_equal length) in Hf, Hh. unfold in_flight in Hf. rewrite !length_app, length_drop in Hf.
  rewrite !length_app, length_take, sequenced_length in Hh. unfold remaining, gateway_left, engine_left.
  assert (Hpend : (length (option_list (pendingCommandResult (engineIn p))) ≤ length (unpublished (engineIn p)))%nat)
    by (unfold unpublished; rewrite length_app; lia).
  change (sequencerQueue (engineIn p)) with (Process.matchingEngineQueue p). lia.
Qed.

Lemma index_results commands k results index i m : index_holds commands k results index →
  commands !! i = Some m → completedResult m index = Ret (results !! i).
Proof.
  intros Hih Hm. destruct (ih_records _ _ _ _ Hih _ _ Hm) as (key & business & Hk & Hb & Hr).
  unfold completedResult. rewrite Hk, Hb. cbn [mbind outcome_bind]. rewrite Hr. unfold recordOf.
  destruct (results !! i) as [b|]; cbn; [by rewrite !bool_decide_eq_false_2 by auto|].
  destruct (bool_decide (i < k)%nat); cbn; by rewrite bool_decide_eq_true_2 by done.
Qed.
End exchange.

Lemma startExchange_serving {Q} `{NewSharedQueueLaws sequenceMessage Q} {SessionID} `{Countable SessionID}
    settings acceptor (resolver : ClientIdentityResolver SessionID) (p : ExchangeProcess Q) :
  startExchange settings acceptor = Serving resolver p → resolver_ok resolver ∧ newExchangeProcess = Ret p.
Proof.
  unfold startExchange. destruct settings as [sessions|]; [|done]. cbn [mbind outcome_bind].
  destruct (resolverFromSettings sessions) as [r|] eqn:Hr; [|done]. cbn [mbind outcome_bind].
  destruct newExchangeProcess as [p'|] eqn:Hp; [|done]. cbn [mbind outcome_bind].
  destruct acceptor; [|done]. intros [= <- <-]. split; [by eapply resolverFromSettings_ok|done].
Qed.

(** ** The properties *)

(** C2: the exchange is its price-time specification.  However the process's threads
    interleave and whatever the sessions send, from a successful start on: the
    completed results are an initial part of those the specification computes, on
    empty books, for the admitted commands in their order of admission with the
    sequences 1, 2, ..., and once all are completed the books are the specification's;
    no two admitted commands share a key, and there are at most
    [COMMAND_ADMISSION_CAPACITY] of them; the admission index gives a command its
    result when it has one and nothing before; and no worker's operation throws. *)
Theorem exchange_process_follows_the_specification {W} `{Posix W} {Q} `{NewSharedQueueLaws sequenceMessage Q}
    {F} `{FixMessagesLaws F} {SessionID} `{Countable SessionID} settings acceptor
    (resolver : ClientIdentityResolver SessionID) (p0 p : ExchangeProcess Q) commands results :
  startExchange settings acceptor = Serving resolver p0 →
  rtc (process_step (W:=W) (F:=F) resolver) (p0, [], []) (p, commands, results) →
  let spec := specRun 0 (sequenced commands) noBooks in
  results `prefix_of` spec.1 ∧
  (length results = length commands → ∀ i s, queueOf (Process.matchingState p) i s = spec.2 i s) ∧
  NoDup (key_of <$> commands) ∧ Z.of_nat (length commands) ≤ COMMAND_ADMISSION_CAPACITY ∧
  (∀ i m, commands !! i = Some m → completedResult m (Process.commandAdmissionIndex p) = Ret (results !! i)) ∧
  (∃ message p', readNext p = (Ret message, p')) ∧
  (∀ w : W, ∃ progressed p', sequenceNext p w = (Ok (Ret progressed, p'), w)) ∧
  (∃ progressed p', matchNext p = (Ret progressed, p')) ∧
  (∃ completed p', completeNext p = (Ret completed, p')).
Proof.
  intros [Hresolver Hnew]%startExchange_serving Hsteps spec. pose proof (new_process p0 Hnew) as Hok.
  apply (process_steps_ok resolver Hresolver _ _ Hsteps) in Hok as (k & consumed & history & log & Hat). cbn [fst snd] in Hat.
  destruct (results_run _ _ _ _ _ _ _ Hat) as [Hspec Hbooks]. destruct (consumed_prefix _ _ _ _ _ _ _ Hat) as (_ & Hle & _).
  pose proof (process_index _ _ _ _ _ _ _ Hat) as Hih. pose proof (ih_order _ _ _ _ Hih) as Horder.
  pose proof (worker_unpublished _ _ _ _ _ _ (xp_worker _ _ _ _ _ _ _ Hat)) as Hun.
  split_and!.
  - eapply prefix_app_l. rewrite Hspec. unfold spec. rewrite <-(take_drop (length consumed) (sequenced commands)) at 2.
    rewrite specRun_app. by apply prefix_app_r.
  - intros Hall i s. rewrite Hbooks. by rewrite take_ge by (rewrite sequenced_length; lia).
  - apply Hih.
  - by eapply process_bound.
  - intros i m Hm. by eapply index_results.
  - destruct (read_ok _ _ _ _ _ _ _ Hat) as (m & p' & _ & Hrun & _). eauto.
  - intros w. destruct (sequence_ok _ _ _ _ _ _ _ w Hat) as (b & p' & _ & Hrun & _). eauto.
  - destruct (match_ok _ _ _ _ _ _ _ Hat) as (b & p' & _ & _ & Hrun & _). eauto.
  - destruct (complete_ok _ _ _ _ _ _ _ Hat) as (c & p' & Hrun & _). eauto.
Qed.

(** C3: every admitted command is answered.  In every state the process reaches,
    either every admitted command has its result or some worker's operation makes
    progress; an operation that makes progress lowers the number of operations left by
    at least one, no other worker's operation raises it, and it is at most seven for
    each command without a result.  So the workers, as
    long as each gets its turn, complete every admitted command in that many
    operations. *)
Theorem exchange_process_answers_every_command {W} `{Posix W} {Q} `{NewSharedQueueLaws sequenceMessage Q}
    {F} `{FixMessagesLaws F} {SessionID} `{Countable SessionID} settings acceptor
    (resolver : ClientIdentityResolver SessionID) (p0 p : ExchangeProcess Q) commands results (w : W) :
  startExchange settings acceptor = Serving resolver p0 →
  rtc (process_step (W:=W) (F:=F) resolver) (p0, [], []) (p, commands, results) →
  (length results = length commands ∨ ∃ completed p', worker_step (W:=W) p (true, completed, p')) ∧
  (remaining p ≤ 7 * (length commands - length results))%nat ∧
  (∀ progressed completed p', worker_step (W:=W) p (progressed, completed, p') →
     (remaining p' + (if progressed then 1 else 0) ≤ remaining p)%nat).
Proof.
  intros [Hresolver Hnew]%startExchange_serving Hsteps. pose proof (new_process p0 Hnew) as Hok.
  apply (process_steps_ok resolver Hresolver _ _ Hsteps) in Hok. cbn [fst snd] in Hok. split_and!.
  - by apply process_live.
  - by apply process_remaining.
  - intros progressed completed p' Hstep. by eapply worker_step_ok in Hstep as [_ ?].
Qed.

(** An acceptor that fails to start ends the process by [std::terminate]: the workers'
    threads run already, and unwinding destroys their handles before any handler. *)
Lemma acceptor_failure_terminates {Q} `{NewSharedQueueLaws sequenceMessage Q} {SessionID} `{Countable SessionID}
    sessions (resolver : ClientIdentityResolver SessionID) e :
  resolverFromSettings sessions = Ret resolver → startExchange (Q:=Q) (Ret sessions) (Throw e) = Terminated.
Proof. intros Hr. unfold startExchange. cbn [mbind outcome_bind]. by rewrite Hr. Qed.

(** ** Witnesses *)
Definition demoSettings : outcome (list (nat * option string)) := Ret [(0%nat, Some "42"%string)].

Definition demoProcess : ExchangeProcess (FixedQueue sequenceMessage) :=
  Process.mkProcess (newSharedQueue 1000) (newSharedQueue 1000)
    (Bus.mkBus BUS_SIZE (replicate (Z.to_nat BUS_SIZE) None) [GATEWAY_CURSOR] 0 0, {[GATEWAY_CURSOR := 0]})
    (mkIndex COMMAND_ADMISSION_CAPACITY 0 true ∅ noStatistics) (ResultQueue.mkResultQueue COMMAND_RESULT_QUEUE_SIZE [])
    (Path.mkConsumerMembers None None) (Process.mkGatewayMembers (newSharedQueue 1000) None 0 0 0)
    (Path.mkSequencerMembers 0 None false None) (newMatchingState 0) (Path.mkMatcherMembers None None 0).

Lemma demo_process_starts : startExchange demoSettings (Ret tt) = Serving demoResolver demoProcess.
Proof. reflexivity. Qed.

(** After one order was received, and after the workers passed it on. *)
Definition demoReceivedProcess : ExchangeProcess (FixedQueue sequenceMessage) :=
  receive demoResolver demoFixOrder 0%nat demoProcess.
Definition demoForwarded := (forwardNext demoReceivedProcess).2.
Definition demoSequencedProcess :=
  match (sequenceNext demoForwarded demoFile).1 with Ok (_, p) => p | _ => demoForwarded end.
Definition demoMatched := (matchNext demoSequencedProcess).2.
Definition demoCompletedProcess := (completeNext demoMatched).2.
Definition demoCommands : list sequenceMessage := admitted demoResolver demoFixOrder 0%nat (gatewayIn demoProcess).
Definition demoResults : list CommandResultBatch :=
  match (completeNext demoMatched).1 with Ret (Some b) => [b] | _ => [] end.

Lemma demo_run : rtc (process_step (W:=ScheduledFile) (F:=FieldMap) demoResolver) (demoProcess, [], [])
  (demoCompletedProcess, demoCommands, demoResults).
Proof.
  eapply rtc_l; [exact (step_receive demoResolver demoProcess [] [] demoFixOrder 0%nat)|].
  eapply rtc_l; [exact (step_worker demoResolver _ _ [] _ None _ (worker_forward demoReceivedProcess))|].
  eapply rtc_l; [apply (step_worker demoResolver demoForwarded _ _ true None demoSequencedProcess),
    (worker_sequence _ demoFile _ _ demoFile); vm_compute; reflexivity|].
  eapply rtc_l; [apply (step_worker demoResolver demoSequencedProcess _ _ true None demoMatched),
    worker_match; vm_compute; reflexivity|].
  apply rtc_once. apply (step_worker demoResolver demoMatched demoCommands [] true (head demoResults) demoCompletedProcess).
  apply (worker_complete demoMatched (head demoResults) demoCompletedProcess). vm_compute. reflexivity.
Qed.

(** The order rests as the only one on the books. *)
Example demo_process_answers :
  Outcome.events <$> ((λ b, Outcome.mkProcessingOutcome (Batch.result b) (Batch.events b)) <$> demoResults) =
  [[EvRested (Rested.mkOrderRested (EventId.mkEventId 1 0 0) 1 42 1 Side.BUY 1234500 7)]].
Proof. vm_compute. reflexivity. Qed.

Lemma exchange_process_follows_the_specification_witness :
  length demoResults = 1%nat ∧ demoResults `prefix_of` (specRun 0 (sequenced demoCommands) noBooks).1 ∧
  ∀ i m, demoCommands !! i = Some m →
    completedResult m (Process.commandAdmissionIndex demoCompletedProcess) = Ret (demoResults !! i).
Proof.
  destruct (exchange_process_follows_the_specification (W:=ScheduledFile) (Q:=FixedQueue sequenceMessage) (F:=FieldMap)
    demoSettings (Ret tt) demoResolver demoProcess demoCompletedProcess demoCommands demoResults demo_process_starts demo_run)
    as (Hprefix & _ & _ & _ & Hresults & _).
  split; [by vm_compute|]. split; [exact Hprefix|exact Hresults].
Defined.

Lemma exchange_process_answers_every_command_witness :
  length demoCommands = 1%nat ∧ (remaining demoReceivedProcess ≤ 7 * (1 - 0))%nat ∧
  (0%nat = length demoCommands ∨ ∃ completed p', worker_step (W:=ScheduledFile) demoReceivedProcess (true, completed, p')).
Proof.
  destruct (exchange_process_answers_every_command (W:=ScheduledFile) (Q:=FixedQueue sequenceMessage) (F:=FieldMap)
    demoSettings (Ret tt) demoResolver demoProcess demoReceivedProcess demoCommands [] demoFile demo_process_starts
    (rtc_once _ _ (step_receive demoResolver demoProcess [] [] demoFixOrder 0%nat))) as (Hlive & Hbound & _).
  split; [by vm_compute|]. split; [exact Hbound|exact Hlive].
Defined.
