(* ===== verification/ProcessingPath.v ===== *)
(** * The command processing path as a whole

    The workers of [CommandProcessingPath] of
    [src/core/recovery/src/controller_command_processing.cpp] on the objects they
    share: the run's admission index, journal writer and matching state, and the
    path's queues.  [sequencerOf], [matcherOf] and [dispatcherOf] of [Controller.v] put
    the workers together, as [sequencerAdvance], [matcherAdvance] and
    [dispatcherAdvance] do. *)
From S2P Require Import Prelude Domain Bytes JournalCodec RunHeaderCodec RunHeaderTheorems Posix JournalReader.
From S2P Require Import JournalFile JournalWriter JournalAppend Matching MatchingSpec MatchingRefine Replay.
From S2P Require Import Projection Queues Admission AdmissionTheorems Sequencer SequencerCycle SequencerTheorems.
From S2P Require Import Bus EngineWorker JournalStorage NewRun ResultDispatcher Controller.
From S2P Require Import ControllerProcessing ExchangeProcess ExchangeProcessTheorems.

Module Run.
Record PathRun (W Q : Type) := mkRun {
  processing : CommandProcessingPath Q;
  admissionIndex : CommandAdmissionIndex;
  journalWriter : RunJournalWriterV1;
  matchingState : MatchingState;
  world : W }.
Arguments mkRun {_ _} _ _ _ _ _.
Arguments processing {_ _} _.
Arguments admissionIndex {_ _} _.
Arguments journalWriter {_ _} _.
Arguments matchingState {_ _} _.
Arguments world {_ _} _.
End Run.
Abbreviation PathRun := Run.PathRun.

Section operations.
Context {W : Type} `{PosixFile W} {Q : Type} `{SharedQueue sequenceMessage Q}.
Implicit Types r : PathRun W Q.

(** ** The workers on the shared objects *)
Definition pathSequencer r : SequencerState Q :=
  sequencerOf (Run.processing r) (Run.admissionIndex r) (Run.journalWriter r).
Definition pathMatcher r : MatchingEngine Q := matcherOf (Run.processing r) (Run.matchingState r).
Definition pathDispatcher r : CommandResultDispatcher := dispatcherOf (Run.processing r) (Run.admissionIndex r).

Definition withPathSequencer (s : SequencerState Q) (w : W) r : PathRun W Q :=
  Run.mkRun (putSequencer s (Run.processing r)) (default (Run.admissionIndex r) (sequencerAdmission_ s))
    (default (Run.journalWriter r) (journalWriter_ s)) (Run.matchingState r) w.
Definition withPathMatcher (e : MatchingEngine Q) r : PathRun W Q :=
  Run.mkRun (putMatcher e (Run.processing r)) (Run.admissionIndex r) (Run.journalWriter r) (matchingState_ e) (Run.world r).
Definition withPathDispatcher (d : CommandResultDispatcher) r : PathRun W Q :=
  Run.mkRun (putDispatcher d (Run.processing r)) (Consumer.admissionIndex_ (Dispatcher.completion_ d))
    (Run.journalWriter r) (Run.matchingState r) (Run.world r).
Definition withAdmission (index : CommandAdmissionIndex) (ingress : Q) r : PathRun W Q :=
  Run.mkRun (setIngress ingress (Run.processing r)) index (Run.journalWriter r) (Run.matchingState r) (Run.world r).
Definition withHandoffs (privateResults : BoundedPrivateResultQueue) (publicTrades : BoundedPublicTradeQueue) r : PathRun W Q :=
  Run.mkRun (setHandoffs privateResults publicTrades (Run.processing r)) (Run.admissionIndex r) (Run.journalWriter r)
    (Run.matchingState r) (Run.world r).

(** ** Executions

    [accepted] are the commands admitted, and the readers took [privateOut] and
    [publicOut].  One step is a submission, a switch of the gate, one call of
    [processNext], one command of the engine's loop or one attempt to hand its result
    on, one [advance] of the dispatcher, or a reader's pop. *)
Definition PathState : Type := PathRun W Q * list sequenceMessage * list (list RecipientResult) * list (list PublicTrade).

Inductive path_work : PathState → PathState → Prop :=
  | path_sequence r accepted privateOut publicOut fuel result s w' :
      (interrupts (Run.world r) + 256 < fuel)%nat →
      processNext fuel (pathSequencer r) (Run.world r) = (Ok (result, s), w') →
      path_work (r, accepted, privateOut, publicOut) (withPathSequencer s w' r, accepted, privateOut, publicOut)
  | path_match r accepted privateOut publicOut result e :
      engineOperation (pathMatcher r) = (result, e) →
      path_work (r, accepted, privateOut, publicOut) (withPathMatcher e r, accepted, privateOut, publicOut)
  | path_dispatch r accepted privateOut publicOut result d :
      advanceDispatcher (pathDispatcher r) = (result, d) →
      path_work (r, accepted, privateOut, publicOut) (withPathDispatcher d r, accepted, privateOut, publicOut)
  | path_popPrivate r accepted privateOut publicOut batch queue :
      PrivateQueue.tryPopPrivate (Path.privateResults (Run.processing r)) = (Some batch, queue) →
      path_work (r, accepted, privateOut, publicOut)
        (withHandoffs queue (Path.publicTrades (Run.processing r)) r, accepted, privateOut ++ [batch], publicOut)
  | path_popPublic r accepted privateOut publicOut batch queue :
      TradeQueue.tryPopTrades (Path.publicTrades (Run.processing r)) = (Some batch, queue) →
      path_work (r, accepted, privateOut, publicOut)
        (withHandoffs (Path.privateResults (Run.processing r)) queue r, accepted, privateOut, publicOut ++ [batch]).

Inductive path_step : PathState → PathState → Prop :=
  | path_submit r accepted privateOut publicOut command available decision index ingress :
      typed_message command →
      reserveAndStageForRunCapacity command available (Run.admissionIndex r, Path.ingress (Run.processing r)) =
        (Ret decision, (index, ingress)) →
      path_step (r, accepted, privateOut, publicOut)
        (withAdmission index ingress r,
         if bool_decide (status decision = AdmissionStatus.FIRST_SUBMISSION) then accepted ++ [command] else accepted,
         privateOut, publicOut)
  | path_gate r accepted privateOut publicOut open :
      path_step (r, accepted, privateOut, publicOut)
        (withAdmission (setAdmissionOpen open (Run.admissionIndex r)) (Path.ingress (Run.processing r)) r,
         accepted, privateOut, publicOut)
  | path_works p p' : path_work p p' → path_step p p'.
End operations.

(** ** What one call of [processNext] moves *)
Section moves.
Context {W : Type} `{Posix W} {Q : Type} `{NewSharedQueueLaws sequenceMessage Q}.
Implicit Types s : SequencerState Q.

(** Why a call changes nothing. *)
Definition sequencer_stuck s : Prop :=
  (pendingCommand_ s = None ∧ queued (sequencingIngressQueue_ s) = []) ∨ halted s = true ∨
  queued (matchingEngineQueue_ s) ≠ [] ∨ nodesOf (matchingEngineQueue_ s) ≤ 0.

Inductive sequencer_move (index : CommandAdmissionIndex) (writer : RunJournalWriterV1) s : bool → SequencerState Q → Prop :=
  | move_none s' :
      pendingCommand_ s' = pendingCommand_ s → pendingReadyForMatching_ s' = pendingReadyForMatching_ s →
      queued (sequencingIngressQueue_ s') = queued (sequencingIngressQueue_ s) →
      queued (matchingEngineQueue_ s') = queued (matchingEngineQueue_ s) →
      sequencerAdmission_ s' = Some index → sequencer_stuck s → sequencer_move index writer s false s'
  | move_handed m s' :
      pendingCommand_ s = Some m → pendingReadyForMatching_ s = true → pendingCommand_ s' = None →
      queued (sequencingIngressQueue_ s') = queued (sequencingIngressQueue_ s) →
      queued (matchingEngineQueue_ s') = queued (matchingEngineQueue_ s) ++ [m] →
      sequencerAdmission_ s' = Some index → sequencer_move index writer s true s'
  | move_stopped m s' :
      pendingCommand_ s = None → queued (sequencingIngressQueue_ s) = m :: queued (sequencingIngressQueue_ s') →
      pendingCommand_ s' ≠ None → pendingReadyForMatching_ s' = false →
      queued (matchingEngineQueue_ s') = queued (matchingEngineQueue_ s) →
      sequencerAdmission_ s' = Some index → sequencer_move index writer s false s'
  | move_bound m index' (pushed : bool) s' :
      let bound := bound (withSequence (Writer.nextCommandSequence writer) m) in
      pendingCommand_ s = None → queued (sequencingIngressQueue_ s) = m :: queued (sequencingIngressQueue_ s') →
      markSequenced bound index = (Ret MarkSequenced.SEQUENCED, index') → sequencerAdmission_ s' = Some index' →
      queued (matchingEngineQueue_ s') = queued (matchingEngineQueue_ s) ++ (if pushed then [bound] else []) →
      pendingCommand_ s' = (if pushed then None else Some bound) → pendingReadyForMatching_ s' = negb pushed →
      sequencer_move index writer s pushed s'.

Lemma processNext_moves fuel s (w : W) b s' w' index writer :
  sequencerAdmission_ s = Some index → journalWriter_ s = Some writer →
  processNext fuel s w = (Ok (Ret b, s'), w') →
  sequencer_move index writer s b s' ∧ nodesOf (matchingEngineQueue_ s') = nodesOf (matchingEngineQueue_ s).
Proof.
  intros Hadm Hwr. unfold processNext. destruct (pendingCommand_ s) as [pending|] eqn:Hp.
  - destruct (pendingReadyForMatching_ s) eqn:Hready.
    + unfold handoffPendingCommand. rewrite Hp. pose proof (push_law pending (matchingEngineQueue_ s)) as Hq.
      pose proof (push_nodes pending (matchingEngineQueue_ s)) as Hn. pose proof (refused_blocks pending (matchingEngineQueue_ s)) as Hr.
      destruct (sharedPush pending (matchingEngineQueue_ s)) as [pushed matching]; unfold mret, io_ret.
      destruct pushed; intros; simplify_eq/=; (split; [|done]).
      * by eapply move_handed.
      * eapply move_none; try done. right; right. by eapply Hr.
    + unfold mret, io_ret. intros. simplify_eq. split; [|done]. eapply move_none; try done. right; left.
      unfold halted. by rewrite Hp, Hready.
  - rewrite Hwr, (bool_decide_eq_false_2 (Some writer = None)) by done. cbn [andb].
    destruct (pop_law (sequencingIngressQueue_ s)) as [Hpop Htail].
    destruct (sharedPop (sequencingIngressQueue_ s)) as [popped ingress]. cbn [fst snd] in *. injection Hpop as ->.
    destruct (queued (sequencingIngressQueue_ s)) as [|m rest] eqn:Hq; cbn [head tl] in *.
    { unfold mret, io_ret. intros. simplify_eq. split; [|done]. eapply move_none; cbn; rewrite ?Hq; try done. by left. }
    cbn [setQueues journalWriter_]. rewrite Hwr. unfold mbind, io_bind.
    destruct (appendCommand _ _ _ w) as [[[result writer']|e|] w1]; [|done|done]. case_bool_decide as Hc.
    { unfold mret, io_ret. intros. simplify_eq. split; [|done]. eapply (move_stopped _ _ _ m); cbn; rewrite ?Htail; done. }
    unfold mret, io_ret, bindAndHandoff. fold (bound (withSequence (Writer.nextCommandSequence writer) m)). cbn. rewrite Hadm.
    destruct (markSequenced _ index) as [[st|e] index'] eqn:Hm; [|done]. case_bool_decide as Hst; [done|].
    subst st. unfold handoffPendingCommand. cbn.
    pose proof (push_law (bound (withSequence (Writer.nextCommandSequence writer) m)) (matchingEngineQueue_ s)) as Hpush.
    pose proof (push_nodes (bound (withSequence (Writer.nextCommandSequence writer) m)) (matchingEngineQueue_ s)) as Hn.
    destruct (sharedPush _ (matchingEngineQueue_ s)) as [pushed matching].
    destruct pushed; intros; simplify_eq/=; (split; [|done]).
    + eapply (move_bound _ _ _ m index' true); cbn; rewrite ?Htail; done.
    + eapply (move_bound _ _ _ m index' false); cbn; rewrite ?Htail, ?app_nil_r; done.
Qed.
End moves.

(** ** The records of the commands handed over *)
Definition trackedRecord (published : list CommandResultBatch) (i : nat) (business : NormalizedBusinessCommand)
    (sequence : CommandSequence) : AdmissionRecord :=
  match published !! i with
  | Some result => Entry.mkRecord business RecordState.COMPLETED sequence (Some result)
  | None => sequencedRecord business sequence
  end.

(** [handed] are the commands given to the engine so far, [published] the results
    completed, of the first of them. *)
Record index_tracks (run : ExchangeRunId) (handed : list sequenceMessage) (published : list CommandResultBatch)
    (index : CommandAdmissionIndex) : Prop := {
  it_ok : index_ok index;
  it_run : exchangeRunId_ index = run;
  it_records i m : handed !! i = Some m → ∃ key business, keyFrom m = Ret key ∧ businessCommandFrom m = Ret business ∧
    records_ index !! key = Some (trackedRecord published i business (Msg.globalSequenceNumber m)) }.

Lemma trackedRecord_state published i business n : Entry.state (trackedRecord published i business n) ≠ RecordState.RESERVED.
Proof. unfold trackedRecord. by destruct (published !! i). Qed.
Lemma trackedRecord_sequence published i business n : Entry.commandSequence (trackedRecord published i business n) = n.
Proof. unfold trackedRecord. by destruct (published !! i). Qed.

(** Operations that leave the sequenced records alone. *)
Lemma tracks_keep run handed published index index' : index_tracks run handed published index →
  index_ok index' → exchangeRunId_ index' = exchangeRunId_ index →
  (∀ key r, records_ index !! key = Some r → Entry.state r ≠ RecordState.RESERVED → records_ index' !! key = Some r) →
  index_tracks run handed published index'.
Proof.
  intros [_ Hr Hrec] Hok' Hr' Hkeep. split; [done|congruence|]. intros i m Hm.
  destruct (Hrec i m Hm) as (key & business & Hk & Hb & Hrecord). exists key, business. split_and!; [done|done|].
  apply Hkeep; [done|apply trackedRecord_state].
Qed.

Lemma tracks_reserve {Q} `{SharedQueueLaws sequenceMessage Q} run handed published index (ingress : Q) command available decision index' ingress' :
  reserveAndStageForRunCapacity command available (index, ingress) = (Ret decision, (index', ingress')) →
  index_tracks run handed published index → index_tracks run handed published index' ∧
  queued ingress' = queued ingress ++
    (if bool_decide (status decision = AdmissionStatus.FIRST_SUBMISSION) then [command] else []).
Proof.
  intros (key & business & i & q & Hk & Hb & Hrun & Heq)%reserveAndStage_inv Htr. cbn [fst snd] in *. injection Heq as -> ->.
  destruct (records_ index !! key) as [r|] eqn:Hr.
  - destruct (reserveLocked_known key business command available index (Some ingress) r Hr) as (d & Hrun' & Hd).
    rewrite Hrun in Hrun'. injection Hrun' as -> -> ->. rewrite bool_decide_eq_false_2 by (rewrite Hd; by repeat case_bool_decide).
    rewrite app_nil_r. split; [|done]. apply (tracks_keep _ _ _ index); [done|by apply (index_ok_records index), Htr|done|done].
  - destruct (reserveLocked_new key business command available index ingress Hr) as (i' & q' & Hrun' & Hcase).
    rewrite Hrun in Hrun'. injection Hrun' as -> -> ->. pose proof Hrun as [Hok _]%reserveLocked_advances; [|apply Htr].
    destruct (admits _ _ _ _); cbn [from_option id status] in *.
    + destruct Hcase as (_ & Hq & ->). split; [|by rewrite Hq]. apply (tracks_keep _ _ _ index); [done|done|done|].
      intros key' r Hr' _. cbn. rewrite lookup_insert_ne; [done|]. intros ->. by rewrite Hr in Hr'.
    + destruct Hcase as [Hq ->]. split; [|by rewrite app_nil_r]. by apply (tracks_keep _ _ _ index).
Qed.

(** The sequencer marks the next command. *)
Lemma markSequenced_inv m index index' : markSequenced m index = (Ret MarkSequenced.SEQUENCED, index') →
  ∃ key business r, keyFrom m = Ret key ∧ businessCommandFrom m = Ret business ∧ records_ index !! key = Some r ∧
    Entry.command r = business ∧ Entry.state r = RecordState.RESERVED ∧
    index' = setRecords (<[key := Entry.mkRecord business RecordState.SEQUENCED (Msg.globalSequenceNumber m) (Entry.result r)]>
                           (records_ index)) index.
Proof.
  unfold markSequenced. case_bool_decide as Hseq; [by unfold mret, M_ret|].
  intros (key & i1 & [Hk ->]%liftM_inv & (business & i2 & [Hb ->]%liftM_inv & Hrun)%M_bind_inv)%M_bind_inv.
  unfold stepM, markSequencedLocked in Hrun. destruct (records_ index !! key) as [r|] eqn:Hr; [|by injection Hrun].
  case_bool_decide as Hc; [by injection Hrun|]. 
  destruct (Entry.state r) eqn:Hs; [|case_bool_decide; by injection Hrun|by injection Hrun].
  injection Hrun as <-. exists key, business, r. by rewrite Hc.
Qed.

Lemma tracks_mark run handed published index m index' : index_tracks run handed published index →
  (length published ≤ length handed)%nat → markSequenced m index = (Ret MarkSequenced.SEQUENCED, index') →
  index_tracks run (handed ++ [m]) published index'.
Proof.
  intros Htr Hle Hmark. destruct (markSequenced_advances _ _ _ _ Hmark (it_ok _ _ _ _ Htr)) as (Hok & _ & _ & _).
  apply markSequenced_inv in Hmark as (key & business & r & Hk & Hb & Hr & Hc & Hs & ->).
  assert (Htr' : index_tracks run handed published
    (setRecords (<[key := Entry.mkRecord business RecordState.SEQUENCED (Msg.globalSequenceNumber m) (Entry.result r)]>
      (records_ index)) index)).
  { apply (tracks_keep _ _ _ index); [done|done|done|]. intros key' r' Hr' Hs'. cbn. rewrite lookup_insert_ne; [done|].
    intros ->. congruence. }
  destruct Htr' as [? ? Hrec]. split; [done|done|]. intros i m' [Hi|[Hge Hi]]%lookup_app_Some; [by apply Hrec|].
  apply list_lookup_singleton_Some in Hi as [Hi <-]. exists key, business. split_and!; [done|done|]. cbn.
  rewrite lookup_insert_eq. unfold trackedRecord. rewrite (proj2 (lookup_ge_None published i)) by lia. unfold sequencedRecord.
  pose proof (io_records _ (it_ok _ _ _ _ Htr) _ _ Hr) as He. unfold entry_ok in He. rewrite Hs in He. by destruct He as [_ ->].
Qed.

(** The consumer completes the oldest command that has no result yet. *)
Lemma correlationOf_key run m key : keyFrom m = Ret key →
  correlationOf run m = Correlation.mkCorrelation (AdmissionKey.clientId key) (AdmissionKey.clientCommandId key)
    (Msg.globalSequenceNumber m) run ∧ AdmissionKey.clientId key ≠ 0.
Proof.
  unfold keyFrom, correlationOf. destruct (Msg.clientCommandId m) as [c|]; [|done]. unfold throw_if.
  case_bool_decide; [done|]. by intros [= <-].
Qed.

Lemma tracks_complete run handed published index m b : index_tracks run handed published index →
  (∀ i m, handed !! i = Some m → ∀ j m', handed !! j = Some m' →
     Msg.globalSequenceNumber m = Msg.globalSequenceNumber m' → i = j) →
  handed !! length published = Some m → (∀ c, Msg.clientCommandId m = Some c → c ≠ ""%string) →
  Batch.correlation b = correlationOf run m →
  ∃ index', complete (Some b) index = (Completion.COMPLETED, index') ∧ index_tracks run handed (published ++ [b]) index'.
Proof.
  intros Htr Hinj Hm Hid Hcorr. destruct (it_records _ _ _ _ Htr _ _ Hm) as (key & business & Hk & Hb & Hrec).
  destruct (correlationOf_key run m key Hk) as [Hcor Hclient]. rewrite Hcor in Hcorr.
  assert (Hname : AdmissionKey.clientCommandId key ≠ ""%string).
  { unfold keyFrom in Hk. destruct (Msg.clientCommandId m) as [c|]; [|done]. unfold throw_if in Hk.
    case_bool_decide; [done|]. injection Hk as <-. by apply Hid. }
  assert (Hnone : published !! length published = None) by (apply lookup_ge_None; lia).
  assert (Hold : trackedRecord published (length published) business (Msg.globalSequenceNumber m) =
    sequencedRecord business (Msg.globalSequenceNumber m)) by (unfold trackedRecord; by rewrite Hnone).
  rewrite Hold in Hrec. pose proof (io_records _ (it_ok _ _ _ _ Htr) _ _ Hrec) as [Hseq _].
  assert (Hrun : complete (Some b) index = (Completion.COMPLETED,
    setRecords (<[key := Entry.mkRecord business RecordState.COMPLETED (Msg.globalSequenceNumber m) (Some b)]> (records_ index)) index)).
  { unfold complete. rewrite Hcorr.
    cbn [Correlation.clientId Correlation.commandSequence Correlation.clientCommandId Correlation.exchangeRunId].
    rewrite (bool_decide_eq_false_2 (AdmissionKey.clientId key = 0)), (bool_decide_eq_false_2 (Msg.globalSequenceNumber m = 0)),
      (bool_decide_eq_false_2 (AdmissionKey.clientCommandId key = _)) by done. cbn [orb].
    rewrite (it_run _ _ _ _ Htr), bool_decide_eq_false_2 by auto. unfold keyFromCorrelation. cbn.
    replace (AdmissionKey.mkAdmissionKey _ _) with key by (by destruct key). rewrite Hrec. cbn.
    by rewrite !bool_decide_eq_false_2 by auto. }
  eexists. split; [exact Hrun|]. destruct (complete_advances _ _ _ _ Hrun (it_ok _ _ _ _ Htr)) as (Hok & _).
  split; [done|apply Htr|]. intros j m' Hj. destruct (it_records _ _ _ _ Htr _ _ Hj) as (key' & business' & Hk' & Hb' & Hrec').
  exists key', business'. split_and!; [done|done|]. cbn. destruct (decide (j = length published)) as [->|Hne].
  - rewrite Hm in Hj. injection Hj as <-. assert (key' = key ∧ business' = business) as [-> ->] by (split; congruence).
    rewrite lookup_insert_eq. unfold trackedRecord. by rewrite lookup_app_r, Nat.sub_diag by lia.
  - assert (Hkeys : key ≠ key').
    { intros <-. rewrite Hrec in Hrec'. apply Hne. eapply Hinj; [exact Hj|exact Hm|].
      rewrite <-(trackedRecord_sequence published j business' (Msg.globalSequenceNumber m')).
      injection Hrec' as <-. done. }
    rewrite lookup_insert_ne by done. rewrite Hrec'. unfold trackedRecord. do 2 f_equal.
    destruct (decide (j < length published)%nat); [by rewrite lookup_app_l by lia|].
    rewrite lookup_app_r by lia. rewrite (proj2 (lookup_ge_None published j)) by lia.
    by rewrite (proj2 (lookup_ge_None [b] _)) by (simpl; lia).
Qed.

(** A retry of a completed command is answered with its result. *)
Lemma tracks_results run handed published index i m b : index_tracks run handed published index →
  handed !! i = Some m → published !! i = Some b → completedResult m index = Ret (Some b).
Proof.
  intros Htr Hm Hb. destruct (it_records _ _ _ _ Htr _ _ Hm) as (key & business & Hk & Hbu & Hr).
  unfold completedResult. rewrite Hk, Hbu. cbn [mbind outcome_bind]. rewrite Hr. unfold trackedRecord. rewrite Hb. cbn.
  by rewrite !bool_decide_eq_false_2 by auto.
Qed.
