(* ===== verification/ProcessingPathTheorems.v ===== *)
(** * Properties of the command processing path

    From submission to the readers' queues, whatever the interleaving: the journal
    holds the accepted commands in their order, the readers get exactly the
    projections of the specification's results for them, each once and in order, no
    worker throws, and as long as the readers read everything accepted is delivered. *)
From S2P Require Import Prelude Domain Bytes JournalCodec JournalFrames RunHeaderCodec RunHeaderTheorems Posix JournalReader.
From S2P Require Import JournalParse JournalFile JournalLoadTheorems JournalWriter JournalAppend JournalCrashTheorems.
From S2P Require Import Matching MatchingSpec MatchingRefine MatchingTheorems Replay.
From S2P Require Import Projection ProjectionTheorems Queues Admission AdmissionTheorems Sequencer SequencerCycle SequencerTheorems.
From S2P Require Import Bus EngineWorker JournalStorage NewRun ResultDispatcher Controller.
From S2P Require Import ControllerProcessing ExchangeProcess ExchangeProcessTheorems ProcessingPath.

(** ** The messages of accepted commands *)

(** What the engine gets for the commands [ms], after [n] earlier ones. *)
Definition sequencedAfter (n : nat) (ms : list sequenceMessage) : list sequenceMessage := imap (λ i, sequencedAs (n + i)) ms.

Lemma sequencedAfter_length n ms : length (sequencedAfter n ms) = length ms.
Proof. apply length_imap. Qed.
Lemma sequencedAfter_app n ms ms' :
  sequencedAfter n (ms ++ ms') = sequencedAfter n ms ++ sequencedAfter (n + length ms) ms'.
Proof. unfold sequencedAfter. rewrite imap_app. f_equal. apply imap_ext. intros i m _. by rewrite Nat.add_assoc. Qed.
Lemma sequencedAfter_take n k ms : sequencedAfter n (take k ms) = take k (sequencedAfter n ms).
Proof.
  destruct (decide (k ≤ length ms)%nat) as [Hk|Hk].
  - rewrite <-(take_drop k ms) at 2. rewrite sequencedAfter_app. rewrite take_app_length'; [done|].
    rewrite sequencedAfter_length, length_take. lia.
  - by rewrite !take_ge by (rewrite ?sequencedAfter_length; lia).
Qed.
Lemma sequencedAfter_sequence n ms i m : sequencedAfter n ms !! i = Some m → Msg.globalSequenceNumber m = Z.of_nat (n + i) + 1.
Proof. unfold sequencedAfter. rewrite list_lookup_imap. intros (m0 & _ & ->)%fmap_Some. apply sequencedAs_sequence. Qed.

(** What the engine reads decides whether it can run a message. *)
Lemma same_effect_valid m m' : same_effect m m' → valid_command m' → valid_command m.
Proof.
  intros [Ho Hg Hc Hcc Hi Hv Hty Hf] [Hclient Hcommand Hseq Hkind].
  split; [congruence|congruence|by rewrite Hg|]. destruct Hkind as [[Hs Ht Hin Hq Hor]|[Ht Hin Htg Hor]].
  - left. rewrite <-Hty in Hs. destruct (Msg.type m) eqn:E; try done; destruct Hf as (Hp & Hqt & Htf).
    all: split; [by rewrite E|by rewrite Htf|by rewrite Hi, Hv|by rewrite Hqt|by rewrite Ho, Hg].
  - right. rewrite <-Hty in Ht. rewrite Ht in Hf. split; [done|by rewrite Hi, Hv|by rewrite Hf|by rewrite Ho].
Qed.

Lemma committed_valid header sequence c m : valid_runHeader header → supported header → fits header sequence c →
  committed_as header c m → valid_command m ∧ (∀ name, Msg.clientCommandId m = Some name → name ≠ ""%string).
Proof.
  intros Hh Hsup Hfits Hc. split.
  - eapply same_effect_valid; [by eapply committed_same_effect|by eapply matchingMessageFrom_valid].
  - destruct Hc as (m0 & Ht & -> & _). assert (Hsame : Msg.clientCommandId (bound (withSequence (commandSequenceOf c) m0)) = Msg.clientCommandId m0).
    { unfold bound. by destruct m0, (is_order _). }
    rewrite Hsame. intros name Hn Hempty. pose proof (tm_command _ Ht _ Hn) as [[Hlen _] _]. rewrite Hempty in Hlen. simpl in Hlen. lia.
Qed.

(** ** The invariant *)
Section path.
Context {W : Type} `{PosixFile W} {Q : Type} `{NewSharedQueueLaws sequenceMessage Q}.
Implicit Types r : PathRun W Q.

(** The run: the journal the path was installed on holds [cs0]. *)
Context (header : RunHeaderV1) (cs0 : list JournalCommandV1) (st0 : MatchingState).
Context (Hvalid : valid_journal header cs0) (Hsupported : supported header).
Context (Hstart : ∃ batches0, processAll (matchingMessageFrom <$> cs0) (newMatchingState (Header.exchangeRunId header)) = (Ret batches0, st0)).

Let run : ExchangeRunId := Header.exchangeRunId header.

(** The results the specification gives for [accepted]. *)
Definition pathResults (accepted : list sequenceMessage) : list CommandResultBatch :=
  (specRun run (sequencedAfter (length cs0) accepted) (queueOf st0)).1.

(** [cs] are the commands journaled since, [consumed] those the engine ran, [published]
    the results completed, and [tail] what a failed append left in the file. *)
Record path_at (accepted : list sequenceMessage) (privateOut : list (list RecipientResult)) (publicOut : list (list PublicTrade))
    (cs : list JournalCommandV1) (published : list CommandResultBatch) (consumed history : list sequenceMessage)
    (tail : bytes) r : Prop := {
  pa_pipeline : pipeline_ok header cs0 cs consumed tail (pathSequencer r) (Run.world r);
  pa_handed : consumed ++ queued (Path.matching (Run.processing r)) ++ waiting (pathSequencer r) =
    sequencedAfter (length cs0) (take (length cs) accepted);
  pa_flight : ∃ stopped, drop (length cs) accepted = stopped ++ queued (Path.ingress (Run.processing r)) ∧
    (halted (pathSequencer r) = false → stopped = []);
  pa_index : index_tracks run (sequencedAfter (length cs0) (take (length cs) accepted)) published (Run.admissionIndex r);
  pa_worker : worker_ok st0 consumed history ∅ published (pathMatcher r);
  pa_dispatcher : dispatcher_ok published privateOut publicOut (pathDispatcher r);
  pa_consumer : Path.completion (Run.processing r) = Path.mkConsumerMembers None None;
  pa_bus : Bus.size_ (Path.bus (Run.processing r)).1 = 1;
  pa_nodes : 0 < nodesOf (Path.matching (Run.processing r)) ∧ 0 < ResultQueue.capacity_ (Path.results (Run.processing r)) }.

Definition path_ok (p : PathState (W:=W) (Q:=Q)) : Prop :=
  let '(r, accepted, privateOut, publicOut) := p in
  ∃ cs published consumed history tail, path_at accepted privateOut publicOut cs published consumed history tail r.

(** What is left to do, weighted by the operations it still takes. *)
Definition path_left r : nat :=
  9 * length (queued (Path.ingress (Run.processing r))) + 8 * length (option_list (Path.pendingCommand_ (Path.sequencer (Run.processing r)))) +
  7 * length (queued (Path.matching (Run.processing r))) + 5 * length (unpublished (pathMatcher r)) +
  length (option_list (Path.pendingCommandResult (Path.matcher (Run.processing r)))) + dispatch_left (pathDispatcher r).

Lemma pathResults_take k accepted : take k (pathResults accepted) = pathResults (take k accepted).
Proof.
  unfold pathResults. destruct (decide (k ≤ length accepted)%nat) as [Hk|Hk].
  - rewrite <-(take_drop k accepted) at 1. rewrite sequencedAfter_app, specRun_app. cbn [fst].
    rewrite take_app_length'; [done|]. rewrite specRun_length, sequencedAfter_length, length_take. lia.
  - by rewrite !take_ge by (rewrite ?specRun_length, ?sequencedAfter_length; lia).
Qed.

(** ** What the invariant says of the commands *)
Lemma start_ok : engine_ok (Z.of_nat (length cs0) + 1) st0 ∧ State.exchangeRunId st0 = run.
Proof.
  destruct Hstart as [batches0 Hall].
  destruct (replayCommands_run header (vj_header _ _ Hvalid) Hsupported cs0 0 (newMatchingState run) [] [])
    as (st & Hall' & _ & Hok & Hid & _).
  - apply engine_ok_start.
  - by eapply journal_length_bound.
  - intros i c Hi. by apply Hvalid.
  - unfold run in *. rewrite Hall in Hall'. by simplify_eq.
Qed.

Lemma path_lengths accepted privateOut publicOut cs published consumed history tail r :
  path_at accepted privateOut publicOut cs published consumed history tail r →
  (length published ≤ length consumed ≤ length cs)%nat ∧ (length cs ≤ length accepted)%nat ∧
  (length published + length (unpublished (pathMatcher r)) = length consumed)%nat ∧
  Z.of_nat (length cs0 + length cs) + 1 ≤ UINT64_MAX.
Proof.
  intros [Hpipe Hh _ _ Hw _ _ _ _]. pose proof (Forall2_length _ _ _ (po_handed _ _ _ _ _ _ _ Hpipe)) as Hlen.
  change (matchingEngineQueue_ (pathSequencer r)) with (Path.matching (Run.processing r)) in Hlen.
  rewrite Hh, sequencedAfter_length, length_take in Hlen. apply (f_equal length) in Hh.
  rewrite length_app, sequencedAfter_length, length_take in Hh. pose proof (worker_unpublished _ _ _ _ _ _ Hw).
  destruct (valid_journal_counters _ _ (po_journal _ _ _ _ _ _ _ Hpipe)) as [Hcount _]. rewrite length_app in Hcount.
  unfold wrap64, wrap, UINT64_MAX in *. pose proof (Z.mod_pos_bound (Z.of_nat (length cs0 + length cs) + 1 + 1) (2 ^ 64) ltac:(done)).
  lia.
Qed.

Lemma path_commands accepted privateOut publicOut cs published consumed history tail r i m :
  path_at accepted privateOut publicOut cs published consumed history tail r →
  sequencedAfter (length cs0) (take (length cs) accepted) !! i = Some m →
  valid_command m ∧ (∀ name, Msg.clientCommandId m = Some name → name ≠ ""%string).
Proof.
  intros Hat Hm. pose proof (pa_pipeline _ _ _ _ _ _ _ _ _ Hat) as [Hv _ Hh _ _].
  change (matchingEngineQueue_ (pathSequencer r)) with (Path.matching (Run.processing r)) in Hh.
  rewrite (pa_handed _ _ _ _ _ _ _ _ _ Hat) in Hh. destruct (Forall2_lookup_r _ _ _ _ _ Hh Hm) as (c & Hc & Hcom).
  apply (committed_valid header (Z.of_nat (length cs0 + i) + 1) c); [apply Hv|done| |done]. apply Hv.
  by rewrite lookup_app_r, Nat.add_comm, Nat.add_sub by lia.
Qed.

(** The engine runs every command handed over, with the specification's results. *)
Lemma path_runs accepted privateOut publicOut cs published consumed history tail r k :
  path_at accepted privateOut publicOut cs published consumed history tail r →
  let ms := take k (sequencedAfter (length cs0) (take (length cs) accepted)) in
  ∃ st, processAll ms st0 = (Ret (specRun run ms (queueOf st0)).1, st).
Proof.
  intros Hat ms. destruct start_ok as [Hok Hid].
  destruct (processAll_run ms (length cs0) st0 Hok) as (st & Hall & _).
  - intros i m [Hm _]%lookup_take_Some. split; [by eapply path_commands|by eapply sequencedAfter_sequence].
  - exists st. by rewrite Hid in Hall.
Qed.

Lemma path_consumed accepted privateOut publicOut cs published consumed history tail r :
  path_at accepted privateOut publicOut cs published consumed history tail r →
  consumed = take (length consumed) (sequencedAfter (length cs0) (take (length cs) accepted)) ∧
  published ++ unpublished (pathMatcher r) = (specRun run consumed (queueOf st0)).1.
Proof.
  intros Hat. assert (Hc : consumed = take (length consumed) (sequencedAfter (length cs0) (take (length cs) accepted))).
  { rewrite <-(pa_handed _ _ _ _ _ _ _ _ _ Hat). by rewrite take_app_length. }
  split; [done|]. destruct (path_runs _ _ _ _ _ _ _ _ _ (length consumed) Hat) as (st & Hall). cbv zeta in Hall. rewrite <-Hc in Hall.
  pose proof (wk_results _ _ _ _ _ _ (pa_worker _ _ _ _ _ _ _ _ _ Hat)) as Hres. rewrite Hall in Hres. by injection Hres as <- _.
Qed.

Lemma path_published accepted privateOut publicOut cs published consumed history tail r :
  path_at accepted privateOut publicOut cs published consumed history tail r →
  published ++ unpublished (pathMatcher r) = take (length consumed) (pathResults accepted).
Proof.
  intros Hat. destruct (path_consumed _ _ _ _ _ _ _ _ _ Hat) as [Hc ->]. pose proof (path_lengths _ _ _ _ _ _ _ _ _ Hat) as ([_ Hl] & Hla & _).
  unfold pathResults. rewrite sequencedAfter_take, take_take, Nat.min_l in Hc by lia.
  rewrite <-(take_drop (length consumed) (sequencedAfter (length cs0) accepted)), <-Hc, specRun_app.
  cbn [fst]. by rewrite take_app_length' by (by rewrite specRun_length).
Qed.

(** ** The sequencer's call *)
Lemma pathSequencer_with (s : SequencerState Q) w r index writer : sequencerAdmission_ s = Some index → journalWriter_ s = Some writer →
  pathSequencer (withPathSequencer s w r) = s ∧ Run.admissionIndex (withPathSequencer s w r) = index.
Proof. intros Ha Hw. unfold withPathSequencer, pathSequencer, sequencerOf. cbn. rewrite Ha, Hw. by destruct s; cbn in *; subst. Qed.

Lemma pipeline_writer cs consumed tail (s : SequencerState Q) (w : W) : pipeline_ok header cs0 cs consumed tail s w →
  is_Some (journalWriter_ s).
Proof.
  intros [_ _ _ Hw _]. destruct (halted s); [|destruct Hw as [_ (writer & -> & _)]; eauto].
  destruct Hw as [Hw _]. by destruct (journalWriter_ s); eauto.
Qed.

(** The handed-over commands and those in flight, after a move. *)
Lemma move_commands accepted (stopped : list sequenceMessage) k consumed index writer (s s' : SequencerState Q) b :
  (k ≤ length accepted)%nat →
  consumed ++ queued (matchingEngineQueue_ s) ++ waiting s = sequencedAfter (length cs0) (take k accepted) →
  drop k accepted = stopped ++ queued (sequencingIngressQueue_ s) → (halted s = false → stopped = []) →
  (halted s = false → Writer.nextCommandSequence writer = Z.of_nat (length cs0 + k) + 1) →
  sequencer_move index writer s b s' →
  ∃ k' stopped', (k' ≤ length accepted)%nat ∧
    consumed ++ queued (matchingEngineQueue_ s') ++ waiting s' = sequencedAfter (length cs0) (take k' accepted) ∧
    drop k' accepted = stopped' ++ queued (sequencingIngressQueue_ s') ∧ (halted s' = false → stopped' = []) ∧
    ((k' = k ∧ sequencerAdmission_ s' = Some index) ∨
     ∃ m index', sequencedAfter (length cs0) (take k' accepted) = sequencedAfter (length cs0) (take k accepted) ++ [m] ∧
       markSequenced m index = (Ret MarkSequenced.SEQUENCED, index') ∧ sequencerAdmission_ s' = Some index').
Proof.
  intros Hk Hh Hd Hst Hnext Hmove.
  destruct Hmove as [s' Hp Hr Hi Hm Ha _|m s' Hp Hr Hp' Hi Hm Ha|m s' Hp Hi Hp' Hr' Hm Ha|m index' pushed s' bd Hp Hi Hmark Ha Hm Hp' Hr'].
  - exists k, stopped. rewrite Hi, Hm. unfold halted, waiting in *. rewrite Hp, Hr. split_and!; auto.
  - exists k, stopped. rewrite Hi, Hm. unfold waiting in Hh. rewrite Hr, Hp in Hh.
    rewrite (waiting_none _ Hp'), app_nil_r. split_and!; auto. intros _. apply Hst. unfold halted. rewrite Hr. by rewrite andb_false_r.
  - exists k, [m]. assert (Hnh : halted s = false) by by apply halted_none. rewrite (Hst Hnh), Hi in Hd.
    rewrite (waiting_none _ Hp) in Hh. rewrite Hm. unfold waiting at 1, halted. rewrite Hr'. rewrite bool_decide_eq_true_2 by done.
    split_and!; auto. done.
  - assert (Hnh : halted s = false) by by apply halted_none. rewrite (Hst Hnh), Hi in Hd. cbn [app] in Hd.
    rewrite (waiting_none _ Hp), app_nil_r in Hh.
    assert (Hlook : accepted !! k = Some m) by (rewrite <-(Nat.add_0_r k), <-lookup_drop; by rewrite Hd).
    assert (Hsnoc : sequencedAfter (length cs0) (take (Datatypes.S k) accepted) = sequencedAfter (length cs0) (take k accepted) ++ [bd]).
    { rewrite (take_S_r _ _ m Hlook), sequencedAfter_app. f_equal. unfold sequencedAfter. cbn. rewrite Nat.add_0_r, length_take.
      rewrite Nat.min_l by lia. unfold bd, sequencedAs. by rewrite Hnext. }
    exists (Datatypes.S k), []. pose proof (lookup_lt_Some _ _ _ Hlook). split_and!; [lia| | |done|].
    + rewrite Hsnoc, <-Hh, Hm. unfold waiting. rewrite Hr', Hp'. rewrite <-!app_assoc. by destruct pushed.
    + rewrite <-Nat.add_1_r, <-drop_drop, Hd. done.
    + right. by exists bd, index'.
Qed.

Lemma move_left index writer (s s' : SequencerState Q) b : sequencer_move index writer s b s' →
  let left s := (9 * length (queued (sequencingIngressQueue_ s)) + 8 * length (option_list (pendingCommand_ s)) +
                 7 * length (queued (matchingEngineQueue_ s)))%nat in
  (left s' ≤ left s)%nat ∧ ((left s' < left s)%nat ∨ sequencer_stuck s).
Proof.
  intros Hmove. cbv zeta.
  destruct Hmove as [s' Hp Hr Hi Hm Ha Hstuck|m s' Hp Hr Hp' Hi Hm Ha|m s' Hp Hi Hp' Hr' Hm Ha|m index' pushed s' bd Hp Hi Hmark Ha Hm Hp' Hr'].
  - rewrite Hi, Hm, Hp. split; [lia|by right].
  - rewrite Hi, Hm, Hp, Hp', length_app. cbn. split; [lia|left; lia].
  - rewrite Hi, Hm, Hp. destruct (pendingCommand_ s'); [|done]. cbn. split; [lia|left; lia].
  - rewrite Hi, Hm, Hp, Hp', length_app. destruct pushed; cbn; (split; [lia|left; lia]).
Qed.

Lemma path_sequence_ok accepted privateOut publicOut cs published consumed history tail r fuel :
  path_at accepted privateOut publicOut cs published consumed history tail r → (interrupts (Run.world r) + 256 < fuel)%nat →
  ∃ b s w', processNext fuel (pathSequencer r) (Run.world r) = (Ok (Ret b, s), w') ∧
    let r' := withPathSequencer s w' r in
    (∃ cs' tail', path_at accepted privateOut publicOut (cs ++ cs') published consumed history tail' r') ∧
    (path_left r' ≤ path_left r)%nat ∧ ((path_left r' < path_left r)%nat ∨ sequencer_stuck (pathSequencer r)).
Proof.
  intros Hat Hf. destruct (path_lengths _ _ _ _ _ _ _ _ _ Hat) as (Hlens & Hla & _).
  destruct Hat as [Hpipe Hh (stopped & Hd & Hst) Hidx Hw Hdisp Hc Hb Hn].
  destruct (cycle_run _ _ _ _ _ _ _ _ Hpipe Hf) as (b & s & w' & cs' & tail' & Hrun & Hpipe' & _).
  destruct (pipeline_writer _ _ _ _ _ Hpipe') as [writer' Hwr'].
  destruct (processNext_moves fuel (pathSequencer r) (Run.world r) b s w' _ _ eq_refl eq_refl Hrun) as [Hmove Hnodes].
  assert (Hnext : halted (pathSequencer r) = false →
    Writer.nextCommandSequence (Run.journalWriter r) = Z.of_nat (length cs0 + length cs) + 1).
  { intros Hnh. pose proof (po_writer _ _ _ _ _ _ _ Hpipe) as Hwr. rewrite Hnh in Hwr. destruct Hwr as [_ (writer & [= <-] & Hwok)].
    by rewrite (wo_next _ _ _ _ Hwok), length_app. }
  destruct (move_commands accepted stopped (length cs) consumed _ _ _ _ _ Hla Hh Hd Hst Hnext Hmove)
    as (k' & stopped' & Hk' & Hh' & Hd' & Hst' & Hadm).
  assert (Hlen : length (cs ++ cs') = k').
  { rewrite (Forall2_length _ _ _ (po_handed _ _ _ _ _ _ _ Hpipe')), Hh', sequencedAfter_length, length_take. lia. }
  assert (Hindex : ∃ index', sequencerAdmission_ s = Some index' ∧
    index_tracks run (sequencedAfter (length cs0) (take k' accepted)) published index').
  { destruct Hadm as [[-> Ha]|(m & index' & Hsnoc & Hmark & Ha)]; [by eexists|]. exists index'. split; [done|]. rewrite Hsnoc.
    eapply tracks_mark; [exact Hidx| |exact Hmark]. rewrite sequencedAfter_length, length_take. lia. }
  destruct Hindex as (index' & Ha & Hidx'). exists b, s, w'. split; [done|]. cbv zeta.
  destruct (pathSequencer_with s w' r index' writer' Ha Hwr') as [Hsame Hi]. split_and!.
  - exists cs', tail'. split; rewrite ?Hsame, ?Hi, ?Hlen; try done.
    + by exists stopped'.
    + by destruct Hw.
    + destruct Hdisp as [[] Hpend]. split; [by split|exact Hpend].
    + cbn. by rewrite Hnodes.
  - pose proof (proj1 (move_left _ _ _ _ _ Hmove)) as Hl. unfold path_left. cbn in *. unfold unpublished, dispatch_left in *. cbn in *. lia.
  - destruct (proj2 (move_left _ _ _ _ _ Hmove)) as [Hl|Hs]; [left|by right].
    unfold path_left. cbn in *. unfold unpublished, dispatch_left in *. cbn in *. lia.
Qed.

(** ** The engine's operation *)
Lemma pathMatcher_with e r : pathMatcher (withPathMatcher e r) = e.
Proof. by destruct e. Qed.

Lemma path_match_ok accepted privateOut publicOut cs published consumed history tail r :
  path_at accepted privateOut publicOut cs published consumed history tail r →
  ∃ b e consumed' history', engineOperation (pathMatcher r) = (Ret b, e) ∧
    let r' := withPathMatcher e r in
    path_at accepted privateOut publicOut cs published consumed' history' tail r' ∧
    (path_left r' + (if b then 1 else 0) ≤ path_left r)%nat ∧
    (b = false → ResultQueue.batches_ (Path.results (Run.processing r)) ≠ [] ∨
       (Path.pendingCommandResult (Path.matcher (Run.processing r)) = None ∧ queued (Path.matching (Run.processing r)) = [])).
Proof.
  intros Hat. pose proof (path_lengths _ _ _ _ _ _ _ _ _ Hat) as (Hlens & Hla & Hun & Hmax).
  destruct (path_consumed _ _ _ _ _ _ _ _ _ Hat) as [Hcon _]. pose proof (λ k, path_runs _ _ _ _ _ _ _ _ _ k Hat) as Hruns.
  destruct Hat as [Hpipe Hh Hflight Hidx Hw Hdisp Hc Hb [Hn Hcap]].
  destruct (engineOperation_run st0 consumed history ∅ published (pathMatcher r) Hw)
    as (b & e & consumed' & history' & Hrun & Hw' & Hsame & Hleft & Hblocked).
  { unfold countable_commands. cbn. rewrite Hb. apply (f_equal length) in Hh.
    rewrite !length_app, sequencedAfter_length, length_take in *. lia. }
  { intros m rest Hq. cbn in Hq. rewrite Hq in Hh.
    assert (Hpre : consumed ++ [m] = take (length consumed + 1) (sequencedAfter (length cs0) (take (length cs) accepted))).
    { rewrite <-Hh. change ((m :: rest) ++ waiting (pathSequencer r)) with ([m] ++ rest ++ waiting (pathSequencer r)).
      rewrite app_assoc, take_app_length'; [done|]. by rewrite length_app. }
    rewrite Hpre. destruct (Hruns (length consumed + 1)%nat) as [st Hst]. eauto. }
  destruct (engineOperation_fixed _ _ _ Hrun) as (_ & Hbus' & Hcap' & Hnodes').
  exists b, e, consumed', history'. split; [done|]. cbv zeta. cbn in Hsame. split_and!.
  - assert (Hhanded : consumed' ++ queued (sequencerQueue e) ++ waiting (pathSequencer r) =
      consumed ++ queued (Path.matching (Run.processing r)) ++ waiting (pathSequencer r)) by (by rewrite !app_assoc, Hsame).
    split; rewrite ?pathMatcher_with; try done.
    + destruct Hpipe as [Hv Hfile Hhd Hwr Hadm]. split; try done. 
      change (Forall2 (committed_as header) cs (consumed' ++ queued (sequencerQueue e) ++ waiting (pathSequencer r))). by rewrite Hhanded.
    + change (consumed' ++ queued (sequencerQueue e) ++ waiting (pathSequencer r) =
        sequencedAfter (length cs0) (take (length cs) accepted)). by rewrite Hhanded.
    + destruct Hdisp as [[] Hpend]. split; [by split|exact Hpend].
    + cbn. by rewrite Hbus'.
    + cbn. rewrite Hnodes', Hcap'. by split.
  - pose proof (worker_unpublished _ _ _ _ _ _ Hw') as Hun'. apply (f_equal length) in Hsame. rewrite !length_app in Hsame.
    unfold path_left. rewrite pathMatcher_with. unfold engine_left in Hleft. cbn in *. unfold dispatch_left in *. cbn in *. lia.
  - intros Hfalse. destruct (Hblocked Hfalse) as [Hfull|Hidle]; [left|by right]. cbn in Hfull.
    intros Hempty. rewrite Hempty in Hfull. simpl in Hfull. lia.
Qed.

(** ** The dispatcher's advance *)
Lemma pathDispatcher_with d r : pathDispatcher (withPathDispatcher d r) = d.
Proof. by destruct d as [[]]. Qed.

(** The consumer's call: the oldest result, completed in the index. *)
Lemma path_completion_run accepted privateOut publicOut cs published consumed history tail r :
  path_at accepted privateOut publicOut cs published consumed history tail r →
  ∃ next index' batches,
    processNextCompletion (Dispatcher.completion_ (pathDispatcher r)) =
      (Ret next, Consumer.mkConsumer (ResultQueue.mkResultQueue (ResultQueue.capacity_ (Path.results (Run.processing r))) batches)
                   index' None None) ∧
    ResultQueue.batches_ (Path.results (Run.processing r)) = option_list next ++ batches ∧
    (next = None → batches = []) ∧ (∀ b, next = Some b → projectable b) ∧
    complete next (Run.admissionIndex r) = (if next then Completion.COMPLETED else Completion.INVALID_BATCH, index') ∧
    index_tracks run (sequencedAfter (length cs0) (take (length cs) accepted)) (published ++ option_list next) index'.
Proof.
  intros Hat. pose proof (path_lengths _ _ _ _ _ _ _ _ _ Hat) as (Hlens & Hla & Hun & _).
  destruct (path_consumed _ _ _ _ _ _ _ _ _ Hat) as [Hcon Hspec].
  assert (Hcons : Dispatcher.completion_ (pathDispatcher r) =
    Consumer.mkConsumer (Path.results (Run.processing r)) (Run.admissionIndex r) None None).
  { unfold pathDispatcher, dispatcherOf, consumerOf. cbn [Dispatcher.completion_].
    by rewrite (pa_consumer _ _ _ _ _ _ _ _ _ Hat). }
  rewrite Hcons. unfold processNextCompletion. cbn [Consumer.failure_].
  unfold takePending, ResultQueue.tryPopResult. cbn [Consumer.pendingBatch_ Consumer.resultQueue_].
  unfold unpublished in Hspec, Hun. cbn [pathMatcher matcherOf commandResultQueue pendingCommandResult] in Hspec, Hun.
  destruct (Path.results (Run.processing r)) as [capacity batches]. cbn [ResultQueue.batches_ ResultQueue.capacity_] in *.
  destruct batches as [|b batches].
  - exists None, (Run.admissionIndex r), []. split_and!; try done. cbn [option_list]. rewrite app_nil_r. apply Hat.
  - assert (Hb : ∃ m books, sequencedAfter (length cs0) (take (length cs) accepted) !! length published = Some m ∧ b = specBatch run m books).
    { destruct (specRun_results run consumed (queueOf st0) (length published) b) as (m & books & Hm & ->).
      { rewrite <-Hspec. by rewrite lookup_app_r, Nat.sub_diag by lia. }
      rewrite Hcon in Hm. apply lookup_take_Some in Hm as [Hm _]. eauto. }
    destruct Hb as (m & books & Hm & Hb). destruct (path_commands _ _ _ _ _ _ _ _ _ _ _ Hat Hm) as [Hv Hname].
    destruct (tracks_complete run _ published (Run.admissionIndex r) m b (pa_index _ _ _ _ _ _ _ _ _ Hat)) as (index' & Hrun & Hidx');
      [|done|done|by rewrite Hb|].
    { intros i m1 Hm1%sequencedAfter_sequence j m2 Hm2%sequencedAfter_sequence Heq. lia. }
    exists (Some b), index', batches. cbn [negb Consumer.pendingBatch_ Consumer.admissionIndex_ Consumer.resultQueue_ Consumer.failure_].
    rewrite Hrun. rewrite bool_decide_eq_false_2 by auto. split_and!; try done.
    intros b' [= <-]. rewrite Hb. by apply specBatch_projectable.
Qed.

Lemma path_dispatch_ok accepted privateOut publicOut cs published consumed history tail r :
  path_at accepted privateOut publicOut cs published consumed history tail r →
  ∃ b d next, advanceDispatcher (pathDispatcher r) = (Ret b, d) ∧
    let r' := withPathDispatcher d r in
    path_at accepted privateOut publicOut cs (published ++ option_list next) consumed history tail r' ∧
    (path_left r' + (if b then 1 else 0) ≤ path_left r)%nat ∧
    (b = false →
       (Path.pendingResult_ (Path.resultDispatcher (Run.processing r)) = None ∧ ResultQueue.batches_ (Path.results (Run.processing r)) = []) ∨
       PrivateQueue.batches_ (Path.privateResults (Run.processing r)) ≠ [] ∨ TradeQueue.batches_ (Path.publicTrades (Run.processing r)) ≠ []).
Proof.
  intros Hat. destruct (path_completion_run _ _ _ _ _ _ _ _ _ Hat) as (next & index' & batches & Hnext & Hbatches & Hnone & Hproj & Hcomp & Hidx').
  pose proof Hat as [Hpipe Hh Hflight Hidx Hw Hdisp Hc Hb Hn].
  destruct (advanceDispatcher_run _ _ _ _ _ _ Hdisp Hnext Hproj) as (b & d & Hrun & Hdisp' & Hcd & Hleft & Hblocked). cbv zeta in *.
  destruct (bool_decide (Dispatcher.pendingResult_ (pathDispatcher r) ≠ None)) eqn:Hheld.
  - exists b, d, None. split; [done|]. cbn [option_list] in *. rewrite app_nil_r in *.
    assert (Hsame : Run.admissionIndex (withPathDispatcher d r) = Run.admissionIndex r ∧
      Path.results (Run.processing (withPathDispatcher d r)) = Path.results (Run.processing r) ∧
      Path.completion (Run.processing (withPathDispatcher d r)) = Path.completion (Run.processing r)).
    { unfold withPathDispatcher, putDispatcher. cbn [Run.admissionIndex Run.processing Path.results Path.completion]. rewrite Hcd.
      split_and!; try done. cbn. rewrite Hc. done. }
    destruct Hsame as (Hi & Hres & Hcons). split_and!.
    + split; rewrite ?pathDispatcher_with, ?Hi, ?Hcons, ?Hres; try done.
      * unfold pathSequencer. rewrite Hi. exact Hpipe.
      * unfold pathMatcher, matcherOf. rewrite Hres. exact Hw.
    + unfold path_left. rewrite pathDispatcher_with. unfold pathMatcher, matcherOf, unpublished in *. rewrite Hres. cbn in *. lia.
    + intros Hfalse. destruct (Hblocked Hfalse) as [[? _]|?]; [done|by right].
  - exists b, d, next. split; [done|].
    assert (Hi : Run.admissionIndex (withPathDispatcher d r) = index') by (unfold withPathDispatcher; cbn; by rewrite Hcd).
    assert (Hres : Path.results (Run.processing (withPathDispatcher d r)) =
      ResultQueue.mkResultQueue (ResultQueue.capacity_ (Path.results (Run.processing r))) batches) by (cbn; by rewrite Hcd).
    split_and!.
    + split; rewrite ?pathDispatcher_with, ?Hi, ?Hres; try done.
      * assert (Hpipe' : pipeline_ok header cs0 cs consumed tail (setAdmission (Some index') (pathSequencer r)) (Run.world r)).
        { pose proof (po_admission _ _ _ _ _ _ _ Hpipe) as (index & [= <-] & Hok & Hst).
          destruct (complete_staged _ _ _ _ _ Hcomp Hok Hst). rewrite <-setQueues_same. by apply pipeline_ok_index. }
        unfold pathSequencer. rewrite Hi. exact Hpipe'.
      * unfold pathMatcher, matcherOf. rewrite Hres. destruct Hw as [Hr Hroom Hidle Hbus Hsent Hfail]. unfold unpublished, room in *.
        cbn in Hr, Hroom. rewrite Hbatches in Hr, Hroom. rewrite length_app in Hroom.
        split; try done; unfold unpublished, room; cbn; [|lia]. by rewrite <-!app_assoc in *.
      * cbn. by rewrite Hcd.
    + unfold path_left. rewrite pathDispatcher_with. unfold pathMatcher, matcherOf, unpublished in *. rewrite Hres. cbn in *.
      rewrite Hbatches, !length_app. lia.
    + intros Hfalse. destruct (Hblocked Hfalse) as [[_ ->]|?]; [left|by right]. cbn [option_list app] in Hbatches.
      rewrite Hbatches. split; [|by apply Hnone]. apply bool_decide_eq_false in Hheld. by apply dec_stable in Hheld.
Qed.

(** ** The readers, the gateway and the controller *)
Lemma path_popPrivate_ok accepted privateOut publicOut cs published consumed history tail r batch queue :
  path_at accepted privateOut publicOut cs published consumed history tail r →
  PrivateQueue.tryPopPrivate (Path.privateResults (Run.processing r)) = (Some batch, queue) →
  let r' := withHandoffs queue (Path.publicTrades (Run.processing r)) r in
  path_at accepted (privateOut ++ [batch]) publicOut cs published consumed history tail r' ∧ (path_left r' < path_left r)%nat.
Proof.
  intros [Hpipe Hh Hflight Hidx Hw Hdisp Hc Hb Hn] Hpop r'. destruct (reader_private _ _ _ _ _ _ Hdisp Hpop) as [Hdisp' Hl].
  split; [by split|]. unfold path_left. change (unpublished (pathMatcher r')) with (unpublished (pathMatcher r)). cbn in *. lia.
Qed.

Lemma path_popPublic_ok accepted privateOut publicOut cs published consumed history tail r batch queue :
  path_at accepted privateOut publicOut cs published consumed history tail r →
  TradeQueue.tryPopTrades (Path.publicTrades (Run.processing r)) = (Some batch, queue) →
  let r' := withHandoffs (Path.privateResults (Run.processing r)) queue r in
  path_at accepted privateOut (publicOut ++ [batch]) cs published consumed history tail r' ∧ (path_left r' < path_left r)%nat.
Proof.
  intros [Hpipe Hh Hflight Hidx Hw Hdisp Hc Hb Hn] Hpop r'. destruct (reader_public _ _ _ _ _ _ Hdisp Hpop) as [Hdisp' Hl].
  split; [by split|]. unfold path_left. change (unpublished (pathMatcher r')) with (unpublished (pathMatcher r)). cbn in *. lia.
Qed.

Lemma path_submit_ok accepted privateOut publicOut cs published consumed history tail r command available decision index ingress :
  path_at accepted privateOut publicOut cs published consumed history tail r → typed_message command →
  reserveAndStageForRunCapacity command available (Run.admissionIndex r, Path.ingress (Run.processing r)) =
    (Ret decision, (index, ingress)) →
  path_at (if bool_decide (status decision = AdmissionStatus.FIRST_SUBMISSION) then accepted ++ [command] else accepted)
    privateOut publicOut cs published consumed history tail (withAdmission index ingress r).
Proof.
  intros Hat Ht Hrun. pose proof (path_lengths _ _ _ _ _ _ _ _ _ Hat) as (_ & Hla & _).
  destruct Hat as [Hpipe Hh (stopped & Hd & Hst) Hidx Hw Hdisp Hc Hb Hn].
  destruct (tracks_reserve _ _ _ _ _ _ _ _ _ _ Hrun Hidx) as [Hidx' Hq].
  pose proof (po_admission _ _ _ _ _ _ _ Hpipe) as (index0 & [= <-] & Hok & Hstaged).
  destruct (reserve_staged _ _ _ _ _ _ _ Ht Hrun Hok Hstaged) as [Hok' Hstaged'].
  assert (Htake : take (length cs) (if bool_decide (status decision = AdmissionStatus.FIRST_SUBMISSION) then accepted ++ [command] else accepted) =
    take (length cs) accepted) by (case_bool_decide; [by rewrite take_app_le|done]).
  split; rewrite ?Htake; try done.
  - exact (pipeline_ok_index _ _ _ _ _ _ _ _ _ Hok' Hstaged' Hpipe).
  - exists stopped. cbn. rewrite Hq. split; [|done]. case_bool_decide.
    + by rewrite drop_app_le, Hd, <-app_assoc.
    + by rewrite app_nil_r.
  - destruct Hdisp as [[] Hpend]. split; [by split|exact Hpend].
Qed.

Lemma path_gate_ok accepted privateOut publicOut cs published consumed history tail r open :
  path_at accepted privateOut publicOut cs published consumed history tail r →
  path_at accepted privateOut publicOut cs published consumed history tail
    (withAdmission (setAdmissionOpen open (Run.admissionIndex r)) (Path.ingress (Run.processing r)) r).
Proof.
  intros [Hpipe Hh Hflight Hidx Hw Hdisp Hc Hb Hn].
  pose proof (po_admission _ _ _ _ _ _ _ Hpipe) as (index0 & [= <-] & Hok & Hstaged).
  assert (Hok' : index_ok (setAdmissionOpen open (Run.admissionIndex r))) by by apply (index_ok_records (Run.admissionIndex r)).
  split; try done.
  - refine (pipeline_ok_index _ _ _ _ _ _ _ _ _ Hok' _ Hpipe). by destruct Hstaged.
  - by apply (tracks_keep _ _ _ (Run.admissionIndex r)).
  - destruct Hdisp as [[] Hpend]. split; [by split|exact Hpend].
Qed.

(** ** Executions *)
Lemma path_work_ok (p p' : PathState (W:=W) (Q:=Q)) : path_work p p' → path_ok p →
  path_ok p' ∧ (path_left p'.1.1.1 ≤ path_left p.1.1.1)%nat.
Proof.
  intros Hwork. destruct Hwork as [r acc pv pb fuel result s w' Hf Hrun|r acc pv pb result e Hrun|r acc pv pb result d Hrun|
    r acc pv pb batch queue Hpop|r acc pv pb batch queue Hpop]; intros (cs & published & consumed & history & tail & Hat); cbn [fst snd].
  - destruct (path_sequence_ok _ _ _ _ _ _ _ _ _ _ Hat Hf) as (b & s1 & w1 & Hrun' & (cs' & tail' & Hat') & Hl & _).
    rewrite Hrun in Hrun'. simplify_eq. split; [|done]. by exists (cs ++ cs'), published, consumed, history, tail'.
  - destruct (path_match_ok _ _ _ _ _ _ _ _ _ Hat) as (b & e1 & consumed' & history' & Hrun' & Hat' & Hl & _).
    rewrite Hrun in Hrun'. simplify_eq. split; [|lia]. by exists cs, published, consumed', history', tail.
  - destruct (path_dispatch_ok _ _ _ _ _ _ _ _ _ Hat) as (b & d1 & next & Hrun' & Hat' & Hl & _).
    rewrite Hrun in Hrun'. simplify_eq. split; [|lia]. by exists cs, (published ++ option_list next), consumed, history, tail.
  - destruct (path_popPrivate_ok _ _ _ _ _ _ _ _ _ _ _ Hat Hpop) as [Hat' Hl]. split; [|lia].
    by exists cs, published, consumed, history, tail.
  - destruct (path_popPublic_ok _ _ _ _ _ _ _ _ _ _ _ Hat Hpop) as [Hat' Hl]. split; [|lia].
    by exists cs, published, consumed, history, tail.
Qed.

Lemma path_steps_ok (p p' : PathState (W:=W) (Q:=Q)) : rtc path_step p p' → path_ok p → path_ok p'.
Proof.
  induction 1 as [|p1 p2 p3 H12 _ IH]; [done|]. intros Hok. apply IH. clear IH.
  destruct H12 as [r acc pv pb command available decision index ingress Ht Hrun|r acc pv pb open|p p' Hwork].
  - destruct Hok as (cs & published & consumed & history & tail & Hat). exists cs, published, consumed, history, tail.
    by eapply path_submit_ok.
  - destruct Hok as (cs & published & consumed & history & tail & Hat). exists cs, published, consumed, history, tail.
    by apply path_gate_ok.
  - by apply (path_work_ok p).
Qed.

(** Either an operation lowers what is left, or everything that could be is delivered. *)
Lemma path_live r accepted privateOut publicOut : path_ok (r, accepted, privateOut, publicOut) →
  (∃ p', path_work (r, accepted, privateOut, publicOut) p' ∧ (path_left p'.1.1.1 < path_left r)%nat) ∨
  ∃ cs tail, valid_journal header (cs0 ++ cs) ∧ contents (Run.world r) = journalFile header (cs0 ++ cs) ++ tail ∧
    privateOut = privateBatches (take (length cs) (pathResults accepted)) ∧
    publicOut = publicBatches (take (length cs) (pathResults accepted)) ∧
    (length cs = length accepted ∨ Path.journalAppendFailure_ (Path.sequencer (Run.processing r)) ≠ None).
Proof.
  intros (cs & published & consumed & history & tail & Hat).
  destruct (path_match_ok _ _ _ _ _ _ _ _ _ Hat) as (b1 & e & c1 & h1 & Hrun1 & _ & Hl1 & Hb1).
  destruct b1; [left; eexists; split; [by eapply path_match|cbn [fst snd]; lia]|].
  destruct (path_dispatch_ok _ _ _ _ _ _ _ _ _ Hat) as (b2 & d & n2 & Hrun2 & _ & Hl2 & Hb2).
  destruct b2; [left; eexists; split; [by eapply path_dispatch|cbn [fst snd]; lia]|].
  destruct (PrivateQueue.batches_ (Path.privateResults (Run.processing r))) as [|pb pbs] eqn:Hpq.
  2:{ assert (Hpop : ∃ q, PrivateQueue.tryPopPrivate (Path.privateResults (Run.processing r)) = (Some pb, q)).
      { unfold PrivateQueue.tryPopPrivate. rewrite Hpq. eauto. }
      destruct Hpop as [q Hpop]. left. eexists. split; [by eapply path_popPrivate|]. by eapply path_popPrivate_ok. }
  destruct (TradeQueue.batches_ (Path.publicTrades (Run.processing r))) as [|tb tbs] eqn:Htq.
  2:{ assert (Hpop : ∃ q, TradeQueue.tryPopTrades (Path.publicTrades (Run.processing r)) = (Some tb, q)).
      { unfold TradeQueue.tryPopTrades. rewrite Htq. eauto. }
      destruct Hpop as [q Hpop]. left. eexists. split; [by eapply path_popPublic|]. by eapply path_popPublic_ok. }
  destruct (Hb2 eq_refl) as [[Hpend Hres]|[Hne|Hne]]; [|done|done].
  destruct (Hb1 eq_refl) as [Hne|[Hmp Hmq]]; [done|].
  destruct (path_sequence_ok _ _ _ _ _ _ _ _ _ (interrupts (Run.world r) + 257) Hat ltac:(lia)) as (b3 & s & w' & Hrun3 & _ & _ & [Hl3|Hstuck]).
  { left. eexists. split; [eapply (path_sequence _ _ _ _ (interrupts (Run.world r) + 257)); [lia|done]|done]. }
  right. destruct (path_lengths _ _ _ _ _ _ _ _ _ Hat) as (Hlens & Hla & Hun & _).
  pose proof (path_published _ _ _ _ _ _ _ _ _ Hat) as Hpub.
  destruct Hat as [[Hv Hfile Hhd Hwr _] Hh (stopped & Hd & Hst) _ _ [[Hpriv Hpublic _ _ _ _] Hpending] _ _ [Hn _]].
  change (matchingEngineQueue_ (pathSequencer r)) with (Path.matching (Run.processing r)) in *.
  assert (Hwait : waiting (pathSequencer r) = []).
  { destruct Hstuck as [[Hp _]|[Hhalt|[Hne|Hle]]]; [by apply waiting_none| |done|cbn in Hle; lia].
    unfold halted, waiting in *. apply andb_prop in Hhalt as [_ Hr]. by destruct (pendingReadyForMatching_ _). }
  rewrite Hwait, Hmq, !app_nil_r in Hh. apply (f_equal length) in Hh. rewrite sequencedAfter_length, length_take in Hh.
  unfold unpublished in Hpub. cbn in Hpub. rewrite Hres, Hmp, app_nil_r in Hpub.
  rewrite bool_decide_eq_true_2 in Hpending by done. destruct Hpending as (_ & Hpp & Hpt).
  rewrite Hpp in Hpriv. rewrite Hpt in Hpublic. cbn in Hpriv, Hpublic. rewrite Hpq, app_nil_r in Hpriv. rewrite Htq, app_nil_r in Hpublic.
  assert (Hk : length consumed = length cs) by lia. rewrite Hk in Hpub.
  exists cs, tail. rewrite <-Hpub. split_and!; [done|done|done|done|].
  destruct Hstuck as [[Hp Hi]|[Hhalt|[Hne|Hle]]]; [left|right|done|cbn in Hle; lia].
  - rewrite (Hst (halted_none _ Hp)) in Hd. cbn in Hi. rewrite Hi in Hd. apply (f_equal length) in Hd.
    rewrite length_drop in Hd. simpl in Hd. lia.
  - rewrite Hhalt in Hwr. by destruct Hwr.
Qed.
End path.

(** ** The start *)

(** A path just installed on a run whose journal holds [cs0] and whose matching state
    is what those commands leave. *)
Record path_start {W} `{PosixFile W} {Q} `{NewSharedQueueLaws sequenceMessage Q} (header : RunHeaderV1)
    (cs0 : list JournalCommandV1) (r : PathRun W Q) : Prop := {
  pt_writer : writer_ok header cs0 (Run.journalWriter r) (Run.world r);
  pt_supported : supported header;
  pt_matching : ∃ batches0, processAll (matchingMessageFrom <$> cs0) (newMatchingState (Header.exchangeRunId header)) =
    (Ret batches0, Run.matchingState r);
  pt_index : index_ok (Run.admissionIndex r);
  pt_installed : ∃ file submission matching results privateEvents publicTrades,
    Forall is_u64 [submission; matching; results; privateEvents; publicTrades] ∧
    newProcessingPath (RunState.mkRunState (Some (mkOwnedWriter (Run.journalWriter r) file)) (Some (Run.matchingState r))
      (Some (Run.admissionIndex r))) submission matching results privateEvents publicTrades = Ret (Run.processing r) }.

Lemma throw_if_inv {A} b e (f : unit → outcome A) x : (throw_if b e ≫= f) = Ret x → b = false ∧ f tt = Ret x.
Proof. by destruct b. Qed.
Lemma outcome_bind_inv {A B} (o : outcome A) (f : A → outcome B) x : (o ≫= f) = Ret x → ∃ a, o = Ret a ∧ f a = Ret x.
Proof. destruct o as [a|]; [|done]. by exists a. Qed.

Lemma path_start_ok {W} `{PosixFile W} {Q} `{NewSharedQueueLaws sequenceMessage Q} header cs0 (r : PathRun W Q) :
  path_start header cs0 r → path_ok header cs0 (Run.matchingState r) (r, [], [], []).
Proof.
  intros [Hw _ _ Hi (file & submission & matching & results & privateEvents & publicTrades & Hu & Hnew)].
  repeat (apply Forall_cons in Hu as [? Hu]). unfold newProcessingPath in Hnew. cbn [RunState.journalWriter RunState.matchingState RunState.admissionIndex] in Hnew.
  cbn [owned_writer] in Hnew. rewrite (wo_header _ _ _ _ Hw), (vrh_events _ (vj_header _ _ (wo_valid _ _ _ _ Hw))) in Hnew.
  apply outcome_bind_inv in Hnew as (a & [Ha [= <-]]%throw_if_inv & Hnew).
  apply outcome_bind_inv in Hnew as (b & [Hb [= <-]]%throw_if_inv & Hnew).
  apply outcome_bind_inv in Hnew as (rq & [Hr [= <-]]%throw_if_inv & Hnew).
  apply outcome_bind_inv in Hnew as (pq & (a & [Hp [= <-]]%throw_if_inv & [Hp0 [= <-]]%throw_if_inv)%outcome_bind_inv & Hnew).
  apply outcome_bind_inv in Hnew as (tq & (a & [Ht [= <-]]%throw_if_inv & [Ht0 [= <-]]%throw_if_inv)%outcome_bind_inv & Hnew).
  apply outcome_bind_inv in Hnew as (bus & Hbus & Hnew). apply outcome_bind_inv in Hnew as (s & Hs & Hnew).
  pose proof (empty_bus 1 ltac:(unfold UINT64_MAX; lia)) as Hbus0. unfold newBus in Hbus. apply throw_if_inv in Hbus as [_ [= <-]].
  unfold newJournaledSequencer in Hs. apply throw_if_inv in Hs as [Hrun [= <-]]. apply bool_decide_eq_false, dec_stable in Hrun.
  apply orb_false_iff in Ha as [Ha%bool_decide_eq_false _]. apply orb_false_iff in Hb as [Hb%bool_decide_eq_false _].
  apply bool_decide_eq_false in Hr, Hp, Hp0, Ht0. apply orb_false_iff in Ht as [_ Ht%bool_decide_eq_false].
  injection Hnew as Hpath. destruct r as [p index writer st w]. cbn [Run.processing Run.admissionIndex Run.journalWriter Run.matchingState Run.world] in *.
  subst p. unfold is_u64 in *.
  destruct (new_law (Q:=Q) submission ltac:(lia)) as [Hi1 _]. destruct (new_law (Q:=Q) matching ltac:(lia)) as [Hm1 Hm2].
  assert (Hworst : wrap64 (2 * 4096) = 2 * MAX_EVENTS_PER_COMMAND) by done. rewrite Hworst in Hp.
  exists [], [], [], [], []. split; cbn [length take drop].
  - split; cbn.
    + rewrite app_nil_r. apply Hw.
    + rewrite !app_nil_r. apply Hw.
    + rewrite Hm1. constructor.
    + split; [done|]. exists writer. rewrite app_nil_r. by split.
    + exists index. rewrite Hi1. split_and!; [done|done|]. split; [constructor|constructor|constructor].
  - cbn. by rewrite Hm1.
  - exists []. cbn. by rewrite Hi1.
  - split; [done|cbn; by rewrite Hrun, (wo_header _ _ _ _ Hw)|done].
  - split; cbn; try done; unfold room; cbn; lia.
  - split; [split|]; cbn; try done.
    + split; cbn; try done; lia.
    + split; cbn; try done; unfold MAX_EVENTS_PER_COMMAND; lia.
  - done.
  - done.
  - cbn. rewrite Hm2. lia.
Qed.

(** ** What an execution from a start leaves *)
Section started.
Context {W : Type} `{PosixFile W} {Q : Type} `{NewSharedQueueLaws sequenceMessage Q}.
Context (header : RunHeaderV1) (cs0 : list JournalCommandV1) (r0 : PathRun W Q) (Hstarted : path_start header cs0 r0).

Let st0 : MatchingState := Run.matchingState r0.
Let Hv0 : valid_journal header cs0 := wo_valid _ _ _ _ (pt_writer _ _ _ Hstarted).
Let Hsup0 : supported header := pt_supported _ _ _ Hstarted.
Let Hst0 := pt_matching _ _ _ Hstarted.

Lemma started_ok (p : PathState (W:=W) (Q:=Q)) : rtc path_step (r0, [], [], []) p → path_ok header cs0 st0 p.
Proof. intros Hsteps. eapply (path_steps_ok header cs0 st0 Hv0 Hsup0 Hst0); [exact Hsteps|]. by apply path_start_ok. Qed.

Context (accepted : list sequenceMessage) (privateOut : list (list RecipientResult)) (publicOut : list (list PublicTrade)).
Context (cs : list JournalCommandV1) (published : list CommandResultBatch) (consumed history : list sequenceMessage).
Context (tail : bytes) (r : PathRun W Q).
Context (Hat : path_at header cs0 st0 accepted privateOut publicOut cs published consumed history tail r).

Lemma started_prefix : published `prefix_of` take (length cs) (pathResults header cs0 st0 accepted).
Proof.
  destruct (path_lengths _ _ _ _ _ _ _ _ _ _ _ _ Hat) as ([_ Hl] & _).
  pose proof (path_published header cs0 st0 Hv0 Hsup0 Hst0 _ _ _ _ _ _ _ _ _ Hat) as Hpub.
  exists (unpublished (pathMatcher r) ++ drop (length consumed) (take (length cs) (pathResults header cs0 st0 accepted))).
  rewrite app_assoc, Hpub. rewrite <-(take_drop (length consumed) (take (length cs) _)) at 1.
  f_equal. by rewrite take_take, Nat.min_l by lia.
Qed.

Lemma started_completed i m b : accepted !! i = Some m → published !! i = Some b →
  completedResult m (Run.admissionIndex r) = Ret (Some b).
Proof.
  intros Hm Hb. destruct (path_lengths _ _ _ _ _ _ _ _ _ _ _ _ Hat) as ([Hl1 Hl2] & _).
  pose proof (lookup_lt_Some _ _ _ Hb).
  assert (Hseq : sequencedAfter (length cs0) (take (length cs) accepted) !! i = Some (sequencedAs (length cs0 + i) m)).
  { unfold sequencedAfter. rewrite list_lookup_imap, lookup_take_lt, Hm by lia. done. }
  rewrite <-(tracks_results _ _ _ _ _ _ _ (pa_index _ _ _ _ _ _ _ _ _ _ _ _ Hat) Hseq Hb).
  unfold completedResult. by rewrite sequencedAs_key, sequencedAs_business.
Qed.

Lemma started_committed : Forall2 (committed_as header) cs (sequencedAfter (length cs0) (take (length cs) accepted)).
Proof.
  pose proof (po_handed _ _ _ _ _ _ _ (pa_pipeline _ _ _ _ _ _ _ _ _ _ _ _ Hat)) as Hh.
  change (matchingEngineQueue_ (pathSequencer r)) with (Path.matching (Run.processing r)) in Hh.
  by rewrite (pa_handed _ _ _ _ _ _ _ _ _ _ _ _ Hat) in Hh.
Qed.

(** A recovery from the file recomputes the results. *)
Lemma started_replay batches0 output :
  processAll (matchingMessageFrom <$> cs0) (newMatchingState (Header.exchangeRunId header)) = (Ret batches0, st0) →
  ∃ st, replayPreparedRunJournalV1 (loadedJournal header (cs0 ++ cs)) output =
    Ret (replayResult ReplayOutcome.REPLAYED ReplayError.NONE,
         Replayed.mkReplayed (batches0 ++ take (length cs) (pathResults header cs0 st0 accepted)) (Some st)).
Proof.
  intros Hall0. pose proof (po_journal _ _ _ _ _ _ _ (pa_pipeline _ _ _ _ _ _ _ _ _ _ _ _ Hat)) as Hv.
  destruct (path_lengths _ _ _ _ _ _ _ _ _ _ _ _ Hat) as (_ & Hla & _).
  destruct (path_runs header cs0 st0 Hv0 Hsup0 Hst0 _ _ _ _ _ _ _ _ _ (length cs) Hat) as (st & Hrun). cbv zeta in Hrun.
  rewrite take_ge in Hrun by (rewrite sequencedAfter_length, length_take; lia).
  rewrite (committed_processAll header cs _ st0 started_committed) in Hrun.
  destruct (replay_valid header (cs0 ++ cs) output Hv Hsup0) as (st' & Hall & Hreplay & _). cbv zeta in *.
  rewrite fmap_app, processAll_app in Hall. erewrite M_bind_run in Hall by exact Hall0.
  erewrite M_bind_run in Hall by exact Hrun. unfold mret, M_ret in Hall. injection Hall as Hall _.
  exists st'. rewrite pathResults_take, Hreplay, fmap_app. by rewrite <-Hall.
Qed.
End started.

(** ** The properties *)

(** C4: the durable path is its specification.  In every interleaving of the gateway's
    submissions, the gate, the sequencer, the engine, the dispatcher and the readers, from
    the installation of the path on a run whose journal holds [cs0]: the file is the
    journal of [cs0] and of the records [cs] of the first accepted commands, in the order
    of their acceptance, followed by nothing unless an append failed; the completed
    results are an initial part of those the price-time specification gives for these
    commands; what the readers took, what is queued for them and what waits for room are
    exactly the private and public projections of the completed results, each once and in
    order; a retry of a completed command is answered with its result; a recovery from
    the file succeeds and recomputes these results; and no worker's operation throws. *)
Theorem processing_path_follows_the_specification {W} `{PosixFile W} {Q} `{NewSharedQueueLaws sequenceMessage Q}
    header cs0 (r0 r : PathRun W Q) accepted privateOut publicOut batches0 output :
  path_start header cs0 r0 →
  processAll (matchingMessageFrom <$> cs0) (newMatchingState (Header.exchangeRunId header)) = (Ret batches0, Run.matchingState r0) →
  rtc path_step (r0, [], [], []) (r, accepted, privateOut, publicOut) →
  let p := Run.processing r in
  ∃ cs tail completed,
    let results := take (length cs) (pathResults header cs0 (Run.matchingState r0) accepted) in
    valid_journal header (cs0 ++ cs) ∧ contents (Run.world r) = journalFile header (cs0 ++ cs) ++ tail ∧
    (tail ≠ [] → Path.journalAppendFailure_ (Path.sequencer p) ≠ None) ∧
    Forall2 (committed_as header) cs (sequencedAfter (length cs0) (take (length cs) accepted)) ∧
    completed `prefix_of` results ∧
    privateOut ++ PrivateQueue.batches_ (Path.privateResults p) ++
      batched (Path.pendingPrivateResults_ (Path.resultDispatcher p)) = privateBatches completed ∧
    publicOut ++ TradeQueue.batches_ (Path.publicTrades p) ++
      batched (Path.pendingPublicTrades_ (Path.resultDispatcher p)) = publicBatches completed ∧
    (∀ i m b, accepted !! i = Some m → completed !! i = Some b → completedResult m (Run.admissionIndex r) = Ret (Some b)) ∧
    (∃ st, replayPreparedRunJournalV1 (loadedJournal header (cs0 ++ cs)) output =
       Ret (replayResult ReplayOutcome.REPLAYED ReplayError.NONE, Replayed.mkReplayed (batches0 ++ results) (Some st))) ∧
    (∀ fuel, (interrupts (Run.world r) + 256 < fuel)%nat →
       ∃ progressed s w', processNext fuel (pathSequencer r) (Run.world r) = (Ok (Ret progressed, s), w')) ∧
    (∃ progressed e, engineOperation (pathMatcher r) = (Ret progressed, e)) ∧
    (∃ progressed d, advanceDispatcher (pathDispatcher r) = (Ret progressed, d)).
Proof.
  intros Hstarted Hall0 Hsteps p. destruct (started_ok _ _ _ Hstarted _ Hsteps) as (cs & published & consumed & history & tail & Hat).
  pose proof (wo_valid _ _ _ _ (pt_writer _ _ _ Hstarted)) as Hv0.
  exists cs, tail, published. cbv zeta. pose proof (pa_pipeline _ _ _ _ _ _ _ _ _ _ _ _ Hat) as [Hv Hfile _ Hwr _].
  destruct (pa_dispatcher _ _ _ _ _ _ _ _ _ _ _ _ Hat) as [[Hpriv Hpub _ _ _ _] _]. split_and!; try done.
  - intros Htail. destruct (halted (pathSequencer r)); by destruct Hwr.
  - by eapply started_committed.
  - by eapply started_prefix.
  - intros i m b. by eapply started_completed.
  - by eapply started_replay.
  - intros fuel Hf. edestruct (path_sequence_ok header cs0) as (b & s & w' & Hrun & _); [exact Hat|exact Hf|]. eauto.
  - edestruct (path_match_ok header cs0) as (b & e & _ & _ & Hrun & _); [exact Hv0|apply Hstarted|apply Hstarted|exact Hat|]. eauto.
  - edestruct (path_dispatch_ok header cs0) as (b & d & _ & Hrun & _); [exact Hv0|apply Hstarted|apply Hstarted|exact Hat|]. eauto.
Qed.

(** C5: every accepted command reaches its readers.  In every state the path reaches,
    either some operation of a worker or of a reader lowers what is left to do, or
    nothing waits anywhere: the readers took the projections of the results of every
    command the journal holds, which are all accepted commands unless an append failed.
    No such operation raises what is left.  So as long as each worker gets its turn and
    the readers read, everything is delivered after [path_left] operations. *)
Theorem processing_path_delivers_everything {W} `{PosixFile W} {Q} `{NewSharedQueueLaws sequenceMessage Q}
    header cs0 (r0 r : PathRun W Q) accepted privateOut publicOut :
  path_start header cs0 r0 → rtc path_step (r0, [], [], []) (r, accepted, privateOut, publicOut) →
  let results := pathResults header cs0 (Run.matchingState r0) accepted in
  ((∃ p', path_work (r, accepted, privateOut, publicOut) p' ∧ (path_left p'.1.1.1 < path_left r)%nat) ∨
   ∃ cs tail, valid_journal header (cs0 ++ cs) ∧ contents (Run.world r) = journalFile header (cs0 ++ cs) ++ tail ∧
     privateOut = privateBatches (take (length cs) results) ∧ publicOut = publicBatches (take (length cs) results) ∧
     (length cs = length accepted ∨ Path.journalAppendFailure_ (Path.sequencer (Run.processing r)) ≠ None)) ∧
  ∀ p', path_work (r, accepted, privateOut, publicOut) p' → (path_left p'.1.1.1 ≤ path_left r)%nat.
Proof.
  intros Hstarted Hsteps results. pose proof (wo_valid _ _ _ _ (pt_writer _ _ _ Hstarted)) as Hv0.
  pose proof (started_ok _ _ _ Hstarted _ Hsteps) as Hok. split.
  - apply (path_live header cs0 (Run.matchingState r0) Hv0); [apply Hstarted|apply Hstarted|done].
  - intros p' Hwork. eapply (path_work_ok header cs0 (Run.matchingState r0) Hv0) in Hwork; [by destruct Hwork|apply Hstarted|apply Hstarted|done].
Qed.

(** ** Witnesses *)

(** A path on a journal with only its header; one order submitted; committed and handed
    over; run; its result completed and projected; and taken by its client's reader. *)
Definition demoPath : CommandProcessingPath (FixedQueue sequenceMessage) :=
  Path.mkPath (newSharedQueue 4) (newSharedQueue 4) (ResultQueue.mkResultQueue 4 [])
    (PrivateQueue.mkPrivateQueue 8192 [] 0) (TradeQueue.mkTradeQueue 4096 [] 0) (Bus.mkBus 1 [None] [] 0 0, ∅)
    (Path.mkSequencerMembers 0 None false None) (Path.mkMatcherMembers None None 0) (Path.mkConsumerMembers None None)
    (Path.mkDispatcherMembers None [] [] false) newStatus.
Definition demoRun : PathRun ScheduledFile (FixedQueue sequenceMessage) :=
  Run.mkRun demoPath demoIndex demoWriter (newMatchingState 7) demoEmptyFile.

Definition demoSubmission := reserveAndStageForRunCapacity demoOrder true (demoIndex, Path.ingress demoPath).
Definition demoSubmitted : PathRun ScheduledFile (FixedQueue sequenceMessage) :=
  withAdmission demoSubmission.2.1 demoSubmission.2.2 demoRun.
Definition demoAppend := processNext 400 (pathSequencer demoSubmitted) (Run.world demoSubmitted).
Definition demoBound : SequencerState (FixedQueue sequenceMessage) :=
  match demoAppend.1 with Ok (_, s) => s | _ => pathSequencer demoSubmitted end.
Definition demoPathAppended : PathRun ScheduledFile (FixedQueue sequenceMessage) :=
  withPathSequencer demoBound demoAppend.2 demoSubmitted.
Definition demoExecuted : PathRun ScheduledFile (FixedQueue sequenceMessage) :=
  withPathMatcher (engineOperation (pathMatcher demoPathAppended)).2 demoPathAppended.
Definition demoDispatched : PathRun ScheduledFile (FixedQueue sequenceMessage) :=
  withPathDispatcher (advanceDispatcher (pathDispatcher demoExecuted)).2 demoExecuted.
Definition demoPop := PrivateQueue.tryPopPrivate (Path.privateResults (Run.processing demoDispatched)).
Definition demoRead : PathRun ScheduledFile (FixedQueue sequenceMessage) :=
  withHandoffs demoPop.2 (Path.publicTrades (Run.processing demoDispatched)) demoDispatched.

Lemma demo_path_start : path_start demoHeader [] demoRun.
Proof.
  split; [exact demo_writer_ok|exact demoHeader_supported|by exists []|exact demoIndex_ok|].
  exists (mkJournalFile "" 0), 4, 4, 4, 8192, 4096. split; [|vm_compute; reflexivity].
  repeat (constructor; [unfold is_u64, UINT64_MAX; lia|]). constructor.
Qed.

Lemma demo_path_steps : rtc path_step (demoRun, [], [], []) (demoRead, [demoOrder], [default [] demoPop.1], []).
Proof.
  eapply rtc_l; [apply (path_submit demoRun [] [] [] demoOrder true (mkDecision AdmissionStatus.FIRST_SUBMISSION None None)
    demoSubmission.2.1 demoSubmission.2.2); [exact demoOrder_typed|vm_compute; reflexivity]|].
  rewrite bool_decide_eq_true_2 by done.
  eapply rtc_l; [apply path_works, (path_sequence demoSubmitted _ _ _ 400 (Ret true) demoBound demoAppend.2);
    [vm_compute; lia|vm_compute; reflexivity]|].
  eapply rtc_l; [apply path_works, (path_match demoPathAppended _ _ _ (Ret true) (engineOperation (pathMatcher demoPathAppended)).2);
    vm_compute; reflexivity|].
  eapply rtc_l; [apply path_works, (path_dispatch demoExecuted _ _ _ (Ret true) (advanceDispatcher (pathDispatcher demoExecuted)).2);
    vm_compute; reflexivity|].
  apply rtc_once, path_works, (path_popPrivate demoDispatched [demoOrder] [] [] (default [] demoPop.1) demoPop.2).
  vm_compute. reflexivity.
Qed.

Example demo_reader_got : Recipient.recipient <$> default [] demoPop.1 = [10].
Proof. vm_compute. reflexivity. Qed.

Lemma processing_path_follows_the_specification_witness :
  ∃ (cs : list JournalCommandV1) (completed : list CommandResultBatch), (length cs ≤ 1)%nat ∧
    completed `prefix_of` take (length cs) (pathResults demoHeader [] (newMatchingState 7) [demoOrder]) ∧
    [default [] demoPop.1] ++ PrivateQueue.batches_ (Path.privateResults (Run.processing demoRead)) ++
      batched (Path.pendingPrivateResults_ (Path.resultDispatcher (Run.processing demoRead))) = privateBatches completed.
Proof.
  destruct (processing_path_follows_the_specification demoHeader [] demoRun demoRead [demoOrder] [default [] demoPop.1] [] []
    (Replayed.mkReplayed [] None) demo_path_start eq_refl demo_path_steps)
    as (cs & tail & completed & _ & _ & _ & Hcs & Hprefix & Hprivate & _).
  exists cs, completed. split_and!; [|exact Hprefix|exact Hprivate].
  apply Forall2_length in Hcs. rewrite sequencedAfter_length, length_take in Hcs. cbn in Hcs. lia.
Defined.

Lemma processing_path_delivers_everything_witness :
  path_left demoRun = 0%nat ∧
  ∀ p', path_work (demoRead, [demoOrder], [default [] demoPop.1], []) p' → (path_left p'.1.1.1 ≤ path_left demoRead)%nat.
Proof.
  split; [reflexivity|].
  exact (proj2 (processing_path_delivers_everything demoHeader [] demoRun demoRead [demoOrder] [default [] demoPop.1] []
    demo_path_start demo_path_steps)).
Defined.
