(* ===== verification/ControllerPath.v ===== *)
(** * The controller on the command processing path

    The calls of [ExchangeRunController] that work on the path
    ([src/core/recovery/src/controller_command_processing.cpp]): installing it,
    submitting, one cycle and the readers' calls, on the controller's own state and
    world, are executions of the path of [ProcessingPath.v], so what
    [ProcessingPathTheorems.v] shows of the path holds of the controller. *)
From S2P Require Import Prelude Domain Bytes JournalCodec JournalFrames RunHeaderCodec RunHeaderTheorems Posix Paths FileSystem JournalReader.
From S2P Require Import JournalParse JournalFile JournalLoadTheorems JournalWriter JournalAppend JournalCrashTheorems.
From S2P Require Import Matching MatchingSpec MatchingRefine MatchingTheorems Replay.
From S2P Require Import Projection ProjectionTheorems Queues Admission AdmissionTheorems Sequencer SequencerCycle SequencerTheorems.
From S2P Require Import Bus EngineWorker JournalStorage NewRun ResultDispatcher Controller.
From S2P Require Import ControllerLifecycle ControllerProcessing ControllerInv ExchangeProcess ExchangeProcessTheorems ProcessingPath ProcessingPathTheorems.

(** ** Passes of the workers *)
Section draining.
Context {W : Type} `{PosixFile W} {Q : Type} `{NewSharedQueueLaws sequenceMessage Q}.
Implicit Types r : PathRun W Q.

(** The sequencer's loop, as calls of [processNext]. *)
Lemma path_drain header cs0 taken fuel accepted privateOut publicOut : ∀ loopFuel progressed cs tail r,
  pipeline_ok header cs0 cs taken tail (pathSequencer r) (Run.world r) → (interrupts (Run.world r) + 256 < fuel)%nat →
  (backlog (pathSequencer r) < loopFuel)%nat →
  ∃ result s w', drainAvailable loopFuel fuel progressed (pathSequencer r) (Run.world r) = (Ok (Ret result, s), w') ∧
    is_Some (sequencerAdmission_ s) ∧ is_Some (journalWriter_ s) ∧
    rtc path_work (r, accepted, privateOut, publicOut) (withPathSequencer s w' r, accepted, privateOut, publicOut).
Proof.
  induction loopFuel as [|loopFuel IH]; intros progressed cs tail r Hok Hf Hl; [lia|]. cbn [drainAvailable].
  destruct (cycle_run _ _ _ _ _ _ _ _ Hok Hf) as (b & s1 & w1 & cs1 & tail1 & Hrun & Hok1 & Hi & Hb).
  erewrite io_bind_run by exact Hrun. cbn match.
  assert (Hstep : path_work (r, accepted, privateOut, publicOut) (withPathSequencer s1 w1 r, accepted, privateOut, publicOut))
    by by eapply path_sequence.
  destruct (po_admission _ _ _ _ _ _ _ Hok1) as (index1 & Ha1 & _). destruct (pipeline_writer _ _ _ _ _ _ _ Hok1) as [writer1 Hw1].
  destruct (pathSequencer_with s1 w1 r _ _ Ha1 Hw1) as [Hs1 _]. destruct b.
  - destruct (IH true (cs ++ cs1) tail1 (withPathSequencer s1 w1 r)) as (result & s2 & w2 & Hrun2 & Ha2 & Hw2 & Hsteps).
    { by rewrite Hs1. } { cbn. lia. } { rewrite Hs1. lia. }
    rewrite Hs1 in Hrun2. exists result, s2, w2. split_and!; [done|done|done|]. eapply rtc_l; [exact Hstep|].
    destruct Ha2 as [i2 Ha2], Hw2 as [wr2 Hw2]. revert Hsteps. unfold withPathSequencer. cbn. by rewrite Ha2, Hw2.
  - exists progressed, s1, w1. split_and!; [done|by eexists|by eexists|]. by apply rtc_once.
Qed.

(** The engine's loop, as operations of it. *)
Lemma path_operations e0 e : engine_operations e0 e → ∀ r accepted privateOut publicOut, pathMatcher r = e0 →
  rtc path_work (r, accepted, privateOut, publicOut) (withPathMatcher e r, accepted, privateOut, publicOut).
Proof.
  induction 1 as [e0|e1 e2 e3 [b Hop] _ IH]; intros r accepted privateOut publicOut He.
  - subst e0. replace (withPathMatcher _ r) with r; [apply rtc_refl|]. by destruct r as [[? ? ? ? ? ? ? [] ? ? ?] ? ? ? ?].
  - eapply rtc_l; [eapply path_match; by rewrite He|]. apply (IH (withPathMatcher e2 r)). apply pathMatcher_with.
Qed.

Context (header : RunHeaderV1) (cs0 : list JournalCommandV1) (st0 : MatchingState).
Context (Hvalid : valid_journal header cs0) (Hsupported : supported header).
Context (Hstart : ∃ batches0, processAll (matchingMessageFrom <$> cs0) (newMatchingState (Header.exchangeRunId header)) = (Ret batches0, st0)).

(** What one pass of each worker does, from a state the path reaches. *)
Lemma path_sequencer_pass loopFuel fuel r accepted privateOut publicOut : path_ok header cs0 st0 (r, accepted, privateOut, publicOut) →
  (interrupts (Run.world r) + 256 < fuel)%nat → (backlog (pathSequencer r) < loopFuel)%nat →
  ∃ result s w', advanceSequencer loopFuel fuel (pathSequencer r) (Run.world r) = (Ok (Ret result, s), w') ∧
    is_Some (sequencerAdmission_ s) ∧ is_Some (journalWriter_ s) ∧
    rtc path_work (r, accepted, privateOut, publicOut) (withPathSequencer s w' r, accepted, privateOut, publicOut).
Proof. intros (cs & published & consumed & history & tail & Hat) Hf Hl. eapply path_drain; [apply Hat|done|done]. Qed.

Lemma path_matcher_pass loopFuel r accepted privateOut publicOut : path_ok header cs0 st0 (r, accepted, privateOut, publicOut) →
  (length (queued (Path.matching (Run.processing r))) < loopFuel)%nat →
  ∃ result e, advanceEngine loopFuel (pathMatcher r) = (Ret result, e) ∧
    rtc path_work (r, accepted, privateOut, publicOut) (withPathMatcher e r, accepted, privateOut, publicOut).
Proof.
  intros (cs & published & consumed & history & tail & Hat) Hl.
  pose proof (path_lengths header cs0 st0 _ _ _ _ _ _ _ _ _ Hat) as (Hlens & Hla & Hun & Hmax).
  pose proof (λ k, path_runs header cs0 st0 Hvalid Hsupported Hstart _ _ _ _ _ _ _ _ _ k Hat) as Hruns.
  destruct Hat as [_ Hh _ _ Hw _ _ Hb _]. cbv zeta in Hruns.
  set (handed := sequencedAfter (length cs0) (take (length cs) accepted)) in *.
  destruct (advanceEngine_run st0 (consumed ++ queued (Path.matching (Run.processing r))) published loopFuel (pathMatcher r))
    as (result & e & Hrun & Hout); [|done|].
  { exists consumed, history, ∅. split_and!; [done|exact Hw|]. unfold countable_commands. cbn. rewrite Hb.
    apply (f_equal length) in Hh. unfold handed in Hh. rewrite !length_app, sequencedAfter_length, length_take in *. lia. }
  destruct result as [result|ex].
  - exists result, e. split; [done|]. eapply path_operations; [|done]. by eapply advanceEngine_operations.
  - exfalso. destruct Hout as (done_ & m & Harr & _ & Hthrow & _).
    destruct (Hruns (length (done_ ++ [m]))) as [st Hst]. rewrite <-Hh, app_assoc, Harr, <-!app_assoc, app_assoc in Hst.
    rewrite take_app_length in Hst. congruence.
Qed.

Lemma path_dispatcher_pass r accepted privateOut publicOut : path_ok header cs0 st0 (r, accepted, privateOut, publicOut) →
  ∃ result d, advanceDispatcher (pathDispatcher r) = (Ret result, d) ∧
    rtc path_work (r, accepted, privateOut, publicOut) (withPathDispatcher d r, accepted, privateOut, publicOut).
Proof.
  intros (cs & published & consumed & history & tail & Hat).
  destruct (path_dispatch_ok header cs0 st0 Hvalid Hsupported Hstart _ _ _ _ _ _ _ _ _ Hat) as (b & d & _ & Hrun & _).
  exists b, d. split; [done|]. by eapply rtc_once, path_dispatch.
Qed.
End draining.

Section controller.
Context {W : Type} `{FileSystem W} `{!PosixFile (FileView W)} {Q : Type} `{NewSharedQueueLaws sequenceMessage Q}.
Implicit Types (c : ExchangeRunController Q) (r : PathRun (FileView W) Q) (w : W).

(** The controller [c] in the world [w] owns what [r] describes; the path's status is its own. *)
Record owns_path c w r : Prop := {
  op_path : ∃ s, Control.commandProcessing_ c = Some (setStatus s (Run.processing r));
  op_run : Control.run_ c = RunState.mkRunState (Some (mkOwnedWriter (Run.journalWriter r) (view_file (Run.world r))))
    (Some (Run.matchingState r)) (Some (Run.admissionIndex r));
  op_world : view_world (Run.world r) = w }.

Lemma owns_view c w r : owns_path c w r → mkView w (view_file (Run.world r)) = Run.world r.
Proof. intros [_ _ <-]. by destruct (Run.world r). Qed.


Lemma ctl_run {A B} (m : ctl W Q A) (f : A → ctl W Q B) c w a c' w' :
  m c w = (Ok (Ret a, c'), w') → (m ≫= f) c w = f a c' w'.
Proof. intros E. unfold mbind, ctl_bind. by rewrite E. Qed.

Lemma owned_path c w r : owns_path c w r → ∃ s, thePath c w = (Ok (Ret (setStatus s (Run.processing r)), c), w) ∧
  Control.commandProcessing_ c = Some (setStatus s (Run.processing r)).
Proof. intros [[s Hp] _ _]. exists s. split; [|done]. unfold thePath. erewrite ctl_run by done. by rewrite Hp. Qed.
Lemma owned_writer_of c w r : owns_path c w r →
  theWriter c w = (Ok (Ret (mkOwnedWriter (Run.journalWriter r) (view_file (Run.world r))), c), w).
Proof. intros [_ Hr _]. unfold theWriter. erewrite ctl_run by done. by rewrite Hr. Qed.
Lemma owned_index c w r : owns_path c w r → theIndex c w = (Ok (Ret (Run.admissionIndex r), c), w).
Proof. intros [_ Hr _]. unfold theIndex. erewrite ctl_run by done. by rewrite Hr. Qed.

Lemma owned_sequencerAdvance loopFuel fuel c w r result s v : owns_path c w r →
  advanceSequencer loopFuel fuel (pathSequencer r) (Run.world r) = (Ok (result, s), v) →
  is_Some (sequencerAdmission_ s) → is_Some (journalWriter_ s) →
  ∃ c', sequencerAdvance loopFuel fuel c w = (Ok (result, c'), view_world v) ∧
    owns_path c' (view_world v) (withPathSequencer s v r) ∧ Control.state_ c' = Control.state_ c.
Proof.
  intros Howns Hrun [index Ha] [writer Hw]. destruct (owned_path _ _ _ Howns) as (status & Hp & Hc).
  exists (setPath (Some (setStatus status (putSequencer s (Run.processing r)))) (setRun (putBorrowed s (view_file v) (Control.run_ c)) c)).
  split.
  - unfold sequencerAdvance. erewrite ctl_run by exact Hp. erewrite ctl_run by by eapply owned_writer_of.
    erewrite ctl_run by by eapply owned_index. unfold liftC, on_journal. cbn [owned_file owned_writer].
    change (sequencerOf (setStatus _ _) _ _) with (pathSequencer r). unfold mbind at 1, ctl_bind at 1, mbind at 1, io_bind at 1.
    rewrite (owns_view _ _ _ Howns), Hrun. reflexivity.
  - split; [|done]. destruct Howns as [_ Hr _]. split; cbn; [by exists status| |done]. unfold putBorrowed. by rewrite Ha, Hw, Hr.
Qed.

Lemma owned_matcherAdvance loopFuel c w r result e : owns_path c w r →
  advanceEngine loopFuel (pathMatcher r) = (result, e) →
  ∃ c', matcherAdvance loopFuel c w = (Ok (result, c'), w) ∧ owns_path c' w (withPathMatcher e r) ∧ Control.state_ c' = Control.state_ c.
Proof.
  intros Howns Hrun. destruct (owned_path _ _ _ Howns) as (status & Hp & Hc).
  exists (setPath (Some (setStatus status (putMatcher e (Run.processing r)))) (setRun (setRunMatching (matchingState_ e) (Control.run_ c)) c)).
  split.
  - unfold matcherAdvance. erewrite ctl_run by exact Hp. erewrite ctl_run by done. rewrite (op_run _ _ _ Howns). cbn [RunState.matchingState].
    change (matcherOf (setStatus _ _) _) with (pathMatcher r). rewrite Hrun. by rewrite <-(op_run _ _ _ Howns).
  - split; [|done]. destruct Howns as [_ Hr Hv]. split; cbn; [by exists status| |done]. by rewrite Hr.
Qed.

Lemma owned_dispatcherAdvance c w r result d : owns_path c w r → advanceDispatcher (pathDispatcher r) = (result, d) →
  ∃ c', dispatcherAdvance c w = (Ok (result, c'), w) ∧ owns_path c' w (withPathDispatcher d r) ∧ Control.state_ c' = Control.state_ c.
Proof.
  intros Howns Hrun. destruct (owned_path _ _ _ Howns) as (status & Hp & Hc).
  exists (setPath (Some (setStatus status (putDispatcher d (Run.processing r))))
    (setRun (setRunIndex (Consumer.admissionIndex_ (Dispatcher.completion_ d)) (Control.run_ c)) c)). split.
  - unfold dispatcherAdvance. erewrite ctl_run by exact Hp. erewrite ctl_run by by eapply owned_index.
    change (dispatcherOf (setStatus _ _) _) with (pathDispatcher r). by rewrite Hrun.
  - split; [|done]. destruct Howns as [_ Hr Hv]. split; cbn; [by exists status| |done]. by rewrite Hr.
Qed.

Lemma owned_stage c w r command available decision index ingress : owns_path c w r →
  reserveAndStageForRunCapacity command available (Run.admissionIndex r, Path.ingress (Run.processing r)) = (decision, (index, ingress)) →
  ∃ c', stage command available c w = (Ok (decision, c'), w) ∧ owns_path c' w (withAdmission index ingress r).
Proof.
  intros Howns Hrun. destruct (owned_path _ _ _ Howns) as (status & Hp & Hc).
  exists (setPath (Some (setStatus status (setIngress ingress (Run.processing r)))) (setRun (setRunIndex index (Control.run_ c)) c)). split.
  - unfold stage. erewrite ctl_run by exact Hp. erewrite ctl_run by by eapply owned_index. cbn [Path.ingress setStatus].
    rewrite Hrun. unfold updateIndex, updatePath, modifyC. erewrite ctl_run by done. erewrite ctl_run by done.
    unfold outcomeC, mret, io_ret. rewrite (op_run _ _ _ Howns). cbn. by rewrite Hc.
  - destruct Howns as [_ Hr Hv]. split; cbn; [by exists status| |done]. by rewrite Hr.
Qed.

Lemma owned_popPrivate c w r batch queue : owns_path c w r →
  PrivateQueue.tryPopPrivate (Path.privateResults (Run.processing r)) = (batch, queue) →
  ∃ c', tryPopPrivateResultBatchV1 c w = (Ok (Ret batch, c'), w) ∧
    owns_path c' w (withHandoffs queue (Path.publicTrades (Run.processing r)) r).
Proof.
  intros Howns Hrun. destruct (owned_path _ _ _ Howns) as (status & _ & Hc).
  exists (setPath (Some (setStatus status (setHandoffs queue (Path.publicTrades (Run.processing r)) (Run.processing r)))) c). split.
  - unfold tryPopPrivateResultBatchV1. erewrite ctl_run by done. rewrite Hc. cbn [Path.privateResults Path.publicTrades setStatus].
    rewrite Hrun. unfold updatePath, modifyC. erewrite ctl_run by done. by rewrite Hc.
  - destruct Howns as [_ Hr Hv]. split; cbn; [by exists status|done|done].
Qed.
Lemma owned_popPublic c w r batch queue : owns_path c w r →
  TradeQueue.tryPopTrades (Path.publicTrades (Run.processing r)) = (batch, queue) →
  ∃ c', tryPopPublicTradeBatchV1 c w = (Ok (Ret batch, c'), w) ∧
    owns_path c' w (withHandoffs (Path.privateResults (Run.processing r)) queue r).
Proof.
  intros Howns Hrun. destruct (owned_path _ _ _ Howns) as (status & _ & Hc).
  exists (setPath (Some (setStatus status (setHandoffs (Path.privateResults (Run.processing r)) queue (Run.processing r)))) c). split.
  - unfold tryPopPublicTradeBatchV1. erewrite ctl_run by done. rewrite Hc. cbn [Path.privateResults Path.publicTrades setStatus].
    rewrite Hrun. unfold updatePath, modifyC. erewrite ctl_run by done. by rewrite Hc.
  - destruct Howns as [_ Hr Hv]. split; cbn; [by exists status|done|done].
Qed.

(** *** Changes beside the path *)
Lemma returns_run {A B} (m : ctl W Q A) (f : A → ctl W Q B) c w a c1 w1 (post : outcome B → ExchangeRunController Q → W → Prop) :
  m c w = (Ok (Ret a, c1), w1) → returns (f a) c1 w1 post → returns (m ≫= f) c w post.
Proof. intros Hm Hf o c' w' E. rewrite (ctl_run _ _ _ _ _ _ _ Hm) in E. by apply Hf. Qed.

Lemma owns_state state c w r : owns_path c w r → owns_path (setState state c) w r.
Proof. by intros []. Qed.

Lemma owned_updateStatus f c w r : owns_path c w r →
  ∃ c', updateStatus f c w = (Ok (Ret tt, c'), w) ∧ owns_path c' w r ∧ Control.state_ c' = Control.state_ c.
Proof.
  intros [[s Hp] Hr Hw]. eexists. split; [reflexivity|]. split; [split; [|exact Hr|exact Hw]|reflexivity].
  exists (f s). cbn. by rewrite Hp.
Qed.

Lemma owned_closeAdmission c w r : owns_path c w r → ∃ c', closeAdmission c w = (Ok (Ret tt, c'), w) ∧
  owns_path c' w (withAdmission (setAdmissionOpen false (Run.admissionIndex r)) (Path.ingress (Run.processing r)) r) ∧
  Control.state_ c' = Control.state_ c.
Proof.
  intros [[s Hp] Hr Hw]. eexists. split; [reflexivity|]. rewrite Hr. split; [split; [|done|done]|done].
  exists s. by destruct r as [[] ? ? ? ?].
Qed.

Lemma owned_account beforeCommands beforeBytes c w r : owns_path c w r →
  ∃ b c', accountJournalProgress beforeCommands beforeBytes c w = (Ok (Ret b, c'), w) ∧ owns_path c' w r ∧
    Control.state_ c' = Control.state_ c.
Proof.
  intros Howns. destruct (owned_path _ _ _ Howns) as (s & Hp & _). unfold accountJournalProgress.
  erewrite ctl_run by by eapply owned_writer_of. erewrite ctl_run by exact Hp. cbv zeta. case_match; [by eexists _, _|].
  edestruct (λ f, owned_updateStatus f _ _ _ Howns) as (c' & Hrun & ? & ?). erewrite ctl_run by exact Hrun. by eexists _, _.
Qed.

(** *** Publications return and leave the run unready *)
Definition unready {A} (o : outcome A) c' (_ : W) : Prop := (∃ a, o = Ret a) ∧ Control.state_ c' ≠ Lifecycle.READY.

Lemma unready_publishFailStopped fuel c w r : owns_path c w r → returns (publishFailStopped fuel) c w unready.
Proof.
  intros Howns. apply (owns_state Lifecycle.UNAVAILABLE) in Howns. destruct (owned_path _ _ _ Howns) as (s & Hp & _).
  unfold publishFailStopped. apply returns_modifyC, returns_getC.
  eapply returns_run; [by eapply owned_writer_of|]. eapply returns_run; [exact Hp|]. apply returns_liftC. intros [load catalog] w1 _.
  assert (Hfailed : ∀ f, returns (updateStatus f) (setState Lifecycle.UNAVAILABLE c) w1 unready)
    by by intros f o c' w' [= <- <- <-]; split; [eexists|].
  repeat (case_bool_decide; [apply Hfailed|]). apply returns_liftC. intros result w2 _.
  apply returns_modifyC. case_bool_decide; [apply returns_ret; by split; [eexists|]|]. intros o c' w' [= <- <- <-]. by split; [eexists|].
Qed.

Lemma unready_publishCapacityReached fuel c w r : owns_path c w r → returns (publishCapacityReached fuel) c w unready.
Proof.
  intros Howns. destruct (owned_path _ _ _ Howns) as (s & Hp & _). unfold publishCapacityReached. apply returns_getC.
  eapply returns_run; [by eapply owned_writer_of|]. eapply returns_run; [exact Hp|]. apply returns_liftC. intros [load catalog] w1 _.
  assert (Hrefused : ∀ c2 w2, returns (modifyC (setState Lifecycle.UNAVAILABLE) ;; mret false) c2 w2 unready)
    by (intros c2 w2; apply returns_modifyC, returns_ret; by split; [eexists|]).
  apply returns_modifyC. case_bool_decide; [apply Hrefused|]. destruct (_ || _ || _); [apply Hrefused|].
  apply returns_liftC. intros result w2 _. apply returns_modifyC. case_bool_decide; [apply Hrefused|].
  apply returns_modifyC, returns_ret. by split; [eexists|].
Qed.

Context (header : RunHeaderV1) (cs0 : list JournalCommandV1) (st0 : MatchingState).
Context (Hvalid : valid_journal header cs0) (Hsupported : supported header).
Context (Hstart : ∃ batches0, processAll (matchingMessageFrom <$> cs0) (newMatchingState (Header.exchangeRunId header)) = (Ret batches0, st0)).

Lemma path_works_ok (p p' : PathState (W:=FileView W) (Q:=Q)) : rtc path_work p p' → path_ok header cs0 st0 p →
  path_ok header cs0 st0 p' ∧ (path_left p'.1.1.1 ≤ path_left p.1.1.1)%nat.
Proof.
  induction 1 as [p|p1 p2 p3 H12 _ IH]; [by split|]. intros Hok.
  destruct (path_work_ok header cs0 st0 Hvalid Hsupported Hstart p1 p2 H12 Hok) as [Hok2 Hl2].
  destruct (IH Hok2) as [Hok3 Hl3]. split; [done|lia].
Qed.

Lemma path_left_bounds r : (backlog (pathSequencer r) ≤ path_left r ∧ length (queued (Path.matching (Run.processing r))) ≤ path_left r)%nat.
Proof. unfold backlog, path_left. cbn. destruct (Path.pendingCommand_ _); [rewrite bool_decide_eq_false_2 by done|]; cbn; lia. Qed.

(** *** One cycle *)
(** What a cycle ends in: the controller owns the path after these operations, its
    state unchanged; or it returned and the run is no longer ready. *)
Definition runs_path r accepted privateOut publicOut state (o : outcome bool) c' w' : Prop := ∃ r',
  rtc path_work (r, accepted, privateOut, publicOut) (r', accepted, privateOut, publicOut) ∧
  ((owns_path c' w' r' ∧ Control.state_ c' = state ∧ regular o) ∨ unready o c' w').

Lemma cycle_runs_path loopFuel fuel beforeCommands beforeBytes c w r accepted privateOut publicOut : owns_path c w r →
  path_ok header cs0 st0 (r, accepted, privateOut, publicOut) →
  (interrupts (Run.world r) + 256 < fuel)%nat → (path_left r < loopFuel)%nat →
  returns (advanceCycle loopFuel fuel beforeCommands beforeBytes) c w
    (runs_path r accepted privateOut publicOut (Control.state_ c)).
Proof.
  intros Howns Hok Hf Hl. destruct (path_left_bounds r) as [Hb _]. unfold advanceCycle.
  destruct (path_sequencer_pass header cs0 st0 loopFuel fuel _ _ _ _ Hok Hf ltac:(lia)) as (sequenced & s & v & Hrun1 & Ha & Hw & Hs1).
  destruct (owned_sequencerAdvance _ _ _ _ _ _ _ _ Howns Hrun1 Ha Hw) as (c1 & Hc1 & Hown1 & E1). clear Hrun1 Ha Hw.
  eapply returns_run; [exact Hc1|]. set (r1 := withPathSequencer s v r) in *. destruct (path_works_ok _ _ Hs1 Hok) as [Hok1 Hl1]. cbn [fst] in Hl1.
  destruct (owned_account beforeCommands beforeBytes _ _ _ Hown1) as (accounted & c2 & Hc2 & Hown2 & E2).
  eapply returns_run; [exact Hc2|]. destruct accounted; cbn [negb].
  2:{ apply returns_throwC. exists r1. split; [done|left]. split; [done|]. by rewrite E2, E1. }
  destruct (owned_path _ _ _ Hown2) as (status2 & Hp2 & _). eapply returns_run; [exact Hp2|]. case_bool_decide.
  { destruct (owned_closeAdmission _ _ _ Hown2) as (c3 & Hc3 & Hown3 & _). eapply returns_run; [exact Hc3|].
    apply returns_bind. eapply returns_weaken; [by eapply unready_publishFailStopped|].
    intros o c4 w4 [[a ->] Hun]. apply returns_ret. exists r1. split; [done|right]. by split; [eexists|]. }
  destruct (path_left_bounds r1) as [_ Hb1].
  destruct (path_matcher_pass header cs0 st0 Hvalid Hsupported Hstart loopFuel _ _ _ _ Hok1 ltac:(lia)) as (matched & e & Hrun3 & Hs3).
  destruct (owned_matcherAdvance _ _ _ _ _ _ Hown2 Hrun3) as (c3 & Hc3 & Hown3 & E3). eapply returns_run; [exact Hc3|].
  set (r3 := withPathMatcher e r1) in *. destruct (path_works_ok _ _ Hs3 Hok1) as [Hok3 _].
  destruct (path_dispatcher_pass header cs0 st0 Hvalid Hsupported Hstart _ _ _ _ Hok3) as (dispatched & d & Hrun4 & Hs4).
  destruct (owned_dispatcherAdvance _ _ _ _ _ Hown3 Hrun4) as (c4 & Hc4 & Hown4 & E4). eapply returns_run; [exact Hc4|].
  destruct (owned_path _ _ _ Hown4) as (status4 & Hp4 & _). eapply returns_run; [exact Hp4|].
  assert (Hsteps : rtc path_work (r, accepted, privateOut, publicOut) (withPathDispatcher d r3, accepted, privateOut, publicOut)).
  { etrans; [exact Hs1|]. etrans; [exact Hs3|exact Hs4]. }
  destruct (_ || _).
  - apply returns_ret. eexists. split; [exact Hsteps|left]. split; [done|]. by rewrite E4, E3, E2, E1.
  - eapply returns_weaken; [by eapply unready_publishCapacityReached|]. intros o c5 w5 Hun. eexists. split; [exact Hsteps|by right].
Qed.

Lemma advance_runs_path loopFuel fuel c w r accepted privateOut publicOut : owns_path c w r →
  path_ok header cs0 st0 (r, accepted, privateOut, publicOut) →
  (interrupts (Run.world r) + 256 < fuel)%nat → (path_left r < loopFuel)%nat →
  returns (advanceCommandProcessingV1 loopFuel fuel) c w (λ o c' w',
    (∃ progressed, o = Ret progressed) ∧ runs_path r accepted privateOut publicOut (Control.state_ c) o c' w').
Proof.
  intros Howns Hok Hf Hl. destruct (owned_path _ _ _ Howns) as (s & _ & Hp). unfold advanceCommandProcessingV1. apply returns_getC.
  rewrite Hp. case_bool_decide as Hst.
  { apply returns_ret. split; [by eexists|]. exists r. split; [apply rtc_refl|left]. by split_and!. }
  eapply returns_run; [by eapply owned_writer_of|]. cbv zeta. apply returns_tryC.
  eapply returns_weaken; [by apply cycle_runs_path|]. intros [b|e] c1 w1 Hruns; [by split; [eexists|]|].
  destruct Hruns as (r1 & Hsteps & [(Hown1 & E1 & Hc)|[[? [=]] _]]). cbn in Hc. rewrite Hc.
  destruct (owned_account (Writer.committedCommandCount (Run.journalWriter r)) (Writer.committedByteCount (Run.journalWriter r)) _ _ _ Hown1)
    as (b & c2 & Hc2 & Hown2 & _). eapply returns_run; [exact Hc2|].
  destruct (owned_updateStatus (setInternalFailure e) _ _ _ Hown2) as (c3 & Hc3 & Hown3 & _). eapply returns_run; [exact Hc3|].
  destruct (owned_closeAdmission _ _ _ Hown3) as (c4 & Hc4 & Hown4 & _). eapply returns_run; [exact Hc4|].
  apply returns_bind. eapply returns_weaken; [by eapply unready_publishFailStopped|].
  intros o c5 w5 [[a ->] Hun]. apply returns_ret. split; [by eexists|]. exists r1. split; [done|right]. by split; [eexists|].
Qed.

(** *** Submission *)
(** The command a submission adds. *)
Definition admittedBy (o : outcome AdmissionDecision) (command : sequenceMessage) : list sequenceMessage :=
  match o with
  | Ret decision => if bool_decide (status decision = AdmissionStatus.FIRST_SUBMISSION) then [command] else []
  | Throw _ => []
  end.

(** [m] runs without calls on the world and leaves the controller owning the path
    after a submission, changes of the gate, or nothing. *)
Definition submits (m : ctl W Q AdmissionDecision) command c w r accepted privateOut publicOut : Prop := ∃ o c' r',
  m c w = (Ok (o, c'), w) ∧ owns_path c' w r' ∧
  rtc path_step (r, accepted, privateOut, publicOut) (r', accepted ++ admittedBy o command, privateOut, publicOut).

Lemma stage_submits command available c w r accepted privateOut publicOut : typed_message command → owns_path c w r →
  submits (stage command available) command c w r accepted privateOut publicOut.
Proof.
  intros Ht Howns.
  destruct (reserveAndStageForRunCapacity command available (Run.admissionIndex r, Path.ingress (Run.processing r)))
    as [o [index ingress]] eqn:Hrun.
  destruct (owned_stage _ _ _ _ _ _ _ _ Howns Hrun) as (c' & Hc & Hown). exists o, c', (withAdmission index ingress r).
  split_and!; [done|done|]. destruct o as [decision|e]; cbn [admittedBy].
  - pose proof (path_submit r accepted privateOut publicOut _ _ _ _ _ Ht Hrun) as Hstep. apply rtc_once. revert Hstep.
    case_bool_decide; by rewrite ?app_nil_r.
  - rewrite app_nil_r. assert (Hsame : index = Run.admissionIndex r ∧ ingress = Path.ingress (Run.processing r)).
    { revert Hrun. unfold reserveAndStageForRunCapacity, reserveImpl, mbind, M_bind, liftM, stepM.
      destruct (keyFrom command); [|by intros; simplify_eq]. destruct (businessCommandFrom command); [|by intros; simplify_eq].
      by destruct (reserveLocked _ _ _ _ _) as [? [? ?]]. }
    destruct Hsame as [-> ->]. replace (withAdmission _ _ r) with r; [apply rtc_refl|]. by destruct r as [[] ? ? ? ?].
Qed.

(** Updates of the accounts and of the gate after a decision. *)
Definition settles (m : ctl W Q unit) : Prop := ∀ c w r accepted privateOut publicOut, owns_path c w r → ∃ c' r',
  m c w = (Ok (Ret tt, c'), w) ∧ owns_path c' w r' ∧
  rtc path_step (r, accepted, privateOut, publicOut) (r', accepted, privateOut, publicOut).

Lemma settles_ret : settles (mret tt).
Proof. intros c w r accepted privateOut publicOut Howns. exists c, r. split_and!; [done|done|apply rtc_refl]. Qed.
Lemma settles_bind m m' : settles m → settles m' → settles (m ;; m').
Proof.
  intros Hm Hm' c w r accepted privateOut publicOut Howns. destruct (Hm c w r accepted privateOut publicOut Howns) as (c1 & r1 & Hc1 & Hown1 & Hs1).
  destruct (Hm' c1 w r1 accepted privateOut publicOut Hown1) as (c2 & r2 & Hc2 & Hown2 & Hs2). exists c2, r2.
  split_and!; [by rewrite (ctl_run _ _ _ _ _ _ _ Hc1)|done|by etrans].
Qed.
Lemma settles_status f : settles (updateStatus f).
Proof.
  intros c w r accepted privateOut publicOut Howns. destruct (owned_updateStatus f _ _ _ Howns) as (c' & Hc & Hown & _).
  exists c', r. split_and!; [done|done|apply rtc_refl].
Qed.
Lemma settles_begin : settles beginCapacityTransition.
Proof.
  apply settles_bind; [apply settles_status|]. intros c w r accepted privateOut publicOut Howns.
  destruct (owned_closeAdmission _ _ _ Howns) as (c' & Hc & Hown & _). eexists c', _. split_and!; [done|done|]. apply rtc_once, path_gate.
Qed.

Lemma submits_run {A} (m : ctl W Q A) f a command c w r accepted privateOut publicOut : m c w = (Ok (Ret a, c), w) →
  submits (f a) command c w r accepted privateOut publicOut → submits (m ≫= f) command c w r accepted privateOut publicOut.
Proof. intros Hm (o & c' & r' & Hrun & ?). exists o, c', r'. by rewrite (ctl_run _ _ _ _ _ _ _ Hm). Qed.

Lemma submits_then m (k : AdmissionDecision → ctl W Q unit) command c w r accepted privateOut publicOut :
  submits m command c w r accepted privateOut publicOut → (∀ decision, settles (k decision)) →
  submits (decision ← m; k decision ;; mret decision) command c w r accepted privateOut publicOut.
Proof.
  intros (o & c1 & r1 & Hrun & Hown & Hsteps) Hk. destruct o as [decision|e].
  - destruct (Hk decision c1 w r1 (accepted ++ admittedBy (Ret decision) command) privateOut publicOut Hown)
      as (c2 & r2 & Hrun2 & Hown2 & Hsteps2).
    exists (Ret decision), c2, r2. split_and!; [|done|by etrans].
    by rewrite (ctl_run _ _ _ _ _ _ _ Hrun), (ctl_run _ _ _ _ _ _ _ Hrun2).
  - exists (Throw e), c1, r1. split_and!; [|done|done]. unfold mbind, ctl_bind. by rewrite Hrun.
Qed.

Lemma submit_runs_path exchangeRunId command c w r accepted privateOut publicOut : typed_message command → owns_path c w r →
  submits (submitCommandV1 exchangeRunId command) command c w r accepted privateOut publicOut.
Proof.
  intros Ht Howns. destruct (owned_path _ _ _ Howns) as (s & _ & Hp).
  assert (Hkeep : ∀ o, admittedBy o command = [] → submits (outcomeC o) command c w r accepted privateOut publicOut).
  { intros o Ho. exists o, c, r. split_and!; [done|done|]. rewrite Ho, app_nil_r. apply rtc_refl. }
  pose proof (λ available, stage_submits command available _ _ _ accepted privateOut publicOut Ht Howns) as Hstage.
  unfold submitCommandV1. eapply submits_run; [reflexivity|]. rewrite Hp.
  eapply submits_run; [by eapply owned_writer_of|]. cbv zeta. case_bool_decide; [by apply (Hkeep (Ret _))|].
  destruct (_ || _); [apply Hstage|]. case_bool_decide; [apply Hstage|].
  destruct (prospectiveFrameSizeOf command _) as [frameSize|e|]; [|by apply (Hkeep (Throw _))|by apply (Hkeep (Throw _))].
  destruct (capacityLeft _ _ _) as [available exhausts]. apply submits_then; [apply Hstage|]. intros decision.
  case_bool_decide; [apply settles_bind; [apply settles_status|]; destruct exhausts; [apply settles_begin|apply settles_ret]|].
  case_bool_decide; [apply settles_begin|apply settles_ret].
Qed.

Lemma popPrivate_runs_path c w r accepted privateOut publicOut : owns_path c w r → ∃ batch c' r',
  tryPopPrivateResultBatchV1 c w = (Ok (Ret batch, c'), w) ∧ owns_path c' w r' ∧
  rtc path_work (r, accepted, privateOut, publicOut) (r', accepted, privateOut ++ option_list batch, publicOut).
Proof.
  intros Howns. destruct (PrivateQueue.tryPopPrivate (Path.privateResults (Run.processing r))) as [batch queue] eqn:Hpop.
  destruct (owned_popPrivate _ _ _ _ _ Howns Hpop) as (c' & Hrun & Hown). eexists batch, c', _. split_and!; [done|done|].
  destruct batch as [batch|]; cbn [option_list]; [by apply rtc_once, path_popPrivate|]. rewrite app_nil_r.
  assert (queue = Path.privateResults (Run.processing r)) as ->
    by (unfold PrivateQueue.tryPopPrivate in Hpop; destruct (PrivateQueue.batches_ _); by simplify_eq).
  replace (withHandoffs _ _ r) with r; [apply rtc_refl|]. by destruct r as [[] ? ? ? ?].
Qed.
Lemma popPublic_runs_path c w r accepted privateOut publicOut : owns_path c w r → ∃ batch c' r',
  tryPopPublicTradeBatchV1 c w = (Ok (Ret batch, c'), w) ∧ owns_path c' w r' ∧
  rtc path_work (r, accepted, privateOut, publicOut) (r', accepted, privateOut, publicOut ++ option_list batch).
Proof.
  intros Howns. destruct (TradeQueue.tryPopTrades (Path.publicTrades (Run.processing r))) as [batch queue] eqn:Hpop.
  destruct (owned_popPublic _ _ _ _ _ Howns Hpop) as (c' & Hrun & Hown). eexists batch, c', _. split_and!; [done|done|].
  destruct batch as [batch|]; cbn [option_list]; [by apply rtc_once, path_popPublic|]. rewrite app_nil_r.
  assert (queue = Path.publicTrades (Run.processing r)) as ->
    by (unfold TradeQueue.tryPopTrades in Hpop; destruct (TradeQueue.batches_ _); by simplify_eq).
  replace (withHandoffs _ _ r) with r; [apply rtc_refl|]. by destruct r as [[] ? ? ? ?].
Qed.

(** Each worker's call returns. *)
Lemma workers_return loopFuel fuel c w r accepted privateOut publicOut : owns_path c w r →
  path_ok header cs0 st0 (r, accepted, privateOut, publicOut) →
  (interrupts (Run.world r) + 256 < fuel)%nat → (path_left r < loopFuel)%nat →
  (∃ progressed c' w', sequencerAdvance loopFuel fuel c w = (Ok (Ret progressed, c'), w')) ∧
  (∃ progressed c', matcherAdvance loopFuel c w = (Ok (Ret progressed, c'), w)) ∧
  (∃ progressed c', dispatcherAdvance c w = (Ok (Ret progressed, c'), w)).
Proof.
  intros Howns Hok Hf Hl. destruct (path_left_bounds r) as [Hb Hm]. split_and!.
  - destruct (path_sequencer_pass header cs0 st0 loopFuel fuel _ _ _ _ Hok Hf ltac:(lia)) as (b & s & v & Hrun & Ha & Hw & _).
    destruct (owned_sequencerAdvance _ _ _ _ _ _ _ _ Howns Hrun Ha Hw) as (c' & Hc & _). by eexists _, _, _.
  - destruct (path_matcher_pass header cs0 st0 Hvalid Hsupported Hstart loopFuel _ _ _ _ Hok ltac:(lia)) as (b & e & Hrun & _).
    destruct (owned_matcherAdvance _ _ _ _ _ _ Howns Hrun) as (c' & Hc & _). by eexists _, _.
  - destruct (path_dispatcher_pass header cs0 st0 Hvalid Hsupported Hstart _ _ _ _ Hok) as (b & d & Hrun & _).
    destruct (owned_dispatcherAdvance _ _ _ _ _ Howns Hrun) as (c' & Hc & _). by eexists _, _.
Qed.
End controller.

(** C6: the controller implements the path.  When [installCommandProcessingV1] installs a
    path on a recovered or new run, the controller owns a path at its start; and whatever
    the path has gone through, a controller that owns it implements it: a submission is at
    most a step of admission and changes of the gate, and admits its command exactly when
    it says so; one cycle of [advanceCommandProcessingV1] is a sequence of operations of
    the sequencer, the engine and the dispatcher after which the controller owns the path
    they lead to, unless it took the run out of [READY]; each worker's call returns, with
    as much fuel as there is left to do; and a reader's call is a pop.  So what the
    specification says of the path holds of the controller. *)
Theorem controller_runs_the_path {W} `{FileSystem W} `{!PosixFile (FileView W)} {Q} `{NewSharedQueueLaws sequenceMessage Q}
    header cs0 (c0 c1 : ExchangeRunController Q) (w0 w1 : W) owned st index batches0
    submission matching results privateEvents publicTrades :
  Control.run_ c0 = RunState.mkRunState (Some owned) (Some st) (Some index) →
  writer_ok header cs0 (owned_writer owned) (mkView w0 (owned_file owned)) → supported header →
  processAll (matchingMessageFrom <$> cs0) (newMatchingState (Header.exchangeRunId header)) = (Ret batches0, st) →
  index_ok index → Forall is_u64 [submission; matching; results; privateEvents; publicTrades] →
  installCommandProcessingV1 submission matching results privateEvents publicTrades c0 w0 = (Ok (Ret true, c1), w1) →
  ∃ r0 : PathRun (FileView W) Q, path_start header cs0 r0 ∧ owns_path c1 w1 r0 ∧
  ∀ c w r accepted privateOut publicOut,
    rtc path_step (r0, [], [], []) (r, accepted, privateOut, publicOut) → owns_path c w r →
    (∀ exchangeRunId command, typed_message command →
       submits (submitCommandV1 exchangeRunId command) command c w r accepted privateOut publicOut) ∧
    (∀ loopFuel fuel, (interrupts (Run.world r) + 256 < fuel)%nat → (path_left r < loopFuel)%nat →
       returns (advanceCommandProcessingV1 loopFuel fuel) c w (λ o c' w',
         (∃ progressed, o = Ret progressed) ∧ runs_path r accepted privateOut publicOut (Control.state_ c) o c' w') ∧
       (∃ progressed c' w', sequencerAdvance loopFuel fuel c w = (Ok (Ret progressed, c'), w')) ∧
       (∃ progressed c', matcherAdvance loopFuel c w = (Ok (Ret progressed, c'), w)) ∧
       (∃ progressed c', dispatcherAdvance c w = (Ok (Ret progressed, c'), w))) ∧
    (∃ batch c' r', tryPopPrivateResultBatchV1 c w = (Ok (Ret batch, c'), w) ∧ owns_path c' w r' ∧
       rtc path_work (r, accepted, privateOut, publicOut) (r', accepted, privateOut ++ option_list batch, publicOut)) ∧
    (∃ batch c' r', tryPopPublicTradeBatchV1 c w = (Ok (Ret batch, c'), w) ∧ owns_path c' w r' ∧
       rtc path_work (r, accepted, privateOut, publicOut) (r', accepted, privateOut, publicOut ++ option_list batch)).
Proof.
  intros Hrun Hw Hsup Hall Hi Hu Hinstall.
  assert (Hnew : ∃ processing, newProcessingPath (Control.run_ c0) submission matching results privateEvents publicTrades = Ret processing ∧
    c1 = setPath (Some processing) c0 ∧ w1 = w0).
  { revert Hinstall. unfold installCommandProcessingV1. rewrite (ctl_run getC _ c0 w0 c0 c0 w0 eq_refl).
    destruct (Control.commandProcessing_ c0); [done|]. destruct (RunState.journalWriter _); [|done]. destruct (_ && _); [done|].
    destruct (newProcessingPath _ _ _ _ _ _) as [processing|]; [|done]. intros [= <- <-]. by exists processing. }
  destruct Hnew as (processing & Hnew & -> & ->). rewrite Hrun in Hnew.
  set (r0 := Run.mkRun processing index (owned_writer owned) st (mkView w0 (owned_file owned)) : PathRun (FileView W) Q).
  assert (Hstart : path_start header cs0 r0).
  { split; [done|done|by eexists|done|]. exists (owned_file owned), submission, matching, results, privateEvents, publicTrades.
    split; [done|]. by destruct owned. }
  exists r0. split; [done|]. split.
  { split; [exists (Path.status processing); by destruct processing|cbn; rewrite Hrun; by destruct owned|done]. }
  intros c w r accepted privateOut publicOut Hsteps Howns.
  pose proof (started_ok header cs0 r0 Hstart _ Hsteps) as Hok. pose proof (wo_valid _ _ _ _ Hw) as Hv.
  pose proof (pt_matching _ _ _ Hstart) as Hprocessed. cbn [Run.matchingState r0] in Hprocessed. split_and!.
  - intros id command Ht. by apply submit_runs_path.
  - intros loopFuel fuel Hf Hl. split.
    + by apply (advance_runs_path header cs0 st Hv Hsup Hprocessed).
    + by eapply (workers_return header cs0 st Hv Hsup Hprocessed).
  - by apply popPrivate_runs_path.
  - by apply popPublic_runs_path.
Qed.

(** ** A controller in a world with one file *)
Definition callStatus (r : sysResult) : option Z := match r with SysDone _ => None | SysError errno => Some errno end.

#[export] Instance oneFile : FileSystem ScheduledFile := {|
  fsOpen writing _ := sysOpen writing;
  fsOpenDirectory _ w := (SysError EIO, w);
  fsCreate _ w := (SysError EIO, w);
  fsMakeTemporary _ w := ((SysError EIO, ""%string), w);
  fsRead _ := sysRead;
  fsWrite _ := sysWrite;
  fsSeek _ := sysSeek;
  fsTruncate _ := sysTruncate;
  fsSync _ w := (callStatus (sysSync w).1, (sysSync w).2);
  fsClose _ w := (callStatus (sysClose w).1, (sysClose w).2);
  fsRename _ _ w := (Some EIO, w);
  fsUnlink _ w := (Some EIO, w);
  fsIterate _ w := (inl EIO, w);
  fsAbsolute p w := (Some p, w) |}.

Lemma on_one_file {A} (f : ScheduledFile → A * ScheduledFile) (v v' : FileView ScheduledFile) a :
  on_descriptor (λ _, f) v = (a, v') → f (view_world v) = (a, view_world v').
Proof. unfold on_descriptor. destruct (f (view_world v)). by intros [= <- <-]. Qed.

#[export] Instance oneFile_posix : PosixFile (FileView ScheduledFile).
Proof.
  refine {| contents v := contents (view_world v); position v := position (view_world v); interrupts v := interrupts (view_world v) |}.
  - intros writing v r v'. cbn. unfold view_open. cbn. destruct (scheduled_call _ _ _) as [r1 w1] eqn:E. intros [= <- <-].
    exact (open_law writing _ _ _ E).
  - intros size v r v' Hs E%on_one_file. by eapply read_law.
  - intros data v r v' Hd E%on_one_file. by eapply write_law.
  - intros offset v r v' Ho E%on_one_file. by eapply seek_law.
  - intros length v r v' Hl E%on_one_file. by eapply truncate_law.
  - intros v r v' [= <- <-]. pose proof (sync_law (view_world v) _ _ (surjective_pairing _)) as Hlaw.
    cbn in *. by destruct (scheduled_call 0 id _) as [[] ?].
  - intros v r v' [= <- <-]. exact (close_law (view_world v) _ _ (surjective_pairing _)).
Defined.

Definition demoOwner : ExchangeRunController (FixedQueue sequenceMessage) :=
  Control.mkController Lifecycle.READY
    (RunState.mkRunState (Some (mkOwnedWriter demoWriter (mkJournalFile "" 0))) (Some (newMatchingState 7)) (Some demoIndex)) "" None None.
Definition demoInstalled : ExchangeRunController (FixedQueue sequenceMessage) := setPath (Some demoPath) demoOwner.

(** The order is submitted and taken through one cycle, and its owner's results are read. *)
Example demo_controller_cycle :
  match (submitCommandV1 7 demoOrder ;; advanceCommandProcessingV1 100 400 ;; tryPopPrivateResultBatchV1) demoInstalled demoEmptyFile with
  | (Ok (Ret (Some batch), _), _) => Recipient.recipient <$> batch = [10]
  | _ => False
  end.
Proof. vm_compute. reflexivity. Qed.

Lemma controller_runs_the_path_witness : ∃ o c' (r' : PathRun (FileView ScheduledFile) (FixedQueue sequenceMessage)),
  submitCommandV1 7 demoOrder demoInstalled demoEmptyFile = (Ok (o, c'), demoEmptyFile) ∧ owns_path c' demoEmptyFile r'.
Proof.
  destruct (controller_runs_the_path demoHeader [] demoOwner demoInstalled demoEmptyFile demoEmptyFile
    (mkOwnedWriter demoWriter (mkJournalFile "" 0)) (newMatchingState 7) demoIndex [] 4 4 4 8192 4096)
    as (r0 & _ & Howns & Hcalls); [reflexivity| |exact demoHeader_supported|reflexivity|exact demoIndex_ok| |vm_compute; reflexivity|].
  - destruct demo_writer_ok. by split.
  - repeat (constructor; [unfold is_u64, UINT64_MAX; lia|]). constructor.
  - destruct (Hcalls _ _ _ [] [] [] (rtc_refl _ _) Howns) as [Hsubmit _].
    destruct (Hsubmit 7 demoOrder demoOrder_typed) as (o & c' & r' & Hrun & Hown & _). exists o, c', r'. split; [exact Hrun|exact Hown].
Defined.
