(* ===== verification/Restart.v ===== *)
(** * Restarting a killed process

    The journal of a path, its admission index and [recoverRunV1] put together: the
    records of the index only advance, so the commands of the journal have distinct
    keys, so recovering the file a killed process left rebuilds the run, and a path
    installed on it starts where the other one stopped. *)
From S2P Require Import Prelude Domain Bytes JournalCodec JournalFrames RunHeaderCodec RunHeaderTheorems Posix Paths FileSystem JournalReader.
From S2P Require Import JournalParse JournalFile JournalLoadTheorems JournalWriter JournalRecovery JournalAppend JournalCrashTheorems.
From S2P Require Import Matching MatchingSpec MatchingRefine MatchingTheorems Replay.
From S2P Require Import Projection ProjectionTheorems Queues Admission AdmissionTheorems AdmissionRecovery Sequencer SequencerCycle SequencerTheorems.
From S2P Require Import Bus EngineWorker JournalStorage NewRun ResultDispatcher Controller.
From S2P Require Import ControllerLifecycle ControllerProcessing ControllerInv ExchangeProcess ExchangeProcessTheorems ProcessingPath ProcessingPathTheorems ControllerPath.

(** ** The index only advances *)
Definition index_kept (index index' : CommandAdmissionIndex) : Prop := index_ok index → index_ok index' ∧ index_advances index index'.

Lemma index_kept_refl index : index_kept index index.
Proof. by intros Hok. Qed.

Lemma processNextCompletion_kept c r c' : processNextCompletion c = (r, c') → index_kept (Consumer.admissionIndex_ c) (Consumer.admissionIndex_ c').
Proof.
  unfold processNextCompletion. destruct (Consumer.failure_ c); [intros [= _ <-]; apply index_kept_refl|].
  destruct (takePending c) as [taken c1] eqn:Et.
  assert (Ha : Consumer.admissionIndex_ c1 = Consumer.admissionIndex_ c).
  { unfold takePending in Et. destruct (Consumer.pendingBatch_ c); [by injection Et as _ <-|].
    by destruct (ResultQueue.tryPopResult _) as [[] queue]; injection Et as _ <-. }
  destruct taken; simpl; [|intros [= _ <-]; rewrite Ha; apply index_kept_refl].
  destruct (complete _ _) as [s index] eqn:E. rewrite Ha in E.
  case_bool_decide; intros [= _ <-] Hok; simpl; by destruct (complete_advances _ _ _ _ E Hok) as (? & ? & _).
Qed.

Lemma advanceDispatcher_kept d r d' : advanceDispatcher d = (r, d') →
  index_kept (Consumer.admissionIndex_ (Dispatcher.completion_ d)) (Consumer.admissionIndex_ (Dispatcher.completion_ d')).
Proof.
  assert (Hpending : ∀ b, steady Dispatcher.completion_ (dispatchPending b)).
  { assert (Hproject : steady Dispatcher.completion_ project).
    { intros d1 r1 d1' E. unfold project in E. destruct (Dispatcher.pendingResult_ d1); [|by injection E as _ <-].
      by destruct (projectPrivateResults _); injection E as _ <-. }
    assert (Hprivate : steady Dispatcher.completion_ pushPrivate).
    { intros d1 r1 d1' E. unfold pushPrivate in E. by destruct (PrivateQueue.tryPushPrivate _ _) as [[[]|] q]; injection E as _ <-. }
    assert (Hpublic : steady Dispatcher.completion_ pushPublic).
    { intros d1 r1 d1' E. unfold pushPublic in E. by destruct (TradeQueue.tryPushTrades _ _) as [[[]|] q]; injection E as _ <-. }
    intros b. unfold dispatchPending.
    repeat first [ done | apply steady_get | apply steady_ret | by apply steady_modify | apply steady_bind; [|intros ?] | case_match ]. }
  unfold advanceDispatcher. unfold mbind at 1, M_bind at 1, getM. destruct (hasPendingDispatch d).
  { intros E%Hpending. rewrite E. apply index_kept_refl. }
  unfold mbind, M_bind, takeCompleted. destruct (processNextCompletion _) as [o c] eqn:Ec. apply processNextCompletion_kept in Ec.
  destruct o as [[b|]|e]; [intros E%Hpending; by rewrite E|by intros [= _ <-]|by intros [= _ <-]].
Qed.

Section kept.
Context {W : Type} `{PosixFile W} {Q : Type} `{NewSharedQueueLaws sequenceMessage Q}.
Context (header : RunHeaderV1) (cs0 : list JournalCommandV1) (st0 : MatchingState).
Context (Hvalid : valid_journal header cs0) (Hsupported : supported header).
Context (Hstart : ∃ batches0, processAll (matchingMessageFrom <$> cs0) (newMatchingState (Header.exchangeRunId header)) = (Ret batches0, st0)).

Lemma sequencer_move_kept index writer (s s' : SequencerState Q) b : sequencer_move index writer s b s' →
  ∃ index', sequencerAdmission_ s' = Some index' ∧ index_kept index index'.
Proof.
  destruct 1 as [s' _ _ _ _ Ha _|m s' _ _ _ _ _ Ha|m s' _ _ _ _ _ Ha|m index' pushed s' bd _ _ Hmark Ha _ _ _];
    [by exists index; split; [|apply index_kept_refl]..|]. exists index'. split; [done|]. intros Hok.
  by destruct (markSequenced_advances _ _ _ _ Hmark Hok) as (? & ? & _).
Qed.

Lemma path_step_kept (p p' : PathState (W:=W) (Q:=Q)) : path_step p p' → path_ok header cs0 st0 p →
  index_kept (Run.admissionIndex p.1.1.1) (Run.admissionIndex p'.1.1.1).
Proof.
  intros Hstep Hpath. destruct Hstep as [r acc pv pb command available decision index ingress Ht Hrun|r acc pv pb open|p p' Hwork]; cbn [fst].
  - intros Hok. apply reserveAndStage_inv in Hrun as (key & business & i & q & _ & _ & Hrun & Heq). cbn [fst snd] in Hrun, Heq.
    injection Heq as -> ->. cbn. destruct q as [q|]; [by eapply reserveLocked_advances|]. exfalso.
    destruct (records_ (Run.admissionIndex r) !! key) as [rec|] eqn:Hr.
    + destruct (reserveLocked_known key business command available _ (Some (Path.ingress (Run.processing r))) rec Hr) as (d & Hrun' & _).
      by rewrite Hrun in Hrun'.
    + destruct (reserveLocked_new key business command available _ (Path.ingress (Run.processing r)) Hr) as (i' & q & Hrun' & _).
      by rewrite Hrun in Hrun'.
  - intros Hok. split; [by apply (index_ok_records (Run.admissionIndex r))|by apply index_advances_records].
  - destruct Hwork as [r acc pv pb fuel result s w' Hf Hrun|r acc pv pb result e Hrun|r acc pv pb result d Hrun|
      r acc pv pb batch queue Hpop|r acc pv pb batch queue Hpop]; cbn [fst]; try apply index_kept_refl.
    + destruct Hpath as (cs & published & consumed & history & tail & Hat).
      destruct (path_sequence_ok header cs0 st0 _ _ _ _ _ _ _ _ _ _ Hat Hf) as (b & s1 & w1 & Hrun' & _).
      rewrite Hrun in Hrun'. injection Hrun' as -> <- <-.
      destruct (processNext_moves fuel (pathSequencer r) (Run.world r) b s w' (Run.admissionIndex r) (Run.journalWriter r) eq_refl eq_refl Hrun) as [(index' & Ha & Hkept)%sequencer_move_kept _].
      cbn. by rewrite Ha.
    + by apply (advanceDispatcher_kept (pathDispatcher r) result).
Qed.

Lemma path_steps_kept (p p' : PathState (W:=W) (Q:=Q)) : rtc path_step p p' → path_ok header cs0 st0 p →
  index_kept (Run.admissionIndex p.1.1.1) (Run.admissionIndex p'.1.1.1).
Proof.
  induction 1 as [p|p1 p2 p3 H12 _ IH]; [intros _; apply index_kept_refl|]. intros Hpath Hok.
  destruct (path_step_kept _ _ H12 Hpath Hok) as [Hok2 H2'].
  destruct (IH (path_steps_ok header cs0 st0 Hvalid Hsupported Hstart _ _ (rtc_once _ _ H12) Hpath) Hok2) as [Hok3 H3'].
  split; [done|by etrans].
Qed.
End kept.

(** ** The keys of the journal *)

Lemma committed_key header sequence c m : valid_runHeader header → fits header sequence c → committed_as header c m → keyFrom m = Ret (commandKey c).
Proof.
  intros Hh Hfits Hc%committed_same_effect. destruct (normalized_run header sequence c Hfits) as (_ & _ & _ & _ & <-).
  destruct Hc as [_ _ Hclient Hcommand _ _ _ _]. unfold keyFrom. by rewrite Hclient, Hcommand.
Qed.

Section keys.
Context {W : Type} `{PosixFile W} {Q : Type} `{NewSharedQueueLaws sequenceMessage Q}.
Context (header : RunHeaderV1) (cs0 : list JournalCommandV1) (r0 : PathRun W Q) (Hstarted : path_start header cs0 r0).
Context (Hrecovered : index_recovered cs0 (Run.admissionIndex r0)).
Context (accepted : list sequenceMessage) (privateOut : list (list RecipientResult)) (publicOut : list (list PublicTrade)).
Context (cs : list JournalCommandV1) (published : list CommandResultBatch) (consumed history : list sequenceMessage).
Context (tail : bytes) (r : PathRun W Q).
Context (Hsteps : rtc path_step (r0, [], [], []) (r, accepted, privateOut, publicOut)).
Context (Hat : path_at header cs0 (Run.matchingState r0) accepted privateOut publicOut cs published consumed history tail r).

Let Hv : valid_journal header (cs0 ++ cs) := po_journal _ _ _ _ _ _ _ (pa_pipeline _ _ _ _ _ _ _ _ _ _ _ _ Hat).

(** Each command of the journal has the record of its place. *)
Lemma journal_record i c : (cs0 ++ cs) !! i = Some c →
  ∃ rec, records_ (Run.admissionIndex r) !! commandKey c = Some rec ∧ Entry.commandSequence rec = Z.of_nat i + 1.
Proof.
  intros [Hi|[Hge Hi]]%lookup_app_Some.
  - destruct (Hrecovered i c Hi) as (business & b & Hrec).
    pose proof (wo_valid _ _ _ _ (pt_writer _ _ _ Hstarted)) as Hv0.
    destruct (path_steps_kept header cs0 (Run.matchingState r0) Hv0 (pt_supported _ _ _ Hstarted) (pt_matching _ _ _ Hstarted) _ _ Hsteps
      (path_start_ok _ _ _ Hstarted) (pt_index _ _ _ Hstarted)) as [_ Hadv].
    destruct (ia_records _ _ Hadv _ _ Hrec) as (rec & Hr & _ & _ & _ & Hsame). cbn [fst] in Hr.
    exists rec. split; [exact Hr|]. by rewrite (Hsame eq_refl).
  - pose proof (started_committed header cs0 r0 _ _ _ _ _ _ _ _ _ Hat) as Hcom.
    destruct (Forall2_lookup_l _ _ _ _ _ Hcom Hi) as (m & Hm & Hcm).
    destruct (it_records _ _ _ _ (pa_index _ _ _ _ _ _ _ _ _ _ _ _ Hat) _ _ Hm) as (key & business & Hk & _ & Hrec).
    pose proof (vj_commands _ _ Hv i c) as Hfits. rewrite lookup_app_r in Hfits by lia. specialize (Hfits Hi).
    rewrite (committed_key header _ c m (vj_header _ _ Hv) Hfits Hcm) in Hk. injection Hk as <-.
    eexists. split; [exact Hrec|]. rewrite trackedRecord_sequence, (sequencedAfter_sequence _ _ _ _ Hm). lia.
Qed.

Lemma journal_keys : NoDup (commandKey <$> cs0 ++ cs).
Proof.
  apply NoDup_alt. intros i j key Hi Hj. apply list_lookup_fmap_Some in Hi as (c & -> & Hc).
  apply list_lookup_fmap_Some in Hj as (c' & Heq & Hc'). destruct (journal_record i c Hc) as (rec & Hrec & Hs).
  destruct (journal_record j c' Hc') as (rec' & Hrec' & Hs'). rewrite <-Heq, Hrec in Hrec'. injection Hrec' as <-. lia.
Qed.
End keys.

(** ** Restarting after the process was killed *)

(** The file a process leaves that was killed: as it was, or with a part of the frame
    of the command it was appending. *)
Definition killed_at (header : RunHeaderV1) (before after : bytes) : Prop :=
  after = before ∨
  ∃ cs c k, valid_journal header (cs ++ [c]) ∧ before = journalFile header cs ∧ (0 < k < length (commandFrame c))%nat ∧
    after = before ++ take k (commandFrame c).

Lemma killed_parse header cs after : valid_journal header cs → killed_at header (journalFile header cs) after →
  ∃ validation, parseJournal after = Ok (validation, loadedJournal header cs).
Proof.
  intros Hv [->|(cs' & c & k & Hv' & Heq & Hk & ->)].
  - destruct (reload_journal header cs Hv) as (validation & Hp & _). eauto.
  - assert (Hcs : cs = cs').
    { destruct (reload_journal header cs Hv) as (v1 & Hp1 & _).
      destruct (reload_journal header cs' (proj1 (proj1 (valid_journal_snoc _ _ _) Hv'))) as (v2 & Hp2 & _).
      rewrite Heq, Hp2 in Hp1. by injection Hp1 as _ ->. }
    subst cs'. eexists. by apply parse_torn.
Qed.

Section restart.
Context {W : Type} `{FileSystem W} `{!PosixFile (FileView W)}.
Implicit Types w : W.

(** Recovery of a journal with distinct keys, left by a killed process. *)
Lemma recover_killed fuel p output w header cs : valid_journal header cs → supported header → NoDup (commandKey <$> cs) →
  RunState.journalWriter output = None → killed_at header (journalFile header cs) (contents (mkView w (unopened p))) →
  (interrupts (mkView w (unopened p)) + length (contents (mkView w (unopened p))) + 1 < fuel)%nat →
  let run := Header.exchangeRunId header in
  let results := (specRun run (matchingMessageFrom <$> cs) (queueOf (newMatchingState run))).1 in
  ∃ result run' w', recoverRunV1 fuel p output (Some run) w = (Ok (result, run'), w') ∧
    ((∃ owned st index, Recovered.outcome result = Recovered.RECOVERED ∧
        run' = RunState.mkRunState (Some owned) (Some st) (Some index) ∧
        writer_ok header cs (owned_writer owned) (mkView w' (owned_file owned)) ∧
        processAll (matchingMessageFrom <$> cs) (newMatchingState run) = (Ret results, st) ∧
        recovered 0 cs results (mkIndex (Header.maxRunCommands header) run false ∅ noStatistics) index) ∨
     (Recovered.outcome result = Recovered.PREPARATION_FAILED ∧ run' = output ∧
        ∃ file, killed_at header (journalFile header cs) (contents (mkView w' file)))).
Proof.
  intros Hv Hs Hnd Hout Hkilled Hf run results. set (v := mkView w (unopened p)) in *.
  destruct (killed_parse header cs _ Hv Hkilled) as (validation & Hparse).
  destruct (prepare_run fuel (mkPrepared emptyLoaded None) (Some run) v Hf) as (result & prepared & v' & Hprep & Hoc).
  assert (Hsame : ∀ header' cs' tail', journal_prefix v header' cs' tail' → header' = header ∧ cs' = cs).
  { intros header' cs' tail' (_ & _ & validation' & _ & Hp). rewrite Hparse in Hp. by injection Hp as _ -> ->. }
  unfold recoverRunV1. fold v in Hprep.
  assert (Hrun : on_journal (unopened p) (prepareRunJournalV1 fuel (mkPrepared emptyLoaded None) (Some run)) w =
    (Ok (result, prepared, view_file v'), view_world v')) by (unfold on_journal; fold v; by rewrite Hprep).
  erewrite io_bind_run by exact Hrun. cbv beta iota.
  destruct Hoc as [(Hpo & header' & cs' & tail' & writer & Hj & _ & Hw & _ & ->)|Hfail].
  - destruct (Hsame _ _ _ Hj) as [-> ->]. rewrite bool_decide_eq_false_2 by (rewrite Hpo; by intros []). cbn [prepared_writer prepared_journal fmap option_fmap option_map].
    destruct (replay_valid header cs emptyReplayed Hv Hs) as (st & Hall & Hreplay & _). cbv zeta in *. fold run in Hall, Hreplay. fold results in Hall, Hreplay.
    rewrite Hreplay. unfold noexceptly at 1. erewrite io_bind_run by reflexivity. cbv beta iota.
    rewrite bool_decide_eq_false_2 by (by intros []). cbn [Replayed.commandResults Replayed.matchingState].
    destruct (rebuilt_index header cs None Hv Hs Hnd) as (index & Hindex & Hrec). cbv zeta in Hindex, Hrec.
    fold run in Hindex, Hrec. fold results in Hindex, Hrec. rewrite Hindex. unfold noexceptly. erewrite io_bind_run by reflexivity. cbv beta iota.
    rewrite bool_decide_eq_false_2 by (by intros []). rewrite Hout. erewrite io_bind_run by reflexivity.
    eexists _, _, _. split; [reflexivity|]. left. eexists _, st, index. split_and!; [done|reflexivity| |done|done].
    cbn. by destruct v'.
  - assert (Hnot : RecoveryResult.outcome result ≠ RecoveryOutcome.PREPARED ∧
      killed_at header (journalFile header cs) (contents v')).
    { destruct Hfail as [(Hne & _ & Hc)|(Hreq & _ & header' & cs' & tail' & Hj & _ & _ & Hc)].
      - split; [done|by rewrite Hc].
      - destruct (Hsame _ _ _ Hj) as [-> ->]. split; [by rewrite Hreq|by left]. }
    destruct Hnot as [Hne Hk]. rewrite bool_decide_eq_true_2 by done. eexists _, _, _. split; [reflexivity|]. right.
    split_and!; [done|done|]. exists (view_file v'). by destruct v'.
Qed.
End restart.

Lemma same_effect_business m m' : same_effect m m' → businessCommandFrom m = businessCommandFrom m'.
Proof.
  destruct m as [o t g c cc i v p q sy ty e sh tf], m' as [o' t' g' c' cc' i' v' p' q' sy' ty' e' sh' tf'].
  intros [Ho Hg Hc Hcc Hi Hv Hty Hf]. cbn in *. subst. unfold businessCommandFrom. cbn.
  destruct ty'; [destruct Hf as (-> & -> & ->)|destruct Hf as (-> & -> & ->)|subst t'| |]; done.
Qed.

Section restarted.
Context {W : Type} `{PosixFile W} {Q : Type} `{NewSharedQueueLaws sequenceMessage Q}.
Context (header : RunHeaderV1) (cs0 : list JournalCommandV1) (r0 : PathRun W Q) (Hstarted : path_start header cs0 r0).
Context (accepted : list sequenceMessage) (privateOut : list (list RecipientResult)) (publicOut : list (list PublicTrade)).
Context (cs : list JournalCommandV1) (published : list CommandResultBatch) (consumed history : list sequenceMessage).
Context (tail : bytes) (r : PathRun W Q).
Context (Hat : path_at header cs0 (Run.matchingState r0) accepted privateOut publicOut cs published consumed history tail r).

Let run : ExchangeRunId := Header.exchangeRunId header.
Let replayed : list CommandResultBatch := (specRun run (matchingMessageFrom <$> cs0 ++ cs) (queueOf (newMatchingState run))).1.

(** What replaying the journal computes for an accepted command. *)
Lemma replayed_results i : (i < length cs)%nat →
  replayed !! (length cs0 + i)%nat = pathResults header cs0 (Run.matchingState r0) accepted !! i.
Proof.
  intros Hi. destruct (pt_matching _ _ _ Hstarted) as [batches0 Hall0].
  pose proof (po_journal _ _ _ _ _ _ _ (pa_pipeline _ _ _ _ _ _ _ _ _ _ _ _ Hat)) as Hv.
  destruct (replay_valid header (cs0 ++ cs) emptyReplayed Hv (pt_supported _ _ _ Hstarted)) as (st & _ & Hreplay & _).
  destruct (started_replay header cs0 r0 Hstarted _ _ _ _ _ _ _ _ _ Hat batches0 emptyReplayed Hall0) as (st' & Hreplay').
  cbv zeta in Hreplay. rewrite Hreplay in Hreplay'. injection Hreplay' as Heq _. unfold replayed, run. rewrite Heq.
  assert (Hlen : length batches0 = length cs0).
  { destruct (replay_valid header cs0 emptyReplayed (wo_valid _ _ _ _ (pt_writer _ _ _ Hstarted)) (pt_supported _ _ _ Hstarted)) as (st1 & Hall & _).
    rewrite Hall in Hall0. injection Hall0 as <- _. by rewrite specRun_length, length_fmap. }
  rewrite lookup_app_r, Hlen by lia. replace (length cs0 + i - length cs0)%nat with i by lia. by apply lookup_take_lt.
Qed.

(** A retry after the restart is answered with the result. *)
Lemma recovered_answers index i m : (i < length cs)%nat → accepted !! i = Some m →
  recovered 0 (cs0 ++ cs) replayed (mkIndex (Header.maxRunCommands header) run false ∅ noStatistics) index →
  ∃ b, pathResults header cs0 (Run.matchingState r0) accepted !! i = Some b ∧ completedResult m index = Ret (Some b).
Proof.
  intros Hi Hm Hrec. pose proof (po_journal _ _ _ _ _ _ _ (pa_pipeline _ _ _ _ _ _ _ _ _ _ _ _ Hat)) as Hv.
  destruct (lookup_lt_is_Some_2 cs i Hi) as [c Hc].
  assert (Hlook : (cs0 ++ cs) !! (length cs0 + i)%nat = Some c) by (by rewrite lookup_app_r, Nat.add_comm, Nat.add_sub by lia).
  destruct (lookup_lt_is_Some_2 replayed (length cs0 + i)%nat) as [b Hb].
  { unfold replayed. rewrite specRun_length, length_fmap, length_app. lia. }
  exists b. split; [by rewrite <-replayed_results|].
  destruct (rec_command _ _ _ _ _ Hrec _ _ _ Hlook Hb) as (business & Hbusiness & Hrecord).
  pose proof (started_committed header cs0 r0 _ _ _ _ _ _ _ _ _ Hat) as Hcom.
  destruct (Forall2_lookup_l _ _ _ _ _ Hcom Hc) as (m' & Hm' & Hcm).
  assert (Hm'' : m' = sequencedAs (length cs0 + i) m).
  { unfold sequencedAfter in Hm'. rewrite list_lookup_imap, lookup_take_lt, Hm in Hm' by done. by injection Hm' as <-. }
  pose proof (vj_commands _ _ Hv _ _ Hlook) as Hfits. pose proof (committed_key header _ c m' (vj_header _ _ Hv) Hfits Hcm) as Hkey.
  pose proof (same_effect_business _ _ (committed_same_effect _ _ _ Hcm)) as Hbus. rewrite Hm'' in Hkey, Hbus.
  rewrite sequencedAs_key in Hkey. rewrite sequencedAs_business, Hbusiness in Hbus.
  unfold completedResult. rewrite Hkey, Hbus. cbn [mbind outcome_bind]. rewrite Hrecord. cbn. by rewrite !bool_decide_eq_false_2 by auto.
Qed.
End restarted.

(** C7: a killed process resumes where it stopped.  Let the process be killed at any point
    of any execution of the path in which no append has failed, also while it writes a
    frame.  Recovering the run from the file returns: it fails before it changes a byte of
    the journal's commands and can be tried again, or the run is recovered, and then every
    command that reached the journal, in the order of acceptance, is in it; a client that
    submits one of them again gets the very result the specification gave it before; and a
    path installed on the recovered run is again at a start, on the journal as it is, so
    everything shown of a path holds of it. *)
Theorem restart_resumes_the_path {W0} `{PosixFile W0} {W} `{FileSystem W} `{!PosixFile (FileView W)} {Q} `{NewSharedQueueLaws sequenceMessage Q}
    header cs0 (r0 r : PathRun W0 Q) accepted privateOut publicOut fuel p output (w : W) :
  path_start header cs0 r0 → index_recovered cs0 (Run.admissionIndex r0) →
  rtc path_step (r0, [], [], []) (r, accepted, privateOut, publicOut) →
  Path.journalAppendFailure_ (Path.sequencer (Run.processing r)) = None → RunState.journalWriter output = None →
  killed_at header (contents (Run.world r)) (contents (mkView w (unopened p))) →
  (interrupts (mkView w (unopened p)) + length (contents (mkView w (unopened p))) + 1 < fuel)%nat →
  ∃ cs result run' w', recoverRunV1 fuel p output (Some (Header.exchangeRunId header)) w = (Ok (result, run'), w') ∧
    Forall2 (committed_as header) cs (sequencedAfter (length cs0) (take (length cs) accepted)) ∧
    contents (Run.world r) = journalFile header (cs0 ++ cs) ∧
    ((Recovered.outcome result = Recovered.PREPARATION_FAILED ∧ run' = output ∧
        ∃ file, killed_at header (contents (Run.world r)) (contents (mkView w' file))) ∨
     ∃ owned st index, Recovered.outcome result = Recovered.RECOVERED ∧
       run' = RunState.mkRunState (Some owned) (Some st) (Some index) ∧ index_recovered (cs0 ++ cs) index ∧
       (∀ i m, (i < length cs)%nat → accepted !! i = Some m →
          ∃ b, pathResults header cs0 (Run.matchingState r0) accepted !! i = Some b ∧ completedResult m index = Ret (Some b)) ∧
       ∀ submission matching results privateEvents publicTrades (processing : CommandProcessingPath Q),
         Forall is_u64 [submission; matching; results; privateEvents; publicTrades] →
         newProcessingPath run' submission matching results privateEvents publicTrades = Ret processing →
         path_start header (cs0 ++ cs) (Run.mkRun processing index (owned_writer owned) st (mkView w' (owned_file owned)))).
Proof.
  intros Hstarted Hrecovered Hsteps Hnone Hout Hkilled Hf.
  destruct (started_ok _ _ _ Hstarted _ Hsteps) as (cs & published & consumed & history & tail & Hat).
  pose proof (pa_pipeline _ _ _ _ _ _ _ _ _ _ _ _ Hat) as [Hv Hfile _ Hwr _].
  assert (Htail : tail = []).
  { destruct (halted (pathSequencer r)); [|apply Hwr]. destruct Hwr as [_ Hne]. by cbn in Hne. }
  subst tail. rewrite app_nil_r in Hfile.
  pose proof (journal_keys header cs0 r0 Hstarted Hrecovered _ _ _ _ _ _ _ _ _ Hsteps Hat) as Hnd.
  rewrite Hfile in Hkilled. pose proof (pt_supported _ _ _ Hstarted) as Hsup.
  destruct (recover_killed fuel p output w header (cs0 ++ cs) Hv Hsup Hnd Hout Hkilled Hf) as (result & run' & w' & Hrun & Hcase).
  exists cs, result, run', w'. split; [done|]. split; [by eapply started_committed|]. split; [done|].
  destruct Hcase as [(owned & st & index & Ho & -> & Hw & Hall & Hrec)|(Ho & -> & Hk)]; [right|left; by rewrite Hfile].
  destruct (rebuilt_index_ok header _ index Hv Hrec) as [Hok Hplace].
  exists owned, st, index. split_and!; [done|done|done| |].
  - intros i m Hi Hm. by eapply recovered_answers.
  - intros submission matching results privateEvents publicTrades processing Hu Hnew. split; [exact Hw|exact Hsup|by eexists|exact Hok|].
    exists (owned_file owned), submission, matching, results, privateEvents, publicTrades. split; [done|]. by destruct owned.
Qed.

(** ** Witnesses *)

(** The run of the demonstration, recovered from its file by a new process. *)
Definition demoLeft : ScheduledFile := mkScheduledFile (file_contents (Run.world demoRead)) 0 [Interrupted; Short 30; Interrupted].

Example demo_restart :
  match recoverRunV1 1000 "journal" emptyRun (Some 7) demoLeft with
  | (Ok (result, RunState.mkRunState (Some _) (Some _) (Some index)), _) =>
      Recovered.outcome result = Recovered.RECOVERED ∧
      match completedResult demoOrder index with Ret (Some b) => Batch.correlation b = correlationOf 7 (sequencedAs 0 demoOrder) | _ => False end
  | _ => False
  end.
Proof. vm_compute. by split. Qed.

Lemma restart_resumes_the_path_witness : ∃ (cs : list JournalCommandV1) result run' w',
  recoverRunV1 1000 "journal" emptyRun (Some 7) demoLeft = (Ok (result, run'), w') ∧
  contents (Run.world demoRead) = journalFile demoHeader ([] ++ cs).
Proof.
  destruct (restart_resumes_the_path demoHeader [] demoRun demoRead [demoOrder] [default [] demoPop.1] [] 1000 "journal" emptyRun demoLeft
    demo_path_start) as (cs & result & run' & w' & Hrun & _ & Hfile & _);
    [by intros i c ?|exact demo_path_steps|vm_compute; reflexivity|reflexivity|left; vm_compute; reflexivity|vm_compute; lia|].
  exists cs, result, run', w'. split; [exact Hrun|exact Hfile].
Defined.
